(* ===== verification/_CoqProject ===== *)
-Q . S2P
Prelude.v
OrdMap.v
MemTypes.v
PhysFacts.v
VmaFacts.v
MemOps.v
MemInv.v
MemMap.v
Release.v
MemEffects.v
MemAttrs.v
FlexFacts.v
MemReach.v
MemAlloc.v
MemUnmap.v
MemTotal.v
MemExec.v
MemSpec.v
KernelMemory.v
KernelSteps.v
KernelSpec.v
Rtc.v
RtcText.v
RtcFacts.v
RtcTextFacts.v
RtcSpec.v
SlotVector.v
SlotFacts.v
Semaphore.v
SemaFacts.v
SemaSteps.v
SemaSpec.v
PosixSem.v
EventFlag.v
EventSpec.v
Psf.v
PsfFacts.v
PsfSpec.v
Lru.v
LruSpec.v
SleepQueue.v
SleepFacts.v
SleepSpec.v
Threads.v
Mutex.v
CondVar.v
SyncSteps.v
MutexFacts.v
MutexSteps.v
MutexSpec.v
CondSteps.v
CondReach.v
CondSpec.v
Rwlock.v
RwFacts.v
RwSpec.v
Mspace.v
MspaceArena.v
MspaceReach.v
MspaceSpec.v
BitArray.v
BitFacts.v
PageManager.v
PageFacts.v
MemoryTracker.v
TrackFacts.v
TrackOps.v
TrackSpec.v
TrackCoherence.v
Equeue.v
EqueueFacts.v
EqueueSpec.v
Fiber.v
FiberFacts.v
FiberSteps.v
FiberSpec.v
BoundedQueue.v
QueueSpec.v
FileSys.v
FileSpec.v
