(* ===== verification/Prelude.v ===== *)
(** * A verification of PS4Droid's kernel services

    PS4Droid runs PlayStation 4 programs on another host.  This library models
    parts of it as pure functions and proves what they promise: the guest's
    memory (the memory manager and the system calls above it), the kernel's
    semaphores, event flags, mutexes, condition variables, read-write locks and
    event queues, the table of file handles with the mount points and the calls that
    open and change files, the fibers, the real-time clock library, the memory spaces
    of the C library, the PSF format of parameter files, the tracking of what CPU and
    GPU have modified, and four containers of the emulator.  Paths below are relative
    to [src/src/].

    ** The program's parts

    - [core/memory.{h,cpp}], class [MemoryManager]: the map of the guest's
      virtual address space ([vma_map]) and the maps of the two kinds of
      physical memory it hands out ([dmem_map], direct memory, which the guest
      allocates and maps itself; [fmem_map], flexible memory, which mappings
      take as they need it).  Its operations split, retype and merge the
      entries of these maps, and tell the host address space and the GPU.
    - [core/memory_map_generation.h]: the counter by which readers notice that
      the map changed under them; [common/alignment.h]: rounding.
    - [core/libraries/kernel/memory.cpp]: the guest's system calls, which check
      arguments, call the manager and translate its errors ([kernel.cpp]).
    - [core/libraries/rtc/rtc.cpp]: dates, ticks (microseconds since year 1),
      their arithmetic, DOS, [time_t] and Win32 formats, RFC 2822 and RFC 3339
      texts, and the clock calls.
    - [core/libraries/kernel/threads/semaphore.cpp]: the guest's semaphores,
      objects with tokens and a queue of waiting threads that live in a slot
      vector of handles, and the POSIX semaphores, which pair a host semaphore
      with a counter; [threads/event_flag.cpp]: 64 bits threads wait for.
    - [threads/sleepq.{h,cpp}]: queues of sleeping threads, one for each wait
      channel, in a hash table; a thread lends its own queue object to the first
      sleeper of a channel.  [threads/mutex.cpp] and [threads/condvar.cpp]: the
      guest's mutexes, and condition variables whose signals are deferred when
      the waiter's mutex is held by the signaller.  [threads/rwlock.cpp] on
      [common/shared_first_mutex.h]: read-write locks that prefer readers.
    - [core/libraries/kernel/equeue.{h,cpp}]: queues of events a guest waits for,
      which it triggers itself or which timers of the host and the GPU trigger.
    - [core/file_sys/fs.{h,cpp}]: the mount points, which turn a guest path into a path
      of the host, with folders of updates and modifications beside that of a title
      and a search for names in another case, and the table of handles, which files,
      sockets and event queues share; [core/libraries/kernel/file_system.cpp]: the
      calls on them.
    - [core/libraries/fiber/fiber.{h,cpp}] and [fiber_context.s]: stacks that threads
      switch between.
    - [core/libraries/libc_internal/mspace.cpp]: allocators over ranges of guest
      memory, with their free lists and allocation tables on the host, and the
      registry of their handles.
    - [core/file_format/psf.{h,cpp}]: the key-value files that describe a title
      and its saved data.
    - [video_core/page_manager.cpp]: counts, for each page, the caches that watch it
      and protects it on the host accordingly; [video_core/buffer_cache/]
      [region_manager.h] and [memory_tracker.h]: which pages CPU and GPU have
      modified, in regions of 4 MB made on demand, on [common/bit_array.h], arrays
      of bits with searches for runs.
    - [common/slot_vector.h], a store with stable handles, which holds the
      semaphores, [common/lru_cache.h], a list in order of use, by which the
      caches of the video core choose what to drop, and
      [common/bounded_threadsafe_queue.h], a ring between threads.

    ** How code becomes definitions

    A [u64], [u32] or [u16] is a [Z] with the wrap-around of every operation
    that can leave its width written out ([wadd], [wsub], [u32], ...).  Code
    that can fail an assertion, run into undefined behaviour or, in a loop with
    fuel, run out of it returns an [outcome] with a [fault].  A [std::map] is a
    list of entries in key order ([omap]), an iterator is its key.  The state
    of the manager is the record [MemoryManager]; its calls to the host address
    space, to the rasterizer (taken to be attached) and to the backing memory
    are appended to its [events].  The manager's locks are left out: an
    operation is one critical section, and operations run one after the other.
    Logging is left out.  What other parts supply is an argument: the usable regions of the
    address space, the file behind a descriptor ([FileInfo]), the host's page
    size, the kernel's clock, time zone and SDK version ([RtcEnv]).

    In the synchronisation objects threads interleave.  Every critical section
    is one step; a thread that sleeps is a [Frame] of the state, the locals of
    its call, and it takes its next step when something woke it or, where the
    code allows it, at a time-out or a spurious wake-up.  Elapsed times are
    arguments of the step.  Host semaphores and condition variables behave as
    their documentation says.  Pointers to shared objects are addresses into an
    explicit store ([Semas], [PosixSems], the [item_pool] of the cache), so that
    the use of a freed object is [Undefined].

    A call on a mutex, condition variable or read-write lock that has more than
    one critical section leaves the thread at a program counter ([Pc], [RwPc]),
    one constructor for each place where others can run, with the locals as its
    arguments; [advance] and [rw_advance] take the next step.  Such a step has as
    arguments what the environment decides: whether a host lock could be had at
    once ([lucky]), whether the time is over ([late]).  A host mutex is its
    holder, a wake-up semaphore of a thread a number of tokens; the chain locks
    of the sleep queues are held only within a step.  A call on the bounded queue is
    at a [QPc], one for each access to something shared.  A call on a fiber runs as
    one step up to its jump, and the code behind the jump, on another stack, is a step
    of its own ([land]); the contexts saved in between are locals of functions, which
    cease to exist when these return.  Where the code of a jump hands a fiber back and
    then still reads from its stack, other threads can run in between ([Fetching]), and
    the read is [Undefined] once the stack is in use again.  A call on a POSIX
    semaphore has a [Phase] between any two accesses, each of which reads the guest's
    pointer anew.

    The host's file system is an argument of the file calls: after the operations
    carried out so far ([HostOp]) it gives the answers to all questions ([HostView]).
    The theorems assume of it that it fails with exceptions only and that the root
    exists ([HostLaws]).

    Loops over a map whose entries the loop changes have fuel: one more than
    the number of entries, as every round either ends the loop or passes the
    end of one entry.  The theorems that say that a call completes
    ([Protect_exact], [UnmapMemory_exact], [NameVirtualRange_exact],
    [MapMemory_unbacked], ...) include that this fuel is enough, and that no
    assertion fails.  The scans of a word of the slot vector have the 64 bits of
    the word as fuel, its iteration the capacity, and the walk of the cache the
    size of its pool; the walk over the regions of a range has two more rounds than
    the range has times the size of a region, the iteration over the runs of a bit
    array one more than it has bits; the refinement theorems show that they suffice.
    The way up in the search for a path has one more round than the path has bytes,
    which [open_exact] shows to be enough; the loop of [sceFiberGetInfo], which need
    not end, has any number.

    ** The files

    - [Prelude]: words, [outcome], error codes, tactics and shared lemmas.
      [OrdMap]: ordered maps; maps of disjoint ranges of any kind of [Area],
      their well-formedness [wf_from] and the function from addresses to
      attributes they denote ([view]), which is the abstract state the
      specifications speak about.
    - [MemTypes] (the data; split, merge, carve) and [MemOps]
      (all other operations) translate the manager; [PhysFacts] and [VmaFacts]
      show that splitting, carving and merging keep maps well formed and do not
      change their view.
    - [MemInv], [MemMap], [MemEffects], [MemAttrs]: for every operation, that it keeps the structural invariant
      [mm_wf] and what it does to the view.  [FlexFacts]: no byte
      of flexible memory is mapped twice and the usage counter is exact.
      [MemReach]: the state machine of the manager ([booted], [step],
      [reachable]) and its invariant [mm_inv].  [PhysFacts] and [Release]:
      where areas begin and how carving and merging move these places, which
      decides whether releasing memory piece by piece meets its assertions.
      [MemAlloc]: first fit and the queries.  [MemUnmap] and [MemTotal]: unmapping,
      backing and mapping always complete.  [MemExec]: shared memory is not
      recorded as executable.  [MemSpec]: the
      properties of the manager.
    - [KernelMemory] translates the system calls; [KernelSteps] shows that
      each of them is a sequence of manager steps; [KernelSpec]: their
      properties, and unexpected runs of manager and calls.
    - [Rtc] and [RtcText] translate the clock library; [RtcFacts] relates the
      code's calendar arithmetic to the calendar ([ticks_of], [civil]);
      [RtcTextFacts] treats printing and parsing; [RtcSpec]: the properties.
    - [SlotVector] translates the slot vector; [SlotFacts] states what a store
      with handles promises ([SlotStore]) and shows that the vector is one.
    - [Semaphore] translates the semaphores on top of it; [SemaFacts] treats the
      queue and the loop of [Signal]; [SemaSteps] has the state machine of all
      threads, its invariant and the abstract effect of each step
      ([sema_effect]); [SemaSpec]: the properties.  [PosixSem]: the POSIX
      semaphores, their machine and its invariant.
    - [EventFlag] translates the event flags; [EventSpec]: their machine and
      properties.
    - [SleepQueue] translates the sleep queues, [SleepFacts] treats the table and
      [SleepSpec] shows that it is a map from channels to lists of threads.
    - [Threads] holds what the synchronisation objects use of a thread and the
      state they share ([World]); [Mutex] and [CondVar] translate the objects,
      [SyncSteps] their machine.  [MutexFacts] and [MutexSteps] show what each
      step keeps of the invariant of mutexes, [MutexSpec] that a mutex is a lock.
      [CondSteps] does the same for condition
      variables, [CondReach] for histories; [CondSpec]: their properties.
    - [Rwlock] translates the read-write locks, [RwFacts] has their invariant,
      [RwSpec] their properties.
    - [Equeue] translates the event queues, [EqueueFacts] has the invariant of queues
      and timers and the effect of each operation, [EqueueSpec] the machine of calls,
      waiting threads and timer handlers, the properties and unexpected runs.
    - [FileSys] translates mount points, table of handles and file calls; [FileSpec]:
      paths and their names, the effect of every call, the machine of all calls, the
      machine of files and event queues together, the properties and unexpected runs.
    - [Fiber] translates the fibers, [FiberFacts] has the invariant of fibers, contexts
      and threads, [FiberSteps] the effect of each call and the machine of all threads,
      [FiberSpec] the properties and unexpected runs.
    - [BoundedQueue] translates the bounded queue, [QueueSpec] has its machine, the
      invariant and the properties.
    - [Mspace] translates the memory spaces.  [MspaceArena]: the
      list of free blocks, the invariant of an arena and the effect of its operations;
      [MspaceReach]: the machine of the registry and its invariant;
      [MspaceSpec]: the properties.
    - [Psf] translates buffers, little-endian fields and C strings, and on them the
      format, [PsfFacts] relates the encoded tables to the entries, [PsfSpec]:
      the properties.
    - [Lru] translates the cache, [LruSpec] the list it stands for.
    - [BitArray] translates the bit arrays; [BitFacts]: bits of words,
      ranges and the searches.  [PageManager] translates the watchers, [PageFacts]
      shows that a walk changes the counters of its pages and leaves the host's
      protection in line with them.  [MemoryTracker] translates regions and tracker;
      [TrackFacts]: one region, the invariant of the tracker and the
      walk over regions; [TrackOps]: the effect of every call on the modified pages
      ([marks]); [TrackSpec]: the abstract machine; [TrackCoherence]: a cache in
      front of it, and unexpected runs.

    ** What the theorems show

    - Invariants over all histories: the maps stay well formed and tiled, the
      flexible memory isolated, the generation counter even
      ([reachable_well_formed], for callers of [MapMemory] that do not ask it for the
      type [Pooled], as those in the program; [flexible_isolated],
      [generation_quiescent]); no history of system calls records shared memory as
      executable ([shared_memory_never_executable]).
    - Every outcome of [sceKernelMapNamedDirectMemory], from its checks to the bytes
      behind the addresses ([MapNamedDirectMemory_exact]).
    - The exact effect of mapping, unmapping, protecting, naming, committing
      and allocating on the view, the failing branches included; what the
      queries report; that a mapping is placed on free addresses; that carving
      and merging are invisible.  [Protect] reads an entry it may have erased:
      [Protect_exact] says when ([stays_apart]), and [protect_reads_erased_entry] is a
      run that does.
    - Behaviour of the calls: batches stop at the first failure, [mmap] reports
      the manager's verdict through [errno], [mprotect] rounds to pages.
    - The clock: ticks and dates correspond one to one before year 10000,
      weekday and month arithmetic follow the calendar, and the formats round
      trip within the limits each theorem states.
    - Semaphores: every step of every history is one of an abstract semaphore
      ([semaphores_refine]), a signal serves the queue in order ([Signal_serves]),
      tokens stay within bounds where the arguments do, a signalled thread
      returns.  POSIX values are exact up to the calls in flight and calls end on the
      object they began on ([posix_sem_value_exact]), as long as no semaphore is
      destroyed or initialised again under a call.
    - Event flags: no wake-up is lost, a wait returns for the reason its code
      says, cancelling terminates.
    - Sleep queues are lists by channel ([SleepQueue_refines]).  Every step of
      every history of mutex and condition variable calls is one of an abstract
      lock ([mutex_refines_lock]); no wake-up of a condition variable is lost
      ([no_wakeup_lost]): a signalled thread has its token, or is on the list of a
      thread that will release it; what a signal and a broadcast wake and when
      deferred wake-ups are delivered.  Read-write locks exclude
      ([rwlock_excludes]) and a released lock is granted ([rwlock_grants]).
    - Event queues: names are unique and every periodic timer has one pending handler
      ([equeue_ordered]); no edge-triggered event is missed by a sleeping thread
      ([no_event_missed]); a wait takes the oldest triggered events, or the expired
      short timers if the queue has short timers ([wait_collects]); timers do not drift ([timer_ticks]) and lose at most a
      nanosecond in the conversion of their interval ([hr_interval]).
    - Files: the table of handles is a finite map over all histories
      ([handle_table_refines]); [open] gives the least free handle or changes nothing
      ([open_exact]); nothing is written below a read-only mount
      ([read_only_untouched]); where a guest path leads ([GetHostPath_resolves]) and
      what a directory lists ([IterateDirectory_merges]).  The table gives event
      queues the fresh handles their theorems are about, as long as the guest does not
      close a queue's handle as a file ([queue_handles_fresh]).
    - Fibers: a fiber runs on one thread at a time and keeps a live context
      ([fiber_exclusive]); calls complete ([fiber_calls_complete]); a switch, a run and
      a return arrive where they should with their arguments ([switch_delivers],
      [run_and_return]), a switch to a fiber that has not started unless another thread
      takes the fiber that was left before its stack has been read for the last time; when the query of a stack's margin answers ([info_margin]).
    - The bounded queue is first in, first out ([queue_is_fifo], [queue_steps_exact]),
      without races on its slots ([queue_race_free]) and without lost wake-ups
      ([queue_no_lost_wakeup]); a pop that finds a value returns, woken by the push
      where it sleeps ([pop_returns]).
    - Memory spaces: live allocations are isolated over all histories
      ([mspace_allocations_isolated]), every call does to the table of allocations
      what its specification says ([mspace_calls_refine]) and returns
      ([mspace_calls_return]); creation, destruction and the usable size.
    - Modification tracking: every call implements an abstract machine of modified
      pages and reports exactly the bytes of those its range meets
      ([tracker_calls_refine]); the host's protection always follows it
      ([tracker_protects]); with precise readbacks guest memory and GPU buffers
      stay coherent ([precise_coherent]) and faults are resolved ([faults_resolve]);
      the vectorised search finds the same runs ([scan_paths_agree]).
    - PSF: the [Add] and [Get] functions are a typed map, and encoding and opening
      round trip for key tables of at most 64 KiB and files below 2 GiB.  The slot vector is a finite map, the cache a list.

    ** What is not modelled

    The manager's locks and the interleaving of its operations; the host address space, the
    GPU and the contents of memory (apart from the record of writes to the
    backing memory); [RegisterMemory] and [RegisterLib], which fill a symbol
    table, and stubs that return a constant.  Unmapping and decommitting direct memory are
    shown to complete only where that memory is mapped, unaliased and unsplit
    ([ready]): with aliased direct memory the assertions can fail
    ([aliased_unmap_aborts]).  Mappings that replace others
    ([MemoryMapFlags.Fixed]) are covered by the invariants only.  Of the PSF code the overloads on file
    paths are left out.  A wait on a semaphore that is deleted meanwhile is
    undefined in the code and so in the model.  The theorems about condition
    variables are for histories in which [signalto_np] names a thread that can be
    waiting there ([sane]), those about read-write locks for histories in which
    threads unlock what they hold and destroy only locks not in use: what happens otherwise is among the findings.
    A call on an event queue runs as one step up to the place where it waits, and the
    GPU and the display trigger events at any time ([CSource]).
    Of the file calls those that move bytes (read, write, seek, stat, select) are left
    out, and so are devices and directories as objects; each call is one step.  The
    theorems about fibers are for histories in which guests initialise only fibers that
    do not run, on stacks of their own, leave the signatures of the stacks alone and
    do not return from a fiber's entry ([sane]); registers other than the stack and
    frame pointers are not kept.  The indices of the bounded queue
    are sequentially consistent, and the sections under the locks of its condition
    variables one step each.
    The calls of the memory tracker run one after the other, for callers that keep
    to [admissible]; the watchers are those of the variant that protects through the
    address space, and of the buffer cache only the calls it makes are modelled.
    Of [threads/pthread.cpp] only the fields these objects use are modelled.  The
    other parts of the emulator (thread creation, loader, shader recompiler, video,
    audio, network, user interface) are outside this library. *)

(** ** Shared words, outcomes and automation *)

From Stdlib Require Export ZArith Lia.
From stdpp Require Export base numbers option decidable strings list.

#[global] Open Scope Z_scope.

(** ** Machine words

    C++ [u64]/[u32]/[u16] values are [Z] in [[0, 2^w)]; every addition,
    subtraction and multiplication of the source that can leave the range is
    written with the wrapping operators below. *)

Definition W64 : Z := 18446744073709551616.
Definition W32 : Z := 4294967296.
Definition W16 : Z := 65536.

Definition u64 (z : Z) : Z := z mod W64.
Definition u32 (z : Z) : Z := z mod W32.
Definition u16 (z : Z) : Z := z mod W16.

(** Two's complement reading of the low [w] bits. *)
Definition s64 (z : Z) : Z :=
  let r := z mod W64 in if r <? W64 / 2 then r else r - W64.
Definition s32 (z : Z) : Z :=
  let r := z mod W32 in if r <? W32 / 2 then r else r - W32.
Definition s16 (z : Z) : Z :=
  let r := z mod W16 in if r <? W16 / 2 then r else r - W16.

Definition wadd (a b : Z) : Z := u64 (a + b).
Definition wsub (a b : Z) : Z := u64 (a - b).
Definition wmul (a b : Z) : Z := u64 (a * b).

(** [static_cast<u64>(-1)], the sentinel of several interfaces. *)
Definition MINUS_1 : Z := 18446744073709551615.

Definition KB (x : Z) : Z := 1024 * x.
Definition MB (x : Z) : Z := 1024 * 1024 * x.
Definition GB (x : Z) : Z := 1024 * 1024 * 1024 * x.

(** ** Outcomes

    [AssertFailed] is a failed [ASSERT]/[ASSERT_MSG]/[UNREACHABLE] (the
    emulator aborts), [Undefined] an access C++ leaves undefined (a
    decremented [begin()], a dereferenced [end()], an overflowing signed
    operation), [Uncaught] a C++ exception nothing catches, [OutOfFuel] a loop of the
    model that did not reach its exit within its fuel. *)

Inductive fault := AssertFailed | Undefined | Uncaught | OutOfFuel.

Inductive outcome (A : Type) : Type :=
  | Done (a : A)
  | Raised (f : fault).
Arguments Done {A} _.
Arguments Raised {A} _.

#[export] Instance fault_eq_dec : EqDecision fault.
Proof. solve_decision. Defined.

Definition obind {A B} (m : outcome A) (k : A -> outcome B) : outcome B :=
  match m with
  | Done a => k a
  | Raised f => Raised f
  end.

Definition oassert (b : bool) : outcome unit :=
  if b then Done tt else Raised AssertFailed.

Definition of_option {A} (o : option A) : outcome A :=
  match o with
  | Some a => Done a
  | None => Raised Undefined
  end.

Declare Scope outcome_scope.
Delimit Scope outcome_scope with outcome.
Notation "'let!' x := m 'in' k" := (obind m (fun x => k))
  (at level 10, x binder, m at level 100, k at level 200) : outcome_scope.
Notation "m ;;! k" := (obind m (fun _ => k))
  (at level 199, right associativity) : outcome_scope.
#[global] Open Scope outcome_scope.

(** ** Automation *)

Create HintDb words.
Create HintDb areas.

Lemma wadd_small a b : 0 <= a + b < W64 -> wadd a b = a + b.
Proof. intros. unfold wadd, u64. apply Z.mod_small. assumption. Qed.

Lemma wsub_small a b : 0 <= a - b < W64 -> wsub a b = a - b.
Proof. intros. unfold wsub, u64. apply Z.mod_small. assumption. Qed.

Lemma u64_small a : 0 <= a < W64 -> u64 a = a.
Proof. apply Z.mod_small. Qed.

Lemma u64_range a : 0 <= u64 a < W64.
Proof. unfold u64. apply Z.mod_pos_bound. reflexivity. Qed.

Lemma wadd_range a b : 0 <= wadd a b < W64.
Proof. apply u64_range. Qed.

Lemma wsub_range a b : 0 <= wsub a b < W64.
Proof. apply u64_range. Qed.

#[export] Hint Resolve u64_range wadd_range wsub_range : words.

(** [word_lia] closes linear goals in which the wrapping operators do not
    wrap; [word_simpl] removes those it can show not to wrap. *)
Ltac word_lia := unfold W64, W32, W16, MINUS_1, KB, MB, GB in *; lia.

Ltac word_simpl :=
  repeat first
    [ rewrite wadd_small by word_lia
    | rewrite wsub_small by word_lia
    | rewrite u64_small by word_lia ].

Ltac word_simpl_in H :=
  repeat first
    [ rewrite wadd_small in H by word_lia
    | rewrite wsub_small in H by word_lia
    | rewrite u64_small in H by word_lia ].

(** The signed readings of words in range. *)
Lemma s32_small z : - 2147483648 <= z < 2147483648 -> s32 z = z.
Proof.
  intros H. unfold s32, W32. change (4294967296 / 2) with 2147483648.
  destruct (Z.le_gt_cases 0 z).
  - rewrite Z.mod_small by lia. destruct (Z.ltb_spec z 2147483648); lia.
  - replace (z mod 4294967296) with (z + 4294967296) by (apply Z.mod_unique_pos with (-1); lia).
    destruct (Z.ltb_spec (z + 4294967296) 2147483648); lia.
Qed.

Lemma s64_small z : 0 <= z < 9223372036854775808 -> s64 z = z.
Proof.
  intros Hz. unfold s64. change (W64 / 2) with 9223372036854775808. rewrite Z.mod_small by (unfold W64; lia).
  by rewrite (proj2 (Z.ltb_lt _ _)) by lia.
Qed.

Lemma s32_reads v : - 2147483648 <= v < 2147483648 -> s32 (v mod W32) = v.
Proof. intros Hv. unfold s32. rewrite Z.mod_mod by discriminate. fold (s32 v). apply s32_small, Hv. Qed.

(** Case analysis on the boolean comparisons of the source. *)
Ltac split_cmp :=
  repeat match goal with
    | |- context [?a <? ?b] => destruct (Z.ltb_spec a b)
    | |- context [?a <=? ?b] => destruct (Z.leb_spec a b)
    | |- context [?a =? ?b] => destruct (Z.eqb_spec a b)
    end; cbn [andb orb negb].

Ltac bool_prop :=
  repeat match goal with
    | H : (_ && _)%bool = true |- _ => apply andb_true_iff in H; destruct H
    | H : (_ && _)%bool = false |- _ => apply andb_false_iff in H
    | H : (_ || _)%bool = true |- _ => apply orb_true_iff in H
    | H : (_ || _)%bool = false |- _ => apply orb_false_iff in H; destruct H
    | H : negb _ = true |- _ => apply negb_true_iff in H
    | H : negb _ = false |- _ => apply negb_false_iff in H
    | H : (_ <? _) = true |- _ => apply Z.ltb_lt in H
    | H : (_ <? _) = false |- _ => apply Z.ltb_ge in H
    | H : (_ <=? _) = true |- _ => apply Z.leb_le in H
    | H : (_ <=? _) = false |- _ => apply Z.leb_gt in H
    | H : (_ =? _) = true |- _ => apply Z.eqb_eq in H
    | H : (_ =? _) = false |- _ => apply Z.eqb_neq in H
    | H : bool_decide _ = true |- _ => apply bool_decide_eq_true in H
    | H : bool_decide _ = false |- _ => apply bool_decide_eq_false in H
    end.

(** Inversion of a successful monadic step. *)
Lemma obind_Done {A B} (m : outcome A) (k : A -> outcome B) b :
  obind m k = Done b -> exists a, m = Done a /\ k a = Done b.
Proof. destruct m; cbn; [eauto | discriminate]. Qed.

Lemma oassert_Done b u : oassert b = Done u -> b = true.
Proof. destruct b; [reflexivity | discriminate]. Qed.

Lemma of_option_Done {A} (o : option A) a : of_option o = Done a -> o = Some a.
Proof. destruct o; cbn; congruence. Qed.

Ltac outcome_inv :=
  repeat match goal with
    | H : obind _ _ = Done _ |- _ =>
        let a := fresh "a" in let E := fresh "E" in
        apply obind_Done in H; destruct H as (a & E & H)
    | H : oassert _ = Done _ |- _ => apply oassert_Done in H
    | H : of_option _ = Done _ |- _ => apply of_option_Done in H
    | H : Done _ = Done _ |- _ => injection H; clear H; intros; subst
    | H : Raised _ = Done _ |- _ => discriminate H
    end.

(** The same through the pairs the operations return. *)
Ltac run_inv :=
  repeat first
    [ progress outcome_inv
    | match goal with
      | H : (let (_, _) := ?p in _) = Done _ |- _ => is_var p; destruct p as [? ?]
      | H : Done (_, _) = Done (_, _) |- _ => injection H; clear H; intros; subst
      end ].

Lemma exists_last_or_nil {A} (l : list A) : l = [] \/ exists l' x, l = l' ++ [x].
Proof. destruct l as [|x l] using rev_ind; eauto. Qed.

(** Kernel error codes (orbis_error.h), as the [s32] they are returned as. *)
Definition ORBIS_OK : Z := 0.
Definition ORBIS_KERNEL_ERROR_UNKNOWN : Z := s32 0x80020000.
Definition ORBIS_KERNEL_ERROR_ENOENT : Z := s32 0x80020002.
Definition ORBIS_KERNEL_ERROR_EBADF : Z := s32 0x80020009.
Definition ORBIS_KERNEL_ERROR_ENOMEM : Z := s32 0x8002000C.
Definition ORBIS_KERNEL_ERROR_EACCES : Z := s32 0x8002000D.
Definition ORBIS_KERNEL_ERROR_EFAULT : Z := s32 0x8002000E.
Definition ORBIS_KERNEL_ERROR_EBUSY : Z := s32 0x80020010.
Definition ORBIS_KERNEL_ERROR_EINVAL : Z := s32 0x80020016.
Definition ORBIS_KERNEL_ERROR_EAGAIN : Z := s32 0x80020023.
Definition ORBIS_KERNEL_ERROR_ENAMETOOLONG : Z := s32 0x8002003F.
Definition ORBIS_KERNEL_ERROR_EPERM : Z := s32 0x80020001.
Definition ORBIS_KERNEL_ERROR_ESRCH : Z := s32 0x80020003.
Definition ORBIS_KERNEL_ERROR_ETIMEDOUT : Z := s32 0x8002003C.
Definition ORBIS_KERNEL_ERROR_ECANCELED : Z := s32 0x80020055.

(** The POSIX codes behind them. *)
Definition POSIX_EPERM : Z := 1.
Definition POSIX_ENOENT : Z := 2.
Definition POSIX_ESRCH : Z := 3.
Definition POSIX_EBADF : Z := 9.
Definition POSIX_EDEADLK : Z := 11.
Definition POSIX_ENOMEM : Z := 12.
Definition POSIX_EBUSY : Z := 16.
Definition POSIX_EINVAL : Z := 22.
Definition POSIX_EAGAIN : Z := 35.
Definition POSIX_ETIMEDOUT : Z := 60.
Definition POSIX_EOVERFLOW : Z := 84.

(** [kernel.cpp] *)
Definition ErrnoToSceKernelError (error : Z) : Z := s32 (error + ORBIS_KERNEL_ERROR_UNKNOWN).
