(* ===== verification/OrdMap.v ===== *)
(** * OrdMap: [std::map] keyed by addresses, and maps of address ranges

    [omap A] is a [std::map<uintptr_t, A>]: the list of its entries in key
    order.  An iterator is the key it points at ([std::map] iterators survive
    insertions and the erasure of other entries), and iterating forward from
    an iterator is recursion on the suffix of the list that starts there.

    The second half is the theory the memory manager rests on: maps whose
    entries are disjoint address ranges ([wf_from]), the function from
    addresses to attributes such a map denotes ([view]), and how replacing a
    run of entries by another changes it. *)

From S2P Require Import Prelude.

Definition omap (A : Type) : Type := list (Z * A).

Section ops.
Context {A : Type}.

(** [m.find(k)->second] *)
Fixpoint mlookup (k : Z) (m : omap A) : option A :=
  match m with
  | [] => None
  | (k', a) :: m' => if k' =? k then Some a else mlookup k m'
  end.

(** [m[k] = v]: the entry is overwritten or inserted at its place *)
Fixpoint mset (k : Z) (v : A) (m : omap A) : omap A :=
  match m with
  | [] => [(k, v)]
  | (k', a) :: m' =>
      if k <? k' then (k, v) :: (k', a) :: m'
      else if k =? k' then (k, v) :: m'
      else (k', a) :: mset k v m'
  end.

(** [m.emplace_hint(_, k, v)]: an entry already there is kept *)
Definition memplace (k : Z) (v : A) (m : omap A) : omap A :=
  match mlookup k m with
  | Some _ => m
  | None => mset k v m
  end.

(** [m.erase(it)] *)
Fixpoint merase (k : Z) (m : omap A) : omap A :=
  match m with
  | [] => []
  | (k', a) :: m' => if k' =? k then m' else (k', a) :: merase k m'
  end.

(** Assignment through an iterator: [it->second = f(it->second)] *)
Fixpoint malter (f : A -> A) (k : Z) (m : omap A) : omap A :=
  match m with
  | [] => []
  | (k', a) :: m' => if k' =? k then (k', f a) :: m' else (k', a) :: malter f k m'
  end.

(** [std::prev(m.upper_bound(t))] and everything after it; [None] when that
    would decrement [begin()] *)
Fixpoint mfind (t : Z) (m : omap A) : option (omap A) :=
  match m with
  | [] => None
  | (k, a) :: m' =>
      if k <=? t then
        match mfind t m' with
        | Some s => Some s
        | None => Some ((k, a) :: m')
        end
      else None
  end.

(** [std::prev(m.upper_bound(t))] as an entry *)
Definition mle (t : Z) (m : omap A) : option (Z * A) :=
  match mfind t m with
  | Some (e :: _) => Some e
  | _ => None
  end.

(** [std::next(it)] and everything after it *)
Fixpoint mafter (k : Z) (m : omap A) : omap A :=
  match m with
  | [] => []
  | (k', a) :: m' => if k <? k' then (k', a) :: m' else mafter k m'
  end.

Definition mnext (k : Z) (m : omap A) : option (Z * A) := head (mafter k m).

(** [std::prev(it)]; [None] when [it == begin()] *)
Definition mprev (k : Z) (m : omap A) : option (Z * A) := mle (k - 1) m.

Definition below (k : Z) (l : omap A) : Prop := Forall (fun e => e.1 < k) l.
Definition above (k : Z) (l : omap A) : Prop := Forall (fun e => k < e.1) l.
End ops.

(** ** Laws of the map operations on a list split around a key *)

Section laws.
Context {A : Type}.
Implicit Types (m l r : omap A) (k t : Z) (a v : A).

Lemma mlookup_mid k a l r : below k l -> mlookup k (l ++ (k, a) :: r) = Some a.
Proof.
  induction 1 as [|[k' a'] l Hk _ IH]; cbn in *; split_cmp; try lia; auto.
Qed.

Lemma mlookup_absent k l r : below k l -> above k r -> mlookup k (l ++ r) = None.
Proof.
  intros Hl Hr; induction Hl as [|[k' a'] l Hk _ IH]; cbn in *; split_cmp; try lia; auto.
  induction Hr as [|[k' a'] r Hk _ IH]; cbn in *; split_cmp; try lia; auto.
Qed.

Lemma mset_mid k a v l r :
  below k l -> mset k v (l ++ (k, a) :: r) = l ++ (k, v) :: r.
Proof.
  induction 1 as [|[k' a'] l Hk _ IH]; cbn in *; split_cmp; try lia; congruence.
Qed.

Lemma mset_absent k v l r :
  below k l -> above k r -> mset k v (l ++ r) = l ++ (k, v) :: r.
Proof.
  intros Hl Hr; induction Hl as [|[k' a'] l Hk _ IH]; cbn in *.
  - destruct Hr as [|[k' a'] r Hk _]; cbn in *; [done|]. split_cmp; try lia; done.
  - split_cmp; try lia; congruence.
Qed.

Lemma memplace_absent k v l r :
  below k l -> above k r -> memplace k v (l ++ r) = l ++ (k, v) :: r.
Proof.
  intros. unfold memplace. rewrite mlookup_absent by done. by apply mset_absent.
Qed.

Lemma merase_mid k a l r : below k l -> merase k (l ++ (k, a) :: r) = l ++ r.
Proof.
  induction 1 as [|[k' a'] l Hk _ IH]; cbn in *; split_cmp; try lia; congruence.
Qed.

Lemma merase_second k k2 a a2 l r :
  below k l -> k < k2 -> merase k2 (l ++ (k, a) :: (k2, a2) :: r) = l ++ (k, a) :: r.
Proof.
  induction 1 as [|[k' a'] l Hk _ IH]; cbn in *; intros; repeat (split_cmp; try lia); try done.
  rewrite IH by done. done.
Qed.

Lemma malter_mid f k a l r :
  below k l -> malter f k (l ++ (k, a) :: r) = l ++ (k, f a) :: r.
Proof.
  induction 1 as [|[k' a'] l Hk _ IH]; cbn in *; split_cmp; try lia; congruence.
Qed.

Lemma mfind_above t r : above t r -> mfind t r = None.
Proof. destruct 1 as [|[k a] r Hk]; cbn in *; split_cmp; try lia; done. Qed.

Lemma mfind_mid t k a l r :
  below k l -> k <= t -> above t r -> mfind t (l ++ (k, a) :: r) = Some ((k, a) :: r).
Proof.
  intros Hl Ht Hr; induction Hl as [|[k' a'] l Hk _ IH]; cbn in *.
  - rewrite mfind_above by done. split_cmp; try lia; done.
  - rewrite IH. split_cmp; try lia; done.
Qed.

Lemma mle_mid t k a l r :
  below k l -> k <= t -> above t r -> mle t (l ++ (k, a) :: r) = Some (k, a).
Proof. intros. unfold mle. by rewrite mfind_mid. Qed.

Lemma mafter_mid k a l r : below k l -> above k r -> mafter k (l ++ (k, a) :: r) = r.
Proof.
  intros Hl Hr; induction Hl as [|[k' a'] l Hk _ IH]; cbn in *; split_cmp; try lia; auto.
  destruct Hr as [|[k' a'] r Hk]; cbn in *; split_cmp; try lia; done.
Qed.

Lemma mnext_mid k a l r :
  below k l -> above k r -> mnext k (l ++ (k, a) :: r) = head r.
Proof. intros. unfold mnext. by rewrite mafter_mid. Qed.

Lemma mprev_first k a r : mprev k ((k, a) :: r) = None.
Proof. unfold mprev, mle. cbn. split_cmp; try lia; done. Qed.

Lemma mprev_mid k k' a a' l r :
  below k' l -> k' < k -> mprev k (l ++ (k', a') :: (k, a) :: r) = Some (k', a').
Proof.
  intros Hl Hk. unfold mprev, mle.
  induction Hl as [|[k2 a2] l Hk2 _ IH]; cbn in *.
  - repeat (split_cmp; try lia); done.
  - destruct (mfind _ _) as [s|]; split_cmp; try lia; done.
Qed.

(** What a successful lookup says of the map. *)
Lemma mfind_split t m s :
  mfind t m = Some s ->
  exists k a l r, s = (k, a) :: r /\ m = l ++ (k, a) :: r /\ k <= t /\ mfind t r = None.
Proof.
  revert s; induction m as [|[k a] m IH]; intros s; cbn; [done|].
  destruct (Z.leb_spec k t); [|done].
  destruct (mfind t m) as [s'|] eqn:E; intros [= <-].
  - destruct (IH _ eq_refl) as (k1 & a1 & l & r & -> & -> & ? & ?).
    exists k1, a1, ((k, a) :: l), r. done.
  - exists k, a, [], m. done.
Qed.

Lemma below_app k l1 l2 : below k (l1 ++ l2) <-> below k l1 /\ below k l2.
Proof. apply Forall_app. Qed.

Lemma above_app k l1 l2 : above k (l1 ++ l2) <-> above k l1 /\ above k l2.
Proof. apply Forall_app. Qed.

Lemma below_cons k k' a l : below k ((k', a) :: l) <-> k' < k /\ below k l.
Proof. apply Forall_cons_iff. Qed.

Lemma above_cons k k' a l : above k ((k', a) :: l) <-> k < k' /\ above k l.
Proof. apply Forall_cons_iff. Qed.

Lemma below_mono k k' l : k <= k' -> below k l -> below k' l.
Proof. intros ? H. eapply Forall_impl; [exact H|]. cbn. lia. Qed.

Lemma above_mono k k' l : k' <= k -> above k l -> above k' l.
Proof. intros ? H. eapply Forall_impl; [exact H|]. cbn. lia. Qed.

Lemma below_snoc k k' a l : below k l -> k < k' -> below k' (l ++ [(k, a)]).
Proof.
  intros. apply below_app. split; [eapply below_mono; [|done]; lia|].
  apply below_cons. split; [lia|by constructor].
Qed.

Lemma mset_end k a l : below k l -> mset k a l = l ++ [(k, a)].
Proof. intros. rewrite <- (app_nil_r l) at 1. apply mset_absent; [done|by constructor]. Qed.
End laws.

(** ** Maps of disjoint address ranges *)

(** What the memory manager's two kinds of area have in common: a base, a
    size, the attributes of an address inside, and a local invariant. *)
Class Area (A B : Type) := {
  r_base : A -> Z;
  r_size : A -> Z;
  r_attr : A -> Z -> B;
  r_ok : A -> Prop;
}.

Section ranges.
Context {A B : Type} `{!Area A B}.
Implicit Types (m l r : omap A) (k lo : Z) (a v : A).

(** Entries are keyed by their base, in order, disjoint, non-empty, below
    2^64, and each is locally well formed. *)
Fixpoint wf_from (lo : Z) (m : omap A) : Prop :=
  match m with
  | [] => True
  | (k, a) :: m' =>
      lo <= k /\ k = r_base a /\ 0 < r_size a /\ k + r_size a < W64 /\ r_ok a /\
      wf_from (k + r_size a) m'
  end.

Fixpoint end_from (lo : Z) (m : omap A) : Z :=
  match m with
  | [] => lo
  | (k, a) :: m' => end_from (k + r_size a) m'
  end.

Definition covers (a : A) (x : Z) : bool :=
  (r_base a <=? x) && (x <? r_base a + r_size a).

(** The attribute function the map denotes. *)
Fixpoint view (m : omap A) (x : Z) : option B :=
  match m with
  | [] => None
  | (k, a) :: m' => if covers a x then Some (r_attr a x) else view m' x
  end.

(** No gap between consecutive entries, from [lo] on. *)
Fixpoint contiguous (lo : Z) (m : omap A) : Prop :=
  match m with
  | [] => True
  | (k, a) :: m' => k = lo /\ contiguous (k + r_size a) m'
  end.

(** Total size of the entries whose area satisfies [P]. *)
Fixpoint bytes (P : A -> bool) (m : omap A) : Z :=
  match m with
  | [] => 0
  | (k, a) :: m' => (if P a then r_size a else 0) + bytes P m'
  end.

Lemma wf_app lo l r :
  wf_from lo (l ++ r) <-> wf_from lo l /\ wf_from (end_from lo l) r.
Proof. revert lo; induction l as [|[k a] l IH]; intros lo; cbn; [tauto|]. rewrite IH. tauto. Qed.

Lemma end_app lo l r : end_from lo (l ++ r) = end_from (end_from lo l) r.
Proof. revert lo; induction l as [|[k a] l IH]; intros lo; cbn; auto. Qed.

Lemma contiguous_app lo l r :
  contiguous lo (l ++ r) <-> contiguous lo l /\ contiguous (end_from lo l) r.
Proof. revert lo; induction l as [|[k a] l IH]; intros lo; cbn; [tauto|]. rewrite IH. tauto. Qed.

Lemma view_app l r x :
  view (l ++ r) x = match view l x with Some b => Some b | None => view r x end.
Proof. induction l as [|[k a] l IH]; cbn; [done|]. destruct (covers a x); auto. Qed.

Lemma bytes_app P l r : bytes P (l ++ r) = bytes P l + bytes P r.
Proof. induction l as [|[k a] l IH]; cbn; [done|]. rewrite IH. lia. Qed.

Lemma wf_end lo m : wf_from lo m -> lo <= end_from lo m.
Proof.
  revert lo; induction m as [|[k a] m IH]; intros lo; cbn; [lia|].
  intros (? & ? & ? & ? & ? & H). apply IH in H. lia.
Qed.

Lemma wf_weaken lo lo' m : lo' <= lo -> wf_from lo m -> wf_from lo' m.
Proof. destruct m as [|[k a] m]; cbn; [done|]. intuition lia. Qed.

Lemma end_weaken lo lo' m : m <> [] -> end_from lo m = end_from lo' m.
Proof. destruct m as [|[k a] m]; done. Qed.

Lemma wf_below lo m : wf_from lo m -> below (end_from lo m) m.
Proof.
  revert lo; induction m as [|[k a] m IH]; intros lo; cbn; [by constructor|].
  intros (? & ? & ? & ? & ? & H). apply below_cons. split; [|by apply IH].
  apply wf_end in H. lia.
Qed.

Lemma wf_above lo k m : wf_from lo m -> k < lo -> above k m.
Proof.
  revert lo; induction m as [|[k' a] m IH]; intros lo; cbn; [by constructor|].
  intros (? & ? & ? & ? & ? & H) ?. apply above_cons. split; [lia|].
  eapply IH; [exact H | lia].
Qed.

(** The facts about a middle entry that every operation uses. *)
Lemma wf_mid lo l k a r :
  wf_from lo (l ++ (k, a) :: r) ->
  wf_from lo l /\ end_from lo l <= k /\ k = r_base a /\ 0 < r_size a /\
  k + r_size a < W64 /\ r_ok a /\ wf_from (k + r_size a) r /\
  below k l /\ (forall t, t < k + r_size a -> above t r) /\ lo <= k.
Proof.
  intros H. apply wf_app in H as [Hl H]. cbn in H.
  destruct H as (? & ? & ? & ? & ? & Hr). repeat split; auto.
  - eapply below_mono; [|by eapply wf_below]. lia.
  - intros t Ht. by eapply wf_above.
  - apply wf_end in Hl. lia.
Qed.

Lemma view_lt lo m x : wf_from lo m -> x < lo -> view m x = None.
Proof.
  revert lo; induction m as [|[k a] m IH]; intros lo; cbn; [done|].
  intros (? & ? & ? & ? & ? & H) ?. unfold covers. split_cmp; try lia.
  eapply IH; [exact H | lia].
Qed.

Lemma view_ge lo m x : wf_from lo m -> end_from lo m <= x -> view m x = None.
Proof.
  revert lo; induction m as [|[k a] m IH]; intros lo; cbn; [done|].
  intros (? & ? & ? & ? & ? & H) ?. pose proof (wf_end _ _ H).
  unfold covers. split_cmp; try lia; eapply IH; eauto.
Qed.

(** Inside the middle entry the view is that entry's attribute. *)
Lemma view_mid lo l k a r x :
  wf_from lo (l ++ (k, a) :: r) -> k <= x < k + r_size a ->
  view (l ++ (k, a) :: r) x = Some (r_attr a x).
Proof.
  intros H Hx. apply wf_mid in H as (Hl & ? & -> & ? & ? & ? & Hr & _).
  rewrite view_app, (view_ge lo) by (auto; lia). cbn. unfold covers.
  split_cmp; try lia; done.
Qed.

(** A run of entries may be replaced by one that spans the same range. *)
Lemma wf_subst lo l seg seg' r :
  wf_from lo (l ++ seg ++ r) ->
  (forall lo', wf_from lo' seg -> wf_from lo' seg' /\ end_from lo' seg' = end_from lo' seg) ->
  wf_from lo (l ++ seg' ++ r).
Proof.
  rewrite !wf_app. intros (? & Hs & ?) Hsub. apply Hsub in Hs as [? ->]. done.
Qed.

Lemma end_subst lo l seg seg' r :
  wf_from lo (l ++ seg ++ r) ->
  (forall lo', wf_from lo' seg -> wf_from lo' seg' /\ end_from lo' seg' = end_from lo' seg) ->
  end_from lo (l ++ seg' ++ r) = end_from lo (l ++ seg ++ r).
Proof.
  rewrite !wf_app, !end_app. intros (? & Hs & ?) Hsub. by apply Hsub in Hs as [? ->].
Qed.

Lemma view_subst l seg seg' r x :
  view seg' x = view seg x -> view (l ++ seg' ++ r) x = view (l ++ seg ++ r) x.
Proof. rewrite !view_app. by intros ->. Qed.

(** Overwriting one entry with another of the same range changes the view
    on that range only. *)
Lemma wf_overwrite lo l k a a' r :
  wf_from lo (l ++ (k, a) :: r) -> r_base a' = r_base a -> r_size a' = r_size a -> r_ok a' ->
  wf_from lo (l ++ (k, a') :: r).
Proof. rewrite !wf_app. cbn. intros (? & ?) -> ->. tauto. Qed.

Lemma end_overwrite lo l k a a' r :
  r_size a' = r_size a -> end_from lo (l ++ (k, a') :: r) = end_from lo (l ++ (k, a) :: r).
Proof. rewrite !end_app. cbn. by intros ->. Qed.

Lemma contiguous_overwrite lo l k a a' r :
  r_size a' = r_size a ->
  contiguous lo (l ++ (k, a) :: r) -> contiguous lo (l ++ (k, a') :: r).
Proof. rewrite !contiguous_app. cbn. by intros ->. Qed.

Lemma view_overwrite lo l k a a' r x :
  wf_from lo (l ++ (k, a) :: r) -> r_base a' = r_base a -> r_size a' = r_size a ->
  view (l ++ (k, a') :: r) x =
    if (k <=? x) && (x <? k + r_size a) then Some (r_attr a' x)
    else view (l ++ (k, a) :: r) x.
Proof.
  intros H Hb Hs. apply wf_mid in H as (Hl & ? & -> & ? & ? & ? & Hr & _).
  rewrite !view_app. cbn. unfold covers. rewrite Hb, Hs.
  destruct ((r_base a <=? x) && (x <? r_base a + r_size a))%bool eqn:E; [|done].
  bool_prop. rewrite (view_ge lo) by (auto; lia). done.
Qed.

(** Looking an address up finds the one entry that covers it. *)
Lemma find_covered lo m x :
  wf_from lo m -> view m x <> None ->
  exists l k a r, m = l ++ (k, a) :: r /\ mfind x m = Some ((k, a) :: r) /\
    k <= x < k + r_size a /\ view m x = Some (r_attr a x).
Proof.
  intros Hwf Hv. assert (exists l k a r, m = l ++ (k, a) :: r /\ covers a x = true)
    as (l & k & a & r & -> & Hc).
  { clear Hwf. induction m as [|[k a] m IH]; cbn in *; [done|].
    destruct (covers a x) eqn:E; [by exists [], k, a, m|].
    destruct (IH Hv) as (l & k' & a' & r & -> & ?). by exists ((k, a) :: l), k', a', r. }
  pose proof (wf_mid _ _ _ _ _ Hwf) as (Hl & ? & ? & ? & ? & ? & Hr & Hb & Ha & ?).
  unfold covers in Hc. bool_prop.
  exists l, k, a, r. split; [done|]. split; [|split; [lia|]].
  - apply mfind_mid; auto; try lia. apply Ha. lia.
  - apply (view_mid lo); auto; lia.
Qed.

(** Conversely a hit whose range reaches the address covers it. *)
Lemma find_hit lo m x k a r :
  wf_from lo m -> mfind x m = Some ((k, a) :: r) ->
  exists l, m = l ++ (k, a) :: r /\ k <= x /\ k = r_base a /\ above x r /\
    (x < k + r_size a -> view m x = Some (r_attr a x)) /\
    (k + r_size a <= x -> view m x = None).
Proof.
  intros Hwf Hf. apply mfind_split in Hf as (k1 & a1 & l & r1 & [= <- <- <-] & -> & ? & Hn).
  pose proof (wf_mid _ _ _ _ _ Hwf) as (Hl & ? & ? & ? & ? & ? & Hr & Hb & Ha & ?).
  assert (above x r) as Habove.
  { destruct r as [|[k2 a2] r]; [by constructor|].
    cbn in Hn. destruct (Z.leb_spec k2 x); [by destruct (mfind x r)|].
    cbn in Hr. destruct Hr as (? & ? & ? & ? & ? & Hr). apply above_cons. split; [lia|].
    eapply wf_above; [exact Hr | lia]. }
  exists l. repeat split; auto.
  - intros. apply (view_mid lo); auto; lia.
  - intros. rewrite view_app, (view_ge lo) by (auto; lia). cbn. unfold covers.
    split_cmp; try lia.
    all: destruct r as [|[k2 a2] r]; [done|]; apply above_cons in Habove as [? _];
      apply (view_lt k2); [|lia]; cbn in Hr |- *; intuition lia.
Qed.

Lemma bytes_overwrite P l k a a' r :
  r_size a' = r_size a ->
  bytes P (l ++ (k, a') :: r) =
    bytes P (l ++ (k, a) :: r) - (if P a then r_size a else 0) + (if P a' then r_size a else 0).
Proof. rewrite !bytes_app. cbn. intros ->. destruct (P a), (P a'); lia. Qed.

(** ** Maps that denote the same memory *)

(** [m'] spans what [m] spans, is well formed, has no more gaps, and gives
    every address the same attributes: the coarser equality of maps under
    which splitting and merging areas is invisible. *)
Record same_map (lo : Z) (m m' : omap A) : Prop := {
  sm_wf : wf_from lo m -> wf_from lo m';
  sm_end : wf_from lo m -> end_from lo m' = end_from lo m;
  sm_view : wf_from lo m -> forall x, view m' x = view m x;
  sm_contiguous : wf_from lo m -> forall c, contiguous c m -> contiguous c m';
}.

#[export] Instance same_map_refl lo : Reflexive (same_map lo).
Proof. by split. Qed.

#[export] Instance same_map_trans lo : Transitive (same_map lo).
Proof.
  intros m1 m2 m3 [W1 E1 V1 C1] [W2 E2 V2 C2]. split; intros W.
  - auto.
  - rewrite E2 by auto. auto.
  - intros x. rewrite V2 by auto. auto.
  - intros c Hc. auto.
Qed.

Lemma same_split lo l k k2 a a1 a2 r :
  k2 = k + r_size a1 -> 0 < r_size a1 -> 0 < r_size a2 -> r_size a = r_size a1 + r_size a2 ->
  r_base a1 = r_base a -> r_base a2 = r_base a + r_size a1 ->
  (r_ok a -> r_ok a1 /\ r_ok a2) ->
  (forall x, k <= x < k + r_size a1 -> r_attr a1 x = r_attr a x) ->
  (forall x, k + r_size a1 <= x < k + r_size a -> r_attr a2 x = r_attr a x) ->
  same_map lo (l ++ (k, a) :: r) (l ++ (k, a1) :: (k2, a2) :: r).
Proof.
  intros -> H1 H2 Hs Hb1 Hb2 Hok Ha1 Ha2. split; rewrite ?wf_app, ?end_app; cbn.
  - rewrite Hb1, Hb2. replace (k + r_size a1 + r_size a2) with (k + r_size a) by lia.
    intros (? & ? & ? & ? & ? & Ho & ?). destruct (Hok Ho). repeat split; auto; lia.
  - intros _. f_equal. lia.
  - intros (? & ? & -> & _) x. rewrite !view_app. cbn. destruct (view l x); [done|].
    unfold covers. rewrite Hb1, Hb2. split_cmp; try lia; try done.
    all: first [rewrite Ha1 by lia; done | rewrite Ha2 by lia; done].
  - intros _ c. rewrite !contiguous_app. cbn.
    replace (k + r_size a1 + r_size a2) with (k + r_size a) by lia. tauto.
Qed.

Lemma same_merge lo l k k2 a a1 a2 r :
  k2 = k + r_size a1 -> r_size a = r_size a1 + r_size a2 -> r_base a = r_base a1 ->
  (r_ok a1 -> r_ok a2 -> r_ok a) ->
  (forall x, k <= x < k + r_size a1 -> r_attr a x = r_attr a1 x) ->
  (forall x, k2 <= x < k2 + r_size a2 -> r_attr a x = r_attr a2 x) ->
  same_map lo (l ++ (k, a1) :: (k2, a2) :: r) (l ++ (k, a) :: r).
Proof.
  intros -> Hs Hb Hok Ha1 Ha2. split; rewrite ?wf_app, ?end_app; cbn.
  - rewrite Hb, Hs, Z.add_assoc.
    intros (? & ? & ? & ? & ? & Ho & ? & ? & ? & ? & ? & ?). repeat split; auto; lia.
  - intros _. f_equal. lia.
  - intros (? & ? & -> & ? & ? & ? & ? & Hb2 & ? & _) x. rewrite !view_app. cbn.
    destruct (view l x); [done|].
    unfold covers. rewrite Hb, <- Hb2, Hs. split_cmp; try lia; try done.
    all: first [rewrite Ha1 by lia; done | rewrite Ha2 by lia; done].
  - intros _ c. rewrite !contiguous_app. cbn. rewrite Hs, Z.add_assoc. tauto.
Qed.
End ranges.

#[export] Hint Resolve wf_overwrite contiguous_overwrite : areas.
