(* ===== verification/MemTypes.v ===== *)
(** * MemTypes: the data of the memory manager

    [core/memory.h], [core/memory_map_generation.h], [common/alignment.h] and
    the parts of [core/address_space.h] the manager reads. *)

From S2P Require Import Prelude OrdMap.

(** ** common/alignment.h *)

Definition AlignUp (value size : Z) : Z :=
  let md := value mod size in
  let value := wsub value md in
  if md =? 0 then value else wadd value size.

Definition AlignDown (value size : Z) : Z := wsub value (value mod size).

Definition Is16KBAligned (value : Z) : bool := Z.land value 0x3FFF =? 0.
Definition Is64KBAligned (value : Z) : bool := Z.land value 0xFFFF =? 0.
Definition Is2MBAligned (value : Z) : bool := Z.land value 0x1FFFFF =? 0.

(** ** Flag enumerations, as the [u32] they are *)

Module MemoryProt.
Definition NoAccess : Z := 0.
Definition CpuRead : Z := 1.
Definition CpuWrite : Z := 2.
Definition CpuReadWrite : Z := 3.
Definition CpuExec : Z := 4.
Definition GpuRead : Z := 16.
Definition GpuWrite : Z := 32.
Definition GpuReadWrite : Z := 48.
End MemoryProt.

Module MemoryMapFlags.
Definition NoFlags : Z := 0.
Definition Shared : Z := 1.
Definition Private : Z := 2.
Definition Fixed : Z := 0x10.
Definition NoOverwrite : Z := 0x80.
Definition Void : Z := 0x100.
Definition Stack : Z := 0x400.
Definition NoSync : Z := 0x800.
Definition Anon : Z := 0x1000.
Definition NoCore : Z := 0x20000.
Definition NoCoalesce : Z := 0x400000.
End MemoryMapFlags.

Module MemoryPermission.
Definition Read : Z := 1.
Definition Write : Z := 2.
Definition ReadWrite : Z := 3.
Definition Execute : Z := 4.
End MemoryPermission.

(** [True(flags & f)] *)
Definition has (flags f : Z) : bool := negb (Z.land flags f =? 0).
(** [flags &= ~f] on [u32] *)
Definition clear (flags f : Z) : Z := Z.land flags (u32 (Z.lnot f)).

(** ** Physical areas *)

Module PhysicalMemoryType.
Inductive t := Free | Allocated | Mapped | Pooled | Committed | Flexible.
#[export] Instance t_eq_dec : EqDecision t.
Proof. solve_decision. Defined.
End PhysicalMemoryType.
#[export] Existing Instance PhysicalMemoryType.t_eq_dec.

Record PhysicalMemoryArea := mkPhys {
  p_base : Z;
  p_size : Z;
  p_mtype : Z;
  p_dma : PhysicalMemoryType.t;
}.

Definition GetEnd (a : PhysicalMemoryArea) : Z := wadd (p_base a) (p_size a).

Definition phys_CanMergeWith (a next : PhysicalMemoryArea) : bool :=
  if negb (wadd (p_base a) (p_size a) =? p_base next) then false
  else if negb (p_mtype a =? p_mtype next) then false
  else if negb (bool_decide (p_dma a = p_dma next)) then false
  else true.

Definition p_with_size (sz : Z) (a : PhysicalMemoryArea) : PhysicalMemoryArea :=
  mkPhys (p_base a) sz (p_mtype a) (p_dma a).
Definition p_with_dma (d : PhysicalMemoryType.t) (a : PhysicalMemoryArea) : PhysicalMemoryArea :=
  mkPhys (p_base a) (p_size a) (p_mtype a) d.
Definition p_with_mtype (t : Z) (a : PhysicalMemoryArea) : PhysicalMemoryArea :=
  mkPhys (p_base a) (p_size a) t (p_dma a).

(** [std::map<PAddr, PhysicalMemoryArea>]: [dmem_map] and [fmem_map], keyed by
    physical address, and the [phys_areas] of a VMA, keyed by offset in it. *)
Abbreviation PhysMap := (omap PhysicalMemoryArea).

(** ** Virtual areas *)

Module VMAType.
Inductive t := Free | Reserved | Direct | Flexible | Pooled | PoolReserved | Stack | Code | File.
#[export] Instance t_eq_dec : EqDecision t.
Proof. solve_decision. Defined.
End VMAType.
#[export] Existing Instance VMAType.t_eq_dec.

Record VirtualMemoryArea := mkVMA {
  v_base : Z;
  v_size : Z;
  v_phys : PhysMap;
  v_type : VMAType.t;
  v_prot : Z;
  v_name : string;
  v_fd : Z;
  v_nomerge : bool;
}.

Abbreviation VMAMap := (omap VirtualMemoryArea).

(** [VirtualMemoryArea{base, size}] *)
Definition fresh_vma (base size : Z) : VirtualMemoryArea :=
  mkVMA base size [] VMAType.Free MemoryProt.NoAccess EmptyString 0 false.

Definition v_with_size (sz : Z) (v : VirtualMemoryArea) : VirtualMemoryArea :=
  mkVMA (v_base v) sz (v_phys v) (v_type v) (v_prot v) (v_name v) (v_fd v) (v_nomerge v).
Definition v_with_phys (p : PhysMap) (v : VirtualMemoryArea) : VirtualMemoryArea :=
  mkVMA (v_base v) (v_size v) p (v_type v) (v_prot v) (v_name v) (v_fd v) (v_nomerge v).
Definition v_with_prot (p : Z) (v : VirtualMemoryArea) : VirtualMemoryArea :=
  mkVMA (v_base v) (v_size v) (v_phys v) (v_type v) p (v_name v) (v_fd v) (v_nomerge v).
Definition v_with_name (n : string) (v : VirtualMemoryArea) : VirtualMemoryArea :=
  mkVMA (v_base v) (v_size v) (v_phys v) (v_type v) (v_prot v) n (v_fd v) (v_nomerge v).
Definition v_with_fd (fd : Z) (v : VirtualMemoryArea) : VirtualMemoryArea :=
  mkVMA (v_base v) (v_size v) (v_phys v) (v_type v) (v_prot v) (v_name v) fd (v_nomerge v).

Definition Contains (v : VirtualMemoryArea) (addr size : Z) : bool :=
  (v_base v <=? addr) && (wadd addr size <=? wadd (v_base v) (v_size v)).

Definition Overlaps (v : VirtualMemoryArea) (addr size : Z) : bool :=
  (addr <? wadd (v_base v) (v_size v)) && (v_base v <? wadd addr size).

Definition IsFree (v : VirtualMemoryArea) : bool := bool_decide (v_type v = VMAType.Free).

Definition IsMapped (v : VirtualMemoryArea) : bool :=
  negb (bool_decide (v_type v = VMAType.Free)) &&
  negb (bool_decide (v_type v = VMAType.Reserved)) &&
  negb (bool_decide (v_type v = VMAType.PoolReserved)).

Definition HasPhysicalBacking (v : VirtualMemoryArea) : bool :=
  bool_decide (v_type v = VMAType.Direct) || bool_decide (v_type v = VMAType.Flexible) ||
  bool_decide (v_type v = VMAType.Pooled).

(** [VirtualMemoryArea::CanMergeWith].  For two [Direct] areas it reads
    [std::prev(phys_areas.end())] and [next.phys_areas.begin()], which is
    undefined on an empty map. *)
Definition vma_CanMergeWith (v next : VirtualMemoryArea) : outcome bool :=
  if v_nomerge v || v_nomerge next then Done false
  else if negb (wadd (v_base v) (v_size v) =? v_base next) then Done false
  else
    let! blocked :=
      if bool_decide (v_type v = VMAType.Direct) && bool_decide (v_type next = VMAType.Direct) then
        let! last_phys := of_option (last (v_phys v)) in
        let! first_next_phys := of_option (head (v_phys next)) in
        Done (negb (wadd (p_base last_phys.2) (p_size last_phys.2) =? p_base first_next_phys.2) ||
              negb (p_mtype last_phys.2 =? p_mtype first_next_phys.2))
      else Done false in
    if blocked : bool then Done false
    else if negb (v_prot v =? v_prot next) || negb (bool_decide (v_type v = v_type next)) then Done false
    else if negb (bool_decide (v_name v = v_name next)) then Done false
    else Done true.

(** ** MemoryMapGeneration

    The counter is bumped when a mutation begins and again when it is
    finished; [Finish] acts once, the destructor calling it again is a no-op.
    [active] is [None] before [BeginMutation]. *)
Module MemoryMapGeneration.
Record t := mk { value : Z; active : option bool }.

Definition BeginMutation (g : t) : t := mk (wadd (value g) 1) (Some true).

Definition Finish (g : t) : t :=
  match active g with
  | Some true => mk (wadd (value g) 1) (Some false)
  | _ => g
  end.

(** The [~Mutation] of the guard, which then goes out of scope. *)
Definition Destroy (g : t) : t := mk (value (Finish g)) None.

Definition Load (g : t) : Z := value g.
End MemoryMapGeneration.

(** ** Calls that leave the manager

    The host address space ([impl]), the rasterizer and the physical backing
    block see the manager only through these calls; they are recorded, newest
    first. *)
Inductive Event :=
  | EvMap (addr size phys : Z) (exec : bool)
  | EvMapFile (addr size offset prot fd : Z)
  | EvUnmap (addr size : Z)
  | EvProtect (addr size perms : Z)
  | EvGpuMap (addr size : Z)
  | EvGpuUnmap (addr size : Z)
  | EvGpuInvalidate (addr size : Z)
  | EvZeroBacking (phys size : Z)
  | EvWriteBacking (phys : Z) (data : list Z).

Record PrtArea := mkPrt { prt_start : Z; prt_end : Z; prt_mapped : bool }.

Definition PrtArea_Overlaps (p : PrtArea) (test_address test_size : Z) : bool :=
  let overlap_end := wadd test_address test_size in
  (prt_start p <? overlap_end) && (test_address <? prt_end p).

(** The bounds [AddressSpace] fixes when it reserves the guest regions. *)
Record AddressSpace := mkSpace {
  system_managed_base : Z;
  system_managed_size : Z;
  system_reserved_base : Z;
  system_reserved_size : Z;
  user_base : Z;
  user_size : Z;
}.

Record MemoryManager := mkMM {
  impl : AddressSpace;
  dmem_map : PhysMap;
  fmem_map : PhysMap;
  vma_map : VMAMap;
  mapping_generation : MemoryMapGeneration.t;
  total_direct_size : Z;
  total_flexible_size : Z;
  flexible_usage : Z;
  pool_budget : Z;
  sdk_version : Z;
  prt_areas : list PrtArea;
  events : list Event;
}.

Definition with_dmem (m : PhysMap) (s : MemoryManager) : MemoryManager :=
  mkMM (impl s) m (fmem_map s) (vma_map s) (mapping_generation s) (total_direct_size s)
    (total_flexible_size s) (flexible_usage s) (pool_budget s) (sdk_version s) (prt_areas s) (events s).
Definition with_fmem (m : PhysMap) (s : MemoryManager) : MemoryManager :=
  mkMM (impl s) (dmem_map s) m (vma_map s) (mapping_generation s) (total_direct_size s)
    (total_flexible_size s) (flexible_usage s) (pool_budget s) (sdk_version s) (prt_areas s) (events s).
Definition with_vmas (m : VMAMap) (s : MemoryManager) : MemoryManager :=
  mkMM (impl s) (dmem_map s) (fmem_map s) m (mapping_generation s) (total_direct_size s)
    (total_flexible_size s) (flexible_usage s) (pool_budget s) (sdk_version s) (prt_areas s) (events s).
Definition with_gen (g : MemoryMapGeneration.t) (s : MemoryManager) : MemoryManager :=
  mkMM (impl s) (dmem_map s) (fmem_map s) (vma_map s) g (total_direct_size s)
    (total_flexible_size s) (flexible_usage s) (pool_budget s) (sdk_version s) (prt_areas s) (events s).
Definition with_sizes (d f : Z) (s : MemoryManager) : MemoryManager :=
  mkMM (impl s) (dmem_map s) (fmem_map s) (vma_map s) (mapping_generation s) d f
    (flexible_usage s) (pool_budget s) (sdk_version s) (prt_areas s) (events s).
Definition with_usage (u : Z) (s : MemoryManager) : MemoryManager :=
  mkMM (impl s) (dmem_map s) (fmem_map s) (vma_map s) (mapping_generation s) (total_direct_size s)
    (total_flexible_size s) u (pool_budget s) (sdk_version s) (prt_areas s) (events s).
Definition with_budget (b : Z) (s : MemoryManager) : MemoryManager :=
  mkMM (impl s) (dmem_map s) (fmem_map s) (vma_map s) (mapping_generation s) (total_direct_size s)
    (total_flexible_size s) (flexible_usage s) b (sdk_version s) (prt_areas s) (events s).
Definition with_prt (p : list PrtArea) (s : MemoryManager) : MemoryManager :=
  mkMM (impl s) (dmem_map s) (fmem_map s) (vma_map s) (mapping_generation s) (total_direct_size s)
    (total_flexible_size s) (flexible_usage s) (pool_budget s) (sdk_version s) p (events s).
Definition emit (e : Event) (s : MemoryManager) : MemoryManager :=
  mkMM (impl s) (dmem_map s) (fmem_map s) (vma_map s) (mapping_generation s) (total_direct_size s)
    (total_flexible_size s) (flexible_usage s) (pool_budget s) (sdk_version s) (prt_areas s) (e :: events s).

Definition begin_mutation (s : MemoryManager) : MemoryManager :=
  with_gen (MemoryMapGeneration.BeginMutation (mapping_generation s)) s.
Definition finish_mutation (s : MemoryManager) : MemoryManager :=
  with_gen (MemoryMapGeneration.Finish (mapping_generation s)) s.
Definition destroy_mutation (s : MemoryManager) : MemoryManager :=
  with_gen (MemoryMapGeneration.Destroy (mapping_generation s)) s.

(** ** Areas as instances of the range theory *)

(** Where an offset into a VMA lands in physical memory. *)
Record backing := mkBacking { b_addr : Z; b_mtype : Z; b_dma : PhysicalMemoryType.t }.

Fixpoint phys_at (l : PhysMap) (off : Z) : option backing :=
  match l with
  | [] => None
  | (k, a) :: l' =>
      if (k <=? off) && (off <? k + p_size a)
      then Some (mkBacking (p_base a + (off - k)) (p_mtype a) (p_dma a))
      else phys_at l' off
  end.

(** What the guest can observe of an address. *)
Record page := mkPage {
  g_type : VMAType.t;
  g_prot : Z;
  g_name : string;
  g_nomerge : bool;
  g_back : option backing;
}.

(** [phys_areas] tiles the offsets [[o, hi)] without gap or overlap. *)
Fixpoint tiled (o : Z) (l : PhysMap) (hi : Z) : Prop :=
  match l with
  | [] => o = hi
  | (k, a) :: l' =>
      k = o /\ 0 < p_size a /\ 0 <= p_base a /\ p_base a + p_size a < W64 /\
      tiled (o + p_size a) l' hi
  end.

(** Backed areas are tiled by their physical areas, other areas have none. *)
Definition vma_ok (v : VirtualMemoryArea) : Prop :=
  0 <= v_base v /\
  if HasPhysicalBacking v then tiled 0 (v_phys v) (v_size v) else v_phys v = [].

#[export] Instance vma_area : Area VirtualMemoryArea page := {
  r_base := v_base;
  r_size := v_size;
  r_attr v x :=
    mkPage (v_type v) (v_prot v) (v_name v) (v_nomerge v) (phys_at (v_phys v) (x - v_base v));
  r_ok := vma_ok;
}.

#[export] Instance phys_area : Area PhysicalMemoryArea (Z * PhysicalMemoryType.t) := {
  r_base := p_base;
  r_size := p_size;
  r_attr a _ := (p_mtype a, p_dma a);
  r_ok a := 0 <= p_base a;
}.

(** ** Splitting, merging and carving areas

    [MemoryManager::Split], [MergeAdjacent], [CarveVMA] and [CarvePhysArea]
    ([core/memory.cpp]), for virtual and for physical areas. *)

(** ** Physical maps *)

Definition phys_Split (map : PhysMap) (phys_handle offset_in_area : Z) : outcome (Z * PhysMap) :=
  let! old_area := of_option (mlookup phys_handle map) in
  oassert ((offset_in_area <? p_size old_area) && (0 <? offset_in_area)) ;;!
  let new_area :=
    mkPhys (wadd (p_base old_area) offset_in_area) (wsub (p_size old_area) offset_in_area)
      (p_mtype old_area) (p_dma old_area) in
  let map := mset phys_handle (p_with_size offset_in_area old_area) map in
  Done (p_base new_area, memplace (p_base new_area) new_area map).

(** [MergeAdjacent] on a [PhysMap]: first with [std::next(iter)] ... *)
Definition phys_merge_next (map : PhysMap) (iter : Z) : outcome PhysMap :=
  let! cur := of_option (mlookup iter map) in
  match mnext iter map with
  | Some (next_key, next_area) =>
      if phys_CanMergeWith cur next_area
      then Done (merase next_key (mset iter (p_with_size (wadd (p_size cur) (p_size next_area)) cur) map))
      else Done map
  | None => Done map
  end.

(** ... then with [std::prev(iter)]. *)
Definition phys_merge_prev (map : PhysMap) (iter : Z) : outcome (Z * PhysMap) :=
  let! cur := of_option (mlookup iter map) in
  match mprev iter map with
  | Some (prev_key, prev_area) =>
      if phys_CanMergeWith prev_area cur
      then Done (prev_key,
             merase iter (mset prev_key (p_with_size (wadd (p_size prev_area) (p_size cur)) prev_area) map))
      else Done (iter, map)
  | None => Done (iter, map)
  end.

Definition phys_MergeAdjacent (map : PhysMap) (iter : Z) : outcome (Z * PhysMap) :=
  let! map := phys_merge_next map iter in
  phys_merge_prev map iter.

Definition CarvePhysArea (map : PhysMap) (addr size : Z) : outcome (Z * PhysMap) :=
  let! found := of_option (mle addr map) in
  let '(pmem_handle, area) := found in
  oassert (addr <=? GetEnd area) ;;!
  oassert (p_base area <=? addr) ;;!
  let start_in_area := wsub addr (p_base area) in
  let end_in_vma := wadd start_in_area size in
  oassert (end_in_vma <=? p_size area) ;;!
  let! map :=
    if negb (end_in_vma =? p_size area)
    then let! r := phys_Split map pmem_handle end_in_vma in Done r.2
    else Done map in
  if negb (start_in_area =? 0) then phys_Split map pmem_handle start_in_area
  else Done (pmem_handle, map).

(** ** Virtual maps *)

(** The loop of [Split] that distributes [phys_areas] over the two halves. *)
Fixpoint split_phys (offset_in_vma : Z) (areas old_areas new_areas : PhysMap) : PhysMap * PhysMap :=
  match areas with
  | [] => (old_areas, new_areas)
  | (offset, region) :: areas' =>
      let old_areas :=
        if wadd offset (p_size region) <=? offset_in_vma then mset offset region old_areas
        else old_areas in
      let '(old_areas, new_areas) :=
        if (offset <? offset_in_vma) && (offset_in_vma <? wadd offset (p_size region)) then
          let size_in_old := wsub offset_in_vma offset in
          (mset offset (mkPhys (p_base region) size_in_old (p_mtype region) (p_dma region)) old_areas,
           mset 0 (mkPhys (wadd (p_base region) size_in_old) (wsub (p_size region) size_in_old)
                     (p_mtype region) (p_dma region)) new_areas)
        else (old_areas, new_areas) in
      let new_areas :=
        if offset_in_vma <=? offset then mset (wsub offset offset_in_vma) region new_areas
        else new_areas in
      split_phys offset_in_vma areas' old_areas new_areas
  end.

Definition vma_Split (vma_map : VMAMap) (vma_handle offset_in_vma : Z) : outcome (Z * VMAMap) :=
  let! old_vma := of_option (mlookup vma_handle vma_map) in
  oassert ((offset_in_vma <? v_size old_vma) && (0 <? offset_in_vma)) ;;!
  let '(old_phys, new_phys) :=
    if HasPhysicalBacking old_vma then split_phys offset_in_vma (v_phys old_vma) [] []
    else (v_phys old_vma, v_phys old_vma) in
  let new_vma :=
    mkVMA (wadd (v_base old_vma) offset_in_vma) (wsub (v_size old_vma) offset_in_vma) new_phys
      (v_type old_vma) (v_prot old_vma) (v_name old_vma) (v_fd old_vma) (v_nomerge old_vma) in
  let old_vma := v_with_phys old_phys (v_with_size offset_in_vma old_vma) in
  let vma_map := mset vma_handle old_vma vma_map in
  Done (v_base new_vma, memplace (v_base new_vma) new_vma vma_map).

(** [for (auto& area : src) dst[base_offset + area.first] = area.second;] *)
Fixpoint append_phys (base_offset : Z) (src dst : PhysMap) : PhysMap :=
  match src with
  | [] => dst
  | (k, a) :: src' => append_phys base_offset src' (mset (wadd base_offset k) a dst)
  end.

(** The entry both merges of [MergeAdjacent] build from [left] and [right]. *)
Definition absorb (left right : VirtualMemoryArea) : VirtualMemoryArea :=
  v_with_phys (append_phys (v_size left) (v_phys right) (v_phys left))
    (v_with_size (wadd (v_size left) (v_size right)) left).

(** [MergeAdjacent], the half that looks at [std::next(iter)] ... *)
Definition vma_merge_next (handle_map : VMAMap) (iter : Z) : outcome VMAMap :=
  let! cur := of_option (mlookup iter handle_map) in
  match mnext iter handle_map with
  | Some (next_key, next_vma) =>
      let! can := vma_CanMergeWith cur next_vma in
      if can : bool
      then Done (merase next_key (mset iter (absorb cur next_vma) handle_map))
      else Done handle_map
  | None => Done handle_map
  end.

(** ... and the half that looks at [std::prev(iter)]. *)
Definition vma_merge_prev (handle_map : VMAMap) (iter : Z) : outcome (Z * VMAMap) :=
  let! cur := of_option (mlookup iter handle_map) in
  match mprev iter handle_map with
  | Some (prev_key, prev_vma) =>
      let! can := vma_CanMergeWith prev_vma cur in
      if can : bool
      then Done (prev_key, merase iter (mset prev_key (absorb prev_vma cur) handle_map))
      else Done (iter, handle_map)
  | None => Done (iter, handle_map)
  end.

Definition vma_MergeAdjacent (handle_map : VMAMap) (iter : Z) : outcome (Z * VMAMap) :=
  let! handle_map := vma_merge_next handle_map iter in
  vma_merge_prev handle_map iter.

Definition FindVMA (vma_map : VMAMap) (target : Z) : outcome (Z * VirtualMemoryArea) :=
  of_option (mle target vma_map).

Definition FindArea (map : PhysMap) (target : Z) : outcome (Z * PhysicalMemoryArea) :=
  of_option (mle target map).

Definition CarveVMA (vma_map : VMAMap) (virtual_addr size : Z) : outcome (Z * VMAMap) :=
  let! found := FindVMA vma_map virtual_addr in
  let '(vma_handle, vma) := found in
  oassert (v_base vma <=? virtual_addr) ;;!
  let start_in_vma := wsub virtual_addr (v_base vma) in
  let end_in_vma := wadd start_in_vma size in
  if (start_in_vma =? 0) && (size =? v_size vma) then Done (vma_handle, vma_map)
  else
    oassert (end_in_vma <=? v_size vma) ;;!
    let! vma_map :=
      if negb (end_in_vma =? v_size vma)
      then let! r := vma_Split vma_map vma_handle end_in_vma in Done r.2
      else Done vma_map in
    if negb (start_in_vma =? 0) then vma_Split vma_map vma_handle start_in_vma
    else Done (vma_handle, vma_map).
