(* ===== verification/PhysFacts.v ===== *)
(** * PhysFacts: splitting, merging and carving physical areas is invisible

    Every operation on [dmem_map] and [fmem_map] goes through
    [CarvePhysArea] and [MergeAdjacent]; the lemmas here say that both leave
    the memory the map describes as it is, and what [CarvePhysArea] isolates. *)

From S2P Require Import Prelude OrdMap MemTypes.

Implicit Types (m l r : PhysMap) (k lo y : Z) (a : PhysicalMemoryArea).

(** Bytes of the areas in a given state. *)
Definition dma_bytes (d : PhysicalMemoryType.t) (m : PhysMap) : Z :=
  bytes (fun a => bool_decide (p_dma a = d)) m.

Lemma phys_split_same lo l k a off r :
  0 < off < p_size a ->
  same_map lo (l ++ (k, a) :: r)
    (l ++ (k, p_with_size off a) ::
      (k + off, mkPhys (p_base a + off) (p_size a - off) (p_mtype a) (p_dma a)) :: r).
Proof.
  intros H.
  apply same_split; cbn; try lia; done.
Qed.

Lemma phys_Split_eq lo l k a off r :
  wf_from lo (l ++ (k, a) :: r) -> 0 < off < p_size a ->
  phys_Split (l ++ (k, a) :: r) k off =
    Done (k + off, l ++ (k, p_with_size off a) ::
      (k + off, mkPhys (p_base a + off) (p_size a - off) (p_mtype a) (p_dma a)) :: r).
Proof.
  intros Hwf Hoff.
  pose proof (wf_mid _ _ _ _ _ Hwf) as (Hl & ? & Hk & ? & ? & Hok & Hr & Hb & Ha & ?).
  cbn in *. unfold phys_Split. rewrite mlookup_mid by done. cbn.
  assert ((off <? p_size a) && (0 <? off) = true)%bool as -> by (split_cmp; lia || done). cbn.
  rewrite mset_mid by done. word_simpl. subst k.
  rewrite cons_middle, app_assoc, memplace_absent; [by rewrite <- app_assoc| |].
  - apply below_app. split; [eapply below_mono; [|exact Hb]; lia|].
    apply below_cons. split; [lia | by constructor].
  - apply Ha. lia.
Qed.

Lemma bytes_split P l k a a1 a2 k2 r :
  p_size a = p_size a1 + p_size a2 -> P a1 = P a -> P a2 = P a ->
  bytes P (l ++ (k, a1) :: (k2, a2) :: r) = bytes P (l ++ (k, a) :: r).
Proof. intros Hs H1 H2. rewrite !bytes_app. cbn. rewrite H1, H2, Hs. destruct (P a); lia. Qed.

(** What carving [addr, addr + size) out of the area that contains it does. *)
Definition carved (lo : Z) (m : PhysMap) (addr size : Z) (a : PhysicalMemoryArea) (tl m' : PhysMap) : Prop :=
  exists l r mid, m' = l ++ (addr, mid) :: r /\ (addr + size = p_base a + p_size a -> r = tl) /\
    p_base mid = addr /\ p_size mid = size /\ p_mtype mid = p_mtype a /\ p_dma mid = p_dma a /\
    same_map lo m m' /\ (forall d, dma_bytes d m' = dma_bytes d m).

Lemma CarvePhysArea_ok lo l k a r addr size :
  wf_from lo (l ++ (k, a) :: r) -> 0 < size -> k <= addr -> addr + size <= k + p_size a ->
  exists m', CarvePhysArea (l ++ (k, a) :: r) addr size = Done (addr, m') /\
    carved lo (l ++ (k, a) :: r) addr size a r m'.
Proof.
  intros Hwf Hsz Hlo Hhi.
  pose proof (wf_mid _ _ _ _ _ Hwf) as (Hl & ? & Hk & ? & ? & Hok & Hr & Hb & Ha & ?).
  cbn in Hk, H0, H1, Hok, Hr, Ha.
  unfold CarvePhysArea. rewrite mle_mid by (auto; apply Ha; lia). cbn [of_option obind].
  unfold GetEnd. word_simpl.
  assert ((addr <=? p_base a + p_size a) = true) as -> by (split_cmp; lia || done).
  assert ((p_base a <=? addr) = true) as -> by (split_cmp; lia || done). cbn [oassert obind].
  rewrite (proj2 (Z.leb_le _ _)) by lia. cbn [oassert obind].
  set (off := addr - p_base a).
  destruct (Z.eqb_spec (off + size) (p_size a)) as [He|He]; cbn [negb].
  - destruct (Z.eqb_spec off 0) as [Hz|Hz]; cbn [negb obind].
    + exists (l ++ (k, a) :: r). replace addr with k by lia. split; [done|].
      exists l, r, a. split_and!; try done; auto; lia.
    + rewrite (phys_Split_eq lo) by (auto; lia). replace (k + off) with addr by lia.
      eexists; split; [done|].
      eexists (l ++ [(k, p_with_size off a)]), r, _. rewrite <- app_assoc. cbn.
      split; [done|]. split_and!; cbn; auto; try lia.
      * pose proof (phys_split_same lo l k a off r ltac:(lia)) as HS.
        replace (k + off) with addr in * by lia. done.
      * intros d. apply bytes_split; cbn; auto; lia.
  - rewrite (phys_Split_eq lo) by (auto; lia). cbn [obind snd].
    pose proof (phys_split_same lo l k a (off + size) r ltac:(lia)) as HS.
    set (tl := (k + (off + size), _) :: r) in *.
    assert (forall d, dma_bytes d (l ++ (k, p_with_size (off + size) a) :: tl) =
                      dma_bytes d (l ++ (k, a) :: r)) as HB.
    { intros d. apply bytes_split; cbn; auto; lia. }
    destruct (Z.eqb_spec off 0) as [Hz|Hz]; cbn [negb].
    + replace addr with k by lia. eexists; split; [done|].
      exists l, tl, (p_with_size (off + size) a). split_and!; cbn; auto; lia.
    + rewrite (phys_Split_eq lo); [|by apply HS|cbn; lia].
      pose proof (phys_split_same lo l k (p_with_size (off + size) a) off tl ltac:(cbn; lia)) as HS2.
      cbn [p_base p_size p_mtype p_dma p_with_size] in *. replace (k + off) with addr in * by lia.
      eexists; split; [done|].
      eexists (l ++ [(k, _)]), tl, _. rewrite <- app_assoc. cbn.
      split; [done|]. split; [lia|]. cbn. split; [lia|]. split; [lia|]. split; [done|]. split; [done|]. split.
      * etransitivity; eassumption.
      * intros d. rewrite <- HB. apply bytes_split; cbn; auto; lia.
Qed.

Lemma phys_CanMergeWith_true a1 a2 :
  phys_CanMergeWith a1 a2 = true ->
  wadd (p_base a1) (p_size a1) = p_base a2 /\ p_mtype a1 = p_mtype a2 /\ p_dma a1 = p_dma a2.
Proof.
  unfold phys_CanMergeWith.
  destruct (Z.eqb_spec (wadd (p_base a1) (p_size a1)) (p_base a2)); [|done].
  destruct (Z.eqb_spec (p_mtype a1) (p_mtype a2)); [|done].
  destruct (bool_decide (p_dma a1 = p_dma a2)) eqn:E; [|done]. bool_prop. done.
Qed.

Lemma phys_merge_same lo l k k2 a1 a2 r :
  wf_from lo (l ++ (k, a1) :: (k2, a2) :: r) -> phys_CanMergeWith a1 a2 = true ->
  let a := p_with_size (wadd (p_size a1) (p_size a2)) a1 in
  k2 = k + p_size a1 /\ p_size a = p_size a1 + p_size a2 /\
  same_map lo (l ++ (k, a1) :: (k2, a2) :: r) (l ++ (k, a) :: r) /\
  (forall d, dma_bytes d (l ++ (k, a) :: r) = dma_bytes d (l ++ (k, a1) :: (k2, a2) :: r)).
Proof.
  intros Hwf Hc a.
  pose proof (wf_mid _ _ _ _ _ Hwf) as (Hl & ? & Hk & ? & ? & Hok & Hr & _).
  cbn in *. destruct Hr as (? & ? & ? & ? & ? & ?).
  apply phys_CanMergeWith_true in Hc as (Hb & Ht & Hd). word_simpl_in Hb.
  assert (p_size a = p_size a1 + p_size a2) as Hs by (cbn; by word_simpl).
  split; [lia|]. split; [done|]. split.
  - apply same_merge; cbn; auto; try lia; try done. cbn in Hs. intros. by rewrite Ht, Hd.
  - intros d. symmetry. apply bytes_split; auto. subst a; cbn. by rewrite Hd.
Qed.

Lemma phys_merge_next_ok lo l k a r :
  wf_from lo (l ++ (k, a) :: r) ->
  exists a1 r1, phys_merge_next (l ++ (k, a) :: r) k = Done (l ++ (k, a1) :: r1) /\
    p_size a <= p_size a1 /\ p_mtype a1 = p_mtype a /\ p_dma a1 = p_dma a /\
    same_map lo (l ++ (k, a) :: r) (l ++ (k, a1) :: r1) /\
    (forall d, dma_bytes d (l ++ (k, a1) :: r1) = dma_bytes d (l ++ (k, a) :: r)) /\
    (p_size a1 = p_size a /\ r1 = r \/ exists nk na, r = (nk, na) :: r1 /\ p_dma na = p_dma a).
Proof.
  intros Hwf. pose proof (wf_mid _ _ _ _ _ Hwf) as (_ & _ & _ & ? & _ & _ & Hr & Hb & Ha & _).
  cbn in H, Ha. unfold phys_merge_next. rewrite mlookup_mid by done. cbn [of_option obind].
  rewrite mnext_mid by (auto; apply Ha; lia). clear Ha.
  destruct r as [|[nk na] r]; cbn [head].
  - exists a, []. split_and!; try done. by left.
  - cbn in Hr. destruct (phys_CanMergeWith a na) eqn:Hc.
    + destruct (phys_merge_same lo l k nk a na r Hwf Hc) as (-> & Hs & HS & HB).
      rewrite mset_mid, merase_second by (auto; lia).
      eexists _, r. split; [done|]. split_and!; try done; [cbn in *; lia|].
      right. apply phys_CanMergeWith_true in Hc as (_ & _ & Hd). by exists (k + p_size a), na.
    + exists a, ((nk, na) :: r). split_and!; try done. by left.
Qed.

Lemma phys_merge_prev_ok lo l k a r :
  wf_from lo (l ++ (k, a) :: r) ->
  exists l1 k1 a1, phys_merge_prev (l ++ (k, a) :: r) k = Done (k1, l1 ++ (k1, a1) :: r) /\
    k1 <= k /\ k + p_size a = k1 + p_size a1 /\ p_mtype a1 = p_mtype a /\ p_dma a1 = p_dma a /\
    same_map lo (l ++ (k, a) :: r) (l1 ++ (k1, a1) :: r) /\
    (forall d, dma_bytes d (l1 ++ (k1, a1) :: r) = dma_bytes d (l ++ (k, a) :: r)).
Proof.
  intros Hwf. pose proof (wf_mid _ _ _ _ _ Hwf) as (_ & _ & Hk & ? & _ & _ & _ & Hb & _).
  cbn in Hk, H. unfold phys_merge_prev. rewrite mlookup_mid by done. cbn [of_option obind].
  destruct (exists_last_or_nil l) as [->|(l0 & [pk pa] & ->)].
  { cbn [app]. rewrite mprev_first. exists [], k, a. split_and!; try done; lia. }
  rewrite <- !app_assoc in *. cbn [app] in *.
  pose proof (wf_mid _ _ _ _ _ Hwf) as (_ & _ & _ & ? & _ & _ & Hr & Hpb & _).
  cbn in Hr, H0. rewrite mprev_mid by (auto; lia).
  destruct (phys_CanMergeWith pa a) eqn:Hc.
  - destruct (phys_merge_same lo l0 pk k pa a r Hwf Hc) as (Hkk & Hs & HS & HB).
    apply phys_CanMergeWith_true in Hc as (_ & Ht & Hd).
    rewrite mset_mid, merase_second by (auto; lia).
    eexists l0, pk, _. split; [done|]. split_and!; try done; cbn in *; lia.
  - exists (l0 ++ [(pk, pa)]), k, a. rewrite <- !app_assoc. cbn [app]. split_and!; try done; lia.
Qed.

(** [MergeAdjacent] returns the area that now holds [k], and changes nothing
    the map denotes. *)
Lemma phys_MergeAdjacent_ok lo l k a r :
  wf_from lo (l ++ (k, a) :: r) ->
  exists l' k' a' r', phys_MergeAdjacent (l ++ (k, a) :: r) k = Done (k', l' ++ (k', a') :: r') /\
    k' <= k /\ k + p_size a <= k' + p_size a' /\ p_mtype a' = p_mtype a /\ p_dma a' = p_dma a /\
    same_map lo (l ++ (k, a) :: r) (l' ++ (k', a') :: r') /\
    (forall d, dma_bytes d (l' ++ (k', a') :: r') = dma_bytes d (l ++ (k, a) :: r)) /\
    (k + p_size a = k' + p_size a' /\ r' = r \/ exists nk na, r = (nk, na) :: r' /\ p_dma na = p_dma a).
Proof.
  intros Hwf. unfold phys_MergeAdjacent.
  destruct (phys_merge_next_ok lo l k a r Hwf) as (a1 & r1 & -> & Hs1 & Ht1 & Hd1 & HS1 & HB1 & Hp).
  cbn [obind]. pose proof (sm_wf _ _ _ HS1 Hwf) as Hwf1.
  destruct (phys_merge_prev_ok lo l k a1 r1 Hwf1) as (l2 & k2 & a2 & -> & ? & ? & Ht2 & Hd2 & HS2 & HB2).
  exists l2, k2, a2, r1. split_and!; try congruence; try lia; try done.
  - by transitivity (l ++ (k, a1) :: r1).
  - destruct Hp as [[? ?]|?]; [left; split; [lia|done] | by right].
Qed.

(** ** Where physical areas begin

    [CarvePhysArea] asserts that the range it is asked for lies inside one
    area, so whether unmapping succeeds depends on where areas begin.  Carving
    adds only the two ends of its range, and [MergeAdjacent] removes an end
    again when both sides of it have the same attributes. *)

(** An area begins at [y]. *)
Section starts.
Context {A : Type}.
Implicit Types (e : A) (ms ls rs : list (Z * A)).

Definition starts ms (y : Z) : Prop := mlookup y ms <> None.

Lemma starts_nil y : ~ starts [] y.
Proof. unfold starts. cbn. tauto. Qed.

Lemma starts_cons k e ms y : starts ((k, e) :: ms) y <-> k = y \/ starts ms y.
Proof. unfold starts. cbn. destruct (Z.eqb_spec k y); intuition done. Qed.

Lemma starts_app ls rs y : starts (ls ++ rs) y <-> starts ls y \/ starts rs y.
Proof.
  induction ls as [|[k e] ls IH]; cbn [app].
  - pose proof (starts_nil y). tauto.
  - rewrite !starts_cons, IH. tauto.
Qed.

Lemma starts_mset k e ms y : starts (mset k e ms) y -> y = k \/ starts ms y.
Proof.
  induction ms as [|[k' e'] ms IH]; cbn.
  - rewrite starts_cons. intuition.
  - destruct (k <? k'); [rewrite starts_cons; intuition|].
    destruct (Z.eqb_spec k k'); rewrite !starts_cons; intuition.
Qed.

Lemma starts_memplace k e ms y : starts (memplace k e ms) y -> y = k \/ starts ms y.
Proof. unfold memplace. destruct (mlookup k ms); [by right|apply starts_mset]. Qed.

Lemma starts_malter f k ms y : starts (malter f k ms) y <-> starts ms y.
Proof.
  induction ms as [|[k' e'] ms IH]; cbn; [done|]. destruct (k' =? k); rewrite !starts_cons; intuition.
Qed.

End starts.

(** No area begins inside another one. *)
Lemma starts_outside lo l k a r y :
  wf_from lo (l ++ (k, a) :: r) -> starts (l ++ (k, a) :: r) y -> y <= k \/ k + p_size a <= y.
Proof.
  intros Hwf Hy. pose proof (wf_mid _ _ _ _ _ Hwf) as (_ & _ & _ & _ & _ & _ & _ & Hb & Ha & _). cbn in Ha.
  destruct (Z.le_gt_cases y k) as [|Hk]; [by left|]. destruct (Z.le_gt_cases (k + p_size a) y) as [|Hlt]; [by right|].
  exfalso. apply starts_app in Hy as [Hy|Hy].
  - apply Hy. rewrite <- (app_nil_r l). apply mlookup_absent; [|constructor]. eapply below_mono; [|exact Hb]. lia.
  - apply starts_cons in Hy as [Hy|Hy]; [lia|]. apply Hy. apply (mlookup_absent y []); [constructor|]. by apply Ha.
Qed.

Lemma starts_split m k off k' m' y :
  phys_Split m k off = Done (k', m') -> starts m' y -> y = k' \/ starts m y.
Proof.
  unfold phys_Split. intros H Hy. outcome_inv. apply starts_memplace in Hy as [->|Hy]; [by left|].
  apply starts_mset in Hy as [->|Hy]; right; [|done]. unfold starts. by rewrite E.
Qed.

Lemma CarvePhysArea_starts lo l k a r addr size h m' y :
  wf_from lo (l ++ (k, a) :: r) -> 0 < size -> k <= addr -> addr + size <= k + p_size a ->
  CarvePhysArea (l ++ (k, a) :: r) addr size = Done (h, m') -> starts m' y ->
  starts (l ++ (k, a) :: r) y \/ y = addr \/ y = addr + size.
Proof.
  intros Hwf Hsz Hlo Hhi H Hy.
  pose proof (wf_mid _ _ _ _ _ Hwf) as (_ & _ & Hk & ? & ? & Hok & _ & Hb & Ha & ?). cbn in Hk, H0, H1, Hok, Ha.
  unfold CarvePhysArea in H. rewrite mle_mid in H by (auto; apply Ha; lia). cbn [of_option obind] in H.
  apply obind_Done in H as (u1 & _ & H). apply obind_Done in H as (u2 & _ & H). apply obind_Done in H as (u3 & _ & H).
  rewrite (wsub_small addr), wadd_small in H by word_lia. apply obind_Done in H as (m1 & E1 & H).
  assert (starts m1 y -> starts (l ++ (k, a) :: r) y \/ y = addr + size) as H1y.
  { intros Hs. destruct (_ =? p_size a) eqn:Ee; cbn [negb] in E1; outcome_inv; [by left|]. bool_prop.
    rewrite (phys_Split_eq lo) in E by (auto; lia). injection E as <-. cbn [snd] in Hs.
    apply starts_app in Hs as [Hs|Hs]; [left; apply starts_app; by left|].
    apply starts_cons in Hs as [Hs|Hs]; [left; apply starts_app; right; apply starts_cons; by left|].
    apply starts_cons in Hs as [Hs|Hs]; [right; lia|left; apply starts_app; right; apply starts_cons; by right]. }
  destruct (_ =? 0) eqn:Ez; cbn [negb] in H; [injection H as <- <-; tauto|]. bool_prop.
  pose proof H as H'. apply (starts_split _ _ _ _ _ y) in H; [|done]. destruct H as [->|Hs]; [|tauto].
  right; left. unfold phys_Split in H'. outcome_inv. cbn [p_base].
  assert (p_base a0 = p_base a) as ->; [|rewrite wadd_small by word_lia; lia].
  destruct (_ =? p_size a) eqn:Ee in E1; cbn [negb] in E1.
  - injection E1 as <-. rewrite mlookup_mid in E by done. by injection E as <-.
  - bool_prop. rewrite (phys_Split_eq lo) in E1 by (auto; lia). injection E1 as <-.
    rewrite mlookup_mid in E by done. by injection E as <-.
Qed.

(** ** Merging removes the ends it can *)

Lemma phys_CanMergeWith_false a1 a2 :
  phys_CanMergeWith a1 a2 = false -> wadd (p_base a1) (p_size a1) = p_base a2 ->
  (p_mtype a1, p_dma a1) <> (p_mtype a2, p_dma a2).
Proof.
  unfold phys_CanMergeWith. intros H E [= Ht Hd]. rewrite E, Z.eqb_refl, Ht, Z.eqb_refl, Hd in H. cbn in H.
  by rewrite bool_decide_eq_true_2 in H.
Qed.

(** Two entries in a row whose ranges touch: what each side of the border sees. *)
Lemma view_border lo l k1 a1 k2 a2 r :
  wf_from lo (l ++ (k1, a1) :: (k2, a2) :: r) -> k2 = k1 + p_size a1 ->
  view (l ++ (k1, a1) :: (k2, a2) :: r) (k2 - 1) = Some (p_mtype a1, p_dma a1) /\
  view (l ++ (k1, a1) :: (k2, a2) :: r) k2 = Some (p_mtype a2, p_dma a2).
Proof.
  intros Hwf ->. pose proof (wf_mid _ _ _ _ _ Hwf) as (_ & _ & _ & ? & _). cbn in H.
  split; [by rewrite (view_mid lo) by (cbn; auto; lia)|].
  rewrite cons_middle, app_assoc in *. pose proof (wf_mid _ _ _ _ _ Hwf) as (_ & _ & _ & ? & _). cbn in H0.
  by rewrite (view_mid lo) by (cbn; auto; lia).
Qed.

Lemma phys_merge_next_starts lo l k a r m' :
  wf_from lo (l ++ (k, a) :: r) -> phys_merge_next (l ++ (k, a) :: r) k = Done m' ->
  (forall y, starts m' y -> starts (l ++ (k, a) :: r) y) /\
  (starts m' (k + p_size a) ->
   view (l ++ (k, a) :: r) (k + p_size a - 1) <> view (l ++ (k, a) :: r) (k + p_size a)).
Proof.
  intros Hwf H. pose proof (wf_mid _ _ _ _ _ Hwf) as (_ & _ & Hk & ? & ? & Hok & Hr & Hb & Ha & _).
  cbn in Hk, H0, H1, Hok, Ha, Hr. unfold phys_merge_next in H. rewrite mlookup_mid in H by done. cbn [of_option obind] in H.
  rewrite mnext_mid in H by (auto; apply Ha; lia).
  assert (forall nk na r', r = (nk, na) :: r' -> k + p_size a < nk -> ~ starts (l ++ (k, a) :: r) (k + p_size a)) as Hgap.
  { intros nk na r' -> Hlt Hs. apply starts_app in Hs as [Hs|Hs].
    - apply Hs. rewrite <- (app_nil_r l). apply mlookup_absent; [|constructor]. eapply below_mono; [|exact Hb]. lia.
    - apply starts_cons in Hs as [Hs|Hs]; [lia|]. apply Hs. apply (mlookup_absent _ []); [constructor|].
      cbn in Hr. apply (wf_above nk); [cbn; intuition lia|done]. }
  destruct r as [|[nk na] r]; cbn [head] in H.
  { injection H as <-. split; [done|]. intros Hs. exfalso. apply starts_app in Hs as [Hs|Hs].
    - apply Hs. rewrite <- (app_nil_r l). apply mlookup_absent; [|constructor]. eapply below_mono; [|exact Hb]. lia.
    - apply starts_cons in Hs as [Hs|Hs]; [lia|by apply starts_nil in Hs]. }
  pose proof Hr as (? & ? & ? & ? & ? & Hr'). cbn in H2, H3, H4, H5, Hr'.
  destruct (phys_CanMergeWith a na) eqn:Hc; injection H as <-.
  - destruct (phys_merge_same lo l k nk a na r Hwf Hc) as (-> & Hs & HS & _).
    rewrite mset_mid, merase_second by (auto; lia). pose proof (sm_wf _ _ _ HS Hwf) as Hw'. split.
    + intros y. rewrite !starts_app, !starts_cons. tauto.
    + intros Hst. apply (starts_outside lo) in Hst; [|done]. cbn in Hst, Hs. lia.
  - split; [done|]. intros Hs. destruct (Z.eq_dec nk (k + p_size a)) as [->|Hne].
    + destruct (view_border lo l k a _ na r Hwf eq_refl) as [-> ->]. intros [= Ht Hd].
      apply (phys_CanMergeWith_false a na) in Hc; [by rewrite Ht, Hd in Hc|]. rewrite wadd_small by word_lia. lia.
    + exfalso. eapply Hgap; [done|lia|done].
Qed.

Lemma phys_merge_prev_starts lo l k a r k' m' :
  wf_from lo (l ++ (k, a) :: r) -> phys_merge_prev (l ++ (k, a) :: r) k = Done (k', m') ->
  (forall y, starts m' y -> starts (l ++ (k, a) :: r) y) /\
  (starts m' k -> view (l ++ (k, a) :: r) (k - 1) <> view (l ++ (k, a) :: r) k).
Proof.
  intros Hwf H. pose proof (wf_mid _ _ _ _ _ Hwf) as (Hl & He & Hk & ? & ? & Hok & Hr & Hb & Ha & _).
  cbn in Hk, H0, H1, Hok, Ha, Hr. unfold phys_merge_prev in H. rewrite mlookup_mid in H by done. cbn [of_option obind] in H.
  assert (end_from lo l < k -> view (l ++ (k, a) :: r) (k - 1) <> view (l ++ (k, a) :: r) k) as Hgap.
  { intros Hlt. rewrite (view_mid lo _ _ _ _ k) by (cbn; auto; lia).
    rewrite view_app, (view_ge lo) by (auto; lia). cbn. unfold covers. cbn.
    destruct (Z.leb_spec (p_base a) (k - 1)); [lia|]. cbn. rewrite (view_lt _ _ _ Hr) by lia. done. }
  destruct (exists_last_or_nil l) as [->|(l0 & [pk pa] & ->)].
  { cbn [app] in *. rewrite mprev_first in H. injection H as <- <-. split; [done|]. intros _.
    rewrite (view_mid lo [] k a r k) by (cbn; auto; lia). cbn. unfold covers. cbn.
    destruct (Z.leb_spec (p_base a) (k - 1)); [lia|]. cbn. rewrite (view_lt _ _ _ Hr) by lia. done. }
  rewrite end_app in He, Hgap. cbn in He, Hgap. rewrite <- !app_assoc in *. cbn [app] in *.
  pose proof (wf_mid _ _ _ _ _ Hwf) as (_ & _ & Hpk & ? & _ & Hpo & _ & Hpb & _). cbn in Hpk, H2, Hpo.
  rewrite mprev_mid in H by (auto; lia). destruct (phys_CanMergeWith pa a) eqn:Hc; injection H as <- <-.
  - destruct (phys_merge_same lo l0 pk k pa a r Hwf Hc) as (Hkk & Hs & HS & _).
    rewrite mset_mid, merase_second by (auto; lia). pose proof (sm_wf _ _ _ HS Hwf) as Hw'. split.
    + intros y. rewrite !starts_app, !starts_cons. tauto.
    + intros Hst. apply (starts_outside lo) in Hst; [|done]. cbn in Hst, Hs. lia.
  - split; [done|]. intros Hs. destruct (Z.eq_dec k (pk + p_size pa)) as [Ek|Hne]; [|apply Hgap; lia].
    destruct (view_border lo l0 pk pa k a r Hwf Ek) as [-> ->]. intros [= Ht Hd].
    apply (phys_CanMergeWith_false pa a) in Hc; [by rewrite Ht, Hd in Hc|]. rewrite wadd_small by word_lia. lia.
Qed.

Lemma phys_MergeAdjacent_starts lo l k a r k' m' :
  wf_from lo (l ++ (k, a) :: r) -> phys_MergeAdjacent (l ++ (k, a) :: r) k = Done (k', m') ->
  (forall y, starts m' y -> starts (l ++ (k, a) :: r) y) /\
  (forall y, y = k \/ y = k + p_size a -> starts m' y ->
   view (l ++ (k, a) :: r) (y - 1) <> view (l ++ (k, a) :: r) y).
Proof.
  intros Hwf H. unfold phys_MergeAdjacent in H. apply obind_Done in H as (m1 & E1 & H).
  destruct (phys_merge_next_starts lo l k a r m1 Hwf E1) as [Hs1 Hv1].
  destruct (phys_merge_next_ok lo l k a r Hwf) as (a1 & r1 & E1' & _ & _ & _ & HS & _).
  rewrite E1' in E1. injection E1 as <-. pose proof (sm_wf _ _ _ HS Hwf) as Hw1.
  destruct (phys_merge_prev_starts lo l k a1 r1 k' m' Hw1 H) as [Hs2 Hv2]. split; [auto|].
  intros y [-> | ->] Hy; [|auto]. rewrite <- !(sm_view _ _ _ HS Hwf). auto.
Qed.

(** ** Ranges inside one area *)

Lemma starts_mid l k a r : starts (l ++ (k, a) :: r) k.
Proof. apply starts_app. right. apply starts_cons. by left. Qed.

(** A range all of whose bytes are covered and inside which no area begins. *)
Lemma one_area lo m p n :
  wf_from lo m -> 0 < n -> (forall y, p <= y < p + n -> view m y <> None) ->
  (forall y, p < y < p + n -> ~ starts m y) ->
  exists l k a r, m = l ++ (k, a) :: r /\ k <= p /\ p + n <= k + p_size a.
Proof.
  intros Hwf Hn Hv Hs. destruct (find_covered lo m p Hwf (Hv p ltac:(lia))) as (l & k & a & r & -> & Ef & Hp & _).
  cbn in Hp. exists l, k, a, r. split; [done|]. split; [lia|]. destruct (Z.le_gt_cases (p + n) (k + p_size a)) as [|Hlt]; [done|].
  exfalso. set (e := k + p_size a) in *.
  destruct (find_covered lo _ e Hwf (Hv e ltac:(lia))) as (l1 & k1 & a1 & r1 & E1 & _ & He & _). cbn in He.
  destruct (Z.eq_dec k1 e) as [->|Hne].
  - apply (Hs e); [lia|]. rewrite E1. apply starts_mid.
  - pose proof (starts_mid l1 k1 a1 r1) as Hk1. rewrite <- E1 in Hk1. apply (starts_outside lo) in Hk1; [|done].
    pose proof (starts_mid l k a r) as Hk. rewrite E1 in Hk, Hwf. apply (starts_outside lo) in Hk; [|done].
    assert (k1 = k) as -> by lia.
    assert (mlookup k (l ++ (k, a) :: r) = Some a) as Ea.
    { apply mlookup_mid. rewrite <- E1 in Hwf. eapply wf_mid. exact Hwf. }
    rewrite E1, mlookup_mid in Ea by (eapply wf_mid; exact Hwf). injection Ea as ->. unfold e in *. lia.
Qed.
