(* ===== verification/VmaFacts.v ===== *)
(** * VmaFacts: splitting, merging and carving virtual areas is invisible

    The same facts as in [PhysFacts] for [vma_map]; here the attributes of an
    address include where it is backed, so the redistribution of [phys_areas]
    by [Split] and its concatenation by [MergeAdjacent] are part of them. *)

From S2P Require Import Prelude OrdMap MemTypes.

Implicit Types (m l r : VMAMap) (p q : PhysMap) (k lo o hi off : Z) (v : VirtualMemoryArea).

(** ** [phys_areas] *)

Fixpoint shift (d : Z) (l : PhysMap) : PhysMap :=
  match l with
  | [] => []
  | (k, a) :: l' => (k + d, a) :: shift d l'
  end.

(** The two halves [Split] should produce. *)
Fixpoint cut_left (off : Z) (l : PhysMap) : PhysMap :=
  match l with
  | [] => []
  | (k, a) :: l' =>
      if k + p_size a <=? off then (k, a) :: cut_left off l'
      else if k <? off then [(k, p_with_size (off - k) a)] else []
  end.

Fixpoint cut_right (off : Z) (l : PhysMap) : PhysMap :=
  match l with
  | [] => []
  | (k, a) :: l' =>
      if k + p_size a <=? off then cut_right off l'
      else if k <? off then
        (0, mkPhys (p_base a + (off - k)) (p_size a - (off - k)) (p_mtype a) (p_dma a)) :: shift (- off) l'
      else shift (- off) ((k, a) :: l')
  end.

Lemma tiled_le o p hi : tiled o p hi -> o <= hi.
Proof.
  revert o; induction p as [|[k a] p IH]; intros o; cbn; [lia|].
  intros (? & ? & ? & ? & H). apply IH in H. lia.
Qed.

Lemma tiled_below o p hi : tiled o p hi -> below hi p.
Proof.
  revert o; induction p as [|[k a] p IH]; intros o; cbn; [by constructor|].
  intros (-> & ? & ? & ? & H). apply below_cons. split; [apply tiled_le in H; lia | eauto].
Qed.

Lemma tiled_app o p q mid hi : tiled o p mid -> tiled mid q hi -> tiled o (p ++ q) hi.
Proof.
  revert o; induction p as [|[k a] p IH]; intros o; cbn; [by intros ->|]. intuition eauto.
Qed.

Lemma tiled_shift d o p hi : tiled o p hi -> tiled (o + d) (shift d p) (hi + d).
Proof.
  revert o; induction p as [|[k a] p IH]; intros o; cbn; [lia|].
  intros (-> & ? & ? & ? & H). repeat split; auto.
  replace (o + d + p_size a) with (o + p_size a + d) by lia. auto.
Qed.

Lemma phys_at_shift d p x : phys_at (shift d p) x = phys_at p (x - d).
Proof.
  induction p as [|[k a] p IH]; cbn; [done|]. rewrite IH.
  split_cmp; try lia; try done. do 2 f_equal. lia.
Qed.

Lemma phys_at_lt o p hi x : tiled o p hi -> x < o -> phys_at p x = None.
Proof.
  revert o; induction p as [|[k a] p IH]; intros o; cbn; [done|].
  intros (-> & ? & ? & ? & H) ?. split_cmp; try lia. eapply IH; [exact H|lia].
Qed.

Lemma phys_at_app o p q mid x :
  tiled o p mid -> phys_at (p ++ q) x = if x <? o then phys_at q x else
    if x <? mid then phys_at p x else phys_at q x.
Proof.
  revert o; induction p as [|[k a] p IH]; intros o; cbn.
  - intros ->. by destruct (Z.ltb_spec x mid).
  - intros (-> & ? & ? & ? & H). pose proof (tiled_le _ _ _ H). rewrite (IH _ H).
    split_cmp; try lia; try done.
Qed.

Lemma cut_left_tiled off o p hi :
  tiled o p hi -> o <= off <= hi -> tiled o (cut_left off p) off.
Proof.
  revert o; induction p as [|[k a] p IH]; intros o; cbn; [lia|].
  intros (-> & ? & ? & ? & H) ?. pose proof (tiled_le _ _ _ H).
  split_cmp; cbn; try lia; repeat split; auto; try lia. apply IH; auto; lia.
Qed.

Lemma cut_right_tiled off o p hi :
  tiled o p hi -> o <= off <= hi -> tiled 0 (cut_right off p) (hi - off).
Proof.
  revert o; induction p as [|[k a] p IH]; intros o; cbn; [lia|].
  intros (-> & ? & ? & ? & H) ?. pose proof (tiled_le _ _ _ H).
  split_cmp; cbn; try lia.
  - eapply IH; [exact H|lia].
  - repeat split; auto; try lia. replace (hi - off) with (hi + - off) by lia.
    replace (0 + _) with (o + p_size a + - off) by lia. by apply tiled_shift.
  - repeat split; auto; try lia. replace (hi - off) with (hi + - off) by lia.
    replace (0 + _) with (o + p_size a + - off) by lia. by apply tiled_shift.
Qed.

Lemma cut_left_at off o p hi x :
  tiled o p hi -> o <= off <= hi -> x < off -> phys_at (cut_left off p) x = phys_at p x.
Proof.
  revert o; induction p as [|[k a] p IH]; intros o; cbn; [done|].
  intros (-> & ? & ? & ? & H) ? ?. split_cmp; cbn; split_cmp; try lia; try done.
  all: first [eapply IH; eauto; lia | symmetry; eapply phys_at_lt; [exact H|lia]].
Qed.

Lemma cut_right_at off o p hi x :
  tiled o p hi -> o <= off <= hi -> 0 <= x -> phys_at (cut_right off p) x = phys_at p (x + off).
Proof.
  revert o; induction p as [|[k a] p IH]; intros o; cbn; [done|].
  intros (-> & ? & ? & ? & H) ? ?. destruct (Z.leb_spec (o + p_size a) off).
  - rewrite (IH _ H) by lia. split_cmp; try lia; done.
  - destruct (Z.ltb_spec o off); cbn; rewrite phys_at_shift;
      replace (x - - off) with (x + off) by lia; split_cmp; try lia; try done; do 2 f_equal; lia.
Qed.

(** The loop of [Split] computes those halves. *)
Lemma split_phys_right off o p hi old new :
  tiled o p hi -> 0 <= off -> off <= o -> hi < W64 -> below (o - off) new ->
  split_phys off p old new = (old, new ++ shift (- off) p).
Proof.
  revert o new; induction p as [|[k a] p IH]; intros o new; cbn; [by rewrite app_nil_r|].
  intros (-> & ? & ? & ? & H) ? ? ? Hb. pose proof (tiled_le _ _ _ H). word_simpl.
  assert ((o + p_size a <=? off) = false) as -> by (apply Z.leb_gt; lia).
  assert ((o <? off) = false) as -> by (apply Z.ltb_ge; lia).
  assert ((off <=? o) = true) as -> by (apply Z.leb_le; lia). cbn.
  word_simpl. rewrite mset_end by done. rewrite (IH (o + p_size a)); auto; try lia.
  - by rewrite <- app_assoc.
  - apply below_snoc; [done|lia].
Qed.

Lemma split_phys_eq off o p hi old :
  tiled o p hi -> 0 <= o <= off -> off <= hi -> hi < W64 -> below o old ->
  split_phys off p old [] = (old ++ cut_left off p, cut_right off p).
Proof.
  revert o old; induction p as [|[k a] p IH]; intros o old; cbn; [by rewrite app_nil_r|].
  intros (-> & ? & ? & ? & H) ? ? ? Hb. pose proof (tiled_le _ _ _ H). word_simpl.
  destruct (Z.leb_spec (o + p_size a) off).
  - assert ((o <? off) && (off <? o + p_size a) = false)%bool as -> by (split_cmp; lia || done).
    assert ((off <=? o) = false) as -> by (apply Z.leb_gt; lia).
    rewrite mset_end, (IH (o + p_size a)) by (try apply below_snoc; auto; lia).
    by rewrite <- app_assoc.
  - destruct (Z.ltb_spec o off).
    + assert ((off <? o + p_size a) = true) as -> by (apply Z.ltb_lt; lia). cbn [andb].
      assert ((off <=? o) = false) as -> by (apply Z.leb_gt; lia).
      rewrite mset_end by done. cbn [mset].
      rewrite (split_phys_right off (o + p_size a) p hi); auto; try lia.
      * rewrite wsub_small by word_lia. word_simpl. done.
      * apply below_cons. split; [lia|by constructor].
    + replace off with o in * by lia.
      rewrite Z.leb_refl. cbn [andb mset].
      rewrite (split_phys_right o (o + p_size a) p hi); auto; try lia.
      * rewrite wsub_small by word_lia. rewrite app_nil_r. cbn. by rewrite Z.add_opp_r.
      * apply below_cons. split; [rewrite wsub_small; word_lia|by constructor].
Qed.

Lemma append_phys_eq p q o s hi :
  tiled o q hi -> 0 <= o -> 0 <= s -> s + hi < W64 -> below (s + o) p ->
  append_phys s q p = p ++ shift s q.
Proof.
  revert o p; induction q as [|[k a] q IH]; intros o p; cbn; [by rewrite app_nil_r|].
  intros (-> & ? & ? & ? & H) ? ? ? Hb. pose proof (tiled_le _ _ _ H). word_simpl.
  rewrite mset_end by done. rewrite (IH (o + p_size a)) by (try apply below_snoc; auto; lia).
  rewrite <- app_assoc. cbn. do 3 f_equal. lia.
Qed.

(** ** Split *)

Definition vleft (off : Z) (v : VirtualMemoryArea) : VirtualMemoryArea :=
  v_with_phys (cut_left off (v_phys v)) (v_with_size off v).

Definition vright (off : Z) (v : VirtualMemoryArea) : VirtualMemoryArea :=
  mkVMA (v_base v + off) (v_size v - off) (cut_right off (v_phys v)) (v_type v) (v_prot v)
    (v_name v) (v_fd v) (v_nomerge v).

(** The attributes other than the range and the backing. *)
Definition same_kind (v v' : VirtualMemoryArea) : Prop :=
  v_type v' = v_type v /\ v_prot v' = v_prot v /\ v_name v' = v_name v /\
  v_fd v' = v_fd v /\ v_nomerge v' = v_nomerge v.

Lemma vma_halves_ok v off :
  vma_ok v -> 0 < off < v_size v -> vma_ok (vleft off v) /\ vma_ok (vright off v).
Proof.
  intros [Hb Hok] Hoff. unfold vma_ok, vleft, vright, HasPhysicalBacking in *. cbn.
  destruct (_ || _ || _)%bool.
  - split; (split; [lia|]).
    + eapply cut_left_tiled; [exact Hok|lia].
    + eapply cut_right_tiled; [exact Hok|lia].
  - rewrite Hok. cbn. repeat split; lia.
Qed.

Lemma vma_halves_at v off x :
  vma_ok v -> 0 < off < v_size v ->
  (x < off -> phys_at (cut_left off (v_phys v)) x = phys_at (v_phys v) x) /\
  (off <= x -> phys_at (cut_right off (v_phys v)) (x - off) = phys_at (v_phys v) x).
Proof.
  intros [Hb Hok] Hoff. unfold HasPhysicalBacking in *.
  destruct (_ || _ || _)%bool; [|by rewrite Hok].
  split; intros.
  - eapply cut_left_at; [exact Hok|lia|lia].
  - erewrite cut_right_at; [|exact Hok|lia|lia]. f_equal. lia.
Qed.

Lemma vma_split_same lo l k v off r :
  wf_from lo (l ++ (k, v) :: r) -> 0 < off < v_size v ->
  same_map lo (l ++ (k, v) :: r) (l ++ (k, vleft off v) :: (k + off, vright off v) :: r).
Proof.
  intros Hwf Hoff. pose proof (wf_mid _ _ _ _ _ Hwf) as (_ & _ & Hk & _ & _ & Hok & _).
  cbn in Hk, Hok.
  apply same_split; cbn; try lia.
  - intros _. by apply vma_halves_ok.
  - intros x Hx. f_equal. apply (vma_halves_at v off); auto; lia.
  - intros x Hx. f_equal. replace (x - (v_base v + off)) with ((x - v_base v) - off) by lia.
    apply (vma_halves_at v off); auto; lia.
Qed.

Lemma vma_Split_eq lo l k v off r :
  wf_from lo (l ++ (k, v) :: r) -> 0 < off < v_size v ->
  vma_Split (l ++ (k, v) :: r) k off =
    Done (k + off, l ++ (k, vleft off v) :: (k + off, vright off v) :: r).
Proof.
  intros Hwf Hoff.
  pose proof (wf_mid _ _ _ _ _ Hwf) as (Hl & ? & Hk & ? & ? & [Hok1 Hok] & Hr & Hb & Ha & ?).
  cbn in Hk, H0, H1, Ha. unfold vma_Split. rewrite mlookup_mid by done. cbn [of_option obind].
  assert ((off <? v_size v) && (0 <? off) = true)%bool as -> by (split_cmp; lia || done).
  cbn [oassert obind].
  assert ((if HasPhysicalBacking v then split_phys off (v_phys v) [] [] else (v_phys v, v_phys v)) =
          (cut_left off (v_phys v), cut_right off (v_phys v))) as ->.
  { destruct (HasPhysicalBacking v).
    - rewrite (split_phys_eq off 0 _ (v_size v)); auto; try lia. by constructor.
    - by rewrite Hok. }
  rewrite mset_mid by done. cbn [v_base]. rewrite wadd_small by word_lia.
  rewrite cons_middle, app_assoc, memplace_absent.
  - rewrite <- app_assoc. cbn. unfold vright, vleft. word_simpl. by rewrite Hk.
  - apply below_snoc; [done|lia].
  - apply Ha. lia.
Qed.

(** ** Carve *)

Definition vcarved (lo : Z) (m : VMAMap) (addr size : Z) (v : VirtualMemoryArea) (tl m' : VMAMap) : Prop :=
  exists l r mid, m' = l ++ (addr, mid) :: r /\ (addr + size = v_base v + v_size v -> r = tl) /\
    v_base mid = addr /\ v_size mid = size /\ same_kind v mid /\ same_map lo m m'.

Lemma CarveVMA_ok lo l k v r addr size :
  wf_from lo (l ++ (k, v) :: r) -> 0 < size -> k <= addr -> addr + size <= k + v_size v ->
  exists m', CarveVMA (l ++ (k, v) :: r) addr size = Done (addr, m') /\
    vcarved lo (l ++ (k, v) :: r) addr size v r m'.
Proof.
  intros Hwf Hsz Hlo Hhi.
  pose proof (wf_mid _ _ _ _ _ Hwf) as (Hl & ? & Hk & ? & ? & [Hok1 Hok] & Hr & Hb & Ha & ?).
  cbn in Hk, H0, H1, Ha.
  unfold CarveVMA, FindVMA. rewrite mle_mid by (auto; apply Ha; lia). cbn [of_option obind].
  rewrite (proj2 (Z.leb_le (v_base v) addr)) by lia. cbn [oassert obind]. word_simpl.
  set (off := addr - v_base v).
  destruct ((off =? 0) && (size =? v_size v))%bool eqn:Ewhole.
  { bool_prop. replace addr with k by lia. eexists; split; [done|].
    exists l, r, v. unfold same_kind. split_and!; try done; lia. }
  rewrite (proj2 (Z.leb_le (off + size) (v_size v))) by lia. cbn [oassert obind].
  destruct (Z.eqb_spec (off + size) (v_size v)) as [He|He]; cbn [negb obind].
  - destruct (Z.eqb_spec off 0) as [Hz|Hz]; cbn [negb].
    { exfalso. apply andb_false_iff in Ewhole as [E|E]; bool_prop; lia. }
    rewrite (vma_Split_eq lo) by (auto; lia).
    pose proof (vma_split_same lo l k v off r Hwf ltac:(lia)) as HS.
    replace (k + off) with addr in * by lia. eexists; split; [done|].
    exists (l ++ [(k, vleft off v)]), r, (vright off v). rewrite <- app_assoc.
    unfold same_kind. cbn. split_and!; try done; lia.
  - rewrite (vma_Split_eq lo) by (auto; lia). cbn [obind snd].
    pose proof (vma_split_same lo l k v (off + size) r Hwf ltac:(lia)) as HS.
    set (tl := (k + (off + size), _) :: r) in *.
    destruct (Z.eqb_spec off 0) as [Hz|Hz]; cbn [negb].
    + replace addr with k by lia. eexists; split; [done|].
      exists l, tl, (vleft (off + size) v). unfold same_kind. cbn. split_and!; try done; lia.
    + pose proof (sm_wf _ _ _ HS Hwf) as Hwf1.
      rewrite (vma_Split_eq lo) by (auto; cbn; lia).
      pose proof (vma_split_same lo l k (vleft (off + size) v) off tl Hwf1 ltac:(cbn; lia)) as HS2.
      replace (k + off) with addr in * by lia. eexists; split; [done|].
      exists (l ++ [(k, vleft off (vleft (off + size) v))]), tl, (vright off (vleft (off + size) v)).
      rewrite <- app_assoc. unfold same_kind. cbn. split_and!; try done; try lia.
      by transitivity (l ++ (k, vleft (off + size) v) :: tl).
Qed.

(** ** Merge *)

Lemma vma_ok_direct v : vma_ok v -> 0 < v_size v -> v_type v = VMAType.Direct -> v_phys v <> [].
Proof.
  intros [_ Hok] Hs Ht E.
  assert (HasPhysicalBacking v = true) as Hb by (unfold HasPhysicalBacking; rewrite Ht; reflexivity).
  rewrite Hb, E in Hok. cbn in Hok. lia.
Qed.

(** On well-formed areas the test is defined, and what it accepts can be
    joined without changing the attributes of any address. *)
Lemma vma_CanMergeWith_ok v1 v2 :
  vma_ok v1 -> vma_ok v2 -> 0 < v_size v1 -> 0 < v_size v2 ->
  exists b, vma_CanMergeWith v1 v2 = Done b /\
    (b = true -> wadd (v_base v1) (v_size v1) = v_base v2 /\ v_type v1 = v_type v2 /\
       v_prot v1 = v_prot v2 /\ v_name v1 = v_name v2 /\ v_nomerge v1 = false /\ v_nomerge v2 = false).
Proof.
  intros Hok1 Hok2 Hs1 Hs2. unfold vma_CanMergeWith.
  destruct (v_nomerge v1 || v_nomerge v2)%bool eqn:En; [by exists false|]. bool_prop.
  destruct (Z.eqb_spec (wadd (v_base v1) (v_size v1)) (v_base v2)); [|by exists false].
  cbn [negb].
  assert (exists blocked, (if bool_decide (v_type v1 = VMAType.Direct) &&
     bool_decide (v_type v2 = VMAType.Direct) then
     let! last_phys := of_option (last (v_phys v1)) in
     let! first_next_phys := of_option (head (v_phys v2)) in
     Done (negb (wadd (p_base last_phys.2) (p_size last_phys.2) =? p_base first_next_phys.2) ||
           negb (p_mtype last_phys.2 =? p_mtype first_next_phys.2))
     else Done false) = Done blocked) as [blocked ->].
  { destruct (_ && _)%bool eqn:Ed; [|eauto]. bool_prop.
    pose proof (vma_ok_direct v1 Hok1 Hs1 H1). pose proof (vma_ok_direct v2 Hok2 Hs2 H2).
    destruct (exists_last_or_nil (v_phys v1)) as [?|(p0 & e0 & Ep)]; [done|].
    rewrite Ep, last_snoc. destruct (v_phys v2); [done|]. cbn. eauto. }
  cbn [obind]. destruct blocked; [by exists false|].
  destruct (Z.eqb_spec (v_prot v1) (v_prot v2)); [|by exists false].
  destruct (bool_decide (v_type v1 = v_type v2)) eqn:Et; [|by exists false]. cbn [negb orb].
  destruct (bool_decide (v_name v1 = v_name v2)) eqn:Em; [|by exists false]. bool_prop.
  exists true. done.
Qed.

Lemma HasPhysicalBacking_type v v' : v_type v = v_type v' -> HasPhysicalBacking v = HasPhysicalBacking v'.
Proof. unfold HasPhysicalBacking. by intros ->. Qed.

Lemma absorb_at v1 v2 :
  vma_ok v1 -> vma_ok v2 -> v_type v1 = v_type v2 -> 0 <= v_size v1 -> 0 <= v_size v2 ->
  v_size v1 + v_size v2 < W64 ->
  vma_ok (absorb v1 v2) /\
  (forall x, x < v_size v1 -> phys_at (v_phys (absorb v1 v2)) x = phys_at (v_phys v1) x) /\
  (forall x, v_size v1 <= x -> phys_at (v_phys (absorb v1 v2)) x = phys_at (v_phys v2) (x - v_size v1)).
Proof.
  intros [Hb1 H1] [Hb2 H2] Ht ? ? ?. unfold vma_ok, absorb. cbn.
  rewrite (HasPhysicalBacking_type v1 v2) in H1 by done.
  unfold HasPhysicalBacking in *. cbn. rewrite Ht.
  destruct (_ || _ || _)%bool.
  - rewrite (append_phys_eq (v_phys v1) (v_phys v2) 0 (v_size v1) (v_size v2));
      auto; try lia; [|by rewrite Z.add_0_r; eapply tiled_below].
    pose proof (tiled_shift (v_size v1) _ _ _ H2) as Hsh. cbn in Hsh.
    split; [split; [done|]|split; intros x Hx].
    + rewrite wadd_small by word_lia. rewrite Z.add_comm. eapply tiled_app; eassumption.
    + rewrite (phys_at_app _ _ _ _ _ H1). destruct (Z.ltb_spec x 0).
      * rewrite (phys_at_lt _ _ _ _ Hsh), (phys_at_lt _ _ _ _ H1) by lia. done.
      * destruct (Z.ltb_spec x (v_size v1)); [done|lia].
    + rewrite (phys_at_app _ _ _ _ _ H1).
      destruct (Z.ltb_spec x 0); [lia|]. destruct (Z.ltb_spec x (v_size v1)); [lia|].
      apply phys_at_shift.
  - rewrite H1, H2. cbn. done.
Qed.

Lemma vma_merge_same lo l k k2 v1 v2 r :
  wf_from lo (l ++ (k, v1) :: (k2, v2) :: r) -> vma_CanMergeWith v1 v2 = Done true ->
  k2 = k + v_size v1 /\ v_size (absorb v1 v2) = v_size v1 + v_size v2 /\
  same_map lo (l ++ (k, v1) :: (k2, v2) :: r) (l ++ (k, absorb v1 v2) :: r).
Proof.
  intros Hwf Hc.
  pose proof (wf_mid _ _ _ _ _ Hwf) as (Hl & ? & Hk & ? & ? & Hok1 & Hr & _).
  cbn in Hk, H0, H1, Hok1, Hr. destruct Hr as (? & ? & ? & ? & Hok2 & ?).
  destruct (vma_CanMergeWith_ok v1 v2) as (b & Hb & Himp); auto.
  rewrite Hc in Hb. injection Hb as <-. destruct (Himp eq_refl) as (Hadj & Ht & Hp & Hn & Hm1 & Hm2).
  pose proof (proj1 Hok1). word_simpl_in Hadj.
  destruct (absorb_at v1 v2) as (Hok & Hx1 & Hx2); auto; try lia.
  assert (v_size (absorb v1 v2) = v_size v1 + v_size v2) as Hs by (cbn; by rewrite wadd_small by word_lia).
  split; [lia|]. split; [done|].
  apply same_merge; auto.
  - cbn. lia.
  - intros x Hx. cbn in *. f_equal. apply Hx1. lia.
  - intros x Hx. cbn in *. rewrite Ht, Hp, Hn, Hm1, Hm2. f_equal. rewrite Hx2 by lia. f_equal. lia.
Qed.

Lemma vma_merge_next_ok lo l k v r :
  wf_from lo (l ++ (k, v) :: r) ->
  exists v1 r1,
    vma_merge_next (l ++ (k, v) :: r) k = Done (l ++ (k, v1) :: r1) /\
    v_size v <= v_size v1 /\ same_kind v v1 /\
    same_map lo (l ++ (k, v) :: r) (l ++ (k, v1) :: r1) /\
    (v_size v1 = v_size v /\ r1 = r \/ v_size v < v_size v1 /\ (length r1 < length r)%nat).
Proof.
  intros Hwf. pose proof (wf_mid _ _ _ _ _ Hwf) as (_ & _ & Hk & ? & _ & Hok & Hr & Hb & Ha & _).
  cbn in Hk, H, Hok, Hr, Ha. unfold vma_merge_next. rewrite mlookup_mid by done.
  cbn [of_option obind]. rewrite mnext_mid by (auto; apply Ha; lia). clear Ha.
  destruct r as [|[nk nv] r]; cbn [head].
  - exists v, []. unfold same_kind. split_and!; try done; try lia. by left.
  - cbn in Hr. destruct Hr as (? & ? & ? & ? & Hok2 & _).
    destruct (vma_CanMergeWith_ok v nv) as ([] & Hc & _); auto; rewrite Hc; cbn [obind].
    + destruct (vma_merge_same lo l k nk v nv r Hwf Hc) as (-> & Hs & HS).
      rewrite mset_mid by done. rewrite merase_second by (auto; lia).
      exists (absorb v nv), r. unfold same_kind. split_and!; try done; try lia. right. split; [lia|cbn; lia].
    + exists v, ((nk, nv) :: r). unfold same_kind. split_and!; try done; try lia. by left.
Qed.

Lemma vma_merge_prev_ok lo l k v r :
  wf_from lo (l ++ (k, v) :: r) ->
  exists l1 k1 v1,
    vma_merge_prev (l ++ (k, v) :: r) k = Done (k1, l1 ++ (k1, v1) :: r) /\
    k1 <= k /\ k + v_size v = k1 + v_size v1 /\
    v_type v1 = v_type v /\ v_prot v1 = v_prot v /\ v_name v1 = v_name v /\ v_nomerge v1 = v_nomerge v /\
    same_map lo (l ++ (k, v) :: r) (l1 ++ (k1, v1) :: r).
Proof.
  intros Hwf. pose proof (wf_mid _ _ _ _ _ Hwf) as (_ & _ & Hk & ? & _ & Hok & _ & Hb & _).
  cbn in Hk, H, Hok. unfold vma_merge_prev. rewrite mlookup_mid by done. cbn [of_option obind].
  destruct (exists_last_or_nil l) as [->|(l0 & [pk pv] & ->)].
  { cbn [app]. rewrite mprev_first. exists [], k, v. split_and!; try done; lia. }
  rewrite <- !app_assoc in *. cbn [app] in *.
  pose proof (wf_mid _ _ _ _ _ Hwf) as (_ & _ & _ & ? & _ & Hpok & Hr & Hpb & _).
  cbn in Hr, Hpok, H0. rewrite mprev_mid by (auto; lia).
  destruct (vma_CanMergeWith_ok pv v) as ([] & Hc & Himp); auto; rewrite Hc; cbn [obind].
  - destruct (Himp eq_refl) as (_ & Ht & Hp & Hn & Hm1 & Hm2).
    destruct (vma_merge_same lo l0 pk k pv v r Hwf Hc) as (Hkk & Hs & HS).
    rewrite mset_mid by done. rewrite merase_second by (auto; lia).
    exists l0, pk, (absorb pv v). split_and!; try done; try lia. cbn. congruence.
  - exists (l0 ++ [(pk, pv)]), k, v. rewrite <- !app_assoc. cbn [app]. split_and!; try done; lia.
Qed.

(** [MergeAdjacent] returns the entry that now covers what [k] covered. *)
Lemma vma_MergeAdjacent_ok lo l k v r :
  wf_from lo (l ++ (k, v) :: r) ->
  exists l' k' v' r', vma_MergeAdjacent (l ++ (k, v) :: r) k = Done (k', l' ++ (k', v') :: r') /\
    k' <= k /\ k + v_size v <= k' + v_size v' /\
    v_type v' = v_type v /\ v_prot v' = v_prot v /\ v_name v' = v_name v /\ v_nomerge v' = v_nomerge v /\
    same_map lo (l ++ (k, v) :: r) (l' ++ (k', v') :: r') /\
    (k + v_size v = k' + v_size v' /\ r' = r \/ k + v_size v < k' + v_size v' /\ (length r' < length r)%nat).
Proof.
  intros Hwf. unfold vma_MergeAdjacent.
  destruct (vma_merge_next_ok lo l k v r Hwf) as (v1 & r1 & -> & Hs1 & (Ht & Hp & Hn & _ & Hm) & HS1 & Hpre).
  cbn [obind]. pose proof (sm_wf _ _ _ HS1 Hwf) as Hwf1.
  destruct (vma_merge_prev_ok lo l k v1 r1 Hwf1) as
    (l2 & k2 & v2 & -> & ? & ? & Ht2 & Hp2 & Hn2 & Hm2 & HS2).
  exists l2, k2, v2, r1. split_and!; try congruence; try lia; try done.
  - by transitivity (l ++ (k, v1) :: r1).
  - destruct Hpre as [[? ?]|?]; [left; split; [lia|done] | right; lia].
Qed.

(** ** Building [phys_areas]

    A mapping adds the physical areas it takes at the end and merges. *)
Lemma tiled_snoc o q pk pa off :
  tiled o (q ++ [(pk, pa)]) off ->
  tiled o q pk /\ off = pk + p_size pa /\ 0 < p_size pa /\ 0 <= p_base pa /\ p_base pa + p_size pa < W64.
Proof.
  revert o; induction q as [|[k b] q IH]; intros o; cbn.
  - intros (-> & ? & ? & ? & <-). split_and!; auto; lia.
  - intros (-> & ? & ? & ? & H). apply IH in H as (? & ? & ? & ? & ?). split_and!; auto.
Qed.

Lemma add_area_tiled p off a :
  tiled 0 p off -> 0 <= off < W64 -> 0 < p_size a -> 0 <= p_base a -> p_base a + p_size a < W64 ->
  exists k p', phys_MergeAdjacent (mset off a p) off = Done (k, p') /\ tiled 0 p' (off + p_size a) /\
    forall x, phys_at p' x = if x <? off then phys_at p x else phys_at [(off, a)] x.
Proof.
  intros Ht Hoff Hs Hb He. pose proof (tiled_below _ _ _ Ht) as Hbl.
  rewrite mset_end by done. unfold phys_MergeAdjacent, phys_merge_next.
  rewrite mlookup_mid, mnext_mid by (done || constructor). cbn [of_option obind head].
  unfold phys_merge_prev. rewrite mlookup_mid by done. cbn [of_option obind].
  assert (forall q o, tiled 0 q o -> o = off -> (forall x, phys_at q x = phys_at p x) ->
    forall x, phys_at (q ++ [(off, a)]) x = if x <? off then phys_at p x else phys_at [(off, a)] x) as Happ.
  { intros q o Hq -> Hqp x. rewrite (phys_at_app _ _ _ _ _ Hq).
    destruct (Z.ltb_spec x 0), (Z.ltb_spec x off); try lia; [|by rewrite Hqp|done].
    rewrite (phys_at_lt _ _ _ _ Ht) by lia. cbn. split_cmp; try lia; done. }
  destruct (exists_last_or_nil p) as [->|(q & [pk pa] & ->)].
  { cbn [app]. rewrite mprev_first. eexists _, _. split; [done|]. cbn in Ht. subst off.
    split; [cbn; lia|]. by apply (Happ [] 0). }
  rewrite <- app_assoc. cbn [app].
  apply tiled_snoc in Ht as Ht'. destruct Ht' as (Hq & -> & ? & ? & ?).
  pose proof (tiled_below _ _ _ Hq) as Hbq. pose proof (tiled_le _ _ _ Hq).
  rewrite mprev_mid by (auto; lia).
  destruct (phys_CanMergeWith pa a) eqn:Hc.
  - unfold phys_CanMergeWith in Hc.
    destruct (Z.eqb_spec (wadd (p_base pa) (p_size pa)) (p_base a)) as [Hadj|]; [|done].
    destruct (Z.eqb_spec (p_mtype pa) (p_mtype a)) as [Hm|]; [|done].
    destruct (bool_decide (p_dma pa = p_dma a)) eqn:Hd; [|done]. bool_prop. word_simpl_in Hadj.
    rewrite mset_mid, merase_second by (auto; lia). word_simpl.
    eexists _, _. split; [done|]. split.
    + eapply tiled_app; [exact Hq|]. cbn. lia.
    + intros x. rewrite !(phys_at_app _ _ _ _ _ Hq). cbn. rewrite Hm, Hd.
      split_cmp; try lia; try done; do 2 f_equal; lia.
  - eexists _, _. split; [done|]. split.
    + rewrite cons_middle, app_assoc. eapply tiled_app; [exact Ht|]. cbn. lia.
    + intros x. rewrite cons_middle, app_assoc. by apply (Happ _ _ Ht).
Qed.
