(* ===== verification/MemOps.v ===== *)
(** * MemOps: the operations of [Core::MemoryManager]

    [core/memory.h] and [core/memory.cpp], operation by operation.  Every
    operation takes the manager and returns its result with the manager it
    leaves behind, or the [fault] it runs into.  The locks are not modelled
    (the operations are the critical sections, run one after the other);
    logging has no effect on the state and is left out. *)

From S2P Require Import Prelude OrdMap MemTypes.

Module PMT := PhysicalMemoryType.

(** ** Set-up *)

Definition ORBIS_KERNEL_TOTAL_MEM : Z := MB 5248.
Definition ORBIS_KERNEL_TOTAL_MEM_PRO : Z := MB 5888.
Definition ORBIS_KERNEL_TOTAL_MEM_DEV : Z := MB 6656.
Definition ORBIS_KERNEL_TOTAL_MEM_DEV_PRO : Z := MB 7936.
Definition ORBIS_KERNEL_FLEXIBLE_MEMORY_BASE : Z := MB 64.
Definition ORBIS_KERNEL_FLEXIBLE_MEMORY_SIZE : Z := MB 512.
Definition DEFAULT_MAPPING_BASE : Z := 0x200000000.
Definition FW_170 : Z := 0x1700000.
Definition FW_200 : Z := 0x2000000.
Definition FW_250 : Z := 0x2500000.

(** [regions] is [impl.GetUsableRegions()], a list of [[lower, upper)]. *)
Fixpoint initial_vmas (regions : list (Z * Z)) (m : VMAMap) : VMAMap :=
  match regions with
  | [] => m
  | (lower, upper) :: rest =>
      initial_vmas rest (memplace lower (fresh_vma lower (wsub upper lower)) m)
  end.

Definition MemoryManager_ctor (space : AddressSpace) (regions : list (Z * Z))
    (extra_dmem sdk : Z) : MemoryManager :=
  let total_size := ORBIS_KERNEL_TOTAL_MEM_DEV_PRO in
  let total_size :=
    if negb (extra_dmem =? 0) then wadd total_size (wmul extra_dmem (MB 1)) else total_size in
  mkMM space
    [(0, mkPhys 0 total_size 0 PMT.Free)]
    [(total_size, mkPhys total_size ORBIS_KERNEL_FLEXIBLE_MEMORY_SIZE 0 PMT.Free)]
    (initial_vmas regions [])
    (MemoryMapGeneration.mk 0 None)
    total_size ORBIS_KERNEL_FLEXIBLE_MEMORY_SIZE 0 0 sdk
    (replicate 3 (mkPrt 0 0 false)) [].

Definition SetupMemoryRegions (is_neo is_devkit : bool) (extra_dmem flexible_size : Z)
    (use_extended_mem1 use_extended_mem2 : bool) (s : MemoryManager) : outcome MemoryManager :=
  let total_size := if is_neo then ORBIS_KERNEL_TOTAL_MEM_PRO else ORBIS_KERNEL_TOTAL_MEM in
  let total_size :=
    if is_devkit then
      if is_neo then ORBIS_KERNEL_TOTAL_MEM_DEV_PRO else ORBIS_KERNEL_TOTAL_MEM_DEV
    else total_size in
  let total_size :=
    if negb (extra_dmem =? 0) then wadd total_size (wmul extra_dmem (MB 1)) else total_size in
  let total_size := if negb use_extended_mem1 && is_neo then wsub total_size (MB 256) else total_size in
  let total_size :=
    if negb use_extended_mem2 && negb is_neo then wsub total_size (MB 128) else total_size in
  let new_flexible := wsub flexible_size ORBIS_KERNEL_FLEXIBLE_MEMORY_BASE in
  oassert (flexible_usage s <=? new_flexible) ;;!
  let old_direct_size := total_direct_size s in
  let new_direct := wsub total_size flexible_size in
  let! '(last, area) := FindArea (dmem_map s) new_direct in
  oassert (bool_decide (p_dma area = PMT.Free) &&
           (wsub old_direct_size new_direct <=? p_size area)) ;;!
  let dmem :=
    malter (fun a => p_with_size (wsub (p_size a) (wsub old_direct_size new_direct)) a) last (dmem_map s) in
  Done (with_dmem dmem (with_sizes new_direct new_flexible s)).

(** ** Range validation *)

Definition IsValidGpuMapping (virtual_addr size : Z) : bool :=
  wadd virtual_addr size <? 0x10000000000.

(** The [while] of [IsValidMapping], on the areas from [vma_handle] on. *)
Fixpoint validate_range (vmas : VMAMap) (addr_to_check size_to_validate : Z) : bool :=
  match vmas with
  | [] => size_to_validate <=? 0
  | (_, vma) :: rest =>
      if negb (0 <? size_to_validate) then size_to_validate <=? 0
      else
        let offset_in_vma := wsub addr_to_check (v_base vma) in
        let size_in_vma := Z.min (wsub (v_size vma) offset_in_vma) size_to_validate in
        let size_to_validate := wsub size_to_validate size_in_vma in
        let addr_to_check := wadd addr_to_check size_in_vma in
        match rest with
        | (_, next) :: _ =>
            if (0 <? size_to_validate) && negb (addr_to_check =? v_base next) then false
            else validate_range rest addr_to_check size_to_validate
        | [] => validate_range rest addr_to_check size_to_validate
        end
  end.

Definition IsValidMapping (m : VMAMap) (virtual_addr size : Z) : outcome bool :=
  let! '(end_key, end_vma) := of_option (last m) in
  let! '(begin_key, _) := of_option (head m) in
  let end_addr := wadd end_key (v_size end_vma) in
  if (virtual_addr <? begin_key) || (end_addr <=? virtual_addr) then Done false
  else if size =? 0 then Done true
  else
    let! vmas := of_option (mfind virtual_addr m) in
    Done (validate_range vmas virtual_addr size).

Definition assert_valid (m : VMAMap) (virtual_addr size : Z) : outcome unit :=
  let! ok := IsValidMapping m virtual_addr size in
  oassert ok.

(** The [while] of [ClampRangeSize], past the first area. *)
Fixpoint clamp_range (vmas : VMAMap) (size clamped_size : Z) : Z :=
  match vmas with
  | [] => clamped_size
  | (_, vma) :: rest =>
      if IsMapped vma && (clamped_size <? size)
      then clamp_range rest size (wadd clamped_size (v_size vma))
      else clamped_size
  end.

Definition ClampRangeSize (virtual_addr size : Z) (s : MemoryManager) : outcome Z :=
  if size <? GB 1 then Done size
  else
    assert_valid (vma_map s) virtual_addr 0 ;;!
    let! vmas := of_option (mfind virtual_addr (vma_map s)) in
    match vmas with
    | [] => Raised Undefined
    | (_, vma) :: rest =>
        let clamped_size := wsub (wadd (v_base vma) (v_size vma)) virtual_addr in
        Done (Z.min (clamp_range rest size clamped_size) size)
    end.

Definition SetPrtArea (id address size : Z) (s : MemoryManager) : outcome MemoryManager :=
  let! area := of_option (prt_areas s !! Z.to_nat id) in
  let s :=
    if prt_mapped area then emit (EvGpuUnmap (prt_start area) (wsub (prt_end area) (prt_start area))) s
    else s in
  let area := mkPrt address (wadd address size) true in
  Done (emit (EvGpuMap address size) (with_prt (<[Z.to_nat id := area]> (prt_areas s)) s)).

(** [CopySparseMemory] fills [dest] chunk by chunk: copied guest bytes for
    mapped areas, zeros elsewhere. *)
Inductive Chunk :=
  | CopyFrom (addr size : Z)
  | ZeroFill (size : Z).

Fixpoint copy_sparse (vmas : VMAMap) (virtual_addr size : Z) : outcome (list Chunk) :=
  if size =? 0 then Done []
  else
    match vmas with
    | [] => Raised Undefined
    | (key, vma) :: rest =>
        let copy_size := Z.min (wsub (v_size vma) (wsub virtual_addr key)) size in
        let! chunks := copy_sparse rest (wadd virtual_addr copy_size) (wsub size copy_size) in
        Done ((if IsMapped vma then CopyFrom virtual_addr copy_size else ZeroFill copy_size) :: chunks)
    end.

Definition CopySparseMemory (virtual_addr size : Z) (s : MemoryManager) : outcome (list Chunk) :=
  assert_valid (vma_map s) virtual_addr 0 ;;!
  let! vmas := of_option (mfind virtual_addr (vma_map s)) in
  copy_sparse vmas virtual_addr size.

(** [TryWriteBacking]: the backed areas that overlap the range ... *)
Fixpoint collect_backed (vmas : VMAMap) (virtual_addr size : Z) : outcome (list VirtualMemoryArea) :=
  match vmas with
  | [] => Raised Undefined
  | (_, vma) :: rest =>
      if negb (Overlaps vma virtual_addr size) then Done []
      else if negb (HasPhysicalBacking vma) then Done []
      else
        let! found := collect_backed rest virtual_addr size in
        Done (vma :: found)
  end.

(** ... then a [memcpy] per physical area; [data] is never advanced. *)
Fixpoint write_areas (areas : PhysMap) (start_in_vma : Z) (data : list Z) (size : Z)
    (s : MemoryManager) : Z * MemoryManager :=
  match areas with
  | [] => (size, s)
  | (off, area) :: rest =>
      if size =? 0 then (size, s)
      else
        let start_in_dma := wsub (Z.max start_in_vma off) off in
        let backing := wadd (p_base area) start_in_dma in
        let copy_size := Z.min size (wsub (p_size area) start_in_dma) in
        write_areas rest start_in_vma data (wsub size copy_size)
          (emit (EvWriteBacking backing (take (Z.to_nat copy_size) data)) s)
  end.

Fixpoint write_vmas (vmas : list VirtualMemoryArea) (virtual_addr : Z) (data : list Z) (size : Z)
    (s : MemoryManager) : outcome MemoryManager :=
  match vmas with
  | [] => Done s
  | vma :: rest =>
      let start_in_vma := wsub (Z.max virtual_addr (v_base vma)) (v_base vma) in
      let! areas := of_option (mfind start_in_vma (v_phys vma)) in
      let '(size, s) := write_areas areas start_in_vma data size s in
      write_vmas rest virtual_addr data size s
  end.

(** [size] is the number of bytes at [data]. *)
Definition TryWriteBacking (virtual_addr : Z) (data : list Z) (s : MemoryManager)
    : outcome (bool * MemoryManager) :=
  let size := Z.of_nat (length data) in
  assert_valid (vma_map s) virtual_addr size ;;!
  let! vmas := of_option (mfind virtual_addr (vma_map s)) in
  let! vmas_to_write := collect_backed vmas virtual_addr size in
  match vmas_to_write with
  | [] => Done (false, s)
  | _ =>
      let! s := write_vmas vmas_to_write virtual_addr data size s in
      Done (true, s)
  end.

(** ** Direct memory: allocation *)

(** The search loop of [PoolExpand] and [Allocate], on the areas from
    [dmem_area] on; [None] is [dmem_map.end()]. *)
Fixpoint search_dmem (areas : PhysMap) (mapping_start size alignment : Z) : option (Z * Z) :=
  match areas with
  | [] => None
  | (key, area) :: rest =>
      if negb (bool_decide (p_dma area = PMT.Free)) || (GetEnd area <? wadd mapping_start size) then
        match rest with
        | [] => None
        | (_, next) :: _ => search_dmem rest (AlignUp (p_base next) alignment) size alignment
        end
      else Some (key, mapping_start)
  end.

Definition PoolExpand (search_start search_end size alignment : Z) (s : MemoryManager)
    : outcome (Z * MemoryManager) :=
  let alignment := if 0 <? alignment then alignment else KB 64 in
  let! areas := of_option (mfind search_start (dmem_map s)) in
  let! '(_, dmem_area) := of_option (head areas) in
  let mapping_start :=
    if p_base dmem_area <? search_start then AlignUp search_start alignment
    else AlignUp (p_base dmem_area) alignment in
  match search_dmem areas mapping_start size alignment with
  | None => Done (MINUS_1, s)
  | Some (_, mapping_start) =>
      let! '(h, dmem) := CarvePhysArea (dmem_map s) mapping_start size in
      let dmem := malter (fun a => p_with_mtype 3 (p_with_dma PMT.Pooled a)) h dmem in
      Done (mapping_start, with_budget (wadd (pool_budget s) size) (with_dmem dmem s))
  end.

Definition Allocate (search_start search_end size alignment memory_type : Z) (s : MemoryManager)
    : outcome (Z * MemoryManager) :=
  let alignment := if 0 <? alignment then alignment else KB 16 in
  let! areas := of_option (mfind search_start (dmem_map s)) in
  let! '(_, dmem_area) := of_option (head areas) in
  let mapping_start := AlignUp (Z.max search_start (p_base dmem_area)) alignment in
  match search_dmem areas mapping_start size alignment with
  | None => Done (MINUS_1, s)
  | Some (dmem_area, mapping_start) =>
      if search_end <? wadd mapping_start size then Done (MINUS_1, s)
      else
        let! '(h, dmem) := CarvePhysArea (dmem_map s) mapping_start size in
        let dmem := malter (fun a => p_with_dma PMT.Allocated (p_with_mtype memory_type a)) h dmem in
        let! '(_, dmem) := phys_MergeAdjacent dmem dmem_area in
        Done (mapping_start, with_dmem dmem s)
  end.

(** The pattern [area = CarvePhysArea(map, ..); area.x = ..; MergeAdjacent(map, area)]. *)
Definition retag (f : PhysicalMemoryArea -> PhysicalMemoryArea) (map : PhysMap) (addr size : Z)
    : outcome PhysMap :=
  let! '(h, map) := CarvePhysArea map addr size in
  let! '(_, map) := phys_MergeAdjacent (malter f h map) h in
  Done map.

(** ** Unmapping *)

(** The loop of [UnmapBytesFromEntry] over the physical areas of the entry. *)
Fixpoint unmap_phys (vma_type : VMAType.t) (start_in_vma : Z) (areas : PhysMap) (size_to_free : Z)
    (s : MemoryManager) : outcome (Z * MemoryManager) :=
  match areas with
  | [] => Done (size_to_free, s)
  | (off, area) :: rest =>
      if negb (0 <? size_to_free) then Done (size_to_free, s)
      else
        let dma_offset := wsub (Z.max off start_in_vma) off in
        let phys_addr := wadd (p_base area) dma_offset in
        let size_in_dma := Z.min size_to_free (wsub (p_size area) dma_offset) in
        let! s :=
          match vma_type with
          | VMAType.Direct =>
              let! dmem := retag (p_with_dma PMT.Allocated) (dmem_map s) phys_addr size_in_dma in
              Done (with_dmem dmem s)
          | VMAType.Flexible =>
              let! fmem := retag (p_with_dma PMT.Free) (fmem_map s) phys_addr size_in_dma in
              let s := emit (EvZeroBacking phys_addr size_in_dma) (with_fmem fmem s) in
              Done (with_usage (wsub (flexible_usage s) size_in_dma) s)
          | _ => Done s
          end in
        unmap_phys vma_type start_in_vma rest (wsub size_to_free size_in_dma) s
  end.

Definition free_vma (v : VirtualMemoryArea) : VirtualMemoryArea :=
  mkVMA (v_base v) (v_size v) [] VMAType.Free MemoryProt.NoAccess EmptyString (v_fd v) false.

Definition UnmapBytesFromEntry (virtual_addr : Z) (vma_base : VirtualMemoryArea) (size : Z)
    (s : MemoryManager) : outcome (Z * MemoryManager) :=
  let start_in_vma := wsub virtual_addr (v_base vma_base) in
  let size_in_vma := Z.min (wsub (v_size vma_base) start_in_vma) size in
  let vma_type := v_type vma_base in
  if bool_decide (vma_type = VMAType.Free) || bool_decide (vma_type = VMAType.Pooled)
  then Done (size_in_vma, s)
  else
    let! s :=
      match v_phys vma_base with
      | [] => Done s
      | areas =>
          let! from := of_option (mfind start_in_vma areas) in
          let! '(size_to_free, s) := unmap_phys vma_type start_in_vma from size_in_vma s in
          oassert (size_to_free =? 0) ;;!
          Done s
      end in
    let! '(new_it, vmas) := CarveVMA (vma_map s) virtual_addr size_in_vma in
    let! '(_, vmas) := vma_MergeAdjacent (malter free_vma new_it vmas) new_it in
    let s := with_vmas vmas s in
    let s :=
      if negb (bool_decide (vma_type = VMAType.Reserved)) && negb (bool_decide (vma_type = VMAType.PoolReserved))
      then emit (EvUnmap virtual_addr size_in_vma) s
      else s in
    Done (size_in_vma, s).

(** The [do ... while] of [UnmapMemoryImpl]. *)
Fixpoint unmap_loop (fuel : nat) (virtual_addr size unmapped_bytes : Z) (s : MemoryManager)
    : outcome MemoryManager :=
  match fuel with
  | O => Raised OutOfFuel
  | S fuel =>
      let! '(_, vma_base) := FindVMA (vma_map s) (wadd virtual_addr unmapped_bytes) in
      let! '(unmapped, s) :=
        UnmapBytesFromEntry (wadd virtual_addr unmapped_bytes) vma_base (wsub size unmapped_bytes) s in
      oassert (0 <? unmapped) ;;!
      let unmapped_bytes := wadd unmapped_bytes unmapped in
      if unmapped_bytes <? size then unmap_loop fuel virtual_addr size unmapped_bytes s else Done s
  end.

(** Each round but the last reaches the end of one more area. *)
Definition UnmapMemoryImpl (virtual_addr size : Z) (s : MemoryManager) : outcome (Z * MemoryManager) :=
  let! s := unmap_loop (S (length (vma_map s))) virtual_addr size 0 s in
  Done (ORBIS_OK, s).

Definition gpu_unmap (virtual_addr size : Z) (s : MemoryManager) : MemoryManager :=
  if IsValidGpuMapping virtual_addr size then emit (EvGpuUnmap virtual_addr size) s else s.

Definition gpu_map (virtual_addr size : Z) (s : MemoryManager) : MemoryManager :=
  if IsValidGpuMapping virtual_addr size then emit (EvGpuMap virtual_addr size) s else s.

Definition UnmapMemory (virtual_addr size : Z) (s : MemoryManager) : outcome (Z * MemoryManager) :=
  if size =? 0 then Done (ORBIS_OK, s)
  else
    let virtual_addr := AlignDown virtual_addr (KB 16) in
    let size := AlignUp size (KB 16) in
    assert_valid (vma_map s) virtual_addr size ;;!
    let s := begin_mutation (gpu_unmap virtual_addr size s) in
    let! '(ret, s) := UnmapMemoryImpl virtual_addr size s in
    Done (ret, destroy_mutation s).

(** ** Direct memory: release *)

(** The first loop of [Free]: what to give back, on the areas from
    [FindDmemArea(phys_addr)] on.  [None] is the checked-free error. *)
Fixpoint collect_free (areas : PhysMap) (phys_addr remaining_size : Z) (is_checked : bool)
    : option (list (Z * Z)) :=
  match areas with
  | [] => Some []
  | (key, dmem_area) :: rest =>
      if remaining_size =? 0 then Some []
      else if bool_decide (p_dma dmem_area = PMT.Free) then
        if is_checked then None else collect_free rest phys_addr remaining_size is_checked
      else
        let current_phys_addr := Z.max phys_addr key in
        let start_in_dma := wsub current_phys_addr key in
        let size_in_dma := Z.min remaining_size (wsub (p_size dmem_area) start_in_dma) in
        match collect_free rest phys_addr (wsub remaining_size size_in_dma) is_checked with
        | Some l => Some ((current_phys_addr, size_in_dma) :: l)
        | None => None
        end
  end.

(** The second loop of [Free]: the virtual ranges that map the block, from
    the physical areas of one [Direct] mapping at [base] ... *)
Fixpoint remove_areas (base phys_addr size : Z) (areas : PhysMap) : list (Z * Z) :=
  match areas with
  | [] => []
  | (offset_in_vma, phys_mapping) :: rest =>
      if (p_base phys_mapping <? wadd phys_addr size) &&
         (phys_addr <? wadd (p_base phys_mapping) (p_size phys_mapping))
      then
        let phys_offset := wsub (Z.max (p_base phys_mapping) phys_addr) (p_base phys_mapping) in
        let addr_in_vma := wadd (wadd base offset_in_vma) phys_offset in
        let unmap_size := Z.min (wsub (p_size phys_mapping) phys_offset) size in
        (addr_in_vma, unmap_size) :: remove_areas base phys_addr size rest
      else remove_areas base phys_addr size rest
  end.

(** ... and from all of [vma_map]. *)
Fixpoint collect_remove (vmas : VMAMap) (phys_addr size : Z) : list (Z * Z) :=
  match vmas with
  | [] => []
  | (_, mapping) :: rest =>
      if negb (bool_decide (v_type mapping = VMAType.Direct)) then collect_remove rest phys_addr size
      else remove_areas (v_base mapping) phys_addr size (v_phys mapping) ++ collect_remove rest phys_addr size
  end.

Fixpoint unmap_all (ranges : list (Z * Z)) (s : MemoryManager) : outcome MemoryManager :=
  match ranges with
  | [] => Done s
  | (addr, size) :: rest =>
      let! '(_, s) := UnmapMemoryImpl addr size s in
      unmap_all rest s
  end.

Fixpoint release_all (ranges : list (Z * Z)) (dmem : PhysMap) : outcome PhysMap :=
  match ranges with
  | [] => Done dmem
  | (addr, size) :: rest =>
      let! dmem := retag (fun a => p_with_mtype 0 (p_with_dma PMT.Free a)) dmem addr size in
      release_all rest dmem
  end.

Definition Free (phys_addr size : Z) (is_checked : bool) (s : MemoryManager)
    : outcome (Z * MemoryManager) :=
  if (total_direct_size s <? phys_addr) ||
     (is_checked && (total_direct_size s <? wadd phys_addr size))
  then Done ((if is_checked then ORBIS_KERNEL_ERROR_ENOENT else ORBIS_OK), s)
  else
    let! areas := of_option (mfind phys_addr (dmem_map s)) in
    match collect_free areas phys_addr size is_checked with
    | None => Done (ORBIS_KERNEL_ERROR_ENOENT, s)
    | Some free_list =>
        let remove_list := collect_remove (vma_map s) phys_addr size in
        let s := foldl (fun s '(addr, unmap_size) => gpu_unmap addr unmap_size s) s remove_list in
        let s := begin_mutation s in
        let! s := unmap_all remove_list s in
        let! dmem := release_all free_list (dmem_map s) in
        Done (ORBIS_OK, destroy_mutation (with_dmem dmem s))
    end.

(** ** Mapping *)

Definition with_read (prot : Z) : Z :=
  if has prot MemoryProt.CpuWrite then Z.lor prot MemoryProt.CpuRead else prot.

(** The [Fixed] loop of [CreateArea]. *)
Fixpoint clear_loop (fuel : nat) (unmap_addr unmap_size : Z) (vma : VirtualMemoryArea) (s : MemoryManager)
    : outcome MemoryManager :=
  if negb (0 <? unmap_size) then Done s
  else
    match fuel with
    | O => Raised OutOfFuel
    | S fuel =>
        let! '(unmapped, s) := UnmapBytesFromEntry unmap_addr vma unmap_size s in
        let unmap_addr := wadd unmap_addr unmapped in
        let unmap_size := wsub unmap_size unmapped in
        let! '(_, vma) := FindVMA (vma_map s) unmap_addr in
        clear_loop fuel unmap_addr unmap_size vma s
    end.

Definition CreateArea (virtual_addr size prot flags : Z) (type : VMAType.t) (name : string)
    (s : MemoryManager) : outcome (Z * MemoryManager) :=
  let! '(_, vma) := FindVMA (vma_map s) virtual_addr in
  let! s :=
    if has flags MemoryMapFlags.Fixed
    then clear_loop (S (length (vma_map s))) virtual_addr size vma s
    else Done s in
  let! '(_, vma) := FindVMA (vma_map s) virtual_addr in
  oassert (IsFree vma) ;;!
  let! '(new_vma_handle, vmas) := CarveVMA (vma_map s) virtual_addr size in
  let fill v :=
    mkVMA (v_base v) (v_size v) [] type (with_read prot) name (v_fd v) (has flags MemoryMapFlags.NoCoalesce) in
  Done (new_vma_handle, with_vmas (malter fill new_vma_handle vmas) s).

(** The search loop of [SearchFree], past the first area. *)
Fixpoint search_free (vmas : VMAMap) (size alignment max_search_address : Z) : Z :=
  match vmas with
  | [] => MINUS_1
  | (_, vma) :: rest =>
      if negb (IsFree vma) then search_free rest size alignment max_search_address
      else
        let virtual_addr := AlignUp (v_base vma) alignment in
        if wadd (v_base vma) (v_size vma) <? virtual_addr
        then search_free rest size alignment max_search_address
        else if max_search_address <=? virtual_addr then MINUS_1
        else if size <=? wsub (wadd (v_base vma) (v_size vma)) virtual_addr then virtual_addr
        else search_free rest size alignment max_search_address
  end.

(** [alignment] arrives as a [u32]; a zero one divides by zero in [AlignUp]. *)
Definition SearchFree (virtual_addr size alignment : Z) (s : MemoryManager) : outcome Z :=
  let min_search_address := system_managed_base (impl s) in
  let max_search_address := wadd (user_base (impl s)) (user_size (impl s)) in
  let virtual_addr := if virtual_addr <? min_search_address then min_search_address else virtual_addr in
  assert_valid (vma_map s) virtual_addr 0 ;;!
  if alignment =? 0 then Raised Undefined
  else
    let virtual_addr := AlignUp virtual_addr alignment in
    let! vmas := of_option (mfind virtual_addr (vma_map s)) in
    match vmas with
    | [] => Raised Undefined
    | (_, vma) :: rest =>
        if IsFree vma && Contains vma virtual_addr size then Done virtual_addr
        else Done (search_free rest size alignment max_search_address)
    end.

(** [MapMemory]: the check of the physical range, on the areas from
    [FindDmemArea(phys_addr)] on. *)
Fixpoint check_dmem (areas : PhysMap) (phys_end : Z) (validate_dmem : bool) : Z :=
  match areas with
  | [] => ORBIS_OK
  | (_, area) :: rest =>
      if negb (p_base area <? phys_end) then ORBIS_OK
      else if negb (bool_decide (p_dma area = PMT.Allocated)) && negb (bool_decide (p_dma area = PMT.Mapped))
      then ORBIS_KERNEL_ERROR_ENOMEM
      else if validate_dmem && bool_decide (p_dma area = PMT.Mapped) then ORBIS_KERNEL_ERROR_EBUSY
      else check_dmem rest phys_end validate_dmem
  end.

(** [new_vma.phys_areas[offset] = area] followed by [MergeAdjacent] on that map. *)
Definition add_backing (handle offset : Z) (area : PhysicalMemoryArea) (s : MemoryManager)
    : outcome MemoryManager :=
  let! new_vma := of_option (mlookup handle (vma_map s)) in
  let! '(_, phys) := phys_MergeAdjacent (mset offset area (v_phys new_vma)) offset in
  Done (with_vmas (malter (v_with_phys phys) handle (vma_map s)) s).

(** [MapMemory]: the loop that backs a [Flexible] mapping. *)
Fixpoint map_flexible (fuel : nat) (handle : option Z) (new_vma mapped_addr current_addr remaining_size : Z)
    (is_exec : bool) (s : MemoryManager) : outcome (Z * MemoryManager) :=
  match handle with
  | None => Done (remaining_size, s)
  | Some h =>
      if remaining_size =? 0 then Done (remaining_size, s)
      else
        match fuel with
        | O => Raised OutOfFuel
        | S fuel =>
            let! area := of_option (mlookup h (fmem_map s)) in
            if negb (bool_decide (p_dma area = PMT.Free)) then
              map_flexible fuel (fst <$> mnext h (fmem_map s)) new_vma mapped_addr current_addr
                remaining_size is_exec s
            else
              let size_to_map := Z.min remaining_size (p_size area) in
              let! '(nh, fmem) := CarvePhysArea (fmem_map s) (p_base area) size_to_map in
              let fmem := malter (p_with_dma PMT.Flexible) nh fmem in
              let! new_area := of_option (mlookup nh fmem) in
              let! s := add_backing new_vma (wsub current_addr mapped_addr) new_area s in
              let s := emit (EvMap current_addr size_to_map (p_base new_area) is_exec) s in
              let! '(h', fmem) := phys_MergeAdjacent fmem nh in
              let s := with_usage (wadd (flexible_usage s) size_to_map) (with_fmem fmem s) in
              map_flexible fuel (fst <$> mnext h' fmem) new_vma mapped_addr
                (wadd current_addr size_to_map) (wsub remaining_size size_to_map) is_exec s
        end
  end.

(** [MapMemory]: the loop that backs a [Direct] mapping. *)
Fixpoint map_direct (fuel : nat) (new_vma phys_addr current_phys_addr remaining_size : Z)
    (s : MemoryManager) : outcome (Z * MemoryManager) :=
  let! '(_, dmem_area) := FindArea (dmem_map s) current_phys_addr in
  if negb (0 <? remaining_size) then Done (remaining_size, s)
  else
    match fuel with
    | O => Raised OutOfFuel
    | S fuel =>
        let start_phys_addr := Z.max current_phys_addr (p_base dmem_area) in
        let offset_in_dma := wsub start_phys_addr (p_base dmem_area) in
        let size_in_dma := Z.min (wsub (p_size dmem_area) offset_in_dma) remaining_size in
        let! '(h, dmem) := CarvePhysArea (dmem_map s) start_phys_addr size_in_dma in
        let dmem := malter (p_with_dma PMT.Mapped) h dmem in
        let! new_area := of_option (mlookup h dmem) in
        let! s := add_backing new_vma (wsub current_phys_addr phys_addr) new_area s in
        let! '(_, dmem) := phys_MergeAdjacent dmem h in
        map_direct fuel new_vma phys_addr (wadd current_phys_addr size_in_dma)
          (wsub remaining_size size_in_dma) (with_dmem dmem s)
    end.

(** Where [MapMemory] and [MapFile] put the mapping; [None] is [ENOMEM]. *)
Definition place_mapping (virtual_addr size flags alignment : Z) (s : MemoryManager)
    : outcome (option Z) :=
  if has flags MemoryMapFlags.Fixed && has flags MemoryMapFlags.NoOverwrite then
    assert_valid (vma_map s) virtual_addr size ;;!
    let! '(_, vma) := FindVMA (vma_map s) virtual_addr in
    let remaining_size := wsub (wadd (v_base vma) (v_size vma)) virtual_addr in
    if negb (IsFree vma) || (remaining_size <? size) then Done None else Done (Some virtual_addr)
  else if negb (has flags MemoryMapFlags.Fixed) then
    let alignment := if 0 <? alignment then alignment else KB 16 in
    let virtual_addr := if virtual_addr =? 0 then DEFAULT_MAPPING_BASE else virtual_addr in
    let! virtual_addr := SearchFree virtual_addr size (u32 alignment) s in
    if virtual_addr =? MINUS_1 then Done None else Done (Some virtual_addr)
  else Done (Some virtual_addr).

(** The check of the physical range, [ORBIS_OK] when there is none. *)
Definition check_phys (phys_addr size : Z) (validate_dmem : bool) (s : MemoryManager) : outcome Z :=
  if negb (phys_addr =? MINUS_1) then
    if total_direct_size s <? wadd phys_addr size then Done ORBIS_KERNEL_ERROR_ENOMEM
    else
      let! areas := of_option (mfind phys_addr (dmem_map s)) in
      Done (check_dmem areas (wadd phys_addr size) validate_dmem)
  else Done ORBIS_OK.

(** The backing of the new area, by type. *)
Definition back_mapping (type : VMAType.t) (handle mapped_addr size phys_addr : Z) (is_exec : bool)
    (s : MemoryManager) : outcome MemoryManager :=
  match type with
  | VMAType.Flexible =>
      let! '(remaining_size, s) :=
        map_flexible (S (length (fmem_map s))) (fst <$> head (fmem_map s)) handle mapped_addr mapped_addr
          size is_exec s in
      oassert (remaining_size =? 0) ;;!
      Done s
  | VMAType.Direct =>
      let! '(remaining_size, s) := map_direct (S (length (dmem_map s))) handle phys_addr phys_addr size s in
      oassert (remaining_size =? 0) ;;!
      Done s
  | _ => Done s
  end.

(** The result is the error code, the value stored to [*out_addr] if any, and
    the manager.  [sdk_version] is compared with an unsigned constant. *)
Definition MapMemory (virtual_addr size prot flags : Z) (type : VMAType.t) (name : string)
    (validate_dmem : bool) (phys_addr alignment : Z) (s : MemoryManager)
    : outcome (Z * option Z * MemoryManager) :=
  if bool_decide (type = VMAType.Flexible) && (total_flexible_size s <? wadd (flexible_usage s) size)
  then Done (ORBIS_KERNEL_ERROR_EINVAL, None, s)
  else
    let! checked := check_phys phys_addr size validate_dmem s in
    if negb (checked =? ORBIS_OK) then Done (checked, None, s)
    else
      let! placed := place_mapping virtual_addr size flags alignment s in
      match placed with
      | None => Done (ORBIS_KERNEL_ERROR_ENOMEM, None, s)
      | Some virtual_addr =>
          let s := begin_mutation (gpu_unmap virtual_addr size s) in
          let! '(handle, s) := CreateArea virtual_addr size prot flags type name s in
          let! new_vma := of_option (mlookup handle (vma_map s)) in
          let mapped_addr := v_base new_vma in
          let is_exec := has prot MemoryProt.CpuExec in
          let! s := back_mapping type handle mapped_addr size phys_addr is_exec s in
          let! s :=
            if negb (bool_decide (type = VMAType.Direct)) || (FW_200 <=? u32 (sdk_version s)) then
              let! '(_, vmas) := vma_MergeAdjacent (vma_map s) handle in
              Done (with_vmas vmas s)
            else Done s in
          let s :=
            if negb (bool_decide (type = VMAType.Reserved)) && negb (bool_decide (type = VMAType.PoolReserved)) then
              let s :=
                if negb (bool_decide (type = VMAType.Flexible))
                then emit (EvMap mapped_addr size phys_addr is_exec) s else s in
              gpu_map mapped_addr size (finish_mutation s)
            else s in
          Done (ORBIS_OK, Some mapped_addr, destroy_mutation s)
      end.

(** What [MapFile] asks of the handle table and of the file. *)
Record FileInfo := mkFile {
  f_regular : bool;
  f_mapping : Z;
  f_writable : bool;
  f_append : bool;
  f_size : Z;
}.

(** The host page size is [sysconf(_SC_PAGESIZE)]. *)
Definition MapFile (file : option FileInfo) (host_page virtual_addr size prot flags fd phys_addr : Z)
    (s : MemoryManager) : outcome (Z * option Z * MemoryManager) :=
  match file with
  | None => Done (ORBIS_KERNEL_ERROR_EBADF, None, s)
  | Some file =>
      if negb (f_regular file) then Done (ORBIS_KERNEL_ERROR_EBADF, None, s)
      else
        let prot := with_read prot in
        let prot :=
          if negb (f_writable file) && negb (f_append file) then clear prot MemoryProt.CpuWrite else prot in
        oassert (prot <? MemoryProt.GpuRead) ;;!
        let prot := if has prot MemoryProt.CpuExec then clear prot MemoryProt.CpuExec else prot in
        let! placed := place_mapping virtual_addr size flags 0 s in
        match placed with
        | None => Done (ORBIS_KERNEL_ERROR_ENOMEM, None, s)
        | Some virtual_addr =>
            let s := begin_mutation (gpu_unmap virtual_addr size s) in
            let! '(handle, s) := CreateArea virtual_addr size prot flags VMAType.File "anon" s in
            let s := with_vmas (malter (v_with_fd fd) handle (vma_map s)) s in
            let! new_vma := of_option (mlookup handle (vma_map s)) in
            let mapped_addr := v_base new_vma in
            let s := emit (EvMapFile mapped_addr size (u64 phys_addr) prot (f_mapping file)) s in
            let file_bytes := if u64 phys_addr <? f_size file then wsub (f_size file) (u64 phys_addr) else 0 in
            let valid_size := Z.min size (AlignUp file_bytes host_page) in
            let s :=
              if valid_size <? size
              then emit (EvMap (wadd mapped_addr valid_size) (wsub size valid_size) MINUS_1 false) s
              else s in
            Done (ORBIS_OK, Some mapped_addr, destroy_mutation s)
        end
  end.

(** ** Memory pools *)

(** The loop of [PoolCommit] that finds physical memory. *)
Fixpoint commit_loop (fuel : nat) (handle : option Z) (new_vma mapped_addr current_addr remaining_size mtype : Z)
    (s : MemoryManager) : outcome (Z * MemoryManager) :=
  match handle with
  | None => Done (remaining_size, s)
  | Some h =>
      if negb (0 <? remaining_size) then Done (remaining_size, s)
      else
        match fuel with
        | O => Raised OutOfFuel
        | S fuel =>
            let! area := of_option (mlookup h (dmem_map s)) in
            if negb (bool_decide (p_dma area = PMT.Pooled)) then
              commit_loop fuel (fst <$> mnext h (dmem_map s)) new_vma mapped_addr current_addr
                remaining_size mtype s
            else
              let size_to_map := Z.min remaining_size (p_size area) in
              let! '(nh, dmem) := CarvePhysArea (dmem_map s) (p_base area) size_to_map in
              let dmem := malter (fun a => p_with_mtype mtype (p_with_dma PMT.Committed a)) nh dmem in
              let! new_area := of_option (mlookup nh dmem) in
              let! s := add_backing new_vma (wsub current_addr mapped_addr) new_area s in
              let s := emit (EvMap current_addr size_to_map (p_base new_area) false) s in
              let! '(h', dmem) := phys_MergeAdjacent dmem nh in
              commit_loop fuel (fst <$> mnext h' dmem) new_vma mapped_addr
                (wadd current_addr size_to_map) (wsub remaining_size size_to_map) mtype (with_dmem dmem s)
        end
  end.

Definition PoolCommit (virtual_addr size prot mtype : Z) (s : MemoryManager)
    : outcome (Z * MemoryManager) :=
  let s := begin_mutation s in
  assert_valid (vma_map s) virtual_addr size ;;!
  let mapped_addr := AlignUp virtual_addr (KB 64) in
  let! '(_, vma) := FindVMA (vma_map s) mapped_addr in
  if negb (bool_decide (v_type vma = VMAType.PoolReserved))
  then Done (ORBIS_KERNEL_ERROR_EINVAL, destroy_mutation s)
  else if negb (Contains vma mapped_addr size)
  then Done (ORBIS_KERNEL_ERROR_EINVAL, destroy_mutation s)
  else if pool_budget s <=? size then Done (ORBIS_KERNEL_ERROR_ENOMEM, destroy_mutation s)
  else
    let s := with_budget (wsub (pool_budget s) size) s in
    let! '(handle, vmas) := CarveVMA (vma_map s) virtual_addr size in
    let fill v :=
      mkVMA (v_base v) (v_size v) [] VMAType.Pooled (with_read prot) "anon" (v_fd v) false in
    let s := with_vmas (malter fill handle vmas) s in
    let! '(remaining_size, s) :=
      commit_loop (S (length (dmem_map s))) (fst <$> head (dmem_map s)) handle mapped_addr mapped_addr
        size mtype s in
    oassert (remaining_size =? 0) ;;!
    let! '(_, vmas) := vma_MergeAdjacent (vma_map s) handle in
    let s := finish_mutation (with_vmas vmas s) in
    Done (ORBIS_OK, destroy_mutation (gpu_map mapped_addr size s)).

(** The first loop of [PoolDecommit], on the areas from [FindVMA(virtual_addr)] on. *)
Fixpoint decommit_allowed (vmas : VMAMap) (range_end : Z) : bool :=
  match vmas with
  | [] => true
  | (_, vma) :: rest =>
      if negb (wadd (v_base vma) (v_size vma) <=? range_end) then true
      else if negb (bool_decide (v_type vma = VMAType.PoolReserved)) &&
              negb (bool_decide (v_type vma = VMAType.Pooled)) then false
      else decommit_allowed rest range_end
  end.

(** Its inner loop over the physical areas of a [Pooled] entry. *)
Fixpoint repool (start_in_vma : Z) (areas : PhysMap) (size_to_free : Z) (dmem : PhysMap)
    : outcome (Z * PhysMap) :=
  match areas with
  | [] => Done (size_to_free, dmem)
  | (off, area) :: rest =>
      if negb (0 <? size_to_free) then Done (size_to_free, dmem)
      else
        let dma_offset := wsub (Z.max off start_in_vma) off in
        let phys_addr := wadd (p_base area) dma_offset in
        let size_in_dma := Z.min size_to_free (wsub (p_size area) dma_offset) in
        let! dmem := retag (p_with_dma PMT.Pooled) dmem phys_addr size_in_dma in
        repool start_in_vma rest (wsub size_to_free size_in_dma) dmem
  end.

Definition pool_reserved_vma (v : VirtualMemoryArea) : VirtualMemoryArea :=
  mkVMA (v_base v) (v_size v) [] VMAType.PoolReserved MemoryProt.NoAccess "anon" (v_fd v) false.

(** One round of the main loop of [PoolDecommit]. *)
Definition decommit_entry (current_addr remaining_size : Z) (s : MemoryManager)
    : outcome (Z * MemoryManager) :=
  let! '(_, vma_base) := FindVMA (vma_map s) current_addr in
  let start_in_vma := wsub current_addr (v_base vma_base) in
  let size_in_vma := Z.min remaining_size (wsub (v_size vma_base) start_in_vma) in
  let! s :=
    if bool_decide (v_type vma_base = VMAType.Pooled) then
      let s := with_budget (wadd (pool_budget s) size_in_vma) s in
      let! from := of_option (mfind start_in_vma (v_phys vma_base)) in
      let! '(size_to_free, dmem) := repool start_in_vma from size_in_vma (dmem_map s) in
      oassert (size_to_free =? 0) ;;!
      Done (with_dmem dmem s)
    else Done s in
  let! '(new_it, vmas) := CarveVMA (vma_map s) current_addr size_in_vma in
  let! '(_, vmas) := vma_MergeAdjacent (malter pool_reserved_vma new_it vmas) new_it in
  Done (size_in_vma, with_vmas vmas s).

Fixpoint decommit_loop (fuel : nat) (current_addr remaining_size : Z) (s : MemoryManager)
    : outcome MemoryManager :=
  if remaining_size =? 0 then Done s
  else
    match fuel with
    | O => Raised OutOfFuel
    | S fuel =>
        let! '(size_in_vma, s) := decommit_entry current_addr remaining_size s in
        decommit_loop fuel (wadd current_addr size_in_vma) (wsub remaining_size size_in_vma) s
    end.

Definition PoolDecommit (virtual_addr size : Z) (s : MemoryManager) : outcome (Z * MemoryManager) :=
  assert_valid (vma_map s) virtual_addr size ;;!
  let! vmas := of_option (mfind virtual_addr (vma_map s)) in
  if negb (decommit_allowed vmas (wadd virtual_addr size)) then Done (ORBIS_KERNEL_ERROR_EINVAL, s)
  else
    let s := begin_mutation (gpu_unmap virtual_addr size s) in
    let! s := decommit_loop (S (length (vma_map s))) virtual_addr size s in
    Done (ORBIS_OK, destroy_mutation (emit (EvUnmap virtual_addr size) s)).

(** ** Protection *)

(** The host permissions [ProtectBytes] derives from [prot]. *)
Definition host_permissions (prot : Z) : Z :=
  let perms := 0 in
  let perms := if has prot MemoryProt.CpuRead then Z.lor perms MemoryPermission.Read else perms in
  let perms := if has prot MemoryProt.CpuReadWrite then Z.lor perms MemoryPermission.ReadWrite else perms in
  let perms := if has prot MemoryProt.CpuExec then Z.lor perms MemoryPermission.Execute else perms in
  let perms := if has prot MemoryProt.GpuRead then Z.lor perms MemoryPermission.Read else perms in
  let perms := if has prot MemoryProt.GpuWrite then Z.lor perms MemoryPermission.Write else perms in
  let perms := if has prot MemoryProt.GpuReadWrite then Z.lor perms MemoryPermission.ReadWrite else perms in
  perms.

(** The protection [ProtectBytes] records for an area of type [type]. *)
Definition recorded_prot (type : VMAType.t) (prot : Z) : Z :=
  let prot := with_read prot in
  if bool_decide (type = VMAType.Direct) || bool_decide (type = VMAType.Pooled) ||
     bool_decide (type = VMAType.File)
  then clear prot MemoryProt.CpuExec else prot.

(** [vma_base] is a reference to the entry [key]; the read of its type after
    [MergeAdjacent] goes through that reference, and is undefined when the
    entry has been merged into the one before it and erased. *)
Definition ProtectBytes (addr key size prot : Z) (s : MemoryManager) : outcome (Z * MemoryManager) :=
  let! vma_base := of_option (mlookup key (vma_map s)) in
  let start_in_vma := wsub addr (v_base vma_base) in
  let adjusted_size := Z.min (wsub (v_size vma_base) start_in_vma) size in
  let old_prot := v_prot vma_base in
  let new_prot := prot in
  if bool_decide (v_type vma_base = VMAType.Free) || bool_decide (v_type vma_base = VMAType.PoolReserved)
  then Done (s64 adjusted_size, s)
  else
    let perms := host_permissions (with_read prot) in
    let prot := recorded_prot (v_type vma_base) prot in
    let! '(new_it, vmas) := CarveVMA (vma_map s) addr adjusted_size in
    let! '(_, vmas) := vma_MergeAdjacent (malter (v_with_prot prot) new_it vmas) new_it in
    let s := with_vmas vmas s in
    let! vma_base := of_option (mlookup key vmas) in
    if bool_decide (v_type vma_base = VMAType.Reserved) then Done (s64 adjusted_size, s)
    else
      let s := if negb (new_prot =? old_prot) then emit (EvProtect addr adjusted_size perms) s else s in
      Done (s64 adjusted_size, s).

Fixpoint protect_loop (fuel : nat) (addr size protected_bytes prot : Z) (s : MemoryManager)
    : outcome (Z * MemoryManager) :=
  if negb (protected_bytes <? size) then Done (ORBIS_OK, s)
  else
    match fuel with
    | O => Raised OutOfFuel
    | S fuel =>
        let! '(key, vma_base) := FindVMA (vma_map s) (wadd addr protected_bytes) in
        let protected_bytes :=
          if wadd addr protected_bytes <? v_base vma_base
          then wadd protected_bytes (wsub (v_base vma_base) (wadd addr protected_bytes))
          else protected_bytes in
        let! '(result, s) := ProtectBytes (wadd addr protected_bytes) key (wsub size protected_bytes) prot s in
        if result <? 0 then Done (s32 result, s)
        else protect_loop fuel addr size (wadd protected_bytes result) prot s
    end.

(** [valid_flags] is computed by the source and not used. *)
Definition Protect (addr size prot : Z) (s : MemoryManager) : outcome (Z * MemoryManager) :=
  if size =? 0 then Done (ORBIS_OK, s)
  else
    let s := begin_mutation s in
    assert_valid (vma_map s) addr size ;;!
    let! '(ret, s) := protect_loop (S (length (vma_map s))) addr size 0 prot s in
    Done (ret, destroy_mutation s).

Fixpoint seal_loop (fuel : nat) (cursor end_ : Z) (m : VMAMap) : outcome bool :=
  if negb (cursor <? end_) then Done true
  else
    match fuel with
    | O => Raised OutOfFuel
    | S fuel =>
        let! '(_, vma) := FindVMA m cursor in
        if (cursor <? v_base vma) || IsFree vma || bool_decide (v_type vma = VMAType.Reserved) ||
           bool_decide (v_type vma = VMAType.PoolReserved) || negb (has (v_prot vma) MemoryProt.CpuExec) ||
           has (v_prot vma) MemoryProt.CpuWrite
        then Done false
        else
          let vma_end := wadd (v_base vma) (v_size vma) in
          if vma_end <=? cursor then Done false
          else seal_loop fuel (Z.min end_ vma_end) end_ m
    end.

Definition SealGuestExecutable (addr size : Z) (s : MemoryManager) : outcome (Z * MemoryManager) :=
  if size =? 0 then Done (ORBIS_OK, s)
  else
    let! valid := IsValidMapping (vma_map s) addr size in
    if negb valid || (wsub MINUS_1 size <? addr) then Done (ORBIS_KERNEL_ERROR_EACCES, s)
    else
      let! ok := seal_loop (S (length (vma_map s))) addr (wadd addr size) (vma_map s) in
      if ok : bool then
        Done (ORBIS_OK, emit (EvProtect addr size (Z.lor MemoryPermission.Read MemoryPermission.Execute)) s)
      else Done (ORBIS_KERNEL_ERROR_EACCES, s).

(** ** Queries *)

(** [QueryProtection] with all four out-pointers given: start, end, prot and
    generation. *)
Definition QueryProtection (addr : Z) (s : MemoryManager) : outcome (Z * option (Z * Z * Z * Z)) :=
  let min_query_addr := system_managed_base (impl s) in
  if addr <? min_query_addr then Done (ORBIS_KERNEL_ERROR_EACCES, None)
  else
    let! '(_, vma) := FindVMA (vma_map s) addr in
    if IsFree vma then Done (ORBIS_KERNEL_ERROR_EACCES, None)
    else
      Done (ORBIS_OK,
        Some (v_base vma, wadd (v_base vma) (v_size vma), v_prot vma,
              MemoryMapGeneration.Load (mapping_generation s))).

Record OrbisVirtualQueryInfo := mkQueryInfo {
  qi_start : Z;
  qi_end : Z;
  qi_offset : Z;
  qi_protection : Z;
  qi_memory_type : Z;
  qi_is_flexible : bool;
  qi_is_direct : bool;
  qi_is_stack : bool;
  qi_is_pooled : bool;
  qi_is_committed : bool;
  qi_name : string;
}.

Definition ORBIS_KERNEL_MAXIMUM_NAME_LENGTH : nat := 32.

Fixpoint skip_free (vmas : VMAMap) : VMAMap :=
  match vmas with
  | [] => []
  | (k, vma) :: rest => if IsFree vma then skip_free rest else (k, vma) :: rest
  end.

Definition query_info (vma : VirtualMemoryArea) : outcome OrbisVirtualQueryInfo :=
  let! '(offset, memory_type) :=
    if bool_decide (v_type vma = VMAType.Direct) then
      match v_phys vma with
      | [] => Raised AssertFailed
      | (_, first) :: _ => Done (p_base first, p_mtype first)
      end
    else Done (0, 0) in
  Done (mkQueryInfo (v_base vma) (wadd (v_base vma) (v_size vma)) offset
    (if bool_decide (v_type vma = VMAType.Reserved) || bool_decide (v_type vma = VMAType.PoolReserved)
     then 0 else s32 (v_prot vma))
    memory_type
    (bool_decide (v_type vma = VMAType.Flexible))
    (bool_decide (v_type vma = VMAType.Direct))
    (bool_decide (v_type vma = VMAType.Stack))
    (bool_decide (v_type vma = VMAType.PoolReserved) || bool_decide (v_type vma = VMAType.Pooled))
    (IsMapped vma)
    (String.substring 0 ORBIS_KERNEL_MAXIMUM_NAME_LENGTH (v_name vma))).

Definition VirtualQuery (addr flags : Z) (s : MemoryManager)
    : outcome (Z * option OrbisVirtualQueryInfo) :=
  let base := system_managed_base (impl s) in
  let query_addr := if addr <? base then base else addr in
  if (addr <? query_addr) && (flags =? 0) then Done (ORBIS_KERNEL_ERROR_EACCES, None)
  else
    let! vmas := of_option (mfind query_addr (vma_map s)) in
    let vmas := if flags =? 1 then skip_free vmas else vmas in
    match vmas with
    | [] => Done (ORBIS_KERNEL_ERROR_EACCES, None)
    | (_, vma) :: _ =>
        if IsFree vma then Done (ORBIS_KERNEL_ERROR_EACCES, None)
        else
          let! info := query_info vma in
          Done (ORBIS_OK, Some info)
    end.

(** [DirectMemoryQuery]: start, memory type, and the end if the last loop
    stores one. *)
Fixpoint skip_free_dmem (areas : PhysMap) : PhysMap :=
  match areas with
  | [] => []
  | (k, area) :: rest => if bool_decide (p_dma area = PMT.Free) then skip_free_dmem rest else (k, area) :: rest
  end.

Fixpoint query_end (areas : PhysMap) (memory_type : Z) (acc : option Z) : option Z :=
  match areas with
  | [] => acc
  | (_, area) :: rest =>
      if (p_mtype area =? memory_type) &&
         (bool_decide (p_dma area = PMT.Mapped) || bool_decide (p_dma area = PMT.Allocated))
      then query_end rest memory_type (Some (GetEnd area))
      else acc
  end.

Definition DirectMemoryQuery (addr : Z) (find_next : bool) (s : MemoryManager)
    : outcome (Z * option (Z * Z * option Z)) :=
  if total_direct_size s <=? addr then Done (ORBIS_KERNEL_ERROR_EACCES, None)
  else
    let! areas := of_option (mfind addr (dmem_map s)) in
    let areas := if find_next then skip_free_dmem areas else areas in
    match areas with
    | [] => Done (ORBIS_KERNEL_ERROR_EACCES, None)
    | (_, area) :: _ =>
        if bool_decide (p_dma area = PMT.Free) then Done (ORBIS_KERNEL_ERROR_EACCES, None)
        else Done (ORBIS_OK, Some (p_base area, p_mtype area, query_end areas (p_mtype area) None))
    end.

(** One area of the scan of [DirectQueryAvailable]: the candidate address and
    how much of it counts. *)
Definition available_in (area : PhysicalMemoryArea) (search_start search_end alignment : Z) : Z * Z :=
  let aligned_base := if 0 <? alignment then AlignUp (p_base area) alignment else p_base area in
  let alignment_size := wsub aligned_base (p_base area) in
  let remaining_size :=
    if alignment_size <=? p_size area then wsub (p_size area) alignment_size else 0 in
  let '(aligned_base, remaining_size) :=
    if p_base area <? search_start then
      ((if 0 <? alignment then AlignUp search_start alignment else search_start),
       (if wsub search_start (p_base area) <? remaining_size
        then wsub remaining_size (wsub search_start (p_base area)) else 0))
    else (aligned_base, remaining_size) in
  let remaining_size :=
    if search_end <? GetEnd area then
      if wsub (GetEnd area) search_end <? remaining_size
      then wsub remaining_size (wsub (GetEnd area) search_end) else 0
    else remaining_size in
  (aligned_base, remaining_size).

Fixpoint scan_available (areas : PhysMap) (search_start search_end alignment paddr max_size : Z) : Z * Z :=
  match areas with
  | [] => (paddr, max_size)
  | (_, area) :: rest =>
      if negb (bool_decide (p_dma area = PMT.Free))
      then scan_available rest search_start search_end alignment paddr max_size
      else
        let '(aligned_base, remaining_size) := available_in area search_start search_end alignment in
        if max_size <? remaining_size
        then scan_available rest search_start search_end alignment aligned_base remaining_size
        else scan_available rest search_start search_end alignment paddr max_size
  end.

Definition DirectQueryAvailable (search_start search_end alignment : Z) (s : MemoryManager)
    : outcome (Z * Z) :=
  let! areas := of_option (mfind search_start (dmem_map s)) in
  Done (scan_available areas search_start search_end alignment 0 0).

Definition GetDirectMemoryType (addr : Z) (s : MemoryManager) : outcome (Z * option (Z * Z * Z)) :=
  if total_direct_size s <=? addr then Done (ORBIS_KERNEL_ERROR_ENOENT, None)
  else
    let! '(_, dmem_area) := FindArea (dmem_map s) addr in
    if bool_decide (p_dma dmem_area = PMT.Free) then Done (ORBIS_KERNEL_ERROR_ENOENT, None)
    else Done (ORBIS_OK, Some (p_mtype dmem_area, p_base dmem_area, GetEnd dmem_area)).

Definition IsStack (addr : Z) (s : MemoryManager) : outcome (Z * option (Z * Z)) :=
  assert_valid (vma_map s) addr 0 ;;!
  let! '(_, vma) := FindVMA (vma_map s) addr in
  if IsFree vma then Done (ORBIS_KERNEL_ERROR_EACCES, None)
  else if bool_decide (v_type vma = VMAType.Stack)
  then Done (ORBIS_OK, Some (v_base vma, wadd (v_base vma) (v_size vma)))
  else Done (ORBIS_OK, Some (0, 0)).

Fixpoint committed_bytes (areas : PhysMap) (committed_size : Z) : Z :=
  match areas with
  | [] => committed_size
  | (_, area) :: rest =>
      committed_bytes rest
        (if bool_decide (p_dma area = PMT.Committed) then wadd committed_size (p_size area) else committed_size)
  end.

(** available_flushed, available_cached, allocated_flushed, allocated_cached *)
Definition GetMemoryPoolStats (s : MemoryManager) : Z * Z * Z * Z :=
  let block_size := KB 64 in
  let committed_size := committed_bytes (dmem_map s) 0 in
  (s32 (committed_size / block_size), 0, s32 (committed_size / block_size), 0).

Definition InvalidateMemory (addr size : Z) (s : MemoryManager) : MemoryManager :=
  emit (EvGpuInvalidate addr size) s.

Definition GetAvailableFlexibleSize (s : MemoryManager) : Z :=
  wsub (total_flexible_size s) (flexible_usage s).

(** ** Memory types and names *)

(** [SetDirectMemoryType] over the [phys_areas] of one carved area: the new
    areas and [dmem_map]. *)
Fixpoint retype_areas (areas : PhysMap) (memory_type : Z) (dmem : PhysMap) : outcome (PhysMap * PhysMap) :=
  match areas with
  | [] => Done ([], dmem)
  | (off, area) :: rest =>
      let area := p_with_mtype memory_type area in
      let! '(h, dmem) := CarvePhysArea dmem (p_base area) (p_size area) in
      let dmem := malter (p_with_mtype memory_type) h dmem in
      let! '(rest, dmem) := retype_areas rest memory_type dmem in
      Done ((off, area) :: rest, dmem)
  end.

(** The end of a round of [SetDirectMemoryType] and [NameVirtualRange]:
    merge, then move on if the merged area ends at or before [current_addr]. *)
Definition merge_and_advance (vmas : VMAMap) (handle current_addr : Z) : outcome (option Z * VMAMap) :=
  let! '(handle, vmas) := vma_MergeAdjacent vmas handle in
  let! vma := of_option (mlookup handle vmas) in
  if wadd (v_base vma) (v_size vma) <=? current_addr
  then Done (fst <$> mnext handle vmas, vmas)
  else Done (Some handle, vmas).

(** Direct and pooled mappings have their physical areas retyped. *)
Definition retype_entry (h : Z) (vma : VirtualMemoryArea) (current_addr size_in_vma memory_type : Z)
    (s : MemoryManager) : outcome (Z * MemoryManager) :=
  if bool_decide (v_type vma = VMAType.Direct) || bool_decide (v_type vma = VMAType.Pooled) then
    let! '(h, vmas) := CarveVMA (vma_map s) current_addr size_in_vma in
    let! carved := of_option (mlookup h vmas) in
    let! '(phys, dmem) := retype_areas (v_phys carved) memory_type (dmem_map s) in
    Done (h, with_dmem dmem (with_vmas (malter (v_with_phys phys) h vmas) s))
  else Done (h, s).

Fixpoint retype_loop (fuel : nat) (handle : option Z) (current_addr remaining_size memory_type : Z)
    (s : MemoryManager) : outcome MemoryManager :=
  match handle with
  | None => Done s
  | Some h =>
      if negb (0 <? remaining_size) then Done s
      else
        match fuel with
        | O => Raised OutOfFuel
        | S fuel =>
            let! vma := of_option (mlookup h (vma_map s)) in
            let start_in_vma := wsub current_addr (v_base vma) in
            let size_in_vma := Z.min remaining_size (wsub (v_size vma) start_in_vma) in
            let! '(h, s) := retype_entry h vma current_addr size_in_vma memory_type s in
            let current_addr := wadd current_addr size_in_vma in
            let! '(handle, vmas) := merge_and_advance (vma_map s) h current_addr in
            retype_loop fuel handle current_addr (wsub remaining_size size_in_vma) memory_type (with_vmas vmas s)
        end
  end.

Definition SetDirectMemoryType (addr size memory_type : Z) (s : MemoryManager)
    : outcome (Z * MemoryManager) :=
  let s := begin_mutation s in
  assert_valid (vma_map s) addr size ;;!
  let! '(handle, _) := FindVMA (vma_map s) addr in
  let! s := retype_loop (S (length (vma_map s))) (Some handle) addr size memory_type s in
  Done (ORBIS_OK, destroy_mutation s).

(** Nothing needs doing to free VMAs; a partly covered area is carved first. *)
Definition rename_entry (vmas : VMAMap) (h : Z) (vma : VirtualMemoryArea) (current_addr size_in_vma : Z)
    (name : string) : outcome (Z * VMAMap) :=
  if negb (IsFree vma) then
    if size_in_vma <? v_size vma then
      let! '(h, vmas) := CarveVMA vmas current_addr size_in_vma in
      Done (h, malter (v_with_name name) h vmas)
    else Done (h, malter (v_with_name name) h vmas)
  else Done (h, vmas).

Fixpoint name_loop (fuel : nat) (it : option Z) (current_addr remaining_size : Z) (name : string)
    (vmas : VMAMap) : outcome VMAMap :=
  match it with
  | None => Done vmas
  | Some h =>
      if negb (0 <? remaining_size) then Done vmas
      else
        match fuel with
        | O => Raised OutOfFuel
        | S fuel =>
            let! vma := of_option (mlookup h vmas) in
            let start_in_vma := wsub current_addr (v_base vma) in
            let size_in_vma := Z.min remaining_size (wsub (v_size vma) start_in_vma) in
            let! '(h, vmas) := rename_entry vmas h vma current_addr size_in_vma name in
            let current_addr := wadd current_addr size_in_vma in
            let! '(it, vmas) := merge_and_advance vmas h current_addr in
            name_loop fuel it current_addr (wsub remaining_size size_in_vma) name vmas
        end
  end.

Definition NameVirtualRange (virtual_addr size : Z) (name : string) (s : MemoryManager)
    : outcome MemoryManager :=
  let s := begin_mutation s in
  let aligned_size := AlignUp size (KB 16) in
  let aligned_addr := AlignDown virtual_addr (KB 16) in
  assert_valid (vma_map s) aligned_addr aligned_size ;;!
  let! '(it, _) := FindVMA (vma_map s) aligned_addr in
  let! vmas := name_loop (S (length (vma_map s))) (Some it) aligned_addr aligned_size name (vma_map s) in
  Done (destroy_mutation (with_vmas vmas s)).
