(* ===== verification/MemInv.v ===== *)
(** * MemInv: carving, retagging and the areas they produce, for any arguments

    [PhysFacts] and [VmaFacts] show that carving inside an area succeeds.
    Here the converse: whatever the arguments, a carve that returns has
    carved inside one area; hence the update pattern of the memory manager
    (carve, overwrite, merge) changes the attributes of exactly the range it
    names. *)

From S2P Require Import Prelude OrdMap MemTypes PhysFacts VmaFacts MemOps.

Definition word (z : Z) : Prop := 0 <= z < W64.

Definition in_range (a n x : Z) : bool := (a <=? x) && (x <? a + n).

Lemma in_range_true a n x : in_range a n x = true <-> a <= x < a + n.
Proof. unfold in_range. split_cmp; split; (done || lia). Qed.

Lemma in_range_false a n x : in_range a n x = false <-> ~ (a <= x < a + n).
Proof. unfold in_range. split_cmp; split; (done || lia). Qed.

(** ** Physical areas *)

Lemma phys_Split_assert m k off a x :
  mlookup k m = Some a -> phys_Split m k off = Done x -> 0 < off < p_size a.
Proof. unfold phys_Split. intros -> H. cbn in H. outcome_inv. bool_prop. lia. Qed.

Lemma vma_Split_assert m k off v x :
  mlookup k m = Some v -> vma_Split m k off = Done x -> 0 < off < v_size v.
Proof. unfold vma_Split. intros -> H. cbn in H. outcome_inv. bool_prop. lia. Qed.

Ltac split_known f lem :=
  match goal with H : f _ _ _ = Done _ |- _ => rewrite lem in H by auto end; outcome_inv.

Lemma CarvePhysArea_inv lo m addr size h m' :
  wf_from lo m -> word addr -> word size -> CarvePhysArea m addr size = Done (h, m') ->
  exists l k a r, m = l ++ (k, a) :: r /\ mfind addr m = Some ((k, a) :: r) /\
    0 < size /\ k <= addr /\ addr + size <= k + p_size a /\ h = addr /\ carved lo m addr size a r m'.
Proof.
  intros Hwf Hw1 Hw2 Hc. pose proof Hc as Hc0. unfold CarvePhysArea, mle in Hc.
  destruct (mfind addr m) as [s|] eqn:Hf; [|done].
  pose proof (mfind_split _ _ _ Hf) as (k & a & l & r & -> & -> & Hk & _).
  pose proof (wf_mid _ _ _ _ _ Hwf) as (_ & _ & Hkb & ? & ? & Hok & _ & Hb & _). cbn in Hkb, H, H0, Hok.
  assert (0 < size /\ addr + size <= k + p_size a) as [Hs Hle].
  { cbn in Hc. unfold GetEnd, word in *. outcome_inv. bool_prop.
    destruct (Z.lt_ge_cases (addr - p_base a + size) W64) as [Hn|Hn].
    - word_simpl_in E1. word_simpl_in E. split; [|lia].
      destruct (Z.eq_dec size 0) as [->|]; [exfalso|lia]. word_simpl_in Hc. word_simpl_in E2.
      destruct (Z.eqb_spec (addr - p_base a + 0) (p_size a)); cbn in *.
      + outcome_inv. destruct (Z.eqb_spec (addr - p_base a) 0); cbn in Hc; [lia|].
        apply (phys_Split_assert _ _ _ a) in Hc; [lia | by apply mlookup_mid].
      + outcome_inv.
        assert (0 < addr - p_base a + 0 < p_size a) by (eapply phys_Split_assert; [by apply mlookup_mid|eassumption]).
        split_known phys_Split (phys_Split_eq lo).
        destruct (Z.eqb_spec (addr - p_base a) 0); cbn in Hc; [lia|].
        eapply phys_Split_assert in Hc; [|by apply mlookup_mid]. cbn in Hc. lia.
    - exfalso. rewrite (wsub_small addr) in * by word_lia.
      assert (wadd (addr - p_base a) size = addr - p_base a + size - W64) as Ew.
      { unfold wadd, u64. symmetry. apply Z.mod_unique_pos with 1; word_lia. }
      rewrite Ew in *. rewrite wadd_small in E by word_lia.
      rewrite (proj2 (Z.eqb_neq _ (p_size a))) in E2 by word_lia. cbn in E2. outcome_inv.
      assert (0 < addr - p_base a + size - W64 < p_size a) by (eapply phys_Split_assert; [by apply mlookup_mid|eassumption]).
      split_known phys_Split (phys_Split_eq lo).
      rewrite (proj2 (Z.eqb_neq _ 0)) in Hc by word_lia. cbn in Hc.
      eapply phys_Split_assert in Hc; [|by apply mlookup_mid]. cbn in Hc. word_lia. }
  destruct (CarvePhysArea_ok lo l k a r addr size) as (m1 & E & Hcv); auto.
  rewrite Hc0 in E. injection E as -> ->. exists l, k, a, r. split_and!; auto.
Qed.

Lemma CarveVMA_inv lo m addr size h m' :
  wf_from lo m -> word addr -> word size -> CarveVMA m addr size = Done (h, m') ->
  exists l k v r, m = l ++ (k, v) :: r /\ mfind addr m = Some ((k, v) :: r) /\
    0 < size /\ k <= addr /\ addr + size <= k + v_size v /\ h = addr /\ vcarved lo m addr size v r m'.
Proof.
  intros Hwf Hw1 Hw2 Hc. pose proof Hc as Hc0. unfold CarveVMA, FindVMA, mle in Hc.
  destruct (mfind addr m) as [s|] eqn:Hf; [|done].
  pose proof (mfind_split _ _ _ Hf) as (k & v & l & r & -> & -> & Hk & _).
  pose proof (wf_mid _ _ _ _ _ Hwf) as (_ & _ & Hkb & ? & ? & [Hok _] & _ & Hb & _). cbn in Hkb, H, H0.
  assert (0 < size /\ addr + size <= k + v_size v) as [Hs Hle].
  { cbn in Hc. unfold word in *. outcome_inv. bool_prop.
    destruct ((_ =? 0) && _)%bool eqn:Ew; [bool_prop; word_simpl_in H1; lia|]. outcome_inv. bool_prop.
    destruct (Z.lt_ge_cases (addr - v_base v + size) W64) as [Hn|Hn].
    - word_simpl_in E0. split; [|lia].
      destruct (Z.eq_dec size 0) as [->|]; [exfalso|lia]. word_simpl_in Hc. word_simpl_in E1.
      destruct (Z.eqb_spec (addr - v_base v + 0) (v_size v)); cbn in *.
      + outcome_inv. destruct (Z.eqb_spec (addr - v_base v) 0); cbn in Hc; [lia|].
        eapply vma_Split_assert in Hc; [|by apply mlookup_mid]. lia.
      + outcome_inv.
        assert (0 < addr - v_base v + 0 < v_size v) by (eapply vma_Split_assert; [by apply mlookup_mid|eassumption]).
        split_known vma_Split (vma_Split_eq lo).
        destruct (Z.eqb_spec (addr - v_base v) 0); cbn in Hc; [lia|].
        eapply vma_Split_assert in Hc; [|by apply mlookup_mid]. cbn in Hc. lia.
    - exfalso. rewrite (wsub_small addr) in * by word_lia.
      assert (wadd (addr - v_base v) size = addr - v_base v + size - W64) as Ewr.
      { unfold wadd, u64. symmetry. apply Z.mod_unique_pos with 1; word_lia. }
      rewrite Ewr in *.
      destruct (Z.eq_dec (addr - v_base v) 0) as [?|]; [word_lia|].
      rewrite (proj2 (Z.eqb_neq _ 0)) in Hc by word_lia. cbn in Hc.
      destruct (Z.eqb_spec (addr - v_base v + size - W64) (v_size v)); cbn in E1; outcome_inv.
      + eapply vma_Split_assert in Hc; [|by apply mlookup_mid]. word_lia.
      + assert (0 < addr - v_base v + size - W64 < v_size v)
          by (eapply vma_Split_assert; [by apply mlookup_mid|eassumption]).
        split_known vma_Split (vma_Split_eq lo).
        eapply vma_Split_assert in Hc; [|by apply mlookup_mid]. cbn in Hc. word_lia. }
  destruct (CarveVMA_ok lo l k v r addr size) as (m1 & E & Hcv); auto.
  rewrite Hc0 in E. injection E as -> ->. exists l, k, v, r. split_and!; auto.
Qed.

(** An overwrite [f] that keeps the range and acts as [g] on the attributes. *)
Definition phys_fun (f : PhysicalMemoryArea -> PhysicalMemoryArea)
    (g : Z * PMT.t -> Z * PMT.t) : Prop :=
  forall a, p_base (f a) = p_base a /\ p_size (f a) = p_size a /\
    (p_mtype (f a), p_dma (f a)) = g (p_mtype a, p_dma a).

(** [m'] is [m] with [g] applied to the attributes of [addr, addr + size),
    which lay in the one area [a]. *)
Record retagged (lo : Z) (m : PhysMap) (addr size : Z) (g : Z * PMT.t -> Z * PMT.t)
    (a : PhysicalMemoryArea) (m' : PhysMap) : Prop := {
  rt_in : p_base a <= addr /\ 0 < size /\ addr + size <= p_base a + p_size a;
  rt_old : forall x, p_base a <= x < p_base a + p_size a -> view m x = Some (p_mtype a, p_dma a);
  rt_wf : wf_from lo m';
  rt_end : end_from lo m' = end_from lo m;
  rt_contiguous : forall c, contiguous c m -> contiguous c m';
  rt_view : forall x, view m' x =
    if in_range addr size x then Some (g (p_mtype a, p_dma a)) else view m x;
  rt_bytes : forall d, dma_bytes d m' =
    dma_bytes d m - (if bool_decide (p_dma a = d) then size else 0) +
    (if bool_decide ((g (p_mtype a, p_dma a)).2 = d) then size else 0);
  rt_starts : forall y, starts m' y -> starts m y /\ ~ addr < y < addr + size \/ y = addr \/ y = addr + size;
  rt_merged : forall y, y = addr \/ y = addr + size -> starts m' y -> view m' (y - 1) <> view m' y;
}.

(** Overwriting the area a carve isolated. *)
Lemma carved_overwrite lo m addr size a tl m' f g :
  wf_from lo m -> phys_fun f g -> carved lo m addr size a tl m' ->
  exists l r mid, malter f addr m' = l ++ (addr, f mid) :: r /\ wf_from lo (l ++ (addr, f mid) :: r) /\
    end_from lo (l ++ (addr, f mid) :: r) = end_from lo m /\
    (forall c, contiguous c m -> contiguous c (l ++ (addr, f mid) :: r)) /\
    (forall x, view (l ++ (addr, f mid) :: r) x =
       if in_range addr size x then Some (g (p_mtype a, p_dma a)) else view m x) /\
    (forall d, dma_bytes d (l ++ (addr, f mid) :: r) =
       dma_bytes d m - (if bool_decide (p_dma a = d) then size else 0) +
       (if bool_decide ((g (p_mtype a, p_dma a)).2 = d) then size else 0)) /\
    p_size (f mid) = size /\ (addr + size = p_base a + p_size a -> r = tl).
Proof.
  intros Hwf Hf (l & r & mid & -> & Htl & Hb & Hs & Ht & Hd & HS & HB).
  destruct (Hf mid) as (Hfb & Hfs & Hfa).
  pose proof (sm_wf _ _ _ HS Hwf) as Hwf1.
  pose proof (wf_mid _ _ _ _ _ Hwf1) as (_ & _ & _ & _ & _ & Hok & _ & Hbl & _). cbn in Hok.
  exists l, r, mid. rewrite malter_mid by done. split; [done|]. split_and!.
  - eapply wf_overwrite; [exact Hwf1|done|done|cbn; lia].
  - rewrite (end_overwrite lo l addr mid (f mid)) by done. by apply (sm_end _ _ _ HS).
  - intros c Hc. eapply contiguous_overwrite; [exact Hfs|]. by apply (sm_contiguous _ _ _ HS).
  - intros x. rewrite (view_overwrite lo _ _ mid) by done.
    cbn [r_size phys_area]. rewrite Hs. unfold in_range. destruct (_ && _)%bool.
    + cbn. rewrite Hfa, Ht, Hd. done.
    + by apply (sm_view _ _ _ HS).
  - intros d. unfold dma_bytes. rewrite (bytes_overwrite _ l addr mid (f mid) r) by done.
    fold (dma_bytes d (l ++ (addr, mid) :: r)). rewrite HB. cbn [r_size phys_area]. rewrite Hs, Hd.
    assert (p_dma (f mid) = (g (p_mtype a, p_dma a)).2) as -> by (rewrite <- Ht, <- Hd, <- Hfa; done). done.
  - lia.
  - done.
Qed.

(** Carve, overwrite, merge: what the overwritten area was, and the map that
    results.  The mapping loops also read the area before merging it. *)
Lemma take_inv lo f g m addr size h m1 k2 m2 :
  wf_from lo m -> word addr -> word size -> phys_fun f g ->
  CarvePhysArea m addr size = Done (h, m1) -> phys_MergeAdjacent (malter f h m1) h = Done (k2, m2) ->
  exists a na, retagged lo m addr size g a m2 /\ h = addr /\ mlookup h (malter f h m1) = Some na /\
    p_base na = addr /\ p_size na = size /\ (p_mtype na, p_dma na) = g (p_mtype a, p_dma a).
Proof.
  intros Hwf Hw1 Hw2 Hf HC HM.
  destruct (CarvePhysArea_inv lo m addr size h m1) as (l & k & a & r & -> & _ & Hs & Hk & Hle & -> & Hcv); auto.
  pose proof (wf_mid _ _ _ _ _ Hwf) as (_ & _ & Hkb & _). cbn in Hkb.
  destruct (carved_overwrite lo _ _ _ _ _ _ f g Hwf Hf Hcv) as (l1 & r1 & mid & E1 & Hw & He & Hc & Hv & Hb & Hsz & _).
  rewrite E1 in *.
  destruct (phys_MergeAdjacent_ok lo l1 addr (f mid) r1 Hw) as
    (l' & k' & a' & r' & E' & _ & _ & _ & _ & HS & HB & _).
  rewrite E' in HM. injection HM as <- <-.
  pose proof (wf_mid _ _ _ _ _ Hw) as (_ & _ & Hfb & ? & _ & _ & _ & Hbl & _). cbn in Hfb.
  exists a, (f mid). split; [split|split_and!; auto].
  - lia.
  - intros x Hx. rewrite (view_mid lo) by (cbn; auto; lia). done.
  - by apply (sm_wf _ _ _ HS).
  - by rewrite (sm_end _ _ _ HS).
  - intros c Hc0. apply (sm_contiguous _ _ _ HS Hw). auto.
  - intros x. by rewrite (sm_view _ _ _ HS Hw).
  - intros d. by rewrite HB.
  - intros y Hy. destruct (phys_MergeAdjacent_starts lo l1 addr (f mid) r1 k' _ Hw E') as [Hst _].
    apply Hst in Hy. pose proof (starts_outside lo _ _ _ _ y Hw Hy) as Ho. rewrite Hsz in Ho.
    rewrite <- E1, starts_malter in Hy. apply (CarvePhysArea_starts lo l k a r addr size addr m1) in Hy; auto.
    destruct Hy as [Hy|Hy]; [|by right]. destruct (decide (y = addr)) as [->|]; [auto|left; split; [done|lia]].
  - intros y Hy Hs'. destruct (phys_MergeAdjacent_starts lo l1 addr (f mid) r1 k' _ Hw E') as [_ Hmg].
    rewrite !(sm_view _ _ _ HS Hw). apply Hmg; [by rewrite Hsz|done].
  - by apply mlookup_mid.
  - pose proof (Hv addr) as Ha. rewrite (proj2 (in_range_true _ _ _)) in Ha by lia.
    rewrite (view_mid lo) in Ha by (cbn; auto; lia). by injection Ha.
Qed.

Lemma retag_inv lo f g m addr size m' :
  wf_from lo m -> word addr -> word size -> phys_fun f g -> retag f m addr size = Done m' ->
  exists a, retagged lo m addr size g a m'.
Proof.
  intros Hwf Hw1 Hw2 Hf H. unfold retag in H. run_inv.
  eapply (take_inv lo) in E0 as (a & _ & ? & _); eauto.
Qed.

Lemma retag_ok lo f g l k a r addr size :
  wf_from lo (l ++ (k, a) :: r) -> word addr -> word size -> phys_fun f g ->
  0 < size -> k <= addr -> addr + size <= k + p_size a ->
  exists m', retag f (l ++ (k, a) :: r) addr size = Done m' /\
    retagged lo (l ++ (k, a) :: r) addr size g a m'.
Proof.
  intros Hwf Hw1 Hw2 Hf Hs Hk Hle.
  destruct (CarvePhysArea_ok lo l k a r addr size) as (m1 & E & Hcv); auto.
  destruct (carved_overwrite lo _ _ _ _ _ _ f g Hwf Hf Hcv) as (l1 & r1 & mid & E1 & Hw & _).
  destruct (phys_MergeAdjacent_ok lo l1 addr (f mid) r1 Hw) as (l' & k' & a' & r' & E' & _).
  assert (retag f (l ++ (k, a) :: r) addr size = Done (l' ++ (k', a') :: r')) as ER.
  { unfold retag. rewrite E. cbn. rewrite E1, E'. done. }
  exists (l' ++ (k', a') :: r'). split; [done|].
  destruct (retag_inv lo f g (l ++ (k, a) :: r) addr size _ Hwf Hw1 Hw2 Hf ER) as (a0 & HR).
  assert (p_mtype a0 = p_mtype a /\ p_dma a0 = p_dma a) as [Ht Hd].
  { pose proof (rt_old _ _ _ _ _ _ _ HR addr) as Ho. destruct HR.
    rewrite (view_mid lo) in Ho by (cbn; auto; lia). cbn in Ho. injection (Ho ltac:(lia)). done. }
  pose proof (wf_mid _ _ _ _ _ Hwf) as (_ & _ & Hkb & _). cbn in Hkb.
  destruct HR. rewrite ?Ht, ?Hd in *. split; auto; [lia|].
  intros x Hx. rewrite (view_mid lo) by (cbn; auto; lia). done.
Qed.

(** ** Maps in which equal neighbours are merged *)

(** No area begins between two bytes of state [d] and the same type. *)
Definition joined (d : PMT.t) (m : PhysMap) : Prop :=
  forall y t, starts m y -> view m (y - 1) = Some (t, d) -> view m y = Some (t, d) -> False.

(** ... and all bytes have memory type 0 and are free or in state [d], as in
    [fmem_map]. *)
Definition flat (d : PMT.t) (m : PhysMap) : Prop :=
  joined d m /\ forall y t d', view m y = Some (t, d') -> t = 0 /\ (d' = PMT.Free \/ d' = d).

Definition dma_attr (d : PMT.t) : Z * PMT.t -> Z * PMT.t := fun '(t, _) => (t, d).

Lemma retagged_joined d m addr size g a m' : retagged 0 m addr size g a m' -> joined d m -> joined d m'.
Proof.
  intros HR HJ y t Hs Hl Hr. destruct (rt_starts _ _ _ _ _ _ _ HR y Hs) as [[Hs' Hout]|Hend].
  - destruct (decide (y = addr \/ y = addr + size)) as [He|He].
    { apply (rt_merged _ _ _ _ _ _ _ HR y He Hs). congruence. }
    rewrite (rt_view _ _ _ _ _ _ _ HR), (proj2 (in_range_false _ _ _)) in Hl by lia.
    rewrite (rt_view _ _ _ _ _ _ _ HR), (proj2 (in_range_false _ _ _)) in Hr by lia. by apply (HJ y t).
  - apply (rt_merged _ _ _ _ _ _ _ HR y Hend Hs). congruence.
Qed.

Lemma retagged_flat d d' m addr size a m' :
  d' = PMT.Free \/ d' = d -> retagged 0 m addr size (dma_attr d') a m' -> flat d m -> flat d m'.
Proof.
  intros Hd' HR [HJ HP]. split; [by eapply retagged_joined|]. intros y t dd. rewrite (rt_view _ _ _ _ _ _ _ HR).
  destruct (in_range addr size y) eqn:Er; [|apply HP]. apply in_range_true in Er. cbn. intros [= <- <-].
  pose proof (rt_in _ _ _ _ _ _ _ HR). split; [|done]. apply (HP y _ (p_dma a)). apply (rt_old _ _ _ _ _ _ _ HR). lia.
Qed.

(** ** Virtual areas *)

Definition vma_fun (f : VirtualMemoryArea -> VirtualMemoryArea) (g : page -> page) : Prop :=
  forall v, v_base (f v) = v_base v /\ v_size (f v) = v_size v /\ (vma_ok v -> vma_ok (f v)) /\
    forall x, r_attr (f v) x = g (r_attr v x).

(** [m'] is [m] with [g] applied to the attributes of [addr, addr + size),
    which lay in the one area [v]. *)
Record vupdated (lo : Z) (m : VMAMap) (addr size : Z) (g : page -> page) (v : VirtualMemoryArea)
    (m' : VMAMap) : Prop := {
  vu_in : v_base v <= addr /\ 0 < size /\ addr + size <= v_base v + v_size v;
  vu_old : forall x, v_base v <= x < v_base v + v_size v -> view m x = Some (r_attr v x);
  vu_wf : wf_from lo m';
  vu_end : end_from lo m' = end_from lo m;
  vu_contiguous : forall c, contiguous c m -> contiguous c m';
  vu_view : forall x, view m' x = if in_range addr size x then g <$> view m x else view m x;
}.

Lemma vcarved_overwrite lo m addr size v tl m' f g :
  wf_from lo m -> vma_fun f g -> vcarved lo m addr size v tl m' ->
  exists l r mid, malter f addr m' = l ++ (addr, f mid) :: r /\ wf_from lo (l ++ (addr, f mid) :: r) /\
    end_from lo (l ++ (addr, f mid) :: r) = end_from lo m /\
    (forall c, contiguous c m -> contiguous c (l ++ (addr, f mid) :: r)) /\
    (forall x, view (l ++ (addr, f mid) :: r) x =
       if in_range addr size x then g <$> view m x else view m x) /\
    v_size (f mid) = size /\ (addr + size = v_base v + v_size v -> r = tl).
Proof.
  intros Hwf Hf (l & r & mid & -> & Htl & Hb & Hs & Hkind & HS).
  destruct (Hf mid) as (Hfb & Hfs & Hfok & Hfa).
  pose proof (sm_wf _ _ _ HS Hwf) as Hwf1.
  pose proof (wf_mid _ _ _ _ _ Hwf1) as (_ & _ & _ & _ & _ & Hok & _ & Hbl & _).
  exists l, r, mid. rewrite malter_mid by done. split; [done|]. split_and!.
  - eapply wf_overwrite; [exact Hwf1|done|done|by apply Hfok].
  - rewrite (end_overwrite lo l addr mid (f mid)) by done. by apply (sm_end _ _ _ HS).
  - intros c Hc. eapply contiguous_overwrite; [exact Hfs|]. by apply (sm_contiguous _ _ _ HS).
  - intros x. rewrite (view_overwrite lo _ _ mid) by done.
    cbn [r_size vma_area]. rewrite Hs. unfold in_range.
    destruct ((addr <=? x) && (x <? addr + size))%bool eqn:E.
    + rewrite Hfa, <- (sm_view _ _ _ HS Hwf). bool_prop.
      by rewrite (view_mid lo) by (cbn; auto; lia).
    + by apply (sm_view _ _ _ HS).
  - lia.
  - done.
Qed.

Lemma vma_update_inv lo f g m addr size h m1 k2 m2 :
  wf_from lo m -> word addr -> word size -> vma_fun f g ->
  CarveVMA m addr size = Done (h, m1) -> vma_MergeAdjacent (malter f h m1) h = Done (k2, m2) ->
  exists v, vupdated lo m addr size g v m2.
Proof.
  intros Hwf Hw1 Hw2 Hf H1 H2.
  destruct (CarveVMA_inv lo m addr size h m1) as (l & k & v & r & -> & _ & Hs & Hk & Hle & -> & Hcv); auto.
  pose proof (wf_mid _ _ _ _ _ Hwf) as (_ & _ & Hkb & _). cbn in Hkb.
  destruct (vcarved_overwrite lo _ _ _ _ _ _ f g Hwf Hf Hcv) as (l1 & r1 & mid & E1 & Hw & He & Hc & Hv & _).
  rewrite E1 in H2.
  destruct (vma_MergeAdjacent_ok lo l1 addr (f mid) r1 Hw) as
    (l' & k' & v' & r' & E' & _ & _ & _ & _ & _ & _ & HS & _).
  rewrite E' in H2. injection H2 as <- <-.
  exists v. split.
  - lia.
  - intros x Hx. rewrite (view_mid lo) by (cbn; auto; lia). done.
  - by apply (sm_wf _ _ _ HS).
  - by rewrite (sm_end _ _ _ HS).
  - intros c Hc0. apply (sm_contiguous _ _ _ HS Hw). auto.
  - intros x. by rewrite (sm_view _ _ _ HS Hw).
Qed.

(** How many areas the loops that advance area by area still have to visit. *)
Definition depth {A} (x : Z) (m : omap A) : nat :=
  match mfind x m with Some s => length s | None => 0 end.

Lemma depth_length {A} x (m : omap A) : (depth x m <= length m)%nat.
Proof.
  unfold depth. destruct (mfind x m) as [s|] eqn:E; [|lia].
  apply mfind_split in E as (? & ? & l & r & -> & -> & _). rewrite length_app. lia.
Qed.

Section depth.
Context {A B : Type} `{!Area A B}.
Implicit Types (l r : omap A).

Lemma depth_in lo l k (a : A) r x :
  wf_from lo (l ++ (k, a) :: r) -> k <= x < k + r_size a -> depth x (l ++ (k, a) :: r) = S (length r).
Proof.
  intros Hwf Hx. pose proof (wf_mid _ _ _ _ _ Hwf) as (_ & _ & _ & _ & _ & _ & _ & Hb & Ha & _).
  unfold depth. rewrite mfind_mid; [done|done|lia|apply Ha; lia].
Qed.

(** Past the end of an area there is one area less to visit, provided there
    is a next one. *)
Lemma depth_past lo l k (a : A) r x :
  wf_from lo (l ++ (k, a) :: r) -> k + r_size a <= x -> view (l ++ (k, a) :: r) x <> None ->
  (depth x (l ++ (k, a) :: r) <= length r)%nat.
Proof.
  intros Hwf Hx Hv. pose proof (wf_mid _ _ _ _ _ Hwf) as (Hl & ? & -> & ? & _ & _ & Hr & Hb & Ha & _).
  assert (view r x <> None) as Hvr.
  { intros E. apply Hv. rewrite view_app, (view_ge lo) by (auto; lia). cbn. unfold covers.
    by destruct (Z.ltb_spec x (r_base a + r_size a)); [lia|]; rewrite andb_false_r. }
  destruct (find_covered _ _ _ Hr Hvr) as (l1 & k1 & a1 & r1 & -> & _ & Hx1 & _).
  rewrite (app_comm_cons l1), (app_assoc l) in *.
  rewrite (depth_in lo); [|done|done]. rewrite length_app. cbn. lia.
Qed.
End depth.

(** The update succeeds inside an area, and when it reaches the end of the
    area the next address has fewer areas ahead of it. *)
Lemma vma_update_ok lo f g l k v r addr size :
  wf_from lo (l ++ (k, v) :: r) -> vma_fun f g ->
  0 < size -> k <= addr -> addr + size <= k + v_size v ->
  exists h m1 k2 m2, CarveVMA (l ++ (k, v) :: r) addr size = Done (h, m1) /\
    vma_MergeAdjacent (malter f h m1) h = Done (k2, m2) /\
    (addr + size = k + v_size v -> view (l ++ (k, v) :: r) (addr + size) <> None ->
     (depth (addr + size) m2 <= length r)%nat).
Proof.
  intros Hwf Hf Hs Hk Hle.
  pose proof (wf_mid _ _ _ _ _ Hwf) as (_ & _ & Hkb & _). cbn in Hkb.
  destruct (CarveVMA_ok lo l k v r addr size) as (m1 & E & Hcv); auto.
  destruct (vcarved_overwrite lo _ _ _ _ _ _ f g Hwf Hf Hcv) as
    (l1 & r1 & mid & E1 & Hw & _ & _ & Hv & Hsz & Htl).
  destruct (vma_MergeAdjacent_ok lo l1 addr (f mid) r1 Hw) as
    (l' & k' & v' & r' & E' & Hk' & Hend & _ & _ & _ & _ & HS & Hr).
  exists addr, m1, k', (l' ++ (k', v') :: r'). rewrite E1. split_and!; auto.
  intros He Hcov. rewrite Htl in Hr by lia. rewrite Hsz in Hr, Hend.
  pose proof (sm_wf _ _ _ HS Hw) as Hw'.
  assert (view (l' ++ (k', v') :: r') (addr + size) <> None) as Hcov'.
  { rewrite (sm_view _ _ _ HS Hw), Hv. by rewrite (proj2 (in_range_false _ _ _)) by lia. }
  destruct (Z.lt_ge_cases (addr + size) (k' + v_size v')) as [Hlt|Hge].
  - rewrite (depth_in lo) by (cbn; auto; lia). destruct Hr as [[? _]|?]; lia.
  - pose proof (depth_past lo l' k' v' r' (addr + size) Hw' ltac:(cbn; lia) Hcov').
    destruct Hr as [[_ ->]|?]; lia.
Qed.

(** ** The structural invariant of the memory manager

    [mm_wf]: the VMAs are disjoint non-empty ranges keyed by their base, each
    backed one tiled exactly by its physical areas; [dmem_map] covers
    [0, total_direct_size) without gap or overlap; [fmem_map] covers its
    block.  Every operation that returns, on whatever arguments, keeps it. *)

Record phys_wf (s : MemoryManager) : Prop := {
  pw_dmem : wf_from 0 (dmem_map s);
  pw_dcont : contiguous 0 (dmem_map s);
  pw_dend : end_from 0 (dmem_map s) = total_direct_size s;
  pw_fmem : wf_from 0 (fmem_map s);
  pw_fcont : exists b, contiguous b (fmem_map s) /\
    end_from b (fmem_map s) = b + ORBIS_KERNEL_FLEXIBLE_MEMORY_SIZE;
}.

Record mm_wf (s : MemoryManager) : Prop := {
  mw_phys : phys_wf s;
  mw_vmas : wf_from 0 (vma_map s);
}.

#[export] Hint Resolve mw_phys mw_vmas pw_dmem pw_fmem : areas.

(** Fields [phys_wf] does not look at. *)
Lemma phys_wf_same s s' :
  dmem_map s' = dmem_map s -> fmem_map s' = fmem_map s -> total_direct_size s' = total_direct_size s ->
  phys_wf s -> phys_wf s'.
Proof. intros Ed Ef Et []. split; rewrite ?Ed, ?Ef, ?Et; auto. Qed.

Lemma mm_wf_same s s' :
  dmem_map s' = dmem_map s -> fmem_map s' = fmem_map s -> total_direct_size s' = total_direct_size s ->
  vma_map s' = vma_map s -> mm_wf s -> mm_wf s'.
Proof. intros ? ? ? Ev []. split; [by eapply phys_wf_same | by rewrite Ev]. Qed.

Ltac mm_same := first [eapply mm_wf_same; [..|eassumption]; done | eapply phys_wf_same; [..|eassumption]; done].

Lemma mm_wf_emit e s : mm_wf s -> mm_wf (emit e s).
Proof. intros. mm_same. Qed.
Lemma mm_wf_gen g s : mm_wf s -> mm_wf (with_gen g s).
Proof. intros. mm_same. Qed.
Lemma mm_wf_budget b s : mm_wf s -> mm_wf (with_budget b s).
Proof. intros. mm_same. Qed.
Lemma mm_wf_usage u s : mm_wf s -> mm_wf (with_usage u s).
Proof. intros. mm_same. Qed.
Lemma mm_wf_prt p s : mm_wf s -> mm_wf (with_prt p s).
Proof. intros. mm_same. Qed.
Lemma mm_wf_gpu_unmap a n s : mm_wf s -> mm_wf (gpu_unmap a n s).
Proof. unfold gpu_unmap. destruct (IsValidGpuMapping a n); auto using mm_wf_emit. Qed.
Lemma mm_wf_gpu_map a n s : mm_wf s -> mm_wf (gpu_map a n s).
Proof. unfold gpu_map. destruct (IsValidGpuMapping a n); auto using mm_wf_emit. Qed.
Lemma mm_wf_begin s : mm_wf s -> mm_wf (begin_mutation s).
Proof. apply mm_wf_gen. Qed.
Lemma mm_wf_finish s : mm_wf s -> mm_wf (finish_mutation s).
Proof. apply mm_wf_gen. Qed.
Lemma mm_wf_destroy s : mm_wf s -> mm_wf (destroy_mutation s).
Proof. apply mm_wf_gen. Qed.

#[export] Hint Resolve mm_wf_emit mm_wf_gen mm_wf_budget mm_wf_usage mm_wf_prt mm_wf_gpu_unmap
  mm_wf_gpu_map mm_wf_begin mm_wf_finish mm_wf_destroy : areas.

Lemma mm_wf_vmas m s : mm_wf s -> wf_from 0 m -> mm_wf (with_vmas m s).
Proof. intros [] ?. split; [mm_same | done]. Qed.

(** Physical maps that differ by attributes only. *)
Record phys_like (m m' : PhysMap) : Prop := {
  pl_wf : wf_from 0 m';
  pl_end : end_from 0 m' = end_from 0 m;
  pl_contiguous : forall c, contiguous c m -> contiguous c m';
}.

Lemma phys_wf_dmem m s : phys_wf s -> phys_like (dmem_map s) m -> phys_wf (with_dmem m s).
Proof. intros [] [He ? ?]. split; cbn; auto. congruence. Qed.

Lemma contiguous_end b (m : PhysMap) : contiguous b m -> m <> [] -> end_from b m = end_from 0 m.
Proof. by destruct m as [|[k a] m]. Qed.

Lemma phys_wf_fmem m s : phys_wf s -> phys_like (fmem_map s) m -> phys_wf (with_fmem m s).
Proof.
  intros [? ? ? ? (b & Hb & He)] [? He' ?]. split; cbn; auto. exists b. split; [by auto|].
  assert (fmem_map s <> []) as Hne.
  { intros E. rewrite E in He. cbn in He. unfold ORBIS_KERNEL_FLEXIBLE_MEMORY_SIZE in He. word_lia. }
  assert (m <> []) as Hne'.
  { intros ->. cbn in He'. destruct (fmem_map s) as [|[k a] fm]; [done|]. cbn in *.
    pose proof (wf_end (k + p_size a) fm) as Hw. intuition lia. }
  rewrite (end_weaken b 0), He', <- (end_weaken b 0) by done. done.
Qed.

Lemma retagged_like m addr size g a m' : retagged 0 m addr size g a m' -> phys_like m m'.
Proof. intros []. by split. Qed.

Lemma mm_wf_dmem m s : mm_wf s -> phys_like (dmem_map s) m -> mm_wf (with_dmem m s).
Proof. intros [] ?. split; [by apply phys_wf_dmem | done]. Qed.
Lemma mm_wf_fmem m s : mm_wf s -> phys_like (fmem_map s) m -> mm_wf (with_fmem m s).
Proof. intros [] ?. split; [by apply phys_wf_fmem | done]. Qed.

#[export] Hint Resolve mm_wf_vmas mm_wf_dmem mm_wf_fmem retagged_like : areas.

(** ** Words *)

Lemma word_u64 z : word (u64 z).
Proof. apply u64_range. Qed.
Lemma word_wadd a b : word (wadd a b).
Proof. apply u64_range. Qed.
Lemma word_wsub a b : word (wsub a b).
Proof. apply u64_range. Qed.
Lemma word_min a b : word a -> word b -> word (Z.min a b).
Proof. unfold word. lia. Qed.
Lemma word_max a b : word a -> word b -> word (Z.max a b).
Proof. unfold word. lia. Qed.
#[export] Hint Resolve word_u64 word_wadd word_wsub word_min word_max : words.

Lemma word_align_down a n : word (AlignDown a n).
Proof. apply word_wsub. Qed.
Lemma word_align_up a n : word (AlignUp a n).
Proof. unfold AlignUp. destruct (_ =? 0); auto with words. Qed.
#[export] Hint Resolve word_align_down word_align_up : words.

(** ** The overwrites the operations use *)

Lemma fun_dma d : phys_fun (p_with_dma d) (fun '(t, _) => (t, d)).
Proof. by intros []. Qed.
Lemma fun_mtype t : phys_fun (p_with_mtype t) (fun '(_, d) => (t, d)).
Proof. by intros []. Qed.
Lemma fun_both t d : phys_fun (fun a => p_with_mtype t (p_with_dma d a)) (fun _ => (t, d)).
Proof. by intros []. Qed.
Lemma fun_both' t d : phys_fun (fun a => p_with_dma d (p_with_mtype t a)) (fun _ => (t, d)).
Proof. by intros []. Qed.
#[export] Hint Resolve fun_dma fun_mtype fun_both fun_both' : areas.

Definition page_free (_ : page) : page := mkPage VMAType.Free MemoryProt.NoAccess EmptyString false None.
Definition page_pool_reserved (_ : page) : page :=
  mkPage VMAType.PoolReserved MemoryProt.NoAccess "anon" false None.
Definition page_prot (p : Z) (g : page) : page :=
  mkPage (g_type g) p (g_name g) (g_nomerge g) (g_back g).
Definition page_name (n : string) (g : page) : page :=
  mkPage (g_type g) (g_prot g) n (g_nomerge g) (g_back g).

Ltac vma_fun_tac :=
  intros []; split_and!; try done; unfold vma_ok; cbn; intros [? ?]; by split.

Lemma fun_free : vma_fun free_vma page_free.
Proof. vma_fun_tac. Qed.
Lemma fun_pool_reserved : vma_fun pool_reserved_vma page_pool_reserved.
Proof. vma_fun_tac. Qed.
Lemma fun_prot p : vma_fun (v_with_prot p) (page_prot p).
Proof. vma_fun_tac. Qed.
Lemma fun_name n : vma_fun (v_with_name n) (page_name n).
Proof. vma_fun_tac. Qed.
#[export] Hint Resolve fun_free fun_pool_reserved fun_prot fun_name : areas.

(** ** Unmapping *)

Lemma retag_like f g m addr size m' :
  wf_from 0 m -> phys_fun f g -> word addr -> word size -> retag f m addr size = Done m' -> phys_like m m'.
Proof. intros Hwf Hf ? ? H. eapply retag_inv in H as (a & H); eauto with areas. Qed.

Lemma unmap_phys_wf t start areas n s n' s' :
  mm_wf s -> word n -> unmap_phys t start areas n s = Done (n', s') ->
  mm_wf s' /\ vma_map s' = vma_map s.
Proof.
  revert n s; induction areas as [|[off a] areas IH]; intros n s Hwf Hn H; cbn in H.
  { by injection H as <- <-. }
  destruct (negb (0 <? n)); [by run_inv|].
  set (pa := wadd (p_base a) _) in H. set (sz := Z.min n _) in H.
  assert (word pa) by (subst pa; auto with words). assert (word sz) by (subst sz; auto with words).
  outcome_inv. rename a0 into s1.
  assert (mm_wf s1 /\ vma_map s1 = vma_map s) as [Hwf1 Hv].
  { destruct t; outcome_inv; try done.
    - split; [apply mm_wf_dmem; [done|]; eapply retag_like; [..|eassumption]; eauto with areas|done].
    - split; [|done]. apply mm_wf_usage, mm_wf_emit, mm_wf_fmem; [done|]. eapply retag_like; [..|eassumption]; eauto with areas. }
  rewrite <- Hv. eapply IH; [done| |exact H]. auto with words.
Qed.

(** The carve-overwrite-merge pattern on [vma_map]. *)
Lemma update_wf f g m addr size h m1 k2 m2 :
  wf_from 0 m -> word addr -> word size -> vma_fun f g ->
  CarveVMA m addr size = Done (h, m1) -> vma_MergeAdjacent (malter f h m1) h = Done (k2, m2) ->
  wf_from 0 m2.
Proof. intros Hwf ? ? Hf H1 H2. by destruct (vma_update_inv 0 f g _ _ _ _ _ _ _ Hwf H H0 Hf H1 H2) as (v & []). Qed.

Lemma UnmapBytesFromEntry_wf addr v size s n s' :
  mm_wf s -> word addr -> word size -> UnmapBytesFromEntry addr v size s = Done (n, s') ->
  mm_wf s' /\ word n.
Proof.
  intros Hwf Ha Hs H. unfold UnmapBytesFromEntry in H.
  set (n0 := Z.min _ size) in H. assert (word n0) by (subst n0; auto with words).
  destruct (_ || _)%bool; [by run_inv|].
  apply obind_Done in H as (s1 & E & H).
  assert (mm_wf s1 /\ vma_map s1 = vma_map s) as [Hwf1 Hv].
  { destruct (v_phys v); run_inv; [done|]. by eapply unmap_phys_wf. }
  clear E. run_inv. split; [|done].
  pose proof (update_wf _ _ _ _ _ _ _ _ _ (mw_vmas _ Hwf1) Ha H0 fun_free E E0).
  destruct (_ && _)%bool; auto with areas.
Qed.

Lemma unmap_loop_wf fuel addr size done s s' :
  mm_wf s -> unmap_loop fuel addr size done s = Done s' -> mm_wf s'.
Proof.
  revert done s; induction fuel as [|fuel IH]; intros done s Hwf H; cbn in H; [done|].
  outcome_inv. destruct a. outcome_inv. destruct a as [n s1]. outcome_inv.
  eapply UnmapBytesFromEntry_wf in E0 as [Hwf1 _]; auto with words.
  destruct (wadd done n <? size); [by eapply IH, H | by injection H as <-].
Qed.

Lemma UnmapMemoryImpl_wf addr size s r s' :
  mm_wf s -> UnmapMemoryImpl addr size s = Done (r, s') -> mm_wf s'.
Proof. unfold UnmapMemoryImpl. intros ? H. run_inv. by eapply unmap_loop_wf. Qed.

Lemma UnmapMemory_wf addr size s r s' :
  mm_wf s -> UnmapMemory addr size s = Done (r, s') -> mm_wf s'.
Proof.
  unfold UnmapMemory. intros ? H. destruct (size =? 0); [by run_inv|]. run_inv.
  eapply UnmapMemoryImpl_wf in E0; auto with areas.
Qed.

(** ** Direct memory *)

Lemma carve_tag_like f g m addr size h m' :
  wf_from 0 m -> phys_fun f g -> word addr -> word size -> CarvePhysArea m addr size = Done (h, m') ->
  phys_like m (malter f h m').
Proof.
  intros Hwf Hf ? ? H. pose proof H as Hc.
  eapply CarvePhysArea_inv in Hc as (l & k & a & r & E & _ & _ & _ & _ & -> & Hcv); eauto.
  destruct (carved_overwrite 0 m addr size a r m' f g Hwf Hf Hcv) as (l1 & r1 & mid & -> & ? & ? & ? & _).
  by split.
Qed.

Lemma phys_like_trans m1 m2 m3 : phys_like m1 m2 -> phys_like m2 m3 -> phys_like m1 m3.
Proof. intros [] []. split; auto. congruence. Qed.

Lemma mlookup_split {A} k (m : omap A) a :
  mlookup k m = Some a -> exists l r, m = l ++ (k, a) :: r.
Proof.
  induction m as [|[k' a'] m IH]; cbn; [done|]. destruct (Z.eqb_spec k' k) as [->|].
  - intros [= ->]. by exists [], m.
  - intros H. destruct (IH H) as (l & r & ->). by exists ((k', a') :: l), r.
Qed.

Lemma merge_like m k k' m' :
  wf_from 0 m -> phys_MergeAdjacent m k = Done (k', m') -> phys_like m m'.
Proof.
  intros Hwf H. assert (exists a, mlookup k m = Some a) as [a Ha].
  { unfold phys_MergeAdjacent, phys_merge_next in H. outcome_inv. eauto. }
  apply mlookup_split in Ha as (l & r & ->).
  destruct (phys_MergeAdjacent_ok 0 l k a r Hwf) as (l' & k2 & a' & r' & E & _ & _ & _ & _ & HS & _).
  rewrite H in E. injection E as -> ->. destruct HS. split; auto.
Qed.

Lemma search_dmem_word areas start size al k m :
  word start -> search_dmem areas start size al = Some (k, m) -> word m.
Proof.
  revert start; induction areas as [|[k0 a] areas IH]; intros start Hs H; cbn in H; [done|].
  destruct (_ || _)%bool; [|by injection H as <- <-].
  destruct areas as [|[k1 a1] areas]; [done|]. eapply IH, H. auto with words.
Qed.

Lemma PoolExpand_wf a b size al s r s' :
  mm_wf s -> word size -> PoolExpand a b size al s = Done (r, s') -> mm_wf s'.
Proof.
  unfold PoolExpand. intros Hwf Hs H. run_inv.
  destruct (search_dmem _ _ _ _) as [[d m0]|] eqn:Es in H; [|by injection H as <- <-].
  apply search_dmem_word in Es; [|destruct (_ <? _); auto with words].
  run_inv. apply mm_wf_budget, mm_wf_dmem; [done|].
  eapply carve_tag_like; [..|eassumption]; eauto with areas.
Qed.

Lemma Allocate_wf a b size al t s r s' :
  mm_wf s -> word size -> Allocate a b size al t s = Done (r, s') -> mm_wf s'.
Proof.
  unfold Allocate. intros Hwf Hs H. run_inv.
  destruct (search_dmem _ _ _ _) as [[d m0]|] eqn:Es in H; [|by injection H as <- <-].
  apply search_dmem_word in Es; [|auto with words].
  destruct (b <? _); [by run_inv|]. run_inv.
  pose proof (carve_tag_like _ _ _ _ _ _ _ (pw_dmem _ (mw_phys _ Hwf)) (fun_both' t PMT.Allocated) Es Hs E1).
  apply mm_wf_dmem; [done|]. eapply phys_like_trans; [eassumption|]. eapply merge_like, E2. by destruct H.
Qed.

Definition word_ranges (l : list (Z * Z)) : Prop := Forall (fun e => word e.1 /\ word e.2) l.

Lemma collect_free_words areas pa n chk l :
  Forall (fun e : Z * _ => word e.1) areas -> word pa -> word n ->
  collect_free areas pa n chk = Some l -> word_ranges l.
Proof.
  intros Ha Hp. revert n l; induction Ha as [|[k a] areas Hk _ IH]; intros n l Hn H; cbn in *.
  { injection H as <-. by constructor. }
  destruct (n =? 0); [injection H as <-; by constructor|].
  destruct (bool_decide _); [destruct chk; [done|by eapply IH in H]|].
  destruct (collect_free areas _ _ _) as [l'|] eqn:E; [|done]. injection H as <-.
  constructor; [split; cbn; auto with words|]. eapply IH, E. auto with words.
Qed.

Lemma unmap_all_wf l s s' : mm_wf s -> unmap_all l s = Done s' -> mm_wf s'.
Proof.
  revert s; induction l as [|[a n] l IH]; intros s Hwf H; cbn in H; run_inv; [done|].
  apply UnmapMemoryImpl_wf in E; [by eapply IH, H | done].
Qed.

Lemma release_all_like l m m' :
  word_ranges l -> wf_from 0 m -> release_all l m = Done m' -> phys_like m m'.
Proof.
  intros Hl. revert m; induction Hl as [|[a n] l [Ha Hn] _ IH]; intros m Hwf H; cbn in *; outcome_inv.
  { by split. }
  pose proof (retag_like _ _ _ _ _ _ Hwf (fun_both 0 PMT.Free) Ha Hn E) as HL.
  eapply phys_like_trans; [exact HL|]. eapply IH; [apply HL|done].
Qed.

Lemma keys_words lo (m : PhysMap) : wf_from lo m -> 0 <= lo -> Forall (fun e => word e.1) m.
Proof.
  revert lo; induction m as [|[k a] m IH]; intros lo; cbn; [by constructor|].
  intros (? & ? & ? & ? & ? & H) ?. constructor; [unfold word; cbn; lia|]. eapply IH; [exact H|lia].
Qed.

Lemma mm_wf_fold_gpu l s : mm_wf s -> mm_wf (foldl (fun s '(addr, n) => gpu_unmap addr n s) s l).
Proof. revert s; induction l as [|[a n] l IH]; intros s Hwf; cbn; [done|]. apply IH. auto with areas. Qed.

Lemma Free_wf pa size chk s r s' :
  mm_wf s -> word pa -> word size -> Free pa size chk s = Done (r, s') -> mm_wf s'.
Proof.
  unfold Free. intros Hwf Hp Hs HF. destruct (_ || _)%bool; [by run_inv|]. run_inv.
  destruct (collect_free _ _ _ _) as [fl|] eqn:Ec in HF; [|by run_inv]. run_inv.
  apply collect_free_words in Ec; auto.
  2: { pose proof (keys_words _ _ (pw_dmem _ (mw_phys _ Hwf)) ltac:(lia)) as Hk.
       apply mfind_split in E as (? & ? & l0 & ? & -> & Em & _). rewrite Em in Hk. by apply Forall_app in Hk as [_ Hk]. }
  apply unmap_all_wf in E0; [|by apply mm_wf_begin, mm_wf_fold_gpu].
  apply release_all_like in E1; auto with areas.
Qed.
