(* ===== verification/MemMap.v ===== *)
(** * MemMap: backing a new mapping with physical memory

    The loops of [MapMemory] and [PoolCommit] take physical areas one after
    the other, append them to the new VMA and retag them; [taken] says what
    a whole run of such a loop does. *)

From S2P Require Import Prelude OrdMap MemTypes PhysFacts VmaFacts MemOps MemInv.

(** ** One appended area *)

Lemma add_backing_ok l h v r off a s :
  vma_map s = l ++ (h, v) :: r -> below h l -> tiled 0 (v_phys v) off -> 0 <= off < W64 ->
  0 < p_size a -> 0 <= p_base a -> p_base a + p_size a < W64 ->
  exists p', add_backing h off a s = Done (with_vmas (l ++ (h, v_with_phys p' v) :: r) s) /\
    tiled 0 p' (off + p_size a) /\
    forall x, phys_at p' x = if x <? off then phys_at (v_phys v) x else phys_at [(off, a)] x.
Proof.
  intros Em Hb Ht ? ? ? ?. destruct (add_area_tiled (v_phys v) off a) as (k & p' & E & ? & ?); auto.
  exists p'. unfold add_backing. rewrite Em, mlookup_mid by done. cbn [of_option obind]. rewrite E.
  cbn [obind]. by rewrite malter_mid.
Qed.

(** ** A run of the loop: [n] bytes of state [from] become [to] and back the
    offsets [off, off + n), one physical address per offset. *)
Record taken (from to : PMT.t) (off n : Z) (p p' m m' : PhysMap) : Prop := {
  tk_like : phys_like m m';
  tk_tiled : tiled 0 p' (off + n);
  tk_old : forall x, x < off -> phys_at p' x = phys_at p x;
  tk_new : forall x, off <= x < off + n -> exists b, phys_at p' x = Some b /\ b_dma b = to /\
    (exists t, view m (b_addr b) = Some (t, from)) /\ view m' (b_addr b) = Some (b_mtype b, to);
  tk_inj : forall x y b b', off <= x < off + n -> off <= y < off + n ->
    phys_at p' x = Some b -> phys_at p' y = Some b' -> b_addr b = b_addr b' -> x = y;
  tk_frame : forall y t d, view m y = Some (t, d) -> d <> from -> view m' y = Some (t, d);
  tk_bytes : dma_bytes to m' = dma_bytes to m + n;
  tk_from : dma_bytes from m' = dma_bytes from m - n;
}.

Lemma taken_refl from to off p m : wf_from 0 m -> tiled 0 p off -> taken from to off 0 p p m m.
Proof. intros ? ?. split; try done; try lia; [by rewrite Z.add_0_r]. Qed.

Lemma taken_step from to off n n2 p p1 p2 m m1 m2 g a na :
  from <> to -> retagged 0 m (p_base na) n g a m1 -> p_size na = n -> 0 <= off ->
  p_dma a = from -> (p_mtype na, p_dma na) = g (p_mtype a, p_dma a) -> p_dma na = to ->
  (forall x, phys_at p1 x = if x <? off then phys_at p x else phys_at [(off, na)] x) ->
  taken from to (off + n) n2 p1 p2 m1 m2 -> 0 <= n2 ->
  taken from to off (n + n2) p p2 m m2.
Proof.
  intros Hne HR Hsz Hoff Hfrom Hg Hto Hp1 HT Hn2.
  pose proof (rt_in _ _ _ _ _ _ _ HR) as (? & ? & ?).
  assert (forall x, off <= x < off + n ->
    phys_at p2 x = Some (mkBacking (p_base na + (x - off)) (p_mtype na) to)) as Hnew.
  { intros x Hx. rewrite (tk_old _ _ _ _ _ _ _ _ HT) by lia. rewrite Hp1.
    destruct (Z.ltb_spec x off); [lia|]. cbn. rewrite Hto, Hsz. split_cmp; try lia; done. }
  assert (forall y, in_range (p_base na) n y = true -> view m y = Some (p_mtype a, from) /\
            view m1 y = Some (p_mtype na, to)) as Hview.
  { intros y Hy. rewrite (rt_view _ _ _ _ _ _ _ HR), Hy, <- Hg, Hto. split; [|done].
    apply in_range_true in Hy. rewrite (rt_old _ _ _ _ _ _ _ HR) by lia. by rewrite Hfrom. }
  assert (forall y t d, view m1 y = Some (t, d) -> d <> to -> view m y = Some (t, d)) as Hback.
  { intros y t d Hy Hd. rewrite (rt_view _ _ _ _ _ _ _ HR), <- Hg, Hto in Hy.
    destruct (in_range _ _ _); [congruence|done]. }
  split.
  - eapply phys_like_trans; [eapply retagged_like, HR|apply HT].
  - rewrite Z.add_assoc. apply HT.
  - intros x Hx. rewrite (tk_old _ _ _ _ _ _ _ _ HT), Hp1 by lia. destruct (Z.ltb_spec x off); [done|lia].
  - intros x Hx. destruct (Z.lt_ge_cases x (off + n)).
    + destruct (Hview (p_base na + (x - off))) as [Hv Hv1]; [apply in_range_true; lia|].
      eexists. split; [apply Hnew; lia|]. split_and!; [done|by eexists|].
      cbn. apply (tk_frame _ _ _ _ _ _ _ _ HT); [done|congruence].
    + destruct (tk_new _ _ _ _ _ _ _ _ HT x ltac:(lia)) as (b & ? & ? & (t & Ht) & ?).
      exists b. split_and!; auto. exists t. eapply Hback; [done|congruence].
  - assert (forall x y b b', off <= x < off + n -> off + n <= y < off + n + n2 ->
      phys_at p2 x = Some b -> phys_at p2 y = Some b' -> b_addr b = b_addr b' -> False) as Hcross.
    { intros x y b b' Hx Hy Eb Eb' E. rewrite Hnew in Eb by done. injection Eb as <-. cbn in E.
      destruct (tk_new _ _ _ _ _ _ _ _ HT y Hy) as (b2 & E2 & _ & (t & Ht) & _). rewrite Eb' in E2.
      injection E2 as <-. rewrite <- E in Ht.
      destruct (Hview (p_base na + (x - off))) as [_ Hv1]; [apply in_range_true; lia|]. congruence. }
    intros x y b b' Hx Hy Eb Eb' E.
    destruct (Z.lt_ge_cases x (off + n)), (Z.lt_ge_cases y (off + n)).
    + rewrite Hnew in Eb, Eb' by lia. injection Eb as <-. injection Eb' as <-. cbn in E. lia.
    + exfalso. eapply (Hcross x y); eauto; lia.
    + exfalso. eapply (Hcross y x); eauto; lia.
    + eapply (tk_inj _ _ _ _ _ _ _ _ HT); eauto; lia.
  - intros y t d Hy Hd. apply (tk_frame _ _ _ _ _ _ _ _ HT); [|done].
    rewrite (rt_view _ _ _ _ _ _ _ HR). destruct (in_range (p_base na) n y) eqn:Er; [|done].
    destruct (Hview y Er). congruence.
  - rewrite (tk_bytes _ _ _ _ _ _ _ _ HT), (rt_bytes _ _ _ _ _ _ _ HR), <- Hg. cbn.
    rewrite (bool_decide_eq_false_2 (p_dma a = to)), (bool_decide_eq_true_2 (p_dma na = to)) by congruence. lia.
  - rewrite (tk_from _ _ _ _ _ _ _ _ HT), (rt_bytes _ _ _ _ _ _ _ HR), <- Hg. cbn.
    rewrite (bool_decide_eq_true_2 (p_dma a = from)), (bool_decide_eq_false_2 (p_dma na = from)) by congruence. lia.
Qed.

(** ** The flexible loop *)

(** The fields the loop over [fmem_map] leaves alone. *)
Definition flex_frame (s s' : MemoryManager) : Prop :=
  exists ev, s' = mkMM (impl s) (dmem_map s) (fmem_map s') (vma_map s') (mapping_generation s)
    (total_direct_size s) (total_flexible_size s) (flexible_usage s') (pool_budget s) (sdk_version s)
    (prt_areas s) ev.

Lemma wadd_wadd a b c : wadd (wadd a b) c = u64 (a + (b + c)).
Proof. unfold wadd, u64. rewrite Zplus_mod_idemp_l. f_equal. lia. Qed.

(** What an entry found by its key says of the map. *)
Lemma lookup_area m k a :
  wf_from 0 m -> mlookup k m = Some a ->
  p_base a = k /\ 0 <= k /\ 0 < p_size a /\ k + p_size a < W64 /\
  forall x, k <= x < k + p_size a -> view m x = Some (p_mtype a, p_dma a).
Proof.
  intros Hwf H. apply mlookup_split in H as (l & r & ->).
  pose proof (wf_mid _ _ _ _ _ Hwf) as (_ & _ & ? & ? & ? & ? & _ & _ & _ & _). cbn in *.
  split_and!; auto; try lia. intros x Hx. rewrite (view_mid 0) by (cbn; auto; lia). done.
Qed.

(** Taking [n] bytes at the base of an area [a] of state [from]. *)
Lemma take_base f g m k a n h m1 k2 m2 :
  wf_from 0 m -> mlookup k m = Some a -> word n -> phys_fun f g ->
  CarvePhysArea m (p_base a) n = Done (h, m1) -> phys_MergeAdjacent (malter f h m1) h = Done (k2, m2) ->
  exists a0 na, retagged 0 m (p_base na) n g a0 m2 /\ mlookup h (malter f h m1) = Some na /\
    p_dma a0 = p_dma a /\ p_base na = p_base a /\ p_size na = n /\
    (p_mtype na, p_dma na) = g (p_mtype a0, p_dma a0) /\ 0 < n /\ 0 <= p_base na /\ p_base na + n < W64.
Proof.
  intros Hwf Hl Hn Hf HC HM. destruct (lookup_area _ _ _ Hwf Hl) as (Hb & ? & ? & ? & Hv).
  destruct (take_inv 0 f g m (p_base a) n h m1 k2 m2) as (a0 & na & HR & -> & Hna & Hb2 & Hs2 & Hg); auto.
  { unfold word. lia. }
  pose proof (rt_in _ _ _ _ _ _ _ HR) as (? & ? & ?).
  exists a0, na. rewrite Hb2. split_and!; auto; try lia.
  - pose proof (rt_old _ _ _ _ _ _ _ HR (p_base a) ltac:(lia)) as Ho.
    rewrite Hv in Ho by lia. congruence.
  - destruct (CarvePhysArea_inv 0 m (p_base a) n (p_base a) m1) as
      (l & k0 & a1 & r & -> & _ & _ & ? & ? & _); auto; [unfold word; lia|].
    apply wf_mid in Hwf as (_ & _ & _ & _ & Hlt & _).
    cbn in Hlt. lia.
Qed.

(** One round of the loops: carve at the base of an area of state [from],
    retag it [to], append it to the VMA, merge. *)
Lemma loop_step from to f g l h v r off n m k a nh m1 na k2 m2 s s1 :
  from <> to -> phys_fun f g -> (forall t, (g (t, from)).2 = to) ->
  wf_from 0 m -> mlookup k m = Some a -> p_dma a = from -> word n ->
  vma_map s = l ++ (h, v) :: r -> below h l -> tiled 0 (v_phys v) off -> 0 <= off < W64 ->
  CarvePhysArea m (p_base a) n = Done (nh, m1) -> mlookup nh (malter f nh m1) = Some na ->
  add_backing h off na s = Done s1 -> phys_MergeAdjacent (malter f nh m1) nh = Done (k2, m2) ->
  exists p1, s1 = with_vmas (l ++ (h, v_with_phys p1 v) :: r) s /\ tiled 0 p1 (off + n) /\
    phys_like m m2 /\ (exists a0, retagged 0 m (p_base na) n g a0 m2) /\
    forall n2 p2 m3, 0 <= n2 -> taken from to (off + n) n2 p1 p2 m2 m3 ->
      taken from to off (n + n2) (v_phys v) p2 m m3.
Proof.
  intros Hne Hf Hto Hwf Hl Hfrom Hn Em Hb Ht Hoff HC Hna HA HM.
  destruct (take_base _ _ _ _ _ _ _ _ _ _ Hwf Hl Hn Hf HC HM)
    as (a0 & na' & HR & Ena' & Hfrom' & Hbase & Hsz & Hg & ? & ? & ?).
  rewrite Hna in Ena'. injection Ena' as <-.
  destruct (add_backing_ok l h v r off na s) as (p1 & E1 & Ht1 & Hp1); auto; try lia.
  rewrite E1 in HA. injection HA as <-. rewrite Hsz in Ht1.
  exists p1. split_and!; auto; [by eapply retagged_like|by exists a0|].
  intros n2 p2 m3 Hn2 HT. eapply taken_step; eauto; try lia; try congruence.
  assert (p_dma na = (p_mtype na, p_dma na).2) as -> by done. rewrite Hg, Hfrom', Hfrom. done.
Qed.

Lemma map_flexible_inv fuel l h v r handle mapped cur rem is_exec s rem' s' :
  phys_wf s -> vma_map s = l ++ (h, v) :: r -> below h l -> tiled 0 (v_phys v) (cur - mapped) ->
  0 <= mapped -> mapped <= cur -> 0 <= rem -> cur + rem < W64 ->
  map_flexible fuel handle h mapped cur rem is_exec s = Done (rem', s') ->
  exists p', vma_map s' = l ++ (h, v_with_phys p' v) :: r /\ 0 <= rem' <= rem /\ flex_frame s s' /\
    taken PMT.Free PMT.Flexible (cur - mapped) (rem - rem') (v_phys v) p' (fmem_map s) (fmem_map s') /\
    (word (flexible_usage s) -> flexible_usage s' = u64 (flexible_usage s + (rem - rem'))) /\
    (flat PMT.Flexible (fmem_map s) -> flat PMT.Flexible (fmem_map s')).
Proof.
  revert handle v cur rem s; induction fuel as [|fuel IH];
    intros handle v cur rem s Hwf Em Hb Ht Hm Hc Hr Hlt H; cbn in H.
  all: assert (forall rem0 s0, Done (rem, s) = Done (rem0, s0) ->
    exists p', vma_map s0 = l ++ (h, v_with_phys p' v) :: r /\ 0 <= rem0 <= rem /\ flex_frame s s0 /\
    taken PMT.Free PMT.Flexible (cur - mapped) (rem - rem0) (v_phys v) p' (fmem_map s) (fmem_map s0) /\
    (word (flexible_usage s) -> flexible_usage s0 = u64 (flexible_usage s + (rem - rem0))) /\
    (flat PMT.Flexible (fmem_map s) -> flat PMT.Flexible (fmem_map s0))) as Hnil.
  1,3: intros rem0 s0 [= <- <-]; exists (v_phys v); split_and!; auto; try lia;
    [by destruct v | by exists (events s); destruct s | rewrite Z.sub_diag; apply taken_refl; auto; apply Hwf
    | intros; rewrite Z.sub_diag, Z.add_0_r, u64_small; auto].
  1,2: destruct handle as [k|]; [|by apply Hnil]; destruct (Z.eqb_spec rem 0) as [|Hnz]; [by apply Hnil|].
  1: done.
  clear Hnil. apply obind_Done in H as (a & Ea & H). apply of_option_Done in Ea.
  destruct (lookup_area _ _ _ (pw_fmem _ Hwf) Ea) as (? & ? & ? & ? & _).
  destruct (bool_decide (p_dma a = PMT.Free)) eqn:Ed; cbn [negb] in H; [|by eapply IH].
  set (n := Z.min rem (p_size a)) in H.
  assert (word n) as Hn by (unfold word, n; lia). run_inv. bool_prop. rewrite wsub_small in E1 by word_lia.
  destruct (loop_step PMT.Free PMT.Flexible _ _ l h v r (cur - mapped) n _ k a _ _ _ _ _ s _ ltac:(done)
    (fun_dma PMT.Flexible) (fun _ => eq_refl) (pw_fmem _ Hwf) Ea Ed Hn Em Hb Ht ltac:(lia) E E0 E1 E2)
    as (p1 & -> & Ht1 & HL & [ar HR0] & HT1).
  rewrite (wadd_small cur), (wsub_small rem) in H by (unfold n; word_lia).
  replace (cur - mapped + n) with (cur + n - mapped) in * by lia.
  eapply (IH _ (v_with_phys p1 v)) in H as (p' & Em' & Hrem & (ev & Hfr) & HT & Hu & Hflat); cbn; auto; try (unfold n; lia).
  2: { eapply phys_wf_same; [..|eapply phys_wf_fmem; [exact Hwf|exact HL]]; done. }
  exists p'. split_and!; [done|lia|unfold n in *; lia|by exists ev| | |].
  - replace (rem - rem') with (n + (rem - n - rem')) by lia. apply HT1; [lia|exact HT].
  - intros Hw. rewrite Hu by (cbn; auto with words). cbn [flexible_usage with_usage with_fmem emit with_vmas].
    change (u64 (wadd (flexible_usage s) n + (rem - n - rem')))
      with (wadd (wadd (flexible_usage s) n) (rem - n - rem')). rewrite wadd_wadd. f_equal. lia.
  - intros Hf. apply Hflat. cbn. eapply retagged_flat; [by right|exact HR0|done].
Qed.

(** ** The pool loop *)

Definition dmem_frame (s s' : MemoryManager) : Prop :=
  exists ev, s' = mkMM (impl s) (dmem_map s') (fmem_map s) (vma_map s') (mapping_generation s)
    (total_direct_size s) (total_flexible_size s) (flexible_usage s) (pool_budget s) (sdk_version s)
    (prt_areas s) ev.

(** [current_addr] may wrap around [mapped_addr]; the offset does not. *)
Lemma wsub_offset m off : 0 <= off < W64 -> wsub (u64 (m + off)) m = off.
Proof.
  intros. unfold wsub, u64. rewrite Zminus_mod_idemp_l. replace (m + off - m) with off by lia.
  by apply Z.mod_small.
Qed.

Lemma wadd_offset m off n : wadd (u64 (m + off)) n = u64 (m + (off + n)).
Proof. apply wadd_wadd. Qed.

Lemma commit_loop_inv fuel l h v r handle mapped off rem mtype s rem' s' :
  phys_wf s -> vma_map s = l ++ (h, v) :: r -> below h l -> tiled 0 (v_phys v) off ->
  0 <= off -> 0 <= rem -> off + rem < W64 ->
  commit_loop fuel handle h mapped (u64 (mapped + off)) rem mtype s = Done (rem', s') ->
  exists p', vma_map s' = l ++ (h, v_with_phys p' v) :: r /\ 0 <= rem' <= rem /\ dmem_frame s s' /\
    taken PMT.Pooled PMT.Committed off (rem - rem') (v_phys v) p' (dmem_map s) (dmem_map s').
Proof.
  revert handle v off rem s; induction fuel as [|fuel IH];
    intros handle v off rem s Hwf Em Hb Ht Ho Hr Hlt H; cbn in H.
  all: assert (forall rem0 s0, Done (rem, s) = Done (rem0, s0) ->
    exists p', vma_map s0 = l ++ (h, v_with_phys p' v) :: r /\ 0 <= rem0 <= rem /\ dmem_frame s s0 /\
    taken PMT.Pooled PMT.Committed off (rem - rem0) (v_phys v) p' (dmem_map s) (dmem_map s0)) as Hnil.
  1,3: intros rem0 s0 [= <- <-]; exists (v_phys v); split_and!; auto; try lia;
    [by destruct v | by exists (events s); destruct s | rewrite Z.sub_diag; apply taken_refl; auto; apply Hwf].
  1,2: destruct handle as [k|]; [|by apply Hnil]; destruct (Z.ltb_spec 0 rem) as [Hnz|]; cbn [negb] in H;
    [|by apply Hnil].
  1: done.
  clear Hnil. apply obind_Done in H as (a & Ea & H). apply of_option_Done in Ea.
  destruct (lookup_area _ _ _ (pw_dmem _ Hwf) Ea) as (? & ? & ? & ? & _).
  destruct (bool_decide (p_dma a = PMT.Pooled)) eqn:Ed; cbn [negb] in H; [|by eapply IH].
  set (n := Z.min rem (p_size a)) in H.
  assert (word n) as Hn by (unfold word, n; lia). run_inv. bool_prop. rewrite wsub_offset in E1 by lia.
  destruct (loop_step PMT.Pooled PMT.Committed _ _ l h v r off n _ k a _ _ _ _ _ s _ ltac:(done)
    (fun_both mtype PMT.Committed) (fun _ => eq_refl) (pw_dmem _ Hwf) Ea Ed Hn Em Hb Ht ltac:(lia) E E0 E1 E2)
    as (p1 & -> & Ht1 & HL & _ & HT1).
  rewrite wadd_offset, (wsub_small rem) in H by (unfold n; word_lia).
  eapply (IH _ (v_with_phys p1 v)) in H as (p' & Em' & Hrem & (ev & Hfr) & HT); cbn; auto; try (unfold n; lia).
  2: { eapply phys_wf_same; [..|eapply phys_wf_dmem; [exact Hwf|exact HL]]; done. }
  exists p'. split_and!; [done|lia|unfold n in *; lia|by exists ev|].
  replace (rem - rem') with (n + (rem - n - rem')) by lia. apply HT1; [lia|exact HT].
Qed.

(** ** The direct loop *)

Definition mapped_attr : Z * PMT.t -> Z * PMT.t := fun '(t, _) => (t, PMT.Mapped).

(** What backing [off, off + n) with the physical range at [pa + off] does. *)
Record direct_backed (pa off n : Z) (p p' m m' : PhysMap) : Prop := {
  db_like : phys_like m m';
  db_tiled : tiled 0 p' (off + n);
  db_old : forall x, x < off -> phys_at p' x = phys_at p x;
  db_new : forall x, off <= x < off + n -> exists t d, view m (pa + x) = Some (t, d) /\
    phys_at p' x = Some (mkBacking (pa + x) t PMT.Mapped);
  db_view : forall y, view m' y = if in_range (pa + off) n y then mapped_attr <$> view m y else view m y;
}.

Lemma direct_refl pa off p m : wf_from 0 m -> tiled 0 p off -> direct_backed pa off 0 p p m m.
Proof.
  intros ? ?. split; try done; try lia; [by rewrite Z.add_0_r|].
  intros y. by rewrite (proj2 (in_range_false _ _ _)) by lia.
Qed.

Lemma direct_step pa off n n2 p p1 p2 m m1 m2 a na :
  retagged 0 m (pa + off) n mapped_attr a m1 -> p_base na = pa + off -> p_size na = n -> 0 <= n2 ->
  (p_mtype na, p_dma na) = mapped_attr (p_mtype a, p_dma a) ->
  (forall x, phys_at p1 x = if x <? off then phys_at p x else phys_at [(off, na)] x) ->
  direct_backed pa (off + n) n2 p1 p2 m1 m2 ->
  direct_backed pa off (n + n2) p p2 m m2.
Proof.
  intros HR Hb Hs Hn2 Hg Hp1 HD. pose proof (rt_in _ _ _ _ _ _ _ HR) as (? & ? & ?).
  cbn in Hg. injection Hg as Hmt Hdm.
  split.
  - eapply phys_like_trans; [eapply retagged_like, HR|apply HD].
  - rewrite Z.add_assoc. apply HD.
  - intros x Hx. rewrite (db_old _ _ _ _ _ _ _ HD), Hp1 by lia. destruct (Z.ltb_spec x off); [done|lia].
  - intros x Hx. destruct (Z.lt_ge_cases x (off + n)).
    + exists (p_mtype a), (p_dma a). rewrite (rt_old _ _ _ _ _ _ _ HR) by lia. split; [done|].
      rewrite (db_old _ _ _ _ _ _ _ HD), Hp1 by lia. destruct (Z.ltb_spec x off); [lia|]. cbn.
      rewrite Hs, Hb, Hmt, Hdm. split_cmp; try lia. do 2 f_equal. lia.
    + destruct (db_new _ _ _ _ _ _ _ HD x ltac:(lia)) as (t & d & Hv & ?).
      rewrite (rt_view _ _ _ _ _ _ _ HR), (proj2 (in_range_false _ _ _)) in Hv by lia. eauto.
  - intros y. rewrite (db_view _ _ _ _ _ _ _ HD), (rt_view _ _ _ _ _ _ _ HR).
    destruct (in_range (pa + off) n y) eqn:E1.
    + apply in_range_true in E1. rewrite (proj2 (in_range_false (pa + (off + n)) n2 y)) by lia.
      rewrite (proj2 (in_range_true (pa + off) (n + n2) y)) by lia.
      rewrite (rt_old _ _ _ _ _ _ _ HR) by lia. done.
    + apply in_range_false in E1. destruct (in_range (pa + (off + n)) n2 y) eqn:E2.
      * apply in_range_true in E2. by rewrite (proj2 (in_range_true (pa + off) (n + n2) y)) by lia.
      * apply in_range_false in E2. by rewrite (proj2 (in_range_false (pa + off) (n + n2) y)) by lia.
Qed.

Lemma map_direct_inv fuel l h v r pa cur rem s rem' s' :
  phys_wf s -> vma_map s = l ++ (h, v) :: r -> below h l -> tiled 0 (v_phys v) (cur - pa) ->
  0 <= pa <= cur -> cur < W64 -> 0 <= rem -> cur - pa + rem < W64 ->
  map_direct fuel h pa cur rem s = Done (rem', s') ->
  rem' = 0 /\ exists p', vma_map s' = l ++ (h, v_with_phys p' v) :: r /\ dmem_frame s s' /\
    direct_backed pa (cur - pa) rem (v_phys v) p' (dmem_map s) (dmem_map s').
Proof.
  revert v cur rem s; induction fuel as [|fuel IH]; intros v cur rem s Hwf Em Hb Ht Hp Hc Hr Hlt H; cbn in H.
  all: apply obind_Done in H as ([k a] & Ek & H); unfold FindArea, mle in Ek; apply of_option_Done in Ek;
    destruct (mfind cur (dmem_map s)) as [sfx|] eqn:Ef; [|done];
    destruct (mfind_split _ _ _ Ef) as (k0 & a0 & l0 & r0 & -> & Edm & Hk & _); injection Ek as -> ->;
    destruct (Z.ltb_spec 0 rem) as [Hpos|]; cbn [negb] in H;
    [|replace rem with 0 in * by lia; injection H as <- <-; split; [done|]; exists (v_phys v);
      split_and!; [by destruct v|by exists (events s); destruct s|apply direct_refl; [apply Hwf|done]]].
  { done. }
  pose proof (pw_dmem _ Hwf) as Hd. rewrite Edm in Hd.
  pose proof (wf_mid _ _ _ _ _ Hd) as (_ & _ & Hkb & _ & Hke & Hk0 & _). cbn in Hkb, Hke, Hk0.
  assert (word cur) as Hwc by (unfold word; lia).
  assert (Z.max cur (p_base a) = cur) as Ecur by lia. rewrite Ecur in H.
  rewrite (wsub_small cur pa) in H by lia.
  set (n := Z.min _ rem) in H. assert (word n) as Hn by (unfold n; apply word_min; [auto with words|unfold word; lia]).
  run_inv.
  destruct (take_inv 0 _ _ _ _ _ _ _ _ _ (pw_dmem _ Hwf) Hwc Hn (fun_dma PMT.Mapped) E E2)
    as (a2 & na & HR & -> & Hna & Hb2 & Hs2 & Hg).
  rewrite Hna in E0. injection E0 as <-.
  pose proof (rt_in _ _ _ _ _ _ _ HR) as (? & ? & ?).
  assert (n <= rem) by (unfold n; lia).
  assert (cur + n < W64).
  { destruct (CarvePhysArea_inv 0 (dmem_map s) cur n cur o) as (l3 & k3 & a3 & r3 & E3 & _ & _ & ? & ? & _);
      [apply Hwf|unfold word; lia|done|done|]. pose proof (pw_dmem _ Hwf) as Hd'. rewrite E3 in Hd'.
    apply wf_mid in Hd' as (_ & _ & _ & _ & Hlt' & _). cbn in Hlt'. lia. }
  destruct (add_backing_ok l h v r (cur - pa) na s) as (p1 & E1' & Ht1 & Hp1); auto; try lia.
  rewrite E1' in E1. injection E1 as <-.
  rewrite (wadd_small cur), (wsub_small rem) in H by lia.
  replace (cur - pa + p_size na) with (cur + n - pa) in Ht1 by lia.
  eapply (IH (v_with_phys p1 v)) in H as (-> & p' & Em' & (ev & Hfr) & HD); cbn; auto; try lia.
  2: { eapply phys_wf_same; [..|eapply phys_wf_dmem; [exact Hwf|eapply retagged_like, HR]]; done. }
  split; [done|]. exists p'. split_and!; [done|by exists ev|].
  replace rem with (n + (rem - n)) by lia. replace (cur + n - pa) with (cur - pa + n) in HD by lia.
  eapply direct_step; [..|exact HD]; eauto; try lia.
  by replace (pa + (cur - pa)) with cur by lia.
Qed.
