(* ===== verification/Release.v ===== *)
(** * Release: giving back the physical memory behind part of a mapping

    [UnmapBytesFromEntry] and [PoolDecommit] walk the physical areas of a
    mapping and retag them one by one.  [release_areas] is the loop they
    share; the lemmas say when it completes and what it does. *)

From S2P Require Import Prelude OrdMap MemTypes PhysFacts VmaFacts MemOps MemInv MemMap.

(** ** The loop *)

Fixpoint release_areas (d : PMT.t) (start_in_vma : Z) (areas : PhysMap) (size_to_free : Z) (m : PhysMap)
    : outcome (Z * PhysMap) :=
  match areas with
  | [] => Done (size_to_free, m)
  | (off, area) :: rest =>
      if negb (0 <? size_to_free) then Done (size_to_free, m)
      else
        let dma_offset := wsub (Z.max off start_in_vma) off in
        let phys_addr := wadd (p_base area) dma_offset in
        let size_in_dma := Z.min size_to_free (wsub (p_size area) dma_offset) in
        let! m := retag (p_with_dma d) m phys_addr size_in_dma in
        release_areas d start_in_vma rest (wsub size_to_free size_in_dma) m
  end.

Lemma repool_release start areas n m : repool start areas n m = release_areas PMT.Pooled start areas n m.
Proof.
  revert n m; induction areas as [|[off a] areas IH]; intros n m; cbn; [done|].
  destruct (negb _); [done|]. destruct (retag _ _ _ _); cbn; [apply IH|done].
Qed.

(** The pages of the range are in state [d], one physical page each. *)
Definition backed_range (d : PMT.t) (areas : PhysMap) (c n : Z) (m : PhysMap) : Prop :=
  (forall x, c <= x < c + n -> exists b t, phys_at areas x = Some b /\ view m (b_addr b) = Some (t, d)) /\
  (forall x x' b b', c <= x < c + n -> c <= x' < c + n -> phys_at areas x = Some b -> phys_at areas x' = Some b' ->
     b_addr b = b_addr b' -> x = x').

(** No physical area begins between two pages that follow each other both in
    the mapping and in physical memory. *)
Definition unbroken (areas : PhysMap) (c n : Z) (m : PhysMap) : Prop :=
  forall x b b', c <= x -> x + 1 < c + n -> phys_at areas x = Some b -> phys_at areas (x + 1) = Some b' ->
    b_addr b' = b_addr b + 1 -> ~ starts m (b_addr b').

(** What releasing the offsets [c, c + n) of a mapping does. *)
Record released (d d' : PMT.t) (areas : PhysMap) (c n : Z) (m m' : PhysMap) : Prop := {
  rl_like : phys_like m m';
  rl_new : forall x b, c <= x < c + n -> phys_at areas x = Some b ->
    exists t, view m (b_addr b) = Some (t, d) /\ view m' (b_addr b) = Some (t, d');
  rl_frame : forall y, (forall x b, c <= x < c + n -> phys_at areas x = Some b -> b_addr b <> y) ->
    view m' y = view m y;
  rl_bytes : d <> d' -> dma_bytes d m' = dma_bytes d m - n;
  rl_starts : forall y, starts m' y -> starts m y \/
    exists x b, c <= x < c + n /\ phys_at areas x = Some b /\ (y = b_addr b \/ y = b_addr b + 1);
  rl_flat : forall d0, d' = PMT.Free \/ d' = d0 -> flat d0 m -> flat d0 m';
}.

Lemma phys_at_cons k a areas x :
  phys_at ((k, a) :: areas) x =
    if in_range k (p_size a) x then Some (mkBacking (p_base a + (x - k)) (p_mtype a) (p_dma a)) else phys_at areas x.
Proof. done. Qed.

Lemma released_nil d d' areas c m : wf_from 0 m -> released d d' areas c 0 m m.
Proof. intros ?. split; [by split|intros; lia|done|lia|by left|done]. Qed.

(** One area of the loop: [n1] bytes from offset [c] of the area at [o]. *)
Section step.
Context (d d' : PMT.t) (o c n1 : Z) (a : PhysicalMemoryArea) (areas m m1 : PhysMap) (a0 : PhysicalMemoryArea).
Hypothesis (Hoc : o <= c) (Hn1 : 0 < n1) (Hin : c + n1 <= o + p_size a).
Hypothesis HR : retagged 0 m (p_base a + (c - o)) n1 (dma_attr d') a0 m1.

Lemma step_at x : c <= x < c + n1 ->
  phys_at ((o, a) :: areas) x = Some (mkBacking (p_base a + (x - o)) (p_mtype a) (p_dma a)).
Proof using Hoc Hin. intros Hx. by rewrite phys_at_cons, (proj2 (in_range_true _ _ _)) by lia. Qed.

Lemma step_skip x : o + p_size a <= x -> phys_at ((o, a) :: areas) x = phys_at areas x.
Proof using. intros Hx. by rewrite phys_at_cons, (proj2 (in_range_false _ _ _)) by lia. Qed.

Lemma step_state n : backed_range d ((o, a) :: areas) c n m -> n1 <= n -> p_dma a0 = d.
Proof using All.
  intros [Hb _] Hn. destruct (Hb c ltac:(lia)) as (b & t & Eb & Hv).
  rewrite step_at in Eb by lia. injection Eb as <-. cbn in Hv.
  pose proof (rt_in _ _ _ _ _ _ _ HR). rewrite (rt_old _ _ _ _ _ _ _ HR) in Hv by lia. congruence.
Qed.

(** Later offsets are backed elsewhere. *)
Lemma step_disjoint n x b :
  backed_range d ((o, a) :: areas) c n m -> n1 <= n -> c + n1 <= x < c + n -> phys_at ((o, a) :: areas) x = Some b ->
  in_range (p_base a + (c - o)) n1 (b_addr b) = false.
Proof using Hoc Hn1 Hin.
  intros [_ Hi] Hn Hx Eb. apply in_range_false. intros Hr.
  set (x' := c + (b_addr b - (p_base a + (c - o)))).
  assert (x = x'); [|unfold x' in *; lia].
  eapply Hi; [| |exact Eb|apply step_at|]; cbn; unfold x'; lia.
Qed.

Lemma step_rest n :
  backed_range d ((o, a) :: areas) c n m -> n1 = Z.min n (o + p_size a - c) ->
  backed_range d areas (o + p_size a) (n - n1) m1.
Proof using All.
  intros HF En. pose proof HF as [Hb Hi]. split.
  - intros x Hx. destruct (Hb x ltac:(lia)) as (b & t & Eb & Hv). exists b, t. rewrite <- step_skip by lia. split; [done|].
    rewrite (rt_view _ _ _ _ _ _ _ HR). by rewrite (step_disjoint n x b HF ltac:(lia) ltac:(lia) Eb).
  - intros x x' b b' Hx Hx' Eb Eb'. rewrite <- step_skip in Eb, Eb' by lia. apply (Hi x x'); auto; lia.
Qed.

Lemma step_unbroken n :
  backed_range d ((o, a) :: areas) c n m -> n1 = Z.min n (o + p_size a - c) ->
  unbroken ((o, a) :: areas) c n m -> unbroken areas (o + p_size a) (n - n1) m1.
Proof using All.
  intros HF En HU x b b' Hx Hx' Eb Eb' Enx Hs. rewrite <- step_skip in Eb, Eb' by lia.
  pose proof (step_disjoint n x b HF ltac:(lia) ltac:(lia) Eb) as Hd.
  pose proof (step_disjoint n (x + 1) b' HF ltac:(lia) ltac:(lia) Eb') as Hd'.
  apply in_range_false in Hd, Hd'. destruct (rt_starts _ _ _ _ _ _ _ HR _ Hs) as [[Hs' _]|Hend]; [|lia].
  by apply (HU x b b'); try lia.
Qed.

Lemma step_released n m2 :
  backed_range d ((o, a) :: areas) c n m -> n1 = Z.min n (o + p_size a - c) ->
  released d d' areas (o + p_size a) (n - n1) m1 m2 -> released d d' ((o, a) :: areas) c n m m2.
Proof using All.
  intros HF En HL. pose proof (rt_in _ _ _ _ _ _ _ HR) as Hia. split.
  - eapply phys_like_trans; [eapply retagged_like, HR|apply HL].
  - intros x b Hx Eb. destruct (Z.lt_ge_cases x (c + n1)).
    + rewrite step_at in Eb by lia. injection Eb as <-. cbn [b_addr]. exists (p_mtype a0).
      rewrite (rt_old _ _ _ _ _ _ _ HR), (step_state n HF) by lia. split; [done|]. rewrite (rl_frame _ _ _ _ _ _ _ HL).
      * rewrite (rt_view _ _ _ _ _ _ _ HR), (proj2 (in_range_true _ _ _)) by lia. done.
      * intros x' b' Hx' Eb' E. rewrite <- step_skip in Eb' by lia.
        pose proof (step_disjoint n x' b' HF ltac:(lia) ltac:(lia) Eb') as Hd. apply in_range_false in Hd. lia.
    + pose proof Eb as Eb0. rewrite step_skip in Eb by lia.
      destruct (rl_new _ _ _ _ _ _ _ HL x b ltac:(lia) Eb) as (t & Hv1 & Hv2). exists t. split; [|done].
      rewrite (rt_view _ _ _ _ _ _ _ HR) in Hv1. by rewrite (step_disjoint n x b HF ltac:(lia) ltac:(lia) Eb0) in Hv1.
  - intros y Hy. rewrite (rl_frame _ _ _ _ _ _ _ HL).
    + rewrite (rt_view _ _ _ _ _ _ _ HR). destruct (in_range _ _ y) eqn:Er; [|done]. apply in_range_true in Er.
      set (x' := c + (y - (p_base a + (c - o)))).
      exfalso. eapply (Hy x'); [|apply step_at|cbn]; unfold x'; lia.
    + intros x b Hx Eb. apply (Hy x); [lia|]. by rewrite step_skip by lia.
  - intros Hne. rewrite (rl_bytes _ _ _ _ _ _ _ HL Hne), (rt_bytes _ _ _ _ _ _ _ HR).
    rewrite (step_state n HF ltac:(lia)). cbn [dma_attr snd].
    rewrite bool_decide_eq_true_2, bool_decide_eq_false_2 by done. lia.
  - intros y Hs. destruct (rl_starts _ _ _ _ _ _ _ HL y Hs) as [Hs1|(x & b & Hx & Eb & Ey)].
    + destruct (rt_starts _ _ _ _ _ _ _ HR y Hs1) as [[Hs' _]|[->| ->]]; [by left| |]; right.
      * exists c. eexists. split; [lia|]. split; [apply step_at; lia|]. cbn. lia.
      * exists (c + n1 - 1). eexists. split; [lia|]. split; [apply step_at; lia|]. cbn. lia.
    + right. exists x, b. split; [lia|]. split; [by rewrite step_skip by lia|done].
  - intros d0 Hd0 Hf. apply (rl_flat _ _ _ _ _ _ _ HL); [done|]. by eapply retagged_flat.
Qed.

(** The piece lies inside one area. *)
Lemma step_one_area n :
  wf_from 0 m -> backed_range d ((o, a) :: areas) c n m -> unbroken ((o, a) :: areas) c n m -> n1 <= n ->
  exists l k a1 r, m = l ++ (k, a1) :: r /\ k <= p_base a + (c - o) /\ p_base a + (c - o) + n1 <= k + p_size a1.
Proof using Hoc Hn1 Hin.
  intros Hwf [Hb _] HU Hn. apply (one_area 0); [done|done| |].
  - intros y Hy. destruct (Hb (c + (y - (p_base a + (c - o)))) ltac:(lia)) as (b & t & Eb & Hv).
    rewrite step_at in Eb by lia. injection Eb as <-. cbn in Hv.
    replace (p_base a + (c + (y - (p_base a + (c - o))) - o)) with y in Hv by lia. congruence.
  - intros y Hy. set (x := c + (y - (p_base a + (c - o)))).
    intros Hs. eapply (HU (x - 1)); [unfold x; lia|unfold x; lia|apply step_at; unfold x; lia| | |].
    + replace (x - 1 + 1) with x by lia. apply step_at. unfold x; lia.
    + cbn. lia.
    + cbn. by replace (p_base a + (x - o)) with y by (unfold x; lia).
Qed.
End step.

Lemma tiled_head o k a areas hi : tiled o ((k, a) :: areas) hi ->
  k = o /\ 0 < p_size a /\ 0 <= p_base a /\ p_base a + p_size a < W64 /\ tiled (o + p_size a) areas hi.
Proof. done. Qed.

(** A run that completes gives back every page of the range. *)
Lemma release_areas_inv d d' start areas o hi n m n' m' :
  let c := Z.max o start in
  wf_from 0 m -> tiled o areas hi -> 0 <= o -> hi < W64 -> 0 <= n -> c + n <= hi ->
  match areas with (k, a) :: _ => start < k + p_size a | [] => True end ->
  backed_range d areas c n m -> release_areas d' start areas n m = Done (n', m') ->
  n' = 0 /\ released d d' areas c n m m'.
Proof.
  revert o n m; induction areas as [|[k a] areas IH]; intros o n m c Hwf Ht Ho Hhi Hn Hc Hst HF H; cbn in H.
  { cbn in Ht. injection H as <- <-. assert (n = 0) as -> by lia. split; [done|by apply released_nil]. }
  destruct (Z.ltb_spec 0 n) as [Hpos|]; cbn [negb] in H.
  2: { injection H as <- <-. assert (n = 0) as -> by lia. split; [done|by apply released_nil]. }
  apply tiled_head in Ht as (-> & ? & ? & ? & Ht). pose proof (tiled_le _ _ _ Ht).
  fold c in H. rewrite (wsub_small c), (wadd_small (p_base a)), (wsub_small (p_size a)) in H by (unfold c; word_lia).
  set (n1 := Z.min n _) in H. assert (n1 = Z.min n (o + p_size a - c)) as En by (unfold n1; lia).
  rewrite (wsub_small n) in H by (unfold n1, c in *; word_lia). apply obind_Done in H as (m1 & ER & H).
  assert (0 < n1) by (unfold c in *; lia). assert (c + n1 <= o + p_size a) by lia. assert (o <= c) by (unfold c; lia).
  assert (word (p_base a + (c - o))) as Hwa by (unfold word; lia). assert (word n1) as Hwn by (unfold word; lia).
  destruct (retag_inv 0 _ _ _ _ _ _ Hwf Hwa Hwn (fun_dma d') ER) as (a0 & HR).
  apply (IH (o + p_size a)) in H as (-> & HL); auto; try lia.
  - split; [done|]. replace (Z.max (o + p_size a) start) with (o + p_size a) in HL by lia.
    eapply (step_released d d' o c n1 a areas m m1 a0); eauto.
  - apply HR.
  - destruct areas as [|[k2 a2] areas]; [done|]. apply tiled_head in Ht as (-> & ? & _). lia.
  - replace (Z.max (o + p_size a) start) with (o + p_size a) by lia. eapply (step_rest d d' o c n1 a areas m m1 a0); eauto.
Qed.

(** When no area begins inside the pieces the run completes. *)
Lemma release_areas_ok d d' start areas o hi n m :
  let c := Z.max o start in
  wf_from 0 m -> tiled o areas hi -> 0 <= o -> hi < W64 -> 0 <= n -> c + n <= hi ->
  match areas with (k, a) :: _ => start < k + p_size a | [] => True end ->
  backed_range d areas c n m -> unbroken areas c n m ->
  exists m', release_areas d' start areas n m = Done (0, m').
Proof.
  revert o n m; induction areas as [|[k a] areas IH]; intros o n m c Hwf Ht Ho Hhi Hn Hc Hst HF HU; cbn.
  { cbn in Ht. assert (n = 0) as -> by lia. by eexists. }
  destruct (Z.ltb_spec 0 n) as [Hpos|]; cbn [negb]; [|assert (n = 0) as -> by lia; by eexists].
  apply tiled_head in Ht as (-> & ? & ? & ? & Ht). pose proof (tiled_le _ _ _ Ht).
  fold c. rewrite (wsub_small c), (wadd_small (p_base a)), (wsub_small (p_size a)) by (unfold c; word_lia).
  set (n1 := Z.min n _). assert (n1 = Z.min n (o + p_size a - c)) as En by (unfold n1; lia).
  rewrite (wsub_small n) by (unfold n1, c in *; word_lia).
  assert (0 < n1) by (unfold c in *; lia). assert (c + n1 <= o + p_size a) by lia. assert (o <= c) by (unfold c; lia).
  assert (word (p_base a + (c - o))) as Hwa by (unfold word; lia). assert (word n1) as Hwn by (unfold word; lia).
  destruct (step_one_area d o c n1 a areas m ltac:(done) ltac:(done) ltac:(done) n Hwf HF HU ltac:(lia))
    as (l & k1 & a1 & r & -> & Hk1 & He1).
  destruct (retag_ok 0 (p_with_dma d') (dma_attr d') l k1 a1 r _ n1 Hwf Hwa Hwn (fun_dma d')) as (m1 & -> & HR); auto.
  cbn [obind]. apply (IH (o + p_size a)); auto; try lia.
  - apply HR.
  - destruct areas as [|[k2 a2] areas]; [done|]. apply tiled_head in Ht as (-> & ? & _). lia.
  - replace (Z.max (o + p_size a) start) with (o + p_size a) by lia. eapply (step_rest d d' o c n1 a areas _ m1 a1); eauto.
  - replace (Z.max (o + p_size a) start) with (o + p_size a) by lia. eapply (step_unbroken d d' o c n1 a areas _ m1 a1); eauto.
Qed.

Lemma tiled_above o p hi x : tiled o p hi -> x < o -> above x p.
Proof.
  revert o; induction p as [|[k a] p IH]; intros o; cbn; [by constructor|].
  intros (-> & ? & ? & ? & H) ?. apply above_cons. split; [lia|]. eapply IH; [exact H|lia].
Qed.

(** The physical area under an offset of a tiled mapping. *)
Lemma mfind_tiled o p hi x :
  tiled o p hi -> o <= x < hi ->
  exists k a r, mfind x p = Some ((k, a) :: r) /\ k <= x < k + p_size a /\ o <= k /\ tiled k ((k, a) :: r) hi /\
    forall y, k <= y -> phys_at p y = phys_at ((k, a) :: r) y.
Proof.
  revert o; induction p as [|[k a] p IH]; intros o Ht Hx; [cbn in Ht; lia|].
  pose proof Ht as Ht0. cbn in Ht. destruct Ht as (-> & ? & ? & ? & Ht). cbn [mfind].
  rewrite (proj2 (Z.leb_le o x)) by lia. destruct (Z.lt_ge_cases x (o + p_size a)).
  - assert (mfind x p = None) as ->.
    { apply mfind_above. eapply tiled_above; [exact Ht|lia]. }
    exists o, a, p. split_and!; auto; lia.
  - destruct (IH (o + p_size a) Ht ltac:(lia)) as (k1 & a1 & r & -> & ? & ? & ? & Hat).
    exists k1, a1, r. split_and!; auto; try lia. intros y Hy. rewrite <- Hat by done.
    rewrite phys_at_cons. by rewrite (proj2 (in_range_false _ _ _)) by lia.
Qed.

Lemma tiled_at o p hi x : tiled o p hi -> o <= x < hi -> exists b, phys_at p x = Some b.
Proof.
  intros Ht Hx. destruct (mfind_tiled _ _ _ _ Ht Hx) as (k & a & r & _ & ? & _ & _ & Hat).
  rewrite Hat, phys_at_cons, (proj2 (in_range_true _ _ _)) by lia. eauto.
Qed.

(** Releasing [n] bytes from offset [start] of a whole mapping. *)
Lemma release_entry d d' areas hi start n m :
  wf_from 0 m -> tiled 0 areas hi -> hi < W64 -> 0 <= start -> 0 < n -> start + n <= hi ->
  backed_range d areas start n m -> unbroken areas start n m ->
  exists from m', mfind start areas = Some from /\ release_areas d' start from n m = Done (0, m') /\
    released d d' areas start n m m'.
Proof.
  intros Hwf Ht Hhi Hs Hn Hle [HB HI] HU.
  destruct (mfind_tiled _ _ _ start Ht ltac:(lia)) as (k & a & r & Ef & Hk & Hk0 & Ht' & Hat).
  assert (Z.max k start = start) as Emax by lia.
  assert (backed_range d ((k, a) :: r) (Z.max k start) n m) as HB'.
  { rewrite Emax. split.
    - intros x Hx. rewrite <- Hat by lia. by apply HB.
    - intros x x' b b' Hx Hx'. rewrite <- !Hat by lia. by apply HI. }
  assert (unbroken ((k, a) :: r) (Z.max k start) n m) as HU'.
  { rewrite Emax. intros x b b' Hx Hx'. rewrite <- !Hat by lia. by apply HU. }
  destruct (release_areas_ok d d' start ((k, a) :: r) k hi n m) as [m' E]; auto; try lia.
  exists ((k, a) :: r), m'. split; [done|]. split; [done|].
  apply (release_areas_inv d d' start ((k, a) :: r) k hi n m) in E as [_ HL]; auto; try lia.
  rewrite Emax in HL. destruct HL as [? Hnew Hfr ? Hst ?]. split; auto.
  - intros x b Hx Eb. apply (Hnew x); [done|]. by rewrite <- Hat by lia.
  - intros y Hy. apply Hfr. intros x b Hx Eb. apply (Hy x); [done|]. by rewrite Hat by lia.
  - intros y Hy. destruct (Hst y Hy) as [?|(x & b & Hx & Eb & E)]; [by left|]. right. exists x, b.
    split; [done|]. split; [by rewrite Hat by lia|done].
Qed.

(** ** The loop of [UnmapBytesFromEntry] *)

(** What the loop does to the manager, given what it does to the map. *)
Lemma unmap_direct_release start areas n s :
  unmap_phys VMAType.Direct start areas n s =
    (let! '(n', m') := release_areas PMT.Allocated start areas n (dmem_map s) in Done (n', with_dmem m' s)).
Proof.
  revert n s; induction areas as [|[off a] areas IH]; intros n s; cbn; [by destruct s|].
  destruct (negb _); [by destruct s|]. destruct (retag _ _ _ _) as [m1|]; cbn; [|done]. by rewrite IH.
Qed.

Lemma unmap_flexible_release start areas n s n' m' :
  release_areas PMT.Free start areas n (fmem_map s) = Done (n', m') ->
  exists u ev, unmap_phys VMAType.Flexible start areas n s = Done (n', with_usage u (with_fmem m' (mkMM (impl s)
    (dmem_map s) (fmem_map s) (vma_map s) (mapping_generation s) (total_direct_size s) (total_flexible_size s)
    (flexible_usage s) (pool_budget s) (sdk_version s) (prt_areas s) ev))).
Proof.
  revert n s; induction areas as [|[off a] areas IH]; intros n s H; cbn in H |- *.
  { injection H as <- <-. exists (flexible_usage s), (events s). by destruct s. }
  destruct (negb _); [injection H as <- <-; exists (flexible_usage s), (events s); by destruct s|].
  apply obind_Done in H as (m1 & ER & H). rewrite ER. cbn [obind].
  match goal with |- context [unmap_phys _ _ _ _ ?s1] => set (s2 := s1) end.
  destruct (IH _ s2 H) as (u & ev & E). exists u, ev. exact E.
Qed.
