(* ===== verification/MemEffects.v ===== *)
(** * MemEffects: what the operations do to the guest's view of memory

    For each operation on [vma_map]: the attributes it gives to the addresses
    of its range, and that it touches no other address; mapping and unmapping
    first, then file mappings and memory pools. *)

From S2P Require Import Prelude OrdMap MemTypes PhysFacts VmaFacts MemOps MemInv MemMap.

(** Every address of the range belongs to some area. *)
Definition covered (m : VMAMap) (addr size : Z) : Prop :=
  forall x, addr <= x < addr + size -> view m x <> None.

(** [m'] is [m] with [g] applied to the pages of the range. *)
Definition updated (m : VMAMap) (addr size : Z) (g : page -> page) (m' : VMAMap) : Prop :=
  forall x, view m' x = if in_range addr size x then g <$> view m x else view m x.

Lemma updated_dom m addr size g m' x : updated m addr size g m' -> view m' x = None <-> view m x = None.
Proof. intros H. rewrite H. destruct (in_range _ _ _); [|done]. by destruct (view m x). Qed.

Lemma updated_nil m addr g : updated m addr 0 g m.
Proof. intros x. by rewrite (proj2 (in_range_false _ _ _)) by lia. Qed.

Lemma updated_app m m1 m2 addr n n2 g :
  0 <= n -> 0 <= n2 -> updated m addr n g m1 -> updated m1 (addr + n) n2 g m2 -> updated m addr (n + n2) g m2.
Proof.
  intros ? ? H1 H2 x. rewrite H2. pose proof (H1 x) as Hx.
  destruct (in_range addr n x) eqn:E1, (in_range (addr + n) n2 x) eqn:E2, (in_range addr (n + n2) x) eqn:E3;
    rewrite ?in_range_true, ?in_range_false in *; try lia; by rewrite Hx.
Qed.

Lemma covered_updated m m' addr size a n g : updated m a n g m' -> covered m addr size -> covered m' addr size.
Proof. intros Hu Hc x Hx. rewrite updated_dom by done. by apply Hc. Qed.

Lemma covered_tail m addr size n : 0 <= n -> covered m addr size -> covered m (addr + n) (size - n).
Proof. intros ? H x Hx. apply H. lia. Qed.

(** The area at a covered address. *)
Lemma FindVMA_covered m addr k v :
  wf_from 0 m -> view m addr <> None -> FindVMA m addr = Done (k, v) ->
  exists l r, m = l ++ (k, v) :: r /\ k = v_base v /\ k <= addr < k + v_size v /\ k + v_size v < W64 /\
    0 <= k /\ (forall x, k <= x < k + v_size v -> view m x = Some (r_attr v x)) /\
    mfind addr m = Some ((k, v) :: r).
Proof.
  intros Hwf Hv Hf. destruct (find_covered 0 m addr Hwf Hv) as (l & k' & v' & r & -> & E & Hx & _).
  unfold FindVMA, mle in Hf. rewrite E in Hf. injection Hf as -> ->. cbn in Hx.
  pose proof (wf_mid _ _ _ _ _ Hwf) as (_ & _ & ? & _ & ? & _ & _ & _ & _ & ?). cbn in *.
  exists l, r. split_and!; auto; try lia. intros x Hx2. by rewrite (view_mid 0) by (cbn; auto; lia).
Qed.

Lemma FindVMA_total m addr : wf_from 0 m -> view m addr <> None -> exists k v, FindVMA m addr = Done (k, v).
Proof.
  intros Hwf Hv. destruct (find_covered 0 m addr Hwf Hv) as (l & k & v & r & -> & E & _).
  exists k, v. unfold FindVMA, mle. by rewrite E.
Qed.

(** The carve-overwrite-merge pattern, as an effect. *)
Lemma update_effect f g m addr size h m1 k2 m2 :
  wf_from 0 m -> word addr -> word size -> vma_fun f g ->
  CarveVMA m addr size = Done (h, m1) -> vma_MergeAdjacent (malter f h m1) h = Done (k2, m2) ->
  updated m addr size g m2 /\ wf_from 0 m2 /\ 0 < size /\ covered m addr size.
Proof.
  intros Hwf ? ? Hf H1 H2. destruct (vma_update_inv 0 f g _ _ _ _ _ _ _ Hwf H H0 Hf H1 H2) as (v & HV).
  pose proof (vu_in _ _ _ _ _ _ _ HV) as (? & ? & ?). split_and!.
  { exact (vu_view _ _ _ _ _ _ _ HV). } { apply HV. } { lia. }
  intros x Hx. rewrite (vu_old _ _ _ _ _ _ _ HV) by lia. done.
Qed.

(** ** Unmapping *)

Definition page_unmap (g : page) : page :=
  match g_type g with
  | VMAType.Free | VMAType.Pooled => g
  | _ => page_free g
  end.

Lemma UnmapBytes_effect addr k v size s n s' :
  mm_wf s -> word addr -> word size -> FindVMA (vma_map s) addr = Done (k, v) ->
  UnmapBytesFromEntry addr v size s = Done (n, s') ->
  (forall x, view (vma_map s') x = None <-> view (vma_map s) x = None) /\
  (view (vma_map s) addr <> None ->
   n = Z.min (k + v_size v - addr) size /\ updated (vma_map s) addr n page_unmap (vma_map s')).
Proof.
  intros Hwf Ha Hs Hf H. unfold UnmapBytesFromEntry in H.
  set (n0 := Z.min _ size) in H. assert (word n0) as Hn0 by (subst n0; auto with words).
  assert (view (vma_map s) addr <> None -> n0 = Z.min (k + v_size v - addr) size /\
    forall x, addr <= x < addr + n0 -> view (vma_map s) x = Some (r_attr v x)) as Hcov.
  { intros Hv. destruct (FindVMA_covered _ _ _ _ (mw_vmas _ Hwf) Hv Hf) as (l & r & _ & -> & ? & ? & ? & Hat & _).
    assert (n0 = Z.min (v_base v + v_size v - addr) size) as ->.
    { unfold n0. rewrite (wsub_small addr), wsub_small by word_lia. lia. }
    split; [done|]. intros x Hx. apply Hat. lia. }
  destruct (_ || _)%bool eqn:Et.
  { run_inv. split; [done|]. intros Hv. destruct (Hcov Hv) as [? Hat]. split; [done|].
    intros x. destruct (in_range _ _ _) eqn:Er; [|done]. apply in_range_true in Er. rewrite Hat by done.
    cbn. unfold page_unmap. cbn. bool_prop. destruct Et as [Et|Et]; bool_prop; by rewrite Et. }
  apply obind_Done in H as (s1 & E & H).
  assert (mm_wf s1 /\ vma_map s1 = vma_map s) as [Hwf1 Hv1].
  { destruct (v_phys v); run_inv; [done|]. by eapply unmap_phys_wf. }
  clear E. run_inv.
  destruct (update_effect _ _ _ _ _ _ _ _ _ (mw_vmas _ Hwf1) Ha Hn0 fun_free E E0) as (Hu & _ & ? & _).
  rewrite Hv1 in Hu. assert (updated (vma_map s) addr n0 page_free o0) as Hu2 by exact Hu.
  assert (vma_map (if negb (bool_decide (v_type v = VMAType.Reserved)) &&
     negb (bool_decide (v_type v = VMAType.PoolReserved)) then emit (EvUnmap addr n0) (with_vmas o0 s1)
     else with_vmas o0 s1) = o0) as -> by by destruct (_ && _)%bool.
  split; [intros x; by eapply updated_dom|]. intros Hv. destruct (Hcov Hv) as [? Hat]. split; [done|].
  intros x. rewrite Hu2. destruct (in_range _ _ _) eqn:Er; [|done]. apply in_range_true in Er.
  rewrite Hat by done. cbn. bool_prop. unfold page_unmap. cbn. by destruct (v_type v).
Qed.

Lemma UnmapBytes_le addr v size s n s' :
  word size -> UnmapBytesFromEntry addr v size s = Done (n, s') -> n <= size.
Proof.
  intros Hs H. unfold UnmapBytesFromEntry in H. destruct (_ || _)%bool; [run_inv; lia|].
  apply obind_Done in H as (s1 & _ & H). run_inv. lia.
Qed.

Lemma clear_loop_effect fuel addr size k v s s' :
  mm_wf s -> word addr -> word size -> FindVMA (vma_map s) addr = Done (k, v) ->
  clear_loop fuel addr size v s = Done s' ->
  mm_wf s' /\ (forall x, view (vma_map s') x = None <-> view (vma_map s) x = None) /\
  (covered (vma_map s) addr size -> addr + size < W64 ->
   updated (vma_map s) addr size page_unmap (vma_map s')).
Proof.
  revert addr size k v s; induction fuel as [|fuel IH]; intros addr size k v s Hwf Ha Hs Hf H; cbn in H.
  all: destruct (Z.ltb_spec 0 size) as [Hpos|]; cbn [negb] in H;
    [|unfold word in Hs; replace size with 0 by lia; run_inv; split_and!; auto using updated_nil].
  { done. }
  apply obind_Done in H as ([n s1] & E & H). apply obind_Done in H as ([k1 v1] & Ef & H).
  destruct (UnmapBytesFromEntry_wf _ _ _ _ _ _ Hwf Ha Hs E) as [Hwf1 Hn].
  pose proof (UnmapBytes_le _ _ _ _ _ _ Hs E) as Hle.
  destruct (UnmapBytes_effect _ _ _ _ _ _ _ Hwf Ha Hs Hf E) as [Hdom Hup].
  eapply IH in H as (Hwf2 & Hdom2 & Hup2); eauto with words.
  split_and!; [done|intros x; by rewrite Hdom2|].
  intros Hc Hlt. unfold word in *.
  destruct (Hup (Hc addr ltac:(lia))) as [En Hu]. rewrite wadd_small, wsub_small in Hup2 by word_lia.
  replace size with (n + (size - n)) by lia. eapply updated_app; [lia|lia|exact Hu|].
  apply Hup2; [|lia]. eapply covered_updated; [exact Hu|]. apply covered_tail; [lia|done].
Qed.

Lemma unmap_loop_effect fuel addr size did s s' :
  mm_wf s -> 0 <= addr -> 0 <= did < size -> addr + size < W64 ->
  covered (vma_map s) (addr + did) (size - did) -> unmap_loop fuel addr size did s = Done s' ->
  updated (vma_map s) (addr + did) (size - did) page_unmap (vma_map s').
Proof.
  revert did s; induction fuel as [|fuel IH]; intros did s Hwf Ha Hd Hlt Hc H; cbn in H; [done|].
  rewrite wadd_small, wsub_small in H by word_lia.
  apply obind_Done in H as ([k v] & Ef & H). apply obind_Done in H as ([n s1] & E & H).
  apply obind_Done in H as (u & Epos & H). apply oassert_Done in Epos. bool_prop.
  assert (word (addr + did)) as Hwa by (unfold word; lia).
  assert (word (size - did)) as Hws by (unfold word; lia).
  destruct (UnmapBytesFromEntry_wf _ _ _ _ _ _ Hwf Hwa Hws E) as [Hwf1 Hn].
  pose proof (UnmapBytes_le _ _ _ _ _ _ Hws E) as Hle.
  destruct (UnmapBytes_effect _ _ _ _ _ _ _ Hwf Hwa Hws Ef E) as [_ Hup].
  destruct (Hup (Hc (addr + did) ltac:(lia))) as [En Hu]. rewrite wadd_small in H by word_lia.
  destruct (Z.ltb_spec (did + n) size).
  - replace (size - did) with (n + (size - (did + n))) by lia.
    eapply updated_app; [lia|lia|exact Hu|]. rewrite <- Z.add_assoc. eapply IH; eauto; try lia.
    eapply covered_updated; [exact Hu|]. rewrite Z.add_assoc.
    replace (size - (did + n)) with (size - did - n) by lia. apply covered_tail; [lia|done].
  - injection H as <-. by replace (size - did) with n by lia.
Qed.

(** ** Range validation

    [IsValidMapping] decides that a range starting at a covered address is
    covered to its end. *)

Lemma validate_covered lo vmas addr size :
  wf_from lo vmas -> 0 <= lo -> 0 <= addr -> 0 <= size -> addr + size < W64 ->
  match vmas with [] => True | (k, v) :: _ => k <= addr < k + v_size v \/ size = 0 end ->
  validate_range vmas addr size = true <-> covered vmas addr size.
Proof.
  revert lo addr size; induction vmas as [|[k v] vmas IH];
    intros lo addr size Hwf Hlo Ha Hs Hlt Hin; cbn [validate_range].
  { split; [intros E x; bool_prop; lia|].
    intros Hc. apply Z.leb_le. destruct (Z.lt_ge_cases 0 size); [|done]. by destruct (Hc addr); [lia|]. }
  destruct (Z.ltb_spec 0 size) as [Hpos|]; cbn [negb].
  2: { replace size with 0 by lia. split; [intros _ x; lia|done]. }
  destruct Hin as [Hin|]; [|lia]. cbn in Hwf. destruct Hwf as (? & Hk & ? & ? & ? & Hwf).
  rewrite (wsub_small addr), (wsub_small (v_size v)) by word_lia.
  set (n := Z.min _ size). rewrite (wsub_small size), (wadd_small addr) by (unfold n; word_lia).
  assert (covered ((k, v) :: vmas) addr size <-> covered vmas (addr + n) (size - n)) as ->.
  { split; intros Hc x Hx.
    - specialize (Hc x ltac:(unfold n in *; lia)). cbn in Hc. unfold covers in Hc. cbn in Hc.
      destruct (_ && _)%bool eqn:E in Hc; [bool_prop; unfold n in *; lia|done].
    - cbn. unfold covers. cbn. destruct (_ && _)%bool eqn:E; [done|].
      apply Hc. apply andb_false_iff in E as [E|E]; bool_prop; unfold n in *; lia. }
  destruct vmas as [|[k2 v2] vmas]; [apply (IH (k + v_size v)); auto; unfold n; lia|].
  pose proof Hwf as Hwf'. cbn in Hwf'. destruct Hwf' as (? & ? & ? & _).
  destruct (Z.ltb_spec 0 (size - n)), (Z.eqb_spec (addr + n) (v_base v2)); cbn [andb negb].
  2: { split; [done|]. intros Hc. destruct (Hc (addr + n)); [lia|].
       apply (view_lt k2); [|unfold n in *; lia]. cbn in Hwf |- *. intuition lia. }
  all: apply (IH (k + v_size v)); auto; unfold n in *; cbn in *; lia.
Qed.

Lemma IsValidMapping_covered m addr size :
  wf_from 0 m -> 0 <= addr -> 0 <= size -> addr + size < W64 -> view m addr <> None ->
  exists b, IsValidMapping m addr size = Done b /\ (b = true <-> covered m addr size).
Proof.
  intros Hwf Ha Hs Hlt Hv.
  destruct (find_covered 0 m addr Hwf Hv) as (l & k & v & r & Em & Ef & Hx & _). cbn in Hx.
  pose proof Hwf as Hwf'. rewrite Em in Hwf'.
  pose proof (wf_mid _ _ _ _ _ Hwf') as (Hl & He & ? & ? & ? & ? & Hr & Hb & _ & ?). cbn in *.
  unfold IsValidMapping. destruct (exists_last_or_nil m) as [->|(m0 & [ek ev] & Em0)]; [by destruct l|].
  assert (last m = Some (ek, ev)) as -> by (rewrite Em0; apply last_snoc). cbn [of_option obind].
  assert (addr < wadd ek (v_size ev) /\ wadd ek (v_size ev) = ek + v_size ev) as [? Hwe].
  { rewrite Em0 in Hwf. pose proof (wf_mid _ _ _ _ _ Hwf) as (_ & _ & ? & ? & ? & _ & _ & _ & _ & ?). cbn in *.
    rewrite wadd_small by word_lia. split; [|done].
    destruct (Z.lt_ge_cases addr (ek + v_size ev)); [done|]. destruct Hv.
    rewrite Em0. apply (view_ge 0); [done|]. rewrite end_app. cbn. lia. }
  assert (exists k0 v0 m1, m = (k0, v0) :: m1 /\ k0 <= addr) as (k0 & v0 & m1 & Em1 & ?).
  { destruct l as [|[k0 v0] l]; rewrite Em; cbn; [eexists _, _, _; split; [done|lia]|].
    eexists _, _, _; split; [done|]. apply below_cons in Hb as [? _]. lia. }
  assert (head m = Some (k0, v0)) as -> by by rewrite Em1. cbn [of_option obind].
  rewrite (proj2 (Z.ltb_ge addr k0)), (proj2 (Z.leb_gt _ addr)) by lia. cbn [orb].
  destruct (Z.eqb_spec size 0) as [->|].
  { exists true. split; [done|]. split; [intros _ x; lia|done]. }
  rewrite Ef. cbn [of_option obind]. eexists. split; [done|].
  rewrite (validate_covered k) by (cbn; auto; intuition lia).
  unfold covered. rewrite Em. split; intros Hc x Hx'; specialize (Hc x Hx').
  - rewrite view_app, (view_ge 0 l); [done|done|lia].
  - by rewrite view_app, (view_ge 0 l) in Hc by (auto; lia).
Qed.

(** ** Creating an area *)

Definition new_vma (addr size prot flags : Z) (type : VMAType.t) (name : string) (fd : Z) : VirtualMemoryArea :=
  mkVMA addr size [] type (with_read prot) name fd (has flags MemoryMapFlags.NoCoalesce).

(** The map with the new area at [addr], still without backing; seen as a
    [Free] area it is well formed. *)
Record opened (t : VMAType.t) (m : VMAMap) (addr : Z) (v : VirtualMemoryArea) (l r m' : VMAMap) : Prop := {
  op_eq : m' = l ++ (addr, v) :: r;
  op_below : below addr l;
  op_base : v_base v = addr /\ 0 <= addr /\ 0 < v_size v /\ addr + v_size v < W64;
  op_wf : wf_from 0 (l ++ (addr, free_vma v) :: r);
  op_view : updated m addr (v_size v) page_free (l ++ (addr, free_vma v) :: r);
  op_free : forall x, addr <= x < addr + v_size v -> exists g, view m x = Some g /\ g_type g = t;
}.

(** Giving the opened area its backing. *)
Lemma opened_close t m addr v l r m' p :
  opened t m addr v l r m' -> vma_ok (v_with_phys p v) ->
  wf_from 0 (l ++ (addr, v_with_phys p v) :: r) /\
  forall x, view (l ++ (addr, v_with_phys p v) :: r) x =
    if in_range addr (v_size v) x then Some (r_attr (v_with_phys p v) x) else view m x.
Proof.
  intros [_ ? (? & ? & ? & ?) Hwf Hview _] Hok. split.
  - eapply wf_overwrite; [exact Hwf|done|done|done].
  - intros x. rewrite (view_overwrite 0 _ _ (free_vma v)) by (done || cbn; lia).
    cbn [r_size vma_area free_vma v_size]. rewrite Hview. unfold in_range. by destruct (_ && _)%bool.
Qed.

Lemma open_inv t m addr size h m1 f v0 k :
  wf_from 0 m -> word addr -> word size -> FindVMA m addr = Done (k, v0) -> v_type v0 = t ->
  CarveVMA m addr size = Done (h, m1) ->
  (forall w, v_base (f w) = v_base w /\ v_size (f w) = v_size w) ->
  h = addr /\ exists l w r, opened t m addr (f w) l r (malter f h m1) /\ v_size w = size /\ v_base w = addr.
Proof.
  intros Hwf Ha Hs Hf Ht HC Hfb.
  destruct (CarveVMA_inv 0 m addr size h m1 Hwf Ha Hs HC) as
    (l & k1 & v1 & r & -> & Ef & ? & Hk & Hle & -> & Hcv). split; [done|].
  unfold FindVMA, mle in Hf. rewrite Ef in Hf. injection Hf as -> ->.
  destruct (vcarved_overwrite 0 _ _ _ _ _ _ free_vma page_free Hwf fun_free Hcv) as
    (l1 & r1 & mid & E1 & Hw & _ & _ & Hv & Hsz & _).
  destruct Hcv as (l2 & r2 & mid2 & -> & _ & Hb2 & Hs2 & _ & HS).
  pose proof (sm_wf _ _ _ HS Hwf) as Hwf2.
  pose proof (wf_mid _ _ _ _ _ Hwf2) as (_ & _ & _ & _ & ? & _ & _ & Hbl2 & _ & ?).
  cbn in H0. destruct (Hfb mid2) as [Hfb1 Hfs1].
  assert (free_vma (f mid2) = mkVMA (v_base mid2) (v_size mid2) [] VMAType.Free MemoryProt.NoAccess EmptyString (v_fd (f mid2)) false)
    as Efree by (unfold free_vma; by rewrite Hfb1, Hfs1).
  assert (wf_from 0 (l2 ++ (addr, free_vma (f mid2)) :: r2)) as Hw3.
  { eapply wf_overwrite; [exact Hwf2|by rewrite Efree|by rewrite Efree|]. rewrite Efree. split; cbn; [lia|done]. }
  exists l2, mid2, r2. split_and!; [|done|done]. split.
  - by rewrite malter_mid.
  - done.
  - rewrite Hfb1, Hfs1. split_and!; lia.
  - done.
  - intros x. rewrite (view_overwrite 0 _ _ mid2) by (rewrite ?Efree; done).
    cbn [r_size vma_area]. rewrite Hs2. rewrite Hfs1, Hs2. unfold in_range.
    destruct (_ && _)%bool eqn:Er; [|by apply (sm_view _ _ _ HS)]. bool_prop.
    by rewrite (view_mid 0) by (cbn; auto; lia).
  - intros x Hx. rewrite (view_mid 0) by (cbn; auto; lia). cbn. eexists; split; [done|exact Ht].
Qed.

(** [CreateArea] first clears the range of a [Fixed] mapping. *)
Definition cleared (flags a size : Z) (s s1 : MemoryManager) : Prop :=
  if has flags MemoryMapFlags.Fixed then
    (exists k v, FindVMA (vma_map s) a = Done (k, v) /\
       clear_loop (S (length (vma_map s))) a size v s = Done s1) /\
    updated (vma_map s) a size page_unmap (vma_map s1)
  else s1 = s.

Lemma cleared_outside flags a size s s1 x :
  cleared flags a size s s1 -> in_range a size x = false -> view (vma_map s1) x = view (vma_map s) x.
Proof. unfold cleared. intros H Hr. destruct (has _ _); [|by rewrite H]. destruct H as [_ H]. by rewrite H, Hr. Qed.

Lemma CreateArea_inv addr size prot flags type name s h s' :
  mm_wf s -> word addr -> word size -> CreateArea addr size prot flags type name s = Done (h, s') ->
  h = addr /\ exists s1 m fd l r,
    mm_wf s1 /\ s' = with_vmas m s1 /\
    opened VMAType.Free (vma_map s1) addr (new_vma addr size prot flags type name fd) l r m /\
    cleared flags addr size s s1.
Proof.
  intros Hwf Ha Hs H. unfold CreateArea in H.
  apply obind_Done in H as ([k v] & Ef & H). apply obind_Done in H as (s1 & Ec & H).
  apply obind_Done in H as ([k1 v1] & Ef1 & H). apply obind_Done in H as (u & Efree & H).
  apply oassert_Done in Efree. unfold IsFree in Efree. bool_prop.
  apply obind_Done in H as ([h1 m1] & EC & H).
  assert (mm_wf s1 /\ (has flags MemoryMapFlags.Fixed = true ->
     covered (vma_map s1) addr size -> addr + size < W64 -> updated (vma_map s) addr size page_unmap (vma_map s1)))
    as [Hwf1 Hup].
  { destruct (has _ _); [|run_inv; done].
    destruct (clear_loop_effect _ _ _ _ _ _ _ Hwf Ha Hs Ef Ec) as (? & Hdom & Hu). split; [done|].
    intros _ Hc Hlt. apply Hu; [|done]. intros x Hx. rewrite <- Hdom. by apply Hc. }
  match type of H with context [malter ?f0 _ _] => set (f := f0) in * end. injection H as <- <-.
  destruct (open_inv _ _ _ _ _ _ f v1 k1 (mw_vmas _ Hwf1) Ha Hs Ef1 Efree EC ltac:(done)) as
    (-> & l & w & r & Hop & Hsz & Hb).
  split; [done|]. exists s1, (malter f addr m1), (v_fd w), l, r. split_and!; [done|done| |].
  - unfold new_vma. rewrite <- Hsz. rewrite <- Hb at 2. exact Hop.
  - pose proof (op_base _ _ _ _ _ _ _ Hop) as (_ & _ & _ & Hlt). cbn in Hlt. rewrite Hsz in Hlt.
    pose proof (op_free _ _ _ _ _ _ _ Hop) as Hfr. cbn in Hfr. rewrite Hsz in Hfr.
    unfold cleared. destruct (has _ _); [|by injection Ec]. split; [by exists k, v|]. apply Hup; [done| |done].
    intros x Hx. destruct (Hfr x Hx) as (g & -> & _). done.
Qed.

(** ** Mapping *)

(** What backs the new area, by type. *)
Definition backed_by (type : VMAType.t) (size pa : Z) (p' : PhysMap) (s s' : MemoryManager) : Prop :=
  match type with
  | VMAType.Flexible => flex_frame s s' /\
      taken PMT.Free PMT.Flexible 0 size [] p' (fmem_map s) (fmem_map s') /\
      (word (flexible_usage s) -> flexible_usage s' = u64 (flexible_usage s + size)) /\
      (flat PMT.Flexible (fmem_map s) -> flat PMT.Flexible (fmem_map s'))
  | VMAType.Direct => dmem_frame s s' /\ direct_backed pa 0 size [] p' (dmem_map s) (dmem_map s')
  | _ => s' = s /\ p' = []
  end.

Lemma backed_phys_wf type size pa p' s s' : backed_by type size pa p' s s' -> phys_wf s -> phys_wf s'.
Proof.
  intros H Hwf. destruct type; cbn in H; try (by destruct H as [-> _]).
  - destruct H as ((ev & ->) & HD). eapply phys_wf_same; [..|eapply phys_wf_dmem; [exact Hwf|apply HD]]; done.
  - destruct H as ((ev & ->) & HT & _). eapply phys_wf_same; [..|eapply phys_wf_fmem; [exact Hwf|apply HT]]; done.
Qed.

Lemma backed_vma_ok type size pa p' s s' v :
  backed_by type size pa p' s s' -> type <> VMAType.Pooled -> v_type v = type -> v_size v = size ->
  0 <= v_base v -> vma_ok (v_with_phys p' v).
Proof.
  intros H Hp Ht Hs Hb. split; [done|]. unfold HasPhysicalBacking. cbn. rewrite Ht, Hs.
  destruct type; cbn in H |- *; try done; try (by destruct H as [_ ->]).
  - destruct H as [_ HD]. apply HD.
  - destruct H as (_ & HT & _). apply HT.
Qed.

Lemma back_mapping_inv type l v r addr size pa is_exec s s' :
  phys_wf s -> vma_map s = l ++ (addr, v) :: r -> below addr l -> v_phys v = [] ->
  0 <= addr -> 0 <= size -> addr + size < W64 -> word pa ->
  back_mapping type addr addr size pa is_exec s = Done s' ->
  exists p', vma_map s' = l ++ (addr, v_with_phys p' v) :: r /\ backed_by type size pa p' s s'.
Proof.
  intros Hwf Em Hb Hv ? ? ? Hpa H.
  assert (Done s = Done s' -> exists p', vma_map s' = l ++ (addr, v_with_phys p' v) :: r /\ s' = s /\ p' = []) as Hno.
  { intros [= <-]. exists []. split_and!; [|done|done]. rewrite Em. rewrite <- Hv. by destruct v. }
  destruct type; cbn [back_mapping] in H; try (by apply Hno).
  - clear Hno. run_inv. bool_prop. subst.
    eapply map_direct_inv in E as (_ & p' & ? & ? & HD); eauto; try (unfold word in *; lia).
    2: by rewrite Hv, Z.sub_diag.
    exists p'. split; [done|]. split; [done|]. by rewrite Hv, Z.sub_diag in HD.
  - clear Hno. run_inv. bool_prop. subst.
    eapply map_flexible_inv in E as (p' & ? & ? & ? & HT & Hu & Hf); eauto; try lia.
    2: by rewrite Hv, Z.sub_diag.
    exists p'. split; [done|]. rewrite Hv, Z.sub_diag, Z.sub_0_r in *. by split_and!.
Qed.

(** What a [MapMemory] that reports success at [a] did. *)
Record mapped_at (type : VMAType.t) (size prot flags : Z) (name : string) (pa a : Z) (s s' : MemoryManager)
    (s1 s2 : MemoryManager) (p' : PhysMap) : Prop := {
  ma_range : 0 <= a /\ 0 < size /\ a + size < W64;
  ma_clear : mm_wf s1 /\ cleared flags a size (begin_mutation (gpu_unmap a size s)) s1;
  ma_free : forall x, a <= x < a + size -> exists g, view (vma_map s1) x = Some g /\ g_type g = VMAType.Free;
  ma_back : exists m, backed_by type size pa p' (with_vmas m s1) s2;
  ma_final : dmem_map s' = dmem_map s2 /\ fmem_map s' = fmem_map s2 /\ flexible_usage s' = flexible_usage s2 /\
    total_flexible_size s' = total_flexible_size s2 /\ total_direct_size s' = total_direct_size s2;
  ma_view : forall x, view (vma_map s') x = if in_range a size x
    then Some (mkPage type (with_read prot) name (has flags MemoryMapFlags.NoCoalesce) (phys_at p' (x - a)))
    else view (vma_map s1) x;
  ma_wf : mm_wf s';
}.

Lemma gpu_unmap_vmas a n s : vma_map (gpu_unmap a n s) = vma_map s.
Proof. unfold gpu_unmap. by destruct (IsValidGpuMapping a n). Qed.

Lemma search_free_word vmas size al mx : word (search_free vmas size al mx).
Proof.
  induction vmas as [|[k v] vmas IH]; cbn; [unfold word, MINUS_1, W64; lia|].
  repeat match goal with |- context [if ?b then _ else _] => destruct b end; auto with words.
  unfold word, MINUS_1, W64; lia.
Qed.

Lemma place_word addr size flags al s a :
  word addr -> place_mapping addr size flags al s = Done (Some a) -> word a.
Proof.
  intros Ha H. unfold place_mapping in H. destruct (_ && _)%bool.
  { run_inv. match type of H with (if ?b then _ else _) = _ => destruct b end; run_inv; congruence. }
  destruct (negb _); [|by injection H as <-]. run_inv. match type of H with (if ?b then _ else _) = _ => destruct b end; [done|]. injection H as <-.
  unfold SearchFree in E. run_inv. destruct (u32 _ =? 0); [done|]. run_inv.
  destruct a1 as [|[k v] r]; [done|]. destruct (_ && _)%bool; run_inv; auto using search_free_word with words.
Qed.

Lemma merge_same m h k2 m2 :
  wf_from 0 m -> vma_MergeAdjacent m h = Done (k2, m2) -> wf_from 0 m2 /\ forall x, view m2 x = view m x.
Proof.
  intros Hwf H. assert (exists v, mlookup h m = Some v) as [v Hv].
  { unfold vma_MergeAdjacent, vma_merge_next in H. outcome_inv. eauto. }
  apply mlookup_split in Hv as (l & r & ->).
  destruct (vma_MergeAdjacent_ok 0 l h v r Hwf) as (l' & k' & v' & r' & E & _ & _ & _ & _ & _ & _ & HS & _).
  rewrite H in E. injection E as -> ->. split; [by apply HS|]. intros x. by apply HS.
Qed.

(** The events at the end of [MapMemory]. *)
Lemma map_events_same (c c2 : bool) e a n s :
  let s' := if c then gpu_map a n (finish_mutation (if c2 then emit e s else s)) else s in
  dmem_map s' = dmem_map s /\ fmem_map s' = fmem_map s /\ vma_map s' = vma_map s /\
  flexible_usage s' = flexible_usage s /\ total_flexible_size s' = total_flexible_size s /\
  total_direct_size s' = total_direct_size s.
Proof. cbn. unfold gpu_map. by destruct c, c2, (IsValidGpuMapping a n). Qed.

Lemma MapMemory_inv addr size prot flags type name vd pa al s ret out s' :
  mm_wf s -> word addr -> word size -> word pa -> type <> VMAType.Pooled ->
  MapMemory addr size prot flags type name vd pa al s = Done (ret, out, s') ->
  (ret <> ORBIS_OK /\ out = None /\ s' = s) \/
  (ret = ORBIS_OK /\ exists a s1 s2 p', out = Some a /\ place_mapping addr size flags al s = Done (Some a) /\
     mapped_at type size prot flags name pa a s s' s1 s2 p').
Proof.
  intros Hwf Ha Hs Hpa Hty H. unfold MapMemory in H.
  destruct (_ && _)%bool; [injection H as <- <- <-; by left|].
  apply obind_Done in H as (chk & _ & H).
  destruct (chk =? ORBIS_OK) eqn:Echk; cbn [negb] in H; [|bool_prop; injection H as <- <- <-; by left].
  apply obind_Done in H as ([a|] & Ep & H); [|injection H as <- <- <-; by left].
  pose proof (place_word _ _ _ _ _ _ Ha Ep) as Hwa. right.
  apply obind_Done in H as ([h sc] & Ec & H).
  apply CreateArea_inv in Ec as (-> & s1 & m & fd & l & r & Hwf1 & -> & Hop & Hcl); auto with areas.
  pose proof (op_eq _ _ _ _ _ _ _ Hop) as Em. pose proof (op_below _ _ _ _ _ _ _ Hop) as Hbl.
  pose proof (op_base _ _ _ _ _ _ _ Hop) as (Hb & Ha0 & Hs0 & Hlt). cbn in Hb, Hs0, Hlt.
  apply obind_Done in H as (nv & En & H). apply of_option_Done in En.
  cbn in En. rewrite Em, mlookup_mid in En by done. injection En as <-. cbn [v_base new_vma] in H.
  apply obind_Done in H as (s2 & Eb & H).
  eapply back_mapping_inv in Eb as (p' & Em2 & Hback); 
    [|eapply phys_wf_same; [..|apply (mw_phys _ Hwf1)]; done|exact Em|done|done|lia|lia|lia|done].
  pose proof (backed_vma_ok _ _ _ _ _ _ (new_vma a size prot flags type name fd) Hback Hty eq_refl eq_refl Ha0) as Hok.
  destruct (opened_close _ _ _ _ _ _ _ p' Hop Hok) as [Hwf2 Hview]. cbn in Hview.
  assert (phys_wf s2) as Hphys2 by (eapply backed_phys_wf; [exact Hback|eapply phys_wf_same; [..|apply (mw_phys _ Hwf1)]; done]).
  apply obind_Done in H as (s3 & E3 & H).
  assert (mm_wf s3 /\ (forall x, view (vma_map s3) x = view (vma_map s2) x) /\ dmem_map s3 = dmem_map s2 /\
    fmem_map s3 = fmem_map s2 /\ flexible_usage s3 = flexible_usage s2 /\
    total_flexible_size s3 = total_flexible_size s2 /\ total_direct_size s3 = total_direct_size s2)
    as (Hwf3 & Hv3 & ? & ? & ? & ? & ?).
  { rewrite <- Em2 in Hwf2. destruct (_ || _)%bool; run_inv; [|by split_and!].
    apply merge_same in E as [? ?]; [|done]. split_and!; try done. split; [by eapply phys_wf_same; [..|exact Hphys2]|done]. }
  injection H as <- <- <-. split; [done|]. exists a, s1, s2, p'. split_and!; [done|done|].
  match goal with |- mapped_at _ _ _ _ _ _ _ _ (destroy_mutation ?s4) _ _ _ =>
    assert (mm_wf s4 /\ dmem_map s4 = dmem_map s3 /\ fmem_map s4 = fmem_map s3 /\ vma_map s4 = vma_map s3 /\
      flexible_usage s4 = flexible_usage s3 /\ total_flexible_size s4 = total_flexible_size s3 /\
      total_direct_size s4 = total_direct_size s3) as (Hwf4 & ? & ? & Hv4 & ? & ? & ?) end.
  { pose proof (map_events_same (negb (bool_decide (type = VMAType.Reserved)) &&
      negb (bool_decide (type = VMAType.PoolReserved))) (negb (bool_decide (type = VMAType.Flexible)))
      (EvMap a size pa (has prot MemoryProt.CpuExec)) a size s3) as HE. cbn in HE.
    destruct HE as (? & ? & ? & ? & ? & ?). split; [by eapply mm_wf_same; [..|exact Hwf3]|]. done. }
  split.
  - cbn in *. lia.
  - done.
  - apply (op_free _ _ _ _ _ _ _ Hop).
  - by eexists.
  - cbn. split_and!; congruence.
  - intros x. cbn. rewrite Hv4, Hv3, Em2, Hview. by destruct (in_range a size x).
  - auto with areas.
Qed.

(** ** File mappings and memory pools

    The effect of [MapFile], [PoolCommit] and [PoolDecommit] on the guest's
    view, and that they keep [mm_wf]. *)

(** ** Files *)

Lemma v_with_fd_phys fd v : v_with_fd fd v = v_with_phys (v_phys v) (v_with_fd fd v).
Proof. by destruct v. Qed.

Lemma opened_alter t m addr v l r m' f :
  opened t m addr v l r m' -> v_base (f v) = v_base v -> v_size (f v) = v_size v ->
  opened t m addr (f v) l r (malter f addr m').
Proof.
  intros [-> Hb (? & ? & ? & ?) Hwf Hv Hf] Eb Es. split.
  - by rewrite malter_mid.
  - done.
  - rewrite Eb, Es. split_and!; lia.
  - eapply wf_overwrite; [exact Hwf|done|done|]. split; cbn; [lia|done].
  - rewrite Es. intros x. rewrite <- Hv.
    rewrite (view_overwrite 0 _ _ (free_vma v)) by done. cbn [r_size vma_area free_vma v_size].
    destruct (_ && _)%bool eqn:E; [|done]. bool_prop. rewrite (view_mid 0) by (cbn; auto; lia). done.
  - by rewrite Es.
Qed.

Lemma has_clear_exec p : has (clear p MemoryProt.CpuExec) MemoryProt.CpuExec = false.
Proof. unfold has, clear. rewrite <- Z.land_assoc. by rewrite Z.land_0_r. Qed.

Lemma has_exec_with_read p : has (with_read p) MemoryProt.CpuExec = has p MemoryProt.CpuExec.
Proof.
  unfold with_read. destruct (has p MemoryProt.CpuWrite); [|done].
  unfold has. rewrite Z.land_lor_distr_l. by rewrite Z.lor_0_r.
Qed.

(** The protection [MapFile] records. *)
Definition file_prot (file : FileInfo) (prot : Z) : Z :=
  let prot := with_read prot in
  let prot := if negb (f_writable file) && negb (f_append file) then clear prot MemoryProt.CpuWrite else prot in
  if has prot MemoryProt.CpuExec then clear prot MemoryProt.CpuExec else prot.

Lemma file_prot_no_exec file prot : has (with_read (file_prot file prot)) MemoryProt.CpuExec = false.
Proof.
  rewrite has_exec_with_read. unfold file_prot.
  match goal with |- has (if ?b then _ else _) _ = _ => destruct b eqn:E end; [apply has_clear_exec|done].
Qed.

Lemma has_clear_write p : has (clear p MemoryProt.CpuWrite) MemoryProt.CpuWrite = false.
Proof. unfold has, clear. rewrite <- Z.land_assoc. by rewrite Z.land_0_r. Qed.

Lemma has_clear_other p : has p MemoryProt.CpuWrite = false -> has (clear p MemoryProt.CpuExec) MemoryProt.CpuWrite = false.
Proof.
  unfold has, clear. intros H. rewrite <- Z.land_assoc.
  change (Z.land (u32 (Z.lnot MemoryProt.CpuExec)) MemoryProt.CpuWrite) with MemoryProt.CpuWrite. exact H.
Qed.

Lemma file_prot_no_write file prot :
  f_writable file = false -> f_append file = false ->
  has (with_read (file_prot file prot)) MemoryProt.CpuWrite = false.
Proof.
  intros Hw Ha. unfold file_prot. rewrite Hw, Ha. cbn [negb andb].
  assert (has (if has (clear (with_read prot) MemoryProt.CpuWrite) MemoryProt.CpuExec
    then clear (clear (with_read prot) MemoryProt.CpuWrite) MemoryProt.CpuExec
    else clear (with_read prot) MemoryProt.CpuWrite) MemoryProt.CpuWrite = false) as E.
  { destruct (has _ MemoryProt.CpuExec); [apply has_clear_other|]; apply has_clear_write. }
  unfold with_read at 1. by rewrite E.
Qed.

Lemma MapFile_inv file hp addr size prot flags fd pa s ret out s' :
  mm_wf s -> word addr -> word size ->
  MapFile file hp addr size prot flags fd pa s = Done (ret, out, s') ->
  mm_wf s' /\ (ret <> ORBIS_OK /\ out = None /\ s' = s \/
    ret = ORBIS_OK /\ exists f a s1, file = Some f /\ out = Some a /\ word a /\ mm_wf s1 /\
      cleared flags a size (begin_mutation (gpu_unmap a size s)) s1 /\
      fmem_map s' = fmem_map s1 /\ flexible_usage s' = flexible_usage s1 /\
      forall x, view (vma_map s') x = if in_range a size x
        then Some (mkPage VMAType.File (with_read (file_prot f prot)) "anon"
               (has flags MemoryMapFlags.NoCoalesce) None)
        else view (vma_map s1) x).
Proof.
  intros Hwf Ha Hs H. unfold MapFile in H. destruct file as [f|]; [|injection H as <- <- <-; split; [done|by left]].
  destruct (negb (f_regular f)); [injection H as <- <- <-; split; [done|by left]|].
  apply obind_Done in H as (u & _ & H). fold (file_prot f prot) in H.
  apply obind_Done in H as ([a|] & Ep & H); [|injection H as <- <- <-; split; [done|by left]].
  pose proof (place_word _ _ _ _ _ _ Ha Ep) as Hwa.
  apply obind_Done in H as ([h sc] & Ec & H).
  apply CreateArea_inv in Ec as (-> & s1 & m & fd0 & l & r & Hwf1 & -> & Hop & Hcl); auto with areas.
  apply obind_Done in H as (nv & En & H). apply of_option_Done in En.
  apply (opened_alter _ _ _ _ _ _ _ (v_with_fd fd)) in Hop; [|done|done].
  pose proof (op_base _ _ _ _ _ _ _ Hop) as (_ & Ha0 & _).
  destruct (opened_close _ _ _ _ _ _ _ [] Hop) as [Hwf2 Hv2]; [by split|].
  pose proof (op_eq _ _ _ _ _ _ _ Hop) as Em. cbn in En, H. rewrite Em in *.
  rewrite mlookup_mid in En by apply Hop. injection En as <-. cbn [v_base new_vma v_with_fd] in H.
  injection H as <- <- <-. cbn in Hwf2, Hv2. split.
  - apply mm_wf_destroy. apply (mm_wf_vmas _ _ Hwf1) in Hwf2.
    match goal with |- context [if ?c then _ else _] => destruct c end; auto using mm_wf_emit.
  - right. split; [done|]. exists f, a, s1.
    assert (forall (c : bool) e s0, vma_map (destroy_mutation (if c then emit e s0 else s0)) = vma_map s0 /\
      fmem_map (destroy_mutation (if c then emit e s0 else s0)) = fmem_map s0 /\
      flexible_usage (destroy_mutation (if c then emit e s0 else s0)) = flexible_usage s0) as Hev by by intros [].
    match goal with |- context [destroy_mutation (if ?c then emit ?e ?s0 else ?s0)] =>
      destruct (Hev c e s0) as (-> & -> & ->) end.
    split_and!; done.
Qed.

(** ** Committing pool memory *)

Lemma PoolCommit_inv addr size prot mtype s ret s' :
  mm_wf s -> word addr -> word size -> PoolCommit addr size prot mtype s = Done (ret, s') ->
  mm_wf s' /\ (ret <> ORBIS_OK /\ vma_map s' = vma_map s /\ dmem_map s' = dmem_map s /\ pool_budget s' = pool_budget s \/
    ret = ORBIS_OK /\ size < pool_budget s /\ pool_budget s' = wsub (pool_budget s) size /\
    exists p', taken PMT.Pooled PMT.Committed 0 size [] p' (dmem_map s) (dmem_map s') /\
      forall x, view (vma_map s') x = if in_range addr size x
        then Some (mkPage VMAType.Pooled (with_read prot) "anon" false (phys_at p' (x - addr)))
        else view (vma_map s) x).
Proof.
  intros Hwf Ha Hs H. unfold PoolCommit in H.
  assert (forall e, e <> ORBIS_OK -> Done (e, destroy_mutation (begin_mutation s)) = Done (ret, s') ->
    mm_wf s' /\ (ret <> ORBIS_OK /\ vma_map s' = vma_map s /\ dmem_map s' = dmem_map s /\
      pool_budget s' = pool_budget s)) as Herr.
  { intros e He [= <- <-]. split; [auto with areas|done]. }
  apply obind_Done in H as (u & _ & H). apply obind_Done in H as ([k v] & _ & H).
  destruct (negb _); [apply Herr in H; [tauto|done]|].
  destruct (negb _); [apply Herr in H; [tauto|done]|].
  destruct (Z.leb_spec (pool_budget (begin_mutation s)) size); [apply Herr in H; [tauto|done]|]. clear Herr.
  cbn in H0. apply obind_Done in H as ([h m1] & EC & H).
  match type of H with context [malter ?f0 _ _] => set (f := f0) in * end.
  cbn [vma_map with_budget begin_mutation with_gen] in EC.
  assert (exists k0 v0, FindVMA (vma_map s) addr = Done (k0, v0)) as (k0 & v0 & Ef).
  { unfold CarveVMA in EC. apply obind_Done in EC as ([k0 v0] & Ef & _). eauto. }
  destruct (open_inv _ _ _ _ _ _ f v0 k0 (mw_vmas _ Hwf) Ha Hs Ef eq_refl EC ltac:(done)) as
    (-> & l & w & r & Hop & Hsz & Hb).
  pose proof (op_base _ _ _ _ _ _ _ Hop) as (_ & Ha0 & Hs0 & Hlt). cbn in Hs0, Hlt. rewrite Hsz in Hs0, Hlt.
  apply obind_Done in H as ([rem s1] & EL & H). apply obind_Done in H as (u' & Erem & H).
  apply oassert_Done in Erem. bool_prop. subst rem.
  apply obind_Done in H as ([k2 m2] & EM & H).
  set (mapped := AlignUp addr (KB 64)) in *.
  assert (mapped = u64 (mapped + 0)) as Emap.
  { rewrite Z.add_0_r, u64_small; [done|]. apply word_align_up. }
  rewrite Emap in EL at 2. eapply (commit_loop_inv _ l addr (f w) r) in EL as (p' & Em1 & _ & (ev & Hfr) & HT);
    [|eapply phys_wf_same; [..|apply (mw_phys _ Hwf)]; done|apply Hop|apply Hop|done|lia|lia|lia].
  rewrite Z.sub_0_r in HT. cbn in HT.
  assert (vma_ok (v_with_phys p' (f w))) as Hok by (split; [cbn; lia|]; cbn; rewrite Hsz; apply HT).
  destruct (opened_close _ _ _ _ _ _ _ p' Hop Hok) as [Hwf2 Hv2]. rewrite <- Em1 in Hwf2, Hv2.
  apply merge_same in EM as [Hwf3 Hv3]; [|done]. rewrite Hfr in H. cbn in H. injection H as <- <-.
  cbn in Hv2. rewrite Hsz, Hb in Hv2.
  split.
  - apply mm_wf_destroy, mm_wf_gpu_map. split; [|done].
    eapply phys_wf_same; [..|eapply phys_wf_dmem; [apply Hwf|apply HT]]; done.
  - right. split_and!; [done|done| |].
    + unfold gpu_map. by destruct (IsValidGpuMapping _ _).
    + exists p'. unfold gpu_map. destruct (IsValidGpuMapping _ _); (split; [exact HT|]);
        intros x; cbn; rewrite Hv3, Hv2; done.
Qed.

(** ** Decommitting *)

Lemma repool_like start areas n m n' m' :
  wf_from 0 m -> word n -> repool start areas n m = Done (n', m') -> phys_like m m'.
Proof.
  revert n m; induction areas as [|[off a] areas IH]; intros n m Hwf Hn H; cbn in H.
  { run_inv. by split. }
  destruct (negb (0 <? n)); [run_inv; by split|].
  set (pa := wadd (p_base a) _) in H. set (sz := Z.min n _) in H.
  assert (word pa) by (subst pa; auto with words). assert (word sz) by (subst sz; auto with words).
  apply obind_Done in H as (m1 & E & H).
  pose proof (retag_like _ _ _ _ _ _ Hwf (fun_dma PMT.Pooled) H0 H1 E) as HL.
  eapply phys_like_trans; [exact HL|]. eapply IH; [apply HL| |exact H]. auto with words.
Qed.

Lemma decommit_entry_effect addr size s n s' :
  mm_wf s -> word addr -> word size -> decommit_entry addr size s = Done (n, s') ->
  mm_wf s' /\ 0 < n <= size /\ word n /\ updated (vma_map s) addr n page_pool_reserved (vma_map s').
Proof.
  intros Hwf Ha Hs H. unfold decommit_entry in H. apply obind_Done in H as ([k v] & Ef & H).
  set (n0 := Z.min size _) in H. assert (word n0) as Hn0 by (subst n0; auto with words).
  apply obind_Done in H as (s1 & E1 & H).
  assert (mm_wf s1 /\ vma_map s1 = vma_map s) as [Hwf1 Hv1].
  { destruct (bool_decide _); run_inv; [|done]. split; [|done]. apply mm_wf_dmem; [auto with areas|].
    eapply repool_like; [..|eassumption]; [|done]. apply Hwf. }
  run_inv.
  destruct (update_effect _ _ _ _ _ _ _ _ _ (mw_vmas _ Hwf1) Ha Hn0 fun_pool_reserved E E0) as (Hu & ? & ? & _).
  rewrite Hv1 in Hu. split_and!; auto with areas. unfold n0. lia.
Qed.

Lemma decommit_loop_effect fuel addr size s s' :
  mm_wf s -> word addr -> word size -> decommit_loop fuel addr size s = Done s' ->
  mm_wf s' /\ (addr + size < W64 -> updated (vma_map s) addr size page_pool_reserved (vma_map s')).
Proof.
  revert addr size s; induction fuel as [|fuel IH]; intros addr size s Hwf Ha Hs H; cbn in H.
  all: destruct (Z.eqb_spec size 0) as [->|Hne]; [injection H as <-; auto using updated_nil|]. { done. }
  apply obind_Done in H as ([n s1] & E & H).
  apply decommit_entry_effect in E as (Hwf1 & Hn & ? & Hu); auto.
  apply IH in H as (Hwf2 & Hu2); auto with words. split; [done|]. intros Hlt. unfold word in *.
  rewrite wadd_small, wsub_small in Hu2 by lia.
  replace size with (n + (size - n)) by lia. eapply updated_app; [lia|lia|exact Hu|]. apply Hu2. lia.
Qed.

Lemma PoolDecommit_inv addr size s ret s' :
  mm_wf s -> word addr -> word size -> PoolDecommit addr size s = Done (ret, s') ->
  mm_wf s' /\ (ret <> ORBIS_OK /\ s' = s \/
    ret = ORBIS_OK /\ (addr + size < W64 -> updated (vma_map s) addr size page_pool_reserved (vma_map s'))).
Proof.
  intros Hwf Ha Hs H. unfold PoolDecommit in H. apply obind_Done in H as (u & _ & H).
  apply obind_Done in H as (vs & _ & H). destruct (negb _); [injection H as <- <-; split; [done|by left]|].
  run_inv. apply decommit_loop_effect in E as [Hwf1 Hu]; auto with areas.
  split; [auto with areas|]. right. split; [done|]. cbn in *. by rewrite gpu_unmap_vmas in Hu.
Qed.
