(* ===== verification/MemAttrs.v ===== *)
(** * MemAttrs: changing the attributes of a range

    [Protect], [NameVirtualRange] and [SetDirectMemoryType]: they keep
    [mm_wf] on any arguments; on a covered range naming always returns, as does
    protecting unless it reads an entry that a merge has erased, and both change
    exactly the attribute they are for.

    [Protect] keeps a reference to the entry it works on across
    [MergeAdjacent].  The first section says where entries of [vma_map] begin
    after an area has been carved out and merged again, and when the entry of
    the reference is gone: exactly when the area before it has become
    [alike]. *)

From S2P Require Import Prelude OrdMap MemTypes PhysFacts VmaFacts MemOps MemInv MemMap MemEffects.

(** ** Which entries a merge erases *)

Section Merging.
Implicit Types (m l r : VMAMap) (k lo : Z) (v : VirtualMemoryArea).

(** Two neighbouring pages, the left one first, that [CanMergeWith] joins. *)
Definition alike (g g' : page) : Prop :=
  g_type g = g_type g' /\ g_prot g = g_prot g' /\ g_name g = g_name g' /\ g_nomerge g = false /\ g_nomerge g' = false /\
  (g_type g = VMAType.Direct -> exists b b', g_back g = Some b /\ g_back g' = Some b' /\
     b_addr b' = b_addr b + 1 /\ b_mtype b' = b_mtype b).

(** ** The ends of a tiling *)

Lemma phys_at_last p e o hi :
  tiled o (p ++ [e]) hi -> phys_at (p ++ [e]) (hi - 1) = Some (mkBacking (p_base e.2 + p_size e.2 - 1) (p_mtype e.2) (p_dma e.2)).
Proof.
  destruct e as [ke a]. intros H. pose proof (tiled_snoc _ _ _ _ _ H) as (Hp & -> & ? & ? & ?).
  rewrite (phys_at_app _ _ _ _ _ Hp). pose proof (tiled_le _ _ _ Hp). cbn.
  destruct (Z.ltb_spec (ke + p_size a - 1) o); [lia|]. destruct (Z.ltb_spec (ke + p_size a - 1) ke); [lia|].
  destruct (Z.leb_spec ke (ke + p_size a - 1)); [|lia]. destruct (Z.ltb_spec (ke + p_size a - 1) (ke + p_size a)); [|lia].
  cbn. do 2 f_equal. lia.
Qed.

Lemma phys_at_first e p hi : tiled 0 (e :: p) hi -> phys_at (e :: p) 0 = Some (mkBacking (p_base e.2) (p_mtype e.2) (p_dma e.2)).
Proof.
  destruct e as [k a]. intros (-> & ? & _). cbn. rewrite Z.add_0_l, (proj2 (Z.ltb_lt 0 (p_size a))) by done. do 2 f_equal. lia.
Qed.

(** ** What [CanMergeWith] accepts *)

Lemma merges_alike lo l k v k2 v2 r :
  wf_from lo (l ++ (k, v) :: (k2, v2) :: r) -> vma_CanMergeWith v v2 = Done true ->
  exists g g', view (l ++ (k, v) :: (k2, v2) :: r) (k2 - 1) = Some g /\
    view (l ++ (k, v) :: (k2, v2) :: r) k2 = Some g' /\ alike g g'.
Proof.
  intros Hwf Hc. destruct (vma_merge_same lo l k k2 v v2 r Hwf Hc) as (-> & _ & _).
  pose proof (wf_mid _ _ _ _ _ Hwf) as (_ & _ & Hk & ? & ? & Hok & _). cbn in Hk, H, H0, Hok.
  assert (wf_from lo ((l ++ [(k, v)]) ++ (k + v_size v, v2) :: r)) as Hwf2 by (by rewrite <- app_assoc).
  pose proof (wf_mid _ _ _ _ _ Hwf2) as (_ & _ & Hk2 & ? & ? & Hok2 & _). cbn in Hk2, H1, H2, Hok2.
  destruct (vma_CanMergeWith_ok v v2) as (b & Hb & Himp); auto. rewrite Hc in Hb. injection Hb as <-.
  destruct (Himp eq_refl) as (_ & Ht & Hp & Hn & Hm & Hm2).
  exists (r_attr v (k + v_size v - 1)), (r_attr v2 (k + v_size v)).
  split; [by rewrite (view_mid lo) by (cbn; auto; lia)|].
  split; [change (l ++ (k, v) :: (k + v_size v, v2) :: r) with (l ++ [(k, v)] ++ (k + v_size v, v2) :: r);
          rewrite app_assoc; by rewrite (view_mid lo) by (cbn; auto; lia)|].
  unfold alike. cbn. split_and!; [done..|]. intros Hd.
  unfold vma_CanMergeWith in Hc. rewrite Hm, Hm2 in Hc. cbn [orb] in Hc. destruct (negb _); [done|].
  rewrite <- Ht, Hd in Hc. cbn [bool_decide andb] in Hc. apply obind_Done in Hc as (bl & Eb & Hc). destruct bl; [done|].
  cbn in Eb. destruct Hok as [_ Hok], Hok2 as [_ Hok2]. unfold HasPhysicalBacking in Hok, Hok2. rewrite <- Ht, Hd in Hok2. rewrite Hd in Hok. cbn in Hok, Hok2.
  destruct (exists_last_or_nil (v_phys v)) as [E|(p0 & e0 & Ep)]; [rewrite E in Eb; done|].
  rewrite Ep, last_snoc in Eb. cbn in Eb. destruct (v_phys v2) as [|e2 p2] eqn:Ep2; [done|]. cbn in Eb. injection Eb as Eb.
  apply orb_false_iff in Eb as [Eb1 Eb2]. bool_prop.
  rewrite Ep in Hok |- *. replace (k + v_size v - 1 - v_base v) with (v_size v - 1) by lia. replace (k + v_size v - v_base v2) with 0 by lia.
  rewrite (phys_at_last _ _ _ _ Hok), (phys_at_first _ _ _ Hok2). do 2 eexists. split_and!; [done..| |done]. cbn.
  destruct e0 as [ke a0]. apply tiled_snoc in Hok as (_ & _ & ? & ? & ?). cbn in *. rewrite wadd_small in Eb1 by lia. lia.
Qed.

(** ** Where entries begin *)

Lemma merge_next_starts lo l k v r m1 :
  wf_from lo (l ++ (k, v) :: r) -> vma_merge_next (l ++ (k, v) :: r) k = Done m1 ->
  exists v1 r1, m1 = l ++ (k, v1) :: r1 /\ same_map lo (l ++ (k, v) :: r) m1 /\ forall y, starts r1 y -> starts r y.
Proof.
  intros Hwf H. pose proof (wf_mid _ _ _ _ _ Hwf) as (_ & _ & Hk & ? & _ & Hok & Hr & Hb & Ha & _).
  cbn in Hk, H0, Hok, Hr, Ha. unfold vma_merge_next in H. rewrite mlookup_mid in H by done. cbn [of_option obind] in H.
  rewrite mnext_mid in H by (auto; apply Ha; lia). destruct r as [|[nk nv] r]; cbn [head] in H.
  { injection H as <-. by exists v, []. }
  cbn in Hr. destruct Hr as (? & ? & ? & ? & Hok2 & _).
  destruct (vma_CanMergeWith_ok v nv) as ([] & Hc & _); auto; rewrite Hc in H; cbn [obind] in H; injection H as <-.
  - destruct (vma_merge_same lo l k nk v nv r Hwf Hc) as (-> & Hs & HS).
    rewrite mset_mid, merase_second by (auto; lia). exists (absorb v nv), r. split_and!; [done|done|].
    intros y Hy. apply starts_cons. by right.
  - by exists v, ((nk, nv) :: r).
Qed.

Lemma merge_prev_starts lo l k v r k' m' :
  wf_from lo (l ++ (k, v) :: r) -> vma_merge_prev (l ++ (k, v) :: r) k = Done (k', m') ->
  (forall y, starts m' y -> starts (l ++ (k, v) :: r) y) /\
  (m' = l ++ (k, v) :: r \/ (forall y, starts (l ++ (k, v) :: r) y -> y <> k -> starts m' y) /\
    exists g g', view (l ++ (k, v) :: r) (k - 1) = Some g /\ view (l ++ (k, v) :: r) k = Some g' /\ alike g g').
Proof.
  intros Hwf H. pose proof (wf_mid _ _ _ _ _ Hwf) as (_ & _ & Hk & ? & _ & Hok & _ & Hb & _).
  cbn in Hk, H0, Hok. unfold vma_merge_prev in H. rewrite mlookup_mid in H by done. cbn [of_option obind] in H.
  destruct (exists_last_or_nil l) as [->|(l0 & [pk pv] & ->)].
  { cbn [app] in *. rewrite mprev_first in H. injection H as <- <-. by split; [|left]. }
  rewrite <- !app_assoc in *. cbn [app] in *.
  pose proof (wf_mid _ _ _ _ _ Hwf) as (_ & _ & _ & ? & _ & Hpok & Hr & Hpb & _).
  cbn in Hr, Hpok, H1. rewrite mprev_mid in H by (auto; lia).
  destruct (vma_CanMergeWith_ok pv v) as ([] & Hc & _); auto; rewrite Hc in H; cbn [obind] in H; injection H as <- <-.
  - destruct (vma_merge_same lo l0 pk k pv v r Hwf Hc) as (Hkk & Hs & HS).
    rewrite mset_mid, merase_second by (auto; lia). split.
    + intros y. rewrite !starts_app, !starts_cons. tauto.
    + right. split; [|by eapply merges_alike]. intros y. rewrite !starts_app, !starts_cons. intros [?|[?|[->|?]]] ?; tauto.
  - by split; [|left].
Qed.

Lemma MergeAdjacent_starts lo l k v r k' m' :
  wf_from lo (l ++ (k, v) :: r) -> vma_MergeAdjacent (l ++ (k, v) :: r) k = Done (k', m') ->
  (forall y, starts m' y -> starts (l ++ (k, v) :: r) y) /\
  (forall y, starts l y \/ y = k -> ~ starts m' y -> y = k /\
    exists g g', view (l ++ (k, v) :: r) (k - 1) = Some g /\ view (l ++ (k, v) :: r) k = Some g' /\ alike g g').
Proof.
  intros Hwf H. unfold vma_MergeAdjacent in H. apply obind_Done in H as (m1 & E & H).
  destruct (merge_next_starts _ _ _ _ _ _ Hwf E) as (v1 & r1 & -> & HS & Hr).
  pose proof (sm_wf _ _ _ HS Hwf) as Hwf1. destruct (merge_prev_starts _ _ _ _ _ _ _ Hwf1 H) as [Hsub Hgone]. split.
  - intros y Hy. apply Hsub in Hy. rewrite starts_app, starts_cons in *. intuition.
  - intros y Hy Hn.
    assert (starts (l ++ (k, v1) :: r1) y) as Hy1 by (rewrite starts_app, starts_cons; intuition).
    destruct Hgone as [->|[Hkeep (g & g' & E1 & E2 & Hal)]]; [done|].
    destruct (Z.eq_dec y k) as [->|Hne]; [|by destruct Hn; apply Hkeep]. split; [done|].
    exists g, g'. rewrite <- !(sm_view _ _ _ HS Hwf). auto.
Qed.

(** Every [starts] of a list of entries is one of the entries', but for the ends. *)
Ltac ends_of addr size :=
  let y := fresh "y" in
  intros y; rewrite !starts_app, !starts_cons; destruct (Z.eq_dec y addr); [tauto|];
  destruct (Z.eq_dec y (addr + size)); [right; right; lia|]; left; intuition (exfalso; lia).

(** Carving adds the ends of its range, and keeps the entry it cuts. *)
Lemma CarveVMA_starts lo l k v r addr size h m' :
  wf_from lo (l ++ (k, v) :: r) -> 0 < size -> k <= addr -> addr + size <= k + v_size v ->
  CarveVMA (l ++ (k, v) :: r) addr size = Done (h, m') ->
  starts m' k /\ forall y, starts m' y -> starts (l ++ (k, v) :: r) y \/ y = addr \/ y = addr + size /\ y < k + v_size v.
Proof.
  intros Hwf Hsz Hlo Hhi H.
  pose proof (wf_mid _ _ _ _ _ Hwf) as (Hl & ? & Hk & ? & ? & [Hok1 Hok] & Hr & Hb & Ha & ?).
  cbn in Hk, H1, H2, Ha. unfold CarveVMA, FindVMA in H. rewrite mle_mid in H by (auto; apply Ha; lia). cbn [of_option obind] in H.
  rewrite (proj2 (Z.leb_le (v_base v) addr)) in H by lia. cbn [oassert obind] in H.
  rewrite (wsub_small addr), wadd_small in H by word_lia. set (off := addr - v_base v) in *.
  destruct ((off =? 0) && (size =? v_size v))%bool eqn:Ewhole.
  { bool_prop. injection H as <- <-. split; [apply starts_app; right; apply starts_cons; by left|auto]. }
  rewrite (proj2 (Z.leb_le (off + size) (v_size v))) in H by lia. cbn [oassert obind] in H.
  destruct (Z.eqb_spec (off + size) (v_size v)) as [He|He]; cbn [negb obind] in H.
  - destruct (Z.eqb_spec off 0) as [Hz|Hz]; cbn [negb] in H.
    { exfalso. apply andb_false_iff in Ewhole as [E|E]; bool_prop; lia. }
    rewrite (vma_Split_eq lo) in H by (auto; lia). injection H as <- <-. replace (k + off) with addr by lia.
    split; [apply starts_app; right; apply starts_cons; by left|].
    intros y. rewrite !starts_app, !starts_cons. intuition.
  - rewrite (vma_Split_eq lo) in H by (auto; lia). cbn [obind snd] in H.
    pose proof (vma_split_same lo l k v (off + size) r Hwf ltac:(lia)) as HS.
    pose proof (sm_wf _ _ _ HS Hwf) as Hwf1. destruct (Z.eqb_spec off 0) as [Hz|Hz]; cbn [negb] in H.
    + injection H as <- <-. split; [apply starts_app; right; apply starts_cons; by left|]. ends_of addr size.
    + rewrite (vma_Split_eq lo) in H by (auto; cbn; lia). injection H as <- <-. replace (k + off) with addr by lia.
      split; [apply starts_app; right; apply starts_cons; by left|]. ends_of addr size.
Qed.

(** Carving, changing the protection and merging: the entry that was cut is
    gone only if it was the one carved and has been merged to the left. *)
Lemma carve_merge_starts l k v r a n p h m1 k2 m2 :
  wf_from 0 (l ++ (k, v) :: r) -> 0 < n -> k <= a -> a + n <= k + v_size v ->
  CarveVMA (l ++ (k, v) :: r) a n = Done (h, m1) -> vma_MergeAdjacent (malter (v_with_prot p) h m1) h = Done (k2, m2) ->
  (forall y, starts m2 y -> starts (l ++ (k, v) :: r) y \/ y = a \/ y = a + n /\ y < k + v_size v) /\
  (~ starts m2 k -> k = a /\ exists g g', view m2 (a - 1) = Some g /\ view m2 a = Some g' /\ alike g g').
Proof.
  intros Hwf Hn Hlo Hhi EC EM. destruct (CarveVMA_starts _ _ _ _ _ _ _ _ _ Hwf Hn Hlo Hhi EC) as [Hk1 Hst].
  destruct (CarveVMA_ok 0 l k v r a n Hwf Hn Hlo Hhi) as (m1' & EC' & Hcv). rewrite EC in EC'. injection EC' as -> <-.
  destruct (vcarved_overwrite 0 _ _ _ _ _ _ _ _ Hwf (fun_prot p) Hcv) as (l1 & r1 & mid & E1 & Hw & _).
  rewrite <- (starts_malter (v_with_prot p) a) in Hk1. rewrite E1 in EM, Hk1.
  destruct (MergeAdjacent_starts _ _ _ _ _ _ _ Hw EM) as [Hsub Hgone].
  destruct (merge_same _ _ _ _ Hw EM) as [_ Hv]. split.
  - intros y Hy. apply Hst, (starts_malter (v_with_prot p) a). rewrite E1. by apply Hsub.
  - intros Hn2. destruct (Hgone k) as (-> & g & g' & E & E' & Hal); [|done|].
    + apply starts_app in Hk1 as [?|Hk1]; [by left|]. apply starts_cons in Hk1 as [->|Hk1]; [by right|exfalso].
      pose proof (wf_mid _ _ _ _ _ Hw) as (_ & _ & _ & Hs & _ & _ & _ & _ & Hab & _). cbn in Hs, Hab.
      apply Hk1. apply (mlookup_absent k []); [constructor|]. apply Hab. lia.
    + split; [done|]. exists g, g'. by rewrite !Hv.
Qed.
End Merging.

(** Only [vma_map] and the events differ. *)
Definition vma_frame (s s' : MemoryManager) : Prop :=
  exists ev, s' = mkMM (impl s) (dmem_map s) (fmem_map s) (vma_map s') (mapping_generation s)
    (total_direct_size s) (total_flexible_size s) (flexible_usage s) (pool_budget s) (sdk_version s)
    (prt_areas s) ev.

#[export] Instance vma_frame_refl : Reflexive vma_frame.
Proof. intros []. by eexists. Qed.
#[export] Instance vma_frame_trans : Transitive vma_frame.
Proof. intros s1 s2 s3 [e1 ->] [e2 ->]. by eexists. Qed.

Lemma vma_frame_wf s s' : vma_frame s s' -> mm_wf s -> wf_from 0 (vma_map s') -> mm_wf s'.
Proof. intros [ev ->] [Hp _] Hv. split; [eapply phys_wf_same; [..|exact Hp]; done|done]. Qed.

(** ** Protect *)

Definition page_protect (prot : Z) (g : page) : page :=
  match g_type g with
  | VMAType.Free | VMAType.PoolReserved => g
  | t => page_prot (recorded_prot t prot) g
  end.

(** The largest size an [s64] result can report. *)
Definition W63 : Z := 9223372036854775808.

(** [ProtectBytes] changes the protection of such a page. *)
Definition protectable (g : page) : Prop := g_type g <> VMAType.Free /\ g_type g <> VMAType.PoolReserved.

Lemma protectable_after prot g : protectable (page_protect prot g) <-> protectable g.
Proof. unfold protectable, page_protect. by destruct (g_type g) eqn:E; cbn; rewrite ?E. Qed.

(** The page at [x] once the range has been protected. *)
Definition protected (prot : Z) (m : VMAMap) (addr size x : Z) : option page :=
  if in_range addr size x then page_protect prot <$> view m x else view m x.

(** No area that begins in the range becomes, by the change of protection,
    one that merges with the area before it. *)
Definition stays_apart (prot : Z) (m : VMAMap) (addr size : Z) : Prop :=
  forall x g g', addr <= x < addr + size -> starts m x -> protected prot m addr size (x - 1) = Some g ->
    protected prot m addr size x = Some g' -> protectable g' -> ~ alike g g'.

(** The entry at [a] is merged into the one before it. *)
Definition absorbed (prot : Z) (m : VMAMap) (a : Z) : Prop :=
  starts m a /\ exists g g', view m (a - 1) = Some g /\ view m a = Some g' /\ protectable g' /\ alike g (page_protect prot g').

Lemma ProtectBytes_ok l k v r a n0 prot s :
  mm_wf s -> vma_map s = l ++ (k, v) :: r -> k <= a < k + v_size v -> 0 < n0 < W63 ->
  let n := Z.min (k + v_size v - a) n0 in
  (exists s', ProtectBytes a k n0 prot s = Done (n, s') /\ vma_frame s s' /\ wf_from 0 (vma_map s') /\
    updated (vma_map s) a n (page_protect prot) (vma_map s') /\
    (n < n0 -> forall y, a + n <= y -> starts (vma_map s') y -> starts (vma_map s) y) /\
    (n < n0 -> view (vma_map s) (a + n) <> None -> (depth (a + n) (vma_map s') <= length r)%nat)) \/
  (ProtectBytes a k n0 prot s = Raised Undefined /\ absorbed prot (vma_map s) a).
Proof.
  intros Hwf Em Ha Hn0 n. pose proof (mw_vmas _ Hwf) as Hw. rewrite Em in Hw.
  pose proof (wf_mid _ _ _ _ _ Hw) as (_ & _ & Hk & _ & ? & _ & _ & Hbl & _ & ?). cbn in Hk, H.
  unfold ProtectBytes. rewrite Em, mlookup_mid by done. cbn [of_option obind].
  rewrite (wsub_small a), (wsub_small (v_size v)) by word_lia.
  replace (Z.min (v_size v - (a - v_base v)) n0) with n by (unfold n; lia).
  rewrite (s64_small n) by (unfold n, W63 in *; lia).
  assert (forall x, in_range a n x = true -> view (vma_map s) x = Some (r_attr v x)) as Hat.
  { intros x Hx. apply in_range_true in Hx. rewrite Em. by rewrite (view_mid 0) by (cbn; auto; unfold n in *; lia). }
  destruct (_ || _)%bool eqn:Et.
  { left. rewrite <- Em. exists s. split_and!; [done|done|by rewrite Em| |done|].
    - intros x. destruct (in_range a n x) eqn:Er; [|done]. rewrite (Hat x Er). cbn.
      unfold page_protect. cbn. bool_prop. destruct Et as [Et|Et]; bool_prop; by rewrite Et.
    - intros Hlt Hv. rewrite Em in Hv |- *. apply (depth_past 0); [done|unfold n in *; cbn; lia|done]. }
  set (p := recorded_prot (v_type v) prot).
  destruct (vma_update_ok 0 (v_with_prot p) (page_prot p) l k v r a n Hw (fun_prot p)) as
    (h & m1 & k2 & m2 & EC & EM & Hd); [unfold n; lia|lia|unfold n; lia|].
  assert (word a) as Hwa by (unfold word; lia).
  assert (word n) as Hwn by (unfold word, n, W63 in *; word_lia).
  destruct (update_effect _ _ _ _ _ _ _ _ _ Hw Hwa Hwn (fun_prot p) EC EM) as (Hu & Hw2 & _). rewrite <- Em in Hu.
  destruct (carve_merge_starts l k v r a n p h m1 k2 m2 Hw ltac:(unfold n; lia) ltac:(lia) ltac:(unfold n; lia) EC EM) as [Hst Hgone].
  rewrite EC. cbn [obind]. rewrite EM. cbn [obind].
  destruct (mlookup k m2) as [w|] eqn:Ew; cbn [of_option obind]; [left|right].
  - match goal with |- context [if bool_decide (v_type w = VMAType.Reserved) then Done (n, ?s1) else Done (n, ?s2)] =>
      assert (exists s', (if bool_decide (v_type w = VMAType.Reserved) then Done (n, s1) else Done (n, s2)) =
        Done (n, s') /\ vma_frame s s' /\ vma_map s' = m2) as (s' & -> & Hfr & Em2) end.
    { destruct (bool_decide (v_type w = VMAType.Reserved)), (negb (prot =? v_prot v)).
      all: eexists; split_and!; [reflexivity|eexists; reflexivity|reflexivity]. }
    exists s'. rewrite Em2, <- Em. split_and!; [done|done|done| | |].
    + intros x. rewrite Hu. destruct (in_range a n x) eqn:Er; [|done]. rewrite (Hat x Er). cbn.
      unfold page_protect, p. cbn. bool_prop. by destruct (v_type v).
    + intros Hlt y Hy Hs. rewrite Em. destruct (Hst y Hs) as [?|[?|?]]; [done|unfold n in *; lia|unfold n in *; lia].
    + intros Hlt Hv. rewrite Em in Hv. apply Hd; [unfold n in *; lia|done].
  - split; [done|]. rewrite <- Em. assert (~ starts m2 k) as Hns by (intros Hx; by apply Hx). destruct (Hgone Hns) as (-> & g & g' & E1 & E2 & Hal).
    split; [unfold starts; by rewrite Em, mlookup_mid|]. exists g, (r_attr v a).
    rewrite Hu in E1, E2. rewrite (proj2 (in_range_false _ _ _)) in E1 by lia.
    assert (in_range a n a = true) as Ein by (apply in_range_true; unfold n; lia). rewrite Ein, (Hat a Ein) in E2.
    cbn in E2. injection E2 as <-. bool_prop. split_and!; [done|by apply Hat|done|].
    unfold page_protect. cbn. subst p. by destruct (v_type v).
Qed.

(** The pages before [pb] of the range are done, the rest is as in [m0]. *)
Record protecting (prot : Z) (m0 : VMAMap) (addr size pb : Z) (m : VMAMap) : Prop := {
  pr_done : updated m0 addr pb (page_protect prot) m;
  pr_starts : forall y, addr + pb <= y < addr + size -> starts m y -> starts m0 y;
}.

Lemma protecting_absorbed prot m0 addr size pb m :
  protecting prot m0 addr size pb m -> 0 <= pb < size -> absorbed prot m (addr + pb) -> ~ stays_apart prot m0 addr size.
Proof.
  intros [Hu Hs] Hpb (Ha & g & g' & E & E' & Hp & Hal) Hap. rewrite Hu in E, E'.
  rewrite (proj2 (in_range_false _ _ _)) in E' by lia.
  apply (Hap (addr + pb) g (page_protect prot g')); [lia|apply Hs; [lia|done]| | |by apply protectable_after|done].
  - unfold protected. rewrite <- E. destruct (in_range addr pb (addr + pb - 1)) eqn:Er.
    + apply in_range_true in Er. by rewrite (proj2 (in_range_true _ _ _)) by lia.
    + apply in_range_false in Er. by rewrite (proj2 (in_range_false _ _ _)) by lia.
  - unfold protected. by rewrite (proj2 (in_range_true _ _ _)), E' by lia.
Qed.

Lemma protect_loop_ok fuel addr size pb prot m0 s :
  mm_wf s -> 0 <= addr -> 0 <= pb <= size -> 0 < size < W63 -> addr + size < W64 ->
  covered m0 addr size -> protecting prot m0 addr size pb (vma_map s) ->
  (pb < size -> (depth (addr + pb) (vma_map s) <= fuel)%nat) ->
  (exists s', protect_loop fuel addr size pb prot s = Done (ORBIS_OK, s') /\ vma_frame s s' /\ mm_wf s' /\
    updated m0 addr size (page_protect prot) (vma_map s')) \/
  (protect_loop fuel addr size pb prot s = Raised Undefined /\ ~ stays_apart prot m0 addr size).
Proof.
  revert pb s; induction fuel as [|fuel IH]; intros pb s Hwf Ha Hpb Hs Hlt Hc0 Hpr Hd; cbn [protect_loop].
  all: destruct (Z.ltb_spec pb size) as [Hmore|]; cbn [negb];
    [|left; exists s; replace size with pb by lia; split_and!; [done..|apply Hpr]].
  all: assert (covered (vma_map s) (addr + pb) (size - pb)) as Hc
    by (eapply covered_updated; [apply Hpr|]; apply covered_tail; [lia|done]).
  all: destruct (find_covered 0 _ (addr + pb) (mw_vmas _ Hwf) (Hc (addr + pb) ltac:(lia)))
    as (l & k & v & r & Em & Ef & Hin & _); cbn in Hin.
  all: assert (depth (addr + pb) (vma_map s) = S (length r)) as Edep by (unfold depth; by rewrite Ef).
  { specialize (Hd Hmore). lia. }
  pose proof (mw_vmas _ Hwf) as Hw. rewrite Em in Hw.
  pose proof (wf_mid _ _ _ _ _ Hw) as (_ & _ & Hk & _ & ? & _ & _ & _ & _ & ?). cbn in Hk, H.
  rewrite !(wadd_small addr) by lia.
  assert (FindVMA (vma_map s) (addr + pb) = Done (k, v)) as -> by (unfold FindVMA, mle; by rewrite Ef).
  cbn [obind]. rewrite (proj2 (Z.ltb_ge _ (v_base v))) by lia. rewrite wadd_small, wsub_small by word_lia.
  destruct (ProtectBytes_ok l k v r (addr + pb) (size - pb) prot s Hwf Em Hin ltac:(lia)) as
    [(s1 & -> & Hfr & Hw1 & Hu & Hst & Hdep)|[-> Hab]];
    [|right; split; [done|]; by eapply protecting_absorbed; [..|exact Hab]; [|lia]].
  cbn [obind]. set (n := Z.min _ _) in *. assert (0 < n <= size - pb) by (unfold n; lia).
  rewrite (proj2 (Z.ltb_ge _ 0)) by lia. rewrite wadd_small by word_lia.
  destruct (IH (pb + n) s1) as [(s' & -> & Hfr' & Hwf' & Hu')|[-> Hap]].
  - by eapply vma_frame_wf.
  - lia.
  - lia.
  - lia.
  - lia.
  - done.
  - split; [eapply updated_app; [lia|lia|apply Hpr|exact Hu]|]. intros y Hy Hsy.
    apply (pr_starts _ _ _ _ _ _ Hpr); [lia|]. apply Hst; [lia|lia|done].
  - intros Hm. rewrite Z.add_assoc. specialize (Hd Hmore).
    pose proof (Hdep ltac:(lia) (Hc (addr + pb + n) ltac:(lia))). lia.
  - left. exists s'. split_and!; [done|by etransitivity|done|done].
  - by right.
Qed.

Lemma assert_covered m addr size :
  wf_from 0 m -> 0 <= addr -> 0 < size -> addr + size < W64 -> covered m addr size ->
  assert_valid m addr size = Done tt.
Proof.
  intros Hwf Ha Hs Hlt Hc. unfold assert_valid.
  destruct (IsValidMapping_covered m addr size) as (b & -> & Hb); auto; try lia; [apply Hc; lia|].
  cbn. by rewrite (proj2 Hb).
Qed.

Lemma Protect_ok addr size prot s :
  mm_wf s -> 0 <= addr -> 0 < size < W63 -> addr + size < W64 -> covered (vma_map s) addr size ->
  (exists s', Protect addr size prot s = Done (ORBIS_OK, destroy_mutation s') /\
    vma_frame (begin_mutation s) s' /\ mm_wf s' /\
    updated (vma_map s) addr size (page_protect prot) (vma_map s')) \/
  (Protect addr size prot s = Raised Undefined /\ ~ stays_apart prot (vma_map s) addr size).
Proof.
  intros Hwf Ha Hs Hlt Hc. unfold Protect. rewrite (proj2 (Z.eqb_neq size 0)) by lia.
  cbn [vma_map begin_mutation with_gen]. rewrite assert_covered by (auto with areas; lia). cbn [obind].
  change (with_gen (MemoryMapGeneration.BeginMutation (mapping_generation s)) s) with (begin_mutation s).
  destruct (protect_loop_ok (S (length (vma_map s))) addr size 0 prot (vma_map s) (begin_mutation s)) as
    [(s' & -> & Hfr & Hwf' & Hu)|[-> Hap]]; auto with areas; try lia.
  - split; [apply updated_nil|done].
  - intros _. rewrite Z.add_0_r. pose proof (depth_length addr (vma_map s)). cbn. lia.
  - left. by exists s'.
Qed.

Lemma ProtectBytes_wf a k n prot s r s' :
  mm_wf s -> word a -> word n -> ProtectBytes a k n prot s = Done (r, s') -> mm_wf s'.
Proof.
  intros Hwf Ha Hn H. unfold ProtectBytes in H. apply obind_Done in H as (v & _ & H).
  set (sz := Z.min _ n) in H. assert (word sz) as Hsz by (unfold sz; auto with words).
  destruct (_ || _)%bool; [by run_inv|].
  apply obind_Done in H as ([h m1] & EC & H). apply obind_Done in H as ([k2 m2] & EM & H).
  apply obind_Done in H as (w & _ & H).
  pose proof (update_wf _ _ _ _ _ _ _ _ _ (mw_vmas _ Hwf) Ha Hsz (fun_prot _) EC EM) as Hw.
  assert (mm_wf (with_vmas m2 s)) as Hw2 by auto with areas.
  destruct (bool_decide _); run_inv; [done|]. destruct (negb _); auto with areas.
Qed.

Lemma protect_loop_wf fuel addr size pb prot s r s' :
  mm_wf s -> protect_loop fuel addr size pb prot s = Done (r, s') -> mm_wf s'.
Proof.
  revert pb s; induction fuel as [|fuel IH]; intros pb s Hwf H; cbn in H; destruct (negb _); try by run_inv.
  apply obind_Done in H as ([k v] & _ & H). apply obind_Done in H as ([n s1] & E & H).
  apply ProtectBytes_wf in E; auto with words. destruct (n <? 0); [by run_inv|]. by eapply IH, H.
Qed.

Lemma Protect_wf addr size prot s r s' : mm_wf s -> Protect addr size prot s = Done (r, s') -> mm_wf s'.
Proof.
  intros Hwf H. unfold Protect in H. destruct (size =? 0); [by run_inv|]. run_inv.
  apply protect_loop_wf in E0; auto with areas.
Qed.

(** ** Names *)

Definition page_rename (name : string) (g : page) : page :=
  match g_type g with
  | VMAType.Free => g
  | _ => page_name name g
  end.

(** Carving without overwriting changes nothing the map denotes. *)
Lemma carve_same m addr size h m1 :
  wf_from 0 m -> word addr -> word size -> CarveVMA m addr size = Done (h, m1) ->
  wf_from 0 m1 /\ forall x, view m1 x = view m x.
Proof.
  intros Hwf Ha Hs H. destruct (CarveVMA_inv 0 _ _ _ _ _ Hwf Ha Hs H) as
    (l & k & v & r & -> & _ & _ & _ & _ & _ & (l1 & r1 & mid & _ & _ & _ & _ & _ & HS)).
  split; [by apply HS|]. intros x. by apply HS.
Qed.

Lemma malter_wf f g h m : vma_fun f g -> wf_from 0 m -> wf_from 0 (malter f h m).
Proof.
  intros Hf. generalize 0 as lo. induction m as [|[k v] m IH]; intros lo Hwf; cbn in *; [done|].
  destruct Hwf as (? & ? & ? & ? & ? & Hm). destruct (Hf v) as (Hb & Hs & Hok & _).
  destruct (k =? h); cbn.
  - rewrite Hb, Hs. split_and!; auto.
  - split_and!; auto.
Qed.

Lemma merge_and_advance_wf m h cur it m' :
  wf_from 0 m -> merge_and_advance m h cur = Done (it, m') -> wf_from 0 m'.
Proof.
  intros Hwf H. unfold merge_and_advance in H. apply obind_Done in H as ([k2 m2] & EM & H).
  apply obind_Done in H as (v & _ & H). apply merge_same in EM as [Hw _]; [|done].
  destruct (_ <=? cur); by run_inv.
Qed.

Lemma name_loop_wf fuel it cur rem name m m' :
  word cur -> word rem -> wf_from 0 m -> name_loop fuel it cur rem name m = Done m' -> wf_from 0 m'.
Proof.
  revert it cur rem m; induction fuel as [|fuel IH]; intros it cur rem m Hc Hr Hwf H; cbn in H;
    (destruct it as [h|]; [|by run_inv]); (destruct (negb _); [by run_inv|]); [done|].
  apply obind_Done in H as (v & _ & H). set (n := Z.min rem _) in H.
  assert (word n) as Hn by (unfold n; auto with words).
  apply obind_Done in H as ([h1 m1] & E1 & H). apply obind_Done in H as ([it2 m2] & E2 & H).
  assert (wf_from 0 m1) as Hw1.
  { unfold rename_entry in E1. destruct (negb _); [|by run_inv]. destruct (n <? v_size v); run_inv; eapply malter_wf; eauto with areas.
    by eapply carve_same in E as [? _]. }
  eapply IH; [..|exact H]; auto with words. by eapply merge_and_advance_wf.
Qed.

Lemma NameVirtualRange_wf addr size name s s' :
  mm_wf s -> NameVirtualRange addr size name s = Done s' -> mm_wf s'.
Proof.
  intros Hwf H. unfold NameVirtualRange in H. run_inv.
  apply name_loop_wf in E1; auto with words areas.
Qed.

(** The end of a round: the map denotes the same memory; if the area ends at
    [cur] and the range goes on, the handle is on the area that holds [cur],
    with fewer areas from there on. *)
Lemma merge_and_advance_ok l h v r cur :
  wf_from 0 (l ++ (h, v) :: r) ->
  exists it m', merge_and_advance (l ++ (h, v) :: r) h cur = Done (it, m') /\ wf_from 0 m' /\
    (forall x, view m' x = view (l ++ (h, v) :: r) x) /\
    (cur = h + v_size v -> view (l ++ (h, v) :: r) cur <> None ->
     exists l' k' v' r', it = Some k' /\ m' = l' ++ (k', v') :: r' /\ k' <= cur < k' + v_size v' /\
       (length r' < length r)%nat).
Proof.
  intros Hwf. unfold merge_and_advance.
  destruct (vma_MergeAdjacent_ok 0 l h v r Hwf) as
    (l' & k' & v' & r' & -> & Hk & He & _ & _ & _ & _ & HS & Hprog). cbn [obind].
  pose proof (sm_wf _ _ _ HS Hwf) as Hwf'.
  assert (0 < v_size v) as Hvs by (apply wf_mid in Hwf as (_ & _ & _ & ? & _); done).
  pose proof (wf_mid _ _ _ _ _ Hwf') as (_ & _ & Hb & ? & ? & _ & Hwr & Hbl & Hab & ?). cbn in Hb, H, H0, Hab, Hwr.
  rewrite mlookup_mid by done. cbn [of_option obind]. rewrite wadd_small, <- Hb by word_lia.
  destruct (Z.leb_spec (k' + v_size v') cur).
  - eexists _, _. split; [done|]. split_and!; [done|by apply HS|]. intros -> Hv.
    rewrite mnext_mid by (auto; apply Hab; lia).
    destruct Hprog as [[He' ->]|?]; [|lia].
    assert (view r (h + v_size v) <> None) as Hvr.
    { intros E. apply Hv. rewrite <- (sm_view _ _ _ HS Hwf), view_app.
      rewrite (view_ge 0 l') by (apply wf_mid in Hwf' as (? & ? & _); auto; lia). cbn. unfold covers. cbn.
      by rewrite (proj2 (Z.ltb_ge _ (v_base v' + v_size v'))), andb_false_r by lia. }
    destruct r as [|[k2 v2] r]; [done|]. cbn in Hwr. destruct Hwr as (? & ? & ? & ? & ? & Hwr).
    exists (l' ++ [(k', v')]), k2, v2, r. rewrite <- app_assoc. split_and!; [done|done| |lia|cbn; lia].
    destruct (Z.le_gt_cases k2 (h + v_size v)); [done|]. destruct Hvr. apply (view_lt k2); [|lia].
    cbn. split_and!; auto; lia.
  - eexists _, _. split; [done|]. split_and!; [done|by apply HS|]. intros -> Hv.
    exists l', k', v', r'. split_and!; [done|done|lia|lia|]. destruct Hprog as [[? _]|?]; lia.
Qed.

Lemma carve_whole l h v r :
  wf_from 0 (l ++ (h, v) :: r) -> CarveVMA (l ++ (h, v) :: r) h (v_size v) = Done (h, l ++ (h, v) :: r).
Proof.
  intros Hwf. pose proof (wf_mid _ _ _ _ _ Hwf) as (_ & _ & Hb & ? & _ & _ & _ & Hbl & Hab & _). cbn in Hb, H, Hab.
  unfold CarveVMA, FindVMA. rewrite mle_mid by (auto; try lia; apply Hab; lia). cbn [of_option obind].
  rewrite (proj2 (Z.leb_le (v_base v) h)) by lia. cbn [oassert obind].
  rewrite wsub_small by word_lia. by rewrite <- Hb, Z.sub_diag, !Z.eqb_refl.
Qed.

(** One round of [NameVirtualRange] up to the merge. *)
Lemma rename_entry_ok l h v r cur n name :
  wf_from 0 (l ++ (h, v) :: r) -> h <= cur -> 0 < n -> cur + n <= h + v_size v -> (n = v_size v -> cur = h) ->
  exists l1 k1 v1 r1,
    rename_entry (l ++ (h, v) :: r) h v cur n name = Done (k1, l1 ++ (k1, v1) :: r1) /\
    wf_from 0 (l1 ++ (k1, v1) :: r1) /\
    updated (l ++ (h, v) :: r) cur n (page_rename name) (l1 ++ (k1, v1) :: r1) /\
    (cur + n = h + v_size v -> k1 + v_size v1 = cur + n /\ r1 = r).
Proof.
  intros Hwf Hc Hn Hle Hwhole. unfold rename_entry.
  pose proof (wf_mid _ _ _ _ _ Hwf) as (_ & _ & Hb & _). cbn in Hb.
  assert (forall x, in_range cur n x = true -> view (l ++ (h, v) :: r) x = Some (r_attr v x)) as Hat.
  { intros x Hx. apply in_range_true in Hx. by rewrite (view_mid 0) by (cbn; auto; lia). }
  destruct (IsFree v) eqn:Ef; cbn [negb].
  { exists l, h, v, r. split_and!; [done|done| |intros; split; [lia|done]].
    intros x. destruct (in_range cur n x) eqn:Er; [|done]. rewrite (Hat x Er). cbn. unfold page_rename. cbn.
    unfold IsFree in Ef. bool_prop. by rewrite Ef. }
  destruct (CarveVMA_ok 0 l h v r cur n) as (m1 & EC & Hcv); auto.
  assert ((if n <? v_size v then
         let! '(h, vmas) := CarveVMA (l ++ (h, v) :: r) cur n in Done (h, malter (v_with_name name) h vmas)
       else Done (h, malter (v_with_name name) h (l ++ (h, v) :: r))) = Done (cur, malter (v_with_name name) cur m1)) as ->.
  { rewrite EC. destruct (Z.ltb_spec n (v_size v)); [done|]. assert (n = v_size v) as -> by lia.
    rewrite Hwhole, carve_whole in EC by done. injection EC as <-. by rewrite Hwhole. }
  destruct (vcarved_overwrite 0 _ _ _ _ _ _ _ _ Hwf (fun_name name) Hcv) as
    (l1 & r1 & mid & -> & Hw & _ & _ & Hv & Hsz & Htl).
  exists l1, cur, (v_with_name name mid), r1. split_and!; [done|done| |].
  - intros x. rewrite Hv. destruct (in_range cur n x) eqn:Er; [|done]. rewrite (Hat x Er). cbn.
    unfold page_rename. cbn. unfold IsFree in Ef. bool_prop. by destruct (v_type v).
  - intros He. split; [lia|]. apply Htl. lia.
Qed.

Lemma name_loop_ok fuel l h v r cur rem name :
  wf_from 0 (l ++ (h, v) :: r) -> h <= cur < h + v_size v -> 0 < rem -> cur + rem < W64 ->
  covered (l ++ (h, v) :: r) cur rem -> (length r < fuel)%nat ->
  exists m', name_loop fuel (Some h) cur rem name (l ++ (h, v) :: r) = Done m' /\ wf_from 0 m' /\
    updated (l ++ (h, v) :: r) cur rem (page_rename name) m'.
Proof.
  revert l h v r cur rem; induction fuel as [|fuel IH]; intros l h v r cur rem Hwf Hin Hrem Hlt Hcov Hf; [lia|].
  pose proof (wf_mid _ _ _ _ _ Hwf) as (_ & _ & Hb & _ & ? & _ & _ & Hbl & _ & ?). cbn in Hb, H.
  cbn [name_loop]. rewrite (proj2 (Z.ltb_lt 0 rem)) by lia. cbn [negb].
  rewrite mlookup_mid by done. cbn [of_option obind]. rewrite (wsub_small cur), (wsub_small (v_size v)) by word_lia.
  set (n := Z.min rem _). assert (0 < n <= rem /\ cur + n <= h + v_size v) as [Hn Hle] by (unfold n; lia).
  destruct (rename_entry_ok l h v r cur n name) as (l1 & k1 & v1 & r1 & -> & Hw1 & Hu & Hend); auto; try lia.
  cbn [obind]. rewrite (wadd_small cur), (wsub_small rem) by word_lia.
  destruct (merge_and_advance_ok l1 k1 v1 r1 (cur + n) Hw1) as (it & m2 & -> & Hw2 & Hv2 & Hnext). cbn [obind].
  assert (updated (l ++ (h, v) :: r) cur n (page_rename name) m2) as Hu2 by (intros x; rewrite Hv2; apply Hu).
  destruct (Z.eq_dec n rem) as [En|Hne].
  - exists m2. rewrite <- En, Z.sub_diag. by destruct fuel, it.
  - destruct (Hend ltac:(unfold n in *; lia)) as [He ->].
    destruct (Hnext ltac:(lia)) as (l' & k' & v' & r' & -> & -> & Hin' & Hlen).
    { rewrite updated_dom by exact Hu. apply Hcov. lia. }
    destruct (IH l' k' v' r' (cur + n) (rem - n)) as (m' & -> & Hw' & Hu'); auto; try lia.
    { eapply covered_updated; [exact Hu2|]. apply covered_tail; [lia|done]. }
    exists m'. split_and!; [done|done|]. replace rem with (n + (rem - n)) by lia.
    eapply updated_app; [lia|lia|exact Hu2|exact Hu'].
Qed.

Lemma NameVirtualRange_ok addr size name s :
  let a := AlignDown addr (KB 16) in let n := AlignUp size (KB 16) in
  mm_wf s -> 0 < n -> a + n < W64 -> covered (vma_map s) a n ->
  exists m', NameVirtualRange addr size name s = Done (destroy_mutation (with_vmas m' (begin_mutation s))) /\
    wf_from 0 m' /\ updated (vma_map s) a n (page_rename name) m'.
Proof.
  intros a n Hwf Hn Hlt Hc. unfold NameVirtualRange. fold a. fold n.
  assert (word a) as [Ha _] by (unfold a; auto with words).
  cbn [vma_map begin_mutation with_gen]. rewrite assert_covered by (auto with areas; lia). cbn [obind].
  destruct (find_covered 0 _ a (mw_vmas _ Hwf) (Hc a ltac:(lia))) as (l & k & v & r & Em & Ef & Hin & _).
  cbn in Hin. assert (FindVMA (vma_map s) a = Done (k, v)) as -> by (unfold FindVMA, mle; by rewrite Ef).
  cbn [obind]. pose proof (mw_vmas _ Hwf) as Hw. rewrite Em in Hw, Hc |- *.
  destruct (name_loop_ok (S (length (l ++ (k, v) :: r))) l k v r a n name) as (m' & -> & Hw' & Hu); auto.
  { rewrite length_app. cbn. lia. }
  exists m'. done.
Qed.

(** ** Memory types *)

Lemma retype_areas_like areas t m o hi areas' m' :
  wf_from 0 m -> tiled o areas hi -> hi < W64 -> 0 <= o ->
  retype_areas areas t m = Done (areas', m') -> phys_like m m' /\ tiled o areas' hi.
Proof.
  revert o areas' m; induction areas as [|[off a] areas IH]; intros o areas' m Hwf Ht Hhi Ho H; cbn in H.
  { injection H as <- <-. split; [by split|done]. }
  cbn in Ht. destruct Ht as (-> & ? & ? & ? & Ht). pose proof (tiled_le _ _ _ Ht).
  apply obind_Done in H as ([h m1] & EC & H). apply obind_Done in H as ([rest m2] & E & H). injection H as <- <-.
  assert (phys_like m (malter (p_with_mtype t) h m1)) as HL.
  { eapply carve_tag_like; [..|exact EC]; eauto with areas; unfold word; lia. }
  apply (IH (o + p_size a)) in E as [HL2 Ht2]; [|by apply HL|done|done|lia].
  split; [by eapply phys_like_trans|]. cbn. split_and!; auto.
Qed.

Lemma malter_phys_wf h m v p :
  wf_from 0 m -> mlookup h m = Some v -> vma_ok (v_with_phys p v) -> wf_from 0 (malter (v_with_phys p) h m).
Proof.
  intros Hwf Hl Hok. apply mlookup_split in Hl as (l & r & ->).
  pose proof (wf_mid _ _ _ _ _ Hwf) as (_ & _ & _ & _ & _ & _ & _ & Hb & _). rewrite malter_mid by done.
  eapply wf_overwrite; [exact Hwf|done|done|done].
Qed.

Lemma retype_entry_wf h v cur n t s h1 s1 :
  mm_wf s -> word cur -> word n -> retype_entry h v cur n t s = Done (h1, s1) -> mm_wf s1.
Proof.
  intros Hwf Hc Hn E1. unfold retype_entry in E1. destruct (_ || _)%bool eqn:Ety; [|by run_inv].
  apply obind_Done in E1 as ([h2 m1] & EC & E1). apply obind_Done in E1 as (cv & Ecv & E1).
  apply of_option_Done in Ecv. apply obind_Done in E1 as ([ph dm] & ER & E1). injection E1 as <- <-.
  destruct (carve_same _ _ _ _ _ (mw_vmas _ Hwf) Hc Hn EC) as [Hwm _].
  pose proof Ecv as Ecv'. apply mlookup_split in Ecv' as (l & r & Em). pose proof Hwm as Hwm'. rewrite Em in Hwm'.
  pose proof (wf_mid _ _ _ _ _ Hwm') as (_ & _ & ? & ? & ? & Hok & _ & _ & _ & ?). cbn in *.
  destruct Hok as [Hb Hok].
  assert (phys_like (dmem_map s) dm /\ vma_ok (v_with_phys ph cv)) as [HL Hok'].
  { unfold vma_ok, HasPhysicalBacking in *. cbn. destruct (_ || _ || _)%bool.
    - apply (retype_areas_like _ _ _ 0 (v_size cv)) in ER as [HL Ht]; auto with areas; lia.
    - rewrite Hok in ER. cbn in ER. injection ER as <- <-. split; [split; auto with areas|done]. }
  apply mm_wf_dmem; [|done]. apply mm_wf_vmas; [done|]. by eapply malter_phys_wf.
Qed.

Lemma retype_loop_wf fuel it cur rem t s s' :
  mm_wf s -> word cur -> word rem -> retype_loop fuel it cur rem t s = Done s' -> mm_wf s'.
Proof.
  revert it cur rem s; induction fuel as [|fuel IH]; intros it cur rem s Hwf Hc Hr H; cbn in H;
    (destruct it as [h|]; [|by run_inv]); (destruct (negb _); [by run_inv|]); [done|].
  apply obind_Done in H as (v & _ & H). apply obind_Done in H as ([h1 s1] & E1 & H).
  apply obind_Done in H as ([it2 m2] & E2 & H).
  apply retype_entry_wf in E1; auto with words.
  eapply IH; [..|exact H]; auto with words. apply mm_wf_vmas; [done|].
  eapply merge_and_advance_wf; [|exact E2]. auto with areas.
Qed.

Lemma SetDirectMemoryType_wf addr size t s r s' :
  mm_wf s -> word addr -> word size -> SetDirectMemoryType addr size t s = Done (r, s') -> mm_wf s'.
Proof.
  intros Hwf Ha Hs H. unfold SetDirectMemoryType in H. run_inv.
  apply retype_loop_wf in E1; auto with areas.
Qed.

(** ** What no operation on the maps changes

    The address space, the sizes of the two physical pools, the SDK version,
    the PRT apertures and the mapping generation are changed only by the
    operations that are for it; so a completed operation moves the generation
    from one even value to the next. *)

Definition fixed (s : MemoryManager) : AddressSpace * MemoryMapGeneration.t * Z * Z * Z * list PrtArea :=
  (impl s, mapping_generation s, total_direct_size s, total_flexible_size s, sdk_version s, prt_areas s).

(** The same without the generation. *)
Definition settings (s : MemoryManager) : AddressSpace * Z * Z * Z * list PrtArea :=
  (impl s, total_direct_size s, total_flexible_size s, sdk_version s, prt_areas s).

Lemma fixed_settings s s' : fixed s' = fixed s ->
  settings s' = settings s /\ mapping_generation s' = mapping_generation s.
Proof. unfold fixed, settings. intros [= -> -> -> -> -> ->]. done. Qed.

Lemma fixed_gpu_unmap a n s : fixed (gpu_unmap a n s) = fixed s.
Proof. unfold gpu_unmap. by destruct (IsValidGpuMapping a n). Qed.
Lemma fixed_gpu_map a n s : fixed (gpu_map a n s) = fixed s.
Proof. unfold gpu_map. by destruct (IsValidGpuMapping a n). Qed.

Lemma unmap_phys_fixed t start areas n s n' s' :
  unmap_phys t start areas n s = Done (n', s') -> fixed s' = fixed s.
Proof.
  revert n s; induction areas as [|[off a] areas IH]; intros n s H; cbn in H; [by run_inv|].
  destruct (negb _); [by run_inv|]. apply obind_Done in H as (s1 & E & H). apply IH in H. rewrite H.
  destruct t; run_inv; done.
Qed.

Lemma UnmapBytes_fixed addr v size s n s' :
  UnmapBytesFromEntry addr v size s = Done (n, s') -> fixed s' = fixed s.
Proof.
  unfold UnmapBytesFromEntry. intros H. destruct (_ || _)%bool; [by run_inv|].
  apply obind_Done in H as (s1 & E & H).
  assert (fixed s1 = fixed s) as <- by (destruct (v_phys v); run_inv; [done|by eapply unmap_phys_fixed]).
  clear E. run_inv. by destruct (_ && _)%bool.
Qed.

Lemma unmap_loop_fixed fuel addr size d s s' : unmap_loop fuel addr size d s = Done s' -> fixed s' = fixed s.
Proof.
  revert d s; induction fuel as [|fuel IH]; intros d s H; cbn in H; [done|].
  apply obind_Done in H as ([k v] & _ & H). apply obind_Done in H as ([n s1] & E & H).
  apply UnmapBytes_fixed in E. rewrite <- E. apply obind_Done in H as (u & _ & H).
  destruct (_ <? size); [by apply IH in H|by run_inv].
Qed.

Lemma UnmapMemoryImpl_fixed addr size s r s' : UnmapMemoryImpl addr size s = Done (r, s') -> fixed s' = fixed s.
Proof. unfold UnmapMemoryImpl. intros H. run_inv. by eapply unmap_loop_fixed. Qed.

Lemma clear_loop_fixed fuel a n v s s' : clear_loop fuel a n v s = Done s' -> fixed s' = fixed s.
Proof.
  revert a n v s; induction fuel as [|fuel IH]; intros a n v s H; cbn in H; destruct (negb _); try by run_inv.
  apply obind_Done in H as ([k s1] & E & H). apply obind_Done in H as ([k1 v1] & _ & H).
  apply UnmapBytes_fixed in E. rewrite <- E. by apply IH in H.
Qed.

Lemma CreateArea_fixed a n p f t nm s h s' : CreateArea a n p f t nm s = Done (h, s') -> fixed s' = fixed s.
Proof.
  unfold CreateArea. intros H. apply obind_Done in H as ([k v] & _ & H). apply obind_Done in H as (s1 & E & H).
  assert (fixed s1 = fixed s) as <- by (destruct (has _ _); [by eapply clear_loop_fixed|by run_inv]).
  clear E. by run_inv.
Qed.

Lemma add_backing_fixed h o a s s' : add_backing h o a s = Done s' -> fixed s' = fixed s.
Proof. unfold add_backing. intros H. by run_inv. Qed.

Lemma map_flexible_fixed fuel it h ma cur rem ex s r s' :
  map_flexible fuel it h ma cur rem ex s = Done (r, s') -> fixed s' = fixed s.
Proof.
  revert it cur rem s; induction fuel as [|fuel IH]; intros it cur rem s H; cbn in H;
    (destruct it as [k|]; [|by run_inv]); (destruct (rem =? 0); [by run_inv|]); [done|].
  apply obind_Done in H as (a & _ & H). destruct (negb _); [by apply IH in H|].
  run_inv. apply IH in H. apply add_backing_fixed in E1. rewrite H. exact E1.
Qed.

Lemma map_direct_fixed fuel h pa cur rem s r s' :
  map_direct fuel h pa cur rem s = Done (r, s') -> fixed s' = fixed s.
Proof.
  revert cur rem s; induction fuel as [|fuel IH]; intros cur rem s H; cbn in H;
    apply obind_Done in H as ([k a] & _ & H); destruct (negb _); try by run_inv.
  run_inv. apply IH in H. apply add_backing_fixed in E1. rewrite H. exact E1.
Qed.

Lemma commit_loop_fixed fuel it h ma cur rem t s r s' :
  commit_loop fuel it h ma cur rem t s = Done (r, s') -> fixed s' = fixed s.
Proof.
  revert it cur rem s; induction fuel as [|fuel IH]; intros it cur rem s H; cbn in H;
    (destruct it as [k|]; [|by run_inv]); (destruct (negb (0 <? rem)); [by run_inv|]); [done|].
  apply obind_Done in H as (a & _ & H). destruct (negb _); [by apply IH in H|].
  run_inv. apply IH in H. apply add_backing_fixed in E1. rewrite H. exact E1.
Qed.

Lemma back_mapping_fixed t h ma n pa ex s s' : back_mapping t h ma n pa ex s = Done s' -> fixed s' = fixed s.
Proof.
  unfold back_mapping. intros H. destruct t; run_inv; try done;
    [by eapply map_direct_fixed|by eapply map_flexible_fixed].
Qed.

Lemma decommit_loop_fixed fuel a n s s' : decommit_loop fuel a n s = Done s' -> fixed s' = fixed s.
Proof.
  revert a n s; induction fuel as [|fuel IH]; intros a n s H; cbn in H; destruct (n =? 0); try by run_inv.
  apply obind_Done in H as ([k s1] & E & H). apply IH in H. rewrite H. clear H.
  unfold decommit_entry in E. apply obind_Done in E as ([k0 v0] & _ & E).
  apply obind_Done in E as (s2 & E2 & E).
  assert (fixed s2 = fixed s) as <- by (destruct (bool_decide _); run_inv; done). clear E2. by run_inv.
Qed.

Lemma ProtectBytes_fixed a k n p s r s' : ProtectBytes a k n p s = Done (r, s') -> fixed s' = fixed s.
Proof.
  unfold ProtectBytes. intros H. apply obind_Done in H as (v & _ & H). destruct (_ || _)%bool; [by run_inv|].
  apply obind_Done in H as ([h m1] & _ & H). apply obind_Done in H as ([k2 m2] & _ & H).
  apply obind_Done in H as (w & _ & H). destruct (bool_decide _); try destruct (negb _); by run_inv.
Qed.

Lemma protect_loop_fixed fuel a n pb p s r s' : protect_loop fuel a n pb p s = Done (r, s') -> fixed s' = fixed s.
Proof.
  revert pb s; induction fuel as [|fuel IH]; intros pb s H; cbn in H; destruct (negb _); try by run_inv.
  apply obind_Done in H as ([k v] & _ & H). apply obind_Done in H as ([k2 s1] & E & H).
  apply ProtectBytes_fixed in E. rewrite <- E. destruct (_ <? 0); [by run_inv|]. by apply IH in H.
Qed.

Lemma retype_loop_fixed fuel it cur rem t s s' : retype_loop fuel it cur rem t s = Done s' -> fixed s' = fixed s.
Proof.
  revert it cur rem s; induction fuel as [|fuel IH]; intros it cur rem s H; cbn in H;
    (destruct it as [h|]; [|by run_inv]); (destruct (negb _); [by run_inv|]); [done|].
  apply obind_Done in H as (v & _ & H). apply obind_Done in H as ([h1 s1] & E & H).
  apply obind_Done in H as ([it2 m2] & _ & H). apply IH in H. rewrite H. clear H.
  change (fixed s1 = fixed s). unfold retype_entry in E. destruct (_ || _)%bool; run_inv; done.
Qed.

Lemma unmap_all_fixed l s s' : unmap_all l s = Done s' -> fixed s' = fixed s.
Proof.
  revert s; induction l as [|[a n] l IH]; intros s H; cbn in H; [by run_inv|]. run_inv.
  apply UnmapMemoryImpl_fixed in E. rewrite <- E. by apply IH in H.
Qed.

Lemma fold_gpu_fixed l s : fixed (foldl (fun s '(addr, n) => gpu_unmap addr n s) s l) = fixed s.
Proof. revert s; induction l as [|[a n] l IH]; intros s; cbn; [done|]. by rewrite IH, fixed_gpu_unmap. Qed.

(** ** Completed operations *)

(** [s'] is [s] after an operation that mutates the map or that found nothing
    to do: the settings are the same, and the generation is as it was or two
    further, with no mutation in progress. *)
Definition advances (s s' : MemoryManager) : Prop :=
  settings s' = settings s /\
  (mapping_generation s' = mapping_generation s \/
   mapping_generation s' =
     MemoryMapGeneration.mk (wadd (wadd (MemoryMapGeneration.value (mapping_generation s)) 1) 1) None).

Lemma advances_refl s s' : settings s' = settings s -> mapping_generation s' = mapping_generation s -> advances s s'.
Proof. intros. split; auto. Qed.

(** The bracket [BeginMutation] ... [~Mutation], with or without [Finish]. *)
Lemma advances_mutation s s1 s2 :
  fixed s1 = fixed s -> fixed s2 = fixed (begin_mutation s1) -> advances s (destroy_mutation s2).
Proof.
  unfold fixed. intros [= E1 E2 E3 E4 E5 E6] [= F1 F2 F3 F4 F5 F6]. split.
  - unfold settings. cbn in *. congruence.
  - right. cbn. rewrite F2. cbn. by rewrite E2.
Qed.

Lemma advances_finish s s1 s2 :
  fixed s1 = fixed s -> fixed s2 = fixed (begin_mutation s1) ->
  forall s3, fixed s3 = fixed (finish_mutation s2) -> advances s (destroy_mutation s3).
Proof.
  unfold fixed. intros [= E1 E2 E3 E4 E5 E6] [= F1 F2 F3 F4 F5 F6] s3 [= G1 G2 G3 G4 G5 G6]. split.
  - unfold settings. cbn in *. congruence.
  - right. cbn. rewrite G2. cbn. rewrite F2. cbn. by rewrite E2.
Qed.

Lemma UnmapMemory_advances a n s r s' : UnmapMemory a n s = Done (r, s') -> advances s s'.
Proof.
  unfold UnmapMemory. intros H. destruct (n =? 0); [run_inv; by apply advances_refl|]. run_inv.
  apply UnmapMemoryImpl_fixed in E0. eapply advances_mutation; [|exact E0]. apply fixed_gpu_unmap.
Qed.

Lemma Free_advances pa n c s r s' : Free pa n c s = Done (r, s') -> advances s s'.
Proof.
  unfold Free. intros H. destruct (_ || _)%bool; [run_inv; by apply advances_refl|]. run_inv.
  destruct (collect_free _ _ _ _); [|run_inv; by apply advances_refl]. run_inv. apply unmap_all_fixed in E0.
  eapply advances_mutation; [|exact E0]. apply fold_gpu_fixed.
Qed.

Lemma MapMemory_advances a n p f t nm vd pa al s ret out s' :
  MapMemory a n p f t nm vd pa al s = Done (ret, out, s') -> advances s s'.
Proof.
  unfold MapMemory. intros H. destruct (_ && _)%bool; [injection H as <- <- <-; by apply advances_refl|].
  apply obind_Done in H as (chk & _ & H). destruct (negb _); [injection H as <- <- <-; by apply advances_refl|].
  apply obind_Done in H as ([ad|] & _ & H); [|injection H as <- <- <-; by apply advances_refl].
  apply obind_Done in H as ([h sc] & Ec & H). apply CreateArea_fixed in Ec.
  apply obind_Done in H as (nv & _ & H). apply obind_Done in H as (s2 & Eb & H). apply back_mapping_fixed in Eb.
  apply obind_Done in H as (s3 & E3 & H).
  assert (fixed s3 = fixed s2) as F3 by (destruct (_ || _)%bool; run_inv; done).
  injection H as <- <- <-. rewrite <- F3, Eb, Ec in *. clear E3.
  assert (fixed s3 = fixed (begin_mutation (gpu_unmap ad n s))) as F by congruence.
  destruct (_ && _)%bool; [|eapply advances_mutation; [apply fixed_gpu_unmap|exact F]].
  destruct (negb _).
  - eapply (advances_finish _ _ (emit _ s3)); [apply fixed_gpu_unmap|exact F|apply fixed_gpu_map].
  - eapply (advances_finish _ _ s3); [apply fixed_gpu_unmap|exact F|apply fixed_gpu_map].
Qed.

Lemma MapFile_advances file hp a n p f fd pa s ret out s' :
  MapFile file hp a n p f fd pa s = Done (ret, out, s') -> advances s s'.
Proof.
  unfold MapFile. intros H. destruct file as [fi|]; [|injection H as <- <- <-; by apply advances_refl].
  destruct (negb (f_regular fi)); [injection H as <- <- <-; by apply advances_refl|].
  apply obind_Done in H as (u & _ & H).
  apply obind_Done in H as ([ad|] & _ & H); [|injection H as <- <- <-; by apply advances_refl].
  apply obind_Done in H as ([h sc] & Ec & H). apply CreateArea_fixed in Ec.
  apply obind_Done in H as (nv & _ & H). injection H as <- <- <-.
  eapply advances_mutation; [apply (fixed_gpu_unmap ad n s)|]. rewrite <- Ec.
  match goal with |- context [if ?c then emit _ _ else _] => by destruct c end.
Qed.

Lemma PoolCommit_advances a n p t s r s' : PoolCommit a n p t s = Done (r, s') -> advances s s'.
Proof.
  unfold PoolCommit. intros H. apply obind_Done in H as (u & _ & H). apply obind_Done in H as ([k v] & _ & H).
  destruct (negb _); [run_inv; by eapply advances_mutation|].
  destruct (negb _); [run_inv; by eapply advances_mutation|].
  destruct (_ <=? _); [run_inv; by eapply advances_mutation|]. run_inv. apply commit_loop_fixed in E0.
  eapply (advances_finish s s (with_vmas _ m)); [done|exact E0|apply fixed_gpu_map].
Qed.

Lemma PoolDecommit_advances a n s r s' : PoolDecommit a n s = Done (r, s') -> advances s s'.
Proof.
  unfold PoolDecommit. intros H. apply obind_Done in H as (u & _ & H). apply obind_Done in H as (vs & _ & H).
  destruct (negb _); [run_inv; by apply advances_refl|]. run_inv. apply decommit_loop_fixed in E.
  eapply advances_mutation; [|exact E]. apply fixed_gpu_unmap.
Qed.

Lemma Protect_advances a n p s r s' : Protect a n p s = Done (r, s') -> advances s s'.
Proof.
  unfold Protect. intros H. destruct (n =? 0); [run_inv; by apply advances_refl|]. run_inv.
  apply protect_loop_fixed in E0. by eapply advances_mutation.
Qed.

Lemma SetDirectMemoryType_advances a n t s r s' : SetDirectMemoryType a n t s = Done (r, s') -> advances s s'.
Proof. unfold SetDirectMemoryType. intros H. run_inv. apply retype_loop_fixed in E1. by eapply advances_mutation. Qed.

Lemma NameVirtualRange_advances a n nm s s' : NameVirtualRange a n nm s = Done s' -> advances s s'.
Proof. unfold NameVirtualRange. intros H. run_inv. by eapply advances_mutation. Qed.
