(* ===== verification/FlexFacts.v ===== *)
(** * FlexFacts: flexible memory is accounted for and never shared

    [flexible_usage] counts the [Flexible] bytes of [fmem_map] and stays below
    a cap; every page of
    a flexible mapping is backed by a [Flexible] physical page of its own.
    The lemmas here follow these facts through mapping and unmapping. *)

From S2P Require Import Prelude OrdMap MemTypes PhysFacts VmaFacts MemOps MemInv MemMap Release MemEffects MemAttrs.

(** The flexible physical address behind a virtual address. *)
Definition flex_page (g : page) : option Z :=
  if bool_decide (g_type g = VMAType.Flexible) then b_addr <$> g_back g else None.

Definition flex_at (m : VMAMap) (x : Z) : option Z := view m x ≫= flex_page.

Record flex_ok (cap : Z) (m : VMAMap) (fm : PhysMap) (usage : Z) : Prop := {
  fo_back : forall x y, flex_at m x = Some y -> exists t, view fm y = Some (t, PMT.Flexible);
  fo_inj : forall x x' y, flex_at m x = Some y -> flex_at m x' = Some y -> x = x';
  fo_usage : usage = dma_bytes PMT.Flexible fm;
  fo_cap : usage <= cap;
  fo_flat : flat PMT.Flexible fm;
}.

(** Dropping pages and changing other attributes is harmless. *)
Lemma flex_ok_sub cap m m' fm u :
  (forall x y, flex_at m' x = Some y -> flex_at m x = Some y) -> flex_ok cap m fm u -> flex_ok cap m' fm u.
Proof. intros H []. split; eauto. Qed.

(** ** Releasing the backing of a range *)

Lemma bytes_nonneg lo P (m : PhysMap) : wf_from lo m -> 0 <= bytes P m.
Proof.
  revert lo; induction m as [|[k a] m IH]; intros lo; cbn; [lia|].
  intros (? & ? & ? & ? & ? & H). apply IH in H. destruct (P a); cbn in *; lia.
Qed.

Lemma wsub_wsub u m n : u64 (wsub u m - n) = u64 (u - (m + n)).
Proof. unfold wsub, u64. rewrite Zminus_mod_idemp_l. f_equal. lia. Qed.

(** The loop of [UnmapBytesFromEntry] on [fmem_map] and the usage counter. *)
Lemma unmap_flexible_run start areas n s n' s' :
  unmap_phys VMAType.Flexible start areas n s = Done (n', s') -> word n -> word (flexible_usage s) ->
  release_areas PMT.Free start areas n (fmem_map s) = Done (n', fmem_map s') /\ flex_frame s s' /\
  vma_map s' = vma_map s /\ flexible_usage s' = u64 (flexible_usage s - (n - n')).
Proof.
  revert n s; induction areas as [|[off a] areas IH]; intros n s H Hn Hu; cbn in H |- *.
  2: destruct (negb _).
  1,2: injection H as <- <-; split_and!; [done|by exists (events s); destruct s|done|];
    by rewrite Z.sub_diag, Z.sub_0_r, u64_small.
  apply obind_Done in H as (s1 & E & H). apply obind_Done in E as (m1 & ER & E). injection E as <-. rewrite ER. cbn [obind].
  set (n1 := Z.min _ _) in *. apply IH in H as (Hr & (ev & Hfr) & Hv & Hus); [|cbn; auto with words..].
  split_and!; [done|by exists ev|done|]. rewrite Hus. cbn [flexible_usage with_usage emit with_fmem].
  unfold wsub, u64. rewrite Zminus_mod_idemp_l, <- (Zminus_mod_idemp_r _ ((n - n1) mod W64 - n')),
    Zminus_mod_idemp_l, Zminus_mod_idemp_r. f_equal. lia.
Qed.

(** ** Unmapping keeps the accounting *)

Lemma bytes_le_end lo P (m : PhysMap) : wf_from lo m -> bytes P m <= end_from lo m - lo.
Proof.
  revert lo; induction m as [|[k a] m IH]; intros lo; cbn; [lia|].
  intros (? & ? & ? & ? & ? & H). apply IH in H. destruct (P a); cbn in *; lia.
Qed.

Lemma end_word lo (m : PhysMap) : wf_from lo m -> lo < W64 -> end_from lo m < W64.
Proof.
  revert lo; induction m as [|[k a] m IH]; intros lo; cbn; [done|]. intros (? & ? & ? & ? & ? & H) _. by apply IH.
Qed.

Lemma dma_bytes_word d (m : PhysMap) : wf_from 0 m -> word (dma_bytes d m).
Proof.
  intros H. split; [by eapply bytes_nonneg|].
  pose proof (bytes_le_end 0 (fun a => bool_decide (p_dma a = d)) m H). pose proof (end_word 0 m H ltac:(done)).
  unfold dma_bytes. lia.
Qed.

Lemma updated_flex_sub m a n g m' :
  updated m a n g m' -> (forall p y, flex_page (g p) = Some y -> flex_page p = Some y) ->
  forall x y, flex_at m' x = Some y -> flex_at m x = Some y.
Proof.
  intros Hu Hg x y. unfold flex_at. rewrite Hu. destruct (in_range a n x); [|done].
  destruct (view m x) as [p|]; [|done]. apply Hg.
Qed.

Lemma updated_flex_none m a n g m' :
  updated m a n g m' -> (forall p, flex_page (g p) = None) ->
  forall x, flex_at m' x = if in_range a n x then None else flex_at m x.
Proof.
  intros Hu Hg x. unfold flex_at. rewrite Hu. destruct (in_range a n x); [|done].
  destruct (view m x) as [p|]; [|done]. apply Hg.
Qed.

Lemma unmap_phys_other t start areas n s n' s' :
  t <> VMAType.Flexible -> unmap_phys t start areas n s = Done (n', s') ->
  fmem_map s' = fmem_map s /\ flexible_usage s' = flexible_usage s.
Proof.
  intros Hne. revert n s; induction areas as [|[off a] areas IH]; intros n s H; cbn in H; [by run_inv|].
  destruct (negb _); [by run_inv|]. apply obind_Done in H as (s1 & E & H). apply IH in H as [-> ->].
  destruct t; run_inv; done.
Qed.

(** Seen from the mapping: the flexible pages of [addr, addr + n) in [v]. *)
Lemma flex_range_of cap m fm u v addr start n :
  flex_ok cap m fm u -> addr = v_base v + start -> 0 <= start -> start + n <= v_size v ->
  v_type v = VMAType.Flexible -> tiled 0 (v_phys v) (v_size v) ->
  (forall x, addr <= x < addr + n -> view m x = Some (r_attr v x)) ->
  backed_range PMT.Flexible (v_phys v) start n fm /\
  forall x b, start <= x < start + n -> phys_at (v_phys v) x = Some b -> flex_at m (v_base v + x) = Some (b_addr b).
Proof.
  intros HF -> Hs Hn Hty Ht Hat.
  assert (forall x b, start <= x < start + n -> phys_at (v_phys v) x = Some b ->
    flex_at m (v_base v + x) = Some (b_addr b)) as Hfx.
  { intros x b Hx Eb. unfold flex_at. rewrite Hat by lia. cbn. unfold flex_page. cbn.
    rewrite Hty. replace (v_base v + x - v_base v) with x by lia. by rewrite Eb. }
  split; [split|done].
  - intros x Hx. destruct (tiled_at _ _ _ x Ht ltac:(lia)) as (b & Eb).
    destruct (fo_back _ _ _ _ HF _ _ (Hfx x b Hx Eb)) as (t & Hv). by exists b, t.
  - intros x x' b b' Hx Hx' Eb Eb' E. assert (v_base v + x = v_base v + x'); [|lia].
    eapply (fo_inj _ _ _ _ HF); [by apply Hfx|]. rewrite E. by apply Hfx.
Qed.

Lemma UnmapBytes_flex cap addr k v size s n s' :
  mm_wf s -> word addr -> word size -> FindVMA (vma_map s) addr = Done (k, v) ->
  UnmapBytesFromEntry addr v size s = Done (n, s') ->
  flex_ok cap (vma_map s) (fmem_map s) (flexible_usage s) ->
  flex_ok cap (vma_map s') (fmem_map s') (flexible_usage s').
Proof.
  intros Hwf Ha Hs Hf H HF. unfold UnmapBytesFromEntry in H.
  set (n0 := Z.min _ size) in H. assert (word n0) as Hn0 by (subst n0; auto with words).
  destruct (_ || _)%bool; [by run_inv|]. apply obind_Done in H as (s1 & E & H).
  assert (mm_wf s1 /\ vma_map s1 = vma_map s) as [Hwf1 Hv1].
  { clear H. destruct (v_phys v); run_inv; [done|]. by eapply unmap_phys_wf. }
  apply obind_Done in H as ([h m1] & EC & H). apply obind_Done in H as ([k2 m2] & EM & H).
  destruct (update_effect _ _ _ _ _ _ _ _ _ (mw_vmas _ Hwf1) Ha Hn0 fun_free EC EM) as (Hu & _ & Hpos & Hcov).
  rewrite Hv1 in Hu, Hcov. destruct (FindVMA_covered _ _ _ _ (mw_vmas _ Hwf) (Hcov addr ltac:(lia)) Hf)
    as (l & r & Em & -> & Hin & Hlt & Hb0 & Hat & _).
  set (start := wsub addr (v_base v)) in *. assert (start = addr - v_base v) as Est by (unfold start; rewrite wsub_small by word_lia; done).
  assert (n0 = Z.min (v_size v - start) size) as En by (unfold n0; rewrite wsub_small by word_lia; done).
  assert (flexible_usage s' = flexible_usage s1 /\ fmem_map s' = fmem_map s1 /\ vma_map s' = m2) as (-> & -> & ->)
    by (destruct (_ && _)%bool; run_inv; done). clear H.
  pose proof (updated_flex_none _ _ _ _ _ Hu (fun _ => eq_refl)) as Hfl.
  destruct (bool_decide (v_type v = VMAType.Flexible)) eqn:Ety; bool_prop.
  2: { assert (fmem_map s1 = fmem_map s /\ flexible_usage s1 = flexible_usage s) as [-> ->].
       { destruct (v_phys v); run_inv; [done|]. by eapply unmap_phys_other. }
       eapply flex_ok_sub; [|exact HF]. intros x y. rewrite Hfl. by destruct (in_range _ _ _). }
  assert (tiled 0 (v_phys v) (v_size v)) as Ht.
  { pose proof (mw_vmas _ Hwf) as Hw. rewrite Em in Hw. apply wf_mid in Hw as (_ & _ & _ & _ & _ & [_ Hok] & _).
    unfold HasPhysicalBacking in Hok. by rewrite Ety in Hok. }
  destruct (flex_range_of _ _ _ _ v addr start n0 HF) as [HR Hfx]; auto; try lia; [intros x Hx; apply Hat; lia|].
  destruct (mfind_tiled _ _ _ start Ht ltac:(lia)) as (k0 & a0 & r0 & Ef & ? & ? & Ht0 & Hpa).
  assert (exists n', unmap_phys VMAType.Flexible start ((k0, a0) :: r0) n0 s = Done (n', s1)) as [n' EU].
  { rewrite Ety in E. destruct (v_phys v) eqn:Ep; [done|]. rewrite <- Ep in *. run_inv. rewrite Ef in E0.
    injection E0 as <-. eauto. }
  pose proof (fo_usage _ _ _ _ HF) as Eu.
  apply unmap_flexible_run in EU as (EU & _ & _ & Hus); [|done|rewrite Eu; apply dma_bytes_word, Hwf].
  apply (release_areas_inv PMT.Flexible _ _ _ k0 (v_size v)) in EU as (-> & HL); try lia; try (by apply Hwf); auto.
  2: { replace (Z.max k0 start) with start by lia. destruct HR as [HR1 HR2]. split.
       - intros x Hx. rewrite <- Hpa by lia. by apply HR1.
       - intros x x' b b' Hx Hx'. rewrite <- !Hpa by lia. by apply HR2. }
  replace (Z.max k0 start) with start in HL by lia. rewrite Z.sub_0_r in Hus.
  assert (PMT.Flexible <> PMT.Free) as Hne by done. split.
  - intros x y Hx. rewrite Hfl in Hx. destruct (in_range _ _ _) eqn:Er; [done|]. apply in_range_false in Er.
    destruct (fo_back _ _ _ _ HF _ _ Hx) as (t & Hy). exists t. rewrite (rl_frame _ _ _ _ _ _ _ HL); [done|].
    intros x' b Hx' Eb <-. rewrite <- Hpa in Eb by lia.
    pose proof (fo_inj _ _ _ _ HF _ _ _ Hx (Hfx x' b Hx' Eb)). lia.
  - intros x x' y Hx Hx'. rewrite Hfl in Hx, Hx'. destruct (in_range _ _ x); [done|].
    destruct (in_range _ _ x'); [done|]. by eapply (fo_inj _ _ _ _ HF).
  - rewrite Hus, (rl_bytes _ _ _ _ _ _ _ HL Hne), <- Eu.
    apply u64_small. rewrite Eu, <- (rl_bytes _ _ _ _ _ _ _ HL Hne). apply dma_bytes_word, HL.
  - pose proof (fo_cap _ _ _ _ HF). rewrite Hus.
    rewrite u64_small; [lia|]. rewrite Eu, <- (rl_bytes _ _ _ _ _ _ _ HL Hne). apply dma_bytes_word, HL.
  - apply (rl_flat _ _ _ _ _ _ _ HL); [by left|apply HF].
Qed.

(** ** Every operation keeps flexible memory accounted for *)

Definition flex_inv (cap : Z) (s : MemoryManager) : Prop := flex_ok cap (vma_map s) (fmem_map s) (flexible_usage s).

(** The flexible pool has [ORBIS_KERNEL_FLEXIBLE_MEMORY_SIZE] bytes. *)
Lemma flexible_bytes_le d s : phys_wf s -> dma_bytes d (fmem_map s) <= ORBIS_KERNEL_FLEXIBLE_MEMORY_SIZE.
Proof.
  intros [_ _ _ Hf (b & Hc & He)].
  assert (wf_from b (fmem_map s)) as Hb.
  { destruct (fmem_map s) as [|[k a] m]; [done|]. cbn in Hc, Hf |- *. intuition lia. }
  pose proof (bytes_le_end b (fun a => bool_decide (p_dma a = d)) _ Hb). unfold dma_bytes. lia.
Qed.

(** ** Unmapping *)

Lemma unmap_loop_flex cap fuel addr size d s s' :
  mm_wf s -> flex_inv cap s -> unmap_loop fuel addr size d s = Done s' -> flex_inv cap s'.
Proof.
  revert d s; induction fuel as [|fuel IH]; intros d s Hwf HF H; cbn in H; [done|].
  apply obind_Done in H as ([k v] & Ef & H). apply obind_Done in H as ([n s1] & E & H).
  apply obind_Done in H as (u & _ & H).
  pose proof (UnmapBytes_flex _ _ _ _ _ _ _ _ Hwf (word_wadd _ _) (word_wsub _ _) Ef E HF) as HF1.
  apply UnmapBytesFromEntry_wf in E as [Hwf1 _]; auto with words.
  destruct (_ <? size); [by eapply IH, H|by injection H as <-].
Qed.

Lemma clear_loop_flex cap fuel a n k v s s' :
  mm_wf s -> flex_inv cap s -> word a -> word n -> FindVMA (vma_map s) a = Done (k, v) ->
  clear_loop fuel a n v s = Done s' -> flex_inv cap s'.
Proof.
  revert a n k v s; induction fuel as [|fuel IH]; intros a n k v s Hwf HF Ha Hn Hf H; cbn in H;
    destruct (negb _); try by run_inv.
  apply obind_Done in H as ([m s1] & E & H). apply obind_Done in H as ([k1 v1] & Ef & H).
  pose proof (UnmapBytes_flex _ _ _ _ _ _ _ _ Hwf Ha Hn Hf E HF) as HF1.
  apply UnmapBytesFromEntry_wf in E as [Hwf1 _]; auto. eapply IH; [..|exact Ef|exact H]; auto with words.
Qed.

Lemma flex_inv_same cap s s' :
  vma_map s' = vma_map s -> fmem_map s' = fmem_map s -> flexible_usage s' = flexible_usage s ->
  flex_inv cap s -> flex_inv cap s'.
Proof. unfold flex_inv. by intros -> -> ->. Qed.

Lemma UnmapMemoryImpl_flex cap a n s r s' :
  mm_wf s -> flex_inv cap s -> UnmapMemoryImpl a n s = Done (r, s') -> flex_inv cap s'.
Proof. unfold UnmapMemoryImpl. intros ? ? H. run_inv. by eapply unmap_loop_flex. Qed.

Lemma gpu_unmap_flex cap a n s : flex_inv cap s -> flex_inv cap (gpu_unmap a n s).
Proof. unfold gpu_unmap. by destruct (IsValidGpuMapping a n). Qed.

Lemma UnmapMemory_flex cap a n s r s' : mm_wf s -> flex_inv cap s -> UnmapMemory a n s = Done (r, s') -> flex_inv cap s'.
Proof.
  unfold UnmapMemory. intros ? HF H. destruct (n =? 0); [by run_inv|]. run_inv.
  eapply UnmapMemoryImpl_flex in E0; [exact E0|auto with areas|]. by apply gpu_unmap_flex.
Qed.

Lemma unmap_all_flex cap l s s' : mm_wf s -> flex_inv cap s -> unmap_all l s = Done s' -> flex_inv cap s'.
Proof.
  revert s; induction l as [|[a n] l IH]; intros s Hwf HF H; cbn in H; [by run_inv|]. run_inv.
  pose proof (UnmapMemoryImpl_flex _ _ _ _ _ _ Hwf HF E). apply UnmapMemoryImpl_wf in E; [|done]. by eapply IH, H.
Qed.

Lemma Free_flex cap pa n c s r s' : mm_wf s -> flex_inv cap s -> Free pa n c s = Done (r, s') -> flex_inv cap s'.
Proof.
  unfold Free. intros Hwf HF H. destruct (_ || _)%bool; [by run_inv|]. run_inv.
  destruct (collect_free _ _ _ _); [|by run_inv]. run_inv.
  eapply unmap_all_flex in E0; [exact E0|by apply mm_wf_begin, mm_wf_fold_gpu|].
  apply (flex_inv_same _ (foldl (fun s '(addr, n) => gpu_unmap addr n s) s (collect_remove (vma_map s) pa n)));
    try done. clear -HF. generalize (collect_remove (vma_map s) pa n). intros rl. revert s HF.
  induction rl as [|[a0 m0] rl IH]; intros s HF; cbn; [done|]. by apply IH, gpu_unmap_flex.
Qed.

(** ** Mapping *)

Lemma cleared_flex cap flags a n s s1 :
  mm_wf s -> flex_inv cap s -> word a -> word n -> cleared flags a n s s1 -> flex_inv cap s1.
Proof.
  unfold cleared. intros Hwf HF Ha Hn H. destruct (has _ _); [|by subst].
  destruct H as [(k & v & Ef & H) _]. eapply clear_loop_flex; [exact Hwf|exact HF|exact Ha|exact Hn|exact Ef|exact H].
Qed.

(** A range that becomes something else than flexible memory. *)
Lemma overwrite_flex cap m m' fm u a n (f : Z -> page) :
  (forall x, view m' x = if in_range a n x then Some (f x) else view m x) ->
  (forall x, g_type (f x) <> VMAType.Flexible) -> flex_ok cap m fm u -> flex_ok cap m' fm u.
Proof.
  intros Hv Ht. apply flex_ok_sub. intros x y. unfold flex_at. rewrite Hv.
  destruct (in_range a n x); [|done]. cbn. unfold flex_page. by rewrite bool_decide_eq_false_2.
Qed.

Lemma taken_flex cap m m' fm fm' u u' a n (f : Z -> page) p' :
  flex_ok cap m fm u -> wf_from 0 fm -> word n -> wadd u n <= cap ->
  (forall x, view m' x = if in_range a n x then Some (f x) else view m x) ->
  (forall x, g_type (f x) = VMAType.Flexible /\ g_back (f x) = phys_at p' (x - a)) ->
  taken PMT.Free PMT.Flexible 0 n [] p' fm fm' -> (word u -> u' = u64 (u + n)) ->
  (flat PMT.Flexible fm -> flat PMT.Flexible fm') -> flex_ok cap m' fm' u'.
Proof.
  intros HF Hwf Hn Hcap Hv Hf HT Hu Hflat.
  assert (forall x y, flex_at m' x = Some y ->
    (in_range a n x = true /\ exists b, phys_at p' (x - a) = Some b /\ b_addr b = y) \/
    (in_range a n x = false /\ flex_at m x = Some y)) as Hcase.
  { intros x y. unfold flex_at at 1. rewrite Hv. destruct (in_range a n x); [|by right]. cbn.
    destruct (Hf x) as [Ht Hb]. unfold flex_page. rewrite bool_decide_eq_true_2, Hb by done.
    destruct (phys_at p' (x - a)) as [b|]; [|done]. intros [= <-]. left. split; [done|by exists b]. }
  assert (forall x b, in_range a n x = true -> phys_at p' (x - a) = Some b ->
    (exists t, view fm (b_addr b) = Some (t, PMT.Free)) /\ view fm' (b_addr b) = Some (b_mtype b, PMT.Flexible)) as Hnew.
  { intros x b Hx Eb. apply in_range_true in Hx.
    destruct (tk_new _ _ _ _ _ _ _ _ HT (x - a) ltac:(lia)) as (b0 & E0 & _ & ? & ?).
    rewrite Eb in E0. by injection E0 as ->. }
  split.
  - intros x y Hx. destruct (Hcase x y Hx) as [(Hr & b & Eb & <-)|(_ & Ho)].
    + destruct (Hnew x b Hr Eb) as [_ ?]. eauto.
    + destruct (fo_back _ _ _ _ HF _ _ Ho) as (t & Ht). exists t. by apply (tk_frame _ _ _ _ _ _ _ _ HT).
  - intros x x' y Hx Hx'.
    destruct (Hcase x y Hx) as [(Hr & b & Eb & <-)|(_ & Ho)], (Hcase x' _ Hx') as [(Hr' & b' & Eb' & E')|(_ & Ho')].
    + apply in_range_true in Hr, Hr'. assert (x - a = x' - a); [|lia].
      eapply (tk_inj _ _ _ _ _ _ _ _ HT); [lia|lia|exact Eb|exact Eb'|done].
    + destruct (Hnew x b Hr Eb) as [(t & Hfree) _]. destruct (fo_back _ _ _ _ HF _ _ Ho') as (t' & ?). congruence.
    + destruct (Hnew x' b' Hr' Eb') as [(t & Hfree) _]. destruct (fo_back _ _ _ _ HF _ _ Ho) as (t' & ?). congruence.
    + by eapply (fo_inj _ _ _ _ HF).
  - pose proof (fo_usage _ _ _ _ HF) as Eu. rewrite Hu by (rewrite Eu; by apply dma_bytes_word).
    rewrite Eu, <- (tk_bytes _ _ _ _ _ _ _ _ HT). apply u64_small, dma_bytes_word, HT.
  - pose proof (fo_usage _ _ _ _ HF) as Eu. by rewrite Hu by (rewrite Eu; by apply dma_bytes_word).
  - apply Hflat, HF.
Qed.

Lemma MapMemory_flex cap a n p f t nm vd pa al s ret out s' :
  mm_wf s -> flex_inv cap s -> word a -> word n -> word pa -> t <> VMAType.Pooled ->
  total_flexible_size s <= cap -> MapMemory a n p f t nm vd pa al s = Done (ret, out, s') -> flex_inv cap s'.
Proof.
  intros Hwf HF Ha Hn Hpa Hty Hcap H.
  destruct (MapMemory_inv _ _ _ _ _ _ _ _ _ _ _ _ _ Hwf Ha Hn Hpa Hty H) as
    [(_ & _ & ->)|(Hret & ad & s1 & s2 & p' & _ & Hpl & HM)]; [done|].
  destruct HM as [_ [Hwf1 Hcl] _ (m & HB) (_ & Efm & Eus & _) Hv Hwf'].
  assert (forall c, flex_inv c s -> flex_inv c s1) as HFc.
  { intros c HFc. eapply cleared_flex; [| | |exact Hn|exact Hcl]; [auto with areas|by apply gpu_unmap_flex|].
    exact (place_word _ _ _ _ _ _ Ha Hpl). }
  pose proof (HFc _ HF) as HF1.
  unfold flex_inv. rewrite Efm, Eus.
  assert (t <> VMAType.Flexible -> fmem_map s2 = fmem_map s1 /\ flexible_usage s2 = flexible_usage s1) as Hother.
  { intros Hne. destruct t; cbn in HB; try done; try (by destruct HB as [-> _]). by destruct HB as [(ev & ->) _]. }
  destruct (decide (t = VMAType.Flexible)) as [->|Hne].
  - cbn in HB. destruct HB as (_ & HT & Hu & Hfl). cbn in HT, Hu, Hfl.
    eapply taken_flex; [exact HF1|apply Hwf1|exact Hn| |exact Hv| |exact HT|exact Hu|exact Hfl]; [|done].
    assert (wadd (flexible_usage s) n <= total_flexible_size s) as Hfit.
    { unfold MapMemory in H. destruct (_ && _)%bool eqn:Ec in H; [injection H as <- _ _; done|].
      rewrite bool_decide_eq_true_2 in Ec by done. bool_prop. destruct Ec as [Ec|Ec]; [done|bool_prop; lia]. }
    pose proof (fo_cap _ _ _ _ (HFc (flexible_usage s) ltac:(destruct HF; split; auto; lia))) as Hle.
    pose proof (tk_bytes _ _ _ _ _ _ _ _ HT) as Hb. rewrite <- Efm in Hb.
    pose proof (flexible_bytes_le PMT.Flexible _ (mw_phys _ Hwf')).
    pose proof (flexible_bytes_le PMT.Flexible _ (mw_phys _ Hwf)).
    pose proof (dma_bytes_word PMT.Flexible _ (pw_fmem _ (mw_phys _ Hwf1))) as [? _].
    pose proof (fo_usage _ _ _ _ HF). pose proof (fo_usage _ _ _ _ HF1). unfold word in Hn.
    unfold ORBIS_KERNEL_FLEXIBLE_MEMORY_SIZE in *. rewrite wadd_small in Hfit |- * by word_lia. lia.
  - destruct (Hother Hne) as [-> ->]. eapply overwrite_flex; [exact Hv| |exact HF1]. done.
Qed.

Lemma MapFile_flex cap file hp a n p f fd pa s ret out s' :
  mm_wf s -> flex_inv cap s -> word a -> word n ->
  MapFile file hp a n p f fd pa s = Done (ret, out, s') -> flex_inv cap s'.
Proof.
  intros Hwf HF Ha Hn H.
  destruct (MapFile_inv _ _ _ _ _ _ _ _ _ _ _ _ Hwf Ha Hn H) as
    (_ & [(_ & _ & ->)|(_ & fi & ad & s1 & _ & _ & Hwa & Hwf1 & Hcl & Efm & Eus & Hv)]); [done|].
  assert (flex_inv cap s1) as HF1.
  { eapply cleared_flex; [| |exact Hwa|exact Hn|exact Hcl]; [auto with areas|by apply gpu_unmap_flex]. }
  unfold flex_inv. rewrite Efm, Eus. by eapply overwrite_flex; [exact Hv| |exact HF1].
Qed.

(** ** Pools *)

Lemma commit_frame_flex fuel it h ma cur rem t s r s' :
  commit_loop fuel it h ma cur rem t s = Done (r, s') ->
  fmem_map s' = fmem_map s /\ flexible_usage s' = flexible_usage s.
Proof.
  revert it cur rem s; induction fuel as [|fuel IH]; intros it cur rem s H; cbn in H;
    (destruct it as [k|]; [|by run_inv]); (destruct (negb (0 <? rem)); [by run_inv|]); [done|].
  apply obind_Done in H as (a & _ & H). destruct (negb _); [by apply IH in H|].
  run_inv. apply IH in H as [-> ->]. unfold add_backing in E1. by run_inv.
Qed.

Lemma PoolCommit_flex cap a n p t s r s' :
  mm_wf s -> flex_inv cap s -> word a -> word n -> PoolCommit a n p t s = Done (r, s') -> flex_inv cap s'.
Proof.
  intros Hwf HF Ha Hn H.
  assert (fmem_map s' = fmem_map s /\ flexible_usage s' = flexible_usage s) as [Efm Eus].
  { clear Ha Hn. unfold PoolCommit in H. apply obind_Done in H as (u & _ & H). apply obind_Done in H as ([k v] & _ & H).
    destruct (negb _); [by run_inv|]. destruct (negb _); [by run_inv|]. destruct (_ <=? _); [by run_inv|].
    run_inv. apply commit_frame_flex in E0 as [E0 E0']. unfold gpu_map.
    by destruct (IsValidGpuMapping _ _). }
  unfold flex_inv. rewrite Efm, Eus.
  destruct (PoolCommit_inv _ _ _ _ _ _ _ Hwf Ha Hn H) as
    (_ & [(_ & -> & _)|(_ & _ & _ & p' & _ & Hv)]); [done|]. by eapply overwrite_flex; [exact Hv| |exact HF].
Qed.

Lemma decommit_loop_flex cap fuel a n s s' :
  mm_wf s -> flex_inv cap s -> word a -> word n -> decommit_loop fuel a n s = Done s' -> flex_inv cap s'.
Proof.
  revert a n s; induction fuel as [|fuel IH]; intros a n s Hwf HF Ha Hn H; cbn in H; destruct (n =? 0); try by run_inv.
  apply obind_Done in H as ([m s1] & E & H).
  assert (fmem_map s1 = fmem_map s /\ flexible_usage s1 = flexible_usage s) as [Efm Eus].
  { clear H. unfold decommit_entry in E. apply obind_Done in E as ([k0 v0] & _ & E).
    apply obind_Done in E as (s2 & E2 & E).
    assert (fmem_map s2 = fmem_map s /\ flexible_usage s2 = flexible_usage s) as [<- <-]
      by (destruct (bool_decide _); run_inv; done). clear E2. by run_inv. }
  apply decommit_entry_effect in E as (Hwf1 & ? & ? & Hu); auto.
  eapply IH; [exact Hwf1| |..|exact H]; auto with words.
  unfold flex_inv. rewrite Efm, Eus. eapply flex_ok_sub; [|exact HF]. by eapply updated_flex_sub.
Qed.

Lemma PoolDecommit_flex cap a n s r s' :
  mm_wf s -> flex_inv cap s -> word a -> word n -> PoolDecommit a n s = Done (r, s') -> flex_inv cap s'.
Proof.
  intros Hwf HF Ha Hn H. unfold PoolDecommit in H. apply obind_Done in H as (u & _ & H).
  apply obind_Done in H as (vs & _ & H). destruct (negb _); [by run_inv|]. run_inv.
  eapply decommit_loop_flex in E; [exact E|auto with areas| |done|done]. by apply gpu_unmap_flex.
Qed.

(** ** Attributes *)

Lemma ProtectBytes_flex cap a k n p s r s' :
  mm_wf s -> flex_inv cap s -> word a -> word n -> ProtectBytes a k n p s = Done (r, s') -> flex_inv cap s'.
Proof.
  intros Hwf HF Ha Hn H. unfold ProtectBytes in H. apply obind_Done in H as (v & _ & H).
  set (sz := Z.min _ n) in H. assert (word sz) as Hsz by (unfold sz; auto with words).
  destruct (_ || _)%bool; [by run_inv|].
  apply obind_Done in H as ([h m1] & EC & H). apply obind_Done in H as ([k2 m2] & EM & H).
  destruct (update_effect _ _ _ _ _ _ _ _ _ (mw_vmas _ Hwf) Ha Hsz (fun_prot _) EC EM) as (Hu & _).
  assert (flex_ok cap m2 (fmem_map s) (flexible_usage s)) as HF2.
  { eapply flex_ok_sub; [|exact HF]. by eapply updated_flex_sub. }
  apply obind_Done in H as (w' & _ & H). destruct (bool_decide _); try destruct (negb _); by run_inv.
Qed.

Lemma protect_loop_flex cap fuel a n pb p s r s' :
  mm_wf s -> flex_inv cap s -> protect_loop fuel a n pb p s = Done (r, s') -> flex_inv cap s'.
Proof.
  revert pb s; induction fuel as [|fuel IH]; intros pb s Hwf HF H; cbn in H; destruct (negb _); try by run_inv.
  apply obind_Done in H as ([k v] & _ & H). apply obind_Done in H as ([m s1] & E & H).
  pose proof (ProtectBytes_flex _ _ _ _ _ _ _ _ Hwf HF (word_wadd _ _) (word_wsub _ _) E).
  apply ProtectBytes_wf in E; auto with words. destruct (m <? 0); [by run_inv|]. by eapply IH, H.
Qed.

Lemma Protect_flex cap a n p s r s' : mm_wf s -> flex_inv cap s -> Protect a n p s = Done (r, s') -> flex_inv cap s'.
Proof.
  intros Hwf HF H. unfold Protect in H. destruct (n =? 0); [by run_inv|]. run_inv.
  eapply protect_loop_flex in E0; [exact E0|auto with areas|done].
Qed.

Lemma merge_flex m h k2 m2 : wf_from 0 m -> vma_MergeAdjacent m h = Done (k2, m2) -> forall x, flex_at m2 x = flex_at m x.
Proof. intros Hwf H x. apply merge_same in H as [_ H]; [|done]. unfold flex_at. by rewrite H. Qed.

Lemma advance_flex m h cur it m2 :
  wf_from 0 m -> merge_and_advance m h cur = Done (it, m2) -> forall x, flex_at m2 x = flex_at m x.
Proof.
  intros Hwf H. unfold merge_and_advance in H. apply obind_Done in H as ([k3 m3] & EM & H).
  apply obind_Done in H as (v & _ & H). pose proof (merge_flex _ _ _ _ Hwf EM). destruct (_ <=? cur); by run_inv.
Qed.

(** An overwrite of one area that keeps its range, type and addresses. *)
Lemma malter_flex f h m :
  (forall v x, mlookup h m = Some v ->
     v_base (f v) = v_base v /\ v_size (f v) = v_size v /\ flex_page (r_attr (f v) x) = flex_page (r_attr v x)) ->
  forall x, flex_at (malter f h m) x = flex_at m x.
Proof.
  intros Hf x. unfold flex_at. induction m as [|[k v] m IH]; cbn [malter mlookup view] in *; [done|].
  destruct (Z.eqb_spec k h).
  - destruct (Hf v x eq_refl) as (Hb & Hs & Ha). cbn [view]. unfold covers. cbn [r_base r_size vma_area].
    rewrite Hb, Hs. destruct (_ && _)%bool; [exact Ha|done].
  - cbn [view]. destruct (covers v x); [done|]. by apply IH.
Qed.

Lemma name_loop_flex fuel it cur rem nm m m' :
  wf_from 0 m -> word cur -> word rem -> name_loop fuel it cur rem nm m = Done m' ->
  forall x, flex_at m' x = flex_at m x.
Proof.
  revert it cur rem m; induction fuel as [|fuel IH]; intros it cur rem m Hwf Hc Hr H; cbn in H;
    (destruct it as [h|]; [|by run_inv]); (destruct (negb _); [by run_inv|]); [done|].
  apply obind_Done in H as (v & _ & H). set (n := Z.min rem _) in H.
  assert (word n) as Hn by (unfold n; auto with words).
  apply obind_Done in H as ([h1 m1] & E1 & H). apply obind_Done in H as ([it2 m2] & E2 & H).
  assert (wf_from 0 m1 /\ forall x, flex_at m1 x = flex_at m x) as [Hw1 Hf1].
  { unfold rename_entry in E1. destruct (negb _); [|by run_inv]. destruct (n <? v_size v); run_inv.
    - destruct (carve_same _ _ _ _ _ Hwf Hc Hn E) as [Hwc Hvc]. split; [by eapply malter_wf, Hwc; apply fun_name|].
      intros x. rewrite malter_flex by done. unfold flex_at. by rewrite Hvc.
    - split; [eapply malter_wf; [apply fun_name|done]|]. intros x. by rewrite malter_flex. }
  pose proof (advance_flex _ _ _ _ _ Hw1 E2) as Hf2. apply merge_and_advance_wf in E2; [|done].
  intros x. rewrite (IH _ _ _ _ E2 (word_wadd _ _) (word_wsub _ _) H), Hf2, Hf1. done.
Qed.

Lemma NameVirtualRange_flex cap a n nm s s' : mm_wf s -> flex_inv cap s -> NameVirtualRange a n nm s = Done s' -> flex_inv cap s'.
Proof.
  intros Hwf HF H. unfold NameVirtualRange in H. run_inv.
  eapply flex_ok_sub; [|exact HF]. intros x y Hx.
  rewrite <- (name_loop_flex _ _ _ _ _ _ _ (mw_vmas _ Hwf) (word_align_down _ _) (word_align_up _ _) E1 x).
  exact Hx.
Qed.

Lemma retype_areas_at areas t m areas' m' :
  retype_areas areas t m = Done (areas', m') -> forall x, b_addr <$> phys_at areas' x = b_addr <$> phys_at areas x.
Proof.
  revert m areas'; induction areas as [|[off a] areas IH]; intros m areas' H x; cbn in H; [by run_inv|]. run_inv.
  cbn. destruct (_ && _)%bool; [done|]. by eapply IH.
Qed.

Lemma retype_entry_flex cap h v cur n t s h1 s1 :
  mm_wf s -> flex_inv cap s -> word cur -> word n -> retype_entry h v cur n t s = Done (h1, s1) -> flex_inv cap s1.
Proof.
  intros Hwf HF Hc Hn H. unfold retype_entry in H. destruct (_ || _)%bool; [|by run_inv]. run_inv.
  destruct (carve_same _ _ _ _ _ (mw_vmas _ Hwf) Hc Hn E) as [_ Hv].
  eapply flex_ok_sub; [|exact HF]. intros x y Hx.
  change (flex_at (malter (v_with_phys o0) h1 o) x = Some y) in Hx.
  rewrite malter_flex in Hx; [unfold flex_at in *; by rewrite Hv in Hx|].
  intros w z Hw. rewrite E0 in Hw. injection Hw as <-. split_and!; [done|done|]. unfold flex_page. cbn.
  by destruct (bool_decide _); [rewrite (retype_areas_at _ _ _ _ _ E1)|].
Qed.

Lemma retype_loop_flex cap fuel it cur rem t s s' :
  mm_wf s -> flex_inv cap s -> word cur -> word rem -> retype_loop fuel it cur rem t s = Done s' -> flex_inv cap s'.
Proof.
  revert it cur rem s; induction fuel as [|fuel IH]; intros it cur rem s Hwf HF Hc Hr H; cbn in H;
    (destruct it as [h|]; [|by run_inv]); (destruct (negb _); [by run_inv|]); [done|].
  apply obind_Done in H as (v & _ & H). apply obind_Done in H as ([h1 s1] & E1 & H).
  apply obind_Done in H as ([it2 m2] & E2 & H).
  pose proof E1 as E1'. apply (retype_entry_flex cap) in E1'; auto with words. apply retype_entry_wf in E1; auto with words.
  pose proof (advance_flex _ _ _ _ _ (mw_vmas _ E1) E2) as Hf2.
  apply merge_and_advance_wf in E2; [|auto with areas].
  eapply IH; [..|exact H]; auto with words areas.
  eapply flex_ok_sub; [|exact E1']. intros x y Hx. rewrite <- Hf2. exact Hx.
Qed.

Lemma SetDirectMemoryType_flex cap a n t s r s' :
  mm_wf s -> flex_inv cap s -> word a -> word n -> SetDirectMemoryType a n t s = Done (r, s') -> flex_inv cap s'.
Proof.
  intros Hwf HF Ha Hn H. unfold SetDirectMemoryType in H. run_inv.
  eapply retype_loop_flex in E1; [exact E1|auto with areas|done|done|done].
Qed.

Lemma PoolExpand_flex cap a b n al s r s' : flex_inv cap s -> PoolExpand a b n al s = Done (r, s') -> flex_inv cap s'.
Proof.
  unfold PoolExpand. intros HF H. run_inv. destruct (search_dmem _ _ _ _) as [[d m0]|]; run_inv; done.
Qed.

Lemma Allocate_flex cap a b n al t s r s' : flex_inv cap s -> Allocate a b n al t s = Done (r, s') -> flex_inv cap s'.
Proof.
  unfold Allocate. intros HF H. run_inv. destruct (search_dmem _ _ _ _) as [[d m0]|]; [|by run_inv].
  destruct (b <? _); run_inv; done.
Qed.
