(* ===== verification/MemReach.v ===== *)
(** * MemReach: the invariant of every reachable state

    The state machine of the memory manager: it is built, sized by the
    loader, then runs any sequence of its operations on any arguments, except
    that [MapMemory] is not asked for an area of type [Pooled]: no caller in
    the program asks for one, and the area would have no physical memory
    ([MemSpec.map_pooled_is_unbacked]).  The invariant holds in every state
    such a sequence reaches. *)

From S2P Require Import Prelude OrdMap MemTypes PhysFacts VmaFacts MemOps MemInv MemMap.
From S2P Require Import MemEffects MemAttrs FlexFacts.

(** ** Boot *)

(** [GetUsableRegions] returns disjoint ranges in ascending order. *)
Fixpoint regions_ok (lo : Z) (regions : list (Z * Z)) : Prop :=
  match regions with
  | [] => True
  | (lower, upper) :: rest => lo <= lower /\ lower < upper /\ upper < W64 /\ regions_ok upper rest
  end.

Lemma initial_vmas_wf lo regions m :
  0 <= lo -> end_from 0 m <= lo -> wf_from 0 m -> regions_ok lo regions -> wf_from 0 (initial_vmas regions m).
Proof.
  revert lo m; induction regions as [|[a b] rest IH]; intros lo m Hlo He Hwf Hr; cbn in *; [done|].
  destruct Hr as (? & ? & ? & Hr). rewrite wsub_small by lia.
  assert (below a m) as Hb by (eapply below_mono; [|by apply (wf_below 0)]; lia).
  rewrite <- (app_nil_r m), memplace_absent by (done || constructor).
  apply (IH b); [lia|rewrite end_app; cbn; lia| |done].
  apply wf_app. split; [done|]. cbn. split_and!; try lia. by split; cbn; [lia|].
Qed.

Lemma initial_vmas_free regions m :
  Forall (fun e => v_type e.2 = VMAType.Free) m ->
  Forall (fun e => v_type e.2 = VMAType.Free) (initial_vmas regions m).
Proof.
  revert m; induction regions as [|[a b] rest IH]; intros m Hm; cbn; [done|]. apply IH.
  unfold memplace. destruct (mlookup a m); [done|]. clear -Hm.
  induction Hm as [|[k v] m Hv Hm IHm]; cbn; [by repeat constructor|].
  destruct (a <? k); [by repeat constructor|]. destruct (a =? k); by repeat constructor.
Qed.

Lemma flex_at_free m x : Forall (fun e => v_type e.2 = VMAType.Free) m -> flex_at m x = None.
Proof.
  unfold flex_at. induction 1 as [|[k v] m Hv _ IH]; cbn in *; [done|].
  destruct (covers v x); [|done]. cbn. unfold flex_page. cbn. by rewrite Hv.
Qed.

(** A manager as the loader leaves it: constructed over the usable regions,
    then sized with [SetupMemoryRegions] ([extra] is the configured extra
    direct memory in MB). *)
Definition booted (s : MemoryManager) : Prop :=
  exists space regions extra sdk neo dev flex ext1 ext2,
    regions_ok 0 regions /\ 0 <= extra <= 1048576 /\
    SetupMemoryRegions neo dev extra flex ext1 ext2 (MemoryManager_ctor space regions extra sdk) = Done s /\
    0 < total_direct_size s.

(** ** The invariant *)

Record mm_inv (s : MemoryManager) : Prop := {
  mi_wf : mm_wf s;
  mi_flex : flex_inv (total_flexible_size s) s;
  mi_gen : MemoryMapGeneration.active (mapping_generation s) = None /\
    Z.even (MemoryMapGeneration.value (mapping_generation s)) = true;
}.

Lemma ctor_total extra : 0 <= extra <= 1048576 ->
  (if negb (extra =? 0) then wadd ORBIS_KERNEL_TOTAL_MEM_DEV_PRO (wmul extra (MB 1)) else ORBIS_KERNEL_TOTAL_MEM_DEV_PRO) =
  MB 7936 + extra * MB 1.
Proof.
  intros H. unfold ORBIS_KERNEL_TOTAL_MEM_DEV_PRO. destruct (Z.eqb_spec extra 0) as [->|]; [done|]. cbn [negb].
  unfold wmul. rewrite u64_small by word_lia. rewrite wadd_small by word_lia. done.
Qed.

Lemma booted_inv s : booted s -> mm_inv s.
Proof.
  intros (space & regions & extra & sdk & neo & dev & flex & e1 & e2 & Hr & He & H & Hpos).
  unfold SetupMemoryRegions, MemoryManager_ctor in H. rewrite (ctor_total extra He) in H.
  set (T := MB 7936 + extra * MB 1) in *. assert (0 < T /\ T + 536870912 < W64) as HT by (unfold T; word_lia).
  set (nd := wsub _ flex) in H. assert (word nd) as Hnd by (unfold nd; auto with words).
  cbn [dmem_map flexible_usage total_direct_size] in H. apply obind_Done in H as (u1 & E1 & H). bool_prop.
  apply oassert_Done in E1. bool_prop. apply obind_Done in H as ([k a] & Ef & H).
  assert (k = 0 /\ a = mkPhys 0 T 0 PMT.Free) as [-> ->].
  { unfold FindArea, mle in Ef. cbn [mfind] in Ef. rewrite (proj2 (Z.leb_le 0 nd)) in Ef by apply Hnd.
    cbn in Ef. by injection Ef as <- <-. }
  apply obind_Done in H as (u2 & E2 & H). apply oassert_Done in E2. bool_prop. cbn [p_size] in H1.
  injection H as <-. cbn in Hpos. unfold word in Hnd.
  assert (nd <= T) as Hle.
  { destruct (Z.le_gt_cases nd T); [done|]. unfold wsub, u64 in H1.
    replace ((T - nd) mod W64) with (T - nd + W64) in H1; [lia|]. apply Z.mod_unique_pos with (-1); lia. }
  assert (wsub T (wsub T nd) = nd) as Ewn by (rewrite (wsub_small T nd), wsub_small by lia; lia).
  split; [split; [split|]|split|].
  - cbn. rewrite Ewn. split_and!; try lia; done.
  - cbn. done.
  - cbn. by rewrite Ewn.
  - cbn. unfold ORBIS_KERNEL_FLEXIBLE_MEMORY_SIZE. split_and!; try word_lia; done.
  - cbn. exists T. done.
  - cbn. apply (initial_vmas_wf 0); done.
  - intros x y Hx. rewrite flex_at_free in Hx; [done|]. apply initial_vmas_free. constructor.
  - intros x x' y Hx. rewrite flex_at_free in Hx; [done|]. apply initial_vmas_free. constructor.
  - done.
  - cbn. apply wsub_range.
  - split; cbn [fmem_map with_dmem with_sizes].
    + intros y t Hs. apply starts_cons in Hs as [<-|Hs]; [|by apply starts_nil in Hs]. cbn. unfold covers. cbn.
      destruct (Z.leb_spec T (T - 1)); [lia|done].
    + intros y t d. cbn. destruct (covers _ y); [|done]. by intros [= <- <-]; auto.
  - done.
Qed.

Lemma advances_inv s s' :
  mm_inv s -> mm_wf s' -> (forall cap, total_flexible_size s <= cap -> flex_inv cap s -> flex_inv cap s') ->
  advances s s' -> mm_inv s'.
Proof.
  intros [_ HF [Ha Hev]] Hwf' HF' [Hset Hgen]. unfold settings in Hset.
  assert (total_flexible_size s' = total_flexible_size s) as Et by congruence.
  split; [done|rewrite Et; by apply HF'|].
  destruct Hgen as [->| ->]; [done|]. cbn. split; [done|].
  rewrite wadd_wadd. unfold u64. rewrite Z.even_spec in Hev |- *. destruct Hev as [z Hz]. rewrite Hz.
  exists ((z + 1) mod 9223372036854775808). change W64 with (2 * 9223372036854775808).
  rewrite <- Z.mul_mod_distr_l by done. f_equal. lia.
Qed.

(** ** The state machine

    Arguments are 64-bit words.  [t <> Pooled] is what the callers of
    [MapMemory] keep: the system calls ask for [Reserved], [Direct],
    [Flexible], [PoolReserved] or [Stack], the loader and the thread library
    for [Code], [Reserved], [Flexible], [Stack] or [File]. *)

Inductive step (s : MemoryManager) : MemoryManager -> Prop :=
  | step_SetPrtArea id addr size s' :
      SetPrtArea id addr size s = Done s' -> step s s'
  | step_TryWriteBacking addr data r s' :
      TryWriteBacking addr data s = Done (r, s') -> step s s'
  | step_PoolExpand lo hi size al r s' :
      word size -> PoolExpand lo hi size al s = Done (r, s') -> step s s'
  | step_Allocate lo hi size al t r s' :
      word size -> Allocate lo hi size al t s = Done (r, s') -> step s s'
  | step_Free pa size chk r s' :
      word pa -> word size -> Free pa size chk s = Done (r, s') -> step s s'
  | step_MapMemory addr size prot flags t name vd pa al r out s' :
      word addr -> word size -> word pa -> t <> VMAType.Pooled ->
      MapMemory addr size prot flags t name vd pa al s = Done (r, out, s') -> step s s'
  | step_MapFile file hp addr size prot flags fd pa r out s' :
      word addr -> word size -> MapFile file hp addr size prot flags fd pa s = Done (r, out, s') -> step s s'
  | step_PoolCommit addr size prot t r s' :
      word addr -> word size -> PoolCommit addr size prot t s = Done (r, s') -> step s s'
  | step_PoolDecommit addr size r s' :
      word addr -> word size -> PoolDecommit addr size s = Done (r, s') -> step s s'
  | step_UnmapMemory addr size r s' :
      UnmapMemory addr size s = Done (r, s') -> step s s'
  | step_Protect addr size prot r s' :
      Protect addr size prot s = Done (r, s') -> step s s'
  | step_SealGuestExecutable addr size r s' :
      SealGuestExecutable addr size s = Done (r, s') -> step s s'
  | step_SetDirectMemoryType addr size t r s' :
      word addr -> word size -> SetDirectMemoryType addr size t s = Done (r, s') -> step s s'
  | step_NameVirtualRange addr size name s' :
      NameVirtualRange addr size name s = Done s' -> step s s'
  | step_InvalidateMemory addr size : step s (InvalidateMemory addr size s).

Inductive reachable : MemoryManager -> Prop :=
  | reach_boot s : booted s -> reachable s
  | reach_step s s' : reachable s -> step s s' -> reachable s'.

(** An operation that only records events or apertures. *)
Lemma inv_same s s' :
  dmem_map s' = dmem_map s -> fmem_map s' = fmem_map s -> vma_map s' = vma_map s ->
  flexible_usage s' = flexible_usage s -> total_direct_size s' = total_direct_size s ->
  total_flexible_size s' = total_flexible_size s -> mapping_generation s' = mapping_generation s ->
  mm_inv s -> mm_inv s'.
Proof.
  intros ? ? ? ? ? Et Eg [Hwf HF Hg]. split; [by eapply mm_wf_same| |by rewrite Eg].
  rewrite Et. by eapply flex_inv_same.
Qed.

Lemma write_vmas_same vs a d n s s' :
  write_vmas vs a d n s = Done s' ->
  exists ev, s' = mkMM (impl s) (dmem_map s) (fmem_map s) (vma_map s) (mapping_generation s) (total_direct_size s)
    (total_flexible_size s) (flexible_usage s) (pool_budget s) (sdk_version s) (prt_areas s) ev.
Proof.
  revert n s; induction vs as [|v vs IH]; intros n s H; cbn in H.
  { injection H as <-. exists (events s). by destruct s. }
  apply obind_Done in H as (ar & _ & H). destruct (write_areas ar _ d n s) as [n1 s1] eqn:E.
  apply IH in H as [ev ->].
  assert (exists ev, s1 = mkMM (impl s) (dmem_map s) (fmem_map s) (vma_map s) (mapping_generation s) (total_direct_size s)
    (total_flexible_size s) (flexible_usage s) (pool_budget s) (sdk_version s) (prt_areas s) ev) as [ev1 ->]; [|by eexists].
  clear -E. revert n s E. induction ar as [|[off pa] ar IH]; intros n s E; cbn in E.
  { injection E as _ <-. exists (events s). by destruct s. }
  destruct (n =? 0); [injection E as _ <-; exists (events s); by destruct s|]. apply IH in E as [ev ->]. by eexists.
Qed.

(** Apply a preservation lemma, reading its arguments off the operation. *)
Ltac by_last lem := eapply lem; [..|eassumption]; done.

Lemma step_inv s s' : mm_inv s -> step s s' -> mm_inv s'.
Proof.
  intros Hi Hst. pose proof Hi as [Hwf HF Hg]. destruct Hst.
  - unfold SetPrtArea in H. run_inv. destruct (prt_mapped a); by apply (inv_same s).
  - unfold TryWriteBacking in H. run_inv. destruct a1; [by run_inv|]. run_inv.
    apply write_vmas_same in E2 as [ev ->]. by apply (inv_same s).
  - eapply advances_inv; [done|by_last PoolExpand_wf|intros; by_last PoolExpand_flex|].
    unfold PoolExpand in H0. run_inv. destruct (search_dmem _ _ _ _) as [[? ?]|]; run_inv; by apply advances_refl.
  - eapply advances_inv; [done|by_last Allocate_wf|intros; by_last Allocate_flex|].
    unfold Allocate in H0. run_inv. destruct (search_dmem _ _ _ _) as [[? ?]|]; [|run_inv; by apply advances_refl].
    destruct (hi <? _); run_inv; by apply advances_refl.
  - eapply advances_inv; [done|by_last Free_wf|intros; by_last Free_flex|by_last Free_advances].
  - eapply advances_inv; [done| |intros; by_last MapMemory_flex|by_last MapMemory_advances].
    destruct (MapMemory_inv _ _ _ _ _ _ _ _ _ _ _ _ _ Hwf H H0 H1 H2 H3) as
      [(_ & _ & ->)|(_ & ? & ? & ? & ? & _ & _ & [])]; done.
  - eapply advances_inv; [done|by_last MapFile_inv|intros; by_last MapFile_flex|by_last MapFile_advances].
  - eapply advances_inv; [done|by_last PoolCommit_inv|intros; by_last PoolCommit_flex|by_last PoolCommit_advances].
  - eapply advances_inv; [done|by_last PoolDecommit_inv|intros; by_last PoolDecommit_flex|by_last PoolDecommit_advances].
  - eapply advances_inv; [done|by_last UnmapMemory_wf|intros; by_last UnmapMemory_flex|by_last UnmapMemory_advances].
  - eapply advances_inv; [done|by_last Protect_wf|intros; by_last Protect_flex|by_last Protect_advances].
  - unfold SealGuestExecutable in H. destruct (size =? 0); [by run_inv|]. run_inv. destruct (_ || _)%bool; [by run_inv|].
    run_inv. destruct a0; run_inv; [by apply (inv_same s)|done].
  - eapply advances_inv; [done|by_last SetDirectMemoryType_wf|intros; by_last SetDirectMemoryType_flex
      |by_last SetDirectMemoryType_advances].
  - eapply advances_inv; [done|by_last NameVirtualRange_wf|intros; by_last NameVirtualRange_flex
      |by_last NameVirtualRange_advances].
  - by apply (inv_same s).
Qed.

Lemma reachable_inv s : reachable s -> mm_inv s.
Proof. induction 1; [by apply booted_inv|by eapply step_inv]. Qed.
