(* ===== verification/MemAlloc.v ===== *)
(** * MemAlloc: the physical allocator and the queries

    [Allocate] and [PoolExpand] search [dmem_map] first fit.  The
    specification: the result is the least aligned address of the window that
    fits inside a free area, or [-1] when there is none. *)

From S2P Require Import Prelude OrdMap MemTypes PhysFacts MemOps MemInv VmaFacts.

(** ** Alignment *)

(** [y] is the least multiple of [al] that is not below [x]. *)
Definition least_aligned (al x y : Z) : Prop :=
  x <= y /\ y mod al = 0 /\ forall z, x <= z -> z mod al = 0 -> y <= z.

Lemma AlignUp_least al x : 0 < al -> 0 <= x -> x + al < W64 -> least_aligned al x (AlignUp x al).
Proof.
  intros Hal Hx Hlt. unfold AlignUp.
  pose proof (Z.mod_pos_bound x al Hal) as Hm. pose proof (Z.mod_le x al Hx Hal) as Hle.
  pose proof (Z.div_mod x al ltac:(lia)) as Hd.
  rewrite wsub_small by lia. destruct (Z.eqb_spec (x mod al) 0) as [E|E].
  - replace (x - x mod al) with x by lia. split_and!; [lia|done|auto].
  - rewrite wadd_small by lia. replace (x - x mod al + al) with (al * (x / al + 1)) by lia. split_and!.
    + lia.
    + rewrite Z.mul_comm. apply Z.mod_mul. lia.
    + intros z Hz Hzm. pose proof (Z.div_mod z al ltac:(lia)) as Hdz. rewrite Hzm in Hdz.
      assert (x / al < z / al) by (apply Z.nle_gt; intros ?; nia). nia.
Qed.

Lemma AlignUp_bound al x : 0 < al -> 0 <= x -> x + al < W64 -> AlignUp x al < x + al.
Proof.
  intros Hal Hx Hlt. destruct (AlignUp_least al x Hal Hx Hlt) as (_ & _ & HL).
  pose proof (Z.mod_pos_bound (- x) al Hal) as Hmb.
  assert (AlignUp x al <= x + (- x) mod al); [|lia].
  apply HL; [lia|]. rewrite Z.add_mod_idemp_r by lia. by rewrite Z.add_opp_diag_r, Z.mod_0_l by lia.
Qed.

(** ** The search *)

(** [p] is an aligned address from [start] on at which [size] bytes fit inside
    the free area [a]. *)
Definition fits_in (start size al : Z) (a : PhysicalMemoryArea) (p : Z) : Prop :=
  p_dma a = PMT.Free /\ p mod al = 0 /\ start <= p /\ p_base a <= p /\ p + size <= p_base a + p_size a.

Lemma search_dmem_spec ss size al lo areas k0 a0 r0 p0 :
  areas = (k0, a0) :: r0 -> wf_from lo areas -> 0 <= lo -> above ss r0 -> 0 <= ss -> 0 < size -> 0 < al ->
  end_from lo areas + al + size < W64 -> p0 + size < W64 -> least_aligned al (Z.max ss k0) p0 ->
  match search_dmem areas p0 size al with
  | Some (k, p) => exists l a r, areas = l ++ (k, a) :: r /\ fits_in ss size al a p /\
      (forall k' a' p', (k', a') ∈ l -> ~ fits_in ss size al a' p') /\
      (forall p', fits_in ss size al a p' -> p <= p')
  | None => forall k' a' p', (k', a') ∈ areas -> ~ fits_in ss size al a' p'
  end.
Proof.
  revert lo k0 a0 r0 p0; induction areas as [|[k a] areas IH]; intros lo k0 a0 r0 p0 Ea Hwf Hlo Hab Hss Hs Hal He Hp0 Hle;
    [done|]. injection Ea as -> -> ->. cbn [search_dmem]. destruct Hle as (Hle1 & Hle2 & Hle3).
  pose proof Hwf as (? & Hk & Hsz & Hlt & _ & Hwf'). cbn in Hk, Hsz, Hlt, Hwf'.
  unfold GetEnd. rewrite !wadd_small by lia.
  destruct (negb _ || _)%bool eqn:Ec.
  2: { bool_prop. exists [], a0, r0. split; [done|]. split; [split_and!; [done|done|lia|lia|lia]|].
       split; [intros ? ? ? Hin; by apply elem_of_nil in Hin|].
       intros p' (_ & Hm & ? & ? & _). apply Hle3; [lia|done]. }
  assert (forall p', ~ fits_in ss size al a0 p') as Hno.
  { intros p' (Hf & Hm & ? & ? & ?). bool_prop. destruct Ec as [Ec|Ec]; bool_prop; [done|].
    assert (p0 <= p') by (apply Hle3; [lia|done]). lia. }
  destruct r0 as [|[k1 a1] r1].
  { intros k' a' p' Hin. apply elem_of_cons in Hin as [Hin|Hin]; [by simplify_eq|by apply elem_of_nil in Hin]. }
  pose proof Hwf' as (? & Hk1 & ? & ? & _). cbn in Hk1.
  apply above_cons in Hab as [? Hab].
  assert (0 <= p_base a1 /\ p_base a1 + al + size < W64) as [? ?].
  { destruct Hwf' as (_ & _ & Hs1 & _ & _ & Hw1). pose proof (wf_end _ _ Hw1) as Hend. cbn in Hs1, Hend, He. lia. }
  assert (least_aligned al (p_base a1) (AlignUp (p_base a1) al)) as HL by (apply AlignUp_least; lia).
  specialize (IH (k0 + p_size a0) k1 a1 r1 (AlignUp (p_base a1) al) eq_refl Hwf' ltac:(lia) Hab Hss Hs Hal).
  cbn in He. specialize (IH He).
  assert (AlignUp (p_base a1) al + size < W64) as Hw by (pose proof (AlignUp_bound al (p_base a1)); lia).
  specialize (IH Hw). replace (Z.max ss k1) with (p_base a1) in IH by lia. specialize (IH HL).
  destruct (search_dmem ((k1, a1) :: r1) _ size al) as [[k p]|].
  - destruct IH as (l & a & r & -> & Hf & Hl & Hmin). exists ((k0, a0) :: l), a, r. split_and!; auto.
    intros k' a' p' [?|Hin]%elem_of_cons; [by simplify_eq|by eapply Hl].
  - intros k' a' p' [?|Hin]%elem_of_cons; [by simplify_eq|by eapply IH].
Qed.

(** ** Keys survive splitting *)

Lemma mlookup_mset {A} k k2 (v : A) m : mlookup k m <> None -> mlookup k (mset k2 v m) <> None.
Proof.
  induction m as [|[k' a] m IH]; cbn; [done|]. destruct (Z.ltb_spec k2 k'); cbn.
  { destruct (Z.eqb_spec k2 k); [done|]. destruct (Z.eqb_spec k' k); done. }
  destruct (Z.eqb_spec k2 k') as [->|]; cbn; destruct (Z.eqb_spec k' k); done || auto.
Qed.

Lemma mlookup_malter {A} (f : A -> A) k k2 m : mlookup k m <> None -> mlookup k (malter f k2 m) <> None.
Proof.
  induction m as [|[k' a] m IH]; cbn; [done|]. destruct (Z.eqb_spec k' k2); cbn; destruct (k' =? k); done || auto.
Qed.

Lemma phys_Split_keeps k m h off h2 m' :
  mlookup k m <> None -> phys_Split m h off = Done (h2, m') -> mlookup k m' <> None.
Proof.
  unfold phys_Split. intros Hk H. run_inv. unfold memplace. destruct (mlookup (wadd _ _) _); auto using @mlookup_mset.
Qed.

Lemma Carve_keeps k m addr size h m' :
  mlookup k m <> None -> CarvePhysArea m addr size = Done (h, m') -> mlookup k m' <> None.
Proof.
  unfold CarvePhysArea. intros Hk H. run_inv.
  assert (mlookup k a2 <> None) as Ha.
  { destruct (negb _) in E3; [|by run_inv]. apply obind_Done in E3 as ([h2 m2] & E3 & [= <-]).
    by eapply phys_Split_keeps. }
  destruct (negb _) in H; [by eapply phys_Split_keeps|by run_inv].
Qed.

(** ** Areas of a list *)

Lemma area_ge lo (m : PhysMap) k a : wf_from lo m -> (k, a) ∈ m -> lo <= k /\ k = p_base a /\ 0 < p_size a.
Proof.
  revert lo; induction m as [|[k1 a1] m IH]; intros lo Hwf Hin; [by apply elem_of_nil in Hin|].
  destruct Hwf as (? & Hk & Hs & _ & _ & Hwf). cbn in Hk, Hs. apply elem_of_cons in Hin as [Hin|Hin].
  - by simplify_eq.
  - destruct (IH _ Hwf Hin) as (? & ? & ?). cbn in *. split_and!; lia.
Qed.

Lemma area_end lo (m : PhysMap) k a : wf_from lo m -> (k, a) ∈ m -> k + p_size a <= end_from lo m.
Proof.
  revert lo; induction m as [|[k1 a1] m IH]; intros lo Hwf Hin; [by apply elem_of_nil in Hin|].
  destruct Hwf as (? & Hk & Hs & _ & _ & Hwf). cbn in *. apply elem_of_cons in Hin as [Hin|Hin].
  - simplify_eq. by apply wf_end in Hwf.
  - by apply IH.
Qed.

(** ** Allocation *)

(** [p] is a fitting address of the window [[start, stop)]. *)
Definition fits (m : PhysMap) (start stop size al p : Z) : Prop :=
  p + size <= stop /\ exists k a, (k, a) ∈ m /\ fits_in start size al a p.

(** Areas before the one that holds [start] have nothing to offer, and areas
    after the one found only offer greater addresses. *)
Lemma fits_first l0 k0 a0 r0 l k a r start size al p :
  wf_from 0 (l0 ++ (k0, a0) :: r0) -> k0 <= start -> 0 < size ->
  (k0, a0) :: r0 = l ++ (k, a) :: r -> fits_in start size al a p ->
  (forall k' a' p', (k', a') ∈ l -> ~ fits_in start size al a' p') ->
  (forall p', fits_in start size al a p' -> p <= p') ->
  forall stop p', fits (l0 ++ (k0, a0) :: r0) start stop size al p' -> p <= p'.
Proof.
  intros Hwf Hk0 Hs Ea Hf Hl Hmin stop p' (_ & k' & a' & Hin & Hf'). pose proof Hf as (_ & _ & _ & _ & Hfe).
  pose proof Hf' as (_ & _ & Hs' & Hb' & He').
  pose proof (wf_mid _ _ _ _ _ Hwf) as (Hw0 & Hend & _). apply elem_of_app in Hin as [Hin|Hin].
  { pose proof (area_end _ _ _ _ Hw0 Hin). pose proof (area_ge _ _ _ _ Hw0 Hin). lia. }
  rewrite Ea in Hin. apply elem_of_app in Hin as [Hin|Hin]; [by destruct (Hl _ _ _ Hin Hf')|].
  apply elem_of_cons in Hin as [Hin|Hin]; [simplify_eq; by apply Hmin|].
  rewrite Ea, app_assoc in Hwf. pose proof (wf_mid _ _ _ _ _ Hwf) as (_ & _ & Hk & _ & _ & _ & Hr & _). cbn in Hk, Hr.
  pose proof (area_ge _ _ _ _ Hr Hin). lia.
Qed.

Lemma fits_none l0 k0 a0 r0 start stop size al :
  wf_from 0 (l0 ++ (k0, a0) :: r0) -> k0 <= start -> 0 < size ->
  (forall k' a' p', (k', a') ∈ (k0, a0) :: r0 -> ~ fits_in start size al a' p') ->
  forall p, ~ fits (l0 ++ (k0, a0) :: r0) start stop size al p.
Proof.
  intros Hwf Hk0 Hs Hn p (_ & k' & a' & Hin & Hf). pose proof Hf as (_ & _ & ? & ? & ?).
  pose proof (wf_mid _ _ _ _ _ Hwf) as (Hw0 & Hend & _). apply elem_of_app in Hin as [Hin|Hin].
  - pose proof (area_end _ _ _ _ Hw0 Hin). pose proof (area_ge _ _ _ _ Hw0 Hin). lia.
  - by destruct (Hn _ _ p Hin).
Qed.

Section search.
Context (m : PhysMap) (ss size al : Z).
Hypothesis Hwf : wf_from 0 m.
Hypothesis Hcont : contiguous 0 m.
Hypothesis Hne : m <> [].
Hypothesis Hss : 0 <= ss.
Hypothesis Hsize : 0 < size.
Hypothesis Hal : 0 < al.
Hypothesis Hfit1 : ss + al + size < W64.
Hypothesis Hfit2 : end_from 0 m + al + size < W64.

Lemma search_ok :
  exists k0 a0 r0, mfind ss m = Some ((k0, a0) :: r0) /\ k0 = p_base a0 /\ k0 <= ss /\
  match search_dmem ((k0, a0) :: r0) (AlignUp ss al) size al with
  | None => forall stop p, ~ fits m ss stop size al p
  | Some (k, p) => exists l a r, m = l ++ (k, a) :: r /\ fits_in ss size al a p /\
      forall stop p', fits m ss stop size al p' -> p <= p'
  end.
Proof using All.
  assert (exists q, mfind ss m = Some q) as [q Eq].
  { destruct m as [|[k a] m']; [done|]. destruct Hcont as [-> _]. cbn.
    rewrite (proj2 (Z.leb_le 0 ss)) by done. destruct (mfind ss m'); eauto. }
  destruct (mfind_split _ _ _ Eq) as (k0 & a0 & l0 & r0 & -> & Em & Hk0 & _).
  destruct (find_hit _ _ _ _ _ _ Hwf Eq) as (l1 & _ & _ & Hb & Hab & _).
  exists k0, a0, r0. split_and!; [done|done|done|].
  pose proof Hwf as Hw. rewrite Em in Hw. apply wf_app in Hw as [Hl0 Hw].
  rewrite Em in Hfit2. rewrite end_app in Hfit2.
  pose proof (search_dmem_spec ss size al (end_from 0 l0) _ k0 a0 r0 (AlignUp ss al) eq_refl Hw (wf_end _ _ Hl0) Hab Hss
    Hsize Hal Hfit2) as HS.
  assert (AlignUp ss al + size < W64) as Hw1 by (pose proof (AlignUp_bound al ss); lia). specialize (HS Hw1).
  replace (Z.max ss k0) with ss in HS by lia. specialize (HS ltac:(apply AlignUp_least; lia)).
  destruct (search_dmem _ _ _ _) as [[k p]|]; rewrite Em.
  - destruct HS as (l & a & r & Ea & Hf & Hl & Hmin). exists (l0 ++ l), a, r. split_and!; [by rewrite Ea, app_assoc|done|].
    eapply fits_first; try eassumption. by rewrite <- Em.
  - intros stop. eapply fits_none; eauto. by rewrite <- Em.
Qed.

(** Carving the block that was found and tagging it. *)
Lemma claim_ok f g k p l a r :
  phys_fun f g -> m = l ++ (k, a) :: r -> fits_in ss size al a p ->
  exists m1, CarvePhysArea m p size = Done (p, m1) /\ phys_like m (malter f p m1) /\
    mlookup k (malter f p m1) <> None /\
    (forall x, p <= x < p + size -> view m x = Some (p_mtype a, PMT.Free)) /\
    forall x, view (malter f p m1) x = if in_range p size x then Some (g (p_mtype a, PMT.Free)) else view m x.
Proof using Hwf Hsize.
  intros Hf Em (Hd & _ & _ & Hb & He).
  pose proof Hwf as Hw. rewrite Em in Hw. pose proof (wf_mid _ _ _ _ _ Hw) as (_ & _ & Hk & _ & _ & _ & _ & Hbl & _).
  cbn in Hk. destruct (CarvePhysArea_ok 0 l k a r p size Hw Hsize ltac:(lia) ltac:(lia)) as (m1 & E & Hc).
  destruct (carved_overwrite _ _ _ _ _ _ _ f g Hw Hf Hc) as (l1 & r1 & mid & Ea & Hw1 & Hend & Hcn & Hv & _).
  exists m1. rewrite Em, Ea. split_and!; [done|split; done| | |].
  - rewrite <- Ea. apply mlookup_malter. eapply Carve_keeps; [|exact E]. by rewrite mlookup_mid.
  - intros x Hx. rewrite (view_mid 0) by (done || cbn; lia). cbn. by rewrite Hd.
  - intros x. rewrite Hv, Hd. done.
Qed.

End search.

(** [Allocate] returns the least fitting address of the window and marks the
    block, or returns [-1] and changes nothing when nothing fits. *)
Lemma Allocate_ok ss stop size al t s :
  let al' := if 0 <? al then al else KB 16 in
  mm_wf s -> 0 < total_direct_size s -> 0 <= ss -> 0 < size -> 0 <= al ->
  ss + al' + size < W64 -> total_direct_size s + al' + size < W64 ->
  (Allocate ss stop size al t s = Done (MINUS_1, s) /\ forall p, ~ fits (dmem_map s) ss stop size al' p) \/
  exists p dm, Allocate ss stop size al t s = Done (p, with_dmem dm s) /\
    fits (dmem_map s) ss stop size al' p /\ (forall p', fits (dmem_map s) ss stop size al' p' -> p <= p') /\
    phys_like (dmem_map s) dm /\
    forall x, view dm x = if in_range p size x then Some (t, PMT.Allocated) else view (dmem_map s) x.
Proof.
  intros al' [[Hd Hdc Hde _ _] _] Htot Hss Hs Hal Hf1 Hf2. rewrite <- Hde in *.
  assert (0 < al') by (unfold al', KB; destruct (Z.ltb_spec 0 al); lia).
  assert (dmem_map s <> []) as Hne by (intros E; rewrite E in Htot; cbn in Htot; lia).
  unfold Allocate. fold al'.
  destruct (search_ok (dmem_map s) ss size al') as (k0 & a0 & r0 & Eq & Hk & Hle & HS); try done.
  rewrite Eq. cbn [of_option obind head]. replace (Z.max ss (p_base a0)) with ss by lia.
  destruct (search_dmem _ _ _ _) as [[k p]|]; [|left; auto].
  destruct HS as (l & a & r & Em & Hf & Hmin). pose proof Hf as (Hfree & _ & Hsp & Hbp & Hep).
  pose proof (area_end 0 _ k a Hd) as Hend. pose proof (area_ge 0 _ k a Hd) as Hge.
  assert ((k, a) ∈ dmem_map s) as Hin by (rewrite Em; apply elem_of_app; right; apply elem_of_cons; by left).
  specialize (Hend Hin). specialize (Hge Hin). rewrite wadd_small by lia.
  destruct (Z.ltb_spec stop (p + size)) as [Hst|Hst].
  { left. split; [done|]. intros p' Hp'. pose proof (Hmin _ _ Hp'). destruct Hp' as [? _]. lia. }
  right. exists p. pose proof (fun_both' t PMT.Allocated) as HF. set (f := fun a0 => _) in HF.
  destruct (claim_ok (dmem_map s) ss size al' Hd Hs f _ k p l a r HF Em Hf) as (m1 & EC & Hlike & Hkey & _ & Hv).
  rewrite EC. cbn [obind]. fold f.
  destruct (mlookup k (malter f p m1)) as [w|] eqn:Ew; [|done].
  destruct (mlookup_split _ _ _ Ew) as (l2 & r2 & E2). pose proof (pl_wf _ _ Hlike) as Hw2. rewrite E2 in Hw2.
  destruct (phys_MergeAdjacent_ok 0 l2 k w r2 Hw2) as (l3 & k3 & w3 & r3 & EM & _ & _ & _ & _ & HSm & _).
  rewrite E2, EM. cbn [obind]. eexists. split; [done|]. split; [split; [done|by exists k, a]|]. split; [by apply Hmin|].
  rewrite E2 in *. split.
  - split; [by apply (sm_wf _ _ _ HSm)|rewrite (sm_end _ _ _ HSm) by done; apply Hlike|].
    intros c Hc. apply (sm_contiguous _ _ _ HSm); [done|by apply Hlike].
  - intros x. rewrite (sm_view _ _ _ HSm) by done. apply Hv.
Qed.

(** [PoolExpand] does the same without looking at the end of the window. *)
Lemma PoolExpand_ok ss stop size al s :
  let al' := if 0 <? al then al else KB 64 in
  let whole := total_direct_size s in
  mm_wf s -> 0 < total_direct_size s -> 0 <= ss -> 0 < size -> 0 <= al ->
  ss + al' + size < W64 -> total_direct_size s + al' + size < W64 ->
  (PoolExpand ss stop size al s = Done (MINUS_1, s) /\ forall p, ~ fits (dmem_map s) ss whole size al' p) \/
  exists p dm, PoolExpand ss stop size al s = Done (p, with_budget (wadd (pool_budget s) size) (with_dmem dm s)) /\
    fits (dmem_map s) ss whole size al' p /\ (forall p', fits (dmem_map s) ss whole size al' p' -> p <= p') /\
    phys_like (dmem_map s) dm /\
    forall x, view dm x = if in_range p size x then Some (3, PMT.Pooled) else view (dmem_map s) x.
Proof.
  intros al' whole [[Hd Hdc Hde _ _] _] Htot Hss Hs Hal Hf1 Hf2. unfold whole. rewrite <- Hde in *.
  assert (0 < al') by (unfold al', KB; destruct (Z.ltb_spec 0 al); lia).
  assert (dmem_map s <> []) as Hne by (intros E; rewrite E in Htot; cbn in Htot; lia).
  unfold PoolExpand. fold al'.
  destruct (search_ok (dmem_map s) ss size al') as (k0 & a0 & r0 & Eq & Hk & Hle & HS); try done.
  rewrite Eq. cbn [of_option obind head].
  replace (if p_base a0 <? ss then AlignUp ss al' else AlignUp (p_base a0) al') with (AlignUp ss al')
    by (destruct (Z.ltb_spec (p_base a0) ss); [done|f_equal; lia]).
  destruct (search_dmem _ _ _ _) as [[k p]|]; [|left; auto].
  destruct HS as (l & a & r & Em & Hf & Hmin). pose proof Hf as (Hfree & _ & Hsp & Hbp & Hep).
  assert ((k, a) ∈ dmem_map s) as Hin by (rewrite Em; apply elem_of_app; right; apply elem_of_cons; by left).
  pose proof (area_end 0 _ k a Hd Hin) as Hend. pose proof (area_ge 0 _ k a Hd Hin) as Hge.
  right. exists p. pose proof (fun_both 3 PMT.Pooled) as HF. set (f := fun a0 => _) in HF.
  destruct (claim_ok (dmem_map s) ss size al' Hd Hs f _ k p l a r HF Em Hf) as (m1 & EC & Hlike & _ & _ & Hv).
  rewrite EC. cbn [obind]. fold f. eexists. split; [done|].
  split; [split; [lia|by exists k, a]|]. split; [by apply Hmin|]. done.
Qed.

(** ** Free virtual addresses *)

(** The range lies inside one free area. *)
Definition one_free_area (m : VMAMap) (a size : Z) : Prop :=
  exists l k v r, m = l ++ (k, v) :: r /\ v_type v = VMAType.Free /\ k <= a /\ a + size <= k + v_size v.

Lemma one_free_view m a size x :
  wf_from 0 m -> one_free_area m a size -> a <= x < a + size ->
  exists g, view m x = Some g /\ g_type g = VMAType.Free.
Proof.
  intros Hwf (l & k & v & r & -> & Hf & Hk & He) Hx. rewrite (view_mid 0) by (done || cbn; lia). cbn. eauto.
Qed.

Lemma search_free_sound lo (m : VMAMap) size al mx a :
  wf_from lo m -> 0 <= lo -> 0 < al -> 0 < size -> search_free m size al mx = a -> a <> MINUS_1 ->
  Forall (fun e => e.1 + al < W64) m ->
  a mod al = 0 /\ a < mx /\ lo <= a /\ one_free_area m a size.
Proof.
  intros Hwf Hlo Hal Hs. revert lo Hwf Hlo; induction m as [|[k v] m IH]; intros lo Hwf Hlo E Ha Hb; cbn in E; [done|].
  apply Forall_cons in Hb as [Hkb Hb]. cbn in Hkb.
  destruct Hwf as (? & Hk & Hsz & Hlt & _ & Hwf). cbn in Hk, Hsz, Hlt, Hwf.
  assert (search_free m size al mx = a -> a mod al = 0 /\ a < mx /\ lo <= a /\ one_free_area ((k, v) :: m) a size) as Hrest.
  { intros E'. destruct (IH (k + v_size v) Hwf ltac:(lia) E' Ha Hb) as (? & ? & ? & l & k1 & v1 & r & -> & Hone).
    split_and!; try done; [lia|]. by exists ((k, v) :: l), k1, v1, r. }
  unfold IsFree in E. destruct (bool_decide (v_type v = VMAType.Free)) eqn:Ef; cbn [negb] in E; [|auto]. bool_prop.
  destruct (AlignUp_least al (v_base v) Hal ltac:(lia) ltac:(lia)) as (Hu1 & Hu2 & _).
  pose proof (AlignUp_bound al (v_base v) Hal ltac:(lia) ltac:(lia)) as Hu3.
  rewrite wadd_small in E by lia.
  destruct (Z.ltb_spec (v_base v + v_size v) (AlignUp (v_base v) al)); [auto|].
  destruct (Z.leb_spec mx (AlignUp (v_base v) al)); [done|].
  rewrite wsub_small in E by lia.
  destruct (Z.leb_spec size (v_base v + v_size v - AlignUp (v_base v) al)); [|auto].
  subst a. split_and!; [done|lia|lia|]. exists [], k, v, m. split_and!; [done|done|lia|lia].
Qed.

(** [SearchFree] returns [-1] or an aligned address, not below the start of
    the search, of a range inside one free area. *)
Lemma SearchFree_sound addr size al s a :
  wf_from 0 (vma_map s) -> 0 <= addr -> 0 <= system_managed_base (impl s) ->
  0 < size -> 0 < al -> Z.max addr (system_managed_base (impl s)) + al + size < W64 ->
  Forall (fun e => e.1 + al < W64) (vma_map s) ->
  SearchFree addr size al s = Done a -> a <> MINUS_1 ->
  a mod al = 0 /\ Z.max addr (system_managed_base (impl s)) <= a /\ one_free_area (vma_map s) a size.
Proof.
  intros Hwf Ha Hb Hs Hal Hlt HF H Hn. unfold SearchFree in H.
  destruct (Z.eqb_spec al 0); [lia|]. set (v := if addr <? _ then _ else _) in H.
  assert (v = Z.max addr (system_managed_base (impl s))) as Ev
    by (unfold v; destruct (Z.ltb_spec addr (system_managed_base (impl s))); lia).
  rewrite <- Ev in *. clearbody v. run_inv. rename E0 into Ef.
  destruct (AlignUp_least al v Hal ltac:(lia) ltac:(lia)) as (Hu1 & Hu2 & _).
  pose proof (AlignUp_bound al v Hal ltac:(lia) ltac:(lia)) as Hu3.
  destruct a1 as [|[k w] rest]; [done|].
  destruct (find_hit _ _ _ _ _ _ Hwf Ef) as (l & Em & Hk & Hkb & Hab & _). cbn in Hkb.
  pose proof Hwf as Hw. rewrite Em in Hw.
  pose proof (wf_mid _ _ _ _ _ Hw) as (_ & _ & _ & Hsz & Hltk & _ & Hr & _ & _ & Hk0). cbn in Hsz, Hltk, Hr.
  destruct (IsFree w && Contains w (AlignUp v al) size)%bool eqn:Ec.
  - injection H as <-. apply andb_true_iff in Ec as [Ef1 Ec]. unfold IsFree in Ef1. unfold Contains in Ec.
    rewrite !wadd_small in Ec by lia. bool_prop. split_and!; [done|lia|]. exists l, k, w, rest. split_and!; [done|done|lia|lia].
  - injection H as H. rewrite Em in HF. apply Forall_app in HF as [_ HF]. apply Forall_cons in HF as [_ HF].
    destruct (search_free_sound _ _ _ _ _ _ Hr ltac:(lia) Hal Hs H Hn HF) as (? & ? & ? & l1 & k1 & v1 & r1 & -> & ? & ? & ?).
    split_and!; [done| |].
    + apply above_app in Hab as [_ Hab]. apply above_cons in Hab as [? _]. lia.
    + exists (l ++ (k, w) :: l1), k1, v1, r1. split_and!; [by rewrite Em, <- app_assoc|done|done|done].
Qed.

(** Where a mapping goes that must not replace anything. *)
Lemma place_free addr size flags al s a :
  wf_from 0 (vma_map s) -> 0 <= addr -> 0 <= system_managed_base (impl s) -> 0 < size ->
  0 <= al -> u32 (if 0 <? al then al else KB 16) <> 0 ->
  Z.max (Z.max addr DEFAULT_MAPPING_BASE) (system_managed_base (impl s)) + W32 + size < W64 ->
  Forall (fun e => e.1 + W32 < W64) (vma_map s) ->
  has flags MemoryMapFlags.Fixed = false \/
    has flags MemoryMapFlags.NoOverwrite = true /\ view (vma_map s) addr <> None ->
  place_mapping addr size flags al s = Done (Some a) -> one_free_area (vma_map s) a size.
Proof.
  intros Hwf Ha Hb Hs Hal Hu Hlt HF Hfl H. unfold place_mapping in H.
  assert (0 < W32) as HW by done.
  set (al' := if 0 <? al then al else KB 16) in *.
  assert (forall b, obind (SearchFree (if addr =? 0 then DEFAULT_MAPPING_BASE else addr) size (u32 al') s)
    (fun v => if v =? MINUS_1 then Done None else Done (Some v)) = Done (Some b) -> one_free_area (vma_map s) b size)
    as Hsearch.
  { intros b Hb'. run_inv. destruct (Z.eqb_spec a0 MINUS_1); [discriminate|]. injection Hb' as <-.
    assert (0 < u32 al' < W32) by (pose proof (Z.mod_pos_bound al' W32 HW); unfold u32 in *; lia).
    eapply SearchFree_sound in E; [apply E|..]; try done; try lia.
    - destruct (addr =? 0); unfold DEFAULT_MAPPING_BASE in *; lia.
    - destruct (addr =? 0); unfold DEFAULT_MAPPING_BASE in *; lia.
    - eapply Forall_impl; [exact HF|]. intros; cbn in *; lia. }
  destruct (has flags MemoryMapFlags.Fixed), (has flags MemoryMapFlags.NoOverwrite); cbn [andb negb] in H;
    try (destruct Hfl as [?|[? _]]; discriminate).
  - run_inv. destruct (negb _ || _)%bool eqn:Ec in H; [discriminate|]. injection H as <-.
    unfold IsFree in Ec. apply orb_false_iff in Ec as [Ec1 Ec2]. bool_prop.
    unfold FindVMA, mle in E0. destruct (mfind addr (vma_map s)) as [q|] eqn:Ef; [|done].
    destruct (mfind_split _ _ _ Ef) as (k & w & l & r & -> & Em & Hk & _). cbn in E0. injection E0 as -> ->.
    destruct (find_hit _ _ _ _ _ _ Hwf Ef) as (_ & _ & _ & Hkb & _ & _ & Hgap). cbn in Hkb, Hgap.
    pose proof Hwf as Hw. rewrite Em in Hw.
    pose proof (wf_mid _ _ _ _ _ Hw) as (_ & _ & _ & Hsz & Hltk & _ & _ & _ & _ & Hk0). cbn in Hsz, Hltk.
    exists l, z, v, r. split_and!; [done|done|done|].
    destruct (Z.le_gt_cases (z + v_size v) addr); [destruct Hfl as [?|[_ Hv]]; [done|by destruct Hv; apply Hgap]|].
    rewrite wadd_small, wsub_small in Ec2 by lia. lia.
  - by apply Hsearch.
  - by apply Hsearch.
Qed.

(** ** What the queries report

    [VirtualQuery] describes the area of an address or, with flag 1, the first
    area from there on that is not free; [DirectQueryAvailable] looks for the
    largest free block of a window of physical memory. *)

(** ** Virtual queries *)

Definition free_page (g : page) : Prop := g_type g = VMAType.Free.

(** The report [info] is true of every address of its range, which holds [g]'s
    kind of page throughout; the offset and memory type of a direct mapping
    are those behind its first address. *)
Record describes (m : VMAMap) (info : OrbisVirtualQueryInfo) (g : page) : Prop := {
  ds_uniform : forall x, qi_start info <= x < qi_end info -> exists gx, view m x = Some gx /\
    g_type gx = g_type g /\ g_prot gx = g_prot g /\ g_name gx = g_name g;
  ds_prot : qi_protection info =
    match g_type g with VMAType.Reserved | VMAType.PoolReserved => 0 | _ => s32 (g_prot g) end;
  ds_flexible : qi_is_flexible info = true <-> g_type g = VMAType.Flexible;
  ds_direct : qi_is_direct info = true <-> g_type g = VMAType.Direct;
  ds_stack : qi_is_stack info = true <-> g_type g = VMAType.Stack;
  ds_pooled : qi_is_pooled info = true <-> g_type g = VMAType.PoolReserved \/ g_type g = VMAType.Pooled;
  ds_name : qi_name info = String.substring 0 ORBIS_KERNEL_MAXIMUM_NAME_LENGTH (g_name g);
  ds_backing : g_type g = VMAType.Direct -> exists g0 b, view m (qi_start info) = Some g0 /\ g_back g0 = Some b /\
    b_addr b = qi_offset info /\ b_mtype b = qi_memory_type info;
}.

Lemma query_info_ok l k v r x :
  wf_from 0 (l ++ (k, v) :: r) ->
  exists info, query_info v = Done info /\ qi_start info = k /\ qi_end info = k + v_size v /\
    describes (l ++ (k, v) :: r) info (r_attr v x).
Proof.
  intros Hwf. pose proof (wf_mid _ _ _ _ _ Hwf) as (_ & _ & Hk & Hs & He & [Hpos Hok] & _). cbn in Hk, Hs, He.
  assert (forall y, k <= y < k + v_size v -> view (l ++ (k, v) :: r) y = Some (r_attr v y)) as Hv
    by (intros; by apply (view_mid 0)).
  assert (exists off mt, (if bool_decide (v_type v = VMAType.Direct) then
      match v_phys v with [] => Raised AssertFailed | (_, first) :: _ => Done (p_base first, p_mtype first) end
    else Done (0, 0)) = Done (off, mt) /\
    (v_type v = VMAType.Direct -> exists b, phys_at (v_phys v) 0 = Some b /\ b_addr b = off /\ b_mtype b = mt))
    as (off & mt & Eo & Hb).
  { case_bool_decide as Ed; [|by exists 0, 0]. unfold HasPhysicalBacking in Hok. rewrite Ed in Hok.
    rewrite bool_decide_eq_true_2 in Hok by done. cbn in Hok.
    destruct (v_phys v) as [|[o a] p] eqn:Ep; cbn in Hok; [lia|]. destruct Hok as (-> & Ha & _).
    exists (p_base a), (p_mtype a). split; [done|]. intros _. eexists. cbn [phys_at].
    rewrite (proj2 (Z.ltb_lt _ _)), Z.leb_refl by lia. split; [done|]. cbn [b_addr b_mtype]. split; [lia|done]. }
  unfold query_info. rewrite Eo. cbn [obind]. eexists. split; [done|]. rewrite wadd_small by lia. cbn.
  split; [done|]. split; [by rewrite Hk|]. split; cbn.
  - intros y Hy. exists (r_attr v y). rewrite <- Hk in Hy. by rewrite Hv.
  - by destruct (v_type v).
  - by rewrite bool_decide_eq_true.
  - by rewrite bool_decide_eq_true.
  - by rewrite bool_decide_eq_true.
  - by rewrite orb_true_iff, !bool_decide_eq_true.
  - done.
  - intros Ed. destruct (Hb Ed) as (b & ? & ? & ?). exists (r_attr v (v_base v)), b. rewrite <- Hk, Hv by lia.
    cbn. rewrite <- Hk, Z.sub_diag. done.
Qed.

(** A run of free areas. *)
Definition all_free (m : VMAMap) : Prop := Forall (fun e => v_type e.2 = VMAType.Free) m.

Lemma view_all_free m x g : all_free m -> view m x = Some g -> free_page g.
Proof.
  induction 1 as [|[k v] m Hv _ IH]; cbn in *; [done|]. destruct (covers v x); [|done]. by intros [= <-].
Qed.

Lemma skip_free_spec m :
  match skip_free m with
  | [] => all_free m
  | (k, v) :: r => IsFree v = false /\ exists l, m = l ++ (k, v) :: r /\ all_free l
  end.
Proof.
  induction m as [|[k v] m IH]; cbn; [by constructor|]. destruct (IsFree v) eqn:E.
  - unfold IsFree in E. bool_prop. destruct (skip_free m) as [|[k' v'] r]; [by apply Forall_cons|].
    destruct IH as (Hv & l & -> & Hl). split; [done|]. exists ((k, v) :: l). split; [done|by constructor].
  - split; [done|]. exists []. split; [done|constructor].
Qed.

(** The area of an address is reported, unless it is free. *)
Lemma VirtualQuery_ok s addr g :
  mm_wf s -> system_managed_base (impl s) <= addr -> view (vma_map s) addr = Some g ->
  (free_page g /\ VirtualQuery addr 0 s = Done (ORBIS_KERNEL_ERROR_EACCES, None)) \/
  (~ free_page g /\ exists info, VirtualQuery addr 0 s = Done (ORBIS_OK, Some info) /\
    qi_start info <= addr < qi_end info /\ describes (vma_map s) info g).
Proof.
  intros [_ Hwf] Hb Hv.
  destruct (find_covered 0 _ addr Hwf) as (l & k & v & r & Em & Ef & Hr & Hg); [by rewrite Hv|].
  assert (g = r_attr v addr) as -> by congruence. unfold VirtualQuery.
  rewrite (proj2 (Z.ltb_ge addr (system_managed_base (impl s)))) by done. rewrite Z.ltb_irrefl, Ef. cbn [andb of_option obind]. change (0 =? 1) with false.
  cbn iota. unfold free_page. cbn [r_attr vma_area g_type]. destruct (IsFree v) eqn:EF; unfold IsFree in EF; bool_prop.
  - left. done.
  - right. split; [done|]. rewrite Em in *. destruct (query_info_ok l k v r addr Hwf) as (info & -> & Es & Ee & Hd).
    exists info. cbn [obind]. split; [done|]. split; [cbn in Hr; lia|done].
Qed.

(** With flag 1: the first address from [addr] on that is not free. *)
Lemma VirtualQuery_next_ok s addr :
  mm_wf s -> system_managed_base (impl s) <= addr -> view (vma_map s) addr <> None ->
  (VirtualQuery addr 1 s = Done (ORBIS_KERNEL_ERROR_EACCES, None) /\
    forall x g, addr <= x -> view (vma_map s) x = Some g -> free_page g) \/
  (exists info g, VirtualQuery addr 1 s = Done (ORBIS_OK, Some info) /\ addr < qi_end info /\
    ~ free_page g /\ describes (vma_map s) info g /\
    forall x g, addr <= x < qi_start info -> view (vma_map s) x = Some g -> free_page g).
Proof.
  intros [_ Hwf] Hb Hv.
  destruct (find_covered 0 _ addr Hwf Hv) as (l & k & v & r & Em & Ef & Hr & _). cbn in Hr.
  assert (forall x, addr <= x -> view (vma_map s) x = view ((k, v) :: r) x) as Hlow.
  { intros x Hx. rewrite Em in Hwf |- *. apply wf_app in Hwf as [Hl Hw]. rewrite view_app, (view_ge 0); [done|done|].
    cbn in Hw. lia. }
  unfold VirtualQuery. rewrite (proj2 (Z.ltb_ge addr (system_managed_base (impl s)))) by done. rewrite Z.ltb_irrefl, Ef.
  cbn [andb of_option obind]. change (1 =? 1) with true. cbn iota.
  pose proof (skip_free_spec ((k, v) :: r)) as HS. destruct (skip_free ((k, v) :: r)) as [|[k1 v1] r1].
  - left. split; [done|]. intros x g Hx. rewrite Hlow by done. by apply view_all_free.
  - right. destruct HS as (Hf & l1 & E1 & Hl1). rewrite Hf. rewrite E1 in Em, Hlow. rewrite app_assoc in Em.
    rewrite Em in Hwf. destruct (query_info_ok (l ++ l1) k1 v1 r1 k1 Hwf) as (info & -> & Es & Ee & Hd).
    cbn [obind]. exists info, (r_attr v1 k1). split; [done|].
    pose proof (wf_mid _ _ _ _ _ Hwf) as (_ & _ & Hk & Hs1 & _ & _ & _ & _). cbn in Hs1.
    assert (addr < k1 + v_size v1) as Hlt.
    { destruct l1 as [|[k2 v2] l2]; cbn in E1; injection E1 as <- <- ?; [lia|].
      rewrite <- app_assoc in Hwf. apply wf_app in Hwf as [_ Hw]. cbn in Hw. destruct Hw as (_ & _ & _ & _ & _ & Hw).
      apply wf_mid in Hw. cbn in Hw. lia. }
    split; [lia|]. split; [unfold IsFree in Hf; by bool_prop|]. rewrite Em in Hlow |- *. split; [done|].
    intros x g Hx Hg. rewrite Hlow, view_app in Hg by lia.
    destruct (view l1 x) as [g'|] eqn:Eg; [injection Hg as ->; by eapply view_all_free|].
    apply wf_app in Hwf as [_ Hw]. rewrite (view_lt k1) in Hg; [done| |lia]. cbn in Hw |- *. intuition lia.
Qed.

(** ** The largest free block *)

Definition aligned (al p : Z) : Prop := 0 < al -> p mod al = 0.

(** A block of [n] bytes at [p] lies in the window and inside the area [a]. *)
Definition block_in (lo hi al : Z) (a : PhysicalMemoryArea) (p n : Z) : Prop :=
  aligned al p /\ lo <= p /\ p + n <= hi /\ p_base a <= p /\ p + n <= p_base a + p_size a.

Definition free_block (m : PhysMap) (lo hi al p n : Z) : Prop :=
  exists k a, (k, a) ∈ m /\ p_dma a = PMT.Free /\ block_in lo hi al a p n.

Lemma AlignUp_aligned al x : word x -> x mod al = 0 -> AlignUp x al = x.
Proof. intros Hx E. unfold AlignUp. rewrite E. change (0 =? 0) with true. cbn iota.
  unfold wsub. rewrite Z.sub_0_r. by apply u64_small. Qed.

(** The two saturating subtractions of the scan. *)
Lemma saturated_lt x y : 0 <= x < W64 -> 0 <= y -> (if y <? x then wsub x y else 0) = Z.max 0 (x - y).
Proof. intros. destruct (Z.ltb_spec y x); [rewrite wsub_small by lia|]; lia. Qed.

Lemma saturated_le x y : 0 <= x < W64 -> 0 <= y -> (if y <=? x then wsub x y else 0) = Z.max 0 (x - y).
Proof. intros. destruct (Z.leb_spec y x); [rewrite wsub_small by lia|]; lia. Qed.

Section largest.
Context (lo hi al : Z).
Hypothesis Hlo : word lo.
Hypothesis Hhi : word hi.
Hypothesis Hal : 0 <= al.
Hypothesis Hloal : aligned al lo.

Lemma available_in_ok a p n :
  0 <= p_base a -> 0 < p_size a -> p_base a + p_size a + al < W64 ->
  available_in a lo hi al = (p, n) ->
  0 <= n /\ (0 < n -> block_in lo hi al a p n) /\ (lo = 0 -> forall q m, block_in lo hi al a q m -> m <= n).
Proof using All.
  intros Hb Hs Hw. unfold available_in.
  set (ab := if 0 <? al then AlignUp (p_base a) al else p_base a).
  assert (aligned al ab /\ p_base a <= ab <= p_base a + al /\ forall q, p_base a <= q -> aligned al q -> ab <= q)
    as (Ha & Hab & Hleast).
  { unfold ab, aligned. destruct (Z.ltb_spec 0 al); [|split_and!; try lia; done].
    destruct (AlignUp_least al (p_base a)) as (? & ? & ?); try lia.
    pose proof (AlignUp_bound al (p_base a)). split_and!; auto; lia. }
  replace (if 0 <? al then AlignUp lo al else lo) with lo
    by (destruct (Z.ltb_spec 0 al); [by rewrite AlignUp_aligned; auto|done]).
  unfold GetEnd, word in *. rewrite (wadd_small (p_base a)), (wsub_small ab), saturated_le by lia.
  unfold block_in. destruct (Z.ltb_spec (p_base a) lo), (Z.ltb_spec hi (p_base a + p_size a));
    rewrite ?(wsub_small lo), ?(wsub_small (p_base a + p_size a)) by lia;
    rewrite ?(saturated_lt (Z.max 0 (p_size a - (ab - p_base a)))) by lia; rewrite ?saturated_lt by lia;
    intros [= <- <-]; (split; [lia|]); (split; [intros ?; split_and!; (assumption || lia)|]);
    intros -> q m' (? & ? & ? & ? & ?); specialize (Hleast q); intuition lia.
Qed.

(** What the scan keeps: the best block so far is free and in the window. *)
Definition candidate (m : PhysMap) (p n : Z) : Prop := 0 <= n /\ (0 < n -> free_block m lo hi al p n).

Lemma scan_available_ok m b areas p0 n0 p n :
  wf_from b areas -> 0 <= b -> end_from b areas + al < W64 -> (forall e, e ∈ areas -> e ∈ m) ->
  candidate m p0 n0 -> scan_available areas lo hi al p0 n0 = (p, n) ->
  candidate m p n /\ n0 <= n /\ (lo = 0 -> forall q k, free_block areas lo hi al q k -> k <= n).
Proof using All.
  revert b p0 n0; induction areas as [|[k a] areas IH]; intros b p0 n0 Hwf Hb He Hin Hc; cbn [scan_available].
  { intros [= <- <-]. split; [done|]. split; [lia|]. intros _ q k (? & ? & Hn & _). by apply elem_of_nil in Hn. }
  cbn in Hwf, He. destruct Hwf as (? & -> & Hs & ? & _ & Hwf). pose proof (wf_end _ _ Hwf).
  assert (forall e, e ∈ areas -> e ∈ m) as Hin' by (intros; apply Hin; by constructor).
  specialize (IH (p_base a + p_size a)). cbn in IH. case_bool_decide as Ef; cbn [negb].
  2: { intros HS. destruct (IH _ _ Hwf ltac:(lia) He Hin' Hc HS) as (Hc' & Hle & Hmax). split; [done|]. split; [done|].
       intros E0 q i (k' & a' & Ha & Hf & Hblk). apply elem_of_cons in Ha as [[= -> ->]|Ha]; [done|].
       apply (Hmax E0 q). by exists k', a'. }
  destruct (available_in a lo hi al) as [p1 n1] eqn:Ea.
  destruct (available_in_ok a p1 n1 ltac:(lia) Hs ltac:(lia) Ea) as (Hn1 & Hblk1 & Hbest).
  assert (candidate m p1 n1) as Hc1
    by (split; [done|]; intros Hn; exists (p_base a), a; split; [apply Hin; by constructor|auto]).
  assert (forall n', n1 <= n' -> (lo = 0 -> forall q i, free_block areas lo hi al q i -> i <= n') ->
    lo = 0 -> forall q i, free_block ((p_base a, a) :: areas) lo hi al q i -> i <= n') as Hgo.
  { intros n' Hle Hmax E0 q i (k' & a' & Ha & Hf & Hblk).
    apply elem_of_cons in Ha as [[= -> ->]|Ha]; [specialize (Hbest E0 _ _ Hblk); lia|].
    apply (Hmax E0 q). by exists k', a'. }
  destruct (Z.ltb_spec n0 n1); intros HS.
  - destruct (IH _ _ Hwf ltac:(lia) He Hin' Hc1 HS) as (Hc' & Hle & Hmax). split; [done|]. split; [lia|].
    apply Hgo; [lia|done].
  - destruct (IH _ _ Hwf ltac:(lia) He Hin' Hc HS) as (Hc' & Hle & Hmax). split; [done|]. split; [lia|].
    apply Hgo; [lia|done].
Qed.
End largest.

Lemma free_block_view m lo hi al p n x :
  wf_from 0 m -> free_block m lo hi al p n -> p <= x < p + n -> exists t, view m x = Some (t, PMT.Free).
Proof.
  intros Hwf (k & a & Hin & Hf & _ & _ & _ & ? & ?) Hx. apply list_elem_of_split in Hin as (l & r & ->).
  pose proof (wf_mid _ _ _ _ _ Hwf) as (_ & _ & Hk & _). cbn in Hk.
  exists (p_mtype a). rewrite (view_mid 0 _ _ _ _ _ Hwf) by (cbn; lia). cbn. by rewrite Hf.
Qed.

Lemma DirectQueryAvailable_ok s lo hi al :
  mm_wf s -> 0 < total_direct_size s -> word lo -> word hi -> 0 <= al -> total_direct_size s + al < W64 ->
  aligned al lo ->
  exists p n, DirectQueryAvailable lo hi al s = Done (p, n) /\ 0 <= n /\
    (0 < n -> free_block (dmem_map s) lo hi al p n) /\
    (lo = 0 -> forall q k, free_block (dmem_map s) lo hi al q k -> k <= n).
Proof.
  intros [[Hwf Hcont Hend _ _] _] Htot Hlo Hhi Hal Hsum Hloal.
  assert (exists b l q, dmem_map s = l ++ q /\ mfind lo (dmem_map s) = Some q /\ wf_from b q /\ 0 <= b /\
    end_from b q = total_direct_size s /\ (lo = 0 -> l = [])) as (b & l & q & Em & Ef & Hq & Hb & He & H0).
  { destruct (mfind lo (dmem_map s)) as [q|] eqn:Ef.
    - destruct (mfind_split _ _ _ Ef) as (k & a & l & r & -> & Em & Hk & _). rewrite Em in Hwf, Hend, Hcont.
      exists (end_from 0 l), l, ((k, a) :: r). pose proof Hwf as Hw. apply wf_app in Hw as [Hl Hw].
      pose proof (wf_end _ _ Hl). rewrite end_app in Hend. split_and!; try done.
      intros ->. destruct l as [|[k' a'] l]; [done|]. apply wf_mid in Hwf as (Hl' & Hle & _).
      cbn in Hl', Hle. destruct Hl' as (? & ? & ? & _ & _ & Hl'). apply wf_end in Hl'. lia.
    - destruct (dmem_map s) as [|[k a] m']; [cbn in Hend; lia|]. destruct Hcont as [-> _]. cbn in Ef.
      rewrite (proj2 (Z.leb_le 0 lo)) in Ef by apply Hlo. by destruct (mfind lo m'). }
  unfold DirectQueryAvailable. rewrite Ef. cbn [of_option obind].
  destruct (scan_available q lo hi al 0 0) as [p n] eqn:ES. exists p, n. split; [done|].
  assert (forall e, e ∈ q -> e ∈ dmem_map s) as Hin by (intros e Hin; rewrite Em; apply elem_of_app; by right).
  destruct (scan_available_ok lo hi al Hlo Hhi Hal Hloal (dmem_map s) b q 0 0 p n Hq Hb ltac:(lia) Hin
    ltac:(split; lia) ES) as ([Hn Hblk] & _ & Hmax).
  split; [done|]. split; [done|]. intros E0. rewrite Em, (H0 E0). cbn [app]. by apply Hmax.
Qed.
