(* ===== verification/MemUnmap.v ===== *)
(** * MemUnmap: unmapping completes, and gives back exactly what it should

    [ready] says that the physical memory behind a range can be given back:
    each page is still in the expected state, no two pages of the range share
    a physical byte, and no physical area begins inside a run of pages.  For
    flexible memory this always holds; direct memory can be aliased or split
    by [SetDirectMemoryType], and then [CarvePhysArea] asserts. *)

From S2P Require Import Prelude OrdMap MemTypes PhysFacts VmaFacts MemOps MemInv MemMap.
From S2P Require Import Release MemEffects MemAttrs FlexFacts.

(** What backs an address of an area of type [t]. *)
Definition behind (t : VMAType.t) (m : VMAMap) (x : Z) : option backing :=
  view m x ≫= fun g => if bool_decide (g_type g = t) then g_back g else None.

Record ready (t : VMAType.t) (d : PMT.t) (m : VMAMap) (pm : PhysMap) (a n : Z) : Prop := {
  rd_state : forall x b, a <= x < a + n -> behind t m x = Some b -> exists ty, view pm (b_addr b) = Some (ty, d);
  rd_inj : forall x x' b b', a <= x < a + n -> a <= x' < a + n -> behind t m x = Some b -> behind t m x' = Some b' ->
    b_addr b = b_addr b' -> x = x';
  rd_whole : forall x b b', a <= x -> x + 1 < a + n -> behind t m x = Some b -> behind t m (x + 1) = Some b' ->
    b_addr b' = b_addr b + 1 -> ~ starts pm (b_addr b');
}.

(** The pages of type [t] in the range gave their memory back: it went from
    state [d] to [d'] with its type kept, and nothing else changed. *)
Record freed (t : VMAType.t) (d d' : PMT.t) (m : VMAMap) (a n : Z) (pm pm' : PhysMap) : Prop := {
  fr_like : phys_like pm pm';
  fr_new : forall x b, a <= x < a + n -> behind t m x = Some b ->
    exists ty, view pm (b_addr b) = Some (ty, d) /\ view pm' (b_addr b) = Some (ty, d');
  fr_frame : forall y, (forall x b, a <= x < a + n -> behind t m x = Some b -> b_addr b <> y) ->
    view pm' y = view pm y;
  fr_starts : forall y, starts pm' y -> starts pm y \/
    exists x b, a <= x < a + n /\ behind t m x = Some b /\ (y = b_addr b \/ y = b_addr b + 1);
}.

Lemma freed_none t d d' m a n pm :
  wf_from 0 pm -> (forall x, a <= x < a + n -> behind t m x = None) -> freed t d d' m a n pm pm.
Proof. intros Hwf Hn. split; [by split| |done|by left]. intros x b Hx Eb. rewrite Hn in Eb; done. Qed.

Lemma ready_flexible cap m fm u a n : flex_ok cap m fm u -> ready VMAType.Flexible PMT.Flexible m fm a n.
Proof.
  intros HF. assert (forall x b, behind VMAType.Flexible m x = Some b -> flex_at m x = Some (b_addr b)) as Hfx.
  { intros x b. unfold behind, flex_at, flex_page. destruct (view m x) as [g|]; [|done]. cbn.
    destruct (bool_decide _); [|done]. by intros ->. }
  split.
  - intros x b _ Eb. by eapply (fo_back _ _ _ _ HF), Hfx.
  - intros x x' b b' _ _ Eb Eb' E. eapply (fo_inj _ _ _ _ HF); [by apply Hfx|]. rewrite E. by apply Hfx.
  - intros x b b' _ _ Eb Eb' E Hs. destruct (fo_flat _ _ _ _ HF) as [HJ HP].
    destruct (fo_back _ _ _ _ HF _ _ (Hfx _ _ Eb)) as (ty & Hv), (fo_back _ _ _ _ HF _ _ (Hfx _ _ Eb')) as (ty' & Hv').
    rewrite (proj1 (HP _ _ _ Hv)) in Hv. rewrite (proj1 (HP _ _ _ Hv')) in Hv'. apply (HJ _ 0 Hs); [|done].
    by replace (b_addr b' - 1) with (b_addr b) by lia.
Qed.

(** ** Two ranges in a row *)

Section rows.
Context (t : VMAType.t) (d d' : PMT.t) (m m' : VMAMap) (pm pm1 : PhysMap) (a n1 n : Z).
Hypothesis (Hn : 0 <= n1 <= n) (HR : ready t d m pm a n) (HF : freed t d d' m a n1 pm pm1).
Hypothesis Hsame : forall x, a + n1 <= x < a + n -> behind t m' x = behind t m x.

Lemma later_elsewhere x b x' b' :
  a + n1 <= x < a + n -> behind t m x = Some b -> a <= x' < a + n1 -> behind t m x' = Some b' -> b_addr b' <> b_addr b.
Proof using Hn HR. intros Hx Eb Hx' Eb' E. assert (x' = x); [|lia]. eapply (rd_inj _ _ _ _ _ _ HR); eauto; lia. Qed.

Lemma ready_rest : ready t d m' pm1 (a + n1) (n - n1).
Proof using All.
  split.
  - intros x b Hx Eb. rewrite Hsame in Eb by lia. rewrite (fr_frame _ _ _ _ _ _ _ _ HF).
    + eapply (rd_state _ _ _ _ _ _ HR); [|exact Eb]. lia.
    + intros x' b' Hx' Eb'. eapply later_elsewhere; eauto. lia.
  - intros x x' b b' Hx Hx' Eb Eb'. rewrite Hsame in Eb, Eb' by lia. apply (rd_inj _ _ _ _ _ _ HR x x'); auto; lia.
  - intros x b b' Hx Hx' Eb Eb' E Hs. rewrite Hsame in Eb, Eb' by lia.
    destruct (fr_starts _ _ _ _ _ _ _ _ HF _ Hs) as [Hs'|(z & bz & Hz & Ebz & Ez)].
    + by eapply (rd_whole _ _ _ _ _ _ HR x b b'); try lia.
    + destruct Ez as [Ez|Ez].
      * eapply (later_elsewhere (x + 1) b' z bz); eauto; lia.
      * eapply (later_elsewhere x b z bz); eauto; lia.
Qed.

Lemma freed_app pm2 : freed t d d' m' (a + n1) (n - n1) pm1 pm2 -> freed t d d' m a n pm pm2.
Proof using All.
  intros HF2. split.
  - eapply phys_like_trans; [apply HF|apply HF2].
  - intros x b Hx Eb. destruct (Z.lt_ge_cases x (a + n1)).
    + destruct (fr_new _ _ _ _ _ _ _ _ HF x b ltac:(lia) Eb) as (ty & Hv & Hv1). exists ty. split; [done|].
      rewrite (fr_frame _ _ _ _ _ _ _ _ HF2); [done|]. intros x' b' Hx' Eb'. rewrite Hsame in Eb' by lia.
      intros E. symmetry in E. revert E. eapply later_elsewhere; eauto; lia.
    + destruct (fr_new _ _ _ _ _ _ _ _ HF2 x b ltac:(lia)) as (ty & Hv & Hv1); [by rewrite Hsame by lia|].
      exists ty. split; [|done]. rewrite <- Hv. symmetry. apply (fr_frame _ _ _ _ _ _ _ _ HF).
      intros x' b' Hx' Eb'. eapply later_elsewhere; eauto. lia.
  - intros y Hy. rewrite (fr_frame _ _ _ _ _ _ _ _ HF2), (fr_frame _ _ _ _ _ _ _ _ HF); [done| |].
    + intros x b Hx. apply Hy. lia.
    + intros x b Hx Eb. rewrite Hsame in Eb by lia. apply (Hy x); [lia|done].
  - intros y Hy. destruct (fr_starts _ _ _ _ _ _ _ _ HF2 y Hy) as [Hy1|(x & b & Hx & Eb & E)].
    + destruct (fr_starts _ _ _ _ _ _ _ _ HF y Hy1) as [?|(x & b & Hx & Eb & E)]; [by left|].
      right. exists x, b. split; [lia|done].
    + right. exists x, b. rewrite Hsame in Eb by lia. split; [lia|done].
Qed.
End rows.

Lemma ready_prefix t d m pm a n n1 : n1 <= n -> ready t d m pm a n -> ready t d m pm a n1.
Proof.
  intros Hn []. split.
  - intros x b Hx. apply rd_state0. lia.
  - intros x x' b b' Hx Hx'. apply rd_inj0; lia.
  - intros x b b' Hx Hx'. apply rd_whole0; lia.
Qed.

(** ** The part of a range inside one area *)

Section entry.
Context (l : VMAMap) (k : Z) (v : VirtualMemoryArea) (r : VMAMap) (a n : Z).
Hypothesis (Hw : wf_from 0 (l ++ (k, v) :: r)) (Hk : k <= a) (Hn : 0 < n) (He : a + n <= k + v_size v).
Implicit Types (t : VMAType.t) (pm : PhysMap).

Lemma behind_entry t x : a <= x < a + n ->
  behind t (l ++ (k, v) :: r) x = if bool_decide (v_type v = t) then phys_at (v_phys v) (x - k) else None.
Proof using Hw Hk He.
  intros Hx. pose proof (wf_mid _ _ _ _ _ Hw) as (_ & _ & Hkb & _). cbn in Hkb.
  unfold behind. rewrite (view_mid 0) by (cbn; auto; lia). cbn. by rewrite <- Hkb.
Qed.

Lemma freed_other t d d' pm : wf_from 0 pm -> v_type v <> t -> freed t d d' (l ++ (k, v) :: r) a n pm pm.
Proof using Hw Hk He.
  intros Hwf Hne. apply freed_none; [done|]. intros x Hx. rewrite behind_entry by done.
  by rewrite bool_decide_eq_false_2.
Qed.

Lemma freed_entry t d d' pm :
  wf_from 0 pm -> v_type v = t -> HasPhysicalBacking v = true -> ready t d (l ++ (k, v) :: r) pm a n ->
  exists from pm', mfind (a - k) (v_phys v) = Some from /\ release_areas d' (a - k) from n pm = Done (0, pm') /\
    freed t d d' (l ++ (k, v) :: r) a n pm pm' /\ (d <> d' -> dma_bytes d pm' = dma_bytes d pm - n).
Proof using Hw Hk Hn He.
  intros Hwf Ht Hb [HS HI HW]. pose proof (wf_mid _ _ _ _ _ Hw) as (_ & _ & Hkb & _ & Hlt & [Hb0 Hok] & _). cbn in Hkb, Hlt.
  rewrite Hb in Hok.
  assert (forall x, a - k <= x < a - k + n -> behind t (l ++ (k, v) :: r) (k + x) = phys_at (v_phys v) x) as Hbe.
  { intros x Hx. rewrite behind_entry, bool_decide_eq_true_2 by (auto; lia). f_equal. lia. }
  destruct (release_entry d d' (v_phys v) (v_size v) (a - k) n pm) as (from & pm' & Ef & Er & HL); auto; try lia.
  - split.
    + intros x Hx. destruct (tiled_at _ _ _ x Hok ltac:(lia)) as (b & Eb).
      destruct (HS (k + x) b ltac:(lia)) as (ty & Hv); [by rewrite Hbe|]. by exists b, ty.
    + intros x x' b b' Hx Hx' Eb Eb' E. assert (k + x = k + x'); [|lia].
      eapply HI; [..|exact E]; [lia|lia|by rewrite Hbe|by rewrite Hbe].
  - intros x b b' Hx Hx' Eb Eb' E. eapply (HW (k + x)); [lia|lia| | |exact E]; [by rewrite Hbe by lia|].
    replace (k + x + 1) with (k + (x + 1)) by lia. by rewrite Hbe by lia.
  - exists from, pm'. split; [done|]. split; [done|]. destruct HL as [? Hnew Hfr ? Hst _]. split; [|done]. split; auto.
    + intros x b Hx Eb. apply (Hnew (x - k)); [lia|]. rewrite <- Hbe by lia. by replace (k + (x - k)) with x by lia.
    + intros y Hy. apply Hfr. intros x b Hx Eb. apply (Hy (k + x)); [lia|]. by rewrite Hbe.
    + intros y Hy. destruct (Hst y Hy) as [?|(x & b & Hx & Eb & E)]; [by left|]. right. exists (k + x), b.
      split; [lia|]. split; [by rewrite Hbe|done].
Qed.
End entry.

(** ** [UnmapBytesFromEntry] and its loops *)

Definition unmap_ready (s : MemoryManager) (a n : Z) : Prop :=
  ready VMAType.Direct PMT.Mapped (vma_map s) (dmem_map s) a n /\
  ready VMAType.Flexible PMT.Flexible (vma_map s) (fmem_map s) a n.

(** Direct memory behind the range is allocated again, flexible memory free. *)
Definition given_back (s : MemoryManager) (a n : Z) (s' : MemoryManager) : Prop :=
  freed VMAType.Direct PMT.Mapped PMT.Allocated (vma_map s) a n (dmem_map s) (dmem_map s') /\
  freed VMAType.Flexible PMT.Flexible PMT.Free (vma_map s) a n (fmem_map s) (fmem_map s').

(** The loop over the physical areas of the entry. *)
Lemma release_step l k v r a n s :
  mm_wf s -> vma_map s = l ++ (k, v) :: r -> k <= a -> 0 < n -> a + n <= k + v_size v -> unmap_ready s a n ->
  v_type v <> VMAType.Pooled ->
  exists s1, match v_phys v with
      | [] => Done s
      | areas =>
          let! from := of_option (mfind (a - k) areas) in
          let! '(size_to_free, s) := unmap_phys (v_type v) (a - k) from n s in
          oassert (size_to_free =? 0) ;;! Done s
      end = Done s1 /\ vma_map s1 = vma_map s /\ given_back s a n s1.
Proof.
  intros Hwf Em Hk Hn He [HD HX] Hp. pose proof (mw_vmas _ Hwf) as Hw. unfold given_back. rewrite Em in *.
  pose proof (pw_dmem _ (mw_phys _ Hwf)) as Hd. pose proof (pw_fmem _ (mw_phys _ Hwf)) as Hf.
  destruct (HasPhysicalBacking v) eqn:Hb.
  2: { pose proof (wf_mid _ _ _ _ _ Hw) as (_ & _ & _ & _ & _ & [_ Hok] & _). rewrite Hb in Hok. rewrite Hok.
       unfold HasPhysicalBacking in Hb. bool_prop. exists s. split; [done|]. split; [done|].
       split; apply (freed_other l k v r a n); auto. }
  assert (v_phys v <> []) as Hne.
  { pose proof (wf_mid _ _ _ _ _ Hw) as (_ & _ & _ & Hs & _ & [_ Hok] & _). rewrite Hb in Hok. intros E.
    rewrite E in Hok. cbn in Hok, Hs. lia. }
  destruct (v_phys v) as [|p ps] eqn:Ep; [done|]. rewrite <- Ep. clear Hne.
  assert (v_type v = VMAType.Direct \/ v_type v = VMAType.Flexible) as [Ht|Ht].
  { unfold HasPhysicalBacking in Hb. destruct (v_type v); try discriminate; auto; done. }
  - destruct (freed_entry l k v r a n Hw Hk Hn He VMAType.Direct PMT.Mapped PMT.Allocated _ Hd Ht Hb HD)
      as (from & pm' & -> & Er & HF & _). cbn [of_option obind]. rewrite Ht, unmap_direct_release, Er. cbn [obind oassert Z.eqb].
    eexists. split; [done|]. split; [done|]. split; [done|]. apply (freed_other l k v r a n); auto. congruence.
  - destruct (freed_entry l k v r a n Hw Hk Hn He VMAType.Flexible PMT.Flexible PMT.Free _ Hf Ht Hb HX)
      as (from & pm' & -> & Er & HF & _). cbn [of_option obind].
    destruct (unmap_flexible_release _ _ _ _ _ _ Er) as (u & ev & E). rewrite Ht, E. cbn [obind oassert Z.eqb].
    eexists. split; [done|]. split; [done|]. split; [|done]. apply (freed_other l k v r a n); auto. congruence.
Qed.

Lemma UnmapBytes_ok l k v r a n0 s :
  let n := Z.min (k + v_size v - a) n0 in
  mm_wf s -> vma_map s = l ++ (k, v) :: r -> k <= a < k + v_size v -> 0 < n0 -> word n0 -> unmap_ready s a n ->
  exists s', UnmapBytesFromEntry a v n0 s = Done (n, s') /\ mm_wf s' /\
    updated (vma_map s) a n page_unmap (vma_map s') /\ given_back s a n s' /\
    (n < n0 -> view (vma_map s) (a + n) <> None -> (depth (a + n) (vma_map s') <= length r)%nat).
Proof.
  intros n Hwf Em Ha Hn0 Hwn Hr. pose proof (mw_vmas _ Hwf) as Hw. rewrite Em in Hw.
  pose proof (wf_mid _ _ _ _ _ Hw) as (_ & _ & Hk & _ & ? & _ & _ & _ & _ & ?). cbn in Hk, H.
  assert (word a) as Hwa by (unfold word; lia).
  assert (FindVMA (vma_map s) a = Done (k, v)) as EF.
  { rewrite Em. unfold FindVMA. rewrite mle_mid; [done| |lia|]; [by eapply wf_mid|].
    pose proof (wf_mid _ _ _ _ _ Hw) as (_ & _ & _ & _ & _ & _ & _ & _ & Hab & _). apply Hab. cbn. lia. }
  assert (exists s', UnmapBytesFromEntry a v n0 s = Done (n, s') /\ given_back s a n s' /\
    (n < n0 -> view (vma_map s) (a + n) <> None -> (depth (a + n) (vma_map s') <= length r)%nat)) as (s' & E & HG & Hd).
  { unfold UnmapBytesFromEntry. rewrite (wsub_small a), (wsub_small (v_size v)) by word_lia.
    replace (Z.min (v_size v - (a - v_base v)) n0) with n by (unfold n; lia). rewrite <- Hk.
    destruct (_ || _)%bool eqn:Et.
    { exists s. split; [done|]. split.
      - assert (v_type v <> VMAType.Direct /\ v_type v <> VMAType.Flexible) as [? ?].
        { apply orb_true_iff in Et as [Et|Et]; bool_prop; split; congruence. }
        split; rewrite Em; apply (freed_other l k v r a n); auto; try (unfold n; lia); apply Hwf.
      - intros Hlt Hv. rewrite Em in Hv |- *. apply (depth_past 0); [done|unfold n in *; cbn; lia|done]. }
    bool_prop. destruct (release_step l k v r a n s) as (s1 & -> & Ev1 & HG); auto; try (unfold n; lia). cbn [obind].
    destruct (vma_update_ok 0 free_vma page_free l k v r a n Hw fun_free) as
      (h & m1 & k2 & m2 & EC & EM & Hd); [unfold n; lia|lia|unfold n; lia|].
    rewrite Ev1, Em, EC. cbn [obind]. rewrite EM. cbn [obind].
    match goal with |- context [Done (n, if ?b then ?s1 else ?s2)] => exists (if b then s1 else s2);
      assert (vma_map (if b then s1 else s2) = m2) as -> by (by destruct b) end.
    split; [done|]. split; [destruct (_ && _)%bool; exact HG|].
    intros Hlt Hv. apply Hd; [unfold n in *; lia|done]. }
  exists s'. split; [done|]. split; [exact (proj1 (UnmapBytesFromEntry_wf _ _ _ _ _ _ Hwf Hwa Hwn E))|].
  destruct (UnmapBytes_effect _ _ _ _ _ _ _ Hwf Hwa Hwn EF E) as [_ Hu].
  destruct Hu as [_ Hu]; [|done]. rewrite Em, (view_mid 0) by (cbn; auto; lia). done.
Qed.

Lemma behind_updated t m a n g m' x : updated m a n g m' -> in_range a n x = false -> behind t m' x = behind t m x.
Proof. intros Hu Hx. unfold behind. by rewrite Hu, Hx. Qed.

(** One part of a range after another. *)
Lemma given_back_app s s1 s2 a n1 n :
  0 <= n1 <= n -> unmap_ready s a n -> given_back s a n1 s1 -> updated (vma_map s) a n1 page_unmap (vma_map s1) ->
  unmap_ready s1 (a + n1) (n - n1) /\ (given_back s1 (a + n1) (n - n1) s2 -> given_back s a n s2).
Proof.
  intros Hn [HD HX] [FD FX] Hu.
  assert (forall t x, a + n1 <= x < a + n -> behind t (vma_map s1) x = behind t (vma_map s) x) as Hsame.
  { intros t x Hx. eapply behind_updated; [exact Hu|]. apply in_range_false. lia. }
  split.
  - split; [exact (ready_rest _ _ _ _ _ _ _ _ _ _ Hn HD FD (Hsame _))|exact (ready_rest _ _ _ _ _ _ _ _ _ _ Hn HX FX (Hsame _))].
  - intros [FD2 FX2].
    split; [exact (freed_app _ _ _ _ _ _ _ _ _ _ Hn HD FD (Hsame _) _ FD2)|exact (freed_app _ _ _ _ _ _ _ _ _ _ Hn HX FX (Hsame _) _ FX2)].
Qed.

Lemma unmap_loop_ok fuel addr size d s :
  mm_wf s -> 0 <= addr -> 0 <= d < size -> addr + size < W64 -> covered (vma_map s) (addr + d) (size - d) ->
  unmap_ready s (addr + d) (size - d) -> (depth (addr + d) (vma_map s) <= fuel)%nat ->
  exists s', unmap_loop fuel addr size d s = Done s' /\ mm_wf s' /\
    updated (vma_map s) (addr + d) (size - d) page_unmap (vma_map s') /\ given_back s (addr + d) (size - d) s'.
Proof.
  revert d s; induction fuel as [|fuel IH]; intros d s Hwf Ha Hd Hlt Hc Hr Hdep; cbn [unmap_loop].
  all: destruct (find_covered 0 _ (addr + d) (mw_vmas _ Hwf) (Hc (addr + d) ltac:(lia)))
    as (l & k & v & r & Em & Ef & Hin & Hv); cbn in Hin.
  all: assert (depth (addr + d) (vma_map s) = S (length r)) as Edep by (unfold depth; by rewrite Ef).
  { lia. }
  rewrite !(wadd_small addr), (wsub_small size) by lia.
  assert (FindVMA (vma_map s) (addr + d) = Done (k, v)) as -> by (unfold FindVMA, mle; by rewrite Ef). cbn [obind].
  set (n := Z.min (k + v_size v - (addr + d)) (size - d)). assert (0 < n <= size - d) by (unfold n; lia).
  destruct (UnmapBytes_ok l k v r (addr + d) (size - d) s) as (s1 & -> & Hwf1 & Hu & HG & Hdp); auto;
    [lia|unfold word; lia|destruct Hr; split; (eapply ready_prefix; [|eassumption]); fold n; lia|].
  fold n in Hu, HG, Hdp |- *. cbn [obind].
  rewrite (proj2 (Z.ltb_lt 0 n)) by lia. cbn [oassert obind]. rewrite wadd_small by lia.
  destruct (Z.ltb_spec (d + n) size) as [Hmore|Hend].
  2: { exists s1. replace (size - d) with n by lia. done. }
  destruct (given_back_app s s1 s1 (addr + d) n (size - d) ltac:(lia) Hr HG Hu) as [Hr1 _].
  replace (addr + d + n) with (addr + (d + n)) in Hr1 by lia. replace (size - d - n) with (size - (d + n)) in Hr1 by lia.
  destruct (IH (d + n) s1) as (s' & -> & Hwf' & Hu' & HG'); auto; try lia.
  - eapply covered_updated; [exact Hu|]. intros x Hx. apply Hc. lia.
  - rewrite Z.add_assoc. pose proof (Hdp ltac:(lia) (Hc (addr + d + n) ltac:(lia))). lia.
  - exists s'. split_and!; [done|done| |].
    + replace (size - d) with (n + (size - (d + n))) by lia. eapply updated_app; [lia|lia|exact Hu|].
      by rewrite <- Z.add_assoc.
    + apply (given_back_app s s1 s' (addr + d) n (size - d) ltac:(lia) Hr HG Hu).
      replace (addr + d + n) with (addr + (d + n)) by lia. by replace (size - d - n) with (size - (d + n)) by lia.
Qed.

Lemma gpu_unmap_frame a n s : vma_frame s (gpu_unmap a n s).
Proof. unfold gpu_unmap. destruct (IsValidGpuMapping a n); destruct s; by eexists. Qed.

(** [UnmapMemory] of a covered range whose direct memory can be given back. *)
Lemma UnmapMemory_ok cap addr size s :
  let a := AlignDown addr (KB 16) in let n := AlignUp size (KB 16) in
  mm_wf s -> flex_inv cap s -> size <> 0 -> 0 < n -> 0 <= a -> a + n < W64 -> covered (vma_map s) a n ->
  ready VMAType.Direct PMT.Mapped (vma_map s) (dmem_map s) a n ->
  exists s', UnmapMemory addr size s = Done (ORBIS_OK, s') /\ mm_wf s' /\
    updated (vma_map s) a n page_unmap (vma_map s') /\ given_back s a n s'.
Proof.
  intros a n Hwf HF Hs Hn Ha Hlt Hc Hr. unfold UnmapMemory. fold a n. destruct (Z.eqb_spec size 0); [done|].
  rewrite assert_covered by (auto; apply Hwf). cbn [obind].
  set (s1 := begin_mutation (gpu_unmap a n s)).
  assert (vma_map s1 = vma_map s /\ dmem_map s1 = dmem_map s /\ fmem_map s1 = fmem_map s) as (E1 & E2 & E3).
  { unfold s1, gpu_unmap. by destruct (IsValidGpuMapping a n). }
  unfold UnmapMemoryImpl.
  destruct (unmap_loop_ok (S (length (vma_map s1))) a n 0 s1) as (s' & -> & Hwf' & Hu & HG);
    rewrite ?Z.add_0_r, ?Z.sub_0_r in *; rewrite ?E1 in *; auto with areas; try lia.
  { unfold s1. auto with areas. }
  { split; rewrite E1, ?E2, ?E3; [done|]. by eapply ready_flexible. }
  { pose proof (depth_length a (vma_map s)). lia. }
  cbn [obind]. exists (destroy_mutation s'). split_and!; [done|auto with areas|done|].
  unfold given_back in *. rewrite E1, E2, E3 in HG. exact HG.
Qed.

(** ** [PoolDecommit] *)

Abbreviation pool_ready s := (ready VMAType.Pooled PMT.Committed (vma_map s) (dmem_map s)).
Abbreviation pool_freed s a n s' :=
  (freed VMAType.Pooled PMT.Committed PMT.Pooled (vma_map s) a n (dmem_map s) (dmem_map s')).

(** What the budget and the committed bytes add up to. *)
Definition pool_account (s : MemoryManager) : Z := u64 (pool_budget s + dma_bytes PMT.Committed (dmem_map s)).

Lemma decommit_entry_ok l k v r a n0 s :
  let n := Z.min n0 (k + v_size v - a) in
  mm_wf s -> vma_map s = l ++ (k, v) :: r -> k <= a < k + v_size v -> 0 < n0 -> word n0 -> pool_ready s a n ->
  exists s', decommit_entry a n0 s = Done (n, s') /\ mm_wf s' /\
    updated (vma_map s) a n page_pool_reserved (vma_map s') /\ pool_freed s a n s' /\
    pool_account s' = pool_account s /\
    (n < n0 -> view (vma_map s) (a + n) <> None -> (depth (a + n) (vma_map s') <= length r)%nat).
Proof.
  intros n Hwf Em Ha Hn0 Hwn Hr. pose proof (mw_vmas _ Hwf) as Hw. rewrite Em in Hw.
  pose proof (wf_mid _ _ _ _ _ Hw) as (_ & _ & Hk & _ & ? & [_ Hok] & _ & Hbl & Hab & ?). cbn in Hk, H, Hab.
  assert (word a) as Hwa by (unfold word; lia).
  assert (exists s', decommit_entry a n0 s = Done (n, s') /\ pool_freed s a n s' /\ pool_account s' = pool_account s /\
    (n < n0 -> view (vma_map s) (a + n) <> None -> (depth (a + n) (vma_map s') <= length r)%nat)) as (s' & E & HF & HA & Hd).
  { unfold decommit_entry. assert (FindVMA (vma_map s) a = Done (k, v)) as ->
      by (rewrite Em; unfold FindVMA; rewrite mle_mid by (auto; try lia; apply Hab; lia); done).
    cbn [obind]. rewrite (wsub_small a), (wsub_small (v_size v)) by word_lia.
    replace (Z.min n0 (v_size v - (a - v_base v))) with n by (unfold n; lia). rewrite <- Hk.
    assert (exists s1, (if bool_decide (v_type v = VMAType.Pooled) then
        let! from := of_option (mfind (a - k) (v_phys v)) in
        let! '(size_to_free, dmem) := repool (a - k) from n (dmem_map (with_budget (wadd (pool_budget s) n) s)) in
        oassert (size_to_free =? 0) ;;! Done (with_dmem dmem (with_budget (wadd (pool_budget s) n) s))
        else Done s) = Done s1 /\
      vma_map s1 = vma_map s /\ pool_freed s a n s1 /\ pool_account s1 = pool_account s) as (s1 & -> & Ev1 & HF & HA).
    { destruct (decide (v_type v = VMAType.Pooled)) as [Ht|Ht];
        [rewrite bool_decide_eq_true_2 by done|rewrite bool_decide_eq_false_2 by done].
      2: { exists s. split_and!; [done|done| |done]. rewrite Em. apply (freed_other l k v r a n); auto; try (unfold n; lia); apply Hwf. }
      rewrite Em in Hr |- *.
      destruct (freed_entry l k v r a n Hw ltac:(lia) ltac:(unfold n; lia) ltac:(unfold n; lia) VMAType.Pooled PMT.Committed
        PMT.Pooled _ (pw_dmem _ (mw_phys _ Hwf)) Ht) as (from & pm' & -> & Er & HF & HB); [|done|].
      { unfold HasPhysicalBacking. by rewrite Ht. }
      cbn [of_option obind dmem_map with_budget]. rewrite repool_release, Er. cbn [obind oassert Z.eqb].
      eexists. split; [done|]. split; [done|]. split; [done|]. unfold pool_account. cbn [pool_budget dmem_map with_dmem with_budget].
      rewrite HB by done. unfold wadd, u64. rewrite Zplus_mod_idemp_l. f_equal. lia. }
    cbn [obind]. destruct (vma_update_ok 0 pool_reserved_vma page_pool_reserved l k v r a n Hw fun_pool_reserved) as
      (h & m1 & k2 & m2 & EC & EM & Hd); [unfold n; lia|lia|unfold n; lia|].
    rewrite Ev1, Em, EC. cbn [obind]. rewrite EM. cbn [obind]. rewrite <- Em.
    eexists. split; [done|]. split; [exact HF|]. split; [exact HA|]. intros Hlt Hv. rewrite Em in Hv. apply Hd; [unfold n in *; lia|done]. }
  exists s'. split; [done|].
  destruct (decommit_entry_effect _ _ _ _ _ Hwf Hwa Hwn E) as (? & _ & _ & ?). done.
Qed.

Lemma decommit_loop_ok fuel addr size s :
  mm_wf s -> 0 <= addr -> 0 < size -> addr + size < W64 -> covered (vma_map s) addr size -> pool_ready s addr size ->
  (depth addr (vma_map s) <= fuel)%nat ->
  exists s', decommit_loop fuel addr size s = Done s' /\ mm_wf s' /\
    updated (vma_map s) addr size page_pool_reserved (vma_map s') /\ pool_freed s addr size s' /\
    pool_account s' = pool_account s.
Proof.
  revert addr size s; induction fuel as [|fuel IH]; intros addr size s Hwf Ha Hs Hlt Hc Hr Hdep; cbn [decommit_loop].
  all: destruct (find_covered 0 _ addr (mw_vmas _ Hwf) (Hc addr ltac:(lia)))
    as (l & k & v & r & Em & Ef & Hin & Hv); cbn in Hin.
  all: assert (depth addr (vma_map s) = S (length r)) as Edep by (unfold depth; by rewrite Ef).
  { lia. }
  destruct (Z.eqb_spec size 0) as [?|_]; [lia|]. set (n := Z.min size (k + v_size v - addr)). assert (0 < n <= size) by (unfold n; lia).
  destruct (decommit_entry_ok l k v r addr size s) as (s1 & -> & Hwf1 & Hu & HG & HA & Hdp); auto;
    [unfold word; lia|eapply ready_prefix; [|eassumption]; fold n; lia|].
  fold n in Hu, HG, Hdp |- *. cbn [obind]. rewrite wadd_small, wsub_small by lia.
  destruct (Z.eq_dec n size) as [->|Hne].
  { rewrite Z.sub_diag. assert (decommit_loop fuel (addr + size) 0 s1 = Done s1) as -> by (by destruct fuel). by exists s1. }
  assert (forall x, addr + n <= x < addr + size -> behind VMAType.Pooled (vma_map s1) x = behind VMAType.Pooled (vma_map s) x) as Hsame.
  { intros x Hx. eapply behind_updated; [exact Hu|]. apply in_range_false. lia. }
  assert (0 <= n <= size) as Hn by lia. pose proof (ready_rest _ _ _ _ _ _ _ _ _ _ Hn Hr HG Hsame) as Hr1.
  destruct (IH (addr + n) (size - n) s1) as (s' & -> & Hwf' & Hu' & HG' & HA'); auto; try lia.
  - eapply covered_updated; [exact Hu|]. intros x Hx. apply Hc. lia.
  - pose proof (Hdp ltac:(lia) (Hc (addr + n) ltac:(lia))). lia.
  - exists s'. split_and!; [done|done| | |congruence].
    + replace size with (n + (size - n)) by lia. eapply updated_app; [lia|lia|exact Hu|done].
    + exact (freed_app _ _ _ _ _ _ _ _ _ _ Hn Hr HG Hsame _ HG').
Qed.

(** [PoolDecommit] refuses ranges with an area it may not touch, and otherwise
    completes. *)
Lemma PoolDecommit_ok addr size s :
  mm_wf s -> 0 <= addr -> 0 < size -> addr + size < W64 -> covered (vma_map s) addr size -> pool_ready s addr size ->
  PoolDecommit addr size s = Done (ORBIS_KERNEL_ERROR_EINVAL, s) \/
  exists s', PoolDecommit addr size s = Done (ORBIS_OK, s') /\ mm_wf s' /\
    updated (vma_map s) addr size page_pool_reserved (vma_map s') /\ pool_freed s addr size s' /\
    pool_account s' = pool_account s.
Proof.
  intros Hwf Ha Hs Hlt Hc Hr. unfold PoolDecommit. rewrite assert_covered by (auto; apply Hwf). cbn [obind].
  destruct (find_covered 0 _ addr (mw_vmas _ Hwf) (Hc addr ltac:(lia))) as (l & k & v & r & Em & Ef & _).
  rewrite Ef. cbn [of_option obind]. destruct (negb _); [by left|right].
  set (s1 := begin_mutation (gpu_unmap addr size s)).
  assert (vma_map s1 = vma_map s /\ dmem_map s1 = dmem_map s /\ pool_budget s1 = pool_budget s) as (E1 & E2 & E3).
  { unfold s1, gpu_unmap. by destruct (IsValidGpuMapping addr size). }
  destruct (decommit_loop_ok (S (length (vma_map s1))) addr size s1) as (s' & -> & Hwf' & Hu & HG & HA);
    rewrite ?E1, ?E2 in *; auto with areas.
  { unfold s1. auto with areas. }
  { pose proof (depth_length addr (vma_map s)). lia. }
  cbn [obind]. eexists. split_and!; [done|auto with areas|done|done|].
  unfold pool_account in *. rewrite E2, E3 in HA. exact HA.
Qed.
