(* ===== verification/MemTotal.v ===== *)
(** * MemTotal: mapping completes

    The loops that back a mapping end before their fuel does, so that mapping
    always answers. *)

From S2P Require Import Prelude OrdMap MemTypes PhysFacts VmaFacts MemOps MemInv MemMap MemEffects MemAttrs FlexFacts MemAlloc.

(** ** The loops that back a mapping complete

    [MapMemory] and [PoolCommit] take physical memory area by area.  The loops
    end before their fuel does, and no assertion fails, when enough memory in
    the right state is left ([Flexible], [Pooled]) or when the physical range
    exists ([Direct]). *)

(** Carve, overwrite and merge inside one area: everything the loops read. *)
Lemma phys_take_ok f g l k a r addr n :
  wf_from 0 (l ++ (k, a) :: r) -> phys_fun f g -> 0 < n -> k <= addr -> addr + n <= k + p_size a ->
  exists m1 na l' k' a' r', CarvePhysArea (l ++ (k, a) :: r) addr n = Done (addr, m1) /\
    mlookup addr (malter f addr m1) = Some na /\ p_base na = addr /\ p_size na = n /\
    phys_MergeAdjacent (malter f addr m1) addr = Done (k', l' ++ (k', a') :: r') /\ k' <= addr /\
    retagged 0 (l ++ (k, a) :: r) addr n g a (l' ++ (k', a') :: r') /\
    (addr + n = k + p_size a -> k + p_size a = k' + p_size a' /\ r' = r \/
      exists nk nb, r = (nk, nb) :: r' /\ p_dma nb = (g (p_mtype a, p_dma a)).2).
Proof.
  intros Hwf Hf Hn Hk Hle. pose proof (wf_mid _ _ _ _ _ Hwf) as (_ & _ & Hkb & ? & ? & Hok & _ & _ & _ & ?). cbn in Hkb, H, H0, Hok.
  destruct (CarvePhysArea_ok 0 l k a r addr n) as (m1 & E & Hcv); auto.
  destruct (carved_overwrite 0 _ _ _ _ _ _ f g Hwf Hf Hcv) as (l1 & r1 & mid & E1 & Hw & _ & _ & Hv & _ & Hsz & Htl).
  destruct (phys_MergeAdjacent_ok 0 l1 addr (f mid) r1 Hw) as (l' & k' & a' & r' & E' & Hk' & _ & _ & _ & _ & _ & Hr).
  pose proof (wf_mid _ _ _ _ _ Hw) as (_ & _ & Hfb & _ & _ & _ & _ & Hbl & _). cbn in Hfb.
  exists m1, (f mid), l', k', a', r'. rewrite E1 in *. split_and!; [done|by apply mlookup_mid|done|done|done|done| |].
  - assert (word addr) as Hwa by (unfold word; lia). assert (word n) as Hwn by (unfold word; lia).
    assert (retag f (l ++ (k, a) :: r) addr n = Done (l' ++ (k', a') :: r')) as ER.
    { unfold retag. rewrite E. cbn [obind]. rewrite E1, E'. done. }
    destruct (retag_ok 0 f g l k a r addr n Hwf Hwa Hwn Hf Hn Hk Hle) as (m' & ER' & HR).
    rewrite ER in ER'. by injection ER' as ->.
  - intros He. rewrite Htl in Hr by lia. rewrite Hsz in Hr. destruct Hr as [[? ->]|(nk & nb & -> & Hd)].
    + left. split; [lia|done].
    + right. exists nk, nb. split; [done|]. rewrite Hd. specialize (Hv addr).
      rewrite (proj2 (in_range_true _ _ _)), (view_mid 0) in Hv by (cbn; auto; lia). cbn in Hv.
      by injection Hv as <-.
Qed.

(** ** Loops that search for memory in state [from] *)

(** The bytes a suffix of the map still offers after the area before it was
    taken and merged. *)
Lemma bytes_after from to (r r' : PhysMap) :
  from <> to -> (r' = r \/ exists nk nb, r = (nk, nb) :: r' /\ p_dma nb = to) ->
  dma_bytes from r' = dma_bytes from r /\ (length r' <= length r)%nat.
Proof.
  intros Hne [->|(nk & nb & -> & Hd)]; [done|]. unfold dma_bytes. cbn. rewrite Hd, bool_decide_eq_false_2 by congruence. lia.
Qed.

Lemma dma_bytes_cons d k (a : PhysicalMemoryArea) r :
  dma_bytes d ((k, a) :: r) = (if bool_decide (p_dma a = d) then p_size a else 0) + dma_bytes d r.
Proof. done. Qed.

Lemma mnext_wf (l : PhysMap) k a r : wf_from 0 (l ++ (k, a) :: r) -> mnext k (l ++ (k, a) :: r) = head r.
Proof.
  intros Hw. pose proof (wf_mid _ _ _ _ _ Hw) as (_ & _ & _ & ? & _ & _ & _ & Hb & Ha & _). cbn in H, Ha.
  apply mnext_mid; [done|]. apply Ha. lia.
Qed.

Lemma map_flexible_ok fuel l h v r fl fr mapped cur rem is_exec s :
  phys_wf s -> vma_map s = l ++ (h, v) :: r -> below h l -> tiled 0 (v_phys v) (cur - mapped) ->
  0 <= mapped -> mapped <= cur -> 0 <= rem -> cur + rem < W64 ->
  fmem_map s = fl ++ fr -> rem <= dma_bytes PMT.Free fr -> (length fr <= fuel)%nat ->
  exists s', map_flexible fuel (fst <$> head fr) h mapped cur rem is_exec s = Done (0, s').
Proof.
  revert v fl fr cur rem s; induction fuel as [|fuel IH];
    intros v fl fr cur rem s Hwf Em Hb Ht Hm Hc Hr Hlt Ef Hfree Hfuel.
  all: destruct fr as [|[k a] fr]; [cbn in Hfree; assert (rem = 0) as -> by (unfold dma_bytes in Hfree; cbn in Hfree; lia); by exists s|].
  all: cbn [map_flexible head fmap option_fmap option_map fst] in *;
    destruct (Z.eqb_spec rem 0) as [->|Hnz]; [by exists s|].
  { cbn in Hfuel. lia. }
  pose proof (pw_fmem _ Hwf) as Hw. rewrite Ef in Hw. pose proof (wf_mid _ _ _ _ _ Hw) as (_ & _ & Hkb & Hs & He & Hk0 & _ & Hbk & _).
  cbn in Hkb, Hs, He, Hk0, Hfuel. rewrite Ef, mlookup_mid by done. cbn [of_option obind]. rewrite dma_bytes_cons in Hfree.
  destruct (bool_decide (p_dma a = PMT.Free)) eqn:Ed; cbn [negb].
  2: { rewrite mnext_wf by done. apply (IH v (fl ++ [(k, a)]) fr); auto; try lia. by rewrite <- app_assoc. }
  bool_prop. set (n := Z.min rem (p_size a)).
  destruct (phys_take_ok (p_with_dma PMT.Flexible) _ fl k a fr k n Hw (fun_dma PMT.Flexible))
    as (m1 & na & l' & k' & a' & r' & EC & Ena & Hnb & Hns & EM & Hk' & HR & Hr'); try (unfold n; lia).
  rewrite <- Hkb, EC. cbn [obind]. rewrite Ena. cbn [of_option obind]. rewrite (wsub_small cur) by lia.
  destruct (add_backing_ok l h v r (cur - mapped) na s) as (p1 & -> & Ht1 & _); auto; try (unfold n in *; lia).
  cbn [obind]. rewrite EM. cbn [obind]. rewrite (mnext_wf l' k' a' r') by apply HR.
  rewrite (wadd_small cur), (wsub_small rem) by (unfold n; lia).
  destruct (Z.eq_dec rem n) as [En|Hmore].
  { rewrite En, Z.sub_diag. destruct fuel; cbn; destruct (fst <$> head r'); by eexists. }
  assert (n = p_size a) as Hfull by (unfold n in *; lia).
  destruct (bytes_after PMT.Free PMT.Flexible fr r' ltac:(done)) as [Hby Hle].
  { destruct (Hr' ltac:(lia)) as [[_ ?]|?]; auto. }
  eapply (IH (v_with_phys p1 v) (l' ++ [(k', a')])); auto; try (unfold n in *; lia).
  - eapply phys_wf_same; [..|eapply phys_wf_fmem; [exact Hwf|]]; try done. rewrite Ef. by eapply retagged_like.
  - cbn [v_phys v_with_phys]. by replace (cur + n - mapped) with (cur - mapped + p_size na) by lia.
  - cbn. by rewrite <- app_assoc.
Qed.

Lemma commit_loop_ok fuel l h v r fl fr mapped off rem mtype s :
  phys_wf s -> vma_map s = l ++ (h, v) :: r -> below h l -> tiled 0 (v_phys v) off ->
  0 <= off -> 0 <= rem -> off + rem < W64 ->
  dmem_map s = fl ++ fr -> rem <= dma_bytes PMT.Pooled fr -> (length fr <= fuel)%nat ->
  exists s', commit_loop fuel (fst <$> head fr) h mapped (u64 (mapped + off)) rem mtype s = Done (0, s').
Proof.
  revert v fl fr off rem s; induction fuel as [|fuel IH];
    intros v fl fr off rem s Hwf Em Hb Ht Ho Hr Hlt Ef Hfree Hfuel.
  all: destruct fr as [|[k a] fr]; [assert (rem = 0) as -> by (unfold dma_bytes in Hfree; cbn in Hfree; lia); by exists s|].
  all: cbn [commit_loop head fmap option_fmap option_map fst] in *;
    destruct (Z.ltb_spec 0 rem) as [Hnz|]; cbn [negb]; [|assert (rem = 0) as -> by lia; by exists s].
  { cbn in Hfuel. lia. }
  pose proof (pw_dmem _ Hwf) as Hw. rewrite Ef in Hw. pose proof (wf_mid _ _ _ _ _ Hw) as (_ & _ & Hkb & Hs & He & Hk0 & _ & Hbk & _).
  cbn in Hkb, Hs, He, Hk0, Hfuel. rewrite Ef, mlookup_mid by done. cbn [of_option obind]. rewrite dma_bytes_cons in Hfree.
  destruct (bool_decide (p_dma a = PMT.Pooled)) eqn:Ed; cbn [negb].
  2: { rewrite mnext_wf by done. apply (IH v (fl ++ [(k, a)]) fr); auto; try lia. by rewrite <- app_assoc. }
  bool_prop. set (n := Z.min rem (p_size a)).
  destruct (phys_take_ok _ _ fl k a fr k n Hw (fun_both mtype PMT.Committed))
    as (m1 & na & l' & k' & a' & r' & EC & Ena & Hnb & Hns & EM & Hk' & HR & Hr'); try (unfold n; lia).
  rewrite <- Hkb, EC. cbn [obind]. rewrite Ena. cbn [of_option obind]. rewrite wsub_offset by lia.
  destruct (add_backing_ok l h v r off na s) as (p1 & -> & Ht1 & _); auto; try (unfold n in *; lia).
  cbn [obind]. rewrite EM. cbn [obind]. rewrite (mnext_wf l' k' a' r') by apply HR.
  rewrite wadd_offset, (wsub_small rem) by (unfold n; lia).
  destruct (Z.eq_dec rem n) as [En|Hmore].
  { rewrite En, Z.sub_diag. destruct fuel; cbn; destruct (fst <$> head r'); by eexists. }
  assert (n = p_size a) as Hfull by (unfold n in *; lia).
  destruct (bytes_after PMT.Pooled PMT.Committed fr r' ltac:(done)) as [Hby Hle].
  { destruct (Hr' ltac:(lia)) as [[_ ?]|?]; auto. }
  eapply (IH (v_with_phys p1 v) (l' ++ [(k', a')])); auto; try (unfold n in *; lia).
  - eapply phys_wf_same; [..|eapply phys_wf_dmem; [exact Hwf|]]; try done. rewrite Ef. by eapply retagged_like.
  - cbn [v_phys v_with_phys]. by rewrite Hns in Ht1.
  - cbn. by rewrite <- app_assoc.
Qed.

(** ** The direct loop *)

(** The map of direct memory has no hole. *)
Lemma contiguous_view lo (m : PhysMap) x : contiguous lo m -> wf_from lo m -> lo <= x < end_from lo m -> view m x <> None.
Proof.
  revert lo; induction m as [|[k a] m IH]; intros lo Hc Hw Hx; cbn in *; [lia|]. destruct Hc as [-> Hc], Hw as (_ & ? & ? & _ & _ & Hw).
  unfold covers. cbn. destruct (Z.leb_spec (p_base a) x), (Z.ltb_spec x (p_base a + p_size a)); cbn; try done; try (cbn in *; lia).
  apply (IH (lo + p_size a)); [done|done|]. cbn in *. lia.
Qed.

Lemma FindArea_some (m : PhysMap) x : contiguous 0 m -> m <> [] -> 0 <= x -> exists e, FindArea m x = Done e.
Proof.
  intros Hc Hne Hx. destruct m as [|[k a] m]; [done|]. destruct Hc as [-> _]. unfold FindArea, mle. cbn.
  rewrite (proj2 (Z.leb_le 0 x)) by done. destruct (mfind x m) as [s|] eqn:E; [|by eexists].
  apply mfind_split in E as (k1 & a1 & l & r & -> & _). by eexists.
Qed.

Lemma map_direct_ok fuel l h v r pa cur rem s :
  phys_wf s -> vma_map s = l ++ (h, v) :: r -> below h l -> tiled 0 (v_phys v) (cur - pa) ->
  0 <= pa <= cur -> 0 <= rem -> 0 < total_direct_size s -> cur + rem <= total_direct_size s ->
  (0 < rem -> (depth cur (dmem_map s) <= fuel)%nat) ->
  exists s', map_direct fuel h pa cur rem s = Done (0, s').
Proof.
  revert v cur rem s; induction fuel as [|fuel IH]; intros v cur rem s Hwf Em Hb Ht Hp Hr Htot Hle Hfuel; cbn [map_direct].
  all: pose proof Hwf as [Hw Hc Hend _ _]; rewrite <- Hend in Htot, Hle.
  all: destruct (FindArea_some (dmem_map s) cur Hc) as [[k0 a0] EF]; [intros E; rewrite E in Htot; cbn in Htot; lia|lia|].
  all: destruct (Z.ltb_spec 0 rem) as [Hpos|Hz]; cbn [negb];
    [|rewrite EF; cbn [obind]; assert (rem = 0) as -> by lia; by exists s].
  all: destruct (find_covered 0 _ cur Hw (contiguous_view 0 _ cur Hc Hw ltac:(lia))) as (dl & k & a & dr & Ed & Efd & Hin & _);
    cbn in Hin; assert (depth cur (dmem_map s) = S (length dr)) as Edep by (unfold depth; by rewrite Efd).
  { specialize (Hfuel Hpos). lia. }
  clear EF. assert (FindArea (dmem_map s) cur = Done (k, a)) as -> by (unfold FindArea, mle; by rewrite Efd). cbn [obind].
  pose proof Hw as Hw'. rewrite Ed in Hw'. pose proof (wf_mid _ _ _ _ _ Hw') as (_ & _ & Hkb & Hs & He & Hk0 & _). cbn in Hkb, Hs, He, Hk0.
  assert (Z.max cur (p_base a) = cur) as -> by lia. rewrite (wsub_small cur (p_base a)), (wsub_small (p_size a)) by word_lia.
  pose proof (end_word 0 _ Hw ltac:(done)). set (n := Z.min _ rem).
  assert (0 < n /\ n <= rem /\ cur + n <= k + p_size a /\ (n < rem -> cur + n = k + p_size a)) as (Hn & Hnr & Hne & Hfull) by (unfold n; lia).
  destruct (phys_take_ok _ _ dl k a dr cur n Hw' (fun_dma PMT.Mapped))
    as (m1 & na & l' & k' & a' & r' & EC & Ena & Hnb & Hns & EM & Hk' & HR & Hr'); try lia.
  rewrite Ed, EC. cbn [obind]. rewrite Ena. cbn [of_option obind]. rewrite (wsub_small cur pa) by word_lia.
  destruct (add_backing_ok l h v r (cur - pa) na s) as (p1 & -> & Ht1 & _); auto; try word_lia.
  cbn [obind]. rewrite EM. cbn [obind]. rewrite (wadd_small cur), (wsub_small rem) by word_lia.
  apply (IH (v_with_phys p1 v)); auto; try lia.
  - eapply phys_wf_same; [..|eapply phys_wf_dmem; [exact Hwf|]]; try done. rewrite Ed. by eapply retagged_like.
  - cbn [v_phys v_with_phys]. by replace (cur + n - pa) with (cur - pa + p_size na) by lia.
  - cbn [total_direct_size with_dmem with_vmas]. by rewrite <- Hend.
  - cbn [total_direct_size with_dmem with_vmas]. rewrite <- Hend. lia.
  - intros Hmore. cbn [dmem_map with_dmem]. specialize (Hfuel Hpos). pose proof (rt_wf _ _ _ _ _ _ _ HR) as Hw2.
    assert (view (l' ++ (k', a') :: r') (cur + n) <> None) as Hv.
    { rewrite (rt_view _ _ _ _ _ _ _ HR), (proj2 (in_range_false _ _ _)), <- Ed by lia.
      apply (contiguous_view 0); [done|done|lia]. }
    destruct (Hr' ltac:(apply Hfull; lia)) as [[Ee ->]|(nk & nb & -> & _)].
    + pose proof (depth_past 0 l' k' a' dr (cur + n) Hw2 ltac:(cbn; lia) Hv). lia.
    + cbn in Edep. destruct (Z.lt_ge_cases (cur + n) (k' + p_size a')) as [Hlt|Hge].
      * rewrite (depth_in 0) by (cbn; auto; lia). lia.
      * pose proof (depth_past 0 l' k' a' r' (cur + n) Hw2 ltac:(cbn; lia) Hv). lia.
Qed.

(** ** Mapping completes

    Whatever the type, [MapMemory] into a free range answers: with the error
    its checks demand, or with success; the same for [MapFile] and
    [PoolCommit]. *)

(** ** Mapping *)

Lemma FindVMA_mid l k v r x :
  wf_from 0 (l ++ (k, v) :: r) -> k <= x < k + v_size v -> FindVMA (l ++ (k, v) :: r) x = Done (k, v).
Proof.
  intros Hw Hx. pose proof (wf_mid _ _ _ _ _ Hw) as (_ & _ & _ & _ & _ & _ & _ & Hbl & Hab & _).
  unfold FindVMA. rewrite mle_mid; [done|done|lia|]. apply Hab. cbn. lia.
Qed.

Lemma FindVMA_some (l r : VMAMap) k v x : below k l -> k <= x -> exists e, FindVMA (l ++ (k, v) :: r) x = Done e.
Proof.
  intros Hbl Hx. unfold FindVMA, mle. assert (exists q, mfind x (l ++ (k, v) :: r) = Some q) as [q Eq].
  { induction Hbl as [|[k' v'] l Hk' _ IH]; cbn in *.
    - rewrite (proj2 (Z.leb_le k x)) by done. destruct (mfind x r); eauto.
    - rewrite (proj2 (Z.leb_le k' x)) by lia. destruct IH as [q ->]. eauto. }
  destruct (mfind_split _ _ _ Eq) as (k1 & a1 & l1 & r1 & -> & _). rewrite Eq. by eexists.
Qed.

Lemma CreateArea_ok a size prot flags type name s :
  mm_wf s -> 0 <= a -> 0 < size -> one_free_area (vma_map s) a size ->
  exists e, CreateArea a size prot flags type name s = Done e.
Proof.
  intros Hwf Ha Hs (l & k & v & r & Em & Hf & Hk & He). pose proof (mw_vmas _ Hwf) as Hw. rewrite Em in Hw.
  pose proof (wf_mid _ _ _ _ _ Hw) as (_ & _ & Hkb & Hsz & Hlt & _ & _ & Hbl & _ & ?). cbn in Hkb, Hsz, Hlt.
  assert (FindVMA (vma_map s) a = Done (k, v)) as EF by (rewrite Em; apply FindVMA_mid; [done|lia]).
  assert (clear_loop (S (length (vma_map s))) a size v s = Done s) as Ecl.
  { cbn [clear_loop]. rewrite (proj2 (Z.ltb_lt 0 size)) by done. cbn [negb].
    unfold UnmapBytesFromEntry. rewrite Hf. cbn [bool_decide orb]. rewrite (wsub_small a), wsub_small by word_lia.
    replace (Z.min (v_size v - (a - v_base v)) size) with size by lia. rewrite bool_decide_true by done. cbn [orb obind].
    rewrite wadd_small, wsub_small by lia. replace (size - size) with 0 by lia.
    rewrite Em. destruct (FindVMA_some l r k v (a + size)) as [[k2 v2] ->]; [done|lia|]. cbn [obind].
    by destruct (length _). }
  unfold CreateArea. rewrite EF. cbn [obind].
  replace (if has flags MemoryMapFlags.Fixed then _ else _) with (Done s) by (destruct (has flags _); by rewrite ?Ecl).
  cbn [obind]. rewrite EF. cbn [obind]. unfold IsFree. rewrite bool_decide_true by done. cbn [oassert obind].
  destruct (CarveVMA_ok 0 l k v r a size Hw Hs Hk He) as (m' & EC & _). rewrite Em, EC. by eexists.
Qed.

(** ** The check of the physical range *)

(** A byte of direct memory that may be mapped. *)
Definition mappable (vd : bool) (m : PhysMap) (y : Z) : Prop :=
  exists t d, view m y = Some (t, d) /\ (d = PMT.Allocated \/ d = PMT.Mapped /\ vd = false).

(** The test [check_dmem] makes of one area. *)
Definition area_mappable (vd : bool) (a : PhysicalMemoryArea) : Prop :=
  p_dma a = PMT.Allocated \/ p_dma a = PMT.Mapped /\ vd = false.

Lemma check_dmem_cases areas e vd :
  check_dmem areas e vd = ORBIS_OK \/ check_dmem areas e vd = ORBIS_KERNEL_ERROR_ENOMEM \/
  check_dmem areas e vd = ORBIS_KERNEL_ERROR_EBUSY.
Proof.
  induction areas as [|[k a] areas IH]; cbn; [by left|].
  repeat match goal with |- context [if ?b then _ else _] => destruct b end; auto.
Qed.

Lemma check_dmem_ok lo areas e vd :
  wf_from lo areas -> check_dmem areas e vd = ORBIS_OK <->
  forall l k a r, areas = l ++ (k, a) :: r -> k < e -> area_mappable vd a.
Proof.
  revert lo; induction areas as [|[k a] areas IH]; intros lo Hw; cbn [check_dmem].
  { split; [|done]. intros _ l k a r E. by destruct l. }
  cbn in Hw. destruct Hw as (? & Hk & ? & _ & _ & Hw). cbn in Hk. rewrite <- Hk.
  destruct (Z.ltb_spec k e) as [Hlt|Hge]; cbn [negb].
  2: { split; [|done]. intros _ l k1 a1 r1 E Hlt. exfalso. destruct l as [|[k2 a2] l]; injection E as <- <- ->; [lia|].
       pose proof (wf_mid _ _ _ _ _ Hw) as (_ & _ & _ & _ & _ & _ & _ & _ & _ & Hle). cbn in *. lia. }
  assert (area_mappable vd a \/ ~ area_mappable vd a) as [Hm|Hm].
  { unfold area_mappable. destruct (p_dma a), vd; intuition congruence. }
  - replace (negb _ && negb _)%bool with false
      by (symmetry; destruct Hm as [->|[-> _]]; rewrite ?bool_decide_eq_true_2, ?andb_false_r by done; done).
    replace (vd && _)%bool with false
      by (symmetry; destruct Hm as [->|[_ ->]]; [rewrite bool_decide_eq_false_2, andb_false_r by done|]; done).
    rewrite (IH (k + r_size a)) by done. split.
    + intros HA l k1 a1 r1 E. destruct l as [|[k2 a2] l]; injection E as <- <- ->; [done|]. by apply (HA l k1 a1 r1).
    + intros HA l k1 a1 r1 ->. by apply (HA ((k, a) :: l) k1 a1 r1).
  - split; [|intros HA; destruct Hm; by apply (HA [] k a areas)]. intros HA. exfalso. unfold area_mappable in Hm.
    destruct (bool_decide (p_dma a = PMT.Allocated)) eqn:E1; bool_prop; [tauto|]. cbn [negb andb] in HA.
    destruct (bool_decide (p_dma a = PMT.Mapped)) eqn:E2; bool_prop; cbn [negb] in HA; [|done].
    destruct vd; [done|tauto].
Qed.

(** [check_phys] accepts exactly the ranges of mappable bytes. *)
Lemma check_phys_ok pa size vd s :
  phys_wf s -> 0 < total_direct_size s -> 0 <= pa -> 0 < size -> pa + size < W64 ->
  exists e, check_phys pa size vd s = Done e /\
    (e = ORBIS_OK <-> pa + size <= total_direct_size s /\ forall y, pa <= y < pa + size -> mappable vd (dmem_map s) y).
Proof.
  intros [Hw Hc Hend _ _] Ht Hp Hs Hlt. unfold check_phys. rewrite wadd_small by lia.
  destruct (Z.eqb_spec pa MINUS_1) as [E|_]; [unfold MINUS_1, W64 in *; lia|]. cbn [negb].
  destruct (Z.ltb_spec (total_direct_size s) (pa + size)) as [Hbig|Hle].
  { eexists. split; [done|]. split; [done|]. intros [? _]. lia. }
  destruct (find_covered 0 _ pa Hw (contiguous_view 0 _ pa Hc Hw ltac:(lia))) as (l & k & a & r & Em & Ef & Hin & _). cbn in Hin.
  assert (forall y, pa <= y < pa + size -> view (dmem_map s) y <> None) as Hv
    by (intros y Hy; apply (contiguous_view 0); auto; lia).
  rewrite Ef. cbn [of_option obind]. eexists. split; [done|]. rewrite Em in *.
  pose proof (wf_mid _ _ _ _ _ Hw) as (Hl & He & Hk & ? & ? & ? & Hr & _).
  assert (wf_from k ((k, a) :: r)) as Hw' by (cbn; split_and!; auto; lia).
  assert (forall y, k <= y -> view (l ++ (k, a) :: r) y = view ((k, a) :: r) y) as Hsuf
    by (intros y Hy; rewrite view_app, (view_ge 0) by (auto; lia); done).
  rewrite (check_dmem_ok k) by done. split.
  - intros HA. split; [done|]. intros y Hy. specialize (Hv y Hy). rewrite Hsuf in Hv by lia.
    destruct (find_covered k _ y Hw' Hv) as (l1 & k1 & a1 & r1 & E1 & _ & Hin1 & Hv1).
    exists (p_mtype a1), (p_dma a1). rewrite Hsuf by lia. split; [exact Hv1|]. apply (HA _ _ _ _ E1). lia.
  - intros [_ HA] l1 k1 a1 r1 E1 Hk1. destruct (HA (Z.max pa k1)) as (t & d & Hvy & Hd); [lia|].
    rewrite Hsuf in Hvy by lia. enough (d = p_dma a1) as -> by done.
    rewrite E1 in Hvy, Hw'. rewrite (view_mid k) in Hvy; [by injection Hvy|done|].
    destruct l1 as [|[k2 a2] l1]; cbn in E1; injection E1 as <- <- ->; [cbn in *; lia|].
    pose proof (wf_mid _ _ _ _ _ Hr) as (_ & _ & _ & ? & _ & _ & _ & _ & _ & ?). cbn in *. lia.
Qed.

(** ** Mapping memory *)

(** What the backing of each type needs. *)
Definition backable (type : VMAType.t) (size pa : Z) (s : MemoryManager) : Prop :=
  match type with
  | VMAType.Flexible => size <= dma_bytes PMT.Free (fmem_map s)
  | VMAType.Direct => 0 <= pa /\ 0 < total_direct_size s /\ pa + size <= total_direct_size s
  | _ => True
  end.

Lemma back_mapping_ok type l v r addr size pa is_exec s :
  phys_wf s -> vma_map s = l ++ (addr, v) :: r -> below addr l -> v_phys v = [] ->
  0 <= addr -> 0 < size -> addr + size < W64 -> backable type size pa s ->
  exists s', back_mapping type addr addr size pa is_exec s = Done s'.
Proof.
  intros Hwf Em Hb Hv ? ? ? Hbk. destruct type; cbn [back_mapping backable] in *; try by exists s.
  - destruct (map_direct_ok (S (length (dmem_map s))) l addr v r pa pa size s) as [s' ->]; auto; try lia;
      [by rewrite Hv, Z.sub_diag|pose proof (depth_length pa (dmem_map s)); lia|]. by exists s'.
  - destruct (map_flexible_ok (S (length (fmem_map s))) l addr v r [] (fmem_map s) addr addr size is_exec s) as [s' ->];
      auto; try lia; [by rewrite Hv, Z.sub_diag|]. by exists s'.
Qed.

(** [MapMemory] into a free range reports success when its checks pass. *)
Lemma MapMemory_ok addr size prot flags type name vd pa al s a :
  mm_wf s -> word addr -> 0 < size < W64 -> word pa -> type <> VMAType.Pooled ->
  (type = VMAType.Flexible -> wadd (flexible_usage s) size <= total_flexible_size s) ->
  check_phys pa size vd s = Done ORBIS_OK -> backable type size pa s ->
  place_mapping addr size flags al s = Done (Some a) -> one_free_area (vma_map s) a size ->
  has flags MemoryMapFlags.Fixed = false ->
  exists s', MapMemory addr size prot flags type name vd pa al s = Done (ORBIS_OK, Some a, s').
Proof.
  intros Hwf Hwa Hs Hwp Hp Hfit Echk Hbk Epl Hone Hnf.
  pose proof (place_word _ _ _ _ _ _ Hwa Epl) as Ha. unfold MapMemory.
  replace (bool_decide (type = VMAType.Flexible) && _)%bool with false.
  2: { symmetry. destruct (bool_decide _) eqn:Et; [|done]. bool_prop. cbn. specialize (Hfit Et).
       destruct (Z.ltb_spec (total_flexible_size s) (wadd (flexible_usage s) size)); [lia|done]. }
  rewrite Echk. cbn [obind Z.eqb ORBIS_OK negb]. rewrite Epl. cbn [obind].
  set (s0 := begin_mutation (gpu_unmap a size s)).
  assert (vma_map s0 = vma_map s) as E0 by apply gpu_unmap_vmas.
  assert (dmem_map s0 = dmem_map s /\ fmem_map s0 = fmem_map s /\ total_direct_size s0 = total_direct_size s) as (Ed0 & Ef0 & Et0)
    by (unfold s0, gpu_unmap; by destruct (IsValidGpuMapping a size)).
  assert (mm_wf s0) as Hwf0 by (unfold s0; auto with areas).
  destruct (CreateArea_ok a size prot flags type name s0 Hwf0) as [[h s1] Ecr];
    [apply Ha|lia|by rewrite E0|]. rewrite Ecr. cbn [obind].
  assert (word size) as Hws by (unfold word; lia).
  destruct (CreateArea_inv _ _ _ _ _ _ _ _ _ Hwf0 Ha Hws Ecr) as
    (-> & s2 & m & fd & l & r & Hwf2 & -> & Hop & Hcl). unfold cleared in Hcl. rewrite Hnf in Hcl. subst s2.
  cbn [vma_map with_vmas]. pose proof (op_base _ _ _ _ _ _ _ Hop) as (_ & _ & _ & Hlt). cbn in Hlt.
  rewrite (op_eq _ _ _ _ _ _ _ Hop). rewrite mlookup_mid by apply Hop. cbn [of_option obind v_base new_vma].
  set (nv := new_vma a size prot flags type name fd) in *.
  assert (phys_wf (with_vmas (l ++ (a, nv) :: r) s0)) as Hpw by (eapply phys_wf_same; [..|apply (mw_phys _ Hwf0)]; done).
  destruct (back_mapping_ok type l nv r a size pa (has prot MemoryProt.CpuExec) (with_vmas (l ++ (a, nv) :: r) s0)) as [s3 Eb];
    auto; try (apply Hop || apply Ha || lia); [by destruct type; cbn in *; rewrite ?Ef0, ?Et0|].
  rewrite Eb. cbn [obind].
  eapply back_mapping_inv in Eb as (p' & Em3 & Hback); [|done|done|apply Hop|done|apply Ha|lia|lia|done].
  assert (vma_ok (v_with_phys p' nv)) as Hok by (eapply backed_vma_ok; [exact Hback|done|done|done|apply Ha]).
  destruct (opened_close _ _ _ _ _ _ _ p' Hop Hok) as [Hw _].
  destruct (_ || _)%bool; [|cbn [obind]; by eexists]. rewrite Em3.
  destruct (vma_MergeAdjacent_ok 0 l a _ r Hw) as (l3 & k3 & v3 & r3 & -> & _). cbn [obind]. by eexists.
Qed.

(** A physical range that fails the check is refused without effect. *)
Lemma MapMemory_refused addr size prot flags type name vd pa al s e :
  type <> VMAType.Flexible -> check_phys pa size vd s = Done e -> e <> ORBIS_OK ->
  MapMemory addr size prot flags type name vd pa al s = Done (e, None, s).
Proof.
  intros Ht Echk He. unfold MapMemory. rewrite bool_decide_eq_false_2 by done. cbn [andb]. rewrite Echk. cbn [obind].
  rewrite (proj2 (Z.eqb_neq e ORBIS_OK)) by done. done.
Qed.

(** Every byte of flexible memory is free or in use. *)
Lemma flexible_bytes s cap : phys_wf s -> flex_inv cap s ->
  dma_bytes PMT.Free (fmem_map s) = ORBIS_KERNEL_FLEXIBLE_MEMORY_SIZE - flexible_usage s.
Proof.
  intros [_ _ _ Hw (b & Hc & He)] HF. rewrite (fo_usage _ _ _ _ HF). destruct (fo_flat _ _ _ _ HF) as [_ HP].
  assert (wf_from b (fmem_map s)) as Hwb by (destruct (fmem_map s) as [|[k a] fm]; [done|]; cbn in *; intuition lia).
  clear Hw HF. enough (dma_bytes PMT.Free (fmem_map s) + dma_bytes PMT.Flexible (fmem_map s) = end_from b (fmem_map s) - b) by lia.
  clear He. revert b Hc Hwb HP. generalize (fmem_map s). clear s. intros m. induction m as [|[k a] m IH]; intros b Hc Hw HP; [unfold dma_bytes; cbn; lia|].
  pose proof Hw as (_ & Hk & Hs & _ & _ & Hw'). destruct Hc as [-> Hc]. rewrite !dma_bytes_cons. cbn [end_from].
  cbn in Hs, Hk, Hc, Hw' |- *.
  assert (p_dma a = PMT.Free \/ p_dma a = PMT.Flexible) as Hd.
  { apply (HP b (p_mtype a)). by rewrite (view_mid b [] b a m) by (cbn; auto; lia). }
  assert (dma_bytes PMT.Free m + dma_bytes PMT.Flexible m = end_from (b + p_size a) m - (b + p_size a)) as Hm.
  { apply IH; [done|done|]. intros y t d Hy. apply (HP y t). cbn. unfold covers. cbn.
    destruct ((p_base a <=? y) && (y <? p_base a + p_size a))%bool eqn:Ec; [|done]. bool_prop.
    rewrite (view_lt (b + p_size a)) in Hy by (done || lia). done. }
  destruct Hd as [-> | ->]; repeat case_bool_decide; done || lia.
Qed.

(** ** Mapping files *)

(** The protection checked by the assertion of [MapFile]. *)
Lemma file_prot_small (ro : bool) prot :
  0 <= prot < MemoryProt.GpuRead ->
  ((if ro then clear (with_read prot) MemoryProt.CpuWrite else with_read prot) <? MemoryProt.GpuRead) = true.
Proof.
  intros Hp. assert (Forall (fun p => (clear (with_read p) MemoryProt.CpuWrite <? MemoryProt.GpuRead) = true /\
    (with_read p <? MemoryProt.GpuRead) = true) (seqZ 0 16)) as HF by (apply (bool_decide_unpack _); vm_compute; exact I).
  rewrite Forall_forall in HF. destruct (HF prot) as [? ?]; [apply elem_of_seqZ; unfold MemoryProt.GpuRead in Hp; lia|].
  by destruct ro.
Qed.

Lemma MapFile_ok f hp addr size prot flags fd pa s a :
  mm_wf s -> word addr -> 0 < size < W64 -> f_regular f = true ->
  0 <= prot < MemoryProt.GpuRead ->
  place_mapping addr size flags 0 s = Done (Some a) -> one_free_area (vma_map s) a size ->
  exists s', MapFile (Some f) hp addr size prot flags fd pa s = Done (ORBIS_OK, Some a, s').
Proof.
  intros Hwf Hwa Hs Hreg Hprot Epl Hone. pose proof (place_word _ _ _ _ _ _ Hwa Epl) as Ha.
  unfold MapFile. rewrite Hreg. cbn [negb]. rewrite (file_prot_small (negb (f_writable f) && negb (f_append f)) prot Hprot). cbn [oassert obind].
  rewrite Epl. cbn [obind]. set (s0 := begin_mutation (gpu_unmap a size s)).
  assert (vma_map s0 = vma_map s) as E0 by apply gpu_unmap_vmas.
  assert (mm_wf s0) as Hwf0 by (unfold s0; auto with areas).
  match goal with |- context [CreateArea a size ?p flags VMAType.File ?nm s0] =>
    destruct (CreateArea_ok a size p flags VMAType.File nm s0 Hwf0) as [[h s1] Ecr]; [apply Ha|lia|by rewrite E0|] end.
  rewrite Ecr. cbn [obind]. assert (word size) as Hws by (unfold word; lia).
  destruct (CreateArea_inv _ _ _ _ _ _ _ _ _ Hwf0 Ha Hws Ecr) as (-> & s2 & m & fd0 & l & r & Hwf2 & -> & Hop & _).
  apply (opened_alter _ _ _ _ _ _ _ (v_with_fd fd)) in Hop; [|done|done]. cbn [vma_map with_vmas].
  rewrite (op_eq _ _ _ _ _ _ _ Hop), mlookup_mid by apply Hop. cbn [of_option obind v_base new_vma v_with_fd]. by eexists.
Qed.

(** ** Committing pool memory *)

(** The range lies in one pool-reserved area. *)
Definition pool_area (m : VMAMap) (a size : Z) : Prop :=
  exists l k v r, m = l ++ (k, v) :: r /\ v_type v = VMAType.PoolReserved /\ k <= a /\ a + size <= k + v_size v.

(** On a 64 KiB boundary inside the address space, [PoolCommit] answers, and
    succeeds exactly when the range is pool-reserved and within budget, as
    long as the pool holds what the budget promises. *)
Lemma PoolCommit_ok addr size prot mtype s :
  mm_wf s -> 0 <= addr -> 0 < size -> addr + size < W64 -> AlignUp addr (KB 64) = addr ->
  covered (vma_map s) addr size -> (size < pool_budget s -> size <= dma_bytes PMT.Pooled (dmem_map s)) ->
  exists ret s', PoolCommit addr size prot mtype s = Done (ret, s') /\
    (ret = ORBIS_OK <-> pool_area (vma_map s) addr size /\ size < pool_budget s).
Proof.
  intros Hwf Ha Hs Hlt Hal Hc Hpool. unfold PoolCommit. cbn [vma_map begin_mutation with_gen].
  rewrite assert_covered by (auto; apply Hwf). cbn [obind]. rewrite Hal.
  destruct (find_covered 0 _ addr (mw_vmas _ Hwf) (Hc addr ltac:(lia))) as (l & k & v & r & Em & Ef & Hin & Hv). cbn in Hin.
  pose proof (mw_vmas _ Hwf) as Hw. rewrite Em in Hw.
  pose proof (wf_mid _ _ _ _ _ Hw) as (_ & _ & Hk & ? & ? & _ & _ & Hbl & _ & ?). cbn in Hk, H, H0.
  assert (FindVMA (vma_map s) addr = Done (k, v)) as EF by (unfold FindVMA, mle; by rewrite Ef). rewrite EF. cbn [obind].
  assert (forall l' k' v' r', vma_map s = l' ++ (k', v') :: r' -> k' <= addr -> addr + size <= k' + v_size v' -> k' = k /\ v' = v) as Huniq.
  { intros l' k' v' r' E Hk' He'. pose proof (mw_vmas _ Hwf) as Hw1. rewrite E in EF, Hw1. rewrite FindVMA_mid in EF by (auto; lia). by injection EF as -> ->. }
  destruct (bool_decide (v_type v = VMAType.PoolReserved)) eqn:Et; bool_prop; cbn [negb].
  2: { eexists _, _. split; [done|]. split; [done|]. intros [(l' & k' & v' & r' & E & Ht' & Hk' & He') _].
       destruct (Huniq _ _ _ _ E Hk' He') as [_ ->]. done. }
  unfold Contains. rewrite (wadd_small addr), (wadd_small (v_base v)) by word_lia.
  rewrite (proj2 (Z.leb_le (v_base v) addr)) by lia. cbn [andb].
  destruct (Z.leb_spec (addr + size) (v_base v + v_size v)) as [Hfits|Hbig]; cbn [negb].
  2: { eexists _, _. split; [done|]. split; [done|]. intros [(l' & k' & v' & r' & E & Ht' & Hk' & He') _].
       destruct (Huniq _ _ _ _ E Hk' He') as [-> ->]. lia. }
  change (pool_budget (begin_mutation s)) with (pool_budget s).
  destruct (Z.leb_spec (pool_budget s) size) as [Hno|Hyes].
  { eexists _, _. split; [done|]. split; [done|]. intros [_ ?]. lia. }
  set (s0 := with_budget _ _).
  destruct (CarveVMA_ok 0 l k v r addr size) as (m1 & EC & Hcv); auto; [lia|lia|].
  change (vma_map s0) with (vma_map s). rewrite Em, EC. cbn [obind].
  match goal with |- context [malter ?f0 _ _] => set (f := f0) in * end.
  assert (word addr) as Hwa by (unfold word; lia). assert (word size) as Hws by (unfold word; lia).
  rewrite <- Em in EC.
  destruct (open_inv _ _ _ _ _ _ f v k (mw_vmas _ Hwf) Hwa Hws EF eq_refl EC ltac:(done)) as (_ & l2 & w & r2 & Hop & Hsz & Hb).
  pose proof (op_eq _ _ _ _ _ _ _ Hop) as Em2. rewrite Em2.
  assert (phys_wf (with_vmas (l2 ++ (addr, f w) :: r2) s0)) as Hpw by (eapply phys_wf_same; [..|apply (mw_phys _ Hwf)]; done).
  destruct (commit_loop_ok (S (length (dmem_map s))) l2 addr (f w) r2 [] (dmem_map s) addr 0 size mtype
    (with_vmas (l2 ++ (addr, f w) :: r2) s0)) as [s1 EL]; auto; try lia; [apply Hop|done|].
  rewrite Z.add_0_r, u64_small in EL by done. change (dmem_map (with_vmas (l2 ++ (addr, f w) :: r2) s0)) with (dmem_map s).
  rewrite EL. cbn [obind oassert Z.eqb]. replace addr with (u64 (addr + 0)) in EL at 3 by (rewrite Z.add_0_r; by apply u64_small).
  eapply (commit_loop_inv _ l2 addr (f w) r2) in EL as (p' & Em1 & _ & _ & HT); auto; try lia; [|apply Hop|done].
  assert (vma_ok (v_with_phys p' (f w))) as Hok.
  { split; [cbn; lia|]. cbn. rewrite Hsz. pose proof (tk_tiled _ _ _ _ _ _ _ _ HT) as Ht. by rewrite Z.sub_0_r, Z.add_0_l in Ht. }
  destruct (opened_close _ _ _ _ _ _ _ p' Hop Hok) as [Hwf2 _]. rewrite Em1.
  destruct (vma_MergeAdjacent_ok 0 l2 addr _ r2 Hwf2) as (l3 & k3 & v3 & r3 & -> & _). cbn [obind].
  eexists _, _. split; [done|]. split; [|done]. intros _. split; [|done]. exists l, k, v, r. split_and!; auto; lia.
Qed.

(** ** What a mapping that is not [Fixed] did *)

(** The types whose areas hold no physical memory. *)
Definition light (t : VMAType.t) : bool :=
  negb (bool_decide (t = VMAType.Direct)) && negb (bool_decide (t = VMAType.Flexible)) &&
  negb (bool_decide (t = VMAType.Pooled)).

Record newly_mapped (type : VMAType.t) (size prot flags : Z) (name : string) (pa a : Z) (s s' s1 s2 : MemoryManager)
    (p' : PhysMap) : Prop := {
  nm_dmem : dmem_map s1 = dmem_map s;
  nm_fmem : fmem_map s1 = fmem_map s;
  nm_back : backed_by type size pa p' s1 s2;
  nm_final : dmem_map s' = dmem_map s2 /\ fmem_map s' = fmem_map s2 /\ flexible_usage s' = flexible_usage s2;
  nm_view : forall x, view (vma_map s') x = if in_range a size x
    then Some (mkPage type (with_read prot) name (has flags MemoryMapFlags.NoCoalesce) (phys_at p' (x - a)))
    else view (vma_map s) x;
  nm_wf : mm_wf s';
}.

Lemma MapMemory_new addr size prot flags type name vd pa al s a s' :
  mm_wf s -> word addr -> word size -> word pa -> type <> VMAType.Pooled -> has flags MemoryMapFlags.Fixed = false ->
  MapMemory addr size prot flags type name vd pa al s = Done (ORBIS_OK, Some a, s') ->
  exists s1 s2 p', newly_mapped type size prot flags name pa a s s' s1 s2 p'.
Proof.
  intros Hwf Hwa Hws Hwp Hp Hnf E.
  destruct (MapMemory_inv _ _ _ _ _ _ _ _ _ _ _ _ _ Hwf Hwa Hws Hwp Hp E) as
    [(He & _)|(_ & a' & s1 & s2 & p' & [= <-] & _ & [_ [_ Hcl] _ [m Hback] (Ed & Ef & Eu & _) Hv Hwf'])]; [by destruct He|].
  unfold cleared in Hcl. rewrite Hnf in Hcl. subst s1. eexists _, s2, p'. split; [..|exact Hback| | |done].
  - cbn. unfold gpu_unmap. by destruct (IsValidGpuMapping a size).
  - cbn. unfold gpu_unmap. by destruct (IsValidGpuMapping a size).
  - done.
  - intros x. rewrite Hv. destruct (in_range a size x); [done|].
    unfold begin_mutation, with_gen. cbn [vma_map]. by rewrite gpu_unmap_vmas.
Qed.
