(* ===== verification/MemExec.v ===== *)
(** * MemExec: shared memory is never recorded as executable

    The VMA map must not record a direct, pooled or file page as executable by
    the guest's CPU.  Every operation keeps this as long as the
    mapping operations are not asked for such a page, which is what the system
    calls check. *)

From S2P Require Import Prelude OrdMap MemTypes PhysFacts VmaFacts MemOps MemInv MemMap.
From S2P Require Import MemEffects MemAttrs FlexFacts MemReach.

Definition shared_type (t : VMAType.t) : bool :=
  match t with VMAType.Direct | VMAType.Pooled | VMAType.File => true | _ => false end.

Definition sealed (g : page) : Prop := shared_type (g_type g) = true -> has (g_prot g) MemoryProt.CpuExec = false.

Definition noexec (m : VMAMap) : Prop := forall x g, view m x = Some g -> sealed g.

Lemma noexec_view m m' : (forall x, view m' x = view m x) -> noexec m -> noexec m'.
Proof. intros E H x g Hx. rewrite E in Hx. by eapply H. Qed.

Lemma noexec_updated m a n f m' :
  updated m a n f m' -> (forall x g, in_range a n x = true -> view m x = Some g -> sealed g -> sealed (f g)) ->
  noexec m -> noexec m'.
Proof.
  intros Hu Hf H x g Hx. rewrite Hu in Hx. destruct (in_range a n x) eqn:E; [|by eapply H].
  destruct (view m x) as [g0|] eqn:E0; [|done]. injection Hx as <-. eapply Hf; [done|done|by eapply H].
Qed.

Lemma noexec_overwrite m m' a n (f : Z -> page) :
  (forall x, view m' x = if in_range a n x then Some (f x) else view m x) -> (forall x, sealed (f x)) ->
  noexec m -> noexec m'.
Proof. intros E Hf H x g Hx. rewrite E in Hx. destruct (in_range a n x); [by injection Hx as <-|by eapply H]. Qed.

(** ** Unmapping *)

Lemma UnmapBytes_noexec a v n0 s n s' :
  mm_wf s -> word a -> word n0 -> UnmapBytesFromEntry a v n0 s = Done (n, s') ->
  noexec (vma_map s) -> noexec (vma_map s').
Proof.
  intros Hwf Ha Hn H HX. unfold UnmapBytesFromEntry in H. set (sz := Z.min _ n0) in H.
  assert (word sz) as Hsz by (unfold sz; auto with words).
  destruct (_ || _)%bool; [by run_inv|]. apply obind_Done in H as (s1 & E1 & H).
  assert (mm_wf s1 /\ vma_map s1 = vma_map s) as [Hwf1 Hv1].
  { destruct (v_phys v); run_inv; [done|]. by eapply unmap_phys_wf. }
  apply obind_Done in H as ([h m1] & EC & H). apply obind_Done in H as ([k2 m2] & EM & H).
  destruct (update_effect _ _ _ _ _ _ _ _ _ (mw_vmas _ Hwf1) Ha Hsz fun_free EC EM) as (Hu & _).
  rewrite Hv1 in Hu. assert (noexec m2) as H2 by (by eapply noexec_updated).
  destruct (_ && _)%bool; by run_inv.
Qed.

Lemma unmap_loop_noexec fuel addr size d s s' :
  mm_wf s -> unmap_loop fuel addr size d s = Done s' -> noexec (vma_map s) -> noexec (vma_map s').
Proof.
  revert d s; induction fuel as [|fuel IH]; intros d s Hwf H HX; cbn in H; [done|].
  apply obind_Done in H as ([k v] & Ef & H). apply obind_Done in H as ([n s1] & E & H).
  apply obind_Done in H as (u & _ & H).
  pose proof (UnmapBytes_noexec _ _ _ _ _ _ Hwf (word_wadd _ _) (word_wsub _ _) E HX) as HX1.
  apply UnmapBytesFromEntry_wf in E as [Hwf1 _]; auto with words.
  destruct (_ <? size); [by eapply IH, HX1|by injection H as <-].
Qed.

Lemma clear_loop_noexec fuel a n v s s' :
  mm_wf s -> word a -> word n -> clear_loop fuel a n v s = Done s' -> noexec (vma_map s) -> noexec (vma_map s').
Proof.
  revert a n v s; induction fuel as [|fuel IH]; intros a n v s Hwf Ha Hn H HX; cbn in H;
    destruct (negb _); try by run_inv.
  apply obind_Done in H as ([m s1] & E & H). apply obind_Done in H as ([k1 v1] & Ef & H).
  pose proof (UnmapBytes_noexec _ _ _ _ _ _ Hwf Ha Hn E HX) as HX1.
  apply UnmapBytesFromEntry_wf in E as [Hwf1 _]; auto. eapply IH; [..|exact H|exact HX1]; auto with words.
Qed.

Lemma UnmapMemory_noexec a n s r s' :
  mm_wf s -> UnmapMemory a n s = Done (r, s') -> noexec (vma_map s) -> noexec (vma_map s').
Proof.
  unfold UnmapMemory, UnmapMemoryImpl. intros Hwf H HX. destruct (n =? 0); [by run_inv|]. run_inv.
  eapply unmap_loop_noexec in E1; [exact E1|auto with areas|]. eapply noexec_view, HX. intros x.
  unfold begin_mutation, with_gen. cbn [vma_map]. by rewrite gpu_unmap_vmas.
Qed.

Lemma unmap_all_noexec l s s' :
  mm_wf s -> unmap_all l s = Done s' -> noexec (vma_map s) -> noexec (vma_map s').
Proof.
  revert s; induction l as [|[a n] l IH]; intros s Hwf H HX; cbn in H; [by run_inv|]. run_inv.
  assert (noexec (vma_map m)) as HX1 by (unfold UnmapMemoryImpl in E; run_inv; by eapply unmap_loop_noexec).
  apply UnmapMemoryImpl_wf in E; [|done]. by eapply IH, HX1.
Qed.

Lemma fold_gpu_vmas l s : vma_map (foldl (fun s '(addr, n) => gpu_unmap addr n s) s l) = vma_map s.
Proof. revert s; induction l as [|[a n] l IH]; intros s; cbn; [done|]. by rewrite IH, gpu_unmap_vmas. Qed.

Lemma Free_noexec pa n c s r s' :
  mm_wf s -> Free pa n c s = Done (r, s') -> noexec (vma_map s) -> noexec (vma_map s').
Proof.
  unfold Free. intros Hwf H HX. destruct (_ || _)%bool; [by run_inv|]. run_inv.
  destruct (collect_free _ _ _ _); [|by run_inv]. run_inv.
  eapply unmap_all_noexec in E0; [exact E0|by apply mm_wf_begin, mm_wf_fold_gpu|].
  eapply noexec_view, HX. intros x. unfold begin_mutation, with_gen. cbn [vma_map]. by rewrite fold_gpu_vmas.
Qed.

(** ** Mapping *)

Lemma cleared_noexec flags a n s s1 :
  mm_wf s -> word a -> word n -> cleared flags a n (begin_mutation (gpu_unmap a n s)) s1 ->
  noexec (vma_map s) -> noexec (vma_map s1).
Proof.
  intros Hwf Ha Hn Hc HX. unfold cleared in Hc.
  assert (noexec (vma_map (begin_mutation (gpu_unmap a n s)))) as HX0.
  { eapply noexec_view, HX. intros x. unfold begin_mutation, with_gen. cbn [vma_map]. by rewrite gpu_unmap_vmas. }
  destruct (has flags _); [|by rewrite Hc]. destruct Hc as [(k & v & _ & E) _].
  eapply clear_loop_noexec in E; [exact E|auto with areas|done|done|exact HX0].
Qed.

Lemma MapMemory_noexec addr size prot flags t name vd pa al s r o s' :
  mm_wf s -> word addr -> word size -> word pa -> t <> VMAType.Pooled ->
  (shared_type t = true -> has prot MemoryProt.CpuExec = false) ->
  MapMemory addr size prot flags t name vd pa al s = Done (r, o, s') -> noexec (vma_map s) -> noexec (vma_map s').
Proof.
  intros Hwf Ha Hs Hp Ht Hex H HX.
  destruct (MapMemory_inv _ _ _ _ _ _ _ _ _ _ _ _ _ Hwf Ha Hs Hp Ht H) as
    [(_ & _ & ->)|(_ & a & s1 & s2 & p' & _ & _ & [Hr [_ Hcl] _ _ _ Hv _])]; [done|].
  eapply noexec_overwrite; [exact Hv| |eapply cleared_noexec; [..|exact Hcl|exact HX]]; auto.
  - intros x Hx. cbn in *. rewrite has_exec_with_read. auto.
  - unfold word in *. lia.
Qed.

Lemma MapFile_noexec file hp addr size prot flags fd pa s r o s' :
  mm_wf s -> word addr -> word size ->
  MapFile file hp addr size prot flags fd pa s = Done (r, o, s') -> noexec (vma_map s) -> noexec (vma_map s').
Proof.
  intros Hwf Ha Hs H HX. destruct (MapFile_inv _ _ _ _ _ _ _ _ _ _ _ _ Hwf Ha Hs H) as
    [_ [(_ & _ & ->)|(_ & f & a & s1 & _ & _ & Hwa & _ & Hcl & _ & _ & Hv)]]; [done|].
  eapply noexec_overwrite; [exact Hv| |eapply cleared_noexec; [..|exact Hcl|exact HX]]; auto.
  intros x _. cbn. apply file_prot_no_exec.
Qed.

Lemma PoolCommit_noexec a n prot t s r s' :
  mm_wf s -> word a -> word n -> has prot MemoryProt.CpuExec = false ->
  PoolCommit a n prot t s = Done (r, s') -> noexec (vma_map s) -> noexec (vma_map s').
Proof.
  intros Hwf Ha Hn Hex H HX. destruct (PoolCommit_inv _ _ _ _ _ _ _ Hwf Ha Hn H) as
    (_ & [(_ & -> & _)|(_ & _ & _ & p' & _ & Hv)]); [done|].
  eapply noexec_overwrite; [exact Hv| |exact HX]. intros x _. cbn. by rewrite has_exec_with_read.
Qed.

Lemma decommit_loop_noexec fuel a n s s' :
  mm_wf s -> word a -> word n -> decommit_loop fuel a n s = Done s' -> noexec (vma_map s) -> noexec (vma_map s').
Proof.
  revert a n s; induction fuel as [|fuel IH]; intros a n s Hwf Ha Hn H HX; cbn in H; destruct (n =? 0); try by run_inv.
  apply obind_Done in H as ([m s1] & E & H). apply decommit_entry_effect in E as (Hwf1 & ? & ? & Hu); auto.
  eapply IH; [exact Hwf1|..|exact H|]; auto with words. eapply noexec_updated; [exact Hu| |exact HX]. done.
Qed.

Lemma PoolDecommit_noexec a n s r s' :
  mm_wf s -> word a -> word n -> PoolDecommit a n s = Done (r, s') -> noexec (vma_map s) -> noexec (vma_map s').
Proof.
  intros Hwf Ha Hn H HX. unfold PoolDecommit in H. apply obind_Done in H as (u & _ & H).
  apply obind_Done in H as (vs & _ & H). destruct (negb _); [by run_inv|]. run_inv.
  eapply decommit_loop_noexec in E; [exact E|auto with areas|done|done|].
  eapply noexec_view, HX. intros x. unfold begin_mutation, with_gen. cbn [vma_map]. by rewrite gpu_unmap_vmas.
Qed.

(** ** Attributes *)

Lemma recorded_sealed t prot : shared_type t = true -> has (recorded_prot t prot) MemoryProt.CpuExec = false.
Proof. intros H. unfold recorded_prot. destruct t; try discriminate H; apply has_clear_exec. Qed.

(** The carved range lies in the area [FindVMA] returned. *)
Lemma update_types f g m a n k v h m1 k2 m2 :
  wf_from 0 m -> word a -> word n -> vma_fun f g -> FindVMA m a = Done (k, v) ->
  CarveVMA m a n = Done (h, m1) -> vma_MergeAdjacent (malter f h m1) h = Done (k2, m2) ->
  forall x p, in_range a n x = true -> view m x = Some p -> g_type p = v_type v.
Proof.
  intros Hwf Ha Hn Hf Ef EC EM x p Hx Hp. apply in_range_true in Hx.
  destruct (vma_update_inv _ _ _ _ _ _ _ _ _ _ Hwf Ha Hn Hf EC EM) as [w [(Hw1 & Hw2 & Hw3) Hold _ _ _ _]].
  pose proof (Hold a ltac:(lia)) as Hva. rewrite (Hold x ltac:(lia)) in Hp. injection Hp as <-. cbn.
  destruct (FindVMA_covered m a k v Hwf) as (_ & _ & _ & _ & ? & _ & _ & Hat & _); [by rewrite Hva|done|].
  rewrite Hat in Hva by lia. by injection Hva.
Qed.

Lemma ProtectBytes_noexec a k v n p s r s' :
  mm_wf s -> word a -> word n -> FindVMA (vma_map s) a = Done (k, v) -> ProtectBytes a k n p s = Done (r, s') ->
  noexec (vma_map s) -> noexec (vma_map s').
Proof.
  intros Hwf Ha Hn Ef H HX. unfold ProtectBytes in H. apply obind_Done in H as (w & Ew & H).
  assert (w = v) as ->.
  { unfold FindVMA, mle in Ef. destruct (mfind a (vma_map s)) as [q|] eqn:Eq; [|done].
    destruct (mfind_split _ _ _ Eq) as (k1 & a1 & l1 & r1 & -> & Em & _). cbn in Ef. injection Ef as -> ->.
    pose proof (mw_vmas _ Hwf) as Hw. rewrite Em in Hw, Ew. rewrite mlookup_mid in Ew by (eapply wf_mid; exact Hw).
    by injection Ew. }
  set (sz := Z.min _ n) in H. assert (word sz) as Hsz by (unfold sz; auto with words).
  destruct (_ || _)%bool; [by run_inv|].
  apply obind_Done in H as ([h m1] & EC & H). apply obind_Done in H as ([k2 m2] & EM & H).
  set (f := v_with_prot (recorded_prot (v_type v) p)) in EM.
  pose proof (fun_prot (recorded_prot (v_type v) p)) as Hf.
  destruct (update_effect _ _ _ _ _ _ _ _ _ (mw_vmas _ Hwf) Ha Hsz Hf EC EM) as (Hu & _).
  assert (noexec m2) as HX2.
  { eapply noexec_updated; [exact Hu| |exact HX]. intros x g Hx Hg _ Ht. cbn in Ht |- *.
    rewrite (update_types _ _ _ _ _ _ _ _ _ _ _ (mw_vmas _ Hwf) Ha Hsz Hf Ef EC EM x g Hx Hg) in Ht.
    by apply recorded_sealed. }
  apply obind_Done in H as (w' & _ & H). destruct (bool_decide _); try destruct (negb _); by run_inv.
Qed.

Lemma FindVMA_base m a k v : wf_from 0 m -> FindVMA m a = Done (k, v) -> v_base v <= a.
Proof.
  intros Hwf Ef. unfold FindVMA, mle in Ef. destruct (mfind a m) as [q|] eqn:Eq; [|done].
  destruct (mfind_split _ _ _ Eq) as (k1 & a1 & l1 & r1 & -> & Em & Hle & _). cbn in Ef. injection Ef as -> ->.
  rewrite Em in Hwf. pose proof (wf_mid _ _ _ _ _ Hwf) as (_ & _ & Hk & _). cbn in Hk. lia.
Qed.

Lemma protect_loop_noexec fuel a n pb p s r s' :
  mm_wf s -> protect_loop fuel a n pb p s = Done (r, s') -> noexec (vma_map s) -> noexec (vma_map s').
Proof.
  revert pb s; induction fuel as [|fuel IH]; intros pb s Hwf H HX; cbn in H; destruct (negb _); try by run_inv.
  apply obind_Done in H as ([k v] & Ef & H). apply obind_Done in H as ([m s1] & E & H).
  pose proof (FindVMA_base _ _ _ _ (mw_vmas _ Hwf) Ef) as Hb.
  rewrite (proj2 (Z.ltb_ge _ (v_base v)) Hb) in E, H.
  pose proof (ProtectBytes_noexec _ _ _ _ _ _ _ _ Hwf (word_wadd _ _) (word_wsub _ _) Ef E HX) as HX1.
  apply ProtectBytes_wf in E; auto with words. destruct (m <? 0); [by run_inv|]. by eapply IH, HX1.
Qed.

Lemma Protect_noexec a n p s r s' :
  mm_wf s -> Protect a n p s = Done (r, s') -> noexec (vma_map s) -> noexec (vma_map s').
Proof.
  intros Hwf H HX. unfold Protect in H. destruct (n =? 0); [by run_inv|]. run_inv.
  eapply protect_loop_noexec in E0; [exact E0|auto with areas|done].
Qed.

(** Merging and renaming or retyping an entry keep types and protections. *)
Definition kinds (m : VMAMap) (x : Z) : option (VMAType.t * Z) := (fun g => (g_type g, g_prot g)) <$> view m x.

Lemma noexec_kinds m m' : (forall x, kinds m' x = kinds m x) -> noexec m -> noexec m'.
Proof.
  intros E H x g Hx. specialize (E x). unfold kinds in E. rewrite Hx in E.
  destruct (view m x) as [g0|] eqn:E0; [|done]. injection E as Et Ep. unfold sealed. rewrite Et, Ep. by apply (H x).
Qed.

Lemma advance_kinds m h cur it m2 :
  wf_from 0 m -> merge_and_advance m h cur = Done (it, m2) -> forall x, kinds m2 x = kinds m x.
Proof.
  intros Hwf H. unfold merge_and_advance in H. apply obind_Done in H as ([k3 m3] & EM & H).
  apply obind_Done in H as (v & _ & H). apply merge_same in EM as [_ EM]; [|done].
  intros x. destruct (_ <=? cur); run_inv; unfold kinds; by rewrite EM.
Qed.

Lemma malter_kinds f h m :
  (forall v, v_base (f v) = v_base v /\ v_size (f v) = v_size v /\ v_type (f v) = v_type v /\ v_prot (f v) = v_prot v) ->
  forall x, kinds (malter f h m) x = kinds m x.
Proof.
  intros Hf x. unfold kinds. induction m as [|[k v] m IH]; cbn [malter view] in *; [done|].
  destruct (Hf v) as (Hb & Hs & Ht & Hp). destruct (Z.eqb_spec k h); cbn [view]; unfold covers; cbn [r_base r_size vma_area].
  - rewrite Hb, Hs. destruct (_ && _)%bool; [cbn; by rewrite Ht, Hp|done].
  - destruct (_ && _)%bool; [done|]. exact IH.
Qed.

Lemma name_loop_kinds fuel it cur rem nm m m' :
  wf_from 0 m -> word cur -> word rem -> name_loop fuel it cur rem nm m = Done m' ->
  forall x, kinds m' x = kinds m x.
Proof.
  revert it cur rem m; induction fuel as [|fuel IH]; intros it cur rem m Hwf Hc Hr H; cbn in H;
    (destruct it as [h|]; [|by run_inv]); (destruct (negb _); [by run_inv|]); [done|].
  apply obind_Done in H as (v & _ & H). set (n := Z.min rem _) in H.
  assert (word n) as Hn by (unfold n; auto with words).
  apply obind_Done in H as ([h1 m1] & E1 & H). apply obind_Done in H as ([it2 m2] & E2 & H).
  assert (wf_from 0 m1 /\ forall x, kinds m1 x = kinds m x) as [Hw1 Hf1].
  { unfold rename_entry in E1. destruct (negb _); [|by run_inv]. destruct (n <? v_size v); run_inv.
    - destruct (carve_same _ _ _ _ _ Hwf Hc Hn E) as [Hwc Hvc]. split; [by eapply malter_wf, Hwc; apply fun_name|].
      intros x. rewrite malter_kinds by done. unfold kinds. by rewrite Hvc.
    - split; [eapply malter_wf; [apply fun_name|done]|]. intros x. by rewrite malter_kinds. }
  pose proof (advance_kinds _ _ _ _ _ Hw1 E2) as Hf2. apply merge_and_advance_wf in E2; [|done].
  intros x. rewrite (IH _ _ _ _ E2 (word_wadd _ _) (word_wsub _ _) H), Hf2, Hf1. done.
Qed.

Lemma NameVirtualRange_noexec a n nm s s' :
  mm_wf s -> NameVirtualRange a n nm s = Done s' -> noexec (vma_map s) -> noexec (vma_map s').
Proof.
  intros Hwf H HX. unfold NameVirtualRange in H. run_inv. eapply noexec_kinds, HX.
  eapply name_loop_kinds; [apply Hwf|apply word_align_down|apply word_align_up|exact E1].
Qed.

Lemma retype_loop_kinds fuel it cur rem t s s' :
  mm_wf s -> word cur -> word rem -> retype_loop fuel it cur rem t s = Done s' ->
  forall x, kinds (vma_map s') x = kinds (vma_map s) x.
Proof.
  revert it cur rem s; induction fuel as [|fuel IH]; intros it cur rem s Hwf Hc Hr H; cbn in H;
    (destruct it as [h|]; [|by run_inv]); (destruct (negb _); [by run_inv|]); [done|].
  apply obind_Done in H as (v & _ & H). apply obind_Done in H as ([h1 s1] & E1 & H).
  apply obind_Done in H as ([it2 m2] & E2 & H). set (n := Z.min rem _) in *.
  assert (word n) as Hn by (unfold n; auto with words).
  assert (forall x, kinds (vma_map s1) x = kinds (vma_map s) x) as Hk1.
  { clear -E1 Hwf Hc Hn. intros y. unfold retype_entry in E1. destruct (_ || _)%bool; [|by run_inv]. run_inv.
    destruct (carve_same _ _ _ _ _ (mw_vmas _ Hwf) Hc Hn E) as [_ Hv].
    change (kinds (malter (v_with_phys o0) h1 o) y = kinds (vma_map s) y).
    rewrite malter_kinds by done. unfold kinds. by rewrite Hv. }
  apply retype_entry_wf in E1; auto. pose proof (advance_kinds _ _ _ _ _ (mw_vmas _ E1) E2) as Hk2.
  apply merge_and_advance_wf in E2; [|auto with areas].
  intros x. rewrite (IH _ _ _ _ (mm_wf_vmas _ _ E1 E2) (word_wadd _ _) (word_wsub _ _) H).
  change (kinds m2 x = kinds (vma_map s) x). by rewrite Hk2, Hk1.
Qed.

Lemma SetDirectMemoryType_noexec a n t s r s' :
  mm_wf s -> word a -> word n -> SetDirectMemoryType a n t s = Done (r, s') -> noexec (vma_map s) -> noexec (vma_map s').
Proof.
  intros Hwf Ha Hn H HX. unfold SetDirectMemoryType in H. run_inv. eapply noexec_kinds, HX. intros x.
  by apply (retype_loop_kinds _ _ _ _ _ _ _ (mm_wf_begin _ Hwf) Ha Hn E1).
Qed.

(** ** The steps the system calls take *)

(** A step of the manager that keeps shared pages from becoming executable. *)
Definition guest_step (s s' : MemoryManager) : Prop :=
  step s s' /\ (mm_wf s -> noexec (vma_map s) -> noexec (vma_map s')).

Lemma guest_SetPrtArea id a n s s' : SetPrtArea id a n s = Done s' -> guest_step s s'.
Proof.
  intros H. split; [by eapply step_SetPrtArea|]. intros _ HX. unfold SetPrtArea in H. run_inv.
  by destruct (prt_mapped a0).
Qed.

Lemma guest_PoolExpand lo hi n al r s s' : word n -> PoolExpand lo hi n al s = Done (r, s') -> guest_step s s'.
Proof.
  intros Hn H. split; [by eapply step_PoolExpand|]. intros _ HX. unfold PoolExpand in H. run_inv.
  destruct (search_dmem _ _ _ _) as [[? ?]|]; by run_inv.
Qed.

Lemma guest_Allocate lo hi n al t r s s' : word n -> Allocate lo hi n al t s = Done (r, s') -> guest_step s s'.
Proof.
  intros Hn H. split; [by eapply step_Allocate|]. intros _ HX. unfold Allocate in H. run_inv.
  destruct (search_dmem _ _ _ _) as [[? ?]|]; [|by run_inv]. destruct (hi <? _); by run_inv.
Qed.

Lemma guest_Free pa n c r s s' : word pa -> word n -> Free pa n c s = Done (r, s') -> guest_step s s'.
Proof. intros Hp Hn H. split; [by eapply step_Free; [..|exact H]|]. intros Hwf. by eapply Free_noexec. Qed.

Lemma guest_MapMemory addr size prot flags t name vd pa al r o s s' :
  word addr -> word size -> word pa -> t <> VMAType.Pooled ->
  (shared_type t = true -> has prot MemoryProt.CpuExec = false) ->
  MapMemory addr size prot flags t name vd pa al s = Done (r, o, s') -> guest_step s s'.
Proof.
  intros Ha Hs Hp Ht Hx H. split; [by eapply step_MapMemory; [..|exact H]|]. intros Hwf.
  exact (MapMemory_noexec _ _ _ _ _ _ _ _ _ _ _ _ _ Hwf Ha Hs Hp Ht Hx H).
Qed.

Lemma guest_MapFile file hp addr size prot flags fd pa r o s s' :
  word addr -> word size -> MapFile file hp addr size prot flags fd pa s = Done (r, o, s') -> guest_step s s'.
Proof.
  intros Ha Hs H. split; [by eapply step_MapFile; [..|exact H]|]. intros Hwf. exact (MapFile_noexec _ _ _ _ _ _ _ _ _ _ _ _ Hwf Ha Hs H).
Qed.

Lemma guest_PoolCommit a n prot t r s s' :
  word a -> word n -> has prot MemoryProt.CpuExec = false -> PoolCommit a n prot t s = Done (r, s') -> guest_step s s'.
Proof.
  intros Ha Hs Hx H. split; [by eapply step_PoolCommit; [..|exact H]|]. intros Hwf. exact (PoolCommit_noexec _ _ _ _ _ _ _ Hwf Ha Hs Hx H).
Qed.

Lemma guest_PoolDecommit a n r s s' : word a -> word n -> PoolDecommit a n s = Done (r, s') -> guest_step s s'.
Proof.
  intros Ha Hs H. split; [by eapply step_PoolDecommit; [..|exact H]|]. intros Hwf. exact (PoolDecommit_noexec _ _ _ _ _ Hwf Ha Hs H).
Qed.

Lemma guest_UnmapMemory a n r s s' : UnmapMemory a n s = Done (r, s') -> guest_step s s'.
Proof. intros H. split; [by eapply step_UnmapMemory|]. intros Hwf. by eapply UnmapMemory_noexec. Qed.

Lemma guest_Protect a n p r s s' : Protect a n p s = Done (r, s') -> guest_step s s'.
Proof. intros H. split; [by eapply step_Protect|]. intros Hwf. by eapply Protect_noexec. Qed.

Lemma guest_SetDirectMemoryType a n t r s s' :
  word a -> word n -> SetDirectMemoryType a n t s = Done (r, s') -> guest_step s s'.
Proof.
  intros Ha Hn H. split; [by eapply step_SetDirectMemoryType; [..|exact H]|]. intros Hwf.
  exact (SetDirectMemoryType_noexec _ _ _ _ _ _ Hwf Ha Hn H).
Qed.

Lemma guest_NameVirtualRange a n nm s s' : NameVirtualRange a n nm s = Done s' -> guest_step s s'.
Proof. intros H. split; [by eapply step_NameVirtualRange|]. intros Hwf. by eapply NameVirtualRange_noexec. Qed.

Lemma guest_InvalidateMemory a n s : guest_step s (InvalidateMemory a n s).
Proof. split; [apply step_InvalidateMemory|done]. Qed.

(** Nothing is mapped at boot. *)
Lemma booted_noexec s : booted s -> noexec (vma_map s).
Proof.
  intros (space & regions & extra & sdk & neo & dev & flex & e1 & e2 & _ & _ & H & _).
  unfold SetupMemoryRegions in H. run_inv. cbn.
  pose proof (initial_vmas_free regions [] (Forall_nil_2 _)) as HF.
  generalize dependent (initial_vmas regions []). intros m HF. induction HF as [|[k v] m Hv _ IH]; intros x g Hx; cbn in Hx; [done|].
  destruct (covers v x); [injection Hx as <-; unfold sealed; cbn in *; by rewrite Hv|by eapply IH].
Qed.
