(* ===== verification/MemSpec.v ===== *)
(** * MemSpec: what the memory manager promises

    The properties of [MemoryManager], stated on its operations over the state
    machine of [MemReach].  [demo] is a manager as the loader leaves it on a
    base console; the witnesses start from it. *)

From S2P Require Import Prelude OrdMap MemTypes PhysFacts VmaFacts MemOps MemInv MemMap.
From S2P Require Import MemEffects MemAttrs FlexFacts MemReach MemAlloc MemTotal.
From S2P Require Import PhysFacts Release MemUnmap MemTotal MemAlloc.

Definition demo_space : AddressSpace :=
  mkSpace 0x400000 0x7FFBFC000 0x7FFFFC000 0x800004000 0x1000000000 0x5FF000000000.

Definition demo_ctor : MemoryManager := MemoryManager_ctor demo_space [(0x400000, 0x600000000000)] 0 0x5000000.

Definition demo : MemoryManager :=
  match SetupMemoryRegions false false 0 (MB 512) true true demo_ctor with Done s => s | Raised _ => demo_ctor end.

Lemma demo_booted : booted demo.
Proof.
  exists demo_space, [(0x400000, 0x600000000000)], 0, 0x5000000, false, false, (MB 512), true, true.
  split; [cbn; repeat split; vm_compute; congruence|]. split; [lia|]. split; [vm_compute; reflexivity|vm_compute; reflexivity].
Qed.

Lemma demo_reachable : reachable demo.
Proof. apply reach_boot, demo_booted. Qed.

Lemma demo_wf : mm_wf demo.
Proof. apply booted_inv, demo_booted. Qed.

(** 32 KiB of flexible memory mapped at the default base ... *)
Definition demo_flex : MemoryManager :=
  match MapMemory 0 0x8000 3 0 VMAType.Flexible "heap" false MINUS_1 0 demo with
  | Done (_, _, s) => s | Raised _ => demo
  end.

(** ... and 1 MiB of address space reserved there instead. *)
Definition demo_reserved : MemoryManager :=
  match MapMemory 0 0x100000 0 0 VMAType.Reserved "anon" false MINUS_1 0 demo with
  | Done (_, _, s) => s | Raised _ => demo
  end.

Lemma demo_flex_reachable : reachable demo_flex.
Proof.
  apply (reach_step demo); [apply demo_reachable|].
  apply (step_MapMemory demo 0 0x8000 3 0 VMAType.Flexible "heap" false MINUS_1 0 0 (Some 0x200000000));
    try (vm_compute; intuition congruence).
Qed.

Lemma demo_reserved_reachable : reachable demo_reserved.
Proof.
  apply (reach_step demo); [apply demo_reachable|].
  apply (step_MapMemory demo 0 0x100000 0 0 VMAType.Reserved "anon" false MINUS_1 0 0 (Some 0x200000000));
    try (vm_compute; intuition congruence).
Qed.

(** The range of a single entry is covered. *)
Lemma covered_entry (m : VMAMap) i k v a n :
  m !! i = Some (k, v) -> v_base v <= a -> a + n <= v_base v + v_size v -> covered m a n.
Proof.
  revert i. induction m as [|[k' v'] m IH]; intros i E Ha He x Hx; [by destruct i|]. cbn.
  destruct (covers v' x) eqn:Ec; [done|]. destruct i as [|i]; cbn in E; [|by apply (IH i)].
  injection E as <- <-. unfold covers in Ec. cbn in Ec. apply andb_false_iff in Ec as [Ec|Ec]; bool_prop; lia.
Qed.

Ltac by_entry i := eapply (covered_entry _ i); [vm_compute; reflexivity|vm_compute; congruence|vm_compute; congruence].

(** ** Invariants of every reachable state *)

(** C1: in every state the manager reaches from boot by any sequence of its
    operations on any arguments, [MapMemory] being asked for any type of area
    but [Pooled] (only [PoolCommit] makes pooled areas; no caller of
    [MapMemory] in the program passes that type), the direct areas tile the direct memory and
    the flexible areas tile the flexible memory without gap or overlap, the
    virtual areas are sorted and disjoint, and each backed area is tiled by
    its physical areas while unbacked areas have none. *)
Theorem reachable_well_formed (s : MemoryManager) (H : reachable s) : mm_wf s.
Proof. apply (mi_wf s), reachable_inv, H. Qed.

Lemma reachable_well_formed_witness : mm_wf demo_flex.
Proof. apply (reachable_well_formed demo_flex). apply demo_flex_reachable. Defined.

(** [MapMemory] does not refuse the type [Pooled]; the area it would make has
    no physical memory behind it. *)
Example map_pooled_is_unbacked :
  (let! '(r, _, s) := MapMemory 0 0x10000 3 0 VMAType.Pooled "anon" false MINUS_1 0 demo in
   Done (r, (fun g => (g_type g, g_back g)) <$> view (vma_map s) 0x200000000)) = Done (ORBIS_OK, Some (VMAType.Pooled, None)).
Proof. vm_compute. reflexivity. Qed.

(** C3: in every reachable state two guest addresses never share a byte of
    flexible memory, every byte so mapped is marked flexible, and the usage
    counter is exactly the number of marked bytes and within the configured
    budget. *)
Theorem flexible_isolated (s : MemoryManager) (H : reachable s) :
  (forall x x' y, flex_at (vma_map s) x = Some y -> flex_at (vma_map s) x' = Some y -> x = x') /\
  (forall x y, flex_at (vma_map s) x = Some y -> exists t, view (fmem_map s) y = Some (t, PMT.Flexible)) /\
  flexible_usage s = dma_bytes PMT.Flexible (fmem_map s) /\ flexible_usage s <= total_flexible_size s.
Proof. destruct (mi_flex s (reachable_inv s H)) as [Hb Hi Hu Hc]. split_and!; assumption. Qed.

Lemma flexible_isolated_witness :
  flexible_usage demo_flex = 0x8000 /\ flexible_usage demo_flex = dma_bytes PMT.Flexible (fmem_map demo_flex).
Proof.
  split; [vm_compute; reflexivity|]. apply (flexible_isolated demo_flex). apply demo_flex_reachable.
Defined.

(** between operations no mutation of the memory map is pending and the
    generation counter readers compare is even; an operation either leaves
    the counter or moves it to another even value. *)
Theorem generation_quiescent (s s' : MemoryManager) (H : reachable s) (Hs : step s s') :
  MemoryMapGeneration.active (mapping_generation s') = None /\
  Z.even (MemoryMapGeneration.value (mapping_generation s)) = true /\
  Z.even (MemoryMapGeneration.value (mapping_generation s')) = true.
Proof.
  pose proof (mi_gen s (reachable_inv s H)) as [_ He].
  pose proof (mi_gen s' (step_inv s s' (reachable_inv s H) Hs)) as [Ha He']. auto.
Qed.

Lemma generation_quiescent_witness :
  MemoryMapGeneration.active (mapping_generation (InvalidateMemory 0 0 demo)) = None.
Proof. apply (generation_quiescent demo); [apply demo_reachable|apply step_InvalidateMemory]. Defined.

(** ** Operations with an exact effect *)

(** [IsValidMapping] of a range that starts inside the address space
    answers exactly whether every address of the range belongs to an area. *)
Theorem IsValidMapping_decides (s : MemoryManager) (addr size : Z) (H : reachable s)
    (Hr : 0 <= addr /\ 0 <= size /\ addr + size < W64) (Hin : view (vma_map s) addr <> None) :
  exists b, IsValidMapping (vma_map s) addr size = Done b /\ (b = true <-> covered (vma_map s) addr size).
Proof. destruct Hr as (? & ? & ?). apply IsValidMapping_covered; try assumption. apply reachable_inv, H. Qed.

Lemma IsValidMapping_decides_witness :
  exists b, IsValidMapping (vma_map demo) 0x200000000 0x4000 = Done b /\
    (b = true <-> covered (vma_map demo) 0x200000000 0x4000).
Proof.
  apply (IsValidMapping_decides demo); [apply demo_reachable|repeat split; vm_compute; congruence|].
  assert (C : covered (vma_map demo) 0x200000000 1) by by_entry 0%nat. apply C. lia.
Defined.

(** C5: [Protect] of a range inside the address space.  Either it returns
    success, and then every page of the range that is mapped has the requested
    protection (writable implies readable; direct, pooled and file pages lose
    execute), free and pool-reserved pages and everything outside the range
    keep theirs, and nothing but [vma_map] changes; or it reads the type of an
    entry that a merge has just erased, which has no defined result, and
    happens only if an area that begins in the range becomes mergeable with
    the area before it ([~ stays_apart]). *)
Theorem Protect_exact (s : MemoryManager) (addr size prot : Z) (H : reachable s)
    (Hr : 0 <= addr /\ 0 < size < W63 /\ addr + size < W64) (Hc : covered (vma_map s) addr size) :
  (exists s', Protect addr size prot s = Done (ORBIS_OK, destroy_mutation s') /\
    vma_frame (begin_mutation s) s' /\ mm_wf s' /\
    updated (vma_map s) addr size (page_protect prot) (vma_map s')) \/
  (Protect addr size prot s = Raised Undefined /\ ~ stays_apart prot (vma_map s) addr size).
Proof. destruct Hr as (? & ? & ?). apply Protect_ok; try assumption. apply reachable_inv, H. Qed.

Lemma Protect_exact_witness :
  exists s', Protect 0x200000000 0x4000 1 demo_flex = Done (ORBIS_OK, destroy_mutation s') /\
    vma_frame (begin_mutation demo_flex) s' /\ mm_wf s' /\
    updated (vma_map demo_flex) 0x200000000 0x4000 (page_protect 1) (vma_map s').
Proof.
  destruct (Protect_exact demo_flex 0x200000000 0x4000 1) as [D|[E _]].
  - apply demo_flex_reachable.
  - repeat split; vm_compute; congruence.
  - by_entry 1%nat.
  - exact D.
  - vm_compute in E. discriminate E.
Defined.

(** naming a range inside the address space always completes; the mapped
    pages of the 16 KiB-aligned range get the name, nothing else changes. *)
Theorem NameVirtualRange_exact (s : MemoryManager) (addr size : Z) (name : string) (H : reachable s)
    (Hr : 0 < AlignUp size (KB 16) /\ AlignDown addr (KB 16) + AlignUp size (KB 16) < W64)
    (Hc : covered (vma_map s) (AlignDown addr (KB 16)) (AlignUp size (KB 16))) :
  exists m', NameVirtualRange addr size name s = Done (destroy_mutation (with_vmas m' (begin_mutation s))) /\
    wf_from 0 m' /\ updated (vma_map s) (AlignDown addr (KB 16)) (AlignUp size (KB 16)) (page_rename name) m'.
Proof. destruct Hr as (? & ?). apply NameVirtualRange_ok; try assumption. apply reachable_inv, H. Qed.

Lemma NameVirtualRange_exact_witness :
  exists m', NameVirtualRange 0x200000010 0x100 "stack" demo_flex =
      Done (destroy_mutation (with_vmas m' (begin_mutation demo_flex))) /\
    wf_from 0 m' /\
    updated (vma_map demo_flex) (AlignDown 0x200000010 (KB 16)) (AlignUp 0x100 (KB 16)) (page_rename "stack") m'.
Proof.
  apply (NameVirtualRange_exact demo_flex);
    [apply demo_flex_reachable|repeat split; vm_compute; congruence|by_entry 1%nat].
Defined.

(** C4: unmapping a range inside the address space always completes when the
    direct memory behind it is mapped, unaliased and unsplit there: its pages
    become free (committed pool pages stay), the direct memory behind them is
    allocated again and the flexible memory free, and no other page and no
    other byte of physical memory changes. *)
Theorem UnmapMemory_exact (s : MemoryManager) (addr size : Z) (H : reachable s) (Hs : size <> 0)
    (Hr : 0 < AlignUp size (KB 16) /\ 0 <= AlignDown addr (KB 16) /\
      AlignDown addr (KB 16) + AlignUp size (KB 16) < W64)
    (Hc : covered (vma_map s) (AlignDown addr (KB 16)) (AlignUp size (KB 16)))
    (Hd : ready VMAType.Direct PMT.Mapped (vma_map s) (dmem_map s) (AlignDown addr (KB 16)) (AlignUp size (KB 16))) :
  exists s', UnmapMemory addr size s = Done (ORBIS_OK, s') /\ mm_wf s' /\
    updated (vma_map s) (AlignDown addr (KB 16)) (AlignUp size (KB 16)) page_unmap (vma_map s') /\
    given_back s (AlignDown addr (KB 16)) (AlignUp size (KB 16)) s'.
Proof.
  destruct Hr as (? & ? & ?). pose proof (reachable_inv s H) as [? ? _]. eapply UnmapMemory_ok; eassumption.
Qed.

(** No direct page in the range. *)
Lemma ready_no_direct (m : VMAMap) pm a n :
  (forall x g, a <= x < a + n -> view m x = Some g -> g_type g <> VMAType.Direct) ->
  ready VMAType.Direct PMT.Mapped m pm a n.
Proof.
  intros Hn. assert (forall x b, a <= x < a + n -> behind VMAType.Direct m x <> Some b) as HB.
  { intros x b Hx. unfold behind. destruct (view m x) as [g|] eqn:Eg; [|done]. cbn.
    by rewrite bool_decide_eq_false_2 by eauto. }
  split.
  - intros x b Hx Eb. by apply HB in Eb.
  - intros x x' b b' Hx Hx' Eb. by apply HB in Eb.
  - intros x b b' Hx Hx' Eb. by apply HB in Eb; [|lia].
Qed.

Lemma UnmapMemory_exact_witness :
  exists s', UnmapMemory 0x200000000 0x4000 demo_flex = Done (ORBIS_OK, s') /\ mm_wf s' /\
    updated (vma_map demo_flex) (AlignDown 0x200000000 (KB 16)) (AlignUp 0x4000 (KB 16)) page_unmap (vma_map s') /\
    given_back demo_flex (AlignDown 0x200000000 (KB 16)) (AlignUp 0x4000 (KB 16)) s'.
Proof.
  apply (UnmapMemory_exact demo_flex);
    [apply demo_flex_reachable|congruence|repeat split; vm_compute; congruence|by_entry 1%nat|].
  apply ready_no_direct. intros x g Hx Hg.
  assert (exists k v, vma_map demo_flex !! 1%nat = Some (k, v) /\ v_type v = VMAType.Flexible /\
    v_base v = 0x200000000 /\ v_size v = 0x8000) as (k & v & E & Ht & Hb & Hs) by (eexists _, _; vm_compute; eauto).
  apply list_elem_of_split_length in E as (l & r & E & _).
  pose proof (mw_vmas _ (mi_wf _ (reachable_inv _ demo_flex_reachable))) as Hw. rewrite E in Hw, Hg.
  pose proof (wf_mid _ _ _ _ _ Hw) as (_ & _ & Hk & _). cbn in Hk.
  rewrite (view_mid 0) in Hg; [|done|cbn; change (AlignDown 0x200000000 (KB 16)) with 0x200000000 in Hx;
    change (AlignUp 0x4000 (KB 16)) with 0x4000 in Hx; lia].
  injection Hg as <-. cbn. by rewrite Ht.
Defined.

(** ** Mapping *)

(** mapping a type without physical memory (reserved, code, stack, ...)
    where nothing has to be replaced always completes once a place was found:
    the range becomes pages of the new type with the requested protection,
    every other page keeps its attributes and the physical maps stay. *)
Theorem MapMemory_unbacked (s : MemoryManager) (addr size prot flags al a : Z) (type : VMAType.t) (name : string)
    (vd : bool) (H : reachable s) (Hw : word addr /\ 0 < size < W64) (Hl : light type = true)
    (Hplace : place_mapping addr size flags al s = Done (Some a))
    (Hnew : has flags MemoryMapFlags.Fixed = false) (Hone : one_free_area (vma_map s) a size) :
  exists s', MapMemory addr size prot flags type name vd MINUS_1 al s = Done (ORBIS_OK, Some a, s') /\
    mm_wf s' /\ dmem_map s' = dmem_map s /\ fmem_map s' = fmem_map s /\
    forall x, view (vma_map s') x = if in_range a size x
      then Some (mkPage type (with_read prot) name (has flags MemoryMapFlags.NoCoalesce) None)
      else view (vma_map s) x.
Proof.
  destruct Hw as [Hwa Hs]. pose proof (mi_wf s (reachable_inv s H)) as Hwf.
  assert (word size) as Hws by (unfold word; lia). assert (word MINUS_1) as Hm by (unfold word, MINUS_1, W64; lia).
  unfold light in Hl. bool_prop.
  destruct (MapMemory_ok addr size prot flags type name vd MINUS_1 al s a) as [s' E]; try done; [by destruct type|].
  exists s'. split; [exact E|].
  destruct (MapMemory_new _ _ _ _ _ _ _ _ _ _ _ _ Hwf Hwa Hws Hm H1 Hnew E) as (s1 & s2 & p' & [Hd1 Hf1 Hback (Ed & Ef & _) Hv Hwf']).
  assert (s2 = s1 /\ p' = []) as [-> ->] by (by destruct type). split_and!; [done|congruence|congruence|exact Hv].
Qed.

Lemma MapMemory_unbacked_witness :
  exists s', MapMemory 0 0x100000 0 0 VMAType.Reserved "anon" false MINUS_1 0 demo = Done (ORBIS_OK, Some 0x200000000, s') /\
    mm_wf s' /\ dmem_map s' = dmem_map demo /\ fmem_map s' = fmem_map demo /\
    forall x, view (vma_map s') x = if in_range 0x200000000 0x100000 x
      then Some (mkPage VMAType.Reserved (with_read 0) "anon" (has 0 MemoryMapFlags.NoCoalesce) None)
      else view (vma_map demo) x.
Proof.
  apply (MapMemory_unbacked demo);
    [apply demo_reachable|repeat split; vm_compute; congruence|reflexivity|vm_compute; reflexivity|reflexivity|].
  exists [], 0x400000, (fresh_vma 0x400000 0x5FFFFFC00000), [].
  repeat split; vm_compute; congruence.
Defined.



(** 64 KiB of direct memory allocated at physical 0 and mapped. *)
Definition demo_alloc : MemoryManager :=
  match Allocate 0 0x1000000 0x10000 0 0 demo with Done (_, s) => s | Raised _ => demo end.

Lemma demo_alloc_reachable : reachable demo_alloc.
Proof.
  apply (reach_step demo); [apply demo_reachable|].
  apply (step_Allocate demo 0 0x1000000 0x10000 0 0 0); [repeat split; vm_compute; congruence|vm_compute; reflexivity].
Qed.

Definition demo_direct : MemoryManager :=
  match MapMemory 0 0x10000 3 0 VMAType.Direct "dmem" true 0 0 demo_alloc with
  | Done (_, _, s) => s | Raised _ => demo
  end.

Lemma demo_direct_reachable : reachable demo_direct.
Proof.
  apply (reach_step demo_alloc); [apply demo_alloc_reachable|].
  apply (step_MapMemory demo_alloc 0 0x10000 3 0 VMAType.Direct "dmem" true 0 0 0 (Some 0x200000000));
    try (vm_compute; intuition congruence).
Qed.



(** mapping flexible memory into a free range always completes.  Within the
    budget it succeeds: every page of the range is backed by its own,
    previously free byte of flexible memory, exactly [size] bytes are taken
    and no byte in use changes; beyond the budget it returns EINVAL and
    changes nothing. *)
Theorem MapMemory_flexible (s : MemoryManager) (addr size prot flags al a : Z) (name : string) (vd : bool)
    (H : reachable s) (Hw : word addr /\ 0 < size /\ flexible_usage s + size < W64)
    (Hcfg : total_flexible_size s <= ORBIS_KERNEL_FLEXIBLE_MEMORY_SIZE)
    (Hplace : place_mapping addr size flags al s = Done (Some a))
    (Hnew : has flags MemoryMapFlags.Fixed = false) (Hone : one_free_area (vma_map s) a size) :
  (flexible_usage s + size <= total_flexible_size s ->
   exists s' p', MapMemory addr size prot flags VMAType.Flexible name vd MINUS_1 al s = Done (ORBIS_OK, Some a, s') /\
    (forall x, view (vma_map s') x = if in_range a size x
      then Some (mkPage VMAType.Flexible (with_read prot) name (has flags MemoryMapFlags.NoCoalesce) (phys_at p' (x - a)))
      else view (vma_map s) x) /\
    (forall x, 0 <= x < size -> exists b t, phys_at p' x = Some b /\ view (fmem_map s) (b_addr b) = Some (t, PMT.Free) /\
      view (fmem_map s') (b_addr b) = Some (b_mtype b, PMT.Flexible)) /\
    (forall x y b b', 0 <= x < size -> 0 <= y < size -> phys_at p' x = Some b -> phys_at p' y = Some b' ->
      b_addr b = b_addr b' -> x = y) /\
    (forall y t d, view (fmem_map s) y = Some (t, d) -> d <> PMT.Free -> view (fmem_map s') y = Some (t, d)) /\
    dma_bytes PMT.Flexible (fmem_map s') = dma_bytes PMT.Flexible (fmem_map s) + size) /\
  (total_flexible_size s < flexible_usage s + size ->
   MapMemory addr size prot flags VMAType.Flexible name vd MINUS_1 al s = Done (ORBIS_KERNEL_ERROR_EINVAL, None, s)).
Proof.
  destruct Hw as (Hwa & Hs & Hlt). pose proof (reachable_inv s H) as [Hwf HF _].
  assert (0 <= flexible_usage s) as Hu0 by (rewrite (fo_usage _ _ _ _ HF); apply dma_bytes_word, Hwf).
  assert (word size /\ word MINUS_1) as [Hws Hm] by (unfold word, MINUS_1, W64 in *; lia). split; intros Hfit.
  - destruct (MapMemory_ok addr size prot flags VMAType.Flexible name vd MINUS_1 al s a) as [s' E];
      try done; [unfold word in Hws; lia|intros _; rewrite wadd_small; lia| |].
    { cbn. rewrite (flexible_bytes s _ (mw_phys _ Hwf) HF). lia. }
    assert (VMAType.Flexible <> VMAType.Pooled) as Hty by done.
    destruct (MapMemory_new _ _ _ _ _ _ _ _ _ _ _ _ Hwf Hwa Hws Hm Hty Hnew E) as
      (s1 & s2 & p' & [_ Hf1 (_ & HT & _) (_ & Ef & _) Hv _]). rewrite Hf1, <- Ef in HT.
    exists s', p'. split_and!; [exact E|exact Hv| | | |].
    + intros x Hx. destruct (tk_new _ _ _ _ _ _ _ _ HT x ltac:(lia)) as (b & ? & _ & [t ?] & ?). eauto.
    + intros x y b b' Hx Hy. apply (tk_inj _ _ _ _ _ _ _ _ HT); lia.
    + apply (tk_frame _ _ _ _ _ _ _ _ HT).
    + apply (tk_bytes _ _ _ _ _ _ _ _ HT).
  - unfold MapMemory. rewrite bool_decide_eq_true_2, wadd_small by (done || lia). cbn [andb].
    by rewrite (proj2 (Z.ltb_lt _ _)) by lia.
Qed.

Lemma MapMemory_flexible_witness :
  exists s', MapMemory 0 0x8000 3 0 VMAType.Flexible "heap" false MINUS_1 0 demo = Done (ORBIS_OK, Some 0x200000000, s') /\
    dma_bytes PMT.Flexible (fmem_map s') = dma_bytes PMT.Flexible (fmem_map demo) + 0x8000.
Proof.
  destruct (MapMemory_flexible demo 0 0x8000 3 0 0 0x200000000 "heap" false) as [G _].
  - apply demo_reachable.
  - repeat split; vm_compute; congruence.
  - vm_compute. congruence.
  - vm_compute. reflexivity.
  - reflexivity.
  - exists [], 0x400000, (fresh_vma 0x400000 0x5FFFFFC00000), []. repeat split; vm_compute; congruence.
  - destruct G as (s' & p' & E & _ & _ & _ & _ & B); [vm_compute; congruence|]. exists s'. exact (conj E B).
Defined.

(** mapping a file into a free range always completes: EBADF for a
    descriptor that is not a regular file, otherwise success; the range then
    consists of file pages that are never executable, and writable only if the
    file was opened for writing or appending. *)
Theorem MapFile_effect (s : MemoryManager) (file : option FileInfo) (hp addr size prot flags fd pa a : Z)
    (H : reachable s) (Hw : word addr /\ 0 < size < W64) (Hprot : 0 <= prot < MemoryProt.GpuRead)
    (Hplace : place_mapping addr size flags 0 s = Done (Some a))
    (Hnew : has flags MemoryMapFlags.Fixed = false) (Hone : one_free_area (vma_map s) a size) :
  match file with
  | Some f =>
      if f_regular f then
        exists s' p, MapFile file hp addr size prot flags fd pa s = Done (ORBIS_OK, Some a, s') /\ mm_wf s' /\
          has p MemoryProt.CpuExec = false /\
          (f_writable f = false -> f_append f = false -> has p MemoryProt.CpuWrite = false) /\
          forall x, view (vma_map s') x = if in_range a size x
            then Some (mkPage VMAType.File p "anon" (has flags MemoryMapFlags.NoCoalesce) None)
            else view (vma_map s) x
      else MapFile file hp addr size prot flags fd pa s = Done (ORBIS_KERNEL_ERROR_EBADF, None, s)
  | None => MapFile file hp addr size prot flags fd pa s = Done (ORBIS_KERNEL_ERROR_EBADF, None, s)
  end.
Proof.
  destruct Hw as (Hwa & Hs). pose proof (mi_wf s (reachable_inv s H)) as Hwf. destruct file as [f|]; [|done].
  destruct (f_regular f) eqn:Er; [|cbn; by rewrite Er].
  destruct (MapFile_ok f hp addr size prot flags fd pa s a) as [s' E]; try done.
  assert (word size) as Hws by (unfold word; lia). exists s', (with_read (file_prot f prot)). split; [exact E|].
  destruct (MapFile_inv _ _ _ _ _ _ _ _ _ _ _ _ Hwf Hwa Hws E) as
    [Hwf' [(? & _)|(_ & f' & a' & s1 & [= <-] & [= <-] & _ & _ & Hcl & _ & _ & Hv)]]; [done|].
  unfold cleared in Hcl. rewrite Hnew in Hcl. subst s1. split_and!; [done|apply file_prot_no_exec| |].
  - intros Hw1 Hw2. by apply file_prot_no_write.
  - intros x. rewrite Hv. destruct (in_range a size x); [done|]. unfold begin_mutation, with_gen. cbn [vma_map].
    by rewrite gpu_unmap_vmas.
Qed.

Definition demo_file : FileInfo := mkFile true 7 false false 0x5000.

Lemma MapFile_effect_witness :
  exists s' p, MapFile (Some demo_file) 0x1000 0 0x8000 7 0 3 0 demo = Done (ORBIS_OK, Some 0x200000000, s') /\ mm_wf s' /\
    has p MemoryProt.CpuExec = false /\
    (f_writable demo_file = false -> f_append demo_file = false -> has p MemoryProt.CpuWrite = false) /\
    forall x, view (vma_map s') x = if in_range 0x200000000 0x8000 x
      then Some (mkPage VMAType.File p "anon" (has 0 MemoryMapFlags.NoCoalesce) None)
      else view (vma_map demo) x.
Proof.
  apply (MapFile_effect demo (Some demo_file) 0x1000 0 0x8000 7 0 3 0 0x200000000).
  - apply demo_reachable.
  - repeat split; vm_compute; congruence.
  - vm_compute. split; congruence.
  - vm_compute. reflexivity.
  - reflexivity.
  - exists [], 0x400000, (fresh_vma 0x400000 0x5FFFFFC00000), []. repeat split; vm_compute; congruence.
Defined.

(** ** Memory pools *)

(** on a 64 KiB boundary inside the address space [PoolCommit] always
    answers, as long as the pool holds what its budget promises.  It succeeds
    exactly on a pool-reserved range within budget: the range becomes pooled
    pages, each backed by its own byte that was in the pool and is committed
    now, and exactly [size] is charged; otherwise maps and budget stay. *)
Theorem PoolCommit_effect (s : MemoryManager) (addr size prot mtype : Z) (H : reachable s)
    (Hr : 0 <= addr /\ 0 < size /\ addr + size < W64) (Hal : AlignUp addr (KB 64) = addr)
    (Hc : covered (vma_map s) addr size)
    (Hpool : size < pool_budget s -> size <= dma_bytes PMT.Pooled (dmem_map s)) :
  exists ret s', PoolCommit addr size prot mtype s = Done (ret, s') /\ mm_wf s' /\
    (ret = ORBIS_OK <-> pool_area (vma_map s) addr size /\ size < pool_budget s) /\
    (ret <> ORBIS_OK -> vma_map s' = vma_map s /\ dmem_map s' = dmem_map s /\ pool_budget s' = pool_budget s) /\
    (ret = ORBIS_OK -> pool_budget s' = wsub (pool_budget s) size /\
     exists p', taken PMT.Pooled PMT.Committed 0 size [] p' (dmem_map s) (dmem_map s') /\
      forall x, view (vma_map s') x = if in_range addr size x
        then Some (mkPage VMAType.Pooled (with_read prot) "anon" false (phys_at p' (x - addr)))
        else view (vma_map s) x).
Proof.
  destruct Hr as (Ha & Hs & Hlt). pose proof (mi_wf s (reachable_inv s H)) as Hwf.
  destruct (PoolCommit_ok addr size prot mtype s Hwf Ha Hs Hlt Hal Hc Hpool) as (ret & s' & E & Hiff).
  assert (word addr /\ word size) as [Hwa Hws] by (unfold word; lia).
  destruct (PoolCommit_inv _ _ _ _ _ _ _ Hwf Hwa Hws E) as [Hwf' Hcase]. exists ret, s'.
  split_and!; [done|done|tauto|tauto|]; intros Hret; destruct Hcase as [[? _]|(_ & _ & ? & ?)]; auto; done.
Qed.

(** A pool of 1 MiB behind 1 MiB of pool-reserved addresses, before and after
    a commit of 128 KiB. *)
Definition demo_pool0 : MemoryManager :=
  match PoolExpand 0 0x10000000 0x100000 0 demo with Done (_, s) => s | Raised _ => demo end.
Definition demo_pool : MemoryManager :=
  match MapMemory 0 0x100000 0 0 VMAType.PoolReserved "anon" false MINUS_1 0 demo_pool0 with
  | Done (_, _, s) => s | Raised _ => demo
  end.
Definition demo_commit : MemoryManager :=
  match PoolCommit 0x200000000 0x20000 3 0 demo_pool with Done (_, s) => s | Raised _ => demo end.

Lemma demo_pool_reachable : reachable demo_pool.
Proof.
  apply (reach_step demo_pool0); [apply (reach_step demo); [apply demo_reachable|]|].
  - apply (step_PoolExpand demo 0 0x10000000 0x100000 0 0); [repeat split; vm_compute; congruence|vm_compute; reflexivity].
  - apply (step_MapMemory demo_pool0 0 0x100000 0 0 VMAType.PoolReserved "anon" false MINUS_1 0 0 (Some 0x200000000));
      [repeat split; vm_compute; congruence..|congruence|vm_compute; reflexivity].
Qed.

Lemma demo_commit_reachable : reachable demo_commit.
Proof.
  apply (reach_step demo_pool); [apply demo_pool_reachable|].
  apply (step_PoolCommit demo_pool 0x200000000 0x20000 3 0 0);
    [repeat split; vm_compute; congruence..|vm_compute; reflexivity].
Qed.

Lemma PoolCommit_effect_witness :
  exists s', PoolCommit 0x200000000 0x20000 3 0 demo_pool = Done (ORBIS_OK, s') /\ mm_wf s' /\
    pool_budget s' = wsub (pool_budget demo_pool) 0x20000.
Proof.
  destruct (PoolCommit_effect demo_pool 0x200000000 0x20000 3 0) as (ret & s' & E & W & Hiff & _ & HB).
  - apply demo_pool_reachable.
  - repeat split; vm_compute; congruence.
  - vm_compute. reflexivity.
  - by_entry 1%nat.
  - vm_compute. congruence.
  - assert (ret = ORBIS_OK) as Hret.
    { symmetry in E. vm_compute in E. injection E as E _. exact E. }
    exists s'. rewrite Hret in E. split; [exact E|]. split; [exact W|]. apply HB. exact Hret.
Defined.

(** [PoolDecommit] of a range inside the address space always answers when
    the memory behind its pooled pages is committed, unaliased and unsplit: it
    refuses and changes nothing, or makes every page of the range
    pool-reserved, returns exactly the memory behind them to the pool, and
    budget and committed bytes keep their sum. *)
Theorem PoolDecommit_effect (s : MemoryManager) (addr size : Z) (H : reachable s)
    (Hr : 0 <= addr /\ 0 < size /\ addr + size < W64) (Hc : covered (vma_map s) addr size)
    (Hp : ready VMAType.Pooled PMT.Committed (vma_map s) (dmem_map s) addr size) :
  PoolDecommit addr size s = Done (ORBIS_KERNEL_ERROR_EINVAL, s) \/
  exists s', PoolDecommit addr size s = Done (ORBIS_OK, s') /\ mm_wf s' /\
    updated (vma_map s) addr size page_pool_reserved (vma_map s') /\
    freed VMAType.Pooled PMT.Committed PMT.Pooled (vma_map s) addr size (dmem_map s) (dmem_map s') /\
    pool_account s' = pool_account s.
Proof.
  destruct Hr as (? & ? & ?). apply PoolDecommit_ok; try assumption. apply reachable_inv, H.
Qed.

(** One area backed by one physical area: nothing is aliased or split. *)
Lemma ready_simple (m : VMAMap) (pm : PhysMap) i j k v k0 p0 kp p t d a n :
  wf_from 0 m -> wf_from 0 pm -> m !! i = Some (k, v) -> v_type v = t -> v_phys v = [(0, p0)] ->
  pm !! j = Some (kp, p) -> p_dma p = d -> k0 = p_base p0 -> kp <= k0 -> k0 + p_size p0 <= kp + p_size p ->
  v_base v <= a -> a + n <= v_base v + v_size v -> ready t d m pm a n.
Proof.
  intros Hw Hwp Em Ht Hph Epm Hd -> Hkp Hke Ha He.
  apply list_elem_of_split_length in Em as (l & r & -> & _), Epm as (pl & pr & -> & _).
  pose proof (wf_mid _ _ _ _ _ Hw) as (_ & _ & Hk & _). cbn in Hk.
  assert (forall x b, a <= x < a + n -> behind t (l ++ (k, v) :: r) x = Some b ->
    b_addr b = p_base p0 + (x - k) /\ 0 <= x - k < p_size p0) as HB.
  { intros x b Hx. rewrite (behind_entry l k v r a n) by (auto; lia). rewrite bool_decide_eq_true_2, Hph by done. cbn.
    destruct (Z.leb_spec 0 (x - k)), (Z.ltb_spec (x - k) (0 + p_size p0)); cbn; try done. intros [= <-]. cbn.
    lia. }
  split.
  - intros x b Hx Eb. destruct (HB x b Hx Eb) as [-> ?]. exists (p_mtype p). rewrite (view_mid 0) by (cbn; auto; lia).
    cbn. by rewrite Hd.
  - intros x x' b b' Hx Hx' Eb Eb'. destruct (HB x b Hx Eb) as [-> ?], (HB x' b' Hx' Eb') as [-> ?]. lia.
  - intros x b b' Hx Hx' Eb Eb' _ Hs. destruct (HB x b ltac:(lia) Eb) as [E1 ?], (HB (x + 1) b' ltac:(lia) Eb') as [E2 ?].
    apply (starts_outside 0) in Hs; [|done]. lia.
Qed.

Lemma PoolDecommit_effect_witness :
  exists s', PoolDecommit 0x200000000 0x10000 demo_commit = Done (ORBIS_OK, s') /\ mm_wf s' /\
    updated (vma_map demo_commit) 0x200000000 0x10000 page_pool_reserved (vma_map s') /\
    freed VMAType.Pooled PMT.Committed PMT.Pooled (vma_map demo_commit) 0x200000000 0x10000 (dmem_map demo_commit) (dmem_map s') /\
    pool_account s' = pool_account demo_commit.
Proof.
  destruct (PoolDecommit_effect demo_commit 0x200000000 0x10000) as [E|G].
  - apply demo_commit_reachable.
  - repeat split; vm_compute; congruence.
  - by_entry 1%nat.
  - pose proof (mi_wf _ (reachable_inv _ demo_commit_reachable)) as Hw.
    eapply (ready_simple _ _ 1%nat 0%nat); [exact (mw_vmas _ Hw)|exact (pw_dmem _ (mw_phys _ Hw))|vm_compute; reflexivity|vm_compute; reflexivity|vm_compute; reflexivity
      |vm_compute; reflexivity|vm_compute; reflexivity|reflexivity|vm_compute; congruence..].
  - vm_compute in E. discriminate E.
  - exact G.
Defined.

(** ** Allocation *)



(** [PoolExpand] always completes and takes the least aligned fitting
    block from the search start on for the pool, growing the budget by its
    size, or returns -1 and changes nothing; the end of the search window
    plays no role. *)
Theorem PoolExpand_first_fit (s : MemoryManager) (ss stop size al : Z) (H : reachable s)
    (Htot : 0 < total_direct_size s) (Hpos : 0 <= ss /\ 0 < size /\ 0 <= al)
    (Hr : let al' := if 0 <? al then al else KB 64 in
      ss + al' + size < W64 /\ total_direct_size s + al' + size < W64) :
  let al' := if 0 <? al then al else KB 64 in
  let whole := total_direct_size s in
  (PoolExpand ss stop size al s = Done (MINUS_1, s) /\ forall p, ~ fits (dmem_map s) ss whole size al' p) \/
  exists p dm, PoolExpand ss stop size al s = Done (p, with_budget (wadd (pool_budget s) size) (with_dmem dm s)) /\
    fits (dmem_map s) ss whole size al' p /\ (forall p', fits (dmem_map s) ss whole size al' p' -> p <= p') /\
    phys_like (dmem_map s) dm /\
    forall x, view dm x = if in_range p size x then Some (3, PMT.Pooled) else view (dmem_map s) x.
Proof.
  destruct Hpos as (? & ? & ?), Hr as [? ?]. apply PoolExpand_ok; try assumption. apply reachable_inv, H.
Qed.

Lemma PoolExpand_first_fit_witness :
  exists p dm, PoolExpand 0 0x1000 0x100000 0 demo = Done (p, with_budget (wadd (pool_budget demo) 0x100000) (with_dmem dm demo)).
Proof.
  destruct (PoolExpand_first_fit demo 0 0x1000 0x100000 0) as [[E _]|(p & dm & E & _)].
  - apply demo_reachable.
  - vm_compute. reflexivity.
  - repeat split; vm_compute; congruence.
  - split; vm_compute; reflexivity.
  - vm_compute in E. discriminate E.
  - exists p, dm. exact E.
Defined.

(** a mapping that may not replace others (not [Fixed], or [Fixed] with
    [NoOverwrite] at an address inside the address space) is placed inside a
    single free area. *)
Theorem placement_is_free (s : MemoryManager) (addr size flags al a : Z) (H : reachable s)
    (Hpos : 0 <= addr /\ 0 < size /\ 0 <= al /\ 0 <= system_managed_base (impl s))
    (Hal : u32 (if 0 <? al then al else KB 16) <> 0)
    (Hlt : Z.max (Z.max addr DEFAULT_MAPPING_BASE) (system_managed_base (impl s)) + W32 + size < W64)
    (HF : Forall (fun e => e.1 + W32 < W64) (vma_map s))
    (Hfl : has flags MemoryMapFlags.Fixed = false \/
      has flags MemoryMapFlags.NoOverwrite = true /\ view (vma_map s) addr <> None)
    (E : place_mapping addr size flags al s = Done (Some a)) :
  one_free_area (vma_map s) a size /\
  forall x, a <= x < a + size -> exists g, view (vma_map s) x = Some g /\ g_type g = VMAType.Free.
Proof.
  destruct Hpos as (Ha & Hs & Ha' & Hb). pose proof (mw_vmas _ (mi_wf s (reachable_inv s H))) as Hwf.
  pose proof (place_free addr size flags al s a Hwf Ha Hb Hs Ha' Hal Hlt HF Hfl E) as Hone.
  split; [exact Hone|]. intros x Hx. eapply one_free_view; eassumption.
Qed.

Lemma placement_is_free_witness : one_free_area (vma_map demo_flex) 0x200008000 0x4000.
Proof.
  apply (placement_is_free demo_flex 0x200000000 0x4000 0 0 0x200008000).
  - apply demo_flex_reachable.
  - repeat split; vm_compute; congruence.
  - vm_compute. congruence.
  - vm_compute. reflexivity.
  - apply (bool_decide_unpack _). vm_compute. exact I.
  - left. reflexivity.
  - vm_compute. reflexivity.
Defined.

(** ** Splitting and merging are invisible *)

(** carving a range out of the virtual area that contains it never fails
    and is invisible: it yields an area for exactly that range, every address
    keeps its attributes and backing, and the map stays well formed. *)
Theorem CarveVMA_invisible (s : MemoryManager) (addr size : Z) (H : reachable s) (Hs : 0 < size)
    (l r : VMAMap) (k : Z) (v : VirtualMemoryArea) (Em : vma_map s = l ++ (k, v) :: r)
    (Hin : k <= addr /\ addr + size <= k + v_size v) :
  exists m' w, CarveVMA (vma_map s) addr size = Done (addr, m') /\ mlookup addr m' = Some w /\
    v_base w = addr /\ v_size w = size /\ wf_from 0 m' /\ forall x, view m' x = view (vma_map s) x.
Proof.
  pose proof (mw_vmas _ (mi_wf s (reachable_inv s H))) as Hwf. rewrite Em in *.
  destruct (CarveVMA_ok 0 l k v r addr size Hwf Hs (proj1 Hin) (proj2 Hin)) as (m' & E & Hc).
  destruct Hc as (l1 & r1 & mid & -> & _ & Hb & Hsz & _ & HS). exists (l1 ++ (addr, mid) :: r1), mid.
  pose proof (sm_wf _ _ _ HS Hwf) as Hwf'. split_and!; [done| |done|done|done|].
  - apply mlookup_mid. eapply wf_mid. exact Hwf'.
  - intros x. by apply (sm_view _ _ _ HS).
Qed.

Lemma CarveVMA_invisible_witness :
  exists m' w, CarveVMA (vma_map demo) 0x200000000 0x4000 = Done (0x200000000, m') /\ mlookup 0x200000000 m' = Some w /\
    v_base w = 0x200000000 /\ v_size w = 0x4000 /\ wf_from 0 m' /\ forall x, view m' x = view (vma_map demo) x.
Proof.
  apply (CarveVMA_invisible demo 0x200000000 0x4000) with [] [] 0x400000 (fresh_vma 0x400000 0x5FFFFFC00000).
  - apply demo_reachable.
  - lia.
  - vm_compute. reflexivity.
  - split; vm_compute; congruence.
Defined.

(** merging an area with its neighbours never fails on a well-formed map
    and changes neither the attributes nor the backing of any address. *)
Theorem MergeAdjacent_invisible (m : VMAMap) (k : Z) (Hwf : wf_from 0 m) (Hk : mlookup k m <> None) :
  exists k' m', vma_MergeAdjacent m k = Done (k', m') /\ k' <= k /\ mlookup k' m' <> None /\
    wf_from 0 m' /\ forall x, view m' x = view m x.
Proof.
  destruct (mlookup k m) as [v|] eqn:E; [|done]. destruct (mlookup_split _ _ _ E) as (l & r & ->).
  destruct (vma_MergeAdjacent_ok 0 l k v r Hwf) as (l' & k' & v' & r' & EM & Hle & _ & _ & _ & _ & _ & HS & _).
  pose proof (sm_wf _ _ _ HS Hwf) as Hwf'. exists k', (l' ++ (k', v') :: r'). split_and!; [done|done| |done|].
  - rewrite mlookup_mid; [done|]. eapply wf_mid. exact Hwf'.
  - intros x. by apply (sm_view _ _ _ HS).
Qed.

Lemma MergeAdjacent_invisible_witness :
  exists k' m', vma_MergeAdjacent (vma_map demo_flex) 0x200000000 = Done (k', m') /\ k' <= 0x200000000 /\
    mlookup k' m' <> None /\ wf_from 0 m' /\ forall x, view m' x = view (vma_map demo_flex) x.
Proof.
  apply (MergeAdjacent_invisible (vma_map demo_flex) 0x200000000).
  - exact (mw_vmas _ (mi_wf _ (reachable_inv _ demo_flex_reachable))).
  - vm_compute. congruence.
Defined.

(** ** Queries *)

(** [VirtualQuery] of an address inside the address space answers EACCES
    exactly when its page is free; otherwise it reports a range around the
    address all of whose pages have the type, protection and name reported,
    and for direct memory the physical address and type behind its start. *)
Theorem VirtualQuery_exact (s : MemoryManager) (addr : Z) (g : page) (H : reachable s)
    (Hb : system_managed_base (impl s) <= addr) (Hg : view (vma_map s) addr = Some g) :
  (free_page g /\ VirtualQuery addr 0 s = Done (ORBIS_KERNEL_ERROR_EACCES, None)) \/
  (~ free_page g /\ exists info, VirtualQuery addr 0 s = Done (ORBIS_OK, Some info) /\
    qi_start info <= addr < qi_end info /\ describes (vma_map s) info g).
Proof. apply VirtualQuery_ok; try assumption. apply reachable_inv, H. Qed.

Lemma VirtualQuery_exact_witness :
  exists g info, VirtualQuery 0x200004000 0 demo_direct = Done (ORBIS_OK, Some info) /\
    qi_start info <= 0x200004000 < qi_end info /\ describes (vma_map demo_direct) info g.
Proof.
  destruct (VirtualQuery_exact demo_direct 0x200004000
    (mkPage VMAType.Direct 3 "dmem" false (Some (mkBacking 0x4000 0 PMT.Mapped)))) as [[F _]|(_ & info & E & R)].
  - apply demo_direct_reachable.
  - vm_compute. congruence.
  - vm_compute. reflexivity.
  - discriminate F.
  - exists (mkPage VMAType.Direct 3 "dmem" false (Some (mkBacking 0x4000 0 PMT.Mapped))), info. exact (conj E R).
Defined.

(** with flag 1 [VirtualQuery] reports the first area from the address on
    that is not free: nothing in between is in use, and EACCES means that
    nothing from the address on is. *)
Theorem VirtualQuery_finds_next (s : MemoryManager) (addr : Z) (H : reachable s)
    (Hb : system_managed_base (impl s) <= addr) (Hg : view (vma_map s) addr <> None) :
  (VirtualQuery addr 1 s = Done (ORBIS_KERNEL_ERROR_EACCES, None) /\
    forall x g, addr <= x -> view (vma_map s) x = Some g -> free_page g) \/
  (exists info g, VirtualQuery addr 1 s = Done (ORBIS_OK, Some info) /\ addr < qi_end info /\
    ~ free_page g /\ describes (vma_map s) info g /\
    forall x g, addr <= x < qi_start info -> view (vma_map s) x = Some g -> free_page g).
Proof. apply VirtualQuery_next_ok; try assumption. apply reachable_inv, H. Qed.

Lemma VirtualQuery_finds_next_witness :
  exists info g, VirtualQuery 0x400000 1 demo_direct = Done (ORBIS_OK, Some info) /\ 0x400000 < qi_end info /\
    ~ free_page g /\ describes (vma_map demo_direct) info g /\
    forall x g, 0x400000 <= x < qi_start info -> view (vma_map demo_direct) x = Some g -> free_page g.
Proof.
  destruct (VirtualQuery_finds_next demo_direct 0x400000) as [[E _]|R].
  - apply demo_direct_reachable.
  - vm_compute. congruence.
  - vm_compute. congruence.
  - vm_compute in E. discriminate E.
  - exact R.
Defined.

(** [DirectQueryAvailable] always completes; from an aligned search start
    the block it reports is aligned, inside the window and inside one free
    area, and a search from 0 finds the largest such block. *)
Theorem DirectQueryAvailable_correct (s : MemoryManager) (lo hi al : Z) (H : reachable s)
    (Htot : 0 < total_direct_size s) (Hr : word lo /\ word hi)
    (Hal : 0 <= al /\ total_direct_size s + al < W64 /\ aligned al lo) :
  exists p n, DirectQueryAvailable lo hi al s = Done (p, n) /\ 0 <= n /\
    (0 < n -> free_block (dmem_map s) lo hi al p n) /\
    (lo = 0 -> forall q k, free_block (dmem_map s) lo hi al q k -> k <= n).
Proof.
  destruct Hr as [? ?], Hal as (? & ? & ?). apply DirectQueryAvailable_ok; try assumption. apply reachable_inv, H.
Qed.

Lemma DirectQueryAvailable_correct_witness :
  exists p n, DirectQueryAvailable 0 0x1000000 0x4000 demo_alloc = Done (p, n) /\ 0 <= n /\
    (0 < n -> free_block (dmem_map demo_alloc) 0 0x1000000 0x4000 p n) /\
    (0 = 0 -> forall q k, free_block (dmem_map demo_alloc) 0 0x1000000 0x4000 q k -> k <= n).
Proof.
  apply (DirectQueryAvailable_correct demo_alloc 0 0x1000000 0x4000).
  - apply demo_alloc_reachable.
  - vm_compute. reflexivity.
  - repeat split; vm_compute; congruence.
  - repeat split; vm_compute; congruence.
Defined.
