(* ===== verification/KernelMemory.v ===== *)
(** * KernelMemory: the guest's memory system calls

    [core/libraries/kernel/memory.cpp]: the [sceKernel*] and POSIX entry
    points.  They validate what the guest passes, call the memory manager,
    and keep three globals of their own ([g_sdk_version], [g_alias_dmem],
    [PrtApertures]) and the thread's [errno] ([kernel.cpp]).

    A pointer the source tests against [nullptr] is an [option]; one it
    dereferences without a test is taken to be valid.  [addr] in-out
    pointers are the value they point at, returned next to the result. *)

From S2P Require Import Prelude OrdMap MemTypes MemOps.

Record KernelState := mkKernel {
  k_memory : MemoryManager;
  g_sdk_version : Z;
  g_alias_dmem : bool;
  g_posix_errno : Z;
  PrtApertures : list (Z * Z);
}.

Definition with_memory (m : MemoryManager) (k : KernelState) : KernelState :=
  mkKernel m (g_sdk_version k) (g_alias_dmem k) (g_posix_errno k) (PrtApertures k).
Definition with_errno (e : Z) (k : KernelState) : KernelState :=
  mkKernel (k_memory k) (g_sdk_version k) (g_alias_dmem k) e (PrtApertures k).

(** kernel.cpp *)
Definition ErrSceToPosix (error : Z) (k : KernelState) : KernelState :=
  with_errno (s32 (error - ORBIS_KERNEL_ERROR_UNKNOWN)) k.

(** [std::has_single_bit] on [u64] *)
Definition has_single_bit (x : Z) : bool := (0 <? x) && (Z.land x (x - 1) =? 0).

(** Run a manager operation inside the kernel state. *)
Definition on_memory {A} (r : outcome (A * MemoryManager)) (k : KernelState) : outcome (A * KernelState) :=
  let! '(a, m) := r in Done (a, with_memory m k).

(** ** Direct memory *)

Definition sceKernelGetDirectMemorySize (k : KernelState) : Z := total_direct_size (k_memory k).

Definition sceKernelEnableDmemAliasing (k : KernelState) : Z * KernelState :=
  (ORBIS_OK, mkKernel (k_memory k) (g_sdk_version k) true (g_posix_errno k) (PrtApertures k)).

(** [searchStart] and [searchEnd] are [s64], compared with the [u64] [len]
    after conversion.  The second result is what is stored to [*physAddrOut]. *)
Definition sceKernelAllocateDirectMemory (searchStart searchEnd len alignment memoryType : Z)
    (physAddrOut : bool) (k : KernelState) : outcome (Z * option Z * KernelState) :=
  if (searchStart <? 0) || (searchEnd <? 0) then Done (ORBIS_KERNEL_ERROR_EINVAL, None, k)
  else if (len <=? 0) || negb (Is16KBAligned len) then Done (ORBIS_KERNEL_ERROR_EINVAL, None, k)
  else if negb (alignment =? 0) && negb (Is16KBAligned alignment)
  then Done (ORBIS_KERNEL_ERROR_EINVAL, None, k)
  else if 10 <? memoryType then Done (ORBIS_KERNEL_ERROR_EINVAL, None, k)
  else if negb physAddrOut then Done (ORBIS_KERNEL_ERROR_EINVAL, None, k)
  else
    let is_in_range := len <=? u64 (searchEnd - searchStart) in
    if (searchEnd <=? searchStart) || (u64 searchEnd <? len) || negb is_in_range
    then Done (ORBIS_KERNEL_ERROR_EAGAIN, None, k)
    else
      let! '(phys_addr, k) :=
        on_memory (Allocate (u64 searchStart) (u64 searchEnd) len alignment memoryType (k_memory k)) k in
      if phys_addr =? MINUS_1 then Done (ORBIS_KERNEL_ERROR_EAGAIN, None, k)
      else Done (ORBIS_OK, Some (s64 phys_addr), k).

Definition sceKernelAllocateMainDirectMemory (len alignment memoryType : Z) (physAddrOut : bool)
    (k : KernelState) : outcome (Z * option Z * KernelState) :=
  let searchEnd := s64 (sceKernelGetDirectMemorySize k) in
  sceKernelAllocateDirectMemory 0 searchEnd len alignment memoryType physAddrOut k.

Definition sceKernelCheckedReleaseDirectMemory (start len : Z) (k : KernelState) : outcome (Z * KernelState) :=
  if negb (Is16KBAligned start) || negb (Is16KBAligned len) then Done (ORBIS_KERNEL_ERROR_EINVAL, k)
  else if len =? 0 then Done (ORBIS_OK, k)
  else on_memory (Free start len true (k_memory k)) k.

Definition sceKernelReleaseDirectMemory (start len : Z) (k : KernelState) : outcome (Z * KernelState) :=
  if negb (Is16KBAligned start) || negb (Is16KBAligned len) then Done (ORBIS_KERNEL_ERROR_EINVAL, k)
  else if len =? 0 then Done (ORBIS_OK, k)
  else
    let! '(_, k) := on_memory (Free start len false (k_memory k)) k in
    Done (ORBIS_OK, k).

Definition sceKernelAvailableDirectMemorySize (searchStart searchEnd alignment : Z) (physAddrOut sizeOut : bool)
    (k : KernelState) : outcome (Z * option (Z * Z)) :=
  if negb physAddrOut || negb sizeOut then Done (ORBIS_KERNEL_ERROR_EINVAL, None)
  else
    let! '(physAddr, size) := DirectQueryAvailable searchStart searchEnd alignment (k_memory k) in
    if size =? 0 then Done (ORBIS_KERNEL_ERROR_ENOMEM, None)
    else Done (ORBIS_OK, Some (physAddr, size)).

Definition sceKernelDirectMemoryQuery (offset flags : Z) (k : KernelState)
    : outcome (Z * option (Z * Z * option Z)) :=
  DirectMemoryQuery offset (flags =? 1) (k_memory k).

Definition sceKernelGetDirectMemoryType (addr : Z) (k : KernelState) : outcome (Z * option (Z * Z * Z)) :=
  GetDirectMemoryType addr (k_memory k).

(** ** Virtual ranges *)

Definition sceKernelVirtualQuery (addr flags : Z) (k : KernelState)
    : outcome (Z * option OrbisVirtualQueryInfo) :=
  VirtualQuery addr flags (k_memory k).

Definition sceKernelQueryMemoryProtection (addr : Z) (k : KernelState) : outcome (Z * option (Z * Z * Z * Z)) :=
  QueryProtection addr (k_memory k).

Definition sceKernelIsStack (addr : Z) (k : KernelState) : outcome (Z * option (Z * Z)) :=
  IsStack addr (k_memory k).

Definition bad_alignment (alignment : Z) (is_aligned : Z -> bool) : bool :=
  negb (alignment =? 0) && (negb (has_single_bit alignment) && negb (is_aligned alignment)).

(** The block of three calls: a fixed mapping at address zero.  [None] is
    [EINVAL]; the version is compared as a [u32]. *)
Definition fixed_at_zero (map_flags in_addr : Z) (k : KernelState) : option Z :=
  if has map_flags MemoryMapFlags.Fixed && (in_addr =? 0) then
    if FW_170 <=? u32 (g_sdk_version k) then None
    else Some (clear map_flags MemoryMapFlags.Fixed)
  else Some map_flags.

(** What every mapping call does with the outcome of [MapMemory]: the value
    of the in-out pointer is replaced on success. *)
Definition map_into (addr : Z) (r : outcome (Z * option Z * MemoryManager)) (k : KernelState)
    : outcome (Z * Z * KernelState) :=
  let! '(ret, out, m) := r in
  Done (ret, match out with Some a => a | None => addr end, with_memory m k).

(** [*addr] is read for the log line before [addr] is tested. *)
Definition sceKernelReserveVirtualRange (addr : option Z) (len flags alignment : Z) (k : KernelState)
    : outcome (Z * Z * KernelState) :=
  match addr with
  | None => Raised Undefined
  | Some in_addr =>
      if (len =? 0) || negb (Is16KBAligned len) then Done (ORBIS_KERNEL_ERROR_EINVAL, in_addr, k)
      else if bad_alignment alignment Is16KBAligned then Done (ORBIS_KERNEL_ERROR_EINVAL, in_addr, k)
      else
        match fixed_at_zero (u32 flags) in_addr k with
        | None => Done (ORBIS_KERNEL_ERROR_EINVAL, in_addr, k)
        | Some map_flags =>
            map_into in_addr
              (MapMemory in_addr len MemoryProt.NoAccess map_flags VMAType.Reserved "anon" false MINUS_1
                 alignment (k_memory k)) k
        end
  end.

Definition sceKernelMapNamedDirectMemory (addr len prot flags phys_addr alignment : Z) (name : string)
    (k : KernelState) : outcome (Z * Z * KernelState) :=
  if (len =? 0) || negb (Is16KBAligned len) then Done (ORBIS_KERNEL_ERROR_EINVAL, addr, k)
  else if negb (Is16KBAligned phys_addr) then Done (ORBIS_KERNEL_ERROR_EINVAL, addr, k)
  else if bad_alignment alignment Is16KBAligned then Done (ORBIS_KERNEL_ERROR_EINVAL, addr, k)
  else if (ORBIS_KERNEL_MAXIMUM_NAME_LENGTH <=? String.length name)%nat
  then Done (ORBIS_KERNEL_ERROR_ENAMETOOLONG, addr, k)
  else
    let mem_prot := u32 prot in
    if has mem_prot MemoryProt.CpuExec then Done (ORBIS_KERNEL_ERROR_EACCES, addr, k)
    else
      let map_flags := u32 flags in
      let should_check :=
        if (FW_250 <=? u32 (g_sdk_version k)) && negb (has map_flags MemoryMapFlags.Stack)
        then negb (g_alias_dmem k) else false in
      match fixed_at_zero map_flags addr k with
      | None => Done (ORBIS_KERNEL_ERROR_EINVAL, addr, k)
      | Some map_flags =>
          map_into addr
            (MapMemory addr len mem_prot map_flags VMAType.Direct name should_check (u64 phys_addr) alignment
               (k_memory k)) k
      end.

Definition sceKernelMapDirectMemory (addr len prot flags phys_addr alignment : Z) (k : KernelState)
    : outcome (Z * Z * KernelState) :=
  sceKernelMapNamedDirectMemory addr len prot flags phys_addr alignment "anon" k.

Definition sceKernelMapDirectMemory2 (addr len type prot flags phys_addr alignment : Z) (k : KernelState)
    : outcome (Z * Z * KernelState) :=
  if (len =? 0) || negb (Is16KBAligned len) then Done (ORBIS_KERNEL_ERROR_EINVAL, addr, k)
  else if negb (Is16KBAligned phys_addr) then Done (ORBIS_KERNEL_ERROR_EINVAL, addr, k)
  else if bad_alignment alignment Is16KBAligned then Done (ORBIS_KERNEL_ERROR_EINVAL, addr, k)
  else
    let mem_prot := u32 prot in
    if has mem_prot MemoryProt.CpuExec then Done (ORBIS_KERNEL_ERROR_EINVAL, addr, k)
    else
      let! '(ret, out_addr, k) :=
        map_into addr
          (MapMemory addr len mem_prot (u32 flags) VMAType.Direct "anon" (negb (g_alias_dmem k)) (u64 phys_addr)
             alignment (k_memory k)) k in
      if ret =? 0 then
        let! '(_, k) := on_memory (SetDirectMemoryType out_addr len type (k_memory k)) k in
        Done (ret, out_addr, k)
      else Done (ret, out_addr, k).

Definition sceKernelMapNamedFlexibleMemory (addr_in_out len prot flags : Z) (name : option string)
    (k : KernelState) : outcome (Z * Z * KernelState) :=
  if (len =? 0) || negb (Is16KBAligned len) then Done (ORBIS_KERNEL_ERROR_EINVAL, addr_in_out, k)
  else
    match name with
    | None => Done (ORBIS_KERNEL_ERROR_EFAULT, addr_in_out, k)
    | Some name =>
        if (ORBIS_KERNEL_MAXIMUM_NAME_LENGTH <=? String.length name)%nat
        then Done (ORBIS_KERNEL_ERROR_ENAMETOOLONG, addr_in_out, k)
        else
          match fixed_at_zero (u32 flags) addr_in_out k with
          | None => Done (ORBIS_KERNEL_ERROR_EINVAL, addr_in_out, k)
          | Some map_flags =>
              map_into addr_in_out
                (MapMemory addr_in_out len (u32 prot) map_flags VMAType.Flexible name false MINUS_1 0
                   (k_memory k)) k
          end
    end.

Definition sceKernelMapFlexibleMemory (addr_in_out len prot flags : Z) (k : KernelState)
    : outcome (Z * Z * KernelState) :=
  sceKernelMapNamedFlexibleMemory addr_in_out len prot flags (Some "anon"%string) k.

Definition sceKernelAvailableFlexibleMemorySize (k : KernelState) : Z * Z :=
  (ORBIS_OK, GetAvailableFlexibleSize (k_memory k)).

Definition sceKernelConfiguredFlexibleMemorySize (sizeOut : bool) (k : KernelState) : Z * option Z :=
  if negb sizeOut then (ORBIS_KERNEL_ERROR_EINVAL, None)
  else (ORBIS_OK, Some (total_flexible_size (k_memory k))).

(** The page range [sceKernelMprotect] and [sceKernelMtypeprotect] work on. *)
Definition protect_range (in_addr size : Z) : Z * Z :=
  let aligned_addr := AlignDown in_addr (KB 16) in
  (aligned_addr, AlignUp (wsub (wadd size in_addr) aligned_addr) (KB 16)).

Definition sceKernelMprotect (addr size prot : Z) (k : KernelState) : outcome (Z * KernelState) :=
  let '(aligned_addr, aligned_size) := protect_range addr size in
  if aligned_size =? 0 then Done (ORBIS_OK, k)
  else
    let! '(result, k) := on_memory (Protect aligned_addr aligned_size (u32 prot) (k_memory k)) k in
    if result =? ORBIS_OK
    then Done (result, with_memory (InvalidateMemory aligned_addr aligned_size (k_memory k)) k)
    else Done (result, k).

Definition posix_mprotect (addr size prot : Z) (k : KernelState) : outcome (Z * KernelState) :=
  let! '(result, k) := sceKernelMprotect addr size prot k in
  if result <? 0 then Done (-1, ErrSceToPosix result k) else Done (result, k).

Definition sceKernelMtypeprotect (addr size mtype prot : Z) (k : KernelState) : outcome (Z * KernelState) :=
  let '(aligned_addr, aligned_size) := protect_range addr size in
  if aligned_size =? 0 then Done (ORBIS_OK, k)
  else
    let! '(result, k) := on_memory (Protect aligned_addr aligned_size (u32 prot) (k_memory k)) k in
    if result =? ORBIS_OK then
      let! '(_, k) := on_memory (SetDirectMemoryType aligned_addr aligned_size mtype (k_memory k)) k in
      Done (result, with_memory (InvalidateMemory aligned_addr aligned_size (k_memory k)) k)
    else Done (result, k).

Definition sceKernelMunmap (addr len : Z) (k : KernelState) : outcome (Z * KernelState) :=
  if len =? 0 then Done (ORBIS_KERNEL_ERROR_EINVAL, k)
  else on_memory (UnmapMemory addr len (k_memory k)) k.

Definition posix_munmap (addr len : Z) (k : KernelState) : outcome (Z * KernelState) :=
  let! '(result, k) := sceKernelMunmap addr len k in
  if result <? 0 then Done (-1, ErrSceToPosix result k) else Done (result, k).

Definition sceKernelSetVirtualRangeName (addr len : Z) (name : option string) (k : KernelState)
    : outcome (Z * KernelState) :=
  match name with
  | None => Done (ORBIS_KERNEL_ERROR_EFAULT, k)
  | Some name =>
      if (ORBIS_KERNEL_MAXIMUM_NAME_LENGTH <=? String.length name)%nat
      then Done (ORBIS_KERNEL_ERROR_ENAMETOOLONG, k)
      else
        let! m := NameVirtualRange addr len name (k_memory k) in
        Done (ORBIS_OK, with_memory m k)
  end.

(** ** Batches *)

Record OrbisKernelBatchMapEntry := mkBatchEntry {
  be_start : Z;
  be_offset : Z;
  be_length : Z;
  be_protection : Z;
  be_type : Z;
  be_operation : Z;
}.

(** One entry: the result, and the [start] the call leaves in the entry. *)
Definition batch_entry (e : OrbisKernelBatchMapEntry) (flags : Z) (k : KernelState)
    : outcome (Z * Z * KernelState) :=
  let keep (r : outcome (Z * KernelState)) : outcome (Z * Z * KernelState) :=
    let! '(result, k) := r in Done (result, be_start e, k) in
  if be_operation e =? 0 then
    sceKernelMapNamedDirectMemory (be_start e) (be_length e) (be_protection e) flags (s64 (be_offset e)) 0 "anon" k
  else if be_operation e =? 1 then keep (sceKernelMunmap (be_start e) (be_length e) k)
  else if be_operation e =? 2 then keep (sceKernelMprotect (be_start e) (be_length e) (be_protection e) k)
  else if be_operation e =? 3 then
    sceKernelMapNamedFlexibleMemory (be_start e) (be_length e) (be_protection e) flags (Some "anon"%string) k
  else if be_operation e =? 4 then
    keep (sceKernelMtypeprotect (be_start e) (be_length e) (be_type e) (be_protection e) k)
  else Raised AssertFailed.

Definition be_with_start (a : Z) (e : OrbisKernelBatchMapEntry) : OrbisKernelBatchMapEntry :=
  mkBatchEntry a (be_offset e) (be_length e) (be_protection e) (be_type e) (be_operation e).

(** The loop, on the entries still to process: result, number processed, the
    entries as the calls leave them. *)
Fixpoint batch_loop (entries : list OrbisKernelBatchMapEntry) (flags processed : Z) (k : KernelState)
    : outcome (Z * Z * list OrbisKernelBatchMapEntry * KernelState) :=
  match entries with
  | [] => Done (ORBIS_OK, processed, [], k)
  | e :: rest =>
      if (be_length e =? 0) || (4 <? be_operation e)
      then Done (ORBIS_KERNEL_ERROR_EINVAL, processed, e :: rest, k)
      else
        let! '(result, start, k) := batch_entry e flags k in
        let e := be_with_start start e in
        if negb (result =? ORBIS_OK) then Done (result, processed, e :: rest, k)
        else
          let! '(result, processed, rest, k) := batch_loop rest flags (processed + 1) k in
          Done (result, processed, e :: rest, k)
  end.

(** [entries] is the guest's array, with at least [numEntries] elements. *)
Definition sceKernelBatchMap2 (entries : option (list OrbisKernelBatchMapEntry)) (numEntries flags : Z)
    (k : KernelState) : outcome (Z * Z * list OrbisKernelBatchMapEntry * KernelState) :=
  if numEntries <=? 0 then Done (ORBIS_OK, 0, [], k)
  else
    match entries with
    | None => Done (ORBIS_KERNEL_ERROR_EINVAL, 0, [], k)
    | Some entries =>
        if Z.of_nat (length entries) <? numEntries then Raised Undefined
        else batch_loop (take (Z.to_nat numEntries) entries) flags 0 k
    end.

Definition sceKernelBatchMap (entries : option (list OrbisKernelBatchMapEntry)) (numEntries : Z)
    (k : KernelState) : outcome (Z * Z * list OrbisKernelBatchMapEntry * KernelState) :=
  sceKernelBatchMap2 entries numEntries MemoryMapFlags.Fixed k.

(** ** Memory pools *)

Definition sceKernelMemoryPoolExpand (searchStart searchEnd len alignment : Z) (physAddrOut : bool)
    (k : KernelState) : outcome (Z * option Z * KernelState) :=
  if (searchStart <? 0) || (searchEnd <=? searchStart) then Done (ORBIS_KERNEL_ERROR_EINVAL, None, k)
  else if (len <=? 0) || negb (Is64KBAligned len) then Done (ORBIS_KERNEL_ERROR_EINVAL, None, k)
  else if negb (alignment =? 0) && negb (Is64KBAligned alignment)
  then Done (ORBIS_KERNEL_ERROR_EINVAL, None, k)
  else if negb physAddrOut then Done (ORBIS_KERNEL_ERROR_EINVAL, None, k)
  else
    let is_in_range := len <=? wsub searchEnd searchStart in
    if (searchEnd <=? searchStart) || (searchEnd <? len) || negb is_in_range
    then Done (ORBIS_KERNEL_ERROR_ENOMEM, None, k)
    else
      let! '(phys_addr, k) :=
        on_memory (PoolExpand searchStart searchEnd len alignment (k_memory k)) k in
      if phys_addr =? MINUS_1 then Done (ORBIS_KERNEL_ERROR_ENOMEM, None, k)
      else Done (ORBIS_OK, Some phys_addr, k).

(** [addr_out] is written on success only. *)
Definition sceKernelMemoryPoolReserve (addr_in len alignment flags : Z) (k : KernelState)
    : outcome (Z * option Z * KernelState) :=
  if (len =? 0) || negb (Is2MBAligned len) then Done (ORBIS_KERNEL_ERROR_EINVAL, None, k)
  else if bad_alignment alignment Is2MBAligned then Done (ORBIS_KERNEL_ERROR_EINVAL, None, k)
  else
    let map_alignment := if alignment =? 0 then MB 2 else alignment in
    let! '(ret, out, m) :=
      MapMemory addr_in len MemoryProt.NoAccess (u32 flags) VMAType.PoolReserved "anon" false MINUS_1
        map_alignment (k_memory k) in
    Done (ret, out, with_memory m k).

Definition sceKernelMemoryPoolCommit (addr len type prot flags : Z) (k : KernelState)
    : outcome (Z * KernelState) :=
  if addr =? 0 then Done (ORBIS_KERNEL_ERROR_EINVAL, k)
  else if (len =? 0) || negb (Is64KBAligned len) then Done (ORBIS_KERNEL_ERROR_EINVAL, k)
  else
    let mem_prot := u32 prot in
    if has mem_prot MemoryProt.CpuExec then Done (ORBIS_KERNEL_ERROR_EINVAL, k)
    else on_memory (PoolCommit addr len mem_prot type (k_memory k)) k.

Definition sceKernelMemoryPoolDecommit (addr len flags : Z) (k : KernelState) : outcome (Z * KernelState) :=
  if addr =? 0 then Done (ORBIS_KERNEL_ERROR_EINVAL, k)
  else if (len =? 0) || negb (Is64KBAligned len) then Done (ORBIS_KERNEL_ERROR_EINVAL, k)
  else on_memory (PoolDecommit addr len (k_memory k)) k.

(** The union of the entry, read through its opcode. *)
Inductive PoolBatchEntry :=
  | PoolOpCommit (addr len prot type flags : Z)
  | PoolOpDecommit (addr len flags : Z)
  | PoolOpProtect (addr len prot : Z)
  | PoolOpTypeProtect (addr len prot type : Z)
  | PoolOpMove
  | PoolOpOther (opcode : Z).

Definition pool_entry (e : PoolBatchEntry) (k : KernelState) : outcome (Z * KernelState) :=
  match e with
  | PoolOpCommit addr len prot type flags => sceKernelMemoryPoolCommit addr len type prot flags k
  | PoolOpDecommit addr len flags => sceKernelMemoryPoolDecommit addr len flags k
  | PoolOpProtect addr len prot => sceKernelMprotect addr len prot k
  | PoolOpTypeProtect addr len prot type => sceKernelMtypeprotect addr len type prot k
  | PoolOpMove => Raised AssertFailed
  | PoolOpOther _ => Done (ORBIS_KERNEL_ERROR_EINVAL, k)
  end.

Fixpoint pool_loop (entries : list PoolBatchEntry) (processed : Z) (k : KernelState)
    : outcome (Z * Z * KernelState) :=
  match entries with
  | [] => Done (ORBIS_OK, processed, k)
  | e :: rest =>
      let! '(result, k) := pool_entry e k in
      if negb (result =? ORBIS_OK) then Done (result, processed, k)
      else pool_loop rest (processed + 1) k
  end.

(** [entries] is the guest's array, with at least [count] elements; the
    second result is what [*num_processed] receives. *)
Definition sceKernelMemoryPoolBatch (entries : option (list PoolBatchEntry)) (count : Z) (k : KernelState)
    : outcome (Z * option Z * KernelState) :=
  match entries with
  | None => Done (ORBIS_KERNEL_ERROR_EINVAL, None, k)
  | Some entries =>
      if Z.of_nat (length entries) <? count then Raised Undefined
      else
        let! '(result, processed, k) := pool_loop (take (Z.to_nat count) entries) 0 k in
        Done (result, Some processed, k)
  end.

(** The stats as the four [s32] of the structure, of which [size] bytes are
    copied. *)
Definition sceKernelMemoryPoolGetBlockStats (stats : bool) (size : Z) (k : KernelState)
    : outcome (Z * (Z * Z * Z * Z) * Z) :=
  let local_stats := GetMemoryPoolStats (k_memory k) in
  let size_to_copy := if size <? 16 then size else 16 in
  oassert (stats || (size =? 0)) ;;!
  Done (ORBIS_OK, local_stats, size_to_copy).

(** ** mmap *)

(** The manager call [posix_mmap] makes, by flags.  [file] is what the handle
    table holds for [fd]; [host_page] the host's page size. *)
Definition mmap_request (file : option FileInfo) (host_page aligned_addr aligned_size mem_prot mem_flags fd phys_addr : Z)
    (m : MemoryManager) : outcome (Z * option Z * MemoryManager) :=
  if has mem_flags MemoryMapFlags.Anon then
    MapMemory aligned_addr aligned_size mem_prot mem_flags VMAType.Flexible "anon" false MINUS_1 0 m
  else if has mem_flags MemoryMapFlags.Stack then
    MapMemory aligned_addr aligned_size mem_prot mem_flags VMAType.Stack "anon" false MINUS_1 0 m
  else if has mem_flags MemoryMapFlags.Void then
    MapMemory aligned_addr aligned_size MemoryProt.NoAccess mem_flags VMAType.Reserved "anon" false MINUS_1 0 m
  else MapFile file host_page aligned_addr aligned_size mem_prot mem_flags fd phys_addr m.

Definition posix_mmap (file : option FileInfo) (host_page addr len prot flags fd phys_addr : Z)
    (k : KernelState) : outcome (Z * KernelState) :=
  if len =? 0 then Done (MINUS_1, ErrSceToPosix ORBIS_KERNEL_ERROR_EINVAL k)
  else
    let mem_prot := u32 prot in
    let mem_flags := u32 flags in
    let aligned_addr := AlignUp addr (KB 16) in
    let aligned_size := AlignUp len (KB 16) in
    if has mem_flags MemoryMapFlags.Fixed && negb (addr =? aligned_addr)
    then Done (MINUS_1, ErrSceToPosix ORBIS_KERNEL_ERROR_EINVAL k)
    else
      let! '(result, addr_out, m) :=
        mmap_request file host_page aligned_addr aligned_size mem_prot mem_flags fd phys_addr (k_memory k) in
      let k := with_memory m k in
      if negb (result =? ORBIS_OK) then Done (MINUS_1, ErrSceToPosix result k)
      else
        let! addr_out := of_option addr_out in
        Done (addr_out, k).

Definition sceKernelMmap (file : option FileInfo) (host_page addr len prot flags fd phys_addr : Z)
    (k : KernelState) : outcome (Z * option Z * KernelState) :=
  let! '(addr_out, k) := posix_mmap file host_page addr len prot flags fd phys_addr k in
  if addr_out =? MINUS_1 then Done (ErrnoToSceKernelError (g_posix_errno k), None, k)
  else Done (ORBIS_OK, Some addr_out, k).

(** ** PRT apertures *)

Definition MAX_PRT_APERTURES : Z := 3.
Definition PRT_AREA_START_ADDR : Z := 0x1000000000.
Definition PRT_AREA_SIZE : Z := 0xec00000000.

Definition sceKernelSetPrtAperture (id address size : Z) (k : KernelState) : outcome (Z * KernelState) :=
  if (id <? 0) || (MAX_PRT_APERTURES <=? id) then Done (ORBIS_KERNEL_ERROR_EINVAL, k)
  else if (address <? PRT_AREA_START_ADDR) ||
          (PRT_AREA_START_ADDR + PRT_AREA_SIZE <? wadd address size)
  then Done (ORBIS_KERNEL_ERROR_EINVAL, k)
  else if negb (address mod 4096 =? 0) then Done (ORBIS_KERNEL_ERROR_EINVAL, k)
  else
    let! m := SetPrtArea id address size (k_memory k) in
    Done (ORBIS_OK,
      mkKernel m (g_sdk_version k) (g_alias_dmem k) (g_posix_errno k)
        (<[Z.to_nat id := (address, size)]> (PrtApertures k))).

Definition sceKernelGetPrtAperture (id : Z) (k : KernelState) : outcome (Z * option (Z * Z)) :=
  if (id <? 0) || (MAX_PRT_APERTURES <=? id) then Done (ORBIS_KERNEL_ERROR_EINVAL, None)
  else
    let! aperture := of_option (PrtApertures k !! Z.to_nat id) in
    Done (ORBIS_OK, Some aperture).
