(* ===== verification/KernelSteps.v ===== *)
(** * KernelSteps: the system calls drive the manager's state machine

    Every memory system call, whatever the guest passes, is a sequence of
    steps of [MemReach.step] that never make a shared page executable
    ([MemExec.guest_step]); what holds in every reachable manager therefore
    holds after any history of calls. *)

From stdpp Require Import relations.
From S2P Require Import Prelude OrdMap MemTypes MemOps MemInv MemEffects MemReach MemExec.
From S2P Require Import KernelMemory.

Definition steps : relation MemoryManager := rtc guest_step.

Lemma steps_reachable s s' : reachable s -> steps s s' -> reachable s'.
Proof. intros H. induction 1 as [|s s1 s2 [Hs _] _ IH]; [done|]. apply IH. by eapply reach_step. Qed.

Lemma steps_noexec s s' : reachable s -> steps s s' -> noexec (vma_map s) -> noexec (vma_map s').
Proof.
  intros H Hs. revert H. induction Hs as [|s s1 s2 [Hs Hx] _ IH]; intros H HX; [done|].
  apply IH; [by eapply reach_step|]. apply Hx; [apply reachable_inv, H|exact HX].
Qed.

Lemma steps_manager s s' : steps s s' -> rtc step s s'.
Proof. induction 1 as [|s s1 s2 [Hs _] _ IH]; [done|]. by eapply rtc_l. Qed.

Lemma steps_one s s' : guest_step s s' -> steps s s'.
Proof. apply rtc_once. Qed.

Lemma steps_refl s : steps s s.
Proof. apply rtc_refl. Qed.

Lemma steps_trans s1 s2 s3 : steps s1 s2 -> steps s2 s3 -> steps s1 s3.
Proof. unfold steps. intros. by etransitivity. Qed.

#[export] Hint Resolve steps_refl steps_one : areas.

Lemma word_MINUS_1 : word MINUS_1.
Proof. unfold word, MINUS_1, W64. lia. Qed.

#[export] Hint Resolve word_MINUS_1 : words.

Lemma on_memory_inv {A} (r : outcome (A * MemoryManager)) k a k' :
  on_memory r k = Done (a, k') -> exists m, r = Done (a, m) /\ k' = with_memory m k.
Proof. unfold on_memory. intros H. run_inv. eauto. Qed.

Lemma map_into_steps addr size prot flags t name vd pa al k ret a k' :
  word addr -> word size -> word pa -> t <> VMAType.Pooled ->
  (shared_type t = true -> has prot MemoryProt.CpuExec = false) ->
  map_into addr (MapMemory addr size prot flags t name vd pa al (k_memory k)) k = Done (ret, a, k') ->
  steps (k_memory k) (k_memory k').
Proof. unfold map_into. intros ? ? ? ? ? H. run_inv. apply steps_one. eapply guest_MapMemory; [..|eassumption]; done. Qed.

Lemma MapMemory_out_word addr size prot flags t name vd pa al s ret a s' :
  reachable s -> word addr -> word size -> word pa -> t <> VMAType.Pooled ->
  MapMemory addr size prot flags t name vd pa al s = Done (ret, Some a, s') -> word a.
Proof.
  intros Hr Ha Hs Hp Ht H.
  destruct (MapMemory_inv _ _ _ _ _ _ _ _ _ _ _ _ _ (mi_wf _ (reachable_inv _ Hr)) Ha Hs Hp Ht H) as
    [(_ & ? & _)|(_ & a' & s1 & s2 & p' & [= <-] & _ & Hm)]; [done|].
  destruct (ma_range _ _ _ _ _ _ _ _ _ _ _ _ Hm) as (? & ? & ?). unfold word. lia.
Qed.

(** Walk through the guards of a call: early returns leave the state, the
    rest is inverted. *)
Ltac guards H :=
  repeat first
    [ progress run_inv
    | match type of H with
      | (if ?b then _ else _) = Done _ => destruct b eqn:?
      | match ?o with Some _ => _ | None => _ end = Done _ => destruct o eqn:?
      | on_memory _ _ = Done _ => apply on_memory_inv in H as (? & ? & ?); subst
      end ];
  try done; cbn [k_memory with_memory with_errno ErrSceToPosix]; try apply steps_refl.

Section calls.
Context (k : KernelState).

Lemma AllocateDirectMemory_steps a b n al t p r o k' :
  word n -> sceKernelAllocateDirectMemory a b n al t p k = Done (r, o, k') -> steps (k_memory k) (k_memory k').
Proof.
  unfold sceKernelAllocateDirectMemory. intros Hn H. guards H; apply on_memory_inv in E as (m & E & ->);
    apply steps_one; eapply guest_Allocate; [..|eassumption]; done.
Qed.

Lemma CheckedRelease_steps a n r k' :
  word a -> word n -> sceKernelCheckedReleaseDirectMemory a n k = Done (r, k') -> steps (k_memory k) (k_memory k').
Proof.
  unfold sceKernelCheckedReleaseDirectMemory. intros Ha Hn H. guards H. apply steps_one. eapply guest_Free; [..|eassumption]; done.
Qed.

Lemma Release_steps a n r k' :
  word a -> word n -> sceKernelReleaseDirectMemory a n k = Done (r, k') -> steps (k_memory k) (k_memory k').
Proof.
  unfold sceKernelReleaseDirectMemory. intros Ha Hn H. guards H.
  apply on_memory_inv in E as (m & E & ->). apply steps_one. eapply guest_Free; [..|eassumption]; done.
Qed.

Lemma Reserve_steps a n f al r o k' :
  match a with Some a => word a | None => True end -> word n ->
  sceKernelReserveVirtualRange a n f al k = Done (r, o, k') -> steps (k_memory k) (k_memory k').
Proof.
  unfold sceKernelReserveVirtualRange. intros Ha Hn H. guards H. eapply map_into_steps; [..|exact H]; auto with words; done.
Qed.

Lemma MapNamedDirect_steps a n p f pa al nm r o k' :
  word a -> word n -> sceKernelMapNamedDirectMemory a n p f pa al nm k = Done (r, o, k') ->
  steps (k_memory k) (k_memory k').
Proof.
  unfold sceKernelMapNamedDirectMemory. intros Ha Hn H. guards H.
  all: eapply map_into_steps; [..|exact H]; auto with words; done.
Qed.

Lemma MapNamedFlexible_steps a n p f nm r o k' :
  word a -> word n -> sceKernelMapNamedFlexibleMemory a n p f nm k = Done (r, o, k') ->
  steps (k_memory k) (k_memory k').
Proof.
  unfold sceKernelMapNamedFlexibleMemory. intros Ha Hn H. guards H. eapply map_into_steps; [..|exact H]; auto with words; done.
Qed.

Lemma MapDirect2_steps a n t p f pa al r o k' :
  reachable (k_memory k) -> word a -> word n -> sceKernelMapDirectMemory2 a n t p f pa al k = Done (r, o, k') -> steps (k_memory k) (k_memory k').
Proof.
  unfold sceKernelMapDirectMemory2. intros Hre Ha Hn H. guards H.
  all: pose proof E as Em; unfold map_into in Em; run_inv.
  all: assert (steps (k_memory k) m) as Hm by (apply steps_one; eapply guest_MapMemory; [..|eassumption]; auto with words; done).
  all: cbn in *; try done.
  apply on_memory_inv in E0 as (m2 & E0 & ->). eapply steps_trans; [exact Hm|]. apply steps_one.
  eapply guest_SetDirectMemoryType; [..|eassumption]; [|done].
  match goal with H : MapMemory _ _ _ _ _ _ _ _ _ _ = Done (_, ?o, _) |- _ => destruct o as [a2|]; [|done];
    eapply MapMemory_out_word in H; auto with words; done end.
Qed.

Lemma Mprotect_steps a n p r k' : sceKernelMprotect a n p k = Done (r, k') -> steps (k_memory k) (k_memory k').
Proof.
  unfold sceKernelMprotect, protect_range. intros H. guards H. all: apply on_memory_inv in E as (m & E & ->); cbn.
  - eapply steps_trans; [apply steps_one; by eapply guest_Protect|]. apply steps_one, guest_InvalidateMemory.
  - apply steps_one. by eapply guest_Protect.
Qed.

Lemma Mtypeprotect_steps a n t p r k' :
  sceKernelMtypeprotect a n t p k = Done (r, k') -> steps (k_memory k) (k_memory k').
Proof.
  unfold sceKernelMtypeprotect, protect_range. intros H. guards H.
  - apply on_memory_inv in E as (m & E & ->). apply on_memory_inv in E0 as (m2 & E0 & ->). cbn in *.
    eapply steps_trans; [apply steps_one; by eapply guest_Protect|].
    eapply steps_trans; [|apply steps_one, guest_InvalidateMemory].
    apply steps_one. eapply guest_SetDirectMemoryType; [..|eassumption]; auto with words.
  - apply on_memory_inv in E as (m & E & ->). apply steps_one. by eapply guest_Protect.
Qed.

Lemma Munmap_steps a n r k' : sceKernelMunmap a n k = Done (r, k') -> steps (k_memory k) (k_memory k').
Proof. unfold sceKernelMunmap. intros H. guards H. apply steps_one. by eapply guest_UnmapMemory. Qed.

Lemma SetName_steps a n nm r k' :
  sceKernelSetVirtualRangeName a n nm k = Done (r, k') -> steps (k_memory k) (k_memory k').
Proof. unfold sceKernelSetVirtualRangeName. intros H. guards H. apply steps_one. by eapply guest_NameVirtualRange. Qed.

Lemma PoolExpand_steps a b n al p r o k' :
  word n -> sceKernelMemoryPoolExpand a b n al p k = Done (r, o, k') -> steps (k_memory k) (k_memory k').
Proof.
  unfold sceKernelMemoryPoolExpand. intros Hn H. guards H. all: apply on_memory_inv in E as (m & E & ->).
  all: apply steps_one; eapply guest_PoolExpand; [..|eassumption]; done.
Qed.

Lemma PoolReserve_steps a n al f r o k' :
  word a -> word n -> sceKernelMemoryPoolReserve a n al f k = Done (r, o, k') -> steps (k_memory k) (k_memory k').
Proof.
  unfold sceKernelMemoryPoolReserve. intros Ha Hn H. guards H.
  all: apply steps_one; eapply guest_MapMemory; [..|eassumption]; auto with words; done.
Qed.

Lemma PoolCommit_steps a n t p f r k' :
  word a -> word n -> sceKernelMemoryPoolCommit a n t p f k = Done (r, k') -> steps (k_memory k) (k_memory k').
Proof.
  unfold sceKernelMemoryPoolCommit. intros Ha Hn H. guards H.
  apply steps_one. eapply guest_PoolCommit; [..|eassumption]; done.
Qed.

Lemma PoolDecommit_steps a n f r k' :
  word a -> word n -> sceKernelMemoryPoolDecommit a n f k = Done (r, k') -> steps (k_memory k) (k_memory k').
Proof.
  unfold sceKernelMemoryPoolDecommit. intros Ha Hn H. guards H.
  apply steps_one. eapply guest_PoolDecommit; [..|eassumption]; done.
Qed.

Lemma request_steps file hp a n p f fd pa s r o s' :
  mmap_request file hp (AlignUp a (KB 16)) (AlignUp n (KB 16)) p f fd pa s = Done (r, o, s') -> steps s s'.
Proof.
  unfold mmap_request. intros H. apply steps_one.
  repeat match type of H with (if ?b then _ else _) = _ => destruct b end.
  all: first [eapply guest_MapMemory; [..|eassumption]; auto with words; done
    |eapply guest_MapFile; [..|eassumption]; auto with words].
Qed.

Lemma mmap_steps file hp a n p f fd pa r k' :
  posix_mmap file hp a n p f fd pa k = Done (r, k') -> steps (k_memory k) (k_memory k').
Proof.
  unfold posix_mmap. intros H. guards H.
  all: match goal with E : mmap_request _ _ _ _ _ _ _ _ _ = Done _ |- _ => eapply request_steps; exact E end.
Qed.

Lemma SetPrt_steps id a n r k' : sceKernelSetPrtAperture id a n k = Done (r, k') -> steps (k_memory k) (k_memory k').
Proof. unfold sceKernelSetPrtAperture. intros H. guards H. apply steps_one. by eapply guest_SetPrtArea. Qed.

End calls.

(** ** Batches *)

Definition entry_words (e : OrbisKernelBatchMapEntry) : Prop := word (be_start e) /\ word (be_length e).

Lemma batch_entry_steps e flags k r a k' :
  entry_words e -> batch_entry e flags k = Done (r, a, k') -> steps (k_memory k) (k_memory k').
Proof.
  intros [Ha Hn] H. unfold batch_entry in H.
  destruct (be_operation e =? 0); [eapply MapNamedDirect_steps; [..|exact H]; done|].
  destruct (be_operation e =? 1); [run_inv; by eapply Munmap_steps|].
  destruct (be_operation e =? 2); [run_inv; by eapply Mprotect_steps|].
  destruct (be_operation e =? 3); [eapply MapNamedFlexible_steps; [..|exact H]; done|].
  destruct (be_operation e =? 4); [run_inv; by eapply Mtypeprotect_steps|done].
Qed.

Lemma batch_loop_steps es flags p k r p' es' k' :
  Forall entry_words es -> batch_loop es flags p k = Done (r, p', es', k') -> steps (k_memory k) (k_memory k').
Proof.
  intros Hes. revert p k es'. induction Hes as [|e es He _ IH]; intros p k es' H; cbn in H; [run_inv; apply steps_refl|].
  destruct (_ || _)%bool; [run_inv; apply steps_refl|].
  apply obind_Done in H as ([[r1 a1] k1] & E & H). apply batch_entry_steps in E; [|done].
  destruct (negb _); [by run_inv|]. apply obind_Done in H as ([[[r2 p2] es2] k2] & E2 & H). run_inv.
  eapply steps_trans; [exact E|by eapply IH].
Qed.

Lemma BatchMap2_steps es n flags k r p es' k' :
  match es with Some es => Forall entry_words es | None => True end ->
  sceKernelBatchMap2 es n flags k = Done (r, p, es', k') -> steps (k_memory k) (k_memory k').
Proof.
  unfold sceKernelBatchMap2. intros Hes H. destruct (n <=? 0); [run_inv; apply steps_refl|].
  destruct es as [es|]; [|run_inv; apply steps_refl]. destruct (_ <? n); [done|].
  eapply batch_loop_steps; [|exact H]. by apply Forall_take.
Qed.

Definition pool_words (e : PoolBatchEntry) : Prop :=
  match e with
  | PoolOpCommit addr len _ _ _ | PoolOpDecommit addr len _ => word addr /\ word len
  | _ => True
  end.

Lemma pool_loop_steps es p k r p' k' :
  Forall pool_words es -> pool_loop es p k = Done (r, p', k') -> steps (k_memory k) (k_memory k').
Proof.
  intros Hes. revert p k. induction Hes as [|e es He _ IH]; intros p k H; cbn in H; [run_inv; apply steps_refl|].
  apply obind_Done in H as ([r1 k1] & E & H).
  assert (steps (k_memory k) (k_memory k1)) as Hs.
  { destruct e; cbn [pool_entry] in E; cbn [pool_words] in He; [destruct He..| | | |].
    - eapply PoolCommit_steps; [..|exact E]; done.
    - eapply PoolDecommit_steps; [..|exact E]; done.
    - by eapply Mprotect_steps.
    - by eapply Mtypeprotect_steps.
    - done.
    - run_inv. apply steps_refl. }
  destruct (negb _); [by run_inv|]. eapply steps_trans; [exact Hs|by eapply IH].
Qed.

(** ** Histories of calls *)

Definition opt_word (a : option Z) : Prop := match a with Some a => word a | None => True end.

(** One system call of the guest, with any arguments of its C++ types. *)
Inductive syscall (k : KernelState) : KernelState -> Prop :=
  | call_EnableDmemAliasing : syscall k (sceKernelEnableDmemAliasing k).2
  | call_AllocateDirectMemory a b n al t p r o k' :
      word n -> sceKernelAllocateDirectMemory a b n al t p k = Done (r, o, k') -> syscall k k'
  | call_AllocateMainDirectMemory n al t p r o k' :
      word n -> sceKernelAllocateMainDirectMemory n al t p k = Done (r, o, k') -> syscall k k'
  | call_CheckedReleaseDirectMemory a n r k' :
      word a -> word n -> sceKernelCheckedReleaseDirectMemory a n k = Done (r, k') -> syscall k k'
  | call_ReleaseDirectMemory a n r k' :
      word a -> word n -> sceKernelReleaseDirectMemory a n k = Done (r, k') -> syscall k k'
  | call_ReserveVirtualRange a n f al r o k' :
      opt_word a -> word n -> sceKernelReserveVirtualRange a n f al k = Done (r, o, k') -> syscall k k'
  | call_MapNamedDirectMemory a n p f pa al nm r o k' :
      word a -> word n -> sceKernelMapNamedDirectMemory a n p f pa al nm k = Done (r, o, k') -> syscall k k'
  | call_MapDirectMemory2 a n t p f pa al r o k' :
      word a -> word n -> sceKernelMapDirectMemory2 a n t p f pa al k = Done (r, o, k') -> syscall k k'
  | call_MapNamedFlexibleMemory a n p f nm r o k' :
      word a -> word n -> sceKernelMapNamedFlexibleMemory a n p f nm k = Done (r, o, k') -> syscall k k'
  | call_Mprotect a n p r k' : posix_mprotect a n p k = Done (r, k') -> syscall k k'
  | call_Mtypeprotect a n t p r k' : sceKernelMtypeprotect a n t p k = Done (r, k') -> syscall k k'
  | call_Munmap a n r k' : posix_munmap a n k = Done (r, k') -> syscall k k'
  | call_SetVirtualRangeName a n nm r k' : sceKernelSetVirtualRangeName a n nm k = Done (r, k') -> syscall k k'
  | call_BatchMap2 es n f r p es' k' :
      match es with Some es => Forall entry_words es | None => True end ->
      sceKernelBatchMap2 es n f k = Done (r, p, es', k') -> syscall k k'
  | call_MemoryPoolExpand a b n al p r o k' :
      word n -> sceKernelMemoryPoolExpand a b n al p k = Done (r, o, k') -> syscall k k'
  | call_MemoryPoolReserve a n al f r o k' :
      word a -> word n -> sceKernelMemoryPoolReserve a n al f k = Done (r, o, k') -> syscall k k'
  | call_MemoryPoolCommit a n t p f r k' :
      word a -> word n -> sceKernelMemoryPoolCommit a n t p f k = Done (r, k') -> syscall k k'
  | call_MemoryPoolDecommit a n f r k' :
      word a -> word n -> sceKernelMemoryPoolDecommit a n f k = Done (r, k') -> syscall k k'
  | call_MemoryPoolBatch es n r o k' :
      match es with Some es => Forall pool_words es | None => True end ->
      sceKernelMemoryPoolBatch es n k = Done (r, o, k') -> syscall k k'
  | call_mmap file hp a n p f fd pa r o k' :
      sceKernelMmap file hp a n p f fd pa k = Done (r, o, k') -> syscall k k'
  | call_SetPrtAperture id a n r k' : sceKernelSetPrtAperture id a n k = Done (r, k') -> syscall k k'.

Lemma syscall_steps k k' : reachable (k_memory k) -> syscall k k' -> steps (k_memory k) (k_memory k').
Proof.
  intros Hre Hc. destruct Hc.
  - apply steps_refl.
  - by eapply AllocateDirectMemory_steps.
  - unfold sceKernelAllocateMainDirectMemory in *. by eapply AllocateDirectMemory_steps.
  - eapply CheckedRelease_steps; [..|eassumption]; done.
  - eapply Release_steps; [..|eassumption]; done.
  - eapply Reserve_steps; [..|eassumption]; done.
  - eapply MapNamedDirect_steps; [..|eassumption]; done.
  - eapply MapDirect2_steps; [..|eassumption]; done.
  - eapply MapNamedFlexible_steps; [..|eassumption]; done.
  - unfold posix_mprotect in H. run_inv. apply Mprotect_steps in E. destruct (_ <? 0); by run_inv.
  - by eapply Mtypeprotect_steps.
  - unfold posix_munmap in H. run_inv. apply Munmap_steps in E. destruct (_ <? 0); by run_inv.
  - by eapply SetName_steps.
  - by eapply BatchMap2_steps.
  - by eapply PoolExpand_steps.
  - eapply PoolReserve_steps; [..|eassumption]; done.
  - eapply PoolCommit_steps; [..|eassumption]; done.
  - eapply PoolDecommit_steps; [..|eassumption]; done.
  - unfold sceKernelMemoryPoolBatch in H0. destruct es as [es|]; [|run_inv; apply steps_refl].
    destruct (_ <? n); [done|]. run_inv. eapply pool_loop_steps; [|eassumption]. by apply Forall_take.
  - unfold sceKernelMmap in H. run_inv. apply mmap_steps in E. destruct (_ =? MINUS_1); by run_inv.
  - by eapply SetPrt_steps.
Qed.

Lemma history_steps k k' : reachable (k_memory k) -> rtc syscall k k' -> steps (k_memory k) (k_memory k').
Proof.
  intros Hre H. revert Hre. induction H as [|k1 k2 k3 Hc _ IH]; intros Hre; [apply steps_refl|].
  pose proof (syscall_steps _ _ Hre Hc) as Hs. eapply steps_trans; [exact Hs|]. apply IH. by eapply steps_reachable.
Qed.
