(* ===== verification/KernelSpec.v ===== *)
(** * KernelSpec: what the memory system calls promise

    The properties of [core/libraries/kernel/memory.cpp], from the refinement
    of [KernelSteps] and the properties' lemmas of the manager. *)

From stdpp Require Import relations.
From S2P Require Import Prelude OrdMap MemTypes PhysFacts VmaFacts MemOps MemInv MemMap MemEffects MemAttrs FlexFacts MemReach MemAlloc MemTotal MemExec KernelMemory KernelSteps MemSpec.

(** A guest that has just been loaded. *)
Definition kernel0 : KernelState := mkKernel demo 0x5000000 false 0 [(0, 0); (0, 0); (0, 0)].

(** Whatever sequence of memory system calls the guest makes,
    with any arguments, the memory manager goes through a sequence of its own
    operations; so after every history of completed calls its state is a
    reachable one and satisfies the manager's invariant. *)
Lemma syscalls_refine_manager (k k' : KernelState) (H : reachable (k_memory k)) (Hc : rtc syscall k k') :
  rtc step (k_memory k) (k_memory k') /\ reachable (k_memory k') /\ mm_inv (k_memory k').
Proof.
  pose proof (history_steps k k' H Hc) as Hs. pose proof (steps_reachable _ _ H Hs) as Hr.
  split; [apply steps_manager, Hs|]. split; [exact Hr|]. apply reachable_inv, Hr.
Qed.

Lemma with_memory_same k : with_memory (k_memory k) k = k.
Proof. by destruct k. Qed.









(** C40: whatever memory system calls a freshly loaded guest makes, with any
    arguments, no page of direct, pooled or file-backed memory is ever recorded
    (and so reported by the queries) as executable by the CPU.  The protection
    is the one kept in the VMA map: [ProtectBytes] hands the host the requested
    execute bit before it strips it from the record, as its comment says. *)
Theorem shared_memory_never_executable (k k' : KernelState) (Hb : booted (k_memory k)) (Hc : rtc syscall k k') :
  forall x g, view (vma_map (k_memory k')) x = Some g ->
    g_type g = VMAType.Direct \/ g_type g = VMAType.Pooled \/ g_type g = VMAType.File ->
    has (g_prot g) MemoryProt.CpuExec = false.
Proof.
  pose proof (reach_boot _ Hb) as Hr.
  pose proof (steps_noexec _ _ Hr (history_steps k k' Hr Hc) (booted_noexec _ Hb)) as HX.
  intros x g Hx Ht. apply (HX x g Hx). destruct Ht as [->|[->| ->]]; reflexivity.
Qed.

Definition kernel_file : KernelState :=
  match sceKernelMmap (Some demo_file) 0x1000 0 0x8000 7 0 3 0 kernel0 with Done (_, _, k) => k | Raised _ => kernel0 end.

Lemma shared_memory_never_executable_witness :
  exists g, view (vma_map (k_memory kernel_file)) 0x200000000 = Some g /\ has (g_prot g) MemoryProt.CpuExec = false.
Proof.
  assert (E : exists g, view (vma_map (k_memory kernel_file)) 0x200000000 = Some g /\ g_type g = VMAType.File)
    by (vm_compute; eexists; split; reflexivity).
  destruct E as (g & E & T). exists g. split; [exact E|].
  apply (shared_memory_never_executable kernel0 kernel_file) with 0x200000000.
  - exact demo_booted.
  - apply rtc_once. apply (call_mmap kernel0 (Some demo_file) 0x1000 0 0x8000 7 0 3 0 0 (Some 0x200000000)).
    vm_compute. reflexivity.
  - exact E.
  - right. right. exact T.
Defined.

(** ** Batches *)

Definition accepted (e : OrbisKernelBatchMapEntry) : bool := negb ((be_length e =? 0) || (4 <? be_operation e)).

(** The entries of a list, executed one after the other with success. *)
Fixpoint executed (es : list OrbisKernelBatchMapEntry) (flags : Z) (k k' : KernelState) : Prop :=
  match es with
  | [] => k' = k
  | e :: es => accepted e = true /\
      exists a k1, batch_entry e flags k = Done (ORBIS_OK, a, k1) /\ executed es flags k1 k'
  end.

Lemma batch_loop_prefix es flags p k r p' es' k' :
  batch_loop es flags p k = Done (r, p', es', k') ->
  exists done rest k1, es = done ++ rest /\ p' = p + Z.of_nat (length done) /\ executed done flags k k1 /\
    match rest with
    | [] => r = ORBIS_OK /\ k' = k1
    | e :: _ => r <> ORBIS_OK /\
        (accepted e = false /\ r = ORBIS_KERNEL_ERROR_EINVAL /\ k' = k1 \/
         accepted e = true /\ exists a, batch_entry e flags k1 = Done (r, a, k'))
    end.
Proof.
  revert p k es'. induction es as [|e es IH]; intros p k es' H; cbn [batch_loop] in H.
  { run_inv. exists [], [], k'. split_and!; [done|cbn; lia|done|done|done]. }
  destruct (_ || _)%bool eqn:Ea.
  { run_inv. exists [], (e :: es), k'. unfold accepted. rewrite Ea. split_and!; [done|cbn; lia|done|done|]. by left. }
  apply obind_Done in H as ([[r1 a1] k1] & E & H). destruct (Z.eqb_spec r1 ORBIS_OK) as [->|Hr]; cbn [negb] in H.
  - apply obind_Done in H as ([[[r2 p2] es2] k2] & E2 & H). run_inv.
    apply IH in E2 as (dn & rest & k3 & -> & -> & Hx & Hrest).
    exists (e :: dn), rest, k3. split_and!; [done|cbn [length]; lia| |done].
    split; [unfold accepted; by rewrite Ea|]. by exists a1, k1.
  - run_inv. exists [], (e :: es), k. unfold accepted. rewrite Ea. split_and!; [done|cbn; lia|done|done|]. right. eauto.
Qed.

(** [sceKernelBatchMap2] executes its entries in order and stops at the
    first one that is malformed or fails: the count it reports is the number
    of entries executed with success, their effects stay, the failing entry's
    code is returned, and later entries are not executed. *)
Theorem BatchMap_stops_at_first_failure (es : list OrbisKernelBatchMapEntry) (n flags r p : Z)
    (es' : list OrbisKernelBatchMapEntry) (k k' : KernelState)
    (Hn : 0 < n) (H : sceKernelBatchMap2 (Some es) n flags k = Done (r, p, es', k')) :
  exists k1, 0 <= p <= n /\ executed (take (Z.to_nat p) es) flags k k1 /\
    (p = n /\ r = ORBIS_OK /\ k' = k1 \/
     p < n /\ r <> ORBIS_OK /\ exists e, es !! Z.to_nat p = Some e /\
       (accepted e = false /\ r = ORBIS_KERNEL_ERROR_EINVAL /\ k' = k1 \/
        accepted e = true /\ exists a, batch_entry e flags k1 = Done (r, a, k'))).
Proof.
  unfold sceKernelBatchMap2 in H. destruct (Z.leb_spec n 0); [lia|].
  destruct (Z.ltb_spec (Z.of_nat (length es)) n) as [|Hlen]; [done|].
  apply batch_loop_prefix in H as (dn & rest & k1 & Ees & -> & Hx & Hrest).
  assert (length dn + length rest = Z.to_nat n)%nat as Hl.
  { rewrite <- length_app, <- Ees, length_take. lia. }
  assert (es = dn ++ rest ++ drop (Z.to_nat n) es) as Eall by (rewrite app_assoc, <- Ees; by rewrite take_drop).
  exists k1. rewrite Z.add_0_l, Nat2Z.id. split; [lia|]. split.
  { rewrite Eall, take_app_length. exact Hx. }
  destruct rest as [|e rest]; [left; cbn in Hl; destruct Hrest; split_and!; [lia|done|done]|right].
  destruct Hrest as [Hr He]. split; [cbn in Hl; lia|]. split; [done|]. exists e. split; [|exact He].
  rewrite Eall. by apply list_lookup_middle.
Qed.

Definition demo_batch : list OrbisKernelBatchMapEntry :=
  [mkBatchEntry 0x200000000 0 0x8000 3 0 3; mkBatchEntry 0x200000000 0 0x4000 1 0 2;
   mkBatchEntry 0x200000000 0 0 0 0 1; mkBatchEntry 0x200000000 0 0x8000 0 0 1].

Lemma BatchMap_stops_at_first_failure_witness :
  exists es' k' k1, sceKernelBatchMap2 (Some demo_batch) 4 0x10 kernel0 = Done (ORBIS_KERNEL_ERROR_EINVAL, 2, es', k') /\
    executed (take 2 demo_batch) 0x10 kernel0 k1.
Proof.
  assert (E : exists es' k', sceKernelBatchMap2 (Some demo_batch) 4 0x10 kernel0 = Done (ORBIS_KERNEL_ERROR_EINVAL, 2, es', k'))
    by (vm_compute; do 2 eexists; reflexivity).
  destruct E as (es' & k' & E).
  destruct (BatchMap_stops_at_first_failure demo_batch 4 0x10 ORBIS_KERNEL_ERROR_EINVAL 2 es' kernel0 k') as (k1 & _ & X & _).
  - reflexivity.
  - exact E.
  - exists es', k', k1. split; [exact E|exact X].
Defined.

(** ** Direct memory *)

(** [sceKernelAllocateDirectMemory] with well-formed arguments reports the
    least aligned physical address of the window where the block fits and
    marks the block allocated with the requested type; when nothing fits it
    reports [EAGAIN] and changes nothing. *)
Theorem AllocateDirectMemory_correct (k : KernelState) (ss se len al t : Z) (H : reachable (k_memory k))
    (Htot : 0 < total_direct_size (k_memory k)) (Hw : 0 <= ss < se /\ se < W63 /\ 0 < len <= se - ss)
    (Ht : t <= 10) (Hl : Is16KBAligned len = true) (Ha : 0 <= al /\ (al = 0 \/ Is16KBAligned al = true))
    (Hr : let al' := if 0 <? al then al else KB 16 in
      ss + al' + len < W64 /\ total_direct_size (k_memory k) + al' + len < W64) :
  let al' := if 0 <? al then al else KB 16 in
  let m := k_memory k in
  (sceKernelAllocateDirectMemory ss se len al t true k = Done (ORBIS_KERNEL_ERROR_EAGAIN, None, k) /\
    forall p, ~ fits (dmem_map m) ss se len al' p) \/
  exists p dm, sceKernelAllocateDirectMemory ss se len al t true k = Done (ORBIS_OK, Some p, with_memory (with_dmem dm m) k) /\
    fits (dmem_map m) ss se len al' p /\ (forall p', fits (dmem_map m) ss se len al' p' -> p <= p') /\
    forall x, view dm x = if in_range p len x then Some (t, PMT.Allocated) else view (dmem_map m) x.
Proof.
  intros al' m. destruct Hw as (Hss & Hse & Hlen), Ha as [Ha0 Ha], Hr as [Hr1 Hr2]. fold al' in Hr1, Hr2.
  assert (Hcall : sceKernelAllocateDirectMemory ss se len al t true k =
    (let! '(p, k') := on_memory (Allocate ss se len al t m) k in
     if p =? MINUS_1 then Done (ORBIS_KERNEL_ERROR_EAGAIN, None, k') else Done (ORBIS_OK, Some (s64 p), k'))).
  { unfold sceKernelAllocateDirectMemory. rewrite Hl. unfold W63 in *.
    rewrite !u64_small by word_lia.
    replace ((ss <? 0) || (se <? 0))%bool with false by (symmetry; split_cmp; reflexivity || lia).
    replace (len <=? 0) with false by (symmetry; apply Z.leb_gt; lia). cbn [negb orb].
    replace (negb (al =? 0) && negb (Is16KBAligned al))%bool with false
      by (destruct Ha as [->| ->]; [reflexivity|symmetry; apply andb_false_r]).
    replace (10 <? t) with false by (symmetry; apply Z.ltb_ge; lia).
    replace ((se <=? ss) || (se <? len) || negb (len <=? se - ss))%bool with false
      by (symmetry; split_cmp; reflexivity || lia). reflexivity. }
  pose proof (mi_wf m (reachable_inv m H)) as Hwf. rewrite Hcall.
  destruct (Allocate_ok ss se len al t m Hwf Htot (proj1 Hss) (proj1 Hlen) Ha0 Hr1 Hr2) as
    [[E Hn]|(p & dm & E & Hf & Hmin & _ & Hv)].
  - left. rewrite E. cbn. unfold m. rewrite with_memory_same. auto.
  - right. exists p, dm. rewrite E. cbn [on_memory obind].
    assert (0 <= p < W63) as Hp by (destruct Hf as (? & ? & ? & _ & _ & _ & ? & _); lia).
    destruct (Z.eqb_spec p MINUS_1) as [->|_]; [unfold MINUS_1, W63 in *; lia|].
    rewrite s64_small by assumption. auto.
Qed.

Lemma AllocateDirectMemory_correct_witness :
  exists p dm, sceKernelAllocateDirectMemory 0 0x1000000 0x10000 0 3 true kernel0 =
    Done (ORBIS_OK, Some p, with_memory (with_dmem dm demo) kernel0) /\ fits (dmem_map demo) 0 0x1000000 0x10000 (KB 16) p.
Proof.
  destruct (AllocateDirectMemory_correct kernel0 0 0x1000000 0x10000 0 3) as [[E _]|(p & dm & E & F & _)].
  - exact demo_reachable.
  - vm_compute. reflexivity.
  - repeat split; vm_compute; congruence.
  - lia.
  - reflexivity.
  - split; [lia|left; reflexivity].
  - split; vm_compute; reflexivity.
  - vm_compute in E. discriminate E.
  - exists p, dm. split; [exact E|exact F].
Defined.

(** ** Protection *)

Lemma protect_range_covers addr size :
  0 <= addr -> 0 < size -> addr + size + KB 32 < W64 ->
  let '(a, n) := protect_range addr size in
  0 <= a <= addr /\ addr < a + KB 16 /\ addr + size <= a + n /\ a + n < addr + size + KB 16 /\ a mod KB 16 = 0.
Proof.
  intros Ha Hs Hlt. unfold protect_range, AlignDown. unfold KB in *.
  pose proof (Z.mod_pos_bound addr (1024 * 16) ltac:(lia)) as Hm. pose proof (Z.mod_le addr (1024 * 16) Ha ltac:(lia)).
  rewrite (wsub_small addr) by word_lia. rewrite wadd_small, wsub_small by word_lia.
  set (d := addr mod (1024 * 16)) in *.
  destruct (AlignUp_least (1024 * 16) (size + addr - (addr - d))) as (Hu & _ & _); [lia|lia|word_lia|].
  pose proof (AlignUp_bound (1024 * 16) (size + addr - (addr - d)) ltac:(lia) ltac:(lia) ltac:(word_lia)).
  split_and!; try lia. unfold d. rewrite Zminus_mod_idemp_r, Z.sub_diag. reflexivity.
Qed.

(** [sceKernelMprotect] on a range inside the address space changes whole
    16 KiB pages: the smallest aligned range around the request, with the
    effect of [Protect] there and none elsewhere.  It always succeeds where
    the areas of the range stay apart. *)
Theorem Mprotect_correct (k : KernelState) (addr size prot : Z) (H : reachable (k_memory k))
    (Hr : 0 <= addr /\ 0 < size /\ size + KB 32 < W63 /\ addr + size + KB 32 < W64)
    (Hc : covered (vma_map (k_memory k)) (protect_range addr size).1 (protect_range addr size).2)
    (Hap : stays_apart (u32 prot) (vma_map (k_memory k)) (protect_range addr size).1 (protect_range addr size).2) :
  exists k', sceKernelMprotect addr size prot k = Done (ORBIS_OK, k') /\
    (let '(a, n) := protect_range addr size in
     a <= addr /\ addr < a + KB 16 /\ addr + size <= a + n /\ a + n < addr + size + KB 16 /\ a mod KB 16 = 0 /\
     updated (vma_map (k_memory k)) a n (page_protect (u32 prot)) (vma_map (k_memory k'))).
Proof.
  destruct Hr as (Ha & Hs & Hs2 & Hlt). pose proof (protect_range_covers addr size Ha Hs Hlt) as HR.
  unfold sceKernelMprotect. destruct (protect_range addr size) as [a n]. cbn [fst snd] in Hc, Hap.
  destruct HR as (? & ? & ? & ? & ?).
  assert (0 < n < W63 /\ a + n < W64) as [Hn Hn'] by (unfold KB in *; lia).
  destruct (Protect_ok a n (u32 prot) (k_memory k) (mi_wf _ (reachable_inv _ H)) ltac:(lia) Hn Hn' Hc) as [(s' & E & _ & _ & Hu)|[_ []]]; [|done].
  destruct (Z.eqb_spec n 0); [unfold KB in *; lia|]. rewrite E. cbn [on_memory obind]. rewrite Z.eqb_refl.
  eexists. split; [reflexivity|]. split_and!; try lia. exact Hu.
Qed.

(** A guest with 32 KiB of flexible memory mapped. *)
Definition kernel_flex : KernelState := with_memory demo_flex kernel0.

(** A range in which no area begins. *)
Lemma stays_apart_inside prot m a n : Forall (fun e => ~ (a <= e.1 < a + n)) m -> stays_apart prot m a n.
Proof.
  intros HF x g g' Hx Hs. exfalso. induction HF as [|[k v] m Hk _ IH]; [by apply starts_nil in Hs|].
  apply starts_cons in Hs as [->|Hs]; [cbn in Hk; lia|auto].
Qed.

Lemma Mprotect_correct_witness :
  exists k', sceKernelMprotect 0x200004010 0x100 1 kernel_flex = Done (ORBIS_OK, k') /\
    updated (vma_map (k_memory kernel_flex)) 0x200004000 0x4000 (page_protect (u32 1)) (vma_map (k_memory k')).
Proof.
  destruct (Mprotect_correct kernel_flex 0x200004010 0x100 1) as (k' & E & _ & _ & _ & _ & _ & U).
  - exact demo_flex_reachable.
  - repeat split; vm_compute; congruence.
  - by_entry 1%nat.
  - apply stays_apart_inside. apply (bool_decide_unpack _). vm_compute. exact I.
  - exists k'. split; [exact E|exact U].
Defined.

(** ** mmap and errno *)

Lemma s32_mod a b : s32 (s32 a + b) = s32 (a + b).
Proof.
  unfold s32 at 1 3. f_equal.
  assert (E : (s32 a + b) mod W32 = (a + b) mod W32).
  { unfold s32. destruct (a mod W32 <? W32 / 2).
    - apply Zplus_mod_idemp_l.
    - replace (a mod W32 - W32 + b) with (a mod W32 + b + (-1) * W32) by lia.
      rewrite Z.mod_add by discriminate. apply Zplus_mod_idemp_l. }
  rewrite E. reflexivity.
Qed.

Lemma errno_recovered k e : - 2147483648 <= e < 2147483648 -> ErrnoToSceKernelError (g_posix_errno (ErrSceToPosix e k)) = e.
Proof.
  intros He. unfold ErrnoToSceKernelError, ErrSceToPosix. cbn [g_posix_errno with_errno].
  rewrite s32_mod. replace (e - _ + _) with e by lia. apply s32_small, He.
Qed.


(** [sceKernelMmap] reports the manager's verdict: on failure the very
    error code the mapping operation returned, although it travels through
    the thread's [errno]; on success the address the operation chose. *)
Theorem Mmap_reports_verdict (file : option FileInfo) (hp addr len prot flags fd pa e : Z) (out : option Z)
    (m : MemoryManager) (k : KernelState) (Hl : 0 < len)
    (Hfix : has (u32 flags) MemoryMapFlags.Fixed = false \/ addr = AlignUp addr (KB 16))
    (He : - 2147483648 <= e < 2147483648)
    (H : mmap_request file hp (AlignUp addr (KB 16)) (AlignUp len (KB 16)) (u32 prot) (u32 flags) fd pa (k_memory k) =
      Done (e, out, m)) :
  (e <> ORBIS_OK -> exists k', sceKernelMmap file hp addr len prot flags fd pa k = Done (e, None, k') /\ k_memory k' = m) /\
  (e = ORBIS_OK -> forall a, out = Some a -> a <> MINUS_1 ->
    sceKernelMmap file hp addr len prot flags fd pa k = Done (ORBIS_OK, Some a, with_memory m k)).
Proof.
  unfold sceKernelMmap, posix_mmap. destruct (Z.eqb_spec len 0); [lia|].
  replace (has (u32 flags) MemoryMapFlags.Fixed && negb (addr =? AlignUp addr (KB 16)))%bool with false
    by (symmetry; destruct Hfix as [->|<-]; [reflexivity|rewrite Z.eqb_refl; apply andb_false_r]).
  rewrite H. cbn [obind]. split; intros Ee.
  - destruct (Z.eqb_spec e ORBIS_OK); [contradiction|]. cbn [negb obind]. rewrite Z.eqb_refl.
    rewrite errno_recovered by assumption. eexists. split; reflexivity.
  - subst e. intros a -> Hn. cbn [negb Z.eqb ORBIS_OK of_option obind]. destruct (Z.eqb_spec a MINUS_1); [contradiction|]. reflexivity.
Qed.

Lemma Mmap_reports_verdict_witness :
  exists k', sceKernelMmap None 0x1000 0 0x4000 3 0 5 0 kernel0 = Done (ORBIS_KERNEL_ERROR_EBADF, None, k') /\
    k_memory k' = demo.
Proof.
  apply (Mmap_reports_verdict None 0x1000 0 0x4000 3 0 5 0 ORBIS_KERNEL_ERROR_EBADF None demo kernel0).
  - lia.
  - left. reflexivity.
  - split; vm_compute; congruence.
  - vm_compute. reflexivity.
  - vm_compute. congruence.
Defined.

(** ** PRT apertures *)

(** a successful [sceKernelSetPrtAperture] is read back by
    [sceKernelGetPrtAperture], leaves the other apertures as they were, and
    only happens for an id below 3 and a page-aligned range that starts in the
    PRT area. *)
Theorem PrtAperture_set_get (k k' : KernelState) (id address size : Z) (Hlen : length (PrtApertures k) = 3%nat)
    (H : sceKernelSetPrtAperture id address size k = Done (ORBIS_OK, k')) :
  0 <= id < 3 /\ PRT_AREA_START_ADDR <= address /\ address mod 4096 = 0 /\
  sceKernelGetPrtAperture id k' = Done (ORBIS_OK, Some (address, size)) /\
  (forall id', id' <> id -> sceKernelGetPrtAperture id' k' = sceKernelGetPrtAperture id' k).
Proof.
  unfold sceKernelSetPrtAperture in H.
  destruct ((id <? 0) || _)%bool eqn:E1; [discriminate H|]. apply orb_false_iff in E1 as [E1 E2].
  destruct ((address <? _) || _)%bool eqn:E3; [discriminate H|]. apply orb_false_iff in E3 as [E3 E4].
  destruct (negb _) eqn:E5; [discriminate H|]. run_inv. bool_prop. unfold MAX_PRT_APERTURES in E2.
  split_and!; try lia.
  - unfold sceKernelGetPrtAperture. rewrite (proj2 (Z.ltb_ge _ _)), (proj2 (Z.leb_gt _ _)) by (unfold MAX_PRT_APERTURES; lia).
    cbn [orb PrtApertures]. rewrite list_lookup_insert_eq by lia. reflexivity.
  - intros id' Hne. unfold sceKernelGetPrtAperture. destruct ((id' <? 0) || _)%bool eqn:Ei; [reflexivity|].
    apply orb_false_iff in Ei as [Ei _]. bool_prop. cbn [PrtApertures].
    rewrite list_lookup_insert_ne by lia. reflexivity.
Qed.

Lemma PrtAperture_set_get_witness :
  exists k', sceKernelSetPrtAperture 1 0x1000000000 0x10000 kernel0 = Done (ORBIS_OK, k') /\
    sceKernelGetPrtAperture 1 k' = Done (ORBIS_OK, Some (0x1000000000, 0x10000)).
Proof.
  assert (E : exists k', sceKernelSetPrtAperture 1 0x1000000000 0x10000 kernel0 = Done (ORBIS_OK, k'))
    by (vm_compute; eexists; reflexivity).
  destruct E as [k' E]. exists k'. split; [exact E|].
  apply (PrtAperture_set_get kernel0 k' 1 0x1000000000 0x10000); [reflexivity|exact E].
Defined.

(** ** Concrete runs on which the code does something unexpected

    Each example evaluates the modelled functions on a concrete history. *)

(** A history of calls, each result ignored. *)
Fixpoint run (calls : list (KernelState -> outcome (Z * KernelState))) (k : KernelState) : outcome (Z * KernelState) :=
  match calls with
  | [] => Done (ORBIS_OK, k)
  | [c] => c k
  | c :: rest => let! '(_, k) := c k in run rest k
  end.

Definition ignoring {A} (r : outcome (Z * A * KernelState)) : outcome (Z * KernelState) :=
  let! '(ret, _, k) := r in Done (ret, k).

(** Two mappings of the same direct memory, which the guest may create after
    [sceKernelEnableDmemAliasing]: unmapping part of one and then all of the
    other makes [CarvePhysArea] fail an assertion, because the physical area is
    no longer in one piece. *)
Example aliased_unmap_aborts :
  run [fun k => Done (sceKernelEnableDmemAliasing k);
       fun k => ignoring (sceKernelAllocateDirectMemory 0 0x1000000 0x10000 0 0 true k);
       fun k => ignoring (sceKernelMapDirectMemory 0x200000000 0x10000 3 0 0 0 k);
       fun k => ignoring (sceKernelMapDirectMemory 0x300000000 0x10000 3 0 0 0 k);
       fun k => sceKernelMunmap 0x200000000 0x4000 k;
       fun k => sceKernelMunmap 0x300000000 0x10000 k] kernel0 = Raised AssertFailed.
Proof. vm_compute. reflexivity. Qed.

(** The two halves of a mapping made read-only one after the other: the second
    half merges with the first, and [ProtectBytes] goes on to read the type of
    the entry that the merge has erased. *)
Example protect_reads_erased_entry :
  run [fun k => ignoring (sceKernelMapFlexibleMemory 0 0x8000 3 0 k);
       fun k => sceKernelMprotect 0x200000000 0x4000 1 k;
       fun k => sceKernelMprotect 0x200004000 0x4000 1 k] kernel0 = Raised Undefined.
Proof. vm_compute. reflexivity. Qed.

(** An unchecked release skips free areas without counting them: releasing 32
    KiB of which the second half is free also releases the 16 KiB block that
    follows the range. *)
Example release_frees_past_range :
  (let! '(_, k) :=
     run [fun k => ignoring (sceKernelAllocateDirectMemory 0 0x1000000 0x4000 0 0 true k);
          fun k => ignoring (sceKernelAllocateDirectMemory 0x8000 0x1000000 0x4000 0 0 true k)] kernel0 in
   let before := view (dmem_map (k_memory k)) 0x8000 in
   let! '(ret, k) := sceKernelReleaseDirectMemory 0 0x8000 k in
   Done (ret, before, view (dmem_map (k_memory k)) 0x8000)) =
  Done (ORBIS_OK, Some (0, PMT.Allocated), Some (0, PMT.Free)).
Proof. vm_compute. reflexivity. Qed.

(** An address in a gap between two usable regions passes [IsValidMapping]:
    the size left in the area below wraps around. *)
Example gap_passes_validation :
  let m := [(0x1000, fresh_vma 0x1000 0x1000); (0x8000, fresh_vma 0x8000 0x1000)] in
  view m 0x4000 = None /\ IsValidMapping m 0x4000 0x1000 = Done true.
Proof. vm_compute. split; reflexivity. Qed.

(** A request for read access gives the host mapping write access too:
    [prot & CpuReadWrite] is non-zero for a read-only request. *)
Example read_only_is_host_writable :
  has (host_permissions MemoryProt.CpuRead) MemoryPermission.Write = true.
Proof. vm_compute. reflexivity. Qed.

(** [PoolCommit] refuses to commit exactly what is left in the pool. *)
Example last_block_cannot_be_committed :
  (let! '(r, _) := PoolCommit 0x200000000 0x100000 3 0 demo_pool in Done (pool_budget demo_pool, r)) =
  Done (0x100000, ORBIS_KERNEL_ERROR_ENOMEM).
Proof. vm_compute. reflexivity. Qed.

(** An unaligned search start: the address is rounded up, the size is not
    reduced with it, and the block reported lies past the end of the window. *)
Example available_block_overruns :
  (let! '(p, n) := DirectQueryAvailable 0x1FFFFFF 0x2000000 0x4000 demo in Done (p, n)) = Done (0x2000000, 1).
Proof. vm_compute. reflexivity. Qed.
