(* ===== verification/Rtc.v ===== *)
(** * Rtc: the guest's real-time clock library

    [core/libraries/rtc/rtc.cpp]: conversions between ticks (microseconds
    since 0001-01-01), broken-down dates, [time_t], DOS and Win32 times and
    the RFC 2822/3339 texts.  Fields keep the widths of [OrbisRtcDateTime];
    what the library asks of the kernel (clock, time zone, SDK version) is
    the record [RtcEnv]. *)

From Stdlib Require Import Ascii.
From S2P Require Import Prelude.

Definition UNIX_EPOCH_TICKS : Z := 0xdcbffeff2bc000.
Definition WIN32_FILETIME_EPOCH_TICKS : Z := 0xb36168b6a58000.
Definition DAY : Z := 86400000000.

Definition ORBIS_RTC_ERROR_DATETIME_UNINITIALIZED : Z := s32 0x7FFEF9FE.
Definition ORBIS_RTC_ERROR_NOT_INITIALIZED : Z := s32 0x80B50001.
Definition ORBIS_RTC_ERROR_INVALID_POINTER : Z := s32 0x80B50002.
Definition ORBIS_RTC_ERROR_INVALID_VALUE : Z := s32 0x80B50003.
Definition ORBIS_RTC_ERROR_INVALID_YEAR : Z := s32 0x80B50008.
Definition ORBIS_RTC_ERROR_INVALID_MONTH : Z := s32 0x80B50009.
Definition ORBIS_RTC_ERROR_INVALID_DAY : Z := s32 0x80B5000A.
Definition ORBIS_RTC_ERROR_INVALID_HOUR : Z := s32 0x80B5000B.
Definition ORBIS_RTC_ERROR_INVALID_MINUTE : Z := s32 0x80B5000C.
Definition ORBIS_RTC_ERROR_INVALID_SECOND : Z := s32 0x80B5000D.
Definition ORBIS_RTC_ERROR_INVALID_MICROSECOND : Z := s32 0x80B5000E.

Record OrbisRtcDateTime := mkDate {
  year : Z;
  month : Z;
  day : Z;
  hour : Z;
  minute : Z;
  second : Z;
  microsecond : Z;
}.

(** ** std::chrono *)

(** [std::chrono::year] holds a [short]. *)
Definition is_leap (y : Z) : bool := (y mod 4 =? 0) && (negb (y mod 100 =? 0) || (y mod 400 =? 0)).

(** [year_month_day_last{year(y) / month(m) / last}.day()] *)
Definition last_day (y m : Z) : Z :=
  if m =? 2 then if is_leap (s16 y) then 29 else 28
  else if (m =? 4) || (m =? 6) || (m =? 9) || (m =? 11) then 30 else 31.

(** Days of the year before month [m]. *)
Definition days_before (y m : Z) : Z :=
  let leap := if is_leap y then 1 else 0 in
  match m with
  | 1 => 0 | 2 => 31 | 3 => 59 + leap | 4 => 90 + leap | 5 => 120 + leap | 6 => 151 + leap
  | 7 => 181 + leap | 8 => 212 + leap | 9 => 243 + leap | 10 => 273 + leap | 11 => 304 + leap
  | _ => 334 + leap
  end.

(** The day number of a proleptic Gregorian date, 0001-01-01 being day 0;
    [sys_days] counts from 1970-01-01, which is day 719162. *)
Definition day_number (y m d : Z) : Z :=
  let p := y - 1 in
  365 * p + p / 4 - p / 100 + p / 400 + days_before y m + (d - 1).

Definition sys_days (y m d : Z) : Z := day_number (s16 y) m d - 719162.

(** [weekday{days}.c_encoding()]: 1970-01-01 was a Thursday. *)
Definition weekday (days : Z) : Z := (days + 4) mod 7.

(** ** Validation *)

Definition sceRtcCheckValid (pTime : option OrbisRtcDateTime) : Z :=
  match pTime with
  | None => ORBIS_RTC_ERROR_INVALID_POINTER
  | Some t =>
      if (year t =? 0) || (9999 <? year t) then ORBIS_RTC_ERROR_INVALID_YEAR
      else if (month t =? 0) || (12 <? month t) then ORBIS_RTC_ERROR_INVALID_MONTH
      else if day t =? 0 then ORBIS_RTC_ERROR_INVALID_DAY
      else
        let lastDay := last_day (year t) (month t) in
        if lastDay <? day t then ORBIS_RTC_ERROR_INVALID_DAY
        else if 24 <=? hour t then ORBIS_RTC_ERROR_INVALID_HOUR
        else if 60 <=? minute t then ORBIS_RTC_ERROR_INVALID_MINUTE
        else if 60 <=? second t then ORBIS_RTC_ERROR_INVALID_SECOND
        else if 1000000 <=? microsecond t then ORBIS_RTC_ERROR_INVALID_MICROSECOND
        else ORBIS_OK
  end.

Definition sceRtcCompareTick (pTick1 pTick2 : option Z) : Z :=
  match pTick1, pTick2 with
  | Some t1, Some t2 => if t1 <=? t2 then 1 else 0
  | _, _ => ORBIS_RTC_ERROR_INVALID_POINTER
  end.

Definition sceRtcGetDaysInMonth (y m : Z) : Z :=
  if y <=? 0 then ORBIS_RTC_ERROR_INVALID_YEAR
  else if (m <=? 0) || (12 <? m) then ORBIS_RTC_ERROR_INVALID_MONTH
  else last_day y m.

Definition sceRtcIsLeapYear (yearInt : Z) : Z :=
  if yearInt <? 1 then ORBIS_RTC_ERROR_INVALID_YEAR
  else if last_day yearInt 2 =? 29 then 1 else 0.

(** What the library asks of the kernel: the results of
    [sceKernelClockGettime], [sceKernelGettimezone], the SDK query and the two
    calls that set the clock, with what they leave in their out parameters. *)
Record RtcEnv := mkEnv {
  clock_ret : Z;
  tv_sec : Z;
  tv_nsec : Z;
  tz_ret : Z;
  tz_minuteswest : Z;
  tz_dsttime : Z;
  sdk_ret : Z;
  compiled_sdk : Z;
  settime : Z;
  env_errno : Z;
}.

Definition env_sdk_version (env : RtcEnv) : Z :=
  if negb (sdk_ret env =? ORBIS_OK) then 0 else compiled_sdk env.

Definition sceRtcGetDayOfWeek (env : RtcEnv) (y m d : Z) : Z :=
  if if env_sdk_version env <? 0x3000000 then y <? 1 else (9999 <? y) || (y <? 1)
  then ORBIS_RTC_ERROR_INVALID_YEAR
  else if (12 <? m) || (m <=? 0) then ORBIS_RTC_ERROR_INVALID_MONTH
  else
    let daysInMonth := sceRtcGetDaysInMonth y m in
    if (d <=? 0) || (daysInMonth <? d) then ORBIS_RTC_ERROR_INVALID_DAY
    else weekday (sys_days y m d).

(** ** Ticks *)

(** The date [sceRtcGetTick] turns [*pTime] into: years start in March. *)
Definition march_based (t : OrbisRtcDateTime) : OrbisRtcDateTime :=
  if 2 <? month t
  then mkDate (year t) (u16 (month t - 3)) (day t) (hour t) (minute t) (second t) (microsecond t)
  else mkDate (u16 (year t - 1)) (u16 (month t + 9)) (day t) (hour t) (minute t) (second t) (microsecond t).

(** Signed [int] and [s64] arithmetic: an overflow is undefined. *)
Definition int32 (x : Z) : outcome Z :=
  if (- (W32 / 2) <=? x) && (x <? W32 / 2) then Done x else Raised Undefined.
Definition int64 (x : Z) : outcome Z :=
  if (- (W64 / 2) <=? x) && (x <? W64 / 2) then Done x else Raised Undefined.

(** The tick of a date already in that form.  [hour * 3600000000] is computed
    in [long]; [minute * 60000000] and [second * 1000000] are computed in [int]. *)
Definition tick_of_march (t : OrbisRtcDateTime) : outcome Z :=
  let c := year t / 100 in
  let ya := year t - 100 * c in
  let days :=
    u64 (Z.shiftr (146097 * c) 2 + Z.shiftr (1461 * ya) 2 + (153 * month t + 2) / 5 + day t) in
  let days := wmul (wsub days 307) DAY in
  let! m := int32 (minute t * 60000000) in
  let! s := int32 (second t * 1000000) in
  let msec := u64 (hour t * 3600000000 + m + s + microsecond t) in
  Done (wadd days msec).

(** Result, [*pTime] afterwards, [*pTick] if it is stored. *)
Definition sceRtcGetTick (pTime : option OrbisRtcDateTime) (pTick : bool)
    : outcome (Z * option OrbisRtcDateTime * option Z) :=
  match pTime with
  | Some t =>
      if negb pTick then Done (ORBIS_RTC_ERROR_INVALID_POINTER, pTime, None)
      else
        let isTimeValid := sceRtcCheckValid pTime in
        if negb (isTimeValid =? 0) then Done (isTimeValid, pTime, None)
        else
          let t := march_based t in
          let! tick := tick_of_march t in
          Done (ORBIS_OK, Some t, Some tick)
  | None => Done (ORBIS_RTC_ERROR_INVALID_POINTER, None, None)
  end.

(** The body of [sceRtcSetTick]; [ly], [ld], [lm], [j] are [u32]. *)
Definition date_of_tick (tick : Z) : OrbisRtcDateTime :=
  let days := tick / DAY in
  let msec := tick mod DAY in
  let days := wadd days 307 in
  let j := u32 (Z.shiftl days 2 - 1) in
  let ly := j / 146097 in
  let j := u32 (j - 146097 * ly) in
  let ld := Z.shiftr j 2 in
  let j := u32 (Z.shiftl ld 2 + 3) / 1461 in
  let ld := Z.shiftr (u32 (Z.shiftl ld 2 + 7 - 1461 * j)) 2 in
  let lm := u32 (5 * ld - 3) / 153 in
  let ld := u32 (5 * ld + 2 - 153 * lm) / 5 in
  let ly := u32 (100 * ly + j) in
  let '(lm, ly) := if lm <? 10 then (lm + 3, ly) else (lm - 9, u32 (ly + 1)) in
  let h := msec / 3600000000 in
  let msec := msec mod 3600000000 in
  let mi := msec / 60000000 in
  let msec := msec mod 60000000 in
  let s := msec / 1000000 in
  let msec := msec mod 1000000 in
  mkDate (u16 ly) (u16 lm) (u16 ld) (u16 h) (u16 mi) (u16 s) (u32 msec).

Definition sceRtcSetTick (pTime : bool) (pTick : option Z) : Z * option OrbisRtcDateTime :=
  match pTick with
  | Some tick => if negb pTime then (ORBIS_RTC_ERROR_INVALID_POINTER, None) else (ORBIS_OK, Some (date_of_tick tick))
  | None => (ORBIS_RTC_ERROR_INVALID_POINTER, None)
  end.

Definition sceRtcGetTickResolution : Z := 1000000.

(** [lAdd * unit] in [s64] (its overflow is undefined), then added to the
    unsigned tick. *)
Definition tick_add (unit : Z) (pTick1 : bool) (pTick2 : option Z) (lAdd : Z) : outcome (Z * option Z) :=
  match pTick2 with
  | Some t2 =>
      if negb pTick1 then Done (ORBIS_RTC_ERROR_INVALID_POINTER, None)
      else
        let! x := int64 (lAdd * unit) in
        Done (ORBIS_OK, Some (wadd x t2))
  | None => Done (ORBIS_RTC_ERROR_INVALID_POINTER, None)
  end.

Definition sceRtcTickAddTicks := tick_add 1.
Definition sceRtcTickAddMicroseconds := tick_add 1.
Definition sceRtcTickAddSeconds := tick_add 1000000.
Definition sceRtcTickAddMinutes := tick_add 60000000.
Definition sceRtcTickAddHours := tick_add 3600000000.
Definition sceRtcTickAddDays := tick_add 86400000000.
Definition sceRtcTickAddWeeks := tick_add 604800000000.

(** The new value of [pTick1]; the date is read from [pTick1]. *)
Definition sceRtcTickAddMonths (pTick1 pTick2 : option Z) (lAdd : Z) : outcome (Z * option Z) :=
  match pTick1, pTick2 with
  | Some tick1, Some tick2 =>
      if lAdd =? 0 then Done (ORBIS_OK, Some tick2)
      else
        let time := date_of_tick tick1 in
        let s := if 0 <=? lAdd then 1 else -1 in
        let y := u16 (year time + Z.quot lAdd 12) in
        let tempMonth := month time + Z.rem lAdd 12 - 1 in
        let '(tempMonth, y) :=
          if (11 <? tempMonth) || (tempMonth <? 0) then (tempMonth - s * 12, u16 (y + s)) else (tempMonth, y) in
        let m := u16 (tempMonth + 1) in
        let lastDay := last_day y m in
        let d := if lastDay <? day time then lastDay else day time in
        let time := mkDate y m d (hour time) (minute time) (second time) (microsecond time) in
        let timeIsValid := sceRtcCheckValid (Some time) in
        if timeIsValid =? ORBIS_OK
        then let! '(_, _, tick) := sceRtcGetTick (Some time) true in Done (ORBIS_OK, tick)
        else Done (timeIsValid, Some tick1)
  | _, _ => Done (ORBIS_RTC_ERROR_INVALID_POINTER, pTick1)
  end.

Definition sceRtcTickAddYears (pTick1 pTick2 : option Z) (lAdd : Z) : outcome (Z * option Z) :=
  match pTick1, pTick2 with
  | Some tick1, Some tick2 =>
      if lAdd =? 0 then Done (ORBIS_OK, Some tick2)
      else
        let time := date_of_tick tick1 in
        let time := mkDate (u16 (year time + lAdd)) (month time) (day time) (hour time) (minute time) (second time)
                      (microsecond time) in
        let timeIsValid := sceRtcCheckValid (Some time) in
        if timeIsValid =? ORBIS_OK
        then let! '(_, _, tick) := sceRtcGetTick (Some time) true in Done (ORBIS_OK, tick)
        else Done (timeIsValid, Some tick1)
  | _, _ => Done (ORBIS_RTC_ERROR_INVALID_POINTER, pTick1)
  end.

(** ** time_t, Win32 and DOS times *)

(** Result, [*pTime] afterwards (as [sceRtcGetTick] leaves it), [*llTime]. *)
Definition sceRtcGetTime_t (pTime : option OrbisRtcDateTime) (llTime : bool)
    : outcome (Z * option OrbisRtcDateTime * option Z) :=
  match pTime with
  | Some t =>
      if negb llTime then Done (ORBIS_RTC_ERROR_INVALID_POINTER, pTime, None)
      else
        let isValid := sceRtcCheckValid pTime in
        if negb (isValid =? ORBIS_OK) then Done (isValid, pTime, None)
        else
          let! '(_, pTime, timeTick) := sceRtcGetTick pTime true in
          let! tick := of_option timeTick in
          Done (ORBIS_OK, pTime,
            Some (if tick <? UNIX_EPOCH_TICKS then 0 else wsub tick UNIX_EPOCH_TICKS / 1000000))
  | None => Done (ORBIS_RTC_ERROR_INVALID_POINTER, None, None)
  end.

Definition sceRtcSetTime_t (env : RtcEnv) (pTime : bool) (llTime : Z)
    : outcome (Z * option OrbisRtcDateTime) :=
  if negb pTime then Done (ORBIS_RTC_ERROR_INVALID_POINTER, None)
  else if env_sdk_version env <? 0x3000000
  then Done (ORBIS_OK, Some (date_of_tick (wadd (Z.land llTime 0xffffffff * 1000000) UNIX_EPOCH_TICKS)))
  else if llTime <? 0 then Done (ORBIS_RTC_ERROR_INVALID_VALUE, None)
  else
    let! x := int64 (llTime * 1000000) in
    Done (ORBIS_OK, Some (date_of_tick (wadd x UNIX_EPOCH_TICKS))).

Definition sceRtcGetWin32FileTime (pTime : option OrbisRtcDateTime) (ulWin32Time : bool)
    : outcome (Z * option OrbisRtcDateTime * option Z) :=
  match pTime with
  | Some t =>
      if negb ulWin32Time then Done (ORBIS_RTC_ERROR_INVALID_POINTER, pTime, None)
      else
        let isValid := sceRtcCheckValid pTime in
        if negb (isValid =? ORBIS_OK) then Done (isValid, pTime, None)
        else
          let! '(_, pTime, timeTick) := sceRtcGetTick pTime true in
          let! tick := of_option timeTick in
          Done (ORBIS_OK, pTime,
            Some (if tick <? WIN32_FILETIME_EPOCH_TICKS then 0 else wmul (wsub tick WIN32_FILETIME_EPOCH_TICKS) 10))
  | None => Done (ORBIS_RTC_ERROR_INVALID_POINTER, None, None)
  end.

(** [ulWin32Time] is an [int64_t]; the division truncates towards zero. *)
Definition sceRtcSetWin32FileTime (pTime : bool) (ulWin32Time : Z) : Z * option OrbisRtcDateTime :=
  if negb pTime then (ORBIS_RTC_ERROR_INVALID_POINTER, None)
  else (ORBIS_OK, Some (date_of_tick (u64 (Z.quot ulWin32Time 10 + WIN32_FILETIME_EPOCH_TICKS)))).

(** [dosTime] is the value [*dosTime] has before: the fields are or-ed in. *)
Definition sceRtcGetDosTime (pTime : option OrbisRtcDateTime) (dosTime : option Z) : Z * option Z :=
  match pTime, dosTime with
  | Some t, Some dos =>
      let isValid := sceRtcCheckValid pTime in
      if negb (isValid =? ORBIS_OK) then (isValid, dosTime)
      else
        let dos := Z.lor dos (Z.land (second t / 2) 0x1F) in
        let dos := Z.lor dos (Z.shiftl (Z.land (minute t) 0x3F) 5) in
        let dos := Z.lor dos (Z.shiftl (Z.land (hour t) 0x1F) 11) in
        let dos := Z.lor dos (Z.shiftl (Z.land (day t) 0x1F) 16) in
        let dos := Z.lor dos (Z.shiftl (Z.land (month t) 0x0F) 21) in
        let dos := Z.lor dos (u32 (Z.shiftl (Z.land (year t - 1980) 0x7F) 25)) in
        (ORBIS_OK, Some dos)
  | _, _ => (ORBIS_RTC_ERROR_INVALID_POINTER, dosTime)
  end.

(** The high half goes through an [int16_t]. *)
Definition sceRtcSetDosTime (pTime : bool) (dosTime : Z) : Z * option OrbisRtcDateTime :=
  if negb pTime then (ORBIS_RTC_ERROR_INVALID_POINTER, None)
  else
    let days := s16 (Z.shiftr dosTime 16) in
    (ORBIS_OK, Some (mkDate (u16 (Z.shiftr days 9 + 1980)) (Z.land (Z.shiftr days 5) 0x0F) (Z.land days 0x1F)
      (Z.shiftr (Z.land dosTime 0xF800) 11) (Z.land (Z.shiftr dosTime 5) 0x3F)
      (Z.land (u32 (Z.shiftl dosTime 1)) 0x3E) 0)).

(** ** The clock *)

(** [tv_nsec / 1000 + tv_sec * 1000000 + UNIX_EPOCH_TICKS] on [int64_t],
    stored as [u64]. *)
Definition current_tick (env : RtcEnv) : outcome Z :=
  let! us := int64 (tv_sec env * 1000000) in
  let! us := int64 (Z.quot (tv_nsec env) 1000 + us) in
  let! tick := int64 (us + UNIX_EPOCH_TICKS) in
  Done (u64 tick).

Definition sceRtcGetCurrentNetworkTick (env : RtcEnv) (pTick : bool) : outcome (Z * option Z) :=
  if negb pTick then Done (ORBIS_RTC_ERROR_INVALID_POINTER, None)
  else if clock_ret env =? ORBIS_OK then
    let! tick := current_tick env in
    Done (ORBIS_OK, Some tick)
  else Done (ORBIS_RTC_ERROR_NOT_INITIALIZED, None).

(** The other three network clocks have the same body, the real-time clock
    included. *)
Definition sceRtcGetCurrentAdNetworkTick := sceRtcGetCurrentNetworkTick.
Definition sceRtcGetCurrentDebugNetworkTick := sceRtcGetCurrentNetworkTick.
Definition sceRtcGetCurrentRawNetworkTick := sceRtcGetCurrentNetworkTick.

Definition sceRtcGetCurrentTick (env : RtcEnv) (pTick : bool) : outcome (Z * option Z) :=
  if negb pTick then Done (ORBIS_RTC_ERROR_DATETIME_UNINITIALIZED, None)
  else if 0 <=? clock_ret env then
    let! tick := current_tick env in
    Done (ORBIS_OK, Some tick)
  else Done (ORBIS_OK, None).

(** The tick a caller reads from a local it passed to [sceRtcGetCurrentTick];
    a failing clock leaves it unset. *)
Definition read_current_tick (env : RtcEnv) : outcome Z :=
  let! '(_, tick) := sceRtcGetCurrentTick env true in
  of_option tick.

Definition sceRtcGetCurrentClock (env : RtcEnv) (pTime : bool) (timeZone : Z)
    : outcome (Z * option OrbisRtcDateTime) :=
  if negb pTime then Done (ORBIS_RTC_ERROR_DATETIME_UNINITIALIZED, None)
  else if clock_ret env =? ORBIS_OK then
    let! clockTick := current_tick env in
    let! '(_, tick) := sceRtcTickAddMinutes true (Some clockTick) timeZone in
    let! tick := of_option tick in
    Done (clock_ret env, Some (date_of_tick tick))
  else Done (clock_ret env, None).

(** [-(tz_minuteswest - tz_dsttime * 60)] on [int]: minutes east of Greenwich. *)
Definition tz_offset (env : RtcEnv) : outcome Z :=
  let! dst := int32 (tz_dsttime env * 60) in
  let! west := int32 (tz_minuteswest env - dst) in
  int32 (- west).

(** [tzOffset] passes through [uint64_t] and back to [int64_t]. *)
Definition sceRtcGetCurrentClockLocalTime (env : RtcEnv) (pTime : bool)
    : outcome (Z * option OrbisRtcDateTime) :=
  if negb pTime then Done (ORBIS_RTC_ERROR_DATETIME_UNINITIALIZED, None)
  else if 0 <=? tz_ret env then
    let! tzOffset := tz_offset env in
    let! newTick := read_current_tick env in
    let! '(_, tick) := sceRtcTickAddMinutes true (Some newTick) (s64 (u64 tzOffset)) in
    let! tick := of_option tick in
    Done (tz_ret env, Some (date_of_tick tick))
  else Done (tz_ret env, None).

(** Result, [*timezone], [*seconds] and [*dst_seconds]; the flags say which
    pointers are not null.  [sceKernelGettimezone]'s result is not looked at. *)
Definition sceKernelConvertLocaltimeToUtc (env : RtcEnv) (param_1 : Z) (seconds timezone dst_seconds : bool)
    : outcome (Z * option (Z * Z) * option Z * option Z) :=
  if timezone then
    let! minutes := int32 (tz_minuteswest env + tz_dsttime env) in
    let! shift := int32 (minutes * 60) in
    let! param_1 := int64 (param_1 - shift) in
    let! dst := if dst_seconds then int32 (tz_dsttime env * 60) else Done 0 in
    Done (ORBIS_OK, Some (tz_minuteswest env, tz_dsttime env), (if seconds then Some param_1 else None),
          (if dst_seconds then Some dst else None))
  else Done (ORBIS_KERNEL_ERROR_EINVAL, None, None, None).

Definition sceRtcConvertLocalTimeToUtc (env : RtcEnv) (pTickLocal : option Z) (pTickUtc : bool)
    : outcome (Z * option Z) :=
  match pTickLocal with
  | None => Done (ORBIS_RTC_ERROR_INVALID_POINTER, None)
  | Some tick =>
      let! '(convertValue, timezone, _, _) :=
        sceKernelConvertLocaltimeToUtc env (wsub tick UNIX_EPOCH_TICKS / 1000000) true true false in
      if 0 <=? convertValue then
        let! '(minuteswest, dsttime) := of_option timezone in
        let! dst := int32 (dsttime * 60) in
        let! east := int32 (dst - minuteswest) in
        let! minutes := int32 (- east) in
        sceRtcTickAddMinutes pTickUtc (Some tick) minutes
      else Done (convertValue, None)
  end.

Definition sceRtcConvertUtcToLocalTime (env : RtcEnv) (pTickUtc : option Z) (pTickLocal : bool)
    : outcome (Z * option Z) :=
  match pTickUtc with
  | None => Done (ORBIS_RTC_ERROR_INVALID_POINTER, None)
  | Some tick =>
      let! minutes := tz_offset env in
      let! '(_, local) := sceRtcTickAddMinutes pTickLocal (Some tick) minutes in
      Done (0, local)
  end.

(** The body the three [sceRtcSetCurrent*NetworkTick] share: the pointer is
    dereferenced before it is tested, and [posix_clock_settime] gets the clock
    id, the seconds and [temp % 1000000] as the nanoseconds. *)
Definition set_network_tick (clock_id : Z) (env : RtcEnv) (pTick : option Z)
    : outcome (Z * option (Z * Z * Z)) :=
  match pTick with
  | None => Raised Undefined
  | Some tick =>
      if tick <=? UNIX_EPOCH_TICKS then Done (ORBIS_RTC_ERROR_INVALID_VALUE, None)
      else
        let temp := wsub tick UNIX_EPOCH_TICKS in
        let ret := settime env in
        Done ((if ret <? 0 then s32 (env_errno env + ORBIS_KERNEL_ERROR_UNKNOWN) else ret),
              Some (clock_id, temp / 1000000, temp mod 1000000))
  end.

Definition sceRtcSetCurrentNetworkTick := set_network_tick 0x10.
Definition sceRtcSetCurrentDebugNetworkTick := set_network_tick 0x11.
Definition sceRtcSetCurrentAdNetworkTick := set_network_tick 0x12.

Definition sceRtcSetCurrentTick (env : RtcEnv) (pTick : option Z) : Z * option (Z * Z) :=
  match pTick with
  | None => (ORBIS_RTC_ERROR_INVALID_POINTER, None)
  | Some tick =>
      if tick <=? UNIX_EPOCH_TICKS then (ORBIS_RTC_ERROR_INVALID_VALUE, None)
      else
        let temp := s64 (tick - UNIX_EPOCH_TICKS) in
        (settime env, Some (Z.quot temp 1000000, Z.rem temp 1000000))
  end.

(** The time zone handed to [sceKernelSettimeofday]. *)
Definition sceRtcSetConf (minuteswest dsttime : Z) : Z * Z := (minuteswest, dsttime).
