(* ===== verification/RtcText.v ===== *)
(** * RtcText: the textual dates of the real-time clock library

    [sceRtcFormatRFC2822], [sceRtcFormatRFC3339Precise] and their local-time
    variants, [sceRtcParseRFC3339] and [sceRtcParseDateTime].  A text is the
    list of its characters before the terminating zero; the parts of
    [std::string] the parser uses keep their failures: [stoi] and [substr]
    throw, [operator\[\]] past the terminator is undefined. *)

From Stdlib Require Import Ascii String.
From S2P Require Import Prelude Rtc.

Definition text := list ascii.

Definition lit (s : string) : text := list_ascii_of_string s.

(** ** std::string *)

Definition digit (n : Z) : ascii := ascii_of_nat (48 + Z.to_nat n).

Fixpoint digits (fuel : nat) (n : Z) (acc : text) : text :=
  match fuel with
  | O => acc
  | S f => if n <? 10 then digit n :: acc else digits f (n / 10) (digit (n mod 10) :: acc)
  end.

(** [std::to_string] of a non-negative number; a number has at most as many
    digits as it has bits. *)
Definition to_string (n : Z) : text := digits (S (Z.to_nat (Z.log2 n))) n [].

(** The callers' [if (x < 10) "0" + to_string(x) else to_string(x)]. *)
Definition pad2 (n : Z) : text := if n <? 10 then lit "0" ++ to_string n else to_string n.

Definition is_space (c : ascii) : bool :=
  let n := nat_of_ascii c in (n =? 32)%nat || ((9 <=? n)%nat && (n <=? 13)%nat).

Definition digit_value (c : ascii) : option Z :=
  let n := nat_of_ascii c in
  if (48 <=? n)%nat && (n <=? 57)%nat then Some (Z.of_nat n - 48) else None.

Fixpoint skip_spaces (s : text) : text :=
  match s with
  | c :: r => if is_space c then skip_spaces r else s
  | [] => []
  end.

(** The value of the leading digits, if there is one. *)
Fixpoint read_digits (s : text) (acc : option Z) : option Z :=
  match s with
  | c :: r =>
      match digit_value c with
      | Some d => read_digits r (Some (10 * default 0 acc + d))
      | None => acc
      end
  | [] => acc
  end.

(** [std::stoi]: leading spaces, a sign, the longest run of digits; it throws
    when there is none or the value is not an [int]. *)
Definition stoi (s : text) : outcome Z :=
  let s := skip_spaces s in
  let '(sign, s) :=
    match s with
    | "-"%char :: r => (-1, r)
    | "+"%char :: r => (1, r)
    | _ => (1, s)
    end in
  match read_digits s None with
  | Some n =>
      if (- (W32 / 2) <=? sign * n) && (sign * n <? W32 / 2) then Done (sign * n) else Raised Uncaught
  | None => Raised Uncaught
  end.

Definition substr (s : text) (pos n : nat) : outcome text :=
  if (pos <=? length s)%nat then Done (take n (drop pos s)) else Raised Uncaught.

Definition char_at (s : text) (i : nat) : outcome ascii :=
  match s !! i with
  | Some c => Done c
  | None => if (i =? length s)%nat then Done "000"%char else Raised Undefined
  end.

(** [std::stoi(s.substr(pos, n))] *)
Definition number_at (s : text) (pos n : nat) : outcome Z :=
  let! t := substr s pos n in stoi t.

(** ** Formatting *)

Definition weekday_name (weekDay : Z) : text :=
  match weekDay with
  | 0 => lit "Sun, " | 1 => lit "Mon, " | 2 => lit "Tue, " | 3 => lit "Wed, "
  | 4 => lit "Thu, " | 5 => lit "Fri, " | 6 => lit "Sat, " | _ => []
  end.

Definition month_name (m : Z) : text :=
  match m with
  | 1 => lit "Jan " | 2 => lit "Feb " | 3 => lit "Mar " | 4 => lit "Apr "
  | 5 => lit "May " | 6 => lit "Jun " | 7 => lit "Jul " | 8 => lit "Aug "
  | 9 => lit "Sep " | 10 => lit "Oct " | 11 => lit "Nov " | 12 => lit "Dec "
  | _ => []
  end.

(** A non-zero offset; RFC 3339 separates its two parts with a colon. *)
Definition zone_text (separator : text) (iTimeZoneMinutes : Z) : text :=
  let timeZoneHours := Z.quot iTimeZoneMinutes 60 in
  let timeZoneRemainder := Z.rem iTimeZoneMinutes 60 in
  (if timeZoneHours <? 0 then lit "-" else lit "+") ++ pad2 (Z.abs timeZoneHours) ++ separator ++
  (if timeZoneRemainder =? 0 then lit "00" else to_string (Z.abs timeZoneRemainder)).

(** [formatTick] after the first two statements; unset if the clock failed. *)
Definition format_tick (env : RtcEnv) (pTickUtc : option Z) (iTimeZoneMinutes : Z) : outcome Z :=
  let! formatTick :=
    match pTickUtc with
    | None => read_current_tick env
    | Some tick => Done tick
    end in
  let! '(_, formatTick) := sceRtcTickAddMinutes true (Some formatTick) iTimeZoneMinutes in
  of_option formatTick.

(** Result and the text written, if any. *)
Definition sceRtcFormatRFC2822 (env : RtcEnv) (pszDateTime : bool) (pTickUtc : option Z)
    (iTimeZoneMinutes : Z) : outcome (Z * option text) :=
  if negb pszDateTime then Done (ORBIS_RTC_ERROR_INVALID_POINTER, None)
  else
    let! formatTick := format_tick env pTickUtc iTimeZoneMinutes in
    let t := date_of_tick formatTick in
    let validTime := sceRtcCheckValid (Some t) in
    if 0 <=? validTime then
      let weekDay := sceRtcGetDayOfWeek env (year t) (month t) (day t) in
      Done (ORBIS_OK, Some (weekday_name weekDay ++ pad2 (day t) ++ lit " " ++ month_name (month t) ++
        to_string (year t) ++ lit " " ++ pad2 (hour t) ++ lit ":" ++ pad2 (minute t) ++ lit ":" ++
        pad2 (second t) ++ lit " " ++
        (if iTimeZoneMinutes =? 0 then lit "+0000" else zone_text [] iTimeZoneMinutes)))
    else Done (ORBIS_OK, None).

Definition sceRtcFormatRFC2822LocalTime (env : RtcEnv) (pszDateTime : bool) (pTickUtc : option Z)
    : outcome (Z * option text) :=
  let! minutes := tz_offset env in
  sceRtcFormatRFC2822 env pszDateTime pTickUtc minutes.

Definition sceRtcFormatRFC3339Precise (env : RtcEnv) (pszDateTime : bool) (pTickUtc : option Z)
    (iTimeZoneMinutes : Z) : outcome (Z * option text) :=
  if negb pszDateTime then Done (ORBIS_RTC_ERROR_INVALID_POINTER, None)
  else
    let! formatTick := format_tick env pTickUtc iTimeZoneMinutes in
    let t := date_of_tick formatTick in
    Done (ORBIS_OK, Some (to_string (year t) ++ lit "-" ++ pad2 (month t) ++ lit "-" ++ pad2 (day t) ++ lit "T" ++
      pad2 (hour t) ++ lit ":" ++ pad2 (minute t) ++ lit ":" ++ pad2 (second t) ++
      (if negb (microsecond t =? 0) then lit "." ++ take 2 (to_string (microsecond t / 1000)) else lit ".00") ++
      (if iTimeZoneMinutes =? 0 then lit "Z" else zone_text (lit ":") iTimeZoneMinutes))).

Definition sceRtcFormatRFC3339 := sceRtcFormatRFC3339Precise.

Definition sceRtcFormatRFC3339LocalTime (env : RtcEnv) (pszDateTime : bool) (pTickUtc : option Z)
    : outcome (Z * option text) :=
  let! minutes := tz_offset env in
  sceRtcFormatRFC3339 env pszDateTime pTickUtc minutes.

Definition sceRtcFormatRFC3339PreciseLocalTime (env : RtcEnv) (pszDateTime : bool) (pTickUtc : option Z)
    : outcome (Z * option text) :=
  let! minutes := tz_offset env in
  sceRtcFormatRFC3339Precise env pszDateTime pTickUtc minutes.

(** ** Parsing *)

Definition month_table : list (string * Z) :=
  [("Jan", 1); ("Feb", 2); ("Mar", 3); ("Apr", 4); ("May", 5); ("Jun", 6);
   ("Jul", 7); ("Aug", 8); ("Sep", 9); ("Oct", 10); ("Nov", 11); ("Dec", 12)]%string.

Fixpoint month_lookup (monthStr : text) (table : list (string * Z)) : Z :=
  match table with
  | (name, m) :: rest => if decide (monthStr = lit name) then m else month_lookup monthStr rest
  | [] => 1
  end.

Definition GetMonthFromString (monthStr : text) : Z := month_lookup monthStr month_table.

(** [sceRtcGetTick(&dateTime, pTickUtc)] with its result ignored: [*pTickUtc]
    keeps its value when the date is invalid. *)
Definition store_tick (dateTime : OrbisRtcDateTime) (old : Z) : outcome Z :=
  let! '(_, _, tick) := sceRtcGetTick (Some dateTime) true in
  Done (default old tick).

(** The offset written at [pos], its minutes at [pos_min], applied with the
    sign found before it. *)
Definition add_zone (s : text) (sign : Z) (pos pos_min : nat) (tick : Z) : outcome Z :=
  let! h := number_at s pos 2 in
  let! m := number_at s pos_min 2 in
  let! '(_, tick) := sceRtcTickAddMinutes true (Some tick) (sign * (h * 60 + m)) in
  of_option tick.

Definition sceRtcParseRFC3339 (pTickUtc : option Z) (pszDateTime : option text) : outcome (Z * option Z) :=
  match pTickUtc, pszDateTime with
  | Some old, Some s =>
      let! y := number_at s 0 4 in
      let! mo := number_at s 5 2 in
      let! d := number_at s 8 2 in
      let! h := number_at s 11 2 in
      let! mi := number_at s 14 2 in
      let! se := number_at s 17 2 in
      let! c := char_at s 19 in
      let! '(us, timezone_pos) :=
        if decide (c = "."%char)
        then let! us := number_at s 20 2 in Done (us, 22%nat)
        else Done (0, 19%nat) in
      let! tick := store_tick (mkDate (u16 y) (u16 mo) (u16 d) (u16 h) (u16 mi) (u16 se) (u32 us)) old in
      let! z := char_at s timezone_pos in
      let! tick :=
        if decide (z = "Z"%char) then Done tick
        else if decide (z = "-"%char) then add_zone s (-1) (timezone_pos + 1) (timezone_pos + 4) tick
        else if decide (z = "+"%char) then add_zone s 1 (timezone_pos + 1) (timezone_pos + 4) tick
        else Done tick in
      Done (ORBIS_OK, Some tick)
  | _, _ => Done (ORBIS_RTC_ERROR_INVALID_POINTER, pTickUtc)
  end.

Definition sceRtcParseDateTime (pTickUtc : option Z) (pszDateTime : option text) : outcome (Z * option Z) :=
  match pTickUtc, pszDateTime with
  | Some old, Some s =>
      let! formatKey := char_at s 19 in
      if decide (formatKey ∈ ["Z"; "-"; "+"; "."]%char) then
        let! '(_, tick) := sceRtcParseRFC3339 pTickUtc pszDateTime in
        Done (ORBIS_OK, tick)
      else if decide (formatKey = ":"%char) then
        let! d := number_at s 5 2 in
        let! name := substr s 8 3 in
        let mo := GetMonthFromString name in
        let! y := number_at s 12 4 in
        let! h := number_at s 17 2 in
        let! mi := number_at s 20 2 in
        let! se := number_at s 23 2 in
        let! tick := store_tick (mkDate (u16 y) (u16 mo) (u16 d) (u16 h) (u16 mi) (u16 se) 0) old in
        let! z := char_at s 26 in
        let! tick :=
          if decide (z = "+"%char) then add_zone s 1 27 29 tick
          else if decide (z = "-"%char) then add_zone s (-1) 27 29 tick
          else Done tick in
        Done (ORBIS_OK, Some tick)
      else
        let! name := substr s 4 3 in
        let mo := GetMonthFromString name in
        let! d := number_at s 8 2 in
        let! h := number_at s 11 2 in
        let! mi := number_at s 14 2 in
        let! se := number_at s 17 2 in
        let! y := number_at s 20 4 in
        let! tick := store_tick (mkDate (u16 y) (u16 mo) (u16 d) (u16 h) (u16 mi) (u16 se) 0) old in
        Done (ORBIS_OK, Some tick)
  | _, _ => Done (ORBIS_RTC_ERROR_INVALID_POINTER, pTickUtc)
  end.
