(* ===== verification/RtcFacts.v ===== *)
(** * RtcFacts: the calendar arithmetic behind the real-time clock library

    The reference meaning of a date is [ticks_of]: its proleptic Gregorian day
    number times a day, plus the time of day.  The March-based formula of
    [sceRtcGetTick] computes it, and the divisions of [sceRtcSetTick] invert
    it on every valid date. *)

From S2P Require Import Prelude Rtc.

(** Time of day in microseconds. *)
Definition time_of_day (t : OrbisRtcDateTime) : Z :=
  hour t * 3600000000 + minute t * 60000000 + second t * 1000000 + microsecond t.

(** Microseconds between 0001-01-01 00:00 and [t]. *)
Definition ticks_of (t : OrbisRtcDateTime) : Z :=
  day_number (year t) (month t) (day t) * DAY + time_of_day t.

Record valid (t : OrbisRtcDateTime) : Prop := {
  v_year : 1 <= year t <= 9999;
  v_month : 1 <= month t <= 12;
  v_day : 1 <= day t <= last_day (year t) (month t);
  v_hour : 0 <= hour t < 24;
  v_minute : 0 <= minute t < 60;
  v_second : 0 <= second t < 60;
  v_us : 0 <= microsecond t < 1000000;
}.

(** The fields are unsigned. *)
Definition fields_ok (t : OrbisRtcDateTime) : Prop :=
  0 <= year t < W16 /\ 0 <= month t < W16 /\ 0 <= day t < W16 /\ 0 <= hour t < W16 /\
  0 <= minute t < W16 /\ 0 <= second t < W16 /\ 0 <= microsecond t < W32.

(** The first tick of year 10000. *)
Definition END_OF_9999 : Z := 3652059 * DAY.

Lemma s16_year y : 0 <= y <= 9999 -> s16 y = y.
Proof.
  intros. unfold s16, W16. rewrite Z.mod_small by lia.
  destruct (Z.ltb_spec y (65536 / 2)); [reflexivity|]. change (65536 / 2) with 32768 in *. lia.
Qed.

Lemma valid_fields t : valid t -> fields_ok t.
Proof.
  intros [? ? Hd ? ? ? ?]. unfold fields_ok, last_day in *.
  destruct (month t =? 2); [destruct (is_leap _)|destruct (_ || _)%bool]; word_lia.
Qed.

Lemma check_valid t : fields_ok t -> sceRtcCheckValid (Some t) = ORBIS_OK <-> valid t.
Proof.
  intros (? & ? & ? & ? & ? & ? & ?). unfold sceRtcCheckValid. split.
  - intros E. constructor; revert E; split_cmp; intros E; try (vm_compute in E; discriminate E); lia.
  - intros []. split_cmp; try lia; reflexivity.
Qed.

(** ** Days *)

(** The sum [sceRtcGetTick] forms, with century [c], year of the century
    [ya] and month [m] counted from March. *)
Definition march_days (c ya m d : Z) : Z := 146097 * c / 4 + 1461 * ya / 4 + (153 * m + 2) / 5 + d.

Lemma is_leap_spec y :
  is_leap y = true <-> y mod 4 = 0 /\ (y mod 100 <> 0 \/ y mod 400 = 0).
Proof.
  unfold is_leap. rewrite andb_true_iff, orb_true_iff, negb_true_iff, !Z.eqb_eq, Z.eqb_neq. reflexivity.
Qed.

Lemma leap_cases y :
  (is_leap y = true /\ y mod 4 = 0 /\ (y mod 100 <> 0 \/ y mod 400 = 0)) \/
  (is_leap y = false /\ (y mod 4 <> 0 \/ (y mod 100 = 0 /\ y mod 400 <> 0))).
Proof.
  pose proof (is_leap_spec y) as H. destruct (is_leap y); [left|right]; split; try tauto.
  destruct (Z.eq_dec (y mod 4) 0), (Z.eq_dec (y mod 100) 0), (Z.eq_dec (y mod 400) 0);
    try tauto; assert (false = true) by tauto; discriminate.
Qed.

Ltac month_cases m :=
  let H := fresh in
  assert (H : m = 1 \/ m = 2 \/ m = 3 \/ m = 4 \/ m = 5 \/ m = 6 \/ m = 7 \/ m = 8 \/ m = 9 \/ m = 10 \/
    m = 11 \/ m = 12) by lia;
  destruct H as [->|[->|[->|[->|[->|[->|[->|[->|[->|[->|[->| ->]]]]]]]]]]].

(** Year and month counted from March. *)
Definition march_year (y m : Z) : Z := if 2 <? m then y else y - 1.
Definition march_month (m : Z) : Z := if 2 <? m then m - 3 else m + 9.

Lemma march_days_number y m d :
  1 <= y -> 1 <= m <= 12 ->
  march_days (march_year y m / 100) (march_year y m mod 100) (march_month m) d - 307 = day_number y m d.
Proof.
  intros Hy Hm. unfold march_days, day_number, days_before, march_year, march_month.
  destruct (leap_cases y) as [(-> & Hl)|(-> & Hl)]; month_cases m; cbn -[Z.mul Z.div Z.add Z.sub Z.modulo];
    Z.to_euclidean_division_equations; lia.
Qed.

(** The day of a March-based year, from 0: month [m] starts at day
    [(153 * m + 2) / 5]. *)
Definition march_day (y m d : Z) : Z := (153 * march_month m + 2) / 5 + d - 1.

Lemma march_day_range y m d :
  1 <= y <= 9999 -> 1 <= m <= 12 -> 1 <= d <= last_day y m ->
  0 <= march_day y m d <= 365 /\ (march_day y m d = 365 -> is_leap (march_year y m + 1) = true).
Proof.
  intros Hy Hm. unfold last_day, march_day, march_year, march_month. rewrite s16_year by lia.
  destruct (is_leap y) eqn:L; month_cases m; cbn -[Z.mul Z.div Z.add Z.sub];
    (split; [Z.to_euclidean_division_equations; lia|]); intros E; try (Z.to_euclidean_division_equations; lia).
  all: replace (y - 1 + 1) with y by lia; assumption.
Qed.

(** The divisions of [sceRtcSetTick], on day [n] of March-based year [100 * c + ya]. *)
Section decode.
Context (c ya n : Z).
Hypothesis Hc : 0 <= c.
Hypothesis Hya : 0 <= ya <= 99.
Hypothesis Hn : 0 <= n <= 365.
Hypothesis Hleap : n = 365 -> is_leap (100 * c + ya + 1) = true.

Lemma leap_day : n = 365 -> (ya + 1) mod 4 = 0 /\ (ya = 99 -> c mod 4 = 3).
Proof.
  intros E. specialize (Hleap E). apply is_leap_spec in Hleap. Z.to_euclidean_division_equations. lia.
Qed.

Lemma decode_century : (4 * (146097 * c / 4 + 1461 * ya / 4 + n + 1) - 1) / 146097 = c.
Proof.
  pose proof leap_day as Hl. symmetry.
  apply Z.div_unique with (4 * (146097 * c / 4 + 1461 * ya / 4 + n + 1) - 1 - 146097 * c); [|lia].
  Z.to_euclidean_division_equations. lia.
Qed.

Lemma decode_rest :
  (4 * (146097 * c / 4 + 1461 * ya / 4 + n + 1) - 1 - 146097 * c) / 4 = 1461 * ya / 4 + n.
Proof. Z.to_euclidean_division_equations. lia. Qed.

Lemma decode_year : (4 * (1461 * ya / 4 + n) + 3) / 1461 = ya.
Proof.
  pose proof leap_day as Hl. symmetry.
  apply Z.div_unique with (4 * (1461 * ya / 4 + n) + 3 - 1461 * ya); [|lia].
  Z.to_euclidean_division_equations. lia.
Qed.

Lemma decode_day : (4 * (1461 * ya / 4 + n) + 7 - 1461 * ya) / 4 = n + 1.
Proof. Z.to_euclidean_division_equations. lia. Qed.

End decode.

Lemma decode_month y m d :
  1 <= y <= 9999 -> 1 <= m <= 12 -> 1 <= d <= last_day y m ->
  let n := march_day y m d in
  (5 * (n + 1) - 3) / 153 = march_month m /\ (5 * (n + 1) + 2 - 153 * march_month m) / 5 = d.
Proof.
  intros Hy Hm. unfold last_day, march_day, march_month. rewrite s16_year by lia.
  destruct (is_leap y); month_cases m; cbn -[Z.mul Z.div Z.add Z.sub]; Z.to_euclidean_division_equations; lia.
Qed.

(** ** Ticks *)

Lemma last_day_31 y m : 28 <= last_day y m <= 31.
Proof. unfold last_day. destruct (m =? 2); [destruct (is_leap _)|destruct (_ || _)%bool]; lia. Qed.

Lemma day_number_range y m d :
  1 <= y <= 9999 -> 1 <= m <= 12 -> 1 <= d <= last_day y m -> 0 <= day_number y m d < 3652059.
Proof.
  intros Hy Hm. unfold last_day, day_number, days_before. rewrite s16_year by lia.
  destruct (leap_cases y) as [(-> & Hl)|(-> & Hl)]; month_cases m; cbn -[Z.mul Z.div Z.add Z.sub];
    Z.to_euclidean_division_equations; lia.
Qed.

Lemma time_of_day_range t : valid t -> 0 <= time_of_day t < DAY.
Proof. intros []. unfold time_of_day, DAY. lia. Qed.

Lemma ticks_of_range t : valid t -> 0 <= ticks_of t < END_OF_9999.
Proof.
  intros V. pose proof (time_of_day_range t V). destruct V. unfold ticks_of, END_OF_9999, DAY in *.
  pose proof (day_number_range (year t) (month t) (day t)). lia.
Qed.

Lemma int32_small x : - 2147483648 <= x < 2147483648 -> int32 x = Done x.
Proof.
  intros. unfold int32. change (W32 / 2) with 2147483648.
  replace (_ && _)%bool with true; [reflexivity|]. symmetry. apply andb_true_iff. split; [apply Z.leb_le|apply Z.ltb_lt]; lia.
Qed.

Lemma int32_large x : 2147483648 <= x -> int32 x = Raised Undefined.
Proof.
  intros. unfold int32. change (W32 / 2) with 2147483648.
  destruct (Z.ltb_spec x 2147483648); [lia|]. rewrite andb_false_r. reflexivity.
Qed.

Lemma int64_small x : - 9223372036854775808 <= x < 9223372036854775808 -> int64 x = Done x.
Proof.
  intros. unfold int64. change (W64 / 2) with 9223372036854775808.
  replace (_ && _)%bool with true; [reflexivity|]. symmetry. apply andb_true_iff. split; [apply Z.leb_le|apply Z.ltb_lt]; lia.
Qed.

Lemma march_based_spec t :
  valid t ->
  year (march_based t) = march_year (year t) (month t) /\ month (march_based t) = march_month (month t) /\
  day (march_based t) = day t /\ hour (march_based t) = hour t /\ minute (march_based t) = minute t /\
  second (march_based t) = second t /\ microsecond (march_based t) = microsecond t.
Proof.
  intros []. unfold march_based, march_year, march_month.
  destruct (2 <? month t) eqn:E; bool_prop; cbn; unfold u16, W16; rewrite ?Z.mod_small by lia; repeat split; lia.
Qed.

(** The March-based sum is the day number, for every valid date. *)
Lemma tick_of_march_spec t :
  valid t ->
  tick_of_march (march_based t) =
    (let! m := int32 (minute t * 60000000) in Done (ticks_of t)).
Proof.
  intros V. destruct (march_based_spec t V) as (Ey & Em & Ed & Eh & Emi & Es & Eu).
  pose proof (time_of_day_range t V) as Htd. pose proof (ticks_of_range t V) as Htk.
  destruct V as [Hy Hm Hd Hh Hmi Hs Hu].
  pose proof (march_days_number (year t) (month t) (day t) (proj1 Hy) Hm) as Hn.
  pose proof (day_number_range _ _ _ Hy Hm Hd) as Hr.
  unfold tick_of_march. rewrite Ey, Em, Ed, Eh, Emi, Es, Eu.
  rewrite !Z.shiftr_div_pow2 by lia. change (2 ^ 2) with 4.
  set (Y := march_year (year t) (month t)) in *.
  replace (Y - 100 * (Y / 100)) with (Y mod 100) by (rewrite Z.mod_eq by lia; lia).
  fold (march_days (Y / 100) (Y mod 100) (march_month (month t)) (day t)).
  replace (march_days _ _ _ _) with (day_number (year t) (month t) (day t) + 307) by lia.
  destruct (int32 (minute t * 60000000)) as [mm|] eqn:Emm; cbn [obind]; [|reflexivity].
  unfold int32 in Emm. destruct (_ && _)%bool in Emm; [|discriminate]. injection Emm as <-.
  rewrite int32_small by lia. cbn [obind]. do 2 f_equal.
  fold (time_of_day t).
  unfold wmul, DAY, END_OF_9999, ticks_of in *. unfold DAY in *.
  rewrite (u64_small (day_number _ _ _ + 307)) by word_lia. word_simpl. lia.
Qed.

Lemma GetTick_valid t :
  valid t ->
  sceRtcGetTick (Some t) true =
    (let! m := int32 (minute t * 60000000) in Done (ORBIS_OK, Some (march_based t), Some (ticks_of t))).
Proof.
  intros V. unfold sceRtcGetTick. cbn [negb].
  rewrite (proj2 (check_valid t (valid_fields t V)) V). cbn [negb Z.eqb ORBIS_OK].
  rewrite tick_of_march_spec by assumption. destruct (int32 _); reflexivity.
Qed.

(** The time of day splits into its fields. *)
Lemma split_time t :
  valid t ->
  let m := time_of_day t in
  m / 3600000000 = hour t /\ m mod 3600000000 / 60000000 = minute t /\
  (m mod 3600000000) mod 60000000 / 1000000 = second t /\
  ((m mod 3600000000) mod 60000000) mod 1000000 = microsecond t.
Proof.
  intros [_ _ _ ? ? ? ?]. unfold time_of_day. cbn zeta.
  assert (E1 : (hour t * 3600000000 + minute t * 60000000 + second t * 1000000 + microsecond t) / 3600000000 = hour t)
    by (Z.to_euclidean_division_equations; lia).
  rewrite (Z.mod_eq _ 3600000000), E1 by lia.
  replace (hour t * _ + _ + _ + _ - _) with (minute t * 60000000 + second t * 1000000 + microsecond t) by lia.
  assert (E2 : (minute t * 60000000 + second t * 1000000 + microsecond t) / 60000000 = minute t)
    by (Z.to_euclidean_division_equations; lia).
  rewrite (Z.mod_eq _ 60000000), E2 by lia.
  replace (minute t * _ + _ + _ - _) with (second t * 1000000 + microsecond t) by lia.
  repeat split; Z.to_euclidean_division_equations; lia.
Qed.

(** The day half of [sceRtcSetTick]: from the shifted day number to the date. *)
Definition civil (D : Z) : Z * Z * Z :=
  let j := 4 * D - 1 in
  let ly := j / 146097 in
  let ld := (j - 146097 * ly) / 4 in
  let ya := (4 * ld + 3) / 1461 in
  let ld := (4 * ld + 7 - 1461 * ya) / 4 in
  let lm := (5 * ld - 3) / 153 in
  let ld := (5 * ld + 2 - 153 * lm) / 5 in
  if lm <? 10 then (100 * ly + ya, lm + 3, ld) else (100 * ly + ya + 1, lm - 9, ld).

Lemma civil_day_number y m d :
  1 <= y <= 9999 -> 1 <= m <= 12 -> 1 <= d <= last_day y m ->
  civil (day_number y m d + 307) = (y, m, d).
Proof.
  intros Hy Hm Hd. rewrite <- march_days_number by lia.
  destruct (march_day_range y m d Hy Hm Hd) as [Hn Hl].
  destruct (decode_month y m d Hy Hm Hd) as [Em Ed]. cbn zeta in Em, Ed.
  set (Y := march_year y m) in *. set (n := march_day y m d) in *.
  assert (HY : 0 <= Y) by (unfold Y, march_year; destruct (2 <? m); lia).
  assert (Hc : 0 <= Y / 100) by (apply Z.div_pos; lia).
  assert (Hya : 0 <= Y mod 100 <= 99) by (pose proof (Z.mod_pos_bound Y 100); lia).
  assert (HYe : Y = 100 * (Y / 100) + Y mod 100) by (apply Z.div_mod; lia).
  assert (Hl' : n = 365 -> is_leap (100 * (Y / 100) + Y mod 100 + 1) = true) by (rewrite <- HYe; exact Hl).
  replace (march_days _ _ _ _ - 307 + 307) with (146097 * (Y / 100) / 4 + 1461 * (Y mod 100) / 4 + n + 1)
    by (unfold march_days, n, march_day; lia).
  unfold civil. rewrite decode_century, decode_rest, (decode_year (Y / 100)), decode_day by assumption.
  rewrite Em, Ed, <- HYe. unfold Y, march_year, march_month.
  destruct (Z.ltb_spec 2 m).
  - destruct (Z.ltb_spec (m - 3) 10); [|lia]. do 2 f_equal. lia.
  - destruct (Z.ltb_spec (m + 9) 10); [lia|]. do 2 f_equal; lia.
Qed.

(** On ticks of the supported years the 32-bit steps of [sceRtcSetTick] do
    not wrap. *)
Lemma date_of_tick_civil tick :
  0 <= tick < END_OF_9999 ->
  forall y m d, civil (tick / DAY + 307) = (y, m, d) ->
  0 <= y < W16 -> 0 <= m < W16 -> 0 <= d < W16 ->
  year (date_of_tick tick) = y /\ month (date_of_tick tick) = m /\ day (date_of_tick tick) = d.
Proof.
  intros Ht y m d E Hy Hm Hd.
  assert (HD : 0 <= tick / DAY < 3652059)
    by (unfold END_OF_9999, DAY in *; Z.to_euclidean_division_equations; lia).
  unfold civil in E. unfold date_of_tick. set (D := tick / DAY) in *.
  rewrite wadd_small by word_lia. rewrite (Z.shiftl_mul_pow2 (D + 307)) by lia. change (2 ^ 2) with 4.
  rewrite Z.mul_comm with (m := 4).
  assert (small : forall x, 0 <= x < W32 -> u32 x = x) by (intros; apply Z.mod_small; assumption).
  rewrite (small (4 * (D + 307) - 1)) by word_lia.
  set (j := 4 * (D + 307) - 1) in *. set (ly := j / 146097) in *.
  assert (Hj : 0 <= j - 146097 * ly < 146097) by (unfold ly; Z.to_euclidean_division_equations; lia).
  assert (Hly : 0 <= ly <= 100) by (unfold ly; Z.to_euclidean_division_equations; lia).
  rewrite (small (j - 146097 * ly)) by word_lia.
  rewrite (Z.shiftr_div_pow2 (j - _)) by lia. change (2 ^ 2) with 4.
  set (ld := (j - 146097 * ly) / 4) in *.
  assert (Hld : 0 <= ld <= 36524) by (unfold ld; Z.to_euclidean_division_equations; lia).
  rewrite (Z.shiftl_mul_pow2 ld) by lia. change (2 ^ 2) with 4. rewrite (Z.mul_comm ld 4).
  rewrite (small (4 * ld + 3)) by word_lia. set (ya := (4 * ld + 3) / 1461) in *.
  assert (Hya : 0 <= ya <= 99 /\ 4 <= 4 * ld + 7 - 1461 * ya < 1465)
    by (unfold ya; Z.to_euclidean_division_equations; lia).
  rewrite (small (4 * ld + 7 - 1461 * ya)) by word_lia.
  rewrite Z.shiftr_div_pow2 by lia. change (2 ^ 2) with 4.
  set (ld' := (4 * ld + 7 - 1461 * ya) / 4) in *.
  assert (Hld' : 1 <= ld' <= 366) by (unfold ld'; Z.to_euclidean_division_equations; lia).
  rewrite (small (5 * ld' - 3)) by word_lia. set (lm := (5 * ld' - 3) / 153) in *.
  assert (Hlm : 0 <= lm <= 11 /\ 0 <= 5 * ld' + 2 - 153 * lm)
    by (unfold lm; Z.to_euclidean_division_equations; lia).
  rewrite (small (5 * ld' + 2 - 153 * lm)), (small (100 * ly + ya)) by word_lia.
  rewrite (small (100 * ly + ya + 1)) by word_lia.
  destruct (lm <? 10); injection E as <- <- <-; cbn; unfold u16; rewrite !Z.mod_small by assumption; auto.
Qed.

(** [sceRtcSetTick] inverts the reference meaning of a date. *)
Lemma date_of_ticks_of t : valid t -> date_of_tick (ticks_of t) = t.
Proof.
  intros V. pose proof (ticks_of_range t V) as Hr. pose proof (time_of_day_range t V) as Htd.
  pose proof (split_time t V) as (Eh & Emi & Es & Eu).
  destruct (valid_fields t V) as (Wy & Wm & Wd & Wh & Wmi & Ws & Wu).
  assert (ED : ticks_of t / DAY = day_number (year t) (month t) (day t)).
  { symmetry. unfold ticks_of. apply Z.div_unique with (time_of_day t); [left|]; lia. }
  assert (EM : ticks_of t mod DAY = time_of_day t).
  { symmetry. apply Z.mod_unique with (day_number (year t) (month t) (day t)); [left; lia|]. unfold ticks_of. lia. }
  destruct (date_of_tick_civil (ticks_of t) Hr (year t) (month t) (day t)) as (Ey & Em & Ed); try assumption.
  { rewrite ED. apply civil_day_number; apply V. }
  assert (Eh' : hour (date_of_tick (ticks_of t)) = hour t /\ minute (date_of_tick (ticks_of t)) = minute t /\
    second (date_of_tick (ticks_of t)) = second t /\ microsecond (date_of_tick (ticks_of t)) = microsecond t).
  { unfold date_of_tick. rewrite EM, Eh, Emi, Es, Eu. destruct (_ <? _); cbn; unfold u16, u32;
      rewrite !Z.mod_small by assumption; auto. }
  destruct Eh' as (? & ? & ? & ?). destruct t, (date_of_tick _); cbn in *; congruence.
Qed.

(** A day [n] of March-based year [100 * c + ya] splits into a valid month
    and day of it. *)
Lemma split_march_year c ya n :
  0 <= c -> 0 <= ya <= 99 -> 0 <= n <= 365 -> 100 * c + ya <= 9999 ->
  (n = 365 -> is_leap (100 * c + ya + 1) = true) ->
  let lm := (5 * (n + 1) - 3) / 153 in
  let d := (5 * (n + 1) + 2 - 153 * lm) / 5 in
  let '(y, m) := if lm <? 10 then (100 * c + ya, lm + 3) else (100 * c + ya + 1, lm - 9) in
  y <= 9999 ->
  1 <= m <= 12 /\ 1 <= d <= last_day y m /\ march_year y m = 100 * c + ya /\ march_month m = lm /\
  march_days c ya lm d = 146097 * c / 4 + 1461 * ya / 4 + n + 1.
Proof.
  intros Hc Hya Hn Hy Hl lm d.
  assert (Hlm : 0 <= lm <= 11) by (unfold lm; Z.to_euclidean_division_equations; lia).
  assert (Hd : (153 * lm + 2) / 5 + d = n + 1 /\ 1 <= d <= 31)
    by (unfold d, lm; Z.to_euclidean_division_equations; lia).
  unfold march_days, last_day, march_year, march_month. clearbody d.
  assert (Elm : 5 * (n + 1) - 3 = 153 * lm + (5 * (n + 1) - 3) mod 153 /\ 0 <= (5 * (n + 1) - 3) mod 153 < 153).
  { split; [apply Z.div_mod; lia|apply Z.mod_pos_bound; lia]. }
  clearbody lm. set (q := (5 * (n + 1) - 3) mod 153) in *. clearbody q.
  assert (H12 : exists m, lm = m - 1 /\ 1 <= m <= 12) by (exists (lm + 1); lia).
  destruct H12 as (k & -> & Hk).
  destruct (is_leap (100 * c + ya + 1)) eqn:L.
  all: month_cases k; cbn -[Z.mul Z.div is_leap] in *; intros Hy'; rewrite ?s16_year by lia; rewrite ?L.
  all: repeat split; try lia; split_cmp; try lia.
  all: try (Z.to_euclidean_division_equations; lia).
  all: assert (n <> 365) by (intros En; specialize (Hl En); discriminate Hl); Z.to_euclidean_division_equations; lia.
Qed.

Lemma civil_sound D :
  0 <= D < 3652059 ->
  let '(y, m, d) := civil (D + 307) in
  1 <= y <= 9999 /\ 1 <= m <= 12 /\ 1 <= d <= last_day y m /\ day_number y m d = D.
Proof.
  intros HD. unfold civil.
  set (j := 4 * (D + 307) - 1). set (c := j / 146097). set (ld := (j - 146097 * c) / 4).
  set (ya := (4 * ld + 3) / 1461).
  replace ((4 * ld + 7 - 1461 * ya) / 4) with (ld - 1461 * ya / 4 + 1)
    by (Z.to_euclidean_division_equations; lia).
  assert (Hc : 0 <= c /\ D + 306 = 146097 * c / 4 + ld /\ 0 <= ld <= 36524 /\ (ld = 36524 -> c mod 4 = 3))
    by (unfold ld, c, j; Z.to_euclidean_division_equations; lia).
  destruct Hc as (Hc & HDc & Hld & Hld'). clearbody ld c.
  assert (Hya : 0 <= ya <= 99 /\ 0 <= ld - 1461 * ya / 4 <= 365 /\ (ld - 1461 * ya / 4 = 365 -> (ya + 1) mod 4 = 0))
    by (unfold ya; Z.to_euclidean_division_equations; lia).
  destruct Hya as (Hya & Hn & Hn'). clearbody ya.
  set (n := ld - 1461 * ya / 4) in *.
  assert (Hl : n = 365 -> is_leap (100 * c + ya + 1) = true).
  { intros En. apply is_leap_spec. specialize (Hn' En). unfold n in En.
    Z.to_euclidean_division_equations. lia. }
  assert (HY : 100 * c + ya <= 9999) by (unfold n in *; Z.to_euclidean_division_equations; lia).
  pose proof (split_march_year c ya n Hc Hya Hn HY Hl) as S. cbn zeta in S.
  set (lm := (5 * (n + 1) - 3) / 153) in *. set (d := (5 * (n + 1) + 2 - 153 * lm) / 5) in *.
  assert (Hlm : 0 <= lm <= 11 /\ (10 <= lm -> 306 <= n) /\ (lm < 10 -> n < 306))
    by (unfold lm; Z.to_euclidean_division_equations; lia).
  destruct (lm <? 10) eqn:E; bool_prop.
  all: cbn beta iota in S.
  1: assert (Hy : 1 <= 100 * c + ya <= 9999)
    by (clear S; unfold n in *; Z.to_euclidean_division_equations; lia).
  2: assert (Hy : 1 <= 100 * c + ya + 1 <= 9999)
    by (clear S; unfold n in *; Z.to_euclidean_division_equations; lia).
  all: destruct (S (proj2 Hy)) as (Hm & Hd & EY & Em & Es).
  all: rewrite <- march_days_number by lia; rewrite EY, Em.
  all: replace ((100 * c + ya) / 100) with c by (Z.to_euclidean_division_equations; lia).
  all: replace ((100 * c + ya) mod 100) with ya by (Z.to_euclidean_division_equations; lia).
  all: rewrite Es; repeat split; lia.
Qed.

(** Every tick before year 10000 is the tick of a valid date. *)
Lemma ticks_of_onto tick :
  0 <= tick < END_OF_9999 -> exists t, valid t /\ ticks_of t = tick.
Proof.
  intros Ht. set (ms := tick mod DAY).
  assert (Hms : 0 <= ms < DAY) by (apply Z.mod_pos_bound; reflexivity).
  assert (HD : 0 <= tick / DAY < 3652059)
    by (unfold END_OF_9999, DAY in *; Z.to_euclidean_division_equations; lia).
  pose proof (civil_sound (tick / DAY) HD) as S.
  destruct (civil (tick / DAY + 307)) as [[y m] d]. destruct S as (Hy & Hm & Hd & En).
  exists (mkDate y m d (ms / 3600000000) (ms mod 3600000000 / 60000000)
    ((ms mod 3600000000) mod 60000000 / 1000000) (((ms mod 3600000000) mod 60000000) mod 1000000)).
  unfold DAY in Hms. split.
  - constructor; cbn; try assumption; Z.to_euclidean_division_equations; lia.
  - unfold ticks_of, time_of_day. cbn. rewrite En.
    enough (ms / 3600000000 * 3600000000 + ms mod 3600000000 / 60000000 * 60000000 +
      (ms mod 3600000000) mod 60000000 / 1000000 * 1000000 + ((ms mod 3600000000) mod 60000000) mod 1000000 = ms) as ->
      by (unfold ms; rewrite (Z.div_mod tick DAY) at 3 by (vm_compute; discriminate); lia).
    Z.to_euclidean_division_equations. lia.
Qed.

Lemma date_of_tick_valid tick :
  0 <= tick < END_OF_9999 -> valid (date_of_tick tick) /\ ticks_of (date_of_tick tick) = tick.
Proof.
  intros H. destruct (ticks_of_onto tick H) as (t & V & <-). rewrite date_of_ticks_of by assumption. auto.
Qed.

(** ** The reference day number counts days *)

Definition next_day (y m d : Z) : Z * Z * Z :=
  if d <? last_day y m then (y, m, d + 1) else if m <? 12 then (y, m + 1, 1) else (y + 1, 1, 1).

Lemma days_before_next y m :
  0 <= y <= 9999 -> 1 <= m < 12 -> days_before y (m + 1) = days_before y m + last_day y m.
Proof.
  intros Hy Hm. unfold days_before, last_day. rewrite s16_year by lia.
  destruct (is_leap y); month_cases m; try lia; reflexivity.
Qed.

Lemma day_number_next y m d :
  1 <= y <= 9999 -> 1 <= m <= 12 -> 1 <= d <= last_day y m ->
  let '(y', m', d') := next_day y m d in day_number y' m' d' = day_number y m d + 1.
Proof.
  intros Hy Hm Hd. unfold next_day.
  destruct (d <? last_day y m) eqn:E1; bool_prop; [unfold day_number; lia|].
  destruct (m <? 12) eqn:E2; bool_prop; unfold day_number.
  - rewrite days_before_next by lia. lia.
  - assert (m = 12) as -> by lia. assert (d = 31) as -> by (cbn in Hd, E1; lia). unfold days_before.
    destruct (leap_cases y) as [(-> & Hl)|(-> & Hl)]; Z.to_euclidean_division_equations; lia.
Qed.

Lemma GetDaysInMonth_valid y m : 1 <= y -> 1 <= m <= 12 -> sceRtcGetDaysInMonth y m = last_day y m.
Proof. intros. unfold sceRtcGetDaysInMonth. split_cmp; lia || reflexivity. Qed.

(** [0001-01-01] was a Monday: the day of the week is the day number plus one,
    modulo seven. *)
Lemma DayOfWeek_number env t :
  valid t ->
  sceRtcGetDayOfWeek env (year t) (month t) (day t) = (ticks_of t / DAY + 1) mod 7.
Proof.
  intros V. pose proof (time_of_day_range t V) as Htd. destruct V.
  assert (ED : ticks_of t / DAY = day_number (year t) (month t) (day t)).
  { symmetry. unfold ticks_of. apply Z.div_unique with (time_of_day t); [left|]; lia. }
  rewrite ED. unfold sceRtcGetDayOfWeek, weekday, sys_days. rewrite GetDaysInMonth_valid, s16_year by lia.
  replace (if env_sdk_version env <? 0x3000000 then year t <? 1 else _) with false
    by (split_cmp; reflexivity || lia).
  split_cmp; try lia. Z.to_euclidean_division_equations. lia.
Qed.

(** ** Conversions *)

(** The seconds and the 100 ns units of the two epochs. *)
Lemma epochs :
  UNIX_EPOCH_TICKS = ticks_of (mkDate 1970 1 1 0 0 0 0) /\
  WIN32_FILETIME_EPOCH_TICKS = ticks_of (mkDate 1601 1 1 0 0 0 0).
Proof. split; reflexivity. Qed.

Lemma GetTick_early t :
  valid t -> minute t < 36 ->
  sceRtcGetTick (Some t) true = Done (ORBIS_OK, Some (march_based t), Some (ticks_of t)).
Proof.
  intros V Hm. rewrite GetTick_valid, int32_small by (assumption || (destruct V; lia)). reflexivity.
Qed.

Lemma GetTime_t_early t :
  valid t -> minute t < 36 ->
  sceRtcGetTime_t (Some t) true =
    Done (ORBIS_OK, Some (march_based t),
      Some (if ticks_of t <? UNIX_EPOCH_TICKS then 0 else (ticks_of t - UNIX_EPOCH_TICKS) / 1000000)).
Proof.
  intros V Hm. pose proof (ticks_of_range t V) as Hr. unfold sceRtcGetTime_t. cbn [negb].
  rewrite (proj2 (check_valid t (valid_fields t V)) V). cbn [negb Z.eqb ORBIS_OK].
  rewrite GetTick_early by assumption. cbn [obind of_option].
  destruct (Z.ltb_spec (ticks_of t) UNIX_EPOCH_TICKS); [reflexivity|].
  rewrite wsub_small; [reflexivity|]. unfold END_OF_9999, DAY, UNIX_EPOCH_TICKS in *. word_lia.
Qed.

Lemma GetWin32_early t :
  valid t -> minute t < 36 ->
  sceRtcGetWin32FileTime (Some t) true =
    Done (ORBIS_OK, Some (march_based t),
      Some (if ticks_of t <? WIN32_FILETIME_EPOCH_TICKS then 0 else (ticks_of t - WIN32_FILETIME_EPOCH_TICKS) * 10)).
Proof.
  intros V Hm. pose proof (ticks_of_range t V) as Hr. unfold sceRtcGetWin32FileTime. cbn [negb].
  rewrite (proj2 (check_valid t (valid_fields t V)) V). cbn [negb Z.eqb ORBIS_OK].
  rewrite GetTick_early by assumption. cbn [obind of_option].
  destruct (Z.ltb_spec (ticks_of t) WIN32_FILETIME_EPOCH_TICKS); [reflexivity|].
  unfold END_OF_9999, DAY, WIN32_FILETIME_EPOCH_TICKS, wmul in *.
  rewrite wsub_small by word_lia. rewrite u64_small by word_lia. reflexivity.
Qed.

(** Shift-and-mask fields of a DOS time are arithmetic. *)
Lemma lor_shiftl a b n : 0 <= n -> 0 <= a < 2 ^ n -> Z.lor a (Z.shiftl b n) = a + b * 2 ^ n.
Proof.
  intros Hn Ha.
  assert (E : Z.land a (Z.shiftl b n) = 0).
  { apply Z.bits_inj'. intros i Hi. rewrite Z.land_spec, Z.bits_0.
    destruct (Z.lt_ge_cases i n) as [Hin|Hin].
    - rewrite Z.shiftl_spec_low by lia. apply andb_false_r.
    - replace (Z.testbit a i) with false; [reflexivity|]. symmetry.
      rewrite <- (Z.mod_small a (2 ^ n)) by assumption. apply Z.mod_pow2_bits_high. lia. }
  rewrite <- Z.lxor_lor, <- Z.add_nocarry_lxor by assumption. rewrite Z.shiftl_mul_pow2 by lia. reflexivity.
Qed.

Lemma land_field x n : 0 <= n -> Z.land x (Z.ones n) = x mod 2 ^ n.
Proof. intros. apply Z.land_ones. assumption. Qed.

(** The packed form of a date of 1980..2107. *)
Definition dos_of (t : OrbisRtcDateTime) : Z :=
  second t / 2 + minute t * 32 + hour t * 2048 + day t * 65536 + month t * 2097152 +
  (year t - 1980) * 33554432.

Lemma GetDosTime_packed t :
  valid t -> 1980 <= year t <= 2107 -> sceRtcGetDosTime (Some t) (Some 0) = (ORBIS_OK, Some (dos_of t)).
Proof.
  intros V Hy. unfold sceRtcGetDosTime. rewrite (proj2 (check_valid t (valid_fields t V)) V).
  cbn [negb Z.eqb ORBIS_OK]. destruct V as [_ Hm Hd Hh Hmi Hs _].
  pose proof (last_day_31 (year t) (month t)).
  change 0x1F with (Z.ones 5). change 0x3F with (Z.ones 6). change 0x0F with (Z.ones 4). change 0x7F with (Z.ones 7).
  rewrite !land_field by lia. change (2 ^ 5) with 32. change (2 ^ 6) with 64. change (2 ^ 4) with 16.
  change (2 ^ 7) with 128.
  assert (0 <= second t / 2 < 30) by (Z.to_euclidean_division_equations; lia).
  rewrite !Z.mod_small by lia. rewrite Z.lor_0_l.
  unfold u32. rewrite (Z.mod_small (Z.shiftl _ 25)) by (rewrite Z.shiftl_mul_pow2 by lia; word_lia).
  do 2 f_equal. rewrite (lor_shiftl (second t / 2)) by lia.
  do 4 rewrite (lor_shiftl (_ + _)) by lia. reflexivity.
Qed.

Lemma SetDosTime_unpacks t :
  valid t -> 1980 <= year t <= 2043 ->
  sceRtcSetDosTime true (dos_of t) =
    (ORBIS_OK, Some (mkDate (year t) (month t) (day t) (hour t) (minute t) (2 * (second t / 2)) 0)).
Proof.
  intros [_ Hm Hd Hh Hmi Hs _] Hy. unfold sceRtcSetDosTime. cbn [negb].
  pose proof (last_day_31 (year t) (month t)).
  assert (Hs2 : 0 <= second t / 2 < 30) by (Z.to_euclidean_division_equations; lia).
  set (s2 := second t / 2) in *. unfold dos_of. fold s2.
  set (dos := s2 + _ * 32 + _ + _ + _ + _).
  assert (Hhi : s16 (Z.shiftr dos 16) = day t + month t * 32 + (year t - 1980) * 512).
  { rewrite Z.shiftr_div_pow2 by lia. change (2 ^ 16) with 65536. unfold s16, W16. change (65536 / 2) with 32768.
    rewrite Z.mod_small by (unfold dos; Z.to_euclidean_division_equations; lia).
    destruct (Z.ltb_spec (dos / 65536) 32768) as [L|L]; unfold dos in *; Z.to_euclidean_division_equations; lia. }
  rewrite Hhi. set (hi := day t + _ * 32 + _).
  change 0xF800 with (Z.shiftl (Z.ones 5) 11). change 0x3E with (Z.shiftl (Z.ones 5) 1).
  rewrite Z.shiftr_land, Z.shiftr_shiftl_l by lia. change (Z.shiftl (Z.ones 5) (11 - 11)) with (Z.ones 5).
  change 0x1F with (Z.ones 5). change 0x3F with (Z.ones 6). change 0x0F with (Z.ones 4).
  unfold u32. change W32 with (2 ^ 32). rewrite <- Z.land_ones by lia.
  rewrite <- Z.land_assoc. change (Z.land (Z.ones 32) (Z.shiftl (Z.ones 5) 1)) with (Z.shiftl (Z.ones 5) 1).
  rewrite <- Z.shiftl_land, (Z.shiftl_mul_pow2 (Z.land _ _)) by lia.
  rewrite !land_field, !Z.shiftr_div_pow2 by lia.
  unfold u16, W16, ORBIS_OK. unfold hi, dos. rewrite (Z.mul_comm (_ mod _)). change (2 ^ 1) with 2.
  repeat f_equal; Z.to_euclidean_division_equations; lia.
Qed.

(** ** Months and years *)

(** [t] moved to year [y] and month [m], its day clamped to the month. *)
Definition in_month (t : OrbisRtcDateTime) (y m : Z) : OrbisRtcDateTime :=
  mkDate y m (Z.min (day t) (last_day y m)) (hour t) (minute t) (second t) (microsecond t).

Lemma in_month_valid t y m : valid t -> 1 <= y <= 9999 -> 1 <= m <= 12 -> valid (in_month t y m).
Proof.
  intros [] Hy Hm. pose proof (last_day_31 y m). constructor; cbn; lia.
Qed.

Lemma u16_u16_add a b : u16 (u16 a + b) = u16 (a + b).
Proof. unfold u16. apply Zplus_mod_idemp_l. Qed.

(** Month arithmetic with C's truncating division is floor arithmetic on the
    months counted from year 0. *)
Lemma month_arith t lAdd y m :
  valid t -> 12 * year t + month t - 1 + lAdd = 12 * y + (m - 1) -> 1 <= m <= 12 -> 1 <= y <= 9999 -> lAdd <> 0 ->
  let s := if 0 <=? lAdd then 1 else -1 in
  let y0 := u16 (year t + Z.quot lAdd 12) in
  let tm := month t + Z.rem lAdd 12 - 1 in
  (if (11 <? tm) || (tm <? 0) then (tm - s * 12, u16 (y0 + s)) else (tm, y0)) = (m - 1, y).
Proof.
  intros [Hy Hm _ _ _ _ _] E Hm' Hy' Hl. cbn zeta. rewrite u16_u16_add.
  assert (Hq : lAdd = 12 * Z.quot lAdd 12 + Z.rem lAdd 12) by (apply Z.quot_rem'; lia).
  assert (Hr : (0 <= lAdd -> 0 <= Z.rem lAdd 12 < 12) /\ (lAdd <= 0 -> -12 < Z.rem lAdd 12 <= 0)).
  { Z.to_euclidean_division_equations. lia. }
  set (q := Z.quot lAdd 12) in *. set (r := Z.rem lAdd 12) in *. clearbody q r.
  assert (small : forall x, 1 <= x <= 9999 -> u16 x = x) by (intros; apply Z.mod_small; unfold W16; lia).
  destruct (Z.leb_spec 0 lAdd), (Z.ltb_spec 11 (month t + r - 1)), (Z.ltb_spec (month t + r - 1) 0);
    cbn [orb]; f_equal; rewrite ?small; lia.
Qed.

Lemma TickAddMonths_spec t tick2 lAdd y m :
  valid t -> minute t < 36 -> lAdd <> 0 ->
  12 * year t + month t - 1 + lAdd = 12 * y + (m - 1) -> 1 <= m <= 12 -> 1 <= y <= 9999 ->
  sceRtcTickAddMonths (Some (ticks_of t)) (Some tick2) lAdd = Done (ORBIS_OK, Some (ticks_of (in_month t y m))).
Proof.
  intros V Hmi Hl E Hm Hy. unfold sceRtcTickAddMonths. rewrite date_of_ticks_of by assumption.
  destruct (Z.eqb_spec lAdd 0); [contradiction|].
  pose proof (month_arith t lAdd y m V E Hm Hy Hl) as EM. cbn zeta in EM |- *. rewrite EM. clear EM.
  replace (u16 (m - 1 + 1)) with m by (unfold u16, W16; rewrite Z.mod_small; lia).
  replace (if last_day y m <? day t then _ else _) with (Z.min (day t) (last_day y m))
    by (destruct (Z.ltb_spec (last_day y m) (day t)); lia).
  fold (in_month t y m). pose proof (in_month_valid t y m V Hy Hm) as V'.
  rewrite (proj2 (check_valid _ (valid_fields _ V')) V'), GetTick_early by assumption. reflexivity.
Qed.

Lemma TickAddYears_spec t tick2 lAdd :
  valid t -> minute t < 36 -> lAdd <> 0 -> 1 <= year t + lAdd <= 9999 ->
  let t' := mkDate (year t + lAdd) (month t) (day t) (hour t) (minute t) (second t) (microsecond t) in
  sceRtcTickAddYears (Some (ticks_of t)) (Some tick2) lAdd =
    (if day t <=? last_day (year t + lAdd) (month t) then Done (ORBIS_OK, Some (ticks_of t'))
     else Done (ORBIS_RTC_ERROR_INVALID_DAY, Some (ticks_of t))).
Proof.
  intros V Hmi Hl Hy t'. unfold sceRtcTickAddYears. rewrite date_of_ticks_of by assumption.
  destruct (Z.eqb_spec lAdd 0); [contradiction|].
  replace (u16 (year t + lAdd)) with (year t + lAdd) by (unfold u16, W16; rewrite Z.mod_small; lia).
  fold t'. destruct (Z.leb_spec (day t) (last_day (year t + lAdd) (month t))) as [Hd|Hd].
  - assert (V' : valid t') by (destruct V; constructor; cbn; lia).
    rewrite (proj2 (check_valid _ (valid_fields _ V')) V'), GetTick_early by assumption. reflexivity.
  - replace (sceRtcCheckValid (Some t')) with ORBIS_RTC_ERROR_INVALID_DAY; [reflexivity|].
    destruct V. unfold sceRtcCheckValid, t'. cbn [year month day]. split_cmp; lia || reflexivity.
Qed.
