(* ===== verification/RtcTextFacts.v ===== *)
(** * RtcTextFacts: reading back the numbers the formatter writes *)

From Stdlib Require Import Ascii String.
From S2P Require Import Prelude Rtc RtcText RtcFacts.

Definition is_digit (d : Z) : Prop := 0 <= d < 10.

Ltac digit_cases a :=
  let H := fresh in
  assert (H : a = 0 \/ a = 1 \/ a = 2 \/ a = 3 \/ a = 4 \/ a = 5 \/ a = 6 \/ a = 7 \/ a = 8 \/ a = 9)
    by (unfold is_digit in *; lia);
  destruct H as [->|[->|[->|[->|[->|[->|[->|[->|[->| ->]]]]]]]]].

Lemma digit_value_digit a : is_digit a -> digit_value (digit a) = Some a.
Proof. intros. digit_cases a; reflexivity. Qed.

Lemma read_digits_map l acc :
  Forall is_digit l ->
  read_digits (map digit l) (Some acc) = Some (fold_left (fun x d => 10 * x + d) l acc).
Proof.
  revert acc. induction l as [|d l IH]; intros acc H; [reflexivity|].
  apply Forall_cons in H as [Hd Hl]. cbn [map read_digits]. rewrite digit_value_digit by assumption.
  apply IH. assumption.
Qed.

(** [stoi] reads a run of digits back. *)
Lemma stoi_digits a l :
  is_digit a -> Forall is_digit l ->
  0 <= fold_left (fun x d => 10 * x + d) l a < 2147483648 ->
  stoi (digit a :: map digit l) = Done (fold_left (fun x d => 10 * x + d) l a).
Proof.
  intros Ha Hl Hr.
  assert (E : read_digits (digit a :: map digit l) None = Some (fold_left (fun x d => 10 * x + d) l a)).
  { cbn [read_digits]. rewrite digit_value_digit by assumption. cbn [default].
    replace (10 * 0 + a) with a by lia. apply read_digits_map. assumption. }
  assert (S : forall s, s = digit a :: map digit l -> stoi s =
    match read_digits s None with
    | Some n => if (- (W32 / 2) <=? 1 * n) && (1 * n <? W32 / 2) then Done (1 * n) else Raised Uncaught
    | None => Raised Uncaught
    end) by (intros s ->; digit_cases a; reflexivity).
  rewrite (S _ eq_refl), E. change (W32 / 2) with 2147483648. rewrite Z.mul_1_l.
  replace (_ && _)%bool with true; [reflexivity|]. symmetry. apply andb_true_iff.
  split; [apply Z.leb_le|apply Z.ltb_lt]; lia.
Qed.

Lemma stoi_2 a b : is_digit a -> is_digit b -> stoi [digit a; digit b] = Done (10 * a + b).
Proof.
  intros Ha Hb. apply (stoi_digits a [b]); [assumption|repeat constructor; apply Hb|].
  cbn. unfold is_digit in *. lia.
Qed.

Lemma stoi_4 a b c d :
  is_digit a -> is_digit b -> is_digit c -> is_digit d ->
  stoi [digit a; digit b; digit c; digit d] = Done (1000 * a + 100 * b + 10 * c + d).
Proof.
  intros Ha Hb Hc Hd.
  change [digit a; digit b; digit c; digit d] with (digit a :: map digit [b; c; d]).
  rewrite stoi_digits; [|assumption|repeat (constructor; [assumption|]); constructor|];
    cbn; unfold is_digit in *; [f_equal; lia|lia].
Qed.

(** ** Widths *)

Lemma digits_1 f n acc : 0 <= n < 10 -> digits (S f) n acc = digit n :: acc.
Proof. intros. cbn [digits]. destruct (Z.ltb_spec n 10); [reflexivity|lia]. Qed.

Lemma digits_more f n acc : 10 <= n -> digits (S f) n acc = digits f (n / 10) (digit (n mod 10) :: acc).
Proof. intros. cbn [digits]. destruct (Z.ltb_spec n 10); [lia|reflexivity]. Qed.

Lemma to_string_fuel n k : 0 < n -> 2 ^ Z.of_nat k <= n -> exists f, S (Z.to_nat (Z.log2 n)) = S (k + f).
Proof.
  intros Hn Hk. exists (Z.to_nat (Z.log2 n) - k)%nat. f_equal.
  apply Z.log2_le_pow2 in Hk; [|assumption]. lia.
Qed.

Lemma pad2_digits n : 0 <= n < 100 -> pad2 n = [digit (n / 10); digit (n mod 10)].
Proof.
  intros H. unfold pad2, to_string. destruct (Z.ltb_spec n 10).
  - rewrite digits_1 by lia. replace (n / 10) with 0 by (Z.to_euclidean_division_equations; lia).
    rewrite Z.mod_small by lia. reflexivity.
  - destruct (to_string_fuel n 1) as [f ->]; [lia|cbn; lia|].
    rewrite digits_more by lia. cbn [Nat.add]. rewrite digits_1; [reflexivity|].
    Z.to_euclidean_division_equations. lia.
Qed.

Lemma to_string_4 n :
  1000 <= n <= 9999 ->
  to_string n = [digit (n / 1000); digit (n / 100 mod 10); digit (n / 10 mod 10); digit (n mod 10)].
Proof.
  intros H. unfold to_string. destruct (to_string_fuel n 3) as [f ->]; [lia|cbn; lia|].
  assert (100 <= n / 10 <= 999) by (Z.to_euclidean_division_equations; lia).
  assert (10 <= n / 10 / 10 <= 99) by (Z.to_euclidean_division_equations; lia).
  rewrite digits_more by lia. cbn [Nat.add]. rewrite !digits_more by lia.
  rewrite digits_1 by (Z.to_euclidean_division_equations; lia).
  rewrite !Z.div_div by lia. reflexivity.
Qed.

Lemma digit_2 n : 0 <= n < 100 -> is_digit (n / 10) /\ is_digit (n mod 10) /\ 10 * (n / 10) + n mod 10 = n.
Proof. intros. unfold is_digit. Z.to_euclidean_division_equations. lia. Qed.

Lemma digit_4 n :
  1000 <= n <= 9999 ->
  is_digit (n / 1000) /\ is_digit (n / 100 mod 10) /\ is_digit (n / 10 mod 10) /\ is_digit (n mod 10) /\
  1000 * (n / 1000) + 100 * (n / 100 mod 10) + 10 * (n / 10 mod 10) + n mod 10 = n.
Proof. intros. unfold is_digit. Z.to_euclidean_division_equations. lia. Qed.

Lemma stoi_pad2 n : 0 <= n < 100 -> stoi (pad2 n) = Done n.
Proof.
  intros H. destruct (digit_2 n H) as (? & ? & E). rewrite pad2_digits, stoi_2 by assumption. rewrite E. reflexivity.
Qed.

Lemma stoi_year n : 1000 <= n <= 9999 -> stoi (to_string n) = Done n.
Proof.
  intros H. destruct (digit_4 n H) as (? & ? & ? & ? & E). rewrite to_string_4, stoi_4 by assumption.
  rewrite E. reflexivity.
Qed.

Lemma u16_small n : 0 <= n < W16 -> u16 n = n.
Proof. apply Z.mod_small. Qed.

Lemma rebuild t :
  valid t ->
  mkDate (u16 (year t)) (u16 (month t)) (u16 (day t)) (u16 (hour t)) (u16 (minute t)) (u16 (second t)) 0 =
  mkDate (year t) (month t) (day t) (hour t) (minute t) (second t) 0.
Proof. intros V. destruct (valid_fields t V) as (? & ? & ? & ? & ? & ? & ?). rewrite !u16_small by assumption. reflexivity. Qed.

Lemma store_valid t old :
  valid t -> minute t < 36 -> microsecond t = 0 ->
  store_tick (mkDate (year t) (month t) (day t) (hour t) (minute t) (second t) 0) old = Done (ticks_of t).
Proof.
  intros V Hm Hu. unfold store_tick. rewrite <- Hu.
  replace (mkDate _ _ _ _ _ _ _) with t by (destruct t; reflexivity).
  rewrite GetTick_early by assumption. reflexivity.
Qed.

(** The text of an instant with whole seconds, in UTC. *)
Definition rfc3339 (t : OrbisRtcDateTime) : text :=
  to_string (year t) ++ lit "-" ++ pad2 (month t) ++ lit "-" ++ pad2 (day t) ++ lit "T" ++
  pad2 (hour t) ++ lit ":" ++ pad2 (minute t) ++ lit ":" ++ pad2 (second t) ++ lit ".00" ++ lit "Z".

Lemma parse_rfc3339 t old :
  valid t -> 1000 <= year t -> minute t < 36 -> microsecond t = 0 ->
  sceRtcParseRFC3339 (Some old) (Some (rfc3339 t)) = Done (ORBIS_OK, Some (ticks_of t)).
Proof.
  intros V Hy Hmi Hu. pose proof (last_day_31 (year t) (month t)) as Hl.
  assert (HY : 1000 <= year t <= 9999) by (destruct V; lia).
  assert (HR : 0 <= month t < 100 /\ 0 <= day t < 100 /\ 0 <= hour t < 100 /\ 0 <= minute t < 100 /\
    0 <= second t < 100) by (destruct V; lia).
  destruct HR as (H1 & H2 & H3 & H4 & H5).
  unfold rfc3339, sceRtcParseRFC3339, number_at, substr, char_at.
  pose proof (stoi_year _ HY) as E0. pose proof (stoi_pad2 _ H1) as E1. pose proof (stoi_pad2 _ H2) as E2.
  pose proof (stoi_pad2 _ H3) as E3. pose proof (stoi_pad2 _ H4) as E4. pose proof (stoi_pad2 _ H5) as E5.
  rewrite to_string_4 in * by assumption. rewrite !pad2_digits in * by assumption.
  cbn [app lit list_ascii_of_string length Nat.leb drop take obind lookup list_lookup Nat.eqb].
  rewrite E0, E1, E2, E3, E4, E5. cbn [obind].
  rewrite decide_True by reflexivity. change (stoi ["0"%char; "0"%char]) with (Done 0). cbn [obind].
  change (u32 0) with 0. rewrite rebuild, store_valid by assumption. reflexivity.
Qed.

Lemma tick_add_zero unit tick : 0 <= tick < W64 -> tick_add unit true (Some tick) 0 = Done (ORBIS_OK, Some tick).
Proof. intros. unfold tick_add. cbn [negb]. rewrite int64_small by lia. cbn [obind]. rewrite wadd_small by lia. reflexivity. Qed.

Lemma ticks_word tick : 0 <= tick < END_OF_9999 -> 0 <= tick < W64.
Proof. unfold END_OF_9999, DAY. word_lia. Qed.

Lemma format_tick_utc env t : valid t -> format_tick env (Some (ticks_of t)) 0 = Done (ticks_of t).
Proof.
  intros V. unfold format_tick. cbn [obind].
  unfold sceRtcTickAddMinutes. rewrite tick_add_zero by (apply ticks_word, ticks_of_range; assumption). reflexivity.
Qed.

Lemma format_rfc3339 env t :
  valid t -> microsecond t = 0 ->
  sceRtcFormatRFC3339Precise env true (Some (ticks_of t)) 0 = Done (ORBIS_OK, Some (rfc3339 t)).
Proof.
  intros V Hu. unfold sceRtcFormatRFC3339Precise. cbn [negb]. rewrite format_tick_utc by assumption.
  cbn [obind]. rewrite date_of_ticks_of by assumption. rewrite Hu. reflexivity.
Qed.

(** The RFC 2822 text of an instant with whole seconds, in UTC, on the day of
    the week [w]. *)
Definition rfc2822 (w : Z) (t : OrbisRtcDateTime) : text :=
  weekday_name w ++ pad2 (day t) ++ lit " " ++ month_name (month t) ++
  to_string (year t) ++ lit " " ++ pad2 (hour t) ++ lit ":" ++ pad2 (minute t) ++ lit ":" ++
  pad2 (second t) ++ lit " " ++ lit "+0000".

Lemma format_rfc2822 env t :
  valid t ->
  sceRtcFormatRFC2822 env true (Some (ticks_of t)) 0 =
    Done (ORBIS_OK, Some (rfc2822 ((ticks_of t / DAY + 1) mod 7) t)).
Proof.
  intros V. unfold sceRtcFormatRFC2822. cbn [negb]. rewrite format_tick_utc by assumption.
  cbn [obind]. rewrite date_of_ticks_of by assumption.
  rewrite (proj2 (check_valid t (valid_fields t V)) V). rewrite DayOfWeek_number by assumption. reflexivity.
Qed.

(** Month names are four characters that are read back as the month. *)
Lemma month_name_read m :
  1 <= m <= 12 -> exists a b c, month_name m = [a; b; c; " "%char] /\ GetMonthFromString [a; b; c] = m.
Proof. intros H. month_cases m; do 3 eexists; split; reflexivity. Qed.

Lemma weekday_name_5 w :
  0 <= w < 7 -> exists a b c d e, weekday_name w = [a; b; c; d; e].
Proof.
  intros H. assert (E : w = 0 \/ w = 1 \/ w = 2 \/ w = 3 \/ w = 4 \/ w = 5 \/ w = 6) by lia.
  destruct E as [->|[->|[->|[->|[->|[->| ->]]]]]]; repeat eexists.
Qed.

Lemma parse_rfc2822 w t old :
  valid t -> 0 <= w < 7 -> 1000 <= year t -> minute t < 36 -> microsecond t = 0 ->
  sceRtcParseDateTime (Some old) (Some (rfc2822 w t)) = Done (ORBIS_OK, Some (ticks_of t)).
Proof.
  intros V Hw Hy Hmi Hu. pose proof (last_day_31 (year t) (month t)) as Hl.
  assert (HY : 1000 <= year t <= 9999) by (destruct V; lia).
  assert (HR : 0 <= day t < 100 /\ 0 <= hour t < 100 /\ 0 <= minute t < 100 /\ 0 <= second t < 100)
    by (destruct V; lia).
  destruct HR as (H2 & H3 & H4 & H5).
  destruct (weekday_name_5 w Hw) as (w1 & w2 & w3 & w4 & w5 & Ew).
  destruct (month_name_read (month t) (v_month t V)) as (m1 & m2 & m3 & Em & Em').
  unfold rfc2822, sceRtcParseDateTime, number_at, substr, char_at. rewrite Ew, Em.
  pose proof (stoi_year _ HY) as E0. pose proof (stoi_pad2 _ H2) as E2.
  pose proof (stoi_pad2 _ H3) as E3. pose proof (stoi_pad2 _ H4) as E4. pose proof (stoi_pad2 _ H5) as E5.
  rewrite to_string_4 in * by assumption. rewrite !pad2_digits in * by assumption.
  cbn [app lit list_ascii_of_string length Nat.leb drop take obind lookup list_lookup Nat.eqb].
  rewrite decide_False by (rewrite !elem_of_cons, elem_of_nil; intuition discriminate). rewrite decide_True by reflexivity.
  rewrite E0, E2, E3, E4, E5, Em'. cbn [obind]. rewrite rebuild, store_valid by assumption. cbn [obind].
  rewrite decide_True by reflexivity. unfold add_zone, number_at, substr.
  cbn [app lit list_ascii_of_string length Nat.leb drop take obind].
  change (stoi ["0"%char; "0"%char]) with (Done 0). cbn [obind Z.mul Z.add].
  unfold sceRtcTickAddMinutes. rewrite tick_add_zero by (apply ticks_word, ticks_of_range; assumption). reflexivity.
Qed.

(** [sceRtcParseDateTime] recognises the RFC 3339 text by its 20th character. *)
Lemma rfc3339_key t :
  valid t -> 1000 <= year t -> char_at (rfc3339 t) 19 = Done "."%char.
Proof.
  intros V Hy. pose proof (last_day_31 (year t) (month t)). unfold rfc3339.
  rewrite to_string_4, !pad2_digits by (destruct V; lia). reflexivity.
Qed.
