(* ===== verification/RtcSpec.v ===== *)
(** * RtcSpec: what the real-time clock library promises

    The properties of [rtc.cpp], stated on its exported functions and proved
    from the lemmas of [RtcFacts] and [RtcTextFacts].  [sample] is the date
    used by the witnesses, a leap day. *)

From Stdlib Require Import Ascii String.
From S2P Require Import Prelude Rtc RtcText RtcFacts RtcTextFacts.

Definition sample : OrbisRtcDateTime := mkDate 2024 2 29 13 35 58 0.

Lemma sample_valid : valid sample.
Proof. constructor; vm_compute; intuition discriminate. Qed.

(** on every date whose fields fit their types, [sceRtcGetTick] either
    reports an error of [sceRtcCheckValid] and stores nothing, or the date is
    valid and the stored tick is the number of microseconds since 0001-01-01
    by the proleptic Gregorian calendar; the one exception is a valid date
    with minute 36 or later, where [minute * 60000000] overflows [int]. *)
Theorem GetTick_correct (t : OrbisRtcDateTime) (H : fields_ok t) :
  (valid t /\ minute t < 36 /\
    sceRtcGetTick (Some t) true = Done (ORBIS_OK, Some (march_based t), Some (ticks_of t))) \/
  (valid t /\ 36 <= minute t /\ sceRtcGetTick (Some t) true = Raised Undefined) \/
  (~ valid t /\ exists err, err <> ORBIS_OK /\ sceRtcCheckValid (Some t) = err /\
    sceRtcGetTick (Some t) true = Done (err, Some t, None)).
Proof.
  destruct (Z.eq_dec (sceRtcCheckValid (Some t)) ORBIS_OK) as [E|E].
  - apply check_valid in E; [|assumption]. destruct (Z.lt_ge_cases (minute t) 36) as [Hm|Hm].
    + left. auto using GetTick_early.
    + right. left. rewrite GetTick_valid, int32_large by (assumption || lia). auto.
  - right. right. split; [intros V; apply E, check_valid; assumption|].
    exists (sceRtcCheckValid (Some t)). unfold sceRtcGetTick. cbn [negb].
    destruct (Z.eqb_spec (sceRtcCheckValid (Some t)) 0); [contradiction|]. auto.
Qed.

Lemma GetTick_correct_witness :
  fields_ok sample /\ valid sample /\
  sceRtcGetTick (Some sample) true = Done (ORBIS_OK, Some (march_based sample), Some 63844810558000000).
Proof.
  assert (F : fields_ok sample) by (vm_compute; intuition discriminate).
  split; [exact F|]. destruct (GetTick_correct sample F) as [(V & _ & E)|[(_ & Hm & _)|(NV & _)]].
  - split; [exact V|]. rewrite E. vm_compute. reflexivity.
  - vm_compute in Hm. exfalso. apply Hm. reflexivity.
  - exfalso. apply NV, sample_valid.
Defined.

(** C39: [sceRtcSetTick] maps the ticks before year 10000 one to one onto the
    valid dates: the date it stores is valid and its tick is the one given,
    and on the tick of a valid date it stores that date. *)
Theorem SetTick_bijective (tick : Z) (H : 0 <= tick < END_OF_9999) :
  exists t, sceRtcSetTick true (Some tick) = (ORBIS_OK, Some t) /\ valid t /\ ticks_of t = tick /\
    forall t', valid t' -> ticks_of t' = tick -> t' = t.
Proof.
  exists (date_of_tick tick). destruct (date_of_tick_valid tick H) as [V E].
  split; [reflexivity|]. split; [exact V|]. split; [exact E|]. intros t' V' <-. rewrite date_of_ticks_of by assumption. reflexivity.
Qed.

Lemma SetTick_bijective_witness :
  0 <= 63844810558000000 < END_OF_9999 /\
  exists t, sceRtcSetTick true (Some 63844810558000000) = (ORBIS_OK, Some t) /\ t = sample.
Proof.
  assert (H : 0 <= 63844810558000000 < END_OF_9999) by (vm_compute; intuition discriminate).
  split; [exact H|]. destruct (SetTick_bijective _ H) as (t & E & _ & _ & U). exists t. split; [exact E|].
  symmetry. apply U; [apply sample_valid|vm_compute; reflexivity].
Defined.

(** for a valid date before minute 36, where the tick does not overflow,
    setting a date from the tick [sceRtcGetTick] stores gives the date back. *)
Theorem GetTick_SetTick (t : OrbisRtcDateTime) (V : valid t) (Hm : minute t < 36) :
  exists tick, sceRtcGetTick (Some t) true = Done (ORBIS_OK, Some (march_based t), Some tick) /\
    sceRtcSetTick true (Some tick) = (ORBIS_OK, Some t).
Proof.
  exists (ticks_of t). split; [apply GetTick_early; assumption|].
  cbn [sceRtcSetTick negb]. rewrite date_of_ticks_of by assumption. reflexivity.
Qed.

Lemma GetTick_SetTick_witness :
  exists tick, sceRtcGetTick (Some sample) true = Done (ORBIS_OK, Some (march_based sample), Some tick) /\
    sceRtcSetTick true (Some tick) = (ORBIS_OK, Some sample).
Proof. apply (GetTick_SetTick sample); [apply sample_valid|reflexivity]. Defined.

(** the reference day number is a calendar: 0001-01-01 is day 0 and the
    day after a valid date has the next number; [sceRtcGetDayOfWeek] is the
    day number modulo seven, 0001-01-01 being a Monday. *)
Theorem DayOfWeek_calendar (env : RtcEnv) (t : OrbisRtcDateTime) (V : valid t) :
  day_number 1 1 1 = 0 /\
  (let '(y, m, d) := next_day (year t) (month t) (day t) in
   day_number y m d = day_number (year t) (month t) (day t) + 1) /\
  sceRtcGetDayOfWeek env (year t) (month t) (day t) =
    (day_number (year t) (month t) (day t) + 1) mod 7.
Proof.
  split; [reflexivity|]. split; [apply day_number_next; apply V|].
  rewrite DayOfWeek_number by assumption. do 2 f_equal. symmetry. unfold ticks_of.
  apply Z.div_unique with (time_of_day t); [left; apply time_of_day_range; assumption|lia].
Qed.

Lemma DayOfWeek_calendar_witness :
  next_day 2024 2 29 = (2024, 3, 1) /\ day_number 2024 3 1 = day_number 2024 2 29 + 1.
Proof.
  split; [reflexivity|].
  exact (proj1 (proj2 (DayOfWeek_calendar (mkEnv 0 0 0 0 0 0 0 0 0 0) sample sample_valid))).
Defined.

(** a date of 1980 to 2043 survives the DOS format up to its resolution of
    two seconds, when [*dosTime] is zero before the call. *)
Theorem DosTime_roundtrip (t : OrbisRtcDateTime) (V : valid t) (Hy : 1980 <= year t <= 2043) :
  exists dos, sceRtcGetDosTime (Some t) (Some 0) = (ORBIS_OK, Some dos) /\ 0 <= dos < 2 ^ 31 /\
    sceRtcSetDosTime true dos =
      (ORBIS_OK, Some (mkDate (year t) (month t) (day t) (hour t) (minute t) (2 * (second t / 2)) 0)).
Proof.
  exists (dos_of t). split; [apply GetDosTime_packed; [assumption|lia]|].
  split; [|apply SetDosTime_unpacks; assumption].
  pose proof (last_day_31 (year t) (month t)). destruct V. unfold dos_of.
  Z.to_euclidean_division_equations. lia.
Qed.

Lemma DosTime_roundtrip_witness :
  exists dos, sceRtcGetDosTime (Some sample) (Some 0) = (ORBIS_OK, Some dos) /\ 0 <= dos < 2 ^ 31 /\
    sceRtcSetDosTime true dos = (ORBIS_OK, Some sample).
Proof. apply (DosTime_roundtrip sample); [apply sample_valid|vm_compute; intuition discriminate]. Defined.

(** before minute 36, where the tick does not overflow, a date from 1970 on
    survives [time_t] up to whole seconds, and a date from 1601 on survives the
    Win32 file time, on a guest whose SDK version takes the whole [time_t]. *)
Theorem Epoch_roundtrips (env : RtcEnv) (t : OrbisRtcDateTime) (V : valid t) (Hm : minute t < 36)
    (Hsdk : 0x3000000 <= env_sdk_version env) :
  (UNIX_EPOCH_TICKS <= ticks_of t -> exists llTime,
    sceRtcGetTime_t (Some t) true = Done (ORBIS_OK, Some (march_based t), Some llTime) /\
    sceRtcSetTime_t env true llTime =
      Done (ORBIS_OK, Some (mkDate (year t) (month t) (day t) (hour t) (minute t) (second t) 0))) /\
  (WIN32_FILETIME_EPOCH_TICKS <= ticks_of t -> exists ulWin32Time,
    sceRtcGetWin32FileTime (Some t) true = Done (ORBIS_OK, Some (march_based t), Some ulWin32Time) /\
    sceRtcSetWin32FileTime true ulWin32Time = (ORBIS_OK, Some t)).
Proof.
  pose proof (ticks_of_range t V) as Hr. unfold END_OF_9999, DAY in Hr. split; intros He.
  - eexists. split; [apply GetTime_t_early; assumption|].
    destruct (Z.ltb_spec (ticks_of t) UNIX_EPOCH_TICKS); [lia|].
    set (t0 := mkDate (year t) (month t) (day t) (hour t) (minute t) (second t) 0).
    assert (V0 : valid t0) by (destruct V; constructor; cbn; lia).
    assert (E : ticks_of t = ticks_of t0 + microsecond t) by (unfold ticks_of, time_of_day; cbn; lia).
    assert (Es : (ticks_of t - UNIX_EPOCH_TICKS) / 1000000 * 1000000 + UNIX_EPOCH_TICKS = ticks_of t0).
    { rewrite E. destruct V. unfold ticks_of, time_of_day, t0, UNIX_EPOCH_TICKS, DAY. cbn.
      Z.to_euclidean_division_equations. lia. }
    unfold sceRtcSetTime_t. cbn [negb]. destruct (Z.ltb_spec (env_sdk_version env) 0x3000000); [lia|].
    set (x := (ticks_of t - UNIX_EPOCH_TICKS) / 1000000) in *. unfold UNIX_EPOCH_TICKS in *.
    assert (Hx : 0 <= x * 1000000 < 315569520000000000)
      by (unfold x; Z.to_euclidean_division_equations; lia).
    destruct (Z.ltb_spec x 0); [lia|]. rewrite int64_small by lia. cbn [obind].
    rewrite wadd_small, Es, date_of_ticks_of by (assumption || word_lia). reflexivity.
  - eexists. split; [apply GetWin32_early; assumption|].
    destruct (Z.ltb_spec (ticks_of t) WIN32_FILETIME_EPOCH_TICKS); [lia|].
    unfold sceRtcSetWin32FileTime. cbn [negb]. rewrite Z.quot_mul by lia.
    rewrite u64_small by (unfold WIN32_FILETIME_EPOCH_TICKS in *; word_lia).
    replace (ticks_of t - _ + _) with (ticks_of t) by lia. rewrite date_of_ticks_of by assumption. reflexivity.
Qed.

Lemma Epoch_roundtrips_witness :
  exists llTime,
    sceRtcGetTime_t (Some sample) true = Done (ORBIS_OK, Some (march_based sample), Some llTime) /\
    sceRtcSetTime_t (mkEnv 0 0 0 0 0 0 0 0x5000000 0 0) true llTime = Done (ORBIS_OK, Some sample).
Proof.
  apply (Epoch_roundtrips (mkEnv 0 0 0 0 0 0 0 0x5000000 0 0) sample);
    [apply sample_valid|reflexivity|vm_compute; discriminate|vm_compute; discriminate].
Defined.

(** before minute 36 [sceRtcTickAddMonths] moves the date of [pTick1] by whole months: the
    month count grows by [lAdd], the day is clamped to the new month and the
    time of day is kept (the tick at [pTick2] is used only when [lAdd] is 0). *)
Theorem TickAddMonths_correct (t : OrbisRtcDateTime) (tick2 lAdd : Z) (V : valid t) (Hmi : minute t < 36)
    (H0 : lAdd <> 0) (Hr : 12 <= 12 * year t + month t - 1 + lAdd < 120000) :
  let n := 12 * year t + month t - 1 + lAdd in
  sceRtcTickAddMonths (Some (ticks_of t)) (Some tick2) lAdd =
    Done (ORBIS_OK, Some (ticks_of (in_month t (n / 12) (n mod 12 + 1)))) /\
  valid (in_month t (n / 12) (n mod 12 + 1)).
Proof.
  intros n. assert (Hn : 1 <= n / 12 <= 9999 /\ 0 <= n mod 12 < 12 /\ n = 12 * (n / 12) + n mod 12)
    by (unfold n in *; Z.to_euclidean_division_equations; lia).
  destruct Hn as (Hy & Hm & En). split; [|apply in_month_valid; assumption || lia].
  apply TickAddMonths_spec; try assumption; fold n; lia.
Qed.

Lemma TickAddMonths_correct_witness :
  sceRtcTickAddMonths (Some (ticks_of sample)) (Some 0) 12 =
    Done (ORBIS_OK, Some (ticks_of (mkDate 2025 2 28 13 35 58 0))).
Proof.
  apply (TickAddMonths_correct sample 0 12);
    [apply sample_valid|reflexivity|discriminate|vm_compute; intuition discriminate].
Defined.

(** before minute 36 [sceRtcTickAddYears] changes the year of [pTick1]'s date; it refuses a
    year in which the day does not exist and leaves the tick alone. *)
Theorem TickAddYears_correct (t : OrbisRtcDateTime) (tick2 lAdd : Z) (V : valid t) (Hmi : minute t < 36)
    (H0 : lAdd <> 0) (Hr : 1 <= year t + lAdd <= 9999) :
  let t' := mkDate (year t + lAdd) (month t) (day t) (hour t) (minute t) (second t) (microsecond t) in
  sceRtcTickAddYears (Some (ticks_of t)) (Some tick2) lAdd =
    (if day t <=? last_day (year t + lAdd) (month t) then Done (ORBIS_OK, Some (ticks_of t'))
     else Done (ORBIS_RTC_ERROR_INVALID_DAY, Some (ticks_of t))).
Proof. apply TickAddYears_spec; assumption. Qed.

Lemma TickAddYears_correct_witness :
  sceRtcTickAddYears (Some (ticks_of sample)) (Some 0) 1 =
    Done (ORBIS_RTC_ERROR_INVALID_DAY, Some (ticks_of sample)).
Proof.
  apply (TickAddYears_correct sample 0 1);
    [apply sample_valid|reflexivity|discriminate|vm_compute; intuition discriminate].
Defined.

(** the UTC text written by [sceRtcFormatRFC3339Precise] for an instant of
    whole seconds from year 1000 on (before minute 36, from which the parser's
    tick overflows) is parsed back to the same tick, by [sceRtcParseRFC3339] and
    by [sceRtcParseDateTime]. *)
Theorem RFC3339_roundtrip (env : RtcEnv) (t : OrbisRtcDateTime) (old : Z) (V : valid t)
    (Hy : 1000 <= year t) (Hm : minute t < 36) (Hu : microsecond t = 0) :
  exists s, sceRtcFormatRFC3339Precise env true (Some (ticks_of t)) 0 = Done (ORBIS_OK, Some s) /\
    sceRtcParseRFC3339 (Some old) (Some s) = Done (ORBIS_OK, Some (ticks_of t)) /\
    sceRtcParseDateTime (Some old) (Some s) = Done (ORBIS_OK, Some (ticks_of t)).
Proof.
  exists (rfc3339 t). split; [apply format_rfc3339; assumption|].
  pose proof (parse_rfc3339 t old V Hy Hm Hu) as P. split; [exact P|].
  unfold sceRtcParseDateTime. rewrite P. rewrite rfc3339_key by assumption. reflexivity.
Qed.

Lemma RFC3339_roundtrip_witness :
  exists s,
    sceRtcFormatRFC3339Precise (mkEnv 0 0 0 0 0 0 0 0 0 0) true (Some (ticks_of sample)) 0 = Done (ORBIS_OK, Some s) /\
    sceRtcParseRFC3339 (Some 0) (Some s) = Done (ORBIS_OK, Some (ticks_of sample)) /\
    sceRtcParseDateTime (Some 0) (Some s) = Done (ORBIS_OK, Some (ticks_of sample)).
Proof.
  apply (RFC3339_roundtrip (mkEnv 0 0 0 0 0 0 0 0 0 0) sample 0);
    [apply sample_valid|discriminate|reflexivity|reflexivity].
Defined.

(** the UTC text written by [sceRtcFormatRFC2822] for an instant of whole
    seconds from year 1000 on (before minute 36, from which the parser's tick
    overflows) is parsed back to the same tick by [sceRtcParseDateTime]. *)
Theorem RFC2822_roundtrip (env : RtcEnv) (t : OrbisRtcDateTime) (old : Z) (V : valid t)
    (Hy : 1000 <= year t) (Hm : minute t < 36) (Hu : microsecond t = 0) :
  exists s, sceRtcFormatRFC2822 env true (Some (ticks_of t)) 0 = Done (ORBIS_OK, Some s) /\
    sceRtcParseDateTime (Some old) (Some s) = Done (ORBIS_OK, Some (ticks_of t)).
Proof.
  eexists. split; [apply format_rfc2822; assumption|].
  apply parse_rfc2822; try assumption. apply Z.mod_pos_bound. reflexivity.
Qed.

Lemma RFC2822_roundtrip_witness :
  exists s,
    sceRtcFormatRFC2822 (mkEnv 0 0 0 0 0 0 0 0 0 0) true (Some (ticks_of sample)) 0 = Done (ORBIS_OK, Some s) /\
    sceRtcParseDateTime (Some 0) (Some s) = Done (ORBIS_OK, Some (ticks_of sample)).
Proof.
  apply (RFC2822_roundtrip (mkEnv 0 0 0 0 0 0 0 0 0 0) sample 0);
    [apply sample_valid|discriminate|reflexivity|reflexivity].
Defined.

(** with any time zone of up to a day and any daylight correction of up to
    a day, converting a tick to local time and back to UTC gives the tick
    again, whatever its value: the two conversions are inverse on [u64]. *)
Theorem LocalTime_roundtrip (env : RtcEnv) (tick : Z) (Ht : 0 <= tick < W64)
    (Hw : -1440 <= tz_minuteswest env <= 1440) (Hd : -24 <= tz_dsttime env <= 24) :
  exists local, sceRtcConvertUtcToLocalTime env (Some tick) true = Done (0, Some local) /\
    local = wadd (- (tz_minuteswest env - tz_dsttime env * 60) * 60000000) tick /\
    sceRtcConvertLocalTimeToUtc env (Some local) true = Done (ORBIS_OK, Some tick).
Proof.
  unfold sceRtcConvertUtcToLocalTime, sceRtcConvertLocalTimeToUtc, sceKernelConvertLocaltimeToUtc, tz_offset,
    sceRtcTickAddMinutes, tick_add.
  repeat (rewrite int32_small by lia; cbn [obind]). rewrite int64_small by lia. cbn [obind negb].
  eexists. split; [reflexivity|]. split; [reflexivity|].
  repeat (rewrite int32_small by lia; cbn [obind]).
  set (local := wadd _ tick).
  assert (Hl : 0 <= wsub local UNIX_EPOCH_TICKS / 1000000 < 18446744073710)
    by (pose proof (u64_range (local - UNIX_EPOCH_TICKS)); unfold wsub, W64 in *; Z.to_euclidean_division_equations; lia).
  rewrite int64_small by lia. cbn [obind of_option].
  change (0 <=? ORBIS_OK) with true. cbn iota.
  repeat (rewrite int32_small by lia; cbn [obind]). rewrite int64_small by lia. cbn [obind].
  do 3 f_equal. unfold local, wadd, u64. rewrite Zplus_mod_idemp_r. 
  rewrite <- (Z.mod_small tick W64) at 2 by lia. f_equal. lia.
Qed.

Lemma LocalTime_roundtrip_witness :
  exists local,
    sceRtcConvertUtcToLocalTime (mkEnv 0 0 0 0 (-60) 1 0 0 0 0) (Some (ticks_of sample)) true = Done (0, Some local) /\
    local = wadd (- (-60 - 1 * 60) * 60000000) (ticks_of sample) /\
    sceRtcConvertLocalTimeToUtc (mkEnv 0 0 0 0 (-60) 1 0 0 0 0) (Some local) true = Done (ORBIS_OK, Some (ticks_of sample)).
Proof.
  apply (LocalTime_roundtrip (mkEnv 0 0 0 0 (-60) 1 0 0 0 0) (ticks_of sample));
    [vm_compute; intuition discriminate|cbn; lia|cbn; lia].
Defined.

(** The offset of a text is added, although the text holds local time: a tick
    formatted two hours east of Greenwich is read back four hours late. *)
Example offset_is_added :
  let east := 120 in
  let tick := ticks_of sample in
  sceRtcFormatRFC3339Precise (mkEnv 0 0 0 0 0 0 0 0 0 0) true (Some tick) east =
    Done (ORBIS_OK, Some (lit "2024-02-29T15:35:58.00+02:00")) /\
  sceRtcParseRFC3339 (Some 0) (Some (lit "2024-02-29T15:35:58.00+02:00")) =
    Done (ORBIS_OK, Some (tick + 2 * east * 60000000)).
Proof. vm_compute. split; reflexivity. Qed.

(** The fraction is cut from the unpadded milliseconds: 5 ms and 500 ms are
    written as [.5] and [.50]. *)
Example fraction_is_unpadded :
  sceRtcFormatRFC3339Precise (mkEnv 0 0 0 0 0 0 0 0 0 0) true (Some (ticks_of sample + 5000)) 0 =
    Done (ORBIS_OK, Some (lit "2024-02-29T13:35:58.5Z")) /\
  sceRtcFormatRFC3339Precise (mkEnv 0 0 0 0 0 0 0 0 0 0) true (Some (ticks_of sample + 500000)) 0 =
    Done (ORBIS_OK, Some (lit "2024-02-29T13:35:58.50Z")).
Proof. vm_compute. split; reflexivity. Qed.

(** DOS years from 2044 on have the sign bit of the high half set and are
    decoded 128 years early. *)
Example dos_year_wraps :
  (let! dos := of_option (sceRtcGetDosTime (Some (mkDate 2044 1 1 0 0 0 0)) (Some 0)).2 in
   Done (sceRtcSetDosTime true dos)) = Done (ORBIS_OK, Some (mkDate 1916 1 1 0 0 0 0)).
Proof. vm_compute. reflexivity. Qed.
