(* ===== verification/SlotFacts.v ===== *)
(** * SlotFacts: a slot vector is a finite map with fresh indices

    The invariant [wf] of [SlotVector.t], that every operation keeps it, and
    what each does to the map [get] from indices to objects.  [SlotStore]
    packages the result as an interface. *)

From S2P Require Import Prelude SlotVector.
Import SlotVector.

(** ** Bits of a word *)

Lemma read_bit (w k : Z) : 0 <= k -> negb (Z.land (Z.shiftr w k) 1 =? 0) = Z.testbit w k.
Proof.
  intros Hk. change 1 with (Z.ones 1). rewrite Z.land_ones, Z.pow_1_r, <- Z.bit0_mod by lia.
  rewrite Z.shiftr_spec, Z.add_0_l by lia. by destruct (Z.testbit w k).
Qed.

Lemma word_testbit (w : Z) : 0 <= w < W64 <-> 0 <= w /\ forall k, 64 <= k -> Z.testbit w k = false.
Proof.
  change W64 with (2 ^ 64). split.
  - intros [? Hw]. split; [done|]. intros k Hk. rewrite <- (Z.mod_small w (2 ^ 64)) by lia.
    rewrite Z.testbit_mod_pow2 by lia. by rewrite (proj2 (Z.ltb_ge _ _)).
  - intros [? Hk]. split; [done|]. destruct (decide (w = 0)) as [->|]; [done|].
    destruct (Z.le_gt_cases 64 (Z.log2 w)) as [Hl|Hl]; [|by apply Z.log2_lt_pow2; lia].
    specialize (Hk _ Hl). by rewrite Z.bit_log2 in Hk by lia.
Qed.

Lemma bit_one (k j : Z) : 0 <= k < 64 -> Z.testbit (u64 (Z.shiftl 1 k)) j = (j =? k).
Proof.
  intros Hk. unfold u64. change W64 with (2 ^ 64). rewrite Z.shiftl_1_l, Z.mod_small.
  - by rewrite Z.pow2_bits_eqb, Z.eqb_sym by lia.
  - split; [apply Z.pow_nonneg; lia|apply Z.pow_lt_mono_r; lia].
Qed.

Lemma set_bit (w k j : Z) : 0 <= k < 64 ->
  Z.testbit (Z.lor w (u64 (Z.shiftl 1 k))) j = (j =? k) || Z.testbit w j.
Proof. intros. by rewrite Z.lor_spec, bit_one, orb_comm by lia. Qed.

Lemma reset_bit (w k j : Z) : 0 <= k < 64 -> 0 <= w < W64 ->
  Z.testbit (Z.land w (u64 (Z.lnot (u64 (Z.shiftl 1 k))))) j = negb (j =? k) && Z.testbit w j.
Proof.
  intros Hk Hw. apply word_testbit in Hw as [? Hh]. rewrite Z.land_spec.
  destruct (decide (0 <= j)) as [Hj|]; [|by rewrite !(Z.testbit_neg_r _ j), !andb_false_r by lia].
  destruct (Z.ltb_spec j 64) as [Hl|Hl]; [|by rewrite (Hh j Hl), andb_false_r].
  unfold u64 at 1. change W64 with (2 ^ 64).
  rewrite Z.testbit_mod_pow2, (proj2 (Z.ltb_lt _ _) Hl), Z.lnot_spec, bit_one by lia. apply andb_comm.
Qed.

Lemma set_word (w k : Z) : 0 <= k < 64 -> 0 <= w < W64 -> 0 <= Z.lor w (u64 (Z.shiftl 1 k)) < W64.
Proof.
  intros Hk Hw. pose proof (u64_range (Z.shiftl 1 k)). apply word_testbit. split; [apply Z.lor_nonneg; lia|].
  intros j Hj. rewrite set_bit by lia. apply word_testbit in Hw as [? Hh]. by rewrite Hh, (proj2 (Z.eqb_neq _ _)) by lia.
Qed.

Lemma reset_word (w k : Z) : 0 <= k < 64 -> 0 <= w < W64 ->
  0 <= Z.land w (u64 (Z.lnot (u64 (Z.shiftl 1 k)))) < W64.
Proof.
  intros Hk Hw. apply word_testbit. split; [apply Z.land_nonneg; lia|].
  intros j Hj. rewrite reset_bit by lia. apply word_testbit in Hw as [? Hh]. by rewrite Hh, andb_false_r by lia.
Qed.

Lemma shiftr_word (w : Z) (n : nat) : 0 <= w < 2 ^ Z.of_nat (S n) -> 0 <= Z.shiftr w 1 < 2 ^ Z.of_nat n.
Proof.
  rewrite Nat2Z.inj_succ, Z.pow_succ_r by lia. intros. rewrite Z.shiftr_div_pow2, Z.pow_1_r by lia.
  pose proof (Z.div_mod w 2). pose proof (Z.mod_pos_bound w 2). lia.
Qed.

(** ** The map and the invariant *)

Section Facts.
Context {T : Type}.
Implicit Types (v : t T) (i j : Z) (l new old : list (option T)).

(** The object at an index, if there is one. *)
Definition get v i : option T := if 0 <=? i then mjoin (values v !! Z.to_nat i) else None.

(** The bit of an index in the bitset. *)
Definition bit (b : list Z) i : bool := default false ((fun w => Z.testbit w (i mod 64)) <$> b !! Z.to_nat (i / 64)).

Record wf v : Prop := {
  wf_cap : Z.of_nat (length (values v)) = values_capacity v /\ values_capacity v <= W32;
  wf_bitset : Z.of_nat (length (stored_bitset v)) = (values_capacity v + 63) / 64;
  wf_words : Forall (fun w => 0 <= w < W64) (stored_bitset v);
  wf_bit : forall i, 0 <= i -> bit (stored_bitset v) i = bool_decide (is_Some (get v i));
  wf_free : NoDup (free_list v) /\ forall i, i ∈ free_list v <-> 0 <= i < values_capacity v /\ get v i = None }.

Lemma get_range v i x : wf v -> get v i = Some x -> 0 <= i < values_capacity v.
Proof.
  intros Hw. pose proof (wf_cap _ Hw). unfold get. destruct (Z.leb_spec 0 i); [|done].
  destruct (values v !! Z.to_nat i) as [o|] eqn:E; [|done]. apply lookup_lt_Some in E. lia.
Qed.

Lemma ReadStorageBit_ok v i : wf v -> 0 <= i -> i / 64 < Z.of_nat (length (stored_bitset v)) ->
  ReadStorageBit i v = Done (bool_decide (is_Some (get v i))).
Proof.
  intros Hw Hi Hl. rewrite <- (wf_bit _ Hw) by done. unfold ReadStorageBit, bit.
  pose proof (Z.div_pos i 64 Hi ltac:(lia)). pose proof (Z.mod_pos_bound i 64 ltac:(lia)).
  destruct (lookup_lt_is_Some_2 (stored_bitset v) (Z.to_nat (i / 64)) ltac:(lia)) as [w ->]. cbn.
  by rewrite read_bit by lia.
Qed.

(** [is_allocated] tells whether there is an object, for indices the bitset
    reaches. *)
Lemma is_allocated_ok v i : wf v -> 0 <= i < values_capacity v ->
  is_allocated i v = Done (bool_decide (is_Some (get v i))).
Proof.
  intros Hw Hi. apply ReadStorageBit_ok; [done|lia|]. rewrite (wf_bitset _ Hw).
  pose proof (Z.div_mod i 64). pose proof (Z.mod_pos_bound i 64).
  pose proof (Z.div_mod (values_capacity v + 63) 64). pose proof (Z.mod_pos_bound (values_capacity v + 63) 64). lia.
Qed.

Lemma index_ok v i x : 0 <= i -> get v i = Some x -> index i v = Done x.
Proof.
  unfold get, index. intros Hi. rewrite (proj2 (Z.leb_le _ _) Hi).
  destruct (values v !! Z.to_nat i) as [[y|]|]; cbn; congruence.
Qed.

(** ** Growing *)

Lemma move_word_ok (fuel : nat) (bits i : Z) old new :
  0 <= i -> 0 <= bits < 2 ^ Z.of_nat fuel ->
  (forall k, 0 <= k -> Z.testbit bits k = true ->
    exists x, old !! Z.to_nat (i + k) = Some (Some x) /\ (Z.to_nat (i + k) < length new)%nat) ->
  exists new', move_word fuel bits i old new = Done new' /\ length new' = length new /\
    forall (j : nat), new' !! j = if (i <=? Z.of_nat j) && Z.testbit bits (Z.of_nat j - i) then old !! j else new !! j.
Proof.
  revert bits i new. induction fuel as [|fuel IH]; intros bits i new Hi Hb Hold; cbn [move_word].
  { assert (bits = 0) as -> by (cbn in Hb; lia). exists new. split_and!; try done. intros j.
    by rewrite Z.bits_0, andb_false_r. }
  destruct (Z.eqb_spec bits 0) as [->|Hne].
  { exists new. split_and!; try done. intros j. by rewrite Z.bits_0, andb_false_r. }
  assert (Hstep : exists new1, (if Z.land bits 1 =? 0 then Done new else
        match old !! Z.to_nat i, new !! Z.to_nat i with
        | Some (Some x), Some _ => Done (<[Z.to_nat i := Some x]> new)
        | _, _ => Raised Undefined
        end) = Done new1 /\ length new1 = length new /\
        forall (j : nat), new1 !! j = if (i =? Z.of_nat j) && Z.testbit bits 0 then old !! j else new !! j).
  { assert (Z.land bits 1 = Z.land (Z.shiftr bits 0) 1) as -> by (by rewrite Z.shiftr_0_r). pose proof (read_bit bits 0 ltac:(lia)) as Hr.
    destruct (_ =? 0); cbn [negb] in Hr; rewrite <- Hr.
    - exists new. split_and!; try done. intros j. by rewrite andb_false_r.
    - destruct (Hold 0 ltac:(lia) ltac:(done)) as (x & Ex & Hl). rewrite Z.add_0_r in *. rewrite Ex.
      destruct (lookup_lt_is_Some_2 new (Z.to_nat i) Hl) as [o ->]. eexists. split; [done|].
      split; [by rewrite length_insert|]. intros j. rewrite andb_true_r.
      destruct (Z.eqb_spec i (Z.of_nat j)) as [Ej|].
      + assert (j = Z.to_nat i) as -> by lia. by rewrite list_lookup_insert_eq, Ex.
      + by rewrite list_lookup_insert_ne by lia. }
  destruct Hstep as (new1 & -> & Hl1 & H1). cbn [obind].
  destruct (IH (Z.shiftr bits 1) (i + 1) new1) as (new' & E & Hl & Hnew);
    [lia|by apply shiftr_word| |].
  { intros k Hk Hbit. rewrite Z.shiftr_spec in Hbit by lia. destruct (Hold (k + 1) ltac:(lia) Hbit) as (x & ? & ?).
    exists x. rewrite Hl1. by replace (i + 1 + k) with (i + (k + 1)) by lia. }
  exists new'. split; [done|]. split; [congruence|]. intros j. rewrite Hnew, H1.
  destruct (Z.leb_spec (i + 1) (Z.of_nat j)); cbn [andb].
  - rewrite Z.shiftr_spec, (proj2 (Z.eqb_neq i _)), (proj2 (Z.leb_le i _)) by lia.
    by replace (Z.of_nat j - (i + 1) + 1) with (Z.of_nat j - i) by lia.
  - destruct (Z.eqb_spec i (Z.of_nat j)) as [<-|]; cbn [andb].
    + by rewrite Z.leb_refl, Z.sub_diag.
    + by rewrite (proj2 (Z.leb_gt i _)) by lia.
Qed.

Lemma bit_cons (w : Z) (b : list Z) k : 0 <= w < W64 -> 0 <= k ->
  bit (w :: b) k = Z.testbit w k || (64 <=? k) && bit b (k - 64).
Proof.
  intros Hw Hk. apply word_testbit in Hw as [_ Hw]. unfold bit. destruct (Z.leb_spec 64 k) as [Hl|Hl].
  - rewrite (Hw k) by lia. pose proof (Z.div_add (k - 64) 1 64 ltac:(lia)) as Hd.
    pose proof (Z.mod_add (k - 64) 1 64 ltac:(lia)) as Hm. replace (k - 64 + 1 * 64) with k in Hd, Hm by lia.
    rewrite Hd, Hm, Z2Nat.inj_add, Nat.add_1_r by (try apply Z.div_pos; lia). done.
  - by rewrite Z.div_small, Z.mod_small, orb_false_r by lia.
Qed.

Lemma move_all_ok (words : list Z) (index : Z) old new :
  0 <= index -> Forall (fun w => 0 <= w < W64) words ->
  (forall k, 0 <= k -> bit words k = true ->
    exists x, old !! Z.to_nat (index + k) = Some (Some x) /\ (Z.to_nat (index + k) < length new)%nat) ->
  exists new', move_all words index old new = Done new' /\ length new' = length new /\
    forall (j : nat), new' !! j = if (index <=? Z.of_nat j) && bit words (Z.of_nat j - index) then old !! j else new !! j.
Proof.
  revert index new. induction words as [|w words IH]; intros index new Hi Hw Hold; cbn [move_all].
  { exists new. split_and!; try done. intros j. by rewrite andb_false_r. }
  apply Forall_cons in Hw as [Hw Hws].
  destruct (move_word_ok 64 w index old new) as (n1 & E1 & Hl1 & H1); [done|done| |].
  { intros k Hk Hb. apply Hold; [done|]. by rewrite bit_cons, Hb. }
  rewrite E1. cbn [obind]. destruct (IH (index + 64) n1) as (n2 & E2 & Hl2 & H2); [lia|done| |].
  { intros k Hk Hb. replace (index + 64 + k) with (index + (64 + k)) by lia. rewrite Hl1. apply Hold; [lia|].
    rewrite bit_cons, (proj2 (Z.leb_le _ _)) by lia. replace (64 + k - 64) with k by lia. by rewrite Hb, orb_true_r. }
  exists n2. split; [done|]. split; [congruence|]. intros j. rewrite H2, H1.
  destruct (Z.leb_spec index (Z.of_nat j)) as [Hj|]; cbn [andb]; [|by rewrite (proj2 (Z.leb_gt _ _)) by lia].
  rewrite bit_cons by lia. replace (Z.of_nat j - (index + 64)) with (Z.of_nat j - index - 64) by lia.
  destruct (Z.leb_spec (index + 64) (Z.of_nat j)).
  - rewrite (proj2 (Z.leb_le 64 _)) by lia. apply word_testbit in Hw as [_ Hw]. by rewrite (Hw (_ - _)) by lia.
  - by rewrite (proj2 (Z.leb_gt 64 _)), orb_false_r by lia.
Qed.

Lemma bit_resize (n : Z) (b : list Z) i : Z.of_nat (length b) <= n -> bit (resize n b) i = bit b i.
Proof.
  intros Hn. unfold bit, resize. rewrite take_ge by lia.
  destruct (decide (Z.to_nat (i / 64) < length b)%nat) as [Hl|Hl]; [by rewrite lookup_app_l|].
  rewrite lookup_app_r, (lookup_ge_None_2 b) by lia. cbn.
  destruct (replicate _ 0 !! _) as [w|] eqn:E; [|done]. apply lookup_replicate in E as [-> _]. apply Z.bits_0.
Qed.

Lemma map_u32_seqZ (a n : Z) : 0 <= a -> a + n <= W32 -> map u32 (seqZ a n) = seqZ a n.
Proof.
  intros Ha Hn. rewrite <- (list_fmap_id (seqZ a n)) at 2. apply list_fmap_ext. intros k x E.
  apply list_elem_of_lookup_2, elem_of_seqZ in E. unfold u32. rewrite Z.mod_small; [done|lia].
Qed.

(** [Reserve] with a larger capacity keeps every object and pushes the new
    indices. *)
Lemma Reserve_ok v (n : Z) : wf v -> values_capacity v <= n <= W32 ->
  exists v', Reserve n v = Done v' /\ wf v' /\ values_capacity v' = n /\ (forall i, get v' i = get v i) /\
    free_list v' = seqZ (values_capacity v) (n - values_capacity v) ++ free_list v.
Proof.
  intros [[Hc Hc'] Hbs Hws Hb [Hnd Hf]] Hn. pose proof (Z.div_le_mono (values_capacity v + 63) (n + 63) 64 ltac:(lia) ltac:(lia)).
  destruct (move_all_ok (stored_bitset v) 0 (values v) (replicate (Z.to_nat n) None)) as (new & E & Hl & Hnew); [lia|done| |].
  { intros k Hk Hbk. rewrite Hb in Hbk by done. apply bool_decide_eq_true in Hbk as [x Hx]. exists x.
    unfold get in Hx. rewrite (proj2 (Z.leb_le _ _) Hk) in Hx. rewrite Z.add_0_l, length_replicate.
    destruct (values v !! Z.to_nat k) as [o|] eqn:Eo; cbn in Hx; [|done]. subst o. split; [done|].
    apply lookup_lt_Some in Eo. lia. }
  rewrite length_replicate in Hl. unfold Reserve. rewrite E. cbn [obind]. eexists. split; [done|].
  rewrite map_u32_seqZ by lia.
  assert (Hget : forall i, get (mk new n (resize ((n + 63) / 64) (stored_bitset v))
    (seqZ (values_capacity v) (n - values_capacity v) ++ free_list v)) i = get v i).
  { intros i. pose proof (Hb i) as Hbi. unfold get in Hbi |- *. cbn [values]. destruct (Z.leb_spec 0 i); [|done].
    specialize (Hbi ltac:(done)). rewrite Hnew, Z2Nat.id, Z.sub_0_r, (proj2 (Z.leb_le 0 i)), Hbi by done. cbn [andb].
    case_bool_decide as Hs; [done|]. rewrite <- eq_None_not_Some in Hs. rewrite Hs.
    destruct (replicate _ None !! _) as [o|] eqn:Eo; [|done]. by apply lookup_replicate in Eo as [-> _]. }
  split; [|done]. split; cbn [values values_capacity stored_bitset free_list].
  - split; lia.
  - unfold resize. rewrite take_ge, length_app, length_replicate by lia. lia.
  - unfold resize. apply Forall_app. split; [by apply Forall_take|]. apply Forall_replicate. unfold W64. lia.
  - intros i Hi. by rewrite bit_resize, Hb, Hget by lia.
  - split.
    + apply NoDup_app. split_and!; [apply NoDup_seqZ| |done]. intros x Hx%elem_of_seqZ Hx'%Hf. lia.
    + intros i. rewrite elem_of_app, elem_of_seqZ, Hf, Hget. split; [|destruct (decide (i < values_capacity v)); intuition lia].
      intros [?|[? ?]]; [|split; [lia|done]]. split; [lia|]. unfold get. rewrite (proj2 (Z.leb_le 0 i)) by lia.
      by rewrite lookup_ge_None_2 by lia.
Qed.

Lemma ctor_ok : exists v, ctor = Done v /\ wf v /\ values_capacity v = InitialCapacity /\ forall i, get v i = None.
Proof.
  destruct (Reserve_ok (mk [] 0 [] []) InitialCapacity) as (v & E & Hw & Hc & Hg & _); [|done|].
  - split; try done; [intros i Hi; unfold get; by destruct (0 <=? i)|]. split; [constructor|]. intros i. split; [by intros ?%elem_of_nil|]. cbn. lia.
  - exists v. split_and!; try done. intros i. rewrite Hg. unfold get. by destruct (_ <=? _).
Qed.

(** ** Writing slots *)

Definition reslot i (o : option T) v : t T :=
  mk (<[Z.to_nat i := o]> (values v)) (values_capacity v) (stored_bitset v) (free_list v).

Lemma write_slot_ok v i (o : option T) : wf v -> 0 <= i < values_capacity v -> write_slot i o v = Done (reslot i o v).
Proof.
  intros Hw Hi. pose proof (wf_cap _ Hw). unfold write_slot.
  by destruct (lookup_lt_is_Some_2 (values v) (Z.to_nat i) ltac:(lia)) as [? ->].
Qed.

Lemma get_reslot v i j (o : option T) : wf v -> 0 <= i < values_capacity v ->
  get (reslot i o v) j = if j =? i then o else get v j.
Proof.
  intros Hw Hi. pose proof (wf_cap _ Hw). unfold get, reslot. cbn. destruct (Z.eqb_spec j i) as [->|Hne].
  - by rewrite (proj2 (Z.leb_le 0 i)), list_lookup_insert_eq by lia.
  - destruct (Z.leb_spec 0 j); [|done]. by rewrite list_lookup_insert_ne by lia.
Qed.

Lemma bit_insert (b : list Z) i j (w w' : Z) (c : bool) : 0 <= i -> 0 <= j -> b !! Z.to_nat (i / 64) = Some w ->
  (forall k, 0 <= k < 64 -> Z.testbit w' k = if k =? i mod 64 then c else Z.testbit w k) ->
  bit (<[Z.to_nat (i / 64) := w']> b) j = if j =? i then c else bit b j.
Proof.
  intros Hi Hj Ew Hw'. unfold bit.
  pose proof (Z.div_mod i 64 ltac:(lia)). pose proof (Z.div_mod j 64 ltac:(lia)).
  pose proof (Z.mod_pos_bound i 64 ltac:(lia)). pose proof (Z.mod_pos_bound j 64 ltac:(lia)).
  pose proof (Z.div_pos i 64 Hi ltac:(lia)). pose proof (Z.div_pos j 64 Hj ltac:(lia)).
  destruct (decide (j / 64 = i / 64)) as [Ed|Ed].
  - rewrite Ed, list_lookup_insert_eq, Ew by (by eapply lookup_lt_Some). cbn. rewrite Hw' by lia.
    destruct (Z.eqb_spec j i) as [->|]; [by rewrite Z.eqb_refl|]. by rewrite (proj2 (Z.eqb_neq _ _)) by lia.
  - rewrite list_lookup_insert_ne by lia. by rewrite (proj2 (Z.eqb_neq j i)) by (intros ->; done).
Qed.

(** Changing the object in a slot, the bit and the free list with it. *)
Lemma rewrite_slot_wf v i (o : option T) (w w' : Z) (free : list Z) :
  wf v -> 0 <= i < values_capacity v -> stored_bitset v !! Z.to_nat (i / 64) = Some w -> 0 <= w' < W64 ->
  (forall k, 0 <= k < 64 -> Z.testbit w' k = if k =? i mod 64 then bool_decide (is_Some o) else Z.testbit w k) ->
  NoDup free -> (forall j, j ∈ free <-> 0 <= j < values_capacity v /\ (if j =? i then o else get v j) = None) ->
  wf (mk (<[Z.to_nat i := o]> (values v)) (values_capacity v) (<[Z.to_nat (i / 64) := w']> (stored_bitset v)) free).
Proof.
  intros Hwf Hi Ew Hw' Hk Hnd Hfree. pose proof Hwf as [[Hc Hc'] Hbs Hws Hb _].
  assert (Hg : forall j b f, get (mk (<[Z.to_nat i := o]> (values v)) (values_capacity v) b f) j = if j =? i then o else get v j).
  { intros j b f. by rewrite <- (get_reslot v i j o Hwf Hi). }
  split; cbn [values values_capacity stored_bitset free_list].
  - rewrite length_insert. done.
  - by rewrite length_insert.
  - by apply Forall_insert.
  - intros j Hj. rewrite (bit_insert _ _ _ _ _ (bool_decide (is_Some o)) (proj1 Hi) Hj Ew Hk), Hg, Hb by done.
    by destruct (j =? i).
  - split; [done|]. intros j. by rewrite Hfree, Hg.
Qed.

Lemma bitset_at v i : wf v -> 0 <= i < values_capacity v ->
  exists w, stored_bitset v !! Z.to_nat (i / 64) = Some w /\ 0 <= w < W64.
Proof.
  intros Hw Hi. pose proof (wf_bitset _ Hw).
  assert (i / 64 < (values_capacity v + 63) / 64) by (apply Z.div_lt_upper_bound; [lia|];
    pose proof (Z.mul_succ_div_gt (values_capacity v + 63) 64 ltac:(lia)); lia).
  pose proof (Z.div_pos i 64 ltac:(lia) ltac:(lia)).
  destruct (lookup_lt_is_Some_2 (stored_bitset v) (Z.to_nat (i / 64)) ltac:(lia)) as [w E]. exists w. split; [done|].
  by eapply (Forall_lookup_1 _ _ _ _ (wf_words _ Hw)).
Qed.

(** ** Inserting *)

Lemma FreeValueIndex_ok v : wf v -> values_capacity v * 2 <= W32 -> exists i rest v1,
  FreeValueIndex v = Done (i, mk (values v1) (values_capacity v1) (stored_bitset v1) rest) /\
  wf v1 /\ free_list v1 = i :: rest /\ (forall j, get v1 j = get v j).
Proof.
  intros Hw Hc. unfold FreeValueIndex. destruct (free_list v) as [|i rest] eqn:Ef.
  - pose proof (wf_cap _ Hw) as [? _]. set (n := if negb _ then _ else _).
    assert (values_capacity v < n <= W32) as Hn.
    { subst n. destruct (Z.eqb_spec (values_capacity v) 0) as [->|]; cbn; [unfold W32; lia|].
      rewrite Z.shiftl_mul_pow2 by lia. lia. }
    destruct (Reserve_ok v n Hw) as (v1 & E & Hw1 & Hc1 & Hg & Hf); [lia|]. rewrite E. cbn [obind].
    rewrite Hf, seqZ_cons by lia. cbn [app]. eexists _, _, v1. split_and!; try done. by rewrite Hf, seqZ_cons by lia.
  - cbn [obind]. rewrite Ef. by exists i, rest, v.
Qed.

(** [insert] always succeeds below 2^31 slots, at an index that was not in use. *)
Lemma insert_ok v (x : T) : wf v -> values_capacity v * 2 <= W32 ->
  exists i v', insert x v = Done (i, v') /\ wf v' /\ get v i = None /\ 0 <= i < values_capacity v' /\
    forall j, get v' j = if j =? i then Some x else get v j.
Proof.
  intros Hw Hc. destruct (FreeValueIndex_ok v Hw Hc) as (i & rest & v1 & E & Hw1 & Hf & Hg). unfold insert. rewrite E. cbn [obind].
  pose proof (wf_free _ Hw1) as [Hnd Hin]. destruct (proj1 (Hin i)) as [Hi Hnone]; [rewrite Hf; by left|].
  set (v2 := mk _ _ _ _). assert (write_slot i (Some x) v2 = Done (reslot i (Some x) v2)) as ->.
  { unfold write_slot. subst v2. cbn. pose proof (wf_cap _ Hw1).
    by destruct (lookup_lt_is_Some_2 (values v1) (Z.to_nat i) ltac:(lia)) as [? ->]. }
  destruct (bitset_at v1 i Hw1 Hi) as (w & Ew & Hww). cbn [obind]. unfold SetStorageBit, map_word, reslot, v2. cbn [stored_bitset].
  rewrite Ew. cbn [obind values values_capacity stored_bitset free_list].
  pose proof (Z.mod_pos_bound i 64 ltac:(lia)). rewrite Hf in Hnd, Hin. apply NoDup_cons in Hnd as [Hni Hnd].
  eexists i, _. split; [done|]. split_and!.
  - eapply rewrite_slot_wf; [done|done|exact Ew|by apply set_word| |done|].
    + intros k Hk. rewrite set_bit by lia. by destruct (k =? i mod 64).
    + intros j. destruct (Z.eqb_spec j i) as [->|Hne]; [split; [done|by intros [_ ?]]|].
      rewrite <- Hin, elem_of_cons. intuition.
  - by rewrite <- Hg.
  - apply Hi.
  - apply Hi.
  - intros j. rewrite <- Hg. by rewrite <- (get_reslot v1 i j (Some x) Hw1 Hi).
Qed.

(** [erase] of an index in use always succeeds and frees it. *)
Lemma erase_ok v i (x : T) : wf v -> get v i = Some x ->
  exists v', erase i v = Done v' /\ wf v' /\ values_capacity v' = values_capacity v /\
    forall j, get v' j = if j =? i then None else get v j.
Proof.
  intros Hw Hx. pose proof (get_range _ _ _ Hw Hx) as Hi. unfold erase.
  rewrite (index_ok v i x) by (lia || done). cbn [obind]. rewrite write_slot_ok by done. cbn [obind].
  destruct (bitset_at v i Hw Hi) as (w & Ew & Hww). unfold ResetStorageBit, map_word, reslot. cbn [stored_bitset]. rewrite Ew.
  cbn [values values_capacity stored_bitset free_list].
  pose proof (Z.mod_pos_bound i 64 ltac:(lia)). pose proof (wf_free _ Hw) as [Hnd Hin].
  eexists. split; [done|]. split_and!; [|done|].
  - eapply rewrite_slot_wf; [done|done|exact Ew|by apply reset_word| | |].
    + intros k Hk. rewrite reset_bit by lia. by destruct (k =? i mod 64).
    + apply NoDup_cons. split; [|done]. rewrite Hin, Hx. by intros [_ ?].
    + intros j. rewrite elem_of_cons, Hin. destruct (Z.eqb_spec j i) as [->|]; intuition.
  - intros j. by rewrite <- (get_reslot v i j None Hw Hi).
Qed.

(** Changing an object in place. *)
Lemma update_ok v i (x y : T) : wf v -> get v i = Some x ->
  exists v', write_slot i (Some y) v = Done v' /\ wf v' /\ values_capacity v' = values_capacity v /\
    forall j, get v' j = if j =? i then Some y else get v j.
Proof.
  intros Hw Hx. pose proof (get_range _ _ _ Hw Hx) as Hi. rewrite write_slot_ok by done. eexists. split; [done|].
  pose proof (fun j => get_reslot v i j (Some y) Hw Hi) as Hg. split_and!; [|done|exact Hg].
  destruct Hw as [[Hc Hc'] Hbs Hws Hb [Hnd Hf]]. split; cbn [values values_capacity stored_bitset free_list reslot].
  - by rewrite length_insert.
  - done.
  - done.
  - intros j Hj. rewrite Hb, Hg by done. destruct (Z.eqb_spec j i) as [->|]; [by rewrite Hx|done].
  - split; [done|]. intros j. rewrite Hf, Hg. destruct (Z.eqb_spec j i) as [->|]; [rewrite Hx; split; by intros [_ ?]|done].
Qed.

(** ** Iterating *)

(** The indices in use from [a] on, in increasing order. *)
Definition used v (a : Z) : list Z :=
  filter (fun i => is_Some (get v i)) (seqZ a (values_capacity v - a)).

Lemma used_end v : used v (values_capacity v) = [].
Proof. unfold used. by rewrite Z.sub_diag. Qed.

Lemma used_step v (a : Z) : a < values_capacity v ->
  used v a = if bool_decide (is_Some (get v a)) then a :: used v (a + 1) else used v (a + 1).
Proof.
  intros Ha. unfold used. rewrite (seqZ_cons a) by lia.
  replace (Z.pred (values_capacity v - a)) with (values_capacity v - (a + 1)) by lia.
  change (Z.succ a) with (a + 1). rewrite filter_cons. by case_bool_decide; case_decide.
Qed.

Lemma AdvanceToValid_ok v (fuel : nat) (a : Z) :
  wf v -> values_capacity v < W32 -> 0 <= a <= values_capacity v -> values_capacity v - a <= Z.of_nat fuel ->
  exists b, AdvanceToValid fuel a v = Done b /\ a <= b <= values_capacity v /\ used v a = used v b /\
    (b < values_capacity v -> is_Some (get v b)).
Proof.
  intros Hw Hc. revert a. induction fuel as [|fuel IH]; intros a Ha Hf; cbn [AdvanceToValid];
    (destruct (Z.leb_spec (values_capacity v) a); [exists a; split_and!; try done; lia|]); [lia|].
  fold (is_allocated a v). rewrite is_allocated_ok by (done || lia). cbn [obind].
  case_bool_decide as Hs; [exists a; split_and!; done || lia|].
  unfold u32. rewrite Z.mod_small by lia. destruct (IH (a + 1)) as (b & E & Hb & Hu & Hx); [lia|lia|].
  exists b. split_and!; try done; try lia. rewrite used_step, bool_decide_eq_false_2 by done. done.
Qed.

Lemma visit_ok v (fuel : nat) (a : Z) :
  wf v -> values_capacity v < W32 -> 0 <= a <= values_capacity v -> values_capacity v - a <= Z.of_nat fuel ->
  (a < values_capacity v -> is_Some (get v a)) -> visit fuel a v = Done (used v a).
Proof.
  intros Hw Hc. revert a. induction fuel as [|fuel IH]; intros a Ha Hf Hs; cbn [visit];
    (destruct (Z.eqb_spec a (values_capacity v)) as [->|]; [by rewrite used_end|]); [lia|].
  unfold next. unfold u32. rewrite Z.mod_small by lia.
  destruct (AdvanceToValid_ok v (Z.to_nat (values_capacity v)) (a + 1)) as (b & -> & Hb & Hu & Hx); try done; [lia|lia|].
  cbn [obind]. rewrite IH by (done || lia). cbn [obind]. rewrite (used_step v a), bool_decide_eq_true_2 by (lia || (apply Hs; lia)).
  by rewrite Hu.
Qed.

(** A loop over the vector visits the indices in use, each once and in
    increasing order. *)
Lemma for_each_ok v : wf v -> values_capacity v < W32 -> for_each v = Done (used v 0).
Proof.
  intros Hw Hc. pose proof (wf_cap _ Hw). unfold for_each, begin.
  destruct (AdvanceToValid_ok v (Z.to_nat (values_capacity v)) 0) as (b & -> & Hb & -> & Hx); try done; [lia|lia|].
  cbn [obind]. apply visit_ok; done || lia.
Qed.

Lemma elem_of_used v i : wf v -> i ∈ used v 0 <-> is_Some (get v i).
Proof.
  intros Hw. unfold used. rewrite list_elem_of_filter, elem_of_seqZ. split; [by intros [? _]|].
  intros [x Hx]. split; [done|]. pose proof (get_range _ _ _ Hw Hx). lia.
Qed.

(** [size()] is the number of indices in use. *)
Lemma size_ok v : wf v -> size v = Z.of_nat (length (used v 0)).
Proof.
  intros Hw. pose proof (wf_cap _ Hw). pose proof (wf_free _ Hw) as [Hnd Hin].
  assert (free_list v ++ used v 0 ≡ₚ seqZ 0 (values_capacity v)) as Hp.
  { apply NoDup_Permutation; [|apply NoDup_seqZ|].
    - apply NoDup_app. split_and!; [done| |apply NoDup_filter, NoDup_seqZ].
      intros i [_ Hn]%Hin [x Hx]%elem_of_used; [congruence|done].
    - intros i. rewrite elem_of_app, elem_of_used, Hin, elem_of_seqZ by done. split.
      + intros [?|[x Hx]]; [lia|]. pose proof (get_range _ _ _ Hw Hx). lia.
      + intros Hi. destruct (get v i) eqn:E; [right; eauto|left; split; [lia|done]]. }
  apply Permutation_length in Hp. rewrite length_app, length_seqZ in Hp. unfold size. lia.
Qed.

End Facts.

(** ** The interface

    What a user of the pool relies on: operations, the map they act on, and
    when they are defined. *)
Class SlotStore (T V : Type) := {
  slot_get : V -> Z -> option T;
  slot_ok : V -> Prop;
  slot_room : V -> Prop;
  slot_allocated : Z -> V -> outcome bool;
  slot_index : Z -> V -> outcome T;
  slot_insert : T -> V -> outcome (Z * V);
  slot_erase : Z -> V -> outcome V;
  slot_allocated_spec v i x : slot_ok v -> slot_get v i = Some x -> slot_allocated i v = Done true;
  slot_allocated_sound v i : slot_ok v -> 0 <= i -> slot_allocated i v = Done true -> exists x, slot_get v i = Some x;
  slot_index_spec v i x : slot_ok v -> slot_get v i = Some x -> slot_index i v = Done x;
  slot_insert_spec v x : slot_ok v -> slot_room v -> exists i v', slot_insert x v = Done (i, v') /\ slot_ok v' /\
    slot_get v i = None /\ 0 <= i < W32 /\ forall j, slot_get v' j = if j =? i then Some x else slot_get v j;
  slot_erase_spec v i x : slot_ok v -> slot_get v i = Some x -> exists v', slot_erase i v = Done v' /\ slot_ok v' /\
    forall j, slot_get v' j = if j =? i then None else slot_get v j }.

#[export, refine] Instance SlotVector_store (T : Type) : SlotStore T (SlotVector.t T) := {
  slot_get := get; slot_ok := wf; slot_room v := values_capacity v * 2 <= W32;
  slot_allocated := is_allocated; slot_index := index; slot_insert := insert; slot_erase := erase }.
Proof.
  - intros v i x Hw Hx. rewrite is_allocated_ok by (done || by eapply get_range). by rewrite Hx.
  - intros v i Hw Hi E. unfold is_allocated, ReadStorageBit in E.
    destruct (stored_bitset v !! Z.to_nat (i / 64)) as [w|] eqn:Ew; [|done].
    pose proof (Z.div_pos i 64 Hi ltac:(lia)). apply lookup_lt_Some in Ew as Hl.
    assert (ReadStorageBit i v = Done true) as E' by (unfold ReadStorageBit; by rewrite Ew).
    rewrite ReadStorageBit_ok in E' by (done || lia). injection E' as E'. by apply bool_decide_eq_true in E'.
  - intros v i x Hw Hx. apply index_ok; [|done]. eapply get_range; done.
  - intros v x Hw Hr. destruct (insert_ok v x Hw Hr) as (i & v' & E & Hw' & Hn & Hi & Hg).
    exists i, v'. pose proof (wf_cap _ Hw'). split_and!; try done; lia.
  - intros v i x Hw Hx. destruct (erase_ok v i x Hw Hx) as (v' & E & Hw' & _ & Hg). eauto.
Defined.

(** ** The property *)

(** Vectors reached by inserting (below 2^31 slots), erasing objects that are
    there, and changing them in place. *)
Inductive sv_reach {T} : SlotVector.t T -> Prop :=
  | sv_ctor v : ctor = Done v -> sv_reach v
  | sv_insert v x i v' : sv_reach v -> values_capacity v * 2 <= W32 -> insert x v = Done (i, v') -> sv_reach v'
  | sv_erase v i x v' : sv_reach v -> get v i = Some x -> erase i v = Done v' -> sv_reach v'
  | sv_write v i x y v' : sv_reach v -> get v i = Some x -> write_slot i (Some y) v = Done v' -> sv_reach v'.

Lemma sv_reach_wf {T} (v : SlotVector.t T) : sv_reach v -> wf v.
Proof.
  induction 1 as [v E|v x i v' _ IH Hc E|v i x v' _ IH Hx E|v i x y v' _ IH Hx E].
  - destruct (@ctor_ok T) as (v' & E' & Hw & _). congruence.
  - destruct (insert_ok v x IH Hc) as (i1 & v1 & E1 & Hw & _). congruence.
  - destruct (erase_ok v i x IH Hx) as (v1 & E1 & Hw & _). congruence.
  - destruct (update_ok v i x y IH Hx) as (v1 & E1 & Hw & _). congruence.
Qed.

(** after any history of insertions and removals a slot vector is a finite
    map: an insertion always succeeds at an index that was not in use and adds
    exactly that object, growing when it must; looking up, testing and erasing
    an index in use find its object; and a loop over the vector visits exactly
    the indices in use, in order, [size()] of them. *)
Theorem SlotVector_refines_map {T} (v : SlotVector.t T) (H : sv_reach v) (Hroom : values_capacity v * 2 <= W32) :
  (forall x, exists i v', insert x v = Done (i, v') /\ get v i = None /\ 0 <= i < W32 /\
    forall j, get v' j = if j =? i then Some x else get v j) /\
  (forall i x, get v i = Some x -> index i v = Done x /\ is_allocated i v = Done true /\
    exists v', erase i v = Done v' /\ forall j, get v' j = if j =? i then None else get v j) /\
  (forall i, 0 <= i < values_capacity v -> get v i = None -> is_allocated i v = Done false) /\
  for_each v = Done (used v 0) /\ (forall i, i ∈ used v 0 <-> is_Some (get v i)) /\ size v = Z.of_nat (length (used v 0)).
Proof.
  pose proof (sv_reach_wf v H) as Hw. pose proof (wf_cap _ Hw) as [Hc _]. split_and!.
  - intros x. destruct (insert_ok v x Hw Hroom) as (i & v' & E & Hw' & Hn & Hi & Hg). exists i, v'.
    pose proof (wf_cap _ Hw'). split_and!; try done; lia.
  - intros i x Hx. pose proof (get_range _ _ _ Hw Hx). split_and!.
    + apply index_ok; [lia|done].
    + rewrite is_allocated_ok by done. by rewrite Hx.
    + destruct (erase_ok v i x Hw Hx) as (v' & E & _ & _ & Hg). eauto.
  - intros i Hi Hn. rewrite is_allocated_ok by done. by rewrite Hn.
  - apply for_each_ok; [done|]. unfold W32 in *. lia.
  - intros i. by apply elem_of_used.
  - by apply size_ok.
Qed.

Lemma SlotVector_refines_map_witness : exists v, @ctor string = Done v /\ for_each v = Done (used v 0).
Proof.
  destruct (@ctor_ok string) as (v & E & Hw & Hc & _). exists v. split; [exact E|].
  apply (SlotVector_refines_map v); [by apply sv_ctor|]. rewrite Hc. vm_compute. congruence.
Defined.
