(* ===== verification/Semaphore.v ===== *)
(** * Semaphore: the kernel's counting semaphores

    [core/libraries/kernel/threads/semaphore.cpp].  [OrbisSem] is the class
    behind [sceKernel*Sema], an object with a count of tokens and an ordered
    list of waiting threads.  Every method body runs under the object's mutex,
    except the sleep inside [WaitingThread::Wait]; so a call of [Wait] that
    blocks is two steps, [Wait_begin] up to the sleep and [Wait_end] from the
    moment the mutex is held again, and any other steps may come between. *)

From stdpp Require Import gmap.
From S2P Require Import Prelude SlotVector SlotFacts.

(** The calling thread ([g_curthread]): what the code reads of it. *)
Record Pthread := mkThread { tid : Z; prio : Z; thread_name : string }.

Module OrbisSem.

(** [WaitingThread]: lives on the stack of the waiting thread; [sem] is its
    binary semaphore's count. *)
Record WaitingThread := mkWaiter {
  sem : Z;
  priority : Z;
  need_count : Z;
  thr_name : string;
  was_signaled : bool;
  was_deleted : bool;
  was_canceled : bool }.

Definition WaitingThread_ctor (cur : Pthread) (need_count : Z) (is_fifo : bool) : WaitingThread :=
  mkWaiter 0 (if is_fifo then 0 else u32 (prio cur)) need_count (thread_name cur) false false false.

Definition GetResult (w : WaitingThread) : Z :=
  if was_signaled w then ORBIS_OK
  else if was_deleted w then ORBIS_KERNEL_ERROR_EACCES
  else if was_canceled w then ORBIS_KERNEL_ERROR_ECANCELED
  else ORBIS_KERNEL_ERROR_ETIMEDOUT.

(** A thread inside [OrbisSem::Wait]: its waiter, the semaphore it waits on and
    the value behind its [timeout] pointer, if it has one. *)
Record Frame := mkFrame { waiter : WaitingThread; this : Z; timeout : option Z }.
Abbreviation Frames := (gmap Z Frame).

(** A wake-up sets one flag of the waiter and releases its semaphore, which
    must not be released already. *)
Definition wake_up (set : WaitingThread -> WaitingThread) (t : Z) (fs : Frames) : outcome Frames :=
  match fs !! t with
  | None => Raised Undefined
  | Some f =>
      let w := set (waiter f) in
      if 1 <=? sem w then Raised Undefined else
      Done (<[t := mkFrame (mkWaiter (sem w + 1) (priority w) (need_count w) (thr_name w)
                             (was_signaled w) (was_deleted w) (was_canceled w)) (this f) (timeout f)]> fs)
  end.

Definition set_signaled (w : WaitingThread) : WaitingThread :=
  mkWaiter (sem w) (priority w) (need_count w) (thr_name w) true (was_deleted w) (was_canceled w).
Definition set_deleted (w : WaitingThread) : WaitingThread :=
  mkWaiter (sem w) (priority w) (need_count w) (thr_name w) (was_signaled w) true (was_canceled w).
Definition set_canceled (w : WaitingThread) : WaitingThread :=
  mkWaiter (sem w) (priority w) (need_count w) (thr_name w) (was_signaled w) (was_deleted w) true.

(** The object; [wait_list] holds pointers to waiters, named by their thread. *)
Record t := mk {
  wait_list : list Z;
  name : string;
  token_count : Z;
  max_count : Z;
  init_count : Z;
  is_fifo : bool }.

Definition ctor (init_count max_count : Z) (name : string) (is_fifo : bool) : t :=
  mk [] name init_count max_count init_count is_fifo.

Definition with_tokens (n : Z) (s : t) : t := mk (wait_list s) (name s) n (max_count s) (init_count s) (is_fifo s).
Definition with_list (l : list Z) (s : t) : t := mk l (name s) (token_count s) (max_count s) (init_count s) (is_fifo s).

(** [AddWaiter]: at the end, or before the first waiter of lower priority. *)
Fixpoint insert_sorted (t p : Z) (l : list Z) (fs : Frames) : outcome (list Z) :=
  match l with
  | [] => Done [t]
  | t' :: l' =>
      match fs !! t' with
      | None => Raised Undefined
      | Some f =>
          if priority (waiter f) <=? p
          then let! r := insert_sorted t p l' fs in Done (t' :: r)
          else Done (t :: l)
      end
  end.

Definition AddWaiter (t : Z) (w : WaitingThread) (s : OrbisSem.t) (fs : Frames) : outcome OrbisSem.t :=
  if is_fifo s then Done (with_list (wait_list s ++ [t]) s)
  else let! l := insert_sorted t (priority w) (wait_list s) fs in Done (with_list l s).

(** [Wait] up to the point where the thread sleeps ([None]) or the return. *)
Definition Wait_begin (cur : Pthread) (me : Z) (can_block : bool) (need : Z) (timeout : option Z)
    (s : OrbisSem.t) (fs : Frames) : outcome (option Z * OrbisSem.t * Frames) :=
  if need <=? token_count s then Done (Some ORBIS_OK, with_tokens (s32 (token_count s - need)) s, fs)
  else if negb can_block then Done (Some ORBIS_KERNEL_ERROR_EBUSY, s, fs)
  else if bool_decide (timeout = Some 0) then Done (Some ORBIS_KERNEL_ERROR_ETIMEDOUT, s, fs)
  else
    let w := WaitingThread_ctor cur need (is_fifo s) in
    let! s' := AddWaiter (tid cur) w s fs in
    Done (None, s', <[tid cur := mkFrame w me timeout]> fs).

(** The sleep ends when the semaphore was released, or by the clock when there
    is a timeout. *)
Definition may_wake (f : Frame) : bool := (1 <=? sem (waiter f)) || bool_decide (timeout f <> None).

(** [WaitingThread::Wait] once the mutex is held again; [elapsed] microseconds
    went by.  The second result is what is stored through [timeout]. *)
Definition Waiter_resume (f : Frame) (elapsed : Z) : Z * option Z :=
  (GetResult (waiter f),
   match timeout f with
   | None => None
   | Some us => Some (if was_signaled (waiter f) then u32 (us - elapsed) else 0)
   end).

(** The rest of [Wait]; the iterator of a waiter that timed out must still be in
    the list. *)
Definition Wait_end (t elapsed : Z) (f : Frame) (s : OrbisSem.t) (fs : Frames) :
    outcome (Z * option Z * OrbisSem.t * Frames) :=
  let '(result, rest) := Waiter_resume f elapsed in
  if result =? ORBIS_KERNEL_ERROR_ETIMEDOUT then
    if bool_decide (t ∈ wait_list s)
    then Done (result, rest, with_list (filter (fun u => u <> t) (wait_list s)) s, delete t fs)
    else Raised Undefined
  else Done (result, rest, s, delete t fs).

(** The loop of [Signal]: serve every waiter whose need is met, in list order. *)
Fixpoint serve (l : list Z) (tokens : Z) (fs : Frames) : outcome (list Z * Z * Frames) :=
  match l with
  | [] => Done ([], tokens, fs)
  | t :: l =>
      match fs !! t with
      | None => Raised Undefined
      | Some f =>
          let need := need_count (waiter f) in
          if tokens <? need
          then let! '(l', tokens', fs') := serve l tokens fs in Done (t :: l', tokens', fs')
          else let! fs' := wake_up set_signaled t fs in serve l (s32 (tokens - need)) fs'
      end
  end.

Definition Signal (signal_count : Z) (s : OrbisSem.t) (fs : Frames) : outcome (bool * OrbisSem.t * Frames) :=
  let sum := token_count s + signal_count in
  if negb (sum =? s32 sum) then Raised Undefined
  else if max_count s <? sum then Done (false, s, fs)
  else
    let! '(l, tokens, fs') := serve (wait_list s) sum fs in
    Done (true, with_list l (with_tokens tokens s), fs').

Fixpoint wake_all (set : WaitingThread -> WaitingThread) (l : list Z) (fs : Frames) : outcome Frames :=
  match l with
  | [] => Done fs
  | t :: l => let! fs' := wake_up set t fs in wake_all set l fs'
  end.

(** The second result is what is stored through [num_waiters]. *)
Definition Cancel (set_count : Z) (s : OrbisSem.t) (fs : Frames) : outcome (Z * Z * OrbisSem.t * Frames) :=
  let num_waiters := s32 (Z.of_nat (length (wait_list s))) in
  let! fs' := wake_all set_canceled (wait_list s) fs in
  let tokens := if set_count <? 0 then init_count s else set_count in
  Done (ORBIS_OK, num_waiters, with_list [] (with_tokens tokens s), fs').

Definition Delete (s : OrbisSem.t) (fs : Frames) : outcome (OrbisSem.t * Frames) :=
  let! fs' := wake_all set_deleted (wait_list s) fs in
  Done (with_list [] s, fs').

End OrbisSem.

(** ** The calls *)

Section Calls.
Context {V : Type} `{SlotStore Z V}.
Import OrbisSem.

(** [orbis_sems] maps handles to objects ([unique_ptr], an address of
    [objects]); [next_object] is where the next one will be allocated;
    [frames] are the threads asleep in [Wait]. *)
Record Semas := mkSemas {
  orbis_sems : V;
  objects : gmap Z OrbisSem.t;
  next_object : Z;
  frames : gmap Z Frame }.

Definition set_object (p : Z) (s : OrbisSem.t) (fs : gmap Z Frame) (k : Semas) : Semas :=
  mkSemas (orbis_sems k) (<[p := s]> (objects k)) (next_object k) fs.

(** [orbis_sems[sem]->] of a handle that was checked. *)
Definition object_of (sem : Z) (k : Semas) : outcome (Z * OrbisSem.t) :=
  let! p := slot_index sem (orbis_sems k) in
  let! s := of_option (objects k !! p) in
  Done (p, s).

(** The second result is what is stored through [sem]. *)
Definition sceKernelCreateSema (pName : option string) (attr initCount maxCount : Z) (k : Semas) :
    outcome (Z * option Z * Semas) :=
  match pName with
  | None => Done (ORBIS_KERNEL_ERROR_EINVAL, None, k)
  | Some nm =>
      if (2 <? attr) || (initCount <? 0) || (maxCount <=? 0) || (maxCount <? initCount)
      then Done (ORBIS_KERNEL_ERROR_EINVAL, None, k)
      else
        let p := next_object k in
        let! '(i, v) := slot_insert p (orbis_sems k) in
        Done (ORBIS_OK, Some i,
              mkSemas v (<[p := ctor initCount maxCount nm (attr =? 1)]> (objects k)) (p + 1) (frames k))
  end.

(** Up to the sleep; [None] when the thread sleeps. *)
Definition sema_wait (cur : Pthread) (can_block : bool) (sem need : Z) (timeout : option Z) (k : Semas) :
    outcome (option Z * Semas) :=
  let! allocated := slot_allocated sem (orbis_sems k) in
  if negb allocated then Done (Some ORBIS_KERNEL_ERROR_ESRCH, k) else
  let! '(p, s) := object_of sem k in
  let! '(r, s', fs) := Wait_begin cur p can_block need timeout s (frames k) in
  Done (r, set_object p s' fs k).

Definition sceKernelWaitSema (cur : Pthread) (sem needCount : Z) (pTimeout : option Z) : Semas -> outcome (option Z * Semas) :=
  sema_wait cur true sem needCount pTimeout.

Definition sceKernelPollSema (cur : Pthread) (sem needCount : Z) : Semas -> outcome (option Z * Semas) :=
  sema_wait cur false sem needCount None.

(** The end of a [Wait] that slept: the mutex it locks again is part of the
    object, which must still exist. *)
Definition sema_wake (t elapsed : Z) (k : Semas) : outcome (Z * option Z * Semas) :=
  match frames k !! t with
  | None => Raised Undefined
  | Some f =>
      let! s := of_option (objects k !! this f) in
      let! '(r, rest, s', fs) := Wait_end t elapsed f s (frames k) in
      Done (r, rest, set_object (this f) s' fs k)
  end.

Definition sceKernelSignalSema (sem signalCount : Z) (k : Semas) : outcome (Z * Semas) :=
  let! allocated := slot_allocated sem (orbis_sems k) in
  if negb allocated then Done (ORBIS_KERNEL_ERROR_ESRCH, k) else
  let! '(p, s) := object_of sem k in
  let! '(ok, s', fs) := Signal signalCount s (frames k) in
  Done (if negb ok then ORBIS_KERNEL_ERROR_EINVAL else ORBIS_OK, set_object p s' fs k).

Definition sceKernelCancelSema (sem setCount : Z) (k : Semas) : outcome (Z * option Z * Semas) :=
  let! allocated := slot_allocated sem (orbis_sems k) in
  if negb allocated then Done (ORBIS_KERNEL_ERROR_ESRCH, None, k) else
  let! '(p, s) := object_of sem k in
  let! '(r, n, s', fs) := Cancel setCount s (frames k) in
  Done (r, Some n, set_object p s' fs k).

(** [erase] destroys the [unique_ptr] and with it the object. *)
Definition sceKernelDeleteSema (sem : Z) (k : Semas) : outcome (Z * Semas) :=
  let! allocated := slot_allocated sem (orbis_sems k) in
  if negb allocated then Done (ORBIS_KERNEL_ERROR_ESRCH, k) else
  let! '(p, s) := object_of sem k in
  let! '(_, fs) := Delete s (frames k) in
  let! v := slot_erase sem (orbis_sems k) in
  Done (ORBIS_OK, mkSemas v (delete p (objects k)) (next_object k) fs).

End Calls.
Arguments Semas : clear implicits.
Arguments mkSemas {V}.
