(* ===== verification/SemaFacts.v ===== *)
(** * SemaFacts: the semaphores as a state machine and its invariant

    [sema_step] interleaves the calls of any number of threads; [sema_inv] says
    that a semaphore's list holds exactly the threads asleep on it that nobody
    has woken, in priority order, so that no wake-up is lost or given twice. *)

From stdpp Require Import gmap sorting.
From S2P Require Import Prelude SlotVector SlotFacts Semaphore.
Import OrbisSem.

(** ** Frames *)

(** Asleep, not yet woken. *)
Definition waiting (f : Frame) : Prop :=
  let w := waiter f in sem w = 0 /\ was_signaled w = false /\ was_deleted w = false /\ was_canceled w = false.

(** Woken for exactly one reason. *)
Definition woken (f : Frame) : Prop :=
  let w := waiter f in sem w = 1 /\
  (was_signaled w, was_deleted w, was_canceled w) ∈ [(true, false, false); (false, true, false); (false, false, true)].

(** The frame after a wake-up. *)
Definition awake (set : WaitingThread -> WaitingThread) (f : Frame) : Frame :=
  let w := set (waiter f) in
  mkFrame (mkWaiter (sem w + 1) (priority w) (need_count w) (thr_name w) (was_signaled w) (was_deleted w) (was_canceled w))
          (this f) (timeout f).

Definition prio_of (fs : gmap Z Frame) (t : Z) : Z := default 0 ((fun f => priority (waiter f)) <$> fs !! t).
Definition need_of (fs : gmap Z Frame) (t : Z) : Z := default 0 ((fun f => need_count (waiter f)) <$> fs !! t).

(** The three ways a wake-up marks a waiter. *)
Inductive marks : (WaitingThread -> WaitingThread) -> Prop :=
  | marks_signaled : marks set_signaled
  | marks_deleted : marks set_deleted
  | marks_canceled : marks set_canceled.
#[export] Hint Constructors marks : core.

Lemma awake_woken set f : marks set -> waiting f -> woken (awake set f).
Proof.
  unfold waiting, woken. destruct f as [[sm p n nm a b c] q o]. cbn. intros Hm (-> & -> & -> & ->).
  destruct Hm; cbn; split; try lia; set_solver.
Qed.

Lemma awake_this set f : this (awake set f) = this f.
Proof. done. Qed.

Lemma awake_attrs set f : marks set ->
  priority (waiter (awake set f)) = priority (waiter f) /\ need_count (waiter (awake set f)) = need_count (waiter f) /\
  timeout (awake set f) = timeout f.
Proof. by intros []. Qed.

Lemma not_both f : waiting f -> woken f -> False.
Proof. intros (H & _) (H' & _). congruence. Qed.

Lemma wake_up_ok set t (fs : gmap Z Frame) f : marks set -> fs !! t = Some f -> waiting f ->
  wake_up set t fs = Done (<[t := awake set f]> fs).
Proof.
  intros Hm E (Hs & _). unfold wake_up. rewrite E.
  assert (sem (set (waiter f)) = 0) as Hz by (destruct Hm; exact Hs). unfold awake. cbn zeta. by rewrite Hz.
Qed.

(** Frames in which exactly the threads of [l] were woken. *)
Definition roused (set : WaitingThread -> WaitingThread) (l : list Z) (fs fs' : gmap Z Frame) : Prop :=
  forall t, fs' !! t = (if bool_decide (t ∈ l) then awake set else id) <$> fs !! t.

Lemma roused_nil set fs : roused set [] fs fs.
Proof. intros t. rewrite bool_decide_eq_false_2 by set_solver. by rewrite option_fmap_id. Qed.

Lemma roused_cons set t f l (fs fs' : gmap Z Frame) :
  fs !! t = Some f -> t ∉ l -> roused set l (<[t := awake set f]> fs) fs' -> roused set (t :: l) fs fs'.
Proof.
  intros E Hn Hr u. rewrite Hr. destruct (decide (u = t)) as [->|Hne].
  - rewrite lookup_insert_eq, E, bool_decide_eq_false_2, bool_decide_eq_true_2 by set_solver. done.
  - rewrite lookup_insert_ne by done. by rewrite (bool_decide_ext (u ∈ l) (u ∈ t :: l)) by (rewrite elem_of_cons; tauto).
Qed.

Definition all_waiting (l : list Z) (fs : gmap Z Frame) : Prop :=
  NoDup l /\ forall t, t ∈ l -> exists f, fs !! t = Some f /\ waiting f.

Lemma all_waiting_tail t l fs f : all_waiting (t :: l) fs -> all_waiting l (<[t := f]> fs).
Proof.
  intros [[Hn Hnd]%NoDup_cons Hw]. split; [done|]. intros u Hu. rewrite lookup_insert_ne by (intros ->; done).
  apply Hw. by right.
Qed.

Lemma all_waiting_cons t l fs : all_waiting (t :: l) fs -> (t ∉ l) /\ all_waiting l fs /\ exists f, fs !! t = Some f /\ waiting f.
Proof.
  intros [[Hn Hnd]%NoDup_cons Hw]. split; [done|]. split; [split; [done|]|apply Hw; by left].
  intros u Hu. apply Hw. by right.
Qed.

Lemma wake_all_ok set l fs : marks set -> all_waiting l fs -> exists fs', wake_all set l fs = Done fs' /\ roused set l fs fs'.
Proof.
  intros Hm. revert fs. induction l as [|t l IH]; intros fs Hl; cbn [wake_all].
  - exists fs. split; [done|apply roused_nil].
  - destruct (all_waiting_cons _ _ _ Hl) as (Hn & _ & f & E & Hf). rewrite (wake_up_ok set t fs f) by done. cbn [obind].
    destruct (IH (<[t := awake set f]> fs) (all_waiting_tail _ _ _ _ Hl)) as (fs' & -> & Hr). exists fs'. split; [done|].
    by eapply roused_cons.
Qed.

Definition in_s32 (z : Z) : Prop := - 2147483648 <= z < 2147483648.

Lemma s32_range z : in_s32 (s32 z).
Proof.
  unfold in_s32, s32. pose proof (Z.mod_pos_bound z W32 eq_refl). change W32 with 4294967296 in *.
  change (4294967296 / 2) with 2147483648. destruct (Z.ltb_spec (z mod 4294967296) 2147483648); lia.
Qed.

Lemma s32_eq z : (z =? s32 z) = true <-> in_s32 z.
Proof. rewrite Z.eqb_eq. split; [intros ->; apply s32_range|intros; by rewrite (s32_small z)]. Qed.

(** ** Serving: the loop of [Signal] against a reference

    [greedy] walks the queue once and takes every thread whose need the
    remaining tokens meet; it returns those served, those left and the tokens
    that remain. *)
Fixpoint greedy (need : Z -> Z) (l : list Z) (tokens : Z) : list Z * list Z * Z :=
  match l with
  | [] => ([], [], tokens)
  | t :: l =>
      if tokens <? need t
      then let '(served, unserved, k) := greedy need l tokens in (served, t :: unserved, k)
      else let '(served, unserved, k) := greedy need l (s32 (tokens - need t)) in (t :: served, unserved, k)
  end.

Lemma greedy_ext need need' l tokens : (forall t, t ∈ l -> need t = need' t) -> greedy need l tokens = greedy need' l tokens.
Proof.
  revert tokens. induction l as [|t l IH]; intros tokens He; cbn; [done|]. rewrite (He t) by (by left).
  assert (forall k, greedy need l k = greedy need' l k) as H by (intros; apply IH; intros u Hu; apply He; by right).
  by rewrite !H.
Qed.

(** The served and the unserved threads partition the queue. *)
Lemma greedy_partition need l tokens served unserved k : greedy need l tokens = (served, unserved, k) ->
  (forall t, t ∈ l <-> t ∈ served \/ t ∈ unserved) /\ sublist unserved l /\ sublist served l /\
  (NoDup l -> forall t, t ∈ served -> t ∉ unserved).
Proof.
  revert tokens served unserved k. induction l as [|t l IH]; intros tokens served unserved k E; cbn in E.
  { injection E as <- <- <-. split_and!; try done; [intros t|intros _ t]; rewrite ?elem_of_nil; tauto. }
  destruct (tokens <? need t).
  - destruct (greedy need l tokens) as [[a b] c] eqn:Eg. injection E as <- <- <-.
    destruct (IH _ _ _ _ Eg) as (Hin & Hs1 & Hs2 & Hd). split_and!; try by constructor.
    + intros u. rewrite !elem_of_cons, Hin. tauto.
    + intros [Hn Hnd]%NoDup_cons u Hu [->|Hu']%elem_of_cons; [|by apply (Hd Hnd u)]. apply Hn, Hin. by left.
  - destruct (greedy need l (s32 (tokens - need t))) as [[a b] c] eqn:Eg. injection E as <- <- <-.
    destruct (IH _ _ _ _ Eg) as (Hin & Hs1 & Hs2 & Hd). split_and!; try by constructor.
    + intros u. rewrite !elem_of_cons, Hin. tauto.
    + intros [Hn Hnd]%NoDup_cons u [->|Hu]%elem_of_cons Hu'; [|by apply (Hd Hnd u)]. apply Hn, Hin. by right.
Qed.

Definition total (need : Z -> Z) (l : list Z) : Z := foldr (fun t => Z.add (need t)) 0 l.

(** When no need is negative the tokens are accounted for and none of those
    left could be served with what remains. *)
Lemma greedy_spec need l tokens served unserved k : greedy need l tokens = (served, unserved, k) ->
  (forall t, t ∈ l -> 0 <= need t) -> in_s32 tokens ->
  k = tokens - total need served /\ k <= tokens /\ (0 <= tokens -> 0 <= k) /\ in_s32 k /\
  (forall t, t ∈ unserved -> k < need t).
Proof.
  revert tokens served unserved k. induction l as [|t l IH]; intros tokens served unserved k E Hp Hr; cbn in E.
  { injection E as <- <- <-. cbn. split_and!; try done; try lia. intros t. rewrite elem_of_nil. tauto. }
  assert (0 <= need t) by (apply Hp; by left). assert (forall u, u ∈ l -> 0 <= need u) as Hp' by (intros; apply Hp; by right).
  destruct (Z.ltb_spec tokens (need t)) as [Hlt|Hge].
  - destruct (greedy need l tokens) as [[a b] c] eqn:Eg. injection E as <- <- <-.
    destruct (IH _ _ _ _ Eg Hp' Hr) as (Hk & Hle & Hz & Hc & Hl). split_and!; try done.
    intros u [->|Hu]%elem_of_cons; [lia|by apply Hl].
  - assert (in_s32 (tokens - need t)) as Hr' by (unfold in_s32 in *; lia). rewrite (s32_small _ Hr') in E.
    destruct (greedy need l (tokens - need t)) as [[a b] c] eqn:Eg. injection E as <- <- <-.
    destruct (IH _ _ _ _ Eg Hp' Hr') as (Hk & Hle & Hz & Hc & Hl). cbn [total foldr]. fold (total need a).
    split_and!; try done; lia.
Qed.

Lemma need_of_insert fs t f u : u <> t -> need_of (<[t := f]> fs) u = need_of fs u.
Proof. intros. unfold need_of. by rewrite lookup_insert_ne. Qed.

(** The loop of the code is [greedy], and rouses exactly the threads served. *)
Lemma serve_ok l tokens fs : all_waiting l fs ->
  let '(served, unserved, k) := greedy (need_of fs) l tokens in
  exists fs', serve l tokens fs = Done (unserved, k, fs') /\ roused set_signaled served fs fs'.
Proof.
  revert tokens fs. induction l as [|t l IH]; intros tokens fs Hl; cbn [serve greedy].
  { exists fs. split; [done|apply roused_nil]. }
  destruct (all_waiting_cons _ _ _ Hl) as (Hn & Hl' & f & E & Hf). rewrite E. cbn zeta.
  assert (need_of fs t = need_count (waiter f)) as Hneed by (unfold need_of; by rewrite E). rewrite Hneed.
  destruct (tokens <? need_count (waiter f)).
  - specialize (IH tokens fs Hl'). destruct (greedy _ l tokens) as [[a b] c]. destruct IH as (fs' & -> & Hr).
    by exists fs'.
  - rewrite (wake_up_ok set_signaled t fs f) by auto. cbn [obind].
    specialize (IH (s32 (tokens - need_count (waiter f))) _ (all_waiting_tail _ _ _ (awake set_signaled f) Hl)).
    rewrite (greedy_ext _ (need_of fs)) in IH by (intros u Hu; apply need_of_insert; by intros ->).
    destruct (greedy _ l _) as [[a b] c] eqn:Eg. destruct IH as (fs' & -> & Hr). exists fs'. split; [done|].
    eapply roused_cons; [exact E| |exact Hr]. intros Ha. apply Hn.
    destruct (greedy_partition _ _ _ _ _ _ Eg) as (Hin & _). apply Hin. by left.
Qed.

(** ** The queue of one semaphore *)

(** [wait_list] is the set of threads asleep on object [p], by priority. *)
Record queue_ok (p : Z) (s : OrbisSem.t) (fs : gmap Z Frame) : Prop := {
  qo_nodup : NoDup (wait_list s);
  qo_elem : forall t, t ∈ wait_list s <-> exists f, fs !! t = Some f /\ this f = p /\ waiting f;
  qo_sorted : StronglySorted (fun t u => prio_of fs t <= prio_of fs u) (wait_list s);
  qo_fifo : is_fifo s = true -> forall t, t ∈ wait_list s -> prio_of fs t = 0 }.

Lemma queue_all_waiting p s fs : queue_ok p s fs -> all_waiting (wait_list s) fs.
Proof. intros [Hnd He _ _]. split; [done|]. intros t Ht. apply He in Ht as (f & ? & _ & ?). eauto. Qed.

(** Nothing changed for the threads on other objects. *)
Definition elsewhere (p : Z) (fs fs' : gmap Z Frame) : Prop :=
  forall t f, this f <> p -> (fs' !! t = Some f <-> fs !! t = Some f).

Lemma sorted_sublist {A} (R : A -> A -> Prop) (l l' : list A) : sublist l' l -> StronglySorted R l -> StronglySorted R l'.
Proof.
  induction 1 as [|x l' l H IH|x l' l H IH]; [done| |]; intros [Hs Hf]%StronglySorted_inv; [|by apply IH].
  constructor; [by apply IH|]. rewrite Forall_forall in *. intros y Hy. apply Hf. eapply elem_of_submseteq; [exact Hy|by apply sublist_submseteq].
Qed.

Lemma sorted_ext {A} (R R' : A -> A -> Prop) (l : list A) :
  (forall x y, x ∈ l -> y ∈ l -> R x y -> R' x y) -> StronglySorted R l -> StronglySorted R' l.
Proof.
  induction l as [|x l IH]; intros H Hs; [constructor|]. apply StronglySorted_inv in Hs as [Hs Hf]. constructor.
  - apply IH; [|done]. intros u v Hu Hv. apply H; by right.
  - rewrite Forall_forall in *. intros y Hy. apply H; [by left|by right|by apply Hf].
Qed.

Lemma roused_prio set l fs fs' t : marks set -> roused set l fs fs' -> prio_of fs' t = prio_of fs t.
Proof.
  intros Hm Hr. unfold prio_of. rewrite Hr. destruct (fs !! t) as [f|]; [|done]. cbn.
  case_bool_decide; [|done]. apply awake_attrs, Hm.
Qed.

Lemma roused_inv set l fs fs' t f' : roused set l fs fs' -> fs' !! t = Some f' ->
  exists f, fs !! t = Some f /\ ((t ∈ l /\ f' = awake set f) \/ ((t ∉ l) /\ f' = f)).
Proof.
  intros Hr. rewrite Hr. destruct (fs !! t) as [f|]; [|done]. cbn. case_bool_decide; intros [= <-]; eauto.
Qed.

Lemma roused_out set l fs fs' t : roused set l fs fs' -> t ∉ l -> fs' !! t = fs !! t.
Proof. intros Hr Ht. by rewrite Hr, bool_decide_eq_false_2, option_fmap_id. Qed.

(** Taking a roused part out of the queue. *)
Lemma rouse_queue set p s (s' : OrbisSem.t) served fs fs' :
  queue_ok p s fs -> marks set -> roused set served fs fs' -> is_fifo s' = is_fifo s ->
  (forall t, t ∈ wait_list s <-> t ∈ served \/ t ∈ wait_list s') -> sublist (wait_list s') (wait_list s) ->
  (forall t, t ∈ served -> t ∉ wait_list s') -> queue_ok p s' fs'.
Proof.
  intros [Hnd He Hs Hf] Hm Hr Hff Hin Hsub Hdis. split.
  - by eapply sublist_NoDup.
  - intros t. split.
    + intros Ht. rewrite (roused_out _ _ _ _ _ Hr) by (intros ?; by apply (Hdis t)). apply He, Hin. by right.
    + intros (f' & E & Hp & Hw). destruct (roused_inv _ _ _ _ _ _ Hr E) as (f & Ef & [[Ht ->]|[Ht ->]]).
      * assert (t ∈ wait_list s) as Hl by (apply Hin; by left). apply He in Hl as (f0 & E0 & _ & Hw0).
        rewrite Ef in E0. injection E0 as <-. exfalso. by apply (not_both _ Hw), awake_woken.
      * assert (t ∈ wait_list s) as Hl by (apply He; eauto). apply Hin in Hl as [|]; done.
  - eapply sorted_sublist; [exact Hsub|]. eapply sorted_ext; [|exact Hs]. intros x y _ _.
    by rewrite !(roused_prio _ _ _ _ _ Hm Hr).
  - rewrite Hff. intros Hfi t Ht. rewrite (roused_prio _ _ _ _ _ Hm Hr). apply Hf; [done|]. apply Hin. by right.
Qed.

Lemma rouse_elsewhere set p l fs fs' :
  roused set l fs fs' -> (forall t f, t ∈ l -> fs !! t = Some f -> this f = p) -> elsewhere p fs fs'.
Proof.
  intros Hr Hl t f Hne. rewrite Hr. destruct (fs !! t) as [g|] eqn:E; [|done]. cbn. case_bool_decide as Ht; [|done].
  specialize (Hl t g Ht E). split; intros [= <-]; by rewrite ?awake_this in Hne.
Qed.

Lemma queue_this p s fs t f : queue_ok p s fs -> t ∈ wait_list s -> fs !! t = Some f -> this f = p /\ waiting f.
Proof. intros Hq Ht E. apply (qo_elem _ _ _ Hq) in Ht as (g & Eg & ? & ?). rewrite E in Eg. by injection Eg as <-. Qed.

(** Frames of the threads on [p]: asleep or woken. *)
Definition settled (p : Z) (fs : gmap Z Frame) : Prop :=
  forall t f, fs !! t = Some f -> this f = p -> waiting f \/ woken f.

Lemma rouse_settled set p s l fs fs' : marks set -> roused set l fs fs' -> settled p fs -> queue_ok p s fs ->
  (forall t, t ∈ l -> t ∈ wait_list s) -> settled p fs'.
Proof.
  intros Hm Hr Hs Hq Hl t f' E Hp. destruct (roused_inv _ _ _ _ _ _ Hr E) as (f & Ef & [[Ht ->]|[Ht ->]]).
  - right. apply awake_woken; [done|]. by destruct (queue_this _ _ _ _ _ Hq (Hl _ Ht) Ef).
  - by apply (Hs t).
Qed.

(** What a critical section on object [p] guarantees. *)
Record kept (p : Z) (fs : gmap Z Frame) (s' : OrbisSem.t) (fs' : gmap Z Frame) : Prop := {
  kp_queue : queue_ok p s' fs';
  kp_settled : settled p fs';
  kp_elsewhere : elsewhere p fs fs' }.

Lemma rouse_kept set p s s' served fs fs' :
  queue_ok p s fs -> settled p fs -> marks set -> roused set served fs fs' -> is_fifo s' = is_fifo s ->
  (forall t, t ∈ wait_list s <-> t ∈ served \/ t ∈ wait_list s') -> sublist (wait_list s') (wait_list s) ->
  (forall t, t ∈ served -> t ∉ wait_list s') -> kept p fs s' fs'.
Proof.
  intros Hq Hs Hm Hr Hff Hin Hsub Hdis. assert (forall t, t ∈ served -> t ∈ wait_list s) as Hl by (intros; apply Hin; by left).
  split.
  - by eapply rouse_queue.
  - by eapply rouse_settled.
  - eapply rouse_elsewhere; [done|]. intros t f Ht E. by destruct (queue_this _ _ _ _ _ Hq (Hl _ Ht) E).
Qed.

Lemma elsewhere_refl p fs : elsewhere p fs fs.
Proof. by intros t f. Qed.

(** ** The methods *)

(** [Signal] refuses to exceed the maximum, or serves the queue greedily. *)
Lemma Signal_ok p s fs n : queue_ok p s fs -> settled p fs -> in_s32 (token_count s + n) ->
  let '(served, unserved, k) := greedy (need_of fs) (wait_list s) (token_count s + n) in
  if max_count s <? token_count s + n then Signal n s fs = Done (false, s, fs) else
  exists fs', Signal n s fs = Done (true, with_list unserved (with_tokens k s), fs') /\
    roused set_signaled served fs fs' /\ kept p fs (with_list unserved (with_tokens k s)) fs'.
Proof.
  intros Hq Hs Hn. pose proof (serve_ok _ (token_count s + n) _ (queue_all_waiting _ _ _ Hq)) as H.
  destruct (greedy _ _ _) as [[served unserved] k] eqn:Eg. destruct H as (fs' & E & Hr). unfold Signal.
  rewrite (proj2 (s32_eq _) Hn). cbn [negb]. destruct (max_count s <? token_count s + n); [done|].
  rewrite E. cbn [obind]. exists fs'. split; [done|]. split; [done|].
  destruct (greedy_partition _ _ _ _ _ _ Eg) as (Hin & Hs1 & _ & Hd).
  apply (rouse_kept set_signaled p s _ served); auto. exact (Hd (qo_nodup _ _ _ Hq)).
Qed.

Lemma empty_kept set p s s' fs fs' : queue_ok p s fs -> settled p fs -> marks set ->
  roused set (wait_list s) fs fs' -> wait_list s' = [] -> is_fifo s' = is_fifo s -> kept p fs s' fs'.
Proof.
  intros Hq Hs Hm Hr E Hf. eapply rouse_kept; try done; rewrite E.
  - intros t. rewrite elem_of_nil. tauto.
  - apply sublist_nil_l.
  - intros t _. apply not_elem_of_nil.
Qed.

(** [Cancel] wakes everyone with ECANCELED and sets the tokens. *)
Lemma Cancel_ok p s fs n : queue_ok p s fs -> settled p fs ->
  let s' := with_list [] (with_tokens (if n <? 0 then init_count s else n) s) in
  exists fs', Cancel n s fs = Done (ORBIS_OK, s32 (Z.of_nat (length (wait_list s))), s', fs') /\
    roused set_canceled (wait_list s) fs fs' /\ kept p fs s' fs'.
Proof.
  intros Hq Hs s'. destruct (wake_all_ok set_canceled _ _ ltac:(auto) (queue_all_waiting _ _ _ Hq)) as (fs' & E & Hr).
  unfold Cancel. rewrite E. exists fs'. split; [done|]. split; [done|]. apply (empty_kept set_canceled p s); auto.
Qed.

Lemma Delete_ok p s fs : queue_ok p s fs -> settled p fs ->
  exists fs', Delete s fs = Done (with_list [] s, fs') /\
    roused set_deleted (wait_list s) fs fs' /\ kept p fs (with_list [] s) fs'.
Proof.
  intros Hq Hs. destruct (wake_all_ok set_deleted _ _ ltac:(auto) (queue_all_waiting _ _ _ Hq)) as (fs' & E & Hr).
  unfold Delete. rewrite E. exists fs'. split; [done|]. split; [done|]. apply (empty_kept set_deleted p s); auto.
Qed.

(** *** Waiting *)

(** [insert_sorted] puts the newcomer behind everyone of the same or a better
    priority. *)
Lemma insert_sorted_ok t p l fs : (forall u, u ∈ l -> is_Some (fs !! u)) ->
  StronglySorted (fun u v => prio_of fs u <= prio_of fs v) l ->
  exists l1 l2, l = l1 ++ l2 /\ insert_sorted t p l fs = Done (l1 ++ t :: l2) /\
    (forall u, u ∈ l1 -> prio_of fs u <= p) /\ (forall u, u ∈ l2 -> p < prio_of fs u).
Proof.
  induction l as [|u l IH]; intros Hl Hs; cbn [insert_sorted].
  { exists [], []. split_and!; try done; intros ?; rewrite elem_of_nil; tauto. }
  destruct (Hl u ltac:(by left)) as [f E]. rewrite E.
  assert (prio_of fs u = priority (waiter f)) as Hp by (unfold prio_of; by rewrite E).
  apply StronglySorted_inv in Hs as [Hs Hf]. destruct (Z.leb_spec (priority (waiter f)) p) as [Hle|Hgt].
  - destruct IH as (l1 & l2 & -> & -> & H1 & H2); [intros v Hv; apply Hl; by right|done|].
    exists (u :: l1), l2. split_and!; try done. intros v [->|Hv]%elem_of_cons; [lia|by apply H1].
  - exists [], (u :: l). split_and!; try done; [intros v; rewrite elem_of_nil; tauto|].
    rewrite Forall_forall in Hf. intros v [->|Hv]%elem_of_cons; [lia|]. specialize (Hf v Hv). cbn in Hf. lia.
Qed.

Lemma sorted_middle (fs : gmap Z Frame) t l1 l2 :
  StronglySorted (fun u v => prio_of fs u <= prio_of fs v) (l1 ++ l2) ->
  (forall u, u ∈ l1 -> prio_of fs u <= prio_of fs t) -> (forall u, u ∈ l2 -> prio_of fs t <= prio_of fs u) ->
  StronglySorted (fun u v => prio_of fs u <= prio_of fs v) (l1 ++ t :: l2).
Proof.
  induction l1 as [|x l1 IH]; cbn; intros Hs H1 H2.
  - constructor; [done|]. rewrite Forall_forall. apply H2.
  - apply StronglySorted_inv in Hs as [Hs Hf]. constructor.
    + apply IH; try done. intros u Hu. apply H1. by right.
    + rewrite Forall_forall in *. intros u. rewrite elem_of_app, elem_of_cons. intros [Hu|[->|Hu]].
      * apply Hf, elem_of_app. by left.
      * apply H1. by left.
      * apply Hf, elem_of_app. by right.
Qed.

Lemma prio_of_insert fs t f u : u <> t -> prio_of (<[t := f]> fs) u = prio_of fs u.
Proof. intros. unfold prio_of. by rewrite lookup_insert_ne. Qed.

Lemma new_frame_waiting cur need fifo me tmo : waiting (mkFrame (WaitingThread_ctor cur need fifo) me tmo).
Proof. done. Qed.

(** Where [AddWaiter] puts a thread that was not waiting. *)
Lemma AddWaiter_ok p s fs t w : queue_ok p s fs -> (is_fifo s = true -> priority w = 0) ->
  exists l1 l2, wait_list s = l1 ++ l2 /\ AddWaiter t w s fs = Done (with_list (l1 ++ t :: l2) s) /\
    (forall u, u ∈ l1 -> prio_of fs u <= priority w) /\ (forall u, u ∈ l2 -> priority w < prio_of fs u).
Proof.
  intros [Hnd He Hs Hf] Hw. unfold AddWaiter. destruct (is_fifo s) eqn:Ef.
  - exists (wait_list s), []. rewrite app_nil_r. split_and!; try done.
    + intros u Hu. rewrite Hw, Hf by done. lia.
    + intros u. rewrite elem_of_nil. tauto.
  - destruct (insert_sorted_ok t (priority w) (wait_list s) fs) as (l1 & l2 & E & -> & ?); [|done|].
    + intros u Hu. apply He in Hu as (f & ? & _). eauto.
    + exists l1, l2. cbn. tauto.
Qed.

(** The new frame joins the queue. *)
Lemma enqueue_kept p s fs t w tmo l1 l2 :
  queue_ok p s fs -> settled p fs -> fs !! t = None -> waiting (mkFrame w p tmo) -> (is_fifo s = true -> priority w = 0) ->
  wait_list s = l1 ++ l2 ->
  (forall u, u ∈ l1 -> prio_of fs u <= priority w) -> (forall u, u ∈ l2 -> priority w < prio_of fs u) ->
  kept p fs (with_list (l1 ++ t :: l2) s) (<[t := mkFrame w p tmo]> fs).
Proof.
  intros [Hnd He Hs Hf] Hset Ht Hw Hfi El H1 H2. rewrite El in *.
  assert (forall u, u ∈ l1 ++ l2 -> u <> t) as Hne.
  { intros u Hu ->. apply He in Hu as (f & E & _). congruence. }
  assert (forall u, u ∈ l1 ++ t :: l2 <-> u = t \/ u ∈ l1 ++ l2) as Hin.
  { intros u. rewrite !elem_of_app, elem_of_cons. tauto. }
  assert (prio_of (<[t := mkFrame w p tmo]> fs) t = priority w) as Hpt.
  { unfold prio_of. by rewrite lookup_insert_eq. }
  split; [split|..]; cbn [wait_list with_list is_fifo].
  - rewrite <- Permutation_middle. apply NoDup_cons. split; [intros ?; by apply (Hne t)|done].
  - intros u. rewrite Hin. destruct (decide (u = t)) as [->|Hu].
    + rewrite lookup_insert_eq. split; [intros _; eauto|by left].
    + rewrite lookup_insert_ne, <- He by done. tauto.
  - apply sorted_middle.
    + eapply sorted_ext; [|exact Hs]. intros x y Hx Hy. by rewrite !prio_of_insert by auto.
    + intros u Hu. rewrite Hpt, prio_of_insert by (apply Hne, elem_of_app; by left). by apply H1.
    + intros u Hu. rewrite Hpt, prio_of_insert by (apply Hne, elem_of_app; by right). apply Z.lt_le_incl. by apply H2.
  - intros Hff u [->|Hu]%Hin; [rewrite Hpt; auto|]. rewrite prio_of_insert by auto. by apply Hf.
  - intros u f. destruct (decide (u = t)) as [->|Hu].
    + rewrite lookup_insert_eq. intros [= <-] _. by left.
    + rewrite lookup_insert_ne by done. apply Hset.
  - intros u f Hfp. destruct (decide (u = t)) as [->|Hu]; [|by rewrite lookup_insert_ne].
    rewrite lookup_insert_eq, Ht. split; [by intros [= <-]|done].
Qed.

Lemma filter_absent (t : Z) (l : list Z) : t ∉ l -> filter (fun u => u <> t) l = l.
Proof.
  induction l as [|u l IH]; [done|]. intros [Hne Hn]%not_elem_of_cons. by rewrite filter_cons_True, IH.
Qed.

(** A frame leaves: asleep in the queue (timed out), or woken. *)
Lemma leave_kept p s fs t f : queue_ok p s fs -> settled p fs -> fs !! t = Some f -> this f = p ->
  kept p fs (with_list (filter (fun u => u <> t) (wait_list s)) s) (delete t fs).
Proof.
  intros [Hnd He Hs Hf] Hset Ht Hp.
  assert (forall u, u <> t -> prio_of (delete t fs) u = prio_of fs u) as Hpr.
  { intros u Hu. unfold prio_of. by rewrite lookup_delete_ne. }
  split; [split|..]; cbn [wait_list with_list is_fifo].
  - by apply NoDup_filter.
  - intros u. rewrite list_elem_of_filter, He. destruct (decide (u = t)) as [->|Hu].
    + rewrite lookup_delete_eq. split; [by intros []|by intros (? & ? & _)].
    + rewrite lookup_delete_ne by done. tauto.
  - eapply (sorted_ext (fun t u => prio_of fs t <= prio_of fs u)).
    + intros x y [Hx _]%list_elem_of_filter [Hy _]%list_elem_of_filter. by rewrite !Hpr.
    + eapply sorted_sublist; [|exact Hs]. apply sublist_filter.
  - intros Hff u [Hu Hin]%list_elem_of_filter. rewrite Hpr by done. by apply Hf.
  - intros u g E Hg. apply lookup_delete_Some in E as [_ E]. by apply (Hset u).
  - intros u g Hg. destruct (decide (u = t)) as [->|Hu]; [|by rewrite lookup_delete_ne].
    rewrite lookup_delete_eq, Ht. split; [done|]. by intros [= ->].
Qed.
