(* ===== verification/SemaSteps.v ===== *)
(** * SemaSteps: threads calling the semaphore functions

    The state machine whose steps are the calls of [Semaphore], a blocking wait
    being two steps, over any implementation of the handle table; its
    invariant; and which steps always complete. *)

From stdpp Require Import gmap sorting.
From S2P Require Import Prelude SlotVector SlotFacts Semaphore SemaFacts.
Import OrbisSem.

Inductive sema_op :=
  | OpCreate (name : option string) (attr init max : Z)
  | OpWait (cur : Pthread) (sem need : Z) (timeout : option Z)
  | OpPoll (cur : Pthread) (sem need : Z)
  | OpWake (t elapsed : Z)
  | OpSignal (sem n : Z)
  | OpCancel (sem n : Z)
  | OpDelete (sem : Z).

Section Machine.
Context {V : Type} `{SlotStore Z V}.
Implicit Types k : Semas V.

(** The result is the return value, or [None] when the thread goes to sleep. *)
Definition sema_perform (op : sema_op) k : outcome (option Z * Semas V) :=
  match op with
  | OpCreate nm attr init max => let! '(r, _, k') := sceKernelCreateSema nm attr init max k in Done (Some r, k')
  | OpWait cur sem need tmo => sceKernelWaitSema cur sem need tmo k
  | OpPoll cur sem need => sceKernelPollSema cur sem need k
  | OpWake t elapsed => let! '(r, _, k') := sema_wake t elapsed k in Done (Some r, k')
  | OpSignal sem n => let! '(r, k') := sceKernelSignalSema sem n k in Done (Some r, k')
  | OpCancel sem n => let! '(r, _, k') := sceKernelCancelSema sem n k in Done (Some r, k')
  | OpDelete sem => let! '(r, k') := sceKernelDeleteSema sem k in Done (Some r, k')
  end.

(** A sleeping thread makes no call; it goes on when its sleep may end.  A
    handle is a [u32]. *)
Definition sema_enabled (op : sema_op) k : Prop :=
  match op with
  | OpCreate _ _ _ _ => True
  | OpWait cur sem _ _ | OpPoll cur sem _ => frames k !! tid cur = None /\ 0 <= sem
  | OpWake t _ => exists f, frames k !! t = Some f /\ may_wake f = true
  | OpSignal sem _ | OpCancel sem _ | OpDelete sem => 0 <= sem
  end.

Record sema_step (op : sema_op) k (r : option Z) k' : Prop := {
  ss_enabled : sema_enabled op k;
  ss_run : sema_perform op k = Done (r, k') }.

(** States reached by steps that satisfy [P]. *)
Inductive sema_reach (P : Semas V -> sema_op -> Prop) : Semas V -> Prop :=
  | sr_boot v : slot_ok v -> (forall i, slot_get v i = None) -> sema_reach P (mkSemas v ∅ 0 ∅)
  | sr_step k op r k' : sema_reach P k -> P k op -> sema_step op k r k' -> sema_reach P k'.

(** ** The invariant *)

Record sema_inv k : Prop := {
  si_slots : slot_ok (orbis_sems k);
  si_object : forall i p, slot_get (orbis_sems k) i = Some p -> is_Some (objects k !! p);
  si_inj : forall i j p, slot_get (orbis_sems k) i = Some p -> slot_get (orbis_sems k) j = Some p -> i = j;
  si_fresh : forall p, is_Some (objects k !! p) -> p < next_object k;
  si_queue : forall p s, objects k !! p = Some s -> queue_ok p s (frames k);
  si_settled : forall p, settled p (frames k);
  si_frame : forall t f, frames k !! t = Some f -> this f < next_object k /\ (waiting f -> is_Some (objects k !! this f)) }.

Lemma queue_elsewhere p q s fs fs' : q <> p -> elsewhere p fs fs' -> queue_ok q s fs -> queue_ok q s fs'.
Proof.
  intros Hne Hel [Hnd He Hs Hf].
  assert (forall t, t ∈ wait_list s -> prio_of fs' t = prio_of fs t) as Hpr.
  { intros t (f & E & Hq & _)%He. unfold prio_of. rewrite E. by rewrite (proj2 (Hel t f ltac:(congruence)) E). }
  split; [done| | |].
  - intros t. rewrite He. split; intros (f & E & Hq & Hw); exists f; (split; [|done]); apply (Hel t f); congruence.
  - eapply sorted_ext; [|exact Hs]. intros x y Hx Hy. by rewrite !Hpr.
  - intros Hff t Ht. rewrite Hpr by done. by apply Hf.
Qed.

Lemma settled_elsewhere p q fs fs' : q <> p -> elsewhere p fs fs' -> settled q fs -> settled q fs'.
Proof. intros Hne Hel Hs t f E Hq. apply (Hs t); [|done]. apply (Hel t f); [congruence|done]. Qed.

(** Frames that are there after the step were there before, or are on [p]. *)
Lemma set_object_inv p s s' fs' k : sema_inv k -> objects k !! p = Some s -> kept p (frames k) s' fs' ->
  sema_inv (set_object p s' fs' k).
Proof.
  intros [Hs Ho Hi Hfr Hq Hse Hf] E [Kq Ks Ke]. split; cbn [set_object orbis_sems objects next_object frames]; try done.
  - intros i q Hg. destruct (decide (q = p)) as [->|]; [rewrite lookup_insert_eq|rewrite lookup_insert_ne by done]; eauto.
  - intros q. destruct (decide (q = p)) as [->|]; [intros _; eauto|rewrite lookup_insert_ne by done; eauto].
  - intros q s0. destruct (decide (q = p)) as [->|]; [rewrite lookup_insert_eq; by intros [= <-]|].
    rewrite lookup_insert_ne by done. intros E0. eapply queue_elsewhere; eauto.
  - intros q. destruct (decide (q = p)) as [->|]; [done|]. eapply settled_elsewhere; eauto.
  - intros t f Et. destruct (decide (this f = p)) as [Ep|Hne].
    + rewrite Ep, lookup_insert_eq. eauto.
    + rewrite lookup_insert_ne by done. apply (Hf t). by apply (Ke t f).
Qed.

(** A handle whose bit can be read. *)
Definition readable (sem : Z) k : Prop := exists b, slot_allocated sem (orbis_sems k) = Done b.

(** A handle is free, or names an object. *)
Lemma handle_cases sem k : sema_inv k -> 0 <= sem -> readable sem k ->
  slot_allocated sem (orbis_sems k) = Done false \/
  exists p s, slot_allocated sem (orbis_sems k) = Done true /\ slot_get (orbis_sems k) sem = Some p /\
    objects k !! p = Some s /\ object_of sem k = Done (p, s).
Proof.
  intros Hk Hs [[|] E]; [right|by left]. destruct (slot_allocated_sound _ _ (si_slots _ Hk) Hs E) as [p Hp].
  destruct (si_object _ Hk _ _ Hp) as [s Es]. exists p, s. split_and!; try done. unfold object_of.
  rewrite (slot_index_spec _ _ _ (si_slots _ Hk) Hp). cbn [obind]. by rewrite Es.
Qed.

Lemma kept_refl p s fs : queue_ok p s fs -> settled p fs -> kept p fs s fs.
Proof. intros. split; [done|done|apply elsewhere_refl]. Qed.

Lemma queue_tokens p s fs n : queue_ok p s fs -> queue_ok p (with_tokens n s) fs.
Proof. by intros []. Qed.

Lemma set_object_id p s k : objects k !! p = Some s -> set_object p s (frames k) k = k.
Proof. intros E. unfold set_object. rewrite insert_id by done. by destruct k. Qed.

(** ** What each step does

    The specification of the calls: an error has its cause and changes
    nothing; the tokens are taken at once, or the thread joins the queue behind
    everyone of its priority; a signal serves the queue greedily; cancelling
    and deleting wake everyone; a wake-up returns its cause and leaves the
    queue. *)

Inductive waits : sema_op -> Pthread -> Z -> Z -> Prop :=
  | waits_wait cur sem need tmo : waits (OpWait cur sem need tmo) cur sem need
  | waits_poll cur sem need : waits (OpPoll cur sem need) cur sem need.

(** Handle [sem] names object [s] at address [p]. *)
Definition names (sem p : Z) (s : OrbisSem.t) k : Prop :=
  slot_get (orbis_sems k) sem = Some p /\ objects k !! p = Some s.

(** The handle a call names. *)
Definition handle_of (op : sema_op) : option Z :=
  match op with
  | OpWait _ sem _ _ | OpPoll _ sem _ | OpSignal sem _ | OpCancel sem _ | OpDelete sem => Some sem
  | OpCreate _ _ _ _ | OpWake _ _ => None
  end.

(** The only calls that fail at once, each with its code: bad counts or no
    name, a handle that names nothing, too few tokens for a poll or for a wait
    that may not sleep, a signal beyond the maximum. *)
Inductive refused k : sema_op -> Z -> Prop :=
  | rf_create nm attr init max :
      nm = None \/ 2 < attr \/ init < 0 \/ max <= 0 \/ max < init ->
      refused k (OpCreate nm attr init max) ORBIS_KERNEL_ERROR_EINVAL
  | rf_handle op sem :
      handle_of op = Some sem -> slot_get (orbis_sems k) sem = None -> refused k op ORBIS_KERNEL_ERROR_ESRCH
  | rf_busy cur sem need p s :
      names sem p s k -> token_count s < need -> refused k (OpPoll cur sem need) ORBIS_KERNEL_ERROR_EBUSY
  | rf_timeout cur sem need p s :
      names sem p s k -> token_count s < need -> refused k (OpWait cur sem need (Some 0)) ORBIS_KERNEL_ERROR_ETIMEDOUT
  | rf_signal sem n p s :
      names sem p s k -> max_count s < token_count s + n -> refused k (OpSignal sem n) ORBIS_KERNEL_ERROR_EINVAL.

(** What a wait that slept returns: a timeout if nothing has woken it, else
    why it was woken. *)
Record verdict (f : Frame) (r : Z) : Prop := {
  vd_timeout : waiting f -> r = ORBIS_KERNEL_ERROR_ETIMEDOUT;
  vd_signal : was_signaled (waiter f) = true -> r = ORBIS_OK;
  vd_cancel : was_canceled (waiter f) = true -> r = ORBIS_KERNEL_ERROR_ECANCELED;
  vd_delete : was_deleted (waiter f) = true -> r = ORBIS_KERNEL_ERROR_EACCES }.

Inductive sema_effect k : sema_op -> option Z -> Semas V -> Prop :=
  | ef_error op r : refused k op r -> sema_effect k op (Some r) k
  | ef_create nm attr init max i v :
      attr <= 2 -> 0 <= init <= max -> 0 < max -> slot_get (orbis_sems k) i = None -> slot_ok v ->
      (forall j, slot_get v j = if j =? i then Some (next_object k) else slot_get (orbis_sems k) j) ->
      sema_effect k (OpCreate (Some nm) attr init max) (Some ORBIS_OK)
        (mkSemas v (<[next_object k := ctor init max nm (attr =? 1)]> (objects k)) (next_object k + 1) (frames k))
  | ef_take op cur sem need p s :
      waits op cur sem need -> names sem p s k -> need <= token_count s ->
      sema_effect k op (Some ORBIS_OK) (set_object p (with_tokens (s32 (token_count s - need)) s) (frames k) k)
  | ef_sleep cur sem need tmo p s l1 l2 (w := WaitingThread_ctor cur need (is_fifo s)) :
      names sem p s k -> token_count s < need -> tmo <> Some 0 -> wait_list s = l1 ++ l2 ->
      (forall u, u ∈ l1 -> prio_of (frames k) u <= priority w) ->
      (forall u, u ∈ l2 -> priority w < prio_of (frames k) u) ->
      sema_effect k (OpWait cur sem need tmo) None
        (set_object p (with_list (l1 ++ tid cur :: l2) s) (<[tid cur := mkFrame w p tmo]> (frames k)) k)
  | ef_wake t elapsed f s r :
      frames k !! t = Some f -> objects k !! this f = Some s -> verdict f r ->
      sema_effect k (OpWake t elapsed) (Some r)
        (set_object (this f) (with_list (filter (fun u => u <> t) (wait_list s)) s) (delete t (frames k)) k)
  | ef_signal sem n p s served unserved rem fs' :
      names sem p s k -> in_s32 (token_count s + n) -> token_count s + n <= max_count s ->
      greedy (need_of (frames k)) (wait_list s) (token_count s + n) = (served, unserved, rem) ->
      roused set_signaled served (frames k) fs' ->
      sema_effect k (OpSignal sem n) (Some ORBIS_OK) (set_object p (with_list unserved (with_tokens rem s)) fs' k)
  | ef_cancel sem n p s fs' :
      names sem p s k -> roused set_canceled (wait_list s) (frames k) fs' ->
      sema_effect k (OpCancel sem n) (Some ORBIS_OK)
        (set_object p (with_list [] (with_tokens (if n <? 0 then init_count s else n) s)) fs' k)
  | ef_delete sem p s v fs' :
      names sem p s k -> roused set_deleted (wait_list s) (frames k) fs' -> slot_ok v ->
      (forall j, slot_get v j = if j =? sem then None else slot_get (orbis_sems k) j) ->
      sema_effect k (OpDelete sem) (Some ORBIS_OK) (mkSemas v (delete p (objects k)) (next_object k) fs').

(** ** The calls have these effects *)

Lemma free_handle sem k : sema_inv k -> slot_allocated sem (orbis_sems k) = Done false -> slot_get (orbis_sems k) sem = None.
Proof.
  intros Hk E. destruct (slot_get (orbis_sems k) sem) as [p|] eqn:Eg; [|done].
  rewrite (slot_allocated_spec _ _ _ (si_slots _ Hk) Eg) in E. done.
Qed.

Lemma GetResult_verdict f t k : sema_inv k -> frames k !! t = Some f -> verdict f (GetResult (waiter f)).
Proof.
  intros Hk Ef. unfold GetResult. destruct (si_settled _ Hk (this f) t f Ef eq_refl) as [Hw|Hw].
  - pose proof Hw as (_ & Ha & Hb & Hc). split; intros; by rewrite ?Ha, ?Hb, ?Hc in *.
  - assert (~ waiting f) as Hn by (intros Hx; by apply (not_both f)). destruct Hw as (_ & Hw).
    rewrite !elem_of_cons, elem_of_nil in Hw.
    destruct Hw as [Hw|[Hw|[Hw|[]]]]; injection Hw as E1 E2 E3; split; intros; rewrite ?E1, ?E2, ?E3 in *; done.
Qed.

Lemma create_ok nm attr init max k : sema_inv k -> slot_room (orbis_sems k) ->
  exists r k', sema_perform (OpCreate nm attr init max) k = Done (r, k') /\ sema_effect k (OpCreate nm attr init max) r k'.
Proof.
  intros Hk Hr. cbn. unfold sceKernelCreateSema.
  destruct nm as [nm|]; [|eexists _, k; split; [done|by apply ef_error, rf_create; left]].
  destruct (_ || _ || _ || _) eqn:Eg.
  { eexists _, k. split; [done|]. apply ef_error, rf_create. rewrite !orb_true_iff, !Z.ltb_lt, Z.leb_le in Eg. tauto. }
  bool_prop.
  destruct (slot_insert_spec _ (next_object k) (si_slots _ Hk) Hr) as (i & v & E & Hv & Hn & _ & Hg). rewrite E. cbn.
  eexists _, _. split; [done|]. apply (ef_create k nm attr init max i v); try done; lia.
Qed.

Lemma wait_effect op cur (can_block : bool) sem need tmo k : sema_inv k -> 0 <= sem -> readable sem k -> waits op cur sem need ->
  op = (if can_block then OpWait cur sem need tmo else OpPoll cur sem need) ->
  exists r k', sema_wait cur can_block sem need tmo k = Done (r, k') /\ sema_effect k op r k'.
Proof.
  intros Hk Hs Hr Hop Hb. unfold sema_wait.
  destruct (handle_cases sem k Hk Hs Hr) as [Ef|(p & s & -> & Hp & Es & ->)]; cbn [obind negb].
  { rewrite Ef. cbn [obind negb]. eexists _, k. split; [done|]. eapply ef_error, rf_handle; [|by apply free_handle]. by destruct Hop. }
  unfold Wait_begin. destruct (Z.leb_spec need (token_count s)); cbn [obind].
  { eexists _, _. split; [done|]. by eapply ef_take. }
  destruct can_block; cbn [negb obind];
    [|rewrite set_object_id by done; eexists _, k; split; [done|]; rewrite Hb; by eapply ef_error, rf_busy].
  rewrite Hb. case_bool_decide as Htm; cbn [obind].
  { rewrite set_object_id by done. eexists _, k. split; [done|]. rewrite Htm. by eapply ef_error, rf_timeout. }
  assert (is_fifo s = true -> priority (WaitingThread_ctor cur need (is_fifo s)) = 0) as Hfi by (by intros ->).
  destruct (AddWaiter_ok p s _ (tid cur) _ (si_queue _ Hk _ _ Es) Hfi) as (l1 & l2 & El & -> & Hl1 & Hl2). cbn [obind].
  eexists _, _. split; [done|]. by eapply ef_sleep.
Qed.

Lemma wake_ok t elapsed f s k : sema_inv k -> frames k !! t = Some f -> objects k !! this f = Some s ->
  sema_wake t elapsed k = Done (GetResult (waiter f), snd (Waiter_resume f elapsed),
    set_object (this f) (with_list (filter (fun u => u <> t) (wait_list s)) s) (delete t (frames k)) k).
Proof.
  intros Hk Ef Es. pose proof (si_queue _ Hk _ _ Es) as Hq. unfold sema_wake. rewrite Ef, Es. cbn [of_option obind].
  unfold Wait_end. cbn [Waiter_resume snd]. destruct (si_settled _ Hk (this f) t f Ef eq_refl) as [Hw|Hw].
  - assert (GetResult (waiter f) = ORBIS_KERNEL_ERROR_ETIMEDOUT) as E.
    { destruct Hw as (_ & Ha & Hb & Hc). unfold GetResult. by rewrite Ha, Hb, Hc. }
    assert (t ∈ wait_list s) as Ht by (apply (qo_elem _ _ _ Hq); eauto).
    by rewrite E, Z.eqb_refl, bool_decide_eq_true_2.
  - assert ((GetResult (waiter f) =? ORBIS_KERNEL_ERROR_ETIMEDOUT) = false) as ->.
    { destruct Hw as (_ & Hw). unfold GetResult. rewrite !elem_of_cons, elem_of_nil in Hw.
      destruct Hw as [Hw|[Hw|[Hw|[]]]]; injection Hw as E1 E2 E3; by rewrite ?E1, ?E2, ?E3. }
    cbn [obind]. rewrite filter_absent; [by destruct s|].
    intros Hu. destruct (queue_this _ _ _ _ _ Hq Hu Ef) as [_ Hw']. by apply (not_both f).
Qed.

Lemma signal_ok sem n k : sema_inv k -> 0 <= sem -> readable sem k ->
  (forall p s, names sem p s k -> in_s32 (token_count s + n)) ->
  exists r k', sema_perform (OpSignal sem n) k = Done (r, k') /\ sema_effect k (OpSignal sem n) r k'.
Proof.
  intros Hk Hs Hr Hn. cbn. unfold sceKernelSignalSema.
  destruct (handle_cases sem k Hk Hs Hr) as [Ef|(p & s & -> & Hp & Es & ->)]; cbn [obind negb].
  { rewrite Ef. cbn [obind negb]. eexists _, k. split; [done|]. by eapply ef_error, rf_handle; [|apply free_handle]. }
  specialize (Hn p s (conj Hp Es)). pose proof (Signal_ok p s _ n (si_queue _ Hk _ _ Es) (si_settled _ Hk p) Hn) as HS.
  destruct (greedy _ _ _) as [[served unserved] rem] eqn:Eg. destruct (Z.ltb_spec (max_count s) (token_count s + n)).
  - rewrite HS. cbn [obind negb]. rewrite set_object_id by done. eexists _, k. split; [done|]. by eapply ef_error, rf_signal.
  - destruct HS as (fs' & -> & Hro & _). eexists _, _. split; [done|]. by eapply ef_signal.
Qed.

Lemma cancel_ok sem n k : sema_inv k -> 0 <= sem -> readable sem k ->
  exists r k', sema_perform (OpCancel sem n) k = Done (r, k') /\ sema_effect k (OpCancel sem n) r k'.
Proof.
  intros Hk Hs Hr. cbn. unfold sceKernelCancelSema.
  destruct (handle_cases sem k Hk Hs Hr) as [Ef|(p & s & -> & Hp & Es & ->)]; cbn [obind negb].
  { rewrite Ef. cbn [obind negb]. eexists _, k. split; [done|]. by eapply ef_error, rf_handle; [|apply free_handle]. }
  destruct (Cancel_ok p s _ n (si_queue _ Hk _ _ Es) (si_settled _ Hk p)) as (fs' & -> & Hro & _). cbn [obind].
  eexists _, _. split; [done|]. by apply (ef_cancel k sem n p s).
Qed.

Lemma delete_ok sem k : sema_inv k -> 0 <= sem -> readable sem k ->
  exists r k', sema_perform (OpDelete sem) k = Done (r, k') /\ sema_effect k (OpDelete sem) r k'.
Proof.
  intros Hk Hs Hr. cbn. unfold sceKernelDeleteSema.
  destruct (handle_cases sem k Hk Hs Hr) as [Ef|(p & s & -> & Hp & Es & ->)]; cbn [obind negb].
  { rewrite Ef. cbn [obind negb]. eexists _, k. split; [done|]. by eapply ef_error, rf_handle; [|apply free_handle]. }
  destruct (Delete_ok p s _ (si_queue _ Hk _ _ Es) (si_settled _ Hk p)) as (fs' & -> & Hro & _). cbn [obind].
  destruct (slot_erase_spec _ _ _ (si_slots _ Hk) Hp) as (v & -> & Hv & Hg). cbn [obind].
  eexists _, _. split; [done|]. by apply (ef_delete k sem p s).
Qed.

(** What a step needs to be defined: a readable handle, room for a new one, a
    sum that fits [int], an object that still exists. *)
Definition sema_defined (op : sema_op) k : Prop :=
  match op with
  | OpCreate _ _ _ _ => slot_room (orbis_sems k)
  | OpWait _ sem _ _ | OpPoll _ sem _ | OpCancel sem _ | OpDelete sem => readable sem k
  | OpSignal sem n => readable sem k /\
      forall p s, names sem p s k -> in_s32 (token_count s + n)
  | OpWake t _ => forall f, frames k !! t = Some f -> is_Some (objects k !! this f)
  end.

Lemma sema_step_ok op k : sema_inv k -> sema_enabled op k -> sema_defined op k ->
  exists r k', sema_perform op k = Done (r, k') /\ sema_effect k op r k'.
Proof.
  intros Hk He Hd. destruct op; cbn in He, Hd.
  - by apply create_ok.
  - destruct He. by apply (wait_effect _ cur true); [..|constructor|].
  - destruct He. by apply (wait_effect _ cur false); [..|constructor|].
  - destruct He as (f & Ef & _). destruct (Hd f Ef) as [s Es]. cbn. rewrite (wake_ok _ elapsed f s k Hk Ef Es).
    eexists _, _. split; [done|]. apply ef_wake; [done|done|]. by eapply GetResult_verdict.
  - destruct Hd. by apply signal_ok.
  - by apply cancel_ok.
  - by apply delete_ok.
Qed.

(** ** The effects keep the invariant *)

Lemma create_inv nm attr init max i v k : sema_inv k -> slot_get (orbis_sems k) i = None -> slot_ok v ->
  (forall j, slot_get v j = if j =? i then Some (next_object k) else slot_get (orbis_sems k) j) ->
  sema_inv (mkSemas v (<[next_object k := ctor init max nm (attr =? 1)]> (objects k)) (next_object k + 1) (frames k)).
Proof.
  intros [Hs Ho Hi Hfr Hq Hse Hf] Hn Hv Hg.
  assert (objects k !! next_object k = None) as Hnew.
  { destruct (objects k !! next_object k) eqn:Eo; [|done]. specialize (Hfr (next_object k)).
    rewrite Eo in Hfr. specialize (Hfr ltac:(eauto)). lia. }
  split; cbn [orbis_sems objects next_object frames]; try done.
  - intros j p. rewrite Hg. destruct (j =? i); [intros [= <-]; rewrite lookup_insert_eq; eauto|].
    intros Hp. pose proof (Ho _ _ Hp) as [s Es]. rewrite lookup_insert_ne by (intros <-; congruence). eauto.
  - intros j j' p. rewrite !Hg. destruct (Z.eqb_spec j i) as [->|]; destruct (Z.eqb_spec j' i) as [->|]; try done.
    + intros [= <-] Hp. destruct (Ho _ _ Hp). congruence.
    + intros Hp [= <-]. destruct (Ho _ _ Hp). congruence.
    + apply Hi.
  - intros p. destruct (decide (p = next_object k)) as [->|]; [lia|]. rewrite lookup_insert_ne by done.
    intros Hp. specialize (Hfr p Hp). lia.
  - intros p s. destruct (decide (p = next_object k)) as [->|]; [|rewrite lookup_insert_ne by done; apply Hq].
    rewrite lookup_insert_eq. intros [= <-]. split; cbn; try by constructor.
    + intros t. rewrite elem_of_nil. split; [done|]. intros (f & Ef & Hp & _). specialize (Hf t f Ef) as [Hf _]. lia.
    + intros _ t. by rewrite elem_of_nil.
  - intros t f Ef. destruct (Hf t f Ef) as [Hlt Hw]. split; [lia|]. intros Hwf. rewrite lookup_insert_ne by lia. auto.
Qed.

Lemma delete_inv sem p s fs' v k : sema_inv k -> names sem p s k -> slot_ok v ->
  (forall j, slot_get v j = if j =? sem then None else slot_get (orbis_sems k) j) ->
  kept p (frames k) (with_list [] s) fs' -> sema_inv (mkSemas v (delete p (objects k)) (next_object k) fs').
Proof.
  intros [Hs Ho Hi Hfr Hq Hse Hf] [Hp Es] Hv Hget [Kq Ks Ke].
  assert (forall i q, slot_get v i = Some q -> slot_get (orbis_sems k) i = Some q /\ q <> p) as Hg.
  { intros i q. rewrite Hget. destruct (Z.eqb_spec i sem) as [->|Hne]; [done|]. intros Hq'. split; [done|].
    intros ->. apply Hne. by eapply Hi. }
  split; cbn [orbis_sems objects next_object frames]; try done.
  - intros i q [Hgi Hne]%Hg. rewrite lookup_delete_ne by done. eauto.
  - intros i j q [Hgi _]%Hg [Hgj _]%Hg. eauto.
  - intros q [s' Eq]. apply lookup_delete_Some in Eq as [_ Eq]. eauto.
  - intros q s' [Hne Eq]%lookup_delete_Some. eapply queue_elsewhere; [|done|by apply Hq]. done.
  - intros q. destruct (decide (q = p)) as [->|]; [done|]. eapply settled_elsewhere; eauto.
  - intros t f Et. destruct (decide (this f = p)) as [Ep|Hne].
    + split; [rewrite Ep; eauto|]. intros Hw. exfalso.
      assert (t ∈ wait_list (with_list [] s)) as Ht by (apply (qo_elem _ _ _ Kq); eauto). by apply elem_of_nil in Ht.
    + rewrite lookup_delete_ne by done. apply (Hf t). by apply (Ke t f).
Qed.

Lemma signal_kept sem n p s served unserved rem fs' k : sema_inv k -> names sem p s k ->
  greedy (need_of (frames k)) (wait_list s) (token_count s + n) = (served, unserved, rem) ->
  roused set_signaled served (frames k) fs' -> kept p (frames k) (with_list unserved (with_tokens rem s)) fs'.
Proof.
  intros Hk [_ Es] Eg Hr. pose proof (si_queue _ Hk _ _ Es) as Hq.
  destruct (greedy_partition _ _ _ _ _ _ Eg) as (Hin & Hs1 & _ & Hd).
  apply (rouse_kept set_signaled p s _ served); auto; [by apply si_settled|]. exact (Hd (qo_nodup _ _ _ Hq)).
Qed.

Lemma take_kept p s n k : sema_inv k -> objects k !! p = Some s -> kept p (frames k) (with_tokens n s) (frames k).
Proof. intros Hk Es. apply kept_refl; [|by apply si_settled]. by apply queue_tokens, si_queue. Qed.

Lemma sleep_kept cur need tmo p s l1 l2 k (w := WaitingThread_ctor cur need (is_fifo s)) :
  sema_inv k -> frames k !! tid cur = None -> objects k !! p = Some s -> wait_list s = l1 ++ l2 ->
  (forall u, u ∈ l1 -> prio_of (frames k) u <= priority w) -> (forall u, u ∈ l2 -> priority w < prio_of (frames k) u) ->
  kept p (frames k) (with_list (l1 ++ tid cur :: l2) s) (<[tid cur := mkFrame w p tmo]> (frames k)).
Proof.
  intros Hk Hc Es El Hl1 Hl2. apply enqueue_kept; try done; [by apply si_queue|by apply si_settled|].
  intros Hff. subst w. cbn. by rewrite Hff.
Qed.

Lemma wake_kept t f s k : sema_inv k -> frames k !! t = Some f -> objects k !! this f = Some s ->
  kept (this f) (frames k) (with_list (filter (fun u => u <> t) (wait_list s)) s) (delete t (frames k)).
Proof. intros Hk Ef Es. eapply leave_kept; try done; [by apply si_queue|by apply si_settled]. Qed.

Lemma rouse_all_kept set p s s' fs' k : marks set -> sema_inv k -> objects k !! p = Some s ->
  roused set (wait_list s) (frames k) fs' -> wait_list s' = [] -> is_fifo s' = is_fifo s -> kept p (frames k) s' fs'.
Proof. intros Hm Hk Es Hr Hl Hf. apply (empty_kept set p s); auto; [by apply si_queue|by apply si_settled]. Qed.

Lemma effect_inv op k r k' : sema_inv k -> sema_enabled op k -> sema_effect k op r k' -> sema_inv k'.
Proof.
  intros Hk He Hf. destruct Hf as [op r Hr
    |nm attr init max i v Ha Hi Hm Hn Hv Hs|op cur sem need p s Hw [Hpp Es] Hle|cur sem need tmo p s l1 l2 w [Hpp Es] Hlt Ht El H1 H2
    |t el f s rw Ef Es Hvd|sem n p s a b c fs' Hn Hs Hm Eg Hr|sem n p s fs' [Hpp Es] Hr|sem p s v fs' Hn Hr Hv Hs].
  - done.
  - by eapply create_inv.
  - eapply set_object_inv; [done|done|by apply take_kept].
  - destruct He as [He _]. eapply set_object_inv; [done|done|by apply sleep_kept].
  - eapply set_object_inv; [done|done|by apply wake_kept].
  - eapply set_object_inv; [done|apply Hn|by eapply signal_kept].
  - eapply set_object_inv; [done|done|by apply (rouse_all_kept set_canceled p s)].
  - eapply delete_inv; try done. apply (rouse_all_kept set_deleted p s); auto. apply Hn.
Qed.

(** A step that completed was defined, unless the table had no room. *)
Lemma readable_of_run {B} sem k (f : bool -> outcome B) b :
  (let! a := slot_allocated sem (orbis_sems k) in f a) = Done b -> readable sem k.
Proof. intros (a & E & _)%obind_Done. by exists a. Qed.

Lemma sema_run_defined op k r k' : sema_inv k -> sema_enabled op k -> sema_perform op k = Done (r, k') ->
  (forall nm a i m, op = OpCreate nm a i m -> slot_room (orbis_sems k)) -> sema_defined op k.
Proof.
  intros Hk He Hr Hroom. destruct op; cbn in *; eauto; try by apply readable_of_run in Hr.
  - intros f Ef. unfold sema_wake in Hr. rewrite Ef in Hr. destruct (objects k !! this f); [eauto|done].
  - apply obind_Done in Hr as ([r1 k1] & E & _). split; [by apply readable_of_run in E|]. intros p s [Hp Es].
    unfold sceKernelSignalSema, object_of in E.
    rewrite (slot_allocated_spec _ _ _ (si_slots _ Hk) Hp) in E. cbn [obind negb] in E.
    rewrite (slot_index_spec _ _ _ (si_slots _ Hk) Hp) in E. cbn [obind] in E. rewrite Es in E. cbn [of_option obind] in E.
    unfold Signal in E. apply s32_eq. by destruct (_ =? s32 _).
  - apply obind_Done in Hr as ([[r1 n1] k1] & E & _). by apply readable_of_run in E.
  - apply obind_Done in Hr as ([r1 k1] & E & _). by apply readable_of_run in E.
Qed.

(** The table has room whenever a handle is created. *)
Definition roomy k (op : sema_op) : Prop := forall nm a i m, op = OpCreate nm a i m -> slot_room (orbis_sems k).

Lemma sema_step_effect op k r k' : sema_inv k -> roomy k op -> sema_step op k r k' -> sema_effect k op r k'.
Proof.
  intros Hk Hr [He E]. destruct (sema_step_ok op k Hk He) as (r1 & k1 & E1 & Hk1); [|congruence].
  by eapply sema_run_defined.
Qed.

Lemma sema_step_inv op k r k' : sema_inv k -> roomy k op -> sema_step op k r k' -> sema_inv k'.
Proof.
  intros Hk Hr Hs. eapply effect_inv; [done|apply Hs|by apply sema_step_effect].
Qed.

Lemma boot_inv v : slot_ok v -> (forall i, slot_get v i = None) -> sema_inv (mkSemas v ∅ 0 ∅).
Proof.
  intros Hv Hg. split; cbn; try done.
  - intros i p. by rewrite Hg.
  - intros i j p. by rewrite Hg.
  - intros p [s Es]. by rewrite lookup_empty in Es.
Qed.

Lemma sema_reach_inv P k : (forall k op, P k op -> roomy k op) -> sema_reach P k -> sema_inv k.
Proof. intros HP. induction 1; [by apply boot_inv|]. eapply sema_step_inv; [done|by apply HP|done]. Qed.

End Machine.
