(* ===== verification/SemaSpec.v ===== *)
(** * SemaSpec: what the kernel semaphores promise

    The properties of [sceKernel*Sema] over all interleavings of calls by any
    number of threads.  The witnesses run the calls on a fresh table. *)

From stdpp Require Import gmap sorting.
From S2P Require Import Prelude SlotVector SlotFacts Semaphore SemaFacts SemaSteps.
Import OrbisSem.

Section Spec.
Context {V : Type} `{SlotStore Z V}.
Implicit Types k : Semas V.

(** ** Calls with sensible counts

    Needs and signals that are not negative, and cancels within the maximum:
    the code checks none of these. *)
Definition polite k (op : sema_op) : Prop :=
  roomy k op /\
  match op with
  | OpCreate _ _ _ max => in_s32 max
  | OpWait _ _ need _ | OpPoll _ _ need => 0 <= need
  | OpSignal _ n => 0 <= n
  | OpCancel sem n => forall p s, names sem p s k -> n <= max_count s
  | _ => True
  end.

(** The tokens are within bounds and too few for everyone in the queue. *)
Record sem_good (s : OrbisSem.t) (fs : gmap Z Frame) : Prop := {
  sg_tokens : 0 <= token_count s <= max_count s;
  sg_init : 0 <= init_count s <= max_count s;
  sg_max : in_s32 (max_count s);
  sg_queue : forall t, t ∈ wait_list s -> token_count s < need_of fs t }.

Definition sema_good k : Prop := forall p s, objects k !! p = Some s -> sem_good s (frames k).

Lemma good_elsewhere p q s fs fs' : q <> p -> elsewhere p fs fs' -> queue_ok q s fs -> sem_good s fs -> sem_good s fs'.
Proof.
  intros Hne Hel Hq [? ? ? Hn]. split; try done. intros t Ht. apply (qo_elem _ _ _ Hq) in Ht as Hf.
  destruct Hf as (f & E & Hp & _). specialize (Hn t Ht). unfold need_of in *. rewrite E in Hn.
  by rewrite (proj2 (Hel t f ltac:(congruence)) E).
Qed.

Lemma good_set_object p s' fs' k : sema_inv k -> sema_good k -> elsewhere p (frames k) fs' -> sem_good s' fs' ->
  sema_good (set_object p s' fs' k).
Proof.
  intros Hk Hg Hel Hs q sq. cbn. destruct (decide (q = p)) as [->|Hne].
  - rewrite lookup_insert_eq. by intros [= <-].
  - rewrite lookup_insert_ne by done. intros E. eapply good_elsewhere; [done|done|by apply si_queue|by apply (Hg q)].
Qed.

Lemma roused_need set l fs fs' t : marks set -> roused set l fs fs' -> need_of fs' t = need_of fs t.
Proof.
  intros Hm Hr. unfold need_of. rewrite Hr. destruct (fs !! t) as [f|]; [|done]. cbn.
  case_bool_decide; [|done]. apply awake_attrs, Hm.
Qed.

Lemma need_of_delete fs t u : u <> t -> need_of (delete t fs) u = need_of fs u.
Proof. intros. unfold need_of. by rewrite lookup_delete_ne. Qed.

Lemma effect_good op k r k' : sema_inv k -> sema_good k -> sema_enabled op k -> polite k op ->
  sema_effect k op r k' -> sema_good k'.
Proof.
  intros Hk Hg He [_ Hp] Hf. destruct Hf as [op r Hr
    |nm attr init max i v Ha Hi Hm Hn Hv Hs|op cur sem need p s Hw [Hpp Es] Hle|cur sem need tmo p s l1 l2 w [Hpp Es] Hlt Ht El H1 H2
    |t el f s rw Ef Es Hvd|sem n p s a b c fs' Hn Hs Hm Eg Hr|sem n p s fs' Hn Hr|sem p s v fs' [Hpp Es] Hr Hv Hs]; try done.
  - intros q sq. cbn. destruct (decide (q = next_object k)) as [->|].
    + rewrite lookup_insert_eq. intros [= <-]. split; cbn; try done; try lia. intros t. by rewrite elem_of_nil.
    + rewrite lookup_insert_ne by done. apply Hg.
  - destruct (Hg _ _ Es) as [[? ?] ? Hx Hq]. apply good_set_object; try done.
    assert (0 <= need) by (by destruct Hw). rewrite s32_small by (unfold in_s32 in *; lia).
    split; cbn; try done; [lia|]. intros t Ht. specialize (Hq t Ht). lia.
  - destruct He as [He _]. destruct (Hg _ _ Es) as [? ? ? Hq].
    apply good_set_object; try done; [by apply (sleep_kept cur need tmo p s l1 l2 k)|].
    split; cbn; try done. intros u Hu. destruct (decide (u = tid cur)) as [->|Hne].
    + unfold need_of. by rewrite lookup_insert_eq.
    + rewrite need_of_insert by done. apply Hq. rewrite El. rewrite elem_of_app, elem_of_cons in *. tauto.
  - destruct (Hg _ _ Es) as [? ? ? Hq]. apply good_set_object; try done; [by apply (wake_kept t f s k)|].
    split; cbn; try done. intros u [Hu Hin]%list_elem_of_filter. rewrite need_of_delete by done. by apply Hq.
  - destruct (Hg _ _ (proj2 Hn)) as [? ? ? Hq].
    apply good_set_object; try done; [by apply (signal_kept sem n p s a b c fs' k)|].
    destruct (greedy_spec _ _ _ _ _ _ Eg) as (Hc & Hle & Hz & Hr' & Hl); [|done|].
    { intros t Ht. specialize (Hq t Ht). lia. }
    cbn in Hp. split; cbn; try done; [lia|]. intros t Ht. rewrite (roused_need set_signaled a (frames k)) by auto. by apply Hl.
  - destruct (Hg _ _ (proj2 Hn)) as [? ? ? Hq]. specialize (Hp p s Hn).
    apply good_set_object; try done; [apply (rouse_all_kept set_canceled p s (with_list [] s) fs' k); auto; apply Hn|].
    split; cbn; try done; [destruct (Z.ltb_spec n 0); lia|]. intros t. by rewrite elem_of_nil.
  - intros q sq. cbn. intros [Hne E]%lookup_delete_Some. eapply good_elsewhere; [by apply not_eq_sym| |by apply si_queue|by apply (Hg q)].
    apply (rouse_all_kept set_deleted p s (with_list [] s) fs' k); auto.
Qed.

Lemma polite_reach k : sema_reach polite k -> sema_inv k /\ sema_good k.
Proof.
  induction 1 as [v Hv Hg|k op r k' Hr [IHi IHg] Hp Hs].
  - split; [by apply boot_inv|]. intros p s. cbn. by rewrite lookup_empty.
  - assert (sema_effect k op r k') as Hf by (apply sema_step_effect; [done|apply Hp|done]).
    split; [eapply effect_inv; [done|apply Hs|done]|]. eapply effect_good; [done|done|apply Hs|done|done].
Qed.

(** ** Progress of a woken thread *)

(** Steps of threads other than [t]'s return from its wait. *)
Inductive others (t : Z) k : Semas V -> Prop :=
  | others_refl : others t k k
  | others_step k1 op r k2 : others t k k1 -> roomy k1 op -> (forall e, op <> OpWake t e) -> sema_step op k1 r k2 -> others t k k2.

Lemma woken_roused set p s fs' t f k : sema_inv k -> objects k !! p = Some s ->
  frames k !! t = Some f -> woken f -> (forall l, (forall u, u ∈ l -> u ∈ wait_list s) ->
  roused set l (frames k) fs' -> fs' !! t = Some f).
Proof.
  intros Hk Es Ef Hw l Hl Hr. rewrite (roused_out _ _ _ _ _ Hr); [done|]. intros Ht%Hl.
  destruct (queue_this _ _ _ _ _ (si_queue _ Hk _ _ Es) Ht Ef) as [_ Hw']. by apply (not_both f).
Qed.

Lemma woken_stable op k r k' t f : sema_inv k -> sema_enabled op k -> sema_effect k op r k' ->
  (forall e, op <> OpWake t e) -> frames k !! t = Some f -> woken f -> frames k' !! t = Some f.
Proof.
  intros Hk He Hf Hop Ef Hw. destruct Hf as [op r Hr
    |nm attr init max i v Ha Hi Hm Hn Hv Hs|op cur sem need p s Hwt Hn Hle|cur sem need tmo p s l1 l2 w Hn Hlt Ht El H1 H2
    |t' el f' s rw Ef' Es Hvd|sem n p s a b c fs' [Hpp Es] Hs Hm Eg Hr|sem n p s fs' [Hpp Es] Hr|sem p s v fs' [Hpp Es] Hr Hv Hs];
    cbn [frames set_object]; try done.
  - destruct He as [He _]. rewrite lookup_insert_ne; [done|]. intros <-. congruence.
  - rewrite lookup_delete_ne; [done|]. intros ->. by apply (Hop el).
  - eapply (woken_roused set_signaled p s _ _ _ _ Hk Es Ef Hw a); [|done].
    destruct (greedy_partition _ _ _ _ _ _ Eg) as (Hin & _). intros u Hu. apply Hin. by left.
  - by eapply (woken_roused set_canceled p s).
  - by eapply (woken_roused set_deleted p s).
Qed.

Lemma others_stable t f k k' : sema_inv k -> frames k !! t = Some f -> woken f -> others t k k' ->
  sema_inv k' /\ frames k' !! t = Some f.
Proof.
  intros Hk Ef Hw. induction 1 as [|k1 op r k2 _ [Hk1 IH] Hr Hop Hs]; [done|].
  pose proof (sema_step_effect _ _ _ _ Hk1 Hr Hs) as Hf. destruct Hs as [He _].
  split; [by eapply effect_inv|by eapply woken_stable].
Qed.

(** ** The properties *)

(** C8: over any history of calls by any threads, on any arguments, in which
    the table of handles has room for each semaphore created, a semaphore's
    list holds exactly the threads asleep on it that nothing has woken, without
    duplicates and in priority order; every other sleeping thread has been
    woken for exactly one reason; and the next call always completes with the
    effect the specification [sema_effect] gives, provided its handle can be
    looked up, its sum fits [int] and its object exists.  By that
    specification a call fails only for its cause and with its code
    ([refused]: bad counts, a handle that names nothing, too few tokens for a
    poll or a wait without time, a signal beyond the maximum), a wait that
    slept returns what woke it ([verdict]), and every other call succeeds. *)
Theorem semaphores_refine k (Hr : sema_reach roomy k) :
  (forall p s, objects k !! p = Some s -> queue_ok p s (frames k)) /\
  (forall t f, frames k !! t = Some f ->
    (waiting f /\ exists s, objects k !! this f = Some s /\ t ∈ wait_list s) \/ woken f) /\
  (forall op, sema_enabled op k -> sema_defined op k ->
    exists r k', sema_perform op k = Done (r, k') /\ sema_effect k op r k').
Proof.
  pose proof (sema_reach_inv roomy k (fun _ _ Hx => Hx) Hr) as Hk. split_and!.
  - apply Hk.
  - intros t f Ef. destruct (si_settled _ Hk (this f) t f Ef eq_refl) as [Hw|]; [left|by right].
    split; [done|]. destruct (si_frame _ Hk t f Ef) as [_ Hs]. destruct (Hs Hw) as [s Es]. exists s. split; [done|].
    apply (qo_elem _ _ _ (si_queue _ Hk _ _ Es)). eauto.
  - intros op. by apply sema_step_ok.
Qed.

(** as long as needs and signals are not negative and cancels stay within
    the maximum, the tokens of every semaphore stay between 0 and its maximum,
    and no thread is left asleep whose need the tokens meet. *)
Theorem semaphore_tokens_bounded k (Hr : sema_reach polite k) (p : Z) (s : OrbisSem.t) (Es : objects k !! p = Some s) :
  0 <= token_count s <= max_count s /\ forall t, t ∈ wait_list s -> token_count s < need_of (frames k) t.
Proof. destruct (polite_reach k Hr) as [_ Hg]. destruct (Hg p s Es). done. Qed.

(** a thread that was signalled returns from its wait: whatever the other
    threads do, its wake-up stays pending, and unless the semaphore was deleted
    meanwhile it returns ORBIS_OK. *)
Theorem signalled_thread_returns k (Hr : sema_reach roomy k) (t : Z) (f : Frame)
    (Ef : frames k !! t = Some f) (Hs : was_signaled (waiter f) = true) k' (Ho : others t k k') (e : Z) :
  sema_enabled (OpWake t e) k' /\
  (is_Some (objects k' !! this f) ->
   exists k2, sema_perform (OpWake t e) k' = Done (Some ORBIS_OK, k2) /\ frames k2 !! t = None).
Proof.
  pose proof (sema_reach_inv roomy k (fun _ _ Hx => Hx) Hr) as Hk.
  assert (woken f) as Hw.
  { destruct (si_settled _ Hk (this f) t f Ef eq_refl) as [(_ & Hf & _)|]; [congruence|done]. }
  destruct (others_stable t f k k' Hk Ef Hw Ho) as [Hk' Ef']. split.
  - exists f. split; [done|]. destruct Hw as [Hsem _]. unfold may_wake. by rewrite Hsem.
  - intros [s Es]. cbn. rewrite (wake_ok t e f s k' Hk' Ef' Es). cbn. unfold GetResult. rewrite Hs.
    eexists. split; [done|]. cbn. apply lookup_delete_eq.
Qed.

(** a signal on a live semaphore within its maximum adds its tokens and hands
    them out in queue order to every thread whose need they meet; exactly these
    threads are woken, the tokens left are the sum minus their needs, and they
    are too few for each thread that stays. *)
Theorem Signal_serves k (Hr : sema_reach polite k) (sem n p : Z) (s : OrbisSem.t) (Hn : names sem p s k)
    (Hs : 0 <= sem /\ 0 <= n) (Hmax : token_count s + n <= max_count s) :
  exists served unserved fs' k', sceKernelSignalSema sem n k = Done (ORBIS_OK, k') /\
    greedy (need_of (frames k)) (wait_list s) (token_count s + n) =
      (served, unserved, token_count s + n - total (need_of (frames k)) served) /\
    k' = set_object p (with_list unserved (with_tokens (token_count s + n - total (need_of (frames k)) served) s)) fs' k /\
    roused set_signaled served (frames k) fs' /\
    (forall t, t ∈ wait_list s <-> t ∈ served \/ t ∈ unserved) /\
    (forall t, t ∈ unserved -> token_count s + n - total (need_of (frames k)) served < need_of (frames k) t).
Proof.
  destruct (polite_reach k Hr) as [Hk Hg]. destruct Hn as [Hp Es]. destruct (Hg p s Es) as [? ? ? Hq].
  assert (in_s32 (token_count s + n)) as Hi by (unfold in_s32 in *; lia).
  pose proof (Signal_ok p s _ n (si_queue _ Hk _ _ Es) (si_settled _ Hk p) Hi) as HS.
  destruct (greedy _ _ _) as [[served unserved] rem] eqn:Eg. rewrite (proj2 (Z.ltb_ge _ _)) in HS by done.
  destruct HS as (fs' & E & Hro & _).
  destruct (greedy_spec _ _ _ _ _ _ Eg) as (-> & _ & _ & _ & Hl); [intros t Ht; specialize (Hq t Ht); lia|done|].
  destruct (greedy_partition _ _ _ _ _ _ Eg) as (Hin & _).
  exists served, unserved, fs'. eexists. split; [|by split_and!].
  unfold sceKernelSignalSema, object_of. rewrite (slot_allocated_spec _ _ _ (si_slots _ Hk) Hp). cbn [obind negb].
  rewrite (slot_index_spec _ _ _ (si_slots _ Hk) Hp). cbn [obind]. rewrite Es. cbn [of_option obind]. by rewrite E.
Qed.

End Spec.

(** ** A run: one semaphore, a thread that sleeps on it, a signal *)

Definition demo_table : SlotVector.t Z := match SlotVector.ctor with Done v => v | Raised _ => SlotVector.mk [] 0 [] [] end.
Definition sema_next (op : sema_op) (k : Semas (SlotVector.t Z)) : Semas (SlotVector.t Z) :=
  match sema_perform op k with Done (_, k') => k' | Raised _ => k end.

Definition demo_sema0 : Semas (SlotVector.t Z) := mkSemas demo_table ∅ 0 ∅.
Definition demo_create : sema_op := OpCreate (Some "job"%string) 2 0 10.
Definition demo_sema1 : Semas (SlotVector.t Z) := sema_next demo_create demo_sema0.
Definition demo_wait : sema_op := OpWait (mkThread 7 700 "worker"%string) 0 2 None.
Definition demo_sema2 : Semas (SlotVector.t Z) := sema_next demo_wait demo_sema1.
Definition demo_signal : sema_op := OpSignal 0 3.
Definition demo_sema3 : Semas (SlotVector.t Z) := sema_next demo_signal demo_sema2.

Lemma demo_table_ok : slot_ok demo_table /\ forall i, slot_get demo_table i = None.
Proof. unfold demo_table. destruct (@ctor_ok Z) as (v & -> & Hw & _ & Hg). done. Qed.

Lemma reach_weaken {V} `{SlotStore Z V} (P Q : Semas V -> sema_op -> Prop) k :
  (forall k op, P k op -> Q k op) -> sema_reach P k -> sema_reach Q k.
Proof. intros HPQ. induction 1; [by apply sr_boot|]. eapply sr_step; [done|by apply HPQ|done]. Qed.

Lemma reach_next (P : Semas (SlotVector.t Z) -> sema_op -> Prop) k op r :
  sema_reach P k -> P k op -> sema_enabled op k -> sema_perform op k = Done (r, sema_next op k) -> sema_reach P (sema_next op k).
Proof. intros Hr Hp He E. by eapply sr_step; [exact Hr|exact Hp|split]. Qed.

Lemma demo_sema0_reach : sema_reach polite demo_sema0.
Proof. apply sr_boot; apply demo_table_ok. Qed.

Lemma demo_sema1_reach : sema_reach polite demo_sema1.
Proof.
  apply (reach_next polite demo_sema0 demo_create (Some ORBIS_OK) demo_sema0_reach).
  - split; [intros ? ? ? ? _; vm_compute; congruence|vm_compute; intuition congruence].
  - done.
  - vm_compute. reflexivity.
Qed.

Lemma demo_sema2_reach : sema_reach polite demo_sema2.
Proof.
  apply (reach_next polite demo_sema1 demo_wait None demo_sema1_reach).
  - split; [by intros ? ? ? ? ?|vm_compute; congruence].
  - split; [vm_compute; reflexivity|vm_compute; congruence].
  - vm_compute. reflexivity.
Qed.

Lemma demo_sema3_reach : sema_reach polite demo_sema3.
Proof.
  apply (reach_next polite demo_sema2 demo_signal (Some ORBIS_OK) demo_sema2_reach).
  - split; [by intros ? ? ? ? ?|vm_compute; congruence].
  - vm_compute. congruence.
  - vm_compute. reflexivity.
Qed.

Lemma semaphores_refine_witness : exists r k', sema_perform demo_signal demo_sema2 = Done (r, k') /\
  sema_effect demo_sema2 demo_signal r k'.
Proof.
  apply (semaphores_refine demo_sema2).
  - apply (reach_weaken polite); [by intros ? ? []|apply demo_sema2_reach].
  - vm_compute. congruence.
  - split; [exists true; vm_compute; reflexivity|]. intros p s [Hp Hs].
    assert (p = 0) as -> by (vm_compute in Hp; congruence). vm_compute in Hs. injection Hs as <-. vm_compute. intuition congruence.
Defined.

Lemma semaphore_tokens_bounded_witness :
  0 <= 0 <= 10 /\ forall t, t ∈ [7] -> 0 < need_of (frames demo_sema2) t.
Proof.
  apply (semaphore_tokens_bounded demo_sema2 demo_sema2_reach 0 (mk [7] "job"%string 0 10 0 false)). vm_compute. reflexivity.
Defined.

Lemma signalled_thread_returns_witness :
  exists k2, sema_perform (OpWake 7 5) demo_sema3 = Done (Some ORBIS_OK, k2) /\ frames k2 !! 7 = None.
Proof.
  apply (signalled_thread_returns demo_sema3 ltac:(apply (reach_weaken polite); [by intros ? ? []|apply demo_sema3_reach])
    7 (mkFrame (mkWaiter 1 700 2 "worker"%string true false false) 0 None)).
  - vm_compute. reflexivity.
  - reflexivity.
  - apply others_refl.
  - eexists. vm_compute. reflexivity.
Defined.

Lemma Signal_serves_witness : exists served unserved fs' k', sceKernelSignalSema 0 3 demo_sema2 = Done (ORBIS_OK, k') /\
  greedy (need_of (frames demo_sema2)) [7] (0 + 3) = (served, unserved, 0 + 3 - total (need_of (frames demo_sema2)) served) /\
  k' = set_object 0 (with_list unserved (with_tokens (0 + 3 - total (need_of (frames demo_sema2)) served)
         (mk [7] "job"%string 0 10 0 false))) fs' demo_sema2 /\
  roused set_signaled served (frames demo_sema2) fs' /\
  (forall t, t ∈ [7] <-> t ∈ served \/ t ∈ unserved) /\
  (forall t, t ∈ unserved -> 0 + 3 - total (need_of (frames demo_sema2)) served < need_of (frames demo_sema2) t).
Proof.
  apply (Signal_serves demo_sema2 demo_sema2_reach 0 3 0 (mk [7] "job"%string 0 10 0 false)).
  - split; vm_compute; reflexivity.
  - split; vm_compute; congruence.
  - vm_compute. congruence.
Defined.
