(* ===== verification/PosixSem.v ===== *)
(** * PosixSem: POSIX semaphores

    The second half of [core/libraries/kernel/threads/semaphore.cpp]:
    [posix_sem_*] and the [scePthreadSem*] functions on top of them.  A
    [PthreadSem] pairs a host semaphore with an atomic copy of its count.  A call
    reads the guest's variable [*sem] again for each of its accesses: for the check
    for null, for the host semaphore, for the copy.  Each of these is a step of its
    own, and other threads may run between them, so a call may begin on one object
    and end on another.  The machine at the end interleaves these steps. *)

From stdpp Require Import gmap.
From S2P Require Import Prelude.

Definition ORBIS_KERNEL_SEM_VALUE_MAX : Z := 2147483647.

(** [semaphore] is the count of the host's counting semaphore. *)
Record PthreadSem := mkPSem { semaphore : Z; value : Z }.

(** How a thread acquires: [acquire], [try_acquire] or [try_acquire_until]. *)
Inductive Manner := Blocking | Trying | Until.

(** Where a call stands between two of its accesses to memory others share: it
    has found [*sem] not null, it is inside the host's acquire on the object [p],
    it has acquired; it has checked, it has read or failed to exchange the value
    [current], it has counted the post. *)
Inductive Phase :=
  | Checked (how : Manner) (sem : Z)
  | Acquiring (how : Manner) (sem p : Z)
  | Acquired (sem : Z)
  | Posting (sem : Z)
  | Exchanging (sem current : Z)
  | Posted (sem : Z).

(** The guest's variables of type [PthreadSem*] by address (0 is null), the
    objects they point to, and the threads inside a call. *)
Record PosixSems := mkPosix {
  variables : gmap Z Z;
  psems : gmap Z PthreadSem;
  next_psem : Z;
  pending : gmap Z Phase }.

(** A call returns a value, with what it stores in [errno], or goes on. *)
Inductive reply := Returned (ret : Z) (errno : option Z) | Continues.

Definition fails (errno : Z) (k : PosixSems) : outcome (reply * PosixSems) := Done (Returned (-1) (Some errno), k).

Definition with_psem (p : Z) (s : PthreadSem) (k : PosixSems) : PosixSems :=
  mkPosix (variables k) (<[p := s]> (psems k)) (next_psem k) (pending k).
Definition with_pending (f : gmap Z Phase -> gmap Z Phase) (k : PosixSems) : PosixSems :=
  mkPosix (variables k) (psems k) (next_psem k) (f (pending k)).

Definition goes_on (t : Z) (x : Phase) (k : PosixSems) : outcome (reply * PosixSems) :=
  Done (Continues, with_pending (<[t := x]>) k).
Definition returns0 (t : Z) (k : PosixSems) : outcome (reply * PosixSems) :=
  Done (Returned 0 None, with_pending (delete t) k).

(** [sem == nullptr || *sem == nullptr], and [*sem] otherwise; a variable that
    was never written must not be read. *)
Definition deref (sem : Z) (k : PosixSems) : outcome (option Z) :=
  if sem =? 0 then Done None else
  let! p := of_option (variables k !! sem) in
  Done (if p =? 0 then None else Some p).

(** [**sem] behind the check: the pointer is read again, and neither a null
    pointer nor an object that is gone may be followed. *)
Definition object_at (sem : Z) (k : PosixSems) : outcome (Z * PthreadSem) :=
  let! p := of_option (variables k !! sem) in
  let! s := of_option (psems k !! p) in Done (p, s).

Definition posix_sem_init (sem value : Z) (k : PosixSems) : outcome (reply * PosixSems) :=
  if ORBIS_KERNEL_SEM_VALUE_MAX <? value then fails POSIX_EINVAL k
  else if negb (sem =? 0) then
    let p := next_psem k in
    Done (Returned 0 None,
          mkPosix (<[sem := p]> (variables k)) (<[p := mkPSem value value]> (psems k)) (p + 1) (pending k))
  else Done (Returned 0 None, k).

Definition posix_sem_destroy (sem : Z) (k : PosixSems) : outcome (reply * PosixSems) :=
  let! o := deref sem k in
  match o with
  | None => fails POSIX_EINVAL k
  | Some p =>
      let! _ := of_option (psems k !! p) in
      Done (Returned 0 None, mkPosix (<[sem := 0]> (variables k)) (delete p (psems k)) (next_psem k) (pending k))
  end.

(** The start of a call: the check for null. *)
Definition checks (t sem : Z) (x : Phase) (k : PosixSems) : outcome (reply * PosixSems) :=
  let! o := deref sem k in
  match o with None => fails POSIX_EINVAL k | Some _ => goes_on t x k end.

Definition posix_sem_wait (t sem : Z) (k : PosixSems) : outcome (reply * PosixSems) := checks t sem (Checked Blocking sem) k.
Definition posix_sem_trywait (t sem : Z) (k : PosixSems) : outcome (reply * PosixSems) := checks t sem (Checked Trying sem) k.
Definition posix_sem_timedwait (t sem : Z) (k : PosixSems) : outcome (reply * PosixSems) := checks t sem (Checked Until sem) k.
Definition posix_sem_post (t sem : Z) (k : PosixSems) : outcome (reply * PosixSems) := checks t sem (Posting sem) k.

(** The end of an acquire on the object the call has entered; [got] is what the
    host's [try_acquire] returned, and true of [acquire]. *)
Definition acquire_ends (t : Z) (how : Manner) (sem p : Z) (got : bool) (k : PosixSems) : outcome (reply * PosixSems) :=
  let! s := of_option (psems k !! p) in
  if got then goes_on t (Acquired sem) (with_psem p (mkPSem (semaphore s - 1) (value s)) k)
  else fails (match how with Until => POSIX_ETIMEDOUT | _ => POSIX_EAGAIN end) (with_pending (delete t) k).

(** [--( *sem)->value]: of the object [*sem] points to by now. *)
Definition decrements (t sem : Z) (k : PosixSems) : outcome (reply * PosixSems) :=
  let! '(p, s) := object_at sem k in returns0 t (with_psem p (mkPSem (semaphore s) (value s - 1)) k).

(** One round of the compare-and-exchange loop; the exchange is a weak one, which
    may also fail ([got] is false) on the value it expects. *)
Definition exchanges (t sem current : Z) (got : bool) (k : PosixSems) : outcome (reply * PosixSems) :=
  if current =? ORBIS_KERNEL_SEM_VALUE_MAX then fails POSIX_EOVERFLOW (with_pending (delete t) k) else
  let! '(p, s) := object_at sem k in
  if got && (value s =? current) then goes_on t (Posted sem) (with_psem p (mkPSem (semaphore s) (current + 1)) k)
  else goes_on t (Exchanging sem (value s)) k.

(** [( *sem)->semaphore.release()], which must not exceed the host semaphore's
    maximum. *)
Definition releases (t sem : Z) (k : PosixSems) : outcome (reply * PosixSems) :=
  let! '(p, s) := object_at sem k in
  if semaphore s =? ORBIS_KERNEL_SEM_VALUE_MAX then Raised Undefined
  else returns0 t (with_psem p (mkPSem (semaphore s + 1) (value s)) k).

(** The next access of the call thread [t] is in. *)
Definition psem_next (t : Z) (got : bool) (k : PosixSems) : outcome (reply * PosixSems) :=
  match pending k !! t with
  | None => Raised Undefined
  | Some (Checked how sem) => let! '(p, _) := object_at sem k in goes_on t (Acquiring how sem p) k
  | Some (Acquiring how sem p) => acquire_ends t how sem p got k
  | Some (Acquired sem) => decrements t sem k
  | Some (Posting sem) => let! '(_, s) := object_at sem k in goes_on t (Exchanging sem (value s)) k
  | Some (Exchanging sem current) => exchanges t sem current got k
  | Some (Posted sem) => releases t sem k
  end.

(** The last result is what is stored through [sval]. *)
Definition posix_sem_getvalue (sem : Z) (k : PosixSems) : outcome (reply * option Z) :=
  let! o := deref sem k in
  match o with
  | None => Done (Returned (-1) (Some POSIX_EINVAL), None)
  | Some p => let! s := of_option (psems k !! p) in Done (Returned 0 None, Some (value s))
  end.

(** ** The [scePthreadSem*] functions *)

(** What they make of the reply of the POSIX function. *)
Definition sce_reply (r : reply) : reply :=
  match r with
  | Returned ret (Some e) => if negb (ret =? 0) then Returned (ErrnoToSceKernelError e) (Some e) else Returned ORBIS_OK (Some e)
  | Returned ret None => Returned ORBIS_OK None
  | Continues => Continues
  end.

Definition sce (m : outcome (reply * PosixSems)) : outcome (reply * PosixSems) :=
  let! '(r, k) := m in Done (sce_reply r, k).

Definition scePthreadSemInit (sem flag value : Z) (k : PosixSems) : outcome (reply * PosixSems) :=
  if negb (flag =? 0) then Done (Returned ORBIS_KERNEL_ERROR_EINVAL None, k) else sce (posix_sem_init sem value k).
Definition scePthreadSemDestroy (sem : Z) (k : PosixSems) : outcome (reply * PosixSems) := sce (posix_sem_destroy sem k).
Definition scePthreadSemWait (t sem : Z) (k : PosixSems) : outcome (reply * PosixSems) := sce (posix_sem_wait t sem k).
Definition scePthreadSemTrywait (t sem : Z) (k : PosixSems) : outcome (reply * PosixSems) := sce (posix_sem_trywait t sem k).
Definition scePthreadSemPost (t sem : Z) (k : PosixSems) : outcome (reply * PosixSems) := sce (posix_sem_post t sem k).
Definition scePthreadSemGetvalue (sem : Z) (k : PosixSems) : outcome (reply * option Z) :=
  let! '(r, v) := posix_sem_getvalue sem k in Done (sce_reply r, v).

(** The absolute time [scePthreadSemTimedwait] waits for, from the clock's
    seconds and nanoseconds. *)
Definition timedwait_deadline (now_sec now_nsec usec : Z) : Z * Z :=
  let total_nsec := wadd now_nsec ((usec mod 1000000) * 1000) in
  (s64 (wadd (now_sec + usec / 1000000) (total_nsec / 1000000000)), total_nsec mod 1000000000).

Definition scePthreadSemTimedwait (t sem : Z) (k : PosixSems) : outcome (reply * PosixSems) := sce (posix_sem_timedwait t sem k).

(** The next access inside one of these calls. *)
Definition sce_psem_next (t : Z) (got : bool) (k : PosixSems) : outcome (reply * PosixSems) := sce (psem_next t got k).

(** ** The machine *)

Inductive psem_op :=
  | PInit (sem value : Z) | PDestroy (sem : Z) | PWait (t sem : Z) | PTrywait (t sem : Z)
  | PTimedwait (t sem : Z) | PPost (t sem : Z) | PNext (t : Z) (got : bool).

Definition psem_perform (op : psem_op) (k : PosixSems) : outcome (reply * PosixSems) :=
  match op with
  | PInit sem value => posix_sem_init sem value k
  | PDestroy sem => posix_sem_destroy sem k
  | PWait t sem => posix_sem_wait t sem k
  | PTrywait t sem => posix_sem_trywait t sem k
  | PTimedwait t sem => posix_sem_timedwait t sem k
  | PPost t sem => posix_sem_post t sem k
  | PNext t got => psem_next t got k
  end.

(** The variable a call is about. *)
Definition phase_sem (x : Phase) : Z :=
  match x with Checked _ sem | Acquiring _ sem _ | Acquired sem | Posting sem | Exchanging sem _ | Posted sem => sem end.

(** What the host may answer: an acquire succeeds only on a positive count, and
    [acquire] does not fail. *)
Definition may_answer (got : bool) (x : Phase) (k : PosixSems) : Prop :=
  match x with
  | Acquiring how _ p => if got then forall s, psems k !! p = Some s -> 0 < semaphore s else how <> Blocking
  | _ => True
  end.

(** No thread is inside a call on the variable. *)
Definition quiet (sem : Z) (k : PosixSems) : Prop := forall t x, pending k !! t = Some x -> phase_sem x <> sem.

(** A thread inside a call makes no other call; values are [u32].  The histories are
    those in which no semaphore is destroyed or initialised while a call on it is
    in flight, and only these calls write the variables. *)
Definition psem_enabled (op : psem_op) (k : PosixSems) : Prop :=
  match op with
  | PInit sem value => 0 <= value /\ quiet sem k
  | PDestroy sem => quiet sem k
  | PWait t _ | PTrywait t _ | PTimedwait t _ | PPost t _ => pending k !! t = None
  | PNext t got => exists x, pending k !! t = Some x /\ may_answer got x k
  end.

Inductive psem_reach : PosixSems -> Prop :=
  | pr_boot vars : (forall a p, vars !! a = Some p -> p = 0) -> psem_reach (mkPosix vars ∅ 1 ∅)
  | pr_step k op r k' : psem_reach k -> psem_enabled op k -> psem_perform op k = Done (r, k') -> psem_reach k'.

(** ** The count *)

(** A call on the variable that has updated one of the two counts only. *)
Definition halfway (sem : Z) (x : Phase) : Prop := x = Acquired sem \/ x = Posted sem.
#[export] Instance halfway_dec sem x : Decision (halfway sem x).
Proof.
  refine (match x with Acquired q | Posted q => cast_if (decide (q = sem)) | _ => right _ end);
    unfold halfway; solve [intuition congruence].
Defined.

Lemma halfway_phase sem x : halfway sem x -> phase_sem x = sem.
Proof. by intros [->| ->]. Qed.

(** The calls halfway through. *)
Definition in_flight (sem : Z) (m : gmap Z Phase) : Z := Z.of_nat (size (filter (fun x => halfway sem x.2) m)).

Definition counts (sem : Z) (x : option Phase) : Z :=
  match x with Some x => if bool_decide (halfway sem x) then 1 else 0 | None => 0 end.

Lemma in_flight_delete sem t (m : gmap Z Phase) : in_flight sem (delete t m) = in_flight sem m - counts sem (m !! t).
Proof.
  unfold in_flight. rewrite map_filter_delete. unfold counts. destruct (m !! t) as [x|] eqn:E.
  - case_bool_decide as Hc.
    + rewrite map_size_delete, map_lookup_filter, E. cbn. rewrite option_guard_True by done. cbn.
      assert (size (filter (fun x => halfway sem x.2) m) <> 0%nat); [|lia].
      rewrite map_size_ne_0_lookup. exists t, x. apply map_lookup_filter_Some. done.
    + rewrite delete_id; [lia|]. apply map_lookup_filter_None. right. intros y Ey. rewrite E in Ey. by injection Ey as <-.
  - rewrite delete_id; [lia|]. apply map_lookup_filter_None. by left.
Qed.

Lemma in_flight_insert sem t x (m : gmap Z Phase) :
  in_flight sem (<[t := x]> m) = in_flight sem m - counts sem (m !! t) + counts sem (Some x).
Proof.
  rewrite <- in_flight_delete, <- insert_delete_eq. unfold in_flight, counts. case_bool_decide as Hc.
  - rewrite map_filter_insert_True by done. rewrite map_size_insert_None; [lia|].
    apply map_lookup_filter_None. left. apply lookup_delete_eq.
  - rewrite map_filter_insert_False, delete_delete_eq by done. lia.
Qed.

Lemma in_flight_pos sem m : 0 <= in_flight sem m.
Proof. unfold in_flight. lia. Qed.

Lemma in_flight_quiet sem k : quiet sem k -> in_flight sem (pending k) = 0.
Proof.
  intros Hq. unfold in_flight. rewrite map_empty_filter_2; [by rewrite map_size_empty|].
  intros t x E Hx%halfway_phase. by apply (Hq t x).
Qed.

(** A variable that is not null points to an object of its own, on which the
    account is exact. *)
Definition accounted (sem : Z) (m : gmap Z Phase) (s : PthreadSem) : Prop :=
  0 <= semaphore s /\ value s = semaphore s + in_flight sem m /\ value s <= ORBIS_KERNEL_SEM_VALUE_MAX.

(** The call is on an object its variable still points to. *)
Definition stays (x : Phase) (k : PosixSems) : Prop :=
  exists p, variables k !! phase_sem x = Some p /\ p <> 0 /\ match x with Acquiring _ _ q => q = p | _ => True end.

Record psem_inv (k : PosixSems) : Prop := {
  pi_object : forall sem p, variables k !! sem = Some p -> p <> 0 ->
    0 < p < next_psem k /\ exists s, psems k !! p = Some s /\ accounted sem (pending k) s;
  pi_own : forall sem sem' p, variables k !! sem = Some p -> variables k !! sem' = Some p -> p <> 0 -> sem = sem';
  pi_pending : forall t x, pending k !! t = Some x -> stays x k;
  pi_next : 0 < next_psem k }.

Lemma in_flight_alter sem t (x : option Phase) (m : gmap Z Phase) :
  in_flight sem (partial_alter (fun _ => x) t m) = in_flight sem m - counts sem (m !! t) + counts sem x.
Proof. destruct x as [x|]; [apply in_flight_insert|]. pose proof (in_flight_delete sem t m). cbn. unfold delete, map_delete in *. lia. Qed.

Lemma counts_half sem x : halfway sem x -> counts sem (Some x) = 1.
Proof. intros. cbn. by rewrite bool_decide_eq_true_2. Qed.

Lemma counts_other sem sem' x : phase_sem x = sem -> sem' <> sem -> counts sem' (Some x) = 0.
Proof. intros Hx Hn. cbn. rewrite bool_decide_eq_false_2; [done|]. intros Hh%halfway_phase. congruence. Qed.

(** The rule for a step of a thread's call on one variable: it moves to the phase
    [x] or returns, and updates the object so that the account is kept. *)
Lemma call_step t sem p s s' (x : option Phase) k : psem_inv k ->
  variables k !! sem = Some p -> p <> 0 -> psems k !! p = Some s ->
  (forall y, pending k !! t = Some y -> phase_sem y = sem) ->
  (forall y, x = Some y -> phase_sem y = sem /\ stays y k) ->
  0 <= semaphore s' -> value s' <= ORBIS_KERNEL_SEM_VALUE_MAX ->
  value s' - semaphore s' = value s - semaphore s - counts sem (pending k !! t) + counts sem x ->
  psem_inv (mkPosix (variables k) (<[p := s']> (psems k)) (next_psem k) (partial_alter (fun _ => x) t (pending k))).
Proof.
  intros Hk Ev Hp Es Hold Hnew Hs Hm Hv. split; cbn; [| |intros u y Ey|]; try apply Hk.
  - intros sem' p' E' Hp'. destruct (pi_object _ Hk sem' p' E' Hp') as (Hb & s1 & E1 & H1). split; [done|].
    destruct (decide (sem' = sem)) as [->|Hn].
    + assert (p' = p) as -> by congruence. assert (s1 = s) as -> by congruence.
      exists s'. rewrite lookup_insert_eq. split; [done|]. destruct H1 as (? & ? & ?). split_and!; try done.
      rewrite in_flight_alter. lia.
    + assert (p' <> p) by (intros ->; apply Hn; by eapply pi_own). exists s1. rewrite lookup_insert_ne by done.
      split; [done|]. destruct H1 as (? & ? & ?). split_and!; try done. rewrite in_flight_alter.
      assert (counts sem' (pending k !! t) = 0) as ->.
      { destruct (pending k !! t) as [y|] eqn:Ey; [|done]. by apply (counts_other sem); [apply Hold|]. }
      assert (counts sem' x = 0) as -> by (destruct x as [y|]; [by apply (counts_other sem); [apply Hnew|]|done]). lia.
  - destruct (decide (u = t)) as [->|].
    + rewrite lookup_partial_alter_eq in Ey. by apply Hnew.
    + rewrite lookup_partial_alter_ne in Ey by done. by apply (pi_pending _ Hk u).
Qed.

(** The same when the object is left as it is. *)
Lemma call_moves t sem p (x : option Phase) k : psem_inv k -> variables k !! sem = Some p -> p <> 0 ->
  (forall y, pending k !! t = Some y -> phase_sem y = sem) ->
  (forall y, x = Some y -> phase_sem y = sem /\ stays y k) ->
  counts sem x = counts sem (pending k !! t) ->
  psem_inv (with_pending (partial_alter (fun _ => x) t) k).
Proof.
  intros Hk Ev Hp Hold Hnew Hc. destruct (pi_object _ Hk sem p Ev Hp) as (_ & s & Es & ? & ? & ?).
  unfold with_pending. rewrite <- (insert_id (psems k) p s Es). eapply call_step; eauto. lia.
Qed.

Lemma deref_Some sem p k : deref sem k = Done (Some p) -> variables k !! sem = Some p /\ p <> 0.
Proof.
  unfold deref. destruct (sem =? 0); [done|]. intros E. apply obind_Done in E as (q & Eq & E). apply of_option_Done in Eq.
  destruct (Z.eqb_spec q 0); [done|]. injection E as <-. done.
Qed.

Lemma checks_inv t sem x k r k' : psem_inv k -> pending k !! t = None -> phase_sem x = sem ->
  (forall how q p, x <> Acquiring how q p) -> counts sem (Some x) = 0 -> checks t sem x k = Done (r, k') -> psem_inv k'.
Proof.
  intros Hk Ht Hx Ha Hc E. unfold checks in E. apply obind_Done in E as (o & Eo & E).
  destruct o as [p|]; [|by injection E as <- <-]. injection E as <- <-. apply deref_Some in Eo as [Ev Hp].
  apply (call_moves t sem p (Some x)); try done; [by rewrite Ht| |by rewrite Ht].
  intros y [= <-]. split; [done|]. exists p. rewrite Hx. split_and!; try done. destruct x; try done. by destruct (Ha how sem0 p0).
Qed.

Lemma object_at_Done sem p s k : object_at sem k = Done (p, s) -> variables k !! sem = Some p /\ psems k !! p = Some s.
Proof.
  unfold object_at. intros E. apply obind_Done in E as (q & Eq & E). apply of_option_Done in Eq.
  apply obind_Done in E as (s1 & E1 & E). apply of_option_Done in E1. injection E as <- <-. done.
Qed.

(** A thread inside a call: its variable, the object and the account. *)
Lemma pending_object t x k : psem_inv k -> pending k !! t = Some x ->
  exists p s, variables k !! phase_sem x = Some p /\ p <> 0 /\ psems k !! p = Some s /\
    object_at (phase_sem x) k = Done (p, s) /\ accounted (phase_sem x) (pending k) s /\
    (forall how sem q, x = Acquiring how sem q -> q = p) /\ (halfway (phase_sem x) x -> semaphore s < value s).
Proof.
  intros Hk Ex. destruct (pi_pending _ Hk t x Ex) as (p & Ev & Hp & Hq). destruct (pi_object _ Hk _ p Ev Hp) as (_ & s & Es & Ha).
  exists p, s. split_and!; try done.
  - unfold object_at. by rewrite Ev; cbn; rewrite Es.
  - by intros how sem q ->.
  - intros Hh. destruct Ha as (_ & Ha & _). pose proof (in_flight_delete (phase_sem x) t (pending k)) as Hd.
    rewrite Ex in Hd. cbn in Hd. rewrite bool_decide_eq_true_2 in Hd by done.
    pose proof (in_flight_pos (phase_sem x) (delete t (pending k))). lia.
Qed.

(** The next access of a call in flight: it is always defined, and keeps the
    account; a call halfway through returns 0. *)
Lemma psem_next_inv t x got k : psem_inv k -> pending k !! t = Some x -> may_answer got x k ->
  exists r k', psem_next t got k = Done (r, k') /\ psem_inv k' /\ (halfway (phase_sem x) x -> r = Returned 0 None).
Proof.
  intros Hk Ex Hg. destruct (pending_object t x k Hk Ex) as (p & s & Ev & Hp & Es & Eo & (H0 & Ha & Hm) & Hq & Hh).
  assert (forall y, pending k !! t = Some y -> phase_sem y = phase_sem x) as Hold by (intros y Ey; congruence).
  pose proof (in_flight_pos (phase_sem x) (pending k)).
  unfold psem_next. rewrite Ex. destruct x as [how sem|how sem q|sem|sem|sem cur|sem]; cbn [phase_sem] in *.
  - rewrite Eo. cbn. eexists _, _. split; [done|]. split; [|by intros [|]].
    apply (call_moves t sem p (Some (Acquiring how sem p))); try done; [|by rewrite Ex].
    intros y [= <-]. split; [done|]. by exists p.
  - assert (q = p) as -> by (by eapply Hq). unfold acquire_ends. rewrite Es. cbn. destruct got; eexists _, _; (split; [done|]).
    + split; [|by intros [|]]. specialize (Hg s Es). apply (call_step t sem p s _ (Some (Acquired sem)) k); try done; cbn [semaphore value]; try lia.
      * intros y [= <-]. split; [done|]. by exists p.
      * rewrite Ex, (counts_half sem (Acquired sem)) by (by left). cbn. lia.
    + split; [|by intros [|]]. apply (call_moves t sem p None); try done. by rewrite Ex.
  - unfold decrements. rewrite Eo. cbn. eexists _, _. split; [done|]. split; [|done].
    specialize (Hh (or_introl eq_refl)).
    apply (call_step t sem p s _ None k); try done; cbn [semaphore value]; try lia. rewrite Ex, counts_half by (by left). cbn [counts]. lia.
  - rewrite Eo. cbn. eexists _, _. split; [done|]. split; [|by intros [|]].
    apply (call_moves t sem p (Some (Exchanging sem (value s)))); try done; [|by rewrite Ex].
    intros y [= <-]. split; [done|]. by exists p.
  - unfold exchanges. destruct (Z.eqb_spec cur ORBIS_KERNEL_SEM_VALUE_MAX) as [|Hmax].
    + eexists _, _. split; [done|]. split; [|by intros [|]]. apply (call_moves t sem p None); try done. by rewrite Ex.
    + rewrite Eo. cbn. destruct (got && (value s =? cur)) eqn:Eg; eexists _, _; (split; [done|]); (split; [|by intros [|]]).
      * apply andb_true_iff in Eg as [_ Eg%Z.eqb_eq]. apply (call_step t sem p s _ (Some (Posted sem)) k); try done; cbn [semaphore value]; try lia.
        -- intros y [= <-]. split; [done|]. by exists p.
        -- rewrite Ex, (counts_half sem (Posted sem)) by (by right). cbn. lia.
      * apply (call_moves t sem p (Some (Exchanging sem (value s)))); try done; [|by rewrite Ex].
        intros y [= <-]. split; [done|]. by exists p.
  - unfold releases. rewrite Eo. cbn. specialize (Hh (or_intror eq_refl)).
    destruct (Z.eqb_spec (semaphore s) ORBIS_KERNEL_SEM_VALUE_MAX); [lia|]. eexists _, _. split; [done|]. split; [|done].
    apply (call_step t sem p s _ None k); try done; cbn [semaphore value]; try lia. rewrite Ex, counts_half by (by right). cbn [counts]. lia.
Qed.

Lemma stays_written sem q t x k k' : quiet sem k -> pending k !! t = Some x -> stays x k ->
  variables k' = <[sem := q]> (variables k) -> stays x k'.
Proof. intros Hq Ex (p & Ev & ?) E. specialize (Hq t x Ex). exists p. by rewrite E, lookup_insert_ne. Qed.

Lemma init_inv sem v k r k' : psem_inv k -> 0 <= v -> quiet sem k -> posix_sem_init sem v k = Done (r, k') -> psem_inv k'.
Proof.
  intros Hk Hv Hq E. unfold posix_sem_init in E. destruct (Z.ltb_spec ORBIS_KERNEL_SEM_VALUE_MAX v); [by injection E as <- <-|].
  destruct (negb _); injection E as <- <-; [|done]. pose proof (pi_next _ Hk). split; cbn; [| | |lia].
  - intros a p Ea Hp. apply lookup_insert_Some in Ea as [[<- <-]|[Hn Ea]].
    + split; [lia|]. eexists. rewrite lookup_insert_eq. split; [done|]. unfold accounted. cbn. rewrite in_flight_quiet by done. lia.
    + destruct (pi_object _ Hk a p Ea Hp) as (? & s & Es & Ha). split; [lia|]. exists s. by rewrite lookup_insert_ne by lia.
  - intros a b p Ea Eb Hp. apply lookup_insert_Some in Ea as [[<- <-]|[Hna Ea]]; apply lookup_insert_Some in Eb as [[<- Ep]|[Hnb Eb]]; try done.
    + destruct (pi_object _ Hk b _ Eb Hp) as [? _]. lia.
    + subst p. destruct (pi_object _ Hk a _ Ea Hp) as [? _]. lia.
    + by eapply pi_own.
  - intros t x Ex. by eapply stays_written; [| |apply (pi_pending _ Hk t)|].
Qed.

Lemma destroy_inv sem k r k' : psem_inv k -> quiet sem k -> posix_sem_destroy sem k = Done (r, k') -> psem_inv k'.
Proof.
  intros Hk Hq E. unfold posix_sem_destroy in E. apply obind_Done in E as (o & Eo & E).
  destruct o as [q|]; [|by injection E as <- <-]. apply deref_Some in Eo as [Ev Hz]. apply obind_Done in E as (s0 & _ & E).
  injection E as <- <-. split; cbn; [| | |apply Hk].
  - intros a p Ea Hp. apply lookup_insert_Some in Ea as [[_ ?]|[Hn Ea]]; [done|].
    destruct (pi_object _ Hk a p Ea Hp) as (? & s & Es & Ha). split; [done|]. exists s.
    rewrite lookup_delete_ne; [done|]. intros ->. apply Hn. by eapply pi_own.
  - intros a b p Ea Eb Hp. apply lookup_insert_Some in Ea as [[_ ?]|[Hna Ea]]; [done|].
    apply lookup_insert_Some in Eb as [[_ ?]|[Hnb Eb]]; [done|]. by eapply pi_own.
  - intros t x Ex. by eapply stays_written; [| |apply (pi_pending _ Hk t)|].
Qed.

Lemma psem_step_inv op k r k' : psem_inv k -> psem_enabled op k -> psem_perform op k = Done (r, k') -> psem_inv k'.
Proof.
  intros Hk He E. destruct op as [sem v|sem|t sem|t sem|t sem|t sem|t got]; cbn in E, He;
    try (eapply checks_inv in E; [|done..|]; done).
  - destruct He. by eapply init_inv.
  - by eapply destroy_inv.
  - destruct He as (x & Ex & Hg). destruct (psem_next_inv t x got k Hk Ex Hg) as (r' & k1 & E' & ? & _). congruence.
Qed.

Lemma psem_reach_inv k : psem_reach k -> psem_inv k.
Proof.
  induction 1 as [vars H0|]; [|by eapply psem_step_inv]. split; cbn; [| | |lia].
  - intros a p Ea Hp. by destruct Hp; apply (H0 a).
  - intros a b p Ea _ Hp. by destruct Hp; apply (H0 a).
  - intros t x. by rewrite lookup_empty.
Qed.

(** ** The properties *)

(** C37: in every interleaving of POSIX semaphore calls in which no semaphore is
    destroyed or initialised again while a call on it is in flight (and only these
    calls write the guest's variables), the value a guest reads is the host
    semaphore's count plus the calls halfway through, between 0 and SEM_VALUE_MAX;
    every access of a call in flight is defined - it finds the object alive, and the
    host semaphore's maximum is not exceeded - and a call that has updated one of
    the two counts updates the other and returns 0. *)
Theorem posix_sem_value_exact (k : PosixSems) (H : psem_reach k) :
  (forall sem p, variables k !! sem = Some p -> p <> 0 ->
    exists s, psems k !! p = Some s /\ 0 <= semaphore s /\ value s = semaphore s + in_flight sem (pending k) /\
      0 <= value s <= ORBIS_KERNEL_SEM_VALUE_MAX) /\
  (forall t x got, pending k !! t = Some x -> may_answer got x k ->
    exists r k', psem_next t got k = Done (r, k') /\ (halfway (phase_sem x) x -> r = Returned 0 None)).
Proof.
  apply psem_reach_inv in H. split.
  - intros sem p Ev Hp. destruct (pi_object _ H sem p Ev Hp) as (_ & s & Es & ? & ? & ?). exists s.
    pose proof (in_flight_pos sem (pending k)). split_and!; try done. lia.
  - intros t x got Ex Hg. destruct (psem_next_inv t x got k H Ex Hg) as (r & k' & E & _ & Hr). eauto.
Qed.

Definition run_psem (ops : list psem_op) (k : PosixSems) : outcome PosixSems :=
  foldl (fun m op => let! k := m in let! '(_, k) := psem_perform op k in Done k) (Done k) ops.

Definition demo_psem : PosixSems := mkPosix {[64 := 1]} {[1 := mkPSem 2 3]} 2 {[9 := Posted 64]}.

Lemma demo_psem_reach : psem_reach demo_psem.
Proof.
  apply (pr_step (mkPosix {[64 := 1]} {[1 := mkPSem 2 2]} 2 {[9 := Exchanging 64 2]}) (PNext 9 true) Continues);
    [|by exists (Exchanging 64 2)|vm_compute; reflexivity].
  apply (pr_step (mkPosix {[64 := 1]} {[1 := mkPSem 2 2]} 2 {[9 := Posting 64]}) (PNext 9 true) Continues);
    [|by exists (Posting 64)|vm_compute; reflexivity].
  apply (pr_step (mkPosix {[64 := 1]} {[1 := mkPSem 2 2]} 2 ∅) (PPost 9 64) Continues); [|done|vm_compute; reflexivity].
  apply (pr_step (mkPosix {[64 := 0]} ∅ 1 ∅) (PInit 64 2) (Returned 0 None)); [|by split|vm_compute; reflexivity].
  apply pr_boot. intros a p E. apply lookup_singleton_Some in E as [_ <-]. done.
Qed.

Lemma posix_sem_value_exact_witness :
  (exists s, psems demo_psem !! 1 = Some s /\ 0 <= semaphore s /\ value s = semaphore s + in_flight 64 (pending demo_psem) /\
      0 <= value s <= ORBIS_KERNEL_SEM_VALUE_MAX) /\
  exists r k', psem_next 9 true demo_psem = Done (r, k') /\ (halfway 64 (Posted 64) -> r = Returned 0 None).
Proof.
  destruct (posix_sem_value_exact demo_psem demo_psem_reach) as [Hv Hn]. split.
  - apply (Hv 64 1); done.
  - apply (Hn 9 (Posted 64) true); done.
Defined.

(** Outside these histories the two counts part: a post counts on one object and,
    after another thread has initialised the variable again, releases the next,
    whose value then is one short of its count; and a wait that was asleep when
    the semaphore is destroyed goes on with an object that is gone. *)
Example post_crosses_objects :
  run_psem [PInit 64 0; PPost 9 64; PNext 9 true; PNext 9 true; PInit 64 0; PNext 9 true] (mkPosix {[64 := 0]} ∅ 1 ∅)
  = Done (mkPosix {[64 := 2]} {[1 := mkPSem 0 1; 2 := mkPSem 1 0]} 3 ∅).
Proof. vm_compute. reflexivity. Qed.

Example wait_outlives_object :
  run_psem [PInit 64 0; PWait 9 64; PNext 9 true; PDestroy 64; PNext 9 true] (mkPosix {[64 := 0]} ∅ 1 ∅) = Raised Undefined.
Proof. vm_compute. reflexivity. Qed.

(** The deadline of [scePthreadSemTimedwait] is [usec] microseconds after the
    clock, with its nanoseconds below one second. *)
Lemma timedwait_deadline_exact (now_sec now_nsec usec : Z) :
  0 <= now_sec < 2 ^ 62 -> 0 <= now_nsec < 1000000000 -> 0 <= usec < W32 ->
  let '(sec, nsec) := timedwait_deadline now_sec now_nsec usec in
  sec * 1000000000 + nsec = now_sec * 1000000000 + now_nsec + usec * 1000 /\ 0 <= nsec < 1000000000.
Proof.
  intros Hs Hn Hu. change (2 ^ 62) with 4611686018427387904 in Hs. change W32 with 4294967296 in Hu. unfold timedwait_deadline.
  pose proof (Z.div_mod usec 1000000 ltac:(lia)). pose proof (Z.mod_pos_bound usec 1000000 ltac:(lia)).
  assert (0 <= usec / 1000000 < 4295) by (split; [apply Z.div_pos|apply Z.div_lt_upper_bound]; lia).
  rewrite (wadd_small now_nsec) by (unfold W64; lia). remember (now_nsec + (usec mod 1000000) * 1000) as n eqn:En.
  pose proof (Z.div_mod n 1000000000 ltac:(lia)). pose proof (Z.mod_pos_bound n 1000000000 ltac:(lia)).
  assert (0 <= n / 1000000000 < 2) by (split; [apply Z.div_pos|apply Z.div_lt_upper_bound]; lia).
  rewrite wadd_small by (unfold W64; lia). unfold s64. change (W64 / 2) with 9223372036854775808.
  rewrite Z.mod_small by (unfold W64; lia). destruct (Z.ltb_spec (now_sec + usec / 1000000 + n / 1000000000) 9223372036854775808); lia.
Qed.
