(* ===== verification/EventFlag.v ===== *)
(** * EventFlag: the kernel's event flags

    [core/libraries/kernel/threads/event_flag.cpp].  [EventFlagInternal] is a
    word of bits threads wait on, under a mutex with a condition variable.  The
    methods run under the mutex except where they sleep: in
    [condition_variable::wait], and in the polling loops of [Set], [Clear] and
    [Cancel], whose steps are taken here when the loop is over.  A sleeper may
    resume when it was notified, when its time is over, or spuriously. *)

From stdpp Require Import gmap.
From S2P Require Import Prelude.

Module EventFlagInternal.

Inductive ClearMode := ClearNone | ClearAll | ClearBits.
Inductive WaitMode := WaitAnd | WaitOr.
Inductive ThreadMode := Single | Multi.
Inductive QueueMode := Fifo | ThreadPrio.
Inductive Status := StSet | StCanceled | StDeleted.

#[export] Instance status_eq_dec : EqDecision Status.
Proof. solve_decision. Defined.

Record t := mk {
  m_status : Status;
  m_waiting_threads : Z;
  m_name : string;
  m_thread_mode : ThreadMode;
  m_queue_mode : QueueMode;
  m_bits : Z }.

Definition ctor (name : string) (thread_mode : ThreadMode) (queue_mode : QueueMode) (bits : Z) : t :=
  mk StSet 0 name thread_mode queue_mode bits.

Definition with_status (s : Status) (o : t) : t :=
  mk s (m_waiting_threads o) (m_name o) (m_thread_mode o) (m_queue_mode o) (m_bits o).
Definition with_waiting (n : Z) (o : t) : t :=
  mk (m_status o) n (m_name o) (m_thread_mode o) (m_queue_mode o) (m_bits o).
Definition with_bits (b : Z) (o : t) : t :=
  mk (m_status o) (m_waiting_threads o) (m_name o) (m_thread_mode o) (m_queue_mode o) b.

(** A call of [Wait]: its arguments ([micros] is what [ptr_micros] points to,
    [poll] whether [Poll] made it) and whether the condition variable notified
    it since it fell asleep. *)
Record Frame := mkFrame {
  bits : Z;
  wait_mode : WaitMode;
  clear_mode : ClearMode;
  micros : option Z;
  poll : bool;
  notified : bool }.

(** The bits a waiter asks for are there. *)
Definition satisfied (f : Frame) (o : t) : bool :=
  match wait_mode f with
  | WaitAnd => Z.land (m_bits o) (bits f) =? bits f
  | WaitOr => negb (Z.land (m_bits o) (bits f) =? 0)
  end.

Definition waitFunc (f : Frame) (o : t) : bool :=
  bool_decide (m_status o = StCanceled) || bool_decide (m_status o = StDeleted) || satisfied f o.

(** What a call of [Wait] returns: the value, what it stores through [result]
    and what it stores through [ptr_micros]. *)
Record WaitResult := mkResult { code : Z; result : option Z; remaining : option Z }.

(** [Poll] turns a timeout into EBUSY. *)
Definition poll_code (f : Frame) (ret : Z) : Z :=
  if poll f && (ret =? ORBIS_KERNEL_ERROR_ETIMEDOUT) then ORBIS_KERNEL_ERROR_EBUSY else ret.

(** The end of [Wait] once the predicate holds. *)
Definition Wait_finish (f : Frame) (elapsed : Z) (o : t) : WaitResult * t :=
  let o := with_waiting (m_waiting_threads o - 1) o in
  let res := mkResult (poll_code f
      (match m_status o with
       | StCanceled => ORBIS_KERNEL_ERROR_ECANCELED
       | StDeleted => ORBIS_KERNEL_ERROR_EACCES
       | StSet => ORBIS_OK
       end)) (Some (m_bits o))
    ((fun us => if us <=? elapsed then 0 else us - elapsed) <$> micros f) in
  (res, match m_status o, clear_mode f with
        | StSet, ClearAll => with_bits 0 o
        | StSet, ClearBits => with_bits (Z.land (m_bits o) (u64 (Z.lnot (bits f)))) o
        | _, _ => o
        end).

(** The end of [Wait] when the time is over and the predicate does not hold. *)
Definition Wait_timeout (f : Frame) (o : t) : WaitResult * t :=
  (mkResult (poll_code f ORBIS_KERNEL_ERROR_ETIMEDOUT) (Some (m_bits o)) (Some 0),
   with_waiting (m_waiting_threads o - 1) o).

(** [Wait] up to its return or to the sleep ([None]). *)
Definition Wait_begin (f : Frame) (elapsed : Z) (o : t) : option WaitResult * t :=
  match m_thread_mode o with
  | Single => if 0 <? m_waiting_threads o then (Some (mkResult ORBIS_KERNEL_ERROR_EPERM None None), o)
              else let o := with_waiting (m_waiting_threads o + 1) o in
                   if waitFunc f o then let '(r, o) := Wait_finish f elapsed o in (Some r, o) else (None, o)
  | Multi => let o := with_waiting (m_waiting_threads o + 1) o in
             if waitFunc f o then let '(r, o) := Wait_finish f elapsed o in (Some r, o) else (None, o)
  end.

(** A sleeper holds the mutex again; [None] when it goes back to sleep. *)
Definition Wait_resume (f : Frame) (timed_out : bool) (elapsed : Z) (o : t) : option WaitResult * t :=
  if waitFunc f o then let '(r, o) := Wait_finish f elapsed o in (Some r, o)
  else if timed_out then let '(r, o) := Wait_timeout f o in (Some r, o)
  else (None, o).

End EventFlagInternal.

(** ** An event flag and the threads in its methods *)

Import EventFlagInternal.

(** [canceller] is the thread inside [Cancel] that waits for the sleepers to
    leave. *)
Record EventFlag := mkFlag {
  object : EventFlagInternal.t;
  sleepers : gmap Z Frame;
  canceller : option Z }.

Definition notify (f : Frame) : Frame := mkFrame (bits f) (wait_mode f) (clear_mode f) (micros f) (poll f) true.
Definition doze (f : Frame) : Frame := mkFrame (bits f) (wait_mode f) (clear_mode f) (micros f) (poll f) false.

Definition ev_wait (t : Z) (f : Frame) (elapsed : Z) (s : EventFlag) : option WaitResult * EventFlag :=
  let '(r, o) := Wait_begin f elapsed (object s) in
  (r, mkFlag o (match r with None => <[t := doze f]> (sleepers s) | Some _ => sleepers s end) (canceller s)).

Definition ev_resume (t : Z) (f : Frame) (timed_out : bool) (elapsed : Z) (s : EventFlag) : option WaitResult * EventFlag :=
  let '(r, o) := Wait_resume f timed_out elapsed (object s) in
  (r, mkFlag o (match r with None => <[t := doze f]> (sleepers s) | Some _ => delete t (sleepers s) end) (canceller s)).

(** [Set], its polling loop over; [notify_all]. *)
Definition ev_set (b : Z) (s : EventFlag) : EventFlag :=
  mkFlag (with_bits (Z.lor (m_bits (object s)) b) (object s)) (notify <$> sleepers s) (canceller s).

Definition ev_clear (b : Z) (s : EventFlag) : EventFlag :=
  mkFlag (with_bits (Z.land (m_bits (object s)) b) (object s)) (sleepers s) (canceller s).

(** [Cancel] up to its second loop, which ends at once when nobody waits; the
    first result is what is stored through [numWaitThreads]. *)
Definition ev_cancel (t setPattern : Z) (s : EventFlag) : Z * EventFlag :=
  let o := with_bits setPattern (with_status StCanceled (object s)) in
  (m_waiting_threads (object s),
   if 0 <? m_waiting_threads o then mkFlag o (notify <$> sleepers s) (Some t)
   else mkFlag (with_status StSet o) (notify <$> sleepers s) (canceller s)).

(** The end of [Cancel]. *)
Definition ev_cancel_end (s : EventFlag) : EventFlag :=
  mkFlag (with_status StSet (object s)) (sleepers s) None.

(** ** The calls

    A handle is the address of the object; 0 is null, and an address where
    there is no object must not be used. *)

Definition EventFlags := gmap Z EventFlag.

Definition on_flag {A} (ef : Z) (k : EventFlags) (f : EventFlag -> outcome (A * EventFlag)) : outcome (A * EventFlags) :=
  let! s := of_option (k !! ef) in
  let! '(r, s') := f s in
  Done (r, <[ef := s']> k).

Definition ORBIS_KERNEL_EVF_ATTR_TH_PRIO : Z := 2.
Definition ORBIS_KERNEL_EVF_ATTR_MULTI : Z := 32.

Definition queue_mode_of (attr : Z) : outcome QueueMode :=
  let m := Z.land attr 0xf in
  if m =? 1 then Done Fifo else if m =? 2 then Done ThreadPrio else if m =? 0 then Done Fifo else Raised AssertFailed.

Definition thread_mode_of (attr : Z) : outcome ThreadMode :=
  let m := Z.land attr 0xf0 in
  if m =? 0x10 then Done Single else if m =? 0x20 then Done Multi else if m =? 0 then Done Single else Raised AssertFailed.

(** [fresh] is where the object is allocated; the second result is what is
    stored through [ef]. *)
Definition sceKernelCreateEventFlag (fresh : Z) (ef_null : bool) (pName : option string) (attr initPattern : Z)
    (has_param : bool) (k : EventFlags) : outcome (Z * option Z * EventFlags) :=
  match pName with
  | None => Done (ORBIS_KERNEL_ERROR_EINVAL, None, k)
  | Some name =>
      if ef_null then Done (ORBIS_KERNEL_ERROR_EINVAL, None, k)
      else if has_param || (Z.lor ORBIS_KERNEL_EVF_ATTR_MULTI ORBIS_KERNEL_EVF_ATTR_TH_PRIO <? attr)
      then Done (ORBIS_KERNEL_ERROR_EINVAL, None, k)
      else if 32 <=? Z.of_nat (String.length name) then Done (ORBIS_KERNEL_ERROR_ENAMETOOLONG, None, k)
      else
        let! queue_mode := queue_mode_of attr in
        let! thread_mode := thread_mode_of attr in
        Done (ORBIS_OK, Some fresh, <[fresh := mkFlag (ctor name thread_mode queue_mode initPattern) ∅ None]> k)
  end.

(** Destroying an object while threads are in its methods is undefined. *)
Definition sceKernelDeleteEventFlag (ef : Z) (k : EventFlags) : outcome (Z * EventFlags) :=
  if ef =? 0 then Done (ORBIS_KERNEL_ERROR_ESRCH, k) else
  let! s := of_option (k !! ef) in
  if bool_decide (sleepers s = ∅) && bool_decide (canceller s = None) then Done (ORBIS_OK, delete ef k) else Raised Undefined.

Definition sceKernelClearEventFlag (ef bitPattern : Z) (k : EventFlags) : outcome (Z * EventFlags) :=
  if ef =? 0 then Done (ORBIS_KERNEL_ERROR_ESRCH, k) else
  on_flag ef k (fun s => Done (ORBIS_OK, ev_clear bitPattern s)).

Definition sceKernelSetEventFlag (ef bitPattern : Z) (k : EventFlags) : outcome (Z * EventFlags) :=
  if ef =? 0 then Done (ORBIS_KERNEL_ERROR_ESRCH, k) else
  on_flag ef k (fun s => Done (ORBIS_OK, ev_set bitPattern s)).

(** The second result is what is stored through [pNumWaitThreads]. *)
Definition sceKernelCancelEventFlag (t ef setPattern : Z) (k : EventFlags) : outcome (Z * option Z * EventFlags) :=
  if ef =? 0 then Done (ORBIS_KERNEL_ERROR_ESRCH, None, k) else
  on_flag ef k (fun s => let '(n, s') := ev_cancel t setPattern s in Done ((ORBIS_OK, Some n), s')).

Definition wait_mode_of (waitMode : Z) : outcome WaitMode :=
  let m := Z.land waitMode 0xf in
  if m =? 1 then Done WaitAnd else if m =? 2 then Done WaitOr else Raised AssertFailed.

Definition clear_mode_of (waitMode : Z) : outcome ClearMode :=
  let m := Z.land waitMode 0xf0 in
  if m =? 0 then Done ClearNone else if m =? 0x10 then Done ClearAll else if m =? 0x20 then Done ClearBits
  else Raised AssertFailed.

(** The common part of waiting and polling: the checks, then [Wait]. *)
Definition event_wait (t ef bitPattern waitMode : Z) (timeout : option Z) (is_poll : bool) (elapsed : Z) (k : EventFlags) :
    outcome (option WaitResult * EventFlags) :=
  if ef =? 0 then Done (Some (mkResult ORBIS_KERNEL_ERROR_ESRCH None None), k)
  else if bitPattern =? 0 then Done (Some (mkResult ORBIS_KERNEL_ERROR_EINVAL None None), k)
  else
    let! wait := wait_mode_of waitMode in
    let! clear := clear_mode_of waitMode in
    on_flag ef k (fun s => Done (ev_wait t (mkFrame bitPattern wait clear timeout is_poll false) elapsed s)).

Definition sceKernelWaitEventFlag (t ef bitPattern waitMode : Z) (pTimeout : option Z) :
    Z -> EventFlags -> outcome (option WaitResult * EventFlags) :=
  event_wait t ef bitPattern waitMode pTimeout false.

Definition sceKernelPollEventFlag (t ef bitPattern waitMode : Z) :
    Z -> EventFlags -> outcome (option WaitResult * EventFlags) :=
  event_wait t ef bitPattern waitMode (Some 0) true.
