(* ===== verification/EventSpec.v ===== *)
(** * EventSpec: what event flags promise

    The machine of one event flag, its invariant, and the properties: wake-ups
    are not lost, a wait returns exactly when it should, and cancelling
    terminates. *)

From stdpp Require Import gmap.
From S2P Require Import Prelude EventFlag.
Import EventFlagInternal.

Inductive ev_op :=
  | EvWait (t : Z) (f : Frame) (elapsed : Z)
  | EvResume (t : Z) (timed_out : bool) (elapsed : Z)
  | EvSet (b : Z)
  | EvClear (b : Z)
  | EvCancel (t pattern : Z)
  | EvCancelEnd.

Definition word64 (z : Z) : Prop := 0 <= z < W64.

(** Who may do what: a sleeper does nothing else, its time is over only if it
    has a limit, and setting, clearing and cancelling wait until no
    cancellation is going on. *)
Inductive ev_step (s : EventFlag) : ev_op -> option WaitResult -> EventFlag -> Prop :=
  | es_wait t f e r s' : sleepers s !! t = None -> canceller s <> Some t -> word64 (bits f) ->
      ev_wait t f e s = (r, s') -> ev_step s (EvWait t f e) r s'
  | es_resume t f b e r s' : sleepers s !! t = Some f -> (b = true -> micros f <> None) ->
      ev_resume t f b e s = (r, s') -> ev_step s (EvResume t b e) r s'
  | es_set b : m_status (object s) = StSet -> word64 b -> ev_step s (EvSet b) None (ev_set b s)
  | es_clear b : m_status (object s) = StSet -> word64 b -> ev_step s (EvClear b) None (ev_clear b s)
  | es_cancel t p : m_status (object s) = StSet -> word64 p -> sleepers s !! t = None ->
      ev_step s (EvCancel t p) None (ev_cancel t p s).2
  | es_cancel_end t : canceller s = Some t -> m_waiting_threads (object s) = 0 ->
      ev_step s EvCancelEnd None (ev_cancel_end s).

Inductive ev_reach : EventFlag -> Prop :=
  | er_boot name tm qm b : word64 b -> ev_reach (mkFlag (ctor name tm qm b) ∅ None)
  | er_step s op r s' : ev_reach s -> ev_step s op r s' -> ev_reach s'.

(** ** Bits *)

Lemma word_land a b : word64 a -> 0 <= b -> word64 (Z.land a b).
Proof.
  unfold word64. change W64 with (2 ^ 64). intros Ha Hb. assert (0 <= Z.land a b) by (apply Z.land_nonneg; lia).
  split; [done|]. destruct (decide (Z.land a b = 0)) as [->|]; [lia|]. destruct (decide (a = 0)) as [->|]; [done|].
  apply Z.log2_lt_pow2; [lia|]. pose proof (Z.log2_land a b ltac:(lia) Hb). assert (Z.log2 a < 64) by (apply Z.log2_lt_pow2; lia). lia.
Qed.

Lemma word_lor a b : word64 a -> word64 b -> word64 (Z.lor a b).
Proof.
  unfold word64. change W64 with (2 ^ 64). intros Ha Hb. assert (0 <= Z.lor a b) by (apply Z.lor_nonneg; lia).
  split; [done|]. destruct (decide (Z.lor a b = 0)) as [->|]; [lia|]. apply Z.log2_lt_pow2; [lia|].
  rewrite Z.log2_lor by lia. apply Z.max_lub_lt.
  - destruct (decide (a = 0)) as [->|]; [done|]. apply Z.log2_lt_pow2; lia.
  - destruct (decide (b = 0)) as [->|]; [done|]. apply Z.log2_lt_pow2; lia.
Qed.

(** Fewer bits satisfy fewer waiters. *)
Lemma satisfied_clear f o b : satisfied f (with_bits (Z.land (m_bits o) b) o) = true -> satisfied f o = true.
Proof.
  unfold satisfied. cbn. destruct (wait_mode f).
  - rewrite !Z.eqb_eq. intros E. rewrite <- E at 1. by rewrite !Z.land_assoc, Z.land_diag.
  - rewrite !negb_true_iff, !Z.eqb_neq. intros Hn E. apply Hn.
    by rewrite <- Z.land_assoc, (Z.land_comm b), Z.land_assoc, E, Z.land_0_l.
Qed.

(** [o'] satisfies no waiter that [o] does not. *)
Definition fewer (o' o : EventFlagInternal.t) : Prop := forall f, waitFunc f o' = true -> waitFunc f o = true.

Lemma fewer_refl o : fewer o o.
Proof. by intros f. Qed.

Lemma fewer_clear o b : fewer (with_bits (Z.land (m_bits o) b) o) o.
Proof.
  intros f. unfold waitFunc. cbn [m_status with_bits]. rewrite !orb_true_iff. intros [H|H]; [by left|].
  right. by eapply satisfied_clear.
Qed.

Lemma fewer_waiting o n : fewer (with_waiting n o) o.
Proof. by intros f. Qed.

Lemma fewer_trans a b c : fewer a b -> fewer b c -> fewer a c.
Proof. unfold fewer. auto. Qed.

(** [Wait_finish]: one waiter fewer, the status kept, the bits only reduced. *)
Lemma Wait_finish_spec f e o r o' : Wait_finish f e o = (r, o') -> word64 (m_bits o) -> word64 (bits f) ->
  m_waiting_threads o' = m_waiting_threads o - 1 /\ m_status o' = m_status o /\ m_thread_mode o' = m_thread_mode o /\
  fewer o' o /\ word64 (m_bits o').
Proof.
  unfold Wait_finish. cbn [m_status with_waiting]. intros [= _ <-] Hb Hf.
  assert (forall b, fewer (with_bits (Z.land (m_bits o) b) (with_waiting (m_waiting_threads o - 1) o)) o) as Hcl.
  { intros b. eapply fewer_trans; [apply (fewer_clear (with_waiting (m_waiting_threads o - 1) o))|apply fewer_waiting]. }
  destruct (m_status o) eqn:Es, (clear_mode f); cbn; rewrite ?Es; split_and!; try done; try apply fewer_waiting.
  - pose proof (Hcl 0) as H0. rewrite Z.land_0_r in H0. exact H0.
  - apply word_land; [done|apply u64_range].
Qed.

(** ** The invariant *)

Record ev_inv (s : EventFlag) : Prop := {
  ei_count : m_waiting_threads (object s) = Z.of_nat (size (sleepers s));
  ei_single : m_thread_mode (object s) = Single -> (size (sleepers s) <= 1)%nat;
  ei_status : match m_status (object s) with
              | StSet => canceller s = None
              | StCanceled => exists t, canceller s = Some t /\ sleepers s !! t = None
              | StDeleted => False
              end;
  ei_bits : word64 (m_bits (object s));
  ei_frame : forall t f, sleepers s !! t = Some f ->
    word64 (bits f) /\ (waitFunc f (object s) = true -> notified f = true) }.

Lemma waitFunc_doze f o : waitFunc (doze f) o = waitFunc f o.
Proof. done. Qed.

(** Changing the object so that no new waiter is satisfied keeps the frames. *)
Lemma frames_fewer (m : gmap Z Frame) o o' : fewer o' o ->
  (forall t f, m !! t = Some f -> word64 (bits f) /\ (waitFunc f o = true -> notified f = true)) ->
  forall t f, m !! t = Some f -> word64 (bits f) /\ (waitFunc f o' = true -> notified f = true).
Proof. intros Hw Hm t f E. destruct (Hm t f E). auto. Qed.

Lemma ev_set_inv s b : ev_inv s -> m_status (object s) = StSet -> word64 b -> ev_inv (ev_set b s).
Proof.
  intros [Hc H1 Hs Hb Hf] E Hw. split; cbn; rewrite ?map_size_fmap; try done.
  - by rewrite E in *.
  - by apply word_lor.
  - intros t f. rewrite lookup_fmap, fmap_Some. intros (g & Eg & ->). split; [by apply (Hf t g)|done].
Qed.

Lemma ev_clear_inv s b : ev_inv s -> m_status (object s) = StSet -> word64 b -> ev_inv (ev_clear b s).
Proof.
  intros [Hc H1 Hs Hb Hf] E Hw. split; cbn; try done.
  - apply word_land; [done|apply Hw].
  - eapply frames_fewer; [apply fewer_clear|done].
Qed.

Lemma ev_cancel_inv s t p : ev_inv s -> m_status (object s) = StSet -> word64 p -> sleepers s !! t = None ->
  ev_inv (ev_cancel t p s).2.
Proof.
  intros [Hc H1 Hs Hb Hf] E Hp Ht. rewrite E in Hs. unfold ev_cancel.
  destruct (0 <? _) eqn:Ew; split; cbn; rewrite ?map_size_fmap; try done;
    try (intros u f; rewrite lookup_fmap, fmap_Some; intros (g & Eg & ->); split; [by apply (Hf u g)|done]).
  exists t. split; [done|]. by rewrite lookup_fmap, Ht.
Qed.

Lemma ev_cancel_end_inv s : ev_inv s -> m_waiting_threads (object s) = 0 -> ev_inv (ev_cancel_end s).
Proof.
  intros [Hc H1 Hs Hb Hf] E. assert (sleepers s = ∅) as Em by (apply map_size_empty_inv; lia).
  split; cbn; rewrite ?Em; try done. intros _. rewrite map_size_empty. lia.
Qed.

(** The common end of [Wait]: the object after the thread has left. *)
Lemma leave_inv s t f o' : ev_inv s -> sleepers s !! t = Some f ->
  m_waiting_threads o' = m_waiting_threads (object s) - 1 -> m_status o' = m_status (object s) ->
  m_thread_mode o' = m_thread_mode (object s) -> fewer o' (object s) -> word64 (m_bits o') ->
  ev_inv (mkFlag o' (delete t (sleepers s)) (canceller s)).
Proof.
  intros [Hc H1 Hs Hb Hf] Ef Hw Hst Htm Hfe Hbi.
  assert (size (sleepers s) = S (size (delete t (sleepers s)))) as Hsz.
  { rewrite <- (insert_delete_id (sleepers s) t f Ef) at 1. apply map_size_insert_None, lookup_delete_eq. }
  split; cbn.
  - rewrite Hw, Hc. lia.
  - rewrite Htm. intros E. specialize (H1 E). lia.
  - rewrite Hst. destruct (m_status (object s)); try done. destruct Hs as (c & ? & Hn). exists c. split; [done|].
    apply lookup_delete_None. by right.
  - done.
  - intros u g [_ Eg]%lookup_delete_Some. by apply (frames_fewer _ _ _ Hfe Hf u).
Qed.

Lemma ev_resume_inv s t f b e r s' : ev_inv s -> sleepers s !! t = Some f -> ev_resume t f b e s = (r, s') -> ev_inv s'.
Proof.
  intros Hk Ef. unfold ev_resume, Wait_resume. pose proof (ei_bits _ Hk) as Hb. destruct (ei_frame _ Hk t f Ef) as [Hbf _].
  destruct (waitFunc f (object s)) eqn:Ew.
  - destruct (Wait_finish f e (object s)) as [res o'] eqn:E. intros [= <- <-].
    destruct (Wait_finish_spec _ _ _ _ _ E Hb Hbf) as (? & ? & ? & ? & ?). by eapply leave_inv.
  - destruct b; intros [= <- <-].
    + eapply leave_inv; try done; apply fewer_waiting.
    + assert (size (<[t := doze f]> (sleepers s)) = size (sleepers s)) as Hsz by (by rewrite map_size_insert_Some by eauto).
      destruct Hk as [Hc H1 Hs _ Hf]. split; cbn; rewrite ?Hsz; try done.
      * destruct (m_status (object s)); try done. destruct Hs as (c & ? & Hn). exists c. split; [done|].
        rewrite lookup_insert_ne; [done|]. intros ->. congruence.
      * intros u g. destruct (decide (u = t)) as [->|]; [|rewrite lookup_insert_ne by done; apply Hf].
        rewrite lookup_insert_eq. intros [= <-]. split; [done|]. rewrite waitFunc_doze. congruence.
Qed.

(** A thread that enters [Wait]: refused, served at once, or asleep. *)
Lemma Wait_begin_cases f e o r o' : Wait_begin f e o = (r, o') ->
  let o1 := with_waiting (m_waiting_threads o + 1) o in
  (m_thread_mode o = Single /\ 0 < m_waiting_threads o /\ r = Some (mkResult ORBIS_KERNEL_ERROR_EPERM None None) /\ o' = o) \/
  ((m_thread_mode o = Single -> m_waiting_threads o <= 0) /\ waitFunc f o = true /\
    exists res, r = Some res /\ Wait_finish f e o1 = (res, o')) \/
  ((m_thread_mode o = Single -> m_waiting_threads o <= 0) /\ waitFunc f o = false /\ r = None /\ o' = o1).
Proof.
  intros E o1. assert (waitFunc f o1 = waitFunc f o) as Hw by done.
  assert (forall P : Prop, P -> (if waitFunc f o1 then let '(res, o2) := Wait_finish f e o1 in (Some res, o2) else (None, o1)) = (r, o') ->
    (P /\ waitFunc f o = true /\ exists res, r = Some res /\ Wait_finish f e o1 = (res, o')) \/
    (P /\ waitFunc f o = false /\ r = None /\ o' = o1)) as Hmain.
  { intros P HP. rewrite Hw. destruct (waitFunc f o); [|intros [= <- <-]; by right].
    destruct (Wait_finish f e o1) as [res o2]. intros [= <- <-]. left. split_and!; eauto. }
  unfold Wait_begin in E. destruct (m_thread_mode o) eqn:Em.
  - destruct (Z.ltb_spec 0 (m_waiting_threads o)); [injection E as <- <-; by left|]. right. by apply Hmain.
  - right. by apply Hmain.
Qed.

Lemma ev_wait_inv s t f e r s' : ev_inv s -> sleepers s !! t = None -> canceller s <> Some t -> word64 (bits f) ->
  ev_wait t f e s = (r, s') -> ev_inv s'.
Proof.
  intros Hk Ht Hcn Hb E. unfold ev_wait in E. destruct (Wait_begin f e (object s)) as [r1 o'] eqn:Eb. injection E as <- <-.
  destruct (Wait_begin_cases _ _ _ _ _ Eb) as [(_ & _ & -> & ->)|[(Hs1 & Hw & res & -> & Ef)|(Hs1 & Hw & -> & ->)]].
  - by destruct s.
  - destruct (Wait_finish_spec _ _ _ _ _ Ef (ei_bits _ Hk) Hb) as (Hn & Hst & Htm & Hfe & Hbi).
    destruct Hk as [Hc H1 Hs _ Hf]. cbn in Hn. split; cbn; rewrite ?Hst, ?Htm; try done; [lia|].
    eapply frames_fewer; [|exact Hf]. exact Hfe.
  - assert (size (<[t := doze f]> (sleepers s)) = S (size (sleepers s))) as Hsz by (by apply map_size_insert_None).
    destruct Hk as [Hc H1 Hs Hbi Hf]. split; cbn; rewrite ?Hsz; try done.
    + lia.
    + intros Hsi. specialize (Hs1 Hsi). lia.
    + destruct (m_status (object s)) eqn:Est; try done. destruct Hs as (c & Ec & Hn). exists c. split; [done|].
      rewrite lookup_insert_ne; [done|]. congruence.
    + intros u g. destruct (decide (u = t)) as [->|]; [|rewrite lookup_insert_ne by done; apply Hf].
      rewrite lookup_insert_eq. intros [= <-]. split; [done|]. change (waitFunc (doze f) _) with (waitFunc f (object s)). congruence.
Qed.

Lemma ev_step_inv s op r s' : ev_inv s -> ev_step s op r s' -> ev_inv s'.
Proof.
  intros Hk [t f e r1 s1 Ht Hc Hb E|t f b e r1 s1 Ht Hb E|b Es Hb|b Es Hb|t p Es Hp Ht|t Ec Hw].
  - by eapply ev_wait_inv.
  - by eapply ev_resume_inv.
  - by apply ev_set_inv.
  - by apply ev_clear_inv.
  - by apply ev_cancel_inv.
  - by apply ev_cancel_end_inv.
Qed.

Lemma ev_reach_inv s : ev_reach s -> ev_inv s.
Proof.
  induction 1 as [name tm qm b Hb|]; [|by eapply ev_step_inv]. split; cbn; try done. intros _. rewrite map_size_empty. lia.
Qed.

(** ** The properties *)

(** C9: in every reachable state [m_waiting_threads] is the number of threads
    asleep, at most one in single mode, and every sleeper whose condition holds
    has been notified since it fell asleep, so no wake-up is lost. *)
Theorem event_flag_no_lost_wakeup (s : EventFlag) (H : ev_reach s) :
  m_waiting_threads (object s) = Z.of_nat (size (sleepers s)) /\
  (m_thread_mode (object s) = Single -> (size (sleepers s) <= 1)%nat) /\
  (forall t f, sleepers s !! t = Some f -> waitFunc f (object s) = true -> notified f = true).
Proof.
  destruct (ev_reach_inv s H) as [Hc H1 _ _ Hf]. split_and!; try done. intros t f E. by apply (Hf t).
Qed.

(** Thread [t] is in [Wait] with the arguments of [f] in this step. *)
Inductive waits_with (s : EventFlag) : ev_op -> Z -> Frame -> Prop :=
  | ww_wait t f e : waits_with s (EvWait t f e) t f
  | ww_resume t f b e : sleepers s !! t = Some f -> waits_with s (EvResume t b e) t f.

(** The bits after a successful wait. *)
Definition bits_left (f : Frame) (b : Z) : Z :=
  match clear_mode f with ClearNone => b | ClearAll => 0 | ClearBits => Z.ldiff b (bits f) end.

Lemma land_lnot a b : word64 a -> Z.land a (u64 (Z.lnot b)) = Z.ldiff a b.
Proof.
  intros Ha. unfold u64. change W64 with (2 ^ 64). apply Z.bits_inj'. intros n Hn.
  rewrite Z.land_spec, Z.ldiff_spec, Z.testbit_mod_pow2, Z.lnot_spec by lia. destruct (Z.ltb_spec n 64) as [|Hge]; [done|].
  assert (Z.testbit a n = false) as ->; [|done]. destruct (decide (a = 0)) as [->|]; [apply Z.bits_0|].
  apply Z.bits_above_log2; [apply Ha|]. assert (Z.log2 a < 64); [|lia]. apply Z.log2_lt_pow2; [unfold word64 in Ha; lia|apply Ha].
Qed.

Lemma Wait_finish_result f e o r o' : Wait_finish f e o = (r, o') -> word64 (m_bits o) ->
  match m_status o with
  | StSet => code r = ORBIS_OK /\ m_bits o' = bits_left f (m_bits o)
  | StCanceled => code r = ORBIS_KERNEL_ERROR_ECANCELED /\ m_bits o' = m_bits o
  | StDeleted => code r = ORBIS_KERNEL_ERROR_EACCES /\ m_bits o' = m_bits o
  end /\ result r = Some (m_bits o).
Proof.
  unfold Wait_finish, poll_code, bits_left. cbn [m_status with_waiting m_bits]. intros [= <- <-] Hb. cbn [code result].
  destruct (m_status o); cbn; destruct (clear_mode f); cbn; rewrite ?land_lnot by done; by destruct (poll f).
Qed.

Lemma finish_outcome s f e o1 res o' : ev_inv s -> Wait_finish f e o1 = (res, o') ->
  m_bits o1 = m_bits (object s) -> m_status o1 = m_status (object s) -> waitFunc f (object s) = true ->
  (code res = ORBIS_OK /\ m_status (object s) = StSet /\ satisfied f (object s) = true /\
    result res = Some (m_bits (object s)) /\ m_bits o' = bits_left f (m_bits (object s))) \/
  (code res = ORBIS_KERNEL_ERROR_ECANCELED /\ m_status (object s) = StCanceled /\ m_bits o' = m_bits (object s)).
Proof.
  intros [_ _ Hst Hb _] E Ebi Es Ew. rewrite <- Ebi in Hb. destruct (Wait_finish_result _ _ _ _ _ E Hb) as [Hr Hres].
  rewrite Es, Ebi in Hr. rewrite Ebi in Hres. unfold waitFunc in Ew.
  destruct (m_status (object s)) eqn:Est; [left|right; tauto|done]. destruct Hr. cbn in Ew. by split_and!.
Qed.

Lemma unsatisfied s f : ev_inv s -> waitFunc f (object s) = false ->
  satisfied f (object s) = false /\ m_status (object s) = StSet.
Proof.
  intros Hk Ew. unfold waitFunc in Ew. destruct (m_status (object s)); done.
Qed.

(** a wait returns OK exactly with the awaited bits set, reports the bits it
    saw and clears what its mode says; it times out (EBUSY for a poll) only
    without them and then changes no bits; it reports a cancellation exactly
    while one is going on; and it sleeps only without the bits. *)
Theorem event_wait_correct (s : EventFlag) (H : ev_reach s) (op : ev_op) (t : Z) (f : Frame) (r : option WaitResult)
    (s' : EventFlag) (Hs : ev_step s op r s') (Hw : waits_with s op t f) :
  match r with
  | None => satisfied f (object s) = false /\ m_status (object s) = StSet /\ is_Some (sleepers s' !! t) /\
      m_bits (object s') = m_bits (object s)
  | Some res =>
      sleepers s' !! t = None /\
      ((code res = ORBIS_OK /\ m_status (object s) = StSet /\ satisfied f (object s) = true /\
         result res = Some (m_bits (object s)) /\ m_bits (object s') = bits_left f (m_bits (object s))) \/
       (code res = ORBIS_KERNEL_ERROR_ECANCELED /\ m_status (object s) = StCanceled /\
         m_bits (object s') = m_bits (object s)) \/
       (code res = (if poll f then ORBIS_KERNEL_ERROR_EBUSY else ORBIS_KERNEL_ERROR_ETIMEDOUT) /\
         m_status (object s) = StSet /\ satisfied f (object s) = false /\ micros f <> None /\
         m_bits (object s') = m_bits (object s)) \/
       (code res = ORBIS_KERNEL_ERROR_EPERM /\ m_thread_mode (object s) = Single /\ size (sleepers s) = 1%nat /\ s' = s))
  end.
Proof.
  pose proof (ev_reach_inv s H) as Hk. pose proof Hk as [Hc H1 _ _ _].
  destruct Hw as [t f e|t f b e Et]; inversion Hs as [? ? ? ? ? Ht Hcn Hbf E|? f1 ? ? ? ? Ef Hto E| | | |]; subst.
  - unfold ev_wait in E. destruct (Wait_begin f e (object s)) as [r1 o'] eqn:Eb. injection E as <- <-.
    destruct (Wait_begin_cases _ _ _ _ _ Eb) as [(Hsi & Hw & -> & ->)|[(_ & Hw & res & -> & Efi)|(_ & Hw & -> & ->)]]; cbn.
    + split; [done|]. do 3 right. split_and!; try done; [|by destruct s]. specialize (H1 Hsi). lia.
    + split; [done|]. destruct (finish_outcome s _ _ _ _ _ Hk Efi eq_refl eq_refl Hw); [by left|right; by left].
    + destruct (unsatisfied s f Hk Hw). split_and!; try done. rewrite lookup_insert_eq. eauto.
  - assert (f1 = f) as -> by congruence. unfold ev_resume, Wait_resume in E.
    destruct (waitFunc f (object s)) eqn:Ew.
    + destruct (Wait_finish f e (object s)) as [res o'] eqn:Efi. injection E as <- <-. cbn. split; [apply lookup_delete_eq|].
      destruct (finish_outcome s _ _ _ _ _ Hk Efi eq_refl eq_refl Ew); [by left|right; by left].
    + destruct (unsatisfied s f Hk Ew). destruct b; injection E as <- <-; cbn.
      * split; [apply lookup_delete_eq|]. right. right. left. unfold poll_code. rewrite Z.eqb_refl, andb_true_r.
        split_and!; try done. auto.
      * split_and!; try done. rewrite lookup_insert_eq. eauto.
Qed.

(** The threads of [l] resume one after the other and report a cancellation. *)
Inductive drains : list Z -> EventFlag -> EventFlag -> Prop :=
  | dr_nil s : drains [] s s
  | dr_cons t l res s s1 s2 : ev_step s (EvResume t false 0) (Some res) s1 -> code res = ORBIS_KERNEL_ERROR_ECANCELED ->
      drains l s1 s2 -> drains (t :: l) s s2.

Lemma waitFunc_canceled f o : m_status o = StCanceled -> waitFunc f o = true.
Proof. intros E. unfold waitFunc. by rewrite E. Qed.

Lemma drain_all l s : ev_inv s -> m_status (object s) = StCanceled -> NoDup l ->
  (forall t, t ∈ l <-> is_Some (sleepers s !! t)) ->
  exists s', drains l s s' /\ ev_inv s' /\ m_status (object s') = StCanceled /\ sleepers s' = ∅ /\ canceller s' = canceller s.
Proof.
  revert s. induction l as [|t l IH]; intros s Hk Est Hnd Hl.
  - exists s. split_and!; try done; [constructor|]. apply map_empty. intros t. apply eq_None_not_Some. rewrite <- Hl. apply not_elem_of_nil.
  - apply NoDup_cons in Hnd as [Hn Hnd]. destruct (proj1 (Hl t) ltac:(by left)) as [f Ef].
    destruct (Wait_finish f 0 (object s)) as [res o'] eqn:Efi.
    pose proof (Wait_finish_result _ _ _ _ _ Efi (ei_bits _ Hk)) as [Hr _]. rewrite Est in Hr. destruct Hr as [Hr _].
    destruct (Wait_finish_spec _ _ _ _ _ Efi (ei_bits _ Hk) (proj1 (ei_frame _ Hk t f Ef))) as (_ & Est' & _).
    set (s1 := mkFlag o' (delete t (sleepers s)) (canceller s)).
    assert (ev_step s (EvResume t false 0) (Some res) s1) as Hst.
    { eapply es_resume; [exact Ef|done|]. unfold ev_resume, Wait_resume. by rewrite (waitFunc_canceled _ _ Est), Efi. }
    destruct (IH s1) as (s2 & Hd & Hk2 & Es2 & Em & Ec); cbn.
    + by eapply ev_step_inv.
    + congruence.
    + done.
    + intros u. destruct (decide (u = t)) as [->|Hne].
      * rewrite lookup_delete_eq. split; [done|by intros [? ?]].
      * rewrite lookup_delete_ne, <- Hl, elem_of_cons by done. tauto.
    + exists s2. split_and!; try done. by eapply dr_cons.
Qed.

(** cancelling terminates: while it goes on no thread falls asleep, every
    sleeper has been notified and returns ECANCELED when it resumes, in any
    order, and when all have left [Cancel] can finish and the flag is usable
    again. *)
Theorem cancel_terminates (s : EventFlag) (H : ev_reach s) (Hc : m_status (object s) = StCanceled)
    (l : list Z) (Hnd : NoDup l) (Hl : forall t, t ∈ l <-> is_Some (sleepers s !! t)) :
  (forall op r s', ev_step s op r s' -> sleepers s' ⊆ sleepers s) /\
  (forall t f, sleepers s !! t = Some f -> notified f = true) /\
  exists s', drains l s s' /\ ev_step s' EvCancelEnd None (ev_cancel_end s') /\
    m_status (object (ev_cancel_end s')) = StSet /\ sleepers (ev_cancel_end s') = ∅.
Proof.
  pose proof (ev_reach_inv s H) as Hk. split_and!.
  - intros op r s' Hs. inversion Hs as [t f e r1 s1 Ht Hcn Hb E|t f b e r1 s1 Ht Hb E|b Es Hb|b Es Hb|t p Es Hp Ht|t Ec Hw]; subst;
      try congruence.
    + unfold ev_wait in E. destruct (Wait_begin f e (object s)) as [r1 o'] eqn:Eb. injection E as <- <-.
      destruct (Wait_begin_cases _ _ _ _ _ Eb) as [(_ & _ & -> & ->)|[(_ & Hw & res & -> & _)|(_ & Hw & _)]]; cbn; try done.
      by rewrite (waitFunc_canceled _ _ Hc) in Hw.
    + unfold ev_resume, Wait_resume in E. rewrite (waitFunc_canceled _ _ Hc) in E.
      destruct (Wait_finish f e (object s)). injection E as <- <-. apply delete_subseteq.
    + done.
  - intros t f E. apply (ei_frame _ Hk t f E), waitFunc_canceled, Hc.
  - destruct (drain_all l s Hk Hc Hnd Hl) as (s' & Hd & Hk' & Est & Em & Ec). exists s'. split_and!; try done.
    pose proof (ei_status _ Hk) as Hst. rewrite Hc in Hst. destruct Hst as (c & Hcc & _).
    apply (es_cancel_end _ c); [congruence|]. rewrite (ei_count _ Hk'), Em. by rewrite map_size_empty.
Qed.

(** ** A run: a thread waits, bits are set, it returns; or it is cancelled *)

Definition demo_frame : Frame := mkFrame 6 WaitAnd ClearBits None false false.
Definition demo_flag0 : EventFlag := mkFlag (ctor "evf"%string Multi Fifo 0) ∅ None.
Definition demo_flag1 : EventFlag := (ev_wait 3 demo_frame 0 demo_flag0).2.
Definition demo_flag2 : EventFlag := ev_set 7 demo_flag1.
Definition demo_flag3 : EventFlag := (ev_cancel 5 0 demo_flag1).2.

Lemma demo_flag1_reach : ev_reach demo_flag1.
Proof.
  eapply er_step; [apply (er_boot "evf"%string Multi Fifo 0); vm_compute; intuition congruence|].
  apply (es_wait _ 3 demo_frame 0 None); [done|done|vm_compute; intuition congruence|vm_compute; reflexivity].
Qed.

Lemma demo_flag2_reach : ev_reach demo_flag2.
Proof.
  eapply er_step; [apply demo_flag1_reach|]. apply es_set; [vm_compute; reflexivity|vm_compute; intuition congruence].
Qed.

Lemma demo_flag3_reach : ev_reach demo_flag3.
Proof.
  eapply er_step; [apply demo_flag1_reach|].
  apply es_cancel; [vm_compute; reflexivity|vm_compute; intuition congruence|vm_compute; reflexivity].
Qed.

Lemma event_flag_no_lost_wakeup_witness : m_waiting_threads (object demo_flag2) = 1 /\
  forall t f, sleepers demo_flag2 !! t = Some f -> waitFunc f (object demo_flag2) = true -> notified f = true.
Proof. split; [vm_compute; reflexivity|]. apply (event_flag_no_lost_wakeup demo_flag2 demo_flag2_reach). Defined.

Lemma event_wait_correct_witness :
  sleepers (ev_resume 3 (notify demo_frame) false 9 demo_flag2).2 !! 3 = None.
Proof.
  apply (event_wait_correct demo_flag2 demo_flag2_reach (EvResume 3 false 9) 3 (notify demo_frame)
    (Some (mkResult ORBIS_OK (Some 7) None))).
  - eapply es_resume; [vm_compute; reflexivity|done|vm_compute; reflexivity].
  - constructor. vm_compute. reflexivity.
Defined.

Lemma cancel_terminates_witness :
  exists s', drains [3] demo_flag3 s' /\ ev_step s' EvCancelEnd None (ev_cancel_end s') /\
    m_status (object (ev_cancel_end s')) = StSet /\ sleepers (ev_cancel_end s') = ∅.
Proof.
  apply (cancel_terminates demo_flag3 demo_flag3_reach).
  - vm_compute. reflexivity.
  - apply NoDup_singleton.
  - intros t. rewrite list_elem_of_singleton.
    assert (sleepers demo_flag3 = {[3 := notify demo_frame]}) as -> by (vm_compute; reflexivity).
    split; [intros ->; rewrite lookup_singleton_eq; eauto|]. intros [f E]. apply lookup_singleton_Some in E as [E _]. done.
Defined.
