(* ===== verification/Psf.v ===== *)
(** * PSF parameter files, and the bytes they are made of

    A byte is a [Z] in [[0, 256)], a buffer a list of bytes.  Reading or writing
    outside the buffer is undefined.  [reads] says what a buffer holds at an
    offset; the lemmas carry such facts across appends and disjoint writes. *)

From stdpp Require Import gmap.
From S2P Require Import Prelude.

Abbreviation bytes := (list Z).

Definition blen (b : bytes) : Z := Z.of_nat (length b).

Definition byte_ok (c : Z) : Prop := 0 <= c < 256.

(** The [n] low bytes of [z], least significant first; and back. *)
Fixpoint le_bytes (n : nat) (z : Z) : bytes :=
  match n with
  | O => []
  | S n => z mod 256 :: le_bytes n (z / 256)
  end.

Fixpoint le_value (b : bytes) : Z :=
  match b with
  | [] => 0
  | c :: b => c + 256 * le_value b
  end.

(** [memcpy] of [n] bytes out of a buffer. *)
Definition fetch (off n : Z) (b : bytes) : outcome bytes :=
  if (0 <=? off) && (0 <=? n) && (off + n <=? blen b)
  then Done (take (Z.to_nat n) (drop (Z.to_nat off) b)) else Raised Undefined.

(** Storing bytes into a buffer. *)
Definition put (off : Z) (w b : bytes) : outcome bytes :=
  if (0 <=? off) && (off + blen w <=? blen b)
  then Done (take (Z.to_nat off) b ++ w ++ drop (Z.to_nat (off + blen w)) b) else Raised Undefined.

(** [std::string{const char*}]: up to the terminating zero, which must exist. *)
Fixpoint c_str (b : bytes) : outcome bytes :=
  match b with
  | [] => Raised Undefined
  | c :: b => if c =? 0 then Done [] else let! r := c_str b in Done (c :: r)
  end.

Definition c_str_at (off : Z) (b : bytes) : outcome bytes :=
  if 0 <=? off then c_str (drop (Z.to_nat off) b) else Raised Undefined.

Definition fetch_le (off n : Z) (b : bytes) : outcome Z := let! w := fetch off n b in Done (le_value w).

(** The bytes of a string literal. *)
Definition str (s : string) : bytes := map (fun c => Z.of_N (Ascii.N_of_ascii c)) (String.list_ascii_of_string s).

(** ** Facts *)

Create HintDb bytes.

Lemma length_le_bytes n z : length (le_bytes n z) = n.
Proof. revert z. induction n; intros z; cbn; auto. Qed.

Lemma blen_le_bytes n z : blen (le_bytes n z) = Z.of_nat n.
Proof. unfold blen. by rewrite length_le_bytes. Qed.

Lemma le_value_bytes n z : le_value (le_bytes n z) = z mod 256 ^ Z.of_nat n.
Proof.
  revert z. induction n as [|n IH]; intros z; cbn [le_bytes le_value].
  - by rewrite Z.mod_1_r.
  - rewrite IH, Nat2Z.inj_succ, Z.pow_succ_r by lia. rewrite Z.rem_mul_r; [done|done|]. apply Z.pow_pos_nonneg; lia.
Qed.

Lemma le_value_small n z : 0 <= z < 256 ^ Z.of_nat n -> le_value (le_bytes n z) = z.
Proof. intros. by rewrite le_value_bytes, Z.mod_small. Qed.

Lemma blen_app a b : blen (a ++ b) = blen a + blen b.
Proof. unfold blen. rewrite length_app. lia. Qed.

Lemma blen_pos a : 0 <= blen a.
Proof. unfold blen. lia. Qed.

(** The buffer holds [w] at [off]. *)
Definition reads (b : bytes) (off : Z) (w : bytes) : Prop :=
  0 <= off /\ exists l r, b = l ++ w ++ r /\ blen l = off.

Lemma reads_fetch b off w : reads b off w -> fetch off (blen w) b = Done w.
Proof.
  intros (Ho & l & r & -> & Hl). unfold fetch. rewrite !blen_app. pose proof (blen_pos w). pose proof (blen_pos r).
  rewrite !(proj2 (Z.leb_le _ _)) by lia. cbn [andb]. f_equal. unfold blen in *.
  rewrite <- Hl, !Nat2Z.id, drop_app_length, take_app_length. done.
Qed.

Lemma reads_fetch_le b off n z : reads b off (le_bytes n z) -> 0 <= z < 256 ^ Z.of_nat n ->
  fetch_le off (Z.of_nat n) b = Done z.
Proof.
  intros Hr Hz. unfold fetch_le. rewrite <- (blen_le_bytes n z), (reads_fetch _ _ _ Hr). cbn. by rewrite le_value_small.
Qed.

Lemma reads_app b c off w : reads b off w -> reads (b ++ c) off w.
Proof. intros (Ho & l & r & -> & Hl). split; [done|]. exists l, (r ++ c). by rewrite <- !app_assoc. Qed.

Lemma reads_end b w : reads (b ++ w) (blen b) w.
Proof. split; [apply blen_pos|]. exists b, []. by rewrite app_nil_r. Qed.

Lemma reads_prefix b off w w' : reads b off (w ++ w') -> reads b off w.
Proof. intros (Ho & l & r & -> & Hl). split; [done|]. exists l, (w' ++ r). by rewrite <- !app_assoc. Qed.

Lemma put_ok b off w : 0 <= off -> off + blen w <= blen b ->
  exists b', put off w b = Done b' /\ blen b' = blen b /\ reads b' off w /\
    forall off' w', reads b off' w' -> off' + blen w' <= off \/ off + blen w <= off' -> reads b' off' w'.
Proof.
  intros Ho Hl. pose proof (blen_pos w). unfold put. rewrite !(proj2 (Z.leb_le _ _)) by lia. cbn [andb].
  eexists. split; [done|].
  assert (blen (take (Z.to_nat off) b) = off) as Ht by (unfold blen in *; rewrite length_take; lia).
  assert (blen (drop (Z.to_nat (off + blen w)) b) = blen b - (off + blen w)) as Hd.
  { unfold blen in *. rewrite length_drop. lia. }
  split_and!.
  - rewrite !blen_app, Ht, Hd. lia.
  - split; [done|]. eauto.
  - intros off' w' (Ho' & l & r & -> & Hl') [Hc|Hc]; pose proof (blen_pos w'); rewrite !blen_app in *.
    + split; [done|]. exists l, (take (Z.to_nat (off - (off' + blen w'))) r ++ w ++ drop (Z.to_nat (off + blen w)) (l ++ w' ++ r)).
      split; [|done]. rewrite !take_app, (take_ge l), (take_ge w') by (unfold blen in *; lia).
      rewrite <- !app_assoc. do 3 f_equal. f_equal. unfold blen in *. lia.
    + split; [done|]. exists (take (Z.to_nat off) (l ++ w' ++ r) ++ w ++ drop (Z.to_nat (off + blen w)) l), r.
      rewrite !drop_app, <- !app_assoc. replace (Z.to_nat (off + blen w) - length l)%nat with 0%nat by (unfold blen in *; lia).
      rewrite drop_0. split; [done|]. rewrite !blen_app, Ht. unfold blen in *. rewrite length_drop. lia.
Qed.

Lemma c_str_app w r : Forall (fun c => c <> 0) w -> c_str (w ++ 0 :: r) = Done w.
Proof. induction 1 as [|c w Hc Hw IH]; cbn; [done|]. rewrite (proj2 (Z.eqb_neq c 0) Hc), IH. done. Qed.

Lemma reads_c_str b off w : reads b off (w ++ [0]) -> Forall (fun c => c <> 0) w -> c_str_at off b = Done w.
Proof.
  intros (Ho & l & r & -> & Hl) Hw. unfold c_str_at. rewrite (proj2 (Z.leb_le _ _) Ho). unfold blen in Hl.
  rewrite <- Hl, Nat2Z.id, drop_app_length, <- app_assoc. by apply c_str_app.
Qed.

Lemma reads_u16 b off z : reads b off (le_bytes 2 z) -> 0 <= z < W16 -> fetch_le off 2 b = Done z.
Proof. apply (reads_fetch_le b off 2). Qed.

Lemma reads_u32 b off z : reads b off (le_bytes 4 z) -> 0 <= z < W32 -> fetch_le off 4 b = Done z.
Proof. apply (reads_fetch_le b off 4). Qed.

(** ** The PSF (param.sfo) format

    [core/file_format/psf.{h,cpp}]: a list of entries (key, format, size limit)
    with their values in three maps by position, decoded from and encoded to a
    header, a table of raw entries, a table of keys and a table of data.
    Reading and writing the file itself is left out; a [std::string] is its
    list of bytes. *)

Definition PSF_MAGIC : Z := 0x00505346.
Definition PSF_VERSION_1_1 : Z := 0x00000101.
Definition PSF_VERSION_1_0 : Z := 0x00000100.

(** [sizeof(PSFHeader)] and [sizeof(PSFRawEntry)]; the fields' offsets appear
    below as the structures lay them out. *)
Definition sizeof_PSFHeader : Z := 0x14.
Definition sizeof_PSFRawEntry : Z := 0x10.

Module PSFEntryFmt.
Definition Binary : Z := 0x0004.
Definition Text : Z := 0x0204.
Definition Integer : Z := 0x0404.
End PSFEntryFmt.

(** [param_fmt] is a [u16], which need not be one of the three. *)
Record Entry := mkEntry { key : bytes; param_fmt : Z; max_len : Z }.

Record PSF := mkPSF {
  entry_list : list Entry;
  map_binaries : gmap Z bytes;
  map_strings : gmap Z bytes;
  map_integers : gmap Z Z }.

Definition empty_psf : PSF := mkPSF [] ∅ ∅ ∅.

Definition psf_known_max_sizes : list (bytes * Z) :=
  [(str "ACCOUNT_ID", 8); (str "CATEGORY", 4); (str "DETAIL", 1024); (str "FORMAT", 4);
   (str "MAINTITLE", 128); (str "PARAMS", 1024); (str "SAVEDATA_BLOCKS", 8); (str "SAVEDATA_DIRECTORY", 32);
   (str "SUBTITLE", 128); (str "TITLE_ID", 12)].

Definition get_max_size (key : bytes) (default_value : Z) : Z :=
  match list_find (fun kv => kv.1 = key) psf_known_max_sizes with
  | Some (_, (_, v)) => v
  | None => u32 default_value
  end.

(** [FindEntry]: the first entry with the key and its position. *)
Definition FindEntry (k : bytes) (p : PSF) : option (Z * Entry) :=
  match list_find (fun e => key e = k) (entry_list p) with
  | Some (i, e) => Some (Z.of_nat i, e)
  | None => None
  end.

(** [unordered_map::at] throws when the key is missing; [emplace] does nothing
    when it is there. *)
Definition map_at {A} (m : gmap Z A) (i : Z) : outcome A :=
  match m !! i with Some x => Done x | None => Raised Uncaught end.
Definition emplace {A} (i : Z) (x : A) (m : gmap Z A) : gmap Z A :=
  match m !! i with Some _ => m | None => <[i := x]> m end.

(** ** Decoding *)

Definition open_entry (i : Z) (b : bytes) (key_table_offset data_table_offset : Z) (p : PSF) : outcome PSF :=
  let raw := sizeof_PSFHeader + i * sizeof_PSFRawEntry in
  let! key_offset := fetch_le raw 2 b in
  let! fmt := fetch_le (raw + 2) 2 b in
  let! param_len := fetch_le (raw + 4) 4 b in
  let! param_max_len := fetch_le (raw + 8) 4 b in
  let! data_offset := fetch_le (raw + 12) 4 b in
  let! k := c_str_at (key_table_offset + key_offset) b in
  let es := entry_list p ++ [mkEntry k fmt param_max_len] in
  let data := data_table_offset + data_offset in
  if fmt =? PSFEntryFmt.Binary then
    let! value := fetch data param_len b in
    Done (mkPSF es (emplace i value (map_binaries p)) (map_strings p) (map_integers p))
  else if fmt =? PSFEntryFmt.Text then
    let! value := c_str_at data b in
    Done (mkPSF es (map_binaries p) (emplace i value (map_strings p)) (map_integers p))
  else if fmt =? PSFEntryFmt.Integer then
    oassert (param_len =? 4) ;;!
    let! value := fetch_le data 4 b in
    Done (mkPSF es (map_binaries p) (map_strings p) (emplace i (s32 value) (map_integers p)))
  else Raised AssertFailed.

Fixpoint open_entries (n : nat) (i : Z) (b : bytes) (key_table_offset data_table_offset : Z) (p : PSF) : outcome PSF :=
  match n with
  | O => Done p
  | S n =>
      let! p := open_entry i b key_table_offset data_table_offset p in
      open_entries n (i + 1) b key_table_offset data_table_offset p
  end.

(** [PSF::Open] of a buffer: the maps are cleared first. *)
Definition Open (b : bytes) : outcome (bool * PSF) :=
  let! magic := fetch 0 4 b in
  let! version := fetch_le 4 4 b in
  let! key_table_offset := fetch_le 8 4 b in
  let! data_table_offset := fetch_le 12 4 b in
  let! index_table_entries := fetch_le 16 4 b in
  if negb (le_value (rev magic) =? PSF_MAGIC) then Done (false, empty_psf)
  else if negb (version =? PSF_VERSION_1_1) && negb (version =? PSF_VERSION_1_0) then Done (false, empty_psf)
  else
    let! p := open_entries (Z.to_nat index_table_entries) 0 b key_table_offset data_table_offset empty_psf in
    Done (true, p).

(** ** Encoding *)

(** The loop over the keys. *)
Fixpoint encode_keys (i : Z) (es : list Entry) (key_table_offset : Z) (b : bytes) : outcome bytes :=
  match es with
  | [] => Done b
  | e :: es =>
      let raw := sizeof_PSFHeader + i * sizeof_PSFRawEntry in
      let! b := put raw (le_bytes 2 (blen b - key_table_offset)) b in
      let! b := put (raw + 2) (le_bytes 2 (param_fmt e)) b in
      let! b := put (raw + 8) (le_bytes 4 (max_len e)) b in
      encode_keys (i + 1) es key_table_offset (b ++ key e ++ [0])
  end.

(** The bytes of a value, terminator included; their number is [param_len]. *)
Definition payload (p : PSF) (i : Z) (e : Entry) : outcome bytes :=
  if param_fmt e =? PSFEntryFmt.Binary then map_at (map_binaries p) i
  else if param_fmt e =? PSFEntryFmt.Text then let! v := map_at (map_strings p) i in Done (v ++ [0])
  else if param_fmt e =? PSFEntryFmt.Integer then let! v := map_at (map_integers p) i in Done (le_bytes 4 v)
  else Raised AssertFailed.

Definition zeros (n : Z) : bytes := replicate (Z.to_nat n) 0.

Definition align4 (b : bytes) : bytes :=
  if negb (blen b mod 4 =? 0) then b ++ zeros (4 - blen b mod 4) else b.

(** The loop over the data. *)
Fixpoint encode_data (p : PSF) (i : Z) (es : list Entry) (data_table_offset : Z) (b : bytes) : outcome bytes :=
  match es with
  | [] => Done b
  | e :: es =>
      let raw := sizeof_PSFHeader + i * sizeof_PSFRawEntry in
      let b := align4 b in
      let! b := put (raw + 12) (le_bytes 4 (blen b - data_table_offset)) b in
      let! param_max_len := fetch_le (raw + 8) 4 b in
      let! v := payload p i e in
      let! b := put (raw + 4) (le_bytes 4 (blen v)) b in
      let additional_padding := s32 param_max_len - s32 (blen v) in
      oassert (0 <=? additional_padding) ;;!
      encode_data p (i + 1) es data_table_offset (b ++ v ++ zeros additional_padding)
  end.

(** [PSF::Encode] into an empty buffer. *)
Definition Encode (p : PSF) : outcome bytes :=
  let es := entry_list p in
  let n := Z.of_nat (length es) in
  let b := zeros (sizeof_PSFHeader + sizeof_PSFRawEntry * n) in
  let! b := put 0 (rev (le_bytes 4 PSF_MAGIC)) b in
  let! b := put 4 (le_bytes 4 PSF_VERSION_1_1) b in
  let! b := put 16 (le_bytes 4 n) b in
  let key_table_offset := blen b in
  let! b := put 8 (le_bytes 4 key_table_offset) b in
  let! b := encode_keys 0 es key_table_offset b in
  let data_table_offset := blen b in
  let! b := put 12 (le_bytes 4 data_table_offset) b in
  encode_data p 0 es data_table_offset b.

(** ** Access *)

Definition GetBinary (k : bytes) (p : PSF) : outcome (option bytes) :=
  match FindEntry k p with
  | None => Done None
  | Some (i, e) => oassert (param_fmt e =? PSFEntryFmt.Binary) ;;! let! v := map_at (map_binaries p) i in Done (Some v)
  end.

Definition GetString (k : bytes) (p : PSF) : outcome (option bytes) :=
  match FindEntry k p with
  | None => Done None
  | Some (i, e) => oassert (param_fmt e =? PSFEntryFmt.Text) ;;! let! v := map_at (map_strings p) i in Done (Some v)
  end.

Definition GetInteger (k : bytes) (p : PSF) : outcome (option Z) :=
  match FindEntry k p with
  | None => Done None
  | Some (i, e) => oassert (param_fmt e =? PSFEntryFmt.Integer) ;;! let! v := map_at (map_integers p) i in Done (Some v)
  end.

(** An existing entry keeps its place and gets a new size limit; a new one is
    appended. *)
Definition relimit (i : Z) (e : Entry) (n : Z) (p : PSF) : list Entry :=
  <[Z.to_nat i := mkEntry (key e) (param_fmt e) n]> (entry_list p).

(** [map.at(index) = value] *)
Definition assign {A} (i : Z) (x : A) (m : gmap Z A) : outcome (gmap Z A) :=
  let! _ := map_at m i in Done (<[i := x]> m).

Definition AddBinary (k value : bytes) (update : bool) (p : PSF) : outcome PSF :=
  let n := get_max_size k (blen value) in
  match FindEntry k p with
  | Some (i, e) =>
      if negb update then Done p else
      oassert (param_fmt e =? PSFEntryFmt.Binary) ;;!
      let! m := assign i value (map_binaries p) in
      Done (mkPSF (relimit i e n p) m (map_strings p) (map_integers p))
  | None =>
      Done (mkPSF (entry_list p ++ [mkEntry k PSFEntryFmt.Binary n])
             (emplace (Z.of_nat (length (entry_list p))) value (map_binaries p)) (map_strings p) (map_integers p))
  end.

(** The overload for a [uint64_t]. *)
Definition AddBinary64 (k : bytes) (value : Z) (update : bool) (p : PSF) : outcome PSF :=
  AddBinary k (le_bytes 8 value) update p.

Definition AddString (k value : bytes) (update : bool) (p : PSF) : outcome PSF :=
  let n := get_max_size k (blen value + 1) in
  match FindEntry k p with
  | Some (i, e) =>
      if negb update then Done p else
      oassert (param_fmt e =? PSFEntryFmt.Text) ;;!
      let! m := assign i value (map_strings p) in
      Done (mkPSF (relimit i e n p) (map_binaries p) m (map_integers p))
  | None =>
      Done (mkPSF (entry_list p ++ [mkEntry k PSFEntryFmt.Text n])
             (map_binaries p) (emplace (Z.of_nat (length (entry_list p))) value (map_strings p)) (map_integers p))
  end.

Definition AddInteger (k : bytes) (value : Z) (update : bool) (p : PSF) : outcome PSF :=
  match FindEntry k p with
  | Some (i, e) =>
      if negb update then Done p else
      oassert (param_fmt e =? PSFEntryFmt.Integer) ;;!
      let! m := assign i value (map_integers p) in
      Done (mkPSF (relimit i e 4 p) (map_binaries p) (map_strings p) m)
  | None =>
      Done (mkPSF (entry_list p ++ [mkEntry k PSFEntryFmt.Integer 4])
             (map_binaries p) (map_strings p) (emplace (Z.of_nat (length (entry_list p))) value (map_integers p)))
  end.
