(* ===== verification/PsfFacts.v ===== *)
(** * PsfFacts: what the encoder writes and the decoder reads

    The encoder's loops write the raw entries, keys and values at the places
    [keyed] and [valued] describe; the decoder reads them back from there. *)

From stdpp Require Import gmap.
From S2P Require Import Prelude Psf.

(** Where raw entry [i] starts. *)
Definition raw (i : Z) : Z := sizeof_PSFHeader + i * sizeof_PSFRawEntry.

Lemma raw_eq i : raw i = 20 + i * 16.
Proof. done. Qed.

(** The bytes of the keys, terminators included. *)
Definition key_bytes (es : list Entry) : Z := foldr (fun e n => blen (key e) + 1 + n) 0 es.

(** A bound on the bytes of the data, alignment included. *)
Definition data_bytes (es : list Entry) : Z := foldr (fun e n => max_len e + 3 + n) 0 es.

Lemma key_bytes_pos es : 0 <= key_bytes es.
Proof. induction es as [|e es IH]; [done|]. cbn [key_bytes foldr]. fold (key_bytes es). pose proof (blen_pos (key e)). lia. Qed.

Lemma data_bytes_pos es : Forall (fun e => 0 <= max_len e) es -> 0 <= data_bytes es.
Proof. induction 1 as [|e es He _ IH]; [done|]. cbn [data_bytes foldr]. fold (data_bytes es). lia. Qed.

Fixpoint keyed (b : bytes) (kto i ko : Z) (es : list Entry) : Prop :=
  match es with
  | [] => True
  | e :: es =>
      reads b (raw i) (le_bytes 2 ko) /\ reads b (raw i + 2) (le_bytes 2 (param_fmt e)) /\
      reads b (raw i + 8) (le_bytes 4 (max_len e)) /\ reads b (kto + ko) (key e ++ [0]) /\
      keyed b kto (i + 1) (ko + (blen (key e) + 1)) es
  end.

Fixpoint valued (p : PSF) (b : bytes) (dto i : Z) (es : list Entry) : Prop :=
  match es with
  | [] => True
  | e :: es =>
      (exists v off, payload p i e = Done v /\ reads b (raw i + 12) (le_bytes 4 off) /\
        reads b (raw i + 4) (le_bytes 4 (blen v)) /\ reads b (dto + off) v /\ 0 <= off < W32 /\ blen v < W32) /\
      valued p b dto (i + 1) es
  end.

(** ** The loop over the keys *)

Ltac put_field H :=
  let b := fresh "b" in let E := fresh "E" in let L := fresh "L" in let R := fresh "R" in let K := fresh "K" in
  match goal with |- context [put ?o ?w ?b0] =>
    destruct (put_ok b0 o w) as (b & E & L & R & K); [H|H|rewrite E; cbn [obind]]
  end.

Lemma blen_2 z : blen (le_bytes 2 z) = 2.
Proof. apply blen_le_bytes. Qed.
Lemma blen_4 z : blen (le_bytes 4 z) = 4.
Proof. apply blen_le_bytes. Qed.

Lemma blen_key k : blen (k ++ [0]) = blen k + 1.
Proof. by rewrite blen_app. Qed.

(** Fields lie within [b]. *)
Ltac field := unfold raw, sizeof_PSFHeader, sizeof_PSFRawEntry in *; rewrite ?blen_2, ?blen_4, ?blen_key in *; lia.

Lemma encode_keys_ok (es : list Entry) (n kto i ko : Z) (b : bytes) :
  0 <= i -> i + Z.of_nat (length es) = n -> kto = raw n -> 0 <= ko -> blen b = kto + ko ->
  exists b', encode_keys i es kto b = Done b' /\ blen b' = kto + ko + key_bytes es /\ keyed b' kto i ko es /\
    forall off w, reads b off w -> off + blen w <= raw i \/ kto <= off -> reads b' off w.
Proof.
  revert i ko b. induction es as [|e es IH]; intros i ko b Hi Hn Hk Hko Hb; cbn [encode_keys key_bytes foldr keyed].
  { exists b. split_and!; try done. lia. }
  cbn [length] in Hn. rewrite Nat2Z.inj_succ in Hn. pose proof (blen_pos (key e)). fold (raw i).
  put_field ltac:(field). put_field ltac:(field). put_field ltac:(field).
  replace (blen b - kto) with ko in * by lia.
  destruct (IH (i + 1) (ko + (blen (key e) + 1)) (b2 ++ key e ++ [0])) as (b' & -> & Hl & Hke & Hf); [lia|lia|done|lia| |].
  { rewrite blen_app, blen_key. lia. }
  exists b'. split; [done|]. split; [rewrite Hl; unfold key_bytes; lia|].
  assert (Hkeep : forall off w, reads b2 off w -> off + blen w <= raw (i + 1) \/ kto <= off -> reads b' off w).
  { intros off w Hr Hs. apply Hf; [by apply reads_app|done]. }
  split.
  - split_and!; try done.
    + apply Hkeep; [|left; field]. apply K1; [apply K0; [done|left; field]|left; field].
    + apply Hkeep; [|left; field]. apply K1; [done|left; field].
    + apply Hkeep; [done|left; field].
    + apply Hf; [|right; lia]. replace (kto + ko) with (blen b2) by lia. apply reads_end.
  - intros off w Hr Hs. apply Hkeep; [|destruct Hs; [left; field|by right]]. pose proof (blen_pos w).
    apply K1; [apply K0; [apply K; [done|]|]|]; destruct Hs; try (left; field); right; field.
Qed.

(** ** The loop over the data *)

(** Places the rest of the data loop does not touch: before raw entry [i],
    after the raw entries, or the key offset, format and limit of an entry. *)
Definition key_part (kto i off len : Z) : Prop :=
  kto <= off \/
  exists j, i <= j /\ ((raw j <= off /\ off + len <= raw j + 4) \/ (raw j + 8 <= off /\ off + len <= raw j + 12)).

Definition untouched (kto i off len : Z) : Prop := off + len <= raw i \/ key_part kto i off len.

Lemma keyed_keep b b' kto i0 i ko es : 0 <= ko -> i0 <= i ->
  (forall off w, reads b off w -> key_part kto i0 off (blen w) -> reads b' off w) ->
  keyed b kto i ko es -> keyed b' kto i ko es.
Proof.
  intros Hko Hi Hf. revert i ko Hko Hi. induction es as [|e es IH]; intros i ko Hko Hi; cbn [keyed]; [done|].
  intros (H1 & H2 & H3 & H4 & H5). pose proof (blen_pos (key e)). split_and!.
  - apply Hf; [done|]. right. exists i. split; [done|]. left. field.
  - apply Hf; [done|]. right. exists i. split; [done|]. left. field.
  - apply Hf; [done|]. right. exists i. split; [done|]. right. field.
  - apply Hf; [done|]. left. lia.
  - apply IH; [lia|lia|done].
Qed.

Lemma blen_zeros n : 0 <= n -> blen (zeros n) = n.
Proof. intros. unfold blen, zeros. rewrite length_replicate. lia. Qed.

(** [align4] appends fewer than four bytes. *)
Lemma align4_ok b : exists z, align4 b = b ++ z /\ blen z <= 3.
Proof.
  unfold align4. pose proof (Z.mod_pos_bound (blen b) 4 ltac:(lia)). destruct (Z.eqb_spec (blen b mod 4) 0); cbn.
  - exists []. by rewrite app_nil_r.
  - exists (zeros (4 - blen b mod 4)). split; [done|]. rewrite blen_zeros; lia.
Qed.

Definition s32_word (z : Z) : Prop := 0 <= z < 2147483648.

Lemma s32_word_eq z : s32_word z -> s32 z = z.
Proof.
  intros Hz. unfold s32_word, s32 in *. change W32 with 4294967296. rewrite Z.mod_small by lia.
  change (4294967296 / 2) with 2147483648. by rewrite (proj2 (Z.ltb_lt _ _)) by lia.
Qed.

(** The entries fit: each has a value within its limit. *)
Fixpoint lies_within (p : PSF) (i : Z) (es : list Entry) : Prop :=
  match es with
  | [] => True
  | e :: es => (0 <= max_len e /\ exists v, payload p i e = Done v /\ blen v <= max_len e) /\ lies_within p (i + 1) es
  end.

Lemma fits_limits p i es : lies_within p i es -> Forall (fun e => 0 <= max_len e) es.
Proof. revert i. induction es as [|e es IH]; intros i; cbn; [done|]. intros [[? _] ?]. constructor; eauto. Qed.

Lemma encode_data_ok (p : PSF) (es : list Entry) (n kto dto i ko : Z) (b : bytes) :
  0 <= i -> i + Z.of_nat (length es) = n -> kto = raw n -> kto <= dto <= blen b -> 0 <= ko -> keyed b kto i ko es ->
  lies_within p i es -> blen b + data_bytes es < 2147483648 ->
  exists b', encode_data p i es dto b = Done b' /\ valued p b' dto i es /\ blen b' <= blen b + data_bytes es /\
    forall off w, reads b off w -> untouched kto i off (blen w) -> reads b' off w.
Proof.
  revert i ko b. induction es as [|e es IH]; intros i ko b Hi Hn Hk Hd Hko Hke Hfi Hsz; cbn [encode_data valued].
  { exists b. split_and!; try done. cbn. lia. }
  cbn [length] in Hn. rewrite Nat2Z.inj_succ in Hn. cbn [keyed lies_within] in Hke, Hfi. cbn [data_bytes foldr] in Hsz.
  destruct Hfi as [[Hm (v & Ev & Hv)] Hfi]. pose proof (data_bytes_pos es (fits_limits _ _ _ Hfi)).
  fold (data_bytes es) in Hsz. pose proof (blen_pos v). fold (raw i).
  destruct (align4_ok b) as (z & -> & Hz). pose proof (blen_pos z). pose proof (blen_pos b).
  assert (blen (b ++ z) = blen b + blen z) as Hbz by apply blen_app. set (b0 := b ++ z) in *.
  put_field ltac:(field).
  destruct Hke as (_ & _ & Hml & _ & Hke).
  assert (reads b1 (raw i + 8) (le_bytes 4 (max_len e))) as Hml'.
  { apply K; [by apply reads_app|left; field]. }
  rewrite (reads_u32 _ _ _ Hml'), Ev by (unfold W32; lia).
  cbn [obind]. put_field ltac:(field). rewrite !s32_word_eq by (unfold s32_word; lia).
  rewrite (proj2 (Z.leb_le _ _)) by lia. cbn [oassert obind]. set (b3 := b2 ++ v ++ zeros _).
  assert (blen b3 = blen b + blen z + max_len e) as Hb3 by (subst b3; rewrite !blen_app, blen_zeros; lia).
  assert (Hkeep : forall off w, reads b off w -> untouched kto i off (blen w) -> reads b3 off w).
  { intros off w Hr Hu. pose proof (blen_pos w). apply reads_app. destruct Hu as [Hu|[Hu|(j & Hj & Hu)]].
    - apply K0; [apply K; [by apply reads_app|left; field]|left; field].
    - apply K0; [apply K; [by apply reads_app|right; field]|right; field].
    - destruct (decide (j = i)) as [->|].
      + destruct Hu; (apply K0; [apply K; [by apply reads_app|left; field]|]); [left; field|right; field].
      + apply K0; [apply K; [by apply reads_app|right; field]|right; field]. }
  destruct (IH (i + 1) (ko + (blen (key e) + 1)) b3) as (b' & -> & Hva & Hlen & Hf); try done; try lia.
  { pose proof (blen_pos (key e)). lia. }
  { eapply (keyed_keep b _ _ i); [pose proof (blen_pos (key e)); lia|lia| |exact Hke].
    intros off w Hr Hu. apply Hkeep; [done|by right]. }
  exists b'. split; [done|]. split_and!; [|done|cbn [data_bytes foldr]; fold (data_bytes es); lia|].
  - exists v, (blen b0 - dto). split_and!; try done; try (unfold W32; lia).
    + apply Hf; [|left; field]. apply reads_app, K0; [done|right; field].
    + apply Hf; [|left; field]. by apply reads_app.
    + apply Hf; [|right; left; lia]. replace (dto + (blen b0 - dto)) with (blen b2) by lia.
      eapply reads_prefix, reads_end.
    + unfold W32. field.
  - intros off w Hr Hu. apply Hf; [by apply Hkeep|]. destruct Hu as [Hu|[Hu|(j & Hj & Hu)]]; [left; field|right; by left|].
    destruct (decide (j = i)) as [->|]; [left; destruct Hu; field|]. right. right. exists j. split; [lia|done].
Qed.

(** ** Well-formed tables *)

(** Every entry has a value of its format; keys and texts have no zero byte;
    integers are [s32]; values stay within their limits. *)
Record entry_ok (p : PSF) (i : Z) (e : Entry) : Prop := {
  eo_key : Forall (fun c => c <> 0) (key e);
  eo_limit : 0 <= max_len e;
  eo_value : exists v, payload p i e = Done v /\ blen v <= max_len e;
  eo_text : forall v, param_fmt e = PSFEntryFmt.Text -> map_strings p !! i = Some v -> Forall (fun c => c <> 0) v;
  eo_int : forall v, param_fmt e = PSFEntryFmt.Integer -> map_integers p !! i = Some v -> - 2147483648 <= v < 2147483648 }.

(** A map has values only at the entries of its format. *)
Definition only_at {A} (fmt : Z) (es : list Entry) (m : gmap Z A) : Prop :=
  forall i x, m !! i = Some x -> 0 <= i /\ exists e, es !! Z.to_nat i = Some e /\ param_fmt e = fmt.

Record psf_ok (p : PSF) : Prop := {
  po_entry : forall i e, entry_list p !! i = Some e -> entry_ok p (Z.of_nat i) e;
  po_binaries : only_at PSFEntryFmt.Binary (entry_list p) (map_binaries p);
  po_strings : only_at PSFEntryFmt.Text (entry_list p) (map_strings p);
  po_integers : only_at PSFEntryFmt.Integer (entry_list p) (map_integers p) }.

(** What the format can hold: 16-bit key offsets, and less than 2 GiB. *)
Definition encodable (es : list Entry) : Prop :=
  key_bytes es <= 65536 /\ raw (Z.of_nat (length es)) + key_bytes es + data_bytes es < 2147483648.

Lemma psf_fits p (es1 es2 : list Entry) : psf_ok p -> entry_list p = es1 ++ es2 -> lies_within p (Z.of_nat (length es1)) es2.
Proof.
  intros Hp. revert es1. induction es2 as [|e es2 IH]; intros es1 E; cbn [lies_within]; [done|]. split.
  - destruct (po_entry _ Hp (length es1) e) as [? ? ? _ _]; [|done]. rewrite E. by apply list_lookup_middle.
  - replace (Z.of_nat (length es1) + 1) with (Z.of_nat (length (es1 ++ [e]))) by (rewrite length_app; cbn; lia).
    apply IH. by rewrite <- app_assoc.
Qed.

(** ** The encoder *)

Definition header_ok (b : bytes) (n kto dto : Z) : Prop :=
  reads b 0 (rev (le_bytes 4 PSF_MAGIC)) /\ reads b 4 (le_bytes 4 PSF_VERSION_1_1) /\ reads b 8 (le_bytes 4 kto) /\
  reads b 12 (le_bytes 4 dto) /\ reads b 16 (le_bytes 4 n).

Lemma Encode_ok p : psf_ok p -> encodable (entry_list p) ->
  let n := Z.of_nat (length (entry_list p)) in
  exists b dto, Encode p = Done b /\ header_ok b n (raw n) dto /\ 0 <= dto < W32 /\
    keyed b (raw n) 0 0 (entry_list p) /\ valued p b dto 0 (entry_list p).
Proof.
  intros Hp [Hk16 Hsz] n. pose proof (psf_fits p [] (entry_list p) Hp eq_refl) as Hfi. cbn in Hfi.
  pose proof (key_bytes_pos (entry_list p)). pose proof (data_bytes_pos _ (fits_limits _ _ _ Hfi)).
  unfold Encode. fold n in Hsz |- *. set (b0 := zeros _).
  assert (blen b0 = raw n) as Hb0 by (subst b0; rewrite blen_zeros; field).
  assert (blen (rev (le_bytes 4 PSF_MAGIC)) = 4) as Hmg by done.
  put_field ltac:(field). put_field ltac:(field). put_field ltac:(field). put_field ltac:(field).
  replace (blen b2) with (raw n) in * by lia.
  destruct (encode_keys_ok (entry_list p) n (raw n) 0 0 b3) as (b5 & -> & Hl5 & Hke & Hf5); [lia|lia|done|lia|lia|].
  cbn [obind]. put_field ltac:(field).
  assert (keyed b4 (raw n) 0 0 (entry_list p)) as Hke4.
  { eapply (keyed_keep b5 _ _ 0); [lia|lia| |exact Hke]. intros off w Hr Hu. apply K3; [done|]. pose proof (blen_pos w).
    right. destruct Hu as [Hu|(j & Hj & Hu)]; field. }
  destruct (encode_data_ok p (entry_list p) n (raw n) (blen b5) 0 0 b4) as (b7 & -> & Hva & Hl7 & Hf7); try done; try lia.
  exists b7, (blen b5). split; [done|]. split; [|split; [|split]].
  - split_and!; apply Hf7; try (left; field).
    + apply K3; [|left; field]. apply Hf5; [|left; field]. apply K2; [|left; field]. apply K1; [|left; field].
      apply K0; [done|left; field].
    + apply K3; [|left; field]. apply Hf5; [|left; field]. apply K2; [|left; field]. apply K1; [done|left; field].
    + apply K3; [|left; field]. by apply Hf5; [|left; field].
    + done.
    + apply K3; [|right; field]. apply Hf5; [|left; field]. apply K2; [done|right; field].
  - unfold W32. field.
  - eapply (keyed_keep b4 _ _ 0); [lia|lia|intros; apply Hf7; [done|by right]|exact Hke4].
  - done.
Qed.

(** ** The decoder *)

(** The part of a map below an index. *)
Definition indexed_below {A} (i : Z) (m : gmap Z A) : gmap Z A := filter (fun kv => kv.1 < i) m.

Lemma lookup_below {A} i j (m : gmap Z A) : indexed_below i m !! j = if j <? i then m !! j else None.
Proof.
  unfold indexed_below. rewrite map_lookup_filter. destruct (m !! j) as [x|]; cbn; [|by destruct (j <? i)].
  destruct (Z.ltb_spec j i); [by rewrite option_guard_True|by rewrite option_guard_False by (cbn; lia)].
Qed.

Lemma below_next {A} i (m : gmap Z A) x : m !! i = Some x -> emplace i x (indexed_below i m) = indexed_below (i + 1) m.
Proof.
  intros E. unfold emplace. rewrite lookup_below, Z.ltb_irrefl. apply map_eq. intros j. destruct (decide (j = i)) as [->|Hne].
  - by rewrite lookup_insert_eq, lookup_below, (proj2 (Z.ltb_lt _ _)) by lia.
  - rewrite lookup_insert_ne, !lookup_below by done. destruct (Z.ltb_spec j i), (Z.ltb_spec j (i + 1)); done || lia.
Qed.

Lemma below_skip {A} i (m : gmap Z A) : m !! i = None -> indexed_below i m = indexed_below (i + 1) m.
Proof.
  intros E. apply map_eq. intros j. rewrite !lookup_below. destruct (Z.ltb_spec j i), (Z.ltb_spec j (i + 1)); try done; try lia.
  by replace j with i by lia.
Qed.

Lemma below_none {A} fmt es (m : gmap Z A) : only_at fmt es m -> indexed_below 0 m = ∅.
Proof.
  intros Ho. apply map_eq. intros j. rewrite lookup_below, lookup_empty. destruct (Z.ltb_spec j 0); [|done].
  destruct (m !! j) as [x|] eqn:E; [|done]. destruct (Ho _ _ E). lia.
Qed.

Lemma below_all {A} fmt es (m : gmap Z A) : only_at fmt es m -> indexed_below (Z.of_nat (length es)) m = m.
Proof.
  intros Ho. apply map_eq. intros j. rewrite lookup_below. destruct (Z.ltb_spec j (Z.of_nat (length es))); [done|].
  destruct (m !! j) as [x|] eqn:E; [|done]. destruct (Ho _ _ E) as [? (e & Ee & _)]. apply lookup_lt_Some in Ee. lia.
Qed.

Lemma only_at_other {A} fmt es (m : gmap Z A) (i : nat) e :
  only_at fmt es m -> es !! i = Some e -> param_fmt e <> fmt -> m !! Z.of_nat i = None.
Proof.
  intros Ho Ee Hne. destruct (m !! Z.of_nat i) as [x|] eqn:E; [|done]. destruct (Ho _ _ E) as [_ (e' & Ee' & Hf)].
  rewrite Nat2Z.id in Ee'. congruence.
Qed.

(** The first [i] entries of [p] with their values. *)
Definition psf_prefix (i : nat) (p : PSF) : PSF :=
  mkPSF (take i (entry_list p)) (indexed_below (Z.of_nat i) (map_binaries p)) (indexed_below (Z.of_nat i) (map_strings p))
        (indexed_below (Z.of_nat i) (map_integers p)).

Lemma payload_cases p i e v : payload p i e = Done v ->
  (param_fmt e = PSFEntryFmt.Binary /\ map_binaries p !! i = Some v) \/
  (param_fmt e = PSFEntryFmt.Text /\ exists t, map_strings p !! i = Some t /\ v = t ++ [0]) \/
  (param_fmt e = PSFEntryFmt.Integer /\ exists z, map_integers p !! i = Some z /\ v = le_bytes 4 z).
Proof.
  unfold payload, map_at. destruct (Z.eqb_spec (param_fmt e) PSFEntryFmt.Binary) as [->|].
  { destruct (map_binaries p !! i); intros [= <-]. by left. }
  destruct (Z.eqb_spec (param_fmt e) PSFEntryFmt.Text) as [->|].
  { destruct (map_strings p !! i); intros [= <-]. right. left. eauto. }
  destruct (Z.eqb_spec (param_fmt e) PSFEntryFmt.Integer) as [->|]; [|done].
  destruct (map_integers p !! i); intros [= <-]. right. right. eauto.
Qed.

Lemma open_entry_ok p b kto dto ko (i : nat) e es :
  psf_ok p -> entry_list p !! i = Some e -> 0 <= ko < 65536 -> max_len e < W32 ->
  keyed b kto (Z.of_nat i) ko (e :: es) -> valued p b dto (Z.of_nat i) (e :: es) ->
  open_entry (Z.of_nat i) b kto dto (psf_prefix i p) = Done (psf_prefix (S i) p).
Proof.
  intros Hp Ee Hko Hml (K1 & K2 & K3 & K4 & _) [(v & off & Ev & V1 & V2 & V3 & Hoff & Hv) _].
  destruct (po_entry _ Hp i e Ee) as [Hkey Hlim _ Htext Hint]. pose proof (blen_pos v).
  pose proof (payload_cases _ _ _ _ Ev) as Hc.
  assert (0 <= param_fmt e < 65536) as Hfmt by (destruct Hc as [[-> _]|[[-> _]|[-> _]]]; done).
  unfold open_entry. fold (raw (Z.of_nat i)).
  rewrite (reads_u16 _ _ _ K1) by (unfold W16; lia). cbn [obind].
  rewrite (reads_u16 _ _ _ K2) by (unfold W16; lia). cbn [obind].
  rewrite (reads_u32 _ _ _ V2) by lia. cbn [obind].
  rewrite (reads_u32 _ _ _ K3) by lia. cbn [obind].
  rewrite (reads_u32 _ _ _ V1) by lia. cbn [obind].
  rewrite (reads_c_str _ _ _ K4 Hkey). cbn [obind psf_prefix entry_list map_binaries map_strings map_integers].
  assert (take i (entry_list p) ++ [mkEntry (key e) (param_fmt e) (max_len e)] = take (S i) (entry_list p)) as ->.
  { rewrite (take_S_r _ _ e Ee). by destruct e. }
  unfold psf_prefix. replace (Z.of_nat (S i)) with (Z.of_nat i + 1) by lia.
  pose proof (only_at_other _ _ _ i e (po_binaries _ Hp) Ee) as NB.
  pose proof (only_at_other _ _ _ i e (po_strings _ Hp) Ee) as NS.
  pose proof (only_at_other _ _ _ i e (po_integers _ Hp) Ee) as NI.
  destruct Hc as [[Ef Em]|[[Ef (t & Em & ->)]|[Ef (z & Em & ->)]]]; rewrite Ef in *; cbn [Z.eqb PSFEntryFmt.Binary PSFEntryFmt.Text PSFEntryFmt.Integer Pos.eqb].
  - rewrite (reads_fetch _ _ _ V3). cbn [obind]. rewrite (below_next _ _ _ Em), (below_skip _ _ (NS ltac:(done))), (below_skip _ _ (NI ltac:(done))). done.
  - rewrite (reads_c_str _ _ _ V3) by eauto. cbn [obind].
    rewrite (below_next _ _ _ Em), (below_skip _ _ (NB ltac:(done))), (below_skip _ _ (NI ltac:(done))). done.
  - rewrite blen_4. cbn [oassert Z.eqb Pos.eqb obind]. pose proof (reads_fetch _ _ _ V3) as F. rewrite blen_4 in F.
    unfold fetch_le. rewrite F. cbn [obind].
    rewrite le_value_bytes. change (256 ^ Z.of_nat 4) with 4294967296. fold W32; rewrite s32_reads by eauto.
    rewrite (below_next _ _ _ Em), (below_skip _ _ (NB ltac:(done))), (below_skip _ _ (NS ltac:(done))). done.
Qed.

Lemma open_entries_ok p b kto dto (es1 es2 : list Entry) :
  psf_ok p -> entry_list p = es1 ++ es2 -> key_bytes (entry_list p) <= 65536 -> Forall (fun e => max_len e < W32) (entry_list p) ->
  keyed b kto (Z.of_nat (length es1)) (key_bytes es1) es2 -> valued p b dto (Z.of_nat (length es1)) es2 ->
  open_entries (length es2) (Z.of_nat (length es1)) b kto dto (psf_prefix (length es1) p) =
    Done (psf_prefix (length (entry_list p)) p).
Proof.
  intros Hp E Hk Hm. revert es1 E. induction es2 as [|e es2 IH]; intros es1 E Hke Hva; cbn [open_entries length].
  { rewrite app_nil_r in E. by rewrite E. }
  assert (key_bytes (es1 ++ [e]) = key_bytes es1 + (blen (key e) + 1)) as Hsum.
  { clear. induction es1 as [|a es1 IH]; cbn; [lia|]. unfold key_bytes in *. rewrite IH. lia. }
  assert (key_bytes es1 + (blen (key e) + 1) <= key_bytes (entry_list p)) as Hle.
  { rewrite <- Hsum, E. replace (es1 ++ e :: es2) with ((es1 ++ [e]) ++ es2) by (by rewrite <- app_assoc).
    generalize (es1 ++ [e]). clear. intros l. pose proof (key_bytes_pos es2).
    induction l as [|a l IH]; cbn; [done|]. unfold key_bytes in *. lia. }
  pose proof (key_bytes_pos es1). pose proof (blen_pos (key e)).
  assert (entry_list p !! length es1 = Some e) as Ee by (rewrite E; by apply list_lookup_middle).
  rewrite (open_entry_ok p b kto dto (key_bytes es1) (length es1) e es2); try done; try lia; [|by eapply (Forall_lookup_1 _ _ _ _ Hm)].
  cbn [obind]. assert (length (es1 ++ [e]) = S (length es1)) as Hlen by (rewrite length_app; cbn; lia).
  specialize (IH (es1 ++ [e])). rewrite Hlen, Hsum, Nat2Z.inj_succ in IH. apply IH.
  - by rewrite <- app_assoc.
  - apply Hke.
  - apply Hva.
Qed.

Lemma psf_prefix_0 p : psf_ok p -> psf_prefix 0 p = empty_psf.
Proof. intros [_ Hb Hs Hi]. unfold psf_prefix. change (Z.of_nat 0) with 0. by rewrite (below_none _ _ _ Hb), (below_none _ _ _ Hs), (below_none _ _ _ Hi). Qed.

Lemma psf_prefix_all p : psf_ok p -> psf_prefix (length (entry_list p)) p = p.
Proof.
  intros [_ Hb Hs Hi]. unfold psf_prefix. rewrite (below_all _ _ _ Hb), (below_all _ _ _ Hs), (below_all _ _ _ Hi), take_ge by done.
  by destruct p.
Qed.

Lemma limits_bounded es : Forall (fun e => 0 <= max_len e) es -> data_bytes es < 2147483648 ->
  Forall (fun e => max_len e < W32) es.
Proof.
  induction 1 as [|e es He Hes IH]; cbn [data_bytes foldr]; [done|]. fold (data_bytes es). intros Hs.
  pose proof (data_bytes_pos es Hes). constructor; [unfold W32; lia|]. apply IH. lia.
Qed.

Lemma Encode_Open p : psf_ok p -> encodable (entry_list p) -> exists b, Encode p = Done b /\ Open b = Done (true, p).
Proof.
  intros Hp He. destruct (Encode_ok p Hp He) as (b & dto & E & (H0 & H4 & H8 & H12 & H16) & Hd & Hke & Hva).
  exists b. split; [done|]. destruct He as [Hk Hsz].
  pose proof (fits_limits _ _ _ (psf_fits p [] _ Hp eq_refl)) as Hlim.
  pose proof (key_bytes_pos (entry_list p)). pose proof (data_bytes_pos _ Hlim). unfold Open.
  pose proof (reads_fetch _ _ _ H0) as F. change (blen (rev (le_bytes 4 PSF_MAGIC))) with 4 in F. rewrite F. cbn [obind].
  rewrite (reads_u32 _ _ _ H4) by done. cbn [obind].
  rewrite (reads_u32 _ _ _ H8), (reads_u32 _ _ _ H12), (reads_u32 _ _ _ H16) by (unfold W32; field || done). cbn [obind].
  change (le_value (rev (rev (le_bytes 4 PSF_MAGIC))) =? PSF_MAGIC) with true. cbn [negb].
  rewrite Z.eqb_refl. cbn [negb andb]. rewrite Nat2Z.id, <- (psf_prefix_0 p Hp).
  pose proof (open_entries_ok p b _ dto [] (entry_list p) Hp eq_refl Hk (limits_bounded _ Hlim ltac:(field)) Hke Hva) as Eo.
  cbn [length] in Eo. change (Z.of_nat 0) with 0 in Eo. rewrite Eo. cbn [obind]. by rewrite (psf_prefix_all p Hp).
Qed.
