(* ===== verification/PsfSpec.v ===== *)
(** * PsfSpec: what the PSF class promises

    A PSF is a map from keys to values of three formats ([psf_get]), which the
    accessors read and the [Add] functions update; encoding and decoding give
    it back unchanged. *)

From stdpp Require Import gmap.
From S2P Require Import Prelude Psf PsfFacts.

(** ** The map a PSF denotes *)

Inductive psf_value := VBinary (b : bytes) | VText (s : bytes) | VInteger (z : Z).

Definition format (v : psf_value) : Z :=
  match v with VBinary _ => PSFEntryFmt.Binary | VText _ => PSFEntryFmt.Text | VInteger _ => PSFEntryFmt.Integer end.

(** The size limit the [Add] functions record. *)
Definition limit (k : bytes) (v : psf_value) : Z :=
  match v with
  | VBinary b => get_max_size k (blen b)
  | VText s => get_max_size k (blen s + 1)
  | VInteger _ => 4
  end.

Definition value_at (p : PSF) (i : Z) (e : Entry) : option psf_value :=
  if param_fmt e =? PSFEntryFmt.Binary then VBinary <$> map_binaries p !! i
  else if param_fmt e =? PSFEntryFmt.Text then VText <$> map_strings p !! i
  else if param_fmt e =? PSFEntryFmt.Integer then VInteger <$> map_integers p !! i
  else None.

Definition psf_get (k : bytes) (p : PSF) : option psf_value :=
  match FindEntry k p with Some (i, e) => value_at p i e | None => None end.

(** The three [Add] functions as one. *)
Definition Add (k : bytes) (v : psf_value) (update : bool) (p : PSF) : outcome PSF :=
  match v with
  | VBinary b => AddBinary k b update p
  | VText s => AddString k s update p
  | VInteger z => AddInteger k z update p
  end.

(** Distinct keys, a value of its format for every entry, and no others. *)
Record psf_wf (p : PSF) : Prop := {
  pw_keys : forall i j e e', entry_list p !! i = Some e -> entry_list p !! j = Some e' -> key e = key e' -> i = j;
  pw_value : forall i e, entry_list p !! i = Some e -> exists v, value_at p (Z.of_nat i) e = Some v;
  pw_binaries : only_at PSFEntryFmt.Binary (entry_list p) (map_binaries p);
  pw_strings : only_at PSFEntryFmt.Text (entry_list p) (map_strings p);
  pw_integers : only_at PSFEntryFmt.Integer (entry_list p) (map_integers p) }.

Lemma FindEntry_Some p k j e : psf_wf p -> FindEntry k p = Some (j, e) <->
  0 <= j /\ entry_list p !! Z.to_nat j = Some e /\ key e = k.
Proof.
  intros Hp. unfold FindEntry. destruct (list_find _ _) as [[i e']|] eqn:E.
  - apply list_find_Some in E as (Ei & Ek & _). split.
    + intros [= <- <-]. rewrite Nat2Z.id. split_and!; try done. lia.
    + intros (Hj & Ej & Ek'). rewrite <- Ek' in Ek. pose proof (pw_keys _ Hp _ _ _ _ Ei Ej Ek) as ->. do 2 f_equal; [lia|congruence].
  - split; [done|]. intros (_ & Ej & Ek). apply list_find_None in E. rewrite Forall_forall in E.
    exfalso. eapply E; [by eapply list_elem_of_lookup_2|done].
Qed.

Lemma FindEntry_None p k : FindEntry k p = None -> forall i e, entry_list p !! i = Some e -> key e <> k.
Proof.
  unfold FindEntry. destruct (list_find _ _) as [[i e']|] eqn:E; [done|]. intros _ i e Ei Ek.
  apply list_find_None in E. rewrite Forall_forall in E. eapply E; [by eapply list_elem_of_lookup_2|done].
Qed.

(** The value of an entry has the entry's format. *)
Lemma value_at_format p i e v : value_at p i e = Some v -> param_fmt e = format v.
Proof.
  unfold value_at. destruct (Z.eqb_spec (param_fmt e) PSFEntryFmt.Binary) as [->|].
  { by intros (? & _ & ->)%fmap_Some. }
  destruct (Z.eqb_spec (param_fmt e) PSFEntryFmt.Text) as [->|]; [by intros (? & _ & ->)%fmap_Some|].
  destruct (Z.eqb_spec (param_fmt e) PSFEntryFmt.Integer) as [->|]; [|done]. by intros (? & _ & ->)%fmap_Some.
Qed.

(** ** Updates *)

(** New entries, and one value stored. *)
Definition set_value (i : Z) (v : psf_value) (es : list Entry) (p : PSF) : PSF :=
  match v with
  | VBinary b => mkPSF es (<[i := b]> (map_binaries p)) (map_strings p) (map_integers p)
  | VText s => mkPSF es (map_binaries p) (<[i := s]> (map_strings p)) (map_integers p)
  | VInteger z => mkPSF es (map_binaries p) (map_strings p) (<[i := z]> (map_integers p))
  end.

Lemma value_at_set i v es p j e :
  value_at (set_value i v es p) j e = if bool_decide (j = i) && (param_fmt e =? format v) then Some v else value_at p j e.
Proof.
  unfold value_at. destruct v as [b|s|z]; cbn [set_value map_binaries map_strings map_integers format];
    case_bool_decide as Hj; cbn [andb]; subst; rewrite ?lookup_insert_eq, ?lookup_insert_ne by done; try done;
    repeat match goal with |- context [?x =? ?y] => destruct (Z.eqb_spec x y) end; unfold PSFEntryFmt.Binary, PSFEntryFmt.Text, PSFEntryFmt.Integer in *; done || congruence.
Qed.

Lemma entry_list_set i v es p : entry_list (set_value i v es p) = es.
Proof. by destruct v. Qed.

Lemma only_at_grow {A} fmt es es' (m : gmap Z A) : only_at fmt es m ->
  (forall i e, es !! i = Some e -> exists e', es' !! i = Some e' /\ param_fmt e' = param_fmt e) -> only_at fmt es' m.
Proof.
  intros Ho Hes j x E. destruct (Ho _ _ E) as [? (e & Ee & <-)]. split; [done|]. apply (Hes _ _ Ee).
Qed.

Lemma only_at_insert {A} fmt es (m : gmap Z A) (i : nat) (x : A) e :
  only_at fmt es m -> es !! i = Some e -> param_fmt e = fmt -> only_at fmt es (<[Z.of_nat i := x]> m).
Proof.
  intros Ho Ee Hf j y. destruct (decide (j = Z.of_nat i)) as [->|].
  - intros _. rewrite Nat2Z.id. split; [lia|eauto].
  - rewrite lookup_insert_ne by done. apply Ho.
Qed.

(** Storing a value of the right format at entry [i] of a list that extends or
    relimits the old one. *)
Lemma set_value_wf p (i : nat) v es e : psf_wf p ->
  (forall j e0, entry_list p !! j = Some e0 -> exists e1, es !! j = Some e1 /\ param_fmt e1 = param_fmt e0) ->
  es !! i = Some e -> param_fmt e = format v ->
  (forall j e1, es !! j = Some e1 -> j <> i -> exists e0, entry_list p !! j = Some e0 /\ param_fmt e1 = param_fmt e0) ->
  (forall a b x y, es !! a = Some x -> es !! b = Some y -> key x = key y -> a = b) ->
  psf_wf (set_value (Z.of_nat i) v es p).
Proof.
  intros [Hk Hv Hb Hs Hi] Hgrow Ei Hf Hback Hkeys. split; rewrite ?entry_list_set.
  - exact Hkeys.
  - intros j e1 E1. rewrite value_at_set. destruct (decide (j = i)) as [->|Hne].
    + rewrite bool_decide_eq_true_2 by done. assert (e1 = e) as -> by congruence. rewrite Hf, Z.eqb_refl. eauto.
    + rewrite bool_decide_eq_false_2 by lia. destruct (Hback j e1 E1 Hne) as (e0 & E0 & Hfe). cbn [andb].
      unfold value_at. rewrite Hfe. by apply Hv.
  - destruct v; cbn; try (by eapply only_at_grow). by eapply only_at_insert; [eapply only_at_grow|..].
  - destruct v; cbn; try (by eapply only_at_grow). by eapply only_at_insert; [eapply only_at_grow|..].
  - destruct v; cbn; try (by eapply only_at_grow). by eapply only_at_insert; [eapply only_at_grow|..].
Qed.

Lemma emplace_new {A} (m : gmap Z A) fmt es (x : A) : only_at fmt es m ->
  emplace (Z.of_nat (length es)) x m = <[Z.of_nat (length es) := x]> m.
Proof.
  intros Ho. unfold emplace. destruct (m !! Z.of_nat (length es)) eqn:E; [|done]. destruct (Ho _ _ E) as [_ (e & Ee & _)].
  rewrite Nat2Z.id in Ee. apply lookup_lt_Some in Ee. lia.
Qed.

Lemma Add_new k v u p : psf_wf p -> FindEntry k p = None ->
  Add k v u p = Done (set_value (Z.of_nat (length (entry_list p))) v (entry_list p ++ [mkEntry k (format v) (limit k v)]) p).
Proof.
  intros Hp E. destruct v; cbn; unfold AddBinary, AddString, AddInteger; rewrite E; do 2 f_equal.
  - apply (emplace_new _ _ _ _ (pw_binaries _ Hp)).
  - apply (emplace_new _ _ _ _ (pw_strings _ Hp)).
  - apply (emplace_new _ _ _ _ (pw_integers _ Hp)).
Qed.

Lemma Add_old k v u p i e v0 : FindEntry k p = Some (i, e) -> value_at p i e = Some v0 ->
  Add k v u p = if negb u then Done p else
    if format v0 =? format v then Done (set_value i v (relimit i e (limit k v) p) p) else Raised AssertFailed.
Proof.
  intros E Hv. pose proof (value_at_format _ _ _ _ Hv) as Hf.
  destruct v; cbn; unfold AddBinary, AddString, AddInteger; rewrite E, Hf; (destruct u; cbn [negb]; [|done]);
    destruct v0; cbn in *; try done; unfold value_at in Hv; rewrite Hf in Hv; cbn in Hv; unfold assign, map_at;
    apply fmap_Some in Hv as (y & -> & _); done.
Qed.

(** ** Reading *)

Lemma psf_get_Some p k v : psf_wf p -> psf_get k p = Some v <->
  exists i e, entry_list p !! i = Some e /\ key e = k /\ value_at p (Z.of_nat i) e = Some v.
Proof.
  intros Hp. unfold psf_get. split.
  - destruct (FindEntry k p) as [[j e]|] eqn:E; [|done]. apply (FindEntry_Some p k j e Hp) in E as (Hj & Ee & Ek).
    intros Hv. exists (Z.to_nat j), e. rewrite Z2Nat.id by done. done.
  - intros (i & e & Ee & Ek & Hv). rewrite (proj2 (FindEntry_Some p k (Z.of_nat i) e Hp)); [done|].
    rewrite Nat2Z.id. split_and!; try done. lia.
Qed.

Lemma psf_get_None p k : psf_wf p -> psf_get k p = None -> FindEntry k p = None.
Proof.
  intros Hp. unfold psf_get. destruct (FindEntry k p) as [[j e]|] eqn:E; [|done].
  apply (FindEntry_Some p k j e Hp) in E as (Hj & Ee & Ek). destruct (pw_value _ Hp _ _ Ee) as [v Hv].
  rewrite Z2Nat.id in Hv by done. congruence.
Qed.

(** Two PSFs whose entries carry the same keys and values, one of them at entry
    [i] apart. *)
Lemma psf_get_set p (i : nat) v es e k : psf_wf p -> psf_wf (set_value (Z.of_nat i) v es p) ->
  es !! i = Some e -> key e = k -> param_fmt e = format v ->
  (forall j e1, j <> i -> es !! j = Some e1 <-> entry_list p !! j = Some e1) ->
  (forall e0, entry_list p !! i = Some e0 -> key e0 = k) ->
  forall k', psf_get k' (set_value (Z.of_nat i) v es p) = if bool_decide (k' = k) then Some v else psf_get k' p.
Proof.
  intros Hp Hp' Ei Ek Hf Hes Hi k'. case_bool_decide as Hk.
  - subst k'. apply psf_get_Some; [done|]. rewrite entry_list_set. exists i, e. split_and!; try done.
    by rewrite value_at_set, bool_decide_eq_true_2, Hf, Z.eqb_refl.
  - apply option_eq. intros w. rewrite !psf_get_Some by done. rewrite entry_list_set.
    split; intros (j & e1 & E1 & Ek1 & Hv).
    + assert (j <> i) as Hne by (intros ->; congruence). exists j, e1. rewrite value_at_set, bool_decide_eq_false_2 in Hv by lia.
      split_and!; try done. by apply Hes.
    + assert (j <> i) as Hne by (intros ->; specialize (Hi _ E1); congruence). exists j, e1.
      rewrite value_at_set, bool_decide_eq_false_2 by lia. split_and!; try done. by apply Hes.
Qed.

Lemma add_new_ok k v u p : psf_wf p -> FindEntry k p = None ->
  exists p', Add k v u p = Done p' /\ psf_wf p' /\ forall k', psf_get k' p' = if bool_decide (k' = k) then Some v else psf_get k' p.
Proof.
  intros Hp Hn. rewrite (Add_new k v u p Hp Hn). eexists. split; [done|].
  pose proof (FindEntry_None p k Hn) as Hk. set (es := entry_list p ++ _).
  assert (es !! length (entry_list p) = Some (mkEntry k (format v) (limit k v))) as En by (subst es; by apply list_lookup_middle).
  assert (forall j e1, j <> length (entry_list p) -> es !! j = Some e1 <-> entry_list p !! j = Some e1) as Hes.
  { intros j e1 Hj. subst es. destruct (decide (j < length (entry_list p))%nat); [by rewrite lookup_app_l|].
    rewrite (lookup_ge_None_2 (entry_list p)), lookup_ge_None_2 by (rewrite ?length_app; cbn; lia). done. }
  assert (psf_wf (set_value (Z.of_nat (length (entry_list p))) v es p)) as Hw.
  { eapply set_value_wf; try done.
    - intros j e0 E0. exists e0. split; [|done]. subst es. by rewrite lookup_app_l by (by eapply lookup_lt_Some).
    - intros j e1 E1 Hj. exists e1. split; [|done]. by apply Hes.
    - intros a b x y Ea Eb Ek. destruct (decide (a = length (entry_list p))) as [->|Ha], (decide (b = length (entry_list p))) as [->|Hb];
        try done.
      + rewrite En in Ea. injection Ea as <-. apply Hes in Eb; [|done]. by destruct (Hk _ _ Eb).
      + rewrite En in Eb. injection Eb as <-. apply Hes in Ea; [|done]. by destruct (Hk _ _ Ea).
      + apply Hes in Ea, Eb; try done. by eapply pw_keys. }
  split; [done|]. eapply psf_get_set; try done. intros e0 E0. apply lookup_lt_Some in E0. lia.
Qed.

Lemma add_old_ok k v p i e v0 : psf_wf p -> FindEntry k p = Some (i, e) -> value_at p i e = Some v0 -> format v0 = format v ->
  exists p', Add k v true p = Done p' /\ psf_wf p' /\ forall k', psf_get k' p' = if bool_decide (k' = k) then Some v else psf_get k' p.
Proof.
  intros Hp Hfi Hv0 Hf. rewrite (Add_old k v true p i e v0 Hfi Hv0), Hf, Z.eqb_refl. cbn [negb]. eexists. split; [done|].
  apply (FindEntry_Some p k i e Hp) in Hfi as (Hi & Ee & Ek). pose proof (value_at_format _ _ _ _ Hv0) as Hfe.
  rewrite <- (Z2Nat.id i Hi) in *. set (n := Z.to_nat i) in *. rewrite Nat2Z.id in Ee. unfold relimit. rewrite Nat2Z.id.
  set (es := <[n := _]> _).
  assert (es !! n = Some (mkEntry (key e) (param_fmt e) (limit k v))) as En.
  { subst es. apply list_lookup_insert_eq. by eapply lookup_lt_Some. }
  assert (forall j e1, j <> n -> es !! j = Some e1 <-> entry_list p !! j = Some e1) as Hes.
  { intros j e1 Hj. subst es. by rewrite list_lookup_insert_ne. }
  assert (Hback : forall j e1, es !! j = Some e1 -> exists e0, entry_list p !! j = Some e0 /\ key e1 = key e0).
  { intros j e1 E1. destruct (decide (j = n)) as [->|]; [|apply Hes in E1; eauto]. rewrite En in E1. injection E1 as <-. eauto. }
  assert (psf_wf (set_value (Z.of_nat n) v es p)) as Hw.
  { apply (set_value_wf p n v es (mkEntry (key e) (param_fmt e) (limit k v)) Hp).
    - intros j e0 E0. destruct (decide (j = n)) as [->|]; [|exists e0; split; [by apply Hes|done]].
      eexists. split; [exact En|]. cbn. congruence.
    - exact En.
    - cbn. congruence.
    - intros j e1 E1 Hj. exists e1. split; [by apply Hes|done].
    - intros a b x y Ea Eb Hxy. destruct (Hback _ _ Ea) as (x0 & Ea0 & Hx), (Hback _ _ Eb) as (y0 & Eb0 & Hy).
      eapply (pw_keys _ Hp); [exact Ea0|exact Eb0|congruence]. }
  split; [done|]. apply (psf_get_set p n v es _ k Hp Hw En); [done|cbn; congruence|done|]. intros e0 E0. congruence.
Qed.

(** C38: a PSF built with the [Add] functions is a map from keys to values: the
    accessors read it (asserting that the format is the one asked for), adding
    a new key inserts it, adding a present key updates it only when asked to,
    asserting that its format stays, and no other key is affected. *)
Theorem PSF_is_map (p : PSF) (Hp : psf_wf p) (k : bytes) :
  GetBinary k p = match psf_get k p with None => Done None | Some (VBinary b) => Done (Some b) | _ => Raised AssertFailed end /\
  GetString k p = match psf_get k p with None => Done None | Some (VText s) => Done (Some s) | _ => Raised AssertFailed end /\
  GetInteger k p = match psf_get k p with None => Done None | Some (VInteger z) => Done (Some z) | _ => Raised AssertFailed end /\
  forall v update,
    match psf_get k p with
    | None => exists p', Add k v update p = Done p' /\ psf_wf p' /\
        forall k', psf_get k' p' = if bool_decide (k' = k) then Some v else psf_get k' p
    | Some v0 =>
        if negb update then Add k v update p = Done p
        else if format v0 =? format v then
          exists p', Add k v update p = Done p' /\ psf_wf p' /\
            forall k', psf_get k' p' = if bool_decide (k' = k) then Some v else psf_get k' p
        else Add k v update p = Raised AssertFailed
    end.
Proof.
  destruct (psf_get k p) as [v0|] eqn:E.
  - unfold psf_get in E. destruct (FindEntry k p) as [[i e]|] eqn:Ef; [|done].
    pose proof (value_at_format _ _ _ _ E) as Hf. pose proof E as Hv. unfold value_at in Hv. rewrite Hf in Hv.
    unfold GetBinary, GetString, GetInteger. rewrite Ef, Hf. split_and!.
    1-3: destruct v0; cbn in *; try done; apply fmap_Some in Hv as (y & Ey & [= ->]); unfold map_at; by rewrite Ey.
    intros v u. destruct u; cbn [negb]; [|by rewrite (Add_old k v false p i e v0 Ef E)].
    destruct (Z.eqb_spec (format v0) (format v)) as [Heq|Hne]; [by eapply add_old_ok|].
    rewrite (Add_old k v true p i e v0 Ef E). cbn [negb]. by rewrite (proj2 (Z.eqb_neq _ _) Hne).
  - pose proof (psf_get_None p k Hp E) as Ef. unfold GetBinary, GetString, GetInteger. rewrite Ef. split_and!; try done.
    intros v u. by apply add_new_ok.
Qed.

Lemma empty_wf : psf_wf empty_psf.
Proof. split; cbn; try done; intros i x; by rewrite lookup_empty. Qed.

Lemma PSF_is_map_witness :
  exists p', Add (str "TITLE") (VText (str "Game")) false empty_psf = Done p' /\ psf_wf p' /\
    forall k', psf_get k' p' = if bool_decide (k' = str "TITLE") then Some (VText (str "Game")) else psf_get k' empty_psf.
Proof. apply (PSF_is_map empty_psf empty_wf (str "TITLE")). Defined.

(** C34: encoding a well-formed PSF (values within their limits, no zero byte in
    keys and texts: [psf_ok]) always completes, and decoding the result gives the
    same entries, limits and values, if the table of keys has at most 64 KiB, as
    the offsets in it have 16 bits and the code does not check that they fit, and
    the file less than 2 GiB ([encodable]). *)
Theorem PSF_roundtrip (p : PSF) (Hp : psf_ok p) (He : encodable (entry_list p)) :
  exists b, Encode p = Done b /\ Open b = Done (true, p).
Proof. by apply Encode_Open. Qed.

Definition demo_psf : PSF :=
  mkPSF [mkEntry (str "TITLE") PSFEntryFmt.Text 8; mkEntry (str "LEVEL") PSFEntryFmt.Integer 4;
         mkEntry (str "BLOB") PSFEntryFmt.Binary 3]
        {[2 := [1; 2; 3]]} {[0 := str "Game"]} {[1 := -2]}.

Lemma demo_psf_ok : psf_ok demo_psf.
Proof.
  assert (forall s, Forall (fun c => c <> 0) (str s) <-> forallb (fun c => negb (c =? 0)) (str s) = true) as Hz.
  { intros s. rewrite Forall_forall, forallb_forall. setoid_rewrite negb_true_iff. setoid_rewrite Z.eqb_neq.
    setoid_rewrite list_elem_of_In. done. }
  split.
  - intros [|[|[|i]]] e; [| | |done]; intros [= <-]; split; cbn [key max_len param_fmt]; try (apply Hz; reflexivity); try lia;
      try (eexists; split; [reflexivity|vm_compute; congruence]).
    + intros v _ E. vm_compute in E. injection E as <-. apply (Hz "Game"%string). reflexivity.
    + intros v E. vm_compute in E. congruence.
    + intros v E. vm_compute in E. congruence.
    + intros v _ E. vm_compute in E. injection E as <-. lia.
    + intros v E. vm_compute in E. congruence.
    + intros v E. vm_compute in E. congruence.
  - intros i x E. cbn in E. apply lookup_singleton_Some in E as [<- _]. split; [lia|]. eexists. by split.
  - intros i x E. cbn in E. apply lookup_singleton_Some in E as [<- _]. split; [lia|]. eexists. by split.
  - intros i x E. cbn in E. apply lookup_singleton_Some in E as [<- _]. split; [lia|]. eexists. by split.
Qed.

Lemma PSF_roundtrip_witness : exists b, Encode demo_psf = Done b /\ Open b = Done (true, demo_psf).
Proof. apply (PSF_roundtrip demo_psf demo_psf_ok). split; vm_compute; congruence. Defined.
