(* ===== verification/Lru.v ===== *)
(** * Lru: [Common::LeastRecentlyUsedCache]

    [common/lru_cache.h]: a pool of items threaded on a doubly linked list from
    the least to the most recently used, with a queue of free items.  An
    [Item*] is the position of the item in the pool, whose addresses are
    stable. *)

From S2P Require Import Prelude.

Module Lru.

Record Item (T : Type) := mkItem { obj : T; tick : Z; next : option nat; prev : option nat }.
Arguments mkItem {T}.
Arguments obj {T}.
Arguments tick {T}.
Arguments next {T}.
Arguments prev {T}.

(** [free_items] has the front of the deque first. *)
Record t (T : Type) := mk {
  item_pool : list (Item T);
  free_items : list nat;
  first_item : option nat;
  last_item : option nat }.
Arguments mk {T}.
Arguments item_pool {T}.
Arguments free_items {T}.
Arguments first_item {T}.
Arguments last_item {T}.

Section Operations.
Context {T : Type}.
Implicit Types (c : t T) (i : nat) (o : option nat).

Definition empty : t T := mk [] [] None None.

(** Reading and writing through an [Item*]. *)
Definition deref i c : outcome (Item T) := of_option (item_pool c !! i).
Definition update (f : Item T -> Item T) i c : outcome (t T) :=
  let! _ := deref i c in
  Done (mk (alter f i (item_pool c)) (free_items c) (first_item c) (last_item c)).

Definition set_next o (x : Item T) : Item T := mkItem (obj x) (tick x) o (prev x).
Definition set_prev o (x : Item T) : Item T := mkItem (obj x) (tick x) (next x) o.
Definition set_tick (n : Z) (x : Item T) : Item T := mkItem (obj x) n (next x) (prev x).
Definition set_first o c : t T := mk (item_pool c) (free_items c) o (last_item c).
Definition set_last o c : t T := mk (item_pool c) (free_items c) (first_item c) o.

(** [if (p) { p->... }] *)
Definition update_if (f : Item T -> Item T) o c : outcome (t T) :=
  match o with Some i => update f i c | None => Done c end.

(** [Build]; a new item's object and tick are value-initialised, [d] and 0. *)
Definition Build (d : T) c : outcome (nat * t T) :=
  match free_items c with
  | [] => Done (length (item_pool c), mk (item_pool c ++ [mkItem d 0 None None]) [] (first_item c) (last_item c))
  | i :: rest =>
      let! c := update (set_next None) i (mk (item_pool c) rest (first_item c) (last_item c)) in
      let! c := update (set_prev None) i c in
      Done (i, c)
  end.

Definition Attach i c : outcome (t T) :=
  let c := match first_item c with None => set_first (Some i) c | Some _ => c end in
  match last_item c with
  | None => Done (set_last (Some i) c)
  | Some l =>
      let! c := update (set_prev (Some l)) i c in
      let! c := update (set_next (Some i)) l c in
      let! c := update (set_next None) i c in
      Done (set_last (Some i) c)
  end.

Definition Detach i c : outcome (t T) :=
  let! x := deref i c in
  let! c := update_if (set_next (next x)) (prev x) c in
  let! x := deref i c in
  let! c := update_if (set_prev (prev x)) (next x) c in
  let! c := (if bool_decide (first_item c = Some i) then
               let! x := deref i c in
               let c := set_first (next x) c in update_if (set_prev None) (first_item c) c
             else Done c) in
  if bool_decide (last_item c = Some i) then
    let! x := deref i c in
    let c := set_last (prev x) c in update_if (set_next None) (last_item c) c
  else Done c.

Definition Insert (o : T) (n : Z) c : outcome (nat * t T) :=
  let! '(i, c) := Build o c in
  let! c := update (fun x => mkItem o n (next x) (prev x)) i c in
  let! c := Attach i c in
  Done (i, c).

Definition Touch i (n : Z) c : outcome (t T) :=
  let! x := deref i c in
  if n <=? tick x then Done c else
  let! c := update (set_tick n) i c in
  if bool_decide (last_item c = Some i) then Done c else
  let! c := Detach i c in
  Attach i c.

Definition Free i c : outcome (t T) :=
  let! c := Detach i c in
  let! c := update (set_prev None) i c in
  let! c := update (set_next None) i c in
  Done (mk (item_pool c) (free_items c ++ [i]) (first_item c) (last_item c)).

(** The loop of [ForEachItemBelow].  [RETURNS_BOOL] compares [bool] with the
    trait [std::invoke_result] itself, so it is false for every callback and
    the loop never stops early.  [func] may change the cache; [fuel] bounds the
    items visited, whose objects are collected. *)
Fixpoint for_each (fuel : nat) (n : Z) (func : T -> t T -> outcome (t T)) (it : option nat) c : outcome (list T * t T) :=
  match it with
  | None => Done ([], c)
  | Some i =>
      match fuel with
      | O => Raised OutOfFuel
      | S fuel =>
          let! x := deref i c in
          if s64 n - s64 (tick x) <? 0 then Done ([], c) else
          let! c := func (obj x) c in
          let! '(seen, c) := for_each fuel n func (next x) c in
          Done (obj x :: seen, c)
      end
  end.

Definition ForEachItemBelow (n : Z) (func : T -> t T -> outcome (t T)) c : outcome (list T * t T) :=
  for_each (length (item_pool c)) n func (first_item c) c.

End Operations.
End Lru.
