(* ===== verification/LruSpec.v ===== *)
(** * LruSpec: the cache is a list ordered by last use

    [repr c l] says that the links of [c] thread the items of [l] in order and
    that the other items are free; every operation is then an operation on
    [l]. *)

From stdpp Require Import sorting.
From S2P Require Import Prelude Lru.
Import Lru.

Section Facts.
Context {T : Type}.
Implicit Types (c : t T) (i j : nat) (l : list nat) (pool : list (Item T)).

(** Each item of [l] points to its neighbours. *)
Definition linked pool l : Prop :=
  forall l1 i l2, l = l1 ++ i :: l2 -> exists x, pool !! i = Some x /\ prev x = last l1 /\ next x = head l2.

Record repr c l : Prop := {
  re_nodup : NoDup l;
  re_links : linked (item_pool c) l;
  re_first : first_item c = head l;
  re_last : last_item c = last l;
  re_free : NoDup (free_items c) /\ forall i, i ∈ free_items c <-> (i < length (item_pool c))%nat /\ (i ∉ l) }.

(** ** Writes through pointers *)

Lemma field_update_ok (f : Item T -> Item T) i c x : item_pool c !! i = Some x -> exists c', update f i c = Done c' /\
  (forall j, item_pool c' !! j = (if bool_decide (j = i) then f else id) <$> item_pool c !! j) /\
  free_items c' = free_items c /\ first_item c' = first_item c /\ last_item c' = last_item c.
Proof.
  intros E. unfold update, deref. rewrite E. cbn. eexists. split; [done|]. split_and!; try done. intros j. cbn.
  case_bool_decide as Hj; [subst; apply list_lookup_alter_eq|]. rewrite list_lookup_alter_ne, option_fmap_id by done. done.
Qed.

Lemma update_if_ok (f : Item T -> Item T) o c : (forall i, o = Some i -> is_Some (item_pool c !! i)) ->
  exists c', update_if f o c = Done c' /\
  (forall j, item_pool c' !! j = (if bool_decide (o = Some j) then f else id) <$> item_pool c !! j) /\
  free_items c' = free_items c /\ first_item c' = first_item c /\ last_item c' = last_item c.
Proof.
  intros Ho. destruct o as [i|]; cbn [update_if].
  - destruct (Ho i eq_refl) as [x Ex]. destruct (field_update_ok f i c x Ex) as (c' & E & Hp & Hrest). exists c'. split; [done|].
    split; [|done]. intros j. rewrite Hp. by rewrite (bool_decide_ext (j = i) (Some i = Some j)) by naive_solver.
  - exists c. split; [done|]. split_and!; try done. intros j. by rewrite option_fmap_id.
Qed.

Lemma same_length pool pool' (g : nat -> Item T -> Item T) : (forall j, pool' !! j = g j <$> pool !! j) -> length pool' = length pool.
Proof.
  intros Hg. apply Nat.le_antisymm; apply Nat.nlt_ge; intros Hlt.
  - destruct (lookup_lt_is_Some_2 _ _ Hlt) as [x Ex]. rewrite Hg, lookup_ge_None_2 in Ex by done. done.
  - destruct (lookup_lt_is_Some_2 _ _ Hlt) as [x Ex]. pose proof (Hg (length pool')) as Hn.
    rewrite Ex, lookup_ge_None_2 in Hn by done. done.
Qed.

(** ** Taking an item out *)

(** The item after its neighbour [i] has left between [a] and [b]. *)
Definition relink (a b : option nat) j (x : Item T) : Item T :=
  (if bool_decide (b = Some j) then set_prev a else id) ((if bool_decide (a = Some j) then set_next b else id) x).

Lemma linked_in pool l i : linked pool l -> i ∈ l -> is_Some (pool !! i).
Proof. intros Hl (l1 & l2 & ->)%list_elem_of_split. destruct (Hl l1 i l2 eq_refl) as (x & ? & _). eauto. Qed.

Lemma last_in l i : last l = Some i -> i ∈ l.
Proof. intros (l' & ->)%last_Some. rewrite elem_of_app. right. by left. Qed.

Lemma head_in l i : head l = Some i -> i ∈ l.
Proof. intros (l' & ->)%head_Some. by left. Qed.

Lemma relink_first b j x : (if bool_decide (b = Some j) then set_prev None else id) (relink None b j x) = relink None b j x.
Proof. unfold relink. by case_bool_decide. Qed.

Lemma relink_last a j x : (if bool_decide (a = Some j) then set_next None else id) (relink a None j x) = relink a None j x.
Proof. unfold relink. cbn. by case_bool_decide. Qed.

(** The last part of [Detach]: the ends of the list. *)
Definition fix_first i c : outcome (t T) :=
  if bool_decide (first_item c = Some i) then
    let! x := deref i c in
    let c := set_first (next x) c in update_if (set_prev None) (first_item c) c
  else Done c.

Definition fix_last i c : outcome (t T) :=
  if bool_decide (last_item c = Some i) then
    let! x := deref i c in
    let c := set_last (prev x) c in update_if (set_next None) (last_item c) c
  else Done c.

Lemma fix_first_ok c l1 i l2 x pool : item_pool c !! i = Some x -> next x = head l2 ->
  NoDup (l1 ++ i :: l2) -> first_item c = head (l1 ++ i :: l2) ->
  (forall j, j ∈ l2 -> is_Some (item_pool c !! j)) ->
  (forall j, item_pool c !! j = relink (last l1) (head l2) j <$> pool !! j) ->
  exists c', fix_first i c = Done c' /\ (forall j, item_pool c' !! j = relink (last l1) (head l2) j <$> pool !! j) /\
    free_items c' = free_items c /\ first_item c' = head (l1 ++ l2) /\ last_item c' = last_item c.
Proof.
  intros Ex Hn Hnd Hf Hin Hpool. unfold fix_first. destruct l1 as [|a l1]; cbn [app head] in *.
  - rewrite bool_decide_eq_true_2 by done. unfold deref. rewrite Ex. cbn [of_option obind]. rewrite Hn.
    destruct (update_if_ok (set_prev None) (head l2) (set_first (head l2) c)) as (c1 & E1 & P1 & F1 & A1 & B1).
    { intros j Hj%head_in. by apply Hin. }
    exists c1. cbn [first_item set_first]. split_and!; try done. intros j. rewrite P1. cbn. rewrite Hpool, <- option_fmap_compose.
    apply option_fmap_ext. intros y. apply relink_first.
  - rewrite bool_decide_eq_false_2; [exists c; split_and!; done|]. rewrite Hf. intros [= ->].
    apply NoDup_cons in Hnd as [Hni _]. apply Hni, elem_of_app. right. by left.
Qed.

Lemma fix_last_ok c l1 i l2 x pool : item_pool c !! i = Some x -> prev x = last l1 ->
  NoDup (l1 ++ i :: l2) -> last_item c = last (l1 ++ i :: l2) ->
  (forall j, j ∈ l1 -> is_Some (item_pool c !! j)) ->
  (forall j, item_pool c !! j = relink (last l1) (head l2) j <$> pool !! j) ->
  exists c', fix_last i c = Done c' /\ (forall j, item_pool c' !! j = relink (last l1) (head l2) j <$> pool !! j) /\
    free_items c' = free_items c /\ first_item c' = first_item c /\ last_item c' = last (l1 ++ l2).
Proof.
  intros Ex Hp Hnd Hl Hin Hpool. unfold fix_last. rewrite Hl. destruct l2 as [|b l2 _] using rev_ind.
  - rewrite last_snoc, bool_decide_eq_true_2 by done. unfold deref. rewrite Ex. cbn [of_option obind]. rewrite Hp.
    destruct (update_if_ok (set_next None) (last l1) (set_last (last l1) c)) as (c2 & E2 & P2 & F2 & A2 & B2).
    { intros j Hj%last_in. by apply Hin. }
    cbn [last_item set_last]. exists c2. rewrite app_nil_r. split_and!; try done. intros j. rewrite P2. cbn.
    rewrite Hpool, <- option_fmap_compose. apply option_fmap_ext. intros y. apply relink_last.
  - rewrite app_comm_cons, app_assoc, last_snoc, bool_decide_eq_false_2.
    + exists c. split_and!; try done. by rewrite Hl, app_comm_cons, !app_assoc, !last_snoc.
    + intros [= ->]. apply NoDup_app in Hnd as (_ & _ & [Hni _]%NoDup_cons). apply Hni, elem_of_app. right. by left.
Qed.

Lemma Detach_ok c l1 i l2 : repr c (l1 ++ i :: l2) -> exists c', Detach i c = Done c' /\
  (forall j, item_pool c' !! j = relink (last l1) (head l2) j <$> item_pool c !! j) /\
  free_items c' = free_items c /\ first_item c' = head (l1 ++ l2) /\ last_item c' = last (l1 ++ l2).
Proof.
  intros [Hnd Hl Hf Hla _]. destruct (Hl l1 i l2 eq_refl) as (x & Ex & Hp & Hn).
  assert ((i ∉ l1) /\ (i ∉ l2)) as [Hi1 Hi2].
  { apply NoDup_app in Hnd as (_ & Hd & [Hni _]%NoDup_cons). split; [|done]. intros H. apply (Hd i H). by left. }
  assert (forall j, last l1 = Some j -> j <> i) as Ha by (intros j Hj%last_in ->; done).
  assert (forall j, head l2 = Some j -> j <> i) as Hb by (intros j Hj%head_in ->; done).
  assert (forall j, j ∈ l1 \/ j ∈ l2 -> is_Some (item_pool c !! j)) as Hin.
  { intros j Hj. apply (linked_in _ _ _ Hl). rewrite elem_of_app, elem_of_cons. tauto. }
  unfold Detach, deref. rewrite Ex. cbn [of_option obind]. rewrite Hp, Hn.
  destruct (update_if_ok (set_next (head l2)) (last l1) c) as (c1 & -> & P1 & F1 & A1 & B1).
  { intros j Hj%last_in. apply Hin. by left. }
  cbn [obind]. assert (item_pool c1 !! i = Some x) as Ex1.
  { rewrite P1, bool_decide_eq_false_2, Ex; [done|]. intros E. by apply (Ha i E). }
  rewrite Ex1. cbn [of_option obind]. rewrite Hp, Hn.
  destruct (update_if_ok (set_prev (last l1)) (head l2) c1) as (c2 & -> & P2 & F2 & A2 & B2).
  { intros j Hj%head_in. rewrite P1. apply fmap_is_Some, Hin. by right. }
  cbn [obind]. assert (item_pool c2 !! i = Some x) as Ex2.
  { rewrite P2, bool_decide_eq_false_2, Ex1; [done|]. intros E. by apply (Hb i E). }
  assert (forall j, item_pool c2 !! j = relink (last l1) (head l2) j <$> item_pool c !! j) as P12.
  { intros j. rewrite P2, P1, <- option_fmap_compose. done. }
  assert (forall j, j ∈ l1 \/ j ∈ l2 -> is_Some (item_pool c2 !! j)) as Hin2.
  { intros j Hj. rewrite P12. by apply fmap_is_Some, Hin. }
  match goal with |- exists c', ?m = Done c' /\ _ => change m with (obind (fix_first i c2) (fix_last i)) end.
  destruct (fix_first_ok c2 l1 i l2 x (item_pool c)) as (c3 & -> & P3 & F3 & A3 & B3); try done; try congruence; [eauto|].
  cbn [obind]. assert (item_pool c3 !! i = Some x) as Ex3 by (rewrite P3, <- P12; exact Ex2).
  destruct (fix_last_ok c3 l1 i l2 x (item_pool c)) as (c4 & E4 & P4 & F4 & A4 & B4); try done; try congruence.
  { intros j Hj. rewrite P3, <- P12. eauto. }
  exists c4. split; [exact E4|]. split_and!; try done; congruence.
Qed.

Lemma detach_linked pool pool' l1 i l2 : NoDup (l1 ++ i :: l2) -> linked pool (l1 ++ i :: l2) ->
  (forall j, pool' !! j = relink (last l1) (head l2) j <$> pool !! j) -> linked pool' (l1 ++ l2).
Proof.
  intros Hnd Hl Hp m1 j m2 E.
  assert (Hd : forall y, y ∈ l1 -> y ∈ l2 -> False).
  { apply NoDup_app in Hnd as (_ & Hd & _). intros y H1 H2. apply (Hd y H1). by right. }
  assert (NoDup l1 /\ NoDup l2) as [Hn1 Hn2] by (apply NoDup_app in Hnd as (? & _ & [_ ?]%NoDup_cons); done).
  assert (Hhead : forall k, l2 = j :: k -> m1 = l1 -> m2 = k -> exists x, pool' !! j = Some x /\ prev x = last m1 /\ next x = head m2).
  { intros k -> -> ->. destruct (Hl (l1 ++ [i]) j k ltac:(by rewrite <- app_assoc)) as (x & Ex & Hx1 & Hx2).
    rewrite Hp, Ex. eexists. split; [done|]. unfold relink. cbn [head]. rewrite bool_decide_eq_true_2 by done.
    rewrite bool_decide_eq_false_2; [done|]. intros H%last_in. by apply (Hd j H); left. }
  apply app_eq_inv in E as [(k & -> & E)|(k & -> & ->)].
  - destruct k as [|j' k]; [by apply (Hhead m2); rewrite ?app_nil_r|]. injection E as <- ->.
    destruct (Hl m1 j (k ++ i :: l2) ltac:(by rewrite <- app_assoc)) as (x & Ex & Hx1 & Hx2).
    rewrite Hp, Ex. eexists. split; [done|]. unfold relink. rewrite (bool_decide_eq_false_2 (head l2 = Some j)).
    2: { intros H%head_in. apply (Hd j); [apply elem_of_app; right; by left|done]. }
    destruct k as [|j' k _] using rev_ind.
    + rewrite last_snoc, bool_decide_eq_true_2 by done. done.
    + rewrite app_comm_cons, app_assoc, last_snoc, bool_decide_eq_false_2.
      * split; [done|]. cbn. rewrite Hx2. by destruct k.
      * intros [= ->]. apply NoDup_app in Hn1 as (_ & _ & [Hni _]%NoDup_cons). apply Hni, elem_of_app. right. by left.
  - destruct k as [|y k _] using rev_ind; [by apply (Hhead m2); rewrite ?app_nil_r|].
    destruct (Hl (l1 ++ i :: k ++ [y]) j m2 ltac:(rewrite <- !app_assoc; cbn; by rewrite <- !app_assoc)) as (x & Ex & Hx1 & Hx2).
    rewrite Hp, Ex. eexists. split; [done|]. unfold relink. rewrite !bool_decide_eq_false_2.
    + rewrite app_assoc, last_snoc. rewrite app_comm_cons, app_assoc, last_snoc in Hx1. done.
    + intros H%last_in. apply (Hd j H), elem_of_app. right. by left.
    + intros H. apply NoDup_app in Hn2 as (_ & Hdis & _). apply (Hdis j); [|by left]. apply head_in.
      by destruct k.
Qed.

(** ** Putting an item at the end *)

Lemma Attach_ok c l i x : linked (item_pool c) l -> NoDup (l ++ [i]) -> first_item c = head l -> last_item c = last l ->
  item_pool c !! i = Some x -> (l = [] -> prev x = None /\ next x = None) ->
  exists c', Attach i c = Done c' /\ linked (item_pool c') (l ++ [i]) /\ first_item c' = head (l ++ [i]) /\
    last_item c' = Some i /\ free_items c' = free_items c /\ length (item_pool c') = length (item_pool c) /\
    forall j, (fun x => (obj x, tick x)) <$> item_pool c' !! j = (fun x => (obj x, tick x)) <$> item_pool c !! j.
Proof.
  intros Hl Hnd Hf Hla Ex He. apply NoDup_app in Hnd as (Hn & Hdis & _).
  assert (i ∉ l) as Hi by (intros H; apply (Hdis i H); by left). unfold Attach. rewrite Hf.
  destruct l as [|a l _] using rev_ind.
  - cbn [head last_item set_first]. rewrite Hla. cbn. eexists. split; [done|]. split_and!; try done.
    intros l1 j l2 E. destruct l1 as [|y l1]; [|by destruct l1]. injection E as <- <-. exists x. destruct (He eq_refl). done.
  - assert (head (l ++ [a]) <> None) as Hh by (by destruct l). destruct (head (l ++ [a])) as [h|] eqn:Eh; [|done].
    rewrite last_snoc in Hla. rewrite Hla.
    assert (a <> i) as Hai by (intros ->; apply Hi, elem_of_app; right; by left).
    destruct (Hl l a [] eq_refl) as (xa & Exa & Ha1 & Ha2).
    destruct (field_update_ok (set_prev (Some a)) i c x Ex) as (c1 & -> & P1 & F1 & A1 & B1). cbn [obind].
    assert (item_pool c1 !! a = Some xa) as Exa1 by (by rewrite P1, bool_decide_eq_false_2, Exa).
    destruct (field_update_ok (set_next (Some i)) a c1 xa Exa1) as (c2 & -> & P2 & F2 & A2 & B2). cbn [obind].
    assert (item_pool c2 !! i = Some (set_prev (Some a) x)) as Ex2.
    { by rewrite P2, P1, bool_decide_eq_false_2, bool_decide_eq_true_2, Ex by congruence. }
    destruct (field_update_ok (set_next None) i c2 _ Ex2) as (c3 & -> & P3 & F3 & A3 & B3). cbn [obind].
    assert (P : forall j, item_pool c3 !! j = (fun y => (if bool_decide (j = i) then set_next None else id)
      ((if bool_decide (j = a) then set_next (Some i) else id) ((if bool_decide (j = i) then set_prev (Some a) else id) y)))
      <$> item_pool c !! j).
    { intros j. rewrite P3, P2, P1, <- !option_fmap_compose. done. }
    eexists. split; [done|]. cbn [item_pool free_items first_item last_item set_last]. split_and!; try congruence.
    + intros l1 j l2 E. destruct l2 as [|z l2 _] using rev_ind.
      * apply app_inj_tail in E as [<- <-]. rewrite P, Ex. eexists. split; [done|].
        rewrite !bool_decide_eq_true_2, last_snoc by done. rewrite bool_decide_eq_false_2 by congruence. done.
      * rewrite app_comm_cons, app_assoc in E. apply app_inj_tail in E as [E <-].
        destruct (Hl l1 j l2 E) as (y & Ey & Hy1 & Hy2). rewrite P, Ey. eexists. split; [done|].
        assert (j <> i) as Hji by (intros ->; apply Hi; rewrite E; apply elem_of_app; right; by left).
        rewrite !(bool_decide_eq_false_2 (j = i)) by done. destruct l2 as [|w l2 _] using rev_ind.
        -- apply app_inj_tail in E as [<- <-]. by rewrite bool_decide_eq_true_2.
        -- rewrite app_comm_cons, app_assoc in E. apply app_inj_tail in E as [-> <-].
           rewrite bool_decide_eq_false_2. { split; [done|]. cbn. rewrite Hy2. by destruct l2. }
           intros ->. apply NoDup_app in Hn as (_ & Hda & _). apply (Hda a); [|by left]. apply elem_of_app. right. by left.
    + rewrite A3, A2, A1, Hf. by destruct l.
    + eapply same_length. exact P.
    + intros j. rewrite P. destruct (item_pool c !! j); [|done]. cbn. by repeat case_bool_decide.
Qed.
(** ** The operations on the list *)

(** Object and tick of an item. *)
Definition data c i : option (T * Z) := (fun x => (obj x, tick x)) <$> item_pool c !! i.

Lemma relink_data a b j (x : Item T) : (obj (relink a b j x), tick (relink a b j x)) = (obj x, tick x).
Proof. unfold relink. by repeat case_bool_decide. Qed.

Lemma repr_in c l i : repr c l -> i ∈ l -> (i < length (item_pool c))%nat.
Proof. intros Hr Hi. destruct (linked_in _ _ _ (re_links _ _ Hr) Hi) as [x Ex]. by eapply lookup_lt_Some. Qed.

(** Without item [i]: the rest of the list, with [i] neither in it nor free. *)
Lemma detach_repr c l1 i l2 : repr c (l1 ++ i :: l2) -> exists c', Detach i c = Done c' /\
  NoDup (l1 ++ l2) /\ (i ∉ l1 ++ l2) /\ linked (item_pool c') (l1 ++ l2) /\ first_item c' = head (l1 ++ l2) /\
  last_item c' = last (l1 ++ l2) /\ free_items c' = free_items c /\ length (item_pool c') = length (item_pool c) /\
  forall j, data c' j = data c j.
Proof.
  intros Hr. destruct (Detach_ok c l1 i l2 Hr) as (c' & E & Hp & Hf & Hh & Hl). pose proof (re_nodup _ _ Hr) as Hnd.
  exists c'. assert (i :: l1 ++ l2 ≡ₚ l1 ++ i :: l2) as Hperm by apply Permutation_middle.
  pose proof Hnd as Hnd'. rewrite <- Hperm in Hnd'. apply NoDup_cons in Hnd' as [Hi Hnd']. split_and!; try done.
  - by eapply detach_linked; [exact Hnd|apply Hr|].
  - by eapply same_length.
  - intros j. unfold data. rewrite Hp, <- option_fmap_compose. apply option_fmap_ext. intros x. apply relink_data.
Qed.

Lemma Free_ok c l1 i l2 : repr c (l1 ++ i :: l2) -> exists c', Free i c = Done c' /\ repr c' (l1 ++ l2) /\
  forall j, data c' j = data c j.
Proof.
  intros Hr. destruct (detach_repr c l1 i l2 Hr) as (c1 & E & Hnd & Hi & Hl & Hf & Hla & Hfr & Hlen & Hd).
  assert (i ∈ l1 ++ i :: l2) as Hin by (apply elem_of_app; right; by left).
  unfold Free. rewrite E. cbn [obind].
  destruct (lookup_lt_is_Some_2 (item_pool c1) i) as [x Ex]; [rewrite Hlen; by eapply repr_in|].
  destruct (field_update_ok (set_prev None) i c1 x Ex) as (c2 & -> & P2 & F2 & A2 & B2). cbn [obind].
  assert (item_pool c2 !! i = Some (set_prev None x)) as Ex2 by (by rewrite P2, Ex, bool_decide_eq_true_2).
  destruct (field_update_ok (set_next None) i c2 _ Ex2) as (c3 & -> & P3 & F3 & A3 & B3). cbn [obind].
  assert (length (item_pool c3) = length (item_pool c)) as Hlen3.
  { rewrite (same_length _ _ _ P3), (same_length _ _ _ P2). done. }
  eexists. split; [done|]. split.
  - destruct (re_free _ _ Hr) as [Hfn Hfi]. split; cbn; try congruence.
    + intros m1 j m2 Em. destruct (Hl m1 j m2 Em) as (y & Ey & Hy). exists y. split; [|done].
      assert (j <> i) by (intros ->; apply Hi; rewrite Em; apply elem_of_app; right; by left).
      by rewrite P3, P2, !bool_decide_eq_false_2, Ey.
    + rewrite F3, F2, Hfr, Hlen3. split.
      * apply NoDup_app. split_and!; [done| |apply NoDup_singleton]. intros j Hj ->%list_elem_of_singleton. by apply Hfi in Hj as [_ Hj].
      * intros j. rewrite elem_of_app, list_elem_of_singleton, Hfi. rewrite !elem_of_app, elem_of_cons.
        rewrite elem_of_app in Hi. pose proof (repr_in _ _ _ Hr Hin). destruct (decide (j = i)) as [->|]; tauto.
  - intros j. rewrite <- Hd. unfold data. cbn. rewrite P3, P2. destruct (item_pool c1 !! j); [|done]. cbn. by repeat case_bool_decide.
Qed.

Lemma Touch_ok c l1 i l2 (o : T) (old n : Z) : repr c (l1 ++ i :: l2) -> data c i = Some (o, old) ->
  if n <=? old then Touch i n c = Done c else
  exists c', Touch i n c = Done c' /\ repr c' (l1 ++ l2 ++ [i]) /\
    forall j, data c' j = if bool_decide (j = i) then Some (o, n) else data c j.
Proof.
  intros Hr Hdi. unfold data in Hdi. apply fmap_Some in Hdi as (x & Ex & [= -> ->]).
  unfold Touch, deref. rewrite Ex. cbn [of_option obind]. destruct (n <=? tick x); [done|].
  destruct (field_update_ok (set_tick n) i c x Ex) as (c1 & -> & P1 & F1 & A1 & B1). cbn [obind].
  assert (repr c1 (l1 ++ i :: l2)) as Hr1.
  { destruct Hr as [Hnd Hl Hf Hla Hfr]. split; try congruence.
    - intros m1 j m2 Em. destruct (Hl m1 j m2 Em) as (y & Ey & Hy). rewrite P1, Ey. eexists. split; [done|].
      by case_bool_decide.
    - by rewrite F1, (same_length _ _ _ P1). }
  assert (Hd1 : forall j, data c1 j = if bool_decide (j = i) then Some (obj x, n) else data c j).
  { intros j. unfold data. rewrite P1. case_bool_decide as Hj; [subst; by rewrite Ex|]. by rewrite option_fmap_id. }
  rewrite (re_last _ _ Hr1). destruct l2 as [|b l2 _] using rev_ind.
  { rewrite last_snoc, bool_decide_eq_true_2 by done. exists c1. by split. }
  rewrite app_comm_cons, app_assoc, last_snoc. pose proof (re_nodup _ _ Hr1) as Hnd1.
  rewrite bool_decide_eq_false_2.
  2: { intros [= ->]. apply NoDup_app in Hnd1 as (_ & _ & [Hni _]%NoDup_cons). apply Hni, elem_of_app. right. by left. }
  destruct (detach_repr c1 l1 i (l2 ++ [b]) Hr1) as (c2 & -> & Hnd & Hi & Hl & Hf & Hla & Hfr & Hlen & Hd). cbn [obind].
  assert (i ∈ l1 ++ i :: l2 ++ [b]) as Hin by (apply elem_of_app; right; by left).
  destruct (lookup_lt_is_Some_2 (item_pool c2) i) as [y Ey]; [rewrite Hlen; by eapply repr_in|].
  destruct (Attach_ok c2 (l1 ++ l2 ++ [b]) i y) as (c3 & -> & Hl3 & Hf3 & Hla3 & Hfr3 & Hlen3 & Hd3); try done.
  { apply NoDup_app. split_and!; [done| |apply NoDup_singleton]. intros j Hj ->%list_elem_of_singleton. done. }
  { intros En. by apply app_nil in En as [_ [_ En]%app_nil]. }
  exists c3. split; [done|]. rewrite app_assoc. split; [|intros j; rewrite <- Hd1, <- Hd; apply Hd3].
  destruct (re_free _ _ Hr1) as [Hfn Hfi]. split; try done.
  - apply NoDup_app. split_and!; [done| |apply NoDup_singleton]. intros j Hj ->%list_elem_of_singleton. done.
  - by rewrite last_snoc.
  - rewrite Hfr3, Hfr, Hlen3, Hlen. split; [done|]. intros j. rewrite Hfi. rewrite !elem_of_app, elem_of_cons, elem_of_app, !list_elem_of_singleton. tauto.
Qed.

(** A fresh item, unlinked and no longer free. *)
Lemma Build_ok c l (o : T) : repr c l -> exists i c1, Build o c = Done (i, c1) /\ (i ∉ l) /\ linked (item_pool c1) l /\
  first_item c1 = head l /\ last_item c1 = last l /\
  (exists x, item_pool c1 !! i = Some x /\ prev x = None /\ next x = None) /\
  (forall j, j <> i -> item_pool c1 !! j = item_pool c !! j) /\ NoDup (free_items c1) /\
  (forall j, j ∈ free_items c1 <-> (j < length (item_pool c1))%nat /\ (j ∉ l ++ [i])).
Proof.
  intros Hr. pose proof Hr as [Hnd Hl Hf Hla [Hfn Hfi]].
  unfold Build. destruct (free_items c) as [|i rest] eqn:Ef.
  - assert (length (item_pool c) ∉ l) as Hi by (intros H%(repr_in _ _ _ Hr); lia).
    eexists _, _. split; [done|]. cbn. split_and!; try done.
    + intros l1 j l2 E. destruct (Hl l1 j l2 E) as (y & Ey & Hy). exists y. split; [|done].
      rewrite lookup_app_l; [done|]. by eapply lookup_lt_Some.
    + eexists. split; [by apply list_lookup_middle|done].
    + intros j Hj. destruct (decide (j < length (item_pool c))%nat); [by rewrite lookup_app_l|].
      rewrite (lookup_ge_None_2 (item_pool c)), lookup_ge_None_2 by (rewrite ?length_app; cbn; lia). done.
    + intros j. rewrite elem_of_nil, length_app, elem_of_app, list_elem_of_singleton. cbn. split; [done|]. intros [Hj Hn].
      assert (j ∈ @nil nat) as Hjn by (apply Hfi; split; [lia|tauto]). by apply elem_of_nil in Hjn.
  - destruct (proj1 (Hfi i) ltac:(by left)) as [Hlt Hi]. destruct (lookup_lt_is_Some_2 _ _ Hlt) as [x Ex].
    destruct (field_update_ok (set_next None) i (mk (item_pool c) rest (first_item c) (last_item c)) x Ex) as (c1 & -> & P1 & F1 & A1 & B1).
    cbn [obind]. assert (item_pool c1 !! i = Some (set_next None x)) as Ex1.
    { rewrite P1, bool_decide_eq_true_2 by done. cbn [item_pool]. by rewrite Ex. }
    destruct (field_update_ok (set_prev None) i c1 _ Ex1) as (c2 & -> & P2 & F2 & A2 & B2). cbn [obind].
    assert (forall j, j <> i -> item_pool c2 !! j = item_pool c !! j) as Hs.
    { intros j Hj. by rewrite P2, P1, !bool_decide_eq_false_2, !option_fmap_id. }
    eexists _, _. split; [done|]. split_and!; try done.
    + intros l1 j l2 E. rewrite Hs; [by apply Hl|]. intros ->. apply Hi. rewrite E. apply elem_of_app. right. by left.
    + rewrite A2, A1. done.
    + rewrite B2, B1. done.
    + rewrite P2, Ex1, bool_decide_eq_true_2 by done. eexists. by split.
    + rewrite F2, F1. cbn. by apply NoDup_cons in Hfn as [_ ?].
    + rewrite F2, F1, (same_length _ _ _ P2), (same_length _ _ _ P1). cbn. intros j. apply NoDup_cons in Hfn as [Hni _].
      rewrite elem_of_app, list_elem_of_singleton. specialize (Hfi j). rewrite elem_of_cons in Hfi.
      destruct (decide (j = i)) as [->|]; [tauto|]. tauto.
Qed.

Lemma Insert_ok c l (o : T) (n : Z) : repr c l -> exists i c', Insert o n c = Done (i, c') /\ (i ∉ l) /\
  repr c' (l ++ [i]) /\ forall j, j ∈ l ++ [i] -> data c' j = if bool_decide (j = i) then Some (o, n) else data c j.
Proof.
  intros Hr. pose proof Hr as [Hnd Hl Hf Hla [Hfn Hfi]].
  destruct (Build_ok c l o Hr) as (i & c1 & EB & Hi & Hl1 & Hf1 & Hla1 & (x & Ex & Hx) & Hsame & Hfn1 & Hfi1).
  unfold Insert. rewrite EB. cbn [obind].
  destruct (field_update_ok (fun x => mkItem o n (next x) (prev x)) i c1 x Ex) as (c2 & -> & P2 & F2 & A2 & B2). cbn [obind].
  assert (NoDup (l ++ [i])) as Hnd2.
  { apply NoDup_app. split_and!; [done| |apply NoDup_singleton]. intros j Hj ->%list_elem_of_singleton. done. }
  assert (item_pool c2 !! i = Some (mkItem o n (next x) (prev x))) as Ex2 by (by rewrite P2, Ex, bool_decide_eq_true_2).
  destruct (Attach_ok c2 l i (mkItem o n (next x) (prev x))) as (c3 & -> & Hl3 & Hf3 & Hla3 & Hfr3 & Hlen3 & Hd3); try done; try congruence.
  { intros l1 j l2 E. destruct (Hl1 l1 j l2 E) as (y & Ey & Hy). exists y. split; [|done].
    rewrite P2, bool_decide_eq_false_2, Ey; [done|]. intros ->. apply Hi. rewrite E. apply elem_of_app. right. by left. }
  exists i, c3. split; [done|]. split; [done|]. split.
  - split; try done; [by rewrite last_snoc|]. rewrite Hfr3, F2, Hlen3, (same_length _ _ _ P2). done.
  - intros j _. unfold data. rewrite Hd3, P2. case_bool_decide as Hj; [subst; by rewrite Ex|]. by rewrite option_fmap_id, Hsame.
Qed.

(** ** Visiting *)

(** A callback that frees some of the items it is shown, as the texture cache's
    does; [id_of] is the identifier an object keeps of its item. *)
Definition evict (drop : T -> bool) (id_of : T -> nat) (o : T) c : outcome (t T) :=
  if drop o then Free (id_of o) c else Done c.

Definition is_old (n : Z) (d : nat -> option (T * Z)) i : bool :=
  match d i with Some (_, k) => k <=? n | None => false end.
Definition is_dropped (drop : T -> bool) (d : nat -> option (T * Z)) i : bool :=
  match d i with Some (o, _) => drop o | None => false end.

(** The items up to the first that is too recent, and the rest. *)
Fixpoint old_prefix (n : Z) (d : nat -> option (T * Z)) l : list nat :=
  match l with i :: l => if is_old n d i then i :: old_prefix n d l else [] | [] => [] end.
Fixpoint old_rest (n : Z) (d : nat -> option (T * Z)) l : list nat :=
  match l with i :: l' => if is_old n d i then old_rest n d l' else l | [] => [] end.

Definition keep (drop : T -> bool) (d : nat -> option (T * Z)) l : list nat := filter (fun i => is_dropped drop d i = false) l.

(** Ticks are below 2^63, so that their difference is a signed one. *)
Definition ticks_ok (d : nat -> option (T * Z)) l : Prop :=
  forall i o k, i ∈ l -> d i = Some (o, k) -> 0 <= k < 9223372036854775808.

Lemma old_prefix_ext n d d' l : (forall j, d j = d' j) -> old_prefix n d l = old_prefix n d' l /\ old_rest n d l = old_rest n d' l.
Proof. intros Hd. induction l as [|i l [IH1 IH2]]; cbn; [done|]. unfold is_old. rewrite Hd, IH1, IH2. done. Qed.

(** The objects of the items of a list. *)
Definition objects_of (d : nat -> option (T * Z)) l : list T := omap (fun i => fst <$> d i) l.

Lemma lists_ext (drop : T -> bool) d d' l : (forall j, d j = d' j) -> objects_of d l = objects_of d' l /\ keep drop d l = keep drop d' l.
Proof.
  intros Hd. induction l as [|i l [IH1 IH2]]; [done|]. unfold keep, objects_of in *. rewrite !filter_cons. unfold is_dropped in *.
  cbn [omap list_omap]. rewrite Hd, IH2. split; [|done]. destruct (fst <$> d' i); [by rewrite IH1|done].
Qed.

Lemma items_for_each_ok (drop : T -> bool) (id_of : T -> nat) (n : Z) (fuel : nat) c done rest :
  repr c (done ++ rest) -> (length rest <= fuel)%nat -> 0 <= n < 9223372036854775808 -> ticks_ok (data c) rest ->
  (forall i o k, i ∈ rest -> data c i = Some (o, k) -> id_of o = i) ->
  exists c', for_each fuel n (evict drop id_of) (head rest) c =
      Done (objects_of (data c) (old_prefix n (data c) rest), c') /\
    repr c' (done ++ keep drop (data c) (old_prefix n (data c) rest) ++ old_rest n (data c) rest) /\
    forall j, data c' j = data c j.
Proof.
  revert fuel c done. induction rest as [|i rest IH]; intros fuel c done Hr Hfuel Hn Ht Hid.
  { exists c. destruct fuel; cbn; by split_and!. }
  destruct fuel as [|fuel]; [cbn in Hfuel; lia|]. cbn [for_each head old_prefix old_rest].
  destruct (re_links _ _ Hr done i rest eq_refl) as (x & Ex & _ & Hnx). unfold deref. rewrite Ex. cbn [of_option obind].
  assert (data c i = Some (obj x, tick x)) as Hdi by (unfold data; by rewrite Ex).
  pose proof (Ht i _ _ ltac:(by left) Hdi) as Hti. rewrite !s64_small by done. unfold is_old at 1 3. rewrite Hdi.
  destruct (Z.ltb_spec (n - tick x) 0); (destruct (Z.leb_spec (tick x) n); try lia).
  { exists c. split_and!; try done. unfold is_old. rewrite Hdi, (proj2 (Z.leb_gt _ _)) by lia. done. }
  assert (is_old n (data c) i = true) as Hold by (unfold is_old; rewrite Hdi; by apply Z.leb_le). rewrite Hold.
  assert (exists c1, evict drop id_of (obj x) c = Done c1 /\ repr c1 (done ++ keep drop (data c) [i] ++ rest) /\
    forall j, data c1 j = data c j) as (c1 & -> & Hr1 & Hd1).
  { unfold evict, keep. rewrite (Hid i _ _ ltac:(by left) Hdi), filter_cons. unfold is_dropped. rewrite Hdi.
    destruct (drop (obj x)); [apply Free_ok; exact Hr|]. exists c. by split_and!. }
  cbn [obind]. rewrite Hnx. rewrite app_assoc in Hr1. pose proof (old_prefix_ext n _ _ rest Hd1) as [Hop Hor].
  destruct (IH fuel c1 (done ++ keep drop (data c) [i])) as (c' & E & Hr' & Hd'); try done.
  { cbn in Hfuel. lia. }
  { intros j o k Hj. rewrite Hd1. apply Ht. by right. }
  { intros j o k Hj. rewrite Hd1. apply Hid. by right. }
  destruct (lists_ext drop _ _ (old_prefix n (data c) rest) Hd1) as [Hob Hke].
  rewrite Hop, Hor, Hob, Hke in *. rewrite E. cbn [obind]. exists c'. split_and!.
  - unfold objects_of. cbn [omap list_omap]. by rewrite Hdi.
  - rewrite <- app_assoc, app_assoc with (l := keep drop (data c) [i]) in Hr'. unfold keep in *. by rewrite <- filter_app in Hr'.
  - intros j. by rewrite Hd', Hd1.
Qed.

(** When the ticks ascend, the old prefix is everything that is old. *)
Lemma old_prefix_all n d l : (forall i, i ∈ l -> is_Some (d i)) ->
  StronglySorted (fun i j => forall a b, d i = Some a -> d j = Some b -> snd a <= snd b) l ->
  old_prefix n d l = filter (fun i => is_old n d i = true) l.
Proof.
  induction 2 as [|i l Hs IH Hf]; [done|]. cbn [old_prefix]. rewrite filter_cons. destruct (is_old n d i) eqn:E.
  - rewrite decide_True by done. f_equal. apply IH. intros j Hj. apply H. by right.
  - rewrite decide_False by done. destruct (filter (fun i => is_old n d i = true) l) as [|j r] eqn:Ef; [done|]. exfalso.
    assert (j ∈ filter (fun i => is_old n d i = true) l) as [Hold Hj]%list_elem_of_filter by (rewrite Ef; by left).
    destruct (H i ltac:(by left)) as [[o k] Ei]. destruct (H j ltac:(by right)) as [[o' k'] Ej].
    rewrite Forall_forall in Hf. specialize (Hf j Hj _ _ Ei Ej). cbn in Hf.
    unfold is_old in *. rewrite Ei in E. rewrite Ej in Hold. bool_prop. lia.
Qed.

Lemma repr_length c l : repr c l -> (length l <= length (item_pool c))%nat.
Proof.
  intros Hr. rewrite <- (length_seq (length (item_pool c)) 0). apply submseteq_length.
  apply NoDup_submseteq; [apply Hr|]. intros i Hi. apply elem_of_seq. pose proof (repr_in _ _ _ Hr Hi). lia.
Qed.

(** the linked list implements a plain list of items from the least to the
    most recently used: inserting appends a fresh item, touching with a later
    tick moves an item to the end and with an earlier one does nothing, freeing
    removes it, no operation changes another item; and visiting the items below
    a tick shows the callback the objects from the oldest on up to the first
    that is too recent (all old ones, when the ticks ascend), also while the
    callback frees what it is shown. *)
Theorem LRU_refines_list c l (Hr : repr c l) :
  (forall o n, exists i c', Insert o n c = Done (i, c') /\ (i ∉ l) /\ repr c' (l ++ [i]) /\
    forall j, j ∈ l ++ [i] -> data c' j = if bool_decide (j = i) then Some (o, n) else data c j) /\
  (forall l1 i l2 o old n, l = l1 ++ i :: l2 -> data c i = Some (o, old) ->
    if n <=? old then Touch i n c = Done c else
    exists c', Touch i n c = Done c' /\ repr c' (l1 ++ l2 ++ [i]) /\
      forall j, data c' j = if bool_decide (j = i) then Some (o, n) else data c j) /\
  (forall l1 i l2, l = l1 ++ i :: l2 ->
    exists c', Free i c = Done c' /\ repr c' (l1 ++ l2) /\ forall j, data c' j = data c j) /\
  (forall drop id_of n, 0 <= n < 9223372036854775808 -> ticks_ok (data c) l ->
    (forall i o k, i ∈ l -> data c i = Some (o, k) -> id_of o = i) ->
    (exists c', ForEachItemBelow n (evict drop id_of) c = Done (objects_of (data c) (old_prefix n (data c) l), c') /\
      repr c' (keep drop (data c) (old_prefix n (data c) l) ++ old_rest n (data c) l) /\ forall j, data c' j = data c j) /\
    (StronglySorted (fun i j => forall a b, data c i = Some a -> data c j = Some b -> snd a <= snd b) l ->
      old_prefix n (data c) l = filter (fun i => is_old n (data c) i = true) l)).
Proof.
  split_and!.
  - intros o n. by apply Insert_ok.
  - intros l1 i l2 o old n ->. by apply Touch_ok.
  - intros l1 i l2 ->. by apply Free_ok.
  - intros drop id_of n Hn Ht Hid. split.
    + unfold ForEachItemBelow. rewrite (re_first _ _ Hr). apply (items_for_each_ok drop id_of n _ c []); try done. by apply repr_length.
    + apply old_prefix_all. intros i Hi. unfold data. apply fmap_is_Some. by apply (linked_in _ l), Hi; apply Hr.
Qed.

End Facts.

Lemma empty_repr {T} : repr (@empty T) [].
Proof.
  split; cbn; try done; [constructor|by intros [|]|]. split; [constructor|]. intros i. rewrite !elem_of_nil. lia.
Qed.

Lemma LRU_refines_list_witness : exists i c', Insert "image"%string 5 empty = Done (i, c') /\ (i ∉ @nil nat) /\ repr c' ([] ++ [i]) /\
  forall j, j ∈ [] ++ [i] -> data c' j = if bool_decide (j = i) then Some ("image"%string, 5) else data empty j.
Proof. apply (LRU_refines_list (@empty string) [] empty_repr). Defined.
