(* ===== verification/SleepQueue.v ===== *)
(** * Sleep queues ([core/libraries/kernel/threads/sleepq.{h,cpp}])

    Threads blocked on a condition variable are kept in a hash table of queues.
    A queue object belongs to a thread while the thread runs; the first thread
    that blocks on a channel lends its object to the channel, the later ones put
    theirs on the object's free list, and a thread that leaves takes one back.
    The list hooks of the objects are intrusive: a list is the list of the
    addresses of its members. *)

From stdpp Require Import gmap.
From S2P Require Import Prelude.

Definition HASHSHIFT : Z := 9.
Definition HASHSIZE : Z := Z.shiftl 1 HASHSHIFT.

Definition SC_HASH (wchan : Z) : Z :=
  u32 (Z.land (Z.lxor (Z.shiftr wchan 3) (Z.shiftr wchan (HASHSHIFT + 3))) (HASHSIZE - 1)).

Record SleepQueue := mkQueue { sq_blocked : list Z; sq_freeq : list Z; sq_wchan : Z }.

(** The fields of a [Pthread] the queues use; the null channel is 0. *)
Record Slot := mkSlot { sleepqueue : option Z; wchan : Z }.

(** The queue objects by address, the chains by hash, the threads. *)
Record Table := mkTable { queues : gmap Z SleepQueue; sc_table : gmap Z (list Z); slots : gmap Z Slot }.

Definition chain (h : Z) (T : Table) : list Z := default [] (sc_table T !! h).
Definition with_queue (a : Z) (q : SleepQueue) (T : Table) : Table := mkTable (<[a := q]> (queues T)) (sc_table T) (slots T).
Definition with_chain (h : Z) (l : list Z) (T : Table) : Table := mkTable (queues T) (<[h := l]> (sc_table T)) (slots T).
Definition with_slot (td : Z) (s : Slot) (T : Table) : Table := mkTable (queues T) (sc_table T) (<[td := s]> (slots T)).

(** A thread is created with a queue object of its own ([ThreadState::Alloc]). *)
Definition add_thread (td a : Z) (T : Table) : Table :=
  with_slot td (mkSlot (Some a) 0) (with_queue a (mkQueue [] [] 0) T).

(** ** Intrusive lists *)

Definition remove_all (a : Z) (l : list Z) : list Z := filter (fun b => b <> a) l.

(** [unlink]: take the object out of the list it is in, if any. *)
Definition unlink (a : Z) (T : Table) : Table :=
  mkTable ((fun q => mkQueue (sq_blocked q) (remove_all a (sq_freeq q)) (sq_wchan q)) <$> queues T)
    (remove_all a <$> sc_table T) (slots T).

(** Inserting an object asserts that its hook is not in use. *)
Definition linked (a : Z) (T : Table) : bool :=
  existsb (fun hl : Z * list Z => bool_decide (a ∈ hl.2)) (map_to_list (sc_table T))
  || existsb (fun bq : Z * SleepQueue => bool_decide (a ∈ sq_freeq bq.2)) (map_to_list (queues T)).

(** ** The operations *)

Fixpoint lookup_in (l : list Z) (wc : Z) (T : Table) : outcome (option Z) :=
  match l with
  | [] => Done None
  | a :: l =>
      match queues T !! a with
      | None => Raised Undefined
      | Some q => if sq_wchan q =? wc then Done (Some a) else lookup_in l wc T
      end
  end.

Definition SleepqLookup (wc : Z) (T : Table) : outcome (option Z) := lookup_in (chain (SC_HASH wc) T) wc T.

Definition SleepqAdd (wc td : Z) (T : Table) : outcome Table :=
  let! found := SleepqLookup wc T in
  let! s := of_option (slots T !! td) in
  let! a := of_option (sleepqueue s) in
  oassert (negb (linked a T)) ;;!
  let sq := default a found in
  let! T :=
    match found with
    | Some sq =>
        let! q := of_option (queues T !! sq) in
        Done (with_queue sq (mkQueue (sq_blocked q) (a :: sq_freeq q) (sq_wchan q)) T)
    | None =>
        let! q := of_option (queues T !! a) in
        let T := with_chain (SC_HASH wc) (a :: chain (SC_HASH wc) T) T in
        Done (with_queue a (mkQueue (sq_blocked q) (sq_freeq q) wc) T)
    end in
  let! q := of_option (queues T !! sq) in
  let T := with_slot td (mkSlot None wc) T in
  Done (with_queue sq (mkQueue (td :: sq_blocked q) (sq_freeq q) (sq_wchan q)) T).

Definition SleepqRemove (sq td : Z) (T : Table) : outcome (bool * Table) :=
  let! q := of_option (queues T !! sq) in
  let! _ := of_option (slots T !! td) in
  let blocked := remove_all td (sq_blocked q) in
  let T := with_queue sq (mkQueue blocked (sq_freeq q) (sq_wchan q)) T in
  match blocked with
  | [] => Done (false, with_slot td (mkSlot (Some sq) 0) (unlink sq T))
  | _ :: _ =>
      match sq_freeq q with
      | [] => Raised Undefined
      | a :: rest =>
          let T := with_queue sq (mkQueue blocked rest (sq_wchan q)) T in
          Done (true, with_slot td (mkSlot (Some a) 0) T)
      end
  end.

Section Drop.
Context {S : Type} (callback : Z -> S -> outcome S).

(** The loop over the remaining threads, each of which takes the next object of
    the free list. *)
Fixpoint drop_rest (l free : list Z) (T : Table) (s : S) : outcome (Table * S) :=
  match l with
  | [] => Done (T, s)
  | td :: l =>
      let! s := callback td s in
      match free with
      | [] => Raised Undefined
      | a :: free =>
          let! _ := of_option (slots T !! td) in
          drop_rest l free (with_slot td (mkSlot (Some a) 0) T) s
      end
  end.

Definition SleepqDrop (sq : Z) (T : Table) (s : S) : outcome (Table * S) :=
  let! q := of_option (queues T !! sq) in
  match sq_blocked q with
  | [] => Done (T, s)
  | td :: l =>
      let T := unlink sq T in
      let! s := callback td s in
      let! _ := of_option (slots T !! td) in
      let T := with_slot td (mkSlot (Some sq) 0) T in
      let! '(T, s) := drop_rest l (sq_freeq q) T s in
      Done (with_queue sq (mkQueue [] [] (sq_wchan q)) T, s)
  end.

End Drop.
