(* ===== verification/SleepFacts.v ===== *)
(** * The sleep queues are a map from channels to stacks of threads

    The representation invariant [wf] assigns every queue object one place: a
    chain of the hash table, the free list of a chained object, or a thread.
    Under it each operation succeeds and has its effect on the lists of blocked
    threads ([waiters]) only. *)

From stdpp Require Import gmap.
From S2P Require Import Prelude SleepQueue.

Inductive Place := InChain (h : Z) | InFree (a : Z) | WithThread (td : Z) | Nowhere.

#[export] Instance Place_eq_dec : EqDecision Place.
Proof. solve_decision. Defined.

(** Where the objects are. *)
Record placed (role : Z -> Place) (T : Table) : Prop := {
  wf_chain h a : a ∈ chain h T <-> role a = InChain h;
  wf_chain_NoDup h : NoDup (chain h T);
  wf_free b q a : queues T !! b = Some q -> a ∈ sq_freeq q <-> role a = InFree b;
  wf_free_NoDup b q : queues T !! b = Some q -> NoDup (sq_freeq q);
  wf_thread td a : (exists s, slots T !! td = Some s /\ sleepqueue s = Some a) <-> role a = WithThread td;
  wf_object a : role a <> Nowhere -> is_Some (queues T !! a);
  wf_owner a b : role a = InFree b -> is_Some (queues T !! b) }.

(** What is in them. *)
Record filled (role : Z -> Place) (T : Table) : Prop := {
  wf_idle a q : queues T !! a = Some q -> (forall h, role a <> InChain h) -> sq_blocked q = [] /\ sq_freeq q = [];
  wf_queue a q h : queues T !! a = Some q -> role a = InChain h ->
    h = SC_HASH (sq_wchan q) /\ sq_wchan q <> 0 /\ length (sq_blocked q) = S (length (sq_freeq q)) /\ NoDup (sq_blocked q);
  wf_unique a b qa qb h h' : queues T !! a = Some qa -> queues T !! b = Some qb ->
    role a = InChain h -> role b = InChain h' -> sq_wchan qa = sq_wchan qb -> a = b;
  wf_slot td s : slots T !! td = Some s -> sleepqueue s = None <-> wchan s <> 0;
  wf_waits a q h td : queues T !! a = Some q -> role a = InChain h ->
    td ∈ sq_blocked q <-> exists s, slots T !! td = Some s /\ wchan s = sq_wchan q;
  wf_covers td s : slots T !! td = Some s -> wchan s <> 0 ->
    exists a q h, queues T !! a = Some q /\ role a = InChain h /\ sq_wchan q = wchan s }.

Record wf_at (role : Z -> Place) (T : Table) : Prop := { wf_placed :> placed role T; wf_filled :> filled role T }.

Definition wf (T : Table) : Prop := exists role, wf_at role T.

(** The threads blocked on a channel, the last one first. *)
Definition waiters (wc : Z) (T : Table) : list Z :=
  match SleepqLookup wc T with
  | Done (Some a) => default [] (sq_blocked <$> queues T !! a)
  | _ => []
  end.

(** The channel a thread is blocked on, 0 for none. *)
Definition channel (td : Z) (T : Table) : Z := default 0 (wchan <$> slots T !! td).

Lemma lookup_in_ok T wc l :
  (forall a, a ∈ l -> is_Some (queues T !! a)) ->
  match lookup_in l wc T with
  | Done (Some a) => a ∈ l /\ exists q, queues T !! a = Some q /\ sq_wchan q = wc
  | Done None => forall a q, a ∈ l -> queues T !! a = Some q -> sq_wchan q <> wc
  | Raised _ => False
  end.
Proof.
  induction l as [|a l IH]; intros Hl; cbn; [by intros ? ? ?%elem_of_nil|].
  destruct (Hl a) as [q Eq]; [apply list_elem_of_here|]. rewrite Eq.
  destruct (Z.eqb_spec (sq_wchan q) wc) as [E|E].
  - split; [apply list_elem_of_here|]. eauto.
  - specialize (IH ltac:(intros; apply Hl; by apply list_elem_of_further)).
    destruct (lookup_in l wc T) as [[b|]|]; [|intros b qb [->|Hb]%elem_of_cons Hq; [congruence|eauto]|done].
    destruct IH as [Hb ?]. split; [by apply list_elem_of_further|done].
Qed.

Lemma SleepqLookup_ok role T wc : wf_at role T ->
  (exists a q, SleepqLookup wc T = Done (Some a) /\ queues T !! a = Some q /\
     role a = InChain (SC_HASH wc) /\ sq_wchan q = wc) \/
  (SleepqLookup wc T = Done None /\ forall a q h, queues T !! a = Some q -> role a = InChain h -> sq_wchan q <> wc).
Proof.
  intros Hw. unfold SleepqLookup.
  pose proof (lookup_in_ok T wc (chain (SC_HASH wc) T)) as H.
  specialize (H ltac:(intros a Ha%(wf_chain _ _ Hw); apply (wf_object _ _ Hw); congruence)).
  destruct (lookup_in _ wc T) as [[a|]|]; [| |done].
  - left. destruct H as (Ha%(wf_chain _ _ Hw) & q & ? & ?). eauto 10.
  - right. split; [done|]. intros a q h Hq Hr E. destruct (wf_queue _ _ Hw _ _ _ Hq Hr) as [-> _]. subst wc.
    eapply H; eauto. by apply (wf_chain _ _ Hw).
Qed.

Lemma waiters_of role T a q h : wf_at role T -> queues T !! a = Some q -> role a = InChain h ->
  waiters (sq_wchan q) T = sq_blocked q.
Proof.
  intros Hw Hq Hr. unfold waiters.
  destruct (SleepqLookup_ok role T (sq_wchan q) Hw) as [(b & qb & -> & Hb & Hrb & E)|[_ Hn]]; [|by edestruct Hn].
  assert (b = a) as -> by (eapply (wf_unique _ _ Hw); eauto). rewrite Hq. done.
Qed.

Lemma waiters_none role T wc : wf_at role T ->
  (forall a q h, queues T !! a = Some q -> role a = InChain h -> sq_wchan q <> wc) -> waiters wc T = [].
Proof.
  intros Hw Hn. unfold waiters.
  destruct (SleepqLookup_ok role T wc Hw) as [(a & q & _ & Hq & Hr & E)|[-> _]]; [|done]. by edestruct Hn.
Qed.

(** A thread is among the waiters of a channel when it is blocked on it. *)
Lemma elem_of_waiters T wc td : wf T -> wc <> 0 -> td ∈ waiters wc T <-> channel td T = wc.
Proof.
  intros [role Hw] Hwc. unfold channel. split.
  - unfold waiters. destruct (SleepqLookup_ok role T wc Hw) as [(a & q & -> & Hq & Hr & E)|[-> _]]; [|by intros ?%elem_of_nil].
    rewrite Hq. cbn. intros (s & -> & ?)%(wf_waits _ _ Hw _ _ _ _ Hq Hr). cbn. congruence.
  - destruct (slots T !! td) as [s|] eqn:Es; cbn; [|done]. intros E.
    destruct (wf_covers _ _ Hw _ _ Es) as (a & q & h & Hq & Hr & Ew); [congruence|].
    rewrite <- E, <- Ew, (waiters_of role T a q h) by done. apply (wf_waits _ _ Hw _ _ _ _ Hq Hr). eauto.
Qed.

Lemma waiters_NoDup T wc : wf T -> NoDup (waiters wc T).
Proof.
  intros [role Hw]. unfold waiters.
  destruct (SleepqLookup_ok role T wc Hw) as [(a & q & -> & Hq & Hr & E)|[-> _]]; [|constructor].
  rewrite Hq. apply (wf_queue _ _ Hw _ _ _ Hq Hr).
Qed.

Lemma elem_of_remove_all a b l : b ∈ remove_all a l <-> b ∈ l /\ b <> a.
Proof. unfold remove_all. rewrite list_elem_of_filter. tauto. Qed.

Lemma remove_all_NoDup a l : NoDup l -> NoDup (remove_all a l).
Proof. apply NoDup_filter. Qed.

Lemma remove_all_absent a l : a ∉ l -> remove_all a l = l.
Proof.
  intros H. unfold remove_all. induction l as [|b l IH]; [done|]. rewrite filter_cons_True.
  - f_equal. apply IH. intros ?. apply H. by apply list_elem_of_further.
  - intros ->. apply H, list_elem_of_here.
Qed.

Lemma remove_all_length a l : NoDup l -> a ∈ l -> length l = S (length (remove_all a l)).
Proof.
  induction l as [|b l IH]; intros Hl Ha; [by apply elem_of_nil in Ha|]. apply NoDup_cons in Hl as [Hb Hl].
  apply elem_of_cons in Ha as [->|Ha].
  - unfold remove_all. rewrite filter_cons_False by tauto. fold (remove_all b l). by rewrite remove_all_absent.
  - unfold remove_all. rewrite filter_cons_True by (intros ->; done). cbn. f_equal. by apply IH.
Qed.

Lemma linked_false role T a td : wf_at role T -> role a = WithThread td -> linked a T = false.
Proof.
  intros Hw Hr. unfold linked. apply orb_false_iff. split; apply not_true_is_false; rewrite existsb_exists.
  - intros ([h l] & Hin%list_elem_of_In%elem_of_map_to_list & Hb%bool_decide_eq_true). cbn in Hb.
    assert (a ∈ chain h T) as Hc by (unfold chain; by rewrite Hin). apply (wf_chain _ _ Hw) in Hc. congruence.
  - intros ([b q] & Hin%list_elem_of_In%elem_of_map_to_list & Hb%bool_decide_eq_true). cbn in Hb.
    apply (wf_free _ _ Hw _ _ _ Hin) in Hb. congruence.
Qed.

(** ** Blocking a thread *)

(** Moving one object to another place. *)
Definition move (a : Z) (p : Place) (role : Z -> Place) : Z -> Place := fun b => if decide (b = a) then p else role b.

Lemma move_eq a p role : move a p role a = p.
Proof. unfold move. by rewrite decide_True. Qed.

Lemma move_ne a p role b : b <> a -> move a p role b = role b.
Proof. intros. unfold move. by rewrite decide_False. Qed.

(** Case analysis on whether [b] is the object that moved. *)
Ltac moved a b :=
  destruct (decide (b = a)) as [->|?];
  [rewrite ?move_eq, ?lookup_insert_eq in *|rewrite ?(move_ne a), ?(lookup_insert_ne _ a) in * by done].

(** Case analysis on whether a lookup meets an insertion at [k]. *)
Ltac inserted k x :=
  destruct (decide (x = k)) as [->|?];
  [rewrite ?lookup_insert_eq in *|rewrite ?(lookup_insert_ne _ k x) in * by done]; simplify_eq/=.

Section First.
Context (role : Z -> Place) (T : Table) (wc td a : Z) (q : SleepQueue).
Hypothesis Hw : wf_at role T.
Hypothesis Hwc : wc <> 0.
Hypothesis Hnew : forall b qb h, queues T !! b = Some qb -> role b = InChain h -> sq_wchan qb <> wc.
Hypothesis Htd : slots T !! td = Some (mkSlot (Some a) 0).
Hypothesis Hq : queues T !! a = Some q.

Definition joined : Table :=
  mkTable (<[a := mkQueue [td] [] wc]> (queues T)) (<[SC_HASH wc := a :: chain (SC_HASH wc) T]> (sc_table T))
    (<[td := mkSlot None wc]> (slots T)).

Lemma first_role : role a = WithThread td.
Proof. apply (wf_thread _ _ Hw). eauto. Qed.

Lemma chain_joined h : chain h joined = if decide (h = SC_HASH wc) then a :: chain h T else chain h T.
Proof. unfold chain at 1, joined. cbn. destruct (decide _) as [->|]; [by rewrite lookup_insert_eq|by rewrite lookup_insert_ne]. Qed.

Lemma joined_placed : placed (move a (InChain (SC_HASH wc)) role) joined.
Proof.
  pose proof first_role as Hra. split.
  - intros h b. rewrite chain_joined. destruct (decide _) as [->|]; rewrite ?elem_of_cons, (wf_chain _ _ Hw); moved a b.
    + split; [done|by left].
    + split; [by intros [?|?]|by right].
    + split; congruence.
    + done.
  - intros h. rewrite chain_joined. destruct (decide _) as [->|]; [|apply (wf_chain_NoDup _ _ Hw)].
    apply NoDup_cons. split; [|apply (wf_chain_NoDup _ _ Hw)]. rewrite (wf_chain _ _ Hw). congruence.
  - intros b qb c Hb. cbn in Hb. inserted a b.
    + split; [by intros ?%elem_of_nil|]. moved a c; [done|]. intros Hc.
      destruct (wf_idle _ _ Hw a q Hq ltac:(congruence)) as [_ Hf].
      apply (wf_free _ _ Hw _ _ _ Hq) in Hc. rewrite Hf in Hc. by apply elem_of_nil in Hc.
    + rewrite (wf_free _ _ Hw _ _ _ Hb). moved a c; [split; congruence|done].
  - intros b qb Hb. cbn in Hb. inserted a b; [constructor|]. by apply (wf_free_NoDup _ _ Hw _ _ Hb).
  - intros u b. cbn. inserted td u.
    + split; [by intros (s & [= <-] & ?)|]. moved a b; [done|]. intros (s & ? & ?)%(wf_thread _ _ Hw). by simplify_eq/=.
    + rewrite (wf_thread _ _ Hw). moved a b; [split; congruence|done].
  - intros b. cbn. moved a b; [eauto|]. apply (wf_object _ _ Hw).
  - intros c d Hc. cbn. moved a c; [done|]. inserted a d; [eauto|]. by apply (wf_owner _ _ Hw c).
Qed.

Lemma joined_filled : filled (move a (InChain (SC_HASH wc)) role) joined.
Proof.
  pose proof first_role as Hra. split; cbn [joined queues slots].
  - intros b qb Hb Hnc. inserted a b; [by edestruct Hnc; rewrite move_eq|].
    apply (wf_idle _ _ Hw _ _ Hb). intros h. specialize (Hnc h). by rewrite move_ne in Hnc.
  - intros b qb h Hb Hr. moved a b; [|by apply (wf_queue _ _ Hw _ _ _ Hb)].
    simplify_eq/=. split_and!; try done. apply NoDup_singleton.
  - intros b c qb qc h h' Hb Hc. moved a b; moved a c; try done; rewrite ?lookup_insert_eq in *;
      rewrite ?lookup_insert_ne in * by done; intros; simplify_eq/=; try by edestruct Hnew.
    eapply (wf_unique _ _ Hw b c); eauto.
  - intros u s. inserted td u; [by intros [= <-]|]. apply (wf_slot _ _ Hw).
  - intros b qb h u Hb Hr. moved a b.
    + simplify_eq/=. rewrite list_elem_of_singleton. inserted td u; [split; [eauto|done]|].
      split; [done|]. intros (s & Hs & Ew). subst wc.
      destruct (wf_covers _ _ Hw _ _ Hs Hwc) as (c & qc & h' & ? & ? & ?). by edestruct Hnew.
    + rewrite (wf_waits _ _ Hw _ _ _ _ Hb Hr). inserted td u; [|done]. rewrite Htd.
      destruct (wf_queue _ _ Hw _ _ _ Hb Hr) as (_ & ? & _).
      split; intros (s & [= <-] & ?); [by cbn in *|]. by edestruct Hnew.
  - intros u s Hs Hne. inserted td u.
    + eexists a, _, _. rewrite lookup_insert_eq, move_eq. done.
    + destruct (wf_covers _ _ Hw _ _ Hs Hne) as (b & qb & h & Hb & Hr & E).
      exists b, qb, h. assert (b <> a) by congruence. by rewrite lookup_insert_ne, move_ne.
Qed.

End First.

(** Blocking on a channel with waiters: the thread's object joins the free list. *)
Section Next.
Context (role : Z -> Place) (T : Table) (td a b h : Z) (q : SleepQueue).
Hypothesis Hw : wf_at role T.
Hypothesis Htd : slots T !! td = Some (mkSlot (Some a) 0).
Hypothesis Hq : queues T !! b = Some q.
Hypothesis Hb : role b = InChain h.

Definition queued : Table :=
  mkTable (<[b := mkQueue (td :: sq_blocked q) (a :: sq_freeq q) (sq_wchan q)]> (queues T)) (sc_table T)
    (<[td := mkSlot None (sq_wchan q)]> (slots T)).

Lemma next_role : role a = WithThread td.
Proof. apply (wf_thread _ _ Hw). eauto. Qed.

Lemma queued_placed : placed (move a (InFree b) role) queued.
Proof.
  pose proof next_role as Hra. split.
  - intros k c. change (chain k queued) with (chain k T). rewrite (wf_chain _ _ Hw). moved a c; [split; congruence|done].
  - intros k. apply (wf_chain_NoDup _ _ Hw).
  - intros c qc x Hc. cbn in Hc. inserted b c.
    + rewrite elem_of_cons, (wf_free _ _ Hw _ _ _ Hq). moved a x; [split; [done|by left]|]. split; [by intros [?|?]|by right].
    + rewrite (wf_free _ _ Hw _ _ _ Hc). moved a x; [split; congruence|done].
  - intros c qc Hc. cbn in Hc. inserted b c; [|by apply (wf_free_NoDup _ _ Hw _ _ Hc)].
    apply NoDup_cons. split; [rewrite (wf_free _ _ Hw _ _ _ Hq); congruence|by apply (wf_free_NoDup _ _ Hw _ _ Hq)].
  - intros u x. cbn. inserted td u.
    + split; [by intros (s & [= <-] & ?)|]. moved a x; [done|]. intros (s & ? & ?)%(wf_thread _ _ Hw). by simplify_eq/=.
    + rewrite (wf_thread _ _ Hw). moved a x; [split; congruence|done].
  - intros x Hx. cbn. inserted b x; [eauto|]. apply (wf_object _ _ Hw). moved a x; [congruence|done].
  - intros c d Hc. cbn. inserted b d; [eauto|]. moved a c; [congruence|]. by apply (wf_owner _ _ Hw c).
Qed.

Lemma queued_filled : filled (move a (InFree b) role) queued.
Proof.
  pose proof next_role as Hra. assert (b <> a) as Hba by congruence.
  destruct (wf_queue _ _ Hw _ _ _ Hq Hb) as (-> & Hnz & Hlen & Hnd).
  assert (td ∉ sq_blocked q) as Hnin.
  { intros (s & Hs & E)%(wf_waits _ _ Hw _ _ _ _ Hq Hb). rewrite Htd in Hs. by simplify_eq/=. }
  split; cbn [queued queues slots].
  - intros c qc Hc Hn. inserted b c; [by edestruct Hn; rewrite move_ne|].
    apply (wf_idle _ _ Hw _ _ Hc). intros k. specialize (Hn k). moved a c; congruence.
  - intros c qc k Hc Hr. inserted b c; [|moved a c; [done|by apply (wf_queue _ _ Hw _ _ _ Hc)]].
    rewrite move_ne in Hr by done. split_and!; [congruence|done|lia|by apply NoDup_cons].
  - intros c d qc qd k k' Hc Hd Hr Hr' E. moved a c; [done|]. moved a d; [done|].
    inserted b c; inserted b d; eapply (wf_unique _ _ Hw); eauto; congruence.
  - intros u s. inserted td u; [intros [= <-]; done|]. apply (wf_slot _ _ Hw).
  - intros c qc k u Hc Hr. moved a c; [done|]. inserted b c.
    + rewrite elem_of_cons, (wf_waits _ _ Hw _ _ _ _ Hq Hb). inserted td u; [split; [eauto|by left]|].
      split; [by intros [?|?]|by right].
    + rewrite (wf_waits _ _ Hw _ _ _ _ Hc Hr). inserted td u; [|done]. rewrite Htd.
      destruct (wf_queue _ _ Hw _ _ _ Hc Hr) as (_ & ? & _).
      split; intros (s & [= <-] & E); [by cbn in *|]. cbn in E. assert (c = b) by (eapply (wf_unique _ _ Hw); eauto; congruence). done.
  - intros u s Hs Hne. inserted td u.
    + eexists b, _, _. rewrite lookup_insert_eq, move_ne by done. done.
    + destruct (wf_covers _ _ Hw _ _ Hs Hne) as (c & qc & k & Hc & Hr & E). assert (c <> a) by congruence.
      destruct (decide (c = b)) as [->|].
      * eexists b, _, _. rewrite lookup_insert_eq, move_ne by done. split_and!; [done|done|]. cbn. congruence.
      * exists c, qc, k. by rewrite lookup_insert_ne, move_ne.
Qed.

End Next.

(** ** Waking a thread *)

(** One of several waiters leaves and takes an object of the free list. *)
Section Leave.
Context (role : Z -> Place) (T : Table) (td a b h : Z) (rest : list Z) (q : SleepQueue).
Hypothesis Hw : wf_at role T.
Hypothesis Hq : queues T !! b = Some q.
Hypothesis Hb : role b = InChain h.
Hypothesis Htd : td ∈ sq_blocked q.
Hypothesis Hf : sq_freeq q = a :: rest.

Definition left_one : Table :=
  mkTable (<[b := mkQueue (remove_all td (sq_blocked q)) rest (sq_wchan q)]> (queues T)) (sc_table T)
    (<[td := mkSlot (Some a) 0]> (slots T)).

Lemma leave_role : role a = InFree b.
Proof. apply (wf_free _ _ Hw _ _ _ Hq). rewrite Hf. apply list_elem_of_here. Qed.

Lemma leave_rest : (a ∉ rest) /\ NoDup rest.
Proof. apply NoDup_cons. rewrite <- Hf. apply (wf_free_NoDup _ _ Hw _ _ Hq). Qed.

Lemma left_one_placed : placed (move a (WithThread td) role) left_one.
Proof.
  pose proof leave_role as Hra. destruct leave_rest as [Har Hnr]. split.
  - intros k c. change (chain k left_one) with (chain k T). rewrite (wf_chain _ _ Hw). moved a c; [split; congruence|done].
  - intros k. apply (wf_chain_NoDup _ _ Hw).
  - intros c qc x Hc. cbn in Hc. inserted b c.
    + pose proof (wf_free _ _ Hw _ _ x Hq) as E. rewrite Hf, elem_of_cons in E. moved a x; [split; [done|congruence]|].
      rewrite <- E. split; [by right|by intros [?|?]].
    + rewrite (wf_free _ _ Hw _ _ _ Hc). moved a x; [split; congruence|done].
  - intros c qc Hc. cbn in Hc. inserted b c; [done|by apply (wf_free_NoDup _ _ Hw _ _ Hc)].
  - intros u x. cbn. inserted td u.
    + split; [intros (s & [= <-] & [= <-]); by rewrite move_eq|]. moved a x; [eauto|].
      intros (s & Hs & E)%(wf_thread _ _ Hw). apply (wf_waits _ _ Hw _ _ _ _ Hq Hb) in Htd as (s' & Hs' & E').
      rewrite Hs in Hs'. injection Hs' as <-. destruct (wf_queue _ _ Hw _ _ _ Hq Hb) as (_ & ? & _).
      assert (sleepqueue s = None) by (apply (wf_slot _ _ Hw _ _ Hs); congruence). congruence.
    + rewrite (wf_thread _ _ Hw). moved a x; [split; congruence|done].
  - intros x Hx. cbn. inserted b x; [eauto|]. apply (wf_object _ _ Hw). moved a x; [congruence|done].
  - intros c d Hc. cbn. inserted b d; [eauto|]. moved a c; [congruence|]. by apply (wf_owner _ _ Hw c).
Qed.

Lemma left_one_filled : filled (move a (WithThread td) role) left_one.
Proof.
  pose proof leave_role as Hra. assert (b <> a) as Hba by congruence.
  destruct (wf_queue _ _ Hw _ _ _ Hq Hb) as (-> & Hnz & Hlen & Hnd).
  split; cbn [left_one queues slots].
  - intros c qc Hc Hn. inserted b c; [by edestruct Hn; rewrite move_ne|].
    apply (wf_idle _ _ Hw _ _ Hc). intros k. specialize (Hn k). moved a c; congruence.
  - intros c qc k Hc Hr. inserted b c; [|moved a c; [done|by apply (wf_queue _ _ Hw _ _ _ Hc)]].
    rewrite move_ne in Hr by done. rewrite Hf in Hlen. pose proof (remove_all_length td _ Hnd Htd). cbn in Hlen.
    split_and!; [congruence|done|lia|by apply remove_all_NoDup].
  - intros c d qc qd k k' Hc Hd Hr Hr' E. moved a c; [done|]. moved a d; [done|].
    inserted b c; inserted b d; eapply (wf_unique _ _ Hw); eauto; congruence.
  - intros u s. inserted td u; [by intros [= <-]|]. apply (wf_slot _ _ Hw).
  - intros c qc k u Hc Hr. moved a c; [done|]. inserted b c.
    + rewrite elem_of_remove_all, (wf_waits _ _ Hw _ _ _ _ Hq Hb). inserted td u; [|split; [by intros [? _]|by split]].
      split; [by intros [_ ?]|]. intros (s & [= <-] & E). by cbn in E.
    + rewrite (wf_waits _ _ Hw _ _ _ _ Hc Hr). inserted td u; [|done].
      apply (wf_waits _ _ Hw _ _ _ _ Hq Hb) in Htd as (s & Hs & E). rewrite Hs.
      destruct (wf_queue _ _ Hw _ _ _ Hc Hr) as (_ & ? & _).
      split; intros (s' & [= <-] & E'); [|by cbn in E']. assert (c = b) by (eapply (wf_unique _ _ Hw); eauto; congruence). done.
  - intros u s Hs Hne. inserted td u. destruct (wf_covers _ _ Hw _ _ Hs Hne) as (c & qc & k & Hc & Hr & E).
    assert (c <> a) by congruence. destruct (decide (c = b)) as [->|].
    * eexists b, _, _. rewrite lookup_insert_eq, move_ne by done. split_and!; [done|done|]. cbn. congruence.
    * exists c, qc, k. by rewrite lookup_insert_ne, move_ne.
Qed.

End Leave.

(** The last waiter leaves and takes the object of the channel. *)
Section Last.
Context (role : Z -> Place) (T : Table) (td b h : Z) (q : SleepQueue).
Hypothesis Hw : wf_at role T.
Hypothesis Hq : queues T !! b = Some q.
Hypothesis Hb : role b = InChain h.
Hypothesis Htd : sq_blocked q = [td].

Definition left_last : Table :=
  mkTable (<[b := mkQueue [] [] (sq_wchan q)]> (queues T)) (<[h := remove_all b (chain h T)]> (sc_table T))
    (<[td := mkSlot (Some b) 0]> (slots T)).

Lemma last_free : sq_freeq q = [].
Proof.
  destruct (wf_queue _ _ Hw _ _ _ Hq Hb) as (_ & _ & Hlen & _). rewrite Htd in Hlen. by destruct (sq_freeq q).
Qed.

Lemma last_slot : exists s, slots T !! td = Some s /\ wchan s = sq_wchan q /\ sleepqueue s = None.
Proof.
  destruct (proj1 (wf_waits _ _ Hw _ _ _ td Hq Hb)) as (s & Hs & E); [rewrite Htd; apply list_elem_of_here|].
  exists s. split_and!; try done. apply (wf_slot _ _ Hw _ _ Hs). rewrite E. apply (wf_queue _ _ Hw _ _ _ Hq Hb).
Qed.

Lemma chain_left k : chain k left_last = if decide (k = h) then remove_all b (chain k T) else chain k T.
Proof. unfold chain at 1, left_last. cbn. destruct (decide _) as [->|]; [by rewrite lookup_insert_eq|by rewrite lookup_insert_ne]. Qed.

Lemma left_last_placed : placed (move b (WithThread td) role) left_last.
Proof.
  destruct last_slot as (s0 & Hs0 & Hw0 & Hn0). split.
  - intros k c. rewrite chain_left. destruct (decide _) as [->|]; rewrite ?elem_of_remove_all, (wf_chain _ _ Hw); moved b c.
    + split; [by intros [_ ?]|done].
    + split; [by intros [? _]|done].
    + split; congruence.
    + done.
  - intros k. rewrite chain_left. destruct (decide _); [apply remove_all_NoDup|]; apply (wf_chain_NoDup _ _ Hw).
  - intros c qc x Hc. cbn in Hc. inserted b c.
    + pose proof (wf_free _ _ Hw _ _ x Hq) as E. rewrite last_free in E. moved b x; [by split; [intros ?%elem_of_nil|]|done].
    + rewrite (wf_free _ _ Hw _ _ _ Hc). moved b x; [split; congruence|done].
  - intros c qc Hc. cbn in Hc. inserted b c; [constructor|by apply (wf_free_NoDup _ _ Hw _ _ Hc)].
  - intros u x. cbn. inserted td u.
    + split; [intros (s & [= <-] & [= <-]); by rewrite move_eq|]. moved b x; [eauto|].
      intros (s & Hs & E)%(wf_thread _ _ Hw). congruence.
    + rewrite (wf_thread _ _ Hw). moved b x; [split; congruence|done].
  - intros x Hx. cbn. inserted b x; [eauto|]. apply (wf_object _ _ Hw). by rewrite move_ne in Hx.
  - intros c d Hc. cbn. inserted b d; [eauto|]. moved b c; [done|]. by apply (wf_owner _ _ Hw c).
Qed.

Lemma left_last_filled : filled (move b (WithThread td) role) left_last.
Proof.
  destruct last_slot as (s0 & Hs0 & Hw0 & Hn0). destruct (wf_queue _ _ Hw _ _ _ Hq Hb) as (_ & Hnz & _ & _).
  split; cbn [left_last queues slots].
  - intros c qc Hc Hn. inserted b c; [done|]. apply (wf_idle _ _ Hw _ _ Hc). intros k. specialize (Hn k). by rewrite move_ne in Hn.
  - intros c qc k Hc Hr. moved b c; [done|]. by apply (wf_queue _ _ Hw _ _ _ Hc).
  - intros c d qc qd k k' Hc Hd Hr Hr' E. moved b c; [done|]. moved b d; [done|]. eapply (wf_unique _ _ Hw c d); eauto.
  - intros u s. inserted td u; [by intros [= <-]|]. apply (wf_slot _ _ Hw).
  - intros c qc k u Hc Hr. moved b c; [done|]. rewrite (wf_waits _ _ Hw _ _ _ _ Hc Hr). inserted td u; [|done].
    destruct (wf_queue _ _ Hw _ _ _ Hc Hr) as (_ & ? & _).
    split; intros (s' & Hs' & E'); simplify_eq/=. assert (c = b) by (eapply (wf_unique _ _ Hw); eauto; congruence). done.
  - intros u s Hs Hne. inserted td u. destruct (wf_covers _ _ Hw _ _ Hs Hne) as (c & qc & k & Hc & Hr & E).
    assert (c <> b).
    { intros ->. assert (u ∈ [td]) as ?%list_elem_of_singleton; [|done].
      rewrite <- Htd. apply (wf_waits _ _ Hw _ _ _ _ Hq Hb). exists s. split; [done|]. congruence. }
    exists c, qc, k. by rewrite lookup_insert_ne, move_ne.
Qed.

End Last.
