(* ===== verification/SleepSpec.v ===== *)
(** * What the sleep queues promise

    Each operation on a well-formed table, stated on [waiters] and [channel],
    and the property that they implement a map from channels to stacks. *)

From stdpp Require Import gmap.
From S2P Require Import Prelude SleepQueue SleepFacts.

(** Two tables with the same queue for a channel have the same waiters on it. *)
Lemma waiters_same role role' T T' wc : wf_at role T -> wf_at role' T' ->
  (forall c q k, queues T !! c = Some q -> role c = InChain k -> sq_wchan q = wc ->
     exists q' k', queues T' !! c = Some q' /\ role' c = InChain k' /\ sq_wchan q' = wc /\ sq_blocked q' = sq_blocked q) ->
  (forall c q' k', queues T' !! c = Some q' -> role' c = InChain k' -> sq_wchan q' = wc ->
     exists q k, queues T !! c = Some q /\ role c = InChain k /\ sq_wchan q = wc) ->
  waiters wc T' = waiters wc T.
Proof.
  intros Hw Hw' Hto Hfrom. destruct (SleepqLookup_ok role T wc Hw) as [(a & q & _ & Hq & Hr & <-)|[_ Hn]].
  - destruct (Hto a q _ Hq Hr eq_refl) as (q' & k' & Hq' & Hr' & E & Eb).
    rewrite (waiters_of role T a q _ Hw Hq Hr), <- Eb, <- E. by apply (waiters_of role' T' a q' k').
  - rewrite (waiters_none role T wc Hw Hn). apply (waiters_none role' T' wc Hw').
    intros c q' k' Hq' Hr' E. destruct (Hfrom c q' k' Hq' Hr' E) as (q & k & Hq & Hr & Ew). by eapply Hn.
Qed.

(** ** Blocking *)

Lemma joined_waiters role T wc td a q : wf_at role T -> wc <> 0 ->
  (forall b qb h, queues T !! b = Some qb -> role b = InChain h -> sq_wchan qb <> wc) ->
  slots T !! td = Some (mkSlot (Some a) 0) -> queues T !! a = Some q ->
  let T' := joined T wc td a in
  wf T' /\ waiters wc T' = td :: waiters wc T /\ (forall wc', wc' <> wc -> waiters wc' T' = waiters wc' T).
Proof.
  intros Hw Hwc Hnew Htd Hq T'.
  assert (wf_at (move a (InChain (SC_HASH wc)) role) T') as Hw'
    by (split; [eapply joined_placed|eapply joined_filled]; eauto).
  assert (role a = WithThread td) as Hra by (by eapply first_role).
  split_and!; [by eexists| |].
  - rewrite (waiters_none role T wc Hw Hnew). eapply (waiters_of _ _ a (mkQueue [td] [] wc)); [done| |by rewrite move_eq].
    cbn. by rewrite lookup_insert_eq.
  - intros wc' Hne. eapply waiters_same; [done|done| |].
    + intros c qc k Hc Hr E. assert (c <> a) by congruence. exists qc, k. cbn. by rewrite lookup_insert_ne, move_ne.
    + intros c qc k Hc Hr E. cbn in Hc. inserted a c. rewrite move_ne in Hr by done. eauto.
Qed.

Lemma queued_waiters role T td a b h q : wf_at role T ->
  slots T !! td = Some (mkSlot (Some a) 0) -> queues T !! b = Some q -> role b = InChain h ->
  let T' := queued T td a b q in
  wf T' /\ waiters (sq_wchan q) T' = td :: waiters (sq_wchan q) T /\
  (forall wc', wc' <> sq_wchan q -> waiters wc' T' = waiters wc' T).
Proof.
  intros Hw Htd Hq Hb T'.
  assert (wf_at (move a (InFree b) role) T') as Hw' by (split; [eapply queued_placed|eapply queued_filled]; eauto).
  assert (role a = WithThread td) as Hra by (by eapply next_role). assert (b <> a) by congruence.
  split_and!; [by eexists| |].
  - rewrite (waiters_of role T b q h Hw Hq Hb). eapply (waiters_of _ T' b (mkQueue (td :: sq_blocked q) _ (sq_wchan q)));
      [done| |by rewrite move_ne]. cbn. by rewrite lookup_insert_eq.
  - intros wc' Hne. eapply waiters_same; [done|done| |].
    + intros c qc k Hc Hr E. assert (c <> b) by congruence. assert (c <> a) by congruence. exists qc, k. cbn.
      by rewrite lookup_insert_ne, move_ne.
    + intros c qc k Hc Hr E. cbn in Hc. inserted b c. moved a c; [done|]. eauto.
Qed.

Lemma SleepqAdd_ok T wc td s : wf T -> wc <> 0 -> slots T !! td = Some s -> wchan s = 0 ->
  exists T', SleepqAdd wc td T = Done T' /\ wf T' /\ slots T' = <[td := mkSlot None wc]> (slots T) /\
    waiters wc T' = td :: waiters wc T /\ (forall wc', wc' <> wc -> waiters wc' T' = waiters wc' T).
Proof.
  intros [role Hw] Hwc Hs H0. destruct s as [[a|] w]; cbn in H0; subst w.
  2: { destruct (wf_slot _ _ Hw _ _ Hs) as [E _]. by destruct (E eq_refl). }
  assert (role a = WithThread td) as Hra by (apply (wf_thread _ _ Hw); eauto).
  destruct (wf_object _ _ Hw a) as [qa Hqa]; [congruence|].
  unfold SleepqAdd, with_queue, with_slot, with_chain. rewrite Hs. pose proof (linked_false role T a td Hw Hra) as Hl.
  destruct (SleepqLookup_ok role T wc Hw) as [(b & q & -> & Hq & Hr & <-)|[-> Hnew]];
    cbn [obind of_option sleepqueue]; rewrite Hl; cbn [obind oassert negb].
  - rewrite Hq. cbn. rewrite lookup_insert_eq. cbn. rewrite insert_insert_eq.
    destruct (queued_waiters role T td a b _ q Hw Hs Hq Hr) as (? & ? & ?). by eexists.
  - rewrite Hqa. cbn. rewrite lookup_insert_eq. cbn. rewrite insert_insert_eq.
    destruct (wf_idle _ _ Hw a qa Hqa ltac:(congruence)) as [-> ->].
    destruct (joined_waiters role T wc td a qa Hw Hwc Hnew Hs Hqa) as (? & ? & ?). by eexists.
Qed.

(** ** Waking *)

Lemma unlink_chained role T b h : placed role T -> role b = InChain h ->
  unlink b T = mkTable (queues T) (<[h := remove_all b (chain h T)]> (sc_table T)) (slots T).
Proof.
  intros Hp Hb. unfold unlink. f_equal; apply map_eq; intros k.
  - rewrite lookup_fmap. destruct (queues T !! k) as [[bl fr w]|] eqn:Hk; simpl; [|done].
    rewrite remove_all_absent; [done|]. intros Hin. apply (wf_free _ _ Hp _ _ _ Hk) in Hin. congruence.
  - rewrite lookup_fmap. assert (b ∈ chain h T) as Hin by (by apply (wf_chain _ _ Hp)). inserted h k.
    + unfold chain in *. destruct (sc_table T !! h); [done|]. by apply elem_of_nil in Hin.
    + destruct (sc_table T !! k) as [l|] eqn:Hk; simpl; [|done]. rewrite remove_all_absent; [done|].
      intros Hl. assert (b ∈ chain k T) as Hc by (unfold chain; by rewrite Hk). apply (wf_chain _ _ Hp) in Hc. congruence.
Qed.

Lemma placed_with_blocked role T b q bl w : placed role T -> queues T !! b = Some q ->
  placed role (with_queue b (mkQueue bl (sq_freeq q) w) T).
Proof.
  intros [H1 H2 H3 H4 H5 H6 H7] Hq. split; cbn [with_queue queues slots]; auto.
  - intros c qc a Hc. inserted b c; eauto.
  - intros c qc Hc. inserted b c; eauto.
  - intros a Ha. inserted b a; eauto.
  - intros a c Ha. inserted b c; eauto.
Qed.

Lemma left_last_waiters role T td b h q : wf_at role T -> queues T !! b = Some q -> role b = InChain h ->
  sq_blocked q = [td] ->
  let T' := left_last T td b h q in
  wf T' /\ waiters (sq_wchan q) T' = [] /\ (forall wc', wc' <> sq_wchan q -> waiters wc' T' = waiters wc' T).
Proof.
  intros Hw Hq Hb Htd T'.
  assert (wf_at (move b (WithThread td) role) T') as Hw' by (split; [eapply left_last_placed|eapply left_last_filled]; eauto).
  split_and!; [by eexists| |].
  - eapply waiters_none; [done|]. intros c qc k Hc Hr E. cbn in Hc. moved b c; [done|].
    assert (c = b); [|done]. eapply (wf_unique _ _ Hw); eauto.
  - intros wc' Hne. eapply waiters_same; [done|done| |].
    + intros c qc k Hc Hr E. assert (c <> b) by congruence. exists qc, k. cbn. by rewrite lookup_insert_ne, move_ne.
    + intros c qc k Hc Hr E. cbn in Hc. moved b c; [done|]. eauto.
Qed.

Lemma left_one_waiters role T td a b h rest q : wf_at role T -> queues T !! b = Some q -> role b = InChain h ->
  td ∈ sq_blocked q -> sq_freeq q = a :: rest ->
  let T' := left_one T td a b rest q in
  wf_at (move a (WithThread td) role) T' /\ waiters (sq_wchan q) T' = remove_all td (sq_blocked q) /\
  (forall wc', wc' <> sq_wchan q -> waiters wc' T' = waiters wc' T).
Proof.
  intros Hw Hq Hb Htd Hf T'.
  assert (wf_at (move a (WithThread td) role) T') as Hw' by (split; [eapply left_one_placed|eapply left_one_filled]; eauto).
  assert (role a = InFree b) as Hra by (by eapply leave_role). assert (b <> a) by congruence.
  split_and!; [done| |].
  - eapply (waiters_of _ T' b (mkQueue (remove_all td (sq_blocked q)) rest (sq_wchan q))); [done| |by rewrite move_ne].
    cbn. by rewrite lookup_insert_eq.
  - intros wc' Hne. eapply waiters_same; [done|done| |].
    + intros c qc k Hc Hr E. assert (c <> b) by congruence. assert (c <> a) by congruence. exists qc, k. cbn.
      by rewrite lookup_insert_ne, move_ne.
    + intros c qc k Hc Hr E. cbn in Hc. inserted b c. moved a c; [done|]. eauto.
Qed.

(** A channel that is found has waiters. *)
Lemma SleepqLookup_found T wc sq : wf T -> SleepqLookup wc T = Done (Some sq) ->
  exists role q h, wf_at role T /\ queues T !! sq = Some q /\ role sq = InChain h /\ sq_wchan q = wc /\ wc <> 0 /\
    waiters wc T = sq_blocked q /\ sq_blocked q <> [].
Proof.
  intros [role Hw] E. destruct (SleepqLookup_ok role T wc Hw) as [(a & q & Ea & Hq & Hr & Ew)|[En _]]; [|congruence].
  assert (a = sq) as -> by congruence. destruct (wf_queue _ _ Hw _ _ _ Hq Hr) as (_ & Hnz & Hlen & _).
  exists role, q, (SC_HASH wc). split_and!; auto; [congruence|rewrite <- Ew; by eapply waiters_of|].
  intros Hb. by rewrite Hb in Hlen.
Qed.

Lemma SleepqLookup_none T wc : wf T -> SleepqLookup wc T = Done None -> waiters wc T = [].
Proof. intros _ E. unfold waiters. by rewrite E. Qed.

Lemma SleepqRemove_ok T wc sq td : wf T -> SleepqLookup wc T = Done (Some sq) -> td ∈ waiters wc T ->
  exists T' a, SleepqRemove sq td T = Done (negb (bool_decide (waiters wc T' = [])), T') /\ wf T' /\
    slots T' = <[td := mkSlot (Some a) 0]> (slots T) /\
    waiters wc T' = remove_all td (waiters wc T) /\ (forall wc', wc' <> wc -> waiters wc' T' = waiters wc' T).
Proof.
  intros Hwf E Hin. destruct (SleepqLookup_found T wc sq Hwf E) as (role & q & h & Hw & Hq & Hr & <- & Hnz & -> & Hne).
  rewrite (waiters_of role T sq q h) in Hin by done.
  destruct (proj1 (wf_waits _ _ Hw _ _ _ td Hq Hr) Hin) as (s & Hs & _).
  destruct (wf_queue _ _ Hw _ _ _ Hq Hr) as (_ & _ & Hlen & Hnd). pose proof (remove_all_length td _ Hnd Hin) as Hl.
  unfold SleepqRemove. rewrite Hq, Hs. cbn [of_option obind].
  destruct (sq_freeq q) as [|a rest] eqn:Hf.
  - assert (sq_blocked q = [td]) as Hb.
    { destruct (sq_blocked q) as [|u [|]]; try discriminate Hlen. by apply list_elem_of_singleton in Hin as ->. }
    destruct (left_last_waiters role T td sq h q Hw Hq Hr Hb) as (Hw' & Hn & Ho).
    destruct (remove_all td (sq_blocked q)) as [|] eqn:Hrm; [|rewrite Hb in Hl; discriminate Hl].
    exists (left_last T td sq h q), sq. rewrite Hn. split_and!; try done.
    pose proof (placed_with_blocked role T sq q [] (sq_wchan q) Hw Hq) as Hp. rewrite Hf in Hp.
    by rewrite (unlink_chained role _ sq h Hp Hr).
  - destruct (left_one_waiters role T td a sq h rest q Hw Hq Hr Hin Hf) as (Hw' & Hn & Ho).
    destruct (remove_all td (sq_blocked q)) as [|u bl] eqn:Hrm; [rewrite Hlen in Hl; discriminate Hl|].
    exists (left_one T td a sq rest q), a. rewrite Hn. split_and!; try done; [|by eexists].
    unfold left_one, with_queue, with_slot. cbn. by rewrite insert_insert_eq, Hrm.
Qed.

(** ** Dropping a queue *)

Fixpoint call_all {S} (callback : Z -> S -> outcome S) (l : list Z) (s : S) : outcome S :=
  match l with
  | [] => Done s
  | td :: l => let! s := callback td s in call_all callback l s
  end.

(** The threads [l] take the objects [free]. *)
Fixpoint assign (l free : list Z) (m : gmap Z Slot) : gmap Z Slot :=
  match l, free with
  | td :: l, a :: free => assign l free (<[td := mkSlot (Some a) 0]> m)
  | _, _ => m
  end.

Lemma assign_out l free m td : td ∉ l -> assign l free m !! td = m !! td.
Proof.
  revert free m. induction l as [|u l IH]; intros [|a free] m; try done. intros [Hu Hl]%not_elem_of_cons. cbn.
  by rewrite IH, lookup_insert_ne.
Qed.

Lemma assign_in l free m td : td ∈ l -> length l = length free -> exists a, assign l free m !! td = Some (mkSlot (Some a) 0).
Proof.
  revert free m. induction l as [|u l IH]; intros [|a free] m Hin Hlen; try done; [by apply elem_of_nil in Hin|]. cbn.
  destruct (decide (td ∈ l)) as [Hl|Hl]; [apply IH; [done|by injection Hlen]|].
  apply elem_of_cons in Hin as [->|?]; [|done]. exists a. rewrite assign_out by done. by rewrite lookup_insert_eq.
Qed.

Lemma assign_insert l free m td x : td ∉ l -> assign l free (<[td := x]> m) = <[td := x]> (assign l free m).
Proof.
  revert free m. induction l as [|u l IH]; intros [|a free] m; try done. intros [Hu Hl]%not_elem_of_cons. cbn.
  by rewrite insert_insert_ne, IH.
Qed.

Lemma drop_rest_eq {S} (callback : Z -> S -> outcome S) l free T s :
  length l = length free -> (forall td, td ∈ l -> is_Some (slots T !! td)) ->
  drop_rest callback l free T s =
    (let! s' := call_all callback l s in Done (mkTable (queues T) (sc_table T) (assign l free (slots T)), s')).
Proof.
  revert free T s. induction l as [|td l IH]; intros [|a free] T s Hlen Hs; try done; [by destruct T|]. cbn.
  destruct (callback td s) as [s1|]; [|done]. cbn. destruct (Hs td) as [x ->]; [apply list_elem_of_here|]. cbn.
  rewrite IH; [done|by injection Hlen|]. intros u Hu. cbn. inserted td u; [by eexists|]. apply Hs. by apply list_elem_of_further.
Qed.

Lemma strip l : forall free role T b h q td0, wf_at role T -> queues T !! b = Some q -> role b = InChain h ->
  sq_blocked q = td0 :: l -> sq_freeq q = free ->
  let T' := mkTable (<[b := mkQueue [td0] [] (sq_wchan q)]> (queues T)) (sc_table T) (assign l free (slots T)) in
  exists role', wf_at role' T' /\ role' b = InChain h /\
    (forall wc', wc' <> sq_wchan q -> waiters wc' T' = waiters wc' T).
Proof.
  induction l as [|td l IH]; intros free role T b h q td0 Hw Hq Hr Hb Hf T'.
  - exists role. destruct (wf_queue _ _ Hw _ _ _ Hq Hr) as (_ & _ & Hlen & _). rewrite Hb, Hf in Hlen.
    destruct free; [|discriminate Hlen]. destruct q as [bl fr w]. cbn in *. subst. unfold T'. rewrite insert_id by done.
    cbn. by destruct T.
  - destruct (wf_queue _ _ Hw _ _ _ Hq Hr) as (_ & _ & Hlen & Hnd). rewrite Hb, Hf in *.
    destruct free as [|a free]; [discriminate Hlen|]. apply NoDup_cons in Hnd as [H0 [H1 _]%NoDup_cons].
    assert (td ∈ sq_blocked q) as Hin by (rewrite Hb; apply list_elem_of_further, list_elem_of_here).
    destruct (left_one_waiters role T td a b h free q Hw Hq Hr Hin Hf) as (Hw1 & _ & Ho1).
    assert (remove_all td (sq_blocked q) = td0 :: l) as Hrm.
    { rewrite Hb. unfold remove_all. apply not_elem_of_cons in H0 as [? _]. rewrite filter_cons_True by done.
      rewrite filter_cons_False by tauto. f_equal. by apply remove_all_absent. }
    destruct (IH free _ (left_one T td a b free q) b h (mkQueue (td0 :: l) free (sq_wchan q)) td0 Hw1) as (role' & Hw' & Hr' & Ho');
      [cbn; by rewrite lookup_insert_eq, Hrm|rewrite move_ne; [done|]|done|done|].
    { intros ->. assert (role a = InFree a) as E by (by eapply leave_role). congruence. }
    exists role'. cbn [left_one queues sc_table slots sq_wchan] in *. rewrite insert_insert_eq in *. split_and!; [done|done|].
    intros wc' Hne. unfold T'. cbn [assign]. by rewrite Ho', Ho1.
Qed.

Lemma SleepqDrop_ok {S} (callback : Z -> S -> outcome S) T wc sq s : wf T -> SleepqLookup wc T = Done (Some sq) ->
  exists T', SleepqDrop callback sq T s = (let! s' := call_all callback (waiters wc T) s in Done (T', s')) /\ wf T' /\
    waiters wc T' = [] /\ (forall wc', wc' <> wc -> waiters wc' T' = waiters wc' T) /\
    (forall td, is_Some (slots T' !! td) <-> is_Some (slots T !! td)) /\
    (forall td, channel td T' = if bool_decide (td ∈ waiters wc T) then 0 else channel td T).
Proof.
  intros Hwf E. destruct (SleepqLookup_found T wc sq Hwf E) as (role & q & h & Hw & Hq & Hr & <- & Hnz & -> & Hne).
  destruct (wf_queue _ _ Hw _ _ _ Hq Hr) as (_ & _ & Hlen & Hnd).
  destruct (sq_blocked q) as [|td0 l] eqn:Hb; [done|]. injection Hlen as Hlen. apply NoDup_cons in Hnd as [H0 Hnd].
  assert (forall td, td ∈ td0 :: l -> is_Some (slots T !! td)) as Hall.
  { intros td Hin. rewrite <- Hb in Hin. apply (wf_waits _ _ Hw _ _ _ td Hq Hr) in Hin as (x & -> & _). by eexists. }
  destruct (strip l _ role T sq h q td0 Hw Hq Hr Hb eq_refl) as (role' & Hw' & Hr' & Ho').
  set (T1 := mkTable (<[sq := mkQueue [td0] [] (sq_wchan q)]> (queues T)) (sc_table T) (assign l (sq_freeq q) (slots T))) in *.
  assert (queues T1 !! sq = Some (mkQueue [td0] [] (sq_wchan q))) as Hq1 by (cbn; by rewrite lookup_insert_eq).
  destruct (left_last_waiters role' T1 td0 sq h _ Hw' Hq1 Hr' eq_refl) as (Hwl & Hnl & Hol).
  exists (left_last T1 td0 sq h (mkQueue [td0] [] (sq_wchan q))). split_and!; try done.
  - unfold SleepqDrop. rewrite Hq. cbn [of_option obind]. rewrite Hb, (unlink_chained role T sq h Hw Hr). cbn [call_all].
    destruct (callback td0 s) as [s1|]; [|done]. cbn [obind slots]. destruct (Hall td0) as [x ->]; [apply list_elem_of_here|].
    cbn [of_option obind]. rewrite drop_rest_eq; [|done|].
    + destruct (call_all callback l s1); [cbn|done]. do 2 f_equal. unfold left_last, with_queue, with_slot. cbn.
      rewrite insert_insert_eq, assign_insert by done. done.
    + intros u Hu. cbn. inserted td0 u. apply Hall. by apply list_elem_of_further.
  - intros wc' Hne'. rewrite Hol by done. by apply Ho'.
  - intros td. cbn. inserted td0 td; [split; [intros _; apply Hall, list_elem_of_here|by eexists]|].
    destruct (decide (td ∈ l)) as [Hl|Hl]; [|by rewrite assign_out]. destruct (assign_in l (sq_freeq q) (slots T) td Hl Hlen) as [a ->].
    split; [intros _; apply Hall; by apply list_elem_of_further|by eexists].
  - intros td. unfold channel. cbn. inserted td0 td; [by rewrite bool_decide_true by apply list_elem_of_here|].
    destruct (decide (td ∈ l)) as [Hl|Hl].
    + rewrite bool_decide_true by (by apply list_elem_of_further). by destruct (assign_in l (sq_freeq q) (slots T) td Hl Hlen) as [a ->].
    + rewrite bool_decide_false by (by apply not_elem_of_cons). by rewrite assign_out.
Qed.

(** ** Threads *)

Definition no_queues : Table := mkTable ∅ ∅ ∅.

Lemma no_queues_wf : wf no_queues.
Proof.
  exists (fun _ => Nowhere). split; split; unfold chain; cbn; intros; rewrite ?lookup_empty in *; try done.
  - split; [by intros ?%elem_of_nil|done].
  - constructor.
  - split; [by intros (? & ? & _)|done].
Qed.

Section Thread.
Context (role : Z -> Place) (T : Table) (td a : Z).
Hypothesis Hw : wf_at role T.
Hypothesis Htd : slots T !! td = None.
Hypothesis Ha : queues T !! a = None.

Lemma fresh_role : role a = Nowhere.
Proof.
  destruct (decide (role a = Nowhere)) as [|H]; [done|]. apply (wf_object _ _ Hw) in H as [? ?]. congruence.
Qed.

Lemma add_thread_placed : placed (move a (WithThread td) role) (add_thread td a T).
Proof.
  pose proof fresh_role as Hra. split; unfold add_thread, with_slot, with_queue; cbn [queues slots].
  - intros h c. change (c ∈ chain h T <-> move a (WithThread td) role c = InChain h). rewrite (wf_chain _ _ Hw).
    moved a c; [split; congruence|done].
  - intros h. apply (wf_chain_NoDup _ _ Hw).
  - intros b q c Hb. inserted a b; [|rewrite (wf_free _ _ Hw _ _ _ Hb); moved a c; [split; congruence|done]].
    split; [by intros ?%elem_of_nil|]. moved a c; [done|].
    intros [? ?]%(wf_owner _ _ Hw). congruence.
  - intros b q Hb. inserted a b; [constructor|by apply (wf_free_NoDup _ _ Hw _ _ Hb)].
  - intros u c. inserted td u.
    + split; [intros (s & [= <-] & [= <-]); by rewrite move_eq|]. moved a c; [eauto|].
      intros (s & Hs & _)%(wf_thread _ _ Hw). congruence.
    + rewrite (wf_thread _ _ Hw). moved a c; [split; congruence|done].
  - intros c Hc. inserted a c; [eauto|]. apply (wf_object _ _ Hw). by rewrite move_ne in Hc.
  - intros c d Hc. moved a c; [done|]. inserted a d; [eauto|]. by apply (wf_owner _ _ Hw c).
Qed.

Lemma add_thread_filled : filled (move a (WithThread td) role) (add_thread td a T).
Proof.
  pose proof fresh_role as Hra. split; unfold add_thread, with_slot, with_queue; cbn [queues slots].
  - intros c q Hc Hn. inserted a c; [done|]. apply (wf_idle _ _ Hw _ _ Hc). intros h. specialize (Hn h). by rewrite move_ne in Hn.
  - intros c q h Hc Hr. moved a c; [done|]. by apply (wf_queue _ _ Hw _ _ _ Hc).
  - intros c d qc qd h h' Hc Hd Hr Hr' E. moved a c; [done|]. moved a d; [done|]. eapply (wf_unique _ _ Hw c d); eauto.
  - intros u s. inserted td u; [by intros [= <-]|]. apply (wf_slot _ _ Hw).
  - intros c q h u Hc Hr. moved a c; [done|]. rewrite (wf_waits _ _ Hw _ _ _ _ Hc Hr). inserted td u; [|done].
    destruct (wf_queue _ _ Hw _ _ _ Hc Hr) as (_ & ? & _). rewrite Htd.
    split; [by intros (s & ? & _)|]. intros (s & [= <-] & E). by cbn in E.
  - intros u s Hs Hne. inserted td u. destruct (wf_covers _ _ Hw _ _ Hs Hne) as (c & q & h & Hc & Hr & E).
    assert (c <> a) by congruence. exists c, q, h. by rewrite lookup_insert_ne, move_ne.
Qed.

Lemma add_thread_waiters wc : waiters wc (add_thread td a T) = waiters wc T.
Proof.
  pose proof fresh_role as Hra. eapply waiters_same; [done|split; [apply add_thread_placed|apply add_thread_filled]| |].
  - intros c q k Hc Hr E. assert (c <> a) by congruence. exists q, k. cbn. by rewrite lookup_insert_ne, move_ne.
  - intros c q k Hc Hr E. cbn in Hc. moved a c; [done|]. eauto.
Qed.

End Thread.

Lemma add_thread_ok T td a : wf T -> slots T !! td = None -> queues T !! a = None ->
  wf (add_thread td a T) /\ (forall wc, waiters wc (add_thread td a T) = waiters wc T).
Proof.
  intros [role Hw] Htd Ha. split; [|intros; by apply (add_thread_waiters role)].
  eexists. split; [by apply (add_thread_placed role)|by apply (add_thread_filled role)].
Qed.

(** ** The property *)

(** The tables of all histories, each with the map it stands for. *)
Inductive sleep_run : Table -> (Z -> list Z) -> Prop :=
  | run_init : sleep_run no_queues (fun _ => [])
  | run_thread T f td a : sleep_run T f -> slots T !! td = None -> queues T !! a = None ->
      sleep_run (add_thread td a T) f
  | run_add T f wc td T' : sleep_run T f -> wc <> 0 -> is_Some (slots T !! td) -> (forall c, c <> 0 -> td ∉ f c) ->
      SleepqAdd wc td T = Done T' -> sleep_run T' (fun c => if c =? wc then td :: f c else f c)
  | run_remove T f wc sq td b T' : sleep_run T f -> wc <> 0 -> SleepqLookup wc T = Done (Some sq) -> td ∈ f wc ->
      SleepqRemove sq td T = Done (b, T') -> sleep_run T' (fun c => if c =? wc then remove_all td (f c) else f c)
  | run_drop T f wc sq T' log : sleep_run T f -> wc <> 0 -> SleepqLookup wc T = Done (Some sq) ->
      SleepqDrop (fun td l => Done (l ++ [td])) sq T [] = Done (T', log) ->
      sleep_run T' (fun c => if c =? wc then [] else f c).

Lemma channel_slot T td s : slots T !! td = Some s -> wchan s = channel td T.
Proof. intros H. unfold channel. by rewrite H. Qed.

Lemma idle_slot T td : wf T -> is_Some (slots T !! td) -> (forall c, c <> 0 -> td ∉ waiters c T) ->
  exists s, slots T !! td = Some s /\ wchan s = 0.
Proof.
  intros Hw [s Hs] Hn. exists s. split; [done|]. destruct (decide (wchan s = 0)) as [|H]; [done|]. exfalso.
  eapply Hn; [exact H|]. apply elem_of_waiters; [done..|]. symmetry. by apply channel_slot.
Qed.

Lemma call_all_log l (log : list Z) : call_all (fun td l => Done (l ++ [td])) l log = Done (log ++ l).
Proof. revert log. induction l as [|td l IH]; intros log; cbn; [by rewrite app_nil_r|]. by rewrite IH, <- app_assoc. Qed.

Lemma sleep_run_ok T f : sleep_run T f -> wf T /\ forall wc, wc <> 0 -> waiters wc T = f wc.
Proof.
  induction 1 as [|T f td a _ [Hw Hf] Htd Ha|T f wc td T' _ [Hw Hf] Hwc Htd Hn E|T f wc sq td b T' _ [Hw Hf] Hwc Hl Hin E
    |T f wc sq T' log _ [Hw Hf] Hwc Hl E].
  - split; [apply no_queues_wf|done].
  - destruct (add_thread_ok T td a Hw Htd Ha) as [Hw' Hs]. split; [done|]. intros. rewrite Hs. by apply Hf.
  - destruct (idle_slot T td Hw Htd) as (s & Hs & H0); [intros c Hc; rewrite Hf by done; by apply Hn|].
    destruct (SleepqAdd_ok T wc td s Hw Hwc Hs H0) as (T1 & E1 & Hw' & _ & Ht & Ho).
    rewrite E1 in E. injection E as <-. split; [done|].
    intros c Hc. destruct (Z.eqb_spec c wc) as [->|]; [by rewrite Ht, Hf|by rewrite Ho, Hf].
  - rewrite <- Hf in Hin by done. destruct (SleepqRemove_ok T wc sq td Hw Hl Hin) as (T1 & a & E1 & Hw' & _ & Ht & Ho).
    rewrite E1 in E. injection E as _ <-. split; [done|]. intros c Hc. destruct (Z.eqb_spec c wc) as [->|]; [by rewrite Ht, Hf|by rewrite Ho, Hf].
  - destruct (SleepqDrop_ok (fun td l => Done (l ++ [td])) T wc sq [] Hw Hl) as (T1 & E1 & Hw' & Ht & Ho & _).
    rewrite E1, call_all_log in E. injection E as <- _. split; [done|].
    intros c Hc. destruct (Z.eqb_spec c wc) as [->|]; [done|by rewrite Ho, Hf].
Qed.

(** C12: after any history the table of sleep queues is a map from channels to
    the threads blocked on them, the last one first: a thread that is not
    blocked can always be added, a channel is found exactly when it has waiters,
    removing a waiter succeeds and tells whether others remain, dropping a
    channel visits its waiters in order; no thread waits twice, and threads
    that are awake hold queue objects of their own. *)
Theorem SleepQueue_refines T f (H : sleep_run T f) :
  (forall wc td, wc <> 0 -> is_Some (slots T !! td) -> (forall c, c <> 0 -> td ∉ f c) ->
     exists T', SleepqAdd wc td T = Done T') /\
  (forall wc, wc <> 0 -> exists o, SleepqLookup wc T = Done o /\ (o = None <-> f wc = [])) /\
  (forall wc sq td, wc <> 0 -> SleepqLookup wc T = Done (Some sq) -> td ∈ f wc ->
     exists T', SleepqRemove sq td T = Done (negb (bool_decide (remove_all td (f wc) = [])), T')) /\
  (forall wc sq, wc <> 0 -> SleepqLookup wc T = Done (Some sq) ->
     exists T', SleepqDrop (fun td l => Done (l ++ [td])) sq T [] = Done (T', f wc)) /\
  (forall c c' td, c <> 0 -> c' <> 0 -> td ∈ f c -> td ∈ f c' -> c = c' /\ NoDup (f c)) /\
  (forall td td' s s' a, slots T !! td = Some s -> slots T !! td' = Some s' ->
     sleepqueue s = Some a -> sleepqueue s' = Some a -> td = td').
Proof.
  destruct (sleep_run_ok T f H) as [Hw Hf]. split_and!.
  - intros wc td Hwc Htd Hn. destruct (idle_slot T td Hw Htd) as (s & Hs & H0); [intros c Hc; rewrite Hf by done; by apply Hn|].
    destruct (SleepqAdd_ok T wc td s Hw Hwc Hs H0) as (T1 & E1 & _). by exists T1.
  - intros wc Hwc. pose proof Hw as [role Hr]. destruct (SleepqLookup_ok role T wc Hr) as [(a & q & E & _)|[E _]]; eexists; (split; [exact E|]).
    + destruct (SleepqLookup_found T wc a Hw E) as (_ & q' & _ & _ & _ & _ & _ & _ & E' & ?). rewrite Hf in E' by done.
      split; [done|congruence].
    + split; [|done]. intros _. rewrite <- Hf by done. by apply SleepqLookup_none.
  - intros wc sq td Hwc Hl Hin. rewrite <- Hf in Hin by done.
    destruct (SleepqRemove_ok T wc sq td Hw Hl Hin) as (T1 & a & E1 & _ & _ & Ht & _). exists T1. by rewrite E1, Ht, Hf.
  - intros wc sq Hwc Hl. destruct (SleepqDrop_ok (fun td l => Done (l ++ [td])) T wc sq [] Hw Hl) as (T1 & E1 & _).
    exists T1. rewrite E1, call_all_log. cbn. by rewrite Hf.
  - intros c c' td Hc Hc'. rewrite <- !Hf by done. rewrite !elem_of_waiters by done. split; [congruence|by apply waiters_NoDup].
  - intros td td' s s' a Hs Hs' E E'. destruct Hw as [role Hr].
    assert (role a = WithThread td) by (apply (wf_thread _ _ Hr); eauto).
    assert (role a = WithThread td') by (apply (wf_thread _ _ Hr); eauto). congruence.
Qed.

(** Two threads blocked on one channel, the channel then dropped. *)
Definition result {A} (d : A) (m : outcome A) : A := match m with Done a => a | Raised _ => d end.
Definition demo_table : Table := add_thread 8 200 (add_thread 7 100 no_queues).
Definition demo_one : Table := result demo_table (SleepqAdd 64 7 demo_table).
Definition demo_two : Table := result demo_one (SleepqAdd 64 8 demo_one).

Lemma SleepQueue_refines_witness :
  SleepqLookup 64 demo_two = Done (Some 100) /\
  exists T, SleepqDrop (fun td l => Done (l ++ [td])) 100 demo_two [] = Done (T, [8; 7]).
Proof.
  assert (sleep_run demo_table (fun _ => [])) as H0.
  { repeat (apply run_thread; [|done|done]). apply run_init. }
  assert (sleep_run demo_one (fun c => if c =? 64 then [7] else [])) as H1.
  { eapply (run_add demo_table (fun _ => []) 64 7); [done|done|by eexists|by intros ? _ ?%elem_of_nil|by vm_compute]. }
  assert (sleep_run demo_two (fun c => if c =? 64 then 8 :: (if c =? 64 then [7] else []) else (if c =? 64 then [7] else []))) as H2.
  { eapply (run_add demo_one (fun c => if c =? 64 then [7] else []) 64 8); [done|done|by eexists| |by vm_compute].
    intros c _. destruct (c =? 64); [by intros ?%list_elem_of_singleton|by intros ?%elem_of_nil]. }
  split; [by vm_compute|].
  exact (proj1 (proj2 (proj2 (proj2 (SleepQueue_refines _ _ H2)))) 64 100 ltac:(done) ltac:(by vm_compute)).
Defined.
