(* ===== verification/Threads.v ===== *)
(** * The threads of the synchronisation primitives
    ([core/libraries/kernel/threads/pthread.h])

    Mutexes and condition variables share the threads' wake-up semaphores, the
    sleep queues and the deferral of wake-ups, so they share a state, [World].
    A thread inside a call has a program counter [Pc]; between two of its steps
    the other threads run.  A step covers a critical section (the sleep queue's
    spin lock, the static initialisation lock) or one operation on a host
    object. *)

From stdpp Require Import gmap pretty.
From S2P Require Import Prelude SleepQueue.

(** [m_lock] is the host mutex: the thread that holds it. *)
Record PthreadMutex := mkMutex {
  m_owner : option Z; m_count : Z; m_spinloops : Z; m_yieldloops : Z; m_protocol : Z; m_flags : Z;
  m_lock : option Z; m_name : string }.

Record PthreadCond := mkCond { has_user_waiters : bool; clock_id : Z; c_name : string }.

(** The other fields of [Pthread] the primitives use.  [wake_sema] is the value
    of the binary semaphore; [defer_waiters] lists the threads whose semaphores
    the array holds. *)
Record Thread := mkThread {
  wake_sema : Z; mutex_obj : option Z; will_sleep : bool; defer_waiters : list Z;
  cancel_enable : bool; cancel_pending : bool; no_cancel : bool }.

Definition new_thread : Thread := mkThread 0 None false [] true false false.

Definition MaxDeferWaiters : Z := 50.

Definition ShouldCancel (x : Thread) : bool := cancel_pending x && cancel_enable x && negb (no_cancel x).

(** [nullptr], [THR_RELTIME] with its microseconds, or a point in time. *)
Inductive Timeout := NoTimeout | RelTime (usec : Z) | AbsTime (tv_sec tv_nsec : Z).

(** What follows a lock: the return of the call, or the end of a wait, which
    restores the recursion count; a cancelled wait returns 0 in any case. *)
Inductive LockCont := LkReturn | LkCond (recurse error : Z) | LkCancel (recurse : Z).

(** What follows the release of a list of semaphores. *)
Inductive WakeCont := WkReturn | WkSleep (c m recurse : Z) (to : Timeout).

Inductive Pc :=
  | PcSpin (m count : Z) (to : Timeout) (k : LockCont)
  | PcYield (m count : Z) (to : Timeout) (k : LockCont)
  | PcBlock (m : Z) (to : Timeout) (k : LockCont)     (* in the host lock *)
  | PcOwn (m : Z) (k : LockCont)                      (* has the host lock, [m_owner] not yet written *)
  | PcDoze (m : Z) (k : LockCont)                     (* [DoSleep] of a relock with a time-out *)
  | PcUnlock (m : Z) (deferred : bool)                (* [m_owner] cleared, host lock not yet released *)
  | PcWake (l : list Z) (k : WakeCont)                (* releasing semaphores *)
  | PcGo (c m recurse : Z) (to : Timeout)             (* queued, about to [Sleep] *)
  | PcSleep (c m recurse : Z) (to : Timeout)          (* acquiring the own semaphore *)
  | PcAwake (c m recurse error : Z).                  (* [Sleep] returned *)

Record World := mkWorld {
  mutexes : gmap Z PthreadMutex; conds : gmap Z PthreadCond; table : Table; threads : gmap Z Thread; pcs : gmap Z Pc;
  mutex_handles : gmap Z Z; cond_handles : gmap Z Z; MutexId : Z; CondId : Z }.

Definition with_mutexes (f : gmap Z PthreadMutex -> gmap Z PthreadMutex) (w : World) : World :=
  mkWorld (f (mutexes w)) (conds w) (table w) (threads w) (pcs w) (mutex_handles w) (cond_handles w) (MutexId w) (CondId w).
Definition with_conds (f : gmap Z PthreadCond -> gmap Z PthreadCond) (w : World) : World :=
  mkWorld (mutexes w) (f (conds w)) (table w) (threads w) (pcs w) (mutex_handles w) (cond_handles w) (MutexId w) (CondId w).
Definition with_table (T : Table) (w : World) : World :=
  mkWorld (mutexes w) (conds w) T (threads w) (pcs w) (mutex_handles w) (cond_handles w) (MutexId w) (CondId w).
Definition with_threads (f : gmap Z Thread -> gmap Z Thread) (w : World) : World :=
  mkWorld (mutexes w) (conds w) (table w) (f (threads w)) (pcs w) (mutex_handles w) (cond_handles w) (MutexId w) (CondId w).
Definition with_pcs (f : gmap Z Pc -> gmap Z Pc) (w : World) : World :=
  mkWorld (mutexes w) (conds w) (table w) (threads w) (f (pcs w)) (mutex_handles w) (cond_handles w) (MutexId w) (CondId w).
Definition with_mutex_handle (h v : Z) (w : World) : World :=
  mkWorld (mutexes w) (conds w) (table w) (threads w) (pcs w) (<[h := v]> (mutex_handles w)) (cond_handles w) (MutexId w) (CondId w).
Definition with_cond_handle (h v : Z) (w : World) : World :=
  mkWorld (mutexes w) (conds w) (table w) (threads w) (pcs w) (mutex_handles w) (<[h := v]> (cond_handles w)) (MutexId w) (CondId w).
Definition with_MutexId (n : Z) (w : World) : World :=
  mkWorld (mutexes w) (conds w) (table w) (threads w) (pcs w) (mutex_handles w) (cond_handles w) n (CondId w).
Definition with_CondId (n : Z) (w : World) : World :=
  mkWorld (mutexes w) (conds w) (table w) (threads w) (pcs w) (mutex_handles w) (cond_handles w) (MutexId w) n.

Definition set_mutex (m : Z) (x : PthreadMutex) : World -> World := with_mutexes <[m := x]>.
Definition set_thread (t : Z) (x : Thread) : World -> World := with_threads <[t := x]>.

Definition set_owner (o : option Z) (x : PthreadMutex) : PthreadMutex :=
  mkMutex o (m_count x) (m_spinloops x) (m_yieldloops x) (m_protocol x) (m_flags x) (m_lock x) (m_name x).
Definition set_count (n : Z) (x : PthreadMutex) : PthreadMutex :=
  mkMutex (m_owner x) n (m_spinloops x) (m_yieldloops x) (m_protocol x) (m_flags x) (m_lock x) (m_name x).
Definition set_spins (n : Z) (x : PthreadMutex) : PthreadMutex :=
  mkMutex (m_owner x) (m_count x) n (m_yieldloops x) (m_protocol x) (m_flags x) (m_lock x) (m_name x).
Definition set_yields (n : Z) (x : PthreadMutex) : PthreadMutex :=
  mkMutex (m_owner x) (m_count x) (m_spinloops x) n (m_protocol x) (m_flags x) (m_lock x) (m_name x).
Definition set_flags (f : Z) (x : PthreadMutex) : PthreadMutex :=
  mkMutex (m_owner x) (m_count x) (m_spinloops x) (m_yieldloops x) (m_protocol x) f (m_lock x) (m_name x).
Definition set_lock (o : option Z) (x : PthreadMutex) : PthreadMutex :=
  mkMutex (m_owner x) (m_count x) (m_spinloops x) (m_yieldloops x) (m_protocol x) (m_flags x) o (m_name x).

Definition set_sema (n : Z) (x : Thread) : Thread :=
  mkThread n (mutex_obj x) (will_sleep x) (defer_waiters x) (cancel_enable x) (cancel_pending x) (no_cancel x).
Definition set_mutex_obj (o : option Z) (x : Thread) : Thread :=
  mkThread (wake_sema x) o (will_sleep x) (defer_waiters x) (cancel_enable x) (cancel_pending x) (no_cancel x).
Definition set_will_sleep (b : bool) (x : Thread) : Thread :=
  mkThread (wake_sema x) (mutex_obj x) b (defer_waiters x) (cancel_enable x) (cancel_pending x) (no_cancel x).
Definition set_defer (l : list Z) (x : Thread) : Thread :=
  mkThread (wake_sema x) (mutex_obj x) (will_sleep x) l (cancel_enable x) (cancel_pending x) (no_cancel x).
Definition set_cancel (b : bool) (x : Thread) : Thread :=
  mkThread (wake_sema x) (mutex_obj x) (will_sleep x) (defer_waiters x) (cancel_enable x) b (no_cancel x).

(** A step's result: the value the call returns, if it returns. *)
Definition goto (t : Z) (pc : Pc) (w : World) : outcome (option Z * World) := Done (None, with_pcs <[t := pc]> w).
Definition ret (t r : Z) (w : World) : outcome (option Z * World) := Done (Some r, with_pcs (delete t) w).

(** [release] of a thread's binary semaphore; its maximum is 1. *)
Definition release (u : Z) (w : World) : outcome World :=
  let! x := of_option (threads w !! u) in
  if wake_sema x =? 0 then Done (set_thread u (set_sema 1 x) w) else Raised Undefined.

Fixpoint release_semas (l : list Z) (w : World) : outcome World :=
  match l with
  | [] => Done w
  | u :: l => let! w := release u w in release_semas l w
  end.

(** [Pthread::WakeAll]: the semaphores leave the array and are released one by
    one. *)
Definition WakeAll (t : Z) (k : WakeCont) (w : World) : outcome (option Z * World) :=
  let! x := of_option (threads w !! t) in
  goto t (PcWake (defer_waiters x) k) (set_thread t (set_defer [] x) w).

(** A semaphore is released outside of any critical section. *)
Definition wake_step (t : Z) (l : list Z) (k : WakeCont) (w : World) : outcome (option Z * World) :=
  match l with
  | u :: l => let! w := release u w in goto t (PcWake l k) w
  | [] =>
      match k with
      | WkReturn => ret t 0 w
      | WkSleep c m recurse to => goto t (PcSleep c m recurse to) w
      end
  end.
