(* ===== verification/Mutex.v ===== *)
(** * Mutexes ([core/libraries/kernel/threads/mutex.cpp], [pthread.h])

    A mutex is a host mutex [m_lock] and the thread that owns it, which is
    written after the host mutex is taken and cleared before it is released. *)

From stdpp Require Import gmap pretty.
From S2P Require Import Prelude SleepQueue Threads.

Module PthreadMutexType.
Definition ErrorCheck : Z := 1.
Definition Recursive : Z := 2.
Definition Normal : Z := 3.
Definition AdaptiveNp : Z := 4.
Definition Max : Z := 5.
End PthreadMutexType.

Module PthreadMutexProt.
Definition None : Z := 0.
Definition Inherit : Z := 1.
Definition Protect : Z := 2.
End PthreadMutexProt.

Module PthreadMutexFlags.
Definition TypeMask : Z := 0xff.
Definition Deferred : Z := 0x200.
End PthreadMutexFlags.

Definition THR_MUTEX_INITIALIZER : Z := 0.
Definition THR_ADAPTIVE_MUTEX_INITIALIZER : Z := 1.
Definition THR_MUTEX_DESTROYED : Z := 2.
Definition MUTEX_ADAPTIVE_SPINS : Z := 2000.

Definition Type_ (x : PthreadMutex) : Z := Z.land (m_flags x) PthreadMutexFlags.TypeMask.
Definition is_deferred (x : PthreadMutex) : bool := negb (Z.land (m_flags x) PthreadMutexFlags.Deferred =? 0).

(** ** Attributes

    An attribute argument is a pointer to a pointer: [None] is a null pointer,
    [Some None] a pointer to one. *)

Record PthreadMutexAttr := mkAttr { a_type : Z; a_protocol : Z; a_ceiling : Z }.

Definition PthreadMutexattrDefault : PthreadMutexAttr := mkAttr PthreadMutexType.ErrorCheck PthreadMutexProt.None 0.
Definition PthreadMutexattrAdaptiveDefault : PthreadMutexAttr := mkAttr PthreadMutexType.AdaptiveNp PthreadMutexProt.None 0.

Definition ORBIS_KERNEL_PRIO_FIFO_LOWEST : Z := 256.
Definition ORBIS_KERNEL_PRIO_FIFO_HIGHEST : Z := 767.
Definition ORBIS_KERNEL_PRIO_RR_HIGHEST : Z := 767.

(** The setters: the code returned and the attribute afterwards. *)
Definition with_attr (attr : option (option PthreadMutexAttr)) (ok : PthreadMutexAttr -> bool)
    (f : PthreadMutexAttr -> PthreadMutexAttr) : Z * option (option PthreadMutexAttr) :=
  match attr with
  | Some (Some a) => if ok a then (0, Some (Some (f a))) else (POSIX_EINVAL, attr)
  | _ => (POSIX_EINVAL, attr)
  end.

Definition posix_pthread_mutexattr_init (allocated : bool) (attr : option PthreadMutexAttr) : Z * option PthreadMutexAttr :=
  if allocated then (0, Some PthreadMutexattrDefault) else (POSIX_ENOMEM, attr).

Definition posix_pthread_mutexattr_settype (attr : option (option PthreadMutexAttr)) (type : Z) :=
  with_attr attr (fun _ => negb ((type <? PthreadMutexType.ErrorCheck) || (PthreadMutexType.Max <=? type)))
    (fun a => mkAttr type (a_protocol a) (a_ceiling a)).

Definition posix_pthread_mutexattr_setprotocol (attr : option (option PthreadMutexAttr)) (protocol : Z) :=
  with_attr attr (fun _ => negb ((protocol <? PthreadMutexProt.None) || (PthreadMutexProt.Protect <? protocol)))
    (fun a => mkAttr (a_type a) protocol ORBIS_KERNEL_PRIO_RR_HIGHEST).

Definition posix_pthread_mutexattr_setprioceiling (attr : option (option PthreadMutexAttr)) (prioceiling : Z) :=
  with_attr attr
    (fun a => negb (negb (a_protocol a =? PthreadMutexProt.Protect) || (ORBIS_KERNEL_PRIO_FIFO_HIGHEST <? prioceiling)
                    || (prioceiling <? ORBIS_KERNEL_PRIO_FIFO_LOWEST)))
    (fun a => mkAttr (a_type a) (a_protocol a) prioceiling).

Definition posix_pthread_mutexattr_setpshared (attr : option (option PthreadMutexAttr)) (pshared : Z) :=
  with_attr attr (fun _ => pshared =? 0) (fun a => a).

(** The setter without a check of the kind; a failure is -1 with [errno]. *)
Definition posix_pthread_mutexattr_setkind_np (attr : option (option PthreadMutexAttr)) (kind : Z) :
    Z * option (option PthreadMutexAttr) :=
  match attr with
  | Some (Some a) => (0, Some (Some (mkAttr kind (a_protocol a) (a_ceiling a))))
  | _ => (-1, attr)
  end.

(** The argument is the attribute pointer itself. *)
Definition posix_pthread_mutexattr_getkind_np (attr : option PthreadMutexAttr) : Z :=
  match attr with Some a => s32 (a_type a) | None => -1 end.

(** The getters: [inl] an error code, [inr] the value stored. *)
Definition get_attr (attr : option (option PthreadMutexAttr)) (ok : PthreadMutexAttr -> bool) (f : PthreadMutexAttr -> Z) : Z + Z :=
  match attr with
  | Some (Some a) => if ok a then inr (f a) else inl POSIX_EINVAL
  | _ => inl POSIX_EINVAL
  end.

Definition posix_pthread_mutexattr_gettype (attr : option (option PthreadMutexAttr)) : Z + Z :=
  get_attr attr (fun a => a_type a <? PthreadMutexType.Max) a_type.
Definition posix_pthread_mutexattr_getprotocol (attr : option (option PthreadMutexAttr)) : Z + Z :=
  get_attr attr (fun _ => true) a_protocol.
Definition posix_pthread_mutexattr_getprioceiling (attr : option (option PthreadMutexAttr)) : Z + Z :=
  get_attr attr (fun a => a_protocol a =? PthreadMutexProt.Protect) a_ceiling.
Definition posix_pthread_mutexattr_getpshared (attr : option (option PthreadMutexAttr)) : Z + Z :=
  get_attr attr (fun _ => true) (fun _ => 0).

(** [delete *attr; *attr = nullptr]. *)
Definition posix_pthread_mutexattr_destroy (attr : option (option PthreadMutexAttr)) : Z * option (option PthreadMutexAttr) :=
  match attr with
  | Some (Some _) => (0, Some None)
  | _ => (POSIX_EINVAL, attr)
  end.

(** ** Creation and destruction

    [fresh] is the address of the new object, [None] when the allocation fails. *)

Definition attr_ok (a : PthreadMutexAttr) : bool :=
  negb ((a_type a <? PthreadMutexType.ErrorCheck) || (PthreadMutexType.Max <=? a_type a))
  && negb (PthreadMutexProt.Protect <? a_protocol a).

Definition MutexInit (h : Z) (mutex_attr : option PthreadMutexAttr) (name : option string) (fresh : option Z)
    (w : World) : outcome (Z * World) :=
  let attr := default PthreadMutexattrDefault mutex_attr in
  if negb (match mutex_attr with None => true | Some a => attr_ok a end) then Done (POSIX_EINVAL, w) else
  match fresh with
  | None => Done (POSIX_ENOMEM, w)
  | Some p =>
      let (n, w) := match name with
                    | Some n => (n, w)
                    | None => (("Mutex" +:+ pretty (MutexId w))%string, with_MutexId (s32 (MutexId w + 1)) w)
                    end in
      let spins := if a_type attr =? PthreadMutexType.AdaptiveNp then MUTEX_ADAPTIVE_SPINS else 0 in
      Done (0, with_mutex_handle h p (set_mutex p (mkMutex None 0 spins 0 (a_protocol attr) (a_type attr) None n) w))
  end.

(** Under [MutxStaticLock]. *)
Definition InitStatic (h : Z) (fresh : option Z) (w : World) : outcome (Z * World) :=
  let! v := of_option (mutex_handles w !! h) in
  if (v =? THR_MUTEX_INITIALIZER) || (v =? THR_MUTEX_DESTROYED) then MutexInit h (Some PthreadMutexattrDefault) None fresh w
  else if v =? THR_ADAPTIVE_MUTEX_INITIALIZER then MutexInit h (Some PthreadMutexattrAdaptiveDefault) None fresh w
  else Done (0, w).

Definition posix_pthread_mutex_init (t h : Z) (attr : option PthreadMutexAttr) (fresh : option Z) (w : World) :
    outcome (option Z * World) :=
  let! '(r, w) := MutexInit h attr None fresh w in ret t r w.

Definition scePthreadMutexInit (t h : Z) (attr : option PthreadMutexAttr) (name : option string) (fresh : option Z) (w : World) :
    outcome (option Z * World) :=
  let! '(r, w) := MutexInit h attr name fresh w in ret t r w.

Definition posix_pthread_mutex_destroy (t h : Z) (w : World) : outcome (option Z * World) :=
  let! v := of_option (mutex_handles w !! h) in
  if v <? THR_MUTEX_DESTROYED then ret t 0 w
  else if v =? THR_MUTEX_DESTROYED then ret t POSIX_EINVAL w
  else
    let! x := of_option (mutexes w !! v) in
    if negb (bool_decide (m_owner x = None)) then ret t POSIX_EBUSY w
    else ret t 0 (with_mutexes (delete v) (with_mutex_handle h THR_MUTEX_DESTROYED w)).

(** [CHECK_AND_INIT_MUTEX], then [body] on the object. *)
Definition on_mutex (t h : Z) (fresh : option Z) (w : World) (body : Z -> World -> outcome (option Z * World)) :
    outcome (option Z * World) :=
  let! v := of_option (mutex_handles w !! h) in
  if v <=? THR_MUTEX_DESTROYED then
    let! '(r, w) := InitStatic h fresh w in
    if negb (r =? 0) then ret t r w else
    let! v := of_option (mutex_handles w !! h) in body v w
  else body v w.

(** ** Locking *)

Definition INT_MAX : Z := 2147483647.

(** The end of [Lock], and of the [CvLock] of a wait. *)
Definition finish_lock (t m r : Z) (k : LockCont) (w : World) : outcome (option Z * World) :=
  let restore recurse :=
    if r =? 0 then let! x := of_option (mutexes w !! m) in Done (set_mutex m (set_count recurse x) w) else Done w in
  match k with
  | LkReturn => ret t r w
  | LkCond recurse error => let! w := restore recurse in ret t (if error =? 0 then r else error) w
  | LkCancel recurse => let! w := restore recurse in ret t 0 w
  end.

Definition timed (to : Timeout) : bool := match to with NoTimeout => false | _ => true end.

(** [m_count + 1 > 0] overflows at the largest count. *)
Definition recurse_lock (m : Z) (x : PthreadMutex) (w : World) : outcome (Z * World) :=
  if m_count x =? INT_MAX then Raised Undefined
  else if 0 <? m_count x + 1 then Done (0, set_mutex m (set_count (m_count x + 1) x) w)
  else Done (POSIX_EAGAIN, w).

Definition SelfTryLock (m : Z) (x : PthreadMutex) (w : World) : outcome (Z * World) :=
  if (Type_ x =? PthreadMutexType.ErrorCheck) || (Type_ x =? PthreadMutexType.Normal) || (Type_ x =? PthreadMutexType.AdaptiveNp)
  then Done (POSIX_EBUSY, w)
  else if Type_ x =? PthreadMutexType.Recursive then recurse_lock m x w
  else Done (POSIX_EINVAL, w).

Definition SelfLock (t m : Z) (x : PthreadMutex) (to : Timeout) (k : LockCont) (w : World) : outcome (option Z * World) :=
  let DoSleep :=
    match to with
    | AbsTime tv_sec tv_nsec =>
        if (tv_sec <? 0) || (tv_nsec <? 0) || (1000000000 <=? tv_nsec) then finish_lock t m POSIX_EINVAL k w
        else goto t (PcDoze m k) w
    | _ => goto t (PcDoze m k) w
    end in
  if (Type_ x =? PthreadMutexType.ErrorCheck) || (Type_ x =? PthreadMutexType.AdaptiveNp) then
    if timed to then DoSleep else finish_lock t m POSIX_EDEADLK k w
  else if Type_ x =? PthreadMutexType.Normal then
    if timed to then DoSleep else Raised AssertFailed
  else if Type_ x =? PthreadMutexType.Recursive then
    let! '(r, w) := recurse_lock m x w in finish_lock t m r k w
  else finish_lock t m POSIX_EINVAL k w.

(** The part of [Lock] after the spinning. *)
Definition block (t m : Z) (to : Timeout) (k : LockCont) (w : World) : outcome (option Z * World) :=
  match to with
  | AbsTime _ tv_nsec =>
      if (tv_nsec <? 0) || (1000000000 <=? tv_nsec) then finish_lock t m POSIX_EINVAL k w
      else goto t (PcBlock m to k) w
  | _ => goto t (PcBlock m to k) w
  end.

Definition Lock (t m : Z) (to : Timeout) (k : LockCont) (w : World) : outcome (option Z * World) :=
  let! x := of_option (mutexes w !! m) in
  if bool_decide (m_owner x = Some t) then SelfLock t m x to k w
  else if m_protocol x =? PthreadMutexProt.None then goto t (PcSpin m (m_spinloops x) to k) w
  else block t m to k w.

(** [try_lock] of the host mutex: undefined for the thread that holds it, may
    fail without reason. *)
Definition host_try_lock (t m : Z) (lucky : bool) (w : World) : outcome (bool * World) :=
  let! x := of_option (mutexes w !! m) in
  match m_lock x with
  | Some u => if u =? t then Raised Undefined else Done (false, w)
  | None => if lucky then Done (true, set_mutex m (set_lock (Some t) x) w) else Done (false, w)
  end.

(** One round of [while (count--)]; [after] is what follows the loop. *)
Definition spin_step (t m count : Z) (k : LockCont) (lucky : bool) (again : Z -> Pc)
    (after : World -> outcome (option Z * World)) (w : World) : outcome (option Z * World) :=
  if count =? 0 then after w
  else if count =? - INT_MAX - 1 then Raised Undefined
  else
    let! '(got, w) := host_try_lock t m lucky w in
    if got then goto t (PcOwn m k) w else goto t (again (count - 1)) w.

(** In the host lock: taken when it is free, otherwise the thread stays; with a
    time-out it may give up. *)
Definition block_step (t m : Z) (to : Timeout) (k : LockCont) (late : bool) (w : World) : outcome (option Z * World) :=
  if late && timed to then finish_lock t m POSIX_ETIMEDOUT k w
  else
    let! '(got, w) := host_try_lock t m true w in
    if got then goto t (PcOwn m k) w else goto t (PcBlock m to k) w.

Definition own_step (t m : Z) (k : LockCont) (w : World) : outcome (option Z * World) :=
  let! x := of_option (mutexes w !! m) in
  finish_lock t m 0 k (set_mutex m (set_owner (Some t) x) w).

Definition TryLock (t m : Z) (lucky : bool) (w : World) : outcome (option Z * World) :=
  let! x := of_option (mutexes w !! m) in
  if bool_decide (m_owner x = Some t) then let! '(r, w) := SelfTryLock m x w in ret t r w
  else
    let! '(got, w) := host_try_lock t m lucky w in
    if got then goto t (PcOwn m LkReturn) w else ret t POSIX_EBUSY w.

(** ** Unlocking *)

(** The ownership part: [Deferred] and the owner are cleared. *)
Definition disown (x : PthreadMutex) : PthreadMutex :=
  set_owner None (set_flags (Z.land (m_flags x) (Z.lnot PthreadMutexFlags.Deferred)) x).

Definition Unlock (t m : Z) (w : World) : outcome (option Z * World) :=
  let! x := of_option (mutexes w !! m) in
  if negb (bool_decide (m_owner x = Some t)) then ret t POSIX_EPERM w
  else if (Type_ x =? PthreadMutexType.Recursive) && (0 <? m_count x) then ret t 0 (set_mutex m (set_count (m_count x - 1) x) w)
  else goto t (PcUnlock m (is_deferred x)) (set_mutex m (disown x) w).

(** [m_lock.unlock()]. *)
Definition host_unlock (t m : Z) (w : World) : outcome World :=
  let! x := of_option (mutexes w !! m) in
  if bool_decide (m_lock x = Some t) then Done (set_mutex m (set_lock None x) w) else Raised Undefined.

Definition unlock_step (t m : Z) (deferred : bool) (w : World) : outcome (option Z * World) :=
  let! w := host_unlock t m w in
  let! x := of_option (threads w !! t) in
  if negb (will_sleep x) && deferred then WakeAll t WkReturn w else ret t 0 w.

(** ** The calls *)

Definition posix_pthread_mutex_trylock (t h : Z) (fresh : option Z) (lucky : bool) (w : World) : outcome (option Z * World) :=
  on_mutex t h fresh w (fun m => TryLock t m lucky).
Definition posix_pthread_mutex_lock (t h : Z) (fresh : option Z) (w : World) : outcome (option Z * World) :=
  on_mutex t h fresh w (fun m => Lock t m NoTimeout LkReturn).
Definition posix_pthread_mutex_timedlock (t h : Z) (tv_sec tv_nsec : Z) (fresh : option Z) (w : World) : outcome (option Z * World) :=
  on_mutex t h fresh w (fun m => Lock t m (AbsTime tv_sec tv_nsec) LkReturn).
Definition posix_pthread_mutex_reltimedlock_np (t h usec : Z) (fresh : option Z) (w : World) : outcome (option Z * World) :=
  on_mutex t h fresh w (fun m => Lock t m (RelTime usec) LkReturn).

Definition posix_pthread_mutex_unlock (t h : Z) (w : World) : outcome (option Z * World) :=
  let! mp := of_option (mutex_handles w !! h) in
  if mp <=? THR_MUTEX_DESTROYED then ret t (if mp =? THR_MUTEX_DESTROYED then POSIX_EINVAL else POSIX_EPERM) w
  else Unlock t mp w.

Definition posix_pthread_mutex_setspinloops_np (t h count : Z) (fresh : option Z) (w : World) : outcome (option Z * World) :=
  on_mutex t h fresh w (fun m w => let! x := of_option (mutexes w !! m) in ret t 0 (set_mutex m (set_spins count x) w)).
Definition posix_pthread_mutex_setyieldloops_np (t h count : Z) (fresh : option Z) (w : World) : outcome (option Z * World) :=
  on_mutex t h fresh w (fun m w => let! x := of_option (mutexes w !! m) in ret t 0 (set_mutex m (set_yields count x) w)).

(** The getters: the call, which may create the mutex, and the count it stores
    when it returns 0. *)
Definition read_mutex (t h : Z) (fresh : option Z) (w : World) : outcome (option Z * World) :=
  on_mutex t h fresh w (fun m w => let! _ := of_option (mutexes w !! m) in ret t 0 w).
Definition get_mutex (f : PthreadMutex -> Z) (t h : Z) (fresh : option Z) (w : World) : outcome (option Z * (option Z * World)) :=
  let! '(r, w) := read_mutex t h fresh w in
  if bool_decide (r = Some 0) then
    let! m := of_option (mutex_handles w !! h) in
    let! x := of_option (mutexes w !! m) in
    Done (Some (f x), (r, w))
  else Done (None, (r, w)).
Definition posix_pthread_mutex_getspinloops_np := get_mutex m_spinloops.
Definition posix_pthread_mutex_getyieldloops_np := get_mutex m_yieldloops.

Definition posix_pthread_mutex_isowned_np (t h : Z) (w : World) : outcome (option Z * World) :=
  let! m := of_option (mutex_handles w !! h) in
  if m <=? THR_MUTEX_DESTROYED then ret t 0 w
  else let! x := of_option (mutexes w !! m) in ret t (if bool_decide (m_owner x = Some t) then 1 else 0) w.

(** [PthreadMutex::IsOwned] on any pointer value. *)
Definition IsOwned (t m : Z) (w : World) : outcome Z :=
  if m <=? THR_MUTEX_DESTROYED then Done (if m =? THR_MUTEX_DESTROYED then POSIX_EINVAL else POSIX_EPERM)
  else
    let! x := of_option (mutexes w !! m) in
    Done (if bool_decide (m_owner x = Some t) then 0 else POSIX_EPERM).
