(* ===== verification/CondVar.v ===== *)
(** * Condition variables ([core/libraries/kernel/threads/condvar.cpp]) and the
    steps of all threads

    A wait queues the thread and releases its mutex in one critical section of
    the sleep queue, sleeps on the thread's own semaphore and takes the mutex
    again.  A signal takes a thread off the queue; when the signaller owns the
    waiter's mutex, it keeps the wake-up until it unlocks. *)

From stdpp Require Import gmap pretty.
From S2P Require Import Prelude SleepQueue SleepFacts Threads Mutex.

Definition THR_COND_INITIALIZER : Z := 0.
Definition THR_COND_DESTROYED : Z := 1.

Module ClockId.
Definition Realtime : Z := 0.
Definition Virtual : Z := 1.
Definition Prof : Z := 2.
Definition Monotonic : Z := 4.
End ClockId.

(** ** Attributes *)

Record PthreadCondAttr := mkCondAttr { c_pshared : Z; c_clockid : Z }.

Definition PthreadCondattrDefault : PthreadCondAttr := mkCondAttr 0 ClockId.Realtime.

Definition posix_pthread_condattr_init (allocated : bool) (attr : option PthreadCondAttr) : Z * option PthreadCondAttr :=
  if allocated then (0, Some PthreadCondattrDefault) else (POSIX_ENOMEM, attr).

Definition posix_pthread_condattr_destroy (attr : option (option PthreadCondAttr)) : Z * option (option PthreadCondAttr) :=
  match attr with
  | Some (Some _) => (0, Some None)
  | _ => (POSIX_EINVAL, attr)
  end.

Definition posix_pthread_condattr_getclock (attr : option (option PthreadCondAttr)) : Z + Z :=
  match attr with
  | Some (Some a) => inr (c_clockid a)
  | _ => inl POSIX_EINVAL
  end.

Definition posix_pthread_condattr_setclock (attr : option (option PthreadCondAttr)) (clock_id : Z) : Z * option (option PthreadCondAttr) :=
  match attr with
  | Some (Some a) =>
      if negb (clock_id =? ClockId.Realtime) && negb (clock_id =? ClockId.Virtual)
         && negb (clock_id =? ClockId.Prof) && negb (clock_id =? ClockId.Monotonic)
      then (POSIX_EINVAL, attr)
      else (0, Some (Some (mkCondAttr (c_pshared a) clock_id)))
  | _ => (POSIX_EINVAL, attr)
  end.

Definition posix_pthread_condattr_getpshared (attr : option (option PthreadCondAttr)) : Z + Z :=
  match attr with
  | Some (Some _) => inr 0
  | _ => inl POSIX_EINVAL
  end.

Definition posix_pthread_condattr_setpshared (attr : option (option PthreadCondAttr)) (pshared : Z) : Z :=
  match attr with
  | Some (Some _) => if negb (pshared =? 0) then POSIX_EINVAL else 0
  | _ => POSIX_EINVAL
  end.

(** ** Creation and destruction *)

Definition CondInit (h : Z) (cond_attr : option (option PthreadCondAttr)) (name : option string) (fresh : option Z)
    (w : World) : outcome (Z * World) :=
  match fresh with
  | None => Done (POSIX_ENOMEM, w)
  | Some p =>
      let (n, w) := match name with
                    | Some n => (n, w)
                    | None => (("Cond" +:+ pretty (CondId w))%string, with_CondId (s32 (CondId w + 1)) w)
                    end in
      let clock := match cond_attr with Some (Some a) => c_clockid a | _ => ClockId.Realtime end in
      Done (0, with_cond_handle h p (with_conds <[p := mkCond false clock n]> w))
  end.

Definition posix_pthread_cond_init (t h : Z) (attr : option (option PthreadCondAttr)) (fresh : option Z) (w : World) :
    outcome (option Z * World) :=
  let! '(r, w) := CondInit h attr None fresh (with_cond_handle h 0 w) in ret t r w.

Definition scePthreadCondInit (t h : Z) (attr : option (option PthreadCondAttr)) (name : option string) (fresh : option Z)
    (w : World) : outcome (option Z * World) :=
  let! '(r, w) := CondInit h attr name fresh (with_cond_handle h 0 w) in ret t r w.

Definition posix_pthread_cond_destroy (t h : Z) (w : World) : outcome (option Z * World) :=
  let! v := of_option (cond_handles w !! h) in
  if v =? THR_COND_INITIALIZER then ret t 0 w
  else if v =? THR_COND_DESTROYED then ret t POSIX_EINVAL w
  else
    let! _ := of_option (conds w !! v) in
    ret t 0 (with_conds (delete v) (with_cond_handle h THR_COND_DESTROYED w)).

(** [CHECK_AND_INIT_COND] with its [InitStatic], then [body] on the object. *)
Definition on_cond (t h : Z) (fresh : option Z) (w : World) (body : Z -> World -> outcome (option Z * World)) :
    outcome (option Z * World) :=
  let! v := of_option (cond_handles w !! h) in
  if v =? THR_COND_INITIALIZER then
    let! '(r, w) := CondInit h None None fresh w in
    if negb (r =? 0) then ret t r w else
    let! v := of_option (cond_handles w !! h) in body v w
  else if v =? THR_COND_DESTROYED then ret t POSIX_EINVAL w
  else body v w.

Definition set_waiters (c : Z) (b : bool) (w : World) : outcome World :=
  let! x := of_option (conds w !! c) in
  Done (with_conds <[c := mkCond b (clock_id x) (c_name x)]> w).

(** ** Waiting *)

(** Up to the first [SleepqUnlock].  [CvUnlock] keeps the recursion count, and
    as [will_sleep] is set the deferred wake-ups stay for [Sleep]. *)
Definition Wait (t c m : Z) (to : Timeout) (w : World) : outcome (option Z * World) :=
  let! error := IsOwned t m w in
  if negb (error =? 0) then ret t error w else
  oassert (channel t (table w) =? 0) ;;!
  let! w := set_waiters c true w in
  let! x := of_option (mutexes w !! m) in
  let recurse := m_count x in
  let w := set_mutex m (disown (set_count 0 x)) w in
  let! w := host_unlock t m w in
  let! T := SleepqAdd c t (table w) in
  let! y := of_option (threads w !! t) in
  let y := set_sema (if 0 <? wake_sema y then wake_sema y - 1 else 0) (set_mutex_obj (Some m) (set_will_sleep true y)) in
  goto t (PcGo c m recurse to) (set_thread t y (with_table T w)).

(** [Pthread::Sleep] up to its semaphore. *)
Definition go_step (t c m recurse : Z) (to : Timeout) (w : World) : outcome (option Z * World) :=
  let! y := of_option (threads w !! t) in
  let w := set_thread t (set_will_sleep false y) w in
  if bool_decide (defer_waiters y = []) then goto t (PcSleep c m recurse to) w
  else WakeAll t (WkSleep c m recurse to) w.

(** The semaphore: acquired when released, otherwise the thread stays; with a
    time-out it may give up. *)
Definition sleep_step (t c m recurse : Z) (to : Timeout) (late : bool) (w : World) : outcome (option Z * World) :=
  let! y := of_option (threads w !! t) in
  if late && timed to then goto t (PcAwake c m recurse POSIX_ETIMEDOUT) w
  else if 0 <? wake_sema y then goto t (PcAwake c m recurse 0) (set_thread t (set_sema (wake_sema y - 1) y) w)
  else goto t (PcSleep c m recurse to) w.

(** Leaving the queue without having been signalled. *)
Definition leave_queue (t c : Z) (w : World) : outcome World :=
  let! sq := SleepqLookup c (table w) in
  let! sq := of_option sq in
  let! '(b, T) := SleepqRemove sq t (table w) in
  set_waiters c b (with_table T w).

(** The rest of the loop of [Wait] and its [CvLock]. *)
Definition awake_step (t c m recurse error : Z) (w : World) : outcome (option Z * World) :=
  let! y := of_option (threads w !! t) in
  let relock k w := Lock t m NoTimeout k (set_thread t (set_mutex_obj None y) w) in
  if channel t (table w) =? 0 then relock (LkCond recurse 0) w
  else if ShouldCancel y then let! w := leave_queue t c w in relock (LkCancel recurse) w
  else if error =? POSIX_ETIMEDOUT then let! w := leave_queue t c w in relock (LkCond recurse error) w
  else Raised AssertFailed.

(** ** Waking *)

(** Keep the wake-up of [td] until the mutex [mp], which the caller owns, is
    unlocked. *)
Definition defer (t td mp : Z) (x : PthreadMutex) (w : World) : outcome World :=
  let! y := of_option (threads w !! t) in
  let! w := (if MaxDeferWaiters <=? Z.of_nat (length (defer_waiters y))
             then release_semas (defer_waiters y) (set_thread t (set_defer [] y) w) else Done w) in
  let! y := of_option (threads w !! t) in
  let w := set_thread t (set_defer (defer_waiters y ++ [td]) y) w in
  Done (set_mutex mp (set_flags (Z.lor (m_flags x) PthreadMutexFlags.Deferred) x) w).

(** The mutex a queued thread waits with. *)
Definition mutex_of (td : Z) (w : World) : outcome (Z * PthreadMutex) :=
  let! y := of_option (threads w !! td) in
  let! mp := of_option (mutex_obj y) in
  let! x := of_option (mutexes w !! mp) in
  Done (mp, x).

Definition Signal (t c : Z) (thread : option Z) (w : World) : outcome (option Z * World) :=
  if match thread with Some u => bool_decide (threads w !! u = None) | None => false end then ret t POSIX_ESRCH w else
  let! found := SleepqLookup c (table w) in
  match found with
  | None => ret t 0 w
  | Some sq =>
      let! q := of_option (queues (table w) !! sq) in
      let! td := of_option (match thread with Some u => Some u | None => head (sq_blocked q) end) in
      let! '(mp, x) := mutex_of td w in
      let! '(b, T) := SleepqRemove sq td (table w) in
      let! w := set_waiters c b (with_table T w) in
      if bool_decide (m_owner x = Some t) then let! w := defer t td mp x w in ret t 0 w
      else goto t (PcWake [td] WkReturn) w
  end.

(** [drop_cb]; the state is the world and [waddrs]. *)
Definition drop_cb (t td : Z) (s : World * list Z) : outcome (World * list Z) :=
  let '(w, waddrs) := s in
  let! '(mp, x) := mutex_of td w in
  if bool_decide (m_owner x = Some t) then let! w := defer t td mp x w in Done (w, waddrs)
  else if MaxDeferWaiters <=? Z.of_nat (length waddrs) then let! w := release_semas waddrs w in Done (w, [td])
  else Done (w, waddrs ++ [td]).

Definition Broadcast (t c : Z) (w : World) : outcome (option Z * World) :=
  let! found := SleepqLookup c (table w) in
  match found with
  | None => ret t 0 w
  | Some sq =>
      let! '(T, (w, waddrs)) := SleepqDrop (drop_cb t) sq (table w) (w, []) in
      let! w := set_waiters c false (with_table T w) in
      goto t (PcWake waddrs WkReturn) w
  end.

(** ** The calls *)

Definition cond_wait (t h hm : Z) (to : Timeout) (fresh : option Z) (w : World) : outcome (option Z * World) :=
  on_cond t h fresh w (fun c w => let! m := of_option (mutex_handles w !! hm) in Wait t c m to w).

Definition posix_pthread_cond_wait (t h hm : Z) (fresh : option Z) : World -> outcome (option Z * World) :=
  cond_wait t h hm NoTimeout fresh.

Definition posix_pthread_cond_timedwait (t h hm : Z) (abstime : option (Z * Z)) (fresh : option Z) (w : World) :
    outcome (option Z * World) :=
  match abstime with
  | None => ret t POSIX_EINVAL w
  | Some (tv_sec, tv_nsec) =>
      if (tv_sec <? 0) || (tv_nsec <? 0) || (1000000000 <=? tv_nsec) then ret t POSIX_EINVAL w
      else cond_wait t h hm (AbsTime tv_sec tv_nsec) fresh w
  end.

Definition posix_pthread_cond_reltimedwait_np (t h hm usec : Z) (fresh : option Z) : World -> outcome (option Z * World) :=
  cond_wait t h hm (RelTime usec) fresh.

Definition posix_pthread_cond_signal (t h : Z) (fresh : option Z) (w : World) : outcome (option Z * World) :=
  on_cond t h fresh w (fun c => Signal t c None).
Definition posix_pthread_cond_signalto_np (t h thread : Z) (fresh : option Z) (w : World) : outcome (option Z * World) :=
  on_cond t h fresh w (fun c => Signal t c (if thread =? 0 then None else Some thread)).
Definition posix_pthread_cond_broadcast (t h : Z) (fresh : option Z) (w : World) : outcome (option Z * World) :=
  on_cond t h fresh w (fun c => Broadcast t c).

(** [posix_pthread_cancel] of pthread.cpp: a thread about to sleep is woken. *)
Definition posix_pthread_cancel (t thread : Z) (w : World) : outcome (option Z * World) :=
  match threads w !! thread with
  | None => ret t POSIX_ESRCH w
  | Some y =>
      let w := set_thread thread (set_cancel true y) w in
      if will_sleep y then goto t (PcWake [thread] WkReturn) w else ret t 0 w
  end.

(** ** The steps of a thread inside a call

    [lucky] says whether a host [try_lock] succeeds on a free lock and whether a
    timed operation has not timed out yet. *)
Definition advance (t : Z) (lucky : bool) (w : World) : outcome (option Z * World) :=
  let! pc := of_option (pcs w !! t) in
  match pc with
  | PcSpin m count to k =>
      spin_step t m count k lucky (fun n => PcSpin m n to k)
        (fun w => let! x := of_option (mutexes w !! m) in goto t (PcYield m (m_yieldloops x) to k) w) w
  | PcYield m count to k => spin_step t m count k lucky (fun n => PcYield m n to k) (block t m to k) w
  | PcBlock m to k => block_step t m to k (negb lucky) w
  | PcOwn m k => own_step t m k w
  | PcDoze m k => finish_lock t m POSIX_ETIMEDOUT k w
  | PcUnlock m deferred => unlock_step t m deferred w
  | PcWake l k => wake_step t l k w
  | PcGo c m recurse to => go_step t c m recurse to w
  | PcSleep c m recurse to => sleep_step t c m recurse to (negb lucky) w
  | PcAwake c m recurse error => awake_step t c m recurse error w
  end.
