(* ===== verification/SyncSteps.v ===== *)
(** * The machine of mutexes and condition variables

    All calls of all threads, interleaved at the steps of [advance], and what a
    step does to the mutexes: the protocol [pstep]. *)

From stdpp Require Import gmap.
From S2P Require Import Prelude SleepQueue SleepFacts Threads Mutex CondVar.

Inductive sync_op :=
  | OpSpawn (u a : Z)
  | OpMutexMemory (h v : Z)
  | OpCondMemory (h : Z)
  | OpMutexInit (t h : Z) (attr : option PthreadMutexAttr) (name : option string) (fresh : option Z)
  | OpMutexDestroy (t h : Z)
  | OpLock (t h : Z) (to : Timeout) (fresh : option Z)
  | OpTryLock (t h : Z) (fresh : option Z) (lucky : bool)
  | OpUnlock (t h : Z)
  | OpSpins (t h n : Z) (fresh : option Z)
  | OpYields (t h n : Z) (fresh : option Z)
  | OpRead (t h : Z) (fresh : option Z)
  | OpCondInit (t h : Z) (attr : option (option PthreadCondAttr)) (name : option string) (fresh : option Z)
  | OpCondDestroy (t h : Z)
  | OpWait (t h hm : Z) (to : Timeout) (fresh : option Z)
  | OpSignal (t h thread : Z) (fresh : option Z)
  | OpBroadcast (t h : Z) (fresh : option Z)
  | OpCancel (t thread : Z)
  | OpAdvance (t : Z) (lucky : bool).

(** A new thread gets its queue object ([ThreadState::Alloc]). *)
Definition spawn (u a : Z) (w : World) : World := set_thread u new_thread (with_table (add_thread u a (table w)) w).

Definition lock_call (t h : Z) (to : Timeout) (fresh : option Z) : World -> outcome (option Z * World) :=
  match to with
  | NoTimeout => posix_pthread_mutex_lock t h fresh
  | RelTime usec => posix_pthread_mutex_reltimedlock_np t h usec fresh
  | AbsTime tv_sec tv_nsec => posix_pthread_mutex_timedlock t h tv_sec tv_nsec fresh
  end.

Definition wait_call (t h hm : Z) (to : Timeout) (fresh : option Z) : World -> outcome (option Z * World) :=
  match to with
  | NoTimeout => posix_pthread_cond_wait t h hm fresh
  | RelTime usec => posix_pthread_cond_reltimedwait_np t h hm usec fresh
  | AbsTime tv_sec tv_nsec => posix_pthread_cond_timedwait t h hm (Some (tv_sec, tv_nsec)) fresh
  end.

Definition perform (op : sync_op) (w : World) : outcome (option Z * World) :=
  match op with
  | OpSpawn u a => Done (None, spawn u a w)
  | OpMutexMemory h v => Done (None, with_mutex_handle h v w)
  | OpCondMemory h => Done (None, with_cond_handle h THR_COND_INITIALIZER w)
  | OpMutexInit t h attr name fresh => scePthreadMutexInit t h attr name fresh w
  | OpMutexDestroy t h => posix_pthread_mutex_destroy t h w
  | OpLock t h to fresh => lock_call t h to fresh w
  | OpTryLock t h fresh lucky => posix_pthread_mutex_trylock t h fresh lucky w
  | OpUnlock t h => posix_pthread_mutex_unlock t h w
  | OpSpins t h n fresh => posix_pthread_mutex_setspinloops_np t h n fresh w
  | OpYields t h n fresh => posix_pthread_mutex_setyieldloops_np t h n fresh w
  | OpRead t h fresh => read_mutex t h fresh w
  | OpCondInit t h attr name fresh => scePthreadCondInit t h attr name fresh w
  | OpCondDestroy t h => posix_pthread_cond_destroy t h w
  | OpWait t h hm to fresh => wait_call t h hm to fresh w
  | OpSignal t h thread fresh => posix_pthread_cond_signalto_np t h thread fresh w
  | OpBroadcast t h fresh => posix_pthread_cond_broadcast t h fresh w
  | OpCancel t thread => posix_pthread_cancel t thread w
  | OpAdvance t lucky => advance t lucky w
  end.

(** The mutex a program counter refers to. *)
Definition mutex_in (pc : Pc) : option Z :=
  match pc with
  | PcSpin m _ _ _ | PcYield m _ _ _ | PcBlock m _ _ | PcOwn m _ | PcDoze m _ | PcUnlock m _
  | PcWake _ (WkSleep _ m _ _) | PcGo _ m _ _ | PcSleep _ m _ _ | PcAwake _ m _ _ => Some m
  | PcWake _ WkReturn => None
  end.

(** New objects: at an address nothing refers to. *)
Definition new_mutex (fresh : option Z) (w : World) : Prop :=
  forall p, fresh = Some p -> THR_MUTEX_DESTROYED < p /\ mutexes w !! p = None /\
    forall t pc, pcs w !! t = Some pc -> mutex_in pc <> Some p.

Definition new_cond (fresh : option Z) (w : World) : Prop :=
  forall p, fresh = Some p -> THR_COND_DESTROYED < p /\ conds w !! p = None.

(** A thread that may call: it exists and is in no call. *)
Definition idle (t : Z) (w : World) : Prop := pcs w !! t = None /\ is_Some (threads w !! t).

Definition allowed (op : sync_op) (w : World) : Prop :=
  match op with
  | OpSpawn u a => u <> 0 /\ threads w !! u = None /\ pcs w !! u = None /\ slots (table w) !! u = None /\ queues (table w) !! a = None
  | OpMutexMemory _ v => v = THR_MUTEX_INITIALIZER \/ v = THR_ADAPTIVE_MUTEX_INITIALIZER
  | OpCondMemory _ => True
  | OpMutexInit t _ _ _ fresh | OpLock t _ _ fresh | OpTryLock t _ fresh _ | OpSpins t _ _ fresh | OpYields t _ _ fresh
  | OpRead t _ fresh => idle t w /\ new_mutex fresh w
  | OpMutexDestroy t _ | OpUnlock t _ | OpCondDestroy t _ | OpCancel t _ => idle t w
  | OpCondInit t _ _ _ fresh | OpWait t _ _ _ fresh | OpSignal t _ _ fresh | OpBroadcast t _ fresh => idle t w /\ new_cond fresh w
  | OpAdvance t _ => is_Some (threads w !! t)
  end.

Definition sync_step (op : sync_op) (w : World) (r : option Z) (w' : World) : Prop :=
  allowed op w /\ perform op w = Done (r, w').

Definition boot : World := mkWorld ∅ ∅ (mkTable ∅ ∅ ∅) ∅ ∅ ∅ ∅ 0 0.

Inductive sync_reach : World -> Prop :=
  | sync_boot : sync_reach boot
  | sync_next w op r w' : sync_reach w -> sync_step op w r w' -> sync_reach w'.

(** The thread that acts. *)
Definition actor (op : sync_op) : Z :=
  match op with
  | OpSpawn _ _ | OpMutexMemory _ _ | OpCondMemory _ => 0
  | OpMutexInit t _ _ _ _ | OpMutexDestroy t _ | OpLock t _ _ _ | OpTryLock t _ _ _ | OpUnlock t _ | OpSpins t _ _ _
  | OpYields t _ _ _ | OpRead t _ _ | OpCondInit t _ _ _ _ | OpCondDestroy t _ | OpWait t _ _ _ _ | OpSignal t _ _ _ | OpBroadcast t _ _
  | OpCancel t _ | OpAdvance t _ => t
  end.

(** ** The protocol of the mutexes *)

(** The mutex whose host lock a thread holds without owning the mutex: it is
    about to record or has just cleared its ownership. *)
Definition hold (pc : option Pc) : option Z :=
  match pc with
  | Some (PcOwn m _) | Some (PcUnlock m _) => Some m
  | _ => None
  end.

(** The recursion count a thread in a wait will restore. *)
Definition cont_pledge (m : Z) (k : LockCont) : option (Z * Z) :=
  match k with
  | LkReturn => None
  | LkCond recurse _ | LkCancel recurse => Some (m, recurse)
  end.

Definition pledge (pc : option Pc) : option (Z * Z) :=
  match pc with
  | Some (PcSpin m _ _ k) | Some (PcYield m _ _ k) | Some (PcBlock m _ k) | Some (PcOwn m k) | Some (PcDoze m k) => cont_pledge m k
  | Some (PcWake _ (WkSleep _ m r _)) | Some (PcGo _ m r _) | Some (PcSleep _ m r _) | Some (PcAwake _ m r _) => Some (m, r)
  | _ => None
  end.

(** What the protocol sees of a mutex. *)
Record Latch := mkLatch { l_owner : option Z; l_lock : option Z; l_count : Z; l_type : Z }.

Definition latch (x : PthreadMutex) : Latch := mkLatch (m_owner x) (m_lock x) (m_count x) (Type_ x).
Definition latches (w : World) : gmap Z Latch := latch <$> mutexes w.

Inductive pstep (t : Z) (w w' : World) : Prop :=
  | ps_quiet :
      latches w' = latches w -> hold (pcs w' !! t) = hold (pcs w !! t) ->
      (forall p, pledge (pcs w' !! t) = Some p -> pledge (pcs w !! t) = Some p) -> pstep t w w'
  | ps_take m l :
      latches w !! m = Some l -> l_lock l = None ->
      latches w' = <[m := mkLatch (l_owner l) (Some t) (l_count l) (l_type l)]> (latches w) ->
      hold (pcs w !! t) = None -> hold (pcs w' !! t) = Some m ->
      (forall p, pledge (pcs w' !! t) = Some p -> pledge (pcs w !! t) = Some p) -> pstep t w w'
  | ps_own m l n :
      latches w !! m = Some l -> hold (pcs w !! t) = Some m ->
      (n = l_count l \/ pledge (pcs w !! t) = Some (m, n)) ->
      latches w' = <[m := mkLatch (Some t) (l_lock l) n (l_type l)]> (latches w) ->
      hold (pcs w' !! t) = None -> pledge (pcs w' !! t) = None -> pstep t w w'
  | ps_disown m l :
      latches w !! m = Some l -> l_owner l = Some t -> (l_type l = PthreadMutexType.Recursive -> l_count l <= 0) ->
      latches w' = <[m := mkLatch None (l_lock l) (l_count l) (l_type l)]> (latches w) ->
      hold (pcs w !! t) = None -> hold (pcs w' !! t) = Some m -> pledge (pcs w' !! t) = None -> pstep t w w'
  | ps_free m l :
      latches w !! m = Some l -> hold (pcs w !! t) = Some m -> l_owner l <> Some t ->
      latches w' = <[m := mkLatch (l_owner l) None (l_count l) (l_type l)]> (latches w) ->
      hold (pcs w' !! t) = None -> pledge (pcs w' !! t) = None -> pstep t w w'
  | ps_wait m l :
      latches w !! m = Some l -> l_owner l = Some t ->
      latches w' = <[m := mkLatch None None 0 (l_type l)]> (latches w) ->
      hold (pcs w !! t) = None -> hold (pcs w' !! t) = None -> pledge (pcs w' !! t) = Some (m, l_count l) -> pstep t w w'
  | ps_count m l n :
      latches w !! m = Some l -> l_owner l = Some t -> l_type l = PthreadMutexType.Recursive ->
      (n = l_count l + 1 \/ n = l_count l - 1 /\ 0 < l_count l) ->
      latches w' = <[m := mkLatch (l_owner l) (l_lock l) n (l_type l)]> (latches w) ->
      hold (pcs w !! t) = None -> hold (pcs w' !! t) = None -> pledge (pcs w' !! t) = None -> pstep t w w'
  | ps_create m ty :
      latches w !! m = None -> (forall u pc, pcs w !! u = Some pc -> mutex_in pc <> Some m) ->
      latches w' = <[m := mkLatch None None 0 ty]> (latches w) -> pcs w' !! t = pcs w !! t -> pstep t w w'
  | ps_delete m l :
      latches w !! m = Some l -> l_owner l = None -> latches w' = delete m (latches w) ->
      hold (pcs w !! t) = None -> hold (pcs w' !! t) = None -> pledge (pcs w' !! t) = None -> pstep t w w'.

(** Only the acting thread's program counter changes. *)
Definition frames (t : Z) (w w' : World) : Prop := forall u, u <> t -> pcs w' !! u = pcs w !! u.
