(* ===== verification/MutexFacts.v ===== *)
(** * The mutex protocol is a lock

    Every step of the machine follows the protocol [pstep]; the protocol keeps
    the invariant [mutex_inv] and implements locks with an owner and a depth
    ([lock_effect]). *)

From stdpp Require Import gmap relations.
From S2P Require Import Prelude SleepQueue SleepFacts Threads Mutex CondVar SyncSteps.

(** ** The invariant *)

Record mutex_inv (w : World) : Prop := {
  mi_lock m l t : latches w !! m = Some l -> l_lock l = Some t <-> l_owner l = Some t \/ hold (pcs w !! t) = Some m;
  mi_hold m l t : latches w !! m = Some l -> hold (pcs w !! t) = Some m -> l_owner l = None;
  mi_count m l : latches w !! m = Some l ->
    0 <= l_count l /\ (l_owner l = None -> l_count l = 0) /\ (0 < l_count l -> l_type l = PthreadMutexType.Recursive);
  mi_pledge t m r : pledge (pcs w !! t) = Some (m, r) ->
    0 <= r /\ forall l, latches w !! m = Some l -> l_owner l <> Some t /\ (0 < r -> l_type l = PthreadMutexType.Recursive) }.

Lemma hold_in pc m : hold (Some pc) = Some m -> mutex_in pc = Some m.
Proof. by destruct pc as [| | | | | |? []| | |]; cbn; intros; simplify_eq. Qed.

Lemma pledge_in pc m r : pledge (Some pc) = Some (m, r) -> mutex_in pc = Some m.
Proof. destruct pc as [m' ? ? k|m' ? ? k|m' ? k|m' k|m' k| |? []| | |]; cbn; try destruct k; cbn; intros; by simplify_eq. Qed.

(** The facts about one mutex follow from those about the others. *)
Lemma update_inv t w w' m : mutex_inv w -> frames t w w' ->
  (forall k, k <> m -> latches w' !! k = latches w !! k) ->
  (hold (pcs w' !! t) <> hold (pcs w !! t) -> forall k, hold (pcs w' !! t) = Some k \/ hold (pcs w !! t) = Some k -> k = m) ->
  (forall l, latches w' !! m = Some l ->
     (forall u, l_lock l = Some u <-> l_owner l = Some u \/ hold (pcs w' !! u) = Some m) /\
     (forall u, hold (pcs w' !! u) = Some m -> l_owner l = None) /\
     0 <= l_count l /\ (l_owner l = None -> l_count l = 0) /\ (0 < l_count l -> l_type l = PthreadMutexType.Recursive)) ->
  (forall u k r, pledge (pcs w' !! u) = Some (k, r) ->
    0 <= r /\ forall l, latches w' !! k = Some l -> l_owner l <> Some u /\ (0 < r -> l_type l = PthreadMutexType.Recursive)) ->
  mutex_inv w'.
Proof.
  intros Hi Hf Hm Hh Hnew Hp.
  assert (forall k u, k <> m -> hold (pcs w' !! u) = Some k <-> hold (pcs w !! u) = Some k) as Hsame.
  { intros k u Hk. destruct (decide (u = t)) as [->|Hu]; [|by rewrite Hf].
    destruct (decide (hold (pcs w' !! t) = hold (pcs w !! t))) as [->|E]; [done|]. split; intros E'; exfalso; eauto. }
  split; [..|exact Hp].
  - intros k l u Hl. destruct (decide (k = m)) as [->|Hk]; [by apply Hnew|]. rewrite Hm in Hl by done.
    rewrite Hsame by done. by apply (mi_lock _ Hi).
  - intros k l u Hl. destruct (decide (k = m)) as [->|Hk]; [by apply Hnew|]. rewrite Hm in Hl by done.
    rewrite Hsame by done. by apply (mi_hold _ Hi).
  - intros k l Hl. destruct (decide (k = m)) as [->|Hk]; [by apply Hnew|]. rewrite Hm in Hl by done. by apply (mi_count _ Hi _ _ Hl).
Qed.

(** Pledges survive when mutexes keep their type and no other thread becomes
    an owner. *)
Definition tamer (t : Z) (l0 l : Latch) : Prop :=
  l_type l0 = l_type l /\ forall u, u <> t -> l_owner l = Some u -> l_owner l0 = Some u.

Lemma update_pledge t w w' : mutex_inv w -> frames t w w' ->
  (forall k l, latches w' !! k = Some l -> exists l0, latches w !! k = Some l0 /\ tamer t l0 l) ->
  (forall k r, pledge (pcs w' !! t) = Some (k, r) ->
     0 <= r /\ forall l, latches w' !! k = Some l -> l_owner l <> Some t /\ (0 < r -> l_type l = PthreadMutexType.Recursive)) ->
  forall u k r, pledge (pcs w' !! u) = Some (k, r) ->
    0 <= r /\ forall l, latches w' !! k = Some l -> l_owner l <> Some u /\ (0 < r -> l_type l = PthreadMutexType.Recursive).
Proof.
  intros Hi Hf Hl Ht u k r Hp. destruct (decide (u = t)) as [->|Hu]; [eauto|]. rewrite Hf in Hp by done.
  apply (mi_pledge _ Hi) in Hp as [? Hr]. split; [done|]. intros l (l0 & Hl0 & <- & Ho)%Hl.
  destruct (Hr _ Hl0) as [? ?]. split; [|done]. intros E. eauto.
Qed.

Lemma insert_tamer t (ls : gmap Z Latch) m l0 l' : ls !! m = Some l0 -> tamer t l0 l' ->
  forall k l, <[m := l']> ls !! k = Some l -> exists l1, ls !! k = Some l1 /\ tamer t l1 l.
Proof.
  intros H0 Ht k l Hk. destruct (decide (k = m)) as [->|].
  - rewrite lookup_insert_eq in Hk. simplify_eq. eauto.
  - rewrite lookup_insert_ne in Hk by done. exists l. done.
Qed.

(** A step that changes the latch of one mutex keeps the invariant when the new
    latch agrees with the program counters. *)
Lemma latch_step t w w' m l l' : mutex_inv w -> frames t w w' ->
  latches w !! m = Some l -> latches w' = <[m := l']> (latches w) -> tamer t l l' ->
  (hold (pcs w !! t) = None \/ hold (pcs w !! t) = Some m) -> (hold (pcs w' !! t) = None \/ hold (pcs w' !! t) = Some m) ->
  (forall u, l_lock l' = Some u <-> l_owner l' = Some u \/ hold (pcs w' !! u) = Some m) ->
  (forall u, hold (pcs w' !! u) = Some m -> l_owner l' = None) ->
  0 <= l_count l' /\ (l_owner l' = None -> l_count l' = 0) /\ (0 < l_count l' -> l_type l' = PthreadMutexType.Recursive) ->
  (forall k r, pledge (pcs w' !! t) = Some (k, r) -> (pledge (pcs w !! t) = Some (k, r) \/ (k = m /\ r = l_count l)) /\
     (k = m -> l_owner l' <> Some t)) ->
  mutex_inv w'.
Proof.
  intros Hi Hf Hl El Ht Hh Hh' H1 H2 H3 Hp.
  pose proof (insert_tamer t (latches w) m l l' Hl Ht) as Hty. rewrite <- El in Hty.
  eapply (update_inv t w w' m); eauto.
  - intros k Hk. by rewrite El, lookup_insert_ne.
  - intros _ k [E|E]; [destruct Hh'|destruct Hh]; congruence.
  - intros l1. rewrite El, lookup_insert_eq. intros [= <-]. tauto.
  - eapply (update_pledge t w w'); eauto. intros k r E. destruct (Hp _ _ E) as [[E'|[-> ->]] Ho].
    + apply (mi_pledge _ Hi) in E' as [? Hr]. split; [done|]. intros l1. rewrite El. destruct (decide (k = m)) as [->|].
      * rewrite lookup_insert_eq. intros [= <-]. split; [by apply Ho|]. intros. rewrite <- (proj1 Ht). by apply Hr.
      * rewrite lookup_insert_ne by done. apply Hr.
    + destruct (mi_count _ Hi _ _ Hl) as (? & _ & ?). split; [done|]. intros l1. rewrite El, lookup_insert_eq. intros [= <-].
      split; [by apply Ho|]. intros. rewrite <- (proj1 Ht). auto.
Qed.

(** A thread that holds the host lock is alone. *)
Lemma only_holder w m l t u : mutex_inv w -> latches w !! m = Some l -> l_lock l = Some t -> hold (pcs w !! u) = Some m -> u = t.
Proof. intros Hi Hl Hk E. assert (l_lock l = Some u) by (apply (mi_lock _ Hi _ _ _ Hl); by right). congruence. Qed.

Lemma owned_not_held w m l t u : mutex_inv w -> latches w !! m = Some l -> l_owner l = Some t -> hold (pcs w !! u) <> Some m.
Proof. intros Hi Hl Ho E. pose proof (mi_hold _ Hi _ _ _ Hl E). congruence. Qed.

Section Protocol.
Context (t : Z) (w w' : World).
Hypothesis Hi : mutex_inv w.
Hypothesis Hf : frames t w w'.

Lemma quiet_inv : latches w' = latches w -> hold (pcs w' !! t) = hold (pcs w !! t) ->
  (forall p, pledge (pcs w' !! t) = Some p -> pledge (pcs w !! t) = Some p) -> mutex_inv w'.
Proof.
  intros El Eh Ep. assert (forall u, hold (pcs w' !! u) = hold (pcs w !! u)) as Hh.
  { intros u. destruct (decide (u = t)) as [->|]; [done|by rewrite Hf]. }
  split; rewrite El.
  - intros m l u Hl. rewrite Hh. by apply (mi_lock _ Hi).
  - intros m l u Hl. rewrite Hh. by apply (mi_hold _ Hi).
  - apply (mi_count _ Hi).
  - intros u m r Hr. apply (mi_pledge _ Hi u). destruct (decide (u = t)) as [->|]; [by apply Ep|by rewrite <- Hf].
Qed.

Lemma latch_take_inv m l : latches w !! m = Some l -> l_lock l = None ->
  latches w' = <[m := mkLatch (l_owner l) (Some t) (l_count l) (l_type l)]> (latches w) ->
  hold (pcs w !! t) = None -> hold (pcs w' !! t) = Some m ->
  (forall p, pledge (pcs w' !! t) = Some p -> pledge (pcs w !! t) = Some p) -> mutex_inv w'.
Proof.
  intros Hl Hnl El Eh Eh' Ep.
  assert (forall u, ~ (l_owner l = Some u \/ hold (pcs w !! u) = Some m)) as Hno.
  { intros u E%(mi_lock _ Hi _ _ _ Hl). congruence. }
  assert (l_owner l = None) as Ho by (destruct (l_owner l) as [u|]; [by destruct (Hno u); left|done]).
  eapply (latch_step t w w' m l); eauto; cbn; [done| |by apply (mi_count _ Hi _ _ Hl)|].
  2: { intros k r E%Ep. split; [by left|]. intros ->. by rewrite Ho. }
  intros u. rewrite Ho. destruct (decide (u = t)) as [->|Hne]; [rewrite Eh'; tauto|]. rewrite Hf by done.
  split; [congruence|]. intros [?|?]; [done|]. destruct (Hno u). by right.
Qed.

Lemma own_inv m l n : latches w !! m = Some l -> hold (pcs w !! t) = Some m ->
  (n = l_count l \/ pledge (pcs w !! t) = Some (m, n)) ->
  latches w' = <[m := mkLatch (Some t) (l_lock l) n (l_type l)]> (latches w) ->
  hold (pcs w' !! t) = None -> pledge (pcs w' !! t) = None -> mutex_inv w'.
Proof.
  intros Hl Eh En El Eh' Ep. pose proof (mi_hold _ Hi _ _ _ Hl Eh) as Ho.
  assert (l_lock l = Some t) as Hk by (apply (mi_lock _ Hi _ _ _ Hl); by right).
  assert (forall u, hold (pcs w' !! u) <> Some m) as Hno.
  { intros u. destruct (decide (u = t)) as [->|Hne]; [congruence|]. rewrite Hf by done. intros E. by apply Hne, (only_holder w m l t). }
  eapply (latch_step t w w' m l); eauto; cbn; [split; [done|by intros u ? [= <-]]| |by intros u E; destruct (Hno u)| |by rewrite Ep].
  - intros u. rewrite Hk. split; [by left|]. intros [?|E]; [done|]. by destruct (Hno u).
  - destruct (mi_count _ Hi _ _ Hl) as (? & ? & ?). destruct En as [->|En]; [done|].
    apply (mi_pledge _ Hi) in En as [? Hr]. split_and!; [done|done|by apply Hr].
Qed.

Lemma disown_inv m l : latches w !! m = Some l -> l_owner l = Some t ->
  (l_type l = PthreadMutexType.Recursive -> l_count l <= 0) ->
  latches w' = <[m := mkLatch None (l_lock l) (l_count l) (l_type l)]> (latches w) ->
  hold (pcs w !! t) = None -> hold (pcs w' !! t) = Some m -> pledge (pcs w' !! t) = None -> mutex_inv w'.
Proof.
  intros Hl Ho Hc El Eh Eh' Ep. assert (l_lock l = Some t) as Hk by (apply (mi_lock _ Hi _ _ _ Hl); by left).
  eapply (latch_step t w w' m l); eauto; cbn; [by split| |destruct (mi_count _ Hi _ _ Hl) as (? & _ & ?)|by rewrite Ep].
  - intros u. rewrite Hk. destruct (decide (u = t)) as [->|Hne]; [rewrite Eh'; tauto|]. rewrite Hf by done.
    split; [congruence|]. intros [?|E]; [done|]. by destruct (owned_not_held w m l t u).
  - split_and!; try done. intros _. destruct (decide (0 < l_count l)); [|lia]. specialize (Hc ltac:(auto)). lia.
Qed.

Lemma free_inv m l : latches w !! m = Some l -> hold (pcs w !! t) = Some m ->
  latches w' = <[m := mkLatch (l_owner l) None (l_count l) (l_type l)]> (latches w) ->
  hold (pcs w' !! t) = None -> pledge (pcs w' !! t) = None -> mutex_inv w'.
Proof.
  intros Hl Eh El Eh' Ep. pose proof (mi_hold _ Hi _ _ _ Hl Eh) as Ho.
  assert (l_lock l = Some t) as Hk by (apply (mi_lock _ Hi _ _ _ Hl); by right).
  assert (forall u, hold (pcs w' !! u) <> Some m) as Hno.
  { intros u. destruct (decide (u = t)) as [->|Hne]; [congruence|]. rewrite Hf by done. intros E. by apply Hne, (only_holder w m l t). }
  eapply (latch_step t w w' m l); eauto; cbn; [by split| |by apply (mi_count _ Hi _ _ Hl)|by rewrite Ep].
  intros u. rewrite Ho. split; [done|]. intros [?|?]; [done|by destruct (Hno u)].
Qed.

Lemma wait_inv m l : latches w !! m = Some l -> l_owner l = Some t ->
  latches w' = <[m := mkLatch None None 0 (l_type l)]> (latches w) ->
  hold (pcs w !! t) = None -> hold (pcs w' !! t) = None -> pledge (pcs w' !! t) = Some (m, l_count l) -> mutex_inv w'.
Proof.
  intros Hl Ho El Eh Eh' Ep.
  assert (forall u, hold (pcs w' !! u) <> Some m) as Hno.
  { intros u. destruct (decide (u = t)) as [->|Hne]; [congruence|]. rewrite Hf by done. by apply (owned_not_held w m l t). }
  eapply (latch_step t w w' m l); eauto; cbn; [by split| |done|rewrite Ep; intros k r [= <- <-]; split; [by right|done]].
  intros u. split; [done|]. intros [?|?]; [done|by destruct (Hno u)].
Qed.

Lemma count_inv m l n : latches w !! m = Some l -> l_owner l = Some t -> l_type l = PthreadMutexType.Recursive -> 0 <= n ->
  latches w' = <[m := mkLatch (l_owner l) (l_lock l) n (l_type l)]> (latches w) ->
  hold (pcs w !! t) = None -> hold (pcs w' !! t) = None -> pledge (pcs w' !! t) = None -> mutex_inv w'.
Proof.
  intros Hl Ho Ety Hn El Eh Eh' Ep.
  assert (forall u, hold (pcs w' !! u) <> Some m) as Hno.
  { intros u. destruct (decide (u = t)) as [->|Hne]; [congruence|]. rewrite Hf by done. by apply (owned_not_held w m l t). }
  eapply (latch_step t w w' m l); eauto; cbn; [by split| |by intros u E; destruct (Hno u)|split_and!; [lia|congruence|done]|by rewrite Ep].
  intros u. rewrite (mi_lock _ Hi _ _ u Hl). split; (intros [?|E]; [by left|]); [|by destruct (Hno u)].
  by destruct (owned_not_held w m l t u).
Qed.

Lemma latch_create_inv m ty : latches w !! m = None -> (forall u pc, pcs w !! u = Some pc -> mutex_in pc <> Some m) ->
  latches w' = <[m := mkLatch None None 0 ty]> (latches w) -> pcs w' !! t = pcs w !! t -> mutex_inv w'.
Proof.
  intros Hm Hin El Eh. assert (forall u, pcs w' !! u = pcs w !! u) as Hu.
  { intros u. destruct (decide (u = t)) as [->|]; [done|by apply Hf]. }
  assert (forall u, hold (pcs w !! u) <> Some m) as Hno.
  { intros u E. destruct (pcs w !! u) as [pc|] eqn:Ep; [|done]. by apply hold_in, (Hin _ _ Ep) in E. }
  eapply (update_inv t w w' m); eauto.
  - intros k Hk. by rewrite El, lookup_insert_ne.
  - rewrite Hu. done.
  - intros l. rewrite El, lookup_insert_eq. intros [= <-]. cbn. split_and!; try done.
    intros u. rewrite Hu. split; [done|]. intros [?|?]; [done|by destruct (Hno u)].
  - intros u k r. rewrite Hu. intros Hp. destruct (mi_pledge _ Hi _ _ _ Hp) as [? Hr]. split; [done|].
    assert (k <> m). { intros ->. destruct (pcs w !! u) as [pc|] eqn:Ep; [|done]. by apply pledge_in, (Hin _ _ Ep) in Hp. }
    intros l. rewrite El, lookup_insert_ne by done. apply Hr.
Qed.

Lemma latch_delete_inv m : latches w' = delete m (latches w) ->
  hold (pcs w !! t) = None -> hold (pcs w' !! t) = None -> pledge (pcs w' !! t) = None -> mutex_inv w'.
Proof.
  intros El Eh Eh' Ep. eapply (update_inv t w w' m); eauto.
  - intros k Hk. by rewrite El, lookup_delete_ne.
  - congruence.
  - intros l. by rewrite El, lookup_delete_eq.
  - eapply (update_pledge t w w'); eauto; [|by rewrite Ep]. intros k l. rewrite El.
    intros [_ ?]%lookup_delete_Some. by exists l.
Qed.

Lemma pstep_inv : pstep t w w' -> mutex_inv w'.
Proof.
  destruct 1; eauto using quiet_inv, latch_take_inv, own_inv, disown_inv, free_inv, wait_inv, latch_create_inv, latch_delete_inv.
  eapply count_inv; eauto. destruct (mi_count _ Hi m l) as (? & _); [done|]. lia.
Qed.

End Protocol.

(** ** Locks *)

(** The abstract state: for every mutex nothing, or its owner and depth. *)
Definition depth_of (l : Latch) : option (Z * Z) := (fun t => (t, l_count l + 1)) <$> l_owner l.
Definition held (w : World) : gmap Z (option (Z * Z)) := depth_of <$> latches w.

(** What a thread may do to it: take a free lock, go one level deeper or up,
    give a lock up with all its levels, create or remove a free lock. *)
Inductive lock_effect (t : Z) (s s' : gmap Z (option (Z * Z))) : Prop :=
  | lock_silent : s' = s -> lock_effect t s s'
  | lock_acquired m n : s !! m = Some None -> 1 <= n -> s' = <[m := Some (t, n)]> s -> lock_effect t s s'
  | lock_deeper m n : s !! m = Some (Some (t, n)) -> s' = <[m := Some (t, n + 1)]> s -> lock_effect t s s'
  | lock_higher m n : s !! m = Some (Some (t, n)) -> 1 < n -> s' = <[m := Some (t, n - 1)]> s -> lock_effect t s s'
  | lock_released m n : s !! m = Some (Some (t, n)) -> s' = <[m := None]> s -> lock_effect t s s'
  | lock_created m : s !! m = None -> s' = <[m := None]> s -> lock_effect t s s'
  | lock_removed m : s !! m = Some None -> s' = delete m s -> lock_effect t s s'.

Lemma held_lookup w m l : latches w !! m = Some l -> held w !! m = Some (depth_of l).
Proof. intros H. unfold held. by rewrite lookup_fmap, H. Qed.

Lemma held_insert w w' m l : latches w' = <[m := l]> (latches w) -> held w' = <[m := depth_of l]> (held w).
Proof. intros E. unfold held. by rewrite E, fmap_insert. Qed.

Lemma held_same w w' m l l' : latches w !! m = Some l -> latches w' = <[m := l']> (latches w) ->
  depth_of l' = depth_of l -> held w' = held w.
Proof. intros Hl El E. rewrite (held_insert w w' m l' El), E. apply insert_id. by apply held_lookup. Qed.

Lemma pstep_effect t w w' : mutex_inv w -> pstep t w w' -> lock_effect t (held w) (held w').
Proof.
  intros Hi. destruct 1 as [El _ _|m l Hl _ El _ _ _|m l n Hl Eh En El _ _|m l Hl Ho _ El _ _ _|m l Hl _ _ El _ _
    |m l Hl Ho El _ _ _|m l n Hl Ho _ En El _ _ _|m ty Hm _ El _|m l Hl Ho El _ _ _].
  - apply lock_silent. unfold held. by rewrite El.
  - apply lock_silent. by eapply held_same.
  - apply (lock_acquired _ _ _ m (n + 1)); [| |by rewrite (held_insert _ _ _ _ El)].
    + rewrite (held_lookup _ _ _ Hl). unfold depth_of. by rewrite (mi_hold _ Hi _ _ _ Hl Eh).
    + destruct En as [->|En]; [destruct (mi_count _ Hi _ _ Hl)|destruct (mi_pledge _ Hi _ _ _ En)]; lia.
  - apply (lock_released _ _ _ m (l_count l + 1)); [|by rewrite (held_insert _ _ _ _ El)].
    rewrite (held_lookup _ _ _ Hl). unfold depth_of. by rewrite Ho.
  - apply lock_silent. by eapply held_same.
  - apply (lock_released _ _ _ m (l_count l + 1)); [|by rewrite (held_insert _ _ _ _ El)].
    rewrite (held_lookup _ _ _ Hl). unfold depth_of. by rewrite Ho.
  - assert (held w !! m = Some (Some (t, l_count l + 1))) as Hh by (rewrite (held_lookup _ _ _ Hl); unfold depth_of; by rewrite Ho).
    destruct En as [->|[-> Hc]].
    + eapply (lock_deeper _ _ _ m); [done|]. rewrite (held_insert _ _ _ _ El). unfold depth_of. cbn. by rewrite Ho.
    + eapply (lock_higher _ _ _ m); [done|lia|]. rewrite (held_insert _ _ _ _ El). unfold depth_of. cbn. rewrite Ho. cbn. by replace (l_count l - 1 + 1) with (l_count l + 1 - 1) by lia.
  - apply (lock_created _ _ _ m); [|by rewrite (held_insert _ _ _ _ El)]. unfold held. by rewrite lookup_fmap, Hm.
  - apply (lock_removed _ _ _ m); [|unfold held; by rewrite El, fmap_delete].
    rewrite (held_lookup _ _ _ Hl). unfold depth_of. by rewrite Ho.
Qed.
