(* ===== verification/MutexSteps.v ===== *)
(** * Every step of the machine follows the mutex protocol *)

From stdpp Require Import gmap relations.
From S2P Require Import Prelude SleepQueue SleepFacts Threads Mutex CondVar SyncSteps MutexFacts.

Definition pframe (t : Z) (w w' : World) : Prop := pstep t w w' /\ frames t w w'.
Definition follows (t : Z) : World -> World -> Prop := rtc (pframe t).

(** Changes the protocol does not see. *)
Definition stays (w w1 : World) : Prop := latches w1 = latches w /\ pcs w1 = pcs w.

Lemma stays_refl w : stays w w.
Proof. done. Qed.

Lemma stays_trans w w1 w2 : stays w w1 -> stays w1 w2 -> stays w w2.
Proof. intros [E1 F1] [E2 F2]. split; congruence. Qed.

Create HintDb sync.
#[export] Hint Resolve stays_refl : sync.

Lemma latches_set m x w : latches (set_mutex m x w) = <[m := latch x]> (latches w).
Proof. unfold latches. cbn. apply fmap_insert. Qed.

Lemma latches_lookup w m x : mutexes w !! m = Some x -> latches w !! m = Some (latch x).
Proof. intros H. unfold latches. by rewrite lookup_fmap, H. Qed.

Lemma mutex_set m x w : mutexes (set_mutex m x w) !! m = Some x.
Proof. apply lookup_insert_eq. Qed.

Lemma set_mutex_twice m x x' w : set_mutex m x' (set_mutex m x w) = set_mutex m x' w.
Proof. unfold set_mutex, with_mutexes. cbn. by rewrite insert_insert_eq. Qed.

Lemma stays_set w m x x' : mutexes w !! m = Some x -> latch x' = latch x -> stays w (set_mutex m x' w).
Proof. intros H E. split; [|done]. rewrite latches_set, E. apply insert_id. by apply latches_lookup. Qed.

Lemma type_land f : Z.land (Z.land f (Z.lnot PthreadMutexFlags.Deferred)) PthreadMutexFlags.TypeMask = Z.land f PthreadMutexFlags.TypeMask.
Proof. rewrite <- Z.land_assoc. reflexivity. Qed.

Lemma type_lor f : Z.land (Z.lor f PthreadMutexFlags.Deferred) PthreadMutexFlags.TypeMask = Z.land f PthreadMutexFlags.TypeMask.
Proof. rewrite Z.land_lor_distr_l. change (Z.land PthreadMutexFlags.Deferred _) with 0. apply Z.lor_0_r. Qed.

Lemma latch_disown x : latch (disown x) = mkLatch None (m_lock x) (m_count x) (Type_ x).
Proof. unfold latch, Type_. cbn. by rewrite type_land. Qed.

(** ** Quiet ends *)

Lemma quiet_goto t w w1 pc : stays w w1 -> hold (Some pc) = hold (pcs w !! t) ->
  (forall p, pledge (Some pc) = Some p -> pledge (pcs w !! t) = Some p) -> pframe t w (with_pcs <[t := pc]> w1).
Proof.
  intros [El Ep] Hh Hp. split; [|intros u Hu; cbn; by rewrite lookup_insert_ne, Ep].
  apply ps_quiet; [done|..]; cbn; rewrite lookup_insert_eq; done.
Qed.

Lemma quiet_ret t w w1 : stays w w1 -> hold (pcs w !! t) = None -> pframe t w (with_pcs (delete t) w1).
Proof.
  intros [El Ep] Hh. split; [|intros u Hu; cbn; by rewrite lookup_delete_ne, Ep].
  apply ps_quiet; [done|..]; cbn; rewrite lookup_delete_eq; done.
Qed.

Lemma goto_Done t pc w o w' : goto t pc w = Done (o, w') -> w' = with_pcs <[t := pc]> w.
Proof. by intros [= <- <-]. Qed.

Lemma ret_Done t r w o w' : ret t r w = Done (o, w') -> w' = with_pcs (delete t) w.
Proof. by intros [= <- <-]. Qed.

Lemma finish_quiet t m r k w w1 o w' : r <> 0 -> stays w w1 -> hold (pcs w !! t) = None ->
  finish_lock t m r k w1 = Done (o, w') -> pframe t w w'.
Proof.
  intros Hr Hs Hh. unfold finish_lock. rewrite (proj2 (Z.eqb_neq r 0) Hr).
  destruct k; cbn [obind]; intros ->%ret_Done; by apply quiet_ret.
Qed.

(** ** Locking *)

Lemma recurse_ok m x w r w1 : recurse_lock m x w = Done (r, w1) ->
  (r = 0 /\ w1 = set_mutex m (set_count (m_count x + 1) x) w) \/ (r <> 0 /\ w1 = w).
Proof.
  unfold recurse_lock. destruct (_ =? INT_MAX); [done|]. destruct (0 <? _); intros [= <- <-]; [by left|by right].
Qed.

(** One level deeper. *)
Lemma deeper t m x w : mutexes w !! m = Some x -> m_owner x = Some t -> Type_ x = PthreadMutexType.Recursive ->
  hold (pcs w !! t) = None -> pframe t w (with_pcs (delete t) (set_mutex m (set_count (m_count x + 1) x) w)).
Proof.
  intros Hx Ho Ht Hh. split; [|intros u Hu; cbn; by rewrite lookup_delete_ne].
  eapply (ps_count t _ _ m (latch x) (m_count x + 1)); eauto using latches_lookup; cbn; rewrite ?lookup_delete_eq; auto.
  apply latches_set.
Qed.

Lemma SelfLock_ok t m x to k w o w' : mutex_inv w -> mutexes w !! m = Some x -> m_owner x = Some t ->
  hold (pcs w !! t) = None -> (forall p, cont_pledge m k = Some p -> pledge (pcs w !! t) = Some p) ->
  SelfLock t m x to k w = Done (o, w') -> pframe t w w'.
Proof.
  intros Hi Hx Ho Hh Hk.
  assert (k = LkReturn) as ->.
  { destruct k as [|r e|r]; [done|..]; cbn in Hk; destruct (mi_pledge _ Hi t m r (Hk _ eq_refl)) as [_ Hr];
      by destruct (Hr _ (latches_lookup _ _ _ Hx)). }
  assert (forall o w', goto t (PcDoze m LkReturn) w = Done (o, w') -> pframe t w w') as Hdoze.
  { intros ? ? ->%goto_Done. apply quiet_goto; [by split|by rewrite Hh|done]. }
  assert (forall r o w', r <> 0 -> finish_lock t m r LkReturn w = Done (o, w') -> pframe t w w') as Hfin.
  { intros r ? ? Hr. by apply finish_quiet. }
  assert (forall o w', match to with
      | AbsTime tv_sec tv_nsec => if (tv_sec <? 0) || (tv_nsec <? 0) || (1000000000 <=? tv_nsec)
          then finish_lock t m POSIX_EINVAL LkReturn w else goto t (PcDoze m LkReturn) w
      | _ => goto t (PcDoze m LkReturn) w end = Done (o, w') -> pframe t w w') as Hsleep.
  { intros ? ?. destruct to; [apply Hdoze..|]. destruct (_ || _)%bool; [by apply Hfin|apply Hdoze]. }
  unfold SelfLock. destruct (_ || _)%bool; [destruct (timed to); [apply Hsleep|by apply Hfin]|].
  destruct (Type_ x =? PthreadMutexType.Normal); [destruct (timed to); [apply Hsleep|done]|].
  destruct (Z.eqb_spec (Type_ x) PthreadMutexType.Recursive) as [Ht|]; [|by apply Hfin].
  destruct (recurse_lock m x w) as [[r w1]|] eqn:Er; [cbn|done].
  apply recurse_ok in Er as [[-> ->]|[Hr ->]]; [|intros ->%ret_Done; by apply quiet_ret]. intros ->%ret_Done. by apply deeper.
Qed.

Lemma block_ok t m to k w o w' : hold (pcs w !! t) = None ->
  (forall p, cont_pledge m k = Some p -> pledge (pcs w !! t) = Some p) -> block t m to k w = Done (o, w') -> pframe t w w'.
Proof.
  intros Hh Hk. assert (forall o w', goto t (PcBlock m to k) w = Done (o, w') -> pframe t w w') as Hgo.
  { intros ? ? ->%goto_Done. apply quiet_goto; [by split|by rewrite Hh|done]. }
  unfold block. destruct to; [apply Hgo..|]. destruct (_ || _)%bool; [by apply finish_quiet|apply Hgo].
Qed.

Lemma Lock_ok t m to k w o w' : mutex_inv w -> hold (pcs w !! t) = None ->
  (forall p, cont_pledge m k = Some p -> pledge (pcs w !! t) = Some p) -> Lock t m to k w = Done (o, w') -> pframe t w w'.
Proof.
  intros Hi Hh Hk. unfold Lock. destruct (mutexes w !! m) as [x|] eqn:Hx; [cbn|done].
  destruct (bool_decide _) eqn:Ho; [apply bool_decide_eq_true in Ho; by apply (SelfLock_ok t m x)|].
  destruct (_ =? _); [|by apply block_ok]. intros ->%goto_Done. apply quiet_goto; [by split|by rewrite Hh|done].
Qed.

(** Taking the host lock. *)
Lemma take_ok t m k lucky w w1 : hold (pcs w !! t) = None ->
  (forall p, cont_pledge m k = Some p -> pledge (pcs w !! t) = Some p) ->
  host_try_lock t m lucky w = Done (true, w1) -> pframe t w (with_pcs <[t := PcOwn m k]> w1).
Proof.
  intros Hh Hk. unfold host_try_lock. destruct (mutexes w !! m) as [x|] eqn:Hx; [cbn|done].
  destruct (m_lock x) as [u|] eqn:El; [by destruct (_ =? _)|]. destruct lucky; [|done]. intros [= <-].
  split; [|intros u Hu; cbn; by rewrite lookup_insert_ne].
  eapply (ps_take t _ _ m (latch x)); eauto using latches_lookup; cbn; rewrite ?lookup_insert_eq; [|done|done].
  unfold latches. cbn. by rewrite fmap_insert.
Qed.

Lemma not_taken t m lucky w w1 : host_try_lock t m lucky w = Done (false, w1) -> w1 = w.
Proof.
  unfold host_try_lock. destruct (mutexes w !! m) as [x|]; [cbn|done].
  destruct (m_lock x) as [u|]; [destruct (_ =? _)|destruct lucky]; by intros [= <-].
Qed.

(** Trying for the host lock, whichever way it goes. *)
Lemma try_ok t m k lucky pc w o w' : hold (pcs w !! t) = None ->
  (forall p, cont_pledge m k = Some p -> pledge (pcs w !! t) = Some p) ->
  hold (Some pc) = None -> (forall p, pledge (Some pc) = Some p -> pledge (pcs w !! t) = Some p) ->
  (let! '(got, w1) := host_try_lock t m lucky w in
   if got then goto t (PcOwn m k) w1 else goto t pc w1) = Done (o, w') -> pframe t w w'.
Proof.
  intros Hh Hk Hpc Hpp. destruct (host_try_lock t m lucky w) as [[got w1]|] eqn:E; [cbn|done].
  destruct got; intros ->%goto_Done; [by eapply take_ok|]. apply not_taken in E as ->. apply quiet_goto; [by split|congruence|done].
Qed.

Lemma spin_ok t m count k lucky again after w o w' : hold (pcs w !! t) = None ->
  (forall p, cont_pledge m k = Some p -> pledge (pcs w !! t) = Some p) ->
  (forall n, hold (Some (again n)) = None /\ forall p, pledge (Some (again n)) = Some p -> pledge (pcs w !! t) = Some p) ->
  (after w = Done (o, w') -> pframe t w w') -> spin_step t m count k lucky again after w = Done (o, w') -> pframe t w w'.
Proof.
  intros Hh Hk Hag Haf. unfold spin_step. destruct (count =? 0); [done|]. destruct (_ =? _); [done|].
  destruct (Hag (count - 1)). by apply try_ok.
Qed.

Lemma own_ok t m k w o w' : pcs w !! t = Some (PcOwn m k) -> own_step t m k w = Done (o, w') -> pframe t w w'.
Proof.
  intros Hpc. unfold own_step. destruct (mutexes w !! m) as [x|] eqn:Hx; [cbn [of_option obind]|done].
  assert (forall n x', latch x' = mkLatch (Some t) (m_lock x) n (Type_ x) -> (n = m_count x \/ cont_pledge m k = Some (m, n)) ->
    pframe t w (with_pcs (delete t) (set_mutex m x' w))) as Hown.
  { intros n x' Ex Hn. split; [|intros u Hu; cbn; by rewrite lookup_delete_ne].
    eapply (ps_own t _ _ m (latch x) n); eauto using latches_lookup; cbn; rewrite ?Hpc, ?lookup_delete_eq; try done.
    rewrite <- Ex. apply latches_set. }
  unfold finish_lock. cbn [Z.eqb]. rewrite ?mutex_set. destruct k as [|r e|r]; cbn [of_option obind]; intros ->%ret_Done.
  - apply (Hown (m_count x)); [done|by left].
  - rewrite set_mutex_twice. apply (Hown r); [done|by right].
  - rewrite set_mutex_twice. apply (Hown r); [done|by right].
Qed.

Lemma TryLock_ok t m lucky w o w' : mutex_inv w -> pcs w !! t = None -> TryLock t m lucky w = Done (o, w') -> pframe t w w'.
Proof.
  intros Hi Hpc. unfold TryLock. destruct (mutexes w !! m) as [x|] eqn:Hx; [cbn [of_option obind]|done].
  assert (hold (pcs w !! t) = None) as Hh by (by rewrite Hpc).
  destruct (bool_decide _) eqn:Ho; [apply bool_decide_eq_true in Ho|].
  - unfold SelfTryLock. destruct (_ || _)%bool; [intros ->%ret_Done; by apply quiet_ret|].
    destruct (Z.eqb_spec (Type_ x) PthreadMutexType.Recursive) as [Ht|]; [|intros ->%ret_Done; by apply quiet_ret].
    destruct (recurse_lock m x w) as [[r w1]|] eqn:Er; [cbn [obind]|done].
    apply recurse_ok in Er as [[-> ->]|[Hr ->]]; intros ->%ret_Done; [by apply deeper|by apply quiet_ret].
  - destruct (host_try_lock t m lucky w) as [[got w1]|] eqn:E; [cbn [obind]|done].
    destruct got; [intros ->%goto_Done; by eapply take_ok|]. apply not_taken in E as ->. intros ->%ret_Done. by apply quiet_ret.
Qed.

(** ** Unlocking *)

Lemma Unlock_ok t m w o w' : pcs w !! t = None -> Unlock t m w = Done (o, w') -> pframe t w w'.
Proof.
  intros Hpc. unfold Unlock. destruct (mutexes w !! m) as [x|] eqn:Hx; [cbn [of_option obind]|done].
  assert (hold (pcs w !! t) = None) as Hh by (by rewrite Hpc).
  destruct (bool_decide _) eqn:Ho; cbn [negb]; [apply bool_decide_eq_true in Ho|intros ->%ret_Done; by apply quiet_ret].
  destruct (_ && _)%bool eqn:Er.
  - bool_prop. intros ->%ret_Done. split; [|intros u Hu; cbn; by rewrite lookup_delete_ne].
    eapply (ps_count t _ _ m (latch x) (m_count x - 1)); eauto using latches_lookup; cbn; rewrite ?lookup_delete_eq; auto.
    apply latches_set.
  - intros ->%goto_Done. split; [|intros u Hu; cbn; by rewrite lookup_insert_ne].
    eapply (ps_disown t _ _ m (latch x)); eauto using latches_lookup; cbn; rewrite ?lookup_insert_eq; try done.
    + intros Ht. apply andb_false_iff in Er as [E%Z.eqb_neq|E%Z.ltb_ge]; [done|lia].
    + etransitivity; [apply latches_set|]. by rewrite latch_disown.
Qed.

Lemma host_unlock_ok t m w w1 : host_unlock t m w = Done w1 ->
  exists x, mutexes w !! m = Some x /\ m_lock x = Some t /\ w1 = set_mutex m (set_lock None x) w.
Proof.
  unfold host_unlock. destruct (mutexes w !! m) as [x|]; [cbn|done]. destruct (bool_decide _) eqn:E; [|done].
  apply bool_decide_eq_true in E. intros [= <-]. eauto.
Qed.

(** The semaphores are no part of the protocol. *)
Lemma release_stays u w w1 : release u w = Done w1 -> stays w w1.
Proof. unfold release. destruct (threads w !! u); [cbn|done]. destruct (_ =? 0); by intros [= <-]. Qed.

Lemma release_semas_stays l w w1 : release_semas l w = Done w1 -> stays w w1.
Proof.
  revert w. induction l as [|u l IH]; cbn; intros w; [intros [= <-]; apply stays_refl|].
  destruct (release u w) eqn:E; [cbn|done]. intros Hr. eapply stays_trans; [by eapply release_stays|by apply IH].
Qed.

Lemma release_semas_mutexes l w w1 : release_semas l w = Done w1 -> mutexes w1 = mutexes w.
Proof.
  revert w. induction l as [|u l IH]; cbn; intros w; [by intros [= <-]|].
  destruct (release u w) as [w2|] eqn:E; [cbn|done]. intros ->%IH. revert E. unfold release.
  destruct (threads w !! u); [cbn|done]. destruct (_ =? 0); by intros [= <-].
Qed.

Lemma WakeAll_quiet t k w w1 o w' : stays w w1 -> hold (pcs w !! t) = None ->
  (forall p, pledge (Some (PcWake [] k)) = Some p -> pledge (pcs w !! t) = Some p) ->
  WakeAll t k w1 = Done (o, w') -> pframe t w w'.
Proof.
  intros Hs Hh Hp. unfold WakeAll. destruct (threads w1 !! t) as [y|]; [cbn [of_option obind]|done]. intros ->%goto_Done.
  apply quiet_goto; [done|by rewrite Hh|done].
Qed.

Lemma unlock_step_ok t m deferred w o w' : pcs w !! t = Some (PcUnlock m deferred) -> mutex_inv w ->
  unlock_step t m deferred w = Done (o, w') -> pframe t w w'.
Proof.
  intros Hpc Hi. unfold unlock_step. destruct (host_unlock t m w) as [w1|] eqn:E; [cbn [obind]|done].
  apply host_unlock_ok in E as (x & Hx & Hl & ->).
  assert (m_owner x = None) as Ho by (apply (mi_hold _ Hi _ _ t (latches_lookup _ _ _ Hx)); by rewrite Hpc).
  destruct (threads _ !! t) as [y|]; [cbn [of_option obind]|done].
  assert (forall w2, latches w2 = latches (set_mutex m (set_lock None x) w) -> frames t w w2 ->
    hold (pcs w2 !! t) = None -> pledge (pcs w2 !! t) = None -> pframe t w w2) as Hend.
  { intros w2 El Hf Hh Hp. split; [|done]. eapply (ps_free t _ _ m (latch x)); eauto using latches_lookup; cbn;
      rewrite ?Hpc, ?Ho; try done. rewrite El. etransitivity; [apply latches_set|]. by rewrite <- Ho. }
  destruct (_ && _)%bool.
  - unfold WakeAll. destruct (threads _ !! t); [cbn [of_option obind]|done]. intros ->%goto_Done.
    apply Hend; [done|intros u Hu; cbn; by rewrite lookup_insert_ne|cbn; by rewrite lookup_insert_eq..].
  - intros ->%ret_Done. apply Hend; [done|intros u Hu; cbn; by rewrite lookup_delete_ne|cbn; by rewrite lookup_delete_eq..].
Qed.

Lemma wake_step_ok t l k w o w' : pcs w !! t = Some (PcWake l k) -> wake_step t l k w = Done (o, w') -> pframe t w w'.
Proof.
  intros Hpc. destruct l as [|u l]; cbn [wake_step].
  - destruct k as [|c m r to]; [intros ->%ret_Done|intros ->%goto_Done]; [by apply quiet_ret; [|rewrite Hpc]|].
    apply quiet_goto; rewrite ?Hpc; done.
  - destruct (release u w) as [w1|] eqn:E; [cbn [obind]|done]. apply release_stays in E. intros ->%goto_Done.
    apply quiet_goto; rewrite ?Hpc; done.
Qed.

(** ** Condition variables *)

Lemma pframe_stays t w w1 w' : stays w w1 -> pframe t w1 w' -> pframe t w w'.
Proof.
  intros [El Ep] [Hp Hf]. split; [|intros u Hu; by rewrite <- Ep, Hf]. revert Hp. destruct 1; rewrite ?El, ?Ep in *.
  - by apply ps_quiet.
  - by eapply ps_take.
  - by eapply ps_own.
  - by eapply ps_disown.
  - by eapply ps_free.
  - by eapply ps_wait.
  - by eapply ps_count.
  - by eapply ps_create.
  - by eapply ps_delete.
Qed.

Lemma stays_inv w w1 : stays w w1 -> mutex_inv w -> mutex_inv w1.
Proof. intros [El Ep] [H1 H2 H3 H4]. split; rewrite El, ?Ep; intros; rewrite ?Ep in *; eauto. Qed.

Lemma set_waiters_stays c b w w1 : set_waiters c b w = Done w1 -> stays w w1.
Proof. unfold set_waiters. destruct (conds w !! c); [cbn|done]. by intros [= <-]. Qed.

Lemma IsOwned_0 t m w : IsOwned t m w = Done 0 -> exists x, mutexes w !! m = Some x /\ m_owner x = Some t.
Proof.
  unfold IsOwned. destruct (m <=? _); [by destruct (m =? _)|]. destruct (mutexes w !! m) as [x|]; [cbn|done].
  destruct (bool_decide _) eqn:E; [|done]. apply bool_decide_eq_true in E. eauto.
Qed.

Lemma Wait_ok t c m to w o w' : pcs w !! t = None -> Wait t c m to w = Done (o, w') -> pframe t w w'.
Proof.
  intros Hpc. assert (hold (pcs w !! t) = None) as Hh by (by rewrite Hpc). unfold Wait.
  destruct (IsOwned t m w) as [e|] eqn:Eo; [cbn [obind]|done].
  destruct (Z.eqb_spec e 0) as [->|He]; cbn [negb]; [|intros ->%ret_Done; by apply quiet_ret].
  apply IsOwned_0 in Eo as (x & Hx & Ho). destruct (oassert _); [cbn [obind]|done].
  destruct (set_waiters c true w) as [w1|] eqn:E1; [cbn [obind]|done].
  assert (mutexes w1 = mutexes w) as Em by (revert E1; unfold set_waiters; destruct (conds w !! c); [by intros [= <-]|done]).
  apply set_waiters_stays in E1. rewrite Em, Hx. cbn [of_option obind].
  destruct (host_unlock t m _) as [w3|] eqn:E3; [cbn [obind]|done]. apply host_unlock_ok in E3 as (x3 & Hx3 & Hl & ->).
  rewrite mutex_set in Hx3. injection Hx3 as <-. cbn [m_lock disown set_owner set_flags set_count] in Hl.
  destruct (SleepqAdd c t _) as [T|]; [cbn [obind]|done]. destruct (threads _ !! t) as [y|]; [cbn [of_option obind]|done].
  intros ->%goto_Done. apply (pframe_stays t w w1); [done|]. destruct E1 as [El1 Ep1].
  split; [|intros u Hu; cbn; by rewrite lookup_insert_ne].
  eapply (ps_wait t _ _ m (latch x)); cbn [pcs with_pcs set_thread with_threads with_table];
    rewrite ?Ep1, ?lookup_insert_eq; try done.
  - rewrite El1. by apply latches_lookup.
  - change (latches (set_mutex m (set_lock None (disown (set_count 0 x))) (set_mutex m (disown (set_count 0 x)) w1)) =
      <[m := mkLatch None None 0 (Type_ x)]> (latches w1)).
    rewrite set_mutex_twice, latches_set. f_equal. unfold latch, Type_. cbn. by rewrite type_land.
Qed.

Lemma go_ok t c m r to w o w' : pcs w !! t = Some (PcGo c m r to) -> go_step t c m r to w = Done (o, w') -> pframe t w w'.
Proof.
  intros Hpc. unfold go_step. destruct (threads w !! t) as [y|]; [cbn [of_option obind]|done]. destruct (bool_decide _).
  - intros ->%goto_Done. apply quiet_goto; rewrite ?Hpc; done.
  - apply WakeAll_quiet; rewrite ?Hpc; done.
Qed.

Lemma sleep_ok t c m r to b w o w' : pcs w !! t = Some (PcSleep c m r to) -> sleep_step t c m r to b w = Done (o, w') -> pframe t w w'.
Proof.
  intros Hpc. unfold sleep_step. destruct (threads w !! t) as [y|]; [cbn [of_option obind]|done].
  destruct (_ && _)%bool; [|destruct (0 <? _)]; intros ->%goto_Done; apply quiet_goto; rewrite ?Hpc; done.
Qed.

Lemma leave_stays t c w w1 : leave_queue t c w = Done w1 -> stays w w1.
Proof.
  unfold leave_queue. destruct (SleepqLookup c (table w)) as [[sq|]|]; try done. cbn [obind of_option].
  destruct (SleepqRemove sq t (table w)) as [[b T]|]; [cbn [obind]|done]. apply set_waiters_stays.
Qed.

Lemma awake_ok t c m r e w o w' : mutex_inv w -> pcs w !! t = Some (PcAwake c m r e) ->
  awake_step t c m r e w = Done (o, w') -> pframe t w w'.
Proof.
  intros Hi Hpc. unfold awake_step. destruct (threads w !! t) as [y|]; [cbn [of_option obind]|done].
  assert (forall k w1, stays w w1 -> cont_pledge m k = Some (m, r) ->
    Lock t m NoTimeout k (set_thread t (set_mutex_obj None y) w1) = Done (o, w') -> pframe t w w') as Hlock.
  { intros k w1 Hs Hk Hl. apply (pframe_stays t w (set_thread t (set_mutex_obj None y) w1)); [exact Hs|].
    assert (pcs w1 !! t = Some (PcAwake c m r e)) as Hp by (destruct Hs as [_ ->]; done).
    eapply Lock_ok; [|cbn; by rewrite Hp|cbn; rewrite Hp, Hk; done|exact Hl]. by apply (stays_inv w). }
  destruct (_ =? 0); [by apply Hlock|]. destruct (ShouldCancel y).
  - destruct (leave_queue t c w) as [w1|] eqn:E; [cbn [obind]|done]. apply leave_stays in E. by apply Hlock.
  - destruct (e =? _); [|done]. destruct (leave_queue t c w) as [w1|] eqn:E; [cbn [obind]|done]. apply leave_stays in E. by apply Hlock.
Qed.

Lemma defer_stays t td mp x w w1 : mutexes w !! mp = Some x -> defer t td mp x w = Done w1 -> stays w w1.
Proof.
  intros Hx. unfold defer. destruct (threads w !! t) as [y|]; [cbn [of_option obind]|done].
  assert (forall w2 w1, stays w w2 -> mutexes w2 = mutexes w ->
    (let! y := of_option (threads w2 !! t) in
     Done (set_mutex mp (set_flags (Z.lor (m_flags x) PthreadMutexFlags.Deferred) x) (set_thread t (set_defer (defer_waiters y ++ [td]) y) w2))) = Done w1 ->
    stays w w1) as Hend.
  { intros w2 w3 Hs Em. destruct (threads w2 !! t) as [y2|]; [cbn [of_option obind]|done]. intros [= <-].
    eapply stays_trans; [exact Hs|]. apply (stays_set (set_thread t _ w2) mp x); [cbn; by rewrite Em|].
    unfold latch, Type_. cbn. by rewrite type_lor. }
  destruct (_ <=? _); [|by apply Hend].
  destruct (release_semas _ _) as [w2|] eqn:E; [cbn [obind]|done]. apply Hend; [exact (release_semas_stays _ _ _ E)|].
  exact (release_semas_mutexes _ _ _ E).
Qed.

Lemma mutex_of_ok td w mp x : mutex_of td w = Done (mp, x) ->
  exists y, threads w !! td = Some y /\ mutex_obj y = Some mp /\ mutexes w !! mp = Some x.
Proof.
  unfold mutex_of. destruct (threads w !! td) as [y|]; [cbn|done]. destruct (mutex_obj y) as [m|] eqn:Ey; [cbn|done].
  destruct (mutexes w !! m) as [x'|] eqn:Ex; [cbn|done]. intros [= <- <-]. eauto.
Qed.

Lemma set_waiters_mutexes c b w w1 : set_waiters c b w = Done w1 -> mutexes w1 = mutexes w.
Proof. unfold set_waiters. destruct (conds w !! c); [cbn|done]. by intros [= <-]. Qed.

Lemma CondSignal_ok t c thread w o w' : pcs w !! t = None -> Signal t c thread w = Done (o, w') -> pframe t w w'.
Proof.
  intros Hpc. assert (hold (pcs w !! t) = None) as Hh by (by rewrite Hpc).
  assert (forall r w1 o w', stays w w1 -> ret t r w1 = Done (o, w') -> pframe t w w') as Hret.
  { intros r w1 ? ? Hs ->%ret_Done. by apply quiet_ret. }
  unfold Signal. destruct (match thread with Some _ => _ | None => _ end); [by apply Hret|].
  destruct (SleepqLookup c (table w)) as [[sq|]|]; [cbn [obind]|by apply Hret|done].
  destruct (queues _ !! sq) as [q|]; [cbn [of_option obind]|done]. destruct (of_option _) as [td|]; [cbn [obind]|done].
  destruct (mutex_of td w) as [[mp x]|] eqn:Em; [cbn [obind]|done]. apply mutex_of_ok in Em as (y & _ & _ & Hx).
  destruct (SleepqRemove sq td (table w)) as [[b T]|]; [cbn [obind]|done].
  destruct (set_waiters c b _) as [w1|] eqn:E1; [cbn [obind]|done].
  pose proof (set_waiters_mutexes _ _ _ _ E1) as Em. apply set_waiters_stays in E1.
  destruct (bool_decide _).
  - destruct (defer t td mp x w1) as [w2|] eqn:E2; [cbn [obind]|done]. apply Hret. eapply stays_trans; [exact E1|].
    eapply defer_stays; [|exact E2]. rewrite Em. exact Hx.
  - intros ->%goto_Done. apply quiet_goto; [exact E1|by rewrite Hh|done].
Qed.

(** What the callback keeps, dropping a queue keeps. *)
Lemma drop_rest_keeps {S} (R : S -> Prop) (cb : Z -> S -> outcome S) :
  (forall td s s', R s -> cb td s = Done s' -> R s') ->
  forall l free T s T' s', R s -> drop_rest cb l free T s = Done (T', s') -> R s'.
Proof.
  intros Hcb. induction l as [|td l IH]; cbn; intros free T s T' s' Hs; [by intros [= <- <-]|].
  destruct (cb td s) as [s1|] eqn:E; [cbn|done]. destruct free as [|a free]; [done|].
  destruct (slots T !! td); [cbn|done]. apply IH. by eapply Hcb.
Qed.

Lemma SleepqDrop_keeps {S} (R : S -> Prop) (cb : Z -> S -> outcome S) sq T s T' s' :
  (forall td s s', R s -> cb td s = Done s' -> R s') -> R s -> SleepqDrop cb sq T s = Done (T', s') -> R s'.
Proof.
  intros Hcb Hs. unfold SleepqDrop. destruct (queues T !! sq) as [q|]; [cbn [of_option obind]|done].
  destruct (sq_blocked q) as [|td l]; [by intros [= <- <-]|]. destruct (cb td s) as [s1|] eqn:E; [cbn [obind]|done].
  destruct (slots _ !! td); [cbn [of_option obind]|done].
  destruct (drop_rest cb l _ _ s1) as [[T2 s2]|] eqn:Ed; [cbn [obind]|done]. intros [= <- <-].
  eapply drop_rest_keeps; [exact Hcb| |exact Ed]. by eapply Hcb.
Qed.

Lemma drop_cb_stays t td w w0 l w1 l1 : stays w0 w -> drop_cb t td (w, l) = Done (w1, l1) -> stays w0 w1.
Proof.
  intros Hs. unfold drop_cb. destruct (mutex_of td w) as [[mp x]|] eqn:Em; [cbn [obind]|done].
  apply mutex_of_ok in Em as (y & _ & _ & Hx). destruct (bool_decide _).
  - destruct (defer t td mp x w) as [w2|] eqn:E2; [cbn [obind]|done]. intros [= <- <-].
    eapply stays_trans; [exact Hs|]. by eapply defer_stays.
  - destruct (_ <=? _); [|by intros [= <- <-]]. destruct (release_semas l w) as [w2|] eqn:E2; [cbn [obind]|done].
    intros [= <- <-]. eapply stays_trans; [exact Hs|]. by eapply release_semas_stays.
Qed.

Lemma Broadcast_ok t c w o w' : pcs w !! t = None -> Broadcast t c w = Done (o, w') -> pframe t w w'.
Proof.
  intros Hpc. unfold Broadcast. destruct (SleepqLookup c (table w)) as [[sq|]|]; [cbn [obind]|cbn [obind]|done].
  - destruct (SleepqDrop (drop_cb t) sq (table w) (w, [])) as [[T [w1 l]]|] eqn:Ed; [cbn [obind]|done].
    assert (stays w w1) as Hs.
    { eapply (SleepqDrop_keeps (fun s => stays w s.1)) in Ed; [exact Ed| |done].
      intros td [w2 l2] [w3 l3] H2 E. by eapply drop_cb_stays. }
    destruct (set_waiters c false _) as [w2|] eqn:E2; [cbn [obind]|done]. apply set_waiters_stays in E2. intros ->%goto_Done.
    apply quiet_goto; [by eapply stays_trans; [exact Hs|exact E2]|by rewrite Hpc|done].
  - intros ->%ret_Done. apply quiet_ret; [done|by rewrite Hpc].
Qed.

(** ** Creation and the calls *)

Lemma follows_one t w w' : pframe t w w' -> follows t w w'.
Proof. apply rtc_once. Qed.

Lemma MutexInit_ok t h attr name fresh w r w1 : new_mutex fresh w -> MutexInit h attr name fresh w = Done (r, w1) ->
  pframe t w w1 /\ pcs w1 = pcs w.
Proof.
  intros Hn. assert (pframe t w w) as Hq by (split; [by apply ps_quiet|by intros u]).
  unfold MutexInit. destruct (negb _); [intros [= <- <-]; done|]. destruct fresh as [p|]; [|intros [= <- <-]; done].
  destruct (Hn p eq_refl) as (_ & Hp & Hin).
  destruct name; cbn; intros [= <- <-]; (split; [|done]); (split; [|by intros u]);
    (eapply (ps_create t _ _ p); [|exact Hin| |done]; [unfold latches; by rewrite lookup_fmap, Hp|
       unfold latches; cbn; by rewrite fmap_insert]).
Qed.

Lemma on_mutex_ok t h fresh w body o w' : mutex_inv w -> pcs w !! t = None -> new_mutex fresh w ->
  (forall m w1, mutex_inv w1 -> pcs w1 !! t = None -> body m w1 = Done (o, w') -> pframe t w1 w') ->
  on_mutex t h fresh w body = Done (o, w') -> follows t w w'.
Proof.
  intros Hi Hpc Hn Hb. unfold on_mutex. destruct (mutex_handles w !! h) as [v|] eqn:Ev; [cbn [of_option obind]|done].
  destruct (v <=? _); [|intros E; by apply follows_one, (Hb v)].
  destruct (InitStatic h fresh w) as [[r w1]|] eqn:E1; [cbn [obind]|done].
  assert (pframe t w w1 /\ pcs w1 = pcs w) as [H1 Ep].
  { revert E1. unfold InitStatic. rewrite Ev. cbn [of_option obind].
    destruct (_ || _)%bool; [by apply MutexInit_ok|]. destruct (_ =? _); [by apply MutexInit_ok|].
    intros [= <- <-]. split; [|done]. split; [by apply ps_quiet|by intros u]. }
  assert (mutex_inv w1) as Hi1 by (destruct H1; by eapply pstep_inv).
  destruct (negb _).
  - intros ->%ret_Done. eapply rtc_l; [exact H1|]. apply follows_one, quiet_ret; [done|by rewrite Ep, Hpc].
  - destruct (mutex_handles w1 !! h) as [v1|]; [cbn [of_option obind]|done]. intros E.
    eapply rtc_l; [exact H1|]. apply follows_one, (Hb v1 w1); [done|by rewrite Ep|done].
Qed.

Lemma CondInit_stays h attr name fresh w r w1 : CondInit h attr name fresh w = Done (r, w1) -> stays w w1.
Proof. unfold CondInit. destruct fresh; [|by intros [= <- <-]]. by destruct name; intros [= <- <-]. Qed.

Lemma on_cond_ok t h fresh w body o w' : mutex_inv w -> pcs w !! t = None ->
  (forall m w1, stays w w1 -> body m w1 = Done (o, w') -> pframe t w1 w') ->
  on_cond t h fresh w body = Done (o, w') -> pframe t w w'.
Proof.
  intros Hi Hpc Hb. assert (hold (pcs w !! t) = None) as Hh by (by rewrite Hpc).
  unfold on_cond. destruct (cond_handles w !! h) as [v|] eqn:Ev; [cbn [of_option obind]|done].
  destruct (v =? _).
  - destruct (CondInit h None None fresh w) as [[r w1]|] eqn:E1; [cbn [obind]|done]. apply CondInit_stays in E1.
    destruct (negb _); [intros ->%ret_Done; by apply quiet_ret|].
    destruct (cond_handles w1 !! h) as [v1|]; [cbn [of_option obind]|done]. intros E. eapply pframe_stays; [exact E1|]. by apply (Hb v1).
  - destruct (v =? _); [intros ->%ret_Done; by apply quiet_ret|]. by apply (Hb v w).
Qed.

Lemma destroy_ok t h w o w' : pcs w !! t = None -> posix_pthread_mutex_destroy t h w = Done (o, w') -> pframe t w w'.
Proof.
  intros Hpc. assert (hold (pcs w !! t) = None) as Hh by (by rewrite Hpc). unfold posix_pthread_mutex_destroy.
  destruct (mutex_handles w !! h) as [v|]; [cbn [of_option obind]|done].
  destruct (v <? _); [intros ->%ret_Done; by apply quiet_ret|]. destruct (v =? _); [intros ->%ret_Done; by apply quiet_ret|].
  destruct (mutexes w !! v) as [x|] eqn:Hx; [cbn [of_option obind]|done].
  destruct (bool_decide _) eqn:Ho; cbn [negb]; [apply bool_decide_eq_true in Ho|intros ->%ret_Done; by apply quiet_ret].
  intros ->%ret_Done. split; [|intros u Hu; cbn; by rewrite lookup_delete_ne].
  eapply (ps_delete t _ _ v (latch x)); eauto using latches_lookup; cbn; rewrite ?lookup_delete_eq; try done.
  unfold latches. cbn. by rewrite fmap_delete.
Qed.

Lemma advance_ok t lucky w o w' : mutex_inv w -> advance t lucky w = Done (o, w') -> pframe t w w'.
Proof.
  intros Hi. unfold advance. destruct (pcs w !! t) as [pc|] eqn:Hpc; [cbn [of_option obind]|done].
  destruct pc as [m n to k|m n to k|m to k|m k|m k|m d|l k|c m r to|c m r to|c m r e].
  - apply spin_ok; rewrite ?Hpc; try done. destruct (mutexes w !! m) as [x|]; [cbn [of_option obind]|done]. intros ->%goto_Done.
    apply quiet_goto; rewrite ?Hpc; done.
  - apply spin_ok; rewrite ?Hpc; try done. apply block_ok; by rewrite Hpc.
  - unfold block_step. destruct (_ && _)%bool; [by apply finish_quiet; rewrite ?Hpc|]. apply try_ok; by rewrite ?Hpc.
  - by apply own_ok.
  - apply finish_quiet; rewrite ?Hpc; done.
  - intros. by eapply unlock_step_ok.
  - by apply wake_step_ok.
  - by apply go_ok.
  - by apply sleep_ok.
  - by apply awake_ok.
Qed.

Lemma wait_call_ok t h hm to fresh w o w' : mutex_inv w -> pcs w !! t = None -> wait_call t h hm to fresh w = Done (o, w') -> pframe t w w'.
Proof.
  intros Hi Hpc.
  assert (cond_wait t h hm to fresh w = Done (o, w') -> pframe t w w') as Hw.
  { apply on_cond_ok; [done|done|]. intros c w1 [_ Ep]. destruct (mutex_handles w1 !! hm); [cbn|done]. apply Wait_ok. by rewrite Ep. }
  destruct to; [exact Hw..|]. cbn. destruct (_ || _)%bool; [|exact Hw]. intros ->%ret_Done. apply quiet_ret; [done|by rewrite Hpc].
Qed.

Lemma perform_follows op w r w' : mutex_inv w -> sync_step op w r w' -> follows (actor op) w w'.
Proof.
  intros Hi [Ha E]. assert (forall t w1, stays w w1 -> pframe t w w1) as Hst.
  { intros t w1 [El Ep]. split; [apply ps_quiet; by rewrite ?Ep|intros u _; by rewrite Ep]. }
  assert (forall t w1 r w', stays w w1 -> pcs w !! t = None -> ret t r w1 = Done (w')  -> follows t w w'.2) as Hret.
  { intros t w1 r1 w2 Hs Hpc [= <-]. apply follows_one, quiet_ret; [done|by rewrite Hpc]. }
  destruct op as [u a|h v|h|t h attr nm f|t h|t h to f|t h f b|t h|t h n f|t h n f|t h f|t h attr nm f|t h|t h hm to f|t h u f|t h f|t u|t b];
    cbn [perform actor allowed] in *; repeat match goal with H : _ /\ _ |- _ => destruct H | H : idle _ _ |- _ => destruct H end.
  - injection E as <- <-. by apply follows_one, Hst.
  - injection E as <- <-. by apply follows_one, Hst.
  - injection E as <- <-. by apply follows_one, Hst.
  - unfold scePthreadMutexInit in E. destruct (MutexInit h attr nm f w) as [[r1 w1]|] eqn:E1; [cbn [obind] in E|done].
    eapply (MutexInit_ok t) in E1 as [Hm Ep]; [|done]. apply ret_Done in E as ->. eapply rtc_l; [exact Hm|].
    apply follows_one, quiet_ret; [done|]. rewrite Ep. by replace (pcs w !! t) with (@None Pc).
  - apply follows_one. by eapply destroy_ok.
  - destruct to; (eapply on_mutex_ok; [exact Hi|done|done| |exact E]); intros m w1 Hi1 Hp E1;
      (eapply Lock_ok; [exact Hi1|by rewrite Hp| |exact E1]; done).
  - eapply on_mutex_ok; [exact Hi|done|done| |exact E]. intros m w1 Hi1 Hp E1. exact (TryLock_ok t m b w1 r w' Hi1 Hp E1).
  - unfold posix_pthread_mutex_unlock in E. destruct (mutex_handles w !! h) as [mp|]; [cbn [of_option obind] in E|done].
    destruct (mp <=? _); [by eapply (Hret t w _ (r, w'))|]. apply follows_one. by eapply Unlock_ok.
  - eapply on_mutex_ok; [exact Hi|done|done| |exact E]. intros m w1 Hi1 Hp E1. cbn beta in E1.
    destruct (mutexes w1 !! m) as [x|] eqn:Hx; [cbn in E1|done].
    apply ret_Done in E1 as ->. apply quiet_ret; [by apply (stays_set w1 m x)|by rewrite Hp].
  - eapply on_mutex_ok; [exact Hi|done|done| |exact E]. intros m w1 Hi1 Hp E1. cbn beta in E1.
    destruct (mutexes w1 !! m) as [x|] eqn:Hx; [cbn in E1|done].
    apply ret_Done in E1 as ->. apply quiet_ret; [by apply (stays_set w1 m x)|by rewrite Hp].
  - eapply on_mutex_ok; [exact Hi|done|done| |exact E]. intros m w1 Hi1 Hp E1. cbn beta in E1.
    destruct (mutexes w1 !! m) as [x|] eqn:Hx; [cbn in E1|done].
    apply ret_Done in E1 as ->. apply quiet_ret; [done|by rewrite Hp].
  - unfold scePthreadCondInit in E. destruct (CondInit h attr nm f _) as [[r1 w1]|] eqn:E1; [cbn [obind] in E|done].
    apply CondInit_stays in E1. by eapply (Hret t w1 _ (r, w')).
  - unfold posix_pthread_cond_destroy in E. destruct (cond_handles w !! h) as [v|]; [cbn [of_option obind] in E|done].
    destruct (v =? _); [by eapply (Hret t w _ (r, w'))|]. destruct (v =? _); [by eapply (Hret t w _ (r, w'))|].
    destruct (conds w !! v); [cbn [of_option obind] in E|done]. by eapply (Hret t _ _ (r, w')); [|done|exact E].
  - apply follows_one. by eapply wait_call_ok.
  - apply follows_one. eapply on_cond_ok; [exact Hi|done| |exact E]. intros c w1 [_ Ep]. apply CondSignal_ok. by rewrite Ep.
  - apply follows_one. eapply on_cond_ok; [exact Hi|done| |exact E]. intros c w1 [_ Ep]. apply Broadcast_ok. by rewrite Ep.
  - unfold posix_pthread_cancel in E. destruct (threads w !! u) as [y|]; [|by eapply (Hret t w _ (r, w'))].
    destruct (will_sleep y); [|by eapply (Hret t _ _ (r, w')); [|done|exact E]]. apply goto_Done in E as ->.
    apply follows_one, quiet_goto; [done|by replace (pcs w !! t) with (@None Pc)|done].
  - apply follows_one. by eapply advance_ok.
Qed.

Lemma boot_mutex_inv : mutex_inv boot.
Proof. split; unfold latches; cbn; intros; rewrite ?fmap_empty, ?lookup_empty in *; done. Qed.

Lemma follows_inv t w w' : mutex_inv w -> follows t w w' -> mutex_inv w'.
Proof. intros Hi H. revert Hi. induction H as [|w1 w2 w3 [Hp Hf] _ IH]; [done|]. intros Hi. apply IH. by eapply pstep_inv. Qed.

Lemma reach_mutex_inv w : sync_reach w -> mutex_inv w.
Proof. induction 1 as [|w op r w' _ IH Hs]; [apply boot_mutex_inv|]. eapply follows_inv; [exact IH|]. by eapply perform_follows. Qed.

Lemma follows_effect t w w' : mutex_inv w -> follows t w w' -> rtc (lock_effect t) (held w) (held w').
Proof.
  intros Hi H. revert Hi. induction H as [|w1 w2 w3 [Hp Hf] _ IH]; [done|]. intros Hi.
  eapply rtc_l; [by apply pstep_effect|]. apply IH. by eapply pstep_inv.
Qed.
