(* ===== verification/MutexSpec.v ===== *)
(** * What the mutexes promise *)

From stdpp Require Import gmap relations.
From S2P Require Import Prelude SleepQueue SleepFacts Threads Mutex CondVar SyncSteps MutexFacts MutexSteps.

(** The mutex a call in progress is about to lock. *)
Definition locking (pc : Pc) : option Z :=
  match pc with
  | PcSpin m _ _ k | PcYield m _ _ k | PcBlock m _ k | PcOwn m k =>
      match k with LkCancel _ => None | _ => Some m end
  | _ => None
  end.

(** A thread that owns a mutex, or holds its host lock on the way to or from
    ownership. *)
Definition inside (w : World) (t m : Z) : Prop :=
  exists x, mutexes w !! m = Some x /\ (m_owner x = Some t \/ hold (pcs w !! t) = Some m).

Lemma finish_fails t m e k w w' : e <> 0 -> (forall n, k <> LkCancel n) -> finish_lock t m e k w <> Done (Some 0, w').
Proof.
  intros He Hk. unfold finish_lock. rewrite (proj2 (Z.eqb_neq e 0) He).
  destruct k as [|n e'|n]; [| |by destruct (Hk n)]; cbn [obind]; unfold ret; [congruence|].
  destruct (Z.eqb_spec e' 0) as [->|]; congruence.
Qed.

Lemma try_continues t m k lucky again w w' :
  (let! '(got, w1) := host_try_lock t m lucky w in if got then goto t (PcOwn m k) w1 else goto t again w1) <> Done (Some 0, w').
Proof. by destruct (host_try_lock t m lucky w) as [[[] w1]|]. Qed.

Lemma own_finishes t m k w w' : (forall n, k <> LkCancel n) -> own_step t m k w = Done (Some 0, w') ->
  exists x, mutexes w' !! m = Some x /\ m_owner x = Some t.
Proof.
  intros Hk. unfold own_step. destruct (mutexes w !! m) as [x|] eqn:Hx; [cbn [of_option obind]|done]. unfold finish_lock.
  rewrite ?mutex_set. destruct k as [|n e|n]; [| |by destruct (Hk n)]; cbn.
  - intros [= <-]. eexists. cbn. by rewrite lookup_insert_eq.
  - intros [= _ <-]. eexists. cbn. by rewrite lookup_insert_eq.
Qed.

Lemma advance_locked t b w w' pc m : pcs w !! t = Some pc -> locking pc = Some m -> advance t b w = Done (Some 0, w') ->
  exists x, mutexes w' !! m = Some x /\ m_owner x = Some t.
Proof.
  intros Hpc Hl. unfold advance. rewrite Hpc. cbn [of_option obind].
  assert (forall k, match k with LkCancel _ => None | _ => Some m end = Some m -> forall n, k <> LkCancel n) as Hk by (by intros [] ?).
  destruct pc as [m' n to k|m' n to k|m' to k|m' k| | | | | |]; try done; cbn in Hl;
    assert (m' = m) as -> by (destruct k; congruence); specialize (Hk k Hl).
  - unfold spin_step. destruct (n =? 0); [by destruct (mutexes w !! m)|]. destruct (_ =? _); [done|]. by intros ?%try_continues.
  - unfold spin_step. destruct (n =? 0); [|destruct (_ =? _); [done|]; by intros ?%try_continues].
    unfold block. destruct to; [done..|]. destruct (_ || _)%bool; [by intros ?%finish_fails|done].
  - unfold block_step. destruct (_ && _)%bool; [by intros ?%finish_fails|by intros ?%try_continues].
  - by apply own_finishes.
Qed.

(** Unlocking what one does not own. *)
Lemma unlock_foreign t h m x w : mutex_handles w !! h = Some m -> THR_MUTEX_DESTROYED < m -> mutexes w !! m = Some x ->
  m_owner x <> Some t -> posix_pthread_mutex_unlock t h w = ret t POSIX_EPERM w.
Proof.
  intros Hh Hm Hx Ho. unfold posix_pthread_mutex_unlock. rewrite Hh. cbn [of_option obind].
  rewrite (proj2 (Z.leb_gt _ _) Hm). unfold Unlock. rewrite Hx. cbn [of_option obind]. by rewrite bool_decide_false.
Qed.

(** C10: over any interleaving of mutex and condition variable calls by any
    threads a mutex is a lock with one owner and a depth: every step takes a
    free lock, goes a level deeper or up, gives the lock up or leaves the locks
    alone, always those of the acting thread; never are two threads inside a
    mutex, and the host mutex is held by exactly the thread inside; a lock or a
    wait that returns 0 makes its caller the owner; unlocking a foreign mutex
    gives EPERM and changes nothing. *)
Theorem mutex_refines_lock w op r w' (Hr : sync_reach w) (Hs : sync_step op w r w') :
  rtc (lock_effect (actor op)) (held w) (held w') /\
  (forall m t u, inside w' t m -> inside w' u m -> t = u) /\
  (forall m x t, mutexes w' !! m = Some x -> m_lock x = Some t <-> inside w' t m) /\
  (forall t b pc m, op = OpAdvance t b -> pcs w !! t = Some pc -> locking pc = Some m -> r = Some 0 ->
     exists n, held w' !! m = Some (Some (t, n))) /\
  (forall t h m x, op = OpUnlock t h -> mutex_handles w !! h = Some m -> THR_MUTEX_DESTROYED < m -> mutexes w !! m = Some x ->
     m_owner x <> Some t -> r = Some POSIX_EPERM /\ held w' = held w).
Proof.
  pose proof (reach_mutex_inv w Hr) as Hi. pose proof (perform_follows op w r w' Hi Hs) as Hf.
  pose proof (follows_inv _ _ _ Hi Hf) as Hi'.
  assert (forall m x t, mutexes w' !! m = Some x -> m_lock x = Some t <-> inside w' t m) as Hin.
  { intros m x t Hx. rewrite (mi_lock _ Hi' m (latch x) t (latches_lookup _ _ _ Hx)). cbn. unfold inside.
    split; [by intros ?; exists x|]. intros (y & Hy & ?). by simplify_eq. }
  split_and!; [by apply follows_effect| |done| |].
  - intros m t u (x & Hx & Ht) (y & Hy & Hu). assert (m_lock x = Some t) by (apply (Hin m x t Hx); by exists x).
    assert (m_lock x = Some u) by (apply (Hin m x u Hx); by exists y). congruence.
  - intros t b pc m -> Hpc Hl ->. destruct Hs as [_ E]. cbn in E.
    destruct (advance_locked t b w w' pc m Hpc Hl E) as (x & Hx & Ho). exists (m_count x + 1).
    rewrite (held_lookup w' m (latch x)) by (by apply latches_lookup). unfold depth_of. cbn. by rewrite Ho.
  - intros t h m x -> Hh Hm Hx Ho. destruct Hs as [_ E]. cbn in E. rewrite (unlock_foreign t h m x w Hh Hm Hx Ho) in E.
    by injection E as <- <-.
Qed.

(** A run: one thread creates and locks a mutex. *)
Fixpoint run_ops (ops : list sync_op) (w : World) : outcome (list (option Z) * World) :=
  match ops with
  | [] => Done ([], w)
  | op :: ops => let! '(r, w) := perform op w in let! '(rs, w) := run_ops ops w in Done (r :: rs, w)
  end.

Fixpoint allowed_all (ops : list sync_op) (w : World) : Prop :=
  match ops with
  | [] => True
  | op :: ops => allowed op w /\ match perform op w with Done (_, w) => allowed_all ops w | Raised _ => True end
  end.

Lemma run_ops_reach ops w rs w' : sync_reach w -> allowed_all ops w -> run_ops ops w = Done (rs, w') -> sync_reach w'.
Proof.
  revert w rs. induction ops as [|op ops IH]; cbn; intros w rs Hr Ha; [by intros [= <- <-]|]. destruct Ha as [Ha Hn].
  destruct (perform op w) as [[r w1]|] eqn:E; [cbn|done]. destruct (run_ops ops w1) as [[rs1 w2]|] eqn:E2; [cbn|done].
  intros [= <- <-]. eapply IH; [|exact Hn|exact E2]. eapply sync_next; [exact Hr|by split].
Qed.

Definition world_of (m : outcome (list (option Z) * World)) : World := match m with Done (_, w) => w | Raised _ => boot end.

Definition demo_lock : list sync_op :=
  [OpSpawn 1 100; OpMutexMemory 8 0; OpLock 1 8 NoTimeout (Some 64); OpAdvance 1 true; OpAdvance 1 true; OpAdvance 1 true].

Lemma mutex_refines_lock_witness :
  perform (OpAdvance 1 true) (world_of (run_ops demo_lock boot)) = Done (Some 0, world_of (run_ops (demo_lock ++ [OpAdvance 1 true]) boot)) /\
  exists n, held (world_of (run_ops (demo_lock ++ [OpAdvance 1 true]) boot)) !! 64 = Some (Some (1, n)).
Proof.
  split; [by vm_compute|].
  assert (sync_reach (world_of (run_ops demo_lock boot))) as Hr.
  { eapply (run_ops_reach demo_lock boot _ _ sync_boot); [|by vm_compute]. vm_compute.
    repeat match goal with |- _ /\ _ => split end;
      try first [done | by left | by eexists | by intros p [= <-]; split_and!; [done|done|by intros ? ?]]. }
  assert (sync_step (OpAdvance 1 true) (world_of (run_ops demo_lock boot)) (Some 0) (world_of (run_ops (demo_lock ++ [OpAdvance 1 true]) boot))) as Hs.
  { split; [by eexists|by vm_compute]. }
  destruct (mutex_refines_lock _ _ _ _ Hr Hs) as (_ & _ & _ & Hl & _).
  by apply (Hl 1 true (PcOwn 64 LkReturn) 64).
Defined.
