(* ===== verification/CondSteps.v ===== *)
(** * Condition variables: the invariant and its steps *)

From stdpp Require Import gmap relations.
From S2P Require Import Prelude SleepQueue SleepFacts SleepSpec Threads Mutex CondVar SyncSteps MutexFacts MutexSteps.

(** ** The invariant of the condition variables

    No wake-up is lost: a thread that was taken off its queue and still sleeps
    has a released semaphore or is on the list of a thread that will release
    it. *)

(** The condition variable and the mutex of a wait in progress. *)
Definition wait_of (pc : option Pc) : option (Z * Z) :=
  match pc with
  | Some (PcWake _ (WkSleep c m _ _)) | Some (PcGo c m _ _) | Some (PcSleep c m _ _) | Some (PcAwake c m _ _) => Some (c, m)
  | _ => None
  end.

(** In [Sleep] or on the way to it. *)
Definition sleeping (pc : option Pc) : bool :=
  match pc with
  | Some (PcWake _ (WkSleep _ _ _ _)) | Some (PcGo _ _ _ _) | Some (PcSleep _ _ _ _) => true
  | _ => false
  end.

(** The semaphores a thread is releasing. *)
Definition waking (pc : option Pc) : list Z := match pc with Some (PcWake l _) => l | _ => [] end.

(** A wake-up for [t]: its semaphore is released, or a thread keeps or is
    carrying out the release. *)
Definition token (w : World) (t : Z) : Prop :=
  (exists y, threads w !! t = Some y /\ wake_sema y <> 0) \/
  (exists s y, threads w !! s = Some y /\ t ∈ defer_waiters y) \/
  (exists s, t ∈ waking (pcs w !! s)).

(** A thread that keeps wake-ups will release them: it owns a mutex marked so, is
    unlocking one, or is about to sleep. *)
Definition will_flush (w : World) (s : Z) : Prop :=
  (exists m x, mutexes w !! m = Some x /\ m_owner x = Some s /\ is_deferred x = true) \/
  (exists m, pcs w !! s = Some (PcUnlock m true)) \/
  (exists c m r to, pcs w !! s = Some (PcGo c m r to)).

Record cond_inv (w : World) : Prop := {
  ci_table : wf (table w);
  ci_slots t : is_Some (slots (table w) !! t) <-> is_Some (threads w !! t);
  ci_conds c x : conds w !! c = Some x -> c <> 0;
  ci_pc t : is_Some (pcs w !! t) -> is_Some (threads w !! t);
  ci_out t : wait_of (pcs w !! t) = None -> channel t (table w) = 0;
  ci_in t c m : wait_of (pcs w !! t) = Some (c, m) ->
    c <> 0 /\ (channel t (table w) = c \/ channel t (table w) = 0) /\
    exists y, threads w !! t = Some y /\ mutex_obj y = Some m;
  ci_token t : sleeping (pcs w !! t) = true -> channel t (table w) = 0 -> token w t;
  ci_defer s y : threads w !! s = Some y -> defer_waiters y <> [] -> will_flush w s;
  ci_will t y : threads w !! t = Some y -> will_sleep y = true -> exists c m r to, pcs w !! t = Some (PcGo c m r to) }.

(** ** Steps that touch mutexes only *)

Lemma quiet_cond t w w' : cond_inv w -> frames t w w' ->
  threads w' = threads w -> table w' = table w -> (forall c x, conds w' !! c = Some x -> c <> 0) ->
  (is_Some (pcs w' !! t) -> is_Some (threads w !! t)) ->
  wait_of (pcs w !! t) = None -> wait_of (pcs w' !! t) = None -> waking (pcs w !! t) = [] ->
  (forall s y, threads w !! s = Some y -> defer_waiters y <> [] -> will_flush w s -> will_flush w' s) -> cond_inv w'.
Proof.
  intros Hi Hf Et Etb Hc Hpc Hw Hw' Hk Hfl.
  assert (forall pc, wait_of pc = None -> sleeping pc = false) as Hns by (by intros [[| | | | | |? []| | |]|]).
  split; rewrite ?Et, ?Etb.
  - apply (ci_table _ Hi).
  - apply (ci_slots _ Hi).
  - exact Hc.
  - intros u Hu. destruct (decide (u = t)) as [->|]; [auto|]. rewrite Hf in Hu by done. by apply (ci_pc _ Hi).
  - intros u Hu. apply (ci_out _ Hi). destruct (decide (u = t)) as [->|]; [done|by rewrite Hf in Hu].
  - intros u c m Hu. apply (ci_in _ Hi). destruct (decide (u = t)) as [->|]; [congruence|by rewrite Hf in Hu].
  - intros u Hs H0. destruct (decide (u = t)) as [->|Hu]; [by rewrite Hns in Hs|]. rewrite Hf in Hs by done.
    destruct (ci_token _ Hi u Hs H0) as [H|[H|[s H]]]; [left; by rewrite Et|right; left; by rewrite Et|right; right].
    exists s. rewrite Hf; [done|]. intros ->. rewrite Hk in H. by apply elem_of_nil in H.
  - intros s y Hs Hd. apply (Hfl s y Hs Hd). by apply (ci_defer _ Hi s y).
  - intros u y Hy Hwl. destruct (ci_will _ Hi u y Hy Hwl) as (c & m & r & to & E). exists c, m, r, to.
    rewrite Hf; [done|]. intros ->. by rewrite E in Hw.
Qed.

(** Owned mutexes keep their owner and their flags. *)
Definition tame (w w' : World) : Prop :=
  forall m x, mutexes w !! m = Some x -> m_owner x <> None ->
  exists x', mutexes w' !! m = Some x' /\ m_owner x' = m_owner x /\ m_flags x' = m_flags x.

Lemma tame_refl w w' : mutexes w' = mutexes w -> tame w w'.
Proof. intros E m x Hx _. rewrite E. eauto. Qed.

Lemma tame_set w w' m x x' : mutexes w !! m = Some x -> mutexes w' = <[m := x']> (mutexes w) ->
  (m_owner x = None \/ m_owner x' = m_owner x) -> m_flags x' = m_flags x -> tame w w'.
Proof.
  intros Hx E Ho Hf k y Hy Hn. rewrite E. inserted m k; [|eauto]. exists x'. destruct Ho; done.
Qed.

Lemma tame_trans w w1 w2 : tame w w1 -> tame w1 w2 -> tame w w2.
Proof.
  intros H1 H2 m x Hx Ho. destruct (H1 m x Hx Ho) as (x1 & Hx1 & Eo1 & Ef1).
  destruct (H2 m x1 Hx1) as (x2 & Hx2 & Eo2 & Ef2); [congruence|]. exists x2. split_and!; congruence.
Qed.

(** A step of the lock calls. *)
Record lockish (t : Z) (w w' : World) : Prop := {
  lk_threads : threads w' = threads w;
  lk_table : table w' = table w;
  lk_conds : conds w' = conds w;
  lk_tame : tame w w';
  lk_wait : wait_of (pcs w' !! t) = None;
  lk_waking : waking (pcs w' !! t) = [] }.

Lemma lockish_goto t w w1 pc o w' : threads w1 = threads w -> table w1 = table w -> conds w1 = conds w -> tame w w1 ->
  wait_of (Some pc) = None -> waking (Some pc) = [] -> goto t pc w1 = Done (o, w') -> lockish t w w'.
Proof. intros ? ? ? ? ? ? ->%goto_Done. split; cbn; rewrite ?lookup_insert_eq; done. Qed.

Lemma lockish_ret t w w1 r o w' : threads w1 = threads w -> table w1 = table w -> conds w1 = conds w -> tame w w1 ->
  ret t r w1 = Done (o, w') -> lockish t w w'.
Proof. intros ? ? ? ? ->%ret_Done. split; cbn; rewrite ?lookup_delete_eq; done. Qed.

Lemma finish_lockish t m r k w w1 o w' : threads w1 = threads w -> table w1 = table w -> conds w1 = conds w -> tame w w1 ->
  finish_lock t m r k w1 = Done (o, w') -> lockish t w w'.
Proof.
  intros Et Eb Ec Hs. unfold finish_lock.
  destruct k as [|n e|n]; [by apply lockish_ret|..].
  all: destruct (r =? 0); [destruct (mutexes w1 !! m) as [x|] eqn:Hx; [cbn [of_option obind]|done]|cbn [obind]; by apply lockish_ret].
  all: apply lockish_ret; try done; eapply tame_trans; [exact Hs|]; eapply (tame_set w1 _ m x); [done|reflexivity|by right|done].
Qed.

Lemma block_lockish t m to k w o w' : block t m to k w = Done (o, w') -> lockish t w w'.
Proof.
  unfold block. destruct to; [by apply lockish_goto; auto using tame_refl..|].
  destruct (_ || _)%bool; [apply finish_lockish|apply lockish_goto]; auto using tame_refl.
Qed.

Lemma SelfLock_lockish t m x to k w o w' : mutexes w !! m = Some x -> SelfLock t m x to k w = Done (o, w') -> lockish t w w'.
Proof.
  intros Hx.
  assert (forall r o w', finish_lock t m r k w = Done (o, w') -> lockish t w w') as Hfin
    by (intros r ? ?; apply finish_lockish; auto using tame_refl).
  assert (forall o w', match to with
      | AbsTime tv_sec tv_nsec => if (tv_sec <? 0) || (tv_nsec <? 0) || (1000000000 <=? tv_nsec)
          then finish_lock t m POSIX_EINVAL k w else goto t (PcDoze m k) w
      | _ => goto t (PcDoze m k) w end = Done (o, w') -> lockish t w w') as Hsleep.
  { intros ? ?. destruct to; [by apply lockish_goto; auto using tame_refl..|].
    destruct (_ || _)%bool; [apply Hfin|apply lockish_goto]; auto using tame_refl. }
  unfold SelfLock. destruct (_ || _)%bool; [destruct (timed to); [apply Hsleep|apply Hfin]|].
  destruct (_ =? PthreadMutexType.Normal); [destruct (timed to); [apply Hsleep|done]|].
  destruct (_ =? PthreadMutexType.Recursive); [|apply Hfin].
  destruct (recurse_lock m x w) as [[r w1]|] eqn:Er; [cbn [obind]|done].
  apply recurse_ok in Er as [[-> ->]|[_ ->]]; [|apply Hfin]. apply finish_lockish; try done.
  eapply (tame_set w _ m x); [done|reflexivity|by right|done].
Qed.

Lemma Lock_lockish t m to k w o w' : Lock t m to k w = Done (o, w') -> lockish t w w'.
Proof.
  unfold Lock. destruct (mutexes w !! m) as [x|] eqn:Hx; [cbn [of_option obind]|done].
  destruct (bool_decide _); [by apply SelfLock_lockish|]. destruct (_ =? _); [|by apply block_lockish].
  by apply lockish_goto; auto using tame_refl.
Qed.

Lemma try_tame t m lucky w b w1 : host_try_lock t m lucky w = Done (b, w1) ->
  threads w1 = threads w /\ table w1 = table w /\ conds w1 = conds w /\ tame w w1.
Proof.
  unfold host_try_lock. destruct (mutexes w !! m) as [x|] eqn:Hx; [cbn [of_option obind]|done].
  destruct (m_lock x) as [u|]; [destruct (u =? t); [done|]|destruct lucky]; intros [= <- <-]; split_and!; auto using tame_refl.
  eapply (tame_set w _ m x); [done|reflexivity|by right|done].
Qed.

Lemma try_lockish t m lucky pc1 pc2 w o w' : wait_of (Some pc1) = None -> waking (Some pc1) = [] ->
  wait_of (Some pc2) = None -> waking (Some pc2) = [] ->
  (let! '(got, w1) := host_try_lock t m lucky w in if got then goto t pc1 w1 else goto t pc2 w1) = Done (o, w') -> lockish t w w'.
Proof.
  intros ? ? ? ?. destruct (host_try_lock t m lucky w) as [[got w1]|] eqn:E; [cbn [obind]|done].
  apply try_tame in E as (? & ? & ? & ?). destruct got; by apply lockish_goto.
Qed.

Lemma spin_lockish t m count k lucky again after w o w' :
  (forall n, wait_of (Some (again n)) = None /\ waking (Some (again n)) = []) ->
  (after w = Done (o, w') -> lockish t w w') -> spin_step t m count k lucky again after w = Done (o, w') -> lockish t w w'.
Proof.
  intros Hag Haf. unfold spin_step. destruct (count =? 0); [done|]. destruct (_ =? _); [done|].
  destruct (Hag (count - 1)). by apply try_lockish.
Qed.

Lemma own_lockish t m k w o w' : mutex_inv w -> pcs w !! t = Some (PcOwn m k) -> own_step t m k w = Done (o, w') -> lockish t w w'.
Proof.
  intros Hi Hpc. unfold own_step. destruct (mutexes w !! m) as [x|] eqn:Hx; [cbn [of_option obind]|done].
  apply finish_lockish; try done. eapply (tame_set w _ m x); [done|reflexivity| |done]. left.
  apply (mi_hold _ Hi m (latch x) t (latches_lookup _ _ _ Hx)). by rewrite Hpc.
Qed.

Lemma TryLock_lockish t m lucky w o w' : TryLock t m lucky w = Done (o, w') -> lockish t w w'.
Proof.
  unfold TryLock. destruct (mutexes w !! m) as [x|] eqn:Hx; [cbn [of_option obind]|done].
  destruct (bool_decide _).
  - unfold SelfTryLock. destruct (_ || _)%bool; [by apply lockish_ret; auto using tame_refl|].
    destruct (_ =? _); [|by apply lockish_ret; auto using tame_refl].
    destruct (recurse_lock m x w) as [[r w1]|] eqn:Er; [cbn [obind]|done].
    apply recurse_ok in Er as [[-> ->]|[_ ->]]; apply lockish_ret; auto using tame_refl.
    eapply (tame_set w _ m x); [done|reflexivity|by right|done].
  - destruct (host_try_lock t m lucky w) as [[got w1]|] eqn:E; [cbn [obind]|done]. apply try_tame in E as (? & ? & ? & ?).
    destruct got; [by apply lockish_goto|by apply lockish_ret].
Qed.

(** Such a step of a thread that neither waits nor wakes keeps the invariant. *)
Lemma tame_flush t w w' : tame w w' -> frames t w w' ->
  (forall m, pcs w !! t <> Some (PcUnlock m true)) -> (forall c m r to, pcs w !! t <> Some (PcGo c m r to)) ->
  forall s, will_flush w s -> will_flush w' s.
Proof.
  intros Ht Hf Hu Hg s [(m & x & Hx & Ho & Hd)|[[m E]|(c & m & r & to & E)]].
  - left. destruct (Ht m x Hx) as (x' & Hx' & Eo & Ef); [congruence|]. exists m, x'. split_and!; [done|congruence|].
    unfold is_deferred. by rewrite Ef.
  - right; left. exists m. rewrite Hf; [done|]. intros ->. by destruct (Hu m).
  - right; right. exists c, m, r, to. rewrite Hf; [done|]. intros ->. by destruct (Hg c m r to).
Qed.

Lemma lockish_cond t w w' : cond_inv w -> is_Some (threads w !! t) -> lockish t w w' -> frames t w w' ->
  wait_of (pcs w !! t) = None -> waking (pcs w !! t) = [] -> (forall m, pcs w !! t <> Some (PcUnlock m true)) -> cond_inv w'.
Proof.
  intros Hi Ht [Et Eb Ec Hs Hw Hk] Hf Hw0 Hk0 Hu. eapply (quiet_cond t w w'); eauto.
  - rewrite Ec. apply (ci_conds _ Hi).
  - intros s y _ _. apply (tame_flush t w w'); auto. intros c m r to E. by rewrite E in Hw0.
Qed.

(** ** Every step keeps the invariant of the condition variables *)

(** Threads keep everything but their semaphore, their list of wake-ups and
    their flags. *)
Definition same_waits (w w' : World) : Prop :=
  forall u, mutex_obj <$> threads w' !! u = mutex_obj <$> threads w !! u.

Lemma same_waits_some w w' u y : same_waits w w' -> threads w !! u = Some y ->
  exists y', threads w' !! u = Some y' /\ mutex_obj y' = mutex_obj y.
Proof. intros H E. specialize (H u). rewrite E in H. destruct (threads w' !! u) as [y'|]; [|done]. injection H as H. eauto. Qed.

Lemma same_waits_is_Some w w' u : same_waits w w' -> is_Some (threads w' !! u) <-> is_Some (threads w !! u).
Proof. intros H. rewrite <- !(fmap_is_Some mutex_obj). by rewrite H. Qed.

Lemma same_waits_refl w w' : threads w' = threads w -> same_waits w w'.
Proof. intros E u. by rewrite E. Qed.

Lemma same_waits_trans w w1 w2 : same_waits w w1 -> same_waits w1 w2 -> same_waits w w2.
Proof. intros H1 H2 u. by rewrite H2. Qed.

Lemma same_waits_set t y y' w : threads w !! t = Some y -> mutex_obj y' = mutex_obj y -> same_waits w (set_thread t y' w).
Proof. intros Ht E u. cbn. inserted t u; [rewrite Ht; cbn; by rewrite E|done]. Qed.

(** A step that moves no thread on or off a queue. *)
Lemma cond_update t w w' : cond_inv w -> frames t w w' ->
  table w' = table w -> conds w' = conds w -> same_waits w w' ->
  (is_Some (pcs w' !! t) -> is_Some (pcs w !! t) \/ is_Some (threads w !! t)) -> wait_of (pcs w' !! t) = wait_of (pcs w !! t) ->
  (forall u, sleeping (pcs w' !! u) = true -> channel u (table w) = 0 -> token w' u) ->
  (forall s y, threads w' !! s = Some y -> defer_waiters y <> [] -> will_flush w' s) ->
  (forall u y, threads w' !! u = Some y -> will_sleep y = true -> exists c m r to, pcs w' !! u = Some (PcGo c m r to)) ->
  cond_inv w'.
Proof.
  intros Hi Hf Eb Ec Hs Hpc Hw Htok Hdef Hwill.
  assert (forall u, wait_of (pcs w' !! u) = wait_of (pcs w !! u)) as Hwu by (intros u; destruct (decide (u = t)) as [->|]; [done|by rewrite Hf]).
  split; rewrite ?Eb, ?Ec; auto.
  - apply (ci_table _ Hi).
  - intros u. rewrite (same_waits_is_Some w w' u Hs). apply (ci_slots _ Hi).
  - apply (ci_conds _ Hi).
  - intros u Hu. rewrite (same_waits_is_Some w w' u Hs). destruct (decide (u = t)) as [->|].
    + destruct (Hpc Hu); [by apply (ci_pc _ Hi)|done].
    + rewrite Hf in Hu by done. by apply (ci_pc _ Hi).
  - intros u. rewrite Hwu. apply (ci_out _ Hi).
  - intros u c m. rewrite Hwu. intros H. destruct (ci_in _ Hi u c m H) as (? & ? & y & Hy & Em). split_and!; try done.
    destruct (same_waits_some w w' u y Hs Hy) as (y' & ? & E). exists y'. split; [done|congruence].
Qed.

(** Wake-ups survive. *)
Lemma token_mono t w w' u : frames t w w' ->
  (forall y, threads w !! u = Some y -> wake_sema y <> 0 -> token w' u) ->
  (forall s y, threads w !! s = Some y -> u ∈ defer_waiters y -> token w' u) ->
  (u ∈ waking (pcs w !! t) -> token w' u) -> token w u -> token w' u.
Proof.
  intros Hf H1 H2 H3 [(y & Hy & Hn)|[(s & y & Hs & Hd)|[s Hs]]]; [eauto..|].
  destruct (decide (s = t)) as [->|]; [auto|]. right; right. exists s. by rewrite Hf.
Qed.

Lemma flush_same t w w' s : mutexes w' = mutexes w -> frames t w w' -> s <> t -> will_flush w s -> will_flush w' s.
Proof.
  intros Em Hf Hs [(m & x & Hx & Ho & Hd)|[[m E]|(c & m & r & to & E)]].
  - left. exists m, x. by rewrite Em.
  - right; left. exists m. by rewrite Hf.
  - right; right. exists c, m, r, to. by rewrite Hf.
Qed.

(** ** Unlocking *)

Lemma Unlock_cond t m w o w' : cond_inv w -> idle t w -> Unlock t m w = Done (o, w') -> cond_inv w'.
Proof.
  intros Hi [Hpc Ht] E. assert (frames t w w') as Hf by (eapply (Unlock_ok t m w o w' Hpc E)). revert E. unfold Unlock.
  destruct (mutexes w !! m) as [x|] eqn:Hx; [cbn [of_option obind]|done].
  assert (forall r w1 o w', threads w1 = threads w -> table w1 = table w -> conds w1 = conds w -> tame w w1 -> frames t w w' ->
    ret t r w1 = Done (o, w') -> cond_inv w') as Hret.
  { intros r w1 o1 w2 E1 E2 E3 E4 F E. eapply (lockish_cond t w w2); eauto; rewrite ?Hpc; try done. by eapply lockish_ret. }
  destruct (bool_decide _) eqn:Ho; cbn [negb]; [apply bool_decide_eq_true in Ho|intros E; eapply Hret; eauto using tame_refl].
  destruct (_ && _)%bool; [intros E; eapply Hret; [..|exact E]; eauto; eapply (tame_set w _ m x); [done|reflexivity|by right|done]|].
  intros ->%goto_Done. eapply (quiet_cond t w _); eauto; cbn [threads table conds pcs with_pcs set_mutex with_mutexes];
    rewrite ?lookup_insert_eq, ?Hpc; try done; [apply (ci_conds _ Hi)|].
  intros s y _ _ [(k & z & Hz & Hzo & Hzd)|[[k E]|(c & k & r & to & E)]].
  - destruct (decide (k = m)) as [->|Hk].
    + simplify_eq. right; left. exists m. cbn. by rewrite lookup_insert_eq, Hzd.
    + left. exists k, z. cbn. by rewrite lookup_insert_ne.
  - right; left. exists k. assert (s <> t) by congruence. cbn. by rewrite lookup_insert_ne.
  - right; right. exists c, k, r, to. assert (s <> t) by congruence. cbn. by rewrite lookup_insert_ne.
Qed.

Lemma frames_insert t pc w w1 : pcs w1 = pcs w -> frames t w (with_pcs <[t := pc]> w1).
Proof. intros E u Hu. cbn. by rewrite E, lookup_insert_ne. Qed.

Lemma frames_delete t w w1 : pcs w1 = pcs w -> frames t w (with_pcs (delete t) w1).
Proof. intros E u Hu. cbn. by rewrite E, lookup_delete_ne. Qed.

(** Another thread's promise to flush survives a tame step. *)
Lemma flush_other t w w' s : tame w w' -> frames t w w' -> s <> t -> will_flush w s -> will_flush w' s.
Proof.
  intros Ht Hf Hs [(m & x & Hx & Ho & Hd)|[[m E]|(c & m & r & to & E)]].
  - left. destruct (Ht m x Hx) as (x' & Hx' & Eo & Ef); [congruence|]. exists m, x'. split_and!; [done|congruence|].
    unfold is_deferred. by rewrite Ef.
  - right; left. exists m. by rewrite Hf.
  - right; right. exists c, m, r, to. by rewrite Hf.
Qed.

(** Moving the kept wake-ups of [t] to its program counter. *)
Lemma flush_cond t k w w' y y' : cond_inv w -> threads w !! t = Some y -> threads w' = <[t := y']> (threads w) ->
  wake_sema y' = wake_sema y -> mutex_obj y' = mutex_obj y -> defer_waiters y' = [] -> will_sleep y' = false ->
  table w' = table w -> conds w' = conds w -> pcs w' = <[t := PcWake (defer_waiters y) k]> (pcs w) -> tame w w' ->
  wait_of (Some (PcWake [] k)) = wait_of (pcs w !! t) -> sleeping (Some (PcWake [] k)) = sleeping (pcs w !! t) ->
  waking (pcs w !! t) = [] -> cond_inv w'.
Proof.
  intros Hi Ht Et Es Em Ed Ew Eb Ec Ep Htm Hw Hsl Hk.
  assert (frames t w w') as Hf by (intros u Hu; by rewrite Ep, lookup_insert_ne).
  assert (t_in : forall u, u ∈ defer_waiters y -> token w' u).
  { intros u Hu. right; right. exists t. by rewrite Ep, lookup_insert_eq. }
  eapply (cond_update t w w'); eauto.
  - intros u. rewrite Et. inserted t u; [by rewrite Ht; cbn; rewrite Em|done].
  - rewrite Ep, lookup_insert_eq. exact Hw.
  - intros u Hu H0. assert (sleeping (pcs w !! u) = true) as Hu0.
    { destruct (decide (u = t)) as [->|]; [|by rewrite <- Hf]. rewrite Ep, lookup_insert_eq in Hu. by rewrite <- Hsl. }
    apply (token_mono t w w' u Hf); [| | |by apply (ci_token _ Hi)].
    + intros z Hz Hn. left. rewrite Et. inserted t u; [exists y'; split; [done|congruence]|eauto].
    + intros s z Hz Hd. destruct (decide (s = t)) as [->|]; [simplify_eq; auto|]. right; left. exists s, z. by rewrite Et, lookup_insert_ne.
    + rewrite Hk. by intros ?%elem_of_nil.
  - intros s z. rewrite Et. inserted t s; [by intros [= <-]|]. intros Hs Hd. apply (flush_other t w w'); auto. by apply (ci_defer _ Hi s z).
  - intros u z. rewrite Et. inserted t u; [intros [= <-]; congruence|]. intros Hz Hwl.
    destruct (ci_will _ Hi u z Hz Hwl) as (c & m & r & to & E). exists c, m, r, to. by rewrite Hf.
Qed.

Lemma set_thread_Done {A} t (w : World) (f : Thread -> outcome A) a : (let! y := of_option (threads w !! t) in f y) = Done a ->
  exists y, threads w !! t = Some y /\ f y = Done a.
Proof. destruct (threads w !! t); [cbn|done]. eauto. Qed.

Lemma unlock_step_cond t m d w o w' : mutex_inv w -> cond_inv w -> pcs w !! t = Some (PcUnlock m d) ->
  unlock_step t m d w = Done (o, w') -> cond_inv w'.
Proof.
  intros Hm Hi Hpc E. assert (frames t w w') as Hf by (eapply (unlock_step_ok t m d w o w' Hpc Hm E)). revert E. unfold unlock_step.
  destruct (host_unlock t m w) as [w1|] eqn:E1; [cbn [obind]|done]. apply host_unlock_ok in E1 as (x & Hx & _ & ->).
  assert (tame w (set_mutex m (set_lock None x) w)) as Htm by (eapply (tame_set w _ m x); [done|reflexivity|by right|done]).
  intros (y & Hy & E)%set_thread_Done. cbn in Hy.
  assert (will_sleep y = false) as Hwl.
  { destruct (will_sleep y) eqn:Ew; [|done]. destruct (ci_will _ Hi t y Hy Ew) as (c & k & r & to & ?). congruence. }
  rewrite Hwl in E. cbn [negb andb] in E. destruct d.
  - unfold WakeAll in E. cbn [threads set_mutex with_mutexes] in E. rewrite Hy in E. cbn [of_option obind] in E. apply goto_Done in E as ->.
    eapply (flush_cond t WkReturn w _ y (set_defer [] y)); eauto; by rewrite Hpc.
  - eapply (lockish_cond t w w'); eauto; rewrite ?Hpc; try done. exact (lockish_ret t w (set_mutex m (set_lock None x) w) 0 o w' eq_refl eq_refl eq_refl Htm E).
Qed.

(** ** Releasing semaphores *)

Lemma release_Done u w w1 : release u w = Done w1 ->
  exists y, threads w !! u = Some y /\ wake_sema y = 0 /\ w1 = set_thread u (set_sema 1 y) w.
Proof.
  unfold release. destruct (threads w !! u) as [y|]; [cbn|done]. destruct (Z.eqb_spec (wake_sema y) 0); [|done].
  intros [= <-]. eauto.
Qed.

(** A release changes one semaphore, and keeps all wake-ups. *)
Lemma release_token u w w1 v : release u w = Done w1 -> token w v -> token w1 v.
Proof.
  intros (y & Hy & H0 & ->)%release_Done [(z & Hz & Hn)|[(s & z & Hz & Hd)|[s Hs]]].
  - left. cbn. inserted u v; eauto.
  - right; left. cbn. destruct (decide (s = u)) as [->|]; [|exists s, z; by rewrite lookup_insert_ne]. simplify_eq.
    exists u, (set_sema 1 y). by rewrite lookup_insert_eq.
  - right; right. by exists s.
Qed.

Lemma release_sets u w w1 : release u w = Done w1 -> token w1 u.
Proof. intros (y & Hy & H0 & ->)%release_Done. left. cbn. rewrite lookup_insert_eq. eexists. split; [done|]. done. Qed.

(** What releases keep besides: everything but the semaphores. *)
Record sema_only (w w1 : World) : Prop := {
  rl_rest : mutexes w1 = mutexes w /\ conds w1 = conds w /\ table w1 = table w /\ pcs w1 = pcs w;
  rl_threads u : (fun y => set_sema 0 y) <$> threads w1 !! u = (fun y => set_sema 0 y) <$> threads w !! u;
  rl_token v : token w v -> token w1 v }.

Lemma release_sema_only u w w1 : release u w = Done w1 -> sema_only w w1.
Proof.
  intros E. pose proof (release_token u w w1) as Ht. apply release_Done in E as E'. destruct E' as (y & Hy & H0 & ->). split; auto.
  intros v. cbn. inserted u v; [by rewrite Hy|done].
Qed.

Lemma sema_only_refl w : sema_only w w.
Proof. by split. Qed.

Lemma sema_only_trans w w1 w2 : sema_only w w1 -> sema_only w1 w2 -> sema_only w w2.
Proof.
  intros [(E1 & E2 & E3 & E4) T1 K1] [(F1 & F2 & F3 & F4) T2 K2]. split; [split_and!; congruence| |auto].
  intros u. by rewrite T2, T1.
Qed.

Lemma release_semas_sema_only l w w1 : release_semas l w = Done w1 -> sema_only w w1 /\ forall u, u ∈ l -> token w1 u.
Proof.
  revert w. induction l as [|u l IH]; cbn; intros w; [intros [= <-]; split; [apply sema_only_refl|by intros ? ?%elem_of_nil]|].
  destruct (release u w) as [w2|] eqn:E; [cbn|done]. intros [Hr Hl]%IH. split; [eapply sema_only_trans; [by eapply release_sema_only|done]|].
  intros v [->|?]%elem_of_cons; [|auto]. apply (rl_token _ _ Hr). by eapply release_sets.
Qed.

(** The fields of a thread other than the semaphore, through releases. *)
Lemma sema_only_thread w w1 u y : sema_only w w1 -> threads w1 !! u = Some y ->
  exists y0, threads w !! u = Some y0 /\ set_sema 0 y = set_sema 0 y0.
Proof. intros Hr E. pose proof (rl_threads _ _ Hr u) as H. rewrite E in H. destruct (threads w !! u) as [y0|]; [|done].
  exists y0. split; [done|]. by apply (inj Some). Qed.

Lemma sema_only_same_waits w w1 : sema_only w w1 -> same_waits w w1.
Proof.
  intros Hr u. pose proof (rl_threads _ _ Hr u) as H. destruct (threads w1 !! u) as [y1|], (threads w !! u) as [y|]; try done.
  cbn in *. injection H as ? ? ?. congruence.
Qed.

(** A step of a thread that is releasing semaphores. *)
Lemma waking_cond t l k w w1 w' : cond_inv w -> pcs w !! t = Some (PcWake l k) -> sema_only w w1 -> frames t w w' ->
  threads w' = threads w1 -> mutexes w' = mutexes w1 -> conds w' = conds w1 -> table w' = table w1 ->
  wait_of (pcs w' !! t) = wait_of (pcs w !! t) -> sleeping (pcs w' !! t) = sleeping (pcs w !! t) ->
  (forall u, u ∈ l -> token w1 u -> token w' u) -> (forall u, u ∈ l -> token w1 u) -> cond_inv w'.
Proof.
  intros Hi Hpc Hr Hf Et Em Ec Eb Hw Hs Hl Hl1. destruct (rl_rest _ _ Hr) as (Fm & Fc & Fb & Fp).
  assert (tame w w') as Htm by (apply tame_refl; congruence).
  eapply (cond_update t w w'); eauto; [congruence|congruence| | | |].
  - intros u. rewrite Et. apply (sema_only_same_waits w w1 Hr).
  - intros v Hv H0. assert (sleeping (pcs w !! v) = true) as Hv0 by (destruct (decide (v = t)) as [->|]; [by rewrite <- Hs|by rewrite <- Hf]).
    pose proof (rl_token _ _ Hr v (ci_token _ Hi v Hv0 H0)) as Hk.
    apply (token_mono t w1 w' v); [intros u Hu; by rewrite Fp, Hf|left; rewrite Et; eauto|intros; right; left; rewrite Et; eauto| |done].
    rewrite Fp, Hpc. cbn. intros Hin. auto.
  - intros s y Hy Hd. rewrite Et in Hy. apply (sema_only_thread w w1 s y Hr) in Hy as (y0 & Hy0 & E). injection E as ? ? E ? ? ?.
    apply (tame_flush t w w'); rewrite ?Hpc; auto. apply (ci_defer _ Hi s y0); congruence.
  - intros u y Hy Hwl. rewrite Et in Hy. apply (sema_only_thread w w1 u y Hr) in Hy as (y0 & Hy0 & E). injection E as ? E ? ? ? ?.
    destruct (ci_will _ Hi u y0 Hy0) as (c & m & r & to & E'); [congruence|]. exists c, m, r, to. rewrite Hf; [done|congruence].
Qed.

Lemma wake_step_cond t l k w o w' : cond_inv w -> pcs w !! t = Some (PcWake l k) -> wake_step t l k w = Done (o, w') -> cond_inv w'.
Proof.
  intros Hi Hpc E. assert (frames t w w') as Hf by (eapply (wake_step_ok t l k w o w' Hpc E)).
  revert E. destruct l as [|u l]; cbn [wake_step].
  - intros E. destruct k; [apply ret_Done in E as ->|apply goto_Done in E as ->];
      (eapply (waking_cond t [] _ w w); eauto using sema_only_refl; try by intros ? ?%elem_of_nil);
      rewrite Hpc; cbn; rewrite ?lookup_delete_eq, ?lookup_insert_eq; done.
  - destruct (release u w) as [w1|] eqn:E1; [cbn [obind]|done]. intros ->%goto_Done.
    eapply (waking_cond t (u :: l) k w w1); eauto using release_sema_only; try (rewrite Hpc; cbn; rewrite lookup_insert_eq; by destruct k).
    + intros v [->|Hv]%elem_of_cons _; [|right; right; exists t; cbn; by rewrite lookup_insert_eq].
      apply release_Done in E1 as (y & Hy & H0 & ->). left. cbn. rewrite lookup_insert_eq. eexists. by split.
    + intros v [->|Hv]%elem_of_cons; [by eapply release_sets|]. right; right. exists t.
      apply release_Done in E1 as (y & Hy & H0 & ->). cbn. rewrite Hpc. by apply list_elem_of_further.
Qed.

(** ** Sleeping *)

Lemma go_cond t c m r to w o w' : cond_inv w -> pcs w !! t = Some (PcGo c m r to) -> go_step t c m r to w = Done (o, w') -> cond_inv w'.
Proof.
  intros Hi Hpc E. assert (frames t w w') as Hf by (eapply (go_ok t c m r to w o w' Hpc E)). revert E. unfold go_step.
  intros (y & Hy & E)%set_thread_Done. destruct (bool_decide _) eqn:Ed.
  - apply bool_decide_eq_true in Ed. apply goto_Done in E as ->.
    eapply (cond_update t w _); eauto; [by eapply same_waits_set|cbn; by rewrite lookup_insert_eq, Hpc|..].
    + intros u Hu H0. assert (sleeping (pcs w !! u) = true) as Hu0.
      { destruct (decide (u = t)) as [->|]; [by rewrite Hpc|by rewrite <- Hf]. }
      apply (token_mono t w _ u Hf); [| |rewrite Hpc; by intros ?%elem_of_nil|by apply (ci_token _ Hi)].
      * intros z Hz Hn. left. cbn. inserted t u; [exists (set_will_sleep false y); done|eauto].
      * intros s z Hz Hd. right; left. cbn. destruct (decide (s = t)) as [->|]; [|exists s, z; by rewrite lookup_insert_ne].
        simplify_eq. rewrite Ed in Hd. by apply elem_of_nil in Hd.
    + intros s z. cbn. inserted t s; [by intros [= <-]|]. intros Hz Hd. apply (flush_other t w); auto using tame_refl. by apply (ci_defer _ Hi s z).
    + intros u z. cbn. inserted t u; [by intros [= <-]|]. intros Hz Hwl. by apply (ci_will _ Hi u z).
  - unfold WakeAll in E. cbn [threads set_thread with_threads] in E. rewrite lookup_insert_eq in E. cbn [of_option obind] in E.
    apply goto_Done in E as ->. eapply (flush_cond t (WkSleep c m r to) w _ y (set_defer [] (set_will_sleep false y))); eauto;
      try (by rewrite Hpc); try by apply tame_refl. cbn. by rewrite insert_insert_eq.
Qed.

Lemma set_thread_id t y w : threads w !! t = Some y -> set_thread t y w = w.
Proof. intros H. destruct w. unfold set_thread, with_threads. cbn in *. by rewrite insert_id. Qed.

Lemma sleep_cond t c m r to b w o w' : cond_inv w -> pcs w !! t = Some (PcSleep c m r to) ->
  sleep_step t c m r to b w = Done (o, w') -> cond_inv w'.
Proof.
  intros Hi Hpc E. assert (frames t w w') as Hf by (eapply (sleep_ok t c m r to b w o w' Hpc E)). revert E. unfold sleep_step.
  intros (y & Hy & E)%set_thread_Done.
  assert (exists y' pc, w' = with_pcs <[t := pc]> (set_thread t y' w) /\ set_sema 0 y' = set_sema 0 y /\ wait_of (Some pc) = Some (c, m) /\
    (sleeping (Some pc) = true -> y' = y)) as (y' & pc & -> & Ey & Hw & Hs).
  { rewrite <- (set_thread_id t y w Hy) in E.
    destruct (_ && _)%bool; [apply goto_Done in E as ->; by exists y, (PcAwake c m r POSIX_ETIMEDOUT)|].
    destruct (0 <? _); apply goto_Done in E as ->; [|by exists y, (PcSleep c m r to)].
    exists (set_sema (wake_sema y - 1) y), (PcAwake c m r 0). by rewrite (set_thread_id t y w Hy). }
  assert (mutex_obj y' = mutex_obj y /\ defer_waiters y' = defer_waiters y /\ will_sleep y' = will_sleep y) as (Em & Ed & Ew) by (injection Ey; auto).
  eapply (cond_update t w _); eauto; [by eapply same_waits_set|cbn; by rewrite lookup_insert_eq, Hpc|..].
  - intros u Hu H0. cbn in Hu. destruct (decide (u = t)) as [->|Hne].
    + rewrite lookup_insert_eq in Hu. rewrite (Hs Hu) in *. assert (token w t) as Hk by (apply (ci_token _ Hi); [by rewrite Hpc|done]).
      apply (token_mono t w _ t Hf); [| |rewrite Hpc; by intros ?%elem_of_nil|done].
      * intros z Hz Hn. left. cbn. rewrite lookup_insert_eq. simplify_eq. eauto.
      * intros s z Hz Hd. right; left. cbn. exists s, z. split; [|done]. inserted t s; congruence.
    + rewrite lookup_insert_ne in Hu by done. apply (token_mono t w _ u Hf); [| |rewrite Hpc; by intros ?%elem_of_nil|by apply (ci_token _ Hi)].
      * intros z Hz Hn. left. cbn. rewrite lookup_insert_ne by done. eauto.
      * intros s z Hz Hd. right; left. cbn. destruct (decide (s = t)) as [->|]; [|exists s, z; by rewrite lookup_insert_ne].
        simplify_eq. exists t, y'. rewrite lookup_insert_eq. split; [done|congruence].
  - intros s z. cbn. destruct (decide (s = t)) as [->|Hne]; [rewrite lookup_insert_eq|rewrite lookup_insert_ne by done].
    + intros [= <-] Hd. apply (tame_flush t w); rewrite ?Hpc; auto using tame_refl. apply (ci_defer _ Hi t y); congruence.
    + intros Hz Hd. apply (flush_other t w); auto using tame_refl. by apply (ci_defer _ Hi s z).
  - intros u z. cbn. destruct (decide (u = t)) as [->|Hne]; [rewrite lookup_insert_eq|rewrite !lookup_insert_ne by done].
    + intros [= <-] Hwl. destruct (ci_will _ Hi t y Hy) as (? & ? & ? & ? & ?); congruence.
    + apply (ci_will _ Hi).
Qed.

(** ** Waiting, waking and the invariant over all histories *)

(** ** Leaving a wait *)

Lemma left_cond t w w' y y' : cond_inv w -> frames t w w' -> wf (table w') ->
  (forall u, is_Some (slots (table w') !! u) <-> is_Some (slots (table w) !! u)) ->
  (forall u, u <> t -> channel u (table w') = channel u (table w)) -> channel t (table w') = 0 ->
  (forall c x, conds w' !! c = Some x -> c <> 0) ->
  threads w !! t = Some y -> threads w' = <[t := y']> (threads w) -> defer_waiters y' = defer_waiters y -> will_sleep y' = will_sleep y ->
  wait_of (pcs w' !! t) = None -> (exists c m r e, pcs w !! t = Some (PcAwake c m r e)) -> tame w w' -> cond_inv w'.
Proof.
  intros Hi Hf Hwf Hsl Hch H0 Hc Hy Et Ed Ew Hw (c0 & m0 & r0 & e0 & Hpc) Htm.
  assert (forall pc, wait_of pc = None -> sleeping pc = false) as Hns by (by intros [[| | | | | |? []| | |]|]).
  assert (forall u, is_Some (threads w' !! u) <-> is_Some (threads w !! u)) as Hth.
  { intros u. rewrite Et. inserted t u; [rewrite Hy; split; by eexists|done]. }
  split; auto.
  - intros u. rewrite Hsl, Hth. apply (ci_slots _ Hi).
  - intros u Hu. apply Hth. destruct (decide (u = t)) as [->|]; [by eexists|]. rewrite Hf in Hu by done. by apply (ci_pc _ Hi).
  - intros u Hu. destruct (decide (u = t)) as [->|]; [done|]. rewrite Hch by done. apply (ci_out _ Hi). by rewrite <- Hf.
  - intros u c m Hu. destruct (decide (u = t)) as [->|]; [congruence|]. rewrite Hf in Hu by done. rewrite Hch by done.
    destruct (ci_in _ Hi u c m Hu) as (? & ? & z & ? & ?). split_and!; try done. exists z. by rewrite Et, lookup_insert_ne.
  - intros u Hu Hc0. destruct (decide (u = t)) as [->|Hne]; [by rewrite Hns in Hu|]. rewrite Hch in Hc0 by done. rewrite Hf in Hu by done.
    apply (token_mono t w w' u Hf); [| |rewrite Hpc; by intros ?%elem_of_nil|by apply (ci_token _ Hi)].
    + intros z Hz Hn. left. exists z. by rewrite Et, lookup_insert_ne.
    + intros s z Hz Hd. right; left. rewrite Et. destruct (decide (s = t)) as [->|]; [|exists s, z; by rewrite lookup_insert_ne].
      simplify_eq. exists t, y'. rewrite lookup_insert_eq. split; [done|congruence].
  - intros s z. rewrite Et. destruct (decide (s = t)) as [->|Hne]; [rewrite lookup_insert_eq|rewrite lookup_insert_ne by done].
    + intros [= <-] Hd. apply (tame_flush t w w'); rewrite ?Hpc; auto. apply (ci_defer _ Hi t y); congruence.
    + intros Hz Hd. apply (flush_other t w w'); auto. by apply (ci_defer _ Hi s z).
  - intros u z. rewrite Et. destruct (decide (u = t)) as [->|Hne]; [rewrite lookup_insert_eq|rewrite lookup_insert_ne by done].
    + intros [= <-] Hwl. destruct (ci_will _ Hi t y Hy) as (? & ? & ? & ? & ?); congruence.
    + intros Hz Hwl. rewrite Hf by done. by apply (ci_will _ Hi u z).
Qed.

Lemma set_waiters_conds c b w w1 : set_waiters c b w = Done w1 ->
  is_Some (conds w !! c) /\ (forall k x, conds w1 !! k = Some x -> is_Some (conds w !! k)) /\
  threads w1 = threads w /\ table w1 = table w /\ pcs w1 = pcs w /\ mutexes w1 = mutexes w /\ mutex_handles w1 = mutex_handles w.
Proof.
  unfold set_waiters. destruct (conds w !! c) as [x|] eqn:Hx; [cbn|done]. intros [= <-]. split_and!; try done.
  intros k z. cbn. inserted c k; rewrite ?Hx; by eexists.
Qed.

(** A queue found for a thread's channel, with the thread taken off it. *)
Lemma remove_channel T c sq td b T' : wf T -> SleepqLookup c T = Done (Some sq) -> channel td T = c -> c <> 0 ->
  SleepqRemove sq td T = Done (b, T') ->
  wf T' /\ (forall u, is_Some (slots T' !! u) <-> is_Some (slots T !! u)) /\
  (forall u, u <> td -> channel u T' = channel u T) /\ channel td T' = 0 /\ td ∈ waiters c T /\
  (forall u, u ∈ waiters c T' -> u ∈ waiters c T).
Proof.
  intros Hw Hl Hc Hc0 E. assert (td ∈ waiters c T) as Hin by (by apply elem_of_waiters).
  destruct (SleepqRemove_ok T c sq td Hw Hl Hin) as (T1 & a & E1 & Hw1 & Hs & Hr & _). rewrite E1 in E. injection E as <- <-.
  assert (is_Some (slots T !! td)) as Htd.
  { destruct (slots T !! td) eqn:F; [by eexists|]. unfold channel in Hc. by rewrite F in Hc. }
  split_and!; auto.
  - intros u. rewrite Hs. inserted td u; [split; [done|by eexists]|done].
  - intros u Hu. unfold channel. by rewrite Hs, lookup_insert_ne.
  - unfold channel. by rewrite Hs, lookup_insert_eq.
  - intros u. rewrite Hr. rewrite elem_of_remove_all. tauto.
Qed.

Lemma awake_cond t c m r e w o w' : cond_inv w -> mutex_inv w -> pcs w !! t = Some (PcAwake c m r e) ->
  awake_step t c m r e w = Done (o, w') -> cond_inv w'.
Proof.
  intros Hi Hm Hpc E. assert (frames t w w') as Hf by (eapply (awake_ok t c m r e w o w' Hm Hpc E)). revert E. unfold awake_step.
  intros (y & Hy & E)%set_thread_Done.
  assert (forall k w1, threads w1 = threads w -> mutexes w1 = mutexes w -> wf (table w1) ->
    (forall u, is_Some (slots (table w1) !! u) <-> is_Some (slots (table w) !! u)) ->
    (forall u, u <> t -> channel u (table w1) = channel u (table w)) -> channel t (table w1) = 0 ->
    (forall k x, conds w1 !! k = Some x -> is_Some (conds w !! k)) ->
    Lock t m NoTimeout k (set_thread t (set_mutex_obj None y) w1) = Done (o, w') -> cond_inv w') as Hlock.
  { intros k w1 E1 E2 E3 E4 E5 E6 E7 [Et Eb Ec Htm Hw Hk]%Lock_lockish.
    eapply (left_cond t w w' y (set_mutex_obj None y)); rewrite ?Eb, ?Ec; eauto; cbn in *; try congruence.
    - intros k0 x [z Hz]%E7. by apply (ci_conds _ Hi _ _ Hz).
    - eapply tame_trans; [|exact Htm]. by apply tame_refl. }
  destruct (Z.eqb_spec (channel t (table w)) 0) as [H0|H0].
  { apply (Hlock (LkCond r 0) w); try done; try apply (ci_table _ Hi). }
  destruct (ci_in _ Hi t c m) as (Hc0 & [Hc|Hc] & _); [by rewrite Hpc| |done].
  assert (forall k, (let! w1 := leave_queue t c w in Lock t m NoTimeout k (set_thread t (set_mutex_obj None y) w1)) = Done (o, w') -> cond_inv w') as Hleave.
  { intros k. unfold leave_queue. destruct (SleepqLookup c (table w)) as [[sq|]|] eqn:El; try done. cbn [obind of_option].
    destruct (SleepqRemove sq t (table w)) as [[b T]|] eqn:Er; [cbn [obind]|done].
    destruct (remove_channel _ _ _ _ _ _ (ci_table _ Hi) El Hc Hc0 Er) as (? & ? & ? & ? & _).
    destruct (set_waiters c b _) as [w1|] eqn:Es; [cbn [obind]|done]. apply set_waiters_conds in Es as (_ & Hcd & Et & Eb & _ & Em & _).
    cbn in *. apply (Hlock k w1); rewrite ?Eb; auto. }
  destruct (ShouldCancel y); [by apply Hleave in E|]. destruct (e =? _); [by apply Hleave in E|done].
Qed.

(** ** Going to wait *)

Lemma join_cond t c m r to w w' y y' : cond_inv w -> frames t w w' -> wf (table w') ->
  (forall u, is_Some (slots (table w') !! u) <-> is_Some (slots (table w) !! u)) ->
  (forall u, u <> t -> channel u (table w') = channel u (table w)) -> channel t (table w') = c -> c <> 0 ->
  (forall c x, conds w' !! c = Some x -> c <> 0) ->
  threads w !! t = Some y -> threads w' = <[t := y']> (threads w) -> defer_waiters y' = defer_waiters y -> mutex_obj y' = Some m ->
  pcs w !! t = None -> pcs w' !! t = Some (PcGo c m r to) -> (forall s, s <> t -> will_flush w s -> will_flush w' s) -> cond_inv w'.
Proof.
  intros Hi Hf Hwf Hsl Hch Hc Hc0 Hcd Hy Et Ed Em Hpc Hpc' Hfl.
  assert (forall u, is_Some (threads w' !! u) <-> is_Some (threads w !! u)) as Hth.
  { intros u. rewrite Et. inserted t u; [rewrite Hy; split; by eexists|done]. }
  split; auto.
  - intros u. rewrite Hsl, Hth. apply (ci_slots _ Hi).
  - intros u Hu. apply Hth. destruct (decide (u = t)) as [->|]; [by rewrite Hy|]. rewrite Hf in Hu by done. by apply (ci_pc _ Hi).
  - intros u Hu. destruct (decide (u = t)) as [->|]; [by rewrite Hpc' in Hu|]. rewrite Hch by done. apply (ci_out _ Hi). by rewrite <- Hf.
  - intros u c1 m1 Hu. destruct (decide (u = t)) as [->|].
    + rewrite Hpc' in Hu. injection Hu as <- <-. split_and!; [done|by left|]. exists y'. by rewrite Et, lookup_insert_eq.
    + rewrite Hf in Hu by done. rewrite Hch by done.
      destruct (ci_in _ Hi u c1 m1 Hu) as (? & ? & z & ? & ?). split_and!; try done. exists z. by rewrite Et, lookup_insert_ne.
  - intros u Hu H0. destruct (decide (u = t)) as [->|Hne]; [congruence|]. rewrite Hch in H0 by done. rewrite Hf in Hu by done.
    apply (token_mono t w w' u Hf); [| |rewrite Hpc; by intros ?%elem_of_nil|by apply (ci_token _ Hi)].
    + intros z Hz Hn. left. exists z. by rewrite Et, lookup_insert_ne.
    + intros s z Hz Hd. right; left. rewrite Et. destruct (decide (s = t)) as [->|]; [|exists s, z; by rewrite lookup_insert_ne].
      simplify_eq. exists t, y'. rewrite lookup_insert_eq. split; [done|congruence].
  - intros s z. rewrite Et. destruct (decide (s = t)) as [->|Hne]; [intros _ _; right; right; eauto|rewrite lookup_insert_ne by done].
    intros Hz Hd. apply Hfl; [done|]. by apply (ci_defer _ Hi s z).
  - intros u z. rewrite Et. destruct (decide (u = t)) as [->|Hne]; [eauto|rewrite lookup_insert_ne by done].
    intros Hz Hwl. rewrite Hf by done. by apply (ci_will _ Hi u z).
Qed.

Lemma Wait_cond t c m to w o w' : cond_inv w -> idle t w -> Wait t c m to w = Done (o, w') -> cond_inv w'.
Proof.
  intros Hi [Hpc Ht] E. assert (frames t w w') as Hf by (eapply (Wait_ok t c m to w o w' Hpc E)). revert E. unfold Wait.
  destruct (IsOwned t m w) as [e|] eqn:Eo; [cbn [obind]|done].
  destruct (Z.eqb_spec e 0) as [->|He]; cbn [negb].
  2: { intros E. eapply (lockish_cond t w w'); rewrite ?Hpc; eauto; try done. eapply lockish_ret; [..|exact E]; auto using tame_refl. }
  apply IsOwned_0 in Eo as (x & Hx & Ho). destruct (Z.eqb_spec (channel t (table w)) 0) as [H0|]; [cbn [oassert obind]|done].
  destruct (set_waiters c true w) as [w1|] eqn:E1; [cbn [obind]|done].
  apply set_waiters_conds in E1 as ([z Hz] & Hcd & Et1 & Eb1 & _ & Em1 & _). rewrite Em1, Hx. cbn [of_option obind].
  destruct (host_unlock t m _) as [w3|] eqn:E3; [cbn [obind]|done]. apply host_unlock_ok in E3 as (x3 & Hx3 & Hl & ->).
  cbn [table set_mutex with_mutexes threads] in *. rewrite Eb1, Et1.
  assert (c <> 0) as Hc0 by apply (ci_conds _ Hi c z Hz).
  destruct (proj2 (ci_slots _ Hi t) Ht) as [s Hs].
  assert (wchan s = 0) as Hs0 by (unfold channel in H0; by rewrite Hs in H0).
  destruct (SleepqAdd_ok (table w) c t s (ci_table _ Hi) Hc0 Hs Hs0) as (T & -> & HwT & EsT & _). cbn [obind].
  destruct Ht as [y Hy]. rewrite Hy. cbn [of_option obind]. intros ->%goto_Done.
  eapply (join_cond t c m _ to w _ y (set_sema _ (set_mutex_obj (Some m) (set_will_sleep true y)))); eauto; cbn [pcs table threads conds with_pcs set_thread with_threads with_table];
    rewrite ?lookup_insert_eq; try done; unfold channel; try (rewrite ?EsT, ?lookup_insert_eq; done).
  - intros u. rewrite EsT. inserted t u; [rewrite Hs; split; by eexists|done].
  - intros u Hu. by rewrite EsT, lookup_insert_ne.
  - intros k x0 [z0 Hz0]%Hcd. by apply (ci_conds _ Hi k z0).
  - cbn. by rewrite Et1.
  - intros u Hu [(k & z1 & Hz1 & Hzo & Hzd)|[[k E]|(c1 & k & r & to1 & E)]].
    + left. exists k, z1. cbn. assert (k <> m) by congruence. by rewrite !lookup_insert_ne, Em1.
    + right; left. exists k. by rewrite Hf.
    + right; right. exists c1, k, r, to1. by rewrite Hf.
Qed.

(** ** Waking *)

Definition keeps_flushing (w : World) : Prop :=
  forall s y, threads w !! s = Some y -> defer_waiters y <> [] -> will_flush w s.

(** What a signalling thread does to threads and mutexes. *)
Record wakes (w w1 : World) : Prop := {
  wk_rest : conds w1 = conds w /\ table w1 = table w /\ pcs w1 = pcs w;
  wk_same : same_waits w w1;
  wk_sleep u y1 : threads w1 !! u = Some y1 -> exists y, threads w !! u = Some y /\ will_sleep y1 = will_sleep y;
  wk_token v : token w v -> token w1 v;
  wk_defer : keeps_flushing w -> keeps_flushing w1 }.

Lemma wakes_refl w : wakes w w.
Proof. split; [done|by apply same_waits_refl|eauto|done|done]. Qed.

Lemma wakes_trans w w1 w2 : wakes w w1 -> wakes w1 w2 -> wakes w w2.
Proof.
  intros [(? & ? & ?) S1 L1 T1 D1] [(? & ? & ?) S2 L2 T2 D2]. split; [split_and!; congruence| | |auto|auto].
  - by eapply same_waits_trans.
  - intros u y2 (y1 & G1 & F1)%L2. destruct (L1 u y1 G1) as (y & ? & ?). exists y. split; congruence.
Qed.

Lemma will_flush_same w w1 s : mutexes w1 = mutexes w -> pcs w1 = pcs w -> will_flush w s -> will_flush w1 s.
Proof. unfold will_flush. by intros -> ->. Qed.

Lemma sema_only_wakes w w1 : sema_only w w1 -> wakes w w1.
Proof.
  intros Hr. destruct (rl_rest _ _ Hr) as (Em & Ec & Eb & Ep). split; [done|by apply sema_only_same_waits| |apply (rl_token _ _ Hr)|].
  - intros u y1 (y & Hy & E)%(sema_only_thread w w1 u y1 Hr). exists y. by injection E.
  - intros Hk s y1 (y & Hy & E)%(sema_only_thread w w1 s y1 Hr) Hd. apply (will_flush_same w); [done..|].
    injection E as _ _ E _ _ _. apply (Hk s y Hy). congruence.
Qed.

(** A full list is released first. *)
Lemma full_wakes t y w w1 : threads w !! t = Some y -> release_semas (defer_waiters y) (set_thread t (set_defer [] y) w) = Done w1 -> wakes w w1.
Proof.
  intros Hy [Hr Hl]%release_semas_sema_only. apply sema_only_wakes in Hr as [(E1 & E2 & E3) Hs Hls Ht Hd]. split.
  - done.
  - eapply same_waits_trans; [|exact Hs]. by eapply same_waits_set.
  - intros u y1 (z & Hz & E)%Hls. cbn in Hz. inserted t u; eauto.
  - intros v [(z & Hz & Hn)|[(s & z & Hz & Hin)|[s Hin]]].
    + apply Ht. left. cbn. inserted t v; [eexists; split; [done|done]|eauto].
    + destruct (decide (s = t)) as [->|]; [simplify_eq; by apply Hl|]. apply Ht. right; left. exists s, z. cbn. by rewrite lookup_insert_ne.
    + apply Ht. right; right. by exists s.
  - intros Hk. apply Hd. intros s z. cbn. inserted t s; [by intros [= <-]|]. intros Hz Hn.
    by apply (will_flush_same w); [..|apply (Hk s z)].
Qed.

Lemma deferred_set x : is_deferred (set_flags (Z.lor (m_flags x) PthreadMutexFlags.Deferred) x) = true.
Proof.
  unfold is_deferred. cbn. rewrite Z.land_lor_distr_l, Z.land_diag. apply negb_true_iff, Z.eqb_neq. intros [_ E]%Z.lor_eq_0_iff. done.
Qed.

(** The wake-up of [td] is kept, and the mutex [t] owns is marked. *)
Lemma keep_wakes t td mp x y w : threads w !! t = Some y -> mutexes w !! mp = Some x -> m_owner x = Some t ->
  let w1 := set_mutex mp (set_flags (Z.lor (m_flags x) PthreadMutexFlags.Deferred) x)
    (set_thread t (set_defer (defer_waiters y ++ [td]) y) w) in
  wakes w w1 /\ token w1 td.
Proof.
  intros Hy Hx Ho w1. assert (forall s, will_flush w s -> will_flush w1 s) as Hfl.
  { intros s [(k & z & Hz & Hzo & Hzd)|[H|H]]; [left; cbn|right; left; exact H|right; right; exact H].
    destruct (decide (k = mp)) as [->|]; [|exists k, z; by rewrite lookup_insert_ne].
    simplify_eq. eexists mp, _. rewrite lookup_insert_eq. split_and!; [done|done|apply deferred_set]. }
  split; [split|].
  - done.
  - intros u. cbn. inserted t u; [by rewrite Hy|done].
  - intros u y1. cbn. inserted t u; [intros [= <-]|]; eauto.
  - intros v [(z & Hz & Hn)|[(s & z & Hz & Hin)|[s Hin]]].
    + left. cbn. inserted t v; [eexists; split; [done|done]|eauto].
    + right; left. cbn. destruct (decide (s = t)) as [->|]; [|exists s, z; by rewrite lookup_insert_ne].
      simplify_eq. eexists t, _. rewrite lookup_insert_eq. split; [done|]. cbn. apply elem_of_app. by left.
    + right; right. by exists s.
  - intros Hk s z. cbn. destruct (decide (s = t)) as [->|Hs].
    + intros _ _. left. eexists mp, _. cbn. rewrite lookup_insert_eq. split_and!; [done|done|apply deferred_set].
    + rewrite lookup_insert_ne by done. intros Hz Hn. by apply Hfl, (Hk s z).
  - right; left. eexists t, _. cbn. rewrite lookup_insert_eq. split; [done|]. cbn. apply elem_of_app. right. by apply list_elem_of_singleton.
Qed.

Lemma defer_wakes t td mp x w w1 : mutexes w !! mp = Some x -> m_owner x = Some t -> defer t td mp x w = Done w1 ->
  wakes w w1 /\ token w1 td.
Proof.
  intros Hx Ho. unfold defer. intros (y & Hy & E)%set_thread_Done.
  destruct (_ <=? _).
  - destruct (release_semas _ _) as [w2|] eqn:Er; [cbn [obind] in E|done]. apply set_thread_Done in E as (y2 & Hy2 & [= <-]).
    pose proof (release_semas_mutexes _ _ _ Er) as Em. apply (full_wakes t y w w2 Hy) in Er.
    destruct (keep_wakes t td mp x y2 w2 Hy2) as [Hw Hk]; [by rewrite Em|done|]. split; [by eapply wakes_trans|done].
  - cbn [obind] in E. rewrite Hy in E. cbn [of_option obind] in E. injection E as <-. by apply keep_wakes.
Qed.

(** The wake-ups seen after the signaller's program counter moved. *)
Lemma token_frames t w w' u : threads w' = threads w -> frames t w w' -> waking (pcs w !! t) = [] -> token w u -> token w' u.
Proof.
  intros Et Hf Hk [H|[H|[s H]]]; [left; by rewrite Et|right; left; by rewrite Et|right; right]. exists s.
  rewrite Hf; [done|]. intros ->. rewrite Hk in H. by apply elem_of_nil in H.
Qed.

(** Threads [L] leave their queues, each with a wake-up. *)
Lemma woken_cond t (L : list Z) w w0 w1 w' : cond_inv w -> idle t w ->
  threads w0 = threads w -> mutexes w0 = mutexes w -> pcs w0 = pcs w -> wakes w0 w1 -> frames t w w' ->
  threads w' = threads w1 -> mutexes w' = mutexes w1 -> wf (table w') ->
  (forall u, is_Some (slots (table w') !! u) <-> is_Some (slots (table w) !! u)) ->
  (forall u, channel u (table w') = channel u (table w) \/ u ∈ L /\ channel u (table w') = 0) ->
  (forall k x, conds w' !! k = Some x -> is_Some (conds w !! k)) ->
  wait_of (pcs w' !! t) = None -> (forall u, u ∈ L -> token w' u) -> cond_inv w'.
Proof.
  intros Hi [Hpc Ht] Et0 Em0 Ep0 [(Ec & Eb & Ep) Hs Hsl Htk Hd] Hf Et Em Hwf Hslots Hch Hcd Hw HL. rewrite Ep0 in Ep.
  assert (forall pc, wait_of pc = None -> sleeping pc = false) as Hns by (by intros [[| | | | | |? []| | |]|]).
  assert (same_waits w w') as Hs' by (intros u; rewrite Et, <- Et0; apply Hs).
  assert (forall u, will_flush w1 u -> will_flush w' u) as Hfl.
  { intros u. unfold will_flush. rewrite Em, Ep.
    intros [H|[(m & E)|(c & m & r & to & E)]]; [by left|right; left; exists m|right; right; exists c, m, r, to];
      (rewrite Hf; [done|congruence]). }
  split; auto.
  - intros u. rewrite Hslots, (same_waits_is_Some w w' u Hs'). apply (ci_slots _ Hi).
  - intros c x [z Hz]%Hcd. by apply (ci_conds _ Hi c z).
  - intros u Hu. rewrite (same_waits_is_Some w w' u Hs'). destruct (decide (u = t)) as [->|]; [done|]. rewrite Hf in Hu by done. by apply (ci_pc _ Hi).
  - intros u Hu. destruct (Hch u) as [->|[_ ->]]; [|done]. apply (ci_out _ Hi).
    destruct (decide (u = t)) as [->|]; [by rewrite Hpc|by rewrite <- Hf].
  - intros u c m Hu. destruct (decide (u = t)) as [->|]; [congruence|]. rewrite Hf in Hu by done.
    destruct (ci_in _ Hi u c m Hu) as (? & ? & y & Hy & E). split_and!; [done| |].
    + destruct (Hch u) as [->|[_ ->]]; [done|by right].
    + destruct (same_waits_some w w' u y Hs' Hy) as (y' & ? & ?). exists y'. split; congruence.
  - intros u Hu H0. destruct (Hch u) as [E|[Hin _]]; [|by apply HL]. rewrite E in H0.
    destruct (decide (u = t)) as [->|]; [by rewrite Hns in Hu|]. rewrite Hf in Hu by done.
    assert (token w0 u) as Hk by (unfold token; rewrite Et0, Ep0; by apply (ci_token _ Hi)).
    apply (token_frames t w1); [done|intros v Hv; by rewrite Ep, Hf|by rewrite Ep, Hpc|by apply Htk].
  - intros s y. rewrite Et. intros Hy Hn. apply Hfl. apply (Hd) in Hy; auto.
    intros s1 y1. rewrite Et0. intros Hy1 Hn1. apply (will_flush_same w); [done..|]. by apply (ci_defer _ Hi s1 y1).
  - intros u y. rewrite Et. intros (z & Hz & E)%Hsl Hwl. rewrite Et0 in Hz. destruct (ci_will _ Hi u z Hz) as (c & m & r & to & E'); [congruence|].
    exists c, m, r, to. rewrite Hf; [done|congruence].
Qed.

Lemma Signal_cond t c thread w o w' : cond_inv w -> idle t w -> c <> 0 ->
  (forall u, thread = Some u -> channel u (table w) = c) -> Signal t c thread w = Done (o, w') -> cond_inv w'.
Proof.
  intros Hi Hid Hc0 Hth E. pose proof Hid as [Hpc Ht].
  assert (frames t w w') as Hf by (eapply (CondSignal_ok t c thread w o w' Hpc E)). revert E.
  assert (forall r o w', ret t r w = Done (o, w') -> cond_inv w') as Hret.
  { intros r o1 w2 E. assert (frames t w w2) by (apply ret_Done in E as ->; by apply frames_delete).
    eapply (lockish_cond t w w2); rewrite ?Hpc; eauto; try done. eapply lockish_ret; [..|exact E]; auto using tame_refl. }
  unfold Signal. destruct (match thread with Some _ => _ | None => _ end); [apply Hret|].
  destruct (SleepqLookup c (table w)) as [[sq|]|] eqn:El; [cbn [obind]|apply Hret|done].
  destruct (queues _ !! sq) as [q|] eqn:Hq; [cbn [of_option obind]|done]. destruct (of_option _) as [td|] eqn:Etd; [cbn [obind]|done].
  assert (channel td (table w) = c) as Hch.
  { destruct thread as [u|]; [injection Etd as <-; by apply Hth|]. apply elem_of_waiters; [apply (ci_table _ Hi)|done|].
    unfold waiters. rewrite El, Hq. destruct (sq_blocked q) as [|a l] eqn:Hb; [done|]. injection Etd as <-. cbn. rewrite Hb. apply list_elem_of_here. }
  destruct (mutex_of td w) as [[mp x]|] eqn:Em; [cbn [obind]|done]. apply mutex_of_ok in Em as (y & _ & _ & Hx).
  destruct (SleepqRemove sq td (table w)) as [[b T]|] eqn:Er; [cbn [obind]|done].
  destruct (remove_channel _ _ _ _ _ _ (ci_table _ Hi) El Hch Hc0 Er) as (HwT & HsT & HcT & H0T & _).
  destruct (set_waiters c b (with_table T w)) as [w1|] eqn:Es; [cbn [obind]|done].
  apply set_waiters_conds in Es as (_ & Hcd & Et1 & Eb1 & Ep1 & Em1 & _). cbn in Hcd, Et1, Eb1, Ep1, Em1.
  assert (forall u, channel u T = channel u (table w) \/ u ∈ [td] /\ channel u T = 0) as HchT.
  { intros u. destruct (decide (u = td)) as [->|Hu]; [right; split; [apply list_elem_of_here|done]|left; by apply HcT]. }
  destruct (bool_decide _) eqn:Ho; [apply bool_decide_eq_true in Ho|].
  - destruct (defer t td mp x w1) as [w2|] eqn:Ed; [cbn [obind]|done]. intros ->%ret_Done.
    apply (defer_wakes t td mp x w1 w2) in Ed as [Hwk Htd]; [|by rewrite Em1|done]. destruct (wk_rest _ _ Hwk) as (Ec2 & Eb2 & Ep2).
    eapply (woken_cond t [td] w w1 w2); eauto; cbn; rewrite ?Ec2, ?Eb2, ?Eb1, ?lookup_delete_eq; try done.
    intros u ->%list_elem_of_singleton. apply (token_frames t w2); [done|by apply frames_delete|by rewrite Ep2, Ep1, Hpc|done].
  - intros ->%goto_Done. eapply (woken_cond t [td] w w); eauto using wakes_refl; cbn; rewrite ?Eb1, ?lookup_insert_eq; try done.
    intros u ->%list_elem_of_singleton. right; right. exists t. cbn. rewrite lookup_insert_eq. apply list_elem_of_here.
Qed.

(** The callback of a broadcast keeps or passes on every wake-up. *)
Lemma drop_cb_wakes t td w l w1 l1 : drop_cb t td (w, l) = Done (w1, l1) ->
  wakes w w1 /\ forall u, u ∈ l \/ u = td -> u ∈ l1 \/ token w1 u.
Proof.
  unfold drop_cb. destruct (mutex_of td w) as [[mp x]|] eqn:Em; [cbn [obind]|done]. apply mutex_of_ok in Em as (y & _ & _ & Hx).
  destruct (bool_decide _) eqn:Ho; [apply bool_decide_eq_true in Ho|].
  - destruct (defer t td mp x w) as [w2|] eqn:Ed; [cbn [obind]|done]. intros [= <- <-].
    apply defer_wakes in Ed as [Hw Hk]; [|done|done]. split; [done|]. intros u [?| ->]; auto.
  - destruct (_ <=? _).
    + destruct (release_semas l w) as [w2|] eqn:Er; [cbn [obind]|done]. intros [= <- <-]. apply release_semas_sema_only in Er as [Hr Hl].
      split; [by apply sema_only_wakes|]. intros u [?| ->]; [right; auto|left; apply list_elem_of_here].
    + intros [= <- <-]. split; [apply wakes_refl|]. intros u Hu. left. rewrite elem_of_app, list_elem_of_singleton. done.
Qed.

Lemma drop_all_wakes t L w l w1 l1 : call_all (drop_cb t) L (w, l) = Done (w1, l1) ->
  wakes w w1 /\ forall u, u ∈ l \/ u ∈ L -> u ∈ l1 \/ token w1 u.
Proof.
  revert w l. induction L as [|td L IH]; cbn [call_all]; intros w l.
  - intros [= <- <-]. split; [apply wakes_refl|]. intros u [?|H]; [by left|by apply elem_of_nil in H].
  - destruct (drop_cb t td (w, l)) as [[w2 l2]|] eqn:E; [cbn [obind]|done]. intros [Hw Hl]%IH.
    apply drop_cb_wakes in E as [Hw2 Hl2]. split; [by eapply wakes_trans|].
    intros u Hu. assert (u ∈ L \/ u ∈ l \/ u = td) as [?|H] by (rewrite elem_of_cons in Hu; tauto); [auto|].
    destruct (Hl2 u H) as [?|?]; [auto|]. right. by apply (wk_token _ _ Hw).
Qed.

Lemma Broadcast_cond t c w o w' : cond_inv w -> idle t w -> Broadcast t c w = Done (o, w') -> cond_inv w'.
Proof.
  intros Hi Hid E. pose proof Hid as [Hpc Ht]. assert (frames t w w') as Hf by (eapply (Broadcast_ok t c w o w' Hpc E)). revert E.
  unfold Broadcast. destruct (SleepqLookup c (table w)) as [[sq|]|] eqn:El; [cbn [obind]|cbn [obind]|done].
  2: { intros E. eapply (lockish_cond t w w'); rewrite ?Hpc; eauto; try done. eapply lockish_ret; [..|exact E]; auto using tame_refl. }
  destruct (SleepqDrop_ok (drop_cb t) (table w) c sq (w, []) (ci_table _ Hi) El) as (T & -> & HwT & _ & _ & HsT & HcT).
  destruct (call_all _ _ _) as [[w1 l]|] eqn:Ec; [cbn [obind]|done]. apply drop_all_wakes in Ec as [Hwk Hl].
  destruct (wk_rest _ _ Hwk) as (Ec1 & Eb1 & Ep1).
  destruct (set_waiters c false _) as [w2|] eqn:Es; [cbn [obind]|done].
  apply set_waiters_conds in Es as (_ & Hcd & Et2 & Eb2 & Ep2 & Em2 & _). cbn in Hcd, Et2, Eb2, Ep2, Em2. rewrite Ec1 in Hcd.
  intros ->%goto_Done. eapply (woken_cond t (waiters c (table w)) w w w1); eauto; cbn; rewrite ?Eb2, ?lookup_insert_eq; try done.
  - intros u. rewrite HcT. destruct (bool_decide_reflect (u ∈ waiters c (table w))); auto.
  - intros u Hu. destruct (Hl u) as [H|H]; [by right|right; right; exists t; cbn; by rewrite lookup_insert_eq|].
    apply (token_frames t w1); [done|apply frames_insert; congruence|by rewrite Ep1, Hpc|done].
Qed.
