(* ===== verification/CondReach.v ===== *)
(** * The invariant of the condition variables over all histories *)

From stdpp Require Import gmap relations.
From S2P Require Import Prelude SleepQueue SleepFacts SleepSpec Threads Mutex CondVar SyncSteps MutexFacts MutexSteps MutexSpec CondSteps.

(** ** Creation, destruction and cancellation *)

(** Changes to the mutexes and the condition variables alone. *)
Lemma tame_cond w w' : cond_inv w -> threads w' = threads w -> table w' = table w -> pcs w' = pcs w ->
  (forall c x, conds w' !! c = Some x -> c <> 0) -> tame w w' -> cond_inv w'.
Proof.
  intros [Htb Hsl Hcd Hpc Hout Hin Htk Hdf Hwl] Et Eb Ep Hc Htm.
  split; unfold token; rewrite ?Et, ?Eb, ?Ep; auto. intros s y Hy Hn.
  destruct (Hdf s y Hy Hn) as [(m & x & Hx & Ho & Hd)|[H|H]]; [left|right; left; by rewrite Ep|right; right; by rewrite Ep].
  destruct (Htm m x Hx) as (x' & Hx' & Eo & Ef); [congruence|]. exists m, x'. split_and!; [done|congruence|]. unfold is_deferred. by rewrite Ef.
Qed.

Lemma spawn_cond u a w : cond_inv w -> threads w !! u = None -> pcs w !! u = None -> slots (table w) !! u = None ->
  queues (table w) !! a = None -> cond_inv (spawn u a w).
Proof.
  intros Hi Hu Hp Hs Hq. destruct (add_thread_ok (table w) u a (ci_table _ Hi) Hs Hq) as [Hwf _].
  assert (forall v, v <> u -> channel v (add_thread u a (table w)) = channel v (table w)) as Hch.
  { intros v Hv. unfold channel. cbn. by rewrite lookup_insert_ne. }
  assert (channel u (add_thread u a (table w)) = 0) as Hch0 by (unfold channel; cbn; by rewrite lookup_insert_eq).
  split; cbn; auto.
  - intros v. destruct (decide (v = u)) as [->|]; [rewrite !lookup_insert_eq; split; by eexists|rewrite !lookup_insert_ne by done; apply (ci_slots _ Hi)].
  - apply (ci_conds _ Hi).
  - intros v Hv. rewrite lookup_insert_is_Some'. right. by apply (ci_pc _ Hi).
  - intros v Hv. destruct (decide (v = u)) as [->|]; [done|]. rewrite Hch by done. by apply (ci_out _ Hi).
  - intros v c m Hv. assert (v <> u) as Hvu by (intros ->; by rewrite Hp in Hv). rewrite Hch, lookup_insert_ne by done. by apply (ci_in _ Hi).
  - intros v Hv H0. assert (v <> u) as Hvu by (intros ->; by rewrite Hp in Hv). rewrite Hch in H0 by done.
    destruct (ci_token _ Hi v Hv H0) as [(y & Hy & ?)|[(s & y & Hy & ?)|H]]; [left; exists y|right; left; exists s, y|by right; right].
    + cbn. by rewrite lookup_insert_ne.
    + cbn. rewrite lookup_insert_ne; [done|congruence].
  - intros s y. inserted u s; [by intros [= <-]|]. intros Hy Hn. by apply (ci_defer _ Hi s y).
  - intros s y. inserted u s; [by intros [= <-]|]. intros Hy Hn. by apply (ci_will _ Hi s y).
Qed.

Lemma ret_cond t r w w1 o w' : cond_inv w -> idle t w -> threads w1 = threads w -> table w1 = table w -> pcs w1 = pcs w ->
  (forall c x, conds w1 !! c = Some x -> c <> 0) -> tame w w1 -> ret t r w1 = Done (o, w') -> cond_inv w'.
Proof.
  intros Hi [Hpc Ht] Et Eb Ep Hc Htm E. assert (cond_inv w1) as Hi1 by (by eapply tame_cond).
  pose proof E as ->%ret_Done.
  eapply (lockish_cond t w1); rewrite ?Et, ?Ep, ?Hpc; eauto; try done; [|by apply frames_delete].
  eapply lockish_ret; [..|exact E]; auto using tame_refl.
Qed.

Lemma MutexInit_tame h attr name fresh w r w1 : new_mutex fresh w -> MutexInit h attr name fresh w = Done (r, w1) ->
  threads w1 = threads w /\ table w1 = table w /\ pcs w1 = pcs w /\ conds w1 = conds w /\ tame w w1.
Proof.
  intros Hn. unfold MutexInit. destruct (negb _); [intros [= <- <-]; split_and!; auto using tame_refl|].
  destruct fresh as [p|]; [|intros [= <- <-]; split_and!; auto using tame_refl]. destruct (Hn p eq_refl) as (_ & Hp & _).
  assert (forall x w2, mutexes w2 = <[p := x]> (mutexes w) -> tame w w2) as Htm.
  { intros x w2 E m z Hz _. rewrite E. rewrite lookup_insert_ne by congruence. eauto. }
  destruct name; cbn; intros [= <- <-]; (split_and!; [done..|by eapply Htm]).
Qed.

Lemma on_mutex_cond t h fresh w body o w' : cond_inv w -> mutex_inv w -> idle t w -> new_mutex fresh w ->
  (forall m w1, cond_inv w1 -> mutex_inv w1 -> idle t w1 -> body m w1 = Done (o, w') -> cond_inv w') ->
  on_mutex t h fresh w body = Done (o, w') -> cond_inv w'.
Proof.
  intros Hi Hm Hid Hn Hb. pose proof Hid as [Hpc Ht]. unfold on_mutex.
  destruct (mutex_handles w !! h) as [v|] eqn:Ev; [cbn [of_option obind]|done].
  destruct (v <=? _); [|intros E; by apply (Hb v w)].
  destruct (InitStatic h fresh w) as [[r w1]|] eqn:E1; [cbn [obind]|done].
  assert ((threads w1 = threads w /\ table w1 = table w /\ pcs w1 = pcs w /\ conds w1 = conds w /\ tame w w1) /\ pframe t w w1)
    as ((Et & Eb & Ep & Ec & Htm) & Hf).
  { revert E1. unfold InitStatic. rewrite Ev. cbn [of_option obind].
    destruct (_ || _)%bool; [intros E; split; [by eapply MutexInit_tame|by eapply (MutexInit_ok t)]|].
    destruct (_ =? _); [intros E; split; [by eapply MutexInit_tame|by eapply (MutexInit_ok t)]|].
    intros [= <- <-]. split; [split_and!; auto using tame_refl|]. split; [by apply ps_quiet|by intros u]. }
  assert (idle t w1) as Hid1 by (unfold idle; by rewrite Ep, Et).
  assert (cond_inv w1) as Hi1 by (eapply (tame_cond w); rewrite ?Ec; auto; apply (ci_conds _ Hi)).
  assert (mutex_inv w1) as Hm1 by (destruct Hf; by eapply pstep_inv).
  destruct (negb _); [intros E; eapply (ret_cond t r w1 w1); eauto using tame_refl; apply (ci_conds _ Hi1)|].
  destruct (mutex_handles w1 !! h) as [v1|]; [cbn [of_option obind]|done]. by apply (Hb v1 w1).
Qed.

Lemma CondInit_frame h attr name fresh w r w1 : cond_inv w -> new_cond fresh w -> CondInit h attr name fresh w = Done (r, w1) ->
  threads w1 = threads w /\ table w1 = table w /\ pcs w1 = pcs w /\ mutexes w1 = mutexes w /\ (forall c x, conds w1 !! c = Some x -> c <> 0).
Proof.
  intros Hi Hn. unfold CondInit. destruct fresh as [p|]; [|intros [= <- <-]; split_and!; try done; apply (ci_conds _ Hi)].
  destruct (Hn p eq_refl) as [Hp _]. unfold THR_COND_DESTROYED in Hp.
  destruct name; cbn; intros [= <- <-]; (split_and!; [done..|]); cbn; intros c x; inserted p c; try lia; apply (ci_conds _ Hi).
Qed.

Lemma on_cond_cond t h fresh w body o w' : cond_inv w -> idle t w -> new_cond fresh w ->
  (forall c w1, cond_inv w1 -> idle t w1 -> c <> 0 -> table w1 = table w ->
     (cond_handles w !! h = Some c \/ cond_handles w !! h = Some THR_COND_INITIALIZER) -> body c w1 = Done (o, w') -> cond_inv w') ->
  on_cond t h fresh w body = Done (o, w') -> cond_inv w'.
Proof.
  intros Hi Hid Hn Hb. unfold on_cond. destruct (cond_handles w !! h) as [v|] eqn:Ev; [cbn [of_option obind]|done].
  destruct (Z.eqb_spec v THR_COND_INITIALIZER) as [->|Hv].
  - destruct (CondInit h None None fresh w) as [[r w1]|] eqn:E1; [cbn [obind]|done].
    destruct (CondInit_frame _ _ _ _ _ _ _ Hi Hn E1) as (Et & Eb & Ep & Em & Hc).
    destruct (Z.eqb_spec r 0) as [->|]; cbn [negb]; [|intros E; eapply (ret_cond t r w w1); eauto using tame_refl].
    destruct (cond_handles w1 !! h) as [v1|] eqn:Ev1; [cbn [of_option obind]|done]. intros E. apply (Hb v1 w1); auto.
    + eapply (tame_cond w); eauto using tame_refl.
    + unfold idle. by rewrite Ep, Et.
    + revert E1. unfold CondInit. destruct fresh as [p|]; [|done]. cbn. intros [= <-]. cbn in Ev1. rewrite lookup_insert_eq in Ev1.
      injection Ev1 as <-. destruct (Hn p eq_refl) as [Hp _]. unfold THR_COND_DESTROYED in Hp. lia.
  - destruct (v =? _); [intros E; eapply (ret_cond t _ w w); eauto using tame_refl; apply (ci_conds _ Hi)|]. apply (Hb v w); auto.
Qed.

Lemma cancel_cond t u w o w' : cond_inv w -> idle t w -> posix_pthread_cancel t u w = Done (o, w') -> cond_inv w'.
Proof.
  intros Hi Hid. pose proof Hid as [Hpc Ht]. unfold posix_pthread_cancel. destruct (threads w !! u) as [y|] eqn:Hy;
    [|intros E; eapply (ret_cond t _ w w); eauto using tame_refl; apply (ci_conds _ Hi)].
  assert (forall w2, threads w2 = <[u := set_cancel true y]> (threads w) -> mutexes w2 = mutexes w -> table w2 = table w -> conds w2 = conds w ->
    frames t w w2 -> wait_of (pcs w2 !! t) = None -> cond_inv w2) as H.
  { intros w2 Et Em Eb Ec Hf Hw.
    assert (forall v z, threads w2 !! v = Some z -> exists z0, threads w !! v = Some z0 /\ defer_waiters z = defer_waiters z0 /\ will_sleep z = will_sleep z0) as Hth.
    { intros v z. rewrite Et. inserted u v; [intros [= <-]|]; eauto. }
    eapply (cond_update t w w2); eauto.
    - intros v. rewrite Et. inserted u v; [by rewrite Hy|done].
    - by rewrite Hpc.
    - intros v Hv H0. destruct (decide (v = t)) as [->|Hne]; [by destruct (pcs w2 !! t) as [[| | | | | |? []| | |]|]|].
      rewrite Hf in Hv by done. apply (token_mono t w w2 v Hf); [| |rewrite Hpc; by intros ?%elem_of_nil|by apply (ci_token _ Hi)].
      + intros z Hz Hn. left. rewrite Et. inserted u v; eauto.
      + intros s z Hz Hd. right; left. rewrite Et. destruct (decide (s = u)) as [->|]; [|exists s, z; by rewrite lookup_insert_ne].
        simplify_eq. eexists u, _. rewrite lookup_insert_eq. by split.
    - intros s z (z0 & Hz0 & Ed & _)%Hth Hn. apply (tame_flush t w w2); rewrite ?Hpc; auto using tame_refl. apply (ci_defer _ Hi s z0); congruence.
    - intros v z (z0 & Hz0 & _ & Ew)%Hth Hwl. destruct (ci_will _ Hi v z0 Hz0) as (c & m & r & to & E); [congruence|].
      exists c, m, r, to. rewrite Hf; [done|congruence]. }
  destruct (will_sleep y); [intros ->%goto_Done|intros ->%ret_Done]; apply H; cbn; rewrite ?lookup_insert_eq, ?lookup_delete_eq; try done;
    [by apply frames_insert|by apply frames_delete].
Qed.

(** ** Every step *)

Lemma advance_cond t lucky w o w' : cond_inv w -> mutex_inv w -> advance t lucky w = Done (o, w') -> cond_inv w'.
Proof.
  intros Hi Hm E. destruct (advance_ok t lucky w o w' Hm E) as [_ Hf]. revert E.
  unfold advance. destruct (pcs w !! t) as [pc|] eqn:Hpc; [cbn [of_option obind]|done].
  assert (is_Some (threads w !! t)) as Ht by (apply (ci_pc _ Hi); by rewrite Hpc).
  assert (wait_of (Some pc) = None -> waking (Some pc) = [] -> (forall m, pc <> PcUnlock m true) -> lockish t w w' -> cond_inv w') as Hlk.
  { intros H1 H2 H3 H. eapply (lockish_cond t w w'); rewrite ?Hpc; eauto. intros m [= ->]. by destruct (H3 m). }
  destruct pc as [m n to k|m n to k|m to k|m k|m k|m d|l k|c m r to|c m r to|c m r e]; intros E.
  - apply Hlk; [done..|]. revert E. apply spin_lockish; [done|]. destruct (mutexes w !! m) as [x|]; [cbn [of_option obind]|done].
    by apply lockish_goto; auto using tame_refl.
  - apply Hlk; [done..|]. revert E. apply spin_lockish; [done|]. apply block_lockish.
  - apply Hlk; [done..|]. revert E. unfold block_step. destruct (_ && _)%bool; [apply finish_lockish; auto using tame_refl|]. by apply try_lockish.
  - apply Hlk; [done..|]. by apply (own_lockish t m k w o w').
  - apply Hlk; [done..|]. revert E. apply finish_lockish; auto using tame_refl.
  - by eapply unlock_step_cond.
  - by eapply wake_step_cond.
  - by eapply go_cond.
  - by eapply sleep_cond.
  - by eapply awake_cond.
Qed.

(** [signalto_np] names a thread that waits on the variable, or none. *)
Definition sane (op : sync_op) (w : World) : Prop :=
  match op with
  | OpSignal _ h thread _ => thread = 0 \/ channel thread (table w) <> 0 /\ cond_handles w !! h = Some (channel thread (table w))
  | _ => True
  end.

Lemma lock_calls_cond t w w' : cond_inv w -> idle t w -> lockish t w w' -> pframe t w w' -> cond_inv w'.
Proof. intros Hi [Hpc Ht] Hl [_ Hf]. eapply (lockish_cond t w w'); rewrite ?Hpc; eauto; done. Qed.

Lemma mutex_destroy_cond t h w o w' : cond_inv w -> idle t w -> posix_pthread_mutex_destroy t h w = Done (o, w') -> cond_inv w'.
Proof.
  intros Hi Hid. pose proof (ci_conds _ Hi) as Hc. unfold posix_pthread_mutex_destroy.
  destruct (mutex_handles w !! h) as [v|]; [cbn [of_option obind]|done].
  assert (forall r o w', ret t r w = Done (o, w') -> cond_inv w') as Hret by (intros; eapply (ret_cond t _ w w); eauto using tame_refl).
  destruct (v <? _); [apply Hret|]. destruct (v =? _); [apply Hret|].
  destruct (mutexes w !! v) as [x|] eqn:Hx; [cbn [of_option obind]|done].
  destruct (bool_decide _) eqn:Ho; cbn [negb]; [|apply Hret]. apply bool_decide_eq_true in Ho.
  intros E. eapply (ret_cond t _ w _); [..|exact E]; eauto.
  intros k z Hz Hn. exists z. split; [|done]. cbn. rewrite lookup_delete_ne; [done|congruence].
Qed.

Lemma cond_destroy_cond t h w o w' : cond_inv w -> idle t w -> posix_pthread_cond_destroy t h w = Done (o, w') -> cond_inv w'.
Proof.
  intros Hi Hid. pose proof (ci_conds _ Hi) as Hc. unfold posix_pthread_cond_destroy.
  destruct (cond_handles w !! h) as [v|]; [cbn [of_option obind]|done].
  assert (forall r o w', ret t r w = Done (o, w') -> cond_inv w') as Hret by (intros; eapply (ret_cond t _ w w); eauto using tame_refl).
  destruct (v =? _); [apply Hret|]. destruct (v =? _); [apply Hret|]. destruct (conds w !! v); [cbn [of_option obind]|done].
  intros E. eapply (ret_cond t _ w _); [..|exact E]; eauto using tame_refl.
  cbn. intros c x [_ Hx]%lookup_delete_Some. by apply (Hc c x).
Qed.

(** A setter of a mutex's tuning. *)
Lemma tune_cond t m f w o w' : (forall x, m_owner (f x) = m_owner x /\ m_flags (f x) = m_flags x) -> cond_inv w -> idle t w ->
  (let! x := of_option (mutexes w !! m) in ret t 0 (set_mutex m (f x) w)) = Done (o, w') -> cond_inv w'.
Proof.
  intros Hfx Hi Hid. destruct (mutexes w !! m) as [x|] eqn:Hx; [cbn [of_option obind]|done]. destruct (Hfx x). intros E.
  eapply (ret_cond t _ w _); [..|exact E]; eauto; [apply (ci_conds _ Hi)|].
  eapply (tame_set w _ m x); [done|reflexivity|by right|done].
Qed.

Lemma perform_cond op w r w' : cond_inv w -> mutex_inv w -> sync_step op w r w' -> sane op w -> cond_inv w'.
Proof.
  intros Hi Hm [Ha E] Hsane. pose proof (ci_conds _ Hi) as Hc.
  destruct op as [u a|h v|h|t h attr nm f|t h|t h to f|t h f b|t h|t h n f|t h n f|t h f|t h attr nm f|t h|t h hm to f|t h u f|t h f|t u|t b];
    cbn [perform allowed sane] in *; repeat match goal with H : _ /\ _ |- _ => destruct H end.
  - injection E as <- <-. by apply spawn_cond.
  - injection E as <- <-. eapply (tame_cond w); eauto using tame_refl.
  - injection E as <- <-. eapply (tame_cond w); eauto using tame_refl.
  - unfold scePthreadMutexInit in E. destruct (MutexInit h attr nm f w) as [[r1 w1]|] eqn:E1; [cbn [obind] in E|done].
    apply MutexInit_tame in E1 as (Et & Eb & Ep & Ec & Htm); [|done]. eapply (ret_cond t r1 w w1); rewrite ?Ec; eauto.
  - by eapply mutex_destroy_cond.
  - assert (forall to m w1, cond_inv w1 -> mutex_inv w1 -> idle t w1 -> Lock t m to LkReturn w1 = Done (r, w') -> cond_inv w') as Hl.
    { intros to1 m w1 Hi1 Hm1 Hid1 E1. eapply (lock_calls_cond t w1); eauto using Lock_lockish.
      destruct Hid1 as [Hp _]. eapply Lock_ok; [exact Hm1|by rewrite Hp| |exact E1]. done. }
    destruct to; (eapply on_mutex_cond; [..|exact E]; eauto; intros m w1 ? ? ?; by apply Hl).
  - eapply on_mutex_cond; [..|exact E]; eauto. intros m w1 Hi1 Hm1 Hid1 E1. cbn beta in E1. eapply (lock_calls_cond t w1); eauto using TryLock_lockish.
    destruct Hid1 as [Hp _]. exact (TryLock_ok t m b w1 r w' Hm1 Hp E1).
  - unfold posix_pthread_mutex_unlock in E. destruct (mutex_handles w !! h) as [mp|]; [cbn [of_option obind] in E|done].
    destruct (mp <=? _); [eapply (ret_cond t _ w w); eauto using tame_refl|]. by eapply Unlock_cond.
  - eapply on_mutex_cond; [..|exact E]; eauto. intros m w1 ? ? ?. by apply (tune_cond t m (set_spins n)).
  - eapply on_mutex_cond; [..|exact E]; eauto. intros m w1 ? ? ?. by apply (tune_cond t m (set_yields n)).
  - eapply on_mutex_cond; [..|exact E]; eauto. intros m w1 Hi1 Hm1 Hid1. cbn beta. destruct (mutexes w1 !! m); [cbn [of_option obind]|done].
    intros E1. eapply (ret_cond t _ w1 w1); eauto using tame_refl. apply (ci_conds _ Hi1).
  - unfold scePthreadCondInit in E. destruct (CondInit h attr nm f _) as [[r1 w1]|] eqn:E1; [cbn [obind] in E|done].
    assert (cond_inv (with_cond_handle h 0 w)) as Hi0 by (eapply (tame_cond w); eauto using tame_refl).
    apply CondInit_frame in E1 as (? & ? & ? & ? & ?); [|done|done]. eapply (ret_cond t r1 w w1); eauto using tame_refl.
  - by eapply cond_destroy_cond.
  - assert (forall to, cond_wait t h hm to f w = Done (r, w') -> cond_inv w') as Hw.
    { intros to1. apply on_cond_cond; [done..|]. intros c w1 Hi1 Hid1 _ _ _. destruct (mutex_handles w1 !! hm); [cbn [of_option obind]|done]. by apply Wait_cond. }
    destruct to; [by apply (Hw _ E)..|]. cbn in E. destruct (_ || _)%bool; [eapply (ret_cond t _ w w); eauto using tame_refl|by apply (Hw _ E)].
  - eapply on_cond_cond; [..|exact E]; eauto. intros c w1 Hi1 Hid1 Hc0 Eb Hh. apply Signal_cond; auto.
    intros v. destruct (Z.eqb_spec u 0); [done|]. intros [= <-]. destruct Hsane as [?|[Hn Hv]]; [done|]. rewrite Eb. unfold THR_COND_INITIALIZER in *.
    destruct Hh as [Hh|Hh]; congruence.
  - eapply on_cond_cond; [..|exact E]; eauto. intros c w1 Hi1 Hid1 _ _ _. by apply Broadcast_cond.
  - by eapply cancel_cond.
  - by eapply advance_cond.
Qed.

Lemma boot_cond_inv : cond_inv boot.
Proof. split; cbn; try done; [apply no_queues_wf|..]; intros t; rewrite ?lookup_empty; try done; by intros []. Qed.

(** All histories in which [signalto_np] is used so. *)
Inductive cond_reach : World -> Prop :=
  | cond_boot : cond_reach boot
  | cond_next w op r w' : cond_reach w -> sync_step op w r w' -> sane op w -> cond_reach w'.

Lemma cond_reach_sync w : cond_reach w -> sync_reach w.
Proof. induction 1; [constructor|econstructor; eauto]. Qed.

Lemma cond_reach_inv w : cond_reach w -> cond_inv w.
Proof.
  induction 1 as [|w op r w' Hr IH Hs Hsane]; [apply boot_cond_inv|].
  eapply perform_cond; eauto. by apply reach_mutex_inv, cond_reach_sync.
Qed.
