(* ===== verification/CondSpec.v ===== *)
(** * What the condition variables promise

    No wake-up is lost; a signal wakes the thread queued last, a broadcast all;
    a thread that kept wake-ups delivers them when it unlocks. *)

From stdpp Require Import gmap relations.
From S2P Require Import Prelude SleepQueue SleepFacts SleepSpec Threads Mutex CondVar SyncSteps MutexFacts MutexSteps MutexSpec CondSteps CondReach.

(** A queued thread is in a wait on its variable. *)
Lemma waiter_waits w c t : cond_inv w -> c <> 0 -> t ∈ waiters c (table w) -> exists m, wait_of (pcs w !! t) = Some (c, m).
Proof.
  intros Hi Hc0 Hin. apply elem_of_waiters in Hin; [|apply (ci_table _ Hi)|done].
  destruct (wait_of (pcs w !! t)) as [[c' m]|] eqn:Ew; [|by rewrite (ci_out _ Hi t Ew) in Hin].
  destruct (ci_in _ Hi t c' m Ew) as (_ & [E|E] & _); [|congruence]. exists m. congruence.
Qed.

(** C11: over all histories of mutex and condition variable calls in which
    [pthread_cond_signalto_np] names no thread or one that waits on that very
    variable at that moment ([sane]; a thread whose wait has just timed out no
    longer does, and the code does not check it), a sleeping thread is on the queue of its variable, or its semaphore is released, or
    some thread is releasing it, or some thread keeps its wake-up; a thread
    that keeps wake-ups owns a mutex marked for it, is unlocking such a mutex or
    is about to sleep, each of which releases them; and the queues hold exactly
    the threads that wait. *)
Theorem no_wakeup_lost w (Hr : cond_reach w) :
  (forall t c m r to, pcs w !! t = Some (PcSleep c m r to) ->
     t ∈ waiters c (table w) \/
     (exists y, threads w !! t = Some y /\ wake_sema y <> 0) \/
     (exists s l k, pcs w !! s = Some (PcWake l k) /\ t ∈ l) \/
     (exists s y, threads w !! s = Some y /\ t ∈ defer_waiters y /\ will_flush w s)) /\
  (forall s y, threads w !! s = Some y -> defer_waiters y <> [] -> pcs w !! s = None ->
     exists m x, mutexes w !! m = Some x /\ m_owner x = Some s /\ is_deferred x = true) /\
  (forall c t, c <> 0 -> t ∈ waiters c (table w) -> exists m, wait_of (pcs w !! t) = Some (c, m)).
Proof.
  pose proof (cond_reach_inv w Hr) as Hi. split_and!.
  - intros t c m r to Hpc. destruct (ci_in _ Hi t c m) as (Hc0 & [Hc|Hc] & _); [by rewrite Hpc|left; by apply elem_of_waiters; [apply (ci_table _ Hi)|..]|].
    right. destruct (ci_token _ Hi t) as [H|[(s & y & Hy & Hd)|[s Hs]]]; [by rewrite Hpc|done|by left|right; right|right; left].
    + exists s, y. split_and!; [done..|]. apply (ci_defer _ Hi s y Hy). intros E. rewrite E in Hd. by apply elem_of_nil in Hd.
    + exists s. destruct (pcs w !! s) as [[| | | | | |l k| | |]|] eqn:Es; try by apply elem_of_nil in Hs. eauto.
  - intros s y Hy Hd Hpc. destruct (ci_defer _ Hi s y Hy Hd) as [H|[[m H]|(c & m & r & to & H)]]; [done|congruence..].
  - intros c t. by apply waiter_waits.
Qed.

(** ** Signals *)

(** The mutex of a queued thread is found. *)
Lemma mutex_of_waiter w td c m x : cond_inv w -> wait_of (pcs w !! td) = Some (c, m) -> mutexes w !! m = Some x -> mutex_of td w = Done (m, x).
Proof.
  intros Hi Hw Hx. destruct (ci_in _ Hi td c m Hw) as (_ & _ & y & Hy & Ey). unfold mutex_of. rewrite Hy. cbn. rewrite Ey. cbn. by rewrite Hx.
Qed.

Lemma on_cond_live t h fresh w body c : cond_handles w !! h = Some c -> THR_COND_DESTROYED < c -> on_cond t h fresh w body = body c w.
Proof.
  intros Hh Hc. unfold on_cond. rewrite Hh. cbn [of_option obind]. unfold THR_COND_DESTROYED, THR_COND_INITIALIZER in *.
  by rewrite !(proj2 (Z.eqb_neq _ _)) by lia.
Qed.

Lemma lookup_nonempty T c td l : waiters c T = td :: l ->
  exists sq q, SleepqLookup c T = Done (Some sq) /\ queues T !! sq = Some q /\ sq_blocked q = td :: l.
Proof.
  unfold waiters. destruct (SleepqLookup c T) as [[sq|]|]; try done. destruct (queues T !! sq) as [q|] eqn:Hq; cbn; [|done]. eauto.
Qed.

Lemma lookup_no_waiters T c : wf T -> waiters c T = [] -> SleepqLookup c T = Done None.
Proof.
  intros Hwf Ew. pose proof Hwf as [role Hw]. destruct (SleepqLookup_ok role T c Hw) as [(a & q & El & _)|[E _]]; [|done].
  by destruct (SleepqLookup_found T c a Hwf El) as (? & ? & ? & _ & _ & _ & _ & _ & Eq & Hne); rewrite Ew in Eq; rewrite <- Eq in Hne.
Qed.

Lemma set_waiters_live c b w x : conds w !! c = Some x -> set_waiters c b w = Done (with_conds <[c := mkCond b (clock_id x) (c_name x)]> w).
Proof. intros H. unfold set_waiters. by rewrite H. Qed.

(** Keeping a wake-up while the list has room. *)
Lemma defer_room t td mp x y w : threads w !! t = Some y -> Z.of_nat (length (defer_waiters y)) < MaxDeferWaiters ->
  defer t td mp x w = Done (set_mutex mp (set_flags (Z.lor (m_flags x) PthreadMutexFlags.Deferred) x)
    (set_thread t (set_defer (defer_waiters y ++ [td]) y) w)).
Proof. intros Hy Hl. unfold defer. rewrite Hy. cbn [of_option obind]. rewrite (proj2 (Z.leb_gt _ _) Hl). cbn [obind]. by rewrite Hy. Qed.

Lemma remove_head td (l : list Z) : NoDup (td :: l) -> remove_all td (td :: l) = l.
Proof.
  intros [Hn _]%NoDup_cons. unfold remove_all. rewrite filter_cons_False by tauto. by apply remove_all_absent.
Qed.

(** a signal takes the thread that queued last off the queue and leaves the
    other threads queued; if the caller owns the mutex that thread waits with,
    the wake-up joins the caller's list, the mutex is marked and the call
    returns 0, otherwise the call goes on to release the thread's semaphore. *)
Theorem signal_wakes_first w t h c cx fresh td l mp x y (Hr : cond_reach w) (Hid : idle t w)
  (Hh : cond_handles w !! h = Some c) (Hc : THR_COND_DESTROYED < c) (Hcx : conds w !! c = Some cx)
  (Hl : waiters c (table w) = td :: l) (Hw : wait_of (pcs w !! td) = Some (c, mp)) (Hx : mutexes w !! mp = Some x)
  (Hy : threads w !! t = Some y) (Hroom : Z.of_nat (length (defer_waiters y)) < MaxDeferWaiters) :
  exists w', perform (OpSignal t h 0 fresh) w = Done (if bool_decide (m_owner x = Some t) then Some 0 else None, w') /\
    waiters c (table w') = l /\ (forall c', c' <> c -> waiters c' (table w') = waiters c' (table w)) /\
    (forall cx', conds w' !! c = Some cx' -> has_user_waiters cx' = negb (bool_decide (l = []))) /\
    (m_owner x = Some t -> pcs w' !! t = None /\
       (exists y', threads w' !! t = Some y' /\ defer_waiters y' = defer_waiters y ++ [td]) /\
       exists x', mutexes w' !! mp = Some x' /\ m_owner x' = Some t /\ is_deferred x' = true) /\
    (m_owner x <> Some t -> pcs w' !! t = Some (PcWake [td] WkReturn)).
Proof.
  pose proof (cond_reach_inv w Hr) as Hi. pose proof (ci_table _ Hi) as Hwf. destruct Hid as [Hpc _].
  destruct (lookup_nonempty _ _ _ _ Hl) as (sq & q & El & Hq & Hb).
  destruct (SleepqRemove_ok (table w) c sq td Hwf El) as (T & a & Er & _ & _ & Hrem & Hoth); [rewrite Hl; apply list_elem_of_here|].
  rewrite Hl in Hrem. rewrite remove_head in Hrem by (rewrite <- Hl; by apply waiters_NoDup).
  cbn [perform]. unfold posix_pthread_cond_signalto_np. rewrite (on_cond_live t h fresh w _ c Hh Hc). unfold Signal.
  rewrite El. cbn [obind Z.eqb]. rewrite Hq. cbn [of_option obind]. rewrite Hb. cbn [head of_option obind].
  rewrite (mutex_of_waiter w td c mp x Hi Hw Hx). cbn [obind]. rewrite Er. cbn [obind].
  rewrite (set_waiters_live c _ (with_table T w) cx Hcx). cbn [obind]. rewrite Hrem.
  destruct (bool_decide_reflect (m_owner x = Some t)) as [Ho|Ho].
  - erewrite defer_room by eauto. eexists. split; [reflexivity|]. cbn. split_and!; try done.
    + intros cx'. rewrite lookup_insert_eq. by intros [= <-].
    + intros _. split_and!; [by rewrite lookup_delete_eq|by eexists; rewrite lookup_insert_eq|].
      eexists. rewrite lookup_insert_eq. split_and!; [done|done|apply deferred_set].
  - eexists. split; [reflexivity|]. cbn. split_and!; try done.
    + intros cx'. rewrite lookup_insert_eq. by intros [= <-].
    + intros _. by rewrite lookup_insert_eq.
Qed.

(** ** Broadcasts *)

(** Whether [t] owns the mutex [u] waits with. *)
Definition owns_for (w : World) (t u : Z) : bool :=
  match mutex_of u w with Done (_, x) => bool_decide (m_owner x = Some t) | Raised _ => false end.

Definition found (w : World) (u : Z) : Prop := exists mp x, mutex_of u w = Done (mp, x).

(** Keeping a wake-up changes no waiter's mutex and no owner. *)
Lemma defer_found t td mp x y w u : threads w !! t = Some y -> mutexes w !! mp = Some x ->
  let w1 := set_mutex mp (set_flags (Z.lor (m_flags x) PthreadMutexFlags.Deferred) x)
    (set_thread t (set_defer (defer_waiters y ++ [td]) y) w) in
  found w u -> found w1 u /\ owns_for w1 t u = owns_for w t u.
Proof.
  intros Hy Hx w1 (m & z & E). unfold found, owns_for. rewrite E.
  apply mutex_of_ok in E as (yu & Hyu & Em & Hz).
  assert (exists y1, threads w1 !! u = Some y1 /\ mutex_obj y1 = Some m) as (y1 & Hy1 & Em1).
  { cbn. inserted t u; eauto. }
  assert (exists z1, mutexes w1 !! m = Some z1 /\ m_owner z1 = m_owner z) as (z1 & Hz1 & Eo).
  { cbn. inserted mp m; eauto. }
  assert (mutex_of u w1 = Done (m, z1)) as -> by (unfold mutex_of; rewrite Hy1; cbn [of_option obind]; rewrite Em1; cbn [of_option obind]; by rewrite Hz1).
  rewrite Eo. eauto.
Qed.

Lemma drop_all_exact t L : forall w l y, threads w !! t = Some y -> (forall u, u ∈ L -> found w u) ->
  Z.of_nat (length (defer_waiters y) + length L) <= MaxDeferWaiters -> Z.of_nat (length l + length L) <= MaxDeferWaiters ->
  exists w1 y1, call_all (drop_cb t) L (w, l) = Done (w1, l ++ List.filter (fun u => negb (owns_for w t u)) L) /\
    threads w1 !! t = Some y1 /\ defer_waiters y1 = defer_waiters y ++ List.filter (owns_for w t) L.
Proof.
  induction L as [|td L IH]; intros w l y Hy Hf Hd Hl.
  { exists w, y. cbn. by rewrite !app_nil_r. }
  cbn [length] in Hd, Hl. assert (found w td) as (mp & x & Em) by (apply Hf, list_elem_of_here).
  assert (owns_for w t td = bool_decide (m_owner x = Some t)) as Eo by (unfold owns_for; by rewrite Em).
  cbn [call_all]. unfold drop_cb at 1. rewrite Em. cbn [obind]. rewrite <- Eo.
  destruct (owns_for w t td) eqn:Et.
  - rewrite (defer_room t td mp x y w Hy) by lia. cbn [obind]. set (w1 := set_mutex _ _ _).
    apply mutex_of_ok in Em as (yu & _ & _ & Hx).
    assert (forall u, u ∈ L -> found w1 u /\ owns_for w1 t u = owns_for w t u) as Hk.
    { intros u Hu. apply (defer_found t td mp x y w u Hy Hx). apply Hf. by apply list_elem_of_further. }
    destruct (IH w1 l (set_defer (defer_waiters y ++ [td]) y)) as (w2 & y2 & E2 & Hy2 & Hd2);
      [cbn; by rewrite lookup_insert_eq|by intros u [? _]%Hk|cbn; rewrite length_app; cbn; lia|lia|].
    exists w2, y2. rewrite E2. cbn [List.filter]. rewrite Et. cbn [negb]. split_and!; [|done|].
    + do 3 f_equal. apply List.filter_ext_in. intros u Hu%list_elem_of_In. by rewrite (proj2 (Hk u Hu)).
    + rewrite Hd2. cbn [defer_waiters set_defer]. rewrite <- app_assoc. cbn [app]. do 2 f_equal.
      apply List.filter_ext_in. intros u Hu%list_elem_of_In. by rewrite (proj2 (Hk u Hu)).
  - rewrite (proj2 (Z.leb_gt _ _)) by lia. cbn [obind].
    destruct (IH w (l ++ [td]) y) as (w2 & y2 & E2 & Hy2 & Hd2); [done|intros u Hu; apply Hf; by apply list_elem_of_further|lia|rewrite length_app; cbn; lia|].
    exists w2, y2. rewrite E2. cbn [List.filter]. rewrite Et. cbn [negb]. by rewrite <- app_assoc.
Qed.

(** a broadcast empties the queue of the variable and no other; of the
    threads that waited, those whose mutex the caller owns join the caller's
    list, the others are the ones whose semaphores the call goes on to
    release, in the order of the queue. *)
Theorem broadcast_wakes_all w t h c cx fresh y (Hr : cond_reach w) (Hid : idle t w)
  (Hh : cond_handles w !! h = Some c) (Hc : THR_COND_DESTROYED < c) (Hcx : conds w !! c = Some cx)
  (Hm : forall u m, u ∈ waiters c (table w) -> wait_of (pcs w !! u) = Some (c, m) -> is_Some (mutexes w !! m))
  (Hy : threads w !! t = Some y) (Hroom : Z.of_nat (length (defer_waiters y) + length (waiters c (table w))) <= MaxDeferWaiters) :
  exists w' y', perform (OpBroadcast t h fresh) w = Done (if bool_decide (waiters c (table w) = []) then Some 0 else None, w') /\
    waiters c (table w') = [] /\ (forall c', c' <> c -> waiters c' (table w') = waiters c' (table w)) /\
    threads w' !! t = Some y' /\ defer_waiters y' = defer_waiters y ++ List.filter (owns_for w t) (waiters c (table w)) /\
    (waiters c (table w) <> [] ->
       pcs w' !! t = Some (PcWake (List.filter (fun u => negb (owns_for w t u)) (waiters c (table w))) WkReturn)).
Proof.
  pose proof (cond_reach_inv w Hr) as Hi. pose proof (ci_table _ Hi) as Hwf. pose proof (ci_conds _ Hi c cx Hcx) as Hc0.
  cbn [perform]. unfold posix_pthread_cond_broadcast. rewrite (on_cond_live t h fresh w _ c Hh Hc). unfold Broadcast.
  destruct (decide (waiters c (table w) = [])) as [Ew|Ew].
  { rewrite (lookup_no_waiters _ _ Hwf Ew), Ew. cbn [obind]. eexists _, y. split; [reflexivity|]. cbn. by rewrite app_nil_r. }
  destruct (waiters c (table w)) as [|td l] eqn:El0; [done|]. destruct (lookup_nonempty _ _ _ _ El0) as (sq & q & El & _). rewrite <- El0 in *.
  destruct (SleepqDrop_ok (drop_cb t) (table w) c sq (w, []) Hwf El) as (T & ET & _ & Hnone & Hoth & _).
  assert (forall u, u ∈ waiters c (table w) -> found w u) as Hf.
  { intros u Hu. destruct (waiter_waits w c u Hi Hc0 Hu) as [m Hw]. destruct (Hm u m Hu Hw) as [x Hx]. exists m, x. by eapply mutex_of_waiter. }
  destruct (drop_all_exact t (waiters c (table w)) w [] y Hy Hf Hroom) as (w1 & y1 & Ec & Hy1 & Hd1); [cbn; lia|].
  destruct (wk_rest _ _ (proj1 (drop_all_wakes _ _ _ _ _ _ Ec))) as (Ec1 & _ & _).
  rewrite El. cbn [obind]. rewrite ET, Ec. cbn [obind]. rewrite (set_waiters_live c false (with_table T w1) cx) by (cbn; by rewrite Ec1).
  cbn [obind]. rewrite bool_decide_false by done. eexists _, y1. split; [reflexivity|]. cbn. split_and!; try done. intros _. by rewrite lookup_insert_eq.
Qed.

(** ** Delivery *)

(** A thread releasing semaphores that are not yet released is done after one
    step for each and one to return. *)
Lemma wake_run s l : forall w, pcs w !! s = Some (PcWake l WkReturn) -> NoDup l ->
  (forall u, u ∈ l -> exists z, threads w !! u = Some z /\ wake_sema z = 0) ->
  exists w', run_ops (replicate (S (length l)) (OpAdvance s true)) w = Done (replicate (length l) None ++ [Some 0], w') /\
    mutexes w' = mutexes w /\ pcs w' = delete s (pcs w) /\
    (forall u, threads w' !! u = if bool_decide (u ∈ l) then set_sema 1 <$> threads w !! u else threads w !! u).
Proof.
  induction l as [|v l IH]; intros w Hpc Hnd Hs.
  { eexists. cbn. unfold advance. rewrite Hpc. cbn. by split_and!. }
  apply NoDup_cons in Hnd as [Hv Hnd]. destruct (Hs v) as (z & Hz & H0); [apply list_elem_of_here|].
  set (w1 := with_pcs <[s := PcWake l WkReturn]> (set_thread v (set_sema 1 z) w)).
  assert (perform (OpAdvance s true) w = Done (None, w1)) as E1.
  { cbn. unfold advance. rewrite Hpc. cbn [of_option obind wake_step]. unfold release. rewrite Hz. cbn [of_option obind]. rewrite H0. done. }
  destruct (IH w1) as (w' & E & Em & Ep & Et); [cbn; by rewrite lookup_insert_eq|done| |].
  { intros u Hu. cbn. rewrite lookup_insert_ne by congruence. apply Hs. by apply list_elem_of_further. }
  exists w'. change (replicate (S (length (v :: l))) (OpAdvance s true)) with (OpAdvance s true :: replicate (S (length l)) (OpAdvance s true)).
  cbn [run_ops]. rewrite E1. cbn [obind]. rewrite E. cbn [obind length replicate app]. split_and!; [done|done|rewrite Ep; cbn; by rewrite delete_insert_eq|].
  intros u. rewrite Et. cbn. destruct (decide (u = v)) as [->|Hu].
  - rewrite lookup_insert_eq. rewrite bool_decide_false by done. rewrite bool_decide_true by apply list_elem_of_here. by rewrite Hz.
  - rewrite lookup_insert_ne by done. rewrite (bool_decide_ext (u ∈ v :: l) (u ∈ l)); [done|]. rewrite elem_of_cons. naive_solver.
Qed.

Lemma run_ops_cons op ops w r w1 rs w' : perform op w = Done (r, w1) -> run_ops ops w1 = Done (rs, w') -> run_ops (op :: ops) w = Done (r :: rs, w').
Proof. intros E1 E2. cbn [run_ops]. rewrite E1. cbn [obind]. by rewrite E2. Qed.

(** C35: a thread that owns a mutex marked for kept wake-ups and unlocks it for
    the last time returns 0 after one step for the host mutex, one per wake-up
    and one to return; all threads of its list then have a released semaphore,
    the list is empty and the mutex is free.  The list must name no thread
    twice and the semaphores of its threads must be unreleased
    ([stale_wakeup_unreachable] shows how a kept wake-up outlives its wait),
    and the steps are the thread's own, without steps of others between. *)
Theorem unlock_delivers w s h m x y (Hr : cond_reach w) (Hid : idle s w)
  (Hh : mutex_handles w !! h = Some m) (Hm : THR_MUTEX_DESTROYED < m) (Hx : mutexes w !! m = Some x)
  (Ho : m_owner x = Some s) (Hd : is_deferred x = true) (Hlast : Type_ x = PthreadMutexType.Recursive -> m_count x <= 0)
  (Hy : threads w !! s = Some y) (Hnd : NoDup (defer_waiters y))
  (Hsema : forall u, u ∈ defer_waiters y -> exists z, threads w !! u = Some z /\ wake_sema z = 0) :
  exists w', run_ops (OpUnlock s h :: replicate (length (defer_waiters y) + 2) (OpAdvance s true)) w =
      Done (replicate (length (defer_waiters y) + 2) None ++ [Some 0], w') /\
    (forall u, u ∈ defer_waiters y -> exists z, threads w' !! u = Some z /\ wake_sema z = 1) /\
    (exists y', threads w' !! s = Some y' /\ defer_waiters y' = []) /\
    (exists x', mutexes w' !! m = Some x' /\ m_owner x' = None /\ m_lock x' = None) /\ pcs w' !! s = None.
Proof.
  pose proof (cond_reach_inv w Hr) as Hi. pose proof (reach_mutex_inv w (cond_reach_sync w Hr)) as Hmi. destruct Hid as [Hpc _].
  assert (m_lock x = Some s) as Hlk by (apply (mi_lock _ Hmi m (latch x) s (latches_lookup _ _ _ Hx)); by left).
  assert (will_sleep y = false) as Hwl.
  { destruct (will_sleep y) eqn:E; [|done]. destruct (ci_will _ Hi s y Hy E) as (? & ? & ? & ? & ?). congruence. }
  set (w1 := with_pcs <[s := PcUnlock m true]> (set_mutex m (disown x) w)).
  assert (perform (OpUnlock s h) w = Done (None, w1)) as E1.
  { cbn [perform]. unfold posix_pthread_mutex_unlock. rewrite Hh. cbn [of_option obind]. rewrite (proj2 (Z.leb_gt _ _) Hm).
    unfold Unlock. rewrite Hx. cbn [of_option obind]. rewrite bool_decide_true by done. cbn [negb]. rewrite Hd.
    destruct (Z.eqb_spec (Type_ x) PthreadMutexType.Recursive) as [E|]; [|done]. by rewrite (proj2 (Z.ltb_ge _ _) (Hlast E)). }
  set (w2 := with_pcs <[s := PcWake (defer_waiters y) WkReturn]> (set_thread s (set_defer [] y) (set_mutex m (set_lock None (disown x)) w1))).
  assert (perform (OpAdvance s true) w1 = Done (None, w2)) as E2.
  { cbn [perform]. unfold advance. unfold w1 at 1. cbn [pcs with_pcs]. rewrite lookup_insert_eq. cbn [of_option obind].
    unfold unlock_step, host_unlock. unfold w1 at 1. cbn [mutexes with_pcs set_mutex with_mutexes]. rewrite lookup_insert_eq. cbn [of_option obind].
    rewrite bool_decide_true by done. cbn [obind]. change (threads (set_mutex m _ w1)) with (threads w). rewrite Hy. cbn [of_option obind]. rewrite Hwl. cbn [negb andb].
    unfold WakeAll. change (threads (set_mutex m _ w1)) with (threads w). by rewrite Hy. }
  destruct (wake_run s (defer_waiters y) w2) as (w' & E3 & Em & Ep & Et); [cbn; by rewrite lookup_insert_eq|done| |].
  { intros u Hu. destruct (Hsema u Hu) as (z & Hz & H0). cbn. inserted s u; eauto. }
  exists w'. rewrite Nat.add_comm. split_and!.
  - change (replicate (2 + length (defer_waiters y)) (OpAdvance s true))
      with (OpAdvance s true :: replicate (S (length (defer_waiters y))) (OpAdvance s true)).
    exact (run_ops_cons _ _ _ _ _ _ _ E1 (run_ops_cons _ _ _ _ _ _ _ E2 E3)).
  - intros u Hu. destruct (Hsema u Hu) as (z & Hz & H0). rewrite Et, bool_decide_true by done. cbn. inserted s u; [|rewrite Hz]; by eexists.
  - rewrite Et. cbn. rewrite lookup_insert_eq. destruct (bool_decide _); by eexists.
  - rewrite Em. cbn. rewrite lookup_insert_eq. by eexists.
  - rewrite Ep. apply lookup_delete_eq.
Qed.

(** ** A history: thread 1 waits, thread 2 locks, signals and unlocks *)

Fixpoint legal_all (ops : list sync_op) (w : World) : Prop :=
  match ops with
  | [] => True
  | op :: ops => (allowed op w /\ sane op w) /\ match perform op w with Done (_, w) => legal_all ops w | Raised _ => True end
  end.

Lemma run_ops_cond ops w rs w' : cond_reach w -> legal_all ops w -> run_ops ops w = Done (rs, w') -> cond_reach w'.
Proof.
  revert w rs. induction ops as [|op ops IH]; cbn; intros w rs Hr Ha; [by intros [= <- <-]|]. destruct Ha as [[Ha Hs] Hn].
  destruct (perform op w) as [[r w1]|] eqn:E; [cbn|done]. destruct (run_ops ops w1) as [[rs1 w2]|] eqn:E2; [cbn|done].
  intros [= <- <-]. eapply IH; [|exact Hn|exact E2]. eapply cond_next; [exact Hr|by split|done].
Qed.

Definition demo_sleep : list sync_op :=
  [OpSpawn 1 100; OpSpawn 2 200; OpMutexMemory 8 0; OpCondMemory 16;
   OpLock 1 8 NoTimeout (Some 64); OpAdvance 1 true; OpAdvance 1 true; OpAdvance 1 true; OpAdvance 1 true;
   OpWait 1 16 8 NoTimeout (Some 72); OpAdvance 1 true;
   OpLock 2 8 NoTimeout None; OpAdvance 2 true; OpAdvance 2 true; OpAdvance 2 true; OpAdvance 2 true].

Definition demo_waiting : World := world_of (run_ops demo_sleep boot).
Definition demo_signalled : World := world_of (run_ops (demo_sleep ++ [OpSignal 2 16 0 None]) boot).

Lemma demo_waiting_reach : cond_reach demo_waiting.
Proof.
  eapply (run_ops_cond demo_sleep boot _ _ cond_boot); [|by vm_compute]. vm_compute.
  repeat match goal with |- _ /\ _ => split end;
    try first [done | by left | by eexists | by intros p [= <-]; split_and!; [done|done|by intros ? ?] | by intros p [= <-]].
Qed.

Lemma demo_signalled_reach : cond_reach demo_signalled.
Proof.
  eapply (cond_next demo_waiting (OpSignal 2 16 0 None) (Some 0)); [exact demo_waiting_reach| |by left].
  split; [split; [split; [by vm_compute|by eexists]|done]|by vm_compute].
Qed.

Lemma no_wakeup_lost_witness :
  pcs demo_signalled !! 1 = Some (PcSleep 72 64 0 NoTimeout) /\
  (1 ∈ waiters 72 (table demo_signalled) \/
   (exists y, threads demo_signalled !! 1 = Some y /\ wake_sema y <> 0) \/
   (exists s l k, pcs demo_signalled !! s = Some (PcWake l k) /\ 1 ∈ l) \/
   (exists s y, threads demo_signalled !! s = Some y /\ 1 ∈ defer_waiters y /\ will_flush demo_signalled s)).
Proof.
  split; [by vm_compute|]. apply (proj1 (no_wakeup_lost _ demo_signalled_reach) 1 72 64 0 NoTimeout). by vm_compute.
Defined.

Lemma signal_wakes_first_witness :
  exists w', perform (OpSignal 2 16 0 None) demo_waiting = Done (Some 0, w') /\ waiters 72 (table w') = [] /\
    exists y', threads w' !! 2 = Some y' /\ defer_waiters y' = [1].
Proof.
  edestruct (signal_wakes_first demo_waiting 2 16 72 (mkCond true 0 "Cond0") None 1 [] 64
    (mkMutex (Some 2) 0 0 0 0 1 (Some 2) "Mutex0") (mkThread 0 None false [] true false false) demo_waiting_reach)
    as (w' & E & Hw & _ & _ & Hd & _); [split; [by vm_compute|by eexists]|by vm_compute..|].
  exists w'. split_and!; [exact E|exact Hw|]. destruct (Hd eq_refl) as (_ & (y' & Hy & Ey) & _). by exists y'.
Defined.

Lemma broadcast_wakes_all_witness :
  exists w' y', perform (OpBroadcast 2 16 None) demo_waiting = Done (None, w') /\ waiters 72 (table w') = [] /\
    threads w' !! 2 = Some y' /\ defer_waiters y' = [1].
Proof.
  edestruct (broadcast_wakes_all demo_waiting 2 16 72 (mkCond true 0 "Cond0") None (mkThread 0 None false [] true false false)
    demo_waiting_reach) as (w' & y' & E & Hw & _ & Hy & Hd & _); [split; [by vm_compute|by eexists]|by vm_compute..| |by vm_compute|by vm_compute|].
  - intros u m. change (waiters 72 (table demo_waiting)) with [1]. intros ->%list_elem_of_singleton.
    change (wait_of (pcs demo_waiting !! 1)) with (Some (72, 64)). intros [= <-]. by eexists.
  - exists w', y'. split_and!; [exact E|exact Hw|exact Hy|]. rewrite Hd. by vm_compute.
Defined.

Lemma unlock_delivers_witness :
  exists w', run_ops (OpUnlock 2 8 :: replicate 3 (OpAdvance 2 true)) demo_signalled = Done ([None; None; None; Some 0], w') /\
    exists z, threads w' !! 1 = Some z /\ wake_sema z = 1.
Proof.
  edestruct (unlock_delivers demo_signalled 2 8 64 (mkMutex (Some 2) 0 0 0 0 0x201 (Some 2) "Mutex0")
    (mkThread 0 None false [1] true false false) demo_signalled_reach) as (w' & E & Hs & _);
    [split; [by vm_compute|by eexists]|by vm_compute..| |by vm_compute| | |].
  - by vm_compute.
  - apply NoDup_singleton.
  - intros u ->%list_elem_of_singleton. by eexists.
  - exists w'. split; [exact E|]. apply Hs. apply list_elem_of_here.
Defined.

(** A wake-up kept by the signaller outlives a wait that timed out: the thread
    waits again, the late release ends that wait although the thread is still
    queued, and [UNREACHABLE] is reached. *)
Definition demo_stale : list sync_op :=
  [OpSpawn 1 100; OpSpawn 2 200; OpMutexMemory 8 0; OpCondMemory 16;
   OpLock 1 8 NoTimeout (Some 64); OpAdvance 1 true; OpAdvance 1 true; OpAdvance 1 true; OpAdvance 1 true;
   OpWait 1 16 8 (RelTime 1000) (Some 72); OpAdvance 1 true;
   OpLock 2 8 NoTimeout None; OpAdvance 2 true; OpAdvance 2 true; OpAdvance 2 true; OpAdvance 2 true;
   OpSignal 2 16 0 None; OpAdvance 1 false; OpAdvance 1 true;
   OpUnlock 2 8; OpAdvance 2 true;
   OpAdvance 1 true; OpAdvance 1 true; OpAdvance 1 true; OpAdvance 1 true;
   OpWait 1 16 8 NoTimeout None; OpAdvance 1 true; OpAdvance 2 true; OpAdvance 1 true].

Example stale_wakeup_unreachable :
  legal_all demo_stale boot /\ perform (OpAdvance 1 true) (world_of (run_ops demo_stale boot)) = Raised AssertFailed.
Proof.
  split; [|by vm_compute]. vm_compute.
  repeat match goal with |- _ /\ _ => split end;
    try first [done | by left | by eexists | by intros p [= <-]; split_and!; [done|done|by intros ? ?] | by intros p [= <-]].
Qed.
