(* ===== verification/Rwlock.v ===== *)
(** * Read-write locks ([core/libraries/kernel/threads/rwlock.cpp]) on a mutex
    that prefers readers ([common/shared_first_mutex.h])

    The mutex is a counter and a flag under a host mutex, with one condition
    variable for all sleepers.  Each of its critical sections is a step; a thread
    in the condition variable is asleep until it is notified, and may wake
    without reason.  The writer's [owner] field is written outside of them. *)

From stdpp Require Import gmap.
From S2P Require Import Prelude.

(** ** [SharedFirstMutex] *)

Record SharedFirstMutex := mkShared { readers : Z; writer_active : bool }.

Definition can_write (x : SharedFirstMutex) : bool := negb (writer_active x) && (readers x =? 0).
Definition can_read (x : SharedFirstMutex) : bool := negb (writer_active x).

(** [++] of an [int]. *)
Definition incr (n : Z) : outcome Z := if n =? 2147483647 then Raised Undefined else Done (n + 1).
Definition decr (n : Z) : outcome Z := if n =? -2147483648 then Raised Undefined else Done (n - 1).

Definition try_lock (x : SharedFirstMutex) : bool * SharedFirstMutex :=
  if writer_active x || (0 <? readers x) then (false, x) else (true, mkShared (readers x) true).

Definition try_lock_shared (x : SharedFirstMutex) : outcome (bool * SharedFirstMutex) :=
  if writer_active x then Done (false, x) else
  let! n := incr (readers x) in Done (true, mkShared n (writer_active x)).

(** The waits, each time their predicate is evaluated: [None] goes (back) to
    sleep, otherwise the wait returns whether the lock was taken; [late] says
    that the time is over. *)
Definition lock_round (late : bool) (x : SharedFirstMutex) : option bool * SharedFirstMutex :=
  if can_write x then (Some true, mkShared (readers x) true)
  else if late then (Some false, x) else (None, x).

Definition lock_shared_round (late : bool) (x : SharedFirstMutex) : outcome (option bool * SharedFirstMutex) :=
  if can_read x then let! n := incr (readers x) in Done (Some true, mkShared n (writer_active x))
  else if late then Done (Some false, x) else Done (None, x).

(** The unlocks; the flag says whether the sleepers are notified. *)
Definition unlock (x : SharedFirstMutex) : bool * SharedFirstMutex := (true, mkShared (readers x) false).

Definition unlock_shared (x : SharedFirstMutex) : outcome (bool * SharedFirstMutex) :=
  let! n := decr (readers x) in Done (n =? 0, mkShared n (writer_active x)).

(** ** [PthreadRwlock] *)

Definition THR_RWLOCK_INITIALIZER : Z := 0.
Definition THR_RWLOCK_DESTROYED : Z := 1.

Record PthreadRwlock := mkRwlock { lock : SharedFirstMutex; owner : option Z }.

Definition new_rwlock : PthreadRwlock := mkRwlock (mkShared 0 false) None.

Inductive RwPc :=
  | RdWait (p : Z) (timed asleep : bool)
  | WrWait (p : Z) (timed asleep : bool)
  | WrOwn (p : Z)      (* has the lock, [owner] not yet written *)
  | WrFree (p : Z)     (* [owner] cleared, the lock not yet released *)
  | RdFree (p : Z).    (* about to release a shared lock *)

(** [rdlock_count] of each thread; a thread exists when it has one. *)
Record RwWorld := mkRwWorld { rwlocks : gmap Z PthreadRwlock; handles : gmap Z Z; rdlock_count : gmap Z Z; rw_pcs : gmap Z RwPc }.

Definition set_rwlock (p : Z) (x : PthreadRwlock) (w : RwWorld) : RwWorld :=
  mkRwWorld (<[p := x]> (rwlocks w)) (handles w) (rdlock_count w) (rw_pcs w).
Definition set_handle (h v : Z) (w : RwWorld) : RwWorld := mkRwWorld (rwlocks w) (<[h := v]> (handles w)) (rdlock_count w) (rw_pcs w).
Definition map_pcs (f : gmap Z RwPc -> gmap Z RwPc) (w : RwWorld) : RwWorld :=
  mkRwWorld (rwlocks w) (handles w) (rdlock_count w) (f (rw_pcs w)).

Definition rw_goto (t : Z) (pc : RwPc) (w : RwWorld) : outcome (option Z * RwWorld) := Done (None, map_pcs <[t := pc]> w).
Definition rw_ret (t r : Z) (w : RwWorld) : outcome (option Z * RwWorld) := Done (Some r, map_pcs (delete t) w).

(** [curthread->rdlock_count++] and [--]. *)
Definition count (f : Z -> outcome Z) (t : Z) (w : RwWorld) : outcome RwWorld :=
  let! n := of_option (rdlock_count w !! t) in
  let! n := f n in
  Done (mkRwWorld (rwlocks w) (handles w) (<[t := n]> (rdlock_count w)) (rw_pcs w)).

(** [cv.notify_all()]. *)
Definition roused (p : Z) (pc : RwPc) : RwPc :=
  match pc with
  | RdWait q timed _ => if q =? p then RdWait q timed false else pc
  | WrWait q timed _ => if q =? p then WrWait q timed false else pc
  | _ => pc
  end.
Definition notify_all (p : Z) : RwWorld -> RwWorld := map_pcs (fmap (roused p)).

(** *** Creation and destruction *)

Record PthreadRwlockAttr := mkRwAttr { rw_pshared : Z; rw_type : Z }.

(** In [common/elf_info.h]. *)
Definition FW_450 : Z := 0x4500000.

(** [attr] is a pointer to a pointer, which is followed without a check; the
    signed version is compared with an unsigned constant. *)
Definition RwlockInit (sdk_version h : Z) (attr : option (option PthreadRwlockAttr)) (fresh : option Z) (w : RwWorld) : outcome (Z * RwWorld) :=
  match fresh with
  | None => Done (POSIX_ENOMEM, w)
  | Some p =>
      let! bad :=
        match attr with
        | Some a => if FW_450 <=? u32 sdk_version then let! a := of_option a in Done (2 <? rw_type a) else Done false
        | None => Done false
        end in
      if bad then Done (POSIX_EINVAL, w) else Done (0, set_handle h p (set_rwlock p new_rwlock w))
  end.

Definition posix_pthread_rwlock_init (sdk_version t h : Z) (attr : option (option PthreadRwlockAttr)) (fresh : option Z) (w : RwWorld) :
    outcome (option Z * RwWorld) :=
  let! '(r, w) := RwlockInit sdk_version h attr fresh (set_handle h 0 w) in rw_ret t r w.

Definition posix_pthread_rwlock_destroy (t h : Z) (w : RwWorld) : outcome (option Z * RwWorld) :=
  let! v := of_option (handles w !! h) in
  if v =? THR_RWLOCK_INITIALIZER then rw_ret t 0 w
  else if v =? THR_RWLOCK_DESTROYED then rw_ret t POSIX_EINVAL w
  else
    let! _ := of_option (rwlocks w !! v) in
    let w := set_handle h THR_RWLOCK_DESTROYED w in
    rw_ret t 0 (mkRwWorld (delete v (rwlocks w)) (handles w) (rdlock_count w) (rw_pcs w)).

(** Under [RwlockStaticLock]. *)
Definition InitStatic (h : Z) (fresh : option Z) (w : RwWorld) : outcome (Z * RwWorld) :=
  let! v := of_option (handles w !! h) in
  if v =? THR_RWLOCK_INITIALIZER then
    match fresh with
    | None => Done (POSIX_ENOMEM, w)
    | Some p => Done (0, set_handle h p (set_rwlock p new_rwlock w))
    end
  else Done (0, w).

(** [CHECK_AND_INIT_RWLOCK], then [body] on the object. *)
Definition on_rwlock (t h : Z) (fresh : option Z) (w : RwWorld) (body : Z -> RwWorld -> outcome (option Z * RwWorld)) :
    outcome (option Z * RwWorld) :=
  let! v := of_option (handles w !! h) in
  if v =? THR_RWLOCK_INITIALIZER then
    let! '(r, w) := InitStatic h fresh w in
    if negb (r =? 0) then rw_ret t r w else
    let! v := of_option (handles w !! h) in body v w
  else if v =? THR_RWLOCK_DESTROYED then rw_ret t POSIX_EINVAL w
  else body v w.

(** *** Locking *)

(** A time-out is the [tv_nsec] of [abstime]. *)
Definition bad_time (abstime : option Z) : bool :=
  match abstime with Some tv_nsec => (1000000000 <=? tv_nsec) || (tv_nsec <? 0) | None => false end.
Definition is_timed (abstime : option Z) : bool := match abstime with Some _ => true | None => false end.

Definition Rdlock (t p : Z) (abstime : option Z) (w : RwWorld) : outcome (option Z * RwWorld) :=
  let! x := of_option (rwlocks w !! p) in
  let! '(got, l) := try_lock_shared (lock x) in
  if got then let! w := count incr t (set_rwlock p (mkRwlock l (owner x)) w) in rw_ret t 0 w
  else if bad_time abstime then rw_ret t POSIX_EINVAL w
  else rw_goto t (RdWait p (is_timed abstime) false) w.

Definition rd_wait_step (t p : Z) (timed late : bool) (w : RwWorld) : outcome (option Z * RwWorld) :=
  let! x := of_option (rwlocks w !! p) in
  let! '(res, l) := lock_shared_round (timed && late) (lock x) in
  match res with
  | Some true => let! w := count incr t (set_rwlock p (mkRwlock l (owner x)) w) in rw_ret t 0 w
  | Some false => rw_ret t POSIX_ETIMEDOUT w
  | None => rw_goto t (RdWait p timed true) w
  end.

Definition Wrlock (t p : Z) (abstime : option Z) (w : RwWorld) : outcome (option Z * RwWorld) :=
  let! x := of_option (rwlocks w !! p) in
  let '(got, l) := try_lock (lock x) in
  if got then rw_goto t (WrOwn p) (set_rwlock p (mkRwlock l (owner x)) w)
  else if bad_time abstime then rw_ret t POSIX_EINVAL w
  else rw_goto t (WrWait p (is_timed abstime) false) w.

Definition wr_wait_step (t p : Z) (timed late : bool) (w : RwWorld) : outcome (option Z * RwWorld) :=
  let! x := of_option (rwlocks w !! p) in
  let '(res, l) := lock_round (timed && late) (lock x) in
  match res with
  | Some true => rw_goto t (WrOwn p) (set_rwlock p (mkRwlock l (owner x)) w)
  | Some false => rw_ret t POSIX_ETIMEDOUT w
  | None => rw_goto t (WrWait p timed true) w
  end.

(** [owner = curthread]. *)
Definition wr_own_step (t p : Z) (w : RwWorld) : outcome (option Z * RwWorld) :=
  let! x := of_option (rwlocks w !! p) in
  rw_ret t 0 (set_rwlock p (mkRwlock (lock x) (Some t)) w).

Definition posix_pthread_rwlock_rdlock (t h : Z) (fresh : option Z) (w : RwWorld) := on_rwlock t h fresh w (fun p => Rdlock t p None).
Definition posix_pthread_rwlock_timedrdlock (t h : Z) (abstime : option Z) (fresh : option Z) (w : RwWorld) :=
  on_rwlock t h fresh w (fun p => Rdlock t p abstime).
Definition posix_pthread_rwlock_wrlock (t h : Z) (fresh : option Z) (w : RwWorld) := on_rwlock t h fresh w (fun p => Wrlock t p None).
Definition posix_pthread_rwlock_timedwrlock (t h : Z) (abstime : option Z) (fresh : option Z) (w : RwWorld) :=
  on_rwlock t h fresh w (fun p => Wrlock t p abstime).

Definition posix_pthread_rwlock_tryrdlock (t h : Z) (fresh : option Z) (w : RwWorld) : outcome (option Z * RwWorld) :=
  on_rwlock t h fresh w (fun p w =>
    let! x := of_option (rwlocks w !! p) in
    let! '(got, l) := try_lock_shared (lock x) in
    if got then let! w := count incr t (set_rwlock p (mkRwlock l (owner x)) w) in rw_ret t 0 w
    else rw_ret t POSIX_EBUSY w).

Definition posix_pthread_rwlock_trywrlock (t h : Z) (fresh : option Z) (w : RwWorld) : outcome (option Z * RwWorld) :=
  on_rwlock t h fresh w (fun p w =>
    let! x := of_option (rwlocks w !! p) in
    let '(got, l) := try_lock (lock x) in
    if got then rw_goto t (WrOwn p) (set_rwlock p (mkRwlock l (owner x)) w)
    else rw_ret t POSIX_EBUSY w).

(** *** Unlocking *)

Definition posix_pthread_rwlock_unlock (t h : Z) (w : RwWorld) : outcome (option Z * RwWorld) :=
  let! p := of_option (handles w !! h) in
  if p <=? THR_RWLOCK_DESTROYED then rw_ret t POSIX_EINVAL w else
  let! x := of_option (rwlocks w !! p) in
  if bool_decide (owner x = Some t) then rw_goto t (WrFree p) (set_rwlock p (mkRwlock (lock x) None) w)
  else
    let! w := (if bool_decide (owner x = None) then count decr t w else Done w) in
    rw_goto t (RdFree p) w.

Definition release_step (t p : Z) (f : SharedFirstMutex -> outcome (bool * SharedFirstMutex)) (w : RwWorld) : outcome (option Z * RwWorld) :=
  let! x := of_option (rwlocks w !! p) in
  let! '(wake, l) := f (lock x) in
  let w := set_rwlock p (mkRwlock l (owner x)) w in
  rw_ret t 0 (if wake then notify_all p w else w).

(** *** The steps of a thread inside a call *)

Definition rw_advance (t : Z) (late : bool) (w : RwWorld) : outcome (option Z * RwWorld) :=
  let! pc := of_option (rw_pcs w !! t) in
  match pc with
  | RdWait p timed _ => rd_wait_step t p timed late w
  | WrWait p timed _ => wr_wait_step t p timed late w
  | WrOwn p => wr_own_step t p w
  | WrFree p => release_step t p (fun l => Done (unlock l)) w
  | RdFree p => release_step t p unlock_shared w
  end.

(** *** Attributes *)

Definition posix_pthread_rwlockattr_destroy (attr : option (option PthreadRwlockAttr)) : Z :=
  match attr with Some (Some _) => 0 | _ => POSIX_EINVAL end.

Definition posix_pthread_rwlockattr_getpshared (attr : option PthreadRwlockAttr) : outcome Z :=
  let! a := of_option attr in Done (rw_pshared a).

Definition posix_pthread_rwlockattr_gettype_np (attr : option (option PthreadRwlockAttr)) : Z + Z :=
  match attr with
  | Some (Some a) => if 2 <? rw_type a then inl POSIX_EINVAL else inr (rw_type a)
  | _ => inl POSIX_EINVAL
  end.

Definition posix_pthread_rwlockattr_init (allocated : bool) (attr : option (option PthreadRwlockAttr)) : Z * option (option PthreadRwlockAttr) :=
  match attr with
  | None => (POSIX_EINVAL, attr)
  | Some _ => if allocated then (0, Some (Some (mkRwAttr 0 0))) else (POSIX_ENOMEM, attr)
  end.

(** The type checked is the old one. *)
Definition posix_pthread_rwlockattr_settype_np (attr : option (option PthreadRwlockAttr)) (type : Z) : Z * option (option PthreadRwlockAttr) :=
  match attr with
  | Some (Some a) => if 2 <? rw_type a then (POSIX_EINVAL, attr) else (0, Some (Some (mkRwAttr (rw_pshared a) type)))
  | _ => (POSIX_EINVAL, attr)
  end.

Definition posix_pthread_rwlockattr_setpshared (attr : option PthreadRwlockAttr) (pshared : Z) : outcome (Z * option PthreadRwlockAttr) :=
  if negb (pshared =? 0) then Done (POSIX_EINVAL, attr) else
  let! a := of_option attr in Done (0, Some (mkRwAttr pshared (rw_type a))).
