(* ===== verification/RwFacts.v ===== *)
(** * The histories of read-write locks and their invariant

    Who holds a lock is the history of calls and returns: from the return of a
    successful lock to the return of the unlock. *)

From stdpp Require Import gmap.
From S2P Require Import Prelude Rwlock.

(** ** The machine *)

Inductive rw_op :=
  | RwSpawn (t : Z)
  | RwMemory (h : Z)
  | RwInit (sdk_version t h : Z) (attr : option (option PthreadRwlockAttr)) (fresh : option Z)
  | RwDestroy (t h : Z)
  | RwRdlock (t h : Z) (abstime : option Z) (fresh : option Z)
  | RwWrlock (t h : Z) (abstime : option Z) (fresh : option Z)
  | RwTryRdlock (t h : Z) (fresh : option Z)
  | RwTryWrlock (t h : Z) (fresh : option Z)
  | RwUnlock (t h : Z)
  | RwAdvance (t : Z) (late : bool).

Definition rw_perform (op : rw_op) (w : RwWorld) : outcome (option Z * RwWorld) :=
  match op with
  | RwSpawn t => Done (None, mkRwWorld (rwlocks w) (handles w) (<[t := 0]> (rdlock_count w)) (rw_pcs w))
  | RwMemory h => Done (None, set_handle h THR_RWLOCK_INITIALIZER w)
  | RwInit sdk_version t h attr fresh => posix_pthread_rwlock_init sdk_version t h attr fresh w
  | RwDestroy t h => posix_pthread_rwlock_destroy t h w
  | RwRdlock t h abstime fresh => posix_pthread_rwlock_timedrdlock t h abstime fresh w
  | RwWrlock t h abstime fresh => posix_pthread_rwlock_timedwrlock t h abstime fresh w
  | RwTryRdlock t h fresh => posix_pthread_rwlock_tryrdlock t h fresh w
  | RwTryWrlock t h fresh => posix_pthread_rwlock_trywrlock t h fresh w
  | RwUnlock t h => posix_pthread_rwlock_unlock t h w
  | RwAdvance t late => rw_advance t late w
  end.

(** ** Holders *)

Record Hold := mkHold { h_readers : list Z; h_writer : option Z }.
Definition nobody : Hold := mkHold [] None.

Inductive rw_event := EvNone | EvRead (t p : Z) | EvWrite (t p : Z) | EvUnread (t p : Z) | EvUnwrite (t p : Z).

(** What the return of 0 from a step means. *)
Definition event_of (op : rw_op) (w w' : RwWorld) : rw_event :=
  match op with
  | RwRdlock t h _ _ | RwTryRdlock t h _ => match handles w' !! h with Some p => EvRead t p | None => EvNone end
  | RwWrlock t h _ _ | RwTryWrlock t h _ => match handles w' !! h with Some p => EvWrite t p | None => EvNone end
  | RwAdvance t _ =>
      match rw_pcs w !! t with
      | Some (RdWait p _ _) => EvRead t p
      | Some (WrWait p _ _) | Some (WrOwn p) => EvWrite t p
      | Some (WrFree p) => EvUnwrite t p
      | Some (RdFree p) => EvUnread t p
      | None => EvNone
      end
  | _ => EvNone
  end.

Fixpoint remove_one (t : Z) (l : list Z) : list Z :=
  match l with
  | [] => []
  | u :: l => if u =? t then l else u :: remove_one t l
  end.

Definition hold_at (p : Z) (h : Hold) (a : Z -> Hold) : Z -> Hold := fun q => if q =? p then h else a q.

Definition track (e : rw_event) (a : Z -> Hold) : Z -> Hold :=
  match e with
  | EvNone => a
  | EvRead t p => hold_at p (mkHold (t :: h_readers (a p)) (h_writer (a p))) a
  | EvWrite t p => hold_at p (mkHold (h_readers (a p)) (Some t)) a
  | EvUnread t p => hold_at p (mkHold (remove_one t (h_readers (a p))) (h_writer (a p))) a
  | EvUnwrite _ p => hold_at p (mkHold (h_readers (a p)) None) a
  end.

Definition event (op : rw_op) (r : option Z) (w w' : RwWorld) : rw_event :=
  if bool_decide (r = Some 0) then event_of op w w' else EvNone.

(** ** Histories *)

Definition pc_lock (pc : RwPc) : Z := match pc with RdWait p _ _ | WrWait p _ _ | WrOwn p | WrFree p | RdFree p => p end.

Definition rw_fresh (fresh : option Z) (w : RwWorld) : Prop :=
  forall p, fresh = Some p -> THR_RWLOCK_DESTROYED < p /\ rwlocks w !! p = None.

Definition rw_idle (t : Z) (w : RwWorld) : Prop := rw_pcs w !! t = None /\ is_Some (rdlock_count w !! t).

(** Threads unlock what they hold and destroy what nobody uses. *)
Definition rw_allowed (op : rw_op) (w : RwWorld) (a : Z -> Hold) : Prop :=
  match op with
  | RwSpawn t => rdlock_count w !! t = None
  | RwMemory _ => True
  | RwInit _ t _ _ fresh | RwRdlock t _ _ fresh | RwWrlock t _ _ fresh | RwTryRdlock t _ fresh | RwTryWrlock t _ fresh =>
      rw_idle t w /\ rw_fresh fresh w
  | RwDestroy t h => rw_idle t w /\
      forall p, handles w !! h = Some p -> a p = nobody /\ forall u pc, rw_pcs w !! u = Some pc -> pc_lock pc <> p
  | RwUnlock t h => rw_idle t w /\ forall p, handles w !! h = Some p -> t ∈ h_readers (a p) \/ h_writer (a p) = Some t
  | RwAdvance t _ => is_Some (rdlock_count w !! t)
  end.

Definition rw_boot : RwWorld := mkRwWorld ∅ ∅ ∅ ∅.

Inductive rw_reach : RwWorld -> (Z -> Hold) -> Prop :=
  | rw_start : rw_reach rw_boot (fun _ => nobody)
  | rw_next w a op r w' : rw_reach w a -> rw_allowed op w a -> rw_perform op w = Done (r, w') -> rw_reach w' (track (event op r w w') a).

(** ** The invariant *)

(** The writer inside, from taking the mutex to releasing it. *)
Inductive Phase := Owning | Held | Freeing.

Definition held_by (ws : option (Z * Phase)) : option Z :=
  match ws with Some (t, Held) | Some (t, Freeing) => Some t | _ => None end.
Definition owned_by (ws : option (Z * Phase)) : option Z := match ws with Some (t, Held) => Some t | _ => None end.
Definition some_writer (ws : option (Z * Phase)) : bool := match ws with Some _ => true | None => false end.

Record fits (P : gmap Z RwPc) (p : Z) (h : Hold) (x : PthreadRwlock) (ws : option (Z * Phase)) : Prop := {
  f_active : writer_active (lock x) = some_writer ws;
  f_readers : readers (lock x) = Z.of_nat (length (h_readers h));
  f_writer : h_writer h = held_by ws;
  f_owner : owner x = owned_by ws;
  f_own u : P !! u = Some (WrOwn p) <-> ws = Some (u, Owning);
  f_free u : P !! u = Some (WrFree p) <-> ws = Some (u, Freeing);
  f_excl : ws <> None -> h_readers h = [];
  f_rdfree u : P !! u = Some (RdFree p) -> u ∈ h_readers h;
  f_rdsleep u b : P !! u = Some (RdWait p b true) -> ws <> None;
  f_wrsleep u b : P !! u = Some (WrWait p b true) -> ws <> None \/ h_readers h <> [] }.

Record rw_inv (w : RwWorld) (a : Z -> Hold) : Prop := {
  ri_alive t pc : rw_pcs w !! t = Some pc -> is_Some (rwlocks w !! pc_lock pc);
  ri_dead p : rwlocks w !! p = None -> a p = nobody;
  ri_lock p x : rwlocks w !! p = Some x -> exists ws, fits (rw_pcs w) p (a p) x ws }.

(** A lock does not see the program counters of others. *)
Lemma fits_other P P' p h x ws : (forall u pc, pc_lock pc = p -> P' !! u = Some pc <-> P !! u = Some pc) -> fits P p h x ws -> fits P' p h x ws.
Proof.
  intros H [F1 F2 F3 F4 F5 F6 F7 F8 F9 F10]. split; auto; intros u.
  - by rewrite H.
  - by rewrite H.
  - rewrite H by done. apply F8.
  - intros b. rewrite H by done. apply F9.
  - intros b. rewrite H by done. apply F10.
Qed.

(** A step of [t] at the lock [p]. *)
Lemma rw_update t p x x' w w' a a' : rw_inv w a -> rwlocks w !! p = Some x -> rwlocks w' = <[p := x']> (rwlocks w) ->
  (forall u pc, u <> t -> pc_lock pc <> p -> rw_pcs w' !! u = Some pc <-> rw_pcs w !! u = Some pc) ->
  (forall pc, rw_pcs w !! t = Some pc -> pc_lock pc = p) -> (forall pc, rw_pcs w' !! t = Some pc -> pc_lock pc = p) ->
  (forall q, q <> p -> a' q = a q) -> (forall ws, fits (rw_pcs w) p (a p) x ws -> exists ws', fits (rw_pcs w') p (a' p) x' ws') -> rw_inv w' a'.
Proof.
  intros [Ha Hd Hl] Hx El Hpc Ht Ht' Haq Hf. split.
  - intros u pc Hu. rewrite El. destruct (decide (pc_lock pc = p)) as [->|Hne]; [rewrite lookup_insert_eq; by eexists|].
    rewrite lookup_insert_ne by done. destruct (decide (u = t)) as [->|]; [by destruct Hne; apply Ht'|]. apply (Ha u). by apply Hpc.
  - intros q. rewrite El, lookup_insert_None. intros [Hq Hne]. rewrite Haq by congruence. by apply Hd.
  - intros q y. rewrite El. destruct (decide (q = p)) as [->|Hne].
    + rewrite lookup_insert_eq. intros [= <-]. destruct (Hl p x Hx) as [ws Hws]. by apply (Hf ws).
    + rewrite lookup_insert_ne by done. intros [ws Hws]%Hl. exists ws. rewrite Haq by done.
      apply (fits_other (rw_pcs w)); [|done]. intros u pc Hq. destruct (decide (u = t)) as [->|Hu]; [|apply Hpc; congruence].
      split; intros E; exfalso; [apply Ht' in E|apply Ht in E]; congruence.
Qed.

Ltac at_thread t u :=
  destruct (decide (u = t)) as [->|?];
  rewrite ?lookup_insert_eq, ?lookup_delete_eq, ?lookup_insert_ne, ?lookup_delete_ne, ?lookup_fmap by done.

Section Fits.
Context (P : gmap Z RwPc) (p t : Z) (h : Hold) (x : PthreadRwlock) (ws : option (Z * Phase)).
Hypothesis F : fits P p h x ws.
Hypothesis Ht : P !! t = None \/ exists b c, P !! t = Some (RdWait p b c) \/ P !! t = Some (WrWait p b c).

Lemma fits_leave : fits (delete t P) p h x ws.
Proof.
  destruct F as [F1 F2 F3 F4 F5 F6 F7 F8 F9 F10]. split; auto.
  - intros u. at_thread t u; [|apply F5]. split; [done|]. rewrite <- F5. naive_solver.
  - intros u. at_thread t u; [|apply F6]. split; [done|]. rewrite <- F6. naive_solver.
  - intros u. at_thread t u; [done|apply F8].
  - intros u b. at_thread t u; [done|apply F9].
  - intros u b. at_thread t u; [done|apply F10].
Qed.

Lemma fits_enter pc : (forall u, pc <> WrOwn u) -> (forall u, pc <> WrFree u) -> (pc = RdFree p -> t ∈ h_readers h) ->
  (forall b, pc = RdWait p b true -> ws <> None) -> (forall b, pc = WrWait p b true -> ws <> None \/ h_readers h <> []) ->
  fits (<[t := pc]> P) p h x ws.
Proof.
  intros H1 H2 H3 H4 H5. destruct F as [F1 F2 F3 F4 F5 F6 F7 F8 F9 F10]. split; auto.
  - intros u. at_thread t u; [|apply F5]. split; [intros [= E]; by destruct (H1 p)|]. rewrite <- F5. naive_solver.
  - intros u. at_thread t u; [|apply F6]. split; [intros [= E]; by destruct (H2 p)|]. rewrite <- F6. naive_solver.
  - intros u. at_thread t u; [|apply F8]. intros [= E]. by apply H3.
  - intros u b. at_thread t u; [|apply F9]. intros [= E]. by apply (H4 b).
  - intros u b. at_thread t u; [|apply F10]. intros [= E]. by apply (H5 b).
Qed.

Lemma fits_read n : ws = None -> readers (lock x) + 1 = n ->
  fits (delete t P) p (mkHold (t :: h_readers h) (h_writer h)) (mkRwlock (mkShared n (writer_active (lock x))) (owner x)) ws.
Proof.
  intros Hws Hn. destruct fits_leave as [F1 F2 F3 F4 F5 F6 F7 F8 F9 F10]. split; auto.
  - cbn. rewrite <- Hn, F2. lia.
  - by rewrite Hws.
  - intros u Hu. apply list_elem_of_further. by apply F8.
Qed.

Lemma fits_take : ws = None -> h_readers h = [] -> fits (<[t := WrOwn p]> P) p h (mkRwlock (mkShared (readers (lock x)) true) (owner x)) (Some (t, Owning)).
Proof.
  intros -> Hr. destruct F as [F1 F2 F3 F4 F5 F6 F7 F8 F9 F10]. split; auto.
  - intros u. at_thread t u; [done|]. rewrite F5. split; [done|congruence].
  - intros u. at_thread t u; [split; congruence|]. rewrite F6. split; congruence.
  - intros u. at_thread t u; [done|apply F8].
Qed.

End Fits.

(** The writer's way out and in. *)
Section Writer.
Context (P : gmap Z RwPc) (p t : Z) (h : Hold) (x : PthreadRwlock) (ph : Phase).
Hypothesis F : fits P p h x (Some (t, ph)).

Lemma fits_own : ph = Owning -> fits (delete t P) p (mkHold (h_readers h) (Some t)) (mkRwlock (lock x) (Some t)) (Some (t, Held)).
Proof.
  intros ->. destruct F as [F1 F2 F3 F4 F5 F6 F7 F8 F9 F10]. split; auto.
  - intros u. at_thread t u; [done|]. rewrite F5. split; [congruence|done].
  - intros u. at_thread t u; [done|]. rewrite F6. done.
  - intros u. at_thread t u; [done|apply F8].
Qed.

Lemma fits_disown : ph = Held -> P !! t = None -> fits (<[t := WrFree p]> P) p h (mkRwlock (lock x) None) (Some (t, Freeing)).
Proof.
  intros -> Hn. destruct F as [F1 F2 F3 F4 F5 F6 F7 F8 F9 F10]. split; auto.
  - intros u. at_thread t u; [done|]. rewrite F5. done.
  - intros u. at_thread t u; [done|]. rewrite F6. split; [done|congruence].
  - intros u. at_thread t u; [done|apply F8].
Qed.

Lemma fits_release : ph = Freeing ->
  fits (delete t (roused p <$> P)) p (mkHold (h_readers h) None) (mkRwlock (mkShared (readers (lock x)) false) (owner x)) None.
Proof.
  intros ->. destruct F as [F1 F2 F3 F4 F5 F6 F7 F8 F9 F10].
  assert (forall u c, roused p <$> P !! u = Some c -> (P !! u = Some c \/ exists q b, c = RdWait q b false \/ c = WrWait q b false)) as Hr.
  { intros u c. destruct (P !! u) as [[q b e|q b e|q|q|q]|]; cbn; try (destruct (q =? p)); intros [= <-]; eauto 10. }
  assert (forall u c, c = WrOwn p \/ c = WrFree p \/ c = RdFree p -> roused p <$> P !! u = Some c -> P !! u = Some c) as Hs.
  { intros u c Hc [E|(q & b & E)]%Hr; [done|]. naive_solver. }
  split; auto.
  - intros u. at_thread t u; [done|]. split; [|done]. intros E. apply Hs in E; [|auto]. apply F5 in E. done.
  - intros u. at_thread t u; [done|]. split; [|done]. intros E. apply Hs in E; [|auto]. apply F6 in E. congruence.
  - intros u. at_thread t u; [done|]. intros E. apply Hs in E; [|auto]. by apply F8 in E.
  - intros u b. at_thread t u; [done|]. destruct (P !! u) as [[q c e|q c e|q|q|q]|]; cbn; try done; destruct (Z.eqb_spec q p); congruence.
  - intros u b. at_thread t u; [done|]. destruct (P !! u) as [[q c e|q c e|q|q|q]|]; cbn; try done; destruct (Z.eqb_spec q p); congruence.
Qed.

End Writer.

(** A reader leaves. *)
Lemma remove_one_length t l : t ∈ l -> Z.of_nat (length (remove_one t l)) = Z.of_nat (length l) - 1.
Proof.
  induction l as [|u l IH]; cbn; [by intros ?%elem_of_nil|]. destruct (Z.eqb_spec u t) as [->|]; [lia|].
  intros [->|H]%elem_of_cons; [done|]. cbn. specialize (IH H). lia.
Qed.

Lemma remove_one_other t u l : u <> t -> u ∈ l -> u ∈ remove_one t l.
Proof.
  intros Hne. induction l as [|v l IH]; cbn; [done|]. destruct (Z.eqb_spec v t) as [->|].
  - intros [->|H]%elem_of_cons; done.
  - intros [->|H]%elem_of_cons; [apply list_elem_of_here|apply list_elem_of_further; auto].
Qed.

Lemma fits_unread P p t h x ws n : fits P p h x ws -> P !! t = Some (RdFree p) -> readers (lock x) - 1 = n ->
  fits (delete t (if n =? 0 then roused p <$> P else P)) p (mkHold (remove_one t (h_readers h)) (h_writer h))
    (mkRwlock (mkShared n (writer_active (lock x))) (owner x)) ws.
Proof.
  intros [F1 F2 F3 F4 F5 F6 F7 F8 F9 F10] Ht Hn. pose proof (F8 t Ht) as Hin. pose proof (remove_one_length t _ Hin) as Hlen.
  assert (ws = None) as ->. { destruct ws; [|done]. rewrite F7 in Hin by done. by apply elem_of_nil in Hin. }
  set (P1 := if n =? 0 then roused p <$> P else P).
  assert (forall u c, c = WrOwn p \/ c = WrFree p \/ c = RdFree p -> P1 !! u = Some c <-> P !! u = Some c) as Hs.
  { intros u c Hc. unfold P1. destruct (n =? 0); [|done]. rewrite lookup_fmap.
    destruct (P !! u) as [[q b e|q b e|q|q|q]|]; cbn; try done; destruct (q =? p); naive_solver. }
  split; auto.
  - cbn. lia.
  - intros u. at_thread t u; [done|]. rewrite Hs by auto. apply F5.
  - intros u. at_thread t u; [done|]. rewrite Hs by auto. apply F6.
  - done.
  - intros u. at_thread t u; [done|]. rewrite Hs by auto. intros ?%F8. by apply remove_one_other.
  - intros u b. at_thread t u; [done|]. unfold P1. destruct (n =? 0); [|apply F9]. rewrite lookup_fmap.
    destruct (P !! u) as [[q c e|q c e|q|q|q]|]; cbn; try done; destruct (Z.eqb_spec q p); congruence.
  - intros u b. at_thread t u; [done|]. unfold P1. destruct (Z.eqb_spec n 0) as [E|E].
    + rewrite lookup_fmap. destruct (P !! u) as [[q c e|q c e|q|q|q]|]; cbn; try done; destruct (Z.eqb_spec q p); congruence.
    + intros _. right. cbn. intros E0. rewrite E0 in Hlen. cbn in Hlen. lia.
Qed.

(** ** Every step *)

(** When an event may happen. *)
Definition rw_ok (e : rw_event) (a : Z -> Hold) : Prop :=
  match e with
  | EvNone => True
  | EvRead _ p => h_writer (a p) = None
  | EvWrite _ p => h_readers (a p) = [] /\ h_writer (a p) = None
  | EvUnread t p => t ∈ h_readers (a p)
  | EvUnwrite t p => h_writer (a p) = Some t
  end.

Lemma hold_at_eq p h a : hold_at p h a p = h.
Proof. unfold hold_at. by rewrite Z.eqb_refl. Qed.

Lemma hold_at_ne p h a q : q <> p -> hold_at p h a q = a q.
Proof. intros H. unfold hold_at. by rewrite (proj2 (Z.eqb_neq q p) H). Qed.

Lemma rw_inv_ext w w' a : rwlocks w' = rwlocks w -> rw_pcs w' = rw_pcs w -> rw_inv w a -> rw_inv w' a.
Proof. intros El Ep [Ha Hd Hl]. split; rewrite ?El, ?Ep; auto. Qed.

Lemma rw_ret_idle t r w o w' a : rw_pcs w !! t = None -> rw_inv w a -> rw_ret t r w = Done (o, w') -> rw_inv w' a.
Proof. intros Ht Hi [= <- <-]. eapply rw_inv_ext; [..|exact Hi]; [done|]. cbn. by apply delete_id. Qed.

(** A thread not in a call, or waiting for [p]. *)
Definition at_gate (t p : Z) (w : RwWorld) : Prop :=
  rw_pcs w !! t = None \/ exists b c, rw_pcs w !! t = Some (RdWait p b c) \/ rw_pcs w !! t = Some (WrWait p b c).

Lemma gate_lock t p w pc : at_gate t p w -> rw_pcs w !! t = Some pc -> pc_lock pc = p.
Proof. intros [H|(b & c & [H|H])]; rewrite H; by intros [= <-]. Qed.

Lemma count_frame f t w w1 : count f t w = Done w1 -> rwlocks w1 = rwlocks w /\ rw_pcs w1 = rw_pcs w.
Proof.
  unfold count. destruct (rdlock_count w !! t) as [n|]; [cbn|done]. destruct (f n); [cbn|done]. by intros [= <-].
Qed.

(** [t] changes the lock [p] and moves its own program counter. *)
Lemma gate_update t p x x' w w' a a' (f : gmap Z RwPc -> gmap Z RwPc) : rw_inv w a -> rwlocks w !! p = Some x ->
  rwlocks w' = <[p := x']> (rwlocks w) -> rw_pcs w' = f (rw_pcs w) -> (f = delete t \/ exists pc, f = <[t := pc]> /\ pc_lock pc = p) ->
  (forall pc, rw_pcs w !! t = Some pc -> pc_lock pc = p) -> (forall q, q <> p -> a' q = a q) ->
  (forall ws, fits (rw_pcs w) p (a p) x ws -> exists ws', fits (f (rw_pcs w)) p (a' p) x' ws') -> rw_inv w' a'.
Proof.
  intros Hi Hx El Ep Hf Hg Ha Hfit. eapply (rw_update t p x x'); eauto.
  - intros u pc Hu _. rewrite Ep. destruct Hf as [->|(pc' & -> & _)]; [by rewrite lookup_delete_ne|by rewrite lookup_insert_ne].
  - intros pc. rewrite Ep. destruct Hf as [->|(pc' & -> & E)]; [by rewrite lookup_delete_eq|rewrite lookup_insert_eq; by intros [= <-]].
  - by rewrite Ep.
Qed.

Lemma same_lock p x w : rwlocks w !! p = Some x -> rwlocks w = <[p := x]> (rwlocks w).
Proof. intros H. by rewrite insert_id. Qed.

(** Taking a shared lock that was found free of writers. *)
Lemma read_ok t p x n w w1 o w' a : rw_inv w a -> rwlocks w !! p = Some x -> at_gate t p w -> writer_active (lock x) = false ->
  incr (readers (lock x)) = Done n -> count incr t (set_rwlock p (mkRwlock (mkShared n (writer_active (lock x))) (owner x)) w) = Done w1 ->
  rw_ret t 0 w1 = Done (o, w') -> o = Some 0 /\ rw_inv w' (track (EvRead t p) a) /\ rw_ok (EvRead t p) a.
Proof.
  intros Hi Hx Hg Hw Hn Hc [= <- <-]. apply count_frame in Hc as [El Ep]. cbn in El, Ep.
  destruct (ri_lock _ _ Hi p x Hx) as [ws0 F0]. assert (ws0 = None) as -> by (pose proof (f_active _ _ _ _ _ F0) as E; rewrite Hw in E; by destruct ws0).
  assert (readers (lock x) + 1 = n) as Hn1 by (revert Hn; unfold incr; destruct (_ =? _); congruence).
  split_and!; [done| |cbn; apply (f_writer _ _ _ _ _ F0)].
  eapply (gate_update t p x _ w _ a _ (delete t)); eauto; cbn; rewrite ?El, ?Ep; try done.
  - intros pc. by apply gate_lock.
  - intros q Hq. by apply hold_at_ne.
  - intros _ _. exists None. cbn. rewrite hold_at_eq. by apply (fits_read (rw_pcs w) p t (a p) x None).
Qed.

Lemma leave_ok t p x r w o w' a : rw_inv w a -> rwlocks w !! p = Some x -> at_gate t p w -> rw_ret t r w = Done (o, w') -> rw_inv w' a.
Proof.
  intros Hi Hx Hg [= <- <-]. eapply (gate_update t p x x w _ a a (delete t));
    [exact Hi|exact Hx|exact (same_lock p x w Hx)|done|by left|intros pc; by apply gate_lock|done|].
  intros ws F. exists ws. by apply fits_leave.
Qed.

Lemma doze_ok t p x pc w o w' a : rw_inv w a -> rwlocks w !! p = Some x -> at_gate t p w ->
  ((exists b, pc = RdWait p b false \/ pc = WrWait p b false) \/
   (exists b, pc = RdWait p b true /\ can_read (lock x) = false) \/ (exists b, pc = WrWait p b true /\ can_write (lock x) = false)) ->
  rw_goto t pc w = Done (o, w') -> o = None /\ rw_inv w' a.
Proof.
  intros Hi Hx Hg Hpc [= <- <-]. split; [done|].
  eapply (gate_update t p x x w _ a a <[t := pc]>); [exact Hi|exact Hx|exact (same_lock p x w Hx)|done| |intros pc'; by apply gate_lock|done|].
  - right. exists pc. split; [done|]. naive_solver.
  - intros ws F. exists ws. pose proof (f_active _ _ _ _ _ F) as Ea. pose proof (f_readers _ _ _ _ _ F) as Er.
    apply fits_enter; auto; try naive_solver.
    + intros b ->. destruct Hpc as [[? [?|?]]|[(? & _ & Hc)|(? & ? & _)]]; try done. unfold can_read in Hc. rewrite Ea in Hc. by destruct ws.
    + intros b ->. destruct Hpc as [[? [?|?]]|[(? & ? & _)|(? & _ & Hc)]]; try done. unfold can_write in Hc. rewrite Ea, Er in Hc.
      destruct ws; [by left|right]. cbn in Hc. intros E. by rewrite E in Hc.
Qed.
