(* ===== verification/RwSpec.v ===== *)
(** * What the read-write locks promise

    Over all histories in which threads unlock what they hold and destroy locks
    that nobody uses, a lock is held by one writer or by readers, and no thread
    sleeps while its lock is free. *)

From stdpp Require Import gmap.
From S2P Require Import Prelude Rwlock RwFacts.

(** ** Every step *)

Lemma no_writer w a p x : rw_inv w a -> rwlocks w !! p = Some x -> writer_active (lock x) = false -> fits (rw_pcs w) p (a p) x None.
Proof.
  intros Hi Hx Hw. destruct (ri_lock _ _ Hi p x Hx) as [ws F]. pose proof (f_active _ _ _ _ _ F) as E. rewrite Hw in E. by destruct ws.
Qed.

Lemma can_write_free w a p x : rw_inv w a -> rwlocks w !! p = Some x -> writer_active (lock x) = false -> readers (lock x) <= 0 ->
  fits (rw_pcs w) p (a p) x None /\ h_readers (a p) = [].
Proof.
  intros Hi Hx Hw Hr. pose proof (no_writer w a p x Hi Hx Hw) as F. split; [done|]. pose proof (f_readers _ _ _ _ _ F) as E.
  destruct (h_readers (a p)); [done|]. cbn in E. lia.
Qed.

(** Taking the lock for writing. *)
Lemma take_lock_ok t p x w o w' a : rw_inv w a -> rwlocks w !! p = Some x -> at_gate t p w -> writer_active (lock x) = false ->
  readers (lock x) <= 0 -> rw_goto t (WrOwn p) (set_rwlock p (mkRwlock (mkShared (readers (lock x)) true) (owner x)) w) = Done (o, w') ->
  o = None /\ rw_inv w' a.
Proof.
  intros Hi Hx Hg Hw Hr [= <- <-]. split; [done|]. destruct (can_write_free w a p x Hi Hx Hw Hr) as [F Hn].
  eapply (gate_update t p x _ w _ a a <[t := WrOwn p]>); [exact Hi|exact Hx|done|done|right; by exists (WrOwn p)|intros pc; by apply gate_lock|done|].
  intros _ _. exists (Some (t, Owning)). by apply (fits_take (rw_pcs w) p t (a p) x None).
Qed.

(** What a step leads to: the invariant, and an event that may happen. *)
Definition keeps (e : rw_event) (r : option Z) (w' : RwWorld) (a : Z -> Hold) : Prop :=
  rw_inv w' (track (if bool_decide (r = Some 0) then e else EvNone) a) /\ rw_ok (if bool_decide (r = Some 0) then e else EvNone) a.

Lemma keeps_other e r w' a : r <> Some 0 -> rw_inv w' a -> keeps e r w' a.
Proof. intros Hr Hi. unfold keeps. by rewrite bool_decide_false. Qed.

Lemma keeps_event e w' a : rw_inv w' (track e a) -> rw_ok e a -> keeps e (Some 0) w' a.
Proof. intros Hi Ho. unfold keeps. by rewrite bool_decide_true. Qed.

Lemma leave_keeps t p x r w o w' a e : r <> 0 -> rw_inv w a -> rwlocks w !! p = Some x -> at_gate t p w -> rw_ret t r w = Done (o, w') -> keeps e o w' a.
Proof. intros Hr Hi Hx Hg E. apply keeps_other; [|by eapply leave_ok]. injection E as <- _. congruence. Qed.

Lemma read_keeps t p x n w o w' a : rw_inv w a -> rwlocks w !! p = Some x -> at_gate t p w -> writer_active (lock x) = false ->
  incr (readers (lock x)) = Done n ->
  (let! w := count incr t (set_rwlock p (mkRwlock (mkShared n (writer_active (lock x))) (owner x)) w) in rw_ret t 0 w) = Done (o, w') ->
  keeps (EvRead t p) o w' a.
Proof.
  intros Hi Hx Hg Hw Hn. destruct (count incr t _) as [w1|] eqn:Hc; [cbn [obind]|done]. intros E.
  destruct (read_ok t p x n w w1 o w' a Hi Hx Hg Hw Hn Hc E) as (-> & Hi' & Hok). by apply keeps_event.
Qed.

Lemma sleep_keeps t p x pc w o w' a e : rw_inv w a -> rwlocks w !! p = Some x -> at_gate t p w ->
  ((exists b, pc = RdWait p b false \/ pc = WrWait p b false) \/
   (exists b, pc = RdWait p b true /\ can_read (lock x) = false) \/ (exists b, pc = WrWait p b true /\ can_write (lock x) = false)) ->
  rw_goto t pc w = Done (o, w') -> keeps e o w' a.
Proof. intros Hi Hx Hg Hpc E. destruct (doze_ok t p x pc w o w' a Hi Hx Hg Hpc E) as [-> ?]. by apply keeps_other. Qed.

Lemma take_keeps t p x w o w' a e : rw_inv w a -> rwlocks w !! p = Some x -> at_gate t p w -> writer_active (lock x) = false ->
  readers (lock x) <= 0 -> rw_goto t (WrOwn p) (set_rwlock p (mkRwlock (mkShared (readers (lock x)) true) (owner x)) w) = Done (o, w') ->
  keeps e o w' a.
Proof. intros Hi Hx Hg Hw Hr E. destruct (take_lock_ok t p x w o w' a Hi Hx Hg Hw Hr E) as [-> ?]. by apply keeps_other. Qed.

Lemma Rdlock_ok t p abstime w o w' a : rw_inv w a -> rw_pcs w !! t = None -> Rdlock t p abstime w = Done (o, w') -> keeps (EvRead t p) o w' a.
Proof.
  intros Hi Ht. unfold Rdlock. destruct (rwlocks w !! p) as [x|] eqn:Hx; [cbn [of_option obind]|done]. assert (at_gate t p w) as Hg by (by left).
  unfold try_lock_shared. destruct (writer_active (lock x)) eqn:Hw; cbn [obind].
  - destruct (bad_time abstime); [by eapply leave_keeps|]. eapply sleep_keeps; eauto 10.
  - destruct (incr _) as [n|] eqn:Hn; [cbn [obind]|done]. rewrite <- Hw at 1. by eapply read_keeps.
Qed.

Lemma rd_wait_ok t p timed b late w o w' a : rw_inv w a -> rw_pcs w !! t = Some (RdWait p timed b) -> rd_wait_step t p timed late w = Done (o, w') ->
  keeps (EvRead t p) o w' a.
Proof.
  intros Hi Ht. unfold rd_wait_step. destruct (rwlocks w !! p) as [x|] eqn:Hx; [cbn [of_option obind]|done].
  assert (at_gate t p w) as Hg by (right; eauto). unfold lock_shared_round. destruct (can_read (lock x)) eqn:Hc.
  - unfold can_read in Hc. apply negb_true_iff in Hc. destruct (incr _) as [n|] eqn:Hn; [cbn [obind]|done]. by eapply read_keeps.
  - destruct (timed && late); cbn [obind]; [by eapply leave_keeps|]. eapply sleep_keeps; eauto 10.
Qed.

Lemma Wrlock_ok t p abstime w o w' a : rw_inv w a -> rw_pcs w !! t = None -> Wrlock t p abstime w = Done (o, w') -> keeps (EvWrite t p) o w' a.
Proof.
  intros Hi Ht. unfold Wrlock. destruct (rwlocks w !! p) as [x|] eqn:Hx; [cbn [of_option obind]|done]. assert (at_gate t p w) as Hg by (by left).
  unfold try_lock. destruct (_ || _)%bool eqn:Hw.
  - destruct (bad_time abstime); [by eapply leave_keeps|]. eapply sleep_keeps; eauto 10.
  - apply orb_false_iff in Hw as [Hw Hr%Z.ltb_ge]. by eapply take_keeps.
Qed.

Lemma wr_wait_ok t p timed b late w o w' a : rw_inv w a -> rw_pcs w !! t = Some (WrWait p timed b) -> wr_wait_step t p timed late w = Done (o, w') ->
  keeps (EvWrite t p) o w' a.
Proof.
  intros Hi Ht. unfold wr_wait_step. destruct (rwlocks w !! p) as [x|] eqn:Hx; [cbn [of_option obind]|done].
  assert (at_gate t p w) as Hg by (right; eauto). unfold lock_round. destruct (can_write (lock x)) eqn:Hc.
  - unfold can_write in Hc. apply andb_true_iff in Hc as [Hc%negb_true_iff Hr%Z.eqb_eq]. eapply take_keeps; eauto. lia.
  - destruct (timed && late); [by eapply leave_keeps|]. eapply sleep_keeps; eauto 10.
Qed.

Lemma wr_own_ok t p w o w' a : rw_inv w a -> rw_pcs w !! t = Some (WrOwn p) -> wr_own_step t p w = Done (o, w') -> keeps (EvWrite t p) o w' a.
Proof.
  intros Hi Ht. unfold wr_own_step. destruct (rwlocks w !! p) as [x|] eqn:Hx; [cbn [of_option obind]|done]. intros [= <- <-].
  destruct (ri_lock _ _ Hi p x Hx) as [ws0 F0]. assert (ws0 = Some (t, Owning)) as -> by (by apply (f_own _ _ _ _ _ F0)).
  apply keeps_event; [|split; [by apply (f_excl _ _ _ _ _ F0)|apply (f_writer _ _ _ _ _ F0)]].
  eapply (gate_update t p x _ w _ a _ (delete t)); [exact Hi|exact Hx|done|done|by left| |intros q Hq; by apply hold_at_ne|].
  - intros pc. rewrite Ht. by intros [= <-].
  - intros _ _. exists (Some (t, Held)). cbn. rewrite hold_at_eq. by eapply fits_own.
Qed.

Lemma rw_unlock_ok t h w o w' a : rw_inv w a -> rw_pcs w !! t = None ->
  (forall p, handles w !! h = Some p -> t ∈ h_readers (a p) \/ h_writer (a p) = Some t) ->
  posix_pthread_rwlock_unlock t h w = Done (o, w') -> keeps EvNone o w' a.
Proof.
  intros Hi Ht Hh. unfold posix_pthread_rwlock_unlock. destruct (handles w !! h) as [p|] eqn:Ep; [cbn [of_option obind]|done].
  destruct (p <=? _); [intros E; apply keeps_other; [injection E as <- _; done|by eapply rw_ret_idle]|].
  destruct (rwlocks w !! p) as [x|] eqn:Hx; [cbn [of_option obind]|done]. destruct (ri_lock _ _ Hi p x Hx) as [ws0 F0].
  assert (forall pc, rw_pcs w !! t = Some pc -> pc_lock pc = p) as Hg by (by rewrite Ht).
  destruct (bool_decide _) eqn:Ho; [apply bool_decide_eq_true in Ho|apply bool_decide_eq_false in Ho].
  - intros [= <- <-]. apply keeps_other; [done|]. rewrite (f_owner _ _ _ _ _ F0) in Ho.
    assert (ws0 = Some (t, Held)) as -> by (destruct ws0 as [[u []]|]; cbn in Ho; congruence).
    eapply (gate_update t p x _ w _ a a <[t := WrFree p]>); [exact Hi|exact Hx|done|done|right; by exists (WrFree p)|done|done|].
    intros _ _. exists (Some (t, Freeing)). by eapply fits_disown.
  - assert (t ∈ h_readers (a p)) as Hin.
    { destruct (Hh p eq_refl) as [?|E]; [done|]. rewrite (f_writer _ _ _ _ _ F0) in E. rewrite (f_owner _ _ _ _ _ F0) in Ho.
      destruct ws0 as [[u []]|] eqn:Ews; cbn in E, Ho; simplify_eq. by rewrite (proj2 (f_free _ _ _ _ _ F0 t) eq_refl) in Ht. }
    destruct (if bool_decide (owner x = None) then _ else _) as [w1|] eqn:E1; [cbn [obind]|done].
    assert (rwlocks w1 = rwlocks w /\ rw_pcs w1 = rw_pcs w) as [El1 Ep1].
    { destruct (bool_decide _); [by eapply count_frame|by injection E1 as <-]. }
    intros [= <- <-]. apply keeps_other; [done|].
    eapply (gate_update t p x x w _ a a <[t := RdFree p]>); [exact Hi|exact Hx|cbn; rewrite El1; exact (same_lock p x w Hx)|
      cbn; by rewrite Ep1|right; by exists (RdFree p)|done|done|].
    intros ws F. exists ws. apply fits_enter; auto; try done.
Qed.

(** Releasing, with the sleepers of the lock notified or not. *)
Lemma release_update t p x x' (b : bool) w a h' pc : rw_inv w a -> rwlocks w !! p = Some x -> rw_pcs w !! t = Some pc -> pc_lock pc = p ->
  (forall ws, fits (rw_pcs w) p (a p) x ws -> exists ws', fits (delete t (if b then roused p <$> rw_pcs w else rw_pcs w)) p h' x' ws') ->
  rw_inv (map_pcs (delete t) (if b then notify_all p (set_rwlock p x' w) else set_rwlock p x' w)) (hold_at p h' a).
Proof.
  intros Hi Hx Ht Hpc Hf. set (w1 := if b then notify_all p (set_rwlock p x' w) else set_rwlock p x' w). assert (rwlocks w1 = <[p := x']> (rwlocks w)) as El by (by unfold w1; destruct b).
  assert (rw_pcs w1 = if b then roused p <$> rw_pcs w else rw_pcs w) as Ep by (by unfold w1; destruct b).
  eapply (rw_update t p x x'); [exact Hi|exact Hx|exact El| | | |intros q Hq; by apply hold_at_ne|].
  - intros u c Hu Hc. cbn. rewrite Ep, lookup_delete_ne by done. destruct b; [|done]. rewrite lookup_fmap.
    destruct (rw_pcs w !! u) as [[q d e|q d e|q|q|q]|]; cbn; try done; destruct (Z.eqb_spec q p) as [->|]; try done; split; intros [= <-]; by destruct Hc.
  - intros c. rewrite Ht. by intros [= <-].
  - intros c. cbn. by rewrite lookup_delete_eq.
  - intros ws F. cbn. rewrite hold_at_eq, Ep. by apply (Hf ws).
Qed.

Lemma wr_free_ok t p w o w' a : rw_inv w a -> rw_pcs w !! t = Some (WrFree p) ->
  release_step t p (fun l => Done (unlock l)) w = Done (o, w') -> keeps (EvUnwrite t p) o w' a.
Proof.
  intros Hi Ht. unfold release_step. destruct (rwlocks w !! p) as [x|] eqn:Hx; [cbn [of_option obind unlock]|done].
  destruct (ri_lock _ _ Hi p x Hx) as [ws0 F0]. assert (ws0 = Some (t, Freeing)) as -> by (by apply (f_free _ _ _ _ _ F0)).
  intros [= <- <-]. apply keeps_event; [|apply (f_writer _ _ _ _ _ F0)].
  apply (release_update t p x _ true w a _ (WrFree p)); auto. intros _ _. exists None. by eapply fits_release.
Qed.

Lemma rd_free_ok t p w o w' a : rw_inv w a -> rw_pcs w !! t = Some (RdFree p) ->
  release_step t p unlock_shared w = Done (o, w') -> keeps (EvUnread t p) o w' a.
Proof.
  intros Hi Ht. unfold release_step. destruct (rwlocks w !! p) as [x|] eqn:Hx; [cbn [of_option obind]|done].
  unfold unlock_shared. destruct (decr _) as [n|] eqn:Hn; [cbn [obind]|done].
  assert (readers (lock x) - 1 = n) as Hn1 by (revert Hn; unfold decr; destruct (_ =? _); congruence).
  destruct (ri_lock _ _ Hi p x Hx) as [ws0 F0]. intros [= <- <-]. apply keeps_event; [|by apply (f_rdfree _ _ _ _ _ F0)].
  apply (release_update t p x _ (n =? 0) w a _ (RdFree p)); auto. intros ws F. exists ws. by apply fits_unread.
Qed.

(** ** Creation and destruction *)

Lemma fits_new P p : (forall u pc, P !! u = Some pc -> pc_lock pc <> p) -> fits P p nobody new_rwlock None.
Proof.
  intros H. split; try done; intros u; try (split; [|done]); intros; try (exfalso; eapply H; [eassumption|done]).
Qed.

Lemma new_ok p w w' a : rw_inv w a -> rwlocks w !! p = None -> rwlocks w' = <[p := new_rwlock]> (rwlocks w) -> rw_pcs w' = rw_pcs w -> rw_inv w' a.
Proof.
  intros Hi Hn El Ep. assert (forall u pc, rw_pcs w !! u = Some pc -> pc_lock pc <> p) as Hpc.
  { intros u pc Hu <-. destruct (ri_alive _ _ Hi u pc Hu) as [y Hy]. congruence. }
  split; rewrite ?El, ?Ep.
  - intros u pc Hu. rewrite lookup_insert_ne by (intros E; by apply (Hpc u pc)). by apply (ri_alive _ _ Hi u).
  - intros q [? _]%lookup_insert_None. by apply (ri_dead _ _ Hi).
  - intros q y. destruct (decide (q = p)) as [->|]; [|rewrite lookup_insert_ne by done; apply (ri_lock _ _ Hi)].
    rewrite lookup_insert_eq. intros [= <-]. exists None. rewrite (ri_dead _ _ Hi p Hn). by apply fits_new.
Qed.

(** The object a call works on, created if need be. *)
Lemma on_rwlock_ok t h fresh w body o w' a e : rw_inv w a -> rw_pcs w !! t = None -> rw_fresh fresh w ->
  (forall p w1, rw_inv w1 a -> rw_pcs w1 !! t = None -> handles w1 !! h = Some p -> body p w1 = Done (o, w') -> keeps (e p) o w' a /\ handles w' = handles w1) ->
  on_rwlock t h fresh w body = Done (o, w') -> exists p, (handles w' !! h = Some p \/ o <> Some 0) /\ keeps (e p) o w' a.
Proof.
  intros Hi Ht Hf Hb. unfold on_rwlock. destruct (handles w !! h) as [v|] eqn:Ev; [cbn [of_option obind]|done].
  assert (forall p w1, rw_inv w1 a -> rw_pcs w1 !! t = None -> handles w1 !! h = Some p -> body p w1 = Done (o, w') ->
    exists p, (handles w' !! h = Some p \/ o <> Some 0) /\ keeps (e p) o w' a) as Hb'.
  { intros p w1 H1 H2 H3 H4. destruct (Hb p w1 H1 H2 H3 H4) as [Hk Eh]. exists p. split; [left; by rewrite Eh|done]. }
  assert (forall r w1, r <> 0 -> rw_inv w1 a -> rw_pcs w1 !! t = None -> rw_ret t r w1 = Done (o, w') ->
    exists p, (handles w' !! h = Some p \/ o <> Some 0) /\ keeps (e p) o w' a) as Hret.
  { intros r w1 Hr H1 H2 E. assert (o <> Some 0) by (injection E as <- _; congruence). exists 0. split; [by right|].
    apply keeps_other; [done|]. by eapply rw_ret_idle. }
  destruct (v =? _).
  - unfold InitStatic. rewrite Ev. cbn [of_option obind]. destruct (v =? _).
    + destruct fresh as [p|]; cbn [obind]; [|by apply (Hret POSIX_ENOMEM w)]. destruct (Hf p eq_refl) as [_ Hn].
      assert (rw_inv (set_handle h p (set_rwlock p new_rwlock w)) a) as Hi1 by (by eapply new_ok).
      cbn [negb Z.eqb]. cbn [handles set_handle]. rewrite lookup_insert_eq. cbn [of_option obind].
      apply Hb'; [done|done|cbn; by rewrite lookup_insert_eq].
    + cbn [obind negb Z.eqb]. rewrite Ev. cbn [of_option obind]. by apply Hb'.
  - destruct (v =? _); [by apply Hret|by apply Hb'].
Qed.

Lemma destroy_keeps t h w o w' a : rw_inv w a -> rw_pcs w !! t = None ->
  (forall p, handles w !! h = Some p -> a p = nobody /\ forall u pc, rw_pcs w !! u = Some pc -> pc_lock pc <> p) ->
  posix_pthread_rwlock_destroy t h w = Done (o, w') -> rw_inv w' a.
Proof.
  intros Hi Ht Hf. unfold posix_pthread_rwlock_destroy. destruct (handles w !! h) as [v|] eqn:Ev; [cbn [of_option obind]|done].
  destruct (v =? _); [by apply rw_ret_idle|]. destruct (v =? _); [by apply rw_ret_idle|].
  destruct (rwlocks w !! v) as [x|] eqn:Hx; [cbn [of_option obind]|done]. destruct (Hf v eq_refl) as [Hn Hpc].
  apply rw_ret_idle; [done|]. split; cbn.
  - intros u pc Hu. rewrite lookup_delete_ne by (intros E; by apply (Hpc u pc)). by apply (ri_alive _ _ Hi u).
  - intros q. rewrite lookup_delete_None. intros [<-|?]; [done|by apply (ri_dead _ _ Hi)].
  - intros q y [_ Hq]%lookup_delete_Some. by apply (ri_lock _ _ Hi).
Qed.

Lemma init_keeps sdk t h attr fresh w o w' a : rw_inv w a -> rw_pcs w !! t = None -> rw_fresh fresh w ->
  posix_pthread_rwlock_init sdk t h attr fresh w = Done (o, w') -> rw_inv w' a.
Proof.
  intros Hi Ht Hf. unfold posix_pthread_rwlock_init, RwlockInit. set (w0 := set_handle h 0 w).
  assert (rw_inv w0 a) as Hi0 by (eapply (rw_inv_ext w); [done|done|exact Hi]).
  destruct fresh as [p|]; cbn [obind]; [|by apply rw_ret_idle]. destruct (Hf p eq_refl) as [_ Hn].
  destruct (match attr with Some _ => _ | None => _ end) as [[]|]; cbn [obind]; [by apply rw_ret_idle| |done].
  apply rw_ret_idle; [done|]. by eapply (new_ok p w0).
Qed.

(** The calls leave the handles alone. *)
Lemma count_handles f t w w1 : count f t w = Done w1 -> handles w1 = handles w.
Proof. unfold count. destruct (rdlock_count w !! t) as [n|]; [cbn|done]. destruct (f n); [cbn|done]. by intros [= <-]. Qed.

Lemma Rdlock_handles t p abstime w o w' : Rdlock t p abstime w = Done (o, w') -> handles w' = handles w.
Proof.
  unfold Rdlock. destruct (rwlocks w !! p) as [x|]; [cbn [of_option obind]|done]. destruct (try_lock_shared _) as [[[] l]|]; [cbn [obind]..|done].
  - destruct (count incr t _) as [w1|] eqn:E; [cbn [obind]|done]. apply count_handles in E. by intros [= _ <-].
  - destruct (bad_time _); by intros [= _ <-].
Qed.

Lemma Wrlock_handles t p abstime w o w' : Wrlock t p abstime w = Done (o, w') -> handles w' = handles w.
Proof.
  unfold Wrlock. destruct (rwlocks w !! p) as [x|]; [cbn [of_option obind]|done]. destruct (try_lock _) as [[] l]; [by intros [= _ <-]|].
  destruct (bad_time _); by intros [= _ <-].
Qed.

(** A trial that fails is a call with a bad time-out, but for its error code. *)
Lemma tryrd_ok t p w o w' a : rw_inv w a -> rw_pcs w !! t = None ->
  (let! x := of_option (rwlocks w !! p) in
   let! '(got, l) := try_lock_shared (lock x) in
   if got then let! w := count incr t (set_rwlock p (mkRwlock l (owner x)) w) in rw_ret t 0 w
   else rw_ret t POSIX_EBUSY w) = Done (o, w') -> keeps (EvRead t p) o w' a /\ handles w' = handles w.
Proof.
  intros Hi Ht E. destruct (rwlocks w !! p) as [x|] eqn:Hx; [cbn [of_option obind] in E|done]. assert (at_gate t p w) as Hg by (by left).
  unfold try_lock_shared in E. destruct (writer_active (lock x)) eqn:Hw; cbn [obind] in E.
  - split; [eapply leave_keeps; [..|exact E]; done|by injection E as _ <-].
  - destruct (incr _) as [n|] eqn:Hn; [cbn [obind] in E|done]. split; [rewrite <- Hw in E at 1; by eapply read_keeps|].
    destruct (count incr t _) as [w1|] eqn:E1; [cbn [obind] in E|done]. apply count_handles in E1. by injection E as _ <-.
Qed.

Lemma trywr_ok t p w o w' a : rw_inv w a -> rw_pcs w !! t = None ->
  (let! x := of_option (rwlocks w !! p) in
   let '(got, l) := try_lock (lock x) in
   if got then rw_goto t (WrOwn p) (set_rwlock p (mkRwlock l (owner x)) w)
   else rw_ret t POSIX_EBUSY w) = Done (o, w') -> keeps (EvWrite t p) o w' a /\ handles w' = handles w.
Proof.
  intros Hi Ht E. destruct (rwlocks w !! p) as [x|] eqn:Hx; [cbn [of_option obind] in E|done]. assert (at_gate t p w) as Hg by (by left).
  unfold try_lock in E. destruct (_ || _)%bool eqn:Hw.
  - split; [eapply leave_keeps; [..|exact E]; done|by injection E as _ <-].
  - apply orb_false_iff in Hw as [Hw Hr%Z.ltb_ge]. split; [by eapply take_keeps|by injection E as _ <-].
Qed.

Lemma keeps_at (e : Z -> rw_event) h o w' a : (exists p, (handles w' !! h = Some p \/ o <> Some 0) /\ keeps (e p) o w' a) ->
  keeps (match handles w' !! h with Some p => e p | None => EvNone end) o w' a.
Proof.
  intros (p & [->|Ho] & Hk); [done|]. unfold keeps in *. by rewrite bool_decide_false in *.
Qed.

Lemma rw_step_ok op w a r w' : rw_inv w a -> rw_allowed op w a -> rw_perform op w = Done (r, w') -> keeps (event_of op w w') r w' a.
Proof.
  intros Hi Ha E. destruct op as [t|h|sdk t h attr f|t h|t h ab f|t h ab f|t h f|t h f|t h|t late]; cbn [rw_perform rw_allowed event_of] in *;
    repeat match goal with H : _ /\ _ |- _ => destruct H | H : rw_idle _ _ |- _ => destruct H end.
  - injection E as <- <-. apply keeps_other; [done|]. by eapply (rw_inv_ext w).
  - injection E as <- <-. apply keeps_other; [done|]. by eapply (rw_inv_ext w).
  - apply init_keeps with (a := a) in E; [|done..]. unfold keeps. by destruct (bool_decide _).
  - apply destroy_keeps with (a := a) in E; [|done..]. unfold keeps. by destruct (bool_decide _).
  - eapply (keeps_at (EvRead t)), on_rwlock_ok; [exact Hi|done|done| |exact E].
    intros p w1 Hj Hq _ E1. split; [exact (Rdlock_ok _ _ _ _ _ _ _ Hj Hq E1)|exact (Rdlock_handles _ _ _ _ _ _ E1)].
  - eapply (keeps_at (EvWrite t)), on_rwlock_ok; [exact Hi|done|done| |exact E].
    intros p w1 Hj Hq _ E1. split; [exact (Wrlock_ok _ _ _ _ _ _ _ Hj Hq E1)|exact (Wrlock_handles _ _ _ _ _ _ E1)].
  - eapply (keeps_at (EvRead t)), on_rwlock_ok; [exact Hi|done|done| |exact E]. intros p w1 Hj Hq _ E1. exact (tryrd_ok _ _ _ _ _ _ Hj Hq E1).
  - eapply (keeps_at (EvWrite t)), on_rwlock_ok; [exact Hi|done|done| |exact E]. intros p w1 Hj Hq _ E1. exact (trywr_ok _ _ _ _ _ _ Hj Hq E1).
  - by eapply rw_unlock_ok.
  - unfold rw_advance in E. destruct (rw_pcs w !! t) as [pc|] eqn:Ht; [cbn [of_option obind] in E|done].
    destruct pc; [by eapply rd_wait_ok|by eapply wr_wait_ok|by eapply wr_own_ok|by eapply wr_free_ok|by eapply rd_free_ok].
Qed.

Lemma rw_reach_inv w a : rw_reach w a -> rw_inv w a.
Proof.
  induction 1 as [|w a op r w' _ IH Ha E]; [split; cbn; [intros ? ?; by rewrite lookup_empty|done|intros ? ?; by rewrite lookup_empty]|].
  by apply (rw_step_ok op w a r w' IH Ha).
Qed.

(** ** The properties *)

(** C13: over all histories in which threads unlock only what they hold and
    destroy only locks that nobody holds or is inside a call on, a read-write
    lock admits a reader only while no writer holds it and a writer only while
    nobody holds it, so that it is never held by a writer and a reader or by
    two writers; and a thread sleeps in it only while another is inside (a
    reader while a writer is, a writer while anybody is), or while it holds
    the lock itself and so waits for itself. *)
Theorem rwlock_excludes w a op r w' (Hr : rw_reach w a) (Ha : rw_allowed op w a) (E : rw_perform op w = Done (r, w')) :
  let a' := track (event op r w w') a in
  rw_ok (event op r w w') a /\
  (forall p t, h_writer (a' p) = Some t -> h_readers (a' p) = []) /\
  (forall p t b, rw_pcs w' !! t = Some (RdWait p b true) ->
     (exists u, u <> t /\ (h_writer (a' p) = Some u \/ rw_pcs w' !! u = Some (WrOwn p))) \/ h_writer (a' p) = Some t) /\
  (forall p t b, rw_pcs w' !! t = Some (WrWait p b true) ->
     (exists u, u <> t /\ (u ∈ h_readers (a' p) \/ h_writer (a' p) = Some u \/ rw_pcs w' !! u = Some (WrOwn p))) \/
     t ∈ h_readers (a' p) \/ h_writer (a' p) = Some t).
Proof.
  intros a'. destruct (rw_step_ok op w a r w' (rw_reach_inv w a Hr) Ha E) as [Hi Hok]. fold (event op r w w') in Hi, Hok. fold a' in Hi.
  assert (forall p x ws, fits (rw_pcs w') p (a' p) x ws -> ws <> None -> exists u, h_writer (a' p) = Some u \/ rw_pcs w' !! u = Some (WrOwn p)) as Hin.
  { intros p x [[u ph]|] F Hn; [|done]. exists u. rewrite (f_writer _ _ _ _ _ F), (f_own _ _ _ _ _ F). destruct ph; auto. }
  assert (forall t pc, rw_pcs w' !! t = Some pc -> exists x ws, fits (rw_pcs w') (pc_lock pc) (a' (pc_lock pc)) x ws) as Hf.
  { intros t pc Ht. destruct (ri_alive _ _ Hi t pc Ht) as [x Hx]. destruct (ri_lock _ _ Hi _ x Hx) as [ws F]. eauto. }
  split_and!; [done|..].
  - intros p t Hw. destruct (rwlocks w' !! p) as [x|] eqn:Hx; [|by rewrite (ri_dead _ _ Hi p Hx) in Hw].
    destruct (ri_lock _ _ Hi p x Hx) as [ws F]. apply (f_excl _ _ _ _ _ F). rewrite (f_writer _ _ _ _ _ F) in Hw. by destruct ws.
  - intros p t b Ht. destruct (Hf t _ Ht) as (x & ws & F). cbn in F.
    destruct (Hin p x ws F ltac:(by eapply (f_rdsleep _ _ _ _ _ F))) as [u Hu].
    destruct (decide (u = t)) as [->|Hne]; [right; destruct Hu; [done|congruence]|left; eauto].
  - intros p t b Ht. destruct (Hf t _ Ht) as (x & ws & F). cbn in F. destruct (f_wrsleep _ _ _ _ _ F t b Ht) as [Hn|Hn].
    + destruct (Hin p x ws F Hn) as [u Hu]. destruct (decide (u = t)) as [->|Hne]; [right; right; destruct Hu; [done|congruence]|left; naive_solver].
    + destruct (h_readers (a' p)) as [|u l]; [done|]. destruct (decide (u = t)) as [->|Hne]; [right; left; apply list_elem_of_here|].
      left. exists u. split; [done|]. left. apply list_elem_of_here.
Qed.

(** The lock of a thread inside a call, without a writer in it. *)
Lemma no_writer_inside w a p x : rw_inv w a -> rwlocks w !! p = Some x -> h_writer (a p) = None -> (forall u, rw_pcs w !! u <> Some (WrOwn p)) ->
  fits (rw_pcs w) p (a p) x None /\ writer_active (lock x) = false.
Proof.
  intros Hi Hx Hw Hn. destruct (ri_lock _ _ Hi p x Hx) as [[[u ph]|] F]; [|split; [done|apply (f_active _ _ _ _ _ F)]].
  exfalso. rewrite (f_writer _ _ _ _ _ F) in Hw. destruct ph; try done. apply (Hn u). by apply (f_own _ _ _ _ _ F).
Qed.

Lemma count_total t n w : rdlock_count w !! t = Some n -> n < 2147483647 -> exists w1, count incr t w = Done w1.
Proof. intros H Hn. unfold count. rewrite H. cbn [of_option obind]. unfold incr. rewrite (proj2 (Z.eqb_neq _ _)) by lia. by eexists. Qed.

(** readers come first and nobody waits at a free lock: while no writer is
    inside, a read lock is granted at once, however many writers wait, and a
    waiting reader's next step ends its wait; while nobody is inside, a waiting
    writer's next two steps end its wait; all return 0. *)
Theorem rwlock_grants w a t p x n (Hr : rw_reach w a) (Hx : rwlocks w !! p = Some x)
  (Hw : h_writer (a p) = None) (Ho : forall u, rw_pcs w !! u <> Some (WrOwn p))
  (Hn : rdlock_count w !! t = Some n) (Hb : n < 2147483647) (Hl : Z.of_nat (length (h_readers (a p))) < 2147483647) :
  (forall abstime, rw_pcs w !! t = None -> exists w', Rdlock t p abstime w = Done (Some 0, w')) /\
  (forall timed asleep late, rw_pcs w !! t = Some (RdWait p timed asleep) -> exists w', rw_perform (RwAdvance t late) w = Done (Some 0, w')) /\
  (forall timed asleep late, rw_pcs w !! t = Some (WrWait p timed asleep) -> h_readers (a p) = [] ->
     exists w1 w2, rw_perform (RwAdvance t late) w = Done (None, w1) /\ forall late', rw_perform (RwAdvance t late') w1 = Done (Some 0, w2)).
Proof.
  pose proof (rw_reach_inv w a Hr) as Hi. destruct (no_writer_inside w a p x Hi Hx Hw Ho) as [F Hact].
  pose proof (f_readers _ _ _ _ _ F) as Er.
  assert (incr (readers (lock x)) = Done (readers (lock x) + 1)) as Ei by (unfold incr; by rewrite (proj2 (Z.eqb_neq _ _)) by lia).
  assert (forall l, exists w', (let! w1 := count incr t (set_rwlock p l w) in rw_ret t 0 w1) = Done (Some 0, w')) as Hc.
  { intros l. destruct (count_total t n (set_rwlock p l w) Hn Hb) as [w1 ->]. by eexists. }
  split_and!.
  - intros abstime _. unfold Rdlock. rewrite Hx. cbn [of_option obind]. unfold try_lock_shared. rewrite Hact, Ei. cbn [obind]. apply Hc.
  - intros timed asleep late Ht. cbn. unfold rw_advance. rewrite Ht. cbn [of_option obind]. unfold rd_wait_step. rewrite Hx. cbn [of_option obind].
    unfold lock_shared_round, can_read. rewrite Hact. cbn [negb]. rewrite Ei. cbn [obind]. apply Hc.
  - intros timed asleep late Ht H0. rewrite H0 in Er. cbn in Er. eexists _, _. split.
    + cbn. unfold rw_advance. rewrite Ht. cbn [of_option obind]. unfold wr_wait_step. rewrite Hx. cbn [of_option obind].
      unfold lock_round, can_write. rewrite Hact, Er. reflexivity.
    + intros late'. cbn. unfold rw_advance, wr_own_step. cbn. rewrite lookup_insert_eq. cbn. rewrite lookup_insert_eq. reflexivity.
Qed.

(** ** Histories *)

Fixpoint rw_run (ops : list rw_op) (w : RwWorld) (a : Z -> Hold) : outcome (list (option Z) * RwWorld * (Z -> Hold)) :=
  match ops with
  | [] => Done ([], w, a)
  | op :: ops =>
      let! '(r, w') := rw_perform op w in
      let! '(rs, w'', a) := rw_run ops w' (track (event op r w w') a) in
      Done (r :: rs, w'', a)
  end.

Fixpoint rw_legal (ops : list rw_op) (w : RwWorld) (a : Z -> Hold) : Prop :=
  match ops with
  | [] => True
  | op :: ops => rw_allowed op w a /\
      match rw_perform op w with Done (r, w') => rw_legal ops w' (track (event op r w w') a) | Raised _ => True end
  end.

Lemma rw_run_reach ops w a rs w' a' : rw_reach w a -> rw_legal ops w a -> rw_run ops w a = Done (rs, w', a') -> rw_reach w' a'.
Proof.
  revert w a rs. induction ops as [|op ops IH]; cbn; intros w a rs Hr Ha; [by intros [= <- <- <-]|]. destruct Ha as [Ha Hn].
  destruct (rw_perform op w) as [[r w1]|] eqn:E; [cbn|done].
  destruct (rw_run ops w1 _) as [[[rs1 w2] a2]|] eqn:E2; [cbn|done]. intros [= <- <- <-].
  eapply IH; [|exact Hn|exact E2]. by eapply rw_next.
Qed.

(** Thread 1 reads, thread 2 sleeps on its way to write. *)
Definition demo_rw : list rw_op :=
  [RwSpawn 1; RwSpawn 2; RwSpawn 3; RwMemory 8; RwRdlock 1 8 None (Some 64); RwWrlock 2 8 None None; RwAdvance 2 false].

Definition rw_world (m : outcome (list (option Z) * RwWorld * (Z -> Hold))) : RwWorld := match m with Done (_, w, _) => w | _ => rw_boot end.
Definition rw_holds (m : outcome (list (option Z) * RwWorld * (Z -> Hold))) : Z -> Hold := match m with Done (_, _, a) => a | _ => fun _ => nobody end.

Lemma demo_rw_reach : rw_reach (rw_world (rw_run demo_rw rw_boot (fun _ => nobody))) (rw_holds (rw_run demo_rw rw_boot (fun _ => nobody))).
Proof.
  eapply (rw_run_reach demo_rw rw_boot (fun _ => nobody)); [constructor| |reflexivity].
  cbn -[lookup insert delete]. split_and!; try done; try by eexists. all: by intros p [= <-].
Qed.

Lemma rwlock_excludes_witness :
  rw_pcs (rw_world (rw_run demo_rw rw_boot (fun _ => nobody))) !! 2 = Some (WrWait 64 false true) /\
  rw_ok (EvRead 3 64) (rw_holds (rw_run demo_rw rw_boot (fun _ => nobody))).
Proof.
  split; [by vm_compute|]. set (s := rw_run demo_rw rw_boot (fun _ => nobody)). set (w := rw_world s). set (a := rw_holds s).
  assert (rw_allowed (RwRdlock 3 8 None None) w a) as Ha by (split; [split; [by vm_compute|by eexists]|by intros p [=]]).
  assert (rw_perform (RwRdlock 3 8 None None) w = Done (Some 0, rw_world (rw_run (demo_rw ++ [RwRdlock 3 8 None None]) rw_boot (fun _ => nobody)))) as E
    by (by vm_compute).
  exact (proj1 (rwlock_excludes w a (RwRdlock 3 8 None None) (Some 0) _ demo_rw_reach Ha E)).
Defined.

Lemma rwlock_grants_witness :
  exists w', Rdlock 3 64 None (rw_world (rw_run demo_rw rw_boot (fun _ => nobody))) = Done (Some 0, w').
Proof.
  apply (rwlock_grants _ _ 3 64 (mkRwlock (mkShared 1 false) None) 0 demo_rw_reach); try by vm_compute.
  intros u. assert (rw_pcs (rw_world (rw_run demo_rw rw_boot (fun _ => nobody))) = {[2 := WrWait 64 false true]}) as -> by (by vm_compute).
  destruct (decide (u = 2)) as [->|]; [by rewrite lookup_singleton_eq|by rewrite lookup_singleton_ne].
Defined.

(** A thread that holds nothing can unlock: the reader's count is gone and a
    writer enters beside the reader. *)
Example foreign_unlock_admits_writer :
  match rw_run ([RwSpawn 1; RwSpawn 2; RwSpawn 3; RwMemory 8; RwRdlock 1 8 None (Some 64);
      RwUnlock 2 8; RwAdvance 2 false; RwWrlock 3 8 None None; RwAdvance 3 false]) rw_boot (fun _ => nobody) with
  | Done (rs, _, a) => (drop 5 rs, h_readers (a 64), h_writer (a 64)) = ([None; Some 0; None; Some 0], [1], Some 3)
  | Raised _ => False
  end.
Proof. vm_compute. reflexivity. Qed.

(** The same call while a writer holds the lock makes the count negative: a
    writer asleep in [lock] does not get the free lock any more. *)
Example foreign_unlock_strands_writer :
  match rw_run ([RwSpawn 1; RwSpawn 2; RwSpawn 3; RwMemory 8; RwWrlock 1 8 None (Some 64); RwAdvance 1 false;
      RwWrlock 3 8 None None; RwAdvance 3 false; RwUnlock 2 8; RwAdvance 2 false; RwUnlock 1 8; RwAdvance 1 false; RwAdvance 3 false])
    rw_boot (fun _ => nobody) with
  | Done (_, w, a) => (rwlocks w !! 64, h_readers (a 64), h_writer (a 64), rw_pcs w !! 3) =
      (Some (mkRwlock (mkShared (-1) false) None), [], None, Some (WrWait 64 false true))
  | Raised _ => False
  end.
Proof. vm_compute. reflexivity. Qed.
