(* ===== verification/Mspace.v ===== *)
(** * Memory spaces of the guest's C library ([core/libraries/libc_internal/mspace.cpp])

    A memory space is an [Arena]: a range of guest memory the guest supplies, a
    map of its free blocks by offset and a table of its live allocations by
    address, both kept outside of that range.  Guests hold handles of a registry
    to them; a call owns the arena it resolved until it returns, so that an arena
    can be destroyed while calls on it are running. *)

From stdpp Require Import gmap.
From S2P Require Import Prelude OrdMap.

Definition DefaultAlignment : Z := 16.
Definition KnownMspaceFlags : Z := 0x0f.
Definition SIZE_MAX : Z := 18446744073709551615.

Definition RangesOverlap (first_base first_capacity second_base second_capacity : Z) : bool :=
  let first_end := wadd first_base first_capacity in
  let second_end := wadd second_base second_capacity in
  (first_base <? second_end) && (second_base <? first_end).

Definition not_power (alignment : Z) : bool := (alignment =? 0) || negb (Z.land alignment (alignment - 1) =? 0).

Definition AlignUp (value alignment : Z) : option Z :=
  if not_power alignment then None else
  let misalign := Z.land value (alignment - 1) in
  if misalign =? 0 then Some value else
  let addition := alignment - misalign in
  if SIZE_MAX - addition <? value then None else Some (value + addition).

(** ** Arenas

    An [Allocation] is its size.  The guest's memory, by address, is shared with
    everything else; the null pointer is 0. *)

Record Arena := mkArena { a_name : list Z; a_base : Z; a_capacity : Z; free_blocks : omap Z; allocations : gmap Z Z }.

Definition Memory : Type := Z -> Z.

Definition new_arena (name : list Z) (base capacity : Z) : Arena :=
  mkArena name base capacity (if 0 <? capacity then [(0, capacity)] else []) ∅.

Definition set_free (fb : omap Z) (a : Arena) : Arena := mkArena (a_name a) (a_base a) (a_capacity a) fb (allocations a).
Definition set_allocations (m : gmap Z Z) (a : Arena) : Arena := mkArena (a_name a) (a_base a) (a_capacity a) (free_blocks a) m.

(** The block is merged with the next one, then with the one before. *)
Definition merge_next (offset size : Z) (fb : omap Z) : Z * omap Z :=
  match mnext offset fb with
  | Some (n, next_size) =>
      if wadd offset size =? n then (wadd size next_size, merase n (mset offset (wadd size next_size) fb)) else (size, fb)
  | None => (size, fb)
  end.

Definition merge_prev (offset size : Z) (fb : omap Z) : omap Z :=
  match mprev offset fb with
  | Some (p, prev_size) => if wadd p prev_size =? offset then merase offset (mset p (wadd prev_size size) fb) else fb
  | None => fb
  end.

(** [std::abort] is a failed assertion. *)
Definition InsertFreeBlock (offset size : Z) (fb : omap Z) : outcome (omap Z) :=
  if size =? 0 then Done fb else
  match mlookup offset fb with
  | Some _ => Raised AssertFailed
  | None =>
      let fb := mset offset size fb in
      let '(size, fb) := merge_next offset size fb in
      Done (merge_prev offset size fb)
  end.

(** The place an allocation takes in a block, [None] where the loop continues. *)
Definition fit (base alloc_size alignment block_offset block_size : Z) : option Z :=
  let abs_block_start := wadd base block_offset in
  match AlignUp abs_block_start alignment with
  | None => None
  | Some aligned_abs =>
      let abs_block_end := wadd abs_block_start block_size in
      if abs_block_end <=? aligned_abs then None else
      let padding := wsub aligned_abs abs_block_start in
      if SIZE_MAX - padding <? alloc_size then None else
      let total_needed := padding + alloc_size in
      if block_size <? total_needed then None else Some aligned_abs
  end.

Definition carve (alloc_size aligned_abs block_offset block_size : Z) (a : Arena) : outcome (Z * Arena) :=
  let padding := wsub aligned_abs (wadd (a_base a) block_offset) in
  let leading_size := padding in
  let trailing_size := wsub block_size (padding + alloc_size) in
  let aligned_offset := wadd block_offset padding in
  let trailing_offset := wadd aligned_offset alloc_size in
  let fb := merase block_offset (free_blocks a) in
  let! fb := (if 0 <? leading_size then InsertFreeBlock block_offset leading_size fb else Done fb) in
  let! fb := (if 0 <? trailing_size then InsertFreeBlock trailing_offset trailing_size fb else Done fb) in
  Done (aligned_abs, set_allocations (<[aligned_abs := alloc_size]> (allocations a)) (set_free fb a)).

Fixpoint allocate_from (alloc_size alignment : Z) (it : omap Z) (a : Arena) : outcome (Z * Arena) :=
  match it with
  | [] => Done (0, a)
  | (block_offset, block_size) :: it =>
      match fit (a_base a) alloc_size alignment block_offset block_size with
      | None => allocate_from alloc_size alignment it a
      | Some aligned_abs => carve alloc_size aligned_abs block_offset block_size a
      end
  end.

Definition AllocateLocked (size alignment : Z) (a : Arena) : outcome (Z * Arena) :=
  allocate_from (if size =? 0 then 1 else size) alignment (free_blocks a) a.

Definition Allocate (size alignment : Z) (a : Arena) : outcome (Z * Arena) :=
  if not_power alignment then Done (0, a) else AllocateLocked size alignment a.

Definition FreeLocked (addr : Z) (a : Arena) : outcome Arena :=
  let! alloc_size := of_option (allocations a !! addr) in
  let a := set_allocations (delete addr (allocations a)) a in
  let offset := wsub addr (a_base a) in
  let! fb := InsertFreeBlock offset alloc_size (free_blocks a) in
  Done (set_free fb a).

Definition Free (pointer : Z) (a : Arena) : outcome (Z * Arena) :=
  if pointer =? 0 then Done (0, a) else
  match allocations a !! pointer with
  | None => Done (1, a)
  | Some _ => let! a := FreeLocked pointer a in Done (0, a)
  end.

(** [std::memcpy] of overlapping ranges is undefined. *)
Definition memcpy (dest src n : Z) (m : Memory) : outcome Memory :=
  if (dest <? src + n) && (src <? dest + n) then Raised Undefined
  else Done (fun x => if (dest <=? x) && (x <? dest + n) then m (src + (x - dest)) else m x).

Definition memset (dest v n : Z) (m : Memory) : Memory := fun x => if (dest <=? x) && (x <? dest + n) then v else m x.

(** The growth in place, [None] where the following block does not allow it. *)
Definition grow (pointer old_size new_size : Z) (a : Arena) : outcome (option Arena) :=
  let extra_size := new_size - old_size in
  let tail_offset := wadd (wsub pointer (a_base a)) old_size in
  match mlookup tail_offset (free_blocks a) with
  | Some tail_size =>
      if extra_size <=? tail_size then
        let fb := merase tail_offset (free_blocks a) in
        let! fb := (if extra_size <? tail_size then InsertFreeBlock (wadd tail_offset extra_size) (tail_size - extra_size) fb else Done fb) in
        Done (Some (set_allocations (<[pointer := new_size]> (allocations a)) (set_free fb a)))
      else Done None
  | None => Done None
  end.

Definition Realloc (pointer new_size : Z) (a : Arena) (m : Memory) : outcome (Z * Arena * Memory) :=
  if pointer =? 0 then let! '(p, a) := Allocate new_size DefaultAlignment a in Done (p, a, m)
  else if new_size =? 0 then let! '(_, a) := Free pointer a in Done (0, a, m)
  else
    match allocations a !! pointer with
    | None => Done (0, a, m)
    | Some old_size =>
        if new_size =? old_size then Done (pointer, a, m)
        else if new_size <? old_size then
          let a := set_allocations (<[pointer := new_size]> (allocations a)) a in
          let! fb := InsertFreeBlock (wadd (wsub pointer (a_base a)) new_size) (old_size - new_size) (free_blocks a) in
          Done (pointer, set_free fb a, m)
        else
          let! grown := grow pointer old_size new_size a in
          match grown with
          | Some a => Done (pointer, a, m)
          | None =>
              let! '(replacement, a) := AllocateLocked new_size DefaultAlignment a in
              if replacement =? 0 then Done (0, a, m) else
              let! m := memcpy replacement pointer old_size m in
              let! a := FreeLocked pointer a in
              Done (replacement, a, m)
          end
    end.

Definition UsableSize (pointer : Z) (a : Arena) : Z := if pointer =? 0 then 0 else default 0 (allocations a !! pointer).

(** ** The registry

    Arena objects have identities that are never reused, as those of the control
    blocks of shared pointers; an object lives in [arenas] while something owns
    it.  A call is in one of the states of [Flight] between its steps. *)

Record HandleEntry := mkEntry { arena : option Z; retired_arena : option Z; e_base : Z; e_capacity : Z }.

Inductive Call :=
  | CMalloc (size : Z)
  | CFree (pointer : Z)
  | CCalloc (count size : Z)
  | CRealloc (pointer size : Z)
  | CMemalign (alignment size : Z).

Inductive Flight :=
  | Resolved (id : Z) (c : Call)               (* about to lock the arena *)
  | Zeroing (id ptr total : Z)                 (* [MspaceCalloc], before its [memset] *)
  | Scanning (seen rest : list Z) (pointer : Z) (* [MspaceMallocUsableSize], arenas to look at *)
  | Leaving (owns : list Z) (result : Z).      (* releases what it owns, then returns *)

Record Mspaces := mkMspaces {
  arenas : gmap Z Arena;
  next_id : Z;
  handles : gmap Z HandleEntry;
  calls : gmap Z Flight;
  memory : Memory
}.

Definition set_arena (id : Z) (a : Arena) (s : Mspaces) : Mspaces :=
  mkMspaces (<[id := a]> (arenas s)) (next_id s) (handles s) (calls s) (memory s).
Definition set_handles (h : gmap Z HandleEntry) (s : Mspaces) : Mspaces := mkMspaces (arenas s) (next_id s) h (calls s) (memory s).
Definition set_memory (m : Memory) (s : Mspaces) : Mspaces := mkMspaces (arenas s) (next_id s) (handles s) (calls s) m.
Definition fly (t : Z) (f : Flight) (s : Mspaces) : outcome (option Z * Mspaces) :=
  Done (None, mkMspaces (arenas s) (next_id s) (handles s) (<[t := f]> (calls s)) (memory s)).
Definition back (t r : Z) (s : Mspaces) : outcome (option Z * Mspaces) :=
  Done (Some r, mkMspaces (arenas s) (next_id s) (handles s) (delete t (calls s)) (memory s)).

Definition owns (f : Flight) : list Z :=
  match f with
  | Resolved id _ => [id]
  | Zeroing id _ _ => [id]
  | Scanning seen rest _ => seen ++ rest
  | Leaving l _ => l
  end.

Definition owned (id : Z) (s : Mspaces) : bool :=
  existsb (fun e => bool_decide (arena e = Some id)) (map_to_list (handles s)).*2
  || existsb (fun f => bool_decide (id ∈ owns f)) (map_to_list (calls s)).*2.

(** An owner of [id] is gone. *)
Definition unown (id : Z) (s : Mspaces) : Mspaces :=
  if owned id s then s else mkMspaces (delete id (arenas s)) (next_id s) (handles s) (calls s) (memory s).

Definition expired (w : option Z) (s : Mspaces) : bool :=
  match w with Some id => match arenas s !! id with Some _ => false | None => true end | None => true end.

Definition ResolveArena (handle : Z) (s : Mspaces) : option Z :=
  if handle =? 0 then None else
  match handles s !! handle with Some e => arena e | None => None end.

(** At most [n] characters of a name. *)
Fixpoint copy_name (n : nat) (m : Memory) (p : Z) : list Z :=
  match n with
  | O => []
  | S n => if m p =? 0 then [] else m p :: copy_name n m (p + 1)
  end.

Definition blocks_range (base capacity : Z) (s : Mspaces) (e : HandleEntry) : bool :=
  (bool_decide (is_Some (arena e)) || negb (expired (retired_arena e) s)) && RangesOverlap base capacity (e_base e) (e_capacity e).

(** [handle] is the address of the new entry. *)
Definition MspaceCreate (t name base capacity flags handle : Z) (s : Mspaces) : outcome (option Z * Mspaces) :=
  if (base =? 0) || (capacity =? 0) then back t 0 s
  else if SIZE_MAX - capacity <? base then back t 0 s
  else if negb (Z.land flags (Z.lxor 0xffffffff KnownMspaceFlags) =? 0) then back t 0 s
  else
    let name_str := if name =? 0 then [] else copy_name 63 (memory s) name in
    if existsb (blocks_range base capacity s) (map_to_list (handles s)).*2 then back t 0 s else
    let id := next_id s in
    back t handle
      (mkMspaces (<[id := new_arena name_str base capacity]> (arenas s)) (id + 1)
         (<[handle := mkEntry (Some id) None base capacity]> (handles s)) (calls s) (memory s)).

Definition MspaceDestroy (t handle : Z) (s : Mspaces) : outcome (option Z * Mspaces) :=
  if handle =? 0 then back t 1 s else
  match handles s !! handle with
  | None => back t 1 s
  | Some e =>
      match arena e with
      | None => back t 1 s
      | Some id => back t 0 (unown id (set_handles (<[handle := mkEntry None (Some id) (e_base e) (e_capacity e)]> (handles s)) s))
      end
  end.

(** The first step of a call on a handle; [fail] is its result for a handle
    without arena. *)
Definition resolve (t handle fail : Z) (c : Call) (s : Mspaces) : outcome (option Z * Mspaces) :=
  match ResolveArena handle s with
  | None => back t fail s
  | Some id => fly t (Resolved id c) s
  end.

Definition MspaceMalloc (t handle size : Z) : Mspaces -> outcome (option Z * Mspaces) := resolve t handle 0 (CMalloc size).
Definition MspaceFree (t handle pointer : Z) : Mspaces -> outcome (option Z * Mspaces) := resolve t handle 1 (CFree pointer).
Definition MspaceCalloc (t handle count size : Z) : Mspaces -> outcome (option Z * Mspaces) := resolve t handle 0 (CCalloc count size).
Definition MspaceRealloc (t handle pointer size : Z) : Mspaces -> outcome (option Z * Mspaces) := resolve t handle 0 (CRealloc pointer size).
Definition MspaceMemalign (t handle alignment size : Z) (s : Mspaces) : outcome (option Z * Mspaces) :=
  if not_power alignment then back t 0 s else resolve t handle 0 (CMemalign (Z.max alignment DefaultAlignment) size) s.

(** [order] is the order in which the table is iterated. *)
Definition MspaceMallocUsableSize (t pointer : Z) (order : list Z) (s : Mspaces) : outcome (option Z * Mspaces) :=
  if pointer =? 0 then back t 0 s else
  fly t (Scanning [] (base.omap (fun h => handles s !! h ≫= arena) order) pointer) s.

(** The critical section of a call on its arena. *)
Definition run_call (t id : Z) (c : Call) (s : Mspaces) : outcome (option Z * Mspaces) :=
  let! a := of_option (arenas s !! id) in
  match c with
  | CMalloc size => let! '(p, a) := Allocate size DefaultAlignment a in fly t (Leaving [id] p) (set_arena id a s)
  | CFree pointer => let! '(r, a) := Free pointer a in fly t (Leaving [id] r) (set_arena id a s)
  | CCalloc count size =>
      if negb (count =? 0) && (SIZE_MAX / count <? size) then fly t (Leaving [id] 0) s else
      let total := wmul count size in
      let! '(p, a) := Allocate total DefaultAlignment a in
      fly t (if p =? 0 then Leaving [id] 0 else Zeroing id p total) (set_arena id a s)
  | CRealloc pointer size => let! '(p, a, m) := Realloc pointer size a (memory s) in fly t (Leaving [id] p) (set_memory m (set_arena id a s))
  | CMemalign alignment size => let! '(p, a) := Allocate size alignment a in fly t (Leaving [id] p) (set_arena id a s)
  end.

Definition scan_step (t : Z) (seen rest : list Z) (pointer : Z) (s : Mspaces) : outcome (option Z * Mspaces) :=
  match rest with
  | [] => fly t (Leaving seen 0) s
  | id :: rest =>
      let! a := of_option (arenas s !! id) in
      let size := UsableSize pointer a in
      if negb (size =? 0) then fly t (Leaving (seen ++ id :: rest) size) s else fly t (Scanning (seen ++ [id]) rest pointer) s
  end.

Definition leave_step (t : Z) (l : list Z) (result : Z) (s : Mspaces) : outcome (option Z * Mspaces) :=
  match l with
  | [] => back t result s
  | id :: l => let! '(_, s) := fly t (Leaving l result) s in Done (None, unown id s)
  end.

Definition ms_advance (t : Z) (s : Mspaces) : outcome (option Z * Mspaces) :=
  let! f := of_option (calls s !! t) in
  match f with
  | Resolved id c => run_call t id c s
  | Zeroing id ptr total => fly t (Leaving [id] ptr) (set_memory (memset ptr 0 total (memory s)) s)
  | Scanning seen rest pointer => scan_step t seen rest pointer s
  | Leaving l result => leave_step t l result s
  end.
