(* ===== verification/MspaceArena.v ===== *)
(** * Memory spaces: one arena

    Rounding and the list of free blocks, the invariant of an arena, and what its
    operations do. *)

From stdpp Require Import gmap.
From S2P Require Import Prelude OrdMap Mspace.

(** ** Alignment, free blocks and the invariant of an arena

    Free blocks are kept in order with at least one byte between them
    ([blocks_ok]); [freeb] is the set of offsets they stand for.  An insertion
    adds a range to that set, whatever it merges.  An arena is well formed
    ([arena_ok]) when its live allocations are disjoint and the free offsets are
    exactly those no allocation covers. *)

(** ** Alignment *)

Lemma not_power_pow a : 0 <= a -> not_power a = false -> exists k, 0 <= k /\ a = 2 ^ k.
Proof.
  intros Ha E. unfold not_power in E. bool_prop. exists (Z.log2 a). split; [apply Z.log2_nonneg|].
  pose proof (Z.log2_spec a ltac:(lia)) as [Hlo Hhi]. pose proof (Z.log2_nonneg a).
  destruct (Z.eq_dec a (2 ^ Z.log2 a)); [done|]. exfalso.
  assert (Hl : Z.log2 (a - 1) = Z.log2 a) by (apply Z.log2_unique; lia).
  assert (Hb : Z.testbit (Z.land a (a - 1)) (Z.log2 a) = true).
  { rewrite Z.land_spec, Z.bit_log2 by lia. rewrite <- Hl, Z.bit_log2 by lia. done. }
  by rewrite H0, Z.bits_0 in Hb.
Qed.

Lemma land_mod v a : 0 <= a -> not_power a = false -> 0 < a /\ Z.land v (a - 1) = v mod a.
Proof.
  intros Ha E. destruct (not_power_pow a Ha E) as (k & Hk & ->). split; [by apply Z.pow_pos_nonneg|].
  rewrite <- Z.land_ones by done. by rewrite Z.ones_equiv, Z.sub_1_r.
Qed.

(** Rounding up gives the least multiple, unless there is none in the word. *)
Lemma AlignUp_spec v a : 0 <= a -> 0 <= v < W64 -> not_power a = false ->
  match AlignUp v a with
  | Some r => v <= r < W64 /\ (a | r) /\ forall q, v <= q -> (a | q) -> r <= q
  | None => forall q, v <= q -> (a | q) -> W64 <= q
  end.
Proof.
  intros Ha Hv E. destruct (land_mod v a Ha E) as [Hp Hl]. unfold AlignUp, SIZE_MAX. rewrite E, Hl.
  pose proof (Z.mod_pos_bound v a Hp). pose proof (Z.div_mod v a ltac:(lia)) as Hd.
  destruct (Z.eqb_spec (v mod a) 0) as [Hz|Hz].
  { split; [lia|]. split; [by apply Z.mod_divide; [lia|]|]. intros; lia. }
  assert (Hn : forall q, v <= q -> (a | q) -> v + (a - v mod a) <= q).
  { intros q Hq [c ->]. assert (v / a < c) by (apply Z.div_lt_upper_bound; [lia|]; assert (v <> c * a) by (intros ->; by rewrite Z.mod_mul in Hz by lia); lia). nia. }
  destruct (Z.ltb_spec (18446744073709551615 - (a - v mod a)) v).
  - intros q Hq Hc. specialize (Hn q Hq Hc). unfold W64 in *. lia.
  - split; [unfold W64 in *; lia|]. split; [|done]. exists (v / a + 1). nia.
Qed.

(** ** Free blocks *)

Fixpoint blocks_ok (lo hi : Z) (fb : omap Z) : Prop :=
  match fb with
  | [] => True
  | (k, s) :: r => lo <= k /\ 0 < s /\ k + s <= hi /\ blocks_ok (k + s + 1) hi r
  end.

Fixpoint freeb (fb : omap Z) (x : Z) : bool :=
  match fb with
  | [] => false
  | (k, s) :: r => (k <=? x) && (x <? k + s) || freeb r x
  end.

Lemma freeb_app l r x : freeb (l ++ r) x = freeb l x || freeb r x.
Proof. induction l as [|[k s] l IH]; cbn; [done|]. by rewrite IH, orb_assoc. Qed.

Lemma blocks_weaken lo lo' hi fb : lo' <= lo -> blocks_ok lo hi fb -> blocks_ok lo' hi fb.
Proof. destruct fb as [|[k s] r]; cbn; intuition lia. Qed.

Lemma freeb_bounds lo hi fb x : blocks_ok lo hi fb -> freeb fb x = true -> lo <= x < hi.
Proof.
  revert lo; induction fb as [|[k s] r IH]; intros lo; cbn; [done|]. intros (? & ? & ? & Hr) E. bool_prop.
  destruct E as [E|E]; [bool_prop; lia|]. pose proof (IH _ Hr E). lia.
Qed.

Lemma blocks_below lo hi l : blocks_ok lo hi l -> below hi l.
Proof.
  revert lo; induction l as [|[k s] l IH]; intros lo; cbn; [constructor|]. intros (? & ? & ? & Hl). constructor; [cbn; lia|exact (IH _ Hl)].
Qed.

Lemma blocks_above lo hi k l : blocks_ok lo hi l -> k < lo -> above k l.
Proof.
  revert lo; induction l as [|[k' s] l IH]; intros lo; cbn; [constructor|]. intros (? & ? & ? & Hl) ?. constructor; [cbn; lia|].
  eapply IH; [exact Hl|lia].
Qed.

Lemma blocks_app lo hi l k s r : blocks_ok lo hi (l ++ (k, s) :: r) <->
  blocks_ok lo (k - 1) l /\ lo <= k /\ 0 < s /\ k + s <= hi /\ blocks_ok (k + s + 1) hi r.
Proof.
  revert lo; induction l as [|[k' s'] l IH]; intros lo; cbn; [tauto|]. rewrite IH. intuition lia.
Qed.

Lemma blocks_app_r lo hi l r : blocks_ok lo hi (l ++ r) -> blocks_ok lo hi l /\ blocks_ok lo hi r.
Proof.
  revert lo; induction l as [|[k s] l IH]; intros lo; cbn; [done|]. intros (? & ? & ? & Hr). apply IH in Hr as [? Hr].
  split; [done|]. eapply blocks_weaken; [|exact Hr]. lia.
Qed.

(** A range none of which is free lies between two blocks. *)
Lemma blocks_gap lo hi fb off size : blocks_ok lo hi fb -> 0 < size ->
  (forall x, off <= x < off + size -> freeb fb x = false) ->
  exists l r, fb = l ++ r /\ blocks_ok lo off l /\ blocks_ok (off + size) hi r.
Proof.
  revert lo; induction fb as [|[k s] fb IH]; intros lo Hb Hs Hf; [by exists [], []|].
  cbn in Hb. destruct Hb as (? & ? & ? & Hb). destruct (Z.lt_ge_cases k off) as [Hk|Hk].
  - assert (k + s <= off).
    { destruct (Z.le_gt_cases (k + s) off); [done|]. specialize (Hf off ltac:(lia)). cbn in Hf. bool_prop. lia. }
    destruct (IH _ Hb Hs) as (l & r & -> & Hl & Hr).
    { intros x Hx. specialize (Hf x Hx). cbn in Hf. by bool_prop. }
    exists ((k, s) :: l), r. cbn. done.
  - exists [], ((k, s) :: fb). split; [done|]. split; [done|]. cbn. split; [|done].
    destruct (Z.le_gt_cases (off + size) k); [done|]. specialize (Hf k ltac:(lia)). cbn in Hf. bool_prop. lia.
Qed.

Lemma merge_next_spec lo off size hi l r : blocks_ok lo off l -> blocks_ok (off + size) hi r ->
  0 <= off -> 0 < size -> off + size <= hi -> hi < W64 ->
  exists size' r', merge_next off size (l ++ (off, size) :: r) = (size', l ++ (off, size') :: r')
    /\ 0 < size' /\ off + size' <= hi /\ blocks_ok (off + size' + 1) hi r'
    /\ forall x, freeb ((off, size') :: r') x = freeb ((off, size) :: r) x.
Proof.
  intros Hl Hr Ho Hs Hh Hw. pose proof (blocks_below _ _ _ Hl) as Bl.
  unfold merge_next. rewrite mnext_mid; [|done|eapply blocks_above; [exact Hr|lia]].
  destruct r as [|[n sn] r]; cbn [head]; [by exists size, []|].
  cbn in Hr. destruct Hr as (Hn & Hsn & Hnh & Hr).
  rewrite !wadd_small by (unfold W64 in *; lia).
  destruct (Z.eqb_spec (off + size) n) as [<-|Hne].
  - exists (size + sn), r. rewrite mset_mid by done. rewrite merase_second by (done || lia). split; [done|].
    split; [lia|]. split; [lia|]. split; [by replace (off + (size + sn) + 1) with (off + size + sn + 1) by lia|].
    intros x. cbn. destruct (freeb r x); [by rewrite !orb_true_r|]. rewrite !orb_false_r. split_cmp; try lia; done.
  - exists size, ((n, sn) :: r). split; [done|]. split; [lia|]. split; [lia|]. cbn. split; [|done]. intuition lia.
Qed.

Lemma merge_prev_spec lo off size hi l r : blocks_ok lo off l -> blocks_ok (off + size + 1) hi r ->
  0 <= lo <= off -> 0 < size -> off + size <= hi -> hi < W64 ->
  let fb := merge_prev off size (l ++ (off, size) :: r) in
  blocks_ok lo hi fb /\ forall x, freeb fb x = freeb (l ++ (off, size) :: r) x.
Proof.
  intros Hl Hr Ho Hs Hh Hw. unfold merge_prev. destruct l as [|[p sp] l _] using rev_ind.
  { cbn [app]. rewrite mprev_first. cbn. intuition lia. }
  apply blocks_app in Hl as (Hl & Hp & Hsp & Hpo & _). rewrite <- app_assoc. cbn [app].
  assert (Bl : below p l) by (eapply below_mono; [|eapply blocks_below, Hl]; lia).
  rewrite mprev_mid by (done || lia). rewrite !wadd_small by (unfold W64 in *; lia).
  destruct (Z.eqb_spec (p + sp) off) as [<-|Hne].
  - rewrite mset_mid by done. rewrite merase_second by (done || lia). split.
    + apply blocks_app. split; [done|]. split; [lia|]. split; [lia|]. split; [lia|].
      by replace (p + (sp + size) + 1) with (p + sp + size + 1) by lia.
    + intros x. rewrite !freeb_app. cbn. destruct (freeb l x), (freeb r x); cbn; rewrite ?orb_true_r, ?orb_false_r; try done.
      split_cmp; try lia; done.
  - split; [|done]. apply blocks_app. split; [done|]. cbn. intuition lia.
Qed.

(** Inserting a range that is not free succeeds, and makes it free. *)
Lemma InsertFreeBlock_spec hi off size fb : blocks_ok 0 hi fb -> 0 <= off -> 0 < size -> off + size <= hi -> hi < W64 ->
  (forall x, off <= x < off + size -> freeb fb x = false) ->
  exists fb', InsertFreeBlock off size fb = Done fb' /\ blocks_ok 0 hi fb'
    /\ forall x, freeb fb' x = (off <=? x) && (x <? off + size) || freeb fb x.
Proof.
  intros Hb Ho Hs Hh Hw Hf. destruct (blocks_gap _ _ _ _ _ Hb Hs Hf) as (l & r & -> & Hl & Hr).
  assert (Bl : below off l) by (eapply blocks_below, Hl).
  assert (Br : above off r) by (eapply blocks_above; [exact Hr|lia]).
  unfold InsertFreeBlock. rewrite (proj2 (Z.eqb_neq _ _)) by lia. rewrite mlookup_absent, mset_absent by done.
  destruct (merge_next_spec 0 off size hi l r) as (size' & r' & -> & ? & ? & Hr' & Hfr); try done.
  destruct (merge_prev_spec 0 off size' hi l r') as [Hok Hfr']; try done.
  eexists. split; [done|]. split; [exact Hok|]. intros x. rewrite Hfr', !freeb_app, Hfr. cbn.
  destruct (freeb l x); cbn; [by rewrite !orb_true_r|done].
Qed.

(** Taking a block out. *)
Lemma merase_spec hi k s fb : blocks_ok 0 hi fb -> (k, s) ∈ fb ->
  blocks_ok 0 hi (merase k fb) /\ (forall x, freeb (merase k fb) x = freeb fb x && negb ((k <=? x) && (x <? k + s))).
Proof.
  intros Hb (l & r & ->)%list_elem_of_split. pose proof Hb as Hb'. apply blocks_app in Hb' as (Hl & Hk & Hs & Hh & Hr).
  rewrite merase_mid by (eapply below_mono; [|eapply blocks_below, Hl]; lia). split.
  - revert Hb. clear -Hr. generalize 0. induction l as [|[k' s'] l IH]; intros lo; cbn; [intros; eapply blocks_weaken; [|exact Hr]; lia|].
    intros (? & ? & ? & ?). auto.
  - intros x. rewrite !freeb_app. cbn.
    destruct (freeb l x) eqn:E1.
    { pose proof (freeb_bounds _ _ _ _ Hl E1). cbn. split_cmp; try lia; done. }
    destruct (freeb r x) eqn:E2.
    { pose proof (freeb_bounds _ _ _ _ Hr E2). cbn. rewrite orb_true_r. split_cmp; try lia; done. }
    cbn. rewrite !orb_false_r. by destruct (k <=? x), (x <? k + s).
Qed.

Lemma freeb_block hi lo k s fb : blocks_ok lo hi fb -> (k, s) ∈ fb ->
  lo <= k /\ 0 < s /\ k + s <= hi /\ forall x, k <= x < k + s -> freeb fb x = true.
Proof.
  intros Hb (l & r & ->)%list_elem_of_split. pose proof Hb as Hb'. apply blocks_app in Hb' as (Hl & Hk & Hs & Hh & Hr).
  repeat split; try lia. intros x Hx. rewrite freeb_app. cbn. split_cmp; lia.
Qed.

(** As blocks do not touch, a range of free offsets lies in one of them. *)
Lemma freeb_range lo hi fb off size : blocks_ok lo hi fb -> 0 < size ->
  (forall x, off <= x < off + size -> freeb fb x = true) -> exists k s, (k, s) ∈ fb /\ k <= off /\ off + size <= k + s.
Proof.
  revert lo; induction fb as [|[k s] fb IH]; intros lo Hb Hs Hf.
  { specialize (Hf off ltac:(lia)). done. }
  cbn in Hb. destruct Hb as (? & ? & ? & Hb).
  destruct (decide (k <= off < k + s)) as [Hin|Hout].
  - exists k, s. split; [by left|]. split; [lia|]. destruct (Z.le_gt_cases (off + size) (k + s)); [done|].
    specialize (Hf (k + s) ltac:(lia)). cbn in Hf. exfalso. bool_prop. destruct Hf as [Hf|Hf]; [bool_prop; lia|].
    pose proof (freeb_bounds _ _ _ _ Hb Hf). lia.
  - destruct (IH _ Hb Hs) as (k' & s' & ? & ?); [|exists k', s'; split; [by right|done]].
    intros x Hx. pose proof (Hf off ltac:(lia)) as Hz. cbn in Hz. bool_prop. destruct Hz as [Hz|Hz]; [bool_prop; lia|].
    pose proof (freeb_bounds _ _ _ _ Hb Hz). specialize (Hf x Hx). cbn in Hf. bool_prop. destruct Hf as [Hf|Hf]; [bool_prop; lia|done].
Qed.

Lemma mlookup_elem k s fb : mlookup k fb = Some s -> (k, s) ∈ (fb : omap Z).
Proof.
  induction fb as [|[k' s'] fb IH]; cbn; [done|]. destruct (Z.eqb_spec k' k) as [->|]; [intros [= ->]; by left|right; auto].
Qed.

Lemma mlookup_block lo hi k s fb : blocks_ok lo hi fb -> (k, s) ∈ fb -> mlookup k fb = Some s.
Proof.
  intros Hb (l & r & ->)%list_elem_of_split. apply blocks_app in Hb as (Hl & _).
  apply mlookup_mid. eapply below_mono; [|eapply blocks_below, Hl]. lia.
Qed.

(** ** What the operations of an arena do

    The abstract state of an arena is its table of live allocations; a place for
    a new one is a range no live allocation meets ([room]).  Allocation finds the
    lowest such place, freeing and reallocation change the table as their names
    say, and all keep the arena well formed. *)

Definition inside (lo n x : Z) : bool := (lo <=? x) && (x <? lo + n).

Definition covered (m : gmap Z Z) (x : Z) : Prop := exists p n, m !! p = Some n /\ p <= x < p + n.

(** Live allocations are aligned, disjoint and within the arena, and the free
    offsets are the others. *)
Record tiling (base cap : Z) (free : Z -> bool) (m : gmap Z Z) : Prop := {
  tl_range : forall p n, m !! p = Some n -> 0 < n /\ base <= p /\ p + n <= base + cap /\ (DefaultAlignment | p);
  tl_disjoint : forall p q n k, p <> q -> m !! p = Some n -> m !! q = Some k -> p + n <= q \/ q + k <= p;
  tl_free : forall x, 0 <= x < cap -> free x = true <-> ~ covered m (base + x) }.

Record arena_ok (a : Arena) : Prop := {
  ao_base : 0 < a_base a;
  ao_capacity : 0 < a_capacity a;
  ao_word : a_base a + a_capacity a < W64;
  ao_blocks : blocks_ok 0 (a_capacity a) (free_blocks a);
  ao_tiling : tiling (a_base a) (a_capacity a) (freeb (free_blocks a)) (allocations a) }.

Definition same_range (a a' : Arena) : Prop := a_base a' = a_base a /\ a_capacity a' = a_capacity a.

(** ** Changes of the table *)

Section tilings.
Context (base cap : Z).

Lemma tiling_ext free free' m : (forall x, 0 <= x < cap -> free x = free' x) -> tiling base cap free m -> tiling base cap free' m.
Proof. intros E [Hr Hd Hf]. split; [done..|]. intros x Hx. rewrite <- E by done. auto. Qed.

Lemma covered_insert m p n x : m !! p = None -> covered (<[p := n]> m) x <-> p <= x < p + n \/ covered m x.
Proof.
  intros Hp. split.
  - intros (q & k & [[-> ->]|[? ?]]%lookup_insert_Some & ?); [by left|]. right. by exists q, k.
  - intros [?|(q & k & Hq & ?)]; [exists p, n; by rewrite lookup_insert_eq|]. exists q, k. by rewrite lookup_insert_ne by congruence.
Qed.

Lemma tiling_take free m p n : tiling base cap free m -> 0 < n -> base <= p -> p + n <= base + cap -> (DefaultAlignment | p) ->
  (forall x, p <= x < p + n -> ~ covered m x) ->
  m !! p = None /\ tiling base cap (fun x => free x && negb (inside (p - base) n x)) (<[p := n]> m).
Proof.
  intros [Hr Hd Hf] Hn Hb Hc Ha Hu.
  assert (Hp : m !! p = None).
  { destruct (m !! p) as [k|] eqn:E; [|done]. destruct (Hu p ltac:(lia)). exists p, k. pose proof (Hr _ _ E). split; [done|lia]. }
  assert (Ho : forall q k, m !! q = Some k -> p + n <= q \/ q + k <= p).
  { intros q k Hq. pose proof (Hr _ _ Hq). destruct (decide (p + n <= q \/ q + k <= p)); [done|].
    destruct (Hu (Z.max p q) ltac:(lia)). exists q, k. split; [done|lia]. }
  split; [done|]. split.
  - intros q k [[<- <-]|[_ Hq]]%lookup_insert_Some; [done|eauto].
  - intros q1 q2 n1 n2 Hne [[<- <-]|[? H1]]%lookup_insert_Some [[<- <-]|[? H2]]%lookup_insert_Some; [done|..|eauto].
    + by apply Ho.
    + destruct (Ho _ _ H1); auto.
  - intros x Hx. rewrite covered_insert by done. rewrite andb_true_iff, Hf by done. unfold inside. split_cmp; intuition (try lia; discriminate).
Qed.

Lemma tiling_used free m p n x : tiling base cap free m -> m !! p = Some n -> p - base <= x < p - base + n -> free x = false.
Proof.
  intros [Hr _ Hf] Hp Hx. pose proof (Hr _ _ Hp). destruct (free x) eqn:E; [|done]. apply Hf in E as []; [|lia].
  exists p, n. split; [done|lia].
Qed.

Lemma tiling_give free m p n : tiling base cap free m -> m !! p = Some n ->
  tiling base cap (fun x => inside (p - base) n x || free x) (delete p m).
Proof.
  intros Ht Hp. pose proof Ht as [Hr Hd Hf]. split.
  - intros q k [_ Hq]%lookup_delete_Some. eauto.
  - intros q1 q2 n1 n2 Hne [_ H1]%lookup_delete_Some [_ H2]%lookup_delete_Some. eauto.
  - intros x Hx. rewrite orb_true_iff, Hf by done. unfold inside. rewrite andb_true_iff, Z.leb_le, Z.ltb_lt. split.
    + intros [Hi|Hc] (q & k & [Hne Hq]%lookup_delete_Some & Hk).
      * destruct (Hd p q n k Hne Hp Hq); lia.
      * destruct Hc. by exists q, k.
    + intros Hc. destruct (decide (p - base <= x < p - base + n)); [by left|]. right. intros (q & k & Hq & Hk). destruct Hc.
      exists q, k. split; [|done]. apply lookup_delete_Some. split; [|done]. intros <-. simplify_eq. lia.
Qed.

(** An allocation whose size changes within its old range and what follows. *)
Lemma tiling_resize free m p n n' : tiling base cap free m -> m !! p = Some n -> 0 < n' -> p + n' <= base + cap ->
  (forall x, p + n <= x < p + n' -> free (x - base) = true) ->
  tiling base cap (fun x => (inside (p - base) n x || free x) && negb (inside (p - base) n' x)) (<[p := n']> m).
Proof.
  intros Ht Hp Hn Hc Hu. pose proof (tiling_give _ _ _ _ Ht Hp) as Hg. pose proof Ht as [Hr Hd Hf]. pose proof (Hr _ _ Hp).
  rewrite <- insert_delete_eq. eapply tiling_take; [exact Hg|lia|lia|lia|tauto|].
  intros x Hx. replace x with (base + (x - base)) by lia. apply (tl_free _ _ _ _ Hg); [lia|]. unfold inside.
  destruct (Z.lt_ge_cases x (p + n)); [split_cmp; try lia; done|]. by rewrite Hu, orb_true_r by lia.
Qed.
End tilings.

(** ** Insertion of blocks in an arena *)

(** The conditional insertions of the code. *)
Lemma insert_if_spec hi off size fb : blocks_ok 0 hi fb -> 0 <= off -> 0 <= size -> off + size <= hi -> hi < W64 ->
  (forall x, off <= x < off + size -> freeb fb x = false) ->
  exists fb', (if 0 <? size then InsertFreeBlock off size fb else Done fb) = Done fb' /\ blocks_ok 0 hi fb'
    /\ forall x, freeb fb' x = inside off size x || freeb fb x.
Proof.
  intros Hb Ho Hs Hh Hw Hf. destruct (Z.ltb_spec 0 size); [by apply InsertFreeBlock_spec|].
  exists fb. split; [done|]. split; [done|]. intros x. unfold inside. split_cmp; try lia; done.
Qed.

(** ** Allocation *)

Definition room (a : Arena) (n alignment p : Z) : Prop :=
  a_base a <= p /\ p + n <= a_base a + a_capacity a /\ (alignment | p) /\ forall x, p <= x < p + n -> ~ covered (allocations a) x.

Lemma fit_spec base n al k s : 0 < base -> 0 <= k -> 0 < s -> base + k + s < W64 -> 0 < n < W64 -> 0 <= al -> not_power al = false ->
  match fit base n al k s with
  | Some p => base + k <= p /\ p + n <= base + k + s /\ (al | p) /\ forall q, base + k <= q -> (al | q) -> p <= q
  | None => forall q, base + k <= q -> (al | q) -> q + n <= base + k + s -> False
  end.
Proof.
  intros Hb Hk Hs Hw Hn Ha E. unfold fit. rewrite wadd_small by lia.
  pose proof (AlignUp_spec (base + k) al Ha ltac:(lia) E) as H. destruct (AlignUp (base + k) al) as [p|].
  2: { intros q Hq Hd. specialize (H q Hq Hd). lia. }
  destruct H as (Hp & Hd & Hmin). rewrite wadd_small by lia. destruct (Z.leb_spec (base + k + s) p).
  { intros q Hq Hdq. specialize (Hmin q Hq Hdq). lia. }
  rewrite wsub_small by lia. unfold SIZE_MAX. destruct (Z.ltb_spec (18446744073709551615 - (p - (base + k))) n).
  { intros q Hq Hdq. specialize (Hmin q Hq Hdq). unfold W64 in *. lia. }
  destruct (Z.ltb_spec s (p - (base + k) + n)).
  { intros q Hq Hdq. specialize (Hmin q Hq Hdq). lia. }
  repeat split; [lia|lia|done|done].
Qed.

Lemma allocate_from_spec n al it a :
  (allocate_from n al it a = Done (0, a) /\ Forall (fun b => fit (a_base a) n al b.1 b.2 = None) it)
  \/ exists l k s r p, it = l ++ (k, s) :: r /\ Forall (fun b => fit (a_base a) n al b.1 b.2 = None) l
       /\ fit (a_base a) n al k s = Some p /\ allocate_from n al it a = carve n p k s a.
Proof.
  induction it as [|[k s] it IH]; cbn; [by left|]. destruct (fit (a_base a) n al k s) as [p|] eqn:E.
  - right. by exists [], k, s, it, p.
  - destruct IH as [[-> ?]|(l & k' & s' & r & p & -> & Hl & Hp & ->)]; [left; by split; [|constructor]|].
    right. exists ((k, s) :: l), k', s', r, p. split; [done|]. by split; [constructor|].
Qed.

Lemma carve_spec n p k s a : arena_ok a -> (k, s) ∈ free_blocks a -> 0 < n ->
  a_base a + k <= p -> p + n <= a_base a + k + s -> (DefaultAlignment | p) ->
  exists a', carve n p k s a = Done (p, a') /\ arena_ok a' /\ same_range a a' /\ allocations a !! p = None
    /\ allocations a' = <[p := n]> (allocations a).
Proof.
  intros [Hb Hc Hw Hbl Ht] Hin Hn Hp Hpn Ha. unfold carve. destruct (freeb_block _ _ _ _ _ Hbl Hin) as (Hk & Hs & Hks & Hfree).
  destruct (merase_spec _ _ _ _ Hbl Hin) as [Hbe Hfe].
  rewrite (wadd_small (a_base a) k), (wsub_small p) by lia. rewrite wsub_small, (wadd_small k) by lia. rewrite wadd_small by lia.
  destruct (insert_if_spec (a_capacity a) k (p - (a_base a + k)) (merase k (free_blocks a))) as (fb1 & -> & Hb1 & Hf1); try lia; [done|..].
  { intros x Hx. rewrite Hfe. split_cmp; lia. }
  cbn [obind].
  destruct (insert_if_spec (a_capacity a) (k + (p - (a_base a + k)) + n) (s - (p - (a_base a + k) + n)) fb1) as (fb2 & -> & Hb2 & Hf2);
    try lia; [done|..].
  { intros x Hx. rewrite Hf1, Hfe. unfold inside. split_cmp; try lia; by rewrite andb_false_r. }
  cbn [obind]. eexists. split; [done|].
  destruct (tiling_take _ _ _ _ p n Ht Hn) as [Hnone Htk]; [lia|lia|done|..].
  { intros x Hx. replace x with (a_base a + (x - a_base a)) by lia. apply (tl_free _ _ _ _ Ht); [lia|]. apply Hfree. lia. }
  split; [|done]. split; cbn; [done..|]. eapply tiling_ext; [|exact Htk]. intros x Hx. cbn. rewrite Hf2, Hf1, Hfe. unfold inside.
  destruct (decide (k <= x < k + s)) as [Hi|Ho]; [rewrite (Hfree x Hi)|]; destruct (freeb (free_blocks a) x); split_cmp; try lia; done.
Qed.

(** A request of size 0 takes one byte. *)
Definition rounded (size : Z) : Z := if size =? 0 then 1 else size.

Lemma AllocateLocked_spec size al a : arena_ok a -> 0 <= size < W64 -> 0 <= al -> not_power al = false -> (DefaultAlignment | al) ->
  (AllocateLocked size al a = Done (0, a) /\ forall p, ~ room a (rounded size) al p)
  \/ exists p a', AllocateLocked size al a = Done (p, a') /\ 0 < p /\ room a (rounded size) al p
       /\ (forall q, room a (rounded size) al q -> p <= q) /\ allocations a !! p = None
       /\ allocations a' = <[p := rounded size]> (allocations a) /\ same_range a a' /\ arena_ok a'.
Proof.
  intros Hok Hz Hal Hpow H16. pose proof Hok as [Hb Hc Hw Hbl Ht]. unfold AllocateLocked. fold (rounded size).
  assert (Hn : 0 < rounded size < W64) by (unfold rounded; destruct (Z.eqb_spec size 0); unfold W64 in *; lia).
  set (n := rounded size) in *.
  assert (Hroom : forall q, room a n al q -> exists k s, (k, s) ∈ free_blocks a /\ k <= q - a_base a /\ q - a_base a + n <= k + s).
  { intros q (Hq & Hqn & _ & Hu). eapply freeb_range; [exact Hbl|lia|]. intros x Hx. apply (tl_free _ _ _ _ Ht); [lia|]. apply Hu. lia. }
  assert (Hfit : forall k s, (k, s) ∈ free_blocks a -> match fit (a_base a) n al k s with
    | Some p => a_base a + k <= p /\ p + n <= a_base a + k + s /\ (al | p) /\ forall q, a_base a + k <= q -> (al | q) -> p <= q
    | None => forall q, a_base a + k <= q -> (al | q) -> q + n <= a_base a + k + s -> False end).
  { intros k s Hin. destruct (freeb_block _ _ _ _ _ Hbl Hin) as (? & ? & ? & _). apply fit_spec; try done; lia. }
  destruct (allocate_from_spec n al (free_blocks a) a) as [[E Hnone]|(l & k & s & r & p & Efb & Hl & Hp & E)].
  - left. split; [exact E|]. intros q Hq. destruct (Hroom q Hq) as (k & s & Hin & H1 & H2). specialize (Hfit k s Hin).
    rewrite Forall_forall in Hnone. specialize (Hnone _ Hin). cbn in Hnone. rewrite Hnone in Hfit. destruct Hq as (_ & _ & Hd & _). apply (Hfit q); [lia|done|lia].
  - right. assert (Hin : (k, s) ∈ free_blocks a) by (rewrite Efb; set_solver).
    pose proof (Hfit k s Hin) as Hks. rewrite Hp in Hks. destruct Hks as (H1 & H2 & H3 & Hmin).
    destruct (carve_spec n p k s a Hok Hin ltac:(lia) H1 H2) as (a' & Ec & Hok' & Hsr & Hpn & Hall); [by transitivity al|].
    destruct (freeb_block _ _ _ _ _ Hbl Hin) as (Hk0 & Hs0 & Hks0 & Hfree). exists p, a'. rewrite E. split; [exact Ec|].
    split; [lia|]. split.
    { repeat split; [lia|lia|done|]. intros x Hx. replace x with (a_base a + (x - a_base a)) by lia.
      apply (tl_free _ _ _ _ Ht); [lia|]. apply Hfree. lia. }
    split; [|done]. intros q Hq. destruct (Hroom q Hq) as (k' & s' & Hin' & H1' & H2'). destruct Hq as (_ & _ & Hd & _).
    rewrite Efb in Hin', Hbl. apply blocks_app in Hbl as (_ & _ & _ & _ & Hr).
    apply elem_of_app in Hin' as [Hl'|[[= -> ->]|Hr']%elem_of_cons].
    + rewrite Forall_forall in Hl. specialize (Hl _ Hl'). cbn in Hl. specialize (Hfit k' s'). rewrite Hl in Hfit. destruct (Hfit ltac:(rewrite Efb; set_solver) q); [lia|done|lia].
    + apply Hmin; [lia|done].
    + destruct (freeb_block _ _ _ _ _ Hr Hr') as (? & _). lia.
Qed.

(** What an allocation returns and leaves: the lowest place, or null when there
    is none. *)
Definition allocated (a : Arena) (size al p : Z) (a' : Arena) : Prop :=
  (p = 0 /\ a' = a /\ forall q, ~ room a (rounded size) al q)
  \/ (0 < p /\ room a (rounded size) al p /\ (forall q, room a (rounded size) al q -> p <= q)
      /\ allocations a !! p = None /\ allocations a' = <[p := rounded size]> (allocations a)).

Definition next_ok (a a' : Arena) : Prop := arena_ok a' /\ same_range a a'.

Lemma next_refl a : arena_ok a -> next_ok a a.
Proof. intros. split; [done|by split]. Qed.

Lemma AllocateLocked_ok size al a : arena_ok a -> 0 <= size < W64 -> 0 <= al -> not_power al = false -> (DefaultAlignment | al) ->
  exists p a', AllocateLocked size al a = Done (p, a') /\ allocated a size al p a' /\ next_ok a a'.
Proof.
  intros Hok Hz Ha Hp Hd. destruct (AllocateLocked_spec size al a Hok Hz Ha Hp Hd) as [[-> Hn]|(p & a' & -> & ? & ? & ? & ? & ? & ? & ?)].
  - exists 0, a. split; [done|]. split; [by left|by apply next_refl].
  - exists p, a'. split; [done|]. split; [right|]; done.
Qed.

(** ** Freeing *)

Lemma FreeLocked_spec p n a : arena_ok a -> allocations a !! p = Some n ->
  exists a', FreeLocked p a = Done a' /\ allocations a' = delete p (allocations a) /\ next_ok a a'.
Proof.
  intros [Hb Hc Hw Hbl Ht] Hp. pose proof (tl_range _ _ _ _ Ht _ _ Hp). unfold FreeLocked. rewrite Hp. cbn [of_option obind].
  cbn [a_base set_allocations free_blocks]. rewrite wsub_small by lia.
  destruct (InsertFreeBlock_spec (a_capacity a) (p - a_base a) n (free_blocks a)) as (fb' & -> & Hb' & Hf'); try lia; [done|..].
  { intros x Hx. eapply tiling_used; [exact Ht|exact Hp|lia]. }
  cbn [obind]. eexists. split; [done|]. split; [done|]. split; [|done]. split; cbn; [done..|].
  eapply tiling_ext; [|eapply tiling_give; [exact Ht|exact Hp]]. intros x _. cbn. by rewrite Hf'.
Qed.

Lemma Free_spec p a : arena_ok a -> p <> 0 ->
  exists a', Free p a = Done (match allocations a !! p with Some _ => 0 | None => 1 end, a')
    /\ allocations a' = delete p (allocations a) /\ (allocations a !! p = None -> a' = a) /\ next_ok a a'.
Proof.
  intros Hok Hp. unfold Free. rewrite (proj2 (Z.eqb_neq _ _) Hp). destruct (allocations a !! p) as [n|] eqn:E.
  - destruct (FreeLocked_spec p n a Hok E) as (a' & -> & ? & ?). by exists a'.
  - exists a. split; [done|]. split; [by rewrite delete_id|]. split; [done|by apply next_refl].
Qed.

(** ** Reallocation *)

Definition extendable (a : Arena) (p n n' : Z) : Prop :=
  p + n' <= a_base a + a_capacity a /\ forall x, p + n <= x < p + n' -> ~ covered (allocations a) x.

Lemma shrink_spec p n n' a : arena_ok a -> allocations a !! p = Some n -> 0 < n' < n ->
  exists fb, InsertFreeBlock (wadd (wsub p (a_base a)) n') (n - n') (free_blocks a) = Done fb
    /\ next_ok a (set_free fb (set_allocations (<[p := n']> (allocations a)) a)).
Proof.
  intros [Hb Hc Hw Hbl Ht] Hp Hn. pose proof (tl_range _ _ _ _ Ht _ _ Hp). rewrite wsub_small, wadd_small by (rewrite ?wsub_small; lia).
  destruct (InsertFreeBlock_spec (a_capacity a) (p - a_base a + n') (n - n') (free_blocks a)) as (fb & -> & Hbf & Hf); try lia; [done|..].
  { intros x Hx. eapply tiling_used; [exact Ht|exact Hp|lia]. }
  exists fb. split; [done|]. split; [|done]. split; cbn; [done..|].
  eapply tiling_ext; [|eapply (tiling_resize _ _ _ _ p n n'); [exact Ht|exact Hp|lia|lia|lia]]. intros x Hx. cbn. rewrite Hf. unfold inside.
  destruct (freeb (free_blocks a) x) eqn:E; [|split_cmp; try lia; done].
  destruct (decide (p - a_base a <= x < p - a_base a + n)) as [Hi|]; [|split_cmp; try lia; done].
  by rewrite (tiling_used _ _ _ _ _ _ _ Ht Hp Hi) in E.
Qed.

(** The block that follows an allocation starts where it ends. *)
Lemma tail_block p n n' a : arena_ok a -> allocations a !! p = Some n -> 0 < n < n' -> extendable a p n n' ->
  exists s, mlookup (p - a_base a + n) (free_blocks a) = Some s /\ n' - n <= s.
Proof.
  intros [Hb Hc Hw Hbl Ht] Hp Hn [He Hu]. pose proof (tl_range _ _ _ _ Ht _ _ Hp).
  destruct (freeb_range _ _ _ (p - a_base a + n) (n' - n) Hbl ltac:(lia)) as (k & s & Hin & Hk & Hks).
  { intros x Hx. apply (tl_free _ _ _ _ Ht); [lia|]. apply Hu. lia. }
  destruct (freeb_block _ _ _ _ _ Hbl Hin) as (? & ? & ? & Hfree). assert (k = p - a_base a + n) as ->.
  { destruct (Z.le_gt_cases (p - a_base a + n) k); [lia|]. exfalso.
    pose proof (Hfree (p - a_base a + n - 1) ltac:(lia)) as E. by rewrite (tiling_used _ _ _ _ _ _ (p - a_base a + n - 1) Ht Hp ltac:(lia)) in E. }
  exists s. split; [by eapply mlookup_block|lia].
Qed.

Lemma grow_spec p n n' a : arena_ok a -> allocations a !! p = Some n -> n < n' ->
  (grow p n n' a = Done None /\ ~ extendable a p n n')
  \/ exists a', grow p n n' a = Done (Some a') /\ extendable a p n n' /\ allocations a' = <[p := n']> (allocations a) /\ next_ok a a'.
Proof.
  intros Hok Hp Hn. pose proof Hok as [Hb Hc Hw Hbl Ht]. pose proof (tl_range _ _ _ _ Ht _ _ Hp). unfold grow.
  rewrite (wsub_small p), (wadd_small (p - a_base a)) by lia.
  assert (Htail := tail_block p n n' a Hok Hp ltac:(lia)).
  destruct (mlookup _ _) as [s|] eqn:E; [|left; split; [done|]; intros He; by destruct (Htail He) as (? & ? & _)].
  destruct (Z.leb_spec (n' - n) s) as [Hs|Hs]; [right|left; split; [done|]; intros He; destruct (Htail He) as (? & [= <-] & ?); lia].
  apply mlookup_elem in E. destruct (freeb_block _ _ _ _ _ Hbl E) as (_ & _ & Hk & Hfree). destruct (merase_spec _ _ _ _ Hbl E) as [Hbe Hfe].
  rewrite wadd_small by lia. replace (n' - n <? s) with (0 <? s - (n' - n)) by (split_cmp; lia).
  destruct (insert_if_spec (a_capacity a) (p - a_base a + n + (n' - n)) (s - (n' - n)) (merase (p - a_base a + n) (free_blocks a)))
    as (fb & -> & Hbf & Hf); try lia; [done|..].
  { intros x Hx. rewrite Hfe. split_cmp; lia. }
  cbn [obind]. eexists. split; [done|].
  assert (Hx : extendable a p n n').
  { split; [lia|]. intros x Hx. replace x with (a_base a + (x - a_base a)) by lia. apply (tl_free _ _ _ _ Ht); [lia|]. apply Hfree. lia. }
  split; [done|]. split; [done|]. split; [|done]. split; cbn; [done..|].
  eapply tiling_ext; [|eapply (tiling_resize _ _ _ _ p n n'); [exact Ht|exact Hp|lia|apply Hx|]].
  - intros x Hx'. cbn. rewrite Hf, Hfe. unfold inside. destruct (decide (p - a_base a <= x < p - a_base a + n)) as [Hi|].
    { rewrite (tiling_used _ _ _ _ _ _ _ Ht Hp Hi). split_cmp; try lia; done. }
    destruct (decide (p - a_base a + n <= x < p - a_base a + n + s)) as [Hi|]; [rewrite (Hfree _ Hi)|];
      destruct (freeb (free_blocks a) x); split_cmp; try lia; done.
  - intros x Hx'. apply Hfree. lia.
Qed.

(** The contents move with the allocation, and nothing else is written. *)
Definition moved (m m' : Memory) (p q n : Z) : Prop :=
  (forall i, 0 <= i < n -> m' (q + i) = m (p + i)) /\ forall x, x < q \/ q + n <= x -> m' x = m x.

Definition reallocated (a : Arena) (m : Memory) (p n' r : Z) (a' : Arena) (m' : Memory) : Prop :=
  match allocations a !! p with
  | None => r = 0 /\ a' = a /\ m' = m
  | Some n =>
      (n' = 0 /\ r = 0 /\ allocations a' = delete p (allocations a) /\ m' = m)
      \/ (0 < n' /\ (n' <= n \/ extendable a p n n') /\ r = p /\ allocations a' = <[p := n']> (allocations a) /\ m' = m)
      \/ (n < n' /\ ~ extendable a p n n' /\ r = 0 /\ a' = a /\ m' = m /\ forall q, ~ room a n' DefaultAlignment q)
      \/ (n < n' /\ ~ extendable a p n n' /\ 0 < r /\ room a n' DefaultAlignment r
          /\ (forall q, room a n' DefaultAlignment q -> r <= q)
          /\ allocations a' = <[r := n']> (delete p (allocations a)) /\ moved m m' p r n)
  end.

Lemma memcpy_spec q p n m : 0 <= n -> q + n <= p \/ p + n <= q -> exists m', memcpy q p n m = Done m' /\ moved m m' p q n.
Proof.
  intros Hn Hd. unfold memcpy. replace ((q <? p + n) && (p <? q + n)) with false by (split_cmp; lia).
  eexists. split; [done|]. split; intros; cbn; split_cmp; try lia; [|done..]. f_equal. lia.
Qed.

Lemma Realloc_moves p n n' a m : arena_ok a -> allocations a !! p = Some n -> n < n' < W64 -> ~ extendable a p n n' ->
  exists r a' m', (let! '(replacement, a) := AllocateLocked n' DefaultAlignment a in
      if replacement =? 0 then Done (0, a, m) else
      let! m := memcpy replacement p n m in let! a := FreeLocked p a in Done (replacement, a, m)) = Done (r, a', m')
    /\ reallocated a m p n' r a' m' /\ next_ok a a'.
Proof.
  intros Hok Hp Hn Hx. pose proof (tl_range _ _ _ _ (ao_tiling _ Hok) _ _ Hp). unfold reallocated. rewrite Hp.
  destruct (AllocateLocked_spec n' DefaultAlignment a Hok ltac:(lia)) as [[-> Hno]|(r & a1 & -> & Hr & Hroom & Hmin & Hnone & Hall & Hsr & Hok1)];
    [done|done|done|..]; unfold rounded in *; rewrite (proj2 (Z.eqb_neq n' 0)) in * by lia; cbn [obind].
  - exists 0, a, m. split; [done|]. split; [|by apply next_refl]. do 2 right. left. by split; [lia|].
  - rewrite (proj2 (Z.eqb_neq r 0)) by lia.
    assert (Hne : p <> r) by (intros ->; congruence).
    assert (Hp1 : allocations a1 !! p = Some n) by (rewrite Hall; by rewrite lookup_insert_ne).
    assert (Hr1 : allocations a1 !! r = Some n') by (rewrite Hall; by rewrite lookup_insert_eq).
    pose proof (tl_disjoint _ _ _ _ (ao_tiling _ Hok1) _ _ _ _ Hne Hp1 Hr1).
    destruct (memcpy_spec r p n m ltac:(lia)) as (m' & -> & Hm); [lia|]. cbn [obind].
    destruct (FreeLocked_spec p n a1 Hok1 Hp1) as (a' & -> & Ha' & Hok' & Hsr'). cbn [obind].
    exists r, a', m'. split; [done|]. split; [|split; [done|]; destruct Hsr, Hsr'; split; congruence].
    do 3 right. split; [lia|]. repeat (split; [done|]). split; [|done]. rewrite Ha', Hall. by rewrite delete_insert_ne.
Qed.

Lemma Realloc_spec p n' a m : arena_ok a -> 0 <= n' < W64 -> p <> 0 ->
  exists r a' m', Realloc p n' a m = Done (r, a', m') /\ reallocated a m p n' r a' m' /\ next_ok a a'.
Proof.
  intros Hok Hn' Hp0. unfold Realloc. rewrite (proj2 (Z.eqb_neq _ _) Hp0). unfold reallocated.
  destruct (Z.eqb_spec n' 0) as [->|Hz].
  { destruct (Free_spec p a Hok Hp0) as (a' & -> & Ha' & Hid & Hn). cbn [obind]. exists 0, a', m. split; [done|]. split; [|done].
    destruct (allocations a !! p) as [n|] eqn:E; [by left|]. split; [done|]. by split; [apply Hid|]. }
  destruct (allocations a !! p) as [n|] eqn:E; [|exists 0, a, m; split; [done|]; split; [done|by apply next_refl]].
  pose proof (tl_range _ _ _ _ (ao_tiling _ Hok) _ _ E).
  destruct (Z.eqb_spec n' n) as [->|Hne].
  { exists p, a, m. split; [done|]. split; [|by apply next_refl]. right. left. split; [lia|]. split; [left; lia|]. split; [done|].
    split; [by rewrite insert_id|done]. }
  destruct (Z.ltb_spec n' n).
  { destruct (shrink_spec p n n' a Hok E ltac:(lia)) as (fb & Ei & Hn). cbn [a_base free_blocks set_allocations]. rewrite Ei. cbn [obind].
    exists p, (set_free fb (set_allocations (<[p := n']> (allocations a)) a)), m. split; [done|]. split; [|done].
    right. left. split; [lia|]. by split; [left; lia|]. }
  destruct (grow_spec p n n' a Hok E ltac:(lia)) as [[-> Hx]|(a' & -> & Hx & Ha' & Hn)]; cbn [obind].
  - pose proof (Realloc_moves p n n' a m Hok E ltac:(lia) Hx) as Hm. unfold reallocated in Hm. by rewrite E in Hm.
  - exists p, a', m. split; [done|]. split; [|done]. right. left. split; [lia|]. by split; [right|].
Qed.
