(* ===== verification/MspaceReach.v ===== *)
(** * Memory spaces: the registry, its histories and their invariant

    Threads start calls and advance those under way, in any order; the guest
    writes its memory meanwhile.  An arena object exists exactly while a handle or
    a call owns it, and the ranges of existing arenas are disjoint. *)

From stdpp Require Import gmap.
From S2P Require Import Prelude OrdMap Mspace MspaceArena.

Inductive MsOp :=
  | OCreate (name base capacity flags handle : Z)
  | ODestroy (handle : Z)
  | OMalloc (handle size : Z)
  | OFree (handle pointer : Z)
  | OCalloc (handle count size : Z)
  | ORealloc (handle pointer size : Z)
  | OMemalign (handle alignment size : Z)
  | OUsable (pointer : Z) (order : list Z).

Definition ms_start (t : Z) (op : MsOp) (s : Mspaces) : outcome (option Z * Mspaces) :=
  match op with
  | OCreate name base capacity flags handle => MspaceCreate t name base capacity flags handle s
  | ODestroy handle => MspaceDestroy t handle s
  | OMalloc handle size => MspaceMalloc t handle size s
  | OFree handle pointer => MspaceFree t handle pointer s
  | OCalloc handle count size => MspaceCalloc t handle count size s
  | ORealloc handle pointer size => MspaceRealloc t handle pointer size s
  | OMemalign handle alignment size => MspaceMemalign t handle alignment size s
  | OUsable pointer order => MspaceMallocUsableSize t pointer order s
  end.

Definition word (z : Z) : Prop := 0 <= z < W64.

(** Arguments are words; the address of a new entry is not in use. *)
Definition admissible (op : MsOp) (s : Mspaces) : Prop :=
  match op with
  | OCreate _ base capacity _ handle => word base /\ word capacity /\ handle <> 0 /\ handles s !! handle = None
  | OMalloc _ size | ORealloc _ _ size => word size
  | OCalloc _ count size => word count /\ word size
  | OMemalign _ alignment size => word alignment /\ word size
  | OUsable _ order => order ≡ₚ (map_to_list (handles s)).*1
  | _ => True
  end.

Definition ms_initial : Mspaces := mkMspaces ∅ 0 ∅ ∅ (fun _ => 0).

Inductive ms_step (s : Mspaces) : Mspaces -> Prop :=
  | MsStart t op o s' : calls s !! t = None -> admissible op s -> ms_start t op s = Done (o, s') -> ms_step s s'
  | MsAdvance t o s' : ms_advance t s = Done (o, s') -> ms_step s s'
  | MsGuest m : ms_step s (set_memory m s).

Inductive ms_reachable : Mspaces -> Prop :=
  | MsInit : ms_reachable ms_initial
  | MsNext s s' : ms_reachable s -> ms_step s s' -> ms_reachable s'.

(** ** The invariant *)

Definition owner (id : Z) (s : Mspaces) : Prop :=
  (exists h e, handles s !! h = Some e /\ arena e = Some id) \/ (exists t f, calls s !! t = Some f /\ id ∈ owns f).

Definition held (e : HandleEntry) (id : Z) : Prop := arena e = Some id \/ retired_arena e = Some id.

Definition call_ok (c : Call) : Prop :=
  match c with
  | CMalloc size | CRealloc _ size => word size
  | CCalloc count size => word count /\ word size
  | CMemalign al size => 0 <= al /\ not_power al = false /\ (DefaultAlignment | al) /\ word size
  | CFree _ => True
  end.

Definition apart (a b : Arena) : Prop := a_base a + a_capacity a <= a_base b \/ a_base b + a_capacity b <= a_base a.

Record ms_ok (s : Mspaces) : Prop := {
  mo_arenas : forall id a, arenas s !! id = Some a -> arena_ok a;
  mo_owned : forall id, is_Some (arenas s !! id) <-> owner id s;
  mo_entry : forall id a, arenas s !! id = Some a -> exists h e, handles s !! h = Some e /\ held e id;
  mo_range : forall h e id a, handles s !! h = Some e -> held e id -> arenas s !! id = Some a -> e_base e = a_base a /\ e_capacity e = a_capacity a;
  mo_ids : forall h e id, handles s !! h = Some e -> held e id -> id < next_id s;
  mo_disjoint : forall id id' a a', id <> id' -> arenas s !! id = Some a -> arenas s !! id' = Some a' -> apart a a';
  mo_null : handles s !! 0 = None;
  mo_shape : forall h e, handles s !! h = Some e -> is_Some (arena e) -> retired_arena e = None;
  mo_calls : forall t id c, calls s !! t = Some (Resolved id c) -> call_ok c }.

Lemma owned_spec id s : owned id s = true <-> owner id s.
Proof.
  unfold owned, owner. rewrite orb_true_iff, !existsb_exists. split.
  - intros [(e & Hin & E%bool_decide_eq_true)|(f & Hin & E%bool_decide_eq_true)]; apply list_elem_of_In, list_elem_of_fmap in Hin as ([k x] & -> & Hin);
      apply elem_of_map_to_list in Hin; eauto.
  - intros [(h & e & Hh & E)|(t & f & Ht & E)]; [left; exists e|right; exists f]; (split; [|by apply bool_decide_eq_true]);
      apply list_elem_of_In, list_elem_of_fmap; eexists (_, _); (split; [done|]); by apply elem_of_map_to_list.
Qed.

Lemma initial_ok : ms_ok ms_initial.
Proof.
  split; cbn; try (intros *; rewrite lookup_empty; discriminate); [|done].
  intros id. rewrite lookup_empty. split; [by intros []|]. intros [(? & ? & E & _)|(? & ? & E & _)]; cbn in E; by rewrite lookup_empty in E.
Qed.

Lemma live_arena s id : ms_ok s -> owner id s -> exists a, arenas s !! id = Some a /\ arena_ok a.
Proof. intros Hok Ho. apply (mo_owned _ Hok) in Ho as [a E]. exists a. split; [done|]. by eapply mo_arenas. Qed.

(** ** Steps that leave arenas and handles alone *)

Definition set_calls (c : gmap Z Flight) (s : Mspaces) : Mspaces := mkMspaces (arenas s) (next_id s) (handles s) c (memory s).

(** The calls may change as long as the same arenas stay owned. *)
Lemma calls_ok c s : ms_ok s ->
  (forall id, is_Some (arenas s !! id) <-> owner id (set_calls c s)) -> (forall t id k, c !! t = Some (Resolved id k) -> call_ok k) ->
  ms_ok (set_calls c s).
Proof. intros [] Ho Hc. by split. Qed.

Lemma fly_owner t f s : calls s !! t = None \/ (exists g, calls s !! t = Some g /\ forall id, id ∈ owns g -> id ∈ owns f \/ exists h e, handles s !! h = Some e /\ arena e = Some id) ->
  (forall id, id ∈ owns f -> owner id s) -> forall id, owner id s <-> owner id (set_calls (<[t := f]> (calls s)) s).
Proof.
  intros Hold Hnew id. split.
  - intros [(h & e & ?)|(u & g & Hu & Hin)]; [left; by exists h, e|]. destruct (decide (u = t)) as [->|Hne].
    + destruct Hold as [Hn|(g' & Hg & Hs)]; [congruence|]. simplify_eq.
      destruct (Hs id Hin) as [?|?]; [|by left]. right. exists t, f. cbn. by rewrite lookup_insert_eq.
    + right. exists u, g. cbn. by rewrite lookup_insert_ne.
  - intros [(h & e & ?)|(u & g & Hu & Hin)]; [left; by exists h, e|]. cbn in Hu. apply lookup_insert_Some in Hu as [[<- <-]|[? Hu]]; [auto|].
    right. by exists u, g.
Qed.

Lemma fly_ok t f s : ms_ok s ->
  calls s !! t = None \/ (exists g, calls s !! t = Some g /\ forall id, id ∈ owns g -> id ∈ owns f \/ exists h e, handles s !! h = Some e /\ arena e = Some id) ->
  (forall id, id ∈ owns f -> owner id s) -> (forall id c, f = Resolved id c -> call_ok c) -> ms_ok (set_calls (<[t := f]> (calls s)) s).
Proof.
  intros Hok Hold Hnew Hc. apply calls_ok; [done|..].
  - intros id. rewrite (mo_owned _ Hok). by apply fly_owner.
  - intros u id k [[<- ->]|[_ Hu]]%lookup_insert_Some; [by eapply Hc|by eapply mo_calls].
Qed.

Lemma back_ok t s : ms_ok s -> (forall f, calls s !! t = Some f -> owns f = []) -> ms_ok (set_calls (delete t (calls s)) s).
Proof.
  intros Hok Hf. apply calls_ok; [done|..].
  - intros id. rewrite (mo_owned _ Hok). split.
    + intros [(h & e & ?)|(u & g & Hu & Hin)]; [left; by exists h, e|]. right. exists u, g. cbn. split; [|done].
      apply lookup_delete_Some. split; [|done]. intros <-. rewrite (Hf _ Hu) in Hin. by apply elem_of_nil in Hin.
    + intros [(h & e & ?)|(u & g & Hu & Hin)]; [left; by exists h, e|]. cbn in Hu. apply lookup_delete_Some in Hu as [_ Hu].
      right. by exists u, g.
  - intros u id k [_ Hu]%lookup_delete_Some. by eapply mo_calls.
Qed.

Lemma memory_ok m s : ms_ok s -> ms_ok (set_memory m s).
Proof. by intros []. Qed.

(** An operation on an arena that keeps it well formed and in its range. *)
Lemma arena_step_ok id a a' s : ms_ok s -> arenas s !! id = Some a -> next_ok a a' -> ms_ok (set_arena id a' s).
Proof.
  intros [Ha Ho He Hr Hi Hd Hn Hsh Hc] Hid [Hok' [Hb Hcap]].
  assert (Hlk : forall i x, <[id := a']> (arenas s) !! i = Some x -> exists y, arenas s !! i = Some y /\ a_base x = a_base y /\ a_capacity x = a_capacity y).
  { intros i x [[<- <-]|[_ ?]]%lookup_insert_Some; eauto. }
  split; cbn; try done.
  - intros i x [[<- <-]|[_ ?]]%lookup_insert_Some; eauto.
  - intros i. fold (owner i s). change (owner i (set_arena id a' s)) with (owner i s). rewrite <- Ho.
    destruct (decide (i = id)) as [->|]; [rewrite lookup_insert_eq, Hid; split; intros _; eauto|by rewrite lookup_insert_ne].
  - intros i x Hx. destruct (Hlk i x Hx) as (y & Hy & _). eauto.
  - intros h e i x Hh Hl Hx. destruct (Hlk i x Hx) as (y & Hy & -> & ->). eauto.
  - intros i j x y Hne Hx Hy. destruct (Hlk i x Hx) as (x' & Hx' & E1 & E2), (Hlk j y Hy) as (y' & Hy' & E3 & E4).
    unfold apart. rewrite E1, E2, E3, E4. by apply (Hd i j).
Qed.

(** The last owner of an arena takes it away. *)
Lemma unown_ok id s : (forall i a, arenas s !! i = Some a -> arena_ok a) ->
  (forall i, owner i s -> is_Some (arenas s !! i)) -> (forall i, i <> id -> is_Some (arenas s !! i) -> owner i s) ->
  (forall i a, arenas s !! i = Some a -> exists h e, handles s !! h = Some e /\ held e i) ->
  (forall h e i a, handles s !! h = Some e -> held e i -> arenas s !! i = Some a -> e_base e = a_base a /\ e_capacity e = a_capacity a) ->
  (forall h e i, handles s !! h = Some e -> held e i -> i < next_id s) ->
  (forall i j a b, i <> j -> arenas s !! i = Some a -> arenas s !! j = Some b -> apart a b) ->
  handles s !! 0 = None -> (forall h e, handles s !! h = Some e -> is_Some (arena e) -> retired_arena e = None) -> (forall t i c, calls s !! t = Some (Resolved i c) -> call_ok c) -> ms_ok (unown id s).
Proof.
  intros Ha Ho1 Ho2 He Hr Hi Hd Hn Hsh Hc. unfold unown. destruct (owned id s) eqn:E.
  - apply owned_spec in E. split; try done. intros i. split; [|auto]. intros. destruct (decide (i = id)) as [->|]; auto.
  - assert (Hno : ~ owner id s) by (rewrite <- owned_spec; congruence). split; cbn; try done.
    + intros i a [_ ?]%lookup_delete_Some. eauto.
    + intros i. change (owner i _) with (owner i s). split.
      * intros [a [? Hi']%lookup_delete_Some]. apply Ho2; eauto.
      * intros Ho. destruct (Ho1 i Ho) as [a ?]. exists a. apply lookup_delete_Some. split; [|done]. by intros <-.
    + intros i a [_ ?]%lookup_delete_Some. eauto.
    + intros h e i a Hh Hl [_ ?]%lookup_delete_Some. eauto.
    + intros i j a b ? [_ ?]%lookup_delete_Some [_ ?]%lookup_delete_Some. eauto.
Qed.

(** ** Creation and destruction *)

Lemma new_arena_ok name base cap : 0 < base -> 0 < cap -> base + cap < W64 -> arena_ok (new_arena name base cap).
Proof.
  intros Hb Hc Hw. unfold new_arena. rewrite (proj2 (Z.ltb_lt 0 cap)) by done. split; cbn; try done. split.
  - intros p n. by rewrite lookup_empty.
  - intros p q n k _. by rewrite lookup_empty.
  - intros x Hx. rewrite orb_false_r. split; [|intros _; split_cmp; try lia; done]. intros _ (p & n & E & _). by rewrite lookup_empty in E.
Qed.

(** Valid arguments of a creation. *)
Definition creatable (base capacity flags : Z) : Prop :=
  base <> 0 /\ capacity <> 0 /\ base + capacity <= SIZE_MAX /\ Z.land flags (Z.lxor 0xffffffff KnownMspaceFlags) = 0.

Definition away (base capacity : Z) (a : Arena) : Prop := base + capacity <= a_base a \/ a_base a + a_capacity a <= base.

Lemma blocks_range_spec base cap s : ms_ok s -> 0 < base -> 0 < cap -> base + cap <= SIZE_MAX ->
  existsb (blocks_range base cap s) (map_to_list (handles s)).*2 = false <-> forall id a, arenas s !! id = Some a -> away base cap a.
Proof.
  intros Hok Hb Hc Hw.
  assert (Hov : forall a, arena_ok a -> RangesOverlap base cap (a_base a) (a_capacity a) = false <-> away base cap a).
  { intros a []. unfold RangesOverlap, away, SIZE_MAX in *. rewrite !wadd_small by (unfold W64 in *; lia).
    rewrite andb_false_iff, !Z.ltb_ge. lia. }
  split.
  - intros Hf id a Hid. destruct (mo_entry _ Hok _ _ Hid) as (h & e & Hh & Hl). destruct (mo_range _ Hok _ _ _ _ Hh Hl Hid) as [E1 E2].
    apply Hov; [by eapply mo_arenas|]. rewrite <- E1, <- E2. destruct (RangesOverlap _ _ _ _) eqn:E; [|done]. exfalso.
    apply not_true_iff_false in Hf. apply Hf, existsb_exists. exists e. split.
    + apply list_elem_of_In, list_elem_of_fmap. exists (h, e). split; [done|]. by apply elem_of_map_to_list.
    + unfold blocks_range. rewrite E, andb_true_r. destruct Hl as [->| ->]; [done|]. cbn. rewrite Hid. by rewrite orb_true_r.
  - intros Ha. apply not_true_iff_false. rewrite existsb_exists. intros (e & Hin & E).
    apply list_elem_of_In, list_elem_of_fmap in Hin as ([h e'] & -> & Hh). apply elem_of_map_to_list in Hh. cbn in *.
    unfold blocks_range in E. apply andb_true_iff in E as [E1 E2].
    assert (exists id a, held e' id /\ arenas s !! id = Some a) as (id & a & Hl & Hid).
    { apply orb_true_iff in E1 as [[id Hi]%bool_decide_eq_true|E1].
      - destruct (live_arena s id Hok) as (a & ? & _); [left; by exists h, e'|]. exists id, a. by split; [left|].
      - apply negb_true_iff in E1. destruct (retired_arena e') as [id|] eqn:Er; [|done]. cbn in E1.
        destruct (arenas s !! id) as [a|] eqn:Ea; [|done]. exists id, a. by split; [right|]. }
    destruct (mo_range _ Hok _ _ _ _ Hh Hl Hid) as [E3 E4]. rewrite E3, E4 in E2.
    rewrite (proj2 (Hov a (mo_arenas _ Hok _ _ Hid))) in E2; [done|]. by eapply Ha.
Qed.

Definition created (base capacity handle : Z) (name : list Z) (s : Mspaces) : Mspaces :=
  mkMspaces (<[next_id s := new_arena name base capacity]> (arenas s)) (next_id s + 1)
    (<[handle := mkEntry (Some (next_id s)) None base capacity]> (handles s)) (calls s) (memory s).

Lemma fresh_id s id : ms_ok s -> is_Some (arenas s !! id) -> id < next_id s.
Proof. intros Hok [a Ha]. destruct (mo_entry _ Hok _ _ Ha) as (h & e & Hh & Hl). by eapply mo_ids. Qed.

Lemma created_ok base cap handle name s : ms_ok s -> 0 < base -> 0 < cap -> base + cap <= SIZE_MAX -> handle <> 0 -> handles s !! handle = None ->
  (forall id a, arenas s !! id = Some a -> away base cap a) -> ms_ok (created base cap handle name s).
Proof.
  intros Hok Hb Hc Hw H0 Hh Haw. pose proof Hok as [Ha Ho He Hr Hi Hd Hn Hsh Hcl].
  assert (Hfr : arenas s !! next_id s = None).
  { destruct (arenas s !! next_id s) eqn:E; [|done]. pose proof (fresh_id s (next_id s) Hok ltac:(eauto)). lia. }
  split; cbn.
  - intros id a [[<- <-]|[_ ?]]%lookup_insert_Some; [|eauto]. apply new_arena_ok; unfold SIZE_MAX, W64 in *; lia.
  - intros id. split.
    + intros [a [[<- <-]|[_ Hx]]%lookup_insert_Some].
      * left. exists handle. eexists. cbn. rewrite lookup_insert_eq. done.
      * destruct (proj1 (Ho id) ltac:(eauto)) as [(h & e & Hhe & ?)|?]; [|by right]. left. exists h, e. cbn.
        by rewrite lookup_insert_ne by congruence.
    + intros [(h & e & Hx & E)|Hc']; [cbn in Hx; apply lookup_insert_Some in Hx as [[<- <-]|[_ Hx]]|].
      * injection E as <-. rewrite lookup_insert_eq. eauto.
      * destruct (proj2 (Ho id)) as [a ?]; [left; by exists h, e|]. rewrite lookup_insert_ne by congruence. eauto.
      * destruct (proj2 (Ho id)) as [a ?]; [by right|]. rewrite lookup_insert_ne by congruence. eauto.
  - intros id a [[<- <-]|[_ Hx]]%lookup_insert_Some.
    + exists handle. eexists. rewrite lookup_insert_eq. split; [done|by left].
    + destruct (He _ _ Hx) as (h & e & Hhe & ?). exists h, e. by rewrite lookup_insert_ne by congruence.
  - intros h e id a [[<- <-]|[_ Hx]]%lookup_insert_Some [E|E]; cbn in E; simplify_eq.
    + by rewrite lookup_insert_eq; intros [= <-].
    + rewrite lookup_insert_ne by (intros <-; pose proof (Hi h e _ Hx (or_introl E)); lia). eapply Hr; [exact Hx|by left].
    + rewrite lookup_insert_ne by (intros <-; pose proof (Hi h e _ Hx (or_intror E)); lia). eapply Hr; [exact Hx|by right].
  - intros h e id [[<- <-]|[_ Hx]]%lookup_insert_Some Hl; [destruct Hl as [E|E]; cbn in E; simplify_eq; lia|].
    pose proof (Hi _ _ _ Hx Hl). lia.
  - intros i j a b Hne [[<- <-]|[_ Hx]]%lookup_insert_Some [[<- <-]|[_ Hy]]%lookup_insert_Some; [done|..|eauto];
      unfold apart; cbn; [|apply or_comm]; by eapply Haw.
  - by rewrite lookup_insert_ne.
  - intros h e [[<- <-]|[_ Hx]]%lookup_insert_Some; [done|eauto].
  - done.
Qed.

Lemma back_idle t r s : calls s !! t = None -> back t r s = Done (Some r, s).
Proof. intros E. unfold back. rewrite delete_id by done. by destruct s. Qed.

(** The range is valid and no existing arena meets it. *)
Definition available (base cap flags : Z) (s : Mspaces) : Prop :=
  creatable base cap flags /\ forall id a, arenas s !! id = Some a -> away base cap a.

Definition create_result (base cap flags handle : Z) (s : Mspaces) (r : Z) (s' : Mspaces) : Prop :=
  (available base cap flags s /\ r = handle /\ exists name, s' = created base cap handle name s)
  \/ (~ available base cap flags s /\ r = 0 /\ s' = s).

Lemma create_none t base cap flags handle s : ms_ok s -> calls s !! t = None -> ~ available base cap flags s ->
  exists r s', back t 0 s = Done (Some r, s') /\ ms_ok s' /\ create_result base cap flags handle s r s'.
Proof. intros. exists 0, s. split; [by apply back_idle|]. split; [done|]. by right. Qed.

Lemma create_spec t name base cap flags handle s : ms_ok s -> calls s !! t = None -> word base -> word cap -> handle <> 0 -> handles s !! handle = None ->
  exists r s', MspaceCreate t name base cap flags handle s = Done (Some r, s') /\ ms_ok s' /\ create_result base cap flags handle s r s'.
Proof.
  intros Hok Ht Hb Hc H0 Hh. unfold MspaceCreate, word in *. assert (Hno := create_none t base cap flags handle s Hok Ht).
  destruct ((base =? 0) || (cap =? 0)) eqn:E1; [apply Hno; intros [(? & ? & ?) _]; lia|]. bool_prop.
  destruct (Z.ltb_spec (SIZE_MAX - cap) base); [apply Hno; intros [(? & ? & ? & ?) _]; lia|].
  destruct (Z.eqb_spec (Z.land flags (Z.lxor 4294967295 KnownMspaceFlags)) 0) as [Ef|Ef]; cbn [negb]; [|apply Hno; by intros [(_ & _ & _ & ?) _]].
  pose proof (blocks_range_spec base cap s Hok ltac:(lia) ltac:(lia) ltac:(lia)) as Hbr.
  destruct (existsb _ _); [apply Hno; intros [_ Ha]; by apply Hbr in Ha|].
  rewrite back_idle by done. eexists handle, _. split; [done|]. assert (Haw := proj1 Hbr eq_refl). split; [apply created_ok; (done || lia)|].
  left. split; [split; [|done]; repeat split; (done || lia)|]. split; [done|]. by eexists.
Qed.

Lemma destroyed_ok h e id s : ms_ok s -> handles s !! h = Some e -> arena e = Some id ->
  ms_ok (unown id (set_handles (<[h := mkEntry None (Some id) (e_base e) (e_capacity e)]> (handles s)) s)).
Proof.
  intros Hok Hh He. pose proof Hok as [Ha Ho Hen Hr Hi Hd Hn Hsh Hc].
  assert (Hlk : forall k x i, <[h := mkEntry None (Some id) (e_base e) (e_capacity e)]> (handles s) !! k = Some x -> held x i ->
    exists y, handles s !! k = Some y /\ held y i /\ e_base x = e_base y /\ e_capacity x = e_capacity y).
  { intros k x i [[<- <-]|[_ ?]]%lookup_insert_Some Hl; [|eauto]. exists e. destruct Hl as [E|E]; cbn in E; simplify_eq. by repeat split; [|left]. }
  apply unown_ok; cbn; try done.
  - intros i [(k & x & Hk & E)|?]; apply Ho; [|by right]. cbn in Hk. apply lookup_insert_Some in Hk as [[<- <-]|[_ ?]]; [done|]. left. by exists k, x.
  - intros i Hne Hi'. apply Ho in Hi' as [(k & x & Hk & E)|?]; [|by right]. left. exists k, x. split; [|done]. cbn.
    rewrite lookup_insert_ne; [done|]. intros ->. congruence.
  - intros i a Hx. destruct (Hen i a Hx) as (k & x & Hk & Hl). destruct (decide (k = h)) as [->|Hne].
    + simplify_eq. exists h. eexists. rewrite lookup_insert_eq. split; [done|]. destruct Hl as [E|E]; [right; cbn; congruence|].
      rewrite (Hsh h e Hh) in E by eauto. done.
    + exists k, x. by rewrite lookup_insert_ne.
  - intros k x i a Hk Hl Hx. destruct (Hlk k x i Hk Hl) as (y & Hy & Hly & -> & ->). eauto.
  - intros k x i Hk Hl. destruct (Hlk k x i Hk Hl) as (y & Hy & Hly & _). eauto.
  - rewrite lookup_insert_ne; [done|]. congruence.
  - intros k x [[<- <-]|[_ Hx]]%lookup_insert_Some; [by intros []|eauto].
Qed.

(** ** Calls on an arena *)

(** What a call does to its arena and to memory. *)
Definition call_effect (c : Call) (a : Arena) (m : Memory) (r : Z) (a' : Arena) (m' : Memory) : Prop :=
  match c with
  | CMalloc size => allocated a size DefaultAlignment r a' /\ m' = m
  | CMemalign al size => allocated a size al r a' /\ m' = m
  | CCalloc count size =>
      m' = m /\ ((count * size < W64 /\ allocated a (count * size) DefaultAlignment r a') \/ (W64 <= count * size /\ r = 0 /\ a' = a))
  | CFree p =>
      m' = m /\ ((p = 0 /\ r = 0 /\ a' = a) \/ (p <> 0 /\ allocations a !! p = None /\ r = 1 /\ a' = a)
                 \/ (is_Some (allocations a !! p) /\ r = 0 /\ allocations a' = delete p (allocations a)))
  | CRealloc p n => (p = 0 /\ allocated a n DefaultAlignment r a' /\ m' = m) \/ (p <> 0 /\ reallocated a m p n r a' m')
  end.

(** Where a call goes with its result. *)
Definition landing (c : Call) (id r : Z) : Flight :=
  match c with
  | CCalloc count size => if r =? 0 then Leaving [id] 0 else Zeroing id r (count * size)
  | _ => Leaving [id] r
  end.

Definition after_call (t id : Z) (c : Call) (r : Z) (a' : Arena) (m' : Memory) (s : Mspaces) : Mspaces :=
  set_calls (<[t := landing c id r]> (calls s)) (set_memory m' (set_arena id a' s)).

Lemma arena_allocate_ok size al a : arena_ok a -> word size -> 0 <= al -> not_power al = false -> (DefaultAlignment | al) ->
  exists p a', Allocate size al a = Done (p, a') /\ allocated a size al p a' /\ next_ok a a'.
Proof. intros ? ? ? E ?. unfold Allocate. rewrite E. by apply AllocateLocked_ok. Qed.

Lemma default_ok size a : arena_ok a -> word size ->
  exists p a', Allocate size DefaultAlignment a = Done (p, a') /\ allocated a size DefaultAlignment p a' /\ next_ok a a'.
Proof. intros. by apply arena_allocate_ok. Qed.

Lemma calloc_overflow count size : word count -> word size ->
  negb (count =? 0) && (SIZE_MAX / count <? size) = (W64 <=? count * size).
Proof.
  unfold word, SIZE_MAX, W64. intros Hc Hs. destruct (Z.eqb_spec count 0) as [->|Hz]; cbn [negb andb]; [split_cmp; lia|].
  pose proof (Z.div_mod 18446744073709551615 count ltac:(lia)). pose proof (Z.mod_pos_bound 18446744073709551615 count ltac:(lia)).
  split_cmp; try done; nia.
Qed.

Lemma same_arena id a s : arenas s !! id = Some a -> set_memory (memory s) (set_arena id a s) = s.
Proof. intros. unfold set_memory, set_arena. cbn. rewrite insert_id by done. by destruct s. Qed.

Lemma run_call_spec t id c s : ms_ok s -> calls s !! t = Some (Resolved id c) ->
  exists a r a' m', arenas s !! id = Some a /\ call_effect c a (memory s) r a' m' /\ next_ok a a'
    /\ run_call t id c s = Done (None, after_call t id c r a' m' s).
Proof.
  intros Hok Ht. destruct (live_arena s id Hok) as (a & Ha & Hao); [right; exists t; eexists; split; [exact Ht|by left]|].
  pose proof (mo_calls _ Hok _ _ _ Ht) as Hc. unfold run_call. rewrite Ha. cbn [of_option obind]. exists a.
  destruct c as [size|p|count size|p n|al size]; cbn [call_ok] in Hc.
  - destruct (default_ok size a Hao Hc) as (p & a' & -> & ? & ?). by exists p, a', (memory s).
  - destruct (decide (p = 0)) as [->|Hp].
    + exists 0, a, (memory s). split; [done|]. split; [split; [done|by left]|]. split; [by apply next_refl|done].
    + destruct (Free_spec p a Hao Hp) as (a' & -> & Hd & Hid & Hn). cbn [obind]. exists (match allocations a !! p with Some _ => 0 | None => 1 end), a', (memory s).
      split; [done|]. split; [|done]. split; [done|]. destruct (allocations a !! p) eqn:E; [|right; left; by split; [|split; [|split; [|apply Hid]]]].
      right. right. by split; [eauto|].
  - destruct Hc as [Hc Hs]. rewrite calloc_overflow by done. destruct (Z.leb_spec W64 (count * size)).
    + exists 0, a, (memory s). split; [done|]. split; [split; [done|by right]|]. split; [by apply next_refl|]. unfold after_call. cbn [landing].
      rewrite (same_arena _ _ _ Ha). done.
    + unfold wmul. rewrite u64_small by (unfold word in *; nia).
      destruct (default_ok (count * size) a Hao) as (p & a' & -> & ? & ?); [unfold word in *; nia|]. exists p, a', (memory s).
      split; [done|]. split; [split; [done|by left]|]. done.
  - destruct (decide (p = 0)) as [->|Hp].
    + destruct (default_ok n a Hao Hc) as (p & a' & E & ? & ?). exists p, a', (memory s). split; [done|]. split; [by left|]. split; [done|].
      unfold Realloc. cbn [Z.eqb]. by rewrite E.
    + destruct (Realloc_spec p n a (memory s) Hao Hc Hp) as (r & a' & m' & -> & ? & ?). exists r, a', m'. split; [done|]. split; [by right|]. done.
  - destruct Hc as (? & ? & ? & ?). destruct (arena_allocate_ok size al a Hao) as (p & a' & -> & ? & ?); [done..|]. by exists p, a', (memory s).
Qed.

Lemma landing_owns c id r : owns (landing c id r) = [id].
Proof. destruct c; cbn; [done|done| |done|done]. by destruct (r =? 0). Qed.

Lemma landing_calm c id r i k : landing c id r = Resolved i k -> False.
Proof. destruct c; cbn; try done. by destruct (r =? 0). Qed.

Lemma after_call_ok t id c r a a' m' s : ms_ok s -> calls s !! t = Some (Resolved id c) -> arenas s !! id = Some a -> next_ok a a' ->
  ms_ok (after_call t id c r a' m' s).
Proof.
  intros Hok Ht Ha Hn. unfold after_call.
  assert (Hok' : ms_ok (set_memory m' (set_arena id a' s))) by (eapply memory_ok, arena_step_ok; done).
  apply (fly_ok t (landing c id r) _ Hok').
  - right. exists (Resolved id c). split; [done|]. intros i Hi. left. by rewrite landing_owns.
  - intros i Hi. rewrite landing_owns in Hi. right. exists t, (Resolved id c). by split.
  - intros i k E. by apply landing_calm in E.
Qed.

(** ** All steps *)

Definition total_ok (x : outcome (option Z * Mspaces)) : Prop := exists o s', x = Done (o, s') /\ ms_ok s'.

Lemma fly_total t f s : ms_ok s ->
  calls s !! t = None \/ (exists g, calls s !! t = Some g /\ forall id, id ∈ owns g -> id ∈ owns f \/ exists h e, handles s !! h = Some e /\ arena e = Some id) ->
  (forall id, id ∈ owns f -> owner id s) -> (forall id c, f = Resolved id c -> call_ok c) -> total_ok (fly t f s).
Proof. intros. eexists _, _. split; [done|]. by apply fly_ok. Qed.

(** A call that goes on owning the same arenas. *)
Lemma fly_same t f g s : ms_ok s -> calls s !! t = Some g -> (forall id, id ∈ owns f <-> id ∈ owns g) -> (forall id c, f <> Resolved id c) ->
  total_ok (fly t f s).
Proof.
  intros Hok Ht Hs Hf. apply fly_total; [done|..].
  - right. exists g. split; [done|]. intros id Hi. left. by apply Hs.
  - intros id Hi. right. exists t, g. split; [done|]. by apply Hs.
  - intros id c E. by apply Hf in E.
Qed.

Lemma leaving_ok t id l r s : ms_ok s -> calls s !! t = Some (Leaving (id :: l) r) ->
  ms_ok (unown id (set_calls (<[t := Leaving l r]> (calls s)) s)).
Proof.
  intros Hok Ht. pose proof Hok as [Ha Ho He Hr Hi Hd Hn Hsh Hc]. apply unown_ok; cbn; try done.
  - intros i [(h & e & ?)|(u & g & Hu & Hin)]; apply Ho; [left; by exists h, e|]. cbn in Hu.
    apply lookup_insert_Some in Hu as [[<- <-]|[_ Hu]]; right; [exists t; eexists; split; [exact Ht|by right]|by exists u, g].
  - intros i Hne [(h & e & ?)|(u & g & Hu & Hin)]%Ho; [left; by exists h, e|]. right. destruct (decide (u = t)) as [->|].
    + simplify_eq. exists t, (Leaving l r). cbn. rewrite lookup_insert_eq. split; [done|]. cbn in Hin. by apply elem_of_cons in Hin as [|].
    + exists u, g. cbn. by rewrite lookup_insert_ne.
  - intros u i k [[<- E]|[_ Hu]]%lookup_insert_Some; [done|eauto].
Qed.

Lemma advance_total t s : ms_ok s -> is_Some (calls s !! t) -> total_ok (ms_advance t s).
Proof.
  intros Hok [f Ht]. unfold ms_advance. rewrite Ht. cbn [of_option obind]. destruct f as [id c|id p n|seen rest p|l r].
  - destruct (run_call_spec t id c s Hok Ht) as (a & r & a' & m' & Ha & _ & Hn & ->). eexists _, _. split; [done|]. by eapply after_call_ok.
  - eapply (fly_same t _ (Zeroing id p n)); [by apply memory_ok|done|done|done].
  - unfold scan_step. destruct rest as [|id rest]; [eapply fly_same; [done|exact Ht| |done]; intros; cbn; by rewrite app_nil_r|].
    destruct (live_arena s id Hok) as (a & -> & _); [right; exists t; eexists; split; [exact Ht|cbn; set_solver]|]. cbn [of_option obind].
    destruct (negb _); eapply fly_same; try exact Ht; try done. intros i. cbn. by rewrite <- app_assoc.
  - unfold leave_step. destruct l as [|id l].
    + eexists _, _. split; [done|]. apply back_ok; [done|]. by intros ? [= <-]%(eq_trans (eq_sym Ht)).
    + cbn. eexists _, _. split; [done|]. by apply leaving_ok.
Qed.

Lemma resolve_total t h fail c s : ms_ok s -> calls s !! t = None -> call_ok c -> total_ok (resolve t h fail c s).
Proof.
  intros Hok Ht Hc. unfold resolve, ResolveArena. destruct (Z.eqb_spec h 0); [rewrite back_idle by done; by eexists _, _|].
  destruct (handles s !! h) as [e|] eqn:Eh; [|rewrite back_idle by done; by eexists _, _].
  destruct (arena e) as [id|] eqn:Ee; [|rewrite back_idle by done; by eexists _, _].
  apply fly_total; [done|by left|..].
  - intros i ->%list_elem_of_singleton. left. by exists h, e.
  - by intros i k [= _ <-].
Qed.

Lemma start_total t op s : ms_ok s -> calls s !! t = None -> admissible op s -> total_ok (ms_start t op s).
Proof.
  intros Hok Ht Had. destruct op as [nm base cap fl h|h|h n|h p|h c n|h p n|h al n|p order]; cbn in *; try (by apply resolve_total).
  - destruct Had as (? & ? & ? & ?). destruct (create_spec t nm base cap fl h s) as (r & s' & -> & ? & _); [done..|]. by eexists _, _.
  - unfold MspaceDestroy. destruct (h =? 0); [rewrite back_idle by done; by eexists _, _|].
    destruct (handles s !! h) as [e|] eqn:Eh; [|rewrite back_idle by done; by eexists _, _].
    destruct (arena e) as [id|] eqn:Ee; [|rewrite back_idle by done; by eexists _, _].
    rewrite back_idle; [eexists _, _; split; [done|]; by apply destroyed_ok|]. unfold unown. by destruct (owned _ _).
  - unfold MspaceMemalign. destruct (not_power al) eqn:E; [rewrite back_idle by done; by eexists _, _|]. apply resolve_total; [done..|].
    destruct Had as [Hal Hn]. destruct (not_power_pow al ltac:(unfold word in *; lia) E) as (k & Hk & ->). cbn.
    destruct (Z.le_gt_cases (2 ^ k) DefaultAlignment) as [Hle|Hgt]; [rewrite Z.max_r by done; done|]. rewrite Z.max_l by lia.
    split; [lia|]. split; [done|]. split; [|done]. assert (4 < k) by (apply (Z.pow_lt_mono_r_iff 2); [lia|lia|exact Hgt]).
    exists (2 ^ (k - 4)). change DefaultAlignment with (2 ^ 4). rewrite <- Z.pow_add_r by lia. f_equal. lia.
  - unfold MspaceMallocUsableSize. destruct (p =? 0); [rewrite back_idle by done; by eexists _, _|]. apply fly_total; [done|by left| |done].
    intros id Hin. cbn in Hin. apply list_elem_of_omap in Hin as (h & _ & Hh). destruct (handles s !! h) as [e|] eqn:Eh; [|done].
    left. by exists h, e.
Qed.

Lemma reachable_ok s : ms_reachable s -> ms_ok s.
Proof.
  induction 1 as [|s s' _ IH Hs]; [apply initial_ok|]. destruct Hs as [t op o s' Ht Had E|t o s' E|m].
  - destruct (start_total t op s IH Ht Had) as (? & ? & E' & ?). congruence.
  - destruct (calls s !! t) as [f|] eqn:Ht; [|unfold ms_advance in E; by rewrite Ht in E].
    destruct (advance_total t s IH) as (? & ? & E' & ?); [eauto|]. congruence.
  - by apply memory_ok.
Qed.
