(* ===== verification/MspaceSpec.v ===== *)
(** * Memory spaces: their properties *)

From stdpp Require Import gmap.
From S2P Require Import Prelude OrdMap Mspace MspaceArena MspaceReach.

(** ** Isolation *)

Definition live (s : Mspaces) (id p n : Z) : Prop := exists a, arenas s !! id = Some a /\ allocations a !! p = Some n.

(** C28: over every history of calls, by any threads in any order and with arenas
    destroyed under them, live allocations never overlap, within an arena or across
    arenas; each is non-empty, aligned to 16 and inside its arena, the free blocks of
    an arena are exactly the rest of it, and an arena exists only while owned. *)
Theorem mspace_allocations_isolated s : ms_reachable s ->
  (forall id id' p p' n n', live s id p n -> live s id' p' n' -> (id, p) <> (id', p') -> p + n <= p' \/ p' + n' <= p)
  /\ (forall id a, arenas s !! id = Some a -> owner id s
      /\ (forall p n, allocations a !! p = Some n -> 0 < n /\ (DefaultAlignment | p) /\ a_base a <= p /\ p + n <= a_base a + a_capacity a)
      /\ forall x, 0 <= x < a_capacity a -> freeb (free_blocks a) x = true <-> ~ covered (allocations a) (a_base a + x)).
Proof.
  intros Hok%reachable_ok. split.
  - intros id id' p p' n n' (a & Ha & Hp) (a' & Ha' & Hp') Hne.
    pose proof (ao_tiling _ (mo_arenas _ Hok _ _ Ha)) as Ht. pose proof (ao_tiling _ (mo_arenas _ Hok _ _ Ha')) as Ht'.
    destruct (decide (id = id')) as [<-|Hid]; [simplify_eq; by eapply (tl_disjoint _ _ _ _ Ht p p'); [congruence|..]|].
    pose proof (tl_range _ _ _ _ Ht _ _ Hp). pose proof (tl_range _ _ _ _ Ht' _ _ Hp').
    pose proof (mo_disjoint _ Hok _ _ _ _ Hid Ha Ha') as [?|?]; lia.
  - intros id a Ha. split; [apply (mo_owned _ Hok); eauto|]. pose proof (ao_tiling _ (mo_arenas _ Hok _ _ Ha)) as Ht. split.
    + intros p n Hp. pose proof (tl_range _ _ _ _ Ht _ _ Hp). tauto.
    + apply (tl_free _ _ _ _ Ht).
Qed.

(** ** Calls *)

(** C27: a call on an arena acts on its table of allocations as specified
    ([call_effect]): an allocation takes the lowest aligned place no live allocation
    meets and returns null only when there is none, a product that overflows is
    refused, freeing removes exactly the block named and reports others, and a
    reallocation shrinks or grows in place where it can, else moves to the lowest
    place with the contents of the old block, else changes nothing. *)
Theorem mspace_calls_refine s t id c : ms_reachable s -> calls s !! t = Some (Resolved id c) ->
  exists a r a' m', arenas s !! id = Some a /\ call_effect c a (memory s) r a' m' /\ same_range a a'
    /\ ms_advance t s = Done (None, after_call t id c r a' m' s).
Proof.
  intros Hok%reachable_ok Ht. destruct (run_call_spec t id c s Hok Ht) as (a & r & a' & m' & Ha & He & [_ Hs] & E).
  exists a, r, a', m'. split; [done|]. split; [done|]. split; [done|]. unfold ms_advance. by rewrite Ht.
Qed.

(** ** Completion *)

(** A call under way, run by its thread to its end. *)
Fixpoint finish (n : nat) (t : Z) (s : Mspaces) : outcome (Z * Mspaces) :=
  match n with
  | O => Raised OutOfFuel
  | S n => let! '(o, s) := ms_advance t s in match o with Some r => Done (r, s) | None => finish n t s end
  end.

Definition steps_left (f : Flight) : nat :=
  match f with
  | Resolved _ _ => 4
  | Zeroing _ _ _ => 3
  | Scanning seen rest _ => length rest + length (seen ++ rest) + 2
  | Leaving l _ => length l + 1
  end.

(** Each step of a thread brings its call closer to its end. *)
Lemma advance_closer t f s o s' : ms_ok s -> calls s !! t = Some f -> ms_advance t s = Done (o, s') ->
  match o with
  | Some _ => calls s' !! t = None
  | None => exists f', calls s' !! t = Some f' /\ (steps_left f' < steps_left f)%nat
  end.
Proof.
  intros Hok Ht E. unfold ms_advance in E. rewrite Ht in E. cbn [of_option obind] in E. destruct f as [id c|id p n|seen rest p|l r].
  - destruct (run_call_spec t id c s Hok Ht) as (a & r & a' & m' & _ & _ & _ & E'). rewrite E' in E. injection E as <- <-.
    exists (landing c id r). cbn. rewrite lookup_insert_eq. split; [done|]. destruct c; cbn; try lia. destruct (r =? 0); cbn; lia.
  - injection E as <- <-. cbn. eexists. rewrite lookup_insert_eq. split; [done|cbn; lia].
  - unfold scan_step in E. destruct rest as [|id rest]; [injection E as <- <-; cbn; eexists; rewrite lookup_insert_eq; split; [done|cbn; rewrite app_nil_r; lia]|].
    destruct (arenas s !! id); [|done]. cbn [of_option obind] in E. destruct (negb _); injection E as <- <-; cbn; eexists; rewrite lookup_insert_eq;
      (split; [done|cbn; rewrite ?length_app; cbn; lia]).
  - unfold leave_step in E. destruct l as [|id l]; injection E as <- <-; [cbn; by rewrite lookup_delete_eq|].
    exists (Leaving l r). cbn. split; [|lia]. unfold unown. destruct (owned _ _); cbn; by rewrite lookup_insert_eq.
Qed.

(** C36: in every reachable state every call starts without fault, and one under way
    ends after at most [steps_left] steps of its thread: neither the abort on a
    doubly inserted block nor an overlapping copy nor the use of a destroyed arena
    can happen. *)
Theorem mspace_calls_return s t : ms_reachable s ->
  (forall op, calls s !! t = None -> admissible op s -> exists o s', ms_start t op s = Done (o, s'))
  /\ (forall f, calls s !! t = Some f -> exists r s', finish (steps_left f) t s = Done (r, s') /\ calls s' !! t = None).
Proof.
  intros Hok%reachable_ok. split.
  - intros op Ht Had. destruct (start_total t op s Hok Ht Had) as (o & s' & E & _). eauto.
  - intros f Ht. remember (steps_left f) as k eqn:Hk. assert (Hle : (steps_left f <= k)%nat) by lia. clear Hk. revert f s Hok Ht Hle.
    induction k as [|k IH]; intros f s Hok Ht Hle; [destruct f; cbn in Hle; lia|]. cbn.
    destruct (advance_total t s Hok) as (o & s' & E & Hok'); [eauto|]. pose proof (advance_closer t f s o s' Hok Ht E) as Hc. rewrite E. cbn [obind].
    destruct o as [r|]; [by exists r, s'|]. destruct Hc as (f' & Hf' & Hlt). apply (IH f'); [done|done|lia].
Qed.

(** ** Creation *)

(** a creation succeeds exactly when base and capacity are not zero, the range does
    not pass the end of the address space, no unknown flag is set and the range meets
    no arena that is alive or still used by a call; otherwise it returns null and
    changes nothing. *)
Theorem MspaceCreate_correct s t name base cap flags handle : ms_reachable s -> calls s !! t = None -> word base -> word cap ->
  handle <> 0 -> handles s !! handle = None ->
  exists r s', MspaceCreate t name base cap flags handle s = Done (Some r, s')
    /\ ((available base cap flags s /\ r = handle /\ exists name, s' = created base cap handle name s)
        \/ (~ available base cap flags s /\ r = 0 /\ s' = s)).
Proof.
  intros Hok%reachable_ok Ht Hb Hc H0 Hh. destruct (create_spec t name base cap flags handle s) as (r & s' & E & _ & Hr); [done..|]. by exists r, s'.
Qed.

(** A call that keeps the handles, or touches only handles that are alive. *)
Lemma dead_step h e s s' : ms_step s s' -> handles s !! h = Some e -> arena e = None -> handles s' !! h = Some e.
Proof.
  intros Hs Hh He. assert (Hrel : forall i x, handles (unown i x) = handles x) by (intros; unfold unown; by destruct (owned _ _)).
  assert (Hres : forall t k f c o x, resolve t k f c s = Done (o, x) -> handles x = handles s).
  { intros t k f c o x. unfold resolve. destruct (ResolveArena k s); by intros [= <- <-]. }
  destruct Hs as [t op o s' Ht Had E|t o s' E|m]; [|..|done].
  - destruct op as [nm base cap fl k|k|k n|k p|k c n|k p n|k al n|p order]; cbn in E; try (by rewrite (Hres _ _ _ _ _ _ E)).
    + destruct Had as (_ & _ & _ & Hk). unfold MspaceCreate in E. repeat case_match; injection E as <- <-; cbn; try done;
        (rewrite lookup_insert_ne; [done|congruence]).
    + unfold MspaceDestroy in E. repeat case_match; injection E as <- <-; cbn; try done. rewrite Hrel. cbn. rewrite lookup_insert_ne; [done|congruence].
    + unfold MspaceMemalign in E. destruct (not_power al); [by injection E as <- <-|]. by rewrite (Hres _ _ _ _ _ _ E).
    + unfold MspaceMallocUsableSize in E. destruct (p =? 0); by injection E as <- <-.
  - unfold ms_advance in E. destruct (calls s !! t) as [[id c|id p n|seen rest p|l r]|]; [..|done]; cbn [of_option obind] in E.
    + unfold run_call in E. destruct (arenas s !! id) as [a|]; [|done]. cbn [of_option obind] in E.
      destruct c; cbn in E; repeat case_match; repeat (let p := fresh in apply obind_Done in E as (p & _ & E); repeat case_match); by injection E as <- <-.
    + by injection E as <- <-.
    + unfold scan_step in E. destruct rest; [by injection E as <- <-|]. destruct (arenas s !! z); [|done]. cbn in E. case_match; by injection E as <- <-.
    + unfold leave_step in E. destruct l; [by injection E as <- <-|]. cbn in E. injection E as <- <-. by rewrite Hrel.
Qed.

(** a destroyed handle never resolves to an arena again, and destroying it again
    reports the failure. *)
Theorem mspace_destroyed_forever s s' h e : rtc ms_step s s' -> handles s !! h = Some e -> arena e = None ->
  ResolveArena h s' = None /\ forall t, calls s' !! t = None -> MspaceDestroy t h s' = Done (Some 1, s').
Proof.
  intros Hr Hh He. assert (Hh' : handles s' !! h = Some e) by (induction Hr; eauto using dead_step). unfold ResolveArena, MspaceDestroy. rewrite Hh', He.
  split; [by destruct (h =? 0)|]. intros t Ht. destruct (h =? 0); by apply back_idle.
Qed.

(** ** Calls that run alone *)

Lemma finish_last t n r s : calls s !! t = Some (Leaving [] r) -> finish (S n) t s = Done (r, set_calls (delete t (calls s)) s).
Proof. intros E. cbn. unfold ms_advance. by rewrite E. Qed.

Lemma set_calls_twice c c' s : set_calls c (set_calls c' s) = set_calls c s.
Proof. done. Qed.

(** A call leaves arenas that handles own. *)
Lemma finish_leave l t n r s : (length l < n)%nat -> (forall id, id ∈ l -> exists h e, handles s !! h = Some e /\ arena e = Some id) ->
  calls s !! t = Some (Leaving l r) -> finish n t s = Done (r, set_calls (delete t (calls s)) s).
Proof.
  revert s n. induction l as [|id l IH]; intros s n Hn Hl Ht; (destruct n as [|n]; [cbn in Hn; lia|]); [by apply finish_last|].
  cbn. unfold ms_advance. rewrite Ht. cbn. unfold unown.
  destruct (owned id _) eqn:E; [|exfalso; apply not_true_iff_false in E; apply E, owned_spec; left; apply Hl; by left].
  rewrite IH; [|cbn in Hn; lia|intros i Hi; apply Hl; by right|cbn; by rewrite lookup_insert_eq].
  unfold set_calls. cbn. by rewrite delete_insert_eq.
Qed.

(** What a pointer stands for, seen from the handles. *)
Definition known (s : Mspaces) (p n : Z) : Prop :=
  exists h e id a, handles s !! h = Some e /\ arena e = Some id /\ arenas s !! id = Some a /\ allocations a !! p = Some n.

Definition by_handle (s : Mspaces) (id : Z) : Prop := exists h e, handles s !! h = Some e /\ arena e = Some id.

Lemma scan_spec rest seen t n p s : ms_ok s -> p <> 0 -> (steps_left (Scanning seen rest p) <= n)%nat ->
  (forall id, id ∈ seen ++ rest -> by_handle s id) ->
  exists r, finish n t (set_calls (<[t := Scanning seen rest p]> (calls s)) s) = Done (r, set_calls (delete t (calls s)) s)
    /\ ((exists id a, id ∈ rest /\ arenas s !! id = Some a /\ allocations a !! p = Some r)
        \/ (r = 0 /\ forall id a, id ∈ rest -> arenas s !! id = Some a -> allocations a !! p = None)).
Proof.
  intros Hok Hp. revert seen n. induction rest as [|id rest IH]; intros seen n Hn Hh; (destruct n as [|n]; [cbn in Hn; lia|]); cbn in Hn.
  - exists 0. split; [|by right; split; [|intros ? ? ?%elem_of_nil]]. cbn. unfold ms_advance. cbn. rewrite lookup_insert_eq. cbn.
    rewrite finish_leave with (l := seen) (r := 0); [|rewrite app_nil_r in Hn; lia|by intros i Hi; apply Hh; rewrite app_nil_r|cbn; by rewrite lookup_insert_eq].
    unfold set_calls. cbn. by rewrite !delete_insert_eq.
  - destruct (live_arena s id Hok) as (a & Ha & Hao); [left; apply Hh; set_solver|].
    cbn. unfold ms_advance. cbn. rewrite lookup_insert_eq. cbn. rewrite Ha. cbn. unfold UsableSize. rewrite (proj2 (Z.eqb_neq _ _) Hp).
    rewrite length_app in Hn. cbn in Hn. destruct (allocations a !! p) as [k|] eqn:Ek; cbn.
    + pose proof (tl_range _ _ _ _ (ao_tiling _ Hao) _ _ Ek). rewrite (proj2 (Z.eqb_neq k 0)) by lia. cbn. exists k. split; [|left; exists id, a; set_solver].
      rewrite finish_leave with (l := seen ++ id :: rest) (r := k); [|rewrite length_app; cbn; lia|exact Hh|cbn; by rewrite lookup_insert_eq].
      unfold set_calls. cbn. by rewrite !delete_insert_eq.
    + destruct (IH (seen ++ [id]) n) as (r & E & Hr); [cbn; rewrite !length_app; cbn; lia|intros i; rewrite <- app_assoc; apply Hh|].
      exists r. split; [rewrite <- E; unfold set_calls; cbn; by rewrite insert_insert_eq|].
      destruct Hr as [(i & b & Hi & ?)|[-> Hr]]; [left; exists i, b; by split; [right|]|]. right. split; [done|].
      intros i b [->|Hi]%elem_of_cons Hb; [congruence|eauto].
Qed.

(** the usable size of a pointer is the size of the live allocation that starts
    there in an arena with a handle, whatever the order in which the arenas are
    visited, and 0 when there is none; the query changes nothing. *)
Theorem MspaceMallocUsableSize_correct s t p order : ms_reachable s -> calls s !! t = None -> p <> 0 -> admissible (OUsable p order) s ->
  exists s1 n r, ms_start t (OUsable p order) s = Done (None, s1) /\ finish n t s1 = Done (r, s)
    /\ ((0 < r /\ known s p r) \/ (r = 0 /\ forall k, ~ known s p k)).
Proof.
  intros Hok%reachable_ok Ht Hp Had. cbn in *. unfold MspaceMallocUsableSize. rewrite (proj2 (Z.eqb_neq _ _) Hp).
  set (ids := base.omap _ _). assert (Hids : forall id, id ∈ ids <-> by_handle s id).
  { intros id. unfold ids. rewrite list_elem_of_omap. unfold by_handle. split.
    - intros (h & _ & Hh). destruct (handles s !! h) as [e|] eqn:E; [|done]. by exists h, e.
    - intros (h & e & Hh & He). exists h. rewrite Hh. split; [|done]. rewrite Had. apply list_elem_of_fmap. exists (h, e).
      split; [done|]. by apply elem_of_map_to_list. }
  destruct (scan_spec ids [] t (steps_left (Scanning [] ids p)) p s Hok Hp) as (r & E & Hr); [lia|intros; by apply Hids|].
  eexists _, _, r. split; [done|]. split; [etransitivity; [exact E|]; unfold set_calls; rewrite delete_id by done; by destruct s|].
  destruct Hr as [(id & a & Hi & Ha & Hk)|[-> Hr]]; [left|right].
  - split; [exact (proj1 (tl_range _ _ _ _ (ao_tiling _ (mo_arenas _ Hok _ _ Ha)) _ _ Hk))|]. apply Hids in Hi as (h & e & ? & ?). by exists h, e, id, a.
  - split; [done|]. intros k (h & e & id & a & ? & ? & ? & Hk). rewrite (Hr id a) in Hk; [done|apply Hids; by exists h, e|done].
Qed.

Lemma finish_next n t s s' : ms_advance t s = Done (None, s') -> finish (S n) t s = finish n t s'.
Proof. intros E. cbn. by rewrite E. Qed.

(** a call to [MspaceCalloc] that runs alone zeroes exactly the bytes asked for and
    writes nothing else. *)
Theorem MspaceCalloc_zeroes s t h id a count size : ms_reachable s -> calls s !! t = None -> ResolveArena h s = Some id -> arenas s !! id = Some a ->
  word count -> word size ->
  exists s1 n r a' s2, MspaceCalloc t h count size s = Done (None, s1) /\ finish n t s1 = Done (r, s2)
    /\ arenas s2 = <[id := a']> (arenas s) /\ call_effect (CCalloc count size) a (memory s) r a' (memory s)
    /\ forall x, memory s2 x = if negb (r =? 0) && inside r (count * size) x then 0 else memory s x.
Proof.
  intros Hok%reachable_ok Ht Hh Ha Hc Hs. assert (Hb : by_handle s id).
  { unfold ResolveArena in Hh. destruct (h =? 0); [done|]. destruct (handles s !! h) as [e|] eqn:E; [|done]. by exists h, e. }
  unfold MspaceCalloc, resolve. rewrite Hh. set (s1 := set_calls (<[t := Resolved id (CCalloc count size)]> (calls s)) s).
  assert (Ht1 : calls s1 !! t = Some (Resolved id (CCalloc count size))) by (cbn; by rewrite lookup_insert_eq).
  assert (Hok1 : ms_ok s1).
  { apply fly_ok; [done|by left|intros i ->%list_elem_of_singleton; by left|intros i k [= _ <-]; done]. }
  destruct (run_call_spec t id _ s1 Hok1 Ht1) as (a0 & r & a' & m' & Ha0 & He & _ & E). assert (a0 = a) as -> by (cbn in Ha0; congruence).
  exists s1, 4%nat, r, a'. assert (m' = memory s) as -> by (destruct He as [-> _]; done).
  set (s2 := after_call t id (CCalloc count size) r a' (memory s) s1) in *.
  assert (Hleave : forall s3, calls s3 !! t = Some (Leaving [id] r) -> handles s3 = handles s ->
    forall n, (2 <= n)%nat -> finish n t s3 = Done (r, set_calls (delete t (calls s3)) s3)).
  { intros s3 Ht3 Hh3 n Hn. apply (finish_leave [id]); [cbn; lia| |done]. intros i ->%list_elem_of_singleton. by rewrite Hh3. }
  assert (Ef : finish 4 t s1 = finish 3 t s2) by (apply finish_next; unfold ms_advance; by rewrite Ht1).
  destruct (Z.eqb_spec r 0) as [->|Hr].
  - eexists. split; [done|]. split; [rewrite Ef; apply Hleave; [cbn; by rewrite lookup_insert_eq|done|lia]|]. done.
  - assert (Ht2 : calls s2 !! t = Some (Zeroing id r (count * size))).
    { cbn. rewrite lookup_insert_eq. by rewrite (proj2 (Z.eqb_neq _ _) Hr). }
    eexists. split; [done|]. split.
    { rewrite Ef. erewrite finish_next by (unfold ms_advance; rewrite Ht2; reflexivity). apply Hleave; [cbn; by rewrite lookup_insert_eq|done|lia]. }
    split; [done|]. split; [done|]. intros x. done.
Qed.

(** ** Runs *)

Definition done_or (s : Mspaces) (x : outcome (option Z * Mspaces)) : Mspaces := match x with Done (_, s') => s' | Raised _ => s end.

(** A space at 4096 with handle 7, then an allocation in it under way. *)
Definition demo_created : Mspaces := done_or ms_initial (MspaceCreate 1 0 4096 256 0 7 ms_initial).
Definition demo_malloc : Mspaces := done_or demo_created (MspaceMalloc 1 7 100 demo_created).
Definition demo_destroyed : Mspaces := done_or demo_created (MspaceDestroy 1 7 demo_created).

Lemma demo_created_reachable : ms_reachable demo_created.
Proof.
  eapply MsNext; [apply MsInit|]. eapply (MsStart _ 1 (OCreate 0 4096 256 0 7)); [reflexivity| |reflexivity].
  repeat split; (reflexivity || discriminate).
Qed.

Lemma demo_malloc_reachable : ms_reachable demo_malloc.
Proof.
  eapply MsNext; [apply demo_created_reachable|]. eapply (MsStart _ 1 (OMalloc 7 100)); [reflexivity| |reflexivity].
  repeat split; (reflexivity || discriminate).
Qed.

Lemma mspace_allocations_isolated_witness : owner 0 demo_malloc.
Proof.
  destruct (mspace_allocations_isolated demo_malloc demo_malloc_reachable) as [_ H].
  exact (proj1 (H 0 (new_arena [] 4096 256) eq_refl)).
Defined.

Lemma mspace_calls_refine_witness : exists r a' m', call_effect (CMalloc 100) (new_arena [] 4096 256) (memory demo_malloc) r a' m'.
Proof.
  destruct (mspace_calls_refine demo_malloc 1 0 (CMalloc 100) demo_malloc_reachable eq_refl) as (a & r & a' & m' & Ha & He & _).
  exists r, a', m'. injection Ha as <-. exact He.
Defined.

Lemma mspace_calls_return_witness : exists r s', finish 4 1 demo_malloc = Done (r, s').
Proof.
  destruct (mspace_calls_return demo_malloc 1 demo_malloc_reachable) as [_ H].
  destruct (H _ eq_refl) as (r & s' & E & _). exists r, s'. exact E.
Defined.

Lemma MspaceCreate_correct_witness : exists r s', MspaceCreate 1 0 8192 256 0 9 demo_created = Done (Some r, s').
Proof.
  destruct (MspaceCreate_correct demo_created 1 0 8192 256 0 9 demo_created_reachable) as (r & s' & E & _); try (reflexivity || discriminate).
  - split; [discriminate|reflexivity].
  - split; [discriminate|reflexivity].
  - exists r, s'. exact E.
Defined.

Lemma mspace_destroyed_forever_witness : ResolveArena 7 demo_destroyed = None.
Proof. exact (proj1 (mspace_destroyed_forever demo_destroyed demo_destroyed 7 (mkEntry None (Some 0) 4096 256) (rtc_refl _ _) eq_refl eq_refl)). Defined.

Lemma MspaceMallocUsableSize_correct_witness : exists s1, ms_start 1 (OUsable 4096 [7]) demo_created = Done (None, s1).
Proof.
  destruct (MspaceMallocUsableSize_correct demo_created 1 4096 [7] demo_created_reachable) as (s1 & n & r & E & _); [reflexivity|discriminate|change ([7] ≡ₚ [7]); reflexivity|].
  exists s1. exact E.
Defined.

Lemma MspaceCalloc_zeroes_witness : exists s1, MspaceCalloc 1 7 4 8 demo_created = Done (None, s1).
Proof.
  destruct (MspaceCalloc_zeroes demo_created 1 7 0 (new_arena [] 4096 256) 4 8 demo_created_reachable) as (s1 & n & r & a' & s2 & E & _);
    [reflexivity|reflexivity|reflexivity|
     split; [discriminate|reflexivity]|split; [discriminate|reflexivity]|].
  exists s1. exact E.
Defined.
