(* ===== verification/BitArray.v ===== *)
(** * Arrays of bits ([common/bit_array.h])

    A [BitArray<N>] is the list of its [N / 64] words.  The vector instructions
    the code uses where the host has them skip or fill four words at a time; for
    the scans, where this changes which words are looked at, [avx] says whether
    they are there. *)

From S2P Require Import Prelude.

Abbreviation BitArray := (list Z).

Definition BITS_PER_WORD : Z := 64.

(** [~0ULL] and [~w]. *)
Definition ALL_ONES : Z := 18446744073709551615.
Definition wnot (w : Z) : Z := Z.lxor w ALL_ONES.

Definition Size (b : BitArray) : Z := BITS_PER_WORD * Z.of_nat (length b).

Definition word_index (i : Z) : nat := Z.to_nat (i / BITS_PER_WORD).

(** ** Single bits; an index past the end is undefined *)

Definition Set_ (idx : Z) (b : BitArray) : outcome BitArray :=
  let! w := of_option (b !! word_index idx) in
  Done (<[word_index idx := Z.lor w (Z.shiftl 1 (idx mod BITS_PER_WORD))]> b).

Definition Unset (idx : Z) (b : BitArray) : outcome BitArray :=
  let! w := of_option (b !! word_index idx) in
  Done (<[word_index idx := Z.land w (wnot (Z.shiftl 1 (idx mod BITS_PER_WORD)))]> b).

Definition Get (idx : Z) (b : BitArray) : outcome bool :=
  let! w := of_option (b !! word_index idx) in
  Done (negb (Z.land w (Z.shiftl 1 (idx mod BITS_PER_WORD)) =? 0)).

(** ** Ranges

    A range that is empty or passes the end is ignored; the words of the others
    exist. *)

Definition start_mask (start_bit : Z) : Z := wnot (Z.shiftl 1 start_bit - 1).
Definition end_mask (end_bit : Z) : Z := if end_bit =? BITS_PER_WORD - 1 then ALL_ONES else Z.shiftl 1 (end_bit + 1) - 1.

(** [for (; i < last_word; ++i) data[i] = v], [n] times. *)
Fixpoint fill_words (n i : nat) (v : Z) (b : BitArray) : BitArray :=
  match n with
  | O => b
  | S n => fill_words n (S i) v (<[i := v]> b)
  end.

Fixpoint copy_words (n i : nat) (other b : BitArray) : BitArray :=
  match n with
  | O => b
  | S n => copy_words n (S i) other (<[i := default 0 (other !! i)]> b)
  end.

Definition empty_range (start end_ : Z) (b : BitArray) : bool := (end_ <=? start) || (Size b <? end_).

(** The constructor that copies a range. *)
Definition CopyRange (other : BitArray) (start end_ : Z) : BitArray :=
  let data := replicate (length other) 0 in
  if empty_range start end_ other then data else
  let first_word := word_index start in
  let last_word := word_index (end_ - 1) in
  let start_bit := start mod BITS_PER_WORD in
  let end_bit := (end_ - 1) mod BITS_PER_WORD in
  let from i := default 0 (other !! i) in
  if Nat.eqb first_word last_word then <[first_word := Z.land (from first_word) (Z.land (start_mask start_bit) (end_mask end_bit))]> data
  else
    let data := <[first_word := Z.land (from first_word) (start_mask start_bit)]> data in
    let data := copy_words (last_word - S first_word) (S first_word) other data in
    <[last_word := Z.land (from last_word) (end_mask end_bit)]> data.

Definition SetRange (start end_ : Z) (data : BitArray) : BitArray :=
  if empty_range start end_ data then data else
  let first_word := word_index start in
  let last_word := word_index (end_ - 1) in
  let start_bit := start mod BITS_PER_WORD in
  let end_bit := (end_ - 1) mod BITS_PER_WORD in
  if Nat.eqb first_word last_word then alter (fun w => Z.lor w (Z.land (start_mask start_bit) (end_mask end_bit))) first_word data
  else
    let data := alter (fun w => Z.lor w (start_mask start_bit)) first_word data in
    let data := fill_words (last_word - S first_word) (S first_word) ALL_ONES data in
    alter (fun w => Z.lor w (end_mask end_bit)) last_word data.

Definition UnsetRange (start end_ : Z) (data : BitArray) : BitArray :=
  if empty_range start end_ data then data else
  let first_word := word_index start in
  let last_word := word_index (end_ - 1) in
  let start_bit := start mod BITS_PER_WORD in
  let end_bit := (end_ - 1) mod BITS_PER_WORD in
  let start_mask := Z.shiftl 1 start_bit - 1 in
  let end_mask := if end_bit =? BITS_PER_WORD - 1 then 0 else wnot (Z.shiftl 1 (end_bit + 1) - 1) in
  if Nat.eqb first_word last_word then alter (fun w => Z.land w (Z.lor start_mask end_mask)) first_word data
  else
    let data := alter (fun w => Z.land w start_mask) first_word data in
    let data := fill_words (last_word - S first_word) (S first_word) 0 data in
    alter (fun w => Z.land w end_mask) last_word data.

Definition Clear (b : BitArray) : BitArray := (fun _ => 0) <$> b.
Definition Fill (b : BitArray) : BitArray := (fun _ => ALL_ONES) <$> b.

Definition None_ (b : BitArray) : bool := foldl Z.lor 0 b =? 0.
Definition Any (b : BitArray) : bool := negb (None_ b).

(** ** Scans *)

(** [std::countr_zero] and its relatives on a word. *)
Fixpoint trailing_zeros (n : nat) (w : Z) : Z :=
  match n with
  | O => 0
  | S n => if Z.testbit w 0 then 0 else 1 + trailing_zeros n (Z.shiftr w 1)
  end.
Definition countr_zero (w : Z) : Z := trailing_zeros 64 w.
Definition countr_one (w : Z) : Z := countr_zero (wnot w).
Definition countl_zero (w : Z) : Z := if w =? 0 then BITS_PER_WORD else BITS_PER_WORD - 1 - Z.log2 w.
Definition countl_one (w : Z) : Z := countl_zero (wnot w).

(** The words are passed in the order of the scan, [word] moves by [step] each. *)
Fixpoint skip4 (p : Z -> bool) (step : Z) (l : list Z) (word : Z) : list Z * Z :=
  match l with
  | a :: b :: c :: d :: l' => if p a && p b && p c && p d then skip4 p step l' (word + 4 * step) else (l, word)
  | _ => (l, word)
  end.
Definition skip (avx : bool) (p : Z -> bool) (step : Z) (l : list Z) (word : Z) : list Z * Z :=
  if avx then skip4 p step l word else (l, word).

Definition Range : Type := Z * Z.

Fixpoint end_bit_from (n : Z) (l : list Z) (word : Z) : Z :=
  match l with
  | [] => n
  | w :: l => if negb (w =? ALL_ONES) then word * BITS_PER_WORD + countr_one w else end_bit_from n l (word + 1)
  end.

Definition find_end_bit (avx : bool) (n : Z) (l : list Z) (word : Z) : Z :=
  let '(l, word) := skip avx (fun w => w =? ALL_ONES) 1 l word in end_bit_from n l word.

(** [l] is the words after [index]. *)
Definition first_word_bits (avx : bool) (n index word : Z) (l : list Z) : Range :=
  let empty_bits := countr_zero word in
  let ones_count := countr_one (Z.shiftr word empty_bits) in
  let start_bit := index * BITS_PER_WORD + empty_bits in
  if ones_count + empty_bits <? BITS_PER_WORD then (start_bit, start_bit + ones_count)
  else (start_bit, find_end_bit avx n l (index + 1)).

Fixpoint first_range_in (avx : bool) (n : Z) (l : list Z) (word : Z) : Range :=
  match l with
  | [] => (n, n)
  | w :: l => if negb (w =? 0) then first_word_bits avx n word w l else first_range_in avx n l (word + 1)
  end.

Definition FirstRangeFrom (avx : bool) (start : Z) (b : BitArray) : Range :=
  let n := Size b in
  if n <=? start then (n, n) else
  let start_word := start / BITS_PER_WORD in
  let start_bit := start mod BITS_PER_WORD in
  let rest := drop (S (Z.to_nat start_word)) b in
  let masked_first := Z.land (default 0 (b !! Z.to_nat start_word)) (wnot (Z.shiftl 1 start_bit - 1)) in
  if negb (masked_first =? 0) then first_word_bits avx n start_word masked_first rest
  else
    let '(l, word) := skip avx (fun w => w =? 0) 1 rest (start_word + 1) in first_range_in avx n l word.

Definition FirstRange (avx : bool) (b : BitArray) : Range := FirstRangeFrom avx 0 b.

(** Backwards, [l] is the words below [word], the nearest first.  With vector
    instructions the scan for the start of a run compares with zeros. *)
Fixpoint start_bit_from (l : list Z) (word : Z) : Z :=
  match l with
  | [] => 0
  | w :: l => if negb (w =? ALL_ONES) then word * BITS_PER_WORD - countl_one w else start_bit_from l (word - 1)
  end.

Definition find_start_bit (avx : bool) (l : list Z) (word : Z) : Z :=
  let '(l, word) := skip avx (fun w => w =? 0) (-1) l word in start_bit_from l word.

Definition last_word_bits (avx : bool) (index word : Z) (l : list Z) : Range :=
  let empty_bits := countl_zero word in
  let ones_count := countl_one (u64 (Z.shiftl word empty_bits)) in
  let end_bit := index * BITS_PER_WORD - empty_bits in
  if empty_bits + ones_count <? BITS_PER_WORD then (end_bit - ones_count, end_bit)
  else (find_start_bit avx l (index - 1), end_bit).

Fixpoint last_range_in (avx : bool) (l : list Z) (word : Z) : Range :=
  match l with
  | [] => (0, 0)
  | w :: l => if negb (w =? 0) then last_word_bits avx word w l else last_range_in avx l (word - 1)
  end.

Definition LastRangeFrom (avx : bool) (end_ : Z) (b : BitArray) : Range :=
  if end_ =? 0 then (0, 0) else
  let end_ := if Size b <? end_ then Size b else end_ in
  let end_word := (end_ - 1) / BITS_PER_WORD + 1 in
  let end_bit := (end_ - 1) mod BITS_PER_WORD in
  let below := reverse (take (Z.to_nat (end_word - 1)) b) in
  let masked_last := default 0 (b !! Z.to_nat (end_word - 1)) in
  let masked_last := if end_bit <? BITS_PER_WORD - 1 then Z.land masked_last (Z.shiftl 1 (end_bit + 1) - 1) else masked_last in
  if negb (masked_last =? 0) then last_word_bits avx end_word masked_last below
  else
    let '(l, word) := skip avx (fun w => w =? 0) (-1) below (end_word - 1) in last_range_in avx l word.

Definition LastRange (avx : bool) (b : BitArray) : Range := LastRangeFrom avx (Size b) b.

(** Iteration from [begin()] to [end()], [fuel] ranges at most. *)
Fixpoint ranges_from (avx : bool) (fuel : nat) (r : Range) (b : BitArray) : outcome (list Range) :=
  if bool_decide (r = FirstRangeFrom avx (Size b) b) then Done [] else
  match fuel with
  | O => Raised OutOfFuel
  | S fuel => let! l := ranges_from avx fuel (FirstRangeFrom avx (snd r) b) b in Done (r :: l)
  end.
Definition ranges (avx : bool) (b : BitArray) : outcome (list Range) :=
  ranges_from avx (S (Z.to_nat (Size b))) (FirstRange avx b) b.

(** ** Operators *)

Definition bits_or (a b : BitArray) : BitArray := zip_with Z.lor a b.
Definition bits_and (a b : BitArray) : BitArray := zip_with Z.land a b.
Definition bits_xor (a b : BitArray) : BitArray := zip_with Z.lxor a b.
Definition bits_not (a : BitArray) : BitArray := wnot <$> a.
Definition bits_eq (a b : BitArray) : bool := foldl Z.lor 0 (zip_with Z.lxor a b) =? 0.
