(* ===== verification/BitFacts.v ===== *)
(** * Arrays of bits: the bit function they stand for

    [bit b i] is bit [i]; range operations change it on their range only, the
    scans find maximal runs, and the vector instructions change no forward scan. *)

From S2P Require Import Prelude BitArray.

Definition bit (b : BitArray) (i : Z) : bool := Z.testbit (default 0 (b !! word_index i)) (i mod BITS_PER_WORD).

Definition word_ok (w : Z) : Prop := 0 <= w < W64.
Definition bits_ok (b : BitArray) : Prop := Forall word_ok b.

(** ** Words *)

Lemma ALL_ONES_ones : ALL_ONES = Z.ones 64.
Proof. done. Qed.

Lemma testbit_ALL j : 0 <= j -> Z.testbit ALL_ONES j = (j <? 64).
Proof. intros. rewrite ALL_ONES_ones. by rewrite Z.testbit_ones_nonneg by lia. Qed.

Lemma testbit_high w j : word_ok w -> 64 <= j -> Z.testbit w j = false.
Proof.
  intros [H1 H2] Hj. destruct (decide (w = 0)) as [->|]; [by rewrite Z.bits_0|]. apply Z.bits_above_log2; [done|].
  assert (Z.log2 w < 64); [|lia]. apply Z.log2_lt_pow2; [lia|]. exact H2.
Qed.

Lemma word_ok_bits w : 0 <= w -> (forall j, 64 <= j -> Z.testbit w j = false) -> word_ok w.
Proof.
  intros Hw Hj. split; [done|]. destruct (decide (w = 0)) as [->|]; [done|]. change W64 with (2 ^ 64). apply Z.log2_lt_pow2; [lia|].
  destruct (Z.lt_ge_cases (Z.log2 w) 64) as [|Hge]; [done|]. pose proof (Z.bit_log2 w ltac:(lia)) as E. by rewrite (Hj _ Hge) in E.
Qed.

Lemma word_ext w v : word_ok w -> word_ok v -> (forall j, 0 <= j < 64 -> Z.testbit w j = Z.testbit v j) -> w = v.
Proof.
  intros Hw Hv E. apply Z.bits_inj'. intros j Hj. destruct (Z.lt_ge_cases j 64); [apply E; lia|]. by rewrite !testbit_high.
Qed.

Lemma word_zero w : word_ok w -> w <> 0 -> exists j, 0 <= j < 64 /\ Z.testbit w j = true.
Proof.
  intros Hw Hz. exists (Z.log2 w). destruct Hw. pose proof (Z.log2_nonneg w). rewrite Z.bit_log2 by lia. split; [|done]. split; [done|].
  apply Z.log2_lt_pow2; [lia|]. done.
Qed.

Lemma land_ok w v : word_ok w -> 0 <= v -> word_ok (Z.land w v).
Proof.
  intros Hw Hv. apply word_ok_bits; [apply Z.land_nonneg; left; apply Hw|]. intros j Hj. by rewrite Z.land_spec, testbit_high.
Qed.
Lemma lor_ok w v : word_ok w -> word_ok v -> word_ok (Z.lor w v).
Proof.
  intros Hw Hv. apply word_ok_bits; [apply Z.lor_nonneg; split; [apply Hw|apply Hv]|]. intros j Hj. by rewrite Z.lor_spec, !testbit_high.
Qed.
Lemma lxor_ok w v : word_ok w -> word_ok v -> word_ok (Z.lxor w v).
Proof.
  intros Hw Hv. apply word_ok_bits; [apply Z.lxor_nonneg; split; intros; [apply Hv|apply Hw]|]. intros j Hj. by rewrite Z.lxor_spec, !testbit_high.
Qed.
Lemma ALL_ok : word_ok ALL_ONES.
Proof. done. Qed.
Lemma wnot_ok w : word_ok w -> word_ok (wnot w).
Proof. intros. by apply lxor_ok. Qed.

Create HintDb bits.
#[export] Hint Resolve land_ok lor_ok lxor_ok ALL_ok wnot_ok : bits.

Lemma wnot_spec w j : 0 <= j < 64 -> Z.testbit (wnot w) j = negb (Z.testbit w j).
Proof. intros Hj. unfold wnot. rewrite Z.lxor_spec, testbit_ALL by lia. rewrite (proj2 (Z.ltb_lt _ _)) by lia. by destruct (Z.testbit w j). Qed.

Lemma low_mask s j : 0 <= s -> 0 <= j -> Z.testbit (Z.shiftl 1 s - 1) j = (j <? s).
Proof.
  intros Hs Hj. rewrite Z.shiftl_1_l. replace (2 ^ s - 1) with (Z.ones s) by (rewrite Z.ones_equiv; lia). by rewrite Z.testbit_ones_nonneg.
Qed.

Lemma low_mask_ok s : 0 <= s < 64 -> word_ok (Z.shiftl 1 s - 1).
Proof.
  intros Hs. apply word_ok_bits; [rewrite Z.shiftl_1_l; pose proof (Z.pow_pos_nonneg 2 s); lia|]. intros j Hj. rewrite low_mask by lia. split_cmp; lia.
Qed.

Lemma start_mask_spec s j : 0 <= s < 64 -> 0 <= j < 64 -> Z.testbit (start_mask s) j = (s <=? j).
Proof. intros. unfold start_mask. rewrite wnot_spec, low_mask by lia. split_cmp; lia. Qed.

Lemma end_mask_spec e j : 0 <= e < 64 -> 0 <= j < 64 -> Z.testbit (end_mask e) j = (j <=? e).
Proof.
  intros. unfold end_mask, BITS_PER_WORD. destruct (Z.eqb_spec e (64 - 1)); [rewrite testbit_ALL by lia; split_cmp; lia|].
  rewrite low_mask by lia. split_cmp; lia.
Qed.

Lemma start_mask_ok s : 0 <= s < 64 -> word_ok (start_mask s).
Proof. intros. by apply wnot_ok, low_mask_ok. Qed.
Lemma end_mask_ok e : 0 <= e < 64 -> word_ok (end_mask e).
Proof. intros. unfold end_mask, BITS_PER_WORD. destruct (Z.eqb_spec e (64 - 1)); [done|]. apply low_mask_ok. lia. Qed.

(** ** Positions *)

Lemma pos_split i : 0 <= i -> i = 64 * (i / 64) + i mod 64 /\ 0 <= i mod 64 < 64 /\ 0 <= i / 64.
Proof. intros. pose proof (Z.div_mod i 64). pose proof (Z.mod_pos_bound i 64). pose proof (Z.div_pos i 64). lia. Qed.

Lemma word_index_Z i : 0 <= i -> Z.of_nat (word_index i) = i / 64.
Proof. intros. unfold word_index, BITS_PER_WORD. rewrite Z2Nat.id; [done|]. apply Z.div_pos; lia. Qed.

Lemma word_index_lt i b : 0 <= i < Size b -> (word_index i < length b)%nat.
Proof. intros H. unfold Size, BITS_PER_WORD in H. pose proof (word_index_Z i). pose proof (pos_split i). lia. Qed.

Lemma bits_lookup b i : 0 <= i < Size b -> bits_ok b -> exists w, b !! word_index i = Some w /\ word_ok w.
Proof.
  intros Hi Hb. destruct (lookup_lt_is_Some_2 b (word_index i)) as [w E]; [by apply word_index_lt|]. exists w. split; [done|].
  by eapply Forall_lookup_1.
Qed.

Lemma bit_lookup b k w j : b !! Z.to_nat k = Some w -> 0 <= k -> 0 <= j < 64 -> bit b (64 * k + j) = Z.testbit w j.
Proof.
  intros E Hk Hj. unfold bit, word_index, BITS_PER_WORD. replace ((64 * k + j) / 64) with k by (apply Z.div_unique with j; lia).
  replace ((64 * k + j) mod 64) with j by (apply Z.mod_unique with k; lia). by rewrite E.
Qed.

(** Arrays with the same bits are equal. *)
Lemma bits_ext a b : bits_ok a -> bits_ok b -> length a = length b -> (forall i, 0 <= i < Size a -> bit a i = bit b i) -> a = b.
Proof.
  intros Ha Hb Hl E. apply (list_eq_same_length a b (length a)); [done|done|]. intros k w v Hk Ew Ev.
  apply word_ext; [exact (Forall_lookup_1 _ _ _ _ Ha Ew)|exact (Forall_lookup_1 _ _ _ _ Hb Ev)|]. intros j Hj.
  rewrite <- (bit_lookup a (Z.of_nat k) w j), <- (bit_lookup b (Z.of_nat k) v j) by (rewrite ?Nat2Z.id; auto; lia).
  apply E. unfold Size, BITS_PER_WORD. lia.
Qed.

(** ** Range operations *)

Lemma fill_lookup n i v b k : (i + n <= length b)%nat ->
  fill_words n i v b !! k = if decide (i <= k < i + n)%nat then Some v else b !! k.
Proof.
  revert i b; induction n as [|n IH]; intros i b Hn; cbn; [destruct (decide _); [lia|done]|].
  rewrite IH by (rewrite length_insert; lia). destruct (decide (S i <= k < S i + n)%nat), (decide (i <= k < i + S n)%nat); try lia; [done|..].
  - assert (k = i) as -> by lia. rewrite list_lookup_insert_eq by lia. done.
  - rewrite list_lookup_insert_ne by lia. done.
Qed.

Lemma fill_length n i v b : length (fill_words n i v b) = length b.
Proof. revert i b; induction n as [|n IH]; intros; cbn; [done|]. rewrite IH. apply length_insert. Qed.

Lemma copy_lookup n i o b k : (i + n <= length b)%nat ->
  copy_words n i o b !! k = if decide (i <= k < i + n)%nat then Some (default 0 (o !! k)) else b !! k.
Proof.
  revert i b; induction n as [|n IH]; intros i b Hn; cbn; [destruct (decide _); [lia|done]|].
  rewrite IH by (rewrite length_insert; lia). destruct (decide (S i <= k < S i + n)%nat), (decide (i <= k < i + S n)%nat); try lia; [done|..].
  - assert (k = i) as -> by lia. rewrite list_lookup_insert_eq by lia. done.
  - rewrite list_lookup_insert_ne by lia. done.
Qed.

Lemma copy_length n i o b : length (copy_words n i o b) = length b.
Proof. revert i b; induction n as [|n IH]; intros; cbn; [done|]. rewrite IH. apply length_insert. Qed.

Lemma SetRange_length s e b : length (SetRange s e b) = length b.
Proof. unfold SetRange. destruct (empty_range s e b); [done|]. destruct (Nat.eqb _ _); by rewrite !length_alter, ?fill_length, ?length_alter. Qed.

Lemma UnsetRange_length s e b : length (UnsetRange s e b) = length b.
Proof. unfold UnsetRange. destruct (empty_range s e b); [done|]. destruct (Nat.eqb _ _); by rewrite !length_alter, ?fill_length, ?length_alter. Qed.

Lemma CopyRange_length o s e : length (CopyRange o s e) = length o.
Proof.
  unfold CopyRange. destruct (empty_range s e o); [apply length_replicate|].
  destruct (Nat.eqb _ _); by rewrite !length_insert, ?copy_length, ?length_insert, length_replicate.
Qed.

(** The word at [k] of a range: the mask is that of the range within the word. *)
Definition in_range (s e i : Z) : bool := (s <=? i) && (i <? e).

Section range.
Context (s e : Z) (b : BitArray).
Hypothesis (Hs : 0 <= s) (Hse : s < e) (He : e <= Size b).

Lemma range_words : (word_index s <= word_index (e - 1) < length b)%nat.
Proof.
  split; [|apply word_index_lt; lia]. pose proof (word_index_Z s). pose proof (word_index_Z (e - 1)).
  pose proof (Z.div_le_mono s (e - 1) 64). lia.
Qed.

(** Which bits of a word are in the range. *)
Lemma range_bits i : 0 <= i -> in_range s e i =
  (if decide (word_index s = word_index (e - 1)) then bool_decide (word_index i = word_index s) && (s mod 64 <=? i mod 64) && (i mod 64 <=? (e - 1) mod 64)
   else if decide (word_index i = word_index s) then s mod 64 <=? i mod 64
   else if decide (word_index i = word_index (e - 1)) then i mod 64 <=? (e - 1) mod 64
   else bool_decide (word_index s < word_index i < word_index (e - 1))%nat).
Proof.
  intros Hi. unfold in_range. pose proof (word_index_Z s). pose proof (word_index_Z (e - 1)). pose proof (word_index_Z i).
  pose proof (pos_split s). pose proof (pos_split (e - 1)). pose proof (pos_split i).
  destruct (decide (word_index s = word_index (e - 1))); [|destruct (decide (word_index i = word_index s)); [|destruct (decide (word_index i = word_index (e - 1)))]];
    try case_bool_decide; split_cmp; lia.
Qed.
End range.

Lemma empty_range_spec s e b : empty_range s e b = false <-> s < e /\ e <= Size b.
Proof. unfold empty_range. rewrite orb_false_iff, Z.leb_gt, Z.ltb_ge. done. Qed.

(** Evaluation of a word of the result, then of a bit of that word. *)
Ltac word_cases :=
  repeat first
    [ rewrite list_lookup_alter | rewrite list_lookup_insert
    | rewrite fill_lookup by (rewrite ?length_alter; lia)
    | rewrite copy_lookup by (rewrite ?length_insert, ?length_replicate; lia)
    | rewrite length_insert | rewrite copy_length | rewrite length_replicate
    | case_decide; try lia
    | case_bool_decide; try lia ];
  subst.

Ltac mask_bits :=
  cbn [fmap option_fmap option_map default from_option id negb andb orb];
  rewrite ?Z.lor_spec, ?Z.land_spec, ?Z.lor_spec, ?start_mask_spec, ?end_mask_spec, ?testbit_ALL, ?Z.bits_0 by lia.

Ltac all_bools :=
  repeat match goal with |- context [?x <=? ?y] => destruct (x <=? y) end;
  repeat match goal with |- context [Z.testbit ?x ?y] => destruct (Z.testbit x y) end; done.

Lemma upper_mask_spec e j : 0 <= e < 64 -> 0 <= j < 64 ->
  Z.testbit (if e =? 64 - 1 then 0 else wnot (Z.shiftl 1 (e + 1) - 1)) j = negb (j <=? e).
Proof.
  intros. destruct (Z.eqb_spec e (64 - 1)); [rewrite Z.bits_0; split_cmp; lia|]. rewrite wnot_spec, low_mask by lia. split_cmp; lia.
Qed.

Lemma lower_mask_spec s j : 0 <= s -> 0 <= j -> Z.testbit (Z.shiftl 1 s - 1) j = negb (s <=? j).
Proof. intros. rewrite low_mask by lia. split_cmp; lia. Qed.

Section ranges.
Context (s e : Z) (b : BitArray) (i : Z).
Hypothesis (Hb : bits_ok b) (Hs : 0 <= s) (Hi : 0 <= i < Size b).

Lemma SetRange_bit : bit (SetRange s e b) i = negb (empty_range s e b) && in_range s e i || bit b i.
Proof.
  unfold SetRange. destruct (empty_range s e b) eqn:E; [done|]. apply empty_range_spec in E as [Hse He].
  pose proof (range_words s e b Hs Hse He) as Hfl. pose proof (pos_split s). pose proof (pos_split (e - 1)). pose proof (pos_split i).
  destruct (bits_lookup b i Hi Hb) as (w & Hw & Hwo). rewrite (range_bits s e Hs Hse i) by lia.
  unfold bit, BITS_PER_WORD. revert Hw Hfl. generalize (word_index s) (word_index (e - 1)) (word_index i). intros fw lw k Hw Hfl.
  destruct (Nat.eqb_spec fw lw) as [Ew|Ew]; word_cases; rewrite ?Hw; mask_bits; try done; try apply orb_comm. apply Z.ltb_lt. lia.
Qed.

Lemma UnsetRange_bit : bit (UnsetRange s e b) i = negb (negb (empty_range s e b) && in_range s e i) && bit b i.
Proof.
  unfold UnsetRange. destruct (empty_range s e b) eqn:E; [done|]. apply empty_range_spec in E as [Hse He].
  pose proof (range_words s e b Hs Hse He) as Hfl. pose proof (pos_split s). pose proof (pos_split (e - 1)). pose proof (pos_split i).
  destruct (bits_lookup b i Hi Hb) as (w & Hw & Hwo). rewrite (range_bits s e Hs Hse i) by lia.
  unfold bit, BITS_PER_WORD. revert Hw Hfl. generalize (word_index s) (word_index (e - 1)) (word_index i). intros fw lw k Hw Hfl.
  destruct (Nat.eqb_spec fw lw) as [Ew|Ew]; word_cases; rewrite ?Hw; mask_bits; rewrite ?lower_mask_spec, ?upper_mask_spec by lia;
    all_bools.
Qed.

Lemma CopyRange_bit : bit (CopyRange b s e) i = negb (empty_range s e b) && in_range s e i && bit b i.
Proof.
  unfold CopyRange. pose proof (word_index_lt i b Hi) as Hil. destruct (empty_range s e b) eqn:E.
  { unfold bit. rewrite lookup_replicate_2 by done. cbn. by rewrite Z.bits_0. }
  apply empty_range_spec in E as [Hse He].
  pose proof (range_words s e b Hs Hse He) as Hfl. pose proof (pos_split s). pose proof (pos_split (e - 1)). pose proof (pos_split i).
  destruct (bits_lookup b i Hi Hb) as (w & Hw & Hwo). rewrite (range_bits s e Hs Hse i) by lia.
  unfold bit, BITS_PER_WORD. revert Hw Hfl Hil. generalize (word_index s) (word_index (e - 1)) (word_index i). intros fw lw k Hw Hfl Hil.
  destruct (Nat.eqb_spec fw lw) as [Ew|Ew]; word_cases; rewrite ?Hw, ?lookup_replicate_2 by lia; mask_bits;
    all_bools.
Qed.
End ranges.

(** ** Well-formedness *)

Lemma fill_ok n i v b : word_ok v -> bits_ok b -> bits_ok (fill_words n i v b).
Proof. intros Hv. revert i b; induction n as [|n IH]; intros i b Hb; cbn; [done|]. apply IH, Forall_insert; done. Qed.

Lemma copy_ok n i o b : bits_ok o -> bits_ok b -> bits_ok (copy_words n i o b).
Proof.
  intros Ho. revert i b; induction n as [|n IH]; intros i b Hb; cbn; [done|]. apply IH, Forall_insert; [done|].
  destruct (o !! i) eqn:E; cbn; [exact (Forall_lookup_1 _ _ _ _ Ho E)|done].
Qed.

Lemma Forall_alter_ok f i b : (forall w, word_ok w -> word_ok (f w)) -> bits_ok b -> bits_ok (alter f i b).
Proof. intros Hf Hb. apply Forall_alter; [done|]. auto. Qed.

Lemma mod64 i : 0 <= i mod BITS_PER_WORD < 64.
Proof. by apply Z.mod_pos_bound. Qed.

#[export] Hint Resolve start_mask_ok end_mask_ok mod64 : bits.

Lemma SetRange_ok s e b : bits_ok b -> bits_ok (SetRange s e b).
Proof.
  intros Hb. unfold SetRange. destruct (empty_range s e b); [done|].
  destruct (Nat.eqb _ _); repeat (apply Forall_alter_ok || apply fill_ok); intros; auto 6 with bits.
  apply lor_ok; [done|]. apply land_ok; [apply start_mask_ok, mod64|]. apply (end_mask_ok _ (mod64 (e - 1))).
Qed.

Lemma low_mask_nonneg s : 0 <= s -> 0 <= Z.shiftl 1 s - 1.
Proof. intros. rewrite Z.shiftl_1_l. pose proof (Z.pow_pos_nonneg 2 s). lia. Qed.

Lemma upper_mask_nonneg e : 0 <= e < 64 -> 0 <= (if e =? BITS_PER_WORD - 1 then 0 else wnot (Z.shiftl 1 (e + 1) - 1)).
Proof.
  intros. unfold BITS_PER_WORD. destruct (Z.eqb_spec e (64 - 1)); [done|]. apply wnot_ok, low_mask_ok. lia.
Qed.

Lemma UnsetRange_ok s e b : bits_ok b -> bits_ok (UnsetRange s e b).
Proof.
  intros Hb. unfold UnsetRange. destruct (empty_range s e b); [done|].
  pose proof (low_mask_nonneg (s mod BITS_PER_WORD) ltac:(apply mod64)). pose proof (upper_mask_nonneg ((e - 1) mod BITS_PER_WORD) ltac:(apply mod64)).
  destruct (Nat.eqb _ _); repeat (apply Forall_alter_ok || apply fill_ok); intros; auto with bits; [|done].
  apply land_ok; [done|]. apply Z.lor_nonneg. done.
Qed.

Lemma zeros_ok n : bits_ok (replicate n 0).
Proof. by apply Forall_replicate. Qed.

Lemma default_ok_word o i : bits_ok o -> word_ok (default 0 (o !! i)).
Proof. intros Ho. destruct (o !! i) eqn:E; cbn; [exact (Forall_lookup_1 _ _ _ _ Ho E)|done]. Qed.

Lemma CopyRange_ok o s e : bits_ok o -> bits_ok (CopyRange o s e).
Proof.
  intros Ho. unfold CopyRange. destruct (empty_range s e o); [apply zeros_ok|].
  pose proof (start_mask_ok _ (mod64 s)). pose proof (end_mask_ok _ (mod64 (e - 1))).
  destruct (Nat.eqb _ _).
  - apply Forall_insert; [apply zeros_ok|]. apply land_ok; [by apply default_ok_word|]. exact (proj1 (land_ok _ _ H (proj1 H0))).
  - apply Forall_insert; [apply copy_ok; [done|]; apply Forall_insert; [apply zeros_ok|]|]; (apply land_ok; [by apply default_ok_word|]); [apply H|apply H0].
Qed.

(** ** Single bits, operators and emptiness *)

Lemma Get_spec b i : bits_ok b -> 0 <= i < Size b -> Get i b = Done (bit b i).
Proof.
  intros Hb Hi. destruct (bits_lookup b i Hi Hb) as (w & Hw & Hwo). unfold Get, bit. rewrite Hw. cbn. f_equal.
  pose proof (mod64 i) as Hm. set (j := i mod BITS_PER_WORD) in *.
  assert (Hj : forall k, 0 <= k -> Z.testbit (Z.land w (Z.shiftl 1 j)) k = Z.testbit w k && (k =? j)).
  { intros k Hk. rewrite Z.land_spec, Z.shiftl_1_l, Z.pow2_bits_eqb by lia. by rewrite Z.eqb_sym. }
  destruct (Z.testbit w j) eqn:E.
  - apply negb_true_iff, Z.eqb_neq. intros E0. specialize (Hj j ltac:(lia)). by rewrite E0, Z.bits_0, E, Z.eqb_refl in Hj.
  - apply negb_false_iff, Z.eqb_eq. apply Z.bits_inj'. intros k Hk. rewrite Z.bits_0, Hj by done. destruct (Z.eqb_spec k j) as [->|]; [by rewrite E|]. apply andb_false_r.
Qed.

Lemma bit_zip f g a b i : (forall x y j, Z.testbit (f x y) j = g (Z.testbit x j) (Z.testbit y j)) -> length a = length b -> 0 <= i < Size a ->
  bit (zip_with f a b) i = g (bit a i) (bit b i).
Proof.
  intros Hf Hl Hi. pose proof (word_index_lt i a Hi). unfold bit. rewrite lookup_zip_with.
  destruct (lookup_lt_is_Some_2 a (word_index i)) as [x Ex]; [done|]. destruct (lookup_lt_is_Some_2 b (word_index i)) as [y Ey]; [lia|].
  rewrite Ex, Ey. cbn. apply Hf.
Qed.

Lemma bits_xor_bit a b i : length a = length b -> 0 <= i < Size a -> bit (bits_xor a b) i = xorb (bit a i) (bit b i).
Proof. apply bit_zip. intros. apply Z.lxor_spec. Qed.

Lemma bits_not_bit a i : 0 <= i < Size a -> bit (bits_not a) i = negb (bit a i).
Proof.
  intros Hi. pose proof (word_index_lt i a Hi). unfold bit, bits_not. rewrite list_lookup_fmap.
  destruct (lookup_lt_is_Some_2 a (word_index i)) as [x Ex]; [done|]. rewrite Ex. cbn. apply wnot_spec. apply mod64.
Qed.

Lemma foldl_lor_zero w b : foldl Z.lor w b = 0 <-> w = 0 /\ Forall (fun x => x = 0) b.
Proof.
  revert w; induction b as [|x b IH]; intros w; cbn; [split; [intros ->; by split|by intros [-> _]]|].
  rewrite IH, Forall_cons, Z.lor_eq_0_iff. tauto.
Qed.

Lemma None_spec b : bits_ok b -> None_ b = true <-> forall i, 0 <= i < Size b -> bit b i = false.
Proof.
  intros Hb. unfold None_. rewrite Z.eqb_eq, foldl_lor_zero. split.
  - intros [_ H] i Hi. destruct (bits_lookup b i Hi Hb) as (w & Hw & _). unfold bit. rewrite Hw. cbn.
    rewrite (Forall_lookup_1 _ _ _ _ H Hw). apply Z.bits_0.
  - intros H. split; [done|]. apply Forall_lookup_2. intros k w Hk. destruct (decide (w = 0)) as [|Hne]; [done|]. exfalso.
    destruct (word_zero w (Forall_lookup_1 _ _ _ _ Hb Hk) Hne) as (j & Hj & Ej).
    pose proof (lookup_lt_Some _ _ _ Hk). rewrite <- (bit_lookup b (Z.of_nat k) w j) in Ej by (rewrite ?Nat2Z.id; auto; lia).
    rewrite H in Ej; [done|]. unfold Size, BITS_PER_WORD. lia.
Qed.

Lemma zip_ok f a b : (forall x y, word_ok x -> word_ok y -> word_ok (f x y)) -> bits_ok a -> bits_ok b -> bits_ok (zip_with f a b).
Proof.
  intros Hf Ha. revert b; induction Ha as [|x a Hx Ha IH]; intros b Hb; [constructor|]. destruct Hb as [|y b Hy Hb]; [constructor|].
  cbn. constructor; [auto|by apply IH].
Qed.

Lemma bits_xor_ok a b : bits_ok a -> bits_ok b -> bits_ok (bits_xor a b).
Proof. apply zip_ok. auto with bits. Qed.

Lemma bits_not_ok a : bits_ok a -> bits_ok (bits_not a).
Proof. intros Ha. apply Forall_fmap. eapply Forall_impl; [exact Ha|]. intros. by apply wnot_ok. Qed.

Lemma bits_xor_length a b : length a = length b -> length (bits_xor a b) = length a.
Proof. intros E. unfold bits_xor. rewrite length_zip_with. lia. Qed.

Lemma Fill_bit b i : 0 <= i < Size b -> bit (Fill b) i = true.
Proof.
  intros Hi. pose proof (word_index_lt i b Hi). unfold bit, Fill. rewrite list_lookup_fmap.
  destruct (lookup_lt_is_Some_2 b (word_index i)) as [x Ex]; [done|]. rewrite Ex. cbn. rewrite testbit_ALL by apply mod64. apply Z.ltb_lt, mod64.
Qed.

Lemma Clear_bit b i : bit (Clear b) i = false.
Proof. unfold bit, Clear. rewrite list_lookup_fmap. destruct (b !! word_index i); cbn; apply Z.bits_0. Qed.

(** ** The scans find maximal runs

    [FirstRangeFrom] returns the first maximal run of set bits at or after a
    place, [LastRangeFrom] the last one that begins before it, and iteration all
    runs in order.  Forward scans do not depend on the vector instructions. *)

(** ** Counting bits *)

Lemma trailing_zeros_spec n w : let c := trailing_zeros n w in
  0 <= c <= Z.of_nat n /\ (forall j, 0 <= j < c -> Z.testbit w j = false) /\ (c < Z.of_nat n -> Z.testbit w c = true).
Proof.
  revert w; induction n as [|n IH]; intros w; cbn -[Z.of_nat Z.testbit]; [split; [lia|]; split; lia|].
  destruct (Z.testbit w 0) eqn:E; [split; [lia|]; split; [lia|done]|]. destruct (IH (Z.shiftr w 1)) as (H1 & H2 & H3). split; [lia|]. split.
  - intros j Hj. destruct (decide (j = 0)) as [->|]; [done|]. specialize (H2 (j - 1) ltac:(lia)). rewrite Z.shiftr_spec in H2 by lia.
    by replace (j - 1 + 1) with j in H2 by lia.
  - intros Hc. specialize (H3 ltac:(lia)). rewrite Z.shiftr_spec in H3 by lia. by rewrite Z.add_comm.
Qed.

Lemma countr_zero_spec w : let c := countr_zero w in
  0 <= c <= 64 /\ (forall j, 0 <= j < c -> Z.testbit w j = false) /\ (c < 64 -> Z.testbit w c = true).
Proof. apply (trailing_zeros_spec 64). Qed.

Lemma countr_one_spec w : let c := countr_one w in
  0 <= c <= 64 /\ (forall j, 0 <= j < c -> Z.testbit w j = true) /\ (c < 64 -> Z.testbit w c = false).
Proof.
  destruct (countr_zero_spec (wnot w)) as (H1 & H2 & H3). unfold countr_one. set (c := countr_zero (wnot w)) in *. split; [done|]. split.
  - intros j Hj. specialize (H2 j Hj). rewrite wnot_spec in H2 by lia. by apply negb_false_iff.
  - intros Hc. specialize (H3 Hc). rewrite wnot_spec in H3 by lia. by apply negb_true_iff.
Qed.

Lemma countl_zero_spec w : word_ok w -> let c := countl_zero w in
  0 <= c <= 64 /\ (forall j, 64 - c <= j < 64 -> Z.testbit w j = false) /\ (c < 64 -> Z.testbit w (63 - c) = true).
Proof.
  intros Hw. unfold countl_zero, BITS_PER_WORD. destruct (Z.eqb_spec w 0) as [->|Hz].
  { split; [lia|]. split; [intros; apply Z.bits_0|lia]. }
  pose proof (Z.log2_nonneg w). destruct Hw as [Hw1 Hw2]. assert (Z.log2 w < 64) by (apply Z.log2_lt_pow2; [lia|done]). split; [lia|]. split.
  - intros j Hj. apply Z.bits_above_log2; lia.
  - intros _. replace (63 - (64 - 1 - Z.log2 w)) with (Z.log2 w) by lia. apply Z.bit_log2. lia.
Qed.

Lemma countl_one_spec w : word_ok w -> let c := countl_one w in
  0 <= c <= 64 /\ (forall j, 64 - c <= j < 64 -> Z.testbit w j = true) /\ (c < 64 -> Z.testbit w (63 - c) = false).
Proof.
  intros Hw. destruct (countl_zero_spec (wnot w) (wnot_ok _ Hw)) as (H1 & H2 & H3). unfold countl_one. set (c := countl_zero (wnot w)) in *. split; [done|]. split.
  - intros j Hj. specialize (H2 j Hj). rewrite wnot_spec in H2 by lia. by apply negb_false_iff.
  - intros Hc. specialize (H3 Hc). rewrite wnot_spec in H3 by lia. by apply negb_true_iff.
Qed.

(** ** Forward *)

Definition is_run (b : BitArray) (s e : Z) : Prop := s < e /\ forall i, s <= i < e -> bit b i = true.

Definition none_in (b : BitArray) (s e : Z) : Prop := forall i, s <= i < e -> bit b i = false.

Definition first_run (b : BitArray) (start : Z) (r : Range) : Prop :=
  (r = (Size b, Size b) /\ none_in b start (Size b))
  \/ (start <= r.1 /\ none_in b start r.1 /\ is_run b r.1 r.2 /\ r.2 <= Size b /\ (r.2 = Size b \/ bit b r.2 = false)).

(** [l] is the words from [word] on. *)
Definition rest_at (b l : list Z) (word : Z) : Prop := 0 <= word /\ drop (Z.to_nat word) b = l /\ word + Z.of_nat (length l) = Z.of_nat (length b).

Lemma rest_cons b w l word : rest_at b (w :: l) word -> b !! Z.to_nat word = Some w /\ rest_at b l (word + 1).
Proof.
  intros (H1 & H2 & H3). cbn in H3. assert (E : b !! Z.to_nat word = Some w).
  { rewrite <- (Nat.add_0_r (Z.to_nat word)), <- lookup_drop, H2. done. }
  split; [done|]. split; [lia|]. split; [|lia]. replace (Z.to_nat (word + 1)) with (S (Z.to_nat word)) by lia.
  apply (drop_S _ _ _) in E. congruence.
Qed.

Section forward.
Context (b : BitArray).
Hypothesis (Hb : bits_ok b).

Lemma word_bit w word i : b !! Z.to_nat word = Some w -> 0 <= word -> 64 * word <= i < 64 * word + 64 -> bit b i = Z.testbit w (i - 64 * word).
Proof. intros E Hw Hi. replace i with (64 * word + (i - 64 * word)) at 1 by lia. apply bit_lookup; [done|lia|lia]. Qed.

Lemma skip_rest avx p l word : rest_at b l word -> let '(l', word') := skip avx p 1 l word in
  rest_at b l' word' /\ word <= word' /\ forall k w, word <= k < word' -> b !! Z.to_nat k = Some w -> p w = true.
Proof.
  destruct avx; cbn; [|intros; split; [done|]; split; [lia|intros; lia]].
  revert l word. fix IH 1. intros l word H. destruct l as [|w0 [|w1 [|w2 [|w3 l]]]]; cbn; try (split; [done|]; split; [lia|intros; lia]).
  destruct (p w0 && p w1 && p w2 && p w3) eqn:E; [|split; [done|]; split; [lia|intros; lia]]. bool_prop.
  apply rest_cons in H as [E0 H]. apply rest_cons in H as [E1 H]. apply rest_cons in H as [E2 H]. apply rest_cons in H as [E3 H].
  replace (word + 1 + 1 + 1 + 1) with (word + 4 * 1) in H by lia. specialize (IH l (word + 4 * 1) H). destruct (skip4 p 1 l (word + 4 * 1)) as [l' word'].
  destruct IH as (Hr & Hle & Hp). split; [done|]. split; [lia|]. intros k w Hk Ek. destruct (Z.lt_ge_cases k (word + 4)); [|apply (Hp k); [lia|done]].
  assert (k = word \/ k = word + 1 \/ k = word + 1 + 1 \/ k = word + 1 + 1 + 1) as [->|[->|[->| ->]]] by lia; congruence.
Qed.

Lemma not_full w : word_ok w -> w <> ALL_ONES -> countr_one w < 64.
Proof.
  intros Hw Hne. destruct (countr_one_spec w) as (H1 & H2 & _). destruct (Z.lt_ge_cases (countr_one w) 64); [done|]. destruct Hne.
  apply word_ext; [done|done|]. intros j Hj. rewrite H2, testbit_ALL by lia. symmetry. apply Z.ltb_lt. lia.
Qed.

Lemma end_bit_from_spec l word : rest_at b l word -> let e := end_bit_from (Size b) l word in
  64 * word <= e <= Size b /\ (forall i, 64 * word <= i < e -> bit b i = true) /\ (e = Size b \/ bit b e = false).
Proof.
  revert word. induction l as [|w l IH]; intros word H; cbn [end_bit_from].
  { destruct H as (? & _ & E). unfold Size, BITS_PER_WORD in *. cbn in E. split; [lia|]. split; [intros; lia|by left]. }
  pose proof (proj1 H) as Hw0. apply rest_cons in H as [E H]. destruct (IH _ H) as (H1 & H2 & H3). pose proof (Forall_lookup_1 _ _ _ _ Hb E) as Hw.
  pose proof (lookup_lt_Some _ _ _ E) as Hlt. destruct (Z.eqb_spec w ALL_ONES) as [->|Hne]; cbn [negb].
  - split; [lia|]. split; [|done]. intros i Hi. destruct (Z.lt_ge_cases i (64 * word + 64)); [|apply H2; lia].
    rewrite (word_bit _ _ _ E) by lia. rewrite testbit_ALL by lia. apply Z.ltb_lt. lia.
  - pose proof (not_full w Hw Hne). destruct (countr_one_spec w) as (C1 & C2 & C3). unfold Size, BITS_PER_WORD. split; [lia|]. split.
    + intros i Hi. rewrite (word_bit _ _ _ E) by lia. apply C2. lia.
    + right. rewrite (word_bit _ _ _ E) by lia. replace (word * 64 + countr_one w - 64 * word) with (countr_one w) by lia. auto.
Qed.

Lemma find_end_bit_spec avx l word : rest_at b l word -> let e := find_end_bit avx (Size b) l word in
  64 * word <= e <= Size b /\ (forall i, 64 * word <= i < e -> bit b i = true) /\ (e = Size b \/ bit b e = false).
Proof.
  intros H. unfold find_end_bit. pose proof (skip_rest avx (fun w => w =? ALL_ONES) l word H) as Hs. pose proof (proj1 H).
  destruct (skip avx (fun w => w =? ALL_ONES) 1 l word) as [l' word']. destruct Hs as (Hr & Hle & Hp).
  destruct (end_bit_from_spec l' word' Hr) as (H1 & H2 & H3). split; [lia|]. split; [|done]. intros i Hi.
  destruct (Z.lt_ge_cases i (64 * word')); [|apply H2; lia]. pose proof (pos_split i ltac:(lia)) as Hi'.
  destruct (bits_lookup b i) as (w & Ew & _); [lia|done|]. unfold word_index, BITS_PER_WORD in Ew.
  pose proof (Hp (i / 64) w ltac:(lia) Ew) as E%Z.eqb_eq. subst w.
  rewrite (word_bit _ _ _ Ew) by lia. rewrite testbit_ALL by lia. apply Z.ltb_lt. lia.
Qed.

(** [w] is the word at [index] without the bits before [start]. *)
Lemma first_word_bits_spec avx index w l start : rest_at b l (index + 1) -> 0 <= index -> 64 * index <= start < 64 * index + 64 -> word_ok w -> w <> 0 ->
  (forall i, 64 * index <= i < 64 * index + 64 -> Z.testbit w (i - 64 * index) = (start <=? i) && bit b i) ->
  first_run b start (first_word_bits avx (Size b) index w l).
Proof.
  intros Hr Hi Hs Hw Hz Hbits. right. unfold first_word_bits, BITS_PER_WORD.
  destruct (countr_zero_spec w) as (Z1 & Z2 & Z3). set (c := countr_zero w) in *.
  assert (Hc : c < 64).
  { destruct (Z.lt_ge_cases c 64); [done|]. destruct (word_zero w Hw Hz) as (j & Hj & Ej). by rewrite Z2 in Ej by lia. }
  specialize (Z3 Hc). pose proof (Hbits (64 * index + c) ltac:(lia)) as Hat. replace (64 * index + c - 64 * index) with c in Hat by lia.
  rewrite Z3 in Hat. symmetry in Hat. apply andb_true_iff in Hat as [Hst%Z.leb_le Hat].
  assert (Hnone : forall i, start <= i < index * 64 + c -> bit b i = false).
  { intros i Hi'. specialize (Hbits i ltac:(lia)). rewrite Z2 in Hbits by lia. rewrite (proj2 (Z.leb_le _ _)) in Hbits by lia. done. }
  destruct (countr_one_spec (Z.shiftr w c)) as (O1 & O2 & O3). set (o := countr_one (Z.shiftr w c)) in *.
  assert (Hones : forall i, index * 64 + c <= i < index * 64 + c + o -> i < 64 * index + 64 -> bit b i = true).
  { intros i H1 H2. specialize (O2 (i - (index * 64 + c)) ltac:(lia)). rewrite Z.shiftr_spec in O2 by lia.
    replace (i - (index * 64 + c) + c) with (i - 64 * index) in O2 by lia. rewrite Hbits in O2 by lia. by apply andb_true_iff in O2 as [_ ?]. }
  assert (Ho : 0 < o).
  { destruct (Z.lt_ge_cases 0 o); [done|]. assert (o = 0) as E0 by lia. specialize (O3 ltac:(lia)). rewrite E0, Z.shiftr_spec in O3 by lia. rewrite Z.add_0_l in O3. congruence. }
  pose proof (proj2 (proj2 Hr)) as Hlen. destruct (Z.ltb_spec (o + c) 64) as [Hlt|Hge]; cbn [fst snd].
  - split; [lia|]. split; [exact Hnone|]. split; [split; [lia|intros; apply Hones; lia]|]. unfold Size, BITS_PER_WORD. split; [lia|]. right.
    specialize (O3 ltac:(lia)). rewrite Z.shiftr_spec in O3 by lia. replace (o + c) with (index * 64 + c + o - 64 * index) in O3 by lia.
    rewrite Hbits in O3 by lia. rewrite (proj2 (Z.leb_le _ _)) in O3 by lia. done.
  - destruct (find_end_bit_spec avx l (index + 1) Hr) as (E1 & E2 & E3). split; [lia|]. split; [exact Hnone|].
    split; [split; [lia|]|split; [lia|done]]. intros i Hi'. destruct (Z.lt_ge_cases i (64 * index + 64)); [apply Hones; lia|apply E2; lia].
Qed.

Lemma first_run_later start start' r : start <= start' <= Size b -> none_in b start start' -> first_run b start' r -> first_run b start r.
Proof.
  intros Hs Hn [[-> H]|(H1 & H & H3)]; [left; split; [done|]|right; split; [lia|]; split; [|done]];
    intros i Hi; destruct (Z.lt_ge_cases i start'); first [apply Hn; lia | apply H; lia].
Qed.

Lemma first_range_in_spec avx l word : rest_at b l word -> first_run b (64 * word) (first_range_in avx (Size b) l word).
Proof.
  revert word. induction l as [|w l IH]; intros word H; cbn [first_range_in].
  { destruct H as (? & _ & E). cbn in E. left. split; [done|]. intros i. unfold Size, BITS_PER_WORD. lia. }
  pose proof (proj1 H) as Hw0. apply rest_cons in H as [E H]. pose proof (Forall_lookup_1 _ _ _ _ Hb E) as Hw. pose proof (lookup_lt_Some _ _ _ E) as Hlt.
  destruct (Z.eqb_spec w 0) as [->|Hne]; cbn [negb].
  - eapply first_run_later; [| |apply IH, H]; [unfold Size, BITS_PER_WORD; lia|]. intros i Hi. rewrite (word_bit _ _ _ E) by lia. apply Z.bits_0.
  - apply first_word_bits_spec; try done; [lia|]. intros i Hi. rewrite (word_bit _ _ _ E) by lia. by rewrite (proj2 (Z.leb_le _ _)) by lia.
Qed.

Lemma FirstRangeFrom_spec avx start : 0 <= start -> first_run b start (FirstRangeFrom avx start b).
Proof.
  intros Hs. unfold FirstRangeFrom. destruct (Z.leb_spec (Size b) start); [left; split; [done|]; intros i; lia|].
  pose proof (pos_split start Hs) as (P1 & P2 & P3). destruct (bits_lookup b start) as (w & E & Hw); [lia|done|].
  unfold word_index in E. change BITS_PER_WORD with 64 in *. rewrite E. cbn [default from_option id]. pose proof (lookup_lt_Some _ _ _ E) as Hlt.
  assert (Hr : rest_at b (drop (S (Z.to_nat (start / 64))) b) (start / 64 + 1)).
  { split; [lia|]. split; [f_equal; lia|]. rewrite length_drop. lia. }
  fold (start_mask (start mod 64)). set (m := Z.land w (start_mask (start mod 64))).
  assert (Hm : forall i, 64 * (start / 64) <= i < 64 * (start / 64) + 64 -> Z.testbit m (i - 64 * (start / 64)) = (start <=? i) && bit b i).
  { intros i Hi. unfold m. rewrite Z.land_spec, start_mask_spec by lia. rewrite (word_bit _ _ _ E) by lia. rewrite andb_comm. f_equal. split_cmp; lia. }
  destruct (Z.eqb_spec m 0) as [Hz|Hz]; cbn [negb].
  - pose proof (skip_rest avx (fun w => w =? 0) _ _ Hr) as Hsk. destruct (skip _ _ _ _ _) as [l' word']. destruct Hsk as (Hr' & Hle & Hp).
    pose proof (proj2 (proj2 Hr')) as R3.
    eapply first_run_later; [| |apply first_range_in_spec, Hr']; [unfold Size, BITS_PER_WORD in *; lia|]. intros i Hi.
    destruct (Z.lt_ge_cases i (64 * (start / 64) + 64)).
    + specialize (Hm i ltac:(lia)). rewrite Hz, Z.bits_0, (proj2 (Z.leb_le _ _)) in Hm by lia. done.
    + pose proof (pos_split i ltac:(lia)). destruct (bits_lookup b i) as (v & Ev & _); [unfold Size, BITS_PER_WORD in *; lia|done|]. unfold word_index, BITS_PER_WORD in Ev.
      pose proof (Hp (i / 64) v ltac:(lia) Ev) as E'%Z.eqb_eq. subst v. rewrite (word_bit _ _ _ Ev) by lia. apply Z.bits_0.
  - apply first_word_bits_spec; try done; try lia. apply land_ok; [done|]. apply start_mask_ok. lia.
Qed.
End forward.

Lemma first_run_unique b start r r' : first_run b start r -> first_run b start r' -> r = r'.
Proof.
  destruct r as [s e], r' as [s' e']. intros [[E1 N]|(H1 & H2 & [H3 H3'] & H4 & H5)] [[E2 N']|(K1 & K2 & [K3 K3'] & K4 & K5)]; cbn in *.
  - congruence.
  - exfalso. pose proof (K3' s' ltac:(lia)) as E. rewrite N in E by lia. done.
  - exfalso. pose proof (H3' s ltac:(lia)) as E. rewrite N' in E by lia. done.
  - assert (Hs : s = s').
    { destruct (Z.lt_trichotomy s s') as [Hl|[->|Hl]]; [|done|].
      - pose proof (H3' s ltac:(lia)) as E. rewrite K2 in E by lia. done.
      - pose proof (K3' s' ltac:(lia)) as E. rewrite H2 in E by lia. done. }
    subst s'. f_equal. destruct (Z.lt_trichotomy e e') as [Hl|[->|Hl]]; [|done|].
    + destruct H5 as [?|E]; [lia|]. rewrite K3' in E by lia. done.
    + destruct K5 as [?|E]; [lia|]. rewrite H3' in E by lia. done.
Qed.

(** ** Backward *)

(** A run that ends at or before [end_], and where it ends. *)
Definition last_run (b : BitArray) (end_ : Z) (r : Range) : Prop :=
  (r = (0, 0) /\ none_in b 0 end_)
  \/ (r.2 <= end_ /\ none_in b r.2 end_ /\ is_run b r.1 r.2 /\ 0 <= r.1 /\ (r.1 = 0 \/ bit b (r.1 - 1) = false)).

Definition last_end (b : BitArray) (end_ e : Z) : Prop :=
  (e = 0 /\ none_in b 0 end_) \/ (0 < e <= end_ /\ none_in b e end_ /\ bit b (e - 1) = true).

(** [l] is the words below [word], the nearest first. *)
Definition below_at (b l : list Z) (word : Z) : Prop := 0 <= word /\ l = reverse (take (Z.to_nat word) b) /\ word <= Z.of_nat (length b).

Lemma below_at_cons b w l word : below_at b (w :: l) word -> 1 <= word /\ b !! Z.to_nat (word - 1) = Some w /\ below_at b l (word - 1).
Proof.
  intros (H1 & H2 & H3). destruct (decide (word = 0)) as [->|Hne]; [done|].
  destruct (lookup_lt_is_Some_2 b (Z.to_nat (word - 1))) as [v Ev]; [lia|].
  replace (Z.to_nat word) with (S (Z.to_nat (word - 1))) in H2 by lia. rewrite (take_S_r _ _ v), reverse_snoc in H2 by done. injection H2 as -> ->.
  split; [lia|]. split; [done|]. split; [lia|]. split; [done|lia].
Qed.

Section backward.
Context (b : BitArray).
Hypothesis (Hb : bits_ok b).

Lemma not_full_left w : word_ok w -> w <> ALL_ONES -> countl_one w < 64.
Proof.
  intros Hw Hne. destruct (countl_one_spec w Hw) as (H1 & H2 & _). destruct (Z.lt_ge_cases (countl_one w) 64); [done|]. destruct Hne.
  apply word_ext; [done|done|]. intros j Hj. rewrite H2, testbit_ALL by lia. symmetry. apply Z.ltb_lt. lia.
Qed.

Lemma start_bit_from_spec l word : below_at b l word -> let s := start_bit_from l word in
  0 <= s <= 64 * word /\ (forall i, s <= i < 64 * word -> bit b i = true) /\ (s = 0 \/ bit b (s - 1) = false).
Proof.
  revert word. induction l as [|w l IH]; intros word H; cbn [start_bit_from].
  { destruct H as (H & E & Hl). apply (f_equal length) in E. rewrite length_reverse, length_take in E. cbn in E.
    split; [lia|]. split; [intros; lia|by left]. }
  apply below_at_cons in H as (Hw1 & E & H). destruct (IH _ H) as (H1 & H2 & H3). pose proof (Forall_lookup_1 _ _ _ _ Hb E) as Hw.
  destruct (Z.eqb_spec w ALL_ONES) as [->|Hne]; cbn [negb].
  - split; [lia|]. split; [|done]. intros i Hi. destruct (Z.lt_ge_cases i (64 * (word - 1))); [apply H2; lia|].
    rewrite (word_bit b _ (word - 1) i E) by lia. rewrite testbit_ALL by lia. apply Z.ltb_lt. lia.
  - pose proof (not_full_left w Hw Hne). destruct (countl_one_spec w Hw) as (C1 & C2 & C3). unfold BITS_PER_WORD. split; [lia|]. split.
    + intros i Hi. rewrite (word_bit b _ (word - 1) i E) by lia. apply C2. lia.
    + right. rewrite (word_bit b _ (word - 1) _ E) by lia. replace (word * 64 - countl_one w - 1 - 64 * (word - 1)) with (63 - countl_one w) by lia. auto.
Qed.

Lemma shifted_bit w c j : 0 <= c -> 0 <= j < 64 -> Z.testbit (u64 (Z.shiftl w c)) j = (c <=? j) && Z.testbit w (j - c).
Proof.
  intros Hc Hj. unfold u64. change W64 with (2 ^ 64). rewrite Z.mod_pow2_bits_low by lia. rewrite Z.shiftl_spec by lia.
  destruct (Z.leb_spec c j); [done|]. by rewrite Z.testbit_neg_r by lia.
Qed.

(** [w] is the word below [index] without the bits from [end_] on. *)
Lemma last_word_bits_spec avx index w l end_ : below_at b l (index - 1) -> 1 <= index -> 64 * index - 64 < end_ <= 64 * index -> word_ok w -> w <> 0 ->
  (forall i, 64 * index - 64 <= i < 64 * index -> Z.testbit w (i - (64 * index - 64)) = (i <? end_) && bit b i) ->
  let r := last_word_bits avx index w l in last_end b end_ r.2 /\ (avx = false -> last_run b end_ r).
Proof.
  intros Hr Hi He Hw Hz Hbits. unfold last_word_bits, BITS_PER_WORD.
  destruct (countl_zero_spec w Hw) as (Z1 & Z2 & Z3). set (c := countl_zero w) in *.
  assert (Hc : c < 64).
  { destruct (Z.lt_ge_cases c 64); [done|]. destruct (word_zero w Hw Hz) as (j & Hj & Ej). by rewrite Z2 in Ej by lia. }
  specialize (Z3 Hc). pose proof (Hbits (64 * index - c - 1) ltac:(lia)) as Hat. replace (64 * index - c - 1 - (64 * index - 64)) with (63 - c) in Hat by lia.
  rewrite Z3 in Hat. symmetry in Hat. apply andb_true_iff in Hat as [Hst%Z.ltb_lt Hat].
  assert (Hnone : none_in b (index * 64 - c) end_).
  { intros i Hi'. specialize (Hbits i ltac:(lia)). rewrite Z2 in Hbits by lia. rewrite (proj2 (Z.ltb_lt _ _)) in Hbits by lia. done. }
  assert (Hv : word_ok (u64 (Z.shiftl w c))) by apply u64_range.
  destruct (countl_one_spec _ Hv) as (O1 & O2 & O3). set (o := countl_one (u64 (Z.shiftl w c))) in *.
  assert (Hones : forall i, index * 64 - c - o <= i < index * 64 - c -> 64 * index - 64 <= i -> bit b i = true).
  { intros i H1 H2. specialize (O2 (i - (64 * index - 64) + c) ltac:(lia)). rewrite shifted_bit in O2 by lia. apply andb_true_iff in O2 as [_ O2].
    replace (i - (64 * index - 64) + c - c) with (i - (64 * index - 64)) in O2 by lia. rewrite Hbits in O2 by lia. by apply andb_true_iff in O2 as [_ ?]. }
  assert (Ho : 0 < o).
  { destruct (Z.lt_ge_cases 0 o); [done|]. assert (E0 : o = 0) by lia. specialize (O3 ltac:(lia)). rewrite E0, shifted_bit in O3 by lia.
    rewrite (proj2 (Z.leb_le _ _)) in O3 by lia. replace (63 - 0 - c) with (63 - c) in O3 by lia. rewrite Z3 in O3. done. }
  assert (Hend : last_end b end_ (index * 64 - c)).
  { right. split; [lia|]. split; [done|]. by replace (index * 64 - c - 1) with (64 * index - c - 1) by lia. }
  destruct (Z.ltb_spec (c + o) 64) as [Hlt|Hge]; cbn [fst snd]; (split; [exact Hend|]).
  - intros _. right. cbn [fst snd]. split; [lia|]. split; [done|]. split; [split; [lia|intros; apply Hones; lia]|]. split; [lia|]. right.
    specialize (O3 ltac:(lia)). rewrite shifted_bit in O3 by lia. rewrite (proj2 (Z.leb_le _ _)) in O3 by lia.
    replace (63 - o - c) with (index * 64 - c - o - 1 - (64 * index - 64)) in O3 by lia. rewrite Hbits in O3 by lia. rewrite (proj2 (Z.ltb_lt _ _)) in O3 by lia. done.
  - intros ->. unfold find_start_bit. cbn [skip]. destruct (start_bit_from_spec l (index - 1) Hr) as (E1 & E2 & E3). right. cbn [fst snd].
    split; [lia|]. split; [done|]. split; [split; [lia|]|split; [lia|done]]. intros i Hi'. destruct (Z.lt_ge_cases i (64 * index - 64)); [apply E2; lia|apply Hones; lia].
Qed.

Definition last_spec (avx : bool) (end_ : Z) (r : Range) : Prop := last_end b end_ r.2 /\ (avx = false -> last_run b end_ r).

Lemma last_spec_earlier avx end_ end' r : 0 <= end' <= end_ -> none_in b end' end_ -> last_spec avx end' r -> last_spec avx end_ r.
Proof.
  intros He Hn [H1 H2]. split.
  - destruct H1 as [[E H]|(? & H & ?)]; [left; split; [done|]|right; split; [lia|]; split; [|done]];
      intros i Hi; destruct (Z.lt_ge_cases i end'); first [apply H; lia | apply Hn; lia].
  - intros Ha. destruct (H2 Ha) as [[E H]|(? & H & ?)]; [left; split; [done|]|right; split; [lia|]; split; [|done]];
      intros i Hi; destruct (Z.lt_ge_cases i end'); first [apply H; lia | apply Hn; lia].
Qed.

Lemma last_range_in_spec avx l word : below_at b l word -> last_spec avx (64 * word) (last_range_in avx l word).
Proof.
  revert word. induction l as [|w l IH]; intros word H; cbn [last_range_in].
  { destruct H as (H & E & Hl). apply (f_equal length) in E. rewrite length_reverse, length_take in E. cbn in E.
    split; [left|intros _; left]; (split; [done|]); intros i; lia. }
  apply below_at_cons in H as (Hw1 & E & H). pose proof (Forall_lookup_1 _ _ _ _ Hb E) as Hw.
  destruct (Z.eqb_spec w 0) as [->|Hne]; cbn [negb].
  - eapply last_spec_earlier; [| |apply IH, H]; [lia|]. intros i Hi. rewrite (word_bit b _ (word - 1) i E) by lia. apply Z.bits_0.
  - apply last_word_bits_spec; try done; try lia. intros i Hi. rewrite (word_bit b _ (word - 1) i E) by lia.
    rewrite (proj2 (Z.ltb_lt _ _)) by lia. cbn. f_equal. lia.
Qed.

Lemma skip_below avx p l word : below_at b l word -> let '(l', word') := skip avx p (-1) l word in
  below_at b l' word' /\ word' <= word /\ forall k w, word' <= k < word -> b !! Z.to_nat k = Some w -> p w = true.
Proof.
  destruct avx; cbn; [|intros; split; [done|]; split; [lia|intros; lia]].
  revert l word. fix IH 1. intros l word H. destruct l as [|w0 [|w1 [|w2 [|w3 l]]]]; cbn; try (split; [done|]; split; [lia|intros; lia]).
  destruct (p w0 && p w1 && p w2 && p w3) eqn:E; [|split; [done|]; split; [lia|intros; lia]]. bool_prop.
  apply below_at_cons in H as (_ & E0 & H). apply below_at_cons in H as (_ & E1 & H). apply below_at_cons in H as (_ & E2 & H). apply below_at_cons in H as (_ & E3 & H).
  replace (word - 1 - 1 - 1 - 1) with (word + 4 * -1) in H by lia. specialize (IH l (word + 4 * -1) H). destruct (skip4 p (-1) l (word + 4 * -1)) as [l' word'].
  destruct IH as (Hr & Hle & Hp). split; [done|]. split; [lia|]. intros k w Hk Ek. destruct (Z.lt_ge_cases k (word - 4)); [apply (Hp k); [lia|done]|].
  assert (k = word - 1 \/ k = word - 1 - 1 \/ k = word - 1 - 1 - 1 \/ k = word - 1 - 1 - 1 - 1) as [->|[->|[->| ->]]] by lia; congruence.
Qed.

Lemma LastRangeFrom_spec avx end_ : 0 < Size b -> 0 <= end_ -> last_spec avx (Z.min end_ (Size b)) (LastRangeFrom avx end_ b).
Proof.
  intros Hn He. unfold LastRangeFrom. destruct (Z.eqb_spec end_ 0) as [->|Hz].
  { rewrite Z.min_l by lia. split; [left|intros _; left]; (split; [done|]); intros i; lia. }
  replace (if Size b <? end_ then Size b else end_) with (Z.min end_ (Size b)) by (split_cmp; lia). set (n := Z.min end_ (Size b)) in *.
  pose proof (pos_split (n - 1) ltac:(lia)) as (P1 & P2 & P3). destruct (bits_lookup b (n - 1)) as (w & E & Hw); [lia|done|].
  unfold word_index in E. change BITS_PER_WORD with 64 in *. set (q := (n - 1) / 64) in *. replace (q + 1 - 1) with q by lia.
  rewrite E. cbn [default from_option id]. pose proof (lookup_lt_Some _ _ _ E) as Hlt.
  assert (Hr : below_at b (reverse (take (Z.to_nat q) b)) q) by (split; [lia|]; split; [done|lia]).
  set (j := (n - 1) mod 64) in *. set (m := if j <? 64 - 1 then Z.land w (Z.shiftl 1 (j + 1) - 1) else w).
  assert (Hmo : word_ok m).
  { unfold m. destruct (Z.ltb_spec j (64 - 1)); [|done]. apply land_ok; [done|]. apply low_mask_nonneg. lia. }
  assert (Hm : forall i, 64 * (q + 1) - 64 <= i < 64 * (q + 1) -> Z.testbit m (i - (64 * (q + 1) - 64)) = (i <? n) && bit b i).
  { intros i Hi. rewrite (word_bit b _ q i E) by lia. replace (i - (64 * (q + 1) - 64)) with (i - 64 * q) by lia. unfold m.
    destruct (Z.ltb_spec j (64 - 1)).
    - rewrite Z.land_spec, low_mask by lia. rewrite andb_comm. f_equal. split_cmp; lia.
    - rewrite (proj2 (Z.ltb_lt i n)) by lia. done. }
  destruct (Z.eqb_spec m 0) as [Hm0|Hm0]; cbn [negb].
  - pose proof (skip_below avx (fun w => w =? 0) _ _ Hr) as Hsk. destruct (skip _ _ _ _ _) as [l' word']. destruct Hsk as (Hr' & Hle & Hp).
    pose proof (proj1 Hr'). eapply last_spec_earlier; [| |apply last_range_in_spec, Hr']; [lia|]. intros i Hi.
    destruct (Z.lt_ge_cases i (64 * q)).
    + pose proof (pos_split i ltac:(lia)). destruct (bits_lookup b i) as (v & Ev & _); [lia|done|]. unfold word_index, BITS_PER_WORD in Ev.
      pose proof (Hp (i / 64) v ltac:(lia) Ev) as E'%Z.eqb_eq. subst v. rewrite (word_bit b _ _ _ Ev) by lia. apply Z.bits_0.
    + specialize (Hm i ltac:(lia)). rewrite Hm0, Z.bits_0, (proj2 (Z.ltb_lt _ _)) in Hm by lia. done.
  - apply last_word_bits_spec; try done; try lia. by replace (q + 1 - 1) with q by lia.
Qed.
End backward.

(** ** Iteration *)

(** The runs of an array from [start] on, in order. *)
Inductive runs (b : BitArray) : Z -> list Range -> Prop :=
  | RunsEnd start : none_in b start (Size b) -> runs b start []
  | RunsNext start r l : start <= r.1 -> none_in b start r.1 -> is_run b r.1 r.2 -> r.2 <= Size b -> (r.2 = Size b \/ bit b r.2 = false) ->
      runs b r.2 l -> runs b start (r :: l).

Lemma runs_bit b start l i : runs b start l -> start <= i < Size b -> bit b i = existsb (fun r => in_range r.1 r.2 i) l.
Proof.
  induction 1 as [start Hn|start [s e] l Hs Hn [Hse Hr] He Hend Hl IH]; intros Hi; cbn in *; [by apply Hn|]. unfold in_range at 1.
  destruct (Z.lt_ge_cases i s).
  - rewrite Hn by lia. rewrite (proj2 (Z.leb_gt s i)) by lia. cbn. symmetry. apply not_true_iff_false. rewrite existsb_exists.
    intros ([s' e'] & Hin & E). assert (e <= s').
    { clear -Hl Hin. induction Hl as [|start [a c] l Ha _ [Hac _] _ _ _ IH]; cbn in *; [done|]. destruct Hin as [[= -> ->]|Hin]; [done|]. specialize (IH Hin). lia. }
    unfold in_range in E. bool_prop. cbn in *. lia.
  - rewrite (proj2 (Z.leb_le s i)) by lia. destruct (Z.lt_ge_cases i e); [rewrite Hr by lia; by rewrite (proj2 (Z.ltb_lt i e)) by lia|].
    rewrite (proj2 (Z.ltb_ge i e)) by lia. apply IH. lia.
Qed.

Lemma ranges_from_spec avx b fuel start : bits_ok b -> 0 <= start -> (Z.to_nat (Size b - start) < fuel)%nat ->
  exists l, ranges_from avx fuel (FirstRangeFrom avx start b) b = Done l /\ runs b start l.
Proof.
  intros Hb. revert start. induction fuel as [|fuel IH]; intros start Hs Hf; [lia|].
  assert (Hend : FirstRangeFrom avx (Size b) b = (Size b, Size b)) by (unfold FirstRangeFrom; by rewrite Z.leb_refl).
  cbn. rewrite Hend. pose proof (FirstRangeFrom_spec b Hb avx start Hs) as Hr. set (r := FirstRangeFrom avx start b) in *.
  destruct Hr as [[-> Hn]|(H1 & H2 & H3 & H4 & H5)]; [rewrite bool_decide_eq_true_2 by done; exists []; by split; [|constructor]|].
  rewrite bool_decide_eq_false_2 by (intros E; rewrite E in H3; destruct H3; cbn in *; lia).
  destruct (IH r.2) as (l & -> & Hl); [destruct H3; lia|destruct H3; lia|]. exists (r :: l). split; [done|]. by constructor.
Qed.

Lemma ranges_spec avx b : bits_ok b -> exists l, ranges avx b = Done l /\ runs b 0 l.
Proof. intros Hb. unfold ranges, FirstRange. apply ranges_from_spec; [done|lia|lia]. Qed.
