(* ===== verification/PageManager.v ===== *)
(** * Page watchers ([video_core/page_manager.{h,cpp}])

    Caches of the video core watch pages of guest memory: a page with a write
    watcher is write-protected on the host, one with a read watcher is
    read-protected, so that accesses fault and reach the caches.  A change walks
    over pages and joins the changes of protection of neighbouring pages.  The
    model is the variant that protects through the address space; [host] is the
    permission last set there for each page. *)

From stdpp Require Import gmap.
From S2P Require Import Prelude BitArray.

Definition PM_PAGE_SIZE : Z := 4096.
Definition PM_PAGE_BITS : Z := 12.
Definition NUM_PAGES_PER_REGION : Z := 1024.
Definition PAGES_PER_LOCK : Z := NUM_PAGES_PER_REGION.
Definition NUM_ADDRESS_PAGES : Z := 268435456.

(** In [common/div_ceil.h], on words. *)
Definition DivCeil (number divisor : Z) : Z := wsub (wadd number divisor) 1 / divisor.

(** [Core::MemoryPermission]. *)
Definition PermNone : Z := 0.
Definition PermRead : Z := 1.
Definition PermWrite : Z := 2.

(** Bit fields of seven bits and of one. *)
Record PageState := mkPage { num_write_watchers : Z; num_read_watchers : Z }.

Definition WritePerm (p : PageState) : Z := if num_write_watchers p =? 0 then PermWrite else PermNone.
Definition ReadPerm (p : PageState) : Z := if num_read_watchers p =? 0 then PermRead else PermNone.
Definition Perms (p : PageState) : Z := Z.lor (ReadPerm p) (WritePerm p).

Definition AddDelta (delta : Z) (is_read : bool) (p : PageState) : outcome (Z * PageState) :=
  if is_read then
    if delta =? 1 then let n := (num_read_watchers p + 1) mod 2 in Done (n, mkPage (num_write_watchers p) n)
    else if delta =? -1 then
      let! _ := oassert (0 <? num_read_watchers p) in
      let n := num_read_watchers p - 1 in Done (n, mkPage (num_write_watchers p) n)
    else Done (num_read_watchers p, p)
  else
    if delta =? 1 then let n := (num_write_watchers p + 1) mod 128 in Done (n, mkPage n (num_read_watchers p))
    else if delta =? -1 then
      let! _ := oassert (0 <? num_write_watchers p) in
      let n := num_write_watchers p - 1 in Done (n, mkPage n (num_read_watchers p))
    else Done (num_write_watchers p, p).

Record PageManager := mkPages { cached_pages : gmap Z PageState; host : gmap Z Z }.

Definition new_pages : PageManager := mkPages ∅ ∅.

Definition state_of (page : Z) (s : PageManager) : PageState := default (mkPage 0 0) (cached_pages s !! page).
Definition host_of (page : Z) (s : PageManager) : Z := default (Z.lor PermRead PermWrite) (host s !! page).

(** An access past the end of [cached_pages] is undefined. *)
Definition in_table (page : Z) : bool := (0 <=? page) && (page <? NUM_ADDRESS_PAGES).
Definition page_state (page : Z) (s : PageManager) : outcome PageState :=
  if in_table page then Done (state_of page s) else Raised Undefined.
Definition set_page (page : Z) (p : PageState) (s : PageManager) : PageManager := mkPages (<[page := p]> (cached_pages s)) (host s).

Fixpoint protect_pages (n : nat) (page perms : Z) (h : gmap Z Z) : gmap Z Z :=
  match n with
  | O => h
  | S n => protect_pages n (page + 1) perms (<[page := perms]> h)
  end.

(** Called with whole pages. *)
Definition Protect (address size perms : Z) (s : PageManager) : outcome PageManager :=
  let! _ := oassert (negb (perms =? PermWrite)) in
  Done (mkPages (cached_pages s) (protect_pages (Z.to_nat (size / PM_PAGE_SIZE)) (address / PM_PAGE_SIZE) perms (host s))).

(** The locals of a walk. *)
Record Walk := mkWalk { w_perms : Z; range_begin : Z; range_bytes : Z; potential_range_bytes : Z }.

Definition release_pending (w : Walk) (s : PageManager) : outcome (Walk * PageManager) :=
  if 0 <? range_bytes w then
    let! s := Protect (Z.shiftl (range_begin w) PM_PAGE_BITS) (range_bytes w) (w_perms w) s in
    Done (mkWalk (w_perms w) (range_begin w) 0 0, s)
  else Done (w, s).

(** If the protection changed the pending action is taken, otherwise its
    potential range grows. *)
Definition settle (new_perms : Z) (w : Walk) (s : PageManager) : outcome (Walk * PageManager) :=
  if negb (new_perms =? w_perms w) then
    let! '(w, s) := release_pending w s in
    Done (mkWalk new_perms (range_begin w) (range_bytes w) (potential_range_bytes w), s)
  else if negb (range_bytes w =? 0) then
    Done (mkWalk (w_perms w) (range_begin w) (range_bytes w) (potential_range_bytes w + PM_PAGE_SIZE), s)
  else Done (w, s).

(** The page must be (un)protected. *)
Definition extend (page : Z) (w : Walk) : Walk :=
  let w := if range_bytes w =? 0 then mkWalk (w_perms w) page (range_bytes w) PM_PAGE_SIZE else w in
  mkWalk (w_perms w) (range_begin w) (potential_range_bytes w) (potential_range_bytes w).

(** The body of the loops; [update] is true in the loop without a mask. *)
Definition visit (track is_read update : bool) (page : Z) (w : Walk) (s : PageManager) : outcome (Walk * PageManager) :=
  let! st := page_state page s in
  let! '(new_count, st) := AddDelta (if update then if track then 1 else -1 else 0) is_read st in
  let s := set_page page st s in
  let! '(w, s) := settle (Perms st) w s in
  if negb update then Done (w, s)
  else if ((new_count =? 0) && negb track) || ((new_count =? 1) && track) then Done (extend page w, s)
  else Done (w, s).

(** [n] pages from [page] on, at [base] of the table. *)
Fixpoint walk_pages (track is_read : bool) (update : Z -> outcome bool) (base : Z) (n : nat) (page : Z) (w : Walk) (s : PageManager) :
    outcome (Walk * PageManager) :=
  match n with
  | O => Done (w, s)
  | S n =>
      let! u := update page in
      let! '(w, s) := visit track is_read u (base + page) w s in
      walk_pages track is_read update base n (page + 1) w s
  end.

(** The walk of [UpdatePageWatchers] ends at [page_end] only; from a page after it
    it leaves the table. *)
Definition UpdatePageWatchers (track is_read : bool) (addr size : Z) (s : PageManager) : outcome PageManager :=
  let page := Z.shiftr addr PM_PAGE_BITS in
  let page_end := DivCeil (wadd addr size) PM_PAGE_SIZE in
  let! st := page_state page s in
  if page_end <? page then Raised Undefined else
  let! '(w, s) := walk_pages track is_read (fun _ => Done true) 0 (Z.to_nat (page_end - page)) page (mkWalk (Perms st) 0 0 0) s in
  let! '(_, s) := release_pending w s in Done s.

Definition UpdatePageWatchersForRegion (avx track is_read : bool) (base_addr : Z) (mask : BitArray) (s : PageManager) : outcome PageManager :=
  let start_range := FirstRange avx mask in
  let end_range := LastRange avx mask in
  if snd start_range =? snd end_range then
    let start_addr := wadd base_addr (Z.shiftl (fst start_range) PM_PAGE_BITS) in
    let size := Z.shiftl (snd start_range - fst start_range) PM_PAGE_BITS in
    UpdatePageWatchers track is_read start_addr size s
  else
    let base_page := Z.shiftr base_addr PM_PAGE_BITS in
    let! _ := oassert (base_page mod PAGES_PER_LOCK =? 0) in
    let! st := page_state (base_page + fst start_range) s in
    let! '(w, s) := walk_pages track is_read (fun page => Get page mask) base_page (Z.to_nat (snd end_range - fst start_range)) (fst start_range)
                      (mkWalk (Perms st) 0 0 0) s in
    let! '(_, s) := release_pending w s in Done s.
