(* ===== verification/PageFacts.v ===== *)
(** * Page watchers: the host's protection follows the counters

    A page is consistent when the host gives it exactly the permission its
    watchers leave ([consistent]).  Changing watchers joins the calls that protect
    neighbouring pages; it still leaves every page consistent, and changes the
    counters of the pages asked for and no others. *)

From stdpp Require Import gmap.
From S2P Require Import Prelude BitArray BitFacts PageManager.

(** ** One page *)

Definition page_ok (p : PageState) : Prop := 0 <= num_write_watchers p <= 127 /\ 0 <= num_read_watchers p <= 1.

(** A watcher can be added or removed without running over. *)
Definition can_add (track is_read : bool) (p : PageState) : Prop :=
  if track then if is_read then num_read_watchers p = 0 else num_write_watchers p < 127
  else if is_read then 0 < num_read_watchers p else 0 < num_write_watchers p.

Definition added (track is_read : bool) (p : PageState) : PageState :=
  let d := if track then 1 else -1 in
  if is_read then mkPage (num_write_watchers p) (num_read_watchers p + d) else mkPage (num_write_watchers p + d) (num_read_watchers p).

Definition count_of (is_read : bool) (p : PageState) : Z := if is_read then num_read_watchers p else num_write_watchers p.

Lemma AddDelta_added track is_read p : page_ok p -> can_add track is_read p ->
  AddDelta (if track then 1 else -1) is_read p = Done (count_of is_read (added track is_read p), added track is_read p).
Proof.
  intros [Hw Hr] Hc. unfold AddDelta, added, count_of, can_add in *. destruct is_read, track; cbn [Z.eqb Pos.eqb] in *; cbn.
  - by rewrite Hc.
  - rewrite (proj2 (Z.ltb_lt _ _)) by done. done.
  - rewrite Z.mod_small by lia. done.
  - rewrite (proj2 (Z.ltb_lt _ _)) by done. done.
Qed.

Lemma AddDelta_none is_read p : AddDelta 0 is_read p = Done (count_of is_read p, p).
Proof. by destruct is_read. Qed.

Lemma added_ok track is_read p : page_ok p -> can_add track is_read p -> page_ok (added track is_read p).
Proof. unfold page_ok, can_add, added. destruct track, is_read; cbn; lia. Qed.

(** The pages at which the loops protect are those whose permission changes. *)
Definition flagged (track is_read : bool) (p : PageState) : bool :=
  ((count_of is_read (added track is_read p) =? 0) && negb track) || ((count_of is_read (added track is_read p) =? 1) && track).

Lemma unflagged_perms track is_read p : page_ok p -> can_add track is_read p -> flagged track is_read p = false ->
  Perms (added track is_read p) = Perms p.
Proof.
  intros [Hw Hr] Hc Hf. unfold flagged, added, count_of, can_add, Perms, ReadPerm, WritePerm in *. destruct track, is_read; cbn in *; rewrite ?andb_true_r, ?andb_false_r, ?orb_false_r in Hf; cbn in Hf; bool_prop.
  - lia.
  - rewrite (proj2 (Z.eqb_neq (num_write_watchers p) 0)), (proj2 (Z.eqb_neq (num_write_watchers p + 1) 0)) by lia. done.
  - rewrite (proj2 (Z.eqb_neq (num_read_watchers p) 0)), (proj2 (Z.eqb_neq (num_read_watchers p + -1) 0)) by lia. done.
  - rewrite (proj2 (Z.eqb_neq (num_write_watchers p) 0)), (proj2 (Z.eqb_neq (num_write_watchers p + -1) 0)) by lia. done.
Qed.

(** ** The walk *)

Definition consistent (s : PageManager) (x : Z) : Prop := host_of x s = Perms (state_of x s).

Lemma protect_pages_lookup n page perms h x :
  protect_pages n page perms h !! x = if decide (page <= x < page + Z.of_nat n) then Some perms else h !! x.
Proof.
  revert page h; induction n as [|n IH]; intros page h; cbn [protect_pages]; [destruct (decide _); [lia|done]|].
  rewrite IH. destruct (decide (page + 1 <= x < page + 1 + Z.of_nat n)), (decide (page <= x < page + Z.of_nat (S n))); try lia; [done|..].
  - assert (x = page) as -> by lia. by rewrite lookup_insert_eq.
  - by rewrite lookup_insert_ne by lia.
Qed.

(** [w] has pending the protection of the first [R] of the [Q] pages before [p]. *)
Record pending (R Q p : Z) (w : Walk) (s : PageManager) : Prop := {
  pd_bytes : range_bytes w = 4096 * R;
  pd_potential : potential_range_bytes w = 4096 * Q;
  pd_count : 0 < R <= Q;
  pd_begin : 0 <= range_begin w /\ range_begin w + Q = p;
  pd_perms : forall x, range_begin w <= x < p -> Perms (state_of x s) = w_perms w;
  pd_valid : w_perms w <> PermWrite;
  pd_others : forall x, x < range_begin w \/ range_begin w + R <= x -> consistent s x }.

Definition walk_inv (p : Z) (w : Walk) (s : PageManager) : Prop :=
  (range_bytes w = 0 /\ forall x, consistent s x) \/ exists R Q, pending R Q p w s.

Lemma release_spec p w s : walk_inv p w s ->
  exists w' s', release_pending w s = Done (w', s') /\ range_bytes w' = 0 /\ w_perms w' = w_perms w
    /\ cached_pages s' = cached_pages s /\ forall x, consistent s' x.
Proof.
  intros [[E H]|(R & Q & [E1 E2 Hc [Hb Hp] Hperm Hv Ho])]; unfold release_pending; [rewrite E; by exists w, s|].
  rewrite E1, (proj2 (Z.ltb_lt _ _)) by lia. unfold Protect. rewrite (proj2 (Z.eqb_neq _ _) Hv). cbn [oassert negb obind].
  eexists _, _. split; [done|]. split; [done|]. split; [done|]. split; [done|]. intros x. unfold consistent, host_of, state_of. cbn [host cached_pages].
  rewrite protect_pages_lookup. unfold PM_PAGE_SIZE, PM_PAGE_BITS. rewrite Z.shiftl_mul_pow2, Z.div_mul by lia.
  replace (4096 * R / 4096) with R by (rewrite Z.mul_comm, Z.div_mul; lia). rewrite Z2Nat.id by lia.
  destruct (decide _); [cbn; symmetry; apply Hperm; lia|]. apply (Ho x). lia.
Qed.

(** The page state a visit leaves. *)
Definition touched (track is_read update : bool) (p : PageState) : PageState := if update then added track is_read p else p.

Definition legal (track is_read : bool) (p : PageState) : Prop := page_ok p /\ can_add track is_read p /\ Perms (added track is_read p) <> PermWrite.

Lemma state_set x page p s : state_of x (set_page page p s) = if decide (x = page) then p else state_of x s.
Proof. unfold state_of, set_page. cbn. destruct (decide (x = page)) as [->|]; [by rewrite lookup_insert_eq|by rewrite lookup_insert_ne by congruence]. Qed.

Lemma visit_delta track is_read update p : (update = true -> legal track is_read p) ->
  AddDelta (if update then if track then 1 else -1 else 0) is_read p
  = Done (count_of is_read (touched track is_read update p), touched track is_read update p).
Proof. intros H. destruct update; [destruct (H eq_refl) as (? & ? & ?); by apply AddDelta_added|apply AddDelta_none]. Qed.

(** Whether a visit asks for the protection of its page. *)
Definition asks (track is_read update : bool) (p : PageState) : bool := update && flagged track is_read p.

Lemma quiet_perms track is_read update p : (update = true -> legal track is_read p) -> asks track is_read update p = false ->
  Perms (touched track is_read update p) = Perms p.
Proof.
  intros H Ha. destruct update; cbn in *; [|done]. destruct (H eq_refl) as (? & ? & _). by apply unflagged_perms.
Qed.

(** After [settle], before the page itself is dealt with. *)
Record settled (p : Z) (w : Walk) (s : PageManager) : Prop := {
  st_perms : w_perms w = Perms (state_of p s);
  st_range : (range_bytes w = 0 /\ forall x, x <> p -> consistent s x)
    \/ exists R Q, range_bytes w = 4096 * R /\ potential_range_bytes w = 4096 * Q /\ 0 < R < Q /\ 0 <= range_begin w /\ range_begin w + Q = p + 1
         /\ (forall x, range_begin w <= x < p + 1 -> Perms (state_of x s) = w_perms w) /\ w_perms w <> PermWrite
         /\ forall x, x <> p -> x < range_begin w \/ range_begin w + R <= x -> consistent s x }.

Lemma consistent_set x page p s : x <> page -> consistent (set_page page p s) x <-> consistent s x.
Proof. intros Hne. unfold consistent. rewrite state_set. by destruct (decide (x = page)). Qed.

Lemma settle_spec p w s st : 0 <= p -> walk_inv p w s ->
  exists w' s', settle (Perms st) w (set_page p st s) = Done (w', s') /\ settled p w' s' /\ host_of p s' = host_of p s
    /\ cached_pages s' = <[p := st]> (cached_pages s).
Proof.
  intros Hp Hi. unfold settle. assert (Hst : state_of p (set_page p st s) = st) by (rewrite state_set; by destruct (decide (p = p))).
  destruct Hi as [[E H]|(R & Q & [E1 E2 Hc [Hb Hbq] Hperm Hv Ho])].
  - assert (Hcon : forall x, x <> p -> consistent (set_page p st s) x) by (intros; by apply consistent_set).
    destruct (Z.eqb_spec (Perms st) (w_perms w)) as [Ep|Ep]; cbn [negb].
    + rewrite E. cbn [negb Z.eqb]. exists w, (set_page p st s). split; [done|]. split; [|done]. split; [by rewrite Hst|by left].
    + unfold release_pending. rewrite E. cbn [Z.ltb Z.compare obind]. eexists _, _. split; [done|]. split; [|done]. split; [cbn; by rewrite Hst|by left].
  - assert (Hcon : forall x, x <> p -> x < range_begin w \/ range_begin w + R <= x -> consistent (set_page p st s) x) by (intros; apply consistent_set; auto).
    assert (Hold : forall x, range_begin w <= x < p -> Perms (state_of x (set_page p st s)) = w_perms w).
    { intros x Hx. rewrite state_set. destruct (decide (x = p)); [lia|auto]. }
    destruct (Z.eqb_spec (Perms st) (w_perms w)) as [Ep|Ep]; cbn [negb].
    + rewrite E1, (proj2 (Z.eqb_neq _ _)) by lia. cbn [negb]. eexists _, _. split; [done|]. split; [|done]. split; [cbn; by rewrite Hst|]. right. exists R, (Q + 1).
      cbn. rewrite E2. unfold PM_PAGE_SIZE. repeat (split; [lia|]). split; [|done]. intros x Hx. destruct (decide (x = p)) as [->|]; [by rewrite Hst|apply Hold; lia].
    + unfold release_pending. rewrite E1, (proj2 (Z.ltb_lt _ _)) by lia. unfold Protect. rewrite (proj2 (Z.eqb_neq _ _) Hv). cbn [oassert negb obind].
      assert (Hh : forall x, host_of x (mkPages (cached_pages (set_page p st s)) (protect_pages (Z.to_nat (4096 * R / PM_PAGE_SIZE)) (Z.shiftl (range_begin w) PM_PAGE_BITS / PM_PAGE_SIZE) (w_perms w) (host (set_page p st s))))
        = if decide (range_begin w <= x < range_begin w + R) then w_perms w else host_of x s).
      { intros x. unfold host_of. cbn [host set_page]. rewrite protect_pages_lookup. unfold PM_PAGE_SIZE, PM_PAGE_BITS. rewrite Z.shiftl_mul_pow2, Z.div_mul by lia.
        replace (4096 * R / 4096) with R by (rewrite Z.mul_comm, Z.div_mul; lia). rewrite Z2Nat.id by lia. by destruct (decide _). }
      eexists _, _. split; [done|]. split; [|split; [rewrite Hh; destruct (decide _); [lia|done]|done]].
      split; [cbn; symmetry; f_equal; exact Hst|]. left. split; [done|]. intros x Hx. unfold consistent. rewrite Hh. destruct (decide _).
      * symmetry. apply Hold. lia.
      * apply (Hcon x); [done|lia].
Qed.

Lemma visit_spec track is_read update p w s : in_table p = true -> walk_inv p w s -> (update = true -> legal track is_read (state_of p s)) ->
  exists w' s', visit track is_read update p w s = Done (w', s') /\ walk_inv (p + 1) w' s'
    /\ forall x, state_of x s' = if decide (x = p) then touched track is_read update (state_of p s) else state_of x s.
Proof.
  intros Hp Hi Hl. unfold visit, page_state. rewrite Hp. cbn [obind]. rewrite visit_delta by done. cbn [obind].
  set (st := touched track is_read update (state_of p s)). assert (Hp0 : 0 <= p) by (unfold in_table in Hp; bool_prop; lia).
  destruct (settle_spec p w s st Hp0 Hi) as (w1 & s1 & -> & Hs & Hh & Hc). cbn [obind].
  assert (Hst : forall x, state_of x s1 = if decide (x = p) then st else state_of x s).
  { intros x. unfold state_of at 1. rewrite Hc. apply state_set. }
  assert (Hcp : consistent s p).
  { destruct Hi as [[_ H]|(R & Q & [])]; [done|]. apply pd_others0. lia. }
  assert (Hpst : state_of p s1 = st) by (rewrite Hst; by destruct (decide (p = p))).
  assert (Hquiet : asks track is_read update (state_of p s) = false -> walk_inv (p + 1) w1 s1).
  { intros Hq. assert (Hc1 : consistent s1 p).
    { unfold consistent. rewrite Hh, Hpst. unfold st. rewrite quiet_perms by done. exact Hcp. }
    destruct Hs as [E [[Er Ho]|(R & Q & E1 & E2 & H1 & H2 & H3 & H4 & H5 & H6)]].
    - left. split; [done|]. intros x. destruct (decide (x = p)) as [->|]; auto.
    - right. exists R, Q. split; try done; [lia|]. intros x Hx. destruct (decide (x = p)) as [->|]; auto. }
  destruct update; cbn [negb].
  2: { exists w1, s1. split; [done|]. split; [by apply Hquiet|done]. }
  fold (flagged track is_read (state_of p s)). unfold st, touched. fold (flagged track is_read (state_of p s)).
  destruct (flagged track is_read (state_of p s)) eqn:Ef; [|exists w1, s1; split; [done|]; split; [by apply Hquiet|done]].
  eexists _, s1. split; [done|]. split; [|done]. right. destruct (Hl eq_refl) as (_ & _ & Hnw).
  assert (Hv : w_perms w1 <> PermWrite) by (rewrite (st_perms _ _ _ Hs), Hpst; exact Hnw).
  destruct Hs as [E [[Er Ho]|(R & Q & E1 & E2 & H1 & H2 & H3 & H4 & H5 & H6)]]; unfold extend.
  - rewrite Er. cbn [Z.eqb]. exists 1, 1. split; cbn; try done.
    + intros x Hx. assert (x = p) as -> by lia. by rewrite E.
    + intros x Hx. apply Ho. lia.
  - rewrite E1, (proj2 (Z.eqb_neq _ _)) by lia. exists Q, Q. split; cbn; try done; [lia|]. intros x Hx. apply H6; lia.
Qed.

Lemma walk_spec track is_read update u base n page w s : (forall k, page <= k < page + Z.of_nat n -> update k = Done (u k)) ->
  (forall k, page <= k < page + Z.of_nat n -> in_table (base + k) = true) -> walk_inv (base + page) w s ->
  (forall k, page <= k < page + Z.of_nat n -> u k = true -> legal track is_read (state_of (base + k) s)) ->
  exists w' s', walk_pages track is_read update base n page w s = Done (w', s') /\ walk_inv (base + page + Z.of_nat n) w' s'
    /\ forall x, state_of x s' = touched track is_read (in_range page (page + Z.of_nat n) (x - base) && u (x - base)) (state_of x s).
Proof.
  revert page w s; induction n as [|n IH]; intros page w s Hu Ht Hi Hl; cbn [walk_pages].
  { exists w, s. split; [done|]. split; [by replace (base + page + Z.of_nat 0) with (base + page) by lia|]. intros x. unfold in_range. split_cmp; try lia; done. }
  rewrite Hu by lia. cbn [obind]. destruct (visit_spec track is_read (u page) (base + page) w s) as (w1 & s1 & -> & Hi1 & Hs1); [apply Ht; lia|done|apply Hl; lia|].
  cbn [obind]. destruct (IH (page + 1) w1 s1) as (w' & s' & -> & Hi' & Hs').
  - intros k Hk. apply Hu. lia.
  - intros k Hk. apply Ht. lia.
  - by replace (base + (page + 1)) with (base + page + 1) by lia.
  - intros k Hk Huk. rewrite Hs1. destruct (decide (base + k = base + page)); [lia|]. apply Hl; [lia|done].
  - exists w', s'. split; [done|]. split; [by replace (base + page + Z.of_nat (S n)) with (base + (page + 1) + Z.of_nat n) by lia|].
    intros x. rewrite Hs', Hs1. destruct (decide (x = base + page)) as [->|Hne].
    + replace (base + page - base) with page by lia. unfold in_range. split_cmp; try lia. cbn. done.
    + f_equal. f_equal. unfold in_range. split_cmp; try lia; done.
Qed.

(** ** The two operations *)

Definition pages_ok (s : PageManager) : Prop := (forall x, page_ok (state_of x s)) /\ forall x, consistent s x.

Lemma pages_ok_start s : pages_ok s -> forall p perms, walk_inv p (mkWalk perms 0 0 0) s.
Proof. intros [_ H] p perms. by left. Qed.

(** Releasing what is pending at the end of a walk. *)
Lemma finish_walk track is_read (u : Z -> bool) p w s s0 : walk_inv p w s ->
  (forall x, state_of x s = touched track is_read (u x) (state_of x s0)) -> (forall x, page_ok (state_of x s0)) ->
  (forall x, u x = true -> legal track is_read (state_of x s0)) ->
  exists s', (let! '(_, s) := release_pending w s in Done s) = Done s' /\ pages_ok s'
    /\ forall x, state_of x s' = touched track is_read (u x) (state_of x s0).
Proof.
  intros Hi Hs Hok Hl. destruct (release_spec p w s Hi) as (w' & s' & -> & _ & _ & Hc & Hcon). cbn [obind].
  assert (Hst : forall x, state_of x s' = touched track is_read (u x) (state_of x s0)) by (intros x; rewrite <- Hs; unfold state_of; by rewrite Hc).
  exists s'. split; [done|]. split; [|done]. split; [|done]. intros x. rewrite Hst. destruct (u x) eqn:E; cbn; [|done].
  destruct (Hl x E) as (? & ? & _). by apply added_ok.
Qed.

Lemma UpdatePageWatchers_bytes track is_read addr size s : pages_ok s -> 0 <= addr -> 0 < size -> addr + size <= 4096 * NUM_ADDRESS_PAGES ->
  let first := addr / 4096 in let last := (addr + size + 4095) / 4096 in
  (forall x, first <= x < last -> legal track is_read (state_of x s)) ->
  exists s', UpdatePageWatchers track is_read addr size s = Done s' /\ pages_ok s'
    /\ forall x, state_of x s' = touched track is_read (in_range first last x) (state_of x s).
Proof.
  intros Hok Ha Hn Hb first last Hl. unfold UpdatePageWatchers, PM_PAGE_BITS, PM_PAGE_SIZE, DivCeil, NUM_ADDRESS_PAGES in *.
  rewrite Z.shiftr_div_pow2 by lia. change (2 ^ 12) with 4096.
  rewrite (wadd_small addr), wadd_small, wsub_small by (unfold W64; lia). replace (addr + size + 4096 - 1) with (addr + size + 4095) by lia. fold first last.
  assert (Hfl : 0 <= first < last /\ last <= 268435456) by (unfold first, last; Z.div_mod_to_equations; lia).
  assert (Ht : forall k, first <= k < last -> in_table k = true) by (intros k Hk; unfold in_table, NUM_ADDRESS_PAGES; split_cmp; lia).
  unfold page_state. rewrite Ht by lia. cbn [obind]. rewrite (proj2 (Z.ltb_ge _ _)) by lia.
  destruct (walk_spec track is_read (fun _ => Done true) (fun _ => true) 0 (Z.to_nat (last - first)) first (mkWalk (Perms (state_of first s)) 0 0 0) s)
    as (w' & s' & -> & Hi & Hs); [done|intros; apply Ht; lia|by apply pages_ok_start|intros; apply Hl; lia|]. cbn [obind].
  eapply finish_walk; [exact Hi| |apply Hok|].
  - intros x. rewrite Hs. rewrite andb_true_r, Z2Nat.id, Z.sub_0_r by lia. by replace (first + (last - first)) with last by lia.
  - intros x Hx. unfold in_range in Hx. bool_prop. apply Hl. lia.
Qed.

Lemma UpdatePageWatchers_spec track is_read first n s : pages_ok s -> 0 <= first -> 0 < n -> first + n <= NUM_ADDRESS_PAGES ->
  (forall x, first <= x < first + n -> legal track is_read (state_of x s)) ->
  exists s', UpdatePageWatchers track is_read (4096 * first) (4096 * n) s = Done s' /\ pages_ok s'
    /\ forall x, state_of x s' = touched track is_read (in_range first (first + n) x) (state_of x s).
Proof.
  intros Hok Hf Hn Hb Hl. pose proof (UpdatePageWatchers_bytes track is_read (4096 * first) (4096 * n) s Hok ltac:(lia) ltac:(lia) ltac:(lia)) as H. cbv zeta in H.
  replace (4096 * first / 4096) with first in H by (rewrite Z.mul_comm, Z.div_mul; lia).
  replace ((4096 * first + 4096 * n + 4095) / 4096) with (first + n) in H by (apply Z.div_unique with 4095; lia). by apply H.
Qed.

(** A bit of a mask as a set of pages of the region at [base]. *)
Definition masked (mask : BitArray) (base x : Z) : bool := in_range base (base + Size mask) x && bit mask (x - base).

(** All set bits lie from the start of the first run to the end of the last. *)
Lemma mask_span avx mask : bits_ok mask -> None_ mask = false -> let '(s0, e0) := FirstRange avx mask in let e1 := (LastRange avx mask).2 in
  0 <= s0 < e0 /\ e0 <= Size mask /\ 0 < e1 <= Size mask /\ (forall i, s0 <= i < e0 -> bit mask i = true)
  /\ forall i, 0 <= i < Size mask -> bit mask i = true -> s0 <= i < e1.
Proof.
  intros Hm Hnone. assert (Hno : ~ none_in mask 0 (Size mask)) by (intros H; rewrite (proj2 (None_spec mask Hm)) in Hnone; [done|exact H]).
  assert (Hsz : 0 < Size mask) by (destruct (Z.lt_ge_cases 0 (Size mask)); [done|]; destruct Hno; intros i; lia).
  pose proof (FirstRangeFrom_spec mask Hm avx 0 ltac:(lia)) as Hf. change (FirstRangeFrom avx 0 mask) with (FirstRange avx mask) in Hf.
  pose proof (LastRangeFrom_spec mask Hm avx (Size mask) Hsz ltac:(lia)) as [He _]. rewrite Z.min_id in He.
  change (LastRangeFrom avx (Size mask) mask) with (LastRange avx mask) in He. destruct (FirstRange avx mask) as [s0 e0]. set (e1 := (LastRange avx mask).2) in *.
  destruct Hf as [[_ Hn]|(H1 & H2 & [H3 H3'] & H4 & H5)]; [done|]. cbn [fst snd] in *.
  destruct He as [[_ Hn]|(He1 & He2 & _)]; [done|]. repeat (split; [lia|]). split; [done|]. intros i Hi Ei.
  destruct (Z.lt_ge_cases i s0); [by rewrite H2 in Ei by lia|]. destruct (Z.lt_ge_cases i e1); [done|]. by rewrite He2 in Ei by lia.
Qed.

Lemma UpdatePageWatchersForRegion_spec avx track is_read base mask s : pages_ok s -> bits_ok mask -> 0 <= base -> base mod PAGES_PER_LOCK = 0 ->
  base + Size mask <= NUM_ADDRESS_PAGES -> None_ mask = false ->
  (forall x, masked mask base x = true -> legal track is_read (state_of x s)) ->
  exists s', UpdatePageWatchersForRegion avx track is_read (4096 * base) mask s = Done s' /\ pages_ok s'
    /\ forall x, state_of x s' = touched track is_read (masked mask base x) (state_of x s).
Proof.
  intros Hok Hm Hb Hmod Hbn Hnone Hl. unfold UpdatePageWatchersForRegion, PM_PAGE_BITS. pose proof (mask_span avx mask Hm Hnone) as Hsp.
  destruct (FirstRange avx mask) as [s0 e0]. cbn [fst snd]. set (e1 := (LastRange avx mask).2) in *. destruct Hsp as (H1 & H2 & H3 & H4 & H5).
  unfold NUM_ADDRESS_PAGES in *. destruct (Z.eqb_spec e0 e1) as [->|Hne].
  - assert (Hmk : forall x, masked mask base x = in_range (base + s0) (base + s0 + (e1 - s0)) x).
    { intros x. unfold masked, in_range. destruct (decide (base <= x < base + Size mask)); [|split_cmp; lia].
      destruct (bit mask (x - base)) eqn:E; [specialize (H5 (x - base) ltac:(lia) E); split_cmp; lia|].
      destruct (decide (s0 <= x - base < e1)) as [Hi|]; [by rewrite H4 in E by lia|]. rewrite andb_false_r. split_cmp; lia. }
    rewrite !Z.shiftl_mul_pow2 by lia. change (2 ^ 12) with 4096. rewrite wadd_small by (unfold W64; lia).
    replace (4096 * base + s0 * 4096) with (4096 * (base + s0)) by lia. replace ((e1 - s0) * 4096) with (4096 * (e1 - s0)) by lia.
    destruct (UpdatePageWatchers_spec track is_read (base + s0) (e1 - s0) s) as (s' & -> & Hok' & Hs'); [done|lia|lia|unfold NUM_ADDRESS_PAGES; lia|..].
    + intros x Hx. apply Hl. rewrite Hmk. unfold in_range. split_cmp; lia.
    + exists s'. split; [done|]. split; [done|]. intros x. by rewrite Hs', Hmk.
  - rewrite Z.shiftr_div_pow2 by lia. change (2 ^ 12) with 4096. rewrite (Z.mul_comm 4096 base), Z.div_mul by lia.
    rewrite Hmod. cbn [Z.eqb oassert obind].
    assert (Ht : forall k, 0 <= k < Size mask -> in_table (base + k) = true) by (intros k Hk; unfold in_table, NUM_ADDRESS_PAGES; split_cmp; lia).
    unfold page_state. rewrite Ht by lia. cbn [obind].
    assert (Hlt : s0 < e1).
    { specialize (H5 s0 ltac:(lia) (H4 s0 ltac:(lia))). lia. }
    destruct (walk_spec track is_read (fun k => Get k mask) (bit mask) base (Z.to_nat (e1 - s0)) s0 (mkWalk (Perms (state_of (base + s0) s)) 0 0 0) s) as (w' & s' & -> & Hi & Hs').
    + intros k Hk. apply Get_spec; [done|lia].
    + intros k Hk. apply Ht. lia.
    + by apply pages_ok_start.
    + intros k Hk Hu. apply Hl. unfold masked, in_range. replace (base + k - base) with k by lia. rewrite Hu. split_cmp; lia.
    + cbn [obind]. eapply finish_walk; [exact Hi| |apply Hok|exact Hl]. intros x. rewrite Hs'. f_equal. rewrite Z2Nat.id by lia.
      unfold masked, in_range. destruct (bit mask (x - base)) eqn:E; [|by rewrite !andb_false_r].
      destruct (decide (base <= x < base + Size mask)); [|split_cmp; lia]. specialize (H5 (x - base) ltac:(lia) E). split_cmp; lia.
Qed.
