(* ===== verification/MemoryTracker.v ===== *)
(** * Modification tracking of guest memory ([video_core/buffer_cache/region_manager.h],
    [memory_tracker.h], [region_definitions.h])

    For every page of a region of 4 MB two bits say whether the CPU or the GPU has
    modified it since the other side last had its contents; the page manager
    watches the pages for accesses that change this.  The calls of a callback
    [func] are returned in order; [on_upload], which copies what was reported, does
    not call the tracker. *)

From stdpp Require Import gmap.
From S2P Require Import Prelude BitArray PageManager.

Definition TRACKER_PAGE_BITS : Z := 12.
Definition TRACKER_BYTES_PER_PAGE : Z := Z.shiftl 1 TRACKER_PAGE_BITS.
Definition TRACKER_HIGHER_PAGE_BITS : Z := 22.
Definition TRACKER_HIGHER_PAGE_SIZE : Z := Z.shiftl 1 TRACKER_HIGHER_PAGE_BITS.
Definition TRACKER_HIGHER_PAGE_MASK : Z := TRACKER_HIGHER_PAGE_SIZE - 1.

Inductive Type_ := CPU | GPU.

Inductive GpuReadbacksMode := Disabled | Relaxed | Precise.
#[export] Instance mode_eq_dec : EqDecision GpuReadbacksMode.
Proof. solve_decision. Defined.

(** The setting, and whether the host has the vector instructions. *)
Record TrackerEnv := mkEnv { readbacks : GpuReadbacksMode; with_avx : bool }.

(** ** Regions *)

Record RegionManager := mkRegion { lock : bool; cpu_addr : Z; cpu : BitArray; gpu : BitArray; writeable : BitArray; readable : BitArray }.

Definition no_bits : BitArray := replicate (Z.to_nat (NUM_PAGES_PER_REGION / BITS_PER_WORD)) 0.

Definition new_region (addr : Z) : RegionManager := mkRegion false addr (Fill no_bits) (Clear no_bits) (Fill no_bits) (Fill no_bits).

Definition SetCpuAddress (addr : Z) (r : RegionManager) : RegionManager := mkRegion (lock r) addr (cpu r) (gpu r) (writeable r) (readable r).

Definition SanitizeAddress (address : Z) : Z := Z.max (s64 address) 0.

Definition GetRegionBits (type : Type_) (r : RegionManager) : BitArray := match type with CPU => cpu r | GPU => gpu r end.
Definition set_bits (type : Type_) (b : BitArray) (r : RegionManager) : RegionManager :=
  match type with
  | CPU => mkRegion (lock r) (cpu_addr r) b (gpu r) (writeable r) (readable r)
  | GPU => mkRegion (lock r) (cpu_addr r) (cpu r) b (writeable r) (readable r)
  end.

Definition start_page (offset : Z) : Z := SanitizeAddress offset / TRACKER_BYTES_PER_PAGE.
Definition end_page (offset size : Z) : Z := DivCeil (SanitizeAddress (wadd offset size)) TRACKER_BYTES_PER_PAGE.
Definition out_of_region (offset size : Z) : bool := (NUM_PAGES_PER_REGION <=? start_page offset) || (end_page offset size <=? start_page offset).

Definition UpdateProtection (env : TrackerEnv) (track is_read : bool) (r : RegionManager) (pm : PageManager) : outcome (RegionManager * PageManager) :=
  let mask := if is_read then bits_xor (bits_not (gpu r)) (readable r) else bits_xor (cpu r) (writeable r) in
  if None_ mask then Done (r, pm) else
  let r := if is_read then mkRegion (lock r) (cpu_addr r) (cpu r) (gpu r) (writeable r) (bits_not (gpu r))
           else mkRegion (lock r) (cpu_addr r) (cpu r) (gpu r) (cpu r) (readable r) in
  let! pm := UpdatePageWatchersForRegion (with_avx env) track is_read (cpu_addr r) mask pm in
  Done (r, pm).

Definition ChangeRegionState (env : TrackerEnv) (type : Type_) (enable : bool) (dirty_addr size : Z) (r : RegionManager) (pm : PageManager) :
    outcome (RegionManager * PageManager) :=
  let offset := wsub dirty_addr (cpu_addr r) in
  if out_of_region offset size then Done (r, pm) else
  let bits := GetRegionBits type r in
  let r := set_bits type ((if enable then SetRange else UnsetRange) (start_page offset) (end_page offset size) bits) r in
  match type with
  | CPU => UpdateProtection env (negb enable) false r pm
  | GPU => if bool_decide (readbacks env = Precise) then UpdateProtection env enable true r pm else Done (r, pm)
  end.

Definition ForEachModifiedRange (env : TrackerEnv) (type : Type_) (clear : bool) (query size : Z) (r : RegionManager) (pm : PageManager) :
    outcome (list Range * RegionManager * PageManager) :=
  let offset := wsub query (cpu_addr r) in
  if out_of_region offset size then Done ([], r, pm) else
  let bits := GetRegionBits type r in
  let mask := CopyRange bits (start_page offset) (end_page offset size) in
  let! '(r, pm) :=
    (if clear then
       let r := set_bits type (UnsetRange (start_page offset) (end_page offset size) bits) r in
       match type with
       | CPU => UpdateProtection env true false r pm
       | GPU => if negb (bool_decide (readbacks env = Disabled)) then UpdateProtection env false true r pm else Done (r, pm)
       end
     else Done (r, pm)) in
  let! l := ranges (with_avx env) mask in
  Done ((fun '(s, e) => (wadd (cpu_addr r) (s * TRACKER_BYTES_PER_PAGE), (e - s) * TRACKER_BYTES_PER_PAGE)) <$> l, r, pm).

Definition IsRegionModified (type : Type_) (offset size : Z) (r : RegionManager) : bool :=
  if out_of_region offset size then false else Any (CopyRange (GetRegionBits type r) (start_page offset) (end_page offset size)).

(** ** The tracker

    Managers are named by their place in [manager_pool], which holds [pools] arrays
    of 32; the back of [free_managers] is the head of the list. *)

Definition NUM_HIGH_PAGES : Z := 262144.
Definition MANAGER_POOL_SIZE : Z := 32.

Record MemoryTracker := mkTracker { managers : gmap Z RegionManager; pools : Z; free_managers : list Z; top_tier : gmap Z Z; pages : PageManager }.

Definition new_tracker (pm : PageManager) : MemoryTracker := mkTracker ∅ 0 [] ∅ pm.

(** [for (i = 0; i < MANAGER_POOL_SIZE; i++)] of [CreateRegion], from [id] on. *)
Fixpoint construct (n : nat) (id : Z) (t : MemoryTracker) : MemoryTracker :=
  match n with
  | O => t
  | S n => construct n (id + 1) (mkTracker (<[id := new_region 0]> (managers t)) (pools t) (id :: free_managers t) (top_tier t) (pages t))
  end.

Definition CreateRegion (page_index : Z) (t : MemoryTracker) : outcome MemoryTracker :=
  let base_cpu_addr := Z.shiftl page_index TRACKER_HIGHER_PAGE_BITS in
  let t :=
    match free_managers t with
    | [] => construct (Z.to_nat MANAGER_POOL_SIZE) (MANAGER_POOL_SIZE * pools t)
              (mkTracker (managers t) (pools t + 1) (free_managers t) (top_tier t) (pages t))
    | _ => t
    end in
  match free_managers t with
  | [] => Raised Undefined
  | id :: free =>
      let! r := of_option (managers t !! id) in
      Done (mkTracker (<[id := SetCpuAddress base_cpu_addr r]> (managers t)) (pools t) free (<[page_index := id]> (top_tier t)) (pages t))
  end.

(** A callback of [IteratePages] gets the manager, an offset and a size, works on
    the tracker and on what the operation collects, and says whether to stop. *)
Definition Func (A : Type) : Type := Z -> Z -> Z -> MemoryTracker * A -> outcome (bool * (MemoryTracker * A)).

Definition visit_manager {A} (create_region_on_fail : bool) (func : Func A) (page_index page_offset copy_amount : Z) (ta : MemoryTracker * A) :
    outcome (bool * (MemoryTracker * A)) :=
  if NUM_HIGH_PAGES <=? page_index then Raised Undefined else
  match top_tier (fst ta) !! page_index with
  | Some manager => func manager page_offset copy_amount ta
  | None =>
      if create_region_on_fail then
        let! t := CreateRegion page_index (fst ta) in
        let! manager := of_option (top_tier t !! page_index) in
        func manager page_offset copy_amount (t, snd ta)
      else Done (false, ta)
  end.

Fixpoint iterate {A} (fuel : nat) (create_region_on_fail : bool) (func : Func A) (remaining_size page_index page_offset : Z) (ta : MemoryTracker * A) :
    outcome (bool * (MemoryTracker * A)) :=
  if remaining_size <=? 0 then Done (false, ta) else
  match fuel with
  | O => Raised OutOfFuel
  | S fuel =>
      let copy_amount := Z.min (TRACKER_HIGHER_PAGE_SIZE - page_offset) remaining_size in
      let! '(stop, ta) := visit_manager create_region_on_fail func page_index page_offset copy_amount ta in
      if stop then Done (true, ta)
      else iterate fuel create_region_on_fail func (remaining_size - copy_amount) (page_index + 1) 0 ta
  end.

Definition IteratePages {A} (create_region_on_fail : bool) (cpu_address size : Z) (func : Func A) (ta : MemoryTracker * A) : outcome (bool * (MemoryTracker * A)) :=
  iterate (Z.to_nat (size / TRACKER_HIGHER_PAGE_SIZE) + 2) create_region_on_fail func size
    (Z.shiftr cpu_address TRACKER_HIGHER_PAGE_BITS) (Z.land cpu_address TRACKER_HIGHER_PAGE_MASK) ta.

Definition set_manager (id : Z) (r : RegionManager) (pm : PageManager) (t : MemoryTracker) : MemoryTracker :=
  mkTracker (<[id := r]> (managers t)) (pools t) (free_managers t) (top_tier t) pm.
Definition set_lock (b : bool) (r : RegionManager) : RegionManager := mkRegion b (cpu_addr r) (cpu r) (gpu r) (writeable r) (readable r).

(** [manager->lock.lock()]: a thread that waits for itself does not go on. *)
Definition take_lock (id : Z) (t : MemoryTracker) : outcome MemoryTracker :=
  let! r := of_option (managers t !! id) in
  if lock r then Raised Undefined else Done (set_manager id (set_lock true r) (pages t) t).
Definition drop_lock (id : Z) (t : MemoryTracker) : outcome MemoryTracker :=
  let! r := of_option (managers t !! id) in Done (set_manager id (set_lock false r) (pages t) t).

(** Work on a manager, on its own or under [std::scoped_lock]. *)
Definition on_manager {B} (id : Z) (f : RegionManager -> PageManager -> outcome (B * RegionManager * PageManager)) (t : MemoryTracker) : outcome (B * MemoryTracker) :=
  let! r := of_option (managers t !! id) in
  let! '(x, r, pm) := f r (pages t) in
  Done (x, set_manager id r pm t).

Definition locked {B} (id : Z) (f : RegionManager -> PageManager -> outcome (B * RegionManager * PageManager)) (t : MemoryTracker) : outcome (B * MemoryTracker) :=
  let! t := take_lock id t in
  let! '(x, t) := on_manager id f t in
  let! t := drop_lock id t in
  Done (x, t).

(** [ChangeRegionState] at [manager->GetCpuAddr() + offset]. *)
Definition change (env : TrackerEnv) (type : Type_) (enable : bool) (offset size : Z) (r : RegionManager) (pm : PageManager) : outcome (unit * RegionManager * PageManager) :=
  let! '(r, pm) := ChangeRegionState env type enable (wadd (cpu_addr r) offset) size r pm in Done (tt, r, pm).

Definition is_modified (type : Type_) (addr size : Z) (create : bool) (t : MemoryTracker) : outcome (bool * MemoryTracker) :=
  let! '(found, (t, _)) :=
    IteratePages create addr size
      (fun id offset size '(t, a) => let! '(m, t) := locked id (fun r pm => Done (IsRegionModified type offset size r, r, pm)) t in Done (m, (t, a))) (t, tt) in
  Done (found, t).

Definition IsRegionCpuModified (addr size : Z) : MemoryTracker -> outcome (bool * MemoryTracker) := is_modified CPU addr size true.
Definition IsRegionGpuModified (addr size : Z) : MemoryTracker -> outcome (bool * MemoryTracker) := is_modified GPU addr size false.

(** A change of all managers of a range. *)
Definition change_all (env : TrackerEnv) (type : Type_) (enable : bool) (addr size : Z) (t : MemoryTracker) : outcome MemoryTracker :=
  let! '(_, (t, _)) :=
    IteratePages false addr size
      (fun id offset size '(t, a) => let! '(_, t) := locked id (change env type enable offset size) t in Done (false, (t, a))) (t, tt) in
  Done t.

Definition MarkRegionAsCpuModified (env : TrackerEnv) (addr size : Z) : MemoryTracker -> outcome MemoryTracker := change_all env CPU true addr size.
Definition UnmarkRegionAsGpuModified (env : TrackerEnv) (addr size : Z) : MemoryTracker -> outcome MemoryTracker := change_all env GPU false addr size.

Definition InvalidateRegion (env : TrackerEnv) (addr size : Z) (on_flush : MemoryTracker -> outcome MemoryTracker) (t : MemoryTracker) : outcome MemoryTracker :=
  let! '(_, (t, _)) :=
    IteratePages false addr size
      (fun id offset size '(t, a) =>
         let! '(should_flush, t) :=
           locked id (fun r pm =>
             if negb (bool_decide (readbacks env = Disabled)) && IsRegionModified GPU offset size r then Done (true, r, pm)
             else let! '(_, r, pm) := change env CPU true offset size r pm in Done (false, r, pm)) t in
         let! t := (if should_flush : bool then on_flush t else Done t) in
         Done (false, (t, a))) (t, tt) in
  Done t.

(** The ranges of one manager, added to those before. *)
Definition collect (env : TrackerEnv) (type : Type_) (clear : bool) (offset size : Z) (r : RegionManager) (pm : PageManager) : outcome (list Range * RegionManager * PageManager) :=
  ForEachModifiedRange env type clear (wadd (cpu_addr r) offset) size r pm.

Definition ForEachUploadRange (env : TrackerEnv) (addr size : Z) (is_written : bool) (t : MemoryTracker) : outcome (list Range * MemoryTracker) :=
  let! '(_, (t, l)) :=
    IteratePages true addr size
      (fun id offset size '(t, l) =>
         let! t := take_lock id t in
         let! '(l', t) := on_manager id (collect env CPU true offset size) t in
         let! t := (if is_written then Done t else drop_lock id t) in
         Done (false, (t, l ++ l'))) (t, []) in
  if negb is_written then Done (l, t) else
  let! '(_, (t, _)) :=
    IteratePages false addr size
      (fun id offset size '(t, a) =>
         let! '(_, t) := on_manager id (change env GPU true offset size) t in
         let! t := drop_lock id t in
         Done (false, (t, a))) (t, tt) in
  Done (l, t).

Definition ForEachDownloadRange (env : TrackerEnv) (clear : bool) (addr size : Z) (t : MemoryTracker) : outcome (list Range * MemoryTracker) :=
  let! '(_, (t, l)) :=
    IteratePages false addr size
      (fun id offset size '(t, l) => let! '(l', t) := locked id (collect env GPU clear offset size) t in Done (false, (t, l ++ l'))) (t, []) in
  Done (l, t).

(** What the buffer cache does when a written page needs a flush, once the data is
    back ([buffer_cache.cpp], end of [DownloadBufferMemory]). *)
Definition flush_write (env : TrackerEnv) (addr size : Z) (t : MemoryTracker) : outcome MemoryTracker :=
  let! t := UnmarkRegionAsGpuModified env addr size t in MarkRegionAsCpuModified env addr size t.
