(* ===== verification/TrackFacts.v ===== *)
(** * Modification tracking: one region

    A region is well formed when the protection it asked for is that of its bits
    ([region_ok]); the watchers of a page are those of its region and those of
    others ([rel]).  Changing bits keeps both, and reaches no page outside the
    region. *)

From stdpp Require Import gmap.
From S2P Require Import Prelude BitArray BitFacts PageManager PageFacts MemoryTracker.

Definition region_bits (b : BitArray) : Prop := bits_ok b /\ length b = 16%nat.

Lemma region_size b : length b = 16%nat -> Size b = 1024.
Proof. unfold Size, BITS_PER_WORD. intros ->. done. Qed.

(** The pages of a region a byte range meets. *)
Definition meets (offset size i : Z) : bool := in_range (offset / 4096) ((offset + size + 4095) / 4096) i.

Definition chunk (offset size : Z) : Prop := 0 <= offset /\ 0 < size /\ offset + size <= 4194304.

Lemma chunk_pages offset size : chunk offset size ->
  out_of_region offset size = false /\ start_page offset = offset / 4096 /\ end_page offset size = (offset + size + 4095) / 4096
  /\ 0 <= offset / 4096 < (offset + size + 4095) / 4096 /\ (offset + size + 4095) / 4096 <= 1024.
Proof.
  intros (H1 & H2 & H3). unfold out_of_region, start_page, end_page, SanitizeAddress, DivCeil, NUM_PAGES_PER_REGION.
  change TRACKER_BYTES_PER_PAGE with 4096. rewrite (wadd_small offset) by (unfold W64; lia). rewrite !s64_small, !Z.max_l by lia.
  rewrite wadd_small, wsub_small by (unfold W64; lia). replace (offset + size + 4096 - 1) with (offset + size + 4095) by lia.
  assert (0 <= offset / 4096 < (offset + size + 4095) / 4096 /\ (offset + size + 4095) / 4096 <= 1024 /\ offset / 4096 < 1024).
  { Z.div_mod_to_equations. lia. }
  split; [split_cmp; lia|]. split; [done|]. split; [done|]. lia.
Qed.

Section region.
Context (env : TrackerEnv) (other : Z -> Z).
Hypothesis (Hother : forall x, 0 <= other x <= 126).

Definition precise : bool := bool_decide (readbacks env = Precise).

Record region_ok (q : Z) (r : RegionManager) : Prop := {
  ro_addr : cpu_addr r = 4096 * (1024 * q);
  ro_place : 0 <= q < NUM_HIGH_PAGES;
  ro_cpu : region_bits (cpu r);
  ro_gpu : region_bits (gpu r);
  ro_writeable : writeable r = cpu r;
  ro_readable : readable r = if precise then bits_not (gpu r) else Fill no_bits;
  ro_excl : precise = true -> forall i, 0 <= i < 1024 -> bit (cpu r) i = true -> bit (gpu r) i = false }.

(** The watchers of the pages of region [q], with cpu bits [c] and readable bits [d]. *)
Definition rel (q : Z) (c d : BitArray) (pm : PageManager) : Prop :=
  forall i, 0 <= i < 1024 -> let p := state_of (1024 * q + i) pm in
    num_write_watchers p = other (1024 * q + i) + (if bit c i then 0 else 1) /\ num_read_watchers p = (if bit d i then 0 else 1).

Definition elsewhere (q : Z) (pm pm' : PageManager) : Prop := forall x, in_range (1024 * q) (1024 * q + 1024) x = false -> state_of x pm' = state_of x pm.

Lemma no_bits_ok : region_bits no_bits.
Proof. split; [apply zeros_ok|done]. Qed.

Lemma Fill_region b : length b = 16%nat -> region_bits (Fill b).
Proof. intros E. split; [apply Forall_fmap; apply Forall_true; done|]. unfold Fill. by rewrite length_fmap. Qed.

Lemma not_region b : region_bits b -> region_bits (bits_not b).
Proof. intros [H1 H2]. split; [by apply bits_not_ok|]. unfold bits_not. by rewrite length_fmap. Qed.

Lemma readable_region q r : region_ok q r -> region_bits (readable r).
Proof. intros []. rewrite ro_readable0. destruct precise; [by apply not_region|by apply Fill_region]. Qed.

Lemma readable_bit q r i : region_ok q r -> 0 <= i < 1024 -> bit (readable r) i = if precise then negb (bit (gpu r) i) else true.
Proof.
  intros [] Hi. rewrite ro_readable0. destruct precise; [apply bits_not_bit; rewrite region_size by apply ro_gpu0; done|].
  apply Fill_bit. by rewrite region_size by apply no_bits_ok.
Qed.

(** Pages with mask [a xor b], by index. *)
Lemma masked_xor a b q x : region_bits a -> region_bits b ->
  masked (bits_xor a b) (1024 * q) x = in_range (1024 * q) (1024 * q + 1024) x && xorb (bit a (x - 1024 * q)) (bit b (x - 1024 * q)).
Proof.
  intros [Ha La] [Hb Lb]. unfold masked. rewrite (region_size (bits_xor a b)) by (rewrite bits_xor_length; congruence).
  destruct (in_range _ _ x) eqn:E; [|done]. cbn. unfold in_range in E. bool_prop. apply bits_xor_bit; [congruence|]. rewrite region_size by done. lia.
Qed.

Lemma xor_none a b : region_bits a -> region_bits b -> None_ (bits_xor a b) = true -> a = b.
Proof.
  intros [Ha La] [Hb Lb] E. apply bits_ext; [done|done|congruence|]. intros i Hi. rewrite None_spec in E by by apply bits_xor_ok.
  specialize (E i). rewrite (region_size (bits_xor a b)) in E by (rewrite bits_xor_length; congruence). rewrite region_size in Hi by done.
  rewrite bits_xor_bit in E by (try congruence; rewrite region_size by done; lia). specialize (E Hi). by destruct (bit a i), (bit b i).
Qed.

(** [UpdatePageWatchersForRegion] with the difference of two arrays. *)
Lemma watch_difference track is_read a b q pm : region_bits a -> region_bits b -> 0 <= q < NUM_HIGH_PAGES -> pages_ok pm ->
  None_ (bits_xor a b) = false ->
  (forall i, 0 <= i < 1024 -> bit a i <> bit b i -> legal track is_read (state_of (1024 * q + i) pm)) ->
  exists pm', UpdatePageWatchersForRegion (with_avx env) track is_read (4096 * (1024 * q)) (bits_xor a b) pm = Done pm' /\ pages_ok pm' /\ elsewhere q pm pm'
    /\ forall i, 0 <= i < 1024 -> state_of (1024 * q + i) pm' = touched track is_read (xorb (bit a i) (bit b i)) (state_of (1024 * q + i) pm).
Proof.
  intros Ha Hb Hq Hpm Hn Hl. unfold NUM_HIGH_PAGES in Hq.
  destruct (UpdatePageWatchersForRegion_spec (with_avx env) track is_read (1024 * q) (bits_xor a b) pm) as (pm' & -> & Hok & Hs); try done.
  - apply bits_xor_ok; [apply Ha|apply Hb].
  - lia.
  - unfold PAGES_PER_LOCK, NUM_PAGES_PER_REGION. rewrite Z.mul_comm. apply Z.mod_mul. lia.
  - rewrite region_size by (rewrite bits_xor_length; destruct Ha, Hb; congruence). unfold NUM_ADDRESS_PAGES. lia.
  - intros x Hx. rewrite masked_xor in Hx by done. apply andb_true_iff in Hx as [Hr Hx]. unfold in_range in Hr. bool_prop.
    replace x with (1024 * q + (x - 1024 * q)) by lia. apply Hl; [lia|]. intros E. by rewrite E, xorb_nilpotent in Hx.
  - exists pm'. split; [done|]. split; [done|]. split.
    + intros x Hx. rewrite Hs, masked_xor by done. by rewrite Hx.
    + intros i Hi. rewrite Hs, masked_xor by done. replace (1024 * q + i - 1024 * q) with i by lia. f_equal. unfold in_range. split_cmp; try lia; done.
Qed.

(** New cpu bits [c] of a region: all set before or all cleared. *)
Lemma reprotect_write q r c enable pm : region_ok q r -> rel q (cpu r) (readable r) pm -> pages_ok pm -> region_bits c ->
  (forall i, 0 <= i < 1024 -> bit c i <> bit (cpu r) i -> bit c i = enable) ->
  (precise = true -> forall i, 0 <= i < 1024 -> bit c i = true -> bit (gpu r) i = false) ->
  exists pm', UpdateProtection env (negb enable) false (set_bits CPU c r) pm
      = Done (mkRegion (lock r) (cpu_addr r) c (gpu r) c (readable r), pm')
    /\ pages_ok pm' /\ elsewhere q pm pm' /\ rel q c (readable r) pm'.
Proof.
  intros Hr Hrel Hpm Hc Hdir Hex. pose proof Hr as []. unfold UpdateProtection. cbn [set_bits cpu gpu writeable readable lock cpu_addr].
  rewrite ro_writeable0. destruct (None_ (bits_xor c (cpu r))) eqn:En.
  - apply xor_none in En as ->; [|done|done]. exists pm. split; [by destruct r; cbn in *; subst|]. split; [done|]. by split; [intros x _|].
  - rewrite ro_addr0. destruct (watch_difference (negb enable) false c (cpu r) q pm) as (pm' & -> & Hok & He & Hs); try done.
    + intros i Hi Hne. destruct (Hrel i Hi) as [Hw Hd]. specialize (Hdir i Hi Hne). pose proof (Hother (1024 * q + i)).
      assert (Hold : bit (cpu r) i = negb enable) by (destruct (bit c i), (bit (cpu r) i), enable; done || congruence). rewrite Hold in Hw.
      split; [apply Hpm|]. unfold can_add, added. rewrite (readable_bit q) in Hd by done.
      destruct enable; cbn in *; split; try lia.
      * unfold Perms, ReadPerm, WritePerm. cbn. specialize (Hex). destruct precise eqn:Ep; [rewrite (Hex eq_refl i Hi Hdir) in Hd; cbn in Hd|]; rewrite Hd; cbn; by destruct (_ =? 0).
      * unfold Perms, ReadPerm, WritePerm. cbn. rewrite (proj2 (Z.eqb_neq (num_write_watchers (state_of (1024 * q + i) pm) + 1) 0)) by lia. by destruct (_ =? 0).
    + exists pm'. split; [done|]. split; [done|]. split; [done|]. intros i Hi. destruct (Hrel i Hi) as [Hw Hd]. rewrite Hs by done.
      destruct (bit c i) eqn:Ec, (bit (cpu r) i) eqn:Eo; cbn [xorb touched].
      * by rewrite Hw, Hd.
      * assert (enable = true) as -> by (rewrite <- (Hdir i Hi); congruence). cbn. rewrite Hw, Hd. lia.
      * assert (enable = false) as -> by (rewrite <- (Hdir i Hi); congruence). cbn. rewrite Hw, Hd. lia.
      * by rewrite Hw, Hd.
Qed.

(** New gpu bits, where the protection follows them. *)
Lemma reprotect_read q r g enable pm : region_ok q r -> rel q (cpu r) (readable r) pm -> pages_ok pm -> region_bits g -> precise = true ->
  (forall i, 0 <= i < 1024 -> bit g i <> bit (gpu r) i -> bit g i = enable) ->
  (forall i, 0 <= i < 1024 -> bit (cpu r) i = true -> bit g i = false) ->
  exists pm', UpdateProtection env enable true (set_bits GPU g r) pm
      = Done (mkRegion (lock r) (cpu_addr r) (cpu r) g (writeable r) (bits_not g), pm')
    /\ pages_ok pm' /\ elsewhere q pm pm' /\ rel q (cpu r) (bits_not g) pm'.
Proof.
  intros Hr Hrel Hpm Hg Hp Hdir Hex. pose proof Hr as []. unfold UpdateProtection. cbn [set_bits cpu gpu writeable readable lock cpu_addr].
  assert (Hnot : forall i b, 0 <= i < 1024 -> region_bits b -> bit (bits_not b) i = negb (bit b i)).
  { intros i b Hi [_ L]. apply bits_not_bit. by rewrite region_size. }
  rewrite Hp in ro_readable0. rewrite ro_readable0 in *. destruct (None_ (bits_xor (bits_not g) (bits_not (gpu r)))) eqn:En.
  - apply xor_none in En as ->; [|by apply not_region|by apply not_region]. exists pm. split; [|split; [done|]; by split; [intros x _|]].
    f_equal.
  - rewrite ro_addr0. destruct (watch_difference enable true (bits_not g) (bits_not (gpu r)) q pm) as (pm' & -> & Hok & He & Hs); try (done || by apply not_region).
    + intros i Hi Hne. rewrite !Hnot in Hne by done. destruct (Hrel i Hi) as [Hw Hd]. rewrite Hnot in Hd by done. pose proof (Hother (1024 * q + i)).
      assert (Hgi : bit g i = enable) by (apply Hdir; [done|]; intros E; by rewrite E in Hne).
      assert (Hold : bit (gpu r) i = negb enable) by (destruct (bit g i), (bit (gpu r) i), enable; done || congruence). rewrite Hold in Hd.
      split; [apply Hpm|]. unfold can_add, added. destruct enable; cbn in *; split; try lia.
      * assert (Hcl : bit (cpu r) i = false) by (destruct (bit (cpu r) i) eqn:E; [by rewrite (Hex i Hi E) in Hgi|done]). rewrite Hcl in Hw.
        unfold Perms, ReadPerm, WritePerm. cbn. rewrite Hd, (proj2 (Z.eqb_neq (num_write_watchers _) 0)) by lia. done.
      * unfold Perms, ReadPerm, WritePerm. cbn. rewrite Hd. change (1 + -1 =? 0) with true. by destruct (num_write_watchers _ =? 0).
    + exists pm'. split; [done|]. split; [done|]. split; [done|]. intros i Hi. destruct (Hrel i Hi) as [Hw Hd]. rewrite Hs by done. rewrite Hnot in Hd by done. rewrite !Hnot by done.
      destruct (bit g i) eqn:Ec, (bit (gpu r) i) eqn:Eo; cbn [xorb touched negb] in *.
      * by rewrite Hw, Hd.
      * assert (enable = true) as -> by (rewrite <- (Hdir i Hi); congruence). cbn. rewrite Hw, Hd. lia.
      * assert (enable = false) as -> by (rewrite <- (Hdir i Hi); congruence). cbn. rewrite Hw, Hd. lia.
      * by rewrite Hw, Hd.
Qed.
(** ** Operations of a region *)

Record region_step (q : Z) (r : RegionManager) (pm : PageManager) (r' : RegionManager) (pm' : PageManager) : Prop := {
  rs_ok : region_ok q r';
  rs_rel : rel q (cpu r') (readable r') pm';
  rs_pages : pages_ok pm';
  rs_elsewhere : elsewhere q pm pm';
  rs_lock : lock r' = lock r }.

Definition region_at_rest (q : Z) (r : RegionManager) (pm : PageManager) : Prop := region_ok q r /\ rel q (cpu r) (readable r) pm /\ pages_ok pm.

Lemma step_refl q r pm : region_at_rest q r pm -> region_step q r pm r pm.
Proof. intros (? & ? & ?). by split. Qed.

Lemma own_offset q r o : region_ok q r -> 0 <= o < 4194304 -> wsub (wadd (cpu_addr r) o) (cpu_addr r) = o.
Proof. intros [] Ho. unfold NUM_HIGH_PAGES in *. rewrite ro_addr0, wadd_small, wsub_small by (unfold W64; lia). lia. Qed.

Lemma chunk_offset o sz : chunk o sz -> 0 <= o < 4194304.
Proof. unfold chunk. lia. Qed.

Lemma range_change enable o sz b : region_bits b -> chunk o sz ->
  let b' := (if enable : bool then SetRange else UnsetRange) (o / 4096) ((o + sz + 4095) / 4096) b in
  region_bits b' /\ forall i, 0 <= i < 1024 -> bit b' i = if meets o sz i then enable else bit b i.
Proof.
  intros [Hb Lb] Hc. destruct (chunk_pages o sz Hc) as (_ & _ & _ & H1 & H2).
  assert (Hne : empty_range (o / 4096) ((o + sz + 4095) / 4096) b = false) by (apply empty_range_spec; rewrite region_size by done; lia).
  destruct enable; cbn; (split; [split|]).
  - by apply SetRange_ok.
  - by rewrite SetRange_length.
  - intros i Hi. rewrite SetRange_bit by (done || lia || by rewrite region_size). rewrite Hne. cbn. unfold meets. by destruct (in_range _ _ i).
  - by apply UnsetRange_ok.
  - by rewrite UnsetRange_length.
  - intros i Hi. rewrite UnsetRange_bit by (done || lia || by rewrite region_size). rewrite Hne. cbn. unfold meets. by destruct (in_range _ _ i).
Qed.

(** The same change, as the code computes it. *)
Lemma change_pages type enable o sz q r pm : region_ok q r -> chunk o sz ->
  ChangeRegionState env type enable (wadd (cpu_addr r) o) sz r pm =
  let r := set_bits type ((if enable then SetRange else UnsetRange) (o / 4096) ((o + sz + 4095) / 4096) (GetRegionBits type r)) r in
  match type with
  | CPU => UpdateProtection env (negb enable) false r pm
  | GPU => if precise then UpdateProtection env enable true r pm else Done (r, pm)
  end.
Proof.
  intros Hr Hc. destruct (chunk_pages o sz Hc) as (E1 & E2 & E3 & _). unfold ChangeRegionState. rewrite (own_offset q) by (done || by eapply chunk_offset).
  by rewrite E1, E2, E3.
Qed.

Definition new_bits (o sz : Z) (enable : bool) (b b' : BitArray) : Prop :=
  forall i, 0 <= i < 1024 -> bit b' i = if meets o sz i then enable else bit b i.

(** Setting or clearing cpu bits; pages the GPU modified are not set when the
    protection follows it. *)
Lemma cpu_change enable o sz q r pm : region_at_rest q r pm -> chunk o sz ->
  (precise = true -> enable = true -> forall i, 0 <= i < 1024 -> meets o sz i = true -> bit (gpu r) i = false) ->
  exists r' pm', UpdateProtection env (negb enable) false
      (set_bits CPU ((if enable then SetRange else UnsetRange) (o / 4096) ((o + sz + 4095) / 4096) (cpu r)) r) pm = Done (r', pm')
    /\ region_step q r pm r' pm' /\ gpu r' = gpu r /\ new_bits o sz enable (cpu r) (cpu r').
Proof.
  intros (Hr & Hrel & Hpm) Hc Hgp. destruct (range_change enable o sz (cpu r) (ro_cpu _ _ Hr) Hc) as [Hb Hbits]. set (c := (if enable then _ else _) _ _ _) in *.
  assert (Hex : precise = true -> forall i, 0 <= i < 1024 -> bit c i = true -> bit (gpu r) i = false).
  { intros Hp i Hi E. rewrite Hbits in E by done. destruct (meets o sz i) eqn:Em; [subst; by apply Hgp|by apply (ro_excl _ _ Hr)]. }
  destruct (reprotect_write q r c enable pm Hr Hrel Hpm Hb) as (pm' & E & Hok & He & Hrel').
  - intros i Hi Hne. rewrite Hbits in * by done. by destruct (meets o sz i).
  - exact Hex.
  - eexists _, pm'. split; [exact E|]. pose proof Hr as []. split; [|done]. split; cbn; done.
Qed.

Lemma gpu_change enable o sz q r pm : region_at_rest q r pm -> chunk o sz ->
  (precise = true -> enable = true -> forall i, 0 <= i < 1024 -> meets o sz i = true -> bit (cpu r) i = false) ->
  exists r' pm', (if precise then UpdateProtection env enable true
      (set_bits GPU ((if enable then SetRange else UnsetRange) (o / 4096) ((o + sz + 4095) / 4096) (gpu r)) r) pm
      else Done (set_bits GPU ((if enable then SetRange else UnsetRange) (o / 4096) ((o + sz + 4095) / 4096) (gpu r)) r, pm)) = Done (r', pm')
    /\ region_step q r pm r' pm' /\ cpu r' = cpu r /\ new_bits o sz enable (gpu r) (gpu r').
Proof.
  intros (Hr & Hrel & Hpm) Hc Hcp. destruct (range_change enable o sz (gpu r) (ro_gpu _ _ Hr) Hc) as [Hb Hbits]. set (g := (if enable then _ else _) _ _ _) in *.
  pose proof Hr as []. destruct precise eqn:Hp.
  - assert (Hex : forall i, 0 <= i < 1024 -> bit (cpu r) i = true -> bit g i = false).
    { intros i Hi E. rewrite Hbits by done. destruct (meets o sz i) eqn:Em; [|by apply ro_excl0]. destruct enable; [|done]. by rewrite Hcp in E. }
    destruct (reprotect_read q r g enable pm Hr Hrel Hpm Hb Hp) as (pm' & E & Hok & He & Hrel').
    + intros i Hi Hne. rewrite Hbits in * by done. by destruct (meets o sz i).
    + exact Hex.
    + eexists _, pm'. split; [exact E|]. split; [|done]. split; cbn; try done. split; cbn; try done. by rewrite Hp.
  - eexists _, pm. split; [done|]. split; [|done]. split; cbn; try done. split; cbn; try done; by rewrite Hp in *.
Qed.

(** ** Reports *)

(** Whether the calls [l] include the byte at [y]. *)
Definition reported (l : list Range) (y : Z) : bool := existsb (fun '(a, n) => in_range a (a + n) y) l.

Lemma reported_app l l' y : reported (l ++ l') y = reported l y || reported l' y.
Proof. apply existsb_app. Qed.

Lemma copy_bits o sz b : region_bits b -> chunk o sz -> let m := CopyRange b (o / 4096) ((o + sz + 4095) / 4096) in
  region_bits m /\ forall i, 0 <= i < 1024 -> bit m i = meets o sz i && bit b i.
Proof.
  intros [Hb Lb] Hc. destruct (chunk_pages o sz Hc) as (_ & _ & _ & H1 & H2).
  assert (Hne : empty_range (o / 4096) ((o + sz + 4095) / 4096) b = false) by (apply empty_range_spec; rewrite region_size by done; lia).
  split; [split; [by apply CopyRange_ok|by rewrite CopyRange_length]|]. intros i Hi. rewrite CopyRange_bit by (done || lia || by rewrite region_size). by rewrite Hne.
Qed.

Lemma runs_bounds m start l s e : runs m start l -> 0 <= start -> (s, e) ∈ l -> 0 <= s < e /\ e <= Size m.
Proof.
  induction 1 as [|start [s' e'] l Hs _ [Hse _] He _ _ IH]; intros H0 Hi; [by apply elem_of_nil in Hi|]. cbn in *.
  apply elem_of_cons in Hi as [[= -> ->]|Hi]; [lia|]. apply IH; [lia|done].
Qed.

Lemma report_runs q addr m l y : let x := y / 4096 in addr = 4096 * (1024 * q) -> 0 <= q < NUM_HIGH_PAGES -> region_bits m -> runs m 0 l ->
  reported ((fun '(s, e) => (wadd addr (s * TRACKER_BYTES_PER_PAGE), (e - s) * TRACKER_BYTES_PER_PAGE)) <$> l) y
  = in_range (1024 * q) (1024 * q + 1024) x && bit m (x - 1024 * q).
Proof.
  intros x -> Hq [Hm Lm] Hr. unfold NUM_HIGH_PAGES in Hq. pose proof (region_size m Lm) as Hsz.
  assert (Hy : 4096 * x <= y < 4096 * x + 4096) by (unfold x; Z.div_mod_to_equations; lia). clearbody x.
  assert (Hin : forall s e, (s, e) ∈ l -> 0 <= s < e /\ e <= 1024).
  { intros s e Hi. rewrite <- Hsz. by apply (runs_bounds m 0 l s e Hr). }
  assert (Hex : reported ((fun '(s, e) => (wadd (4096 * (1024 * q)) (s * TRACKER_BYTES_PER_PAGE), (e - s) * TRACKER_BYTES_PER_PAGE)) <$> l) y
    = existsb (fun r => in_range r.1 r.2 (x - 1024 * q)) l).
  { clear Hr. induction l as [|[s e] l IH]; [done|]. rewrite fmap_cons. unfold reported in *. cbn [existsb fst snd].
    f_equal; [|apply IH; intros; apply Hin; by right]. destruct (Hin s e) as [H1 H2]; [by left|]. change TRACKER_BYTES_PER_PAGE with 4096. rewrite wadd_small by (unfold W64; lia). unfold in_range. split_cmp; lia. }
  rewrite Hex. destruct (in_range (1024 * q) (1024 * q + 1024) x) eqn:Ex; cbn.
  - unfold in_range in Ex. bool_prop. symmetry. apply (runs_bit m 0); [done|]. rewrite Hsz. lia.
  - apply not_true_iff_false. rewrite existsb_exists. intros ([s e] & Hi & E). apply list_elem_of_In, Hin in Hi. unfold in_range in *. cbn in E. bool_prop.
    destruct Ex; bool_prop; lia.
Qed.

(** [ForEachModifiedRange] on a region at rest. *)
Lemma collect_pages type clear o sz q r pm : region_ok q r -> chunk o sz ->
  collect env type clear o sz r pm =
  let bits := GetRegionBits type r in
  let! '(r, pm) :=
    (if clear then
       let r := set_bits type (UnsetRange (o / 4096) ((o + sz + 4095) / 4096) bits) r in
       match type with
       | CPU => UpdateProtection env true false r pm
       | GPU => if negb (bool_decide (readbacks env = Disabled)) then UpdateProtection env false true r pm else Done (r, pm)
       end
     else Done (r, pm)) in
  let! l := ranges (with_avx env) (CopyRange bits (o / 4096) ((o + sz + 4095) / 4096)) in
  Done ((fun '(s, e) => (wadd (cpu_addr r) (s * TRACKER_BYTES_PER_PAGE), (e - s) * TRACKER_BYTES_PER_PAGE)) <$> l, r, pm).
Proof.
  intros Hr Hc. destruct (chunk_pages o sz Hc) as (E1 & E2 & E3 & _). unfold collect, ForEachModifiedRange. rewrite (own_offset q) by (done || by eapply chunk_offset).
  by rewrite E1, E2, E3.
Qed.

Definition reports (q o sz : Z) (b : BitArray) (l : list Range) : Prop :=
  forall y, let x := y / 4096 in reported l y = in_range (1024 * q) (1024 * q + 1024) x && (meets o sz (x - 1024 * q) && bit b (x - 1024 * q)).

Lemma reports_spec q o sz b addr avx : region_bits b -> chunk o sz -> 0 <= q < NUM_HIGH_PAGES -> addr = 4096 * (1024 * q) ->
  exists l, ranges avx (CopyRange b (o / 4096) ((o + sz + 4095) / 4096)) = Done l
    /\ reports q o sz b ((fun '(s, e) => (wadd addr (s * TRACKER_BYTES_PER_PAGE), (e - s) * TRACKER_BYTES_PER_PAGE)) <$> l).
Proof.
  intros Hb Hc Hq Ha. destruct (copy_bits o sz b Hb Hc) as [Hm Hbit]. destruct (ranges_spec avx _ (proj1 Hm)) as (l & -> & Hr).
  exists l. split; [done|]. intros y x. rewrite (report_runs q addr _ l y Ha Hq Hm Hr). fold x. destruct (in_range _ _ x) eqn:E; [|done]. cbn. unfold in_range in E. bool_prop.
  apply Hbit. lia.
Qed.

Lemma collect_cpu o sz q r pm : region_at_rest q r pm -> chunk o sz ->
  exists l r' pm', collect env CPU true o sz r pm = Done (l, r', pm') /\ region_step q r pm r' pm' /\ gpu r' = gpu r /\ new_bits o sz false (cpu r) (cpu r')
    /\ reports q o sz (cpu r) l.
Proof.
  intros Hrest Hc. pose proof Hrest as (Hr & _ & _). rewrite (collect_pages CPU true o sz q) by done. cbn [GetRegionBits].
  destruct (cpu_change false o sz q r pm Hrest Hc) as (r' & pm' & E & Hs & Hg & Hn); [done|]. cbn [negb] in E. rewrite E. cbn [obind].
  destruct (reports_spec q o sz (cpu r) (cpu_addr r') (with_avx env)) as (l & -> & Hl); [apply Hr|done|apply Hr|apply Hs|]. cbn [obind].
  eexists _, r', pm'. split; [done|]. done.
Qed.

Lemma collect_gpu clear o sz q r pm : region_at_rest q r pm -> chunk o sz -> (clear = true -> readbacks env <> Relaxed) ->
  exists l r' pm', collect env GPU clear o sz r pm = Done (l, r', pm') /\ region_step q r pm r' pm' /\ cpu r' = cpu r
    /\ (if clear then new_bits o sz false (gpu r) (gpu r') else gpu r' = gpu r) /\ reports q o sz (gpu r) l.
Proof.
  intros Hrest Hc Hm. pose proof Hrest as (Hr & _ & _). rewrite (collect_pages GPU clear o sz q) by done. cbn [GetRegionBits].
  assert (Hcl : exists r' pm', (if clear then let r0 := set_bits GPU (UnsetRange (o / 4096) ((o + sz + 4095) / 4096) (gpu r)) r in
      if negb (bool_decide (readbacks env = Disabled)) then UpdateProtection env false true r0 pm else Done (r0, pm) else Done (r, pm)) = Done (r', pm')
    /\ region_step q r pm r' pm' /\ cpu r' = cpu r /\ (if clear then new_bits o sz false (gpu r) (gpu r') else gpu r' = gpu r)).
  { destruct clear; [|exists r, pm; split; [done|]; split; [by apply step_refl|done]].
    destruct (gpu_change false o sz q r pm Hrest Hc) as (r' & pm' & E & Hs & Hg & Hn); [done|]. exists r', pm'. split; [|done].
    rewrite <- E. unfold precise. specialize (Hm eq_refl). destruct (readbacks env); cbn; done. }
  destruct Hcl as (r' & pm' & E & Hs & Hg & Hn). cbv beta iota zeta in E |- *. rewrite E. cbn [obind].
  destruct (reports_spec q o sz (gpu r) (cpu_addr r') (with_avx env)) as (l & -> & Hl); [apply Hr|done|apply Hr|apply Hs|]. cbn [obind].
  eexists _, r', pm'. split; [done|]. done.
Qed.

Lemma IsRegionModified_spec type o sz q r : region_ok q r -> chunk o sz ->
  IsRegionModified type o sz r = true <-> exists i, 0 <= i < 1024 /\ meets o sz i = true /\ bit (GetRegionBits type r) i = true.
Proof.
  intros Hr Hc. destruct (chunk_pages o sz Hc) as (E1 & E2 & E3 & _). unfold IsRegionModified. rewrite E1, E2, E3.
  destruct (copy_bits o sz (GetRegionBits type r)) as [[Hm Lm] Hbit]; [destruct type; apply Hr|done|]. set (m := CopyRange _ _ _) in *.
  unfold Any. split.
  - intros Hn%negb_true_iff. pose proof (mask_span false m Hm Hn) as Hsp. destruct (FirstRange false m) as [s e]. destruct Hsp as (H1 & H2 & _ & H4 & _).
    rewrite region_size in H2 by done. exists s. split; [lia|]. specialize (H4 s ltac:(lia)). rewrite Hbit in H4 by lia. by apply andb_true_iff in H4.
  - intros (i & Hi & H1 & H2). apply negb_true_iff, not_true_iff_false. rewrite None_spec by done. intros H. specialize (H i).
    rewrite region_size in H by done. rewrite Hbit, H1, H2 in H by done. by specialize (H Hi).
Qed.
End region.

(** ** The tracker

    The abstract state of a tracker is, for every page, whether its region exists
    and whether CPU or GPU have modified it ([marks]).  Every operation
    walks over the regions of its range; its effect on a page depends on whether
    the byte range meets the page ([hit]). *)

Definition region_at (t : MemoryTracker) (q : Z) : option RegionManager := top_tier t !! q ≫= fun id => managers t !! id.

Section tracker.
Context (env : TrackerEnv).

(** [lk] says which regions are locked. *)
Record tracker_inv (other : Z -> Z) (lk : Z -> bool) (t : MemoryTracker) : Prop := {
  ti_other : forall x, 0 <= other x <= 126;
  ti_region : forall q r, region_at t q = Some r -> region_at_rest env other q r (pages t) /\ lock r = lk q;
  ti_ids : forall q id, top_tier t !! q = Some id -> is_Some (managers t !! id) /\ id ∉ free_managers t;
  ti_inj : forall q q' id, top_tier t !! q = Some id -> top_tier t !! q' = Some id -> q = q';
  ti_nodup : NoDup (free_managers t);
  ti_free : forall id, id ∈ free_managers t -> exists a, managers t !! id = Some (new_region a);
  ti_pool : forall id, is_Some (managers t !! id) -> id < 32 * pools t;
  ti_pages : pages_ok (pages t);
  ti_rest : forall x, region_at t (x / 1024) = None -> num_write_watchers (state_of x (pages t)) = other x /\ num_read_watchers (state_of x (pages t)) = 0 }.

Lemma region_lookup t q id r : top_tier t !! q = Some id -> managers t !! id = Some r -> region_at t q = Some r.
Proof. intros E1 E2. unfold region_at. by rewrite E1. Qed.

Lemma region_of_page q x : x / 1024 = q <-> in_range (1024 * q) (1024 * q + 1024) x = true.
Proof.
  unfold in_range. rewrite andb_true_iff, Z.leb_le, Z.ltb_lt. pose proof (Z.div_mod x 1024). pose proof (Z.mod_pos_bound x 1024). lia.
Qed.

Lemma elsewhere_div q pm pm' x : elsewhere q pm pm' -> x / 1024 <> q -> state_of x pm' = state_of x pm.
Proof. intros He Hx. apply He. apply not_true_iff_false. by rewrite <- region_of_page. Qed.

Lemma rest_elsewhere other q q' r pm pm' : q <> q' -> elsewhere q pm pm' -> pages_ok pm' ->
  region_at_rest env other q' r pm -> region_at_rest env other q' r pm'.
Proof.
  intros Hne He Hpm (Hr & Hrel & _). split; [done|]. split; [|done]. intros i Hi. rewrite (elsewhere_div q pm pm') by (done || (rewrite <- (Z.div_unique (1024 * q' + i) 1024 q' i); lia)).
  by apply Hrel.
Qed.

(** A change of one region. *)
Definition set_at {B} (f : Z -> B) (q : Z) (v : B) (x : Z) : B := if decide (x = q) then v else f x.

Lemma set_region_at id q r t q' pm : top_tier t !! q = Some id -> is_Some (managers t !! id) ->
  (forall q1 q2 i, top_tier t !! q1 = Some i -> top_tier t !! q2 = Some i -> q1 = q2) ->
  region_at (set_manager id r pm t) q' = if decide (q' = q) then Some r else region_at t q'.
Proof.
  intros Hq Hid Hinj. unfold region_at. cbn. destruct (decide (q' = q)) as [->|Hne].
  - rewrite Hq. cbn. by rewrite lookup_insert_eq.
  - destruct (top_tier t !! q') as [id'|] eqn:E; [|done]. cbn. rewrite lookup_insert_ne; [done|]. intros ->. by destruct Hne; apply (Hinj q' q id').
Qed.

Lemma set_manager_inv other lk id q r r' pm' t : tracker_inv other lk t -> top_tier t !! q = Some id -> managers t !! id = Some r ->
  region_at_rest env other q r' pm' -> elsewhere q (pages t) pm' ->
  tracker_inv other (set_at lk q (lock r')) (set_manager id r' pm' t)
  /\ forall q', region_at (set_manager id r' pm' t) q' = if decide (q' = q) then Some r' else region_at t q'.
Proof.
  intros Hi Hq Hid Hrest He. pose proof Hi as []. pose proof (set_region_at id q r' t) as Hat. split; [|intros q'; apply Hat; eauto].
  split; cbn; try done.
  - intros q' x. rewrite Hat by eauto. unfold set_at. destruct (decide (q' = q)) as [->|Hne]; [intros [= <-]; done|].
    intros Hx. destruct (ti_region0 _ _ Hx). split; [|done]. eapply rest_elsewhere; [|exact He|apply Hrest|done]. congruence.
  - intros q' i Hi'. destruct (ti_ids0 _ _ Hi') as [? ?]. split; [|done]. destruct (decide (i = id)) as [->|]; [by rewrite lookup_insert_eq|by rewrite lookup_insert_ne].
  - intros i Hi'. rewrite lookup_insert_ne; [eauto|]. intros ->. by destruct (ti_ids0 _ _ Hq).
  - intros i [x Hx]. apply ti_pool0. apply lookup_insert_Some in Hx as [[<- <-]|[_ ?]]; eauto.
  - apply Hrest.
  - intros x. rewrite Hat by eauto. destruct (decide (x / 1024 = q)); [done|]. intros Hx. rewrite (elsewhere_div q (pages t) pm') by done. by apply ti_rest0.
Qed.

(** ** Creation *)

Lemma construct_spec n id t : (forall i, is_Some (managers t !! i) -> i < id) -> NoDup (free_managers t) ->
  (forall i, i ∈ free_managers t -> exists a, managers t !! i = Some (new_region a)) ->
  let t' := construct n id t in
  top_tier t' = top_tier t /\ pools t' = pools t /\ pages t' = pages t /\ NoDup (free_managers t')
  /\ (forall i, i ∈ free_managers t' <-> i ∈ free_managers t \/ id <= i < id + Z.of_nat n)
  /\ (forall i, i ∈ free_managers t' -> exists a, managers t' !! i = Some (new_region a))
  /\ (forall i, i < id -> managers t' !! i = managers t !! i) /\ (forall i, is_Some (managers t' !! i) -> i < id + Z.of_nat n).
Proof.
  revert id t; induction n as [|n IH]; intros id t Hlt Hnd Hf; cbn [construct].
  { repeat split; try done; [intros; by left|intros [?|?]; [done|lia]|intros; specialize (Hlt i); intuition lia]. }
  edestruct (IH (id + 1)) as (H1 & H2 & H3 & H4 & H5 & H6 & H7 & H8); cycle 3.
  - split; [exact H1|]. split; [exact H2|]. split; [exact H3|]. split; [exact H4|]. split; [|split; [exact H6|split]].
    + intros i. rewrite H5. cbn. rewrite elem_of_cons. intuition lia.
    + intros i Hi. rewrite H7 by lia. cbn. by rewrite lookup_insert_ne by lia.
    + intros i Hi. specialize (H8 i Hi). lia.
  - cbn. intros i [x [[<- <-]|[_ Hx]]%lookup_insert_Some]; [lia|]. specialize (Hlt i ltac:(eauto)). lia.
  - cbn. constructor; [|done]. intros Hin. destruct (Hf _ Hin) as [a Ha]. specialize (Hlt id ltac:(eauto)). lia.
  - cbn. intros i [->|Hin]%elem_of_cons; [exists 0; by rewrite lookup_insert_eq|]. destruct (Hf _ Hin) as [a Ha]. exists a.
    rewrite lookup_insert_ne; [done|]. intros ->. specialize (Hlt i ltac:(eauto)). lia.
Qed.

Lemma new_region_rest other q pm : 0 <= q < NUM_HIGH_PAGES -> pages_ok pm ->
  (forall x, x / 1024 = q -> num_write_watchers (state_of x pm) = other x /\ num_read_watchers (state_of x pm) = 0) ->
  region_at_rest env other q (new_region (4096 * (1024 * q))) pm.
Proof.
  intros Hq Hpm Hr. assert (Hcl : region_bits (Clear no_bits)) by (split; [apply Forall_fmap; apply Forall_true; done|done]).
  split; [|split; [|done]].
  - split; cbn -[Z.mul]; try done; [by apply Fill_region|by destruct (precise env)|]. intros _ i Hi _. apply Clear_bit.
  - intros i Hi. cbn -[Z.mul]. rewrite !Fill_bit by (rewrite region_size; done). rewrite Z.add_0_r. apply Hr. symmetry. apply Z.div_unique with i; lia.
Qed.

Lemma region_create_inv other lk q t : tracker_inv other lk t -> 0 <= q < NUM_HIGH_PAGES -> top_tier t !! q = None -> lk q = false ->
  exists t', CreateRegion q t = Done t' /\ tracker_inv other lk t' /\ pages t' = pages t /\ is_Some (top_tier t' !! q)
    /\ forall q', region_at t' q' = if decide (q' = q) then Some (new_region (4096 * (1024 * q))) else region_at t q'.
Proof.
  intros Hi Hq Hn Hlk. pose proof Hi as []. unfold CreateRegion.
  set (t1 := match free_managers t with [] => _ | _ => t end).
  assert (Hpre : top_tier t1 = top_tier t /\ pages t1 = pages t /\ NoDup (free_managers t1) /\ free_managers t1 <> []
    /\ (forall i, i ∈ free_managers t1 -> exists a, managers t1 !! i = Some (new_region a)) /\ (forall i, is_Some (managers t1 !! i) -> i < 32 * pools t1)
    /\ (forall q i, top_tier t !! q = Some i -> (i ∉ free_managers t1) /\ managers t1 !! i = managers t !! i)).
  { subst t1. destruct (free_managers t) as [|f fs] eqn:Ef.
    - destruct (construct_spec (Z.to_nat MANAGER_POOL_SIZE) (MANAGER_POOL_SIZE * pools t) (mkTracker (managers t) (pools t + 1) [] (top_tier t) (pages t)))
        as (H1 & H2 & H3 & H4 & H5 & H6 & H7 & H8); cbn -[Z.mul] in *; [done|constructor|by intros i ?%elem_of_nil|].
      change (Z.of_nat (Z.to_nat MANAGER_POOL_SIZE)) with 32 in *. unfold MANAGER_POOL_SIZE in *.
      split; [done|]. split; [done|]. split; [done|]. split; [intros E; assert (Hin : 32 * pools t ∈ @nil Z) by (rewrite <- E; apply H5; right; lia); by apply elem_of_nil in Hin|].
      split; [done|]. split; [intros i Hi'; rewrite H2; specialize (H8 i Hi'); lia|]. intros q' i Hq'. destruct (ti_ids0 _ _ Hq') as [Hs _]. specialize (ti_pool0 i Hs).
      split; [rewrite H5; intros [?%elem_of_nil|?]; [done|lia]|apply H7; lia].
    - rewrite <- Ef in *. repeat split; try done; [congruence|]. by destruct (ti_ids0 _ _ H). }
  clearbody t1. destruct Hpre as (E1 & E2 & Hnd & Hne & Hfree & Hpool & Hold). destruct (free_managers t1) as [|id free] eqn:Ef; [done|].
  destruct (Hfree id) as [a Ha]; [by left|]. rewrite Ha. cbn [of_option obind]. eexists. split; [done|].
  assert (Hat : forall q', region_at (mkTracker (<[id := SetCpuAddress (Z.shiftl q TRACKER_HIGHER_PAGE_BITS) (new_region a)]> (managers t1)) (pools t1) free (<[q := id]> (top_tier t1)) (pages t1)) q'
    = if decide (q' = q) then Some (new_region (4096 * (1024 * q))) else region_at t q').
  { intros q'. unfold region_at. cbn -[Z.mul Z.shiftl]. rewrite E1. destruct (decide (q' = q)) as [->|Hq'].
    - rewrite lookup_insert_eq. cbn -[Z.mul Z.shiftl]. rewrite lookup_insert_eq. unfold SetCpuAddress, new_region. cbn -[Z.mul Z.shiftl]. f_equal. f_equal.
      rewrite Z.shiftl_mul_pow2 by done. change (2 ^ TRACKER_HIGHER_PAGE_BITS) with 4194304. lia.
    - rewrite lookup_insert_ne by congruence. destruct (top_tier t !! q') as [i|] eqn:Eq; [|done]. cbn. destruct (Hold _ _ Eq) as [Hnot Hm].
      rewrite lookup_insert_ne by (intros ->; apply Hnot; by left). done. }
  split; [|split; [done|split; [cbn; rewrite lookup_insert_eq; eauto|exact Hat]]].
  assert (Hrest0 : forall x, x / 1024 = q -> region_at t (x / 1024) = None) by (intros x ->; unfold region_at; by rewrite Hn).
  split; cbn -[Z.mul]; try done.
  - intros q' x. rewrite Hat, E2. destruct (decide (q' = q)) as [->|]; [intros [= <-]; split; [|by rewrite Hlk]|auto].
    apply new_region_rest; [done|done|]. intros x Hx. by apply ti_rest0, Hrest0.
  - rewrite E1. intros q' i [[<- <-]|[_ Hx]]%lookup_insert_Some.
    + rewrite lookup_insert_eq. split; [eauto|]. by apply NoDup_cons in Hnd as [? _].
    + destruct (Hold _ _ Hx) as [Hnot Hm]. destruct (ti_ids0 _ _ Hx) as [Hs _]. rewrite lookup_insert_ne by (intros ->; apply Hnot; by left). rewrite Hm.
      split; [done|]. intros Hin. apply Hnot. by right.
  - rewrite E1. intros q1 q2 i [[<- <-]|[? H1]]%lookup_insert_Some [[<- H2]|[? H2]]%lookup_insert_Some; try done; [..|eauto].
    + exfalso. apply (proj1 (Hold _ _ H2)). by left.
    + subst. exfalso. apply (proj1 (Hold _ _ H1)). by left.
  - by apply NoDup_cons in Hnd as [_ ?].
  - intros i Hin. rewrite lookup_insert_ne; [apply Hfree; by right|]. intros ->. by apply NoDup_cons in Hnd as [? _].
  - intros i [x [[<- _]|[_ Hx]]%lookup_insert_Some]; apply Hpool; eauto.
  - by rewrite E2.
  - intros x. rewrite Hat, E2. destruct (decide (x / 1024 = q)); [done|auto].
Qed.

(** ** Work on the manager of a region *)

Lemma inv_ext other lk lk' t : (forall q, lk q = lk' q) -> tracker_inv other lk t -> tracker_inv other lk' t.
Proof. intros E []. split; try done. intros q r Hr. rewrite <- E. auto. Qed.

Lemma lock_rest other q r b pm : region_at_rest env other q r pm -> region_at_rest env other q (set_lock b r) pm.
Proof. intros ([] & Hrel & Hpm). split; [by split|done]. Qed.

Lemma region_step_rest other q r pm r' pm' : region_step env other q r pm r' pm' -> region_at_rest env other q r' pm'.
Proof. intros []. done. Qed.

Lemma manager_of other lk q r t : tracker_inv other lk t -> region_at t q = Some r ->
  exists id, top_tier t !! q = Some id /\ managers t !! id = Some r /\ region_at_rest env other q r (pages t) /\ lock r = lk q.
Proof.
  intros Hi Hr. destruct (ti_region _ _ _ Hi _ _ Hr). unfold region_at in Hr. destruct (top_tier t !! q) as [id|] eqn:E; [|done]. by exists id.
Qed.

Lemma take_spec other lk q id r t : tracker_inv other lk t -> top_tier t !! q = Some id -> managers t !! id = Some r -> lk q = false ->
  take_lock id t = Done (set_manager id (set_lock true r) (pages t) t).
Proof. intros Hi Hq Hid Hlk. unfold take_lock. rewrite Hid. cbn. by rewrite (proj2 (ti_region _ _ _ Hi _ _ (region_lookup _ _ _ _ Hq Hid))), Hlk. Qed.

Lemma set_manager_twice id r r' pm pm' t : set_manager id r' pm' (set_manager id r pm t) = set_manager id r' pm' t.
Proof. unfold set_manager. cbn. by rewrite insert_insert_eq. Qed.

Lemma on_manager_spec {B} id (f : RegionManager -> PageManager -> outcome (B * RegionManager * PageManager)) r pm t x r' pm' :
  f r pm = Done (x, r', pm') -> on_manager id f (set_manager id r pm t) = Done (x, set_manager id r' pm' t).
Proof. intros E. unfold on_manager. cbn. rewrite lookup_insert_eq. cbn. rewrite E. cbn. by rewrite set_manager_twice. Qed.

Lemma drop_spec id r pm t : drop_lock id (set_manager id r pm t) = Done (set_manager id (set_lock false r) pm t).
Proof. unfold drop_lock. cbn. rewrite lookup_insert_eq. cbn. by rewrite set_manager_twice. Qed.

Lemma locked_inv {B} (f : RegionManager -> PageManager -> outcome (B * RegionManager * PageManager)) other lk q id r t x r' pm' :
  tracker_inv other lk t -> lk q = false -> top_tier t !! q = Some id -> managers t !! id = Some r ->
  f (set_lock true r) (pages t) = Done (x, r', pm') -> region_step env other q (set_lock true r) (pages t) r' pm' ->
  exists t', locked id f t = Done (x, t') /\ tracker_inv other lk t'
    /\ forall q', region_at t' q' = if decide (q' = q) then Some (set_lock false r') else region_at t q'.
Proof.
  intros Hi Hlk Hq Hid Hf Hs. unfold locked. rewrite (take_spec other lk q id r) by done. cbn [obind]. rewrite (on_manager_spec id f _ _ t x r' pm' Hf). cbn [obind].
  rewrite drop_spec. cbn [obind]. eexists. split; [done|].
  destruct (set_manager_inv other lk id q r (set_lock false r') pm' t Hi Hq Hid) as [Hi' Hat]; [by eapply lock_rest, region_step_rest|apply Hs|]. split; [|done].
  eapply inv_ext; [|exact Hi']. intros q'. unfold set_at. cbn. destruct (decide (q' = q)) as [->|]; done.
Qed.

(** ** Pages and byte ranges *)

Definition hit (a b x : Z) : bool := (a <? b) && (4096 * x <? b) && (a <? 4096 * x + 4096).

Lemma hit_chunk q o n x : chunk o n ->
  hit (4194304 * q + o) (4194304 * q + o + n) x = in_range (1024 * q) (1024 * q + 1024) x && meets o n (x - 1024 * q).
Proof.
  intros (H1 & H2 & H3). unfold hit, meets, in_range.
  assert (E : (o / 4096 <= x - 1024 * q <-> o < 4096 * (x - 1024 * q) + 4096) /\ (x - 1024 * q < (o + n + 4095) / 4096 <-> 4096 * (x - 1024 * q) < o + n)).
  { Z.div_mod_to_equations. lia. }
  split_cmp; lia.
Qed.

Lemma hit_extend a pos n x : a <= pos -> 0 < n -> hit a (pos + n) x = hit a pos x || hit pos (pos + n) x.
Proof. intros. unfold hit. split_cmp; lia. Qed.

Lemma hit_empty a x : hit a a x = false.
Proof. unfold hit. by rewrite Z.ltb_irrefl. Qed.

(** ** Iteration *)

Lemma iterate_ind {A} create (func : Func A) (I : Z -> MemoryTracker * A -> Prop) (Q : MemoryTracker * A -> Prop) addr fin : fin <= 1099511627776 ->
  (forall q o n ta, 0 <= q < NUM_HIGH_PAGES -> chunk o n -> o = 0 \/ 4194304 * q + o = addr -> 4194304 * q + o + n <= fin -> I (4194304 * q + o) ta ->
    exists stop ta', visit_manager create func q o n ta = Done (stop, ta') /\ if stop then Q ta' else I (4194304 * q + o + n) ta') ->
  forall fuel rem q o ta, 0 <= q -> 0 <= o < 4194304 -> o = 0 \/ 4194304 * q + o = addr -> 0 <= rem -> 4194304 * q + o + rem = fin -> o + rem <= Z.of_nat fuel * 4194304 -> I (4194304 * q + o) ta ->
    exists stop ta', iterate fuel create func rem q o ta = Done (stop, ta') /\ if stop then Q ta' else I fin ta'.
Proof.
  intros Hfin Hstep. induction fuel as [|fuel IH]; intros rem q o ta Hq Ho Hat Hrem Hpos Hfuel HI; cbn [iterate].
  { assert (rem = 0) as -> by lia. cbn. exists false, ta. split; [done|]. by replace fin with (4194304 * q + o) by lia. }
  destruct (Z.leb_spec rem 0). { exists false, ta. split; [done|]. by replace fin with (4194304 * q + o) by lia. }
  change TRACKER_HIGHER_PAGE_SIZE with 4194304. set (n := Z.min (4194304 - o) rem).
  destruct (Hstep q o n ta) as (stop & ta' & -> & Hs); [unfold NUM_HIGH_PAGES; lia|unfold chunk; lia|done|lia|done|]. cbn [obind].
  destruct stop; [by exists true, ta'|]. destruct (Z.le_gt_cases rem (4194304 - o)).
  - replace (rem - n) with 0 by lia. exists false, ta'. split; [by destruct fuel|]. by replace fin with (4194304 * q + o + n) by lia.
  - apply IH; try lia. by replace (4194304 * (q + 1) + 0) with (4194304 * q + o + n) by lia.
Qed.

(** A chunk begins at the start of the range or of a region. *)
Definition at_start (addr q o : Z) : Prop := o = 0 \/ 4194304 * q + o = addr.

Lemma IteratePages_ind {A} create (func : Func A) (I : Z -> MemoryTracker * A -> Prop) (Q : MemoryTracker * A -> Prop) addr size ta :
  0 <= addr -> 0 <= size -> addr + size <= 1099511627776 ->
  (forall q o n ta, 0 <= q < NUM_HIGH_PAGES -> chunk o n -> at_start addr q o -> addr <= 4194304 * q + o -> 4194304 * q + o + n <= addr + size -> I (4194304 * q + o) ta ->
    exists stop ta', visit_manager create func q o n ta = Done (stop, ta') /\ if stop then Q ta' else I (4194304 * q + o + n) ta') ->
  I addr ta -> exists stop ta', IteratePages create addr size func ta = Done (stop, ta') /\ if stop then Q ta' else I (addr + size) ta'.
Proof.
  intros Ha Hs Hb Hstep HI. unfold IteratePages. rewrite Z.shiftr_div_pow2 by done. change (2 ^ TRACKER_HIGHER_PAGE_BITS) with 4194304.
  change TRACKER_HIGHER_PAGE_MASK with (Z.ones 22). rewrite Z.land_ones by lia. change (2 ^ 22) with 4194304. change TRACKER_HIGHER_PAGE_SIZE with 4194304.
  pose proof (Z.div_mod addr 4194304 ltac:(lia)). pose proof (Z.mod_pos_bound addr 4194304 ltac:(lia)). pose proof (Z.div_pos addr 4194304 ltac:(lia) ltac:(lia)).
  pose proof (Z.div_mod size 4194304 ltac:(lia)). pose proof (Z.mod_pos_bound size 4194304 ltac:(lia)). pose proof (Z.div_pos size 4194304 ltac:(lia) ltac:(lia)).
  destruct (iterate_ind create func (fun pos ta => addr <= pos /\ I pos ta) Q addr (addr + size) Hb) with (fuel := (Z.to_nat (size / 4194304) + 2)%nat)
    (rem := size) (q := addr / 4194304) (o := addr mod 4194304) (ta := ta) as (stop & ta' & E & Hres); try lia.
  - intros q o n ta' Hq Hc Hst Hn [Hpos HI']. destruct (Hstep q o n ta' Hq Hc Hst Hpos Hn HI') as (stop & ta2 & E & Hres). exists stop, ta2. split; [done|].
    destruct stop; [done|]. destruct Hc. split; [lia|done].
  - split; [lia|]. by replace (4194304 * (addr / 4194304) + addr mod 4194304) with addr by lia.
  - exists stop, ta'. split; [done|]. destruct stop; [done|]. by destruct Hres.
Qed.

(** ** The abstract state *)

(** A page without a region counts as modified by the CPU. *)
Definition initial (type : Type_) : bool := match type with CPU => true | GPU => false end.

Definition marks (type : Type_) (t : MemoryTracker) (x : Z) : bool :=
  match region_at t (x / 1024) with Some r => bit (GetRegionBits type r) (x mod 1024) | None => initial type end.

Lemma mod_pos q x : in_range (1024 * q) (1024 * q + 1024) x = true -> x / 1024 = q /\ x mod 1024 = x - 1024 * q /\ 0 <= x - 1024 * q < 1024.
Proof. intros H. apply region_of_page in H as H'. pose proof (Z.div_mod x 1024). pose proof (Z.mod_pos_bound x 1024). lia. Qed.

Lemma hit_region q o n x : chunk o n -> hit (4194304 * q + o) (4194304 * q + o + n) x = true ->
  x / 1024 = q /\ x mod 1024 = x - 1024 * q /\ 0 <= x - 1024 * q < 1024 /\ meets o n (x - 1024 * q) = true.
Proof. intros Hc H. rewrite hit_chunk in H by done. apply andb_true_iff in H as [H1 H2]. destruct (mod_pos q x H1) as (? & ? & ?). done. Qed.

(** A page of region [q] by its index. *)
Lemma marks_at type t q r i : region_at t q = Some r -> 0 <= i < 1024 -> marks type t (1024 * q + i) = bit (GetRegionBits type r) i.
Proof.
  intros Hr Hi. unfold marks. replace ((1024 * q + i) / 1024) with q by (apply Z.div_unique with i; lia).
  replace ((1024 * q + i) mod 1024) with i by (apply Z.mod_unique with q; lia). by rewrite Hr.
Qed.

(** Bits of one type changed on a chunk of region [q]. *)
Lemma marks_change type enable q o n r r' t t' : chunk o n -> region_at t q = Some r ->
  (forall q', region_at t' q' = if decide (q' = q) then Some r' else region_at t q') ->
  new_bits o n enable (GetRegionBits type r) (GetRegionBits type r') ->
  forall x, marks type t' x = if hit (4194304 * q + o) (4194304 * q + o + n) x then enable else marks type t x.
Proof.
  intros Hc Hr Hat Hn x. unfold marks. rewrite Hat, hit_chunk by done. destruct (decide (x / 1024 = q)) as [Hq|Hq].
  - apply region_of_page in Hq as Hx. destruct (mod_pos q x Hx) as (E1 & E2 & E3). rewrite Hx, E1, E2, Hr. cbn. rewrite Hn by done. by destruct (meets o n (x - 1024 * q)).
  - assert (in_range (1024 * q) (1024 * q + 1024) x = false) as -> by (apply not_true_iff_false; by rewrite <- region_of_page). done.
Qed.

Lemma marks_same type q r r' t t' : region_at t q = Some r -> (forall q', region_at t' q' = if decide (q' = q) then Some r' else region_at t q') ->
  GetRegionBits type r' = GetRegionBits type r -> forall x, marks type t' x = marks type t x.
Proof. intros Hr Hat E x. unfold marks. rewrite Hat. destruct (decide (x / 1024 = q)) as [->|]; [|done]. rewrite Hr. by rewrite E. Qed.

(** Creating a region changes no page. *)
Lemma marks_create type q a t t' : region_at t q = None -> (forall q', region_at t' q' = if decide (q' = q) then Some (new_region a) else region_at t q') ->
  forall x, marks type t' x = marks type t x.
Proof.
  intros Hq Hat x. unfold marks. rewrite Hat. destruct (decide (x / 1024 = q)) as [->|]; [|done]. rewrite Hq. pose proof (Z.mod_pos_bound x 1024 ltac:(lia)).
  destruct type; cbn [GetRegionBits new_region cpu gpu]; [apply Fill_bit; by rewrite region_size|apply Clear_bit].
Qed.
End tracker.
