(* ===== verification/TrackOps.v ===== *)
(** * Modification tracking: what each operation of the tracker does *)

From stdpp Require Import gmap.
From S2P Require Import Prelude BitArray BitFacts PageManager PageFacts MemoryTracker TrackFacts.

Definition within (addr size : Z) : Prop := 0 <= addr /\ 0 <= size /\ addr + size <= 1099511627776.

Definition unlocked (q : Z) : bool := false.

Definition opp (type : Type_) : Type_ := match type with CPU => GPU | GPU => CPU end.

Lemma visit_existing {A} create (func : Func A) q o n ta id : 0 <= q < NUM_HIGH_PAGES -> top_tier (fst ta) !! q = Some id ->
  visit_manager create func q o n ta = func id o n ta.
Proof. intros Hq E. unfold visit_manager. rewrite (proj2 (Z.leb_gt _ _)) by lia. by rewrite E. Qed.

Lemma visit_missing {A} (func : Func A) q o n ta : 0 <= q < NUM_HIGH_PAGES -> top_tier (fst ta) !! q = None ->
  visit_manager false func q o n ta = Done (false, ta).
Proof. intros Hq E. unfold visit_manager. rewrite (proj2 (Z.leb_gt _ _)) by lia. by rewrite E. Qed.

Lemma hit_sub addr pos n fin x : addr <= pos -> pos + n <= fin -> hit pos (pos + n) x = true -> hit addr fin x = true.
Proof. unfold hit. intros ? ? H. bool_prop. split_cmp; lia. Qed.

Section ops.
Context (env : TrackerEnv) (other : Z -> Z).

(** Bits may be set only where the other side's are not, when the protection
    follows the GPU. *)
Definition may_change (type : Type_) (enable : bool) (t : MemoryTracker) (P : Z -> bool) : Prop :=
  precise env = true -> enable = true -> forall x, P x = true -> marks (opp type) t x = false.

Lemma missing_region t q : top_tier t !! q = None -> region_at t q = None.
Proof. intros E. unfold region_at. by rewrite E. Qed.

Lemma region_of_id lk t q id : tracker_inv env other lk t -> top_tier t !! q = Some id -> exists r, managers t !! id = Some r /\ region_at t q = Some r.
Proof. intros Hi Hq. destruct (ti_ids _ _ _ _ Hi _ _ Hq) as [[r Hr] _]. exists r. split; [done|]. by eapply region_lookup. Qed.

(** The index of a page of a chunk. *)
Lemma hit_index q o n i : chunk o n -> 0 <= i < 1024 -> hit (4194304 * q + o) (4194304 * q + o + n) (1024 * q + i) = meets o n i.
Proof. intros Hc Hi. rewrite hit_chunk by done. replace (1024 * q + i - 1024 * q) with i by lia. unfold in_range. split_cmp; try lia; done. Qed.

Lemma change_region type enable o n q r lk t b : tracker_inv env other lk t -> region_at t q = Some r -> chunk o n ->
  may_change type enable t (hit (4194304 * q + o) (4194304 * q + o + n)) ->
  exists r' pm', change env type enable o n (set_lock b r) (pages t) = Done (tt, r', pm')
    /\ region_step env other q (set_lock b r) (pages t) r' pm'
    /\ new_bits o n enable (GetRegionBits type r) (GetRegionBits type r') /\ GetRegionBits (opp type) r' = GetRegionBits (opp type) r.
Proof.
  intros Hi Hr Hc Hm. destruct (ti_region _ _ _ _ Hi _ _ Hr) as [Hrest _]. apply (lock_rest env other q r b) in Hrest. pose proof Hrest as (Hro & _ & _).
  assert (Hex : precise env = true -> enable = true -> forall i, 0 <= i < 1024 -> meets o n i = true -> bit (GetRegionBits (opp type) r) i = false).
  { intros Hp He i Hi' Hmi. rewrite <- (marks_at (opp type) t q r) by done. apply Hm; [done|done|]. by rewrite hit_index. }
  unfold change. rewrite (change_pages env type enable o n q) by done. destruct type; cbn [GetRegionBits opp] in *.
  - destruct (cpu_change env other (ti_other _ _ _ _ Hi) enable o n q _ _ Hrest Hc Hex) as (r' & pm' & E & Hs & Hg & Hn). cbn [cpu set_lock] in E |- *. rewrite E. cbn [obind].
    exists r', pm'. done.
  - destruct (gpu_change env other (ti_other _ _ _ _ Hi) enable o n q _ _ Hrest Hc Hex) as (r' & pm' & E & Hs & Hg & Hn). cbn [gpu set_lock] in E |- *. rewrite E. cbn [obind].
    exists r', pm'. done.
Qed.

(** One locked change of a chunk. *)
Lemma locked_change type enable o n q id t : tracker_inv env other unlocked t -> top_tier t !! q = Some id -> chunk o n ->
  may_change type enable t (hit (4194304 * q + o) (4194304 * q + o + n)) ->
  exists t', locked id (change env type enable o n) t = Done (tt, t') /\ tracker_inv env other unlocked t'
    /\ (forall x, marks type t' x = if hit (4194304 * q + o) (4194304 * q + o + n) x then enable else marks type t x)
    /\ forall x, marks (opp type) t' x = marks (opp type) t x.
Proof.
  intros Hi Hq Hc Hm. destruct (region_of_id _ _ _ _ Hi Hq) as (r & Hid & Hr).
  destruct (change_region type enable o n q r unlocked t true Hi Hr Hc Hm) as (r' & pm' & E & Hst & Hnb & Ho).
  destruct (locked_inv env (change env type enable o n) other unlocked q id r t tt r' pm') as (t2 & -> & Hi2 & Hat); [done..|].
  exists t2. split; [done|]. split; [done|]. split.
  - apply (marks_change type enable q o n r (set_lock false r') t t2); done || by destruct type.
  - apply (marks_same (opp type) q r (set_lock false r') t t2); done || by destruct type.
Qed.

(** Marks whose change is to the value of pages without a region. *)
Lemma change_all_spec type enable addr size t : tracker_inv env other unlocked t -> within addr size -> enable = initial type ->
  may_change type enable t (hit addr (addr + size)) ->
  exists t', change_all env type enable addr size t = Done t' /\ tracker_inv env other unlocked t'
    /\ (forall x, marks type t' x = if hit addr (addr + size) x then enable else marks type t x)
    /\ forall x, marks (opp type) t' x = marks (opp type) t x.
Proof.
  intros Hi (Ha & Hs & Hb) Hen Hm. unfold change_all.
  edestruct (IteratePages_ind false (fun id offset size '(t, a) => let! '(_, t) := locked id (change env type enable offset size) t in Done (false, (t, a)))
    (fun pos ta => tracker_inv env other unlocked (fst ta) /\ (forall x, marks type (fst ta) x = if hit addr pos x then enable else marks type t x)
       /\ forall x, marks (opp type) (fst ta) x = marks (opp type) t x) (fun _ => False) addr size (t, tt)) as (stop & [t' []] & -> & Hres); [done..| | |].
  - intros q o n [t1 []] Hq Hc _ Hpos Hn (Hi1 & Hm1 & Ho1). cbn [fst] in *. assert (Hn0 : 0 < n) by apply Hc.
    destruct (top_tier t1 !! q) as [id|] eqn:Eq.
    + rewrite (visit_existing false _ q o n (t1, tt) id) by done. destruct (locked_change type enable o n q id t1 Hi1 Eq Hc) as (t2 & -> & Hi2 & Hm2 & Ho2).
      { intros Hp He x Hx'. rewrite Ho1. apply Hm; [done|done|]. by apply (hit_sub addr (4194304 * q + o) n). }
      cbn [obind]. exists false, (t2, tt). split; [done|]. cbn [fst]. split; [done|]. split; [|intros; by rewrite Ho2].
      intros x. rewrite Hm2, Hm1, (hit_extend addr (4194304 * q + o) n x) by done. destruct (hit (4194304 * q + o) _ x), (hit addr _ x); done.
    + rewrite visit_missing by done. exists false, (t1, tt). split; [done|]. cbn [fst]. split; [done|]. split; [|done]. intros x.
      rewrite Hm1, (hit_extend addr (4194304 * q + o) n x) by done. destruct (hit addr (4194304 * q + o) x) eqn:E; [done|]. cbn. destruct (hit (4194304 * q + o) _ x) eqn:E'; [|done].
      apply hit_region in E' as (E1 & _); [|done]. specialize (Hm1 x). rewrite E in Hm1. rewrite <- Hm1. unfold marks. by rewrite E1, (missing_region t1 q Eq), Hen.
  - cbn [fst]. split; [done|]. split; [|done]. intros x. by rewrite hit_empty.
  - destruct stop; [done|]. cbn [obind]. exists t'. done.
Qed.

Lemma Mark_spec addr size t : tracker_inv env other unlocked t -> within addr size ->
  (precise env = true -> forall x, hit addr (addr + size) x = true -> marks GPU t x = false) ->
  exists t', MarkRegionAsCpuModified env addr size t = Done t' /\ tracker_inv env other unlocked t'
    /\ (forall x, marks CPU t' x = hit addr (addr + size) x || marks CPU t x) /\ forall x, marks GPU t' x = marks GPU t x.
Proof.
  intros Hi Hw Hm. destruct (change_all_spec CPU true addr size t) as (t' & E & Hi' & Hm' & Ho'); try done; [intros Hp _ x Hx; by apply Hm|].
  exists t'. split; [done|]. split; [done|]. split; [|done]. intros x. rewrite Hm'. by destruct (hit _ _ x).
Qed.

Lemma Unmark_spec addr size t : tracker_inv env other unlocked t -> within addr size ->
  exists t', UnmarkRegionAsGpuModified env addr size t = Done t' /\ tracker_inv env other unlocked t'
    /\ (forall x, marks GPU t' x = negb (hit addr (addr + size) x) && marks GPU t x) /\ forall x, marks CPU t' x = marks CPU t x.
Proof.
  intros Hi Hw. destruct (change_all_spec GPU false addr size t) as (t' & E & Hi' & Hm' & Ho'); try done.
  exists t'. split; [done|]. split; [done|]. split; [|done]. intros x. rewrite Hm'. by destruct (hit _ _ x).
Qed.

Lemma flush_spec addr size t : tracker_inv env other unlocked t -> within addr size ->
  exists t', flush_write env addr size t = Done t' /\ tracker_inv env other unlocked t'
    /\ (forall x, marks CPU t' x = hit addr (addr + size) x || marks CPU t x) /\ forall x, marks GPU t' x = negb (hit addr (addr + size) x) && marks GPU t x.
Proof.
  intros Hi Hw. unfold flush_write. destruct (Unmark_spec addr size t Hi Hw) as (t1 & -> & Hi1 & Hg1 & Hc1). cbn [obind].
  destruct (Mark_spec addr size t1 Hi1 Hw) as (t2 & -> & Hi2 & Hc2 & Hg2); [intros _ x Hx; by rewrite Hg1, Hx|].
  exists t2. split; [done|]. split; [done|]. split; intros x; [by rewrite Hc2, Hc1|by rewrite Hg2, Hg1].
Qed.

(** ** Invalidation *)

Lemma lock_bits type b r : GetRegionBits type (set_lock b r) = GetRegionBits type r.
Proof. by destruct type. Qed.

(** A locked section that only looks at its region. *)
Lemma locked_look {B} (v : B) (f : RegionManager -> PageManager -> outcome (B * RegionManager * PageManager)) q id r t :
  tracker_inv env other unlocked t -> top_tier t !! q = Some id -> managers t !! id = Some r ->
  f (set_lock true r) (pages t) = Done (v, set_lock true r, pages t) ->
  exists t', locked id f t = Done (v, t') /\ tracker_inv env other unlocked t' /\ forall type x, marks type t' x = marks type t x.
Proof.
  intros Hi Hq Hid Hf. assert (Hr := region_lookup _ _ _ _ Hq Hid). destruct (ti_region _ _ _ _ Hi _ _ Hr) as [Hrest _].
  destruct (locked_inv env f other unlocked q id r t v (set_lock true r) (pages t)) as (t' & E & Hi' & Hat); [done..|by apply step_refl, lock_rest|].
  exists t'. split; [done|]. split; [done|]. intros type. eapply marks_same; [exact Hr|exact Hat|]. by rewrite !lock_bits.
Qed.

Lemma modified_spec type o n q r lk t : tracker_inv env other lk t -> region_at t q = Some r -> chunk o n ->
  IsRegionModified type o n r = true <-> exists x, hit (4194304 * q + o) (4194304 * q + o + n) x = true /\ marks type t x = true.
Proof.
  intros Hi Hr Hc. destruct (ti_region _ _ _ _ Hi _ _ Hr) as [(Hro & _) _]. rewrite (IsRegionModified_spec env type o n q) by done. split.
  - intros (i & Hi' & Hm & Hb). exists (1024 * q + i). rewrite hit_index by done. split; [done|]. by rewrite (marks_at type t q r).
  - intros (x & Hx & Hb). apply hit_region in Hx as (E1 & E2 & E3 & E4); [|done]. exists (x - 1024 * q). split; [done|]. split; [done|].
    rewrite <- (marks_at type t q r) by done. by replace (1024 * q + (x - 1024 * q)) with x by lia.
Qed.

Lemma modified_lock type o n b r : IsRegionModified type o n (set_lock b r) = IsRegionModified type o n r.
Proof. unfold IsRegionModified. by rewrite lock_bits. Qed.

Definition watching : bool := negb (bool_decide (readbacks env = Disabled)).

Lemma precise_watching : precise env = true -> watching = true.
Proof. unfold precise, watching. rewrite bool_decide_eq_true. intros ->. done. Qed.

(** The state of an invalidation that has reached [pos]: nothing was flushed yet,
    or all was. *)
Definition invalidated (t0 : MemoryTracker) (addr pos fin : Z) (t : MemoryTracker) : Prop :=
  ((forall x, marks CPU t x = hit addr pos x || marks CPU t0 x) /\ (forall x, marks GPU t x = marks GPU t0 x)
   /\ (watching = true -> forall x, hit addr pos x = true -> marks GPU t0 x = false))
  \/ (watching = true /\ (forall x, marks CPU t x = hit addr fin x || marks CPU t0 x) /\ forall x, marks GPU t x = negb (hit addr fin x) && marks GPU t0 x).

Lemma Invalidate_spec addr size t : tracker_inv env other unlocked t -> within addr size ->
  exists t', InvalidateRegion env addr size (flush_write env addr size) t = Done t' /\ tracker_inv env other unlocked t'
    /\ (forall x, marks CPU t' x = hit addr (addr + size) x || marks CPU t x)
    /\ forall x, marks GPU t' x = negb (watching && hit addr (addr + size) x) && marks GPU t x.
Proof.
  intros Hi Hw. pose proof Hw as (Ha & Hs & Hb). unfold InvalidateRegion.
  edestruct (IteratePages_ind false (fun id offset size0 '(t, a) =>
         let! '(should_flush, t) :=
           locked id (fun r pm =>
             if negb (bool_decide (readbacks env = Disabled)) && IsRegionModified GPU offset size0 r then Done (true, r, pm)
             else let! '(_, r, pm) := change env CPU true offset size0 r pm in Done (false, r, pm)) t in
         let! t := (if should_flush : bool then flush_write env addr size t else Done t) in
         Done (false, (t, a)))
    (fun pos ta => tracker_inv env other unlocked (fst ta) /\ invalidated t addr pos (addr + size) (fst ta)) (fun _ => False) addr size (t, tt))
    as (stop & [t' []] & -> & Hres); [done..| | |].
  - intros q o n [t1 []] Hq Hc _ Hpos Hn (Hi1 & Hv1). cbn [fst] in *. assert (Hn0 : 0 < n) by apply Hc. fold watching.
    set (pos := 4194304 * q + o) in *. assert (Hsub : forall x, hit pos (pos + n) x = true -> hit addr (addr + size) x = true) by (intros x; by apply hit_sub).
    assert (Hext : forall x, hit addr (pos + n) x = hit addr pos x || hit pos (pos + n) x) by (intros; by apply hit_extend).
    destruct (top_tier t1 !! q) as [id|] eqn:Eq.
    2: { rewrite visit_missing by done. exists false, (t1, tt). split; [done|]. split; [done|]. cbn [fst].
      destruct Hv1 as [(H1 & H2 & H3)|?]; [left|by right]. assert (Hmiss : forall type x, hit pos (pos + n) x = true -> marks type t1 x = initial type).
      { intros type x Hx. apply hit_region in Hx as (E1 & _); [|done]. unfold marks. by rewrite E1, (missing_region t1 q Eq). }
      split; [|split; [done|]].
      - intros x. rewrite H1, Hext. destruct (hit pos (pos + n) x) eqn:E; [|by rewrite orb_false_r]. rewrite <- H1, (Hmiss CPU x E). by rewrite orb_true_r.
      - intros Hwt x. rewrite Hext. intros [?|E]%orb_true_iff; [auto|]. by rewrite <- H2, (Hmiss GPU x E). }
    rewrite (visit_existing false _ q o n (t1, tt) id) by done. destruct (region_of_id _ _ _ _ Hi1 Eq) as (r & Hid & Hr).
    destruct (watching && IsRegionModified GPU o n r) eqn:Em.
    + destruct (locked_look true (fun r pm => if watching && IsRegionModified GPU o n r then Done (true, r, pm)
             else let! '(_, r, pm) := change env CPU true o n r pm in Done (false, r, pm)) q id r t1) as (t2 & -> & Hi2 & Hm2); [done..|by rewrite modified_lock, Em|].
      cbn [obind]. destruct (flush_spec addr size t2 Hi2 Hw) as (t3 & -> & Hi3 & Hc3 & Hg3). cbn [obind]. exists false, (t3, tt). split; [done|]. split; [done|]. cbn [fst]. right.
      apply andb_true_iff in Em as [Hwt _]. split; [done|]. split; intros x; [rewrite Hc3|rewrite Hg3]; rewrite Hm2.
      * destruct Hv1 as [(H1 & _)|(_ & H1 & _)]; rewrite H1; [|by destruct (hit addr (addr + size) x)].
        destruct (hit addr pos x) eqn:E; [|done]. cbn. assert (hit addr (addr + size) x = true) as -> by (unfold hit in *; bool_prop; split_cmp; lia). done.
      * destruct Hv1 as [(_ & H2 & _)|(_ & _ & H2)]; rewrite H2; [done|]. by destruct (hit addr (addr + size) x).
    + assert (Hng : watching = true -> forall x, hit pos (pos + n) x = true -> marks GPU t1 x = false).
      { intros Hwt x Hx. rewrite Hwt in Em. cbn in Em. apply not_true_iff_false. intros E. rewrite (proj2 (modified_spec GPU o n q r unlocked t1 Hi1 Hr Hc)) in Em; [done|]. eauto. }
      destruct (change_region CPU true o n q r unlocked t1 true Hi1 Hr Hc) as (r' & pm' & E & Hst & Hnb & Ho).
      { intros Hp _ x Hx. apply Hng; [by apply precise_watching|done]. }
      destruct (locked_inv env (fun r pm => if watching && IsRegionModified GPU o n r then Done (true, r, pm)
             else let! '(_, r, pm) := change env CPU true o n r pm in Done (false, r, pm)) other unlocked q id r t1 false r' pm') as (t2 & -> & Hi2 & Hat);
        [done..|by rewrite modified_lock, Em, E|done|]. cbn [obind]. exists false, (t2, tt). split; [done|]. split; [done|]. cbn [fst].
      assert (HC : forall x, marks CPU t2 x = if hit pos (pos + n) x then true else marks CPU t1 x) by (by apply (marks_change CPU true q o n r (set_lock false r') t1 t2)).
      assert (HG : forall x, marks GPU t2 x = marks GPU t1 x) by (by apply (marks_same GPU q r (set_lock false r') t1 t2)).
      destruct Hv1 as [(H1 & H2 & H3)|(Hwt & H1 & H2)]; [left|right].
      * split; [|split; [intros; by rewrite HG|]].
        -- intros x. rewrite HC, H1, Hext. by destruct (hit pos (pos + n) x), (hit addr pos x).
        -- intros Hwt x. rewrite Hext. intros [?|E']%orb_true_iff; [auto|]. by rewrite <- H2, Hng.
      * split; [done|]. split; intros x; [|by rewrite HG]. rewrite HC, H1. destruct (hit pos (pos + n) x) eqn:E'; [|done]. by rewrite Hsub.
  - cbn [fst]. split; [done|]. left. split; [intros x; by rewrite hit_empty|]. split; [done|]. intros _ x. by rewrite hit_empty.
  - destruct stop; [done|]. cbn [obind fst] in *. destruct Hres as [Hi' Hv]. exists t'. split; [done|]. split; [done|].
    destruct Hv as [(H1 & H2 & H3)|(Hwt & H1 & H2)]; (split; [done|]); intros x; rewrite H2; [|by rewrite Hwt].
    destruct watching eqn:Hwt; [|done]. cbn. destruct (hit addr (addr + size) x) eqn:E; [|done]. by rewrite H3.
Qed.

(** ** Queries *)

(** With creation every chunk has a region; creating it changes no page. *)
Lemma visit_ready {A} (func : Func A) lk q o n t a : tracker_inv env other lk t -> 0 <= q < NUM_HIGH_PAGES -> lk q = false ->
  exists t1 id, visit_manager true func q o n (t, a) = func id o n (t1, a) /\ tracker_inv env other lk t1 /\ top_tier t1 !! q = Some id
    /\ (forall type x, marks type t1 x = marks type t x) /\ forall q', region_at t q' <> None -> region_at t1 q' <> None.
Proof.
  intros Hi Hq Hlk. destruct (top_tier t !! q) as [id|] eqn:Eq; [exists t, id; split; [by apply visit_existing|done]|].
  destruct (region_create_inv env other lk q t Hi Hq Eq Hlk) as (t1 & E & Hi1 & _ & [id Hid] & Hat). exists t1, id.
  split; [unfold visit_manager; rewrite (proj2 (Z.leb_gt _ _)) by lia; cbn [fst snd]; rewrite Eq, E; cbn [obind]; by rewrite Hid|].
  split; [done|]. split; [done|]. split; [intros type; eapply marks_create; [by apply missing_region|exact Hat]|].
  intros q' Hq'. rewrite Hat. by destruct (decide (q' = q)).
Qed.

Lemma is_modified_spec type addr size t : tracker_inv env other unlocked t -> within addr size ->
  exists b t', is_modified type addr size (initial type) t = Done (b, t') /\ tracker_inv env other unlocked t'
    /\ (forall ty x, marks ty t' x = marks ty t x) /\ (b = true <-> exists x, hit addr (addr + size) x = true /\ marks type t x = true).
Proof.
  intros Hi (Ha & Hs & Hb). unfold is_modified.
  edestruct (IteratePages_ind (initial type)
      (fun id offset size '(t, a) => let! '(m, t) := locked id (fun r pm => Done (IsRegionModified type offset size r, r, pm)) t in Done (m, (t, a)))
    (fun pos ta => tracker_inv env other unlocked (fst ta) /\ (forall ty x, marks ty (fst ta) x = marks ty t x) /\ forall x, hit addr pos x = true -> marks type t x = false)
    (fun ta => tracker_inv env other unlocked (fst ta) /\ (forall ty x, marks ty (fst ta) x = marks ty t x) /\ exists x, hit addr (addr + size) x = true /\ marks type t x = true)
    addr size (t, tt)) as (stop & [t' []] & -> & Hres); [done..| | |].
  - intros q o n [t1 []] Hq Hc _ Hpos Hn (Hi1 & Hm1 & Hno). cbn [fst] in *. assert (Hn0 : 0 < n) by apply Hc. set (pos := 4194304 * q + o) in *.
    assert (Hlook : forall t2 id, tracker_inv env other unlocked t2 -> top_tier t2 !! q = Some id -> (forall ty x, marks ty t2 x = marks ty t1 x) ->
      exists stop ta', (let! '(m, t3) := locked id (fun r pm => Done (IsRegionModified type o n r, r, pm)) t2 in Done (m, (t3, tt))) = Done (stop, ta')
        /\ if stop : bool then tracker_inv env other unlocked (fst ta') /\ (forall ty x, marks ty (fst ta') x = marks ty t x) /\ exists x, hit addr (addr + size) x = true /\ marks type t x = true
           else tracker_inv env other unlocked (fst ta') /\ (forall ty x, marks ty (fst ta') x = marks ty t x) /\ forall x, hit addr (pos + n) x = true -> marks type t x = false).
    { intros t2 id Hi2 Hid Hm2. destruct (region_of_id _ _ _ _ Hi2 Hid) as (r & Hr & Hra).
      destruct (locked_look (IsRegionModified type o n r) (fun r pm => Done (IsRegionModified type o n r, r, pm)) q id r t2) as (t3 & -> & Hi3 & Hm3); [done..|by rewrite modified_lock|].
      cbn [obind]. eexists _, (t3, tt). split; [done|]. cbn [fst]. assert (Hmm : forall ty x, marks ty t3 x = marks ty t x) by (intros; by rewrite Hm3, Hm2, Hm1).
      pose proof (modified_spec type o n q r unlocked t2 Hi2 Hra Hc) as Hspec. destruct (IsRegionModified type o n r).
      - split; [done|]. split; [done|]. destruct (proj1 Hspec eq_refl) as (x & Hx & Hmx). exists x. split; [by apply (hit_sub addr pos n)|]. by rewrite <- Hm1, <- Hm2.
      - split; [done|]. split; [done|]. intros x. rewrite (hit_extend addr pos n x) by done. intros [?|Hx]%orb_true_iff; [auto|]. apply not_true_iff_false. intros Hmx.
        destruct Hspec as [_ Hspec]. discriminate Hspec. exists x. split; [done|]. by rewrite Hm2, Hm1. }
    destruct type; cbn [initial].
    + destruct (visit_ready (fun id offset size '(t, a) => let! '(m, t) := locked id (fun r pm => Done (IsRegionModified CPU offset size r, r, pm)) t in Done (m, (t, a))) unlocked q o n t1 tt Hi1 Hq) as (t2 & id & -> & Hi2 & Hid & Hm2 & _); [done|].
      by apply Hlook.
    + destruct (top_tier t1 !! q) as [id|] eqn:Eq; [rewrite (visit_existing false _ q o n (t1, tt) id) by done; by apply Hlook|].
      rewrite visit_missing by done. exists false, (t1, tt). split; [done|]. split; [done|]. split; [done|]. intros x. rewrite (hit_extend addr pos n x) by done.
      intros [?|Hx]%orb_true_iff; [auto|]. apply hit_region in Hx as (E1 & _); [|done]. rewrite <- Hm1. unfold marks. by rewrite E1, (missing_region t1 q Eq).
  - cbn [fst]. split; [done|]. split; [done|]. intros x. by rewrite hit_empty.
  - cbn [obind fst] in *. exists stop, t'. split; [done|]. destruct stop; destruct Hres as (Hi' & Hm' & Hx); (split; [done|]); (split; [done|]); [done|].
    split; [done|]. intros (x & Hh & Hmx). by rewrite (Hx x Hh) in Hmx.
Qed.

(** ** Downloads *)

(** Different chunks meet different pages. *)
Lemma hit_disjoint addr q o n x : at_start addr q o -> hit (4194304 * q + o) (4194304 * q + o + n) x = true -> hit addr (4194304 * q + o) x = false.
Proof. intros Hst H. apply not_true_iff_false. intros H'. unfold hit in *. bool_prop. destruct Hst; lia. Qed.

Lemma reports_marks type q o n r t l : region_at t q = Some r -> chunk o n -> reports q o n (GetRegionBits type r) l ->
  forall y, let x := y / 4096 in reported l y = hit (4194304 * q + o) (4194304 * q + o + n) x && marks type t x.
Proof.
  intros Hr Hc Hl y x. rewrite Hl. fold x. rewrite hit_chunk by done. destruct (in_range _ _ x) eqn:E; [|done]. destruct (mod_pos q x E) as (E1 & E2 & E3). cbn. f_equal.
  rewrite <- (marks_at type t q r) by done. by replace (1024 * q + (x - 1024 * q)) with x by lia.
Qed.

Lemma Download_spec clear addr size t : tracker_inv env other unlocked t -> within addr size -> (clear = true -> readbacks env <> Relaxed) ->
  exists l t', ForEachDownloadRange env clear addr size t = Done (l, t') /\ tracker_inv env other unlocked t'
    /\ (forall x, marks CPU t' x = marks CPU t x) /\ (forall x, marks GPU t' x = negb (clear && hit addr (addr + size) x) && marks GPU t x)
    /\ forall y, let x := y / 4096 in reported l y = hit addr (addr + size) x && marks GPU t x.
Proof.
  intros Hi (Ha & Hs & Hb) Hcl. unfold ForEachDownloadRange.
  edestruct (IteratePages_ind false
      (fun id offset size '(t, l) => let! '(l', t) := locked id (collect env GPU clear offset size) t in Done (false, (t, l ++ l')))
    (fun pos ta => tracker_inv env other unlocked (fst ta) /\ (forall x, marks CPU (fst ta) x = marks CPU t x)
       /\ (forall x, marks GPU (fst ta) x = negb (clear && hit addr pos x) && marks GPU t x) /\ forall y, let x := y / 4096 in reported (snd ta) y = hit addr pos x && marks GPU t x)
    (fun _ => False) addr size (t, [])) as (stop & [t' l] & -> & Hres); [done..| | |].
  - intros q o n [t1 l] Hq Hc Hst Hpos Hn (Hi1 & Hc1 & Hg1 & Hl1). cbn [fst snd] in *. assert (Hn0 : 0 < n) by apply Hc. set (pos := 4194304 * q + o) in *.
    assert (Hext : forall x, hit addr (pos + n) x = hit addr pos x || hit pos (pos + n) x) by (intros; by apply hit_extend).
    destruct (top_tier t1 !! q) as [id|] eqn:Eq.
    + rewrite (visit_existing false _ q o n (t1, l) id) by done. destruct (region_of_id _ _ _ _ Hi1 Eq) as (r & Hid & Hr). destruct (ti_region _ _ _ _ Hi1 _ _ Hr) as [Hrest _].
      destruct (collect_gpu env other (ti_other _ _ _ _ Hi1) clear o n q (set_lock true r) (pages t1)) as (l' & r' & pm' & E & Hs' & Hcp & Hgp & Hrp); [by apply lock_rest|done|done|].
      destruct (locked_inv env (collect env GPU clear o n) other unlocked q id r t1 l' r' pm') as (t2 & -> & Hi2 & Hat); [done..|]. cbn [obind].
      exists false, (t2, l ++ l'). split; [done|]. cbn [fst snd]. split; [done|]. split; [intros x; rewrite (marks_same CPU q r (set_lock false r') t1 t2) by done; auto|].
      pose proof (reports_marks GPU q o n r t1 l' Hr Hc ltac:(by rewrite <- (lock_bits GPU true r))) as Hl'.
      assert (HG : forall x, marks GPU t2 x = if clear && hit pos (pos + n) x then false else marks GPU t1 x).
      { intros x. destruct clear; [apply (marks_change GPU false q o n r (set_lock false r') t1 t2); done|by apply (marks_same GPU q r (set_lock false r') t1 t2)]. }
      pose proof (fun x => hit_disjoint addr q o n x Hst) as Hdis. fold pos in Hdis. split.
      * intros x. rewrite HG, Hg1, Hext. specialize (Hdis x). destruct (hit pos (pos + n) x); rewrite ?Hdis by done; by destruct clear, (hit addr pos x), (marks GPU t x).
      * intros y. rewrite reported_app, Hl1, Hl'. cbv zeta. set (x := y / 4096). fold pos. rewrite Hg1, Hext. specialize (Hdis x).
        destruct (hit pos (pos + n) x); rewrite ?Hdis by done; by destruct clear, (hit addr pos x), (marks GPU t x).
    + rewrite visit_missing by done. exists false, (t1, l). split; [done|]. cbn [fst snd]. split; [done|]. split; [done|].
      assert (Hmiss : forall x, hit pos (pos + n) x = true -> marks GPU t1 x = false).
      { intros x Hx. apply hit_region in Hx as (E1 & _); [|done]. unfold marks. by rewrite E1, (missing_region t1 q Eq). }
      assert (Hsame : forall x, hit pos (pos + n) x = true -> hit addr pos x = false /\ marks GPU t x = false).
      { intros x Hx. pose proof (hit_disjoint addr q o n x Hst Hx) as Hd. fold pos in Hd. specialize (Hmiss x Hx). rewrite Hg1, Hd in Hmiss. by rewrite andb_false_r in Hmiss. }
      split; [intros x; rewrite Hg1|intros y; rewrite Hl1; set (x := y / 4096)]; rewrite Hext; (destruct (hit pos (pos + n) x) eqn:Ex; [|by rewrite orb_false_r]);
        destruct (Hsame x Ex) as [-> ->]; by rewrite ?andb_false_r.
  - cbn [fst snd]. split; [done|]. split; [done|]. split; [intros x|intros y]; rewrite hit_empty; [by rewrite andb_false_r|done].
  - destruct stop; [done|]. cbn [obind fst snd] in *. exists l, t'. done.
Qed.

(** ** Uploads *)

(** The regions a walk from [addr] to [pos] has seen. *)
Definition visited (addr pos q : Z) : bool := (addr <? pos) && (addr / 4194304 <=? q) && (4194304 * q <? pos).

Lemma visited_now addr q o : at_start addr q o -> visited addr (4194304 * q + o) q = false.
Proof. unfold visited. intros [->|E]; split_cmp; lia. Qed.

Lemma visited_next addr q o n q' : chunk o n -> at_start addr q o -> 0 <= addr <= 4194304 * q + o ->
  visited addr (4194304 * q + o + n) q' = if decide (q' = q) then true else visited addr (4194304 * q + o) q'.
Proof.
  intros (H1 & H2 & H3) Hst Ha. unfold visited. pose proof (Z.div_mod addr 4194304 ltac:(lia)). pose proof (Z.mod_pos_bound addr 4194304 ltac:(lia)).
  destruct (decide (q' = q)) as [->|Hne]; [split_cmp; lia|]. destruct Hst; split_cmp; lia.
Qed.

Lemma visited_in addr fin q o n : chunk o n -> 0 <= addr <= 4194304 * q + o -> 4194304 * q + o + n <= fin -> visited addr fin q = true.
Proof.
  intros (H1 & H2 & H3) Ha Hf. unfold visited. pose proof (Z.div_mod addr 4194304 ltac:(lia)). pose proof (Z.mod_pos_bound addr 4194304 ltac:(lia)). split_cmp; lia.
Qed.

Record uploaded (is_written : bool) (t0 : MemoryTracker) (addr pos : Z) (ta : MemoryTracker * list Range) : Prop := {
  up_inv : tracker_inv env other (fun q => is_written && visited addr pos q) (fst ta);
  up_cpu : forall x, marks CPU (fst ta) x = negb (hit addr pos x) && marks CPU t0 x;
  up_gpu : forall x, marks GPU (fst ta) x = marks GPU t0 x;
  up_list : forall y, let x := y / 4096 in reported (snd ta) y = hit addr pos x && marks CPU t0 x;
  up_regions : forall q, visited addr pos q = true -> region_at (fst ta) q <> None }.

Lemma upload_step is_written t0 addr q o n t l : chunk o n -> at_start addr q o -> 0 <= addr <= 4194304 * q + o -> 0 <= q < NUM_HIGH_PAGES ->
  uploaded is_written t0 addr (4194304 * q + o) (t, l) ->
  exists ta, visit_manager true (fun id offset size '(t, l) =>
         let! t := take_lock id t in
         let! '(l', t) := on_manager id (collect env CPU true offset size) t in
         let! t := (if is_written : bool then Done t else drop_lock id t) in
         Done (false, (t, l ++ l'))) q o n (t, l) = Done (false, ta) /\ uploaded is_written t0 addr (4194304 * q + o + n) ta.
Proof.
  intros Hc Hst Ha Hq []. cbn [fst snd] in *. pose proof (visited_now addr q o Hst) as Hnow. pose proof (fun q' => visited_next addr q o n q' Hc Hst Ha) as Hnext.
  set (pos := 4194304 * q + o) in *. assert (Hn0 : 0 < n) by apply Hc.
  assert (Hlk : is_written && visited addr pos q = false) by (rewrite Hnow; apply andb_false_r).
  destruct (visit_ready (fun id offset size '(t, l) =>
         let! t := take_lock id t in
         let! '(l', t) := on_manager id (collect env CPU true offset size) t in
         let! t := (if is_written : bool then Done t else drop_lock id t) in
         Done (false, (t, l ++ l'))) _ q o n t l up_inv0 Hq Hlk) as (t1 & id & -> & Hi1 & Hid & Hm1 & Hreg1).
  destruct (region_of_id _ _ _ _ Hi1 Hid) as (r & Hr & Hra). destruct (ti_region _ _ _ _ Hi1 _ _ Hra) as [Hrest _].
  rewrite (take_spec env other (fun q => is_written && visited addr pos q) q id r) by done. cbn [obind].
  destruct (collect_cpu env other (ti_other _ _ _ _ Hi1) o n q (set_lock true r) (pages t1)) as (l' & r' & pm' & E & Hs' & Hg' & Hc' & Hrp); [by apply lock_rest|done|].
  rewrite (on_manager_spec id _ _ _ t1 l' r' pm' E). cbn [obind].
  assert (exists r2, (if is_written then Done (set_manager id r' pm' t1) else drop_lock id (set_manager id r' pm' t1)) = Done (set_manager id r2 pm' t1)
    /\ lock r2 = is_written /\ cpu r2 = cpu r' /\ gpu r2 = gpu r' /\ region_at_rest env other q r2 pm') as (r2 & -> & Hl2 & Hc2 & Hg2 & Hrest2).
  { destruct is_written; [exists r'; split; [done|]; split; [by rewrite (rs_lock _ _ _ _ _ _ _ Hs')|]; do 2 (split; [done|]); by eapply region_step_rest|].
    exists (set_lock false r'). rewrite drop_spec. do 4 (split; [done|]). by eapply lock_rest, region_step_rest. }
  cbn [obind]. destruct (set_manager_inv env other _ id q r r2 pm' t1 Hi1 Hid Hr Hrest2 (rs_elsewhere _ _ _ _ _ _ _ Hs')) as [Hi2 Hat].
  eexists. split; [done|]. cbn [fst snd].
  assert (Hext : forall x, hit addr (pos + n) x = hit addr pos x || hit pos (pos + n) x) by (intros; apply hit_extend; lia).
  assert (HC : forall x, marks CPU (set_manager id r2 pm' t1) x = if hit pos (pos + n) x then false else marks CPU t x).
  { intros x. rewrite (marks_change CPU false q o n r r2 t1 _ Hc Hra Hat), Hm1; [done|]. intros i Hi'. cbn [GetRegionBits]. rewrite Hc2. by apply Hc'. }
  split; cbn [fst snd].
  - eapply inv_ext; [|exact Hi2]. intros q'. unfold set_at. rewrite Hnext. destruct (decide (q' = q)); [by rewrite Hl2, andb_true_r|done].
  - intros x. rewrite HC, up_cpu0, Hext. destruct (hit pos (pos + n) x), (hit addr pos x); done.
  - intros x. rewrite (marks_same GPU q r r2 t1 _ Hra Hat), Hm1; [done|]. cbn. by rewrite Hg2.
  - intros y. rewrite reported_app, up_list0, (reports_marks CPU q o n r t1 l' Hra Hc Hrp). cbv zeta. set (x := y / 4096). rewrite Hm1, up_cpu0, Hext. fold pos.
    pose proof (hit_disjoint addr q o n x Hst) as Hd. fold pos in Hd. destruct (hit pos (pos + n) x); rewrite ?Hd by done; destruct (hit addr pos x), (marks CPU t0 x); done.
  - intros q'. rewrite Hnext, Hat. fold pos. destruct (decide (q' = q)); [done|]. auto.
Qed.

Record written (t0 : MemoryTracker) (addr pos fin : Z) (t : MemoryTracker) : Prop := {
  wr_inv : tracker_inv env other (fun q => visited addr fin q && negb (visited addr pos q)) t;
  wr_cpu : forall x, marks CPU t x = negb (hit addr fin x) && marks CPU t0 x;
  wr_gpu : forall x, marks GPU t x = hit addr pos x || marks GPU t0 x;
  wr_regions : forall q, visited addr fin q = true -> region_at t q <> None }.

Lemma written_step t0 addr fin q o n t : chunk o n -> at_start addr q o -> 0 <= addr <= 4194304 * q + o -> 4194304 * q + o + n <= fin -> 0 <= q < NUM_HIGH_PAGES ->
  written t0 addr (4194304 * q + o) fin t ->
  exists t', visit_manager false (fun id offset size '(t, a) =>
         let! '(_, t) := on_manager id (change env GPU true offset size) t in
         let! t := drop_lock id t in
         Done (false, (t, a))) q o n (t, tt) = Done (false, (t', tt)) /\ written t0 addr (4194304 * q + o + n) fin t'.
Proof.
  intros Hc Hst Ha Hf Hq []. pose proof (visited_now addr q o Hst) as Hnow. pose proof (fun q' => visited_next addr q o n q' Hc Hst Ha) as Hnext.
  set (pos := 4194304 * q + o) in *. assert (Hn0 : 0 < n) by apply Hc.
  assert (Hv : visited addr fin q = true) by (eapply visited_in; [exact Hc|lia|done]). pose proof (wr_regions0 q Hv) as Hex.
  destruct (region_at t q) as [r|] eqn:Hra; [|done]. destruct (manager_of env other _ q r t wr_inv0 Hra) as (id & Hid & Hr & Hrest & Hlock).
  rewrite (visit_existing false _ q o n (t, tt) id) by done.
  assert (Hlk : lock r = true) by (by rewrite Hlock, Hv, Hnow). assert (Hset : set_lock true r = r) by (clear -Hlk; destruct r; cbn in *; by subst).
  destruct (change_region GPU true o n q r _ t true wr_inv0 Hra Hc) as (r' & pm' & E & Hs' & Hnb & Ho).
  { intros _ _ x Hx. cbn [opp]. rewrite wr_cpu0. by rewrite (hit_sub addr pos n fin x (proj2 Ha) Hf Hx). }
  rewrite Hset in E, Hs'. unfold on_manager. rewrite Hr. cbn [of_option obind]. rewrite E. cbn [obind]. rewrite drop_spec. cbn [obind].
  destruct (set_manager_inv env other _ id q r (set_lock false r') pm' t wr_inv0 Hid Hr) as [Hi2 Hat]; [by eapply lock_rest, region_step_rest|apply Hs'|].
  eexists. split; [done|]. split.
  - eapply inv_ext; [|exact Hi2]. intros q'. unfold set_at. rewrite Hnext. destruct (decide (q' = q)); [by rewrite andb_false_r|done].
  - intros x. by rewrite (marks_same CPU q r (set_lock false r') t _ Hra Hat).
  - intros x. rewrite (marks_change GPU true q o n r (set_lock false r') t _ Hc Hra Hat) by done. fold pos. rewrite wr_gpu0, (hit_extend addr pos n x) by lia.
    destruct (hit pos (pos + n) x), (hit addr pos x); done.
  - intros q' Hq'. rewrite Hat. destruct (decide (q' = q)); [done|auto].
Qed.

Lemma Upload_spec is_written addr size t : tracker_inv env other unlocked t -> within addr size ->
  exists l t', ForEachUploadRange env addr size is_written t = Done (l, t') /\ tracker_inv env other unlocked t'
    /\ (forall x, marks CPU t' x = negb (hit addr (addr + size) x) && marks CPU t x)
    /\ (forall x, marks GPU t' x = is_written && hit addr (addr + size) x || marks GPU t x)
    /\ forall y, let x := y / 4096 in reported l y = hit addr (addr + size) x && marks CPU t x.
Proof.
  intros Hi (Ha & Hs & Hb). unfold ForEachUploadRange.
  assert (Hv0 : forall q, visited addr addr q = false) by (intros; unfold visited; by rewrite Z.ltb_irrefl).
  edestruct (IteratePages_ind true (fun id offset size '(t, l) =>
         let! t := take_lock id t in
         let! '(l', t) := on_manager id (collect env CPU true offset size) t in
         let! t := (if is_written : bool then Done t else drop_lock id t) in
         Done (false, (t, l ++ l'))) (uploaded is_written t addr) (fun _ => False) addr size (t, [])) as (stop & [t1 l] & -> & Hres); [done..| | |].
  - intros q o n [t1 l] Hq Hc Hst Hpos Hn Hu. destruct (upload_step is_written t addr q o n t1 l Hc Hst (conj Ha Hpos) Hq Hu) as (ta & -> & Hu'). by exists false, ta.
  - split; cbn [fst snd]; intros; rewrite ?hit_empty, ?Hv0 in *; try done. eapply inv_ext; [|exact Hi]. intros q. by rewrite Hv0, andb_false_r.
  - destruct stop; [done|]. cbn [obind]. destruct Hres as [Hi1 Hc1 Hg1 Hl1 Hr1]. cbn [fst snd] in *. destruct is_written; cbn [negb]; [|by exists l, t1].
    edestruct (IteratePages_ind false (fun id offset size '(t, a) =>
         let! '(_, t) := on_manager id (change env GPU true offset size) t in
         let! t := drop_lock id t in
         Done (false, (t, a))) (fun pos ta => written t addr pos (addr + size) (fst ta)) (fun _ => False) addr size (t1, tt)) as (stop & [t2 []] & -> & Hres); [done..| | |].
    + intros q o n [t2 []] Hq Hc Hst Hpos Hn Hu. destruct (written_step t addr (addr + size) q o n t2 Hc Hst (conj Ha Hpos) Hn Hq Hu) as (t3 & -> & Hu'). by exists false, (t3, tt).
    + cbn [fst]. split; intros; rewrite ?hit_empty; try done; [|by apply Hr1]. eapply inv_ext; [|exact Hi1]. intros q. cbn. by rewrite Hv0, andb_true_r.
    + destruct stop; [done|]. cbn [obind fst] in *. destruct Hres as [Hi2 Hc2 Hg2 _]. exists l, t2. split; [done|]. split; [|done].
      eapply inv_ext; [|exact Hi2]. intros q. cbv beta. by rewrite andb_negb_r.
Qed.
End ops.
