(* ===== verification/TrackSpec.v ===== *)
(** * Modification tracking: what the tracker promises

    The abstract state of tracker and page manager is, for every page, whether CPU
    and GPU have modified it and how many other caches watch it for writes.  Every
    call returns, does to the abstract state what [spec_op] says and reports exactly
    the modified pages of its range ([tracker_calls_refine]); the protection of
    every page on the host is the function of the abstract state that makes the
    next access that matters fault ([tracker_protects]).

    With precise readbacks a cache that copies what the calls report keeps guest
    memory and GPU buffers coherent ([precise_coherent]). *)

From stdpp Require Import gmap.
From S2P Require Import Prelude BitArray BitFacts PageManager PageFacts MemoryTracker TrackFacts TrackOps.

(** ** The abstract machine *)

Record Abs := mkAbs { a_cpu : Z -> bool; a_gpu : Z -> bool; a_other : Z -> Z }.

Inductive TrackOp :=
| TMark (addr size : Z)
| TUnmark (addr size : Z)
| TInvalidate (addr size : Z)
| TUpload (addr size : Z) (is_written : bool)
| TDownload (addr size : Z) (clear : bool)
| TQuery (type : Type_) (addr size : Z)
| TWatch (track : bool) (addr size : Z).

Inductive TrackRes := TNothing | TRanges (l : list Range) | TAnswer (b : bool).

(** The calls; [TWatch] is a write watch of another cache. *)
Definition run_op (env : TrackerEnv) (op : TrackOp) (t : MemoryTracker) : outcome (TrackRes * MemoryTracker) :=
  match op with
  | TMark a n => let! t := MarkRegionAsCpuModified env a n t in Done (TNothing, t)
  | TUnmark a n => let! t := UnmarkRegionAsGpuModified env a n t in Done (TNothing, t)
  | TInvalidate a n => let! t := InvalidateRegion env a n (flush_write env a n) t in Done (TNothing, t)
  | TUpload a n is_written => let! '(l, t) := ForEachUploadRange env a n is_written t in Done (TRanges l, t)
  | TDownload a n clear => let! '(l, t) := ForEachDownloadRange env clear a n t in Done (TRanges l, t)
  | TQuery CPU a n => let! '(b, t) := IsRegionCpuModified a n t in Done (TAnswer b, t)
  | TQuery GPU a n => let! '(b, t) := IsRegionGpuModified a n t in Done (TAnswer b, t)
  | TWatch track a n =>
      let! pm := UpdatePageWatchers track false a n (pages t) in
      Done (TNothing, mkTracker (managers t) (pools t) (free_managers t) (top_tier t) pm)
  end.

Definition op_range (op : TrackOp) : Z * Z :=
  match op with
  | TMark a n | TUnmark a n | TInvalidate a n | TUpload a n _ | TDownload a n _ | TQuery _ a n | TWatch _ a n => (a, n)
  end.

(** The byte range of the call meets page [x]. *)
Definition op_hits (op : TrackOp) (x : Z) : bool := hit (fst (op_range op)) (fst (op_range op) + snd (op_range op)) x.

Definition spec_op (env : TrackerEnv) (op : TrackOp) (a : Abs) : Abs :=
  let h := op_hits op in
  match op with
  | TMark _ _ => mkAbs (fun x => h x || a_cpu a x) (a_gpu a) (a_other a)
  | TUnmark _ _ => mkAbs (a_cpu a) (fun x => negb (h x) && a_gpu a x) (a_other a)
  | TInvalidate _ _ => mkAbs (fun x => h x || a_cpu a x) (fun x => negb (watching env && h x) && a_gpu a x) (a_other a)
  | TUpload _ _ is_written => mkAbs (fun x => negb (h x) && a_cpu a x) (fun x => is_written && h x || a_gpu a x) (a_other a)
  | TDownload _ _ clear => mkAbs (a_cpu a) (fun x => negb (clear && h x) && a_gpu a x) (a_other a)
  | TQuery _ _ _ => a
  | TWatch track _ _ => mkAbs (a_cpu a) (a_gpu a) (fun x => if h x then a_other a x + (if track then 1 else -1) else a_other a x)
  end.

(** What a caller has to keep to: ranges inside the tracked addresses; a page the
    GPU modified is not marked for the CPU without a flush where its protection
    follows the GPU; relaxed readbacks never clear; watchers are balanced and fewer
    than 127. *)
Definition admissible (env : TrackerEnv) (op : TrackOp) (a : Abs) : Prop :=
  within (fst (op_range op)) (snd (op_range op))
  /\ match op with
     | TMark _ _ => precise env = true -> forall x, op_hits op x = true -> a_gpu a x = false
     | TDownload _ _ clear => clear = true -> readbacks env <> Relaxed
     | TWatch track _ n => 0 < n /\ forall x, op_hits op x = true -> if track then a_other a x < 126 else 0 < a_other a x
     | _ => True
     end.

Definition result_ok (op : TrackOp) (a : Abs) (res : TrackRes) : Prop :=
  match op with
  | TUpload _ _ _ => exists l, res = TRanges l /\ forall y, reported l y = op_hits op (y / 4096) && a_cpu a (y / 4096)
  | TDownload _ _ _ => exists l, res = TRanges l /\ forall y, reported l y = op_hits op (y / 4096) && a_gpu a (y / 4096)
  | TQuery type _ _ => exists b, res = TAnswer b /\ (b = true <-> exists x, op_hits op x = true /\ (match type with CPU => a_cpu a | GPU => a_gpu a end) x = true)
  | _ => res = TNothing
  end.

(** ** Simulation *)

Record sim (env : TrackerEnv) (t : MemoryTracker) (a : Abs) : Prop := {
  sim_inv : tracker_inv env (a_other a) unlocked t;
  sim_cpu : forall x, marks CPU t x = a_cpu a x;
  sim_gpu : forall x, marks GPU t x = a_gpu a x }.

Definition abs_start : Abs := mkAbs (fun _ => true) (fun _ => false) (fun _ => 0).

Lemma sim_start env : sim env (new_tracker new_pages) abs_start.
Proof.
  split; [split| |]; cbn; try done.
  - constructor.
  - by intros id ?%elem_of_nil.
  - intros id [r H]. by rewrite lookup_empty in H.
Qed.

(** The watchers of a page. *)
Lemma watchers env other t x : tracker_inv env other unlocked t ->
  num_write_watchers (state_of x (pages t)) = other x + (if marks CPU t x then 0 else 1)
  /\ num_read_watchers (state_of x (pages t)) = (if precise env && marks GPU t x then 1 else 0).
Proof.
  intros Hi. unfold marks. destruct (region_at t (x / 1024)) as [r|] eqn:Hr.
  - destruct (ti_region _ _ _ _ Hi _ _ Hr) as [(Hro & Hrel & _) _]. pose proof (Z.mod_pos_bound x 1024 ltac:(lia)) as Hm.
    specialize (Hrel (x mod 1024) Hm). rewrite <- Z.div_mod in Hrel by lia. rewrite (readable_bit env _ r) in Hrel by done. cbn [GetRegionBits].
    destruct Hrel as [-> ->]. split; [done|]. destruct (precise env); [|done]. by destruct (bit (gpu r) _).
  - destruct (ti_rest _ _ _ _ Hi x Hr) as [-> ->]. cbn. rewrite andb_false_r. split; [lia|done].
Qed.

Lemma exclusive env other t x : tracker_inv env other unlocked t -> precise env = true -> marks CPU t x = true -> marks GPU t x = false.
Proof.
  intros Hi Hp. unfold marks. destruct (region_at t (x / 1024)) as [r|] eqn:Hr; [|done]. destruct (ti_region _ _ _ _ Hi _ _ Hr) as [(Hro & _) _].
  apply (ro_excl _ _ _ Hro Hp). apply Z.mod_pos_bound. lia.
Qed.

Lemma Watch_spec env other track addr size t : tracker_inv env other unlocked t -> within addr size -> 0 < size ->
  (forall x, hit addr (addr + size) x = true -> if track : bool then other x < 126 else 0 < other x) ->
  exists pm, UpdatePageWatchers track false addr size (pages t) = Done pm
    /\ tracker_inv env (fun x => if hit addr (addr + size) x then other x + (if track then 1 else -1) else other x) unlocked
         (mkTracker (managers t) (pools t) (free_managers t) (top_tier t) pm).
Proof.
  intros Hi (Ha & Hs & Hb) Hn Hc.
  assert (Hhit : forall x, in_range (addr / 4096) ((addr + size + 4095) / 4096) x = hit addr (addr + size) x).
  { intros x. unfold in_range, hit. assert ((addr / 4096 <= x <-> addr < 4096 * x + 4096) /\ (x < (addr + size + 4095) / 4096 <-> 4096 * x < addr + size)) by (Z.div_mod_to_equations; lia).
    split_cmp; lia. }
  destruct (UpdatePageWatchers_bytes track false addr size (pages t)) as (pm & E & Hok & Hs'); [apply Hi|done|done|unfold NUM_ADDRESS_PAGES; lia| |].
  - intros x Hx. assert (Hh : hit addr (addr + size) x = true) by (rewrite <- Hhit; unfold in_range; split_cmp; lia).
    destruct (watchers env other t x Hi) as [Hw Hr]. specialize (Hc x Hh). pose proof (ti_other _ _ _ _ Hi x). pose proof (exclusive env other t x Hi) as Hex.
    split; [apply (proj1 (ti_pages _ _ _ _ Hi))|]. unfold can_add, added, Perms, ReadPerm, WritePerm. cbn. rewrite Hw, Hr.
    destruct track; (split; [destruct (marks CPU t x); lia|]).
    + rewrite (proj2 (Z.eqb_neq (other x + (if marks CPU t x then 0 else 1) + 1) 0)) by (destruct (marks CPU t x); lia). by destruct (_ && _).
    + destruct (precise env && marks GPU t x) eqn:Eg; [|by destruct (other x + (if marks CPU t x then 0 else 1) + -1 =? 0)]. apply andb_true_iff in Eg as [Hp Hg].
      destruct (marks CPU t x); [by rewrite Hex in Hg|]. rewrite (proj2 (Z.eqb_neq (other x + 1 + -1) 0)) by lia. done.
  - exists pm. split; [done|]. pose proof Hi as []. split; cbn [managers pools free_managers top_tier pages]; try done.
    + intros x. destruct (hit _ _ x) eqn:E'; [|done]. specialize (Hc x E'). specialize (ti_other x). destruct track; lia.
    + intros q r Hr. destruct (ti_region q r Hr) as [(Hro & Hrel & _) Hl]. split; [|done]. split; [done|]. split; [|done].
      intros i Hi'. destruct (Hrel i Hi') as [Hw Hd]. rewrite Hs', Hhit. destruct (hit _ _ _); [|done]. cbn. rewrite Hw, Hd. lia.
    + intros x Hx. destruct (ti_rest x Hx) as [Hw Hd]. rewrite Hs', Hhit. destruct (hit _ _ _); [|done]. cbn. by rewrite Hw, Hd.
Qed.

(** A call whose effect on the marks is known keeps the simulation. *)
Lemma sim_next env t' a : tracker_inv env (a_other a) unlocked t' -> (forall x, marks CPU t' x = a_cpu a x) -> (forall x, marks GPU t' x = a_gpu a x) -> sim env t' a.
Proof. by split. Qed.

Lemma op_simulates env op t a : sim env t a -> admissible env op a ->
  exists res t', run_op env op t = Done (res, t') /\ sim env t' (spec_op env op a) /\ result_ok op a res.
Proof.
  intros [Hi Hcpu Hgpu] [Hw Ha]. unfold op_hits in Ha. destruct op as [addr n|addr n|addr n|addr n w|addr n cl|type addr n|track addr n]; cbn [run_op op_range fst snd] in *.
  - destruct (Mark_spec env (a_other a) addr n t Hi Hw) as (t' & -> & Hi' & H1 & H2); [intros Hp x Hx; rewrite Hgpu; auto|]. exists TNothing, t'. split; [done|]. split; [|done].
    apply sim_next; [done|..]; intros x; cbn; [by rewrite H1, Hcpu|by rewrite H2].
  - destruct (Unmark_spec env (a_other a) addr n t Hi Hw) as (t' & -> & Hi' & H1 & H2). exists TNothing, t'. split; [done|]. split; [|done].
    apply sim_next; [done|..]; intros x; cbn; [by rewrite H2|by rewrite H1, Hgpu].
  - destruct (Invalidate_spec env (a_other a) addr n t Hi Hw) as (t' & -> & Hi' & H1 & H2). exists TNothing, t'. split; [done|]. split; [|done].
    apply sim_next; [done|..]; intros x; cbn; [by rewrite H1, Hcpu|by rewrite H2, Hgpu].
  - destruct (Upload_spec env (a_other a) w addr n t Hi Hw) as (l & t' & -> & Hi' & H1 & H2 & H3). exists (TRanges l), t'. split; [done|].
    split; [apply sim_next; [done|..]; intros x; cbn; [by rewrite H1, Hcpu|by rewrite H2, Hgpu]|]. exists l. split; [done|]. intros y. by rewrite H3, Hcpu.
  - destruct (Download_spec env (a_other a) cl addr n t Hi Hw Ha) as (l & t' & -> & Hi' & H1 & H2 & H3). exists (TRanges l), t'. split; [done|].
    split; [apply sim_next; [done|..]; intros x; cbn; [by rewrite H1|by rewrite H2, Hgpu]|]. exists l. split; [done|]. intros y. by rewrite H3, Hgpu.
  - destruct (is_modified_spec env (a_other a) type addr n t Hi Hw) as (b & t' & E & Hi' & H1 & H2). exists (TAnswer b), t'.
    split; [destruct type; cbn in *; unfold IsRegionCpuModified, IsRegionGpuModified; by rewrite E|].
    split; [apply sim_next; [done|..]; intros x; cbn; by rewrite H1|]. exists b. split; [done|]. rewrite H2. unfold op_hits. cbn.
    destruct type; split; intros (x & ? & Hx); exists x; (split; [done|]); [by rewrite <- Hcpu|by rewrite Hcpu|by rewrite <- Hgpu|by rewrite Hgpu].
  - destruct Ha as [Hn Ha]. destruct (Watch_spec env (a_other a) track addr n t Hi Hw Hn Ha) as (pm & -> & Hi'). eexists TNothing, _. split; [done|]. split; [|done].
    apply sim_next; [done|..]; intros x; cbn; [rewrite <- Hcpu|rewrite <- Hgpu]; done.
Qed.

(** The states that admissible calls reach. *)
Inductive treach (env : TrackerEnv) : MemoryTracker -> Abs -> Prop :=
| treach_start : treach env (new_tracker new_pages) abs_start
| treach_call op t a res t' : treach env t a -> admissible env op a -> run_op env op t = Done (res, t') -> treach env t' (spec_op env op a).

Lemma treach_sim env t a : treach env t a -> sim env t a.
Proof.
  induction 1 as [|op t a res t' _ IH Ha E]; [apply sim_start|]. destruct (op_simulates env op t a IH Ha) as (res2 & t2 & E2 & Hs & _). congruence.
Qed.

(** The permission of a page by the abstract state. *)
Definition protection (env : TrackerEnv) (a : Abs) (x : Z) : Z :=
  Z.lor (if precise env && a_gpu a x then PermNone else PermRead) (if a_cpu a x && (a_other a x =? 0) then PermWrite else PermNone).

Lemma sim_host env t a x : sim env t a -> host_of x (pages t) = protection env a x.
Proof.
  intros [Hi Hcpu Hgpu]. rewrite (proj2 (ti_pages _ _ _ _ Hi) x). destruct (watchers env (a_other a) t x Hi) as [Hw Hr]. pose proof (ti_other _ _ _ _ Hi x).
  unfold Perms, ReadPerm, WritePerm, protection. rewrite Hw, Hr, Hcpu, Hgpu. f_equal; [by destruct (precise env && a_gpu a x)|].
  destruct (a_cpu a x); cbn; [by rewrite Z.add_0_r|]. by rewrite (proj2 (Z.eqb_neq _ 0)) by lia.
Qed.

(** C30: the tracker implements its abstract machine: in every state that admissible
    calls reach, every admissible call (marking, unmarking, invalidating with its
    flush, collecting uploads or downloads, queries, watches by other caches)
    returns without a failed assertion, changes the modified pages as the machine
    says, and reports exactly the bytes of the modified pages its range meets. *)
Theorem tracker_calls_refine env op t a : treach env t a -> admissible env op a ->
  exists res t', run_op env op t = Done (res, t') /\ treach env t' (spec_op env op a)
    /\ (forall x, marks CPU t' x = a_cpu (spec_op env op a) x) /\ (forall x, marks GPU t' x = a_gpu (spec_op env op a) x) /\ result_ok op a res.
Proof.
  intros Hr Ha. destruct (op_simulates env op t a (treach_sim _ _ _ Hr) Ha) as (res & t' & E & [_ H1 H2] & H3). exists res, t'. split; [done|].
  split; [by eapply treach_call|]. done.
Qed.

Lemma tracker_calls_refine_witness : exists res t',
  run_op (mkEnv Precise true) (TUpload 4096 12288 true) (new_tracker new_pages) = Done (res, t')
  /\ treach (mkEnv Precise true) t' (spec_op (mkEnv Precise true) (TUpload 4096 12288 true) abs_start)
  /\ (forall x, marks CPU t' x = a_cpu (spec_op (mkEnv Precise true) (TUpload 4096 12288 true) abs_start) x)
  /\ (forall x, marks GPU t' x = a_gpu (spec_op (mkEnv Precise true) (TUpload 4096 12288 true) abs_start) x)
  /\ result_ok (TUpload 4096 12288 true) abs_start res.
Proof. apply tracker_calls_refine; [apply treach_start|]. split; [|done]. unfold within. cbn. lia. Defined.

(** C31: the host protection of every page is always the one that lets through
    exactly the accesses nobody needs to see: it is writable when the CPU already
    counts as having modified it and no other cache watches it, and readable unless
    readbacks are precise and the GPU has modified it. *)
Theorem tracker_protects env t a x : treach env t a -> host_of x (pages t) = protection env a x.
Proof. intros Hr. by apply sim_host, treach_sim. Qed.

Lemma upload_reached : exists t, treach (mkEnv Precise true) t (spec_op (mkEnv Precise true) (TUpload 4096 12288 true) abs_start).
Proof.
  destruct (op_simulates (mkEnv Precise true) (TUpload 4096 12288 true) _ _ (sim_start _)) as (res & t & E & _); [split; [|done]; unfold within; cbn; lia|].
  exists t. eapply treach_call; [apply treach_start| |exact E]. split; [|done]. unfold within. cbn. lia.
Qed.

Lemma tracker_protects_witness : exists t, host_of 1 (pages t) = PermNone /\ host_of 0 (pages t) = Z.lor PermRead PermWrite.
Proof. destruct upload_reached as [t Ht]. exists t. split; [by rewrite (tracker_protects _ _ _ 1 Ht)|by rewrite (tracker_protects _ _ _ 0 Ht)]. Defined.
