(* ===== verification/TrackCoherence.v ===== *)
(** * Modification tracking: coherence of guest memory and GPU buffers

    A cache in front of the tracker, with precise readbacks: guest accesses go
    through where the host permits them and fault otherwise; a write fault
    invalidates, with the flush of what the GPU has modified, a read fault brings
    the data back; the GPU uses a range after its upload ranges were copied.
    Contents are kept per page; [w_latest] is what a single memory would hold. *)

From stdpp Require Import gmap.
From S2P Require Import Prelude BitArray BitFacts PageManager PageFacts MemoryTracker TrackFacts TrackOps TrackSpec.

Record World := mkWorld { w_mem : Z -> Z; w_buf : Z -> Z; w_latest : Z -> Z }.

(** Copying the reported ranges. *)
Definition copy_ranges (l : list Range) (src dst : Z -> Z) (x : Z) : Z := if reported l (4096 * x) then src x else dst x.

(** A write of the pages of a range, which may keep parts of a page. *)
Definition write_pages (addr size : Z) (f : Z -> Z -> Z) (m : Z -> Z) (x : Z) : Z := if hit addr (addr + size) x then f x (m x) else m x.

Definition may_write (x : Z) (t : MemoryTracker) : bool := Z.testbit (host_of x (pages t)) 1.
Definition may_read (x : Z) (t : MemoryTracker) : bool := Z.testbit (host_of x (pages t)) 0.

Inductive cache_step (env : TrackerEnv) : MemoryTracker * World -> MemoryTracker * World -> Prop :=
| step_write addr size f t w :
    within addr size -> (forall x, hit addr (addr + size) x = true -> may_write x t = true) ->
    cache_step env (t, w) (t, mkWorld (write_pages addr size f (w_mem w)) (w_buf w) (write_pages addr size f (w_latest w)))
| step_write_fault addr size l t w t' t2 :
    within addr size -> ForEachDownloadRange env false addr size t = Done (l, t2) ->
    InvalidateRegion env addr size (flush_write env addr size) t = Done t' ->
    cache_step env (t, w) (t', mkWorld (copy_ranges l (w_buf w) (w_mem w)) (w_buf w) (w_latest w))
| step_read_fault addr size l t w t' t2 :
    within addr size -> ForEachDownloadRange env false addr size t = Done (l, t2) -> UnmarkRegionAsGpuModified env addr size t2 = Done t' ->
    cache_step env (t, w) (t', mkWorld (copy_ranges l (w_buf w) (w_mem w)) (w_buf w) (w_latest w))
| step_gpu_read addr size l t w t' :
    within addr size -> ForEachUploadRange env addr size false t = Done (l, t') ->
    cache_step env (t, w) (t', mkWorld (w_mem w) (copy_ranges l (w_mem w) (w_buf w)) (w_latest w))
| step_gpu_write addr size f l t w t' :
    within addr size -> ForEachUploadRange env addr size true t = Done (l, t') ->
    cache_step env (t, w) (t', mkWorld (w_mem w) (write_pages addr size f (copy_ranges l (w_mem w) (w_buf w))) (write_pages addr size f (w_latest w)))
| step_watch track addr size t w pm other :
    tracker_inv env other unlocked t -> within addr size -> 0 < size ->
    (forall x, hit addr (addr + size) x = true -> if track : bool then other x < 126 else 0 < other x) ->
    UpdatePageWatchers track false addr size (pages t) = Done pm ->
    cache_step env (t, w) (mkTracker (managers t) (pools t) (free_managers t) (top_tier t) pm, w).

Inductive cached (env : TrackerEnv) : MemoryTracker * World -> Prop :=
| cached_start m b : cached env (new_tracker new_pages, mkWorld m b m)
| cached_step s s' : cached env s -> cache_step env s s' -> cached env s'.

(** ** The invariant *)

Record coherent (env : TrackerEnv) (s : MemoryTracker * World) : Prop := {
  co_inv : exists other, tracker_inv env other unlocked (fst s);
  co_mem : forall x, marks GPU (fst s) x = false -> w_mem (snd s) x = w_latest (snd s) x;
  co_buf : forall x, marks CPU (fst s) x = false -> w_buf (snd s) x = w_latest (snd s) x }.

Lemma sim_marks env other t : tracker_inv env other unlocked t -> sim env t (mkAbs (marks CPU t) (marks GPU t) other).
Proof. by split. Qed.

Lemma may_write_spec env other t x : tracker_inv env other unlocked t -> may_write x t = marks CPU t x && (other x =? 0).
Proof.
  intros Hi. unfold may_write. rewrite (sim_host env t _ x (sim_marks env other t Hi)). unfold protection. cbn. by destruct (precise env && _), (marks CPU t x && _).
Qed.

Lemma may_read_spec env other t x : tracker_inv env other unlocked t -> may_read x t = negb (precise env && marks GPU t x).
Proof.
  intros Hi. unfold may_read. rewrite (sim_host env t _ x (sim_marks env other t Hi)). unfold protection. cbn. by destruct (precise env && _), (marks CPU t x && _).
Qed.

(** Ranges that name the marked pages of a byte range copy those. *)
Lemma copied l src dst (P Q : Z -> bool) x : (forall y, let x := y / 4096 in reported l y = P x && Q x) ->
  copy_ranges l src dst x = if P x && Q x then src x else dst x.
Proof. intros H. unfold copy_ranges. rewrite H. cbv zeta. by rewrite Z.mul_comm, Z.div_mul. Qed.

Section coherence.
Context (env : TrackerEnv) (Hprecise : readbacks env = Precise).

Lemma is_precise : precise env = true.
Proof. unfold precise. by rewrite Hprecise. Qed.

Lemma is_watching : watching env = true.
Proof. unfold watching. by rewrite Hprecise. Qed.

(** A page is not modified by both. *)
Lemma one_side other t x : tracker_inv env other unlocked t -> marks GPU t x = true -> marks CPU t x = false.
Proof. intros Hi Hg. apply not_true_iff_false. intros Hc. by rewrite (exclusive env other t x Hi is_precise Hc) in Hg. Qed.

Lemma step_coherent s s' : coherent env s -> cache_step env s s' -> coherent env s'.
Proof.
  intros [[other Hi] Hm Hb] Hs. destruct Hs as [addr size f t w Hw Hp|addr size l t w t' t2 Hw Ed Ei|addr size l t w t' t2 Hw Ed Eu|addr size l t w t' Hw Eu|addr size f l t w t' Hw Eu|track addr size t w pm other' Hi' Hw Hn Hc E]; cbn [fst snd] in *.
  - assert (Hh : forall x, hit addr (addr + size) x = true -> marks CPU t x = true).
    { intros x Hx. specialize (Hp x Hx). rewrite (may_write_spec env other) in Hp by done. by apply andb_true_iff in Hp as [? _]. }
    split; cbn [fst snd w_mem w_buf w_latest]; [by exists other|..]; intros x Hx; unfold write_pages.
    + rewrite Hm by done. done.
    + destruct (hit _ _ x) eqn:E; [by rewrite Hh in Hx|auto].
  - destruct (Download_spec env other false addr size t Hi Hw) as (l2 & t3 & E2 & _ & _ & _ & Hl); [done|]. rewrite E2 in Ed. injection Ed as -> ->.
    destruct (Invalidate_spec env other addr size t Hi Hw) as (t4 & E4 & Hi4 & Hc4 & Hg4). rewrite E4 in Ei. injection Ei as ->.
    split; cbn [fst snd w_mem w_buf w_latest]; [by exists other|..]; intros x Hx.
    + rewrite (copied l _ _ _ _ x Hl). rewrite Hg4, is_watching in Hx. destruct (hit _ _ x), (marks GPU t x) eqn:Eg; cbn in *; try done; auto. apply Hb. by eapply one_side.
    + rewrite Hc4 in Hx. apply orb_false_iff in Hx as [_ Hx]. auto.
  - destruct (Download_spec env other false addr size t Hi Hw) as (l2 & t3 & E2 & Hi3 & Hc3 & Hg3 & Hl); [done|]. rewrite E2 in Ed. injection Ed as -> ->.
    destruct (Unmark_spec env other addr size t2 Hi3 Hw) as (t4 & E4 & Hi4 & Hg4 & Hc4). rewrite E4 in Eu. injection Eu as ->.
    split; cbn [fst snd w_mem w_buf w_latest]; [by exists other|..]; intros x Hx.
    + rewrite (copied l _ _ _ _ x Hl). rewrite Hg4, Hg3 in Hx. destruct (hit _ _ x), (marks GPU t x) eqn:Eg; cbn in *; try done; auto. apply Hb. by eapply one_side.
    + rewrite Hc4, Hc3 in Hx. auto.
  - destruct (Upload_spec env other false addr size t Hi Hw) as (l2 & t2 & E2 & Hi2 & Hc2 & Hg2 & Hl). rewrite E2 in Eu. injection Eu as -> ->.
    split; cbn [fst snd w_mem w_buf w_latest]; [by exists other|..]; intros x Hx; [rewrite Hg2 in Hx; auto|].
    rewrite (copied l _ _ _ _ x Hl). rewrite Hc2 in Hx. destruct (hit _ _ x), (marks CPU t x) eqn:Ec; cbn in *; try done; auto. apply Hm. by eapply exclusive, Ec; [|apply is_precise].
  - destruct (Upload_spec env other true addr size t Hi Hw) as (l2 & t2 & E2 & Hi2 & Hc2 & Hg2 & Hl). rewrite E2 in Eu. injection Eu as -> ->.
    split; cbn [fst snd w_mem w_buf w_latest]; [by exists other|..]; intros x Hx; unfold write_pages.
    + rewrite Hg2 in Hx. apply orb_false_iff in Hx as [Hx Hg]. cbn in Hx. rewrite Hx. auto.
    + rewrite (copied l _ _ _ _ x Hl). rewrite Hc2 in Hx. destruct (hit _ _ x), (marks CPU t x) eqn:Ec; cbn in *; try done; auto; f_equal; auto. apply Hm. by eapply exclusive, Ec; [|apply is_precise].
  - destruct (Watch_spec env other' track addr size t Hi' Hw Hn Hc) as (pm2 & E2 & Hi2). rewrite E in E2. injection E2 as ->.
    split; [eexists; exact Hi2|..]; intros x Hx; [by apply Hm|by apply Hb].
Qed.

Lemma cached_coherent s : cached env s -> coherent env s.
Proof.
  induction 1 as [m b|s s' _ IH Hs]; [|by eapply step_coherent]. destruct (sim_start env) as [Hi Hc Hg].
  split; cbn [fst snd]; [by eexists|done|]. intros x Hx. by rewrite Hc in Hx.
Qed.
End coherence.

(** C29: with precise readbacks guest memory and GPU buffers behave like one memory:
    whatever guest accesses, faults, GPU reads and GPU writes came before, a page
    the guest may read holds its latest contents, so does the buffer of a page the
    CPU has not modified since its upload, and a page the guest may write is
    current in memory, so that a partial write loses nothing. *)
Theorem precise_coherent env s : readbacks env = Precise -> cached env s ->
  (forall x, may_read x (fst s) = true -> w_mem (snd s) x = w_latest (snd s) x)
  /\ (forall x, may_write x (fst s) = true -> w_mem (snd s) x = w_latest (snd s) x)
  /\ (forall x, marks CPU (fst s) x = false -> w_buf (snd s) x = w_latest (snd s) x).
Proof.
  intros Hp Hs. destruct (cached_coherent env Hp s Hs) as [[other Hi] Hm Hb]. split; [|split; [|done]]; intros x Hx; apply Hm.
  - rewrite (may_read_spec env other), is_precise in Hx by done. by apply negb_true_iff in Hx.
  - rewrite (may_write_spec env other) in Hx by done. apply andb_true_iff in Hx as [Hc _]. by eapply exclusive, Hc; [|apply is_precise].
Qed.

Lemma gpu_write_cached : exists s, cached (mkEnv Precise true) s /\ may_read 1 (fst s) = false /\ marks CPU (fst s) 1 = false /\ w_latest (snd s) 1 = 7.
Proof.
  destruct (Upload_spec (mkEnv Precise true) (fun _ => 0) true 4096 4096 (new_tracker new_pages)) as (l & t & E & Hi & Hc & Hg & _);
    [apply (sim_start (mkEnv Precise true))|unfold within; lia|].
  eexists (t, _). split; [eapply cached_step; [apply (cached_start _ (fun _ => 0) (fun _ => 0))|]; eapply (step_gpu_write _ 4096 4096 (fun _ _ => 7)); [unfold within; lia|exact E]|].
  cbn [fst snd]. split; [rewrite (may_read_spec (mkEnv Precise true) (fun _ => 0)) by done; by rewrite Hg|]. split; [by rewrite Hc|done].
Qed.

Lemma precise_coherent_witness : exists s, cached (mkEnv Precise true) s /\ may_read 1 (fst s) = false /\ w_buf (snd s) 1 = 7.
Proof.
  destruct gpu_write_cached as (s & Hs & Hr & Hc & Hl). exists s. split; [done|]. split; [done|].
  destruct (precise_coherent (mkEnv Precise true) s eq_refl Hs) as (_ & _ & H). by rewrite (H 1 Hc).
Defined.

(** faults are resolved: after the invalidation of a write fault every page of
    the range that no other cache watches is writable, and after the readback of a
    read fault every page of the range is readable; both calls return. *)
Theorem faults_resolve env t a addr size : treach env t a -> within addr size ->
  (exists t', InvalidateRegion env addr size (flush_write env addr size) t = Done t'
     /\ forall x, hit addr (addr + size) x = true -> a_other a x = 0 -> may_write x t' = true)
  /\ exists l t2 t', ForEachDownloadRange env false addr size t = Done (l, t2) /\ UnmarkRegionAsGpuModified env addr size t2 = Done t'
     /\ forall x, hit addr (addr + size) x = true -> may_read x t' = true.
Proof.
  intros [Hi Hc Hg]%treach_sim Hw. split.
  - destruct (Invalidate_spec env (a_other a) addr size t Hi Hw) as (t' & E & Hi' & Hc' & _). exists t'. split; [done|]. intros x Hx Ho.
    rewrite (may_write_spec env (a_other a)) by done. by rewrite Hc', Hx, Ho.
  - destruct (Download_spec env (a_other a) false addr size t Hi Hw) as (l & t2 & E & Hi2 & _); [done|].
    destruct (Unmark_spec env (a_other a) addr size t2 Hi2 Hw) as (t' & E' & Hi' & Hg' & _). exists l, t2, t'. split; [done|]. split; [done|]. intros x Hx.
    rewrite (may_read_spec env (a_other a)) by done. rewrite Hg', Hx. by rewrite andb_false_r.
Qed.

Lemma faults_resolve_witness : exists t t', treach (mkEnv Precise true) t (spec_op (mkEnv Precise true) (TUpload 4096 12288 true) abs_start)
  /\ InvalidateRegion (mkEnv Precise true) 4096 8 (flush_write (mkEnv Precise true) 4096 8) t = Done t' /\ may_write 1 t' = true.
Proof.
  destruct upload_reached as [t Ht]. destruct (faults_resolve _ t _ 4096 8 Ht) as [(t' & E & H) _]; [unfold within; lia|].
  exists t, t'. split; [done|]. split; [done|]. by apply H.
Defined.

(** ** Scanning the bits *)

(** the vectorised search for a run of modified pages finds what the plain one
    finds, from any page on. *)
Theorem scan_paths_agree bits start : bits_ok bits -> 0 <= start -> FirstRangeFrom true start bits = FirstRangeFrom false start bits.
Proof.
  intros Hb Hs. apply (first_run_unique bits start); by apply FirstRangeFrom_spec.
Qed.

Lemma scan_paths_agree_witness : FirstRangeFrom true 3 (SetRange 60 700 (replicate 16 0)) = FirstRangeFrom false 3 (SetRange 60 700 (replicate 16 0)).
Proof. apply scan_paths_agree; [apply SetRange_ok, zeros_ok|lia]. Defined.

(** ** Concrete runs on which the code does something
    unexpected *)

(** A history of calls; the result of the last, or the fault that ended it. *)
Fixpoint run_track (env : TrackerEnv) (ops : list TrackOp) (t : MemoryTracker) : outcome TrackRes :=
  match ops with
  | [] => Done TNothing
  | [op] => let! '(res, _) := run_op env op t in Done res
  | op :: ops => let! '(_, t) := run_op env op t in run_track env ops t
  end.

(** The vectorised search for the start of the last run compares with zeros where
    the plain one compares with ones: it runs on through clear words. *)
Example vector_last_range_overruns :
  let bits := SetRange 256 320 (replicate 8 0) in
  LastRange true bits = (0, 320) /\ LastRange false bits = (256, 320).
Proof. vm_compute. split; reflexivity. Qed.

(** With relaxed readbacks marking a page for the GPU adds no read watcher, but
    clearing it on a download takes one away. *)
Example relaxed_download_asserts :
  run_track (mkEnv Relaxed false) [TUpload 0 8192 true; TDownload 0 4096 true] (new_tracker new_pages) = Raised AssertFailed.
Proof. vm_compute. reflexivity. Qed.

(** With precise readbacks marking a page the GPU modified for the CPU asks the host
    for a page that may be written and not read. *)
Example precise_mark_asserts :
  run_track (mkEnv Precise false) [TUpload 0 8192 true; TMark 0 4096] (new_tracker new_pages) = Raised AssertFailed.
Proof. vm_compute. reflexivity. Qed.

(** A range past the tracked addresses indexes outside the table. *)
Example untracked_address_is_undefined :
  run_track (mkEnv Disabled false) [TQuery GPU 1099511627776 1] (new_tracker new_pages) = Raised Undefined.
Proof. vm_compute. reflexivity. Qed.

(** A page watched 128 times by other caches counts as not watched. *)
Example watchers_wrap :
  (let! pm := Nat.iter 128 (fun r => let! pm := r in UpdatePageWatchers true false 0 4096 pm) (Done new_pages) in
   Done (num_write_watchers (state_of 0 pm), host_of 0 pm)) = Done (0, PermRead).
Proof. vm_compute. reflexivity. Qed.
