(* ===== verification/Equeue.v ===== *)
(** * Event queues ([core/libraries/kernel/equeue.{h,cpp}])

    A queue holds the events a guest asked to hear of, in the order of their
    addition; they are triggered by the guest, by timers and by the GPU, and waits
    collect the triggered ones.  Short timers are kept apart and polled by the
    waiting thread.

    Queues are objects in a store ([objects]); [kqueues] maps handles to them.  The
    timers of the host are the list [io_waits] of their pending handlers; a handler
    whose timer is destroyed is cancelled unless it is due.  A call runs as one step,
    except that a thread that has to wait leaves a [Waiter], the locals of its wait,
    and goes on in steps of its own ([advance]).  Logging is left out. *)

From stdpp Require Import gmap strings pretty.
From S2P Require Import Prelude.

(** ** Data *)

Module Filter.
Definition User : Z := -11.
Definition Timer : Z := -7.
Definition VideoOut : Z := -13.
Definition GraphicsCore : Z := -14.
Definition HrTimer : Z := -15.
End Filter.

Module Flags.
Definition Add : Z := 1.
Definition Delete : Z := 2.
Definition OneShot : Z := 16.
Definition Clear : Z := 32.
End Flags.

Record OrbisKernelEvent := mkKevent { ident : Z; filter_ : Z; flags : Z; fflags : Z; data : Z; udata : Z }.

Record OrbisKernelBintime := mkBintime { sec : Z; frac : Z }.
Record OrbisKernelTimespec := mkTimespec { tv_sec : Z; tv_nsec : Z }.

(** [timer] is the expiry of the host timer; times are nanoseconds. *)
Record EqueueEvent := mkEvent { event : OrbisKernelEvent; time_added : Z; timer_interval : Z; timer : option Z; is_triggered : bool }.

Definition has_flag (e : OrbisKernelEvent) (f : Z) : bool := negb (Z.land (flags e) f =? 0).

Definition with_event (k : OrbisKernelEvent) (e : EqueueEvent) : EqueueEvent := mkEvent k (time_added e) (timer_interval e) (timer e) (is_triggered e).
Definition with_data (d : Z) (k : OrbisKernelEvent) : OrbisKernelEvent := mkKevent (ident k) (filter_ k) (flags k) (fflags k) d (udata k).
Definition with_udata (u : Z) (k : OrbisKernelEvent) : OrbisKernelEvent := mkKevent (ident k) (filter_ k) (flags k) (fflags k) (data k) u.
Definition with_flags (f : Z) (k : OrbisKernelEvent) : OrbisKernelEvent := mkKevent (ident k) (filter_ k) f (fflags k) (data k) (udata k).

Definition set_triggered (k : OrbisKernelEvent) (e : EqueueEvent) : EqueueEvent := mkEvent k (time_added e) (timer_interval e) (timer e) true.

Definition EqueueEvent_Clear (e : EqueueEvent) : EqueueEvent :=
  mkEvent (mkKevent (ident (event e)) (filter_ (event e)) (flags (event e)) 0 0 (udata (event e))) (time_added e) (timer_interval e) (timer e) false.

Definition Trigger (d : Z) (e : EqueueEvent) : EqueueEvent := set_triggered (with_data d (event e)) e.
Definition TriggerUser (d : Z) (e : EqueueEvent) : EqueueEvent := set_triggered (with_udata d (event e)) e.
Definition TriggerTimer (e : EqueueEvent) : EqueueEvent := set_triggered (with_data (wadd (data (event e)) 1) (event e)) e.

(** [time] is the time stamp counter; the hint has the event in its low byte. *)
Definition TriggerDisplay (time d : Z) (e : EqueueEvent) : EqueueEvent :=
  if d =? 0 then set_triggered (event e) e else
  if (Z.land d 255 =? ident (event e)) && negb (ident (event e) =? 254) then
    let counter := Z.land (Z.shiftr (data (event e)) 12) 15 in
    let counter := if negb (counter =? 15) then counter + 1 else counter in
    set_triggered (with_data (Z.lor (Z.lor (Z.land time 4095) (Z.shiftl counter 12)) (Z.land d 18446744073709486080)) (event e)) e
  else set_triggered (event e) e.

Record SmallTimer := mkSmall { st_event : OrbisKernelEvent; added_at : Z; interval : Z }.

Record EqueueInternal := mkEqueue { m_handle : Z; m_name : string; m_events : list EqueueEvent; m_small_timers : gmap Z SmallTimer }.

Inductive Callback := HrTimerCallback | TimerCallback.

(** A handler of a host timer: [io_live] while the timer it belongs to exists. *)
Record IoWait := mkIo { io_obj : Z; io_event : OrbisKernelEvent; io_callback : Callback; io_due : Z; io_live : bool }.

(** A thread in [m_cond.wait] or in the loop of [WaitForSmallTimer]. *)
Inductive WaitKind := OnCond (deadline : option Z) (notified : bool) | OnSmall (wait_end : option Z).
Inductive Caller := ByWaitEqueue | ByKevent.
Record Waiter := mkWaiter { wt_thread : Z; wt_obj : Z; wt_num : Z; wt_kind : WaitKind; wt_caller : Caller }.

Record EqState := mkEq { objects : gmap Z EqueueInternal; next_obj : Z; kqueues : gmap Z Z; io_waits : list IoWait; waiters : list Waiter; clock : Z }.

Definition eq_start (now : Z) : EqState := mkEq ∅ 1 ∅ [] [] now.

Definition set_object (o : Z) (q : EqueueInternal) (s : EqState) : EqState := mkEq (<[o := q]> (objects s)) (next_obj s) (kqueues s) (io_waits s) (waiters s) (clock s).
Definition set_events (l : list EqueueEvent) (q : EqueueInternal) : EqueueInternal := mkEqueue (m_handle q) (m_name q) l (m_small_timers q).
Definition set_small (m : gmap Z SmallTimer) (q : EqueueInternal) : EqueueInternal := mkEqueue (m_handle q) (m_name q) (m_events q) m.
Definition set_io (l : list IoWait) (s : EqState) : EqState := mkEq (objects s) (next_obj s) (kqueues s) l (waiters s) (clock s).
Definition set_waiters (l : list Waiter) (s : EqState) : EqState := mkEq (objects s) (next_obj s) (kqueues s) (io_waits s) l (clock s).

(** A queue that was deleted cannot be used. *)
Definition deref (o : Z) (s : EqState) : outcome EqueueInternal := of_option (objects s !! o).

(** Keys of the table are [s32]. *)
Definition GetEqueue (eq : Z) (s : EqState) : option Z := kqueues s !! s32 eq.

(** ** Timers of the host *)

Definition same_key (id filter : Z) (k : OrbisKernelEvent) : bool := (ident k =? id) && (filter_ k =? filter).

(** Destroying or moving the timer of an event: what is not due is cancelled. *)
Definition cancel_timer (o id filter : Z) (s : EqState) : EqState :=
  set_io (omap (fun w => if (io_obj w =? o) && same_key id filter (io_event w) && io_live w
                         then if io_due w <=? clock s then Some (mkIo (io_obj w) (io_event w) (io_callback w) (io_due w) false) else None
                         else Some w) (io_waits s)) s.

Definition cancel_event (o : Z) (e : EqueueEvent) (s : EqState) : EqState := cancel_timer o (ident (event e)) (filter_ (event e)) s.

(** ** Operations of a queue *)

Definition INT64_MAX : Z := 9223372036854775807.
(** Signed arithmetic that leaves 64 bits is undefined. *)
Definition checked (z : Z) : outcome Z := if (-9223372036854775808 <=? z) && (z <=? INT64_MAX) then Done z else Raised Undefined.

Definition interval_of (b : OrbisKernelBintime) : outcome Z :=
  let nsec := Z.shiftr (1000000000 * Z.shiftr (frac b) 32) 32 in
  let! s := checked (sec b * 1000000000) in checked (nsec + s).

Definition find_event (id filter : Z) (l : list EqueueEvent) : option (nat * EqueueEvent) := list_find (fun e => same_key id filter (event e)) l.

Definition ScheduleEvent (o id filter : Z) (callback : Callback) (s : EqState) : outcome (bool * EqState) :=
  let! q := deref o s in
  match find_event id filter (m_events q) with
  | None => Done (false, s)
  | Some (i, e) =>
      let! _ := oassert ((filter_ (event e) =? Filter.Timer) || (filter_ (event e) =? Filter.HrTimer)) in
      let '(due, s) := match timer e with
                       | None => (clock s + timer_interval e, s)
                       | Some expiry => (expiry + timer_interval e, cancel_event o e s)
                       end in
      let e' := mkEvent (event e) (time_added e) (timer_interval e) (Some due) (is_triggered e) in
      let s := set_object o (set_events (<[i := e']> (m_events q)) q) s in
      Done (true, set_io (io_waits s ++ [mkIo o (event e) callback due true]) s)
  end.

(** [time] is what [event.data] points to, for high-resolution timers. *)
Definition AddEvent (o : Z) (time : OrbisKernelBintime) (k : OrbisKernelEvent) (s : EqState) : outcome (bool * EqState) :=
  let id := ident k in
  let filter := filter_ k in
  let! q := deref o s in
  let! interval :=
    (if filter =? Filter.Timer then checked (s64 (data k) * 1000000)
     else if filter =? Filter.HrTimer then interval_of time
     else Done 0) in
  match find_event id filter (m_events q) with
  | Some (i, old) =>
      let old := mkEvent (with_udata (udata k) (event old)) (time_added old) interval (timer old) (is_triggered old) in
      Done (true, set_object o (set_events (<[i := old]> (m_events q)) q) s)
  | None =>
      let k := with_data 0 k in
      let k := with_flags (Z.land (flags k) 65534) k in
      let k := if negb (filter =? Filter.User) then with_flags (Z.lor (flags k) Flags.Clear) k else k in
      let s := set_object o (set_events (m_events q ++ [mkEvent k (clock s) interval None false]) q) s in
      if filter =? Filter.Timer then ScheduleEvent o id Filter.Timer TimerCallback s
      else if filter =? Filter.HrTimer then ScheduleEvent o id Filter.HrTimer HrTimerCallback s
      else Done (true, s)
  end.

Definition RemoveEvent (o id filter : Z) (s : EqState) : outcome (bool * EqState) :=
  let! q := deref o s in
  match find_event id filter (m_events q) with
  | Some (i, e) => Done (true, cancel_event o e (set_object o (set_events (delete i (m_events q)) q) s))
  | None => Done (false, s)
  end.

Definition EventExists (o id filter : Z) (s : EqState) : outcome bool :=
  let! q := deref o s in Done (bool_decide (is_Some (find_event id filter (m_events q)))).

(** The [k]-th thread asleep on the queue, not counting those already notified. *)
Definition asleep (o : Z) (w : Waiter) : bool :=
  match wt_kind w with OnCond _ false => wt_obj w =? o | _ => false end.

Definition set_notified (b : bool) (w : Waiter) : Waiter :=
  match wt_kind w with OnCond d _ => mkWaiter (wt_thread w) (wt_obj w) (wt_num w) (OnCond d b) (wt_caller w) | OnSmall _ => w end.

Fixpoint notify_at (k : nat) (o : Z) (l : list Waiter) : list Waiter :=
  match l with
  | [] => []
  | w :: l => if asleep o w then match k with O => set_notified true w :: l | S k => w :: notify_at k o l end else w :: notify_at k o l
  end.

Definition sleepers (o : Z) (l : list Waiter) : nat := length (List.filter (asleep o) l).

(** Which thread [notify_one] chooses is up to the host. *)
Definition notify_one (pick : nat) (o : Z) (s : EqState) : EqState := set_waiters (notify_at (pick mod sleepers o (waiters s)) o (waiters s)) s.

Definition trigger_one (time filter d : Z) (e : EqueueEvent) : EqueueEvent :=
  if filter =? Filter.VideoOut then TriggerDisplay time d e
  else if filter =? Filter.User then TriggerUser d e
  else if (filter =? Filter.Timer) || (filter =? Filter.HrTimer) then TriggerTimer e
  else Trigger d e.

Definition TriggerEvent (pick : nat) (time o id filter d : Z) (s : EqState) : outcome (bool * EqState) :=
  let! q := deref o s in
  let hit e := same_key id filter (event e) in
  let q' := set_events ((fun e => if hit e then trigger_one time filter d e else e) <$> m_events q) q in
  Done (existsb hit (m_events q), notify_one pick o (set_object o q' s)).

(** The loop with [count] collected so far: what it writes to [ev], the events it
    keeps and those it erases. *)
Fixpoint collect_events (count num : Z) (l : list EqueueEvent) : list OrbisKernelEvent * list EqueueEvent * list EqueueEvent :=
  match l with
  | [] => ([], [], [])
  | e :: l =>
      if is_triggered e then
        let e' := if has_flag (event e) Flags.Clear then EqueueEvent_Clear e else e in
        let stop := count + 1 =? num in
        let '(out, kept, gone) := if stop then ([], l, []) else collect_events (count + 1) num l in
        if has_flag (event e) Flags.OneShot then (event e :: out, kept, e :: gone) else (event e :: out, e' :: kept, gone)
      else let '(out, kept, gone) := collect_events count num l in (out, e :: kept, gone)
  end.

Definition GetTriggeredEvents (o num : Z) (s : EqState) : outcome (list OrbisKernelEvent * EqState) :=
  let! q := deref o s in
  let '(out, kept, gone) := collect_events 0 num (m_events q) in
  Done (out, foldr (cancel_event o) (set_object o (set_events kept q) s) gone).

Definition AddSmallTimer (o : Z) (time : OrbisKernelBintime) (k : OrbisKernelEvent) (s : EqState) : outcome (bool * EqState) :=
  let! i := interval_of time in
  let! q := deref o s in
  Done (true, set_object o (set_small (<[ident k := mkSmall k (clock s) i]> (m_small_timers q)) q) s).

Definition HasSmallTimer (o : Z) (s : EqState) : outcome bool := let! q := deref o s in Done (negb (bool_decide (m_small_timers q = ∅))).

Definition RemoveSmallTimer (o id : Z) (s : EqState) : outcome (bool * EqState) :=
  let! some := HasSmallTimer o s in
  if some then
    let! q := deref o s in
    Done (bool_decide (is_Some (m_small_timers q !! id)), set_object o (set_small (delete id (m_small_timers q)) q) s)
  else Done (false, s).

(** The map is visited in the order [order] of its keys. *)
Fixpoint collect_small (now : Z) (num : nat) (order : list Z) (m : gmap Z SmallTimer) : list OrbisKernelEvent * gmap Z SmallTimer :=
  match num, order with
  | O, _ | _, [] => ([], m)
  | S n, id :: order =>
      match m !! id with
      | Some st =>
          if interval st <=? now - added_at st then let '(out, m) := collect_small now n order (delete id m) in (st_event st :: out, m)
          else collect_small now num order m
      | None => collect_small now num order m
      end
  end.

(** One round of the loop: the events, or none and whether the time is over. *)
Definition small_round (order : list Z) (o num : Z) (wait_end : option Z) (s : EqState) : outcome (list OrbisKernelEvent * bool * EqState) :=
  let! q := deref o s in
  let '(out, m) := collect_small (clock s) (Z.to_nat num) order (m_small_timers q) in
  let over := match wait_end with Some e => e <=? clock s | None => false end in
  Done (out, over, set_object o (set_small m q) s).

(** ** Waiting *)

Record QRes := mkRes { q_ret : Z; q_errno : option Z; q_out : option Z; q_events : list OrbisKernelEvent }.

(** How the caller returns the events of a wait. *)
Definition returned (c : Caller) (l : list OrbisKernelEvent) : QRes :=
  let count := Z.of_nat (length l) in
  match c with
  | ByWaitEqueue => mkRes (if count =? 0 then ORBIS_KERNEL_ERROR_ETIMEDOUT else ORBIS_OK) None (Some count) l
  | ByKevent => mkRes count None None l
  end.

Definition sleep (w : Waiter) (s : EqState) : EqState := set_waiters (waiters s ++ [w]) s.

(** The entry of [WaitForEvents]; no result means that the thread waits. *)
Definition WaitForEvents (t o num : Z) (timo : option Z) (c : Caller) (s : EqState) : outcome (option QRes * EqState) :=
  if bool_decide (timo = Some 0) then let! '(l, s) := GetTriggeredEvents o num s in Done (Some (returned c l), s) else
  let micros := default 0 timo in
  let deadline := if micros =? 0 then None else Some (clock s + 1000 * micros) in
  let! small := HasSmallTimer o s in
  if small then
    let! _ := oassert (1 <=? num) in
    Done (None, sleep (mkWaiter t o num (OnSmall deadline) c) s)
  else
    let! '(l, s) := GetTriggeredEvents o num s in
    match l with
    | [] => Done (None, sleep (mkWaiter t o num (OnCond deadline false) c) s)
    | _ => Done (Some (returned c l), s)
    end.

(** The next step of waiter [i]: after a notification, at its time-out, or without
    reason; [order] is for the map of small timers. *)
Definition advance (order : list Z) (i : nat) (s : EqState) : outcome (option QRes * EqState) :=
  let! w := of_option (waiters s !! i) in
  let leave s := set_waiters (delete i (waiters s)) s in
  match wt_kind w with
  | OnCond deadline _ =>
      let! '(l, s) := GetTriggeredEvents (wt_obj w) (wt_num w) s in
      match l with
      | [] =>
          if match deadline with Some d => d <=? clock s | None => false end then Done (Some (returned (wt_caller w) []), leave s)
          else Done (None, set_waiters (<[i := set_notified false w]> (waiters s)) s)
      | _ => Done (Some (returned (wt_caller w) l), leave s)
      end
  | OnSmall wait_end =>
      let! '(l, over, s) := small_round order (wt_obj w) (wt_num w) wait_end s in
      match l with
      | [] => if over : bool then Done (Some (returned (wt_caller w) []), leave s) else Done (None, s)
      | _ => Done (Some (returned (wt_caller w) l), leave s)
      end
  end.

(** ** Handlers of the timers *)

Definition run_callback (pick : nat) (w : IoWait) (s : EqState) : outcome EqState :=
  let k := io_event w in
  let! q := deref (io_obj w) s in
  match GetEqueue (m_handle q) s with
  | None => Done s
  | Some o =>
      match io_callback w with
      | HrTimerCallback => let! '(_, s) := TriggerEvent pick 0 o (ident k) Filter.HrTimer (udata k) s in Done s
      | TimerCallback =>
          let! there := EventExists o (ident k) (filter_ k) s in
          if there then
            let! '(_, s) := TriggerEvent pick 0 o (ident k) Filter.Timer (udata k) s in
            if negb (has_flag k Flags.OneShot) then let! '(_, s) := ScheduleEvent o (ident k) (filter_ k) TimerCallback s in Done s
            else Done s
          else Done s
      end
  end.

(** Handler [i], once it is due. *)
Definition fire (pick i : nat) (s : EqState) : outcome EqState :=
  let! w := of_option (io_waits s !! i) in
  run_callback pick w (set_io (delete i (io_waits s)) s).

(** ** Calls of the guest *)

Definition answer (code : Z) (s : EqState) : outcome (option QRes * EqState) := Done (Some (mkRes code None None []), s).

(** [handle] is what the table of file handles gives out. *)
Definition new_queue (handle : Z) (name : string) (s : EqState) : EqState :=
  mkEq (<[next_obj s := mkEqueue handle name [] ∅]> (objects s)) (next_obj s + 1) (<[s32 handle := next_obj s]> (kqueues s)) (io_waits s) (waiters s) (clock s).

Definition posix_kqueue (handle : Z) (s : EqState) : outcome (option QRes * EqState) := answer handle (new_queue handle (String.append "kqueue" (pretty handle)) s).

Definition sceKernelCreateEqueue (handle : Z) (eq_null : bool) (name : option string) (s : EqState) : outcome (option QRes * EqState) :=
  if eq_null then answer ORBIS_KERNEL_ERROR_EINVAL s else
  match name with
  | None => answer ORBIS_KERNEL_ERROR_EINVAL s
  | Some name =>
      if 32 <? Z.of_nat (String.length name) then answer ORBIS_KERNEL_ERROR_ENAMETOOLONG s
      else Done (Some (mkRes ORBIS_OK None (Some handle) []), new_queue handle name s)
  end.

Definition sceKernelDeleteEqueue (eq : Z) (s : EqState) : outcome (option QRes * EqState) :=
  match GetEqueue eq s with
  | None => answer ORBIS_KERNEL_ERROR_EBADF s
  | Some o =>
      let! q := deref o s in
      let s := foldr (cancel_event o) s (m_events q) in
      answer ORBIS_OK (mkEq (delete o (objects s)) (next_obj s) (delete (s32 eq) (kqueues s)) (io_waits s) (waiters s) (clock s))
  end.

Definition sceKernelWaitEqueue (t eq : Z) (ev_null : bool) (num : Z) (timo : option Z) (s : EqState) : outcome (option QRes * EqState) :=
  match GetEqueue eq s with
  | None => answer ORBIS_KERNEL_ERROR_EBADF s
  | Some o =>
      if ev_null then answer ORBIS_KERNEL_ERROR_EFAULT s
      else if num <? 1 then Done (Some (mkRes ORBIS_KERNEL_ERROR_EINVAL None (Some 0) []), s)
      else WaitForEvents t o num timo ByWaitEqueue s
  end.

(** Calls that say [false] for an error. *)
Definition code (r : outcome (bool * EqState)) (error : Z) : outcome (option QRes * EqState) :=
  let! '(b, s) := r in answer (if b : bool then ORBIS_OK else error) s.

Definition HrTimerSpinlockThresholdNs : Z := 1200000.

(** The low bits of an [int] in a [u64]. *)
Definition of_int (id : Z) : Z := u64 (s32 id).

(** [addr] is where the local [time] lies on the stack. *)
Definition sceKernelAddHRTimerEvent (addr eq id : Z) (ts : OrbisKernelTimespec) (ud : Z) (s : EqState) : outcome (option QRes * EqState) :=
  match GetEqueue eq s with
  | None => answer ORBIS_KERNEL_ERROR_EBADF s
  | Some o =>
      let! ns := checked (tv_sec ts * 1000000000) in
      let! total_ns := checked (ns + tv_nsec ts) in
      let! f := checked (tv_nsec ts * 18446744073) in
      let time := mkBintime (tv_sec ts) f in
      let k := mkKevent (of_int id) Filter.HrTimer (Z.lor Flags.Add Flags.OneShot) 0 addr ud in
      if total_ns <? HrTimerSpinlockThresholdNs then code (AddSmallTimer o time k s) ORBIS_KERNEL_ERROR_ENOMEM
      else code (AddEvent o time k s) ORBIS_KERNEL_ERROR_ENOMEM
  end.

Definition sceKernelDeleteHRTimerEvent (eq id : Z) (s : EqState) : outcome (option QRes * EqState) :=
  match GetEqueue eq s with
  | None => answer ORBIS_KERNEL_ERROR_EBADF s
  | Some o =>
      let! small := HasSmallTimer o s in
      if small then code (RemoveSmallTimer o (of_int id) s) ORBIS_KERNEL_ERROR_ENOENT
      else code (RemoveEvent o (of_int id) Filter.HrTimer s) ORBIS_KERNEL_ERROR_ENOENT
  end.

Definition no_time : OrbisKernelBintime := mkBintime 0 0.

Definition sceKernelAddTimerEvent (eq id usec ud : Z) (s : EqState) : outcome (option QRes * EqState) :=
  match GetEqueue eq s with
  | None => answer ORBIS_KERNEL_ERROR_EBADF s
  | Some o => code (AddEvent o no_time (mkKevent (of_int id) Filter.Timer Flags.Add 0 (usec / 1000) ud) s) ORBIS_KERNEL_ERROR_ENOMEM
  end.

Definition sceKernelDeleteTimerEvent (eq id : Z) (s : EqState) : outcome (option QRes * EqState) :=
  match GetEqueue eq s with
  | None => answer ORBIS_KERNEL_ERROR_EBADF s
  | Some o => code (RemoveEvent o (of_int id) Filter.Timer s) ORBIS_KERNEL_ERROR_ENOENT
  end.

Definition sceKernelAddUserEvent (eq id : Z) (s : EqState) : outcome (option QRes * EqState) :=
  match GetEqueue eq s with
  | None => answer ORBIS_KERNEL_ERROR_EBADF s
  | Some o => code (AddEvent o no_time (mkKevent (of_int id) Filter.User Flags.Add 0 0 0) s) ORBIS_KERNEL_ERROR_ENOMEM
  end.

Definition sceKernelAddUserEventEdge (eq id : Z) (s : EqState) : outcome (option QRes * EqState) :=
  match GetEqueue eq s with
  | None => answer ORBIS_KERNEL_ERROR_EBADF s
  | Some o => code (AddEvent o no_time (mkKevent (of_int id) Filter.User (Z.lor Flags.Add Flags.Clear) 0 0 0) s) ORBIS_KERNEL_ERROR_ENOMEM
  end.

Definition sceKernelTriggerUserEvent (pick : nat) (eq id ud : Z) (s : EqState) : outcome (option QRes * EqState) :=
  match GetEqueue eq s with
  | None => answer ORBIS_KERNEL_ERROR_EBADF s
  | Some o => code (TriggerEvent pick 0 o (of_int id) Filter.User ud s) ORBIS_KERNEL_ERROR_ENOENT
  end.

Definition sceKernelDeleteUserEvent (eq id : Z) (s : EqState) : outcome (option QRes * EqState) :=
  match GetEqueue eq s with
  | None => answer ORBIS_KERNEL_ERROR_EBADF s
  | Some o => code (RemoveEvent o (of_int id) Filter.User s) ORBIS_KERNEL_ERROR_ENOENT
  end.

Definition sceKernelGetEventUserData (ev : OrbisKernelEvent) : Z := udata ev.
Definition sceKernelGetEventId (ev : OrbisKernelEvent) : Z := ident ev.
Definition sceKernelGetEventFilter (ev : OrbisKernelEvent) : Z := filter_ ev.
Definition sceKernelGetEventData (ev : OrbisKernelEvent) : Z := data ev.

(** ** The POSIX call *)

Definition ORBIS_FAIL : Z := -1.

Definition SupportedEqueueFilter (filter : Z) : bool :=
  (filter =? Filter.GraphicsCore) || (filter =? Filter.HrTimer) || (filter =? Filter.Timer) || (filter =? Filter.User) || (filter =? Filter.VideoOut).

(** One change; an error number ends the call.  [mem] is the guest's memory at the
    addresses high-resolution timers name. *)
Definition apply_change (mem : Z -> OrbisKernelBintime) (pick : nat) (o : Z) (k : OrbisKernelEvent) (s : EqState) : outcome (option Z * EqState) :=
  if negb (SupportedEqueueFilter (filter_ k)) then Done (None, s) else
  let! '(added, s) := (if has_flag k Flags.Add then AddEvent o (mem (data k)) k s else Done (true, s)) in
  if negb added then Done (Some POSIX_ENOMEM, s) else
  let! '(removed, s) := (if has_flag k Flags.Delete then RemoveEvent o (ident k) (filter_ k) s else Done (true, s)) in
  if negb removed then Done (Some POSIX_ENOENT, s) else
  if (filter_ k =? Filter.User) && (fflags k =? 16777216) then
    let! '(found, s) := TriggerEvent pick 0 o (ident k) Filter.User (udata k) s in
    Done (if found : bool then None else Some POSIX_ENOENT, s)
  else Done (None, s).

Fixpoint apply_changes (mem : Z -> OrbisKernelBintime) (pick : nat -> nat) (o : Z) (l : list OrbisKernelEvent) (s : EqState) : outcome (option Z * EqState) :=
  match l with
  | [] => Done (None, s)
  | k :: l =>
      let! '(e, s) := apply_change mem (pick (length l)) o k s in
      match e with Some _ => Done (e, s) | None => apply_changes mem pick o l s end
  end.

(** The time-out in microseconds is kept in 32 bits. *)
Definition kevent_micros (ts : OrbisKernelTimespec) : outcome Z :=
  let! a := checked (tv_sec ts * 1000000) in
  let! b := checked (a + Z.quot (tv_nsec ts) 1000) in Done (u32 b).

Definition posix_kevent (mem : Z -> OrbisKernelBintime) (pick : nat -> nat) (t handle : Z) (changelist : list OrbisKernelEvent) (nevents : Z)
    (timeout : option OrbisKernelTimespec) (s : EqState) : outcome (option QRes * EqState) :=
  match GetEqueue handle s with
  | None => Done (Some (mkRes ORBIS_FAIL (Some POSIX_EBADF) None []), s)
  | Some o =>
      let! '(e, s) := apply_changes mem pick o changelist s in
      match e with
      | Some e => Done (Some (mkRes ORBIS_FAIL (Some e) None []), s)
      | None =>
          if 0 <? nevents then
            match timeout with
            | Some ts => let! micros := kevent_micros ts in WaitForEvents t o (s32 nevents) (Some micros) ByKevent s
            | None => WaitForEvents t o (s32 nevents) None ByKevent s
            end
          else answer 0 s
      end
  end.
