(* ===== verification/EqueueFacts.v ===== *)
(** * Event queues: collecting, the invariant of queues and timers, the operations

    Collecting takes the first triggered events ([collect_spec]).  A queue is well
    formed ([queue_ok]) when no two events have the same name and each is in the
    form [AddEvent] gives it; the timers of a state are in order ([timers_ok]) when
    every handler that is not cancelled belongs to an event, and every periodic
    timer has one.  Every operation keeps the invariant [eq_inv] (handles, queues and
    timers) and changes one queue; [moves] says which, the lemmas what happens to its
    events. *)

From stdpp Require Import gmap strings.
From S2P Require Import Prelude Equeue.

Definition key (k : OrbisKernelEvent) : Z * Z := (ident k, filter_ k).

Lemma same_key_spec id f k : same_key id f k = true <-> key k = (id, f).
Proof. unfold same_key, key. rewrite andb_true_iff, !Z.eqb_eq. split; [intros [-> ->]; done|by intros [= -> ->]]. Qed.

(** ** Collecting *)

(** What is left of an event that was collected. *)
Definition settle_event (e : EqueueEvent) : list EqueueEvent :=
  if has_flag (event e) Flags.OneShot then [] else [if has_flag (event e) Flags.Clear then EqueueEvent_Clear e else e].

Definition settled_one (e : EqueueEvent) : list EqueueEvent := if is_triggered e then settle_event e else [e].

Definition gone_one (e : EqueueEvent) : bool := is_triggered e && has_flag (event e) Flags.OneShot.

Lemma settled_true e : is_triggered e = true -> settled_one e = settle_event e /\ gone_one e = has_flag (event e) Flags.OneShot.
Proof. intros E. unfold settled_one, gone_one. by rewrite E. Qed.

Lemma settled_false e : is_triggered e = false -> settled_one e = [e] /\ gone_one e = false.
Proof. intros E. unfold settled_one, gone_one. by rewrite E. Qed.

Lemma collect_spec count num l out kept gone : collect_events count num l = (out, kept, gone) ->
  exists pre suf, l = pre ++ suf /\ out = event <$> List.filter is_triggered pre /\ kept = concat (settled_one <$> pre) ++ suf
    /\ gone = List.filter gone_one pre /\ (suf = [] \/ (out <> [] /\ count + Z.of_nat (length out) = num)) /\ (count < num -> count + Z.of_nat (length out) <= num).
Proof.
  revert count out kept gone; induction l as [|e l IH]; intros count out kept gone; cbn [collect_events].
  { intros [= <- <- <-]. exists [], []. cbn. repeat (split; [done|]). split; [by left|lia]. }
  destruct (is_triggered e) eqn:Et; [destruct (settled_true e Et) as [Es Eg]|destruct (settled_false e Et) as [Es Eg]].
  - destruct (Z.eqb_spec (count + 1) num) as [Hn|Hn].
    + intros E. exists [e], l. rewrite !list_fmap_singleton. cbn [concat List.filter]. rewrite Et, Es, Eg. unfold settle_event.
      destruct (has_flag (event e) Flags.OneShot); injection E as <- <- <-; cbn; repeat (split; [done|]); (split; [right; split; [done|lia]|lia]).
    + destruct (collect_events (count + 1) num l) as [[out0 kept0] gone0] eqn:E0.
      destruct (IH _ _ _ _ E0) as (pre & suf & -> & -> & -> & -> & Hs & Hle). intros E. exists (e :: pre), suf. rewrite fmap_cons. cbn [concat List.filter].
      rewrite Et, Es, Eg. unfold settle_event. destruct (has_flag (event e) Flags.OneShot); injection E as <- <- <-; rewrite fmap_cons; cbn [length app];
        repeat (split; [done|]); (split; [destruct Hs as [?|[_ ?]]; [by left|right; split; [done|lia]]|lia]).
  - destruct (collect_events count num l) as [[out0 kept0] gone0] eqn:E0. destruct (IH _ _ _ _ E0) as (pre & suf & -> & -> & -> & -> & Hs & Hle).
    intros [= <- <- <-]. exists (e :: pre), suf. rewrite fmap_cons. cbn [concat List.filter]. rewrite Et, Es, Eg. done.
Qed.

Definition triggered (l : list EqueueEvent) : nat := length (List.filter is_triggered l).

Lemma triggered_app l l' : triggered (l ++ l') = (triggered l + triggered l')%nat.
Proof. unfold triggered. by rewrite List.filter_app, length_app. Qed.

(** Edge-triggered events: collected once. *)
Definition edge (e : EqueueEvent) : Prop := has_flag (event e) Flags.Clear = true \/ has_flag (event e) Flags.OneShot = true.

Lemma settled_untriggered pre : Forall edge pre -> triggered (concat (settled_one <$> pre)) = 0%nat.
Proof.
  induction 1 as [|e pre He _ IH]; [done|]. rewrite fmap_cons. cbn [concat]. rewrite triggered_app, IH, Nat.add_0_r. unfold settled_one, settle_event, triggered.
  destruct (is_triggered e) eqn:Et; [|cbn; by rewrite Et]. destruct (has_flag (event e) Flags.OneShot) eqn:Eo; [done|].
  destruct He as [->|?]; [done|congruence].
Qed.

(** Every collected edge event stops being triggered; none is left over while
    nothing was found. *)
Lemma collect_triggered num l out kept gone : Forall edge l -> collect_events 0 num l = (out, kept, gone) ->
  triggered l = (triggered kept + length out)%nat /\ (out = [] -> triggered l = 0%nat).
Proof.
  intros Hf E. apply collect_spec in E as (pre & suf & -> & -> & -> & -> & Hs & Hle). apply Forall_app in Hf as [Hp _].
  rewrite !triggered_app, settled_untriggered, length_fmap by done. split; [unfold triggered; lia|].
  intros E. destruct Hs as [->|[Hs _]]; [|done]. apply fmap_nil_inv in E. unfold triggered at 1. by rewrite E.
Qed.

(** ** The form of an event *)

Definition is_timer (k : OrbisKernelEvent) : bool := (filter_ k =? Filter.Timer) || (filter_ k =? Filter.HrTimer).

Record event_ok (e : EqueueEvent) : Prop := {
  eo_add : has_flag (event e) Flags.Add = false;
  eo_clear : filter_ (event e) <> Filter.User -> has_flag (event e) Flags.Clear = true;
  eo_data : is_triggered e = false -> data (event e) = 0 }.

(** Same event, up to what triggering and updates change. *)
Definition same (e e' : EqueueEvent) : Prop := key (event e') = key (event e) /\ timer e' = timer e /\ flags (event e') = flags (event e).

Lemma same_refl e : same e e.
Proof. done. Qed.

Lemma trigger_same time f d e : same e (trigger_one time f d e).
Proof. unfold trigger_one, TriggerDisplay. repeat case_match; done. Qed.

Lemma trigger_sets time f d e : is_triggered (trigger_one time f d e) = true.
Proof. unfold trigger_one, TriggerDisplay. repeat case_match; done. Qed.

Lemma trigger_ok time f d e : event_ok e -> event_ok (trigger_one time f d e).
Proof.
  intros []. destruct (trigger_same time f d e) as (Hk & _ & Hf). injection Hk as _ Hk. split; unfold has_flag in *; rewrite ?Hf, ?Hk; try done.
  by rewrite trigger_sets.
Qed.

Lemma clear_same e : same e (EqueueEvent_Clear e).
Proof. done. Qed.

Lemma clear_ok e : event_ok e -> event_ok (EqueueEvent_Clear e).
Proof. intros []. by split. Qed.

Lemma settled_in e e' : e' ∈ settled_one e -> same e e' /\ gone_one e = false /\ (event_ok e -> event_ok e').
Proof.
  unfold settled_one, settle_event, gone_one. destruct (is_triggered e); cbn; [|by intros ->%list_elem_of_singleton].
  destruct (has_flag (event e) Flags.OneShot); [by intros ?%elem_of_nil|]. intros ->%list_elem_of_singleton. destruct (has_flag (event e) Flags.Clear); [|done].
  split; [done|]. split; [done|]. apply clear_ok.
Qed.

(** ** A queue *)

Record queue_ok (l : list EqueueEvent) : Prop := {
  qo_keys : NoDup ((fun e => key (event e)) <$> l);
  qo_events : Forall event_ok l }.

Lemma queue_nil : queue_ok [].
Proof. split; constructor. Qed.

Lemma queue_map (f : EqueueEvent -> EqueueEvent) l : (forall e, same e (f e)) -> (forall e, event_ok e -> event_ok (f e)) -> queue_ok l -> queue_ok (f <$> l).
Proof.
  intros Hs Hf [Hk He]. split; [|apply Forall_fmap; eapply Forall_impl; [exact He|done]].
  rewrite <- list_fmap_compose. erewrite list_fmap_ext; [exact Hk|]. intros i e _. apply Hs.
Qed.

Lemma queue_set i e e' l : l !! i = Some e -> key (event e') = key (event e) -> (event_ok e -> event_ok e') -> queue_ok l -> queue_ok (<[i := e']> l).
Proof.
  intros Hi Hk Hf [Hn He]. split; [|apply Forall_insert; [done|]; apply Hf; exact (Forall_lookup_1 _ _ _ _ He Hi)].
  rewrite list_fmap_insert, Hk, list_insert_id; [done|]. rewrite list_lookup_fmap, Hi. done.
Qed.

Abbreviation keys := (fmap (fun e => key (event e))).

Lemma queue_sublist l l' : sublist (keys l') (keys l) -> Forall event_ok l' -> queue_ok l -> queue_ok l'.
Proof. intros Hs He [Hn _]. split; [|done]. by eapply sublist_NoDup. Qed.

Lemma queue_delete i l : queue_ok l -> queue_ok (delete i l).
Proof.
  intros Hq. apply (queue_sublist l); [apply fmap_sublist, sublist_delete| |done]. apply Forall_forall. intros e He.
  destruct Hq as [_ Hq]. rewrite Forall_forall in Hq. apply Hq. eapply elem_of_sublist; [exact He|apply sublist_delete].
Qed.

Lemma settled_keys pre : sublist (keys (concat (settled_one <$> pre))) (keys pre).
Proof.
  induction pre as [|e pre IH]; [constructor|]. rewrite !fmap_cons. cbn [concat]. rewrite fmap_app. unfold settled_one at 1, settle_event.
  destruct (is_triggered e); [|by constructor]. destruct (has_flag (event e) Flags.OneShot); [by constructor|]. destruct (has_flag (event e) Flags.Clear); by constructor.
Qed.

Lemma concat_in {A B} (f : A -> list B) l y : y ∈ concat (f <$> l) <-> exists x, x ∈ l /\ y ∈ f x.
Proof.
  induction l as [|x l IH]; cbn; [split; [by intros ?%elem_of_nil|by intros (? & ?%elem_of_nil & _)]|]. rewrite elem_of_app, IH. split.
  - intros [?|(z & ? & ?)]; [exists x; split; [by left|done]|exists z; split; [by right|done]].
  - intros (z & [->|?]%elem_of_cons & ?); [by left|right; eauto].
Qed.

Lemma queue_collect num l out kept gone : collect_events 0 num l = (out, kept, gone) -> queue_ok l -> queue_ok kept.
Proof.
  intros E Hq. apply collect_spec in E as (pre & suf & -> & _ & -> & _). pose proof Hq as [_ He]. apply Forall_app in He as [He1 He2].
  apply (queue_sublist (pre ++ suf)); [rewrite !fmap_app; apply sublist_app; [apply settled_keys|done]| |done].
  apply Forall_app. split; [|done]. apply Forall_forall. intros e' (e & Hin & H)%concat_in. apply settled_in in H as (_ & _ & H). apply H.
  rewrite Forall_forall in He1. auto.
Qed.

Lemma keys_inj l e e' : queue_ok l -> e ∈ l -> e' ∈ l -> key (event e) = key (event e') -> e = e'.
Proof.
  intros [Hn _] [i Hi]%list_elem_of_lookup [j Hj]%list_elem_of_lookup E. assert (i = j) as ->; [|congruence].
  eapply NoDup_lookup; [exact Hn|rewrite list_lookup_fmap, Hi; done|rewrite list_lookup_fmap, Hj; cbn; by rewrite E].
Qed.

(** Collecting keeps events or erases them. *)
Lemma collect_same num l out kept gone : collect_events 0 num l = (out, kept, gone) -> queue_ok l ->
  (forall e', e' ∈ kept -> exists e, e ∈ l /\ same e e') /\ (forall e, e ∈ l -> (exists e', e' ∈ kept /\ same e e') \/ e ∈ gone)
  /\ forall g e', g ∈ gone -> e' ∈ kept -> key (event e') <> key (event g).
Proof.
  intros E Hq. apply collect_spec in E as (pre & suf & -> & _ & -> & -> & _).
  assert (Hg : forall g, g ∈ List.filter gone_one pre <-> g ∈ pre /\ gone_one g = true) by (intros g; by rewrite !list_elem_of_In, filter_In).
  split; [|split].
  - intros e' [(e & Hin & H)%concat_in|H]%elem_of_app; [apply settled_in in H as (H & _); exists e; split; [|done]; apply elem_of_app; by left|exists e'; split; [|done]; apply elem_of_app; by right].
  - intros e [Hin|Hin]%elem_of_app; [|left; exists e; split; [apply elem_of_app; by right|done]]. destruct (gone_one e) eqn:Eg; [right; by apply Hg|left].
    exists (if is_triggered e && has_flag (event e) Flags.Clear then EqueueEvent_Clear e else e). split; [|by destruct (_ && _)]. apply elem_of_app. left.
    apply concat_in. exists e. split; [done|]. unfold gone_one in Eg. unfold settled_one, settle_event. destruct (is_triggered e); [|by apply list_elem_of_singleton].
    cbn in Eg |- *. rewrite Eg. by apply list_elem_of_singleton.
  - intros g e' [Hin Htrue]%Hg He' Ek. assert (exists e, e ∈ pre ++ suf /\ key (event e) = key (event g) /\ (e ∈ pre -> gone_one e = false)) as (e & H1 & H2 & H3).
    { apply elem_of_app in He' as [(e & Hpre & H)%concat_in|Hsuf]; [apply settled_in in H as ((H & _) & Hf & _); exists e; split; [apply elem_of_app; by left|]; split; [congruence|done]|].
      exists e'. split; [apply elem_of_app; by right|]. split; [done|]. intros Hpre. exfalso. destruct Hq as [Hn _]. rewrite fmap_app in Hn. apply NoDup_app in Hn as (_ & Hd & _).
      eapply Hd; apply list_elem_of_fmap; exists e'; done. }
    assert (e = g) as ->; [apply (keys_inj (pre ++ suf)); [done|done|apply elem_of_app; by left|done]|]. by rewrite H3 in Htrue.
Qed.

Lemma find_Some id f l i e : find_event id f l = Some (i, e) -> l !! i = Some e /\ key (event e) = (id, f).
Proof. intros (H1 & H2 & _)%list_find_Some. split; [done|]. by apply same_key_spec, Is_true_true. Qed.

Lemma find_None id f l : find_event id f l = None <-> forall e, e ∈ l -> key (event e) <> (id, f).
Proof.
  unfold find_event. rewrite list_find_None, Forall_forall. apply forall_proper. intros e. apply forall_proper. intros _.
  rewrite Is_true_true, same_key_spec. done.
Qed.

(** ** Handlers of timers *)

Definition live_of (s : EqState) : list IoWait := List.filter io_live (io_waits s).

Definition wkey (w : IoWait) : Z * (Z * Z) := (io_obj w, key (io_event w)).

Definition callback_of (k : OrbisKernelEvent) : Callback := if filter_ k =? Filter.Timer then TimerCallback else HrTimerCallback.

Record serves (w : IoWait) (e : EqueueEvent) : Prop := {
  se_key : key (event e) = key (io_event w);
  se_due : timer e = Some (io_due w);
  se_flags : flags (event e) = flags (io_event w);
  se_callback : io_callback w = callback_of (io_event w) }.

Definition periodic (e : EqueueEvent) : Prop := filter_ (event e) = Filter.Timer /\ has_flag (event e) Flags.OneShot = false.

Definition has_event (s : EqState) (o : Z) (e : EqueueEvent) : Prop := exists q, objects s !! o = Some q /\ e ∈ m_events q.

(** [skip] names an event whose handler is not set yet. *)
Record timers_but (skip : option (Z * (Z * Z))) (s : EqState) : Prop := {
  to_owner : forall w, w ∈ live_of s -> exists e, has_event s (io_obj w) e /\ serves w e;
  to_nodup : NoDup (wkey <$> live_of s);
  to_periodic : forall o e, has_event s o e -> periodic e -> skip <> Some (o, key (event e)) -> exists w, w ∈ live_of s /\ wkey w = (o, key (event e));
  to_skip : forall w, w ∈ live_of s -> skip <> Some (wkey w) }.
Abbreviation timers_ok := (timers_but None).

Lemma serves_same w e e' : same e e' -> serves w e -> serves w e'.
Proof. intros (H1 & H2 & H3) []. split; congruence. Qed.

Lemma periodic_same e e' : same e e' -> periodic e' -> periodic e.
Proof. intros (H1 & _ & H3) [H4 H5]. injection H1 as _ H1. unfold periodic, has_flag in *. by rewrite <- H1, <- H3. Qed.

Definition matches (o id f : Z) (w : IoWait) : bool := (io_obj w =? o) && same_key id f (io_event w).

Lemma matches_spec o id f w : matches o id f w = true <-> wkey w = (o, (id, f)).
Proof. unfold matches, wkey. rewrite andb_true_iff, Z.eqb_eq, same_key_spec. split; [by intros [-> E]; rewrite E|by intros E%pair_equal_spec]. Qed.

Lemma cancel_live o id f s : live_of (cancel_timer o id f s) = List.filter (fun w => negb (matches o id f w)) (live_of s).
Proof.
  unfold live_of, cancel_timer, matches. cbn. induction (io_waits s) as [|w l IH]; [done|]. cbn. destruct (io_live w) eqn:El.
  - rewrite andb_true_r. cbn. destruct ((io_obj w =? o) && same_key id f (io_event w)); cbn; [destruct (io_due w <=? clock s); cbn; exact IH|].
    rewrite El. cbn. by rewrite IH.
  - rewrite andb_false_r. cbn. rewrite El. exact IH.
Qed.

Definition same_but_io (s s' : EqState) : Prop :=
  objects s' = objects s /\ kqueues s' = kqueues s /\ next_obj s' = next_obj s /\ waiters s' = waiters s /\ clock s' = clock s.

Lemma cancels_rest o gone s : same_but_io s (foldr (cancel_event o) s gone).
Proof. induction gone as [|g gone IH]; [done|]. cbn. destruct IH as (? & ? & ? & ? & ?). done. Qed.

Lemma cancels_live o gone s w : w ∈ live_of (foldr (cancel_event o) s gone) <-> w ∈ live_of s /\ forall g, g ∈ gone -> wkey w <> (o, key (event g)).
Proof.
  induction gone as [|g gone IH]; cbn [foldr]; [split; [intros ?; split; [done|by intros ? ?%elem_of_nil]|by intros [? _]]|].
  unfold cancel_event at 1. rewrite cancel_live, list_elem_of_In, filter_In, <- list_elem_of_In, IH, negb_true_iff, <- not_true_iff_false, matches_spec. split.
  - intros [[H1 H2] H3]. split; [done|]. intros g' [->|?]%elem_of_cons; [done|auto].
  - intros [H1 H2]. split; [split; [done|]; intros; apply H2; by right|]. apply H2. by left.
Qed.

Lemma sublist_filter {A} (p : A -> bool) l : sublist (List.filter p l) l.
Proof. induction l as [|x l IH]; cbn; [constructor|]. destruct (p x); by constructor. Qed.

Lemma cancels_sublist o gone s : sublist (live_of (foldr (cancel_event o) s gone)) (live_of s).
Proof.
  induction gone as [|g gone IH]; cbn [foldr]; [done|]. unfold cancel_event at 1. rewrite cancel_live. etrans; [apply sublist_filter|exact IH].
Qed.

Lemma has_event_set s o q o' e : has_event (set_object o q s) o' e <-> if decide (o' = o) then e ∈ m_events q else has_event s o' e.
Proof.
  unfold has_event. cbn. destruct (decide (o' = o)) as [->|Hne].
  - rewrite lookup_insert_eq. split; [by intros (? & [= <-] & ?)|eauto].
  - by rewrite lookup_insert_ne.
Qed.

Lemma has_event_ext s s' o e : objects s' = objects s -> has_event s' o e <-> has_event s o e.
Proof. unfold has_event. by intros ->. Qed.

(** The events of one queue change, those in [gone] with their handlers cancelled. *)
Lemma timers_change skip s o q q' gone : timers_but skip s -> objects s !! o = Some q ->
  (forall e', e' ∈ m_events q' -> exists e, e ∈ m_events q /\ same e e') ->
  (forall e, e ∈ m_events q -> (exists e', e' ∈ m_events q' /\ same e e') \/ e ∈ gone) ->
  (forall g e', g ∈ gone -> e' ∈ m_events q' -> key (event e') <> key (event g)) ->
  timers_but skip (foldr (cancel_event o) (set_object o q' s) gone).
Proof.
  intros [Ho Hn Hp Hk] Hq Hfrom Hto Hdis. set (s' := set_object o q' s). destruct (cancels_rest o gone s') as (E1 & _).
  assert (Hev : forall o' e, has_event (foldr (cancel_event o) s' gone) o' e <-> if decide (o' = o) then e ∈ m_events q' else has_event s o' e).
  { intros o' e. rewrite (has_event_ext s' _ _ _ E1). apply has_event_set. }
  split.
  - intros w [Hw Hg]%cancels_live. destruct (Ho w Hw) as (e & (q1 & Hq1 & Hin) & Hs). destruct (decide (io_obj w = o)) as [Eo|Eo].
    + rewrite Eo, Hq in Hq1. injection Hq1 as <-. destruct (Hto e Hin) as [(e' & Hin' & Hsame)|Hgone].
      * exists e'. rewrite Hev, decide_True by done. split; [done|]. by eapply serves_same.
      * exfalso. apply (Hg e Hgone). unfold wkey. destruct Hs. congruence.
    + exists e. rewrite Hev, decide_False by done. split; [by exists q1|done].
  - eapply sublist_NoDup; [|apply fmap_sublist, cancels_sublist]. exact Hn.
  - intros o' e Hin Hper Hsk. rewrite Hev in Hin. destruct (decide (o' = o)) as [->|Hne].
    + destruct (Hfrom e Hin) as (e0 & Hin0 & Hsame). pose proof Hsame as (Ekey & _ & _).
      destruct (Hp o e0) as (w & Hw & Ek); [by exists q|by eapply periodic_same|by rewrite <- Ekey|]. rewrite <- Ekey in Ek. exists w. split; [|done]. apply cancels_live. split; [done|]. intros g Hg. rewrite Ek. intros [_ E]%pair_equal_spec. by apply (Hdis g e Hg Hin).
    + destruct (Hp o' e Hin Hper) as (w & Hw & Ek); [done|]. exists w. split; [|done]. apply cancels_live. split; [done|]. intros g _. rewrite Ek. congruence.
  - intros w [Hw _]%cancels_live. by apply Hk.
Qed.

(** Scheduling, in three parts: the handler there may have been is cancelled, or the
    event is new; then the event gets its expiry and its handler. *)
Lemma timers_cancel skip s o e : timers_but skip s -> skip = None \/ skip = Some (o, key (event e)) -> timers_but (Some (o, key (event e))) (cancel_event o e s).
Proof.
  intros [Ho Hn Hp _] Hskip. assert (Hlive : forall w, w ∈ live_of (cancel_event o e s) <-> w ∈ live_of s /\ wkey w <> (o, key (event e))).
  { intros w. pose proof (cancels_live o [e] s w) as H. cbn in H. rewrite H. split; intros [H1 H2]; (split; [done|]); [apply H2; by left|by intros g ->%list_elem_of_singleton]. }
  split.
  - intros w [Hw _]%Hlive. destruct (Ho w Hw) as (e0 & Hin & Hs). by exists e0.
  - eapply sublist_NoDup; [|apply fmap_sublist, (cancels_sublist o [e])]. exact Hn.
  - intros o' e0 Hin Hper Hne. destruct (Hp o' e0 Hin Hper) as (w & Hw & Ek); [destruct Hskip; congruence|]. exists w. split; [|done]. apply Hlive. split; [done|]. congruence.
  - intros w [_ Hw]%Hlive. congruence.
Qed.

Lemma timers_new s o q e : timers_ok s -> objects s !! o = Some q -> (forall e', e' ∈ m_events q -> key (event e') <> key (event e)) ->
  timers_but (Some (o, key (event e))) (set_object o (set_events (m_events q ++ [e]) q) s).
Proof.
  intros [Ho Hn Hp _] Hq Hnew. set (s' := set_object _ _ _).
  assert (Hev : forall o' e', has_event s' o' e' <-> has_event s o' e' \/ (o' = o /\ e' = e)).
  { intros o' e'. unfold s'. rewrite has_event_set. destruct (decide (o' = o)) as [->|]; [|intuition done]. cbn. rewrite elem_of_app, list_elem_of_singleton.
    split; [intros [?| ->]; [left; by exists q|by right]|]. intros [(q1 & Hq1 & ?)|[_ ->]]; [left; congruence|by right]. }
  split.
  - intros w Hw. destruct (Ho w Hw) as (e0 & Hin & Hs). exists e0. split; [|done]. apply Hev. by left.
  - exact Hn.
  - intros o' e0 [Hin|(-> & ->)]%Hev Hper Hne; [by apply Hp|done].
  - intros w Hw E. destruct (Ho w Hw) as (e0 & (q1 & Hq1 & Hin) & []). apply (inj Some) in E. unfold wkey in E. apply pair_equal_spec in E as [E1 E2]. rewrite <- E1, Hq in Hq1. injection Hq1 as <-.
    apply (Hnew e0 Hin). congruence.
Qed.

Lemma timers_schedule s o q i e e' w : timers_but (Some (o, key (event e))) s -> objects s !! o = Some q -> queue_ok (m_events q) -> m_events q !! i = Some e ->
  event e' = event e -> serves w e' -> io_obj w = o -> io_live w = true ->
  let s' := set_object o (set_events (<[i := e']> (m_events q)) q) s in timers_ok (set_io (io_waits s' ++ [w]) s').
Proof.
  intros [Ho Hn Hp Hk] Hq Hqo Hi Ee Hs Hwo Hl s'. set (s2 := set_io _ _).
  assert (El : live_of s2 = live_of s ++ [w]) by (unfold live_of, s2, s'; cbn; rewrite List.filter_app; cbn; by rewrite Hl).
  assert (Hwk : wkey w = (o, key (event e))) by (unfold wkey; destruct Hs; rewrite Hwo, <- se_key0; by rewrite Ee).
  assert (Hlen : (i < length (m_events q))%nat) by (by eapply lookup_lt_Some).
  assert (Hev : forall o' x, has_event s2 o' x <-> if decide (o' = o) then x ∈ <[i := e']> (m_events q) else has_event s o' x).
  { intros o' x. rewrite (has_event_ext s' s2) by done. apply has_event_set. }
  assert (Hnew : has_event s2 o e') by (rewrite Hev, decide_True by done; apply list_elem_of_lookup; exists i; by apply list_lookup_insert_eq).
  assert (Hold : forall x, x ∈ m_events q -> key (event x) <> key (event e) -> x ∈ <[i := e']> (m_events q)).
  { intros x [j Hj]%list_elem_of_lookup Hne. apply list_elem_of_lookup. exists j. rewrite list_lookup_insert_ne; [done|]. intros <-. congruence. }
  split; [..|done].
  - intros w'. rewrite El. intros [Hw| ->%list_elem_of_singleton]%elem_of_app; [|exists e'; by rewrite Hwo].
    destruct (Ho w' Hw) as (x & (q1 & Hq1 & Hin) & Hsx). exists x. split; [|done]. rewrite Hev. destruct (decide (io_obj w' = o)) as [E|]; [|by exists q1].
    rewrite E, Hq in Hq1. injection Hq1 as <-. apply Hold; [done|]. intros Ex. apply (Hk w' Hw). f_equal. unfold wkey. rewrite E. f_equal. destruct Hsx. congruence.
  - rewrite El, fmap_app. apply NoDup_app. split; [done|]. split; [|apply NoDup_singleton]. intros x (w' & -> & Hw')%list_elem_of_fmap Hx.
    apply list_elem_of_singleton in Hx. apply (Hk w' Hw'). congruence.
  - intros o' x Hin Hper _. destruct (decide ((o', key (event x)) = (o, key (event e)))) as [E|Hne]; [exists w; split; [rewrite El; apply elem_of_app; right; by apply list_elem_of_singleton|congruence]|].
    destruct (Hp o' x) as (w' & Hw' & Ek); [|done|congruence|exists w'; split; [rewrite El; apply elem_of_app; by left|done]].
    rewrite Hev in Hin. destruct (decide (o' = o)) as [->|]; [|done]. exists q. split; [done|]. apply list_elem_of_lookup in Hin as [j Hj]. apply list_elem_of_lookup. exists j.
    destruct (decide (j = i)) as [->|]; [|by rewrite list_lookup_insert_ne in Hj]. rewrite list_lookup_insert_eq in Hj by done. injection Hj as <-. congruence.
Qed.

(** An event without a timer has no handler. *)
Lemma timers_unset skip s o q e : timers_but skip s -> skip = None \/ skip = Some (o, key (event e)) -> objects s !! o = Some q -> queue_ok (m_events q) -> e ∈ m_events q ->
  timer e = None -> timers_but (Some (o, key (event e))) s.
Proof.
  intros [Ho Hn Hp Hk] Hskip Hq Hqo Hin Ht. split; [done|done| |].
  - intros o' x Hx Hper Hne. apply Hp; [done|done|]. destruct Hskip; congruence.
  - intros w Hw E. apply (inj Some) in E. unfold wkey in E. apply pair_equal_spec in E as [E1 E2]. destruct (Ho w Hw) as (x & (q1 & Hq1 & Hx) & []).
    rewrite <- E1, Hq in Hq1. injection Hq1 as <-. assert (x = e) as -> by (apply (keys_inj (m_events q)); congruence). congruence.
Qed.

(** A handler that runs leaves its timer without one. *)
Lemma timers_fired s i w : timers_ok s -> io_waits s !! i = Some w ->
  timers_but (if io_live w then Some (wkey w) else None) (set_io (delete i (io_waits s)) s).
Proof.
  intros [Ho Hn Hp _] Hi. set (s' := set_io _ _). apply list_elem_of_split_length in Hi as (l1 & l2 & Hl & ->).
  assert (El : live_of s = List.filter io_live l1 ++ (if io_live w then [w] else []) ++ List.filter io_live l2).
  { unfold live_of. rewrite Hl, List.filter_app. cbn. by destruct (io_live w). }
  assert (El' : live_of s' = List.filter io_live l1 ++ List.filter io_live l2).
  { unfold live_of, s'. cbn. rewrite Hl, delete_middle. apply List.filter_app. }
  assert (Hsub : forall x, x ∈ live_of s' -> x ∈ live_of s) by (intros x; rewrite El, El', !elem_of_app; tauto).
  assert (Hnd : NoDup (wkey <$> live_of s') /\ (io_live w = true -> wkey w ∉ wkey <$> live_of s')).
  { rewrite El in Hn. rewrite El'. destruct (io_live w); rewrite ?fmap_app in *; cbn in Hn |- *; [|done].
    apply NoDup_app in Hn as (H1 & H2 & H3). apply NoDup_cons in H3 as [H3 H4]. split.
    - apply NoDup_app. split; [done|]. split; [|done]. intros x Hx Hx'. apply (H2 x Hx). by right.
    - intros _ [Hx|Hx]%elem_of_app; [|done]. apply (H2 _ Hx). by left. }
  destruct Hnd as [Hnd Hout]. split; [|done| |].
  - intros x Hx. apply Ho, Hsub, Hx.
  - intros o e Hin Hper Hne. destruct (Hp o e Hin Hper) as (x & Hx & Ek); [done|]. exists x. split; [|done]. rewrite El in Hx. rewrite El'. rewrite !elem_of_app in *.
    destruct Hx as [?|[Hx|?]]; [by left| |by right]. destruct (io_live w); [|by apply elem_of_nil in Hx]. apply list_elem_of_singleton in Hx as ->. congruence.
  - intros x Hx. destruct (io_live w); [|done]. intros E. apply (inj Some) in E. apply Hout; [done|]. rewrite E. by apply list_elem_of_fmap_2.
Qed.

(** The timer of an event that is not periodic needs none. *)
Lemma timers_done o k s : timers_but (Some (o, k)) s -> (forall e, has_event s o e -> key (event e) = k -> ~ periodic e) -> timers_ok s.
Proof.
  intros [Ho Hn Hp Hk] Hnp. split; [done|done| |done]. intros o' e Hin Hper _. apply Hp; [done|done|]. intros E. apply (inj Some) in E. apply pair_equal_spec in E as [-> E].
  by apply (Hnp e).
Qed.

(** ** What the operations do *)

Definition handler_ok (w : IoWait) : Prop := io_callback w = callback_of (io_event w) /\ is_timer (io_event w) = true.

Record eq_inv_but (skip : option (Z * (Z * Z))) (s : EqState) : Prop := {
  ei_names : forall h o, kqueues s !! h = Some o -> exists q, objects s !! o = Some q /\ s32 (m_handle q) = h;
  ei_named : forall o q, objects s !! o = Some q -> kqueues s !! s32 (m_handle q) = Some o;
  ei_fresh : forall o, is_Some (objects s !! o) -> o < next_obj s;
  ei_queues : forall o q, objects s !! o = Some q -> queue_ok (m_events q);
  ei_handlers : Forall handler_ok (io_waits s);
  ei_timers : timers_but skip s }.
Abbreviation eq_inv := (eq_inv_but None).

Record moves (o : Z) (s s' : EqState) (q q' : EqueueInternal) : Prop := {
  mv_old : objects s !! o = Some q;
  mv_new : objects s' = <[o := q']> (objects s);
  mv_names : kqueues s' = kqueues s;
  mv_next : next_obj s' = next_obj s;
  mv_clock : clock s' = clock s;
  mv_handle : m_handle q' = m_handle q }.

Lemma moves_refl o s q : objects s !! o = Some q -> moves o s s q q.
Proof. intros Hq. split; try done. by rewrite insert_id. Qed.

Lemma moves_set o s q q' : objects s !! o = Some q -> m_handle q' = m_handle q -> moves o s (set_object o q' s) q q'.
Proof. by split. Qed.

Lemma moves_new o s s' q q' : moves o s s' q q' -> objects s' !! o = Some q'.
Proof. intros []. rewrite mv_new0. apply lookup_insert_eq. Qed.

Lemma moves_trans o s s1 s2 q q1 q2 : moves o s s1 q q1 -> moves o s1 s2 q1 q2 -> moves o s s2 q q2.
Proof. intros [] []. split; try congruence. rewrite mv_new1, mv_new0. apply insert_insert_eq. Qed.

Lemma moves_io o s s1 s2 q q' : moves o s s1 q q' -> same_but_io s1 s2 -> moves o s s2 q q'.
Proof. intros [] (? & ? & ? & ? & ?). split; congruence. Qed.

Lemma inv_moves skip skip' o s s' q q' : eq_inv_but skip s -> moves o s s' q q' -> queue_ok (m_events q') -> Forall handler_ok (io_waits s') -> timers_but skip' s' -> eq_inv_but skip' s'.
Proof.
  intros [] Hm Hq Hh Ht. pose proof (moves_new _ _ _ _ _ Hm) as Hnew. destruct Hm.
  split; try done; rewrite ?mv_new0, ?mv_names0, ?mv_next0.
  - intros h o' Ho. destruct (ei_names0 h o' Ho) as (q0 & Hq0 & Hh0). destruct (decide (o' = o)) as [->|]; [|rewrite lookup_insert_ne by congruence; eauto].
    exists q'. rewrite lookup_insert_eq. split; [done|]. congruence.
  - intros o' q0. destruct (decide (o' = o)) as [->|]; [rewrite lookup_insert_eq; intros [= <-]; rewrite mv_handle0; auto|rewrite lookup_insert_ne by congruence; auto].
  - intros o' [q0 Hq0]. apply ei_fresh0. apply lookup_insert_Some in Hq0 as [[<- _]|[_ ?]]; eauto.
  - intros o' q0. destruct (decide (o' = o)) as [->|]; [rewrite lookup_insert_eq; by intros [= <-]|rewrite lookup_insert_ne by congruence; apply ei_queues0].
Qed.

(** ** Handlers *)

Lemma cancels_handlers o gone s : Forall handler_ok (io_waits s) -> Forall handler_ok (io_waits (foldr (cancel_event o) s gone)).
Proof.
  intros H. induction gone as [|g gone IH]; [done|]. cbn [foldr]. unfold cancel_event, cancel_timer. cbn. apply Forall_forall. intros w (x & Hx & E)%list_elem_of_omap.
  rewrite Forall_forall in IH. specialize (IH x Hx). repeat case_match; simplify_eq; done.
Qed.

(** ** Flags *)

Lemma land_one f : negb (Z.land (Z.land f 65534) Flags.Add =? 0) = false.
Proof. rewrite <- Z.land_assoc. change (Z.land 65534 Flags.Add) with 0. by rewrite Z.land_0_r. Qed.

Lemma land_keep f b : Z.land 65534 b = b -> Z.land (Z.land f 65534) b = Z.land f b.
Proof. intros E. by rewrite <- Z.land_assoc, E. Qed.

Lemma lor_clear f : negb (Z.land (Z.lor f Flags.Clear) Flags.Clear =? 0) = true.
Proof.
  apply negb_true_iff, Z.eqb_neq. intros E. assert (H : Z.testbit (Z.land (Z.lor f Flags.Clear) Flags.Clear) 5 = true) by (by rewrite Z.land_spec, Z.lor_spec, orb_true_r).
  by rewrite E in H.
Qed.

Lemma lor_other f b : Z.land Flags.Clear b = 0 -> Z.land (Z.lor f Flags.Clear) b = Z.land f b.
Proof. intros E. rewrite Z.land_lor_distr_l, E. apply Z.lor_0_r. Qed.

(** The event [AddEvent] stores. *)
Definition stored (k : OrbisKernelEvent) : OrbisKernelEvent :=
  let k := with_data 0 k in
  let k := with_flags (Z.land (flags k) 65534) k in
  if negb (filter_ k =? Filter.User) then with_flags (Z.lor (flags k) Flags.Clear) k else k.

(** Whether it is edge-triggered. *)
Definition edge_add (k : OrbisKernelEvent) : Prop := filter_ k <> Filter.User \/ has_flag k Flags.Clear = true \/ has_flag k Flags.OneShot = true.

Lemma stored_key k : key (stored k) = key k.
Proof. unfold stored. cbn. by destruct (filter_ k =? Filter.User). Qed.

Lemma stored_ok k now i t : event_ok (mkEvent (stored k) now i t false).
Proof.
  unfold stored. cbn. split; unfold has_flag; destruct (Z.eqb_spec (filter_ k) Filter.User); cbn; try done.
  - apply land_one.
  - rewrite lor_other by done. apply land_one.
  - intros _. apply lor_clear.
Qed.

Lemma stored_edge k now i t : edge_add k -> edge (mkEvent (stored k) now i t false).
Proof.
  unfold edge, edge_add, stored, has_flag. cbn. destruct (Z.eqb_spec (filter_ k) Filter.User); cbn; [|intros _; left; apply lor_clear].
  rewrite !land_keep by done. intros [?|?]; [done|done].
Qed.

(** ** Lists of events *)

Lemma triggered_set i e e' l : l !! i = Some e -> is_triggered e' = is_triggered e -> triggered (<[i := e']> l) = triggered l.
Proof.
  intros Hi E. rewrite insert_take_drop by (by eapply lookup_lt_Some). rewrite <- (take_drop_middle l i e Hi) at 3. rewrite !triggered_app. f_equal.
  unfold triggered. cbn. by rewrite E; destruct (is_triggered e).
Qed.

Lemma triggered_delete i l : (triggered (delete i l) <= triggered l)%nat.
Proof.
  unfold triggered. rewrite delete_take_drop. rewrite <- (take_drop i l) at 3. rewrite !List.filter_app, !length_app. apply Nat.add_le_mono_l.
  destruct (drop i l) as [|e r] eqn:E.
  - rewrite (drop_ge l (S i)); [done|]. apply (f_equal length) in E. rewrite length_drop in E. cbn in E. lia.
  - assert (drop (S i) l = r) as ->; [|cbn; destruct (is_triggered e); cbn; lia]. rewrite <- Nat.add_1_r, <- drop_drop, E. done.
Qed.

Lemma same_edge e e' : same e e' -> edge e -> edge e'.
Proof. unfold edge, has_flag. intros (_ & _ & ->). done. Qed.

Lemma edge_delete i l : Forall edge l -> Forall edge (delete i l).
Proof. rewrite !Forall_forall. intros H e He. apply H. eapply elem_of_sublist; [exact He|apply sublist_delete]. Qed.

Lemma edge_set i e e' l : l !! i = Some e -> same e e' -> Forall edge l -> Forall edge (<[i := e']> l).
Proof. intros Hi Hs H. apply Forall_insert; [done|]. eapply same_edge; [exact Hs|]. exact (Forall_lookup_1 _ _ _ _ H Hi). Qed.

Lemma set_in {A} (i : nat) (e e' : A) (l : list A) x : l !! i = Some e -> x ∈ <[i := e']> l -> x ∈ l \/ x = e'.
Proof.
  intros Hi [j Hj]%list_elem_of_lookup. destruct (decide (j = i)) as [->|Hne].
  - rewrite list_lookup_insert_eq in Hj by (by eapply lookup_lt_Some). injection Hj as <-. by right.
  - rewrite list_lookup_insert_ne in Hj by done. left. apply list_elem_of_lookup. eauto.
Qed.

Lemma in_set {A} (i : nat) (e e' : A) (l : list A) x : l !! i = Some e -> x ∈ l -> x ∈ <[i := e']> l \/ x = e.
Proof.
  intros Hi [j Hj]%list_elem_of_lookup. destruct (decide (j = i)) as [->|Hne]; [right; congruence|left]. apply list_elem_of_lookup. exists j. by rewrite list_lookup_insert_ne.
Qed.

Lemma set_mem {A} (i : nat) (e e' : A) (l : list A) : l !! i = Some e -> e' ∈ <[i := e']> l.
Proof. intros Hi. apply list_elem_of_lookup. exists i. apply list_lookup_insert_eq. by eapply lookup_lt_Some. Qed.

(** ** Scheduling and adding *)

Lemma schedule_spec skip s o q id f i e cb : objects s !! o = Some q -> queue_ok (m_events q) -> find_event id f (m_events q) = Some (i, e) ->
  is_timer (event e) = true -> cb = callback_of (event e) -> Forall handler_ok (io_waits s) -> timers_but skip s -> skip = None \/ skip = Some (o, key (event e)) ->
  exists s' due, ScheduleEvent o id f cb s = Done (true, s')
    /\ moves o s s' q (set_events (<[i := mkEvent (event e) (time_added e) (timer_interval e) (Some due) (is_triggered e)]> (m_events q)) q)
    /\ waiters s' = waiters s /\ Forall handler_ok (io_waits s') /\ timers_ok s'
    /\ due = match timer e with None => clock s | Some expiry => expiry end + timer_interval e.
Proof.
  intros Hq Hqo Hf Ht -> Hh Htm Hskip. destruct (find_Some _ _ _ _ _ Hf) as [Hi Hk]. unfold ScheduleEvent, deref. rewrite Hq. cbn [of_option obind]. rewrite Hf.
  unfold is_timer in Ht. rewrite Ht. cbn [oassert obind].
  assert (exists due s1, (match timer e with None => (clock s + timer_interval e, s) | Some x => (x + timer_interval e, cancel_event o e s) end) = (due, s1)
    /\ same_but_io s s1 /\ Forall handler_ok (io_waits s1) /\ timers_but (Some (o, key (event e))) s1
    /\ due = match timer e with None => clock s | Some x => x end + timer_interval e) as (due & s1 & -> & Hsame & Hh1 & Htm1 & Hdue).
  { destruct (timer e) as [x|] eqn:Ex; eexists _, _; (split; [done|]).
    - split; [apply (cancels_rest o [e])|]. split; [by apply (cancels_handlers o [e])|]. split; [by eapply timers_cancel|done].
    - split; [done|]. split; [done|]. split; [|done]. eapply timers_unset; try done. apply list_elem_of_lookup. eauto. }
  destruct Hsame as (E1 & E2 & E3 & E4 & E5). eexists _, due. split; [done|]. split; [split; cbn; congruence|]. split; [done|]. split.
  - cbn. apply Forall_app. split; [done|]. apply Forall_singleton. done.
  - split; [|exact Hdue]. apply (timers_schedule s1 o q i e); try done; congruence.
Qed.

Lemma AddEvent_spec s o q time k b s' : eq_inv s -> objects s !! o = Some q -> AddEvent o time k s = Done (b, s') ->
  b = true /\ eq_inv s' /\ waiters s' = waiters s /\ exists q', moves o s s' q q' /\ triggered (m_events q') = triggered (m_events q)
    /\ (Forall edge (m_events q) -> edge_add k -> Forall edge (m_events q')).
Proof.
  intros Hi Hq E. pose proof (ei_queues _ _ Hi _ _ Hq) as Hqo. unfold AddEvent, deref in E. rewrite Hq in E. cbn [of_option obind] in E.
  destruct (if filter_ k =? Filter.Timer then _ else _) as [interval|] eqn:Ei; [|done]. cbn [obind] in E.
  destruct (find_event (ident k) (filter_ k) (m_events q)) as [[i old]|] eqn:Hf.
  - injection E as <- <-. destruct (find_Some _ _ _ _ _ Hf) as [Hl Hk]. set (e' := mkEvent _ _ _ _ _). assert (Hs : same old e') by done.
    pose proof (moves_set o s q (set_events (<[i := e']> (m_events q)) q) Hq eq_refl) as Hm. split; [done|]. split; [|split; [done|]].
    + eapply inv_moves; [exact Hi|exact Hm|eapply queue_set; [exact Hl|done| |done]; by intros []|apply Hi|].
      eapply (timers_change None s o q _ []); [apply Hi|done|..].
      * intros x Hx. destruct (set_in _ _ _ _ _ Hl Hx) as [?| ->]; [by exists x|]. exists old. split; [|done]. apply list_elem_of_lookup. eauto.
      * intros x Hx. left. destruct (in_set _ _ e' _ _ Hl Hx) as [?| ->]; [by exists x|]. exists e'. split; [|done]. by eapply set_mem.
      * intros g x Hg. by apply elem_of_nil in Hg.
    + eexists. split; [exact Hm|]. cbn. split; [by eapply triggered_set|]. intros He _. by eapply edge_set.
  - change (if negb (filter_ k =? Filter.User) then _ else _) with (stored k) in E. set (e := mkEvent (stored k) (clock s) interval None false) in E.
    set (q1 := set_events (m_events q ++ [e]) q) in E. set (s1 := set_object o q1 s) in E.
    assert (Hnew : forall x, x ∈ m_events q -> key (event x) <> key (event e)) by (cbn; rewrite stored_key; by apply find_None).
    assert (Hqo1 : queue_ok (m_events q1)).
    { destruct Hqo as [Hn He]. split; cbn; [|apply Forall_app; split; [done|]; apply Forall_singleton, stored_ok]. rewrite fmap_app. apply NoDup_app. split; [done|].
      split; [|apply NoDup_singleton]. intros x (y & -> & Hy)%list_elem_of_fmap Hx. apply list_elem_of_singleton in Hx. by apply (Hnew y). }
    assert (Htr : triggered (m_events q1) = triggered (m_events q)) by (change (m_events q1) with (m_events q ++ [e]); rewrite triggered_app; unfold triggered at 2; cbn; lia).
    assert (Hed : Forall edge (m_events q) -> edge_add k -> Forall edge (m_events q1)) by (intros ? ?; apply Forall_app; split; [done|]; by apply Forall_singleton, stored_edge).
    assert (Hm1 : moves o s s1 q q1) by (by apply moves_set).
    pose proof (timers_new s o q e (ei_timers _ _ Hi) Hq Hnew) as Ht1. fold q1 s1 in Ht1.
    assert (Hfind : exists i, find_event (ident k) (filter_ k) (m_events q1) = Some (i, e)).
    { destruct (find_event (ident k) (filter_ k) (m_events q1)) as [[i x]|] eqn:Ex.
      - destruct (find_Some _ _ _ _ _ Ex) as [Hx Hkx]. exists i. f_equal. f_equal. apply (keys_inj (m_events q1)); [done|apply list_elem_of_lookup; eauto|cbn; apply elem_of_app; right; by apply list_elem_of_singleton|].
        rewrite Hkx. cbn. by rewrite stored_key.
      - exfalso. rewrite find_None in Ex. apply (Ex e); [cbn; apply elem_of_app; right; by apply list_elem_of_singleton|]. cbn. by rewrite stored_key. }
    destruct Hfind as [i Hfind]. destruct (find_Some _ _ _ _ _ Hfind) as [Hl _].
    assert (Hsched : is_timer k = true -> forall cb, cb = callback_of k -> ScheduleEvent o (ident k) (filter_ k) cb s1 = Done (b, s') ->
      b = true /\ eq_inv s' /\ waiters s' = waiters s /\ exists q', moves o s s' q q' /\ triggered (m_events q') = triggered (m_events q)
        /\ (Forall edge (m_events q) -> edge_add k -> Forall edge (m_events q'))).
    { intros Htk cb Hcb Es. assert (Hfk : filter_ (stored k) = filter_ k) by (pose proof (stored_key k) as Hsk; by injection Hsk).
      destruct (schedule_spec (Some (o, key (event e))) s1 o q1 (ident k) (filter_ k) i e cb) as (s2 & due & E2 & Hm2 & Hw2 & Hh2 & Ht2 & _);
        [by apply lookup_insert_eq|done|done|unfold is_timer in *; cbn; by rewrite Hfk|unfold callback_of in *; cbn; by rewrite Hfk|apply Hi|done|by right|].
      rewrite Es in E2. injection E2 as -> <-. split; [done|]. set (e2 := mkEvent _ _ _ _ _) in Hm2.
      pose proof (moves_trans _ _ _ _ _ _ _ Hm1 Hm2) as Hm. split; [|split; [done|]].
      - eapply inv_moves; [exact Hi|exact Hm| |done|done]. cbn. eapply (queue_set i e); [done|..|done]; [done|]. cbn. intros _. apply stored_ok.
      - eexists. split; [exact Hm|]. split; [change (triggered (<[i := e2]> (m_events q1)) = triggered (m_events q)); by rewrite (triggered_set i e)|]. intros H1 H2. apply Forall_insert; [by apply Hed|]. by apply stored_edge. }
    destruct (Z.eqb_spec (filter_ k) Filter.Timer) as [Ef|Ef].
    { apply (Hsched ltac:(unfold is_timer; by rewrite Ef) TimerCallback); [unfold callback_of; by rewrite Ef|by rewrite Ef]. }
    destruct (Z.eqb_spec (filter_ k) Filter.HrTimer) as [Ef2|Ef2].
    { apply (Hsched ltac:(unfold is_timer; by rewrite Ef2) HrTimerCallback); [unfold callback_of; by rewrite Ef2|by rewrite Ef2]. }
    injection E as <- <-. split; [done|]. split; [|split; [done|by exists q1]].
    eapply inv_moves; [exact Hi|exact Hm1|done|apply Hi|]. eapply timers_done; [exact Ht1|]. intros x _ Ex [Hx _]. apply Ef. cbn in Ex. rewrite stored_key in Ex. injection Ex as _ Ex. congruence.
Qed.

(** ** Removing, triggering and collecting *)

Lemma RemoveEvent_spec s o q id f b s' : eq_inv s -> objects s !! o = Some q -> RemoveEvent o id f s = Done (b, s') ->
  eq_inv s' /\ waiters s' = waiters s /\ exists q', moves o s s' q q' /\ (triggered (m_events q') <= triggered (m_events q))%nat
    /\ (Forall edge (m_events q) -> Forall edge (m_events q')) /\ forall e, e ∈ m_events q' <-> e ∈ m_events q /\ key (event e) <> (id, f).
Proof.
  intros Hi Hq E. pose proof (ei_queues _ _ Hi _ _ Hq) as Hqo. unfold RemoveEvent, deref in E. rewrite Hq in E. cbn [of_option obind] in E.
  destruct (find_event id f (m_events q)) as [[i e]|] eqn:Hf; injection E as <- <-.
  2: { split; [done|]. split; [done|]. exists q. split; [by apply moves_refl|]. do 2 (split; [done|]). intros e. rewrite find_None in Hf. split; [auto|by intros [? _]]. }
  destruct (find_Some _ _ _ _ _ Hf) as [Hl Hk]. set (q' := set_events (delete i (m_events q)) q).
  assert (Hin : forall x, x ∈ delete i (m_events q) <-> x ∈ m_events q /\ key (event x) <> key (event e)).
  { intros x. destruct Hqo as [Hn _]. apply list_elem_of_split_length in Hl as (l1 & l2 & El & ->). rewrite El, delete_middle in *. rewrite fmap_app, fmap_cons in Hn.
    apply NoDup_app in Hn as (_ & H2 & H3). apply NoDup_cons in H3 as [H3 _]. rewrite !elem_of_app, elem_of_cons. split.
    - intros [Hx|Hx]; (split; [tauto|]); intros Ex; [|apply H3; rewrite <- Ex; apply list_elem_of_fmap; eauto]. apply (H2 (key (event x))); [apply list_elem_of_fmap; eauto|]. rewrite Ex. by left.
    - intros [[?|[->|?]] Hne]; [by left|done|by right]. }
  assert (Hm : moves o s (cancel_event o e (set_object o q' s)) q q') by (eapply moves_io; [by apply moves_set|apply (cancels_rest o [e])]).
  split; [|split; [done|]].
  - eapply inv_moves; [exact Hi|exact Hm|by apply queue_delete|apply (cancels_handlers o [e]), Hi|]. apply (timers_change None s o q q' [e]); [apply Hi|done|..]; cbn.
    + intros x [Hx _]%Hin. by exists x.
    + intros x Hx. destruct (decide (key (event x) = key (event e))) as [Ex|Ex]; [right|left; exists x; split; [by apply Hin|done]].
      apply list_elem_of_singleton. apply (keys_inj (m_events q)); try done. apply list_elem_of_lookup. eauto.
    + intros g x ->%list_elem_of_singleton [_ Hx]%Hin. done.
  - exists q'. split; [done|]. split; [apply triggered_delete|]. split; [apply edge_delete|]. intros x. cbn. by rewrite Hin, Hk.
Qed.

Lemma GetTriggered_spec s o q num l s' : eq_inv s -> objects s !! o = Some q -> GetTriggeredEvents o num s = Done (l, s') ->
  eq_inv s' /\ waiters s' = waiters s /\ exists q' gone, moves o s s' q q' /\ collect_events 0 num (m_events q) = (l, m_events q', gone)
    /\ (Forall edge (m_events q) -> Forall edge (m_events q') /\ triggered (m_events q) = (triggered (m_events q') + length l)%nat /\ (l = [] -> triggered (m_events q) = 0%nat)).
Proof.
  intros Hi Hq E. pose proof (ei_queues _ _ Hi _ _ Hq) as Hqo. unfold GetTriggeredEvents, deref in E. rewrite Hq in E. cbn [of_option obind] in E.
  destruct (collect_events 0 num (m_events q)) as [[out kept] gone] eqn:Ec. injection E as <- <-. set (q' := set_events kept q).
  destruct (collect_same _ _ _ _ _ Ec Hqo) as (H1 & H2 & H3).
  assert (Hm : moves o s (foldr (cancel_event o) (set_object o q' s) gone) q q') by (eapply moves_io; [by apply moves_set|apply cancels_rest]).
  split; [|split; [by destruct (cancels_rest o gone (set_object o q' s)) as (_ & _ & _ & -> & _)|]].
  - eapply inv_moves; [exact Hi|exact Hm|by eapply queue_collect|apply cancels_handlers, Hi|]. by apply (timers_change None s o q q' gone); [apply Hi|..].
  - exists q', gone. split; [done|]. split; [done|]. intros He. split; [|by apply (collect_triggered num _ _ _ gone)]. apply Forall_forall. intros x Hx.
    destruct (H1 x Hx) as (e & Hin & Hs). eapply same_edge; [exact Hs|]. rewrite Forall_forall in He. auto.
Qed.

(** At most one event is triggered. *)
Lemma trigger_count id f (g : EqueueEvent -> EqueueEvent) l : queue_ok l -> (forall e, is_triggered (g e) = true) ->
  (triggered ((fun e => if same_key id f (event e) then g e else e) <$> l) <= S (triggered l))%nat.
Proof.
  intros [Hn _] Hg. induction l as [|e l IH]; [unfold triggered; cbn; lia|]. rewrite fmap_cons in Hn. apply NoDup_cons in Hn as [Hnot Hn]. specialize (IH Hn).
  rewrite fmap_cons. destruct (same_key id f (event e)) eqn:Ek.
  - assert (Hsame : (fun e => if same_key id f (event e) then g e else e) <$> l = l).
    { rewrite <- (list_fmap_id l) at 2. apply list_fmap_ext. intros j x Hx%list_elem_of_lookup_2. cbn. destruct (same_key id f (event x)) eqn:Ex; [|done]. exfalso. apply Hnot.
      apply same_key_spec in Ek, Ex. rewrite Ek, <- Ex. apply list_elem_of_fmap; eauto. }
    rewrite Hsame. unfold triggered. cbn. rewrite Hg. cbn. destruct (is_triggered e); cbn; lia.
  - unfold triggered in *. cbn. destruct (is_triggered e); cbn; lia.
Qed.

Lemma TriggerEvent_spec skip s o q pick time id f d b s' : eq_inv_but skip s -> objects s !! o = Some q -> TriggerEvent pick time o id f d s = Done (b, s') ->
  eq_inv_but skip s' /\ io_waits s' = io_waits s /\ waiters s' = notify_at (pick mod sleepers o (waiters s)) o (waiters s)
  /\ exists q', moves o s s' q q' /\ m_events q' = (fun e => if same_key id f (event e) then trigger_one time f d e else e) <$> m_events q
    /\ (triggered (m_events q') <= S (triggered (m_events q)))%nat /\ (Forall edge (m_events q) -> Forall edge (m_events q')).
Proof.
  intros Hi Hq E. pose proof (ei_queues _ _ Hi _ _ Hq) as Hqo. unfold TriggerEvent, deref in E. rewrite Hq in E. cbn [of_option obind] in E. injection E as _ <-.
  set (g := fun e => if same_key id f (event e) then trigger_one time f d e else e). set (q' := set_events (g <$> m_events q) q).
  assert (Hg : forall e, same e (g e)) by (intros e; unfold g; destruct (same_key _ _ _); [apply trigger_same|done]).
  assert (Hm : moves o s (notify_one pick o (set_object o q' s)) q q') by (by split).
  split; [|split; [done|split; [done|]]].
  - eapply inv_moves; [exact Hi|exact Hm| |apply Hi|].
    + apply queue_map; [done| |done]. intros e. unfold g. destruct (same_key _ _ _); [apply trigger_ok|done].
    + pose proof (timers_change skip s o q q' []) as Ht. destruct Ht as [H1 H2 H3 H4]; cbn; [apply Hi|done|..].
      * intros e' (e & -> & Hin)%list_elem_of_fmap. eauto.
      * intros e Hin. left. exists (g e). split; [by apply list_elem_of_fmap_2|done].
      * intros ? ? H. by apply elem_of_nil in H.
      * split; [exact H1|exact H2|exact H3|exact H4].
  - exists q'. split; [done|]. split; [done|]. split; [apply trigger_count; [done|]; intros; apply trigger_sets|]. intros He. apply Forall_fmap. eapply Forall_impl; [exact He|].
    intros e. cbn. by apply same_edge.
Qed.
