(* ===== verification/EqueueSpec.v ===== *)
(** * Event queues: histories and properties

    The machine of all threads, timers and clocks ([eq_step]); over all its histories
    the queues and timers stay in order ([equeue_ordered]).  Where all events are
    edge-triggered no thread sleeps on an event that nobody was woken for
    ([no_event_missed]). *)

From stdpp Require Import gmap strings.
From S2P Require Import Prelude Equeue EqueueFacts.

(** ** Sleeping threads *)

Definition woken (o : Z) (w : Waiter) : bool := match wt_kind w with OnCond _ true => wt_obj w =? o | _ => false end.
Definition notified (o : Z) (l : list Waiter) : nat := length (List.filter (woken o) l).

(** While a thread sleeps without a notification there are at most as many
    triggered events as notified threads. *)
Definition wake_ok (s : EqState) : Prop :=
  forall o q, objects s !! o = Some q -> Forall edge (m_events q) /\ ((0 < sleepers o (waiters s))%nat -> (triggered (m_events q) <= notified o (waiters s))%nat).

Lemma sleepers_app o l l' : sleepers o (l ++ l') = (sleepers o l + sleepers o l')%nat.
Proof. unfold sleepers. by rewrite List.filter_app, length_app. Qed.

Lemma notified_app o l l' : notified o (l ++ l') = (notified o l + notified o l')%nat.
Proof. unfold notified. by rewrite List.filter_app, length_app. Qed.

Lemma counts_cons o w l : sleepers o (w :: l) = ((if asleep o w then 1 else 0) + sleepers o l)%nat /\ notified o (w :: l) = ((if woken o w then 1 else 0) + notified o l)%nat.
Proof. unfold sleepers, notified. cbn. by destruct (asleep o w), (woken o w). Qed.

Lemma asleep_woken o w : asleep o w = true -> woken o w = false.
Proof. unfold asleep, woken. by destruct (wt_kind w) as [? []|]. Qed.

Lemma notify_counts o l : forall k, (k < sleepers o l)%nat -> sleepers o (notify_at k o l) = pred (sleepers o l) /\ notified o (notify_at k o l) = S (notified o l).
Proof.
  induction l as [|w l IH]; intros k Hk; [unfold sleepers in Hk; cbn in Hk; lia|]. destruct (counts_cons o w l) as [E1 E2]. cbn [notify_at]. rewrite E1 in *. rewrite E2.
  destruct (asleep o w) eqn:Ea.
  - pose proof (asleep_woken o w Ea) as Ew. destruct k as [|k].
    + destruct (counts_cons o (set_notified true w) l) as [-> ->]. assert (asleep o (set_notified true w) = false /\ woken o (set_notified true w) = true) as [-> ->].
      { unfold asleep, woken, set_notified in *. by destruct (wt_kind w) as [? []|] eqn:E; cbn. }
      rewrite Ew. lia.
    + destruct (counts_cons o w (notify_at k o l)) as [-> ->]. rewrite Ea, Ew. destruct (IH k) as [-> ->]; lia.
  - destruct (counts_cons o w (notify_at k o l)) as [-> ->]. rewrite Ea. destruct (IH k) as [-> ->]; [lia|]. destruct (woken o w); lia.
Qed.

Lemma notify_none o k l : sleepers o l = 0%nat -> notify_at k o l = l.
Proof.
  revert k. induction l as [|w l IH]; intros k H; [done|]. destruct (counts_cons o w l) as [E _]. rewrite E in H. cbn [notify_at]. destruct (asleep o w); [lia|]. f_equal. apply IH. lia.
Qed.

Lemma notify_other o o' k l : o' <> o -> sleepers o' (notify_at k o l) = sleepers o' l /\ notified o' (notify_at k o l) = notified o' l.
Proof.
  intros Hne. revert k. induction l as [|w l IH]; intros k; [done|]. cbn [notify_at]. destruct (counts_cons o' w l) as [-> ->].
  destruct (asleep o w) eqn:Ea; [destruct k as [|k]|].
  - destruct (counts_cons o' (set_notified true w) l) as [-> ->]. assert (wt_obj w = o) as Ew by (unfold asleep in Ea; destruct (wt_kind w) as [? []|]; lia).
    unfold asleep, woken, set_notified in *. destruct (wt_kind w) as [? []|]; cbn in *; rewrite ?Ew, ?(proj2 (Z.eqb_neq o o')) by congruence; done.
  - destruct (counts_cons o' w (notify_at k o l)) as [-> ->]. destruct (IH k) as [-> ->]. done.
  - destruct (counts_cons o' w (notify_at k o l)) as [-> ->]. destruct (IH k) as [-> ->]. done.
Qed.

(** ** Transitions

    [good E]: the invariant is kept, and so is [wake_ok] if [E]. *)
Definition good (E : Prop) (s s' : EqState) : Prop := eq_inv s -> eq_inv s' /\ (E -> wake_ok s -> wake_ok s').

Lemma good_refl E s : good E s s.
Proof. by intros ?. Qed.

Lemma good_trans E s1 s2 s3 : good E s1 s2 -> good E s2 s3 -> good E s1 s3.
Proof. intros H1 H2 Hi. destruct (H1 Hi) as [Hi2 Hw2]. destruct (H2 Hi2) as [Hi3 Hw3]. split; [done|]. auto. Qed.

Lemma good_mono (E E' : Prop) s s' : (E -> E') -> good E' s s' -> good E s s'.
Proof. intros He H Hi. destruct (H Hi) as [Hi' Hw]. split; [done|]. auto. Qed.

Lemma wake_moves o s s' q q' : wake_ok s -> moves o s s' q q' -> Forall edge (m_events q') ->
  (forall o', o' <> o -> sleepers o' (waiters s') = sleepers o' (waiters s) /\ notified o' (waiters s') = notified o' (waiters s)) ->
  ((0 < sleepers o (waiters s'))%nat -> (triggered (m_events q') <= notified o (waiters s'))%nat) -> wake_ok s'.
Proof.
  intros Hw Hm He Ho Hc o' q0 Hq0. rewrite (mv_new _ _ _ _ _ Hm) in Hq0. destruct (decide (o' = o)) as [->|Hne].
  - rewrite lookup_insert_eq in Hq0. injection Hq0 as <-. done.
  - rewrite lookup_insert_ne in Hq0 by congruence. destruct (Ho o' Hne) as [-> ->]. by apply Hw.
Qed.

Lemma wake_quiet o s s' q q' : wake_ok s -> moves o s s' q q' -> waiters s' = waiters s -> (Forall edge (m_events q) -> Forall edge (m_events q')) ->
  (triggered (m_events q') <= triggered (m_events q))%nat -> wake_ok s'.
Proof.
  intros Hw Hm E He Ht. destruct (Hw o q (mv_old _ _ _ _ _ Hm)) as [H1 H2]. eapply wake_moves; [exact Hw|exact Hm|auto|by rewrite E|]. rewrite E. intros Hs. specialize (H2 Hs). lia.
Qed.

Lemma deref_Done {A} o s (k : EqueueInternal -> outcome A) r : (let! q := deref o s in k q) = Done r -> exists q, objects s !! o = Some q.
Proof. unfold deref. destruct (objects s !! o); [eauto|done]. Qed.

Lemma add_good o time k s b s' : AddEvent o time k s = Done (b, s') -> good (edge_add k) s s'.
Proof.
  intros E Hi. destruct (deref_Done _ _ _ _ E) as [q Hq]. destruct (AddEvent_spec _ _ _ _ _ _ _ Hi Hq E) as (_ & Hi' & Hw & q' & Hm & Ht & He). split; [done|].
  intros Hedge Hwk. eapply wake_quiet; [done|exact Hm|done|auto|lia].
Qed.

Lemma remove_good o id f s b s' : RemoveEvent o id f s = Done (b, s') -> good True s s'.
Proof.
  intros E Hi. destruct (deref_Done _ _ _ _ E) as [q Hq]. destruct (RemoveEvent_spec _ _ _ _ _ _ _ Hi Hq E) as (Hi' & Hw & q' & Hm & Ht & He & _). split; [done|].
  intros _ Hwk. by eapply wake_quiet.
Qed.

Lemma trigger_wakes pick o s s' q q' : wake_ok s -> moves o s s' q q' -> waiters s' = notify_at (pick mod sleepers o (waiters s)) o (waiters s) ->
  (triggered (m_events q') <= S (triggered (m_events q)))%nat -> (Forall edge (m_events q) -> Forall edge (m_events q')) -> wake_ok s'.
Proof.
  intros Hwk Hm Hw Ht He. destruct (Hwk o q (mv_old _ _ _ _ _ Hm)) as [H1 H2]. eapply wake_moves; [exact Hwk|exact Hm|auto|intros o' Hne; rewrite Hw; by apply notify_other|].
  rewrite Hw. destruct (decide (sleepers o (waiters s) = 0)%nat) as [E|E]; [rewrite notify_none by done; lia|].
  destruct (notify_counts o (waiters s) (pick mod sleepers o (waiters s))) as [-> ->]; [by apply Nat.mod_upper_bound|]. intros Hs. specialize (H2 ltac:(lia)). lia.
Qed.

Lemma trigger_good pick time o id f d s b s' : TriggerEvent pick time o id f d s = Done (b, s') -> good True s s'.
Proof.
  intros E Hi. destruct (deref_Done _ _ _ _ E) as [q Hq]. destruct (TriggerEvent_spec _ _ _ _ _ _ _ _ _ _ _ Hi Hq E) as (Hi' & _ & Hw & q' & Hm & _ & Ht & He). split; [done|].
  intros _ Hwk. by eapply trigger_wakes.
Qed.

Lemma get_good o num s l s' : GetTriggeredEvents o num s = Done (l, s') -> good True s s'.
Proof.
  intros E Hi. destruct (deref_Done _ _ _ _ E) as [q Hq]. destruct (GetTriggered_spec _ _ _ _ _ _ Hi Hq E) as (Hi' & Hw & q' & gone & Hm & _ & He). split; [done|].
  intros _ Hwk. destruct (Hwk o q Hq) as [H1 _]. destruct (He H1) as (H3 & H4 & _). eapply wake_quiet; [done|exact Hm|done|done|lia].
Qed.

(** Small timers change no event. *)
Lemma small_good o q m s : objects s !! o = Some q -> good True s (set_object o (set_small m q) s).
Proof.
  intros Hq Hi. assert (Hm : moves o s (set_object o (set_small m q) s) q (set_small m q)) by (by apply moves_set). split; [|intros _ Hw; by eapply wake_quiet].
  eapply inv_moves; [exact Hi|exact Hm|exact (ei_queues _ _ Hi _ _ Hq)|apply Hi|]. apply (timers_change None s o q (set_small m q) []); [apply Hi|done|..]; cbn.
  - intros e He. by exists e.
  - intros e He. left. by exists e.
  - intros ? ? H. by apply elem_of_nil in H.
Qed.

Lemma waiters_inv skip l s : eq_inv_but skip s -> eq_inv_but skip (set_waiters l s).
Proof. intros [? ? ? ? ? [? ? ? ?]]. by split. Qed.

(** ** Waiting *)

Lemma sleep_good w s : eq_inv s -> wake_ok s -> (forall o q, asleep o w = true -> objects s !! o = Some q -> triggered (m_events q) = 0%nat) ->
  wake_ok (sleep w s).
Proof.
  intros _ Hw H0 o q Hq. change (objects s !! o = Some q) in Hq. change (waiters (sleep w s)) with (waiters s ++ [w]). destruct (Hw o q Hq) as [H1 H2]. split; [done|]. rewrite sleepers_app, notified_app.
  destruct (counts_cons o w []) as [-> ->]. destruct (asleep o w) eqn:Ea; [rewrite (H0 o q Ea Hq); lia|]. change (sleepers o []) with 0%nat. intros Hs. specialize (H2 ltac:(lia)). lia.
Qed.

Lemma wait_good t o num timo c s r s' : WaitForEvents t o num timo c s = Done (r, s') -> good True s s'.
Proof.
  intros E Hi. unfold WaitForEvents in E. destruct (bool_decide (timo = Some 0)).
  { destruct (GetTriggeredEvents o num s) as [[l s1]|] eqn:Eg; [|done]. injection E as <- <-. by eapply get_good. }
  destruct (HasSmallTimer o s) as [small|]; [|done]. cbn [obind] in E. destruct small.
  { destruct (1 <=? num); [|done]. injection E as <- <-. split; [by apply waiters_inv|]. intros _ Hw. by apply sleep_good. }
  destruct (GetTriggeredEvents o num s) as [[l s1]|] eqn:Eg; [|done]. cbn [obind] in E. destruct (get_good _ _ _ _ _ Eg Hi) as [Hi1 Hw1].
  destruct l as [|e l]; injection E as <- <-; [|done]. split; [by apply waiters_inv|]. intros _ Hw. apply sleep_good; [done|by apply Hw1|].
  intros o' q1 Ha Hq1. cbn in Ha. apply Z.eqb_eq in Ha as <-. destruct (deref_Done _ _ _ _ Eg) as [q Hq].
  destruct (GetTriggered_spec _ _ _ _ _ _ Hi Hq Eg) as (_ & _ & q' & gone & Hm & _ & He). rewrite (moves_new _ _ _ _ _ Hm) in Hq1. injection Hq1 as <-.
  destruct (Hw o q Hq) as [Hedge _]. destruct (He Hedge) as (_ & H1 & H2). specialize (H2 eq_refl). lia.
Qed.

(** The counts around waiter [i]. *)
Lemma counts_at o i w l : l !! i = Some w ->
  sleepers o l = ((if asleep o w then 1 else 0) + sleepers o (delete i l))%nat /\ notified o l = ((if woken o w then 1 else 0) + notified o (delete i l))%nat.
Proof.
  intros (l1 & l2 & -> & ->)%list_elem_of_split_length. rewrite delete_middle, !sleepers_app, !notified_app. destruct (counts_cons o w l2) as [-> ->]. lia.
Qed.

Lemma set_delete {A} i (w w' : A) (l : list A) : l !! i = Some w -> delete i (<[i := w']> l) = delete i l.
Proof. intros (l1 & l2 & -> & ->)%list_elem_of_split_length. rewrite insert_app_r_alt by done. rewrite Nat.sub_diag. cbn. by rewrite !delete_middle. Qed.

Lemma obj_counts o w : wt_obj w <> o -> asleep o w = false /\ woken o w = false.
Proof. intros H. unfold asleep, woken. destruct (wt_kind w) as [? []|]; try done; rewrite (proj2 (Z.eqb_neq _ _)) by done; done. Qed.

(** A waiter leaves after it collected, or found nothing. *)
Lemma leave_wakes i w l s s1 : eq_inv s -> waiters s !! i = Some w -> GetTriggeredEvents (wt_obj w) (wt_num w) s = Done (l, s1) -> wake_ok s ->
  waiters s1 = waiters s /\ wake_ok (set_waiters (delete i (waiters s1)) s1)
  /\ (l = [] -> forall w', wt_obj w' = wt_obj w -> wake_ok (set_waiters (<[i := w']> (waiters s1)) s1)).
Proof.
  intros Hi Hl Eg Hwk. destruct (deref_Done _ _ _ _ Eg) as [q Hq]. destruct (GetTriggered_spec _ _ _ _ _ _ Hi Hq Eg) as (_ & Hw & q' & gone & Hm & _ & He).
  destruct (Hwk _ _ Hq) as [Hedge Hc]. destruct (He Hedge) as (He' & Ht & H0). split; [done|]. rewrite Hw. split.
  - apply (wake_moves (wt_obj w) s _ q q'); [done|by destruct Hm|done|..]; cbn [waiters set_waiters].
    + intros o' Hne. destruct (counts_at o' i w _ Hl) as [-> ->]. destruct (obj_counts o' w ltac:(congruence)) as [-> ->]. done.
    + destruct (counts_at (wt_obj w) i w _ Hl) as [E1 E2]. intros Hs. specialize (Hc ltac:(lia)). destruct l as [|e l]; cbn in Ht; [specialize (H0 eq_refl); lia|].
      destruct (woken (wt_obj w) w); lia.
  - intros -> w' Ew. specialize (H0 eq_refl). apply (wake_moves (wt_obj w) s _ q q'); [done|by destruct Hm|done|..]; cbn [waiters set_waiters]; [|intros _; lia].
    intros o' Hne. assert (Hl' : <[i := w']> (waiters s) !! i = Some w') by (apply list_lookup_insert_eq; by eapply lookup_lt_Some).
    destruct (counts_at o' i w' _ Hl') as [-> ->], (counts_at o' i w _ Hl) as [-> ->]. rewrite (set_delete i w) by done.
    destruct (obj_counts o' w ltac:(congruence)) as [-> ->]. by destruct (obj_counts o' w' ltac:(congruence)) as [-> ->].
Qed.

Lemma advance_good order i s r s' : advance order i s = Done (r, s') -> good True s s'.
Proof.
  intros E Hi. unfold advance in E. destruct (waiters s !! i) as [w|] eqn:Hl; [|done]. cbn [of_option obind] in E. destruct (wt_kind w) as [dl n|we] eqn:Ek.
  - destruct (GetTriggeredEvents (wt_obj w) (wt_num w) s) as [[l s1]|] eqn:Eg; [|done]. cbn [obind] in E. destruct (get_good _ _ _ _ _ Eg Hi) as [Hi1 _].
    assert (exists ws, s' = set_waiters ws s1 /\ (wake_ok s -> wake_ok (set_waiters ws s1))) as (ws & -> & Hwk); [|split; [by apply waiters_inv|auto]].
    destruct l as [|e l]; [destruct (match dl with Some d => d <=? clock s1 | None => false end)|]; injection E as _ <-; eexists; (split; [done|]); intros Hwk;
      destruct (leave_wakes i w _ s s1 Hi Hl Eg Hwk) as (_ & H1 & H2); [done| |done]. apply (H2 eq_refl). unfold set_notified. by rewrite Ek.
  - unfold small_round in E. destruct (deref (wt_obj w) s) as [q|] eqn:Ed; [|done]. cbn [obind] in E. unfold deref in Ed. destruct (objects s !! wt_obj w) eqn:Hq; [|done]. injection Ed as ->.
    destruct (collect_small _ _ _ _) as [l m]. set (over := match we with Some e => e <=? clock s | None => false end) in E. clearbody over. cbn [obind] in E.
    destruct (small_good (wt_obj w) q m s Hq Hi) as [Hi1 Hw1]. set (s1 := set_object _ _ s) in *.
    assert (Hleave : eq_inv (set_waiters (delete i (waiters s1)) s1) /\ (True -> wake_ok s -> wake_ok (set_waiters (delete i (waiters s1)) s1))).
    { split; [by apply waiters_inv|]. intros _ Hwk o q0 Hq0. destruct (Hw1 I Hwk o q0 Hq0) as [H1 H2]. split; [done|]. change (waiters s1) with (waiters s) in *. cbn [waiters set_waiters].
      destruct (counts_at o i w _ Hl) as [E1 E2]. rewrite E1, E2 in H2. unfold asleep, woken in H2. rewrite Ek in H2. done. }
    destruct l as [|e l]; [destruct over|]; injection E as _ <-; done.
Qed.

(** ** Timers *)

Lemma fired_inv s i w : eq_inv s -> io_waits s !! i = Some w -> eq_inv_but (if io_live w then Some (wkey w) else None) (set_io (delete i (io_waits s)) s).
Proof.
  intros Hi Hl. pose proof Hi as []. split; try done; [|by apply timers_fired]. cbn. apply Forall_forall. intros x Hx. rewrite Forall_forall in ei_handlers.
  apply ei_handlers. eapply elem_of_sublist; [exact Hx|apply sublist_delete].
Qed.

Lemma inv_done skip s : eq_inv_but skip s -> timers_ok s -> eq_inv s.
Proof. intros [] ?. by split. Qed.

(** Running a handler, after it was taken off the list. *)
Lemma callback_good pick w s s1 : Forall handler_ok [w] -> eq_inv_but (if io_live w then Some (wkey w) else None) s1 ->
  (io_live w = true -> exists e, has_event s1 (io_obj w) e /\ serves w e) -> run_callback pick w s1 = Done s ->
  eq_inv s /\ (wake_ok s1 -> wake_ok s).
Proof.
  intros Hh Hi Hown E. apply Forall_singleton in Hh as [Hcb Htm]. unfold run_callback in E. destruct (deref (io_obj w) s1) as [q|] eqn:Ed; [|done]. cbn [obind] in E.
  unfold deref in Ed. destruct (objects s1 !! io_obj w) as [q1|] eqn:Hq; [|done]. injection Ed as ->. unfold GetEqueue in E. rewrite (ei_named _ _ Hi _ _ Hq) in E.
  set (o := io_obj w) in *. set (k := io_event w) in *. pose proof (ei_queues _ _ Hi _ _ Hq) as Hqo.
  (* a state in which the timer needs no handler *)
  assert (Hclose : forall s2 q2, eq_inv_but (if io_live w then Some (wkey w) else None) s2 -> objects s2 !! o = Some q2 ->
    (forall e, e ∈ m_events q2 -> key (event e) = key k -> io_live w = true -> ~ periodic e) -> eq_inv s2).
  { intros s2 q2 Hi2 Hq2 Hnp. destruct (io_live w); [|done]. apply (inv_done _ _ Hi2). eapply timers_done; [apply Hi2|]. intros e (q3 & Hq3 & Hin) Ek.
    fold o in Hq3. rewrite Hq2 in Hq3. injection Hq3 as <-. by apply Hnp. }
  destruct (io_callback w) eqn:Ecb.
  - destruct (TriggerEvent pick 0 o (ident k) Filter.HrTimer (udata k) s1) as [[b s2]|] eqn:Et; [|done]. injection E as <-.
    destruct (TriggerEvent_spec _ _ _ _ _ _ _ _ _ _ _ Hi Hq Et) as (Hi2 & _ & Hw & q' & Hm & _ & Ht & He). split; [|intros Hwk; by eapply trigger_wakes].
    apply (Hclose s2 q'); [done|by eapply moves_new|]. intros e _ Ek _ [Hf _]. unfold callback_of in Hcb. injection Ek as _ Ek. rewrite <- Ek, Hf in Hcb. done.
  - unfold EventExists, deref in E. rewrite Hq in E. cbn [of_option obind] in E. destruct (find_event (ident k) (filter_ k) (m_events q)) as [[i e]|] eqn:Hf.
    2: { rewrite bool_decide_eq_false_2 in E by (intros [? ?]; done). injection E as <-. split; [|done]. apply (Hclose s1 q); [done|done|]. intros e Hin Ek. rewrite find_None in Hf. by destruct (Hf e Hin). }
    rewrite bool_decide_eq_true_2 in E by eauto. destruct (TriggerEvent pick 0 o (ident k) Filter.Timer (udata k) s1) as [[b s2]|] eqn:Et; [|done]. cbn [obind] in E.
    destruct (TriggerEvent_spec _ _ _ _ _ _ _ _ _ _ _ Hi Hq Et) as (Hi2 & _ & Hw & q' & Hm & Eq' & Ht & He). pose proof (moves_new _ _ _ _ _ Hm) as Hq'.
    assert (Hback : forall x, x ∈ m_events q' -> exists y, y ∈ m_events q /\ same y x).
    { intros x. rewrite Eq'. intros (y & -> & Hy)%list_elem_of_fmap. exists y. split; [done|]. destruct (same_key _ _ _); [apply trigger_same|done]. }
    destruct (has_flag k Flags.OneShot) eqn:Eo; cbn [negb] in E.
    + injection E as <-. split; [|intros Hwk; by eapply trigger_wakes]. apply (Hclose s2 q'); [done|done|]. intros x Hx Ek Hlive [_ Hno]. destruct (Hown Hlive) as (e0 & (q3 & Hq3 & Hin0) & []).
      fold o in Hq3. rewrite Hq in Hq3. injection Hq3 as <-. destruct (Hback x Hx) as (y & Hy & Ey & _ & Efl). assert (y = e0) as -> by (apply (keys_inj (m_events q)); [done|done|done|]; fold k in se_key; congruence).
      unfold has_flag in *. fold k in se_flags. rewrite Efl, se_flags in Hno. congruence.
    + assert (Hfind : exists i' e', find_event (ident k) (filter_ k) (m_events q') = Some (i', e')).
      { destruct (find_event (ident k) (filter_ k) (m_events q')) as [[i' e']|] eqn:Ef; [eauto|]. exfalso. destruct (find_Some _ _ _ _ _ Hf) as [Hl Hk]. rewrite find_None in Ef.
        apply (Ef (if same_key (ident k) Filter.Timer (event e) then trigger_one 0 Filter.Timer (udata k) e else e)).
        - rewrite Eq'. apply list_elem_of_fmap. exists e. split; [done|]. apply list_elem_of_lookup. eauto.
        - destruct (same_key _ _ _); [|done]. destruct (trigger_same 0 Filter.Timer (udata k) e) as (-> & _). done. }
      destruct Hfind as (i' & e' & Hf'). destruct (find_Some _ _ _ _ _ Hf') as [Hl' Hk'].
      assert (Hfe : filter_ (event e') = filter_ k) by (by injection Hk').
      destruct (schedule_spec (if io_live w then Some (wkey w) else None) s2 o q' (ident k) (filter_ k) i' e' TimerCallback) as (s3 & due & Es & Hm3 & Hw3 & Hh3 & Ht3 & _);
        [done|exact (ei_queues _ _ Hi2 _ _ Hq')|done|unfold is_timer in *; by rewrite Hfe|unfold callback_of in *; by rewrite Hfe|apply Hi2|apply Hi2|destruct (io_live w); [right|by left]; unfold wkey; fold k o; by rewrite Hk'|].
      rewrite Es in E. injection E as <-. split; [eapply inv_moves; [exact Hi2|exact Hm3| |done|done]|].
      * cbn. eapply (queue_set i' e'); [done|done| |exact (ei_queues _ _ Hi2 _ _ Hq')]. by intros [].
      * intros Hwk. assert (Hwk2 : wake_ok s2) by (by eapply trigger_wakes). eapply wake_quiet; [exact Hwk2|exact Hm3|done|..].
        -- intros Hed. cbn. apply Forall_insert; [done|]. exact (Forall_lookup_1 _ _ _ _ Hed Hl').
        -- cbn [m_events set_events]. by rewrite (triggered_set i' e').
Qed.

(** ** Queues *)

Lemma create_good handle name s : kqueues s !! s32 handle = None -> good True s (new_queue handle name s).
Proof.
  intros Hfree Hi. pose proof Hi as []. assert (Hn : objects s !! next_obj s = None).
  { destruct (objects s !! next_obj s) eqn:E; [|done]. specialize (ei_fresh (next_obj s) ltac:(eauto)). lia. }
  assert (Hev : forall o e, has_event (new_queue handle name s) o e <-> has_event s o e).
  { intros o e. unfold has_event. cbn. destruct (decide (o = next_obj s)) as [->|]; [|by rewrite lookup_insert_ne by congruence]. rewrite lookup_insert_eq, Hn.
    split; [intros (? & [= <-] & ?%elem_of_nil); done|by intros (? & ? & _)]. }
  split.
  - split; cbn; try done.
    + intros h o [[<- <-]|[Hne Ho]]%lookup_insert_Some; [eexists; by rewrite lookup_insert_eq|]. destruct (ei_names h o Ho) as (q & Hq & Hh). exists q. rewrite lookup_insert_ne by congruence. done.
    + intros o q [[<- <-]|[Hne Hq]]%lookup_insert_Some; [cbn; by rewrite lookup_insert_eq|]. rewrite lookup_insert_ne; [auto|]. intros E. specialize (ei_named o q Hq). rewrite <- E, Hfree in ei_named. done.
    + intros o [q [[<- _]|[_ Hq]]%lookup_insert_Some]; [lia|]. specialize (ei_fresh o ltac:(eauto)). lia.
    + intros o q [[<- <-]|[_ Hq]]%lookup_insert_Some; [apply queue_nil|by apply (ei_queues o)].
    + destruct ei_timers as [H1 H2 H3 H4]. split; [|exact H2| |exact H4].
      * intros w Hw. destruct (H1 w Hw) as (e & He & Hs). exists e. by rewrite Hev.
      * intros o e He. rewrite Hev in He. by apply H3.
  - intros _ Hw o q. cbn. intros [[<- <-]|[_ Hq]]%lookup_insert_Some; [split; [constructor|cbn; unfold triggered; cbn; lia]|by apply Hw].
Qed.

Lemma delete_good eq s r s' : sceKernelDeleteEqueue eq s = Done (r, s') -> good True s s'.
Proof.
  intros E Hi. unfold sceKernelDeleteEqueue, GetEqueue in E. destruct (kqueues s !! s32 eq) as [o|] eqn:Eh; [|injection E as _ <-; by split].
  destruct (ei_names _ _ Hi _ _ Eh) as (q & Hq & Hh). unfold deref in E. rewrite Hq in E. cbn [of_option obind] in E. injection E as _ <-.
  destruct (cancels_rest o (m_events q) s) as (E1 & E2 & E3 & E4 & E5). set (s1 := foldr (cancel_event o) s (m_events q)) in *. pose proof Hi as [H1 H2 H3 H4 H5 H6].
  set (s2 := mkEq _ _ _ _ _ _).
  assert (Hev : forall o' e, has_event s2 o' e <-> o' <> o /\ has_event s o' e).
  { intros o' e. unfold has_event, s2. cbn. rewrite E1. destruct (decide (o' = o)) as [->|Hne]; [rewrite lookup_delete_eq; split; [by intros (? & ? & _)|by intros [? _]]|].
    rewrite lookup_delete_ne by congruence. tauto. }
  assert (Ht2 : timers_ok s2).
  { destruct H6 as [T1 T2 T3 T4]. split; [..|done].
    - intros w [Hw Hg]%cancels_live. destruct (T1 w Hw) as (e & He & Hs). exists e. split; [|done]. apply Hev. split; [|done]. intros Eo. destruct He as (q' & Hq' & Hin).
      rewrite Eo, Hq in Hq'. injection Hq' as <-. apply (Hg e Hin). unfold wkey. destruct Hs. congruence.
    - eapply sublist_NoDup; [|apply fmap_sublist, cancels_sublist]. exact T2.
    - intros o' e [Hne He]%Hev Hper _. destruct (T3 o' e He Hper) as (w & Hw & Ek); [done|]. exists w. split; [|done]. apply cancels_live. split; [done|]. intros g _. rewrite Ek. congruence. }
  split.
  - split; [..|exact Ht2]; unfold s2; cbn; rewrite ?E1, ?E2, ?E3.
    + intros h o' [Hne Ho]%lookup_delete_Some. destruct (H1 h o' Ho) as (q' & Hq' & Hh'). exists q'. split; [|done]. rewrite lookup_delete_ne; [done|]. intros <-. rewrite Hq in Hq'. injection Hq' as <-. congruence.
    + intros o' q' [Hne Hq']%lookup_delete_Some. rewrite lookup_delete_ne; [auto|]. intros Eh'. specialize (H2 o' q' Hq'). rewrite <- Eh', Eh in H2. congruence.
    + intros o' [q' [_ ?]%lookup_delete_Some]. eauto.
    + intros o' q' [_ Hq']%lookup_delete_Some. by apply (H4 o').
    + by apply cancels_handlers.
  - intros _ Hw o' q'. unfold s2. cbn. rewrite E1, E4. intros [_ Hq']%lookup_delete_Some. by apply Hw.
Qed.

(** ** The machine *)

(** The calls of the guest; [CSource] is a trigger by the GPU or the video output,
    [CWatch] their addition of an event. *)
Inductive EqCall :=
| CCreate (handle : Z) (eq_null : bool) (name : option string)
| CKqueue (handle : Z)
| CDelete (eq : Z)
| CWait (t eq : Z) (ev_null : bool) (num : Z) (timo : option Z)
| CAddHR (addr eq id : Z) (ts : OrbisKernelTimespec) (ud : Z)
| CDelHR (eq id : Z)
| CAddTimer (eq id usec ud : Z)
| CDelTimer (eq id : Z)
| CAddUser (eq id : Z)
| CAddEdge (eq id : Z)
| CTrigger (pick : nat) (eq id ud : Z)
| CDelUser (eq id : Z)
| CKevent (mem : Z -> OrbisKernelBintime) (pick : nat -> nat) (t handle : Z) (changes : list OrbisKernelEvent) (nevents : Z) (timeout : option OrbisKernelTimespec)
| CSource (pick : nat) (time o id filter d : Z)
| CWatch (o : Z) (k : OrbisKernelEvent).

Definition run_eq (c : EqCall) (s : EqState) : outcome (option QRes * EqState) :=
  match c with
  | CCreate handle eq_null name => sceKernelCreateEqueue handle eq_null name s
  | CKqueue handle => posix_kqueue handle s
  | CDelete eq => sceKernelDeleteEqueue eq s
  | CWait t eq ev_null num timo => sceKernelWaitEqueue t eq ev_null num timo s
  | CAddHR addr eq id ts ud => sceKernelAddHRTimerEvent addr eq id ts ud s
  | CDelHR eq id => sceKernelDeleteHRTimerEvent eq id s
  | CAddTimer eq id usec ud => sceKernelAddTimerEvent eq id usec ud s
  | CDelTimer eq id => sceKernelDeleteTimerEvent eq id s
  | CAddUser eq id => sceKernelAddUserEvent eq id s
  | CAddEdge eq id => sceKernelAddUserEventEdge eq id s
  | CTrigger pick eq id ud => sceKernelTriggerUserEvent pick eq id ud s
  | CDelUser eq id => sceKernelDeleteUserEvent eq id s
  | CKevent mem pick t handle l n timeout => posix_kevent mem pick t handle l n timeout s
  | CSource pick time o id filter d => let! '(_, s) := TriggerEvent pick time o id filter d s in Done (None, s)
  | CWatch o k => let! '(_, s) := AddEvent o no_time k s in Done (None, s)
  end.

(** A new handle is not in use. *)
Definition fresh_handle (c : EqCall) (s : EqState) : Prop :=
  match c with CCreate handle _ _ | CKqueue handle => kqueues s !! s32 handle = None | _ => True end.

(** Calls that add only edge-triggered events. *)
Definition edge_call (c : EqCall) : Prop :=
  match c with
  | CAddUser _ _ => False
  | CKevent _ _ _ _ l _ _ => Forall (fun k => has_flag k Flags.Add = true -> edge_add k) l
  | CWatch _ k => edge_add k
  | _ => True
  end.

Inductive eq_step (ok : EqCall -> Prop) (s : EqState) : EqState -> Prop :=
| es_call c r s' : ok c -> fresh_handle c s -> run_eq c s = Done (r, s') -> eq_step ok s s'
| es_advance order i r s' : advance order i s = Done (r, s') -> eq_step ok s s'
| es_fire pick i w s' : io_waits s !! i = Some w -> io_due w <= clock s -> fire pick i s = Done s' -> eq_step ok s s'
| es_drop i w : io_waits s !! i = Some w -> io_live w = false -> eq_step ok s (set_io (delete i (io_waits s)) s)
| es_tick d : 0 <= d -> eq_step ok s (mkEq (objects s) (next_obj s) (kqueues s) (io_waits s) (waiters s) (clock s + d)).

Inductive eq_reach (ok : EqCall -> Prop) : EqState -> Prop :=
| er_start now : eq_reach ok (eq_start now)
| er_step s s' : eq_reach ok s -> eq_step ok s s' -> eq_reach ok s'.

Lemma code_good E r error s s' res : code r error = Done (res, s') -> (forall b s1, r = Done (b, s1) -> good E s s1) -> good E s s'.
Proof. unfold code. destruct r as [[b s1]|]; [|done]. cbn. intros [= _ <-] H. by eapply H. Qed.

Lemma answer_good E c s r s' : answer c s = Done (r, s') -> good E s s'.
Proof. intros [= _ <-]. apply good_refl. Qed.

Lemma small_add_good o time k s b s' : AddSmallTimer o time k s = Done (b, s') -> good True s s'.
Proof.
  unfold AddSmallTimer. destruct (interval_of time); [|done]. cbn. intros E. destruct (deref_Done _ _ _ _ E) as [q Hq]. unfold deref in E. rewrite Hq in E. injection E as _ <-. by apply small_good.
Qed.

Lemma small_remove_good o id s b s' : RemoveSmallTimer o id s = Done (b, s') -> good True s s'.
Proof.
  unfold RemoveSmallTimer. destruct (HasSmallTimer o s) as [[]|]; [|intros [= _ <-]; apply good_refl|done]. cbn [obind]. intros E. destruct (deref_Done _ _ _ _ E) as [q Hq].
  unfold deref in E. rewrite Hq in E. injection E as _ <-. by apply small_good.
Qed.

Lemma change_good mem pick o k s e s' : apply_change mem pick o k s = Done (e, s') -> good (has_flag k Flags.Add = true -> edge_add k) s s'.
Proof.
  unfold apply_change. destruct (negb (SupportedEqueueFilter (filter_ k))); [intros [= _ <-]; apply good_refl|].
  destruct (if has_flag k Flags.Add then AddEvent o (mem (data k)) k s else Done (true, s)) as [[b1 s1]|] eqn:E1; [|done]. cbn [obind].
  assert (G1 : good (has_flag k Flags.Add = true -> edge_add k) s s1).
  { destruct (has_flag k Flags.Add); [eapply good_mono; [|by eapply add_good]; auto|injection E1 as _ <-; apply good_refl]. }
  destruct b1; [|intros [= _ <-]; done]. cbn [negb].
  destruct (if has_flag k Flags.Delete then RemoveEvent o (ident k) (filter_ k) s1 else Done (true, s1)) as [[b2 s2]|] eqn:E2; [|done]. cbn [obind].
  assert (G2 : good (has_flag k Flags.Add = true -> edge_add k) s s2).
  { eapply good_trans; [exact G1|]. destruct (has_flag k Flags.Delete); [eapply good_mono; [|by eapply remove_good]; auto|injection E2 as _ <-; apply good_refl]. }
  destruct b2; [|intros [= _ <-]; done]. cbn [negb]. destruct (_ && _); [|intros [= _ <-]; done].
  destruct (TriggerEvent pick 0 o (ident k) Filter.User (udata k) s2) as [[b3 s3]|] eqn:E3; [|done]. cbn [obind]. intros [= _ <-]. eapply good_trans; [exact G2|].
  eapply good_mono; [|by eapply trigger_good]. auto.
Qed.

Lemma changes_good mem pick o l s e s' : apply_changes mem pick o l s = Done (e, s') -> good (Forall (fun k => has_flag k Flags.Add = true -> edge_add k) l) s s'.
Proof.
  revert s. induction l as [|k l IH]; intros s; cbn [apply_changes]; [intros [= _ <-]; apply good_refl|].
  destruct (apply_change mem (pick (length l)) o k s) as [[e1 s1]|] eqn:E1; [|done]. cbn [obind]. apply change_good in E1.
  assert (G1 : good (Forall (fun k => has_flag k Flags.Add = true -> edge_add k) (k :: l)) s s1) by (eapply good_mono; [|exact E1]; intros H%Forall_cons; apply H).
  destruct e1; [intros [= _ <-]; done|]. intros E. eapply good_trans; [exact G1|]. eapply good_mono; [|by eapply IH]. by intros [_ ?]%Forall_cons.
Qed.

Lemma call_good c s r s' : fresh_handle c s -> run_eq c s = Done (r, s') -> good (edge_call c) s s'.
Proof.
  intros Hf E.
  assert (Htrue : forall P : Prop, good True s s' -> good P s s') by (intros P H; by eapply good_mono; [|exact H]).
  assert (Hadd : forall o time k err, code (AddEvent o time k s) err = Done (r, s') -> edge_add k -> good (edge_call c) s s').
  { intros o time k err E' Hk. eapply code_good; [exact E'|]. intros b s1 E1. eapply good_mono; [|by eapply add_good]. done. }
  assert (Hrem : forall o id f err P, code (RemoveEvent o id f s) err = Done (r, s') -> good P s s').
  { intros o id f err P E'. apply Htrue. eapply code_good; [exact E'|]. intros b s1. apply remove_good. }
  destruct c; cbn [run_eq edge_call fresh_handle] in *.
  - unfold sceKernelCreateEqueue in E. apply Htrue. destruct eq_null; [by eapply answer_good|]. destruct name as [name|]; [|by eapply answer_good]. destruct (_ <? _); [by eapply answer_good|].
    injection E as _ <-. by apply create_good.
  - injection E as _ <-. by apply create_good.
  - by eapply delete_good.
  - unfold sceKernelWaitEqueue in E. destruct (GetEqueue eq s); [|by eapply answer_good]. destruct ev_null; [by eapply answer_good|]. destruct (num <? 1); [injection E as _ <-; apply good_refl|by eapply wait_good].
  - unfold sceKernelAddHRTimerEvent in E. destruct (GetEqueue eq s); [|by eapply answer_good]. destruct (checked (tv_sec ts * 1000000000)) as [ns|]; [|done]. cbn [obind] in E.
    destruct (checked (ns + tv_nsec ts)) as [total|]; [|done]. cbn [obind] in E. destruct (checked (tv_nsec ts * 18446744073)) as [f|]; [|done]. cbn [obind] in E.
    destruct (_ <? _); [eapply code_good; [exact E|]; intros b s1; apply small_add_good|]. eapply Hadd; [exact E|]. by left.
  - unfold sceKernelDeleteHRTimerEvent in E. destruct (GetEqueue eq s) as [o|]; [|by eapply answer_good]. destruct (HasSmallTimer o s) as [[]|]; [| |done]; cbn [obind] in E; [|by eapply Hrem].
    eapply code_good; [exact E|]. intros b s1. apply small_remove_good.
  - unfold sceKernelAddTimerEvent in E. destruct (GetEqueue eq s); [|by eapply answer_good]. eapply Hadd; [exact E|]. by left.
  - unfold sceKernelDeleteTimerEvent in E. destruct (GetEqueue eq s); [by eapply Hrem|by eapply answer_good].
  - unfold sceKernelAddUserEvent in E. destruct (GetEqueue eq s); [|by eapply answer_good]. eapply code_good; [exact E|]. intros b s1 E1. eapply good_mono; [|by eapply add_good]. done.
  - unfold sceKernelAddUserEventEdge in E. destruct (GetEqueue eq s); [|by eapply answer_good]. eapply Hadd; [exact E|]. right. by left.
  - unfold sceKernelTriggerUserEvent in E. destruct (GetEqueue eq s); [|by eapply answer_good]. eapply code_good; [exact E|]. intros b s1. apply trigger_good.
  - unfold sceKernelDeleteUserEvent in E. destruct (GetEqueue eq s); [by eapply Hrem|by eapply answer_good].
  - unfold posix_kevent in E. destruct (GetEqueue handle s) as [o|]; [|injection E as _ <-; apply good_refl].
    destruct (apply_changes mem pick o changes s) as [[e s1]|] eqn:E1; [|done]. cbn [obind] in E. apply changes_good in E1. destruct e; [injection E as _ <-; done|].
    eapply good_trans; [exact E1|]. destruct (0 <? nevents); [|by eapply answer_good].
    destruct timeout as [ts|]; [destruct (kevent_micros ts) as [m|]; [|done]; cbn [obind] in E|]; (eapply good_mono; [|by eapply wait_good]; done).
  - destruct (TriggerEvent pick time o id filter d s) as [[b s1]|] eqn:E1; [|done]. injection E as _ <-. by eapply trigger_good.
  - destruct (AddEvent o no_time k s) as [[b s1]|] eqn:E1; [|done]. injection E as _ <-. by eapply add_good.
Qed.

Lemma fire_good pick i s s' : fire pick i s = Done s' -> good True s s'.
Proof.
  intros E Hi. unfold fire in E. destruct (io_waits s !! i) as [w|] eqn:Hl; [|done]. cbn [of_option obind] in E.
  destruct (callback_good pick w s' (set_io (delete i (io_waits s)) s)) as [H1 H2]; [..|done|split; [done|]; intros _ Hw; by apply H2].
  - apply Forall_singleton. exact (Forall_lookup_1 _ _ _ _ (ei_handlers _ _ Hi) Hl).
  - by apply fired_inv.
  - intros Hlive. destruct (to_owner _ _ (ei_timers _ _ Hi) w) as (e & He & Hs); [|by exists e]. unfold live_of. rewrite list_elem_of_In, filter_In, <- list_elem_of_In. split; [|done].
    apply list_elem_of_lookup. eauto.
Qed.

Lemma step_good (ok : EqCall -> Prop) s s' : eq_step ok s s' -> good (forall c, ok c -> edge_call c) s s'.
Proof.
  intros [c r s1 Hok Hf E|order i r s1 E|pick i w s1 Hl Hd E|i w Hl Hlive|d Hd].
  - eapply good_mono; [|by eapply call_good]. auto.
  - eapply good_mono; [|by eapply advance_good]. done.
  - eapply good_mono; [|by eapply fire_good]. done.
  - intros Hi. split; [|done]. pose proof (fired_inv s i w Hi Hl) as H. by rewrite Hlive in H.
  - intros [? ? ? ? ? [? ? ? ?]]. split; [by split|done].
Qed.

Lemma reach_inv ok s : eq_reach ok s -> eq_inv s /\ ((forall c, ok c -> edge_call c) -> wake_ok s).
Proof.
  induction 1 as [now|s s' _ [Hi Hw] Hs].
  - split; [|intros _ o q Hq; cbn in Hq; by rewrite lookup_empty in Hq]. split; cbn; try done.
    + intros o [q Hq]. by rewrite lookup_empty in Hq.
    + split; [by intros w ?%elem_of_nil|constructor| |by intros w ?%elem_of_nil]. intros o e (q & Hq & _). cbn in Hq. by rewrite lookup_empty in Hq.
  - destruct (step_good ok s s' Hs Hi) as [Hi' Hw']. split; [done|]. auto.
Qed.

(** ** Properties *)

Definition any_call (c : EqCall) : Prop := True.

(** over all histories a queue holds at most one event for each identifier and
    filter, every event but user events is cleared when it is delivered, an event
    that is not triggered carries no data, and every periodic timer has exactly one
    pending handler, due at the timer's expiry, so that it never stops. *)
Theorem equeue_ordered s o q : eq_reach any_call s -> objects s !! o = Some q ->
  NoDup ((fun e => (ident (event e), filter_ (event e))) <$> m_events q)
  /\ (forall e, e ∈ m_events q -> (filter_ (event e) <> Filter.User -> has_flag (event e) Flags.Clear = true) /\ (is_triggered e = false -> data (event e) = 0))
  /\ forall e, e ∈ m_events q -> filter_ (event e) = Filter.Timer -> has_flag (event e) Flags.OneShot = false ->
     exists w, w ∈ io_waits s /\ io_live w = true /\ io_obj w = o /\ key (io_event w) = key (event e) /\ timer e = Some (io_due w)
       /\ forall w', w' ∈ io_waits s -> io_live w' = true -> io_obj w' = o -> key (io_event w') = key (event e) -> w' = w.
Proof.
  intros Hr Hq. destruct (reach_inv _ _ Hr) as [Hi _]. pose proof (ei_queues _ _ Hi _ _ Hq) as Hqo. pose proof (ei_timers _ _ Hi) as [T1 T2 T3 _].
  assert (Hlive : forall w, w ∈ live_of s <-> w ∈ io_waits s /\ io_live w = true) by (intros w; unfold live_of; by rewrite !list_elem_of_In, filter_In).
  split; [apply Hqo|]. split.
  - intros e He. destruct Hqo as [_ Hev]. rewrite Forall_forall in Hev. by destruct (Hev e He).
  - intros e He Hf Ho. destruct (T3 o e) as (w & Hw & Ek); [by exists q|done|done|]. unfold wkey in Ek. apply pair_equal_spec in Ek as [Eo Ek]. destruct (T1 w Hw) as (e' & (q' & Hq' & He') & []).
    rewrite Eo, Hq in Hq'. injection Hq' as <-. assert (e' = e) as -> by (apply (keys_inj (m_events q)); [done|done|done|congruence]).
    apply Hlive in Hw as Hw'. destruct Hw' as [Hin Hl]. exists w. do 4 (split; [done|]). split; [done|]. intros w' Hin' Hl' Eo' Ek'.
    assert (Hlw : w' ∈ live_of s) by (by apply Hlive). apply list_elem_of_lookup in Hw as [i Hi1]. apply list_elem_of_lookup in Hlw as [j Hj].
    assert (i = j) as ->; [|congruence]. eapply NoDup_lookup; [exact T2|rewrite list_lookup_fmap, Hi1; done|]. rewrite list_lookup_fmap, Hj. cbn. unfold wkey. by rewrite Eo', Ek', Eo, Ek.
Qed.

(** C32: no event is missed: while all events are edge-triggered and a thread sleeps
    on a queue without having been notified, there are at most as many triggered
    events as threads that were notified and have yet to run; a sleeper that nobody
    will disturb sleeps on a queue without triggered events. *)
Theorem no_event_missed s o q : eq_reach edge_call s -> objects s !! o = Some q -> (0 < sleepers o (waiters s))%nat ->
  (length (List.filter is_triggered (m_events q)) <= notified o (waiters s))%nat.
Proof. intros Hr Hq Hs. destruct (reach_inv _ _ Hr) as [_ Hw]. by apply (Hw ltac:(done) o q Hq). Qed.

Definition timer_expired (now : Z) (st : SmallTimer) : Prop := interval st <= now - added_at st.

(** One round takes expired short timers away, as many as fit, and yields their
    events. *)
Lemma collect_small_spec now order : forall num m out m', collect_small now num order m = (out, m') ->
  exists ids, NoDup ids /\ m' = foldr delete m ids /\ Forall2 (fun id ev => exists st, m !! id = Some st /\ timer_expired now st /\ ev = st_event st) ids out
    /\ (length out <= num)%nat /\ (length out = num \/ forall id st, id ∈ order -> m' !! id = Some st -> ~ timer_expired now st).
Proof.
  induction order as [|id order IH]; intros num m out m' E.
  - assert (out = [] /\ m' = m) as [-> ->] by (destruct num; injection E as <- <-; done). exists []. split; [by apply NoDup_nil|]. split; [done|]. split; [by apply Forall2_nil|]. split; [cbn; lia|]. right. intros id st Hin. by apply not_elem_of_nil in Hin.
  - destruct num as [|n]; [injection E as <- <-; exists []; split; [by apply NoDup_nil|]; split; [done|]; split; [by apply Forall2_nil|]; split; [done|by left]|]. cbn [collect_small] in E.
    assert (Hskip : collect_small now (S n) order m = (out, m') -> (forall st, m !! id = Some st -> ~ timer_expired now st) ->
      exists ids, NoDup ids /\ m' = foldr delete m ids /\ Forall2 (fun id ev => exists st, m !! id = Some st /\ timer_expired now st /\ ev = st_event st) ids out
        /\ (length out <= S n)%nat /\ (length out = S n \/ forall id' st, id' ∈ id :: order -> m' !! id' = Some st -> ~ timer_expired now st)).
    { intros E' Hn. destruct (IH _ _ _ _ E') as (ids & H1 & H2 & H3 & H4 & H5). exists ids. split_and!; try done. destruct H5 as [?|H5]; [by left|right].
      intros id' st [->|Hin]%elem_of_cons Hst; [|by apply (H5 id')]. apply Hn. rewrite H2 in Hst. by apply lookup_foldr_delete_Some in Hst as [_ ?]. }
    destruct (m !! id) as [st|] eqn:Em; [|by apply Hskip]. destruct (Z.leb_spec (interval st) (now - added_at st)) as [Hx|Hx].
    + destruct (collect_small now n order (delete id m)) as [out1 m1] eqn:E1. injection E as <- <-. destruct (IH _ _ _ _ E1) as (ids & H1 & H2 & H3 & H4 & H5).
      assert (Hid : id ∉ ids). { intros Hin. apply list_elem_of_lookup in Hin as [k Hk]. destruct (Forall2_lookup_l _ _ _ _ _ H3 Hk) as (ev & _ & st' & Hl & _). by rewrite lookup_delete_eq in Hl. }
      exists (id :: ids). split_and!.
      * by apply NoDup_cons.
      * cbn. by rewrite delete_foldr_delete.
      * constructor; [by exists st|]. eapply Forall2_impl; [exact H3|]. intros x ev (st' & [_ Hl]%lookup_delete_Some & ?). by exists st'.
      * cbn. lia.
      * destruct H5 as [H5|H5]; [left; cbn; lia|right]. intros id' st' [->|Hin]%elem_of_cons Hst; [|by apply (H5 id')]. rewrite H2 in Hst. apply lookup_foldr_delete_Some in Hst as [_ Hst]. by rewrite lookup_delete_eq in Hst.
    + apply Hskip; [done|]. intros st' [= <-]. unfold timer_expired. lia.
Qed.

(** When a wait without a result wakes up, and not at all without a time-out. *)
Definition deadline_of (timo : option Z) (s : EqState) : option Z := if default 0 timo =? 0 then None else Some (clock s + 1000 * default 0 timo).

Lemma wait_entry t o q num timo c l s s' : objects s !! o = Some q -> timo <> Some 0 -> GetTriggeredEvents o num s = Done (l, s') ->
  (m_small_timers q = ∅ -> WaitForEvents t o num timo c s =
     Done (if bool_decide (l = []) then (None, sleep (mkWaiter t o num (OnCond (deadline_of timo s) false) c) s') else (Some (returned c l), s')))
  /\ (m_small_timers q <> ∅ -> 1 <= num -> WaitForEvents t o num timo c s = Done (None, sleep (mkWaiter t o num (OnSmall (deadline_of timo s)) c) s)).
Proof.
  intros Hq Ht E. unfold WaitForEvents, HasSmallTimer, deref. rewrite bool_decide_eq_false_2 by done. rewrite Hq. cbn [of_option obind]. split.
  - intros Hm. rewrite bool_decide_eq_true_2 by done. cbn [negb]. rewrite E. cbn [obind]. by destruct l.
  - intros Hm Hn. rewrite bool_decide_eq_false_2 by done. cbn [negb]. by rewrite (proj2 (Z.leb_le 1 num)).
Qed.

(** What a thread that waits for short timers collects. *)
Lemma small_wait_step i w wait_end order o q s : waiters s !! i = Some w -> wt_kind w = OnSmall wait_end -> wt_obj w = o -> objects s !! o = Some q ->
  (forall id, is_Some (m_small_timers q !! id) -> id ∈ order) ->
  exists ids out s2, NoDup ids /\ Forall2 (fun id ev => exists st, m_small_timers q !! id = Some st /\ timer_expired (clock s) st /\ ev = st_event st) ids out
    /\ (length out <= Z.to_nat (wt_num w))%nat
    /\ (length out = Z.to_nat (wt_num w) \/ forall id st, foldr delete (m_small_timers q) ids !! id = Some st -> ~ timer_expired (clock s) st)
    /\ s2 = set_object o (set_small (foldr delete (m_small_timers q) ids) q) s
    /\ advance order i s = Done (if bool_decide (out = []) && match wait_end with Some d => clock s <? d | None => true end
                                 then (None, s2) else (Some (returned (wt_caller w) out), set_waiters (delete i (waiters s2)) s2)).
Proof.
  intros Hw Hk Ho Hq Hord. destruct (collect_small (clock s) (Z.to_nat (wt_num w)) order (m_small_timers q)) as [out m'] eqn:Ec.
  destruct (collect_small_spec _ _ _ _ _ _ Ec) as (ids & H1 & -> & H3 & H4 & H5). eexists ids, out, _. split_and!; try done.
  - destruct H5 as [?|H5]; [by left|right]. intros id st Hst. apply (H5 id st); [|done]. apply Hord. apply lookup_foldr_delete_Some in Hst as [_ Hst]. by eexists.
  - unfold advance, small_round, deref. rewrite Hw. cbn [of_option obind]. rewrite Hk, Ho, Hq. cbn [of_option obind]. rewrite Ec. cbn [obind].
    destruct out as [|ev out]; [|done]. rewrite bool_decide_eq_true_2 by done. cbn. destruct wait_end as [d|]; [|done]. rewrite Z.ltb_antisym. by destruct (d <=? clock s).
Qed.

(** C33: what a wait collects.  A poll, a wait on a queue without short timers that
    finds something at once, and the step of a thread that sleeps on the queue collect
    the oldest triggered events, as many as fit: the first ones triggered in the order
    of their addition; each is cleared or erased as its flags say, the others are
    untouched.  Such a wait returns none only when none is triggered and it is a poll
    or its time is over; else it sleeps.  A wait, other than a poll, that finds a short
    timer in the queue does not look at the events at all: its steps take expired
    short timers away, as many as fit, and it returns none only when none has expired
    and its time is over. *)
Theorem wait_collects s o q num : eq_reach any_call s -> objects s !! o = Some q ->
  (exists l s' q' pre suf, m_events q = pre ++ suf /\ objects s' !! o = Some q' /\ m_events q' = concat (settled_one <$> pre) ++ suf
  /\ l = event <$> List.filter is_triggered pre /\ (suf = [] \/ Z.of_nat (length l) = num) /\ (0 < num -> Z.of_nat (length l) <= num)
  /\ (forall t c, WaitForEvents t o num (Some 0) c s = Done (Some (returned c l), s'))
  /\ (forall t c timo, timo <> Some 0 ->
       (m_small_timers q = ∅ -> WaitForEvents t o num timo c s =
          Done (if bool_decide (l = []) then (None, sleep (mkWaiter t o num (OnCond (deadline_of timo s) false) c) s') else (Some (returned c l), s')))
       /\ (m_small_timers q <> ∅ -> 1 <= num -> WaitForEvents t o num timo c s = Done (None, sleep (mkWaiter t o num (OnSmall (deadline_of timo s)) c) s)))
  /\ forall i w deadline n order, waiters s !! i = Some w -> wt_kind w = OnCond deadline n -> wt_obj w = o -> wt_num w = num ->
     advance order i s = Done (if bool_decide (l = []) && match deadline with Some d => clock s <? d | None => true end
                               then (None, set_waiters (<[i := set_notified false w]> (waiters s')) s')
                               else (Some (returned (wt_caller w) l), set_waiters (delete i (waiters s')) s')))
  /\ forall i w wait_end order, waiters s !! i = Some w -> wt_kind w = OnSmall wait_end -> wt_obj w = o ->
     (forall id, is_Some (m_small_timers q !! id) -> id ∈ order) ->
     exists ids out s2, NoDup ids /\ Forall2 (fun id ev => exists st, m_small_timers q !! id = Some st /\ timer_expired (clock s) st /\ ev = st_event st) ids out
       /\ (length out <= Z.to_nat (wt_num w))%nat
       /\ (length out = Z.to_nat (wt_num w) \/ forall id st, foldr delete (m_small_timers q) ids !! id = Some st -> ~ timer_expired (clock s) st)
       /\ s2 = set_object o (set_small (foldr delete (m_small_timers q) ids) q) s
       /\ advance order i s = Done (if bool_decide (out = []) && match wait_end with Some d => clock s <? d | None => true end
                                    then (None, s2) else (Some (returned (wt_caller w) out), set_waiters (delete i (waiters s2)) s2)).
Proof.
  intros Hr Hq. destruct (reach_inv _ _ Hr) as [Hi _]. split; [|intros i w wait_end order Hw Hk Ho Hord; by apply small_wait_step].
  assert (exists l s', GetTriggeredEvents o num s = Done (l, s')) as (l & s' & E).
  { unfold GetTriggeredEvents, deref. rewrite Hq. cbn [of_option obind]. destruct (collect_events 0 num (m_events q)) as [[out kept] gone]. eauto. }
  destruct (GetTriggered_spec _ _ _ _ _ _ Hi Hq E) as (_ & Hw & q' & gone & Hm & Ec & _).
  destruct (collect_spec _ _ _ _ _ _ Ec) as (pre & suf & H1 & H2 & H3 & _ & H4 & H5). exists l, s', q', pre, suf. split; [done|]. split; [by eapply moves_new|]. split; [done|]. split; [done|].
  split; [destruct H4 as [?|[_ ?]]; [by left|right; lia]|]. split; [lia|]. split; [|split].
  - intros t c. unfold WaitForEvents. rewrite bool_decide_eq_true_2 by done. by rewrite E.
  - intros t c timo Ht. by eapply wait_entry.
  - intros i w deadline n order Hl Hk <- <-. unfold advance. rewrite Hl. cbn [of_option obind]. rewrite Hk, E. cbn [obind]. assert (Hclk : clock s' = clock s) by apply Hm.
    rewrite Hclk. destruct l as [|e l]; [|done]. rewrite bool_decide_eq_true_2 by done. cbn. destruct deadline as [d|]; [|done]. rewrite Z.ltb_antisym. by destruct (d <=? clock s).
Qed.

(** A periodic event whose timer is set is scheduled for its next tick. *)
Lemma schedule_handler skip s o q id f i e due : objects s !! o = Some q -> queue_ok (m_events q) -> find_event id f (m_events q) = Some (i, e) ->
  periodic e -> timer e = Some due -> Forall handler_ok (io_waits s) -> timers_but skip s -> skip = None \/ skip = Some (o, key (event e)) ->
  exists s' q' e' w, ScheduleEvent o id f TimerCallback s = Done (true, s') /\ objects s' !! o = Some q' /\ e' ∈ m_events q' /\ event e' = event e
    /\ is_triggered e' = is_triggered e /\ timer e' = Some (due + timer_interval e)
    /\ w ∈ io_waits s' /\ io_live w = true /\ wkey w = (o, key (event e)) /\ io_due w = due + timer_interval e.
Proof.
  intros Hq Hqo Hf [Hft Hos] Ht Hh Htm Hskip. destruct (find_Some _ _ _ _ _ Hf) as [Hl _].
  destruct (schedule_spec skip s o q id f i e TimerCallback) as (s' & d & Es & Hm & _ & _ & Htm' & Hdue); [done|done|done|unfold is_timer; by rewrite Hft|unfold callback_of; by rewrite Hft|done|done|done|].
  rewrite Ht in Hdue. subst d. set (e' := mkEvent _ _ _ _ _) in Hm. pose proof (moves_new _ _ _ _ _ Hm) as Hq'.
  assert (He' : e' ∈ <[i := e']> (m_events q)) by (by eapply set_mem).
  destruct (to_periodic _ _ Htm' o e') as (w & Hw & Ekw); [by eexists; split; [exact Hq'|]|done|done|]. destruct (to_owner _ _ Htm' w Hw) as (x & (q4 & Hq4 & Hx) & [Sk Sd _ _]).
  unfold wkey in Ekw. apply pair_equal_spec in Ekw as [Eo Ekw]. rewrite Eo, Hq' in Hq4. injection Hq4 as <-.
  assert (x = e') as ->.
  { eapply keys_inj; [|exact Hx|exact He'|congruence]. cbn. eapply (queue_set i e); [done|done| |done]. by intros []. }
  exists s'. eexists _, e', w. unfold live_of in Hw. rewrite list_elem_of_In, filter_In, <- list_elem_of_In in Hw. destruct Hw as [Hin Hlive].
  do 8 (split; [done|]). split; [unfold wkey; by rewrite Eo, Ekw|]. cbn in Sd. by injection Sd as <-.
Qed.

(** a periodic timer ticks on schedule: whenever its handler runs, however late,
    it completes, the event is triggered with its count of ticks one higher, and the
    next tick is due one interval after this one was. *)
Theorem timer_ticks s o q e i w pick : eq_reach any_call s -> objects s !! o = Some q -> e ∈ m_events q -> filter_ (event e) = Filter.Timer ->
  has_flag (event e) Flags.OneShot = false -> io_waits s !! i = Some w -> io_live w = true -> io_obj w = o -> key (io_event w) = key (event e) ->
  exists s' q' e' w', fire pick i s = Done s' /\ objects s' !! o = Some q' /\ e' ∈ m_events q' /\ key (event e') = key (event e)
    /\ is_triggered e' = true /\ data (event e') = wadd (data (event e)) 1 /\ timer e' = Some (io_due w + timer_interval e)
    /\ w' ∈ io_waits s' /\ io_live w' = true /\ wkey w' = wkey w /\ io_due w' = io_due w + timer_interval e.
Proof.
  intros Hr Hq He Hf Ho Hl Hlive Eo Ek. destruct (reach_inv _ _ Hr) as [Hi _]. pose proof (fired_inv s i w Hi Hl) as Hi1. rewrite Hlive in Hi1.
  set (s1 := set_io (delete i (io_waits s)) s) in *. assert (Hq1 : objects s1 !! o = Some q) by done. set (k := io_event w) in *.
  assert (Hw : w ∈ live_of s) by (unfold live_of; rewrite list_elem_of_In, filter_In, <- list_elem_of_In; split; [|done]; apply list_elem_of_lookup; eauto).
  destruct (to_owner _ _ (ei_timers _ _ Hi) w Hw) as (e0 & (q0 & Hq0 & He0) & [S1 S2 S3 S4]). rewrite Eo, Hq in Hq0. injection Hq0 as <-. fold k in S1, S3, S4.
  pose proof (ei_queues _ _ Hi _ _ Hq) as Hqo. assert (e0 = e) as -> by (apply (keys_inj (m_events q)); [done|done|done|congruence]).
  assert (Hfk : filter_ k = Filter.Timer) by (injection Ek as _ Ek; congruence). assert (Hok : has_flag k Flags.OneShot = false) by (unfold has_flag in *; by rewrite <- S3).
  unfold callback_of in S4. rewrite Hfk in S4. cbn in S4.
  unfold fire. rewrite Hl. cbn [of_option obind]. fold s1. unfold run_callback. rewrite Eo. unfold deref. rewrite Hq1. cbn [of_option obind]. unfold GetEqueue.
  rewrite (ei_named _ _ Hi1 _ _ Hq1), S4. fold k. unfold EventExists, deref. rewrite Hq1. cbn [of_option obind].
  destruct (find_event (ident k) (filter_ k) (m_events q)) as [[j x]|] eqn:Efind; [|exfalso; rewrite find_None in Efind; apply (Efind e He); by rewrite <- Ek].
  rewrite bool_decide_eq_true_2 by eauto.
  assert (exists b s2, TriggerEvent pick 0 o (ident k) Filter.Timer (udata k) s1 = Done (b, s2)) as (b & s2 & Et) by (unfold TriggerEvent, deref; rewrite Hq1; cbn [of_option obind]; eauto).
  rewrite Et. cbn [obind]. rewrite Hok. cbn [negb].
  destruct (TriggerEvent_spec _ _ _ _ _ _ _ _ _ _ _ Hi1 Hq1 Et) as (Hi2 & _ & _ & q2 & Hm2 & Eq2 & _). pose proof (moves_new _ _ _ _ _ Hm2) as Hq2.
  set (e2 := trigger_one 0 Filter.Timer (udata k) e). destruct (trigger_same 0 Filter.Timer (udata k) e) as (Tk & Tt & Tf). fold e2 in Tk, Tt, Tf.
  assert (He2 : e2 ∈ m_events q2).
  { rewrite Eq2. apply list_elem_of_fmap. exists e. split; [|done]. rewrite (proj2 (same_key_spec _ _ _)); [done|]. rewrite <- Ek. unfold key. by rewrite Hfk. }
  assert (Ek2 : key (event e2) = key k) by congruence.
  assert (Hf2 : filter_ (event e2) = Filter.Timer) by (rewrite <- Hfk; exact (f_equal snd Ek2)).
  pose proof (ei_queues _ _ Hi2 _ _ Hq2) as Hqo2.
  destruct (find_event (ident k) (filter_ k) (m_events q2)) as [[j2 x2]|] eqn:Ef2; [|exfalso; rewrite find_None in Ef2; by apply (Ef2 e2 He2)].
  destruct (find_Some _ _ _ _ _ Ef2) as [Hl2 Hk2]. assert (x2 = e2) as -> by (apply (keys_inj (m_events q2)); [done|apply list_elem_of_lookup; eauto|done|by rewrite Ek2, Hk2]).
  destruct (schedule_handler (Some (wkey w)) s2 o q2 (ident k) (filter_ k) j2 e2 (io_due w)) as (s3 & q3 & e3 & w' & Es & Hq3 & He3 & Ev3 & Et3 & Ed3 & Hw' & Hl' & Ek3 & Ew3);
    [done|done|done|split; [exact Hf2|unfold has_flag in *; by rewrite Tf]|congruence|apply Hi2|apply Hi2|right; unfold wkey; by rewrite Ek2, Eo|].
  rewrite Es. cbn [obind]. exists s3, q3, e3, w'. split; [done|]. split; [done|]. split; [done|]. rewrite Ev3. split; [done|]. split; [by rewrite Et3|]. split; [done|].
  split; [done|]. split; [done|]. split; [done|]. split; [unfold wkey at 2; by rewrite Ek3, Ek2, Eo|done].
Qed.

(** the interval of a high-resolution timer: for times of up to half a second
    after the full second the conversion to binary fractions and back loses exactly
    one nanosecond, none for full seconds. *)
Theorem hr_interval ts : 0 <= tv_sec ts < 1000000000 -> 0 <= tv_nsec ts <= 500000000 ->
  (let! f := checked (tv_nsec ts * 18446744073) in interval_of (mkBintime (tv_sec ts) f)) = Done (tv_sec ts * 1000000000 + Z.max 0 (tv_nsec ts - 1)).
Proof.
  intros Hs Hn. unfold checked at 1, INT64_MAX. rewrite (proj2 (Z.leb_le _ _)), (proj2 (Z.leb_le _ _)) by lia. cbn [andb obind]. unfold interval_of. cbn [frac sec].
  unfold checked, INT64_MAX. rewrite !Z.shiftr_div_pow2 by lia. change (2 ^ 32) with 4294967296. set (a := tv_nsec ts * 18446744073 / 4294967296).
  assert (Ha : 4294967296 * a <= tv_nsec ts * 18446744073 < 4294967296 * a + 4294967296) by (unfold a; Z.div_mod_to_equations; lia).
  assert (Hq : 1000000000 * a / 4294967296 = Z.max 0 (tv_nsec ts - 1)).
  { symmetry. apply Z.div_unique with (1000000000 * a - 4294967296 * Z.max 0 (tv_nsec ts - 1)); [|lia]. left. nia. }
  rewrite Hq. clear a Ha Hq. rewrite (proj2 (Z.leb_le _ _)), (proj2 (Z.leb_le _ _)) by lia. cbn [andb obind]. rewrite (proj2 (Z.leb_le _ _)), (proj2 (Z.leb_le _ _)) by lia. cbn [andb]. f_equal. lia.
Qed.

(** ** The names of the queues

    Only the creation and the deletion of a queue change the table of names. *)

Definition ends {A} (m : outcome A) (Q : A -> Prop) : Prop := match m with Done a => Q a | Raised _ => True end.

Lemma ends_bind {A B} (m : outcome A) (k : A -> outcome B) (P : A -> Prop) (Q : B -> Prop) : ends m P -> (forall a, P a -> ends (k a) Q) -> ends (obind m k) Q.
Proof. destruct m; cbn; auto. Qed.

Lemma ends_any {A B} (m : outcome A) (k : A -> outcome B) (Q : B -> Prop) : (forall a, ends (k a) Q) -> ends (obind m k) Q.
Proof. destruct m; cbn; auto. Qed.

Definition keeps {A} (s : EqState) (r : A * EqState) : Prop := kqueues r.2 = kqueues s.

Lemma ends_keeps {A B} (m : outcome (A * EqState)) (k : A * EqState -> outcome (B * EqState)) s : ends m (keeps s) -> (forall a s1, kqueues s1 = kqueues s -> ends (k (a, s1)) (keeps s1)) -> ends (obind m k) (keeps s).
Proof.
  intros H Hk. eapply ends_bind; [exact H|]. intros [a s1] E. specialize (Hk a s1 E). destruct (k (a, s1)) as [[b s2]|]; [|done]. unfold keeps in *. cbn in *. congruence.
Qed.

Lemma kept_cancel o l s : kqueues (foldr (cancel_event o) s l) = kqueues s.
Proof. by induction l. Qed.

Lemma Schedule_keeps o id filter cb s : ends (ScheduleEvent o id filter cb s) (keeps s).
Proof. unfold ScheduleEvent. apply ends_any. intros q. destruct (find_event _ _ _) as [[i e]|]; [|done]. apply ends_any. intros _. by destruct (timer e). Qed.

Lemma Add_keeps o time k s : ends (AddEvent o time k s) (keeps s).
Proof.
  unfold AddEvent. apply ends_any. intros q. apply ends_any. intros i. destruct (find_event _ _ _) as [[j e]|]; [done|]. cbn zeta. destruct (_ =? _); [exact (Schedule_keeps _ _ _ _ _)|]. destruct (_ =? _); [exact (Schedule_keeps _ _ _ _ _)|done].
Qed.

Lemma Remove_keeps o id filter s : ends (RemoveEvent o id filter s) (keeps s).
Proof. unfold RemoveEvent. apply ends_any. intros q. by destruct (find_event _ _ _) as [[i e]|]. Qed.

Lemma Trigger_keeps pick time o id filter d s : ends (TriggerEvent pick time o id filter d s) (keeps s).
Proof. unfold TriggerEvent. by apply ends_any. Qed.

Lemma Collect_keeps o num s : ends (GetTriggeredEvents o num s) (keeps s).
Proof. unfold GetTriggeredEvents. apply ends_any. intros q. destruct (collect_events _ _ _) as [[out kept] gone]. unfold keeps. cbn. by rewrite kept_cancel. Qed.

Lemma AddSmall_keeps o time k s : ends (AddSmallTimer o time k s) (keeps s).
Proof. unfold AddSmallTimer. apply ends_any. intros i. by apply ends_any. Qed.

Lemma RemoveSmall_keeps o id s : ends (RemoveSmallTimer o id s) (keeps s).
Proof. unfold RemoveSmallTimer. apply ends_any. intros []; [by apply ends_any|done]. Qed.

Lemma Wait_keeps t o num timo c s : ends (WaitForEvents t o num timo c s) (keeps s).
Proof.
  unfold WaitForEvents. destruct (bool_decide _); [apply ends_keeps; [apply Collect_keeps|done]|]. apply ends_any. intros []; [by apply ends_any|]. apply ends_keeps; [apply Collect_keeps|]. by intros [|] s1 _.
Qed.

Lemma advance_keeps order i s : ends (advance order i s) (keeps s).
Proof.
  unfold advance. apply ends_any. intros w. destruct (wt_kind w) as [deadline b|wait_end].
  - apply ends_keeps; [apply Collect_keeps|]. intros [|] s1 _; [by destruct (match deadline with Some _ => _ | None => _ end)|done].
  - unfold small_round. destruct (deref _ _) as [q|]; [|done]. cbn [obind]. destruct (collect_small _ _ _ _) as [out m]. cbn. destruct out; [by destruct wait_end as [e|]; [destruct (e <=? _)|]|done].
Qed.

Lemma fire_keeps pick i s : ends (fire pick i s) (fun s' => kqueues s' = kqueues s).
Proof.
  unfold fire, run_callback. apply ends_any. intros w. apply ends_any. intros q. destruct (GetEqueue _ _) as [o|]; [|done]. destruct (io_callback w).
  - eapply ends_bind; [apply Trigger_keeps|]. by intros [b s1] E.
  - apply ends_any. intros []; [|done]. eapply ends_bind; [apply Trigger_keeps|]. intros [b s1] E. destruct (negb _); [|done]. eapply ends_bind; [apply Schedule_keeps|]. intros [b' s2] E'. unfold keeps in *. cbn in *. by rewrite E', E.
Qed.

Lemma code_keeps r e s : ends r (keeps s) -> ends (code r e) (keeps s).
Proof. intros H. unfold code. eapply ends_bind; [exact H|]. by intros [b s1]. Qed.

Lemma change_keeps mem pick o k s : ends (apply_change mem pick o k s) (keeps s).
Proof.
  unfold apply_change. destruct (negb _); [done|]. apply ends_keeps; [destruct (has_flag _ _); [apply Add_keeps|done]|]. intros b1 s1 _. destruct (negb b1); [done|]. apply ends_keeps; [destruct (has_flag _ _); [apply Remove_keeps|done]|].
  intros b2 s2 _. destruct (negb b2); [done|]. destruct (_ && _); [|done]. by apply ends_keeps; [apply Trigger_keeps|].
Qed.

Lemma changes_keep mem pick o l s : ends (apply_changes mem pick o l s) (keeps s).
Proof. revert s. induction l as [|k l IH]; intros s; cbn [apply_changes]; [done|]. apply ends_keeps; [apply change_keeps|]. intros [e|] s1 _; [done|apply IH]. Qed.

(** Calls that neither create nor delete a queue. *)
Definition names_no_queue (c : EqCall) : Prop := match c with CCreate _ _ _ | CKqueue _ | CDelete _ => False | _ => True end.

Lemma call_keeps c s : names_no_queue c -> ends (run_eq c s) (keeps s).
Proof.
  destruct c; cbn [names_no_queue run_eq]; try done; intros _.
  - unfold sceKernelWaitEqueue. destruct (GetEqueue eq s); [|done]. destruct ev_null; [done|]. destruct (_ <? _); [done|apply Wait_keeps].
  - unfold sceKernelAddHRTimerEvent. destruct (GetEqueue eq s); [|done]. do 3 (apply ends_any; intros ?). destruct (_ <? _); apply code_keeps; [apply AddSmall_keeps|apply Add_keeps].
  - unfold sceKernelDeleteHRTimerEvent. destruct (GetEqueue eq s); [|done]. apply ends_any. intros []; apply code_keeps; [apply RemoveSmall_keeps|apply Remove_keeps].
  - unfold sceKernelAddTimerEvent. destruct (GetEqueue eq s); [apply code_keeps, Add_keeps|done].
  - unfold sceKernelDeleteTimerEvent. destruct (GetEqueue eq s); [apply code_keeps, Remove_keeps|done].
  - unfold sceKernelAddUserEvent. destruct (GetEqueue eq s); [apply code_keeps, Add_keeps|done].
  - unfold sceKernelAddUserEventEdge. destruct (GetEqueue eq s); [apply code_keeps, Add_keeps|done].
  - unfold sceKernelTriggerUserEvent. destruct (GetEqueue eq s); [apply code_keeps, Trigger_keeps|done].
  - unfold sceKernelDeleteUserEvent. destruct (GetEqueue eq s); [apply code_keeps, Remove_keeps|done].
  - unfold posix_kevent. destruct (GetEqueue handle s); [|done]. apply ends_keeps; [apply changes_keep|]. intros [e|] s1 _; [done|]. destruct (_ <? _); [|done]. destruct timeout; [apply ends_any; intros m|]; apply Wait_keeps.
  - by apply ends_keeps; [apply Trigger_keeps|].
  - by apply ends_keeps; [apply Add_keeps|].
Qed.

(** ** Histories *)

#[export] Instance fresh_handle_dec c s : Decision (fresh_handle c s).
Proof. destruct c; cbn; apply _. Defined.

(** The state after some calls of the guest, made one after the other. *)
Fixpoint history (calls : list EqCall) (s : EqState) : EqState :=
  match calls with
  | [] => s
  | c :: calls => if decide (fresh_handle c s) then match run_eq c s with Done (_, s) => history calls s | Raised _ => s end else s
  end.

Lemma history_reach ok calls s : Forall ok calls -> eq_reach ok s -> eq_reach ok (history calls s).
Proof.
  intros Hok. revert s. induction Hok as [|c calls Hc Hok IH]; intros s Hr; cbn; [done|]. destruct (decide _); [|done]. destruct (run_eq c s) as [[r s']|] eqn:E; [|done].
  apply IH. eapply er_step; [exact Hr|]. by eapply es_call.
Qed.

Definition queue5 : EqCall := CCreate 5 false (Some "q"%string).

(** A queue with a periodic timer of 20 ms. *)
Definition timer_state : EqState := history [queue5; CAddTimer 5 1 20000 7] (eq_start 0).
Definition timer_event : EqueueEvent := mkEvent (mkKevent 1 Filter.Timer Flags.Clear 0 0 7) 0 20000000 (Some 20000000) false.
Definition timer_queue : EqueueInternal := mkEqueue 5 "q" [timer_event] ∅.

Lemma timer_state_reach : eq_reach any_call timer_state.
Proof. apply history_reach; [repeat constructor|apply er_start]. Qed.

Lemma timer_state_queue : objects timer_state !! 1 = Some timer_queue.
Proof. vm_compute. reflexivity. Qed.

Lemma equeue_ordered_witness : NoDup ((fun e => (ident (event e), filter_ (event e))) <$> m_events timer_queue).
Proof. exact (proj1 (equeue_ordered timer_state 1 timer_queue timer_state_reach timer_state_queue)). Defined.

Lemma wait_collects_witness : exists l s', WaitForEvents 7 1 1 (Some 0) ByWaitEqueue timer_state = Done (Some (returned ByWaitEqueue l), s').
Proof. destruct (wait_collects timer_state 1 timer_queue 1 timer_state_reach timer_state_queue) as [(l & s' & _ & _ & _ & _ & _ & _ & _ & _ & _ & H & _) _]. exists l, s'. apply H. Defined.

Lemma timer_ticks_witness : exists s' q' e', fire 0 0 timer_state = Done s' /\ objects s' !! 1 = Some q' /\ e' ∈ m_events q' /\ timer e' = Some 40000000.
Proof.
  destruct (timer_ticks timer_state 1 timer_queue timer_event 0 (mkIo 1 (event timer_event) TimerCallback 20000000 true) 0 timer_state_reach timer_state_queue)
    as (s' & q' & e' & _ & H1 & H2 & H3 & _ & _ & _ & H4 & _); [apply list_elem_of_here|reflexivity|reflexivity|vm_compute; reflexivity|reflexivity..|]. exists s', q', e'. done.
Defined.

Lemma hr_interval_witness : (let! f := checked (250 * 18446744073) in interval_of (mkBintime 1 f)) = Done 1000000249.
Proof. exact (hr_interval (mkTimespec 1 250) ltac:(cbn; lia) ltac:(cbn; lia)). Defined.

(** Two threads wait for the same edge-triggered event and one is notified. *)
Definition two_waiters (add : EqCall) : list EqCall := [queue5; add; CWait 7 5 false 1 None; CWait 8 5 false 1 None; CTrigger 0 5 1 9].
Definition edge_state : EqState := history (two_waiters (CAddEdge 5 1)) (eq_start 0).
Definition edge_queue : EqueueInternal := mkEqueue 5 "q" [mkEvent (mkKevent 1 Filter.User Flags.Clear 0 0 9) 0 0 None true] ∅.

Lemma no_event_missed_witness : (length (List.filter is_triggered (m_events edge_queue)) <= notified 1 (waiters edge_state))%nat.
Proof.
  apply (no_event_missed edge_state 1 edge_queue); [apply history_reach; [repeat constructor|apply er_start]|vm_compute; reflexivity|vm_compute; lia].
Defined.

(** ** Unexpected runs *)

(** A level-triggered event stays triggered, but its trigger wakes one thread: after
    that one has returned with the event, the other sleeps on although the event is
    still triggered. *)
Example level_event_leaves_sleeper :
  (let! '(r, s) := advance [] 0 (history (two_waiters (CAddUser 5 1)) (eq_start 0)) in
   let! q := deref 1 s in
   Done (q_ret <$> r, is_triggered <$> m_events q, sleepers 1 (waiters s), notified 1 (waiters s))) = Done (Some ORBIS_OK, [true], 1%nat, 0%nat).
Proof. vm_compute. reflexivity. Qed.

(** While a short timer runs, a wait with a time-out ends without the event that is
    triggered. *)
Example small_timer_hides_events :
  (let s := history [queue5; CAddEdge 5 1; CTrigger 0 5 1 9; CAddHR 64 5 2 (mkTimespec 0 1000000) 0; CWait 7 5 false 1 (Some 100)] (eq_start 0) in
   let! '(r, _) := advance [2] 0 (mkEq (objects s) (next_obj s) (kqueues s) (io_waits s) (waiters s) 100000) in
   Done (q_ret <$> r, r ≫= q_out)) = Done (Some ORBIS_KERNEL_ERROR_ETIMEDOUT, Some 0).
Proof. vm_compute. reflexivity. Qed.

(** A poll does not see a short timer that has expired. *)
Example poll_misses_small_timer :
  (let s := history [queue5; CAddHR 64 5 2 (mkTimespec 0 1000000) 0] (eq_start 0) in
   let! '(r, _) := sceKernelWaitEqueue 7 5 false 1 (Some 0) (mkEq (objects s) (next_obj s) (kqueues s) (io_waits s) (waiters s) 5000000) in
   Done (q_ret <$> r)) = Done (Some ORBIS_KERNEL_ERROR_ETIMEDOUT).
Proof. vm_compute. reflexivity. Qed.

(** The event of a short timer carries the address of a local of the call that
    added it. *)
Example small_timer_gives_stack_address :
  (let s := history [queue5; CAddHR 64 5 2 (mkTimespec 0 1000000) 0; CWait 7 5 false 1 None] (eq_start 0) in
   let! '(r, _) := advance [2] 0 (mkEq (objects s) (next_obj s) (kqueues s) (io_waits s) (waiters s) 5000000) in
   Done ((fun x => data <$> q_events x) <$> r)) = Done (Some [64]).
Proof. vm_compute. reflexivity. Qed.

(** A long timer cannot be deleted while a short one runs. *)
Example delete_long_timer_ENOENT :
  (let! '(r, _) := sceKernelDeleteHRTimerEvent 5 1 (history [queue5; CAddHR 64 5 1 (mkTimespec 1 0) 0; CAddHR 64 5 2 (mkTimespec 0 1000000) 0] (eq_start 0)) in
   Done (q_ret <$> r)) = Done (Some ORBIS_KERNEL_ERROR_ENOENT).
Proof. vm_compute. reflexivity. Qed.

(** The binary fraction of more than half a second does not fit the signed factor. *)
Example hr_fraction_overflows : sceKernelAddHRTimerEvent 64 5 1 (mkTimespec 0 600000000) 0 (history [queue5] (eq_start 0)) = Raised Undefined.
Proof. vm_compute. reflexivity. Qed.

(** A time-out of 4295 seconds becomes one of 33 milliseconds. *)
Example kevent_timeout_truncated : kevent_micros (mkTimespec 4295 0) = Done 32704.
Proof. vm_compute. reflexivity. Qed.

(** The handler of a timer that was due when its queue was deleted uses the queue. *)
Example handler_outlives_queue :
  (let s := history [queue5; CAddTimer 5 1 20000 7] (eq_start 0) in
   let s := history [CDelete 5] (mkEq (objects s) (next_obj s) (kqueues s) (io_waits s) (waiters s) 20000000) in
   Done (kqueues s !! 5, length (io_waits s), fire 0 0 s)) = Done (None, 1%nat, Raised Undefined).
Proof. vm_compute. reflexivity. Qed.

(** A name of 32 characters is accepted, though there is no room for its end. *)
Example name_of_32_accepted :
  (let! '(r, _) := sceKernelCreateEqueue 5 false (Some "01234567890123456789012345678901"%string) (eq_start 0) in Done (q_ret <$> r)) = Done (Some ORBIS_OK).
Proof. vm_compute. reflexivity. Qed.
