(* ===== verification/Fiber.v ===== *)
(** * Fibers ([core/libraries/fiber/fiber.{h,cpp}])

    A fiber is a stack and a place to go on from.  A thread runs a fiber
    ([sceFiberRun]) and is inside fibers, switching from one to the other
    ([sceFiberSwitch]), until the fiber it is in returns to it
    ([sceFiberReturnToThread]).

    [fibers] are the fiber objects by address, [contexts] the [OrbisFiberContext]s:
    locals of the library's functions, which cease to exist when the function
    returns.  What [_sceFiberSetJmp] saves of the registers is where the function goes
    on ([Point]) and its stack and frame pointers.  [words] is the guest's memory in
    words of 64 bits, as far as the library reads and writes it.  Memory without a
    fiber counts as zero.

    A call runs as one step up to its jump.  A thread that has jumped is [Jumped] or
    [Entering]: on its new stack, but the code behind the jump, which hands the last
    fiber back, is a step of its own ([land]), before which other threads can run.
    [_sceFiberSwitchEntry] hands the last fiber back before it has read the entry and
    the arguments of the next, which lie on the stack of the last: the thread is
    [Fetching] in between, and what it fetches is lost when another thread has
    meanwhile gone on in the fiber that was left. *)

From stdpp Require Import gmap.
From S2P Require Import Prelude.

(** ** Data *)

Definition kFiberSignature0 : Z := 0xdef1649c.
Definition kFiberSignature1 : Z := 0xb37592a0.
Definition kFiberOptSignature : Z := 0xbb40e64d.
Definition kFiberStackSignature : Z := 0x7149f2ca7149f2ca.
Definition kFiberStackSizeCheck : Z := 0xdeadbeefdeadbeef.

Definition ORBIS_FIBER_MAX_NAME_LENGTH : nat := 31.
Definition ORBIS_FIBER_CONTEXT_MINIMUM_SIZE : Z := 512.

Definition ORBIS_FIBER_ERROR_NULL : Z := s32 0x80590001.
Definition ORBIS_FIBER_ERROR_ALIGNMENT : Z := s32 0x80590002.
Definition ORBIS_FIBER_ERROR_RANGE : Z := s32 0x80590003.
Definition ORBIS_FIBER_ERROR_INVALID : Z := s32 0x80590004.
Definition ORBIS_FIBER_ERROR_PERMISSION : Z := s32 0x80590005.
Definition ORBIS_FIBER_ERROR_STATE : Z := s32 0x80590006.

Definition FW_350 : Z := 0x3500000.

Module FiberState.
Inductive t := Run | Idle | Terminated.
End FiberState.

#[export] Instance fiber_state_eq_dec : EqDecision FiberState.t.
Proof. solve_decision. Defined.

Module FiberFlags.
Definition ContextSizeCheck : Z := 16.
Definition SetFpuRegs : Z := 256.
End FiberFlags.

(** Where a function that called [_sceFiberSetJmp] goes on; the argument says whether
    its caller gave a pointer for the result. *)
Inductive Point := AtRun (arg_on_return : bool) | AtSwitch (arg_on_run : bool) | AtReturn (arg_on_run : bool).

Record Regs := mkRegs { rsp : Z; rbp : Z; resume_at : Point }.

Record OrbisFiberContext := mkFctx {
  regs : Regs; current_fiber : option Z; prev_fiber : option Z; arg_on_run_to : Z; arg_on_return : Z; return_val : Z }.

Record OrbisFiberData := mkFdata {
  d_entry : Z; d_arg_on_initialize : Z; d_arg_on_run_to : Z; d_stack_addr : Z; d_state : option Z; d_fpu : option (Z * Z) }.

Record OrbisFiber := mkFiber {
  magic_start : Z; state : FiberState.t; entry : Z; arg_on_initialize : Z; addr_context : Z; size_context : Z; name : list Z;
  context : option Z; fflags : Z; context_start : Z; context_end : Z; magic_end : Z }.

Record OrbisFiberInfo := mkFinfo {
  i_entry : Z; i_arg_on_initialize : Z; i_addr_context : Z; i_size_context : Z; i_name : list Z; i_size_context_margin : Z }.

(** [frame] is where the data lie: in a function called by the function of fiber [p]
    whose context is [k], on the stack of [p]; or on the thread's own stack. *)
Inductive Place := Guest | Jumped (ctx : Z) | Entering (d : OrbisFiberData) | Fetching (d : OrbisFiberData) (frame : option (Z * Z)).

Record FThread := mkFthread { tcb_fiber : option Z; place : Place }.

Record FState := mkFs {
  fibers : gmap Z OrbisFiber; contexts : gmap Z OrbisFiberContext; next_ctx : Z; fthreads : gmap Z FThread;
  words : gmap Z Z; opts : gmap Z Z; context_size_check : Z }.

Definition fiber_start : FState := mkFs ∅ ∅ 1 ∅ ∅ ∅ 0.

Definition set_fibers (m : gmap Z OrbisFiber) (s : FState) : FState := mkFs m (contexts s) (next_ctx s) (fthreads s) (words s) (opts s) (context_size_check s).
Definition set_contexts (m : gmap Z OrbisFiberContext) (s : FState) : FState := mkFs (fibers s) m (next_ctx s) (fthreads s) (words s) (opts s) (context_size_check s).
Definition set_fthreads (m : gmap Z FThread) (s : FState) : FState := mkFs (fibers s) (contexts s) (next_ctx s) m (words s) (opts s) (context_size_check s).
Definition set_words (m : gmap Z Z) (s : FState) : FState := mkFs (fibers s) (contexts s) (next_ctx s) (fthreads s) m (opts s) (context_size_check s).
Definition set_check (c : Z) (s : FState) : FState := mkFs (fibers s) (contexts s) (next_ctx s) (fthreads s) (words s) (opts s) c.

Definition with_state (st : FiberState.t) (f : OrbisFiber) : OrbisFiber :=
  mkFiber (magic_start f) st (entry f) (arg_on_initialize f) (addr_context f) (size_context f) (name f) (context f) (fflags f) (context_start f) (context_end f) (magic_end f).
Definition with_context (c : option Z) (f : OrbisFiber) : OrbisFiber :=
  mkFiber (magic_start f) (state f) (entry f) (arg_on_initialize f) (addr_context f) (size_context f) (name f) c (fflags f) (context_start f) (context_end f) (magic_end f).
Definition with_name (n : list Z) (f : OrbisFiber) : OrbisFiber :=
  mkFiber (magic_start f) (state f) (entry f) (arg_on_initialize f) (addr_context f) (size_context f) n (context f) (fflags f) (context_start f) (context_end f) (magic_end f).
Definition with_area (a n : Z) (f : OrbisFiber) : OrbisFiber :=
  mkFiber (magic_start f) (state f) (entry f) (arg_on_initialize f) a n (name f) (context f) (fflags f) a (wadd a n) (magic_end f).

Definition with_current (c : option Z) (x : OrbisFiberContext) : OrbisFiberContext := mkFctx (regs x) c (prev_fiber x) (arg_on_run_to x) (arg_on_return x) (return_val x).
Definition with_prev (p : option Z) (x : OrbisFiberContext) : OrbisFiberContext := mkFctx (regs x) (current_fiber x) p (arg_on_run_to x) (arg_on_return x) (return_val x).
Definition with_run_to (a : Z) (x : OrbisFiberContext) : OrbisFiberContext := mkFctx (regs x) (current_fiber x) (prev_fiber x) a (arg_on_return x) (return_val x).
Definition with_return (a : Z) (x : OrbisFiberContext) : OrbisFiberContext := mkFctx (regs x) (current_fiber x) (prev_fiber x) (arg_on_run_to x) a (return_val x).
Definition with_val (v : Z) (x : OrbisFiberContext) : OrbisFiberContext := mkFctx (regs x) (current_fiber x) (prev_fiber x) (arg_on_run_to x) (arg_on_return x) v.

Definition zero_fiber : OrbisFiber := mkFiber 0 FiberState.Terminated 0 0 0 0 (repeat 0 32) None 0 0 0 0.
Definition fiber_at (a : Z) (s : FState) : OrbisFiber := default zero_fiber (fibers s !! a).
Definition set_fiber (a : Z) (f : OrbisFiber) (s : FState) : FState := set_fibers (<[a := f]> (fibers s)) s.
Definition set_state (a : Z) (st : FiberState.t) (s : FState) : FState := set_fiber a (with_state st (fiber_at a s)) s.

Definition thread_at (t : Z) (s : FState) : FThread := default (mkFthread None Guest) (fthreads s !! t).
Definition set_tcb (t : Z) (c : option Z) (s : FState) : FState := set_fthreads (<[t := mkFthread c (place (thread_at t s))]> (fthreads s)) s.
Definition set_place (t : Z) (p : Place) (s : FState) : FState := set_fthreads (<[t := mkFthread (tcb_fiber (thread_at t s)) p]> (fthreads s)) s.

(** Contexts: a dead one cannot be used. *)
Definition ctx_at (c : Z) (s : FState) : outcome OrbisFiberContext := of_option (contexts s !! c).
Definition set_ctx (c : Z) (x : OrbisFiberContext) (s : FState) : FState := set_contexts (<[c := x]> (contexts s)) s.
Definition new_ctx (x : OrbisFiberContext) (s : FState) : Z * FState :=
  (next_ctx s, mkFs (fibers s) (<[next_ctx s := x]> (contexts s)) (next_ctx s + 1) (fthreads s) (words s) (opts s) (context_size_check s)).
Definition drop_ctx (c : Z) (s : FState) : FState := set_contexts (delete c (contexts s)) s.

Definition word_at (a : Z) (s : FState) : Z := default 0 (words s !! a).

Definition GetFiberContext (t : Z) (s : FState) : option Z := tcb_fiber (thread_at t s).

Definition has_fflag (flags f : Z) : bool := negb (Z.land flags f =? 0).

(** A C string: the bytes before the first zero. *)
Fixpoint cstr (l : list Z) : list Z :=
  match l with [] => [] | b :: l => if b =? 0 then [] else b :: cstr l end.

Definition strncpy (n : nat) (src dst : list Z) : list Z := take n (src ++ repeat 0 n) ++ drop n dst.

(** ** Results

    What the guest sees: a call that returns, or the start of a fiber's entry. *)

Inductive FRes :=
| FRet (code : Z) (out : option Z)
| FInfo (i : OrbisFiberInfo)
| FEnter (entry arg_on_initialize arg_on_run stack : Z) (fpu : option (Z * Z)).

Abbreviation FOut := (outcome (option FRes * FState)).

Definition fret (code : Z) (s : FState) : FOut := Done (Some (FRet code None), s).

(** ** Jumps *)

Definition long_jmp (t c : Z) (s : FState) : FOut := Done (None, set_place t (Jumped c) s).
Definition switch_entry (t : Z) (d : OrbisFiberData) (s : FState) : FOut := Done (None, set_place t (Entering d) s).

(** [_sceFiberForceQuit]: the entry of the fiber has returned. *)
Definition _sceFiberForceQuit (t ret : Z) (s : FState) : FOut :=
  let! g := of_option (GetFiberContext t s) in
  let! x := ctx_at g s in
  long_jmp t g (set_ctx g (with_val ret x) s).

Definition _sceFiberCheckStackOverflow (c : Z) (s : FState) : outcome unit :=
  let! x := ctx_at c s in
  let! f := of_option (current_fiber x) in
  let stack_base := addr_context (fiber_at f s) in
  oassert ((stack_base =? 0) || (word_at stack_base s =? kFiberStackSignature)).

(** The loop that fills a stack: [n] words from [p]. *)
Fixpoint fill_pattern (n : nat) (p : Z) (m : gmap Z Z) : gmap Z Z :=
  match n with O => m | S n => fill_pattern n (p + 8) (<[p := kFiberStackSizeCheck]> m) end.

(** How often a pointer to words from [p] can be advanced before it reaches [e]. *)
Definition words_between (p e : Z) : nat := Z.to_nat ((e - p + 7) / 8).

(** The signature at the start of the stack and, if [fill], the pattern behind it. *)
Definition mark_stack (a e : Z) (fill : bool) (m : gmap Z Z) : gmap Z Z :=
  let m := <[a := kFiberStackSignature]> m in
  if fill then fill_pattern (words_between (a + 8) e) (a + 8) m else m.

Definition _sceFiberAttachContext (fiber addr size : Z) (s : FState) : Z * FState :=
  let f := fiber_at fiber s in
  if negb (size =? 0) && (size <? ORBIS_FIBER_CONTEXT_MINIMUM_SIZE) then (ORBIS_FIBER_ERROR_RANGE, s) else
  if negb (Z.land size 15 =? 0) then (ORBIS_FIBER_ERROR_INVALID, s) else
  if (addr =? 0) || (size =? 0) then (ORBIS_FIBER_ERROR_INVALID, s) else
  if negb (addr_context f =? 0) then (ORBIS_FIBER_ERROR_INVALID, s) else
  (ORBIS_OK, set_words (mark_stack addr (wadd addr size) (has_fflag (fflags f) FiberFlags.ContextSizeCheck) (words s)) (set_fiber fiber (with_area addr size f) s)).

Definition entry_data (f : OrbisFiber) (arg_on_run_to stack : Z) (state : option Z) : OrbisFiberData :=
  mkFdata (entry f) (arg_on_initialize f) arg_on_run_to stack state (if has_fflag (fflags f) FiberFlags.SetFpuRegs then Some (0x037f, 0x9fc0) else None).

Definition _sceFiberSwitchToFiber (t fiber arg c : Z) (s : FState) : FOut :=
  let f := fiber_at fiber s in
  let! x := ctx_at c s in
  match context f with
  | Some fiber_ctx => long_jmp t fiber_ctx (set_ctx c (with_run_to arg x) s)
  | None =>
      let '(st, s) := match prev_fiber x with Some p => (Some p, set_ctx c (with_prev None x) s) | None => (None, s) end in
      switch_entry t (entry_data f arg (wadd (addr_context f) (size_context f)) st) s
  end.

(** [rsp & ~15] *)
Definition align_stack (p : Z) : Z := Z.land p 18446744073709551600.

Definition _sceFiberSwitch (t cur fiber arg c : Z) (s : FState) : FOut :=
  let! x := ctx_at c s in
  let x := with_current (Some fiber) (with_prev (Some cur) x) in
  let f := fiber_at fiber s in
  if addr_context f =? 0 then switch_entry t (entry_data f arg (align_stack (rsp (regs x))) (Some cur)) (set_ctx c (with_prev None x) s)
  else _sceFiberSwitchToFiber t fiber arg c (set_ctx c x s).

Definition _sceFiberTerminate (t arg c : Z) (s : FState) : FOut :=
  let! x := ctx_at c s in long_jmp t c (set_ctx c (with_return arg x) s).

(** ** Creation and destruction *)

(** [opt_param] is its address or null. *)
Definition sceFiberInitializeImpl (fiber : Z) (nm : option (list Z)) (ent arg addr size opt_param flags build_ver : Z) (s : FState) : FOut :=
  match nm with
  | None => fret ORBIS_FIBER_ERROR_NULL s
  | Some nm =>
      if (fiber =? 0) || (ent =? 0) then fret ORBIS_FIBER_ERROR_NULL s else
      if negb (Z.land fiber 7 =? 0) || negb (Z.land addr 15 =? 0) then fret ORBIS_FIBER_ERROR_ALIGNMENT s else
      if negb (opt_param =? 0) && negb (Z.land opt_param 7 =? 0) then fret ORBIS_FIBER_ERROR_ALIGNMENT s else
      if negb (size =? 0) && (size <? ORBIS_FIBER_CONTEXT_MINIMUM_SIZE) then fret ORBIS_FIBER_ERROR_RANGE s else
      if negb (Z.land size 15 =? 0) then fret ORBIS_FIBER_ERROR_INVALID s else
      if (addr =? 0) && negb (size =? 0) then fret ORBIS_FIBER_ERROR_INVALID s else
      if negb (addr =? 0) && (size =? 0) then fret ORBIS_FIBER_ERROR_INVALID s else
      if negb (opt_param =? 0) && negb (default 0 (opts s !! opt_param) =? kFiberOptSignature) then fret ORBIS_FIBER_ERROR_INVALID s else
      let user_flags := if FW_350 <=? build_ver then Z.lor flags FiberFlags.SetFpuRegs else flags in
      let user_flags := if negb (context_size_check s =? 0) then Z.lor user_flags FiberFlags.ContextSizeCheck else user_flags in
      let old := fiber_at fiber s in
      let name' := strncpy ORBIS_FIBER_MAX_NAME_LENGTH nm (name old) in
      let f := mkFiber kFiberSignature0 FiberState.Idle ent arg addr size name' None user_flags (context_start old) (context_end old) kFiberSignature1 in
      let s :=
        if addr =? 0 then set_fiber fiber f s
        else set_words (mark_stack addr (wadd addr size) (has_fflag flags FiberFlags.ContextSizeCheck) (words s)) (set_fiber fiber (with_area addr size f) s) in
      fret ORBIS_OK s
  end.

Definition sceFiberInitialize (fiber : Z) (nm : option (list Z)) (ent arg addr size opt_param build_ver : Z) (s : FState) : FOut :=
  sceFiberInitializeImpl fiber nm ent arg addr size opt_param 0 build_ver s.

Definition sceFiberOptParamInitialize (opt_param : Z) (s : FState) : FOut :=
  if opt_param =? 0 then fret ORBIS_FIBER_ERROR_NULL s else
  if negb (Z.land opt_param 7 =? 0) then fret ORBIS_FIBER_ERROR_ALIGNMENT s else
  fret ORBIS_OK (mkFs (fibers s) (contexts s) (next_ctx s) (fthreads s) (words s) (<[opt_param := kFiberOptSignature]> (opts s)) (context_size_check s)).

Definition bad_magic (f : OrbisFiber) : bool := negb (magic_start f =? kFiberSignature0) || negb (magic_end f =? kFiberSignature1).

(** [compare_exchange_strong] from [Idle]. *)
Definition take_idle (fiber : Z) (st : FiberState.t) (s : FState) : option FState :=
  if bool_decide (state (fiber_at fiber s) = FiberState.Idle) then Some (set_state fiber st s) else None.

Definition sceFiberFinalize (fiber : Z) (s : FState) : FOut :=
  if fiber =? 0 then fret ORBIS_FIBER_ERROR_NULL s else
  if negb (Z.land fiber 7 =? 0) then fret ORBIS_FIBER_ERROR_ALIGNMENT s else
  if bad_magic (fiber_at fiber s) then fret ORBIS_FIBER_ERROR_INVALID s else
  match take_idle fiber FiberState.Terminated s with
  | None => fret ORBIS_FIBER_ERROR_STATE s
  | Some s => fret ORBIS_OK s
  end.

(** ** Running *)

(** The checks [sceFiberRunImpl] and [sceFiberSwitchImpl] share. *)
Definition bad_target (fiber addr : Z) (s : FState) : option Z :=
  if fiber =? 0 then Some ORBIS_FIBER_ERROR_NULL else
  if negb (Z.land fiber 7 =? 0) || negb (Z.land addr 15 =? 0) then Some ORBIS_FIBER_ERROR_ALIGNMENT else
  if bad_magic (fiber_at fiber s) then Some ORBIS_FIBER_ERROR_INVALID else None.

Definition attach_if_given (fiber addr size : Z) (s : FState) : Z * FState :=
  if negb (addr =? 0) || negb (size =? 0) then _sceFiberAttachContext fiber addr size s else (ORBIS_OK, s).

(** [sp] and [bp] are the registers at the call of [_sceFiberSetJmp]. *)
Definition sceFiberRunImpl (t sp bp fiber addr size arg : Z) (want : bool) (s : FState) : FOut :=
  match bad_target fiber addr s with
  | Some e => fret e s
  | None =>
      match GetFiberContext t s with
      | Some _ => fret ORBIS_FIBER_ERROR_PERMISSION s
      | None =>
          let '(res, s) := attach_if_given fiber addr size s in
          if res <? 0 then fret res s else
          match take_idle fiber FiberState.Run s with
          | None => fret ORBIS_FIBER_ERROR_STATE s
          | Some s =>
              let '(c, s) := new_ctx (mkFctx (mkRegs sp bp (AtRun want)) (Some fiber) None 0 0 0) s in
              let s := set_tcb t (Some c) s in
              let f := fiber_at fiber s in
              if negb (addr_context f =? 0) then _sceFiberSwitchToFiber t fiber arg c s
              else switch_entry t (entry_data f arg (align_stack sp) None) s
          end
      end
  end.

Definition sceFiberRun (t sp bp fiber arg : Z) (want : bool) (s : FState) : FOut := sceFiberRunImpl t sp bp fiber 0 0 arg want s.

Definition sceFiberSwitchImpl (t sp bp fiber addr size arg : Z) (want : bool) (s : FState) : FOut :=
  match bad_target fiber addr s with
  | Some e => fret e s
  | None =>
      match GetFiberContext t s with
      | None => fret ORBIS_FIBER_ERROR_PERMISSION s
      | Some g =>
          let '(res, s) := attach_if_given fiber addr size s in
          if res <? 0 then fret res s else
          match take_idle fiber FiberState.Run s with
          | None => fret ORBIS_FIBER_ERROR_STATE s
          | Some s =>
              let! x := ctx_at g s in
              let! cur := of_option (current_fiber x) in
              if addr_context (fiber_at cur s) =? 0 then _sceFiberSwitch t cur fiber arg g s
              else
                let '(c, s) := new_ctx (mkFctx (mkRegs sp bp (AtSwitch want)) None None 0 0 0) s in
                let s := set_fiber cur (with_context (Some c) (fiber_at cur s)) s in
                let! _ := _sceFiberCheckStackOverflow g s in
                _sceFiberSwitch t cur fiber arg g s
          end
      end
  end.

Definition sceFiberSwitch (t sp bp fiber arg : Z) (want : bool) (s : FState) : FOut := sceFiberSwitchImpl t sp bp fiber 0 0 arg want s.

Definition sceFiberReturnToThread (t sp bp arg : Z) (want : bool) (s : FState) : FOut :=
  match GetFiberContext t s with
  | None => fret ORBIS_FIBER_ERROR_PERMISSION s
  | Some g =>
      let! x := ctx_at g s in
      let! cur := of_option (current_fiber x) in
      if negb (addr_context (fiber_at cur s) =? 0) then
        let '(c, s) := new_ctx (mkFctx (mkRegs sp bp (AtReturn want)) None None 0 0 0) s in
        let s := set_fiber cur (with_context (Some c) (fiber_at cur s)) s in
        let! _ := _sceFiberCheckStackOverflow g s in
        _sceFiberTerminate t arg g s
      else _sceFiberTerminate t arg g s
  end.

(** ** After a jump *)

(** The end of [sceFiberRunImpl] with its context [c]. *)
Definition run_ends (t c : Z) (want : bool) (s : FState) : FOut :=
  let! x := ctx_at c s in
  let! cur := of_option (current_fiber x) in
  let s := set_state cur FiberState.Idle (set_ctx c (with_current None x) s) in
  let! _ := oassert (return_val x =? 0) in
  Done (Some (FRet ORBIS_OK (if want then Some (arg_on_return x) else None)), drop_ctx c (set_tcb t None s)).

(** The end of [sceFiberSwitchImpl] and [sceFiberReturnToThread] with their own
    context [c]. *)
Definition switch_ends (t c : Z) (want : bool) (s : FState) : FOut :=
  let! g := of_option (GetFiberContext t s) in
  let! x := ctx_at g s in
  let s := match prev_fiber x with Some p => set_ctx g (with_prev None x) (set_state p FiberState.Idle s) | None => s end in
  Done (Some (FRet ORBIS_OK (if want then Some (arg_on_run_to x) else None)), drop_ctx c s).

(** Where the data of [_sceFiberSwitchEntry] lie that were made in fiber [p]: on its
    stack, if it was left in a call of its own stack. *)
Definition frame_of (p : Z) (s : FState) : option (Z * Z) :=
  match context (fiber_at p s) with Some k => Some (p, k) | None => None end.

(** The frame has not been used for anything else: the function that called it has
    not gone on, and its fiber was neither initialised again nor finalised, which
    would set the stack free. *)
Definition frame_kept (frame : option (Z * Z)) (s : FState) : bool :=
  match frame with
  | None => true
  | Some (p, k) =>
      bool_decide (context (fiber_at p s) = Some k) && bool_decide (is_Some (contexts s !! k))
      && bool_decide (state (fiber_at p s) <> FiberState.Terminated)
  end.

(** The call of the entry, behind [.clear_regs]. *)
Definition call_entry (t : Z) (d : OrbisFiberData) (s : FState) : FOut :=
  Done (Some (FEnter (d_entry d) (d_arg_on_initialize d) (d_arg_on_run_to d) (d_stack_addr d) (d_fpu d)), set_place t Guest s).

(** The next step of a thread that has jumped. *)
Definition land (t : Z) (s : FState) : FOut :=
  match place (thread_at t s) with
  | Guest => Done (None, s)
  | Jumped c =>
      let s := set_place t Guest s in
      let! x := ctx_at c s in
      match resume_at (regs x) with
      | AtRun want => run_ends t c want s
      | AtSwitch want | AtReturn want => switch_ends t c want s
      end
  | Entering d =>
      match d_state d with
      | Some p => Done (None, set_state p FiberState.Idle (set_place t (Fetching d (frame_of p s)) s))
      | None => call_entry t d s
      end
  | Fetching d frame => if frame_kept frame s then call_entry t d s else Raised Undefined
  end.

(** ** Queries *)

Definition sceFiberGetSelf (t : Z) (out_null : bool) (s : FState) : FOut :=
  if out_null then fret ORBIS_FIBER_ERROR_NULL s else
  match GetFiberContext t s with
  | None => fret ORBIS_FIBER_ERROR_PERMISSION s
  | Some g => let! x := ctx_at g s in Done (Some (FRet ORBIS_OK (Some (default 0 (current_fiber x)))), s)
  end.

(** The loop over the words of a stack: the pointer is advanced past words that hold
    the pattern only. *)
Fixpoint margin_end (fuel : nat) (p e : Z) (s : FState) : outcome Z :=
  match fuel with
  | O => Raised OutOfFuel
  | S fuel =>
      if p <? e then margin_end fuel (if word_at p s =? kFiberStackSizeCheck then p + 8 else p) e s
      else Done p
  end.

(** [info] is null, or its address and the size it states. *)
Definition sceFiberGetInfo (fuel : nat) (fiber : Z) (info : option (Z * Z)) (info_name : list Z) (s : FState) : FOut :=
  match info with
  | None => fret ORBIS_FIBER_ERROR_NULL s
  | Some (info, size) =>
      if fiber =? 0 then fret ORBIS_FIBER_ERROR_NULL s else
      if negb (Z.land fiber 7 =? 0) || negb (Z.land info 7 =? 0) then fret ORBIS_FIBER_ERROR_ALIGNMENT s else
      if negb (size =? 128) then fret ORBIS_FIBER_ERROR_INVALID s else
      let f := fiber_at fiber s in
      if bad_magic f then fret ORBIS_FIBER_ERROR_INVALID s else
      let! margin :=
        (if has_fflag (fflags f) FiberFlags.ContextSizeCheck && negb (addr_context f =? 0) then
           if word_at (context_start f) s =? kFiberStackSignature then
             let! p := margin_end fuel (context_start f + 8) (context_end f) s in Done (wsub p (context_start f + 8))
           else Done 0
         else Done MINUS_1) in
      Done (Some (FInfo (mkFinfo (entry f) (arg_on_initialize f) (addr_context f) (size_context f) (strncpy ORBIS_FIBER_MAX_NAME_LENGTH (cstr (name f)) info_name) margin)), s)
  end.

Definition sceFiberStartContextSizeCheck (flags : Z) (s : FState) : FOut :=
  if negb (flags =? 0) then fret ORBIS_FIBER_ERROR_INVALID s else
  if context_size_check s =? 0 then fret ORBIS_OK (set_check 1 s) else fret ORBIS_FIBER_ERROR_STATE s.

Definition sceFiberStopContextSizeCheck (s : FState) : FOut :=
  if context_size_check s =? 1 then fret ORBIS_OK (set_check 0 s) else fret ORBIS_FIBER_ERROR_STATE s.

Definition sceFiberRename (fiber : Z) (nm : option (list Z)) (s : FState) : FOut :=
  match nm with
  | None => fret ORBIS_FIBER_ERROR_NULL s
  | Some nm =>
      if fiber =? 0 then fret ORBIS_FIBER_ERROR_NULL s else
      if negb (Z.land fiber 7 =? 0) then fret ORBIS_FIBER_ERROR_ALIGNMENT s else
      let f := fiber_at fiber s in
      if bad_magic f then fret ORBIS_FIBER_ERROR_INVALID s else
      fret ORBIS_OK (set_fiber fiber (with_name (strncpy ORBIS_FIBER_MAX_NAME_LENGTH nm (name f)) f) s)
  end.

Definition sceFiberGetThreadFramePointerAddress (t : Z) (out_null : bool) (s : FState) : FOut :=
  if out_null then fret ORBIS_FIBER_ERROR_NULL s else
  match GetFiberContext t s with
  | None => fret ORBIS_FIBER_ERROR_PERMISSION s
  | Some g => let! x := ctx_at g s in Done (Some (FRet ORBIS_OK (Some (rbp (regs x)))), s)
  end.
