(* ===== verification/FiberFacts.v ===== *)
(** * Fibers: who is in which fiber, and which contexts are alive

    A thread holds the fiber it is in and, until it has handed it back, the one it
    left ([held]).  The invariant [finv] says that exactly the held fibers are in state
    [Run], each held once ([owners]), that a thread inside a fiber has the context of
    its [sceFiberRun] ([thread_ok]), and that the context of a fiber is alive unless a
    thread is in the fiber ([fi_live]). *)

From stdpp Require Import gmap.
From S2P Require Import Prelude Fiber.

(** ** Reading what was written *)

Lemma fiber_set a f s b : fiber_at b (set_fiber a f s) = if decide (a = b) then f else fiber_at b s.
Proof. unfold fiber_at, set_fiber. cbn. destruct (decide (a = b)) as [->|]; [by rewrite lookup_insert_eq|by rewrite lookup_insert_ne]. Qed.

Lemma fiber_set_state a st s b : fiber_at b (set_state a st s) = if decide (a = b) then with_state st (fiber_at b s) else fiber_at b s.
Proof. unfold set_state. rewrite fiber_set. by destruct (decide (a = b)) as [->|]. Qed.

Lemma thread_set_tcb t c s u : thread_at u (set_tcb t c s) = if decide (t = u) then mkFthread c (place (thread_at u s)) else thread_at u s.
Proof. unfold thread_at, set_tcb. cbn. destruct (decide (t = u)) as [->|]; [by rewrite lookup_insert_eq|by rewrite lookup_insert_ne]. Qed.

Lemma thread_set_place t p s u : thread_at u (set_place t p s) = if decide (t = u) then mkFthread (tcb_fiber (thread_at u s)) p else thread_at u s.
Proof. unfold thread_at, set_place. cbn. destruct (decide (t = u)) as [->|]; [by rewrite lookup_insert_eq|by rewrite lookup_insert_ne]. Qed.

(** ** Who holds what *)

Definition leaving (p : Place) : option Z := match p with Entering d => d_state d | _ => None end.

Definition held (s : FState) (t : Z) : list Z :=
  match tcb_fiber (thread_at t s) with
  | None => []
  | Some c => match contexts s !! c with
              | None => []
              | Some x => option_list (current_fiber x) ++ option_list (prev_fiber x) ++ option_list (leaving (place (thread_at t s)))
              end
  end.

Definition runs (s : FState) (f : Z) : Prop := state (fiber_at f s) = FiberState.Run.

Record owners (s : FState) : Prop := {
  ow_run : forall f, runs s f <-> exists t, f ∈ held s t;
  ow_one : forall t u f, f ∈ held s t -> f ∈ held s u -> t = u;
  ow_nodup : forall t, NoDup (held s t) }.

(** Only [t] changes what it holds, giving fibers up and taking some that did not run. *)
Lemma owners_move t s s' : owners s -> (forall u, u <> t -> held s' u = held s u) -> NoDup (held s' t) ->
  (forall f, f ∈ held s' t -> f ∈ held s t \/ ~ runs s f) ->
  (forall f, runs s' f <-> f ∈ held s' t \/ (runs s f /\ f ∉ held s t)) -> owners s'.
Proof.
  intros [H1 H2 H3] Ho Hn Hnew Hr.
  assert (Hx : forall u f, u <> t -> f ∈ held s' t -> f ∈ held s u -> False).
  { intros u f Hu Hf Hfu. destruct (Hnew f Hf) as [Ht|Ht]; [by apply Hu, (H2 _ _ f)|]. apply Ht, H1. by exists u. }
  split.
  - intros f. rewrite Hr. split.
    + intros [Hf|[Hrun Hf]]; [by exists t|]. apply H1 in Hrun as [u Hu]. exists u. destruct (decide (u = t)) as [->|Hne]; [done|]. by rewrite Ho.
    + intros [u Hu]. destruct (decide (u = t)) as [->|Hne]; [by left|]. rewrite Ho in Hu by done. right. split; [apply H1; by exists u|].
      intros Ht. by apply Hne, (H2 _ _ f).
  - intros u v f Hu Hv. destruct (decide (u = t)) as [->|Hut], (decide (v = t)) as [->|Hvt]; [done|..].
    + exfalso. rewrite Ho in Hv by done. by eapply Hx.
    + exfalso. rewrite Ho in Hu by done. by eapply Hx.
    + rewrite Ho in Hu, Hv by done. by apply (H2 _ _ f).
  - intros u. destruct (decide (u = t)) as [->|Hu]; [done|]. by rewrite Ho.
Qed.

Lemma owners_same s s' : owners s -> (forall u, held s' u = held s u) -> (forall f, runs s' f <-> runs s f) -> owners s'.
Proof.
  intros [H1 H2 H3] Hh Hr. split.
  - intros f. rewrite Hr, H1. split; intros [t Ht]; exists t; by rewrite Hh in *.
  - intros t u f. rewrite !Hh. apply H2.
  - intros t. by rewrite Hh.
Qed.

(** ** Threads *)

Definition is_run (x : OrbisFiberContext) : bool := match resume_at (regs x) with AtRun _ => true | _ => false end.

(** On the way to the entry of a fiber. *)
Definition arriving (P : Place) : Prop := match P with Entering _ | Fetching _ _ => True | _ => False end.

(** Where a thread inside fiber [f], with the context [c] of its [sceFiberRun], is. *)
Inductive place_ok (s : FState) (c f : Z) (prev : option Z) : Place -> Prop :=
| po_guest : prev = None -> place_ok s c f prev Guest
| po_return : prev = None -> place_ok s c f prev (Jumped c)
| po_resume c' y : context (fiber_at f s) = Some c' -> contexts s !! c' = Some y -> place_ok s c f prev (Jumped c')
| po_enter P : arriving P /\ prev = None -> context (fiber_at f s) = None -> place_ok s c f prev P.

Inductive thread_ok (s : FState) (t : Z) : Prop :=
| tk_plain : tcb_fiber (thread_at t s) = None -> place (thread_at t s) = Guest -> thread_ok s t
| tk_inside c x f : tcb_fiber (thread_at t s) = Some c -> contexts s !! c = Some x -> is_run x = true -> return_val x = 0 -> current_fiber x = Some f ->
    place_ok s c f (prev_fiber x) (place (thread_at t s)) -> thread_ok s t.

(** Thread [t] executes code of the guest in fiber [f]. *)
Definition inside (s : FState) (t f : Z) : Prop :=
  place (thread_at t s) = Guest /\ exists c x, tcb_fiber (thread_at t s) = Some c /\ contexts s !! c = Some x /\ current_fiber x = Some f.

Record finv (s : FState) : Prop := {
  fi_fresh : forall c x, contexts s !! c = Some x -> c < next_ctx s;
  fi_area : forall f, addr_context (fiber_at f s) = 0 -> context (fiber_at f s) = None;
  fi_stack : forall f, addr_context (fiber_at f s) <> 0 -> state (fiber_at f s) <> FiberState.Terminated ->
    0 < size_context (fiber_at f s) /\ word_at (addr_context (fiber_at f s)) s = kFiberStackSignature;
  fi_ctx : forall f c, context (fiber_at f s) = Some c -> c < next_ctx s /\ forall x, contexts s !! c = Some x -> is_run x = false;
  fi_ctx_inj : forall f g c, context (fiber_at f s) = Some c -> context (fiber_at g s) = Some c -> f = g;
  fi_live : forall f c, context (fiber_at f s) = Some c -> contexts s !! c = None -> exists t, inside s t f;
  fi_threads : forall t, thread_ok s t;
  fi_tcb : forall t u c, tcb_fiber (thread_at t s) = Some c -> tcb_fiber (thread_at u s) = Some c -> t = u;
  fi_owners : owners s }.

Ltac by_cases := repeat match goal with H : context [decide (?a = ?b)] |- _ => destruct (decide (a = b)) | |- context [decide (?a = ?b)] => destruct (decide (a = b)) end; subst.

Lemma held_inside s t c x : tcb_fiber (thread_at t s) = Some c -> contexts s !! c = Some x ->
  held s t = option_list (current_fiber x) ++ option_list (prev_fiber x) ++ option_list (leaving (place (thread_at t s))).
Proof. intros Ht Hc. unfold held. by rewrite Ht, Hc. Qed.

Lemma held_plain s t : tcb_fiber (thread_at t s) = None -> held s t = [].
Proof. intros Ht. unfold held. by rewrite Ht. Qed.

Lemma held_guest s t c x f : finv s -> place (thread_at t s) = Guest -> tcb_fiber (thread_at t s) = Some c -> contexts s !! c = Some x -> current_fiber x = Some f ->
  held s t = [f] /\ prev_fiber x = None /\ is_run x = true /\ return_val x = 0.
Proof.
  intros Hi Hp Ht Hc Hf. rewrite (held_inside _ _ _ _ Ht Hc), Hp, Hf. destruct (fi_threads _ Hi t) as [?|c' x' f' E1 E2 Hrun Hval _ Hpl]; [congruence|].
  rewrite Ht in E1. injection E1 as <-. rewrite Hc in E2. injection E2 as <-. rewrite Hp in Hpl. inversion Hpl as [Hprev| | |? [? _]]; [by rewrite Hprev|by subst].
Qed.

(** A thread other than [t] is not disturbed when the context of [t] changes. *)
Lemma held_other s s' u : thread_at u s' = thread_at u s -> (forall c, tcb_fiber (thread_at u s) = Some c -> contexts s' !! c = contexts s !! c) -> held s' u = held s u.
Proof. intros Ht Hc. unfold held. rewrite Ht. destruct (tcb_fiber (thread_at u s)) as [c|]; [|done]. by rewrite Hc. Qed.

Lemma current_runs s t c x f : finv s -> tcb_fiber (thread_at t s) = Some c -> contexts s !! c = Some x -> current_fiber x = Some f -> runs s f.
Proof. intros Hi Ht Hc Hf. apply (ow_run _ (fi_owners _ Hi)). exists t. rewrite (held_inside _ _ _ _ Ht Hc), Hf. apply elem_of_app. left. by apply list_elem_of_singleton. Qed.

(** ** Changes of fibers that do not run *)

Lemma finv_quiet s s' : finv s -> fthreads s' = fthreads s -> contexts s' = contexts s -> next_ctx s' = next_ctx s ->
  (forall f, runs s' f <-> runs s f) ->
  (forall f, context (fiber_at f s') = context (fiber_at f s) \/ (context (fiber_at f s') = None /\ ~ runs s f)) ->
  (forall f, addr_context (fiber_at f s') = 0 -> context (fiber_at f s') = None) ->
  (forall f, addr_context (fiber_at f s') <> 0 -> state (fiber_at f s') <> FiberState.Terminated ->
     0 < size_context (fiber_at f s') /\ word_at (addr_context (fiber_at f s')) s' = kFiberStackSignature) -> finv s'.
Proof.
  intros Hi Et Ec En Hr Hc Ha Hs. assert (Hth : forall t, thread_at t s' = thread_at t s) by (intros t; unfold thread_at; by rewrite Et).
  assert (Hc' : forall f c, context (fiber_at f s') = Some c -> context (fiber_at f s) = Some c) by (intros f c E; destruct (Hc f) as [<-|[E' _]]; congruence).
  split; [..|apply (owners_same s); [apply Hi| |done]]; rewrite ?Ec, ?En; try done.
  - apply Hi.
  - intros f c Hf. apply (fi_ctx _ Hi f). by apply Hc'.
  - intros f g c Hf Hg. apply (fi_ctx_inj _ Hi f g c); by apply Hc'.
  - intros f c Hf Hd. destruct (fi_live _ Hi f c) as (t & Hp & Hin); [by apply Hc'|done|]. exists t. unfold inside. rewrite Hth, Ec. done.
  - intros t. destruct (fi_threads _ Hi t) as [H1 H2|c x f H1 H2 H3 H4 H5 H6]; [left; by rewrite Hth|]. eapply tk_inside; rewrite ?Hth, ?Ec; [done..|].
    assert (Hrf : runs s f) by (by eapply current_runs). assert (Ef : context (fiber_at f s') = context (fiber_at f s)) by (destruct (Hc f) as [?|[_ ?]]; done).
    destruct H6 as [?|?|c' y ? ?|d ? ?]; [by apply po_guest|by apply po_return|eapply po_resume; [by rewrite Ef|by rewrite Ec]|apply po_enter; [done|by rewrite Ef]].
  - intros t u c. rewrite !Hth. apply Hi.
  - intros u. apply held_other; [done|]. intros c _. by rewrite Ec.
Qed.

(** ** Going into a fiber *)

(** How a thread that goes into [g], coming from [from], holds the latter. *)
Inductive goes (s : FState) (g : Z) (from : option Z) (x : OrbisFiberContext) : Place -> Prop :=
| go_resume k : context (fiber_at g s) = Some k -> prev_fiber x = from -> goes s g from x (Jumped k)
| go_enter d : context (fiber_at g s) = None -> prev_fiber x = None -> d_state d = from -> goes s g from x (Entering d).

Record enters (t g c : Z) (x : OrbisFiberContext) (P : Place) (s s' : FState) : Prop := {
  en_ctx : contexts s' = <[c := x]> (contexts s);
  en_next : next_ctx s <= next_ctx s' /\ c < next_ctx s';
  en_words : words s' = words s;
  en_fib : forall h, fiber_at h s' = if decide (g = h) then with_state FiberState.Run (fiber_at h s) else fiber_at h s;
  en_thr : forall u, thread_at u s' = if decide (t = u) then mkFthread (Some c) P else thread_at u s }.

(** Thread [t] comes from the guest's code in fiber [f], or is in none. *)
Definition comes (s : FState) (t c : Z) (from : option Z) : Prop :=
  match from with
  | Some f => exists x, tcb_fiber (thread_at t s) = Some c /\ contexts s !! c = Some x /\ current_fiber x = Some f
                /\ forall k, context (fiber_at f s) = Some k -> contexts s !! k <> None
  | None => tcb_fiber (thread_at t s) = None /\ next_ctx s <= c
  end.

Lemma comes_held s t c from : finv s -> place (thread_at t s) = Guest -> comes s t c from -> held s t = option_list from.
Proof.
  intros Hi Hp. destruct from as [f|]; cbn.
  - intros (x & Ht & Hc & Hf & _). by destruct (held_guest _ _ _ _ _ Hi Hp Ht Hc Hf) as [-> _].
  - intros [Ht _]. by apply held_plain.
Qed.

Lemma comes_other s t c from u : finv s -> comes s t c from -> u <> t -> tcb_fiber (thread_at u s) <> Some c.
Proof.
  intros Hi Hc Hu E. destruct from as [f|]; cbn in Hc.
  - destruct Hc as (x & Ht & _). by apply Hu, (fi_tcb _ Hi u t c).
  - destruct Hc as [_ Hn]. destruct (fi_threads _ Hi u) as [?|c' x' f' E1 E2 _]; [congruence|]. assert (c' = c) as -> by congruence. apply (fi_fresh _ Hi) in E2. lia.
Qed.

Lemma comes_saved s t c from f k : finv s -> comes s t c from -> context (fiber_at f s) = Some k -> k <> c.
Proof.
  intros Hi Hc Hk ->. destruct (fi_ctx _ Hi _ _ Hk) as [Hlt Hr]. destruct from as [h|]; cbn in Hc.
  - destruct Hc as (x & Ht & Hx & _). destruct (fi_threads _ Hi t) as [?|c' x' f' E1 E2 Hrun _]; [congruence|]. assert (c' = c) as -> by congruence. rewrite (Hr _ E2) in Hrun. done.
  - destruct Hc as [_ ?]. lia.
Qed.

Lemma finv_enters t g c x P from s s' : finv s -> place (thread_at t s) = Guest -> state (fiber_at g s) = FiberState.Idle -> comes s t c from ->
  enters t g c x P s s' -> is_run x = true -> return_val x = 0 -> current_fiber x = Some g -> goes s g from x P -> finv s'.
Proof.
  intros Hi Hp Hg Hfrom [Ec [En1 En2] Ew Ef Et] Hrun Hval Hcur Hgo.
  pose proof (comes_held _ _ _ _ Hi Hp Hfrom) as Hheld. pose proof (fun u => comes_other _ _ _ _ u Hi Hfrom) as Hother. pose proof (fun f k => comes_saved _ _ _ _ f k Hi Hfrom) as Hsaved.
  assert (Hcx : forall f, context (fiber_at f s') = context (fiber_at f s)) by (intros f; rewrite Ef; by by_cases).
  assert (Hfg : from <> Some g).
  { intros ->. assert (g ∈ held s t) as Hin by (rewrite Hheld; by apply list_elem_of_singleton). assert (runs s g) as E by (apply (ow_run _ (fi_owners _ Hi)); by exists t). unfold runs in E. congruence. }
  assert (Hnot : forall u, g ∉ held s u) by (intros u Hin; assert (runs s g) as E by (apply (ow_run _ (fi_owners _ Hi)); by exists u); unfold runs in E; congruence).
  assert (Hht : held s' t = g :: option_list from).
  { rewrite (held_inside s' t c x); [|by rewrite Et, decide_True|by rewrite Ec, lookup_insert_eq]. rewrite Hcur, Et, decide_True by done. cbn.
    destruct Hgo as [k _ Hpr|d _ Hpr Hd]; cbn; rewrite Hpr; [by rewrite app_nil_r|by rewrite Hd]. }
  assert (Hho : forall u, u <> t -> held s' u = held s u).
  { intros u Hu. apply held_other; [by rewrite Et, decide_False|]. intros k Hk. rewrite Ec, lookup_insert_ne; [done|]. intros ->. by eapply Hother. }
  assert (Hgl : forall k, context (fiber_at g s) = Some k -> contexts s !! k <> None).
  { intros k Hk Hd. destruct (fi_live _ Hi g k Hk Hd) as (u & Hpu & c' & x' & E1 & E2 & E3). apply (Hnot u). destruct (held_guest _ _ _ _ _ Hi Hpu E1 E2 E3) as [-> _]. by apply list_elem_of_singleton. }
  split.
  - intros c' x'. rewrite Ec. destruct (decide (c' = c)) as [->|]; [lia|]. rewrite lookup_insert_ne by done. intros E. apply (fi_fresh _ Hi) in E. lia.
  - intros f. rewrite Hcx, Ef. intros E. apply (fi_area _ Hi). by by_cases.
  - intros f. unfold word_at. rewrite Ef, Ew. destruct (decide (g = f)) as [->|]; [cbn; intros H1 _; apply (fi_stack _ Hi); [done|congruence]|apply (fi_stack _ Hi)].
  - intros f k. rewrite Hcx. intros E. destruct (fi_ctx _ Hi _ _ E) as [Hlt Hx]. split; [lia|]. intros x'. rewrite Ec, lookup_insert_ne by (apply not_eq_sym; by eapply Hsaved). apply Hx.
  - intros f h k. rewrite !Hcx. apply Hi.
  - intros f k. rewrite Hcx, Ec. intros E. rewrite lookup_insert_ne by (apply not_eq_sym; by eapply Hsaved). intros Hd.
    destruct (fi_live _ Hi f k E Hd) as (u & Hpu & c' & x' & E1 & E2 & E3). destruct (decide (u = t)) as [->|Hu].
    + exfalso. destruct from as [f'|]; cbn in Hfrom; [|destruct Hfrom; congruence]. destruct Hfrom as (x0 & F1 & F2 & F3 & F4). assert (f' = f) as -> by congruence. by apply (F4 k).
    + exists u. unfold inside. rewrite Et, decide_False by done. split; [done|]. exists c', x'. split; [done|]. split; [|done]. rewrite Ec, lookup_insert_ne; [done|]. intros <-. by apply (Hother u).
  - intros u. destruct (decide (u = t)) as [->|Hu].
    + eapply (tk_inside _ _ c x g); rewrite ?Ec, ?lookup_insert_eq, ?Et, ?decide_True by done; cbn; try done.
      destruct Hgo as [k Hk Hpr|d Hk Hpr Hd]; [|apply po_enter; [done|by rewrite Hcx]]. destruct (contexts s !! k) as [y|] eqn:Ey; [|by apply Hgl in Ey].
      apply (po_resume _ _ _ _ k y); [by rewrite Hcx|]. rewrite Ec, lookup_insert_ne; [done|]. apply not_eq_sym. by eapply Hsaved.
    + destruct (fi_threads _ Hi u) as [H1 H2|c' x' f H1 H2 H3 H4 H5 H6]; [left; by rewrite Et, decide_False|].
      assert (c <> c') by (intros <-; by apply (Hother u)). eapply tk_inside; rewrite ?Et, ?decide_False by done; rewrite ?Ec, ?lookup_insert_ne by done; [done..|].
      destruct H6 as [?|?|k y ? ?|d ? ?]; [by apply po_guest|by apply po_return|eapply po_resume; [by rewrite Hcx|rewrite Ec, lookup_insert_ne; [done|apply not_eq_sym; by eapply Hsaved]]|apply po_enter; [done|by rewrite Hcx]].
  - intros u v k. rewrite !Et. by_cases; cbn; try done; [intros [= <-] E|intros E [= <-]|apply Hi]; exfalso; by eapply Hother.
  - apply (owners_move t s); [apply Hi|done|rewrite Hht; constructor; [|destruct from; constructor; [set_solver|constructor]]| |].
    + intros Hin. destruct from as [f|]; [|by apply not_elem_of_nil in Hin]. apply list_elem_of_singleton in Hin as ->. done.
    + intros f. rewrite Hht, Hheld, elem_of_cons. intros [->|?]; [right; unfold runs; congruence|by left].
    + intros f. unfold runs at 1. rewrite Ef, Hht, Hheld, elem_of_cons. destruct (decide (g = f)) as [->|Hne]; cbn; [naive_solver|]. split; [|intros [[?|Hin]|[? _]]; [done| |done]].
      * intros Hr. destruct (decide (f ∈ option_list from)); [by left; right|by right].
      * apply (ow_run _ (fi_owners _ Hi)). exists t. by rewrite Hheld.
Qed.

(** ** Leaving a fiber in a call *)

Definition park (sp bp : Z) (at_ : Point) (f : Z) (s : FState) : FState :=
  let '(c, s) := new_ctx (mkFctx (mkRegs sp bp at_) None None 0 0 0) s in set_fiber f (with_context (Some c) (fiber_at f s)) s.

Lemma park_fiber sp bp p f s h : fiber_at h (park sp bp p f s) = if decide (f = h) then with_context (Some (next_ctx s)) (fiber_at h s) else fiber_at h s.
Proof. unfold park. cbn [new_ctx]. rewrite fiber_set. by destruct (decide (f = h)) as [->|]. Qed.

Lemma tcb_old s t c : finv s -> tcb_fiber (thread_at t s) = Some c -> c < next_ctx s.
Proof. intros Hi Ht. destruct (fi_threads _ Hi t) as [?|c' x f E1 E2 _]; [congruence|]. apply (fi_fresh _ Hi c' x) in E2. congruence. Qed.

Lemma finv_park sp bp p f s : finv s -> addr_context (fiber_at f s) <> 0 -> match p with AtRun _ => False | _ => True end -> (exists t, inside s t f) -> finv (park sp bp p f s).
Proof.
  intros Hi Ha Hp (t & Hpl & c & x & Ht & Hc & Hf). pose proof (fun h => park_fiber sp bp p f s h) as Ef. set (s' := park sp bp p f s) in *. set (k := next_ctx s) in *.
  assert (Ec : contexts s' = <[k := mkFctx (mkRegs sp bp p) None None 0 0 0]> (contexts s)) by done. assert (Eth : forall u, thread_at u s' = thread_at u s) by done.
  assert (Hold : forall k' y, contexts s !! k' = Some y -> contexts s' !! k' = Some y) by (intros k' y E; rewrite Ec, lookup_insert_ne; [done|]; apply (fi_fresh _ Hi) in E; lia).
  assert (Hin : inside s t f) by (split; [done|]; by exists c, x).
  assert (Hother : forall u h, (exists c x, tcb_fiber (thread_at u s) = Some c /\ contexts s !! c = Some x /\ current_fiber x = Some h /\ (place (thread_at u s) <> Guest)) -> h <> f).
  { intros u h (c' & x' & E1 & E2 & E3 & E4) ->. assert (u = t) as ->; [|done]. apply (ow_one _ (fi_owners _ Hi) u t f); rewrite ?(held_inside _ _ _ _ E1 E2), ?(held_inside _ _ _ _ Ht Hc), ?E3, ?Hf; apply elem_of_app; left; by apply list_elem_of_singleton. }
  split.
  - intros c' x'. rewrite Ec. change (next_ctx s') with (k + 1). destruct (decide (c' = k)) as [->|]; [lia|]. rewrite lookup_insert_ne by done. intros E. apply (fi_fresh _ Hi) in E. lia.
  - intros h. rewrite Ef. by_cases; cbn; [done|apply Hi].
  - intros h. rewrite Ef. change (words s') with (words s). destruct (decide (f = h)) as [->|]; cbn; apply (fi_stack _ Hi).
  - intros h k'. rewrite Ef, Ec. change (next_ctx s') with (k + 1). destruct (decide (f = h)) as [->|]; cbn.
    + intros [= <-]. split; [lia|]. intros x'. rewrite lookup_insert_eq. intros [= <-]. by destruct p.
    + intros E. destruct (fi_ctx _ Hi _ _ E) as [Hlt Hx]. split; [lia|]. intros x'. rewrite lookup_insert_ne by lia. apply Hx.
  - intros h h' k'. rewrite !Ef. by_cases; cbn; try done; [intros [= <-] E|intros E [= <-]|apply Hi]; exfalso; apply (fi_ctx _ Hi) in E as [? _]; lia.
  - intros h k'. rewrite Ef, Ec. destruct (decide (f = h)) as [->|]; cbn; [intros [= <-]; by rewrite lookup_insert_eq|]. intros E. destruct (fi_ctx _ Hi _ _ E) as [Hlt _]. rewrite lookup_insert_ne by lia.
    intros Hd. destruct (fi_live _ Hi h k' E Hd) as (u & Hpu & c' & x' & E1 & E2 & E3). exists u. split; [done|]. exists c', x'. eauto.
  - intros u. destruct (fi_threads _ Hi u) as [H1 H2|c' x' h H1 H2 H3 H4 H5 H6]; [by left|]. eapply tk_inside; [done|by apply Hold|done..|]. rewrite Eth.
    pose proof (Hother u h) as Ho. remember (place (thread_at u s)) as P eqn:HP.
    destruct H6 as [?|?|k' y ? ?|d ? ?]; [by apply po_guest|by apply po_return|eapply po_resume; [rewrite Ef, decide_False; [done|]|by apply Hold]|apply po_enter; [done|rewrite Ef, decide_False; [done|]]].
    all: apply not_eq_sym, Ho; exists c', x'; split_and!; try done. intros ->. naive_solver.
  - intros u v k'. rewrite !Eth. apply Hi.
  - apply (owners_same s); [apply Hi| |].
    + intros u. apply held_other; [done|]. intros c' E. rewrite Ec, lookup_insert_ne; [done|]. apply (tcb_old _ _ _ Hi) in E. lia.
    + intros h. unfold runs. rewrite Ef. by by_cases.
Qed.

(** The context of the fiber a thread has just left or not yet entered is alive. *)
Lemma live_unless_inside s t c x f k : finv s -> tcb_fiber (thread_at t s) = Some c -> contexts s !! c = Some x -> current_fiber x = Some f -> place (thread_at t s) <> Guest ->
  context (fiber_at f s) = Some k -> contexts s !! k <> None.
Proof.
  intros Hi Ht Hc Hf Hp Hk Hd. destruct (fi_live _ Hi f k Hk Hd) as (u & Hpu & c' & x' & E1 & E2 & E3). assert (u = t) as ->; [|done].
  apply (ow_one _ (fi_owners _ Hi) u t f); rewrite ?(held_inside _ _ _ _ E1 E2), ?(held_inside _ _ _ _ Ht Hc), ?E3, ?Hf; apply elem_of_app; left; by apply list_elem_of_singleton.
Qed.

Lemma with_prev_id x : prev_fiber x = None -> with_prev None x = x.
Proof. destruct x; cbn. by intros ->. Qed.

(** ** Returning to the thread *)

Definition returning (t c : Z) (x : OrbisFiberContext) (arg : Z) (s : FState) : FState := set_place t (Jumped c) (set_ctx c (with_return arg x) s).

Lemma finv_returning t c x f arg s : finv s -> place (thread_at t s) = Guest -> tcb_fiber (thread_at t s) = Some c -> contexts s !! c = Some x -> current_fiber x = Some f ->
  (forall k, context (fiber_at f s) = Some k -> contexts s !! k <> None) -> finv (returning t c x arg s).
Proof.
  intros Hi Hp Ht Hc Hf Hlive. destruct (held_guest _ _ _ _ _ Hi Hp Ht Hc Hf) as (Hheld & Hprev & Hrun & Hval). set (s' := returning t c x arg s).
  assert (Ec : contexts s' = <[c := with_return arg x]> (contexts s)) by done. assert (Ef : forall h, fiber_at h s' = fiber_at h s) by done.
  assert (Et : forall u, thread_at u s' = if decide (t = u) then mkFthread (Some c) (Jumped c) else thread_at u s) by (intros u; unfold s', returning; rewrite thread_set_place; by_cases; [by rewrite <- Ht|done]).
  assert (Hfrom : comes s t c (Some f)) by (by exists x). pose proof (fun h k => comes_saved _ _ _ _ h k Hi Hfrom) as Hsaved. pose proof (fun u => comes_other _ _ _ _ u Hi Hfrom) as Hother.
  assert (Hsome : forall k, is_Some (contexts s' !! k) <-> is_Some (contexts s !! k)).
  { intros k. rewrite Ec. destruct (decide (c = k)) as [->|]; [rewrite lookup_insert_eq, Hc; split; eauto|by rewrite lookup_insert_ne]. }
  split.
  - intros k y E. assert (is_Some (contexts s !! k)) as [z Hz] by (apply Hsome; eauto). by apply (fi_fresh _ Hi k z).
  - apply Hi.
  - apply Hi.
  - intros h k E. destruct (fi_ctx _ Hi _ _ E) as [Hlt Hx]. split; [done|]. intros y. rewrite Ec, lookup_insert_ne by (apply not_eq_sym; by eapply Hsaved). apply Hx.
  - apply Hi.
  - intros h k E Hd. assert (contexts s !! k = None) as Hd' by (apply eq_None_not_Some; rewrite <- Hsome, Hd; by intros [? ?]).
    destruct (fi_live _ Hi h k E Hd') as (u & Hpu & c' & x' & E1 & E2 & E3). destruct (decide (t = u)) as [->|Hu].
    + exfalso. assert (h = f) as -> by congruence. by apply (Hlive k).
    + exists u. unfold inside. rewrite Et, decide_False by done. split; [done|]. exists c', x'. split; [done|]. split; [|done]. rewrite Ec, lookup_insert_ne; [done|]. intros ->. by apply (Hother u).
  - intros u. destruct (decide (t = u)) as [->|Hu].
    + eapply (tk_inside _ _ c (with_return arg x) f); rewrite ?Et, ?decide_True by done; rewrite ?Ec, ?lookup_insert_eq; try done. by apply po_return.
    + destruct (fi_threads _ Hi u) as [H1 H2|c' x' h H1 H2 H3 H4 H5 H6]; [left; by rewrite Et, decide_False|]. assert (c <> c') by (intros <-; by apply (Hother u)).
      eapply tk_inside; rewrite ?Et, ?decide_False by done; rewrite ?Ec, ?lookup_insert_ne by done; [done..|].
      destruct H6 as [?|?|k y ? ?|d ? ?]; [by apply po_guest|by apply po_return|eapply po_resume; [done|rewrite Ec, lookup_insert_ne; [done|apply not_eq_sym; by eapply Hsaved]]|by apply po_enter].
  - intros u v k. rewrite !Et. by_cases; cbn; try done; [intros [= <-] E|intros E [= <-]|apply Hi]; exfalso; by eapply Hother.
  - apply (owners_same s); [apply Hi| |done]. intros u. destruct (decide (t = u)) as [->|Hu].
    + rewrite (held_inside s' u c (with_return arg x)); [|by rewrite Et, decide_True|by rewrite Ec, lookup_insert_eq]. rewrite Et, decide_True by done. cbn. by rewrite Hf, Hprev, Hheld.
    + apply held_other; [by rewrite Et, decide_False|]. intros k Hk. rewrite Ec, lookup_insert_ne; [done|]. intros <-. by apply (Hother u).
Qed.

(** ** Landing *)

(** [t] leaves for good what it left, and goes on at [Q]. *)
Record lands (t c : Z) (x : OrbisFiberContext) (gone : option Z) (p : option Z) (Q : Place) (s s' : FState) : Prop := {
  la_ctx : contexts s' = (match gone with Some k => delete k | None => id end) (<[c := with_prev None x]> (contexts s));
  la_next : next_ctx s' = next_ctx s;
  la_words : words s' = words s;
  la_fib : forall h, fiber_at h s' = if decide (p = Some h) then with_state FiberState.Idle (fiber_at h s) else fiber_at h s;
  la_thr : forall u, thread_at u s' = if decide (t = u) then mkFthread (Some c) Q else thread_at u s }.

(** What is given up, which context dies and where the thread goes on when a thread
    inside a fiber lands. *)
Inductive landing (c : Z) (x : OrbisFiberContext) : Place -> option Z -> option Z -> Place -> Prop :=
| ld_jump k : k <> c -> landing c x (Jumped k) (Some k) (prev_fiber x) Guest
| ld_enter d Q : Q = Guest \/ (exists fr, Q = Fetching d fr) -> landing c x (Entering d) None (d_state d) Q
| ld_fetch d fr : landing c x (Fetching d fr) None None Guest.

(** What a landing leaves of contexts and threads. *)
Record land_view (t c : Z) (x : OrbisFiberContext) (f : Z) (gone p : option Z) (s s' : FState) : Prop := {
  lv_run : is_run x = true;
  lv_val : return_val x = 0;
  lv_held : held s t = f :: option_list p;
  lv_gone k : gone = Some k -> context (fiber_at f s) = Some k;
  lv_saved h k : context (fiber_at h s) = Some k -> k <> c;
  lv_keep k : k <> c -> gone <> Some k -> contexts s' !! k = contexts s !! k;
  lv_own : contexts s' !! c = Some (with_prev None x);
  lv_sub k y : k <> c -> contexts s' !! k = Some y -> contexts s !! k = Some y;
  lv_left : p <> Some f;
  lv_tcb u k : u <> t -> tcb_fiber (thread_at u s) = Some k -> contexts s' !! k = contexts s !! k;
  lv_cur u h c' x' : u <> t -> tcb_fiber (thread_at u s) = Some c' -> contexts s !! c' = Some x' -> current_fiber x' = Some h -> h <> f }.

Lemma lands_view t c x f gone p Q s s' : finv s -> tcb_fiber (thread_at t s) = Some c -> contexts s !! c = Some x -> current_fiber x = Some f ->
  landing c x (place (thread_at t s)) gone p Q -> lands t c x gone p Q s s' -> land_view t c x f gone p s s'.
Proof.
  intros Hi Ht Hc Hf Hl [Ec En Ew Ef Et]. destruct (fi_threads _ Hi t) as [?|c' x' f' E1 E2 Hrun Hval E5 Hpl]; [congruence|].
  rewrite Ht in E1. injection E1 as <-. rewrite Hc in E2. injection E2 as <-. rewrite Hf in E5. injection E5 as <-.
  assert (Hheld : held s t = f :: option_list p).
  { rewrite (held_inside _ _ _ _ Ht Hc), Hf. destruct Hl as [k Hk|d Q _|d fr]; cbn; [by rewrite app_nil_r|..]; inversion Hpl as [| | |? [_ Hpr] _]; by rewrite Hpr. }
  assert (Hgone : forall k, gone = Some k -> context (fiber_at f s) = Some k).
  { intros k ->. inversion Hl as [k' Hk E E'| |]; subst. rewrite <- E in Hpl. inversion Hpl as [| | |? [? _]]; subst; congruence || done. }
  pose proof (fun u => fi_tcb _ Hi u t c) as Hother. assert (Hsaved : forall h k, context (fiber_at h s) = Some k -> k <> c).
  { intros h k Hk ->. destruct (fi_ctx _ Hi _ _ Hk) as [_ Hr]. rewrite (Hr _ Hc) in Hrun. done. }
  assert (Hkeep : forall k, k <> c -> gone <> Some k -> contexts s' !! k = contexts s !! k).
  { intros k H1 H2. rewrite Ec. destruct gone as [k'|]; cbn; [rewrite lookup_delete_ne by congruence|]; by rewrite lookup_insert_ne. }
  assert (Hcc : contexts s' !! c = Some (with_prev None x)).
  { rewrite Ec. destruct gone as [k'|]; cbn; [rewrite lookup_delete_ne|]; [by rewrite lookup_insert_eq|by apply (Hsaved f), Hgone|by rewrite lookup_insert_eq]. }
  assert (Hsub : forall k y, k <> c -> contexts s' !! k = Some y -> contexts s !! k = Some y).
  { intros k y H1. rewrite Ec. destruct gone as [k'|]; cbn; [rewrite lookup_delete_Some; intros [_ E]; revert E|]; by rewrite lookup_insert_ne. }
  assert (Hpf : p <> Some f) by (intros ->; pose proof (ow_nodup _ (fi_owners _ Hi) t) as Hn; rewrite Hheld in Hn; apply NoDup_cons in Hn as [Hn _]; apply Hn, list_elem_of_singleton; done).
  assert (Htcb : forall u k, u <> t -> tcb_fiber (thread_at u s) = Some k -> contexts s' !! k = contexts s !! k).
  { intros u k Hu E. apply Hkeep; [intros ->; by apply Hu, Hother|]. intros Eg. apply Hgone in Eg. destruct (fi_threads _ Hi u) as [?|c' x' f' E1 E2 Hr _]; [congruence|].
    assert (c' = k) as -> by congruence. rewrite (proj2 (fi_ctx _ Hi _ _ Eg) _ E2) in Hr. done. }
  assert (Hcur : forall u h c' x', u <> t -> tcb_fiber (thread_at u s) = Some c' -> contexts s !! c' = Some x' -> current_fiber x' = Some h -> h <> f).
  { intros u h c' x' Hu E1 E2 E3 ->. apply Hu, (ow_one _ (fi_owners _ Hi) u t f); [rewrite (held_inside _ _ _ _ E1 E2), E3|rewrite Hheld]; by apply elem_of_cons; left. }
  by split.
Qed.

Lemma finv_lands t c x f gone p Q s s' : finv s -> tcb_fiber (thread_at t s) = Some c -> contexts s !! c = Some x -> current_fiber x = Some f ->
  landing c x (place (thread_at t s)) gone p Q -> lands t c x gone p Q s s' -> finv s'.
Proof.
  intros Hi Ht Hc Hf Hl HL. destruct (lands_view _ _ _ _ _ _ _ _ _ Hi Ht Hc Hf Hl HL) as [Hrun Hval Hheld Hgone Hsaved Hkeep Hcc Hsub Hpf Htcb Hcur]. destruct HL as [Ec En Ew Ef Et].
  assert (Hcx : forall h, context (fiber_at h s') = context (fiber_at h s)) by (intros h; rewrite Ef; by by_cases). pose proof (fun u => fi_tcb _ Hi u t c) as Hother.
  split.
  - intros k y E. rewrite En. destruct (decide (k = c)) as [->|]; [by apply (fi_fresh _ Hi c x)|by eapply (fi_fresh _ Hi), Hsub].
  - intros h. rewrite Hcx, Ef. intros E. apply (fi_area _ Hi). by by_cases.
  - intros h. unfold word_at. rewrite Ef, Ew. destruct (decide (p = Some h)) as [->|]; [|apply (fi_stack _ Hi)]. cbn. intros H1 _. apply (fi_stack _ Hi); [done|].
    assert (runs s h) as Hr by (apply (ow_run _ (fi_owners _ Hi)); exists t; rewrite Hheld; apply elem_of_cons; right; by apply list_elem_of_singleton). unfold runs in Hr. congruence.
  - intros h k. rewrite Hcx, En. intros E. destruct (fi_ctx _ Hi _ _ E) as [Hlt Hx]. split; [done|]. intros y Hy. eapply Hx, Hsub; [by eapply Hsaved|done].
  - intros h h' k. rewrite !Hcx. apply Hi.
  - intros h k. rewrite Hcx. intros E Hd. destruct (decide (gone = Some k)) as [Eg|Eg].
    + assert (h = f) as -> by (apply (fi_ctx_inj _ Hi _ _ k); [done|by apply Hgone]). exists t. unfold inside. rewrite Et, decide_True by done. rewrite Eg in Hl. split; [by inversion Hl|]. by exists c, (with_prev None x).
    + rewrite Hkeep in Hd; [|by eapply Hsaved|done]. destruct (fi_live _ Hi h k E Hd) as (u & Hpu & c' & x' & E1 & E2 & E3). assert (u <> t) by (intros ->; rewrite Hpu in Hl; inversion Hl).
      exists u. unfold inside. rewrite Et, decide_False by done. split; [done|]. exists c', x'. split; [done|]. split; [|done]. by rewrite (Htcb u).
  - intros u. destruct (decide (t = u)) as [<-|Hu].
    + eapply (tk_inside _ _ c (with_prev None x) f); rewrite ?Et, ?decide_True by done; try done. cbn.
      inversion Hl as [k ? E|d Q' HQ E|d fr E]; subst; [by apply po_guest| |by apply po_guest]. destruct HQ as [->|[fr ->]]; [by apply po_guest|]. apply po_enter; [done|]. rewrite Hcx.
      destruct (fi_threads _ Hi t) as [?|c' x' f' F1 F2 _ _ F5 F6]; [congruence|]. assert (c' = c) as -> by congruence. assert (x' = x) as -> by congruence. assert (f' = f) as -> by congruence.
      rewrite <- E in F6. by inversion F6.
    + destruct (fi_threads _ Hi u) as [H1 H2|c' x' h H1 H2 H3 H4 H5 H6]; [left; by rewrite Et, decide_False|]. pose proof (Hcur u h c' x' (not_eq_sym Hu) H1 H2 H5) as Hhf.
      eapply tk_inside; rewrite ?Et, ?decide_False by done; [done|rewrite (Htcb u); done|done..|].
      destruct H6 as [?|?|k y Hk ?|d ? ?]; [by apply po_guest|by apply po_return|eapply po_resume; [by rewrite Hcx|rewrite Hkeep; [done|by eapply Hsaved|]]|apply po_enter; [done|by rewrite Hcx]].
      intros Eg. apply Hhf, (fi_ctx_inj _ Hi h f k); [done|by apply Hgone].
  - intros u v k. rewrite !Et. by_cases; cbn; try done; [intros [= <-] E|intros E [= <-]|apply Hi]; [|symmetry]; exfalso; by eauto using eq_sym.
  - assert (Hht : held s' t = [f]) by (rewrite (held_inside s' t c (with_prev None x)); [|by rewrite Et, decide_True|done]; rewrite Et, decide_True by done; cbn; rewrite Hf; assert (leaving Q = None) as -> by (inversion Hl as [|? ? [->|[? ->]]|]; done); done).
    apply (owners_move t s); [apply Hi| |rewrite Hht; constructor; [by apply not_elem_of_nil|constructor]|..].
    + intros u Hu. apply held_other; [by rewrite Et, decide_False|]. intros k Hk. by apply (Htcb u).
    + intros h. rewrite Hht, Hheld. intros ->%list_elem_of_singleton. left. by apply elem_of_cons; left.
    + intros h. unfold runs at 1. rewrite Ef, Hht, Hheld, list_elem_of_singleton, elem_of_cons. destruct (decide (p = Some h)) as [->|Hp]; cbn.
      * split; [done|]. intros [->|[_ Hn]]; [done|]. exfalso. apply Hn. right. by apply list_elem_of_singleton.
      * assert (h ∉ option_list p) by (destruct p; cbn; [intros ->%list_elem_of_singleton; done|by apply not_elem_of_nil]).
        assert (runs s f) by (by eapply current_runs). destruct (decide (h = f)) as [->|]; unfold runs in *; naive_solver.
Qed.

(** [t] is back in its own code and has given up [f]. *)
Record quits (t c f : Z) (s s' : FState) : Prop := {
  qu_ctx : contexts s' = delete c (contexts s);
  qu_next : next_ctx s' = next_ctx s;
  qu_words : words s' = words s;
  qu_fib : forall h, fiber_at h s' = if decide (f = h) then with_state FiberState.Idle (fiber_at h s) else fiber_at h s;
  qu_thr : forall u, thread_at u s' = if decide (t = u) then mkFthread None Guest else thread_at u s }.

Lemma finv_quits t c x f s s' : finv s -> tcb_fiber (thread_at t s) = Some c -> contexts s !! c = Some x -> current_fiber x = Some f ->
  place (thread_at t s) = Jumped c -> quits t c f s s' -> finv s'.
Proof.
  intros Hi Ht Hc Hf Hp [Ec En Ew Ef Et]. destruct (fi_threads _ Hi t) as [?|c' x' f' E1 E2 Hrun Hval E5 Hpl]; [congruence|].
  rewrite Ht in E1. injection E1 as <-. rewrite Hc in E2. injection E2 as <-. rewrite Hf in E5. injection E5 as <-.
  assert (Hsaved : forall h k, context (fiber_at h s) = Some k -> k <> c) by (intros h k Hk ->; destruct (fi_ctx _ Hi _ _ Hk) as [_ Hr]; rewrite (Hr _ Hc) in Hrun; done).
  assert (Hheld : held s t = [f]).
  { rewrite (held_inside _ _ _ _ Ht Hc), Hf, Hp. rewrite Hp in Hpl. inversion Hpl as [|Hpr|k y Hk Hy|? [? _]]; subst; [by rewrite Hpr| |done]. by apply Hsaved in Hk. }
  assert (Hcx : forall h, context (fiber_at h s') = context (fiber_at h s)) by (intros h; rewrite Ef; by by_cases).
  pose proof (fun u => fi_tcb _ Hi u t c) as Hother. assert (Hkeep : forall k, k <> c -> contexts s' !! k = contexts s !! k) by (intros k Hk; by rewrite Ec, lookup_delete_ne).
  assert (Htcb : forall u k, u <> t -> tcb_fiber (thread_at u s) = Some k -> k <> c) by (intros u k Hu E ->; by apply Hu, Hother).
  split.
  - intros k y. rewrite Ec, En, lookup_delete_Some. intros [_ E]. by eapply (fi_fresh _ Hi).
  - intros h. rewrite Hcx, Ef. intros E. apply (fi_area _ Hi). by by_cases.
  - intros h. unfold word_at. rewrite Ef, Ew. destruct (decide (f = h)) as [->|]; [|apply (fi_stack _ Hi)]. cbn. intros H1 _. apply (fi_stack _ Hi); [done|].
    assert (runs s h) as Hr by (by eapply current_runs). unfold runs in Hr. congruence.
  - intros h k. rewrite Hcx, En. intros E. rewrite Hkeep by (by eapply Hsaved). by apply (fi_ctx _ Hi h).
  - intros h h' k. rewrite !Hcx. apply Hi.
  - intros h k. rewrite Hcx. intros E. rewrite Hkeep by (by eapply Hsaved). intros Hd. destruct (fi_live _ Hi h k E Hd) as (u & Hpu & c' & x' & E1 & E2 & E3).
    assert (u <> t) as Hu by congruence. exists u. unfold inside. rewrite Et, decide_False by done. split; [done|]. exists c', x'. split; [done|]. rewrite Hkeep by (by eapply Htcb). done.
  - intros u. destruct (decide (t = u)) as [<-|Hu]; [left; by rewrite Et, decide_True|].
    destruct (fi_threads _ Hi u) as [H1 H2|c' x' h H1 H2 H3 H4 H5 H6]; [left; by rewrite Et, decide_False|].
    eapply tk_inside; rewrite ?Et, ?decide_False by done; [done|rewrite Hkeep by (by eapply Htcb); done|done..|].
    destruct H6 as [?|?|k y Hk ?|d ? ?]; [by apply po_guest|by apply po_return|eapply po_resume; [by rewrite Hcx|rewrite Hkeep; [done|by eapply Hsaved]]|apply po_enter; [done|by rewrite Hcx]].
  - intros u v k. rewrite !Et. by_cases; cbn; try done. apply Hi.
  - assert (Hht : held s' t = []) by (apply held_plain; by rewrite Et, decide_True).
    apply (owners_move t s); [apply Hi| |rewrite Hht; constructor|..].
    + intros u Hu. apply held_other; [by rewrite Et, decide_False|]. intros k Hk. apply Hkeep. by eapply Htcb.
    + intros h. rewrite Hht. by intros ?%not_elem_of_nil.
    + intros h. unfold runs at 1. rewrite Ef, Hht, Hheld, list_elem_of_singleton. rewrite elem_of_nil. destruct (decide (f = h)) as [->|]; cbn; unfold runs; naive_solver.
Qed.

(** ** Stacks in memory *)

Lemma fill_pattern_lookup n p m b : (forall i, 0 <= i < Z.of_nat n -> b <> p + 8 * i) -> fill_pattern n p m !! b = m !! b.
Proof.
  revert p m. induction n as [|n IH]; intros p m H; cbn; [done|]. rewrite IH by (intros i Hi; specialize (H (i + 1)); lia). rewrite lookup_insert_ne; [done|]. specialize (H 0). lia.
Qed.

Lemma mark_lookup a e fill m b : mark_stack a e fill m !! b = (if decide (b = a) then Some kFiberStackSignature else m !! b) \/ (fill = true /\ a < b < e).
Proof.
  unfold mark_stack. assert (Hb : <[a := kFiberStackSignature]> m !! b = if decide (b = a) then Some kFiberStackSignature else m !! b) by (destruct (decide (b = a)) as [->|]; [by rewrite lookup_insert_eq|by rewrite lookup_insert_ne]).
  destruct fill; [|by left]. destruct (decide (a < b < e)); [by right|]. left. rewrite fill_pattern_lookup; [done|]. intros i Hi ->. unfold words_between in Hi.
  assert (0 <= i < (e - (a + 8) + 7) / 8) as [H1 H2] by lia. assert (8 * ((e - (a + 8) + 7) / 8) <= e - (a + 8) + 7) by (apply Z.mul_div_le; lia). lia.
Qed.

(** The area [addr], [size] for [fiber] is in the address space and apart from those of
    other fibers. *)
Definition area_free (fiber addr size : Z) (s : FState) : Prop :=
  0 <= addr /\ addr + size < W64 /\ forall h, h <> fiber -> addr_context (fiber_at h s) <> 0 -> state (fiber_at h s) <> FiberState.Terminated ->
    addr + size <= addr_context (fiber_at h s) \/ addr_context (fiber_at h s) + size_context (fiber_at h s) <= addr.

Lemma finv_area s fiber f addr size fill : finv s -> ~ runs s fiber -> area_free fiber addr size s -> 0 < size -> state f <> FiberState.Run ->
  addr_context f = addr -> size_context f = size -> addr <> 0 -> context f = None \/ context f = context (fiber_at fiber s) ->
  finv (set_words (mark_stack addr (wadd addr size) fill (words s)) (set_fiber fiber f s)).
Proof.
  intros Hi Hr (H0 & H1 & Hfree) Hsz Hst Ha Hs Hnz Hcx. rewrite wadd_small by lia.
  set (s' := set_words _ _). assert (Ef : forall h, fiber_at h s' = if decide (fiber = h) then f else fiber_at h s) by (intros h; apply fiber_set).
  apply (finv_quiet s); try done.
  - intros h. unfold runs. rewrite Ef. destruct (decide (fiber = h)) as [<-|]; [|done]. unfold runs in Hr. naive_solver.
  - intros h. rewrite Ef. destruct (decide (fiber = h)) as [<-|]; [|by left]. destruct Hcx as [?|?]; [right; done|by left].
  - intros h. rewrite Ef. destruct (decide (fiber = h)) as [<-|]; [congruence|apply Hi].
  - intros h. rewrite Ef. unfold word_at, s'. cbn [words set_words]. destruct (decide (fiber = h)) as [<-|Hne].
    + rewrite Ha, Hs. intros _ _. split; [done|]. destruct (mark_lookup addr (addr + size) fill (words s) addr) as [E|[_ ?]]; [|lia]. by rewrite E, decide_True.
    + intros Hnz' Ht. destruct (fi_stack _ Hi h Hnz' Ht) as [Hs1 Hs2]. split; [done|]. specialize (Hfree h (not_eq_sym Hne) Hnz' Ht).
      destruct (mark_lookup addr (addr + size) fill (words s) (addr_context (fiber_at h s))) as [E|[_ ?]]; [|lia]. rewrite E, decide_False by lia. exact Hs2.
Qed.

(** ** Attaching a stack *)

(** Everything but the stack of [fiber] is as before. *)
Record attached (fiber : Z) (s s' : FState) : Prop := {
  at_ctx : contexts s' = contexts s;
  at_next : next_ctx s' = next_ctx s;
  at_thr : fthreads s' = fthreads s;
  at_other : forall h, h <> fiber -> fiber_at h s' = fiber_at h s;
  at_fib : fiber_at fiber s' = fiber_at fiber s \/ exists a n, fiber_at fiber s' = with_area a n (fiber_at fiber s);
  at_quiet : s' = s \/ ~ runs s fiber }.

Lemma attached_refl fiber s : attached fiber s s.
Proof. split; try done; by left. Qed.

Lemma attached_state fiber s s' h : attached fiber s s' -> state (fiber_at h s') = state (fiber_at h s) /\ context (fiber_at h s') = context (fiber_at h s).
Proof. intros [_ _ _ Ho Hf _]. destruct (decide (h = fiber)) as [->|]; [|by rewrite Ho]. destruct Hf as [->|(a & n & ->)]; done. Qed.

Lemma attached_thread fiber s s' t : attached fiber s s' -> thread_at t s' = thread_at t s.
Proof. intros Ha. unfold thread_at. by rewrite (at_thr _ _ _ Ha). Qed.

Lemma attach_spec fiber addr size s res s' : finv s -> (addr <> 0 \/ size <> 0 -> ~ runs s fiber /\ area_free fiber addr size s) ->
  attach_if_given fiber addr size s = (res, s') -> finv s' /\ attached fiber s s' /\ (res < 0 -> s' = s).
Proof.
  intros Hi Hs. unfold attach_if_given. destruct (negb (addr =? 0) || negb (size =? 0)) eqn:Eg; [|intros [= <- <-]; split; [done|]; split; [apply attached_refl|done]].
  assert (addr <> 0 \/ size <> 0) as Hg by (apply orb_true_iff in Eg as [E|E]; apply negb_true_iff, Z.eqb_neq in E; auto). destruct (Hs Hg) as [Hr Hfree].
  unfold _sceFiberAttachContext. destruct (negb (size =? 0) && (size <? ORBIS_FIBER_CONTEXT_MINIMUM_SIZE)) eqn:E1; [intros [= <- <-]; by auto using attached_refl|].
  destruct (negb (Z.land size 15 =? 0)); [intros [= <- <-]; by auto using attached_refl|]. destruct ((addr =? 0) || (size =? 0)) eqn:E2; [intros [= <- <-]; by auto using attached_refl|].
  destruct (negb (addr_context (fiber_at fiber s) =? 0)) eqn:E3; [intros [= <- <-]; by auto using attached_refl|]. intros [= <- <-].
  apply orb_false_iff in E2 as [E2 E4]. rewrite E4 in E1. cbn in E1. apply Z.eqb_neq in E2, E4. apply Z.ltb_ge in E1. unfold ORBIS_FIBER_CONTEXT_MINIMUM_SIZE in E1.
  split; [|split; [|done]].
  - apply finv_area; try done; [lia|by right].
  - split; try done; [intros h Hh; etransitivity; [apply fiber_set|]; by rewrite decide_False| |by right]. right. exists addr, size. etransitivity; [apply fiber_set|]. by rewrite decide_True.
Qed.
