(* ===== verification/FiberSteps.v ===== *)
(** * Fibers: what every call does, and the machine of all threads

    [fiber_step] is a step of one thread: a call of guest code, or the landing after a
    jump.  Histories respect the library's rules ([sane]): a fiber is not initialised,
    and no stack attached to it, while it runs; the stacks of fibers are apart and
    their first word is left alone; the entry of a fiber does not return.  Every sane
    call completes, keeps the invariant and disturbs no other thread ([orderly]); a
    landing completes unless the data it fetches are lost ([safe_landing]). *)

From stdpp Require Import gmap.
From S2P Require Import Prelude Fiber FiberFacts.

(** ** Calls that jump *)

(** The target [g] can be entered by a call with these arguments. *)
Definition target_ok (g addr : Z) (s : FState) : Prop := bad_target g addr s = None.

Lemma set_ctx_id c x s : contexts s !! c = Some x -> set_ctx c x s = s.
Proof. intros E. destruct s as [a m b d e f h]. unfold set_ctx, set_contexts. cbn in *. by rewrite insert_id. Qed.

(** What a jump into [g] leaves: the context of the thread and its place. *)
Record jump (g arg stack : Z) (from : option Z) (x x' : OrbisFiberContext) (P : Place) (s : FState) : Prop := {
  ju_regs : regs x' = regs x;
  ju_val : return_val x' = return_val x;
  ju_cur : current_fiber x' = Some g;
  ju_goes : goes s g from x' P;
  ju_resume : forall k, context (fiber_at g s) = Some k -> P = Jumped k /\ arg_on_run_to x' = arg;
  ju_enter : context (fiber_at g s) = None -> P = Entering (entry_data (fiber_at g s) arg stack from) }.

Definition stack_of (g : Z) (x : OrbisFiberContext) (s : FState) : Z :=
  if addr_context (fiber_at g s) =? 0 then align_stack (rsp (regs x)) else wadd (addr_context (fiber_at g s)) (size_context (fiber_at g s)).

Lemma switch_to_spec t g arg c x s : contexts s !! c = Some x -> current_fiber x = Some g -> addr_context (fiber_at g s) <> 0 ->
  exists x' P, _sceFiberSwitchToFiber t g arg c s = Done (None, set_place t P (set_ctx c x' s)) /\ jump g arg (stack_of g x s) (prev_fiber x) x x' P s.
Proof.
  intros Hc Hcur Ha. unfold _sceFiberSwitchToFiber, ctx_at. rewrite Hc. cbn [of_option obind]. unfold stack_of. rewrite (proj2 (Z.eqb_neq _ _) Ha).
  destruct (context (fiber_at g s)) as [k|] eqn:Ek.
  - exists (with_run_to arg x), (Jumped k). split; [done|]. split; try done; [by apply go_resume|naive_solver|congruence].
  - destruct (prev_fiber x) as [p|] eqn:Ep.
    + eexists (with_prev None x), _. split; [done|]. split; try done; [by apply go_enter|congruence].
    + exists x. eexists. split; [unfold switch_entry; by rewrite (set_ctx_id c x)|]. split; try done; [by apply go_enter|congruence].
Qed.

Lemma switch_spec t cur g arg c x s : contexts s !! c = Some x -> (addr_context (fiber_at g s) = 0 -> context (fiber_at g s) = None) ->
  exists x' P, _sceFiberSwitch t cur g arg c s = Done (None, set_place t P (set_ctx c x' s)) /\ jump g arg (stack_of g x s) (Some cur) x x' P s.
Proof.
  intros Hc Ha. unfold _sceFiberSwitch, ctx_at. rewrite Hc. cbn [of_option obind]. unfold stack_of. set (x1 := with_current (Some g) (with_prev (Some cur) x)).
  destruct (addr_context (fiber_at g s) =? 0) eqn:E.
  - apply Z.eqb_eq in E. specialize (Ha E). eexists (with_prev None x1), _. split; [done|]. split; try done; [by apply go_enter|congruence].
  - apply Z.eqb_neq in E. destruct (switch_to_spec t g arg c x1 (set_ctx c x1 s)) as (x' & P & E1 & [J1 J2 J3 J4 J5 J6]); [cbn; by rewrite lookup_insert_eq|done|done|].
    exists x', P. split; [rewrite E1; unfold set_ctx, set_contexts; cbn; by rewrite insert_insert_eq|]. unfold stack_of in J6. cbn in J6.
    change (fiber_at g (set_ctx c x1 s)) with (fiber_at g s) in *. rewrite (proj2 (Z.eqb_neq _ _) E) in J6. split; try done.
    destruct J4 as [k ? ?|d ? ? ?]; [by apply go_resume|by apply go_enter].
Qed.

Lemma jump_state st g arg from x x' P s s' : fiber_at g s' = with_state st (fiber_at g s) -> jump g arg (stack_of g x s') from x x' P s' -> jump g arg (stack_of g x s) from x x' P s.
Proof.
  intros E [J1 J2 J3 J4 J5 J6]. unfold stack_of in *. rewrite E in *. split; try done. destruct J4 as [k Hk ?|d Hk ? ?]; rewrite E in Hk; [by apply go_resume|by apply go_enter].
Qed.

Lemma take_idle_spec g st s : (take_idle g st s = None /\ state (fiber_at g s) <> FiberState.Idle) \/ (take_idle g st s = Some (set_state g st s) /\ state (fiber_at g s) = FiberState.Idle).
Proof. unfold take_idle. case_bool_decide; auto. Qed.

(** The rule about attached stacks. *)
Definition attach_sane (g addr size : Z) (s : FState) : Prop := addr <> 0 \/ size <> 0 -> ~ runs s g /\ area_free g addr size s.

(** A call that failed: an error code, and at most a stack was attached. *)
Definition refused (g : Z) (s : FState) (r : FOut) : Prop := exists code s', r = Done (Some (FRet code None), s') /\ code <> ORBIS_OK /\ finv s' /\ attached g s s'.

Lemma refuse g s code s' : code <> ORBIS_OK -> finv s' -> attached g s s' -> refused g s (fret code s').
Proof. intros. by exists code, s'. Qed.

Definition run_ctx (sp bp g : Z) (want : bool) : OrbisFiberContext := mkFctx (mkRegs sp bp (AtRun want)) (Some g) None 0 0 0.

Lemma bad_target_code g addr s e : bad_target g addr s = Some e -> e <> ORBIS_OK.
Proof. unfold bad_target. destruct (g =? 0); [by intros [= <-]|]. destruct (_ || _); [by intros [= <-]|]. destruct (bad_magic _); by intros [= <-]. Qed.

Lemma run_spec t sp bp g addr size arg want s : finv s -> place (thread_at t s) = Guest -> attach_sane g addr size s ->
  refused g s (sceFiberRunImpl t sp bp g addr size arg want s) \/
  exists s1 x' P s', sceFiberRunImpl t sp bp g addr size arg want s = Done (None, s') /\ attached g s s1 /\ (addr = 0 -> size = 0 -> s1 = s) /\ finv s1 /\ state (fiber_at g s1) = FiberState.Idle
    /\ tcb_fiber (thread_at t s1) = None /\ enters t g (next_ctx s1) x' P s1 s' /\ jump g arg (stack_of g (run_ctx sp bp g want) s1) None (run_ctx sp bp g want) x' P s1.
Proof.
  intros Hi Hp Hs. unfold sceFiberRunImpl. destruct (bad_target g addr s) as [e|] eqn:Eb; [left; apply refuse; [by eapply bad_target_code|done|apply attached_refl]|].
  unfold GetFiberContext. destruct (tcb_fiber (thread_at t s)) as [c|] eqn:Et; [left; apply refuse; [done|done|apply attached_refl]|].
  destruct (attach_if_given g addr size s) as [res s1] eqn:Ea. destruct (attach_spec _ _ _ _ _ _ Hi Hs Ea) as (Hi1 & Hat & Hneg).
  assert (Hsame : addr = 0 -> size = 0 -> s1 = s) by (intros -> ->; by injection Ea).
  destruct (res <? 0) eqn:Er; [left; apply Z.ltb_lt in Er; apply refuse; [unfold ORBIS_OK; lia|done|done]|].
  destruct (take_idle_spec g FiberState.Run s1) as [[-> _]|[-> Hidle]]; [left; by apply refuse|]. right. cbn [new_ctx]. fold (run_ctx sp bp g want). set (x := run_ctx sp bp g want). set (c := next_ctx _).
  change c with (next_ctx s1) in *. set (s2 := set_tcb t (Some (next_ctx s1)) _). assert (Ef : forall h, fiber_at h s2 = if decide (g = h) then with_state FiberState.Run (fiber_at h s1) else fiber_at h s1) by (intros h; apply fiber_set_state).
  assert (Ec : contexts s2 = <[next_ctx s1 := x]> (contexts s1)) by done. assert (Eg : fiber_at g s2 = with_state FiberState.Run (fiber_at g s1)) by (by rewrite Ef, decide_True).
  assert (Ht1 : tcb_fiber (thread_at t s1) = None) by (by rewrite (attached_thread _ _ _ _ Hat)).
  assert (Hend : forall x' P, enters t g (next_ctx s1) x' P s1 (set_place t P (set_ctx (next_ctx s1) x' s2))).
  { intros x' P. split; [cbn; by rewrite insert_insert_eq|change (next_ctx s1 <= next_ctx s1 + 1 /\ next_ctx s1 < next_ctx s1 + 1); lia|done|exact Ef|].
    intros u. rewrite thread_set_place. change (thread_at u (set_ctx (next_ctx s1) x' s2)) with (thread_at u s2). unfold s2. rewrite thread_set_tcb. by by_cases. }
  exists s1. destruct (negb (addr_context (fiber_at g s2) =? 0)) eqn:En.
  - apply negb_true_iff, Z.eqb_neq in En. destruct (switch_to_spec t g arg (next_ctx s1) x s2) as (x' & P & E1 & J); [by rewrite Ec, lookup_insert_eq|done|done|].
    exists x', P. eexists. split; [exact E1|]. do 5 (split; [done|]). split; [apply Hend|]. by eapply jump_state.
  - apply negb_false_iff, Z.eqb_eq in En. assert (Es2 : set_ctx (next_ctx s1) x s2 = s2) by (apply set_ctx_id; by rewrite Ec, lookup_insert_eq).
    exists x, (Entering (entry_data (fiber_at g s2) arg (align_stack sp) None)), (set_place t (Entering (entry_data (fiber_at g s2) arg (align_stack sp) None)) (set_ctx (next_ctx s1) x s2)).
    split; [by rewrite Es2|]. do 5 (split; [done|]). split; [apply Hend|]. rewrite Eg in *. cbn in En. pose proof (fi_area _ Hi1 g En) as Hnone. unfold stack_of. rewrite En. cbn.
    split; try done; [by apply go_enter|congruence].
Qed.

(** What a call that jumps away leaves of the fiber it was made in: nothing when the
    fiber has no stack of its own. *)
Definition leave (sp bp : Z) (p : Point) (f : Z) (s : FState) : FState := if addr_context (fiber_at f s) =? 0 then s else park sp bp p f s.

Definition saved_point (p : Point) : Prop := match p with AtRun _ => False | _ => True end.

Lemma leave_fiber sp bp p f s h : fiber_at h (leave sp bp p f s) =
  if decide (f = h /\ addr_context (fiber_at f s) <> 0) then with_context (Some (next_ctx s)) (fiber_at h s) else fiber_at h s.
Proof.
  unfold leave. destruct (addr_context (fiber_at f s) =? 0) eqn:E; [apply Z.eqb_eq in E|apply Z.eqb_neq in E].
  - by rewrite decide_False by naive_solver.
  - rewrite park_fiber. destruct (decide (f = h)) as [->|]; [by rewrite decide_True|by rewrite decide_False by naive_solver].
Qed.

Lemma leave_thread sp bp p f s t : thread_at t (leave sp bp p f s) = thread_at t s.
Proof. unfold leave. by destruct (_ =? 0). Qed.

Lemma leave_ctx sp bp p f s c x : finv s -> contexts s !! c = Some x -> contexts (leave sp bp p f s) !! c = Some x.
Proof. intros Hi Hc. unfold leave. destruct (_ =? 0); [done|]. cbn. rewrite lookup_insert_ne; [done|]. apply (fi_fresh _ Hi) in Hc. lia. Qed.

Lemma leave_spec sp bp p t c x f s : finv s -> place (thread_at t s) = Guest -> tcb_fiber (thread_at t s) = Some c -> contexts s !! c = Some x -> current_fiber x = Some f -> saved_point p ->
  finv (leave sp bp p f s) /\ comes (leave sp bp p f s) t c (Some f).
Proof.
  intros Hi Hp Ht Hc Hf Hs. split.
  - unfold leave. destruct (_ =? 0) eqn:E; [done|]. apply finv_park; [done|by apply Z.eqb_neq in E|done|]. exists t. split; [done|]. by exists c, x.
  - exists x. rewrite leave_thread. split; [done|]. split; [by apply leave_ctx|]. split; [done|]. intros k. rewrite leave_fiber. unfold leave. destruct (_ =? 0) eqn:E.
    + apply Z.eqb_eq in E. rewrite decide_False by naive_solver. rewrite (fi_area _ Hi f E). done.
    + apply Z.eqb_neq in E. rewrite decide_True by done. cbn. intros [= <-]. by rewrite lookup_insert_eq.
Qed.

Lemma check_ok c x f s : contexts s !! c = Some x -> current_fiber x = Some f -> addr_context (fiber_at f s) = 0 \/ word_at (addr_context (fiber_at f s)) s = kFiberStackSignature ->
  _sceFiberCheckStackOverflow c s = Done tt.
Proof.
  intros Hc Hf Hw. unfold _sceFiberCheckStackOverflow, ctx_at. rewrite Hc. cbn [of_option obind]. rewrite Hf. cbn [of_option obind]. unfold oassert.
  destruct Hw as [->| ->]; [by rewrite Z.eqb_refl|by rewrite Z.eqb_refl, orb_true_r].
Qed.

(** The stack of a fiber that runs has its signature. *)
Lemma signature_ok f s : finv s -> runs s f -> addr_context (fiber_at f s) = 0 \/ word_at (addr_context (fiber_at f s)) s = kFiberStackSignature.
Proof. intros Hi Hr. destruct (decide (addr_context (fiber_at f s) = 0)); [by left|right]. apply (fi_stack _ Hi); [done|]. unfold runs in Hr. congruence. Qed.

Lemma switch_impl_spec t sp bp g addr size arg want c x f s : finv s -> place (thread_at t s) = Guest -> tcb_fiber (thread_at t s) = Some c -> contexts s !! c = Some x ->
  current_fiber x = Some f -> attach_sane g addr size s ->
  refused g s (sceFiberSwitchImpl t sp bp g addr size arg want s) \/
  exists s1 x' P s', sceFiberSwitchImpl t sp bp g addr size arg want s = Done (None, s') /\ attached g s s1 /\ (addr = 0 -> size = 0 -> s1 = s) /\ finv s1 /\ state (fiber_at g s1) = FiberState.Idle /\ f <> g
    /\ enters t g c x' P (leave sp bp (AtSwitch want) f s1) s' /\ jump g arg (stack_of g x s1) (Some f) x x' P s1.
Proof.
  intros Hi Hp Ht Hc Hf Hs. unfold sceFiberSwitchImpl. destruct (bad_target g addr s) as [e|] eqn:Eb; [left; apply refuse; [by eapply bad_target_code|done|apply attached_refl]|].
  unfold GetFiberContext. rewrite Ht. destruct (attach_if_given g addr size s) as [res s1] eqn:Ea. destruct (attach_spec _ _ _ _ _ _ Hi Hs Ea) as (Hi1 & Hat & Hneg).
  assert (Hsame : addr = 0 -> size = 0 -> s1 = s) by (intros -> ->; by injection Ea).
  destruct (res <? 0) eqn:Er; [left; apply Z.ltb_lt in Er; apply refuse; [unfold ORBIS_OK; lia|done|done]|].
  destruct (take_idle_spec g FiberState.Run s1) as [[-> _]|[-> Hidle]]; [left; by apply refuse|]. right. set (s2 := set_state g FiberState.Run s1).
  assert (Hc1 : contexts s1 !! c = Some x) by (by rewrite (at_ctx _ _ _ Hat)). pose proof (attached_thread _ _ _ t Hat) as Et1.
  assert (Hr : runs s1 f) by (eapply current_runs; [done|by rewrite Et1|done|done]). assert (Hfg : f <> g) by (intros ->; unfold runs in Hr; congruence).
  assert (Ef : forall h, fiber_at h s2 = if decide (g = h) then with_state FiberState.Run (fiber_at h s1) else fiber_at h s1) by (intros h; apply fiber_set_state).
  assert (Eff : fiber_at f s2 = fiber_at f s1) by (by rewrite Ef, decide_False).
  change (ctx_at c s2) with (ctx_at c s1). unfold ctx_at at 1. rewrite Hc1. cbn [of_option obind]. rewrite Hf. cbn [of_option obind]. rewrite Eff. set (s3 := leave sp bp (AtSwitch want) f s2).
  assert (Hgoal : exists x' P, _sceFiberSwitch t f g arg c s3 = Done (None, set_place t P (set_ctx c x' s3)) /\ jump g arg (stack_of g x s1) (Some f) x x' P s1).
  { assert (Eg : fiber_at g s3 = with_state FiberState.Run (fiber_at g s1)) by (unfold s3; rewrite leave_fiber, decide_False by naive_solver; by rewrite Ef, decide_True).
    destruct (switch_spec t f g arg c x s3) as (x' & P & E & J); [unfold s3, leave; destruct (_ =? 0); cbn; [done|]; rewrite lookup_insert_ne; [done|]; apply (fi_fresh _ Hi1) in Hc1; change (next_ctx s2) with (next_ctx s1); lia| |].
    - rewrite Eg. apply (fi_area _ Hi1 g).
    - exists x', P. split; [done|]. by eapply jump_state. }
  destruct Hgoal as (x' & P & E & J). exists s1, x', P, (set_place t P (set_ctx c x' s3)). split.
  { unfold s3, leave in E |- *. rewrite Eff in E |- *. destruct (addr_context (fiber_at f s1) =? 0) eqn:E0; [done|]. transitivity (let! _ := _sceFiberCheckStackOverflow c (park sp bp (AtSwitch want) f s2) in _sceFiberSwitch t f g arg c (park sp bp (AtSwitch want) f s2)); [reflexivity|].
    rewrite (check_ok c x f); [done|..|done|].
    - cbn. rewrite lookup_insert_ne; [done|]. apply (fi_fresh _ Hi1) in Hc1. change (next_ctx s2) with (next_ctx s1). lia.
    - rewrite park_fiber, decide_True by done. rewrite Eff. cbn. exact (signature_ok f s1 Hi1 Hr). }
  do 5 (split; [done|]). split; [|done]. split.
  - unfold s3, leave. rewrite Eff. by destruct (_ =? 0).
  - unfold s3, leave. rewrite Eff. pose proof (fi_fresh _ Hi1 _ _ Hc1). destruct (_ =? 0); cbn; lia.
  - unfold s3, leave. rewrite Eff. by destruct (_ =? 0).
  - intros h. change (fiber_at h (set_place t P (set_ctx c x' s3))) with (fiber_at h s3). unfold s3. rewrite !leave_fiber, Eff, !Ef. repeat case_decide; subst; try done; naive_solver.
  - intros u. rewrite thread_set_place. change (thread_at u (set_ctx c x' s3)) with (thread_at u s3). unfold s3. rewrite !leave_thread. change (thread_at u s2) with (thread_at u s1).
    destruct (decide (t = u)) as [->|]; [|done]. by rewrite Et1, Ht.
Qed.

Lemma return_spec t sp bp arg want c x f s : finv s -> place (thread_at t s) = Guest -> tcb_fiber (thread_at t s) = Some c -> contexts s !! c = Some x -> current_fiber x = Some f ->
  sceFiberReturnToThread t sp bp arg want s = Done (None, returning t c x arg (leave sp bp (AtReturn want) f s)).
Proof.
  intros Hi Hp Ht Hc Hf. unfold sceFiberReturnToThread, GetFiberContext. rewrite Ht. unfold ctx_at at 1. rewrite Hc. cbn [of_option obind]. rewrite Hf. cbn [of_option obind].
  assert (Hc' := leave_ctx sp bp (AtReturn want) f s _ _ Hi Hc). assert (Hr : runs s f) by (by eapply current_runs). unfold leave in *. destruct (addr_context (fiber_at f s) =? 0) eqn:E; cbn [negb].
  - unfold _sceFiberTerminate, ctx_at. by rewrite Hc.
  - transitivity (let! _ := _sceFiberCheckStackOverflow c (park sp bp (AtReturn want) f s) in _sceFiberTerminate t arg c (park sp bp (AtReturn want) f s)); [reflexivity|]. rewrite (check_ok c x f); [|done|done|].
    + cbn [obind]. unfold _sceFiberTerminate, ctx_at. by rewrite Hc'.
    + rewrite park_fiber, decide_True by done. cbn. exact (signature_ok f s Hi Hr).
Qed.

(** ** Landing *)

Definition wants (p : Point) : bool := match p with AtRun w | AtSwitch w | AtReturn w => w end.

Lemma land_return t c x f s : tcb_fiber (thread_at t s) = Some c -> contexts s !! c = Some x -> is_run x = true -> return_val x = 0 -> current_fiber x = Some f -> place (thread_at t s) = Jumped c ->
  exists s', land t s = Done (Some (FRet ORBIS_OK (if wants (resume_at (regs x)) then Some (arg_on_return x) else None)), s') /\ quits t c f s s'.
Proof.
  intros Ht Hc Hrun Hval Hf Hp. unfold land. rewrite Hp. unfold ctx_at at 1. change (contexts (set_place t Guest s)) with (contexts s). rewrite Hc. cbn [of_option obind].
  unfold is_run in Hrun. destruct (resume_at (regs x)) as [w| |] eqn:Er; [|done..]. unfold run_ends, ctx_at. change (contexts (set_place t Guest s)) with (contexts s). rewrite Hc. cbn [of_option obind].
  rewrite Hf. cbn [of_option obind]. rewrite Hval. cbn [Z.eqb oassert obind wants]. eexists. split; [done|]. split; try done.
  - cbn. apply delete_insert_eq.
  - intros h. exact (fiber_set_state f FiberState.Idle (set_ctx c (with_current None x) (set_place t Guest s)) h).
  - intros u. etransitivity; [apply (thread_set_tcb t None (set_place t Guest s) u)|]. rewrite thread_set_place. by by_cases.
Qed.

Lemma land_resume t c x k y s : tcb_fiber (thread_at t s) = Some c -> contexts s !! c = Some x -> place (thread_at t s) = Jumped k -> contexts s !! k = Some y -> is_run y = false ->
  exists s', land t s = Done (Some (FRet ORBIS_OK (if wants (resume_at (regs y)) then Some (arg_on_run_to x) else None)), s') /\ lands t c x (Some k) (prev_fiber x) Guest s s'.
Proof.
  intros Ht Hc Hp Hk Hrun.
  assert (Hg : GetFiberContext t (set_place t Guest s) = Some c) by (unfold GetFiberContext; by rewrite thread_set_place, decide_True).
  assert (Hend : forall w, exists s', switch_ends t k w (set_place t Guest s) = Done (Some (FRet ORBIS_OK (if w then Some (arg_on_run_to x) else None)), s') /\ lands t c x (Some k) (prev_fiber x) Guest s s').
  { intros w. unfold switch_ends. rewrite Hg. cbn [of_option obind]. unfold ctx_at. change (contexts (set_place t Guest s)) with (contexts s). rewrite Hc. cbn [of_option obind]. eexists. split; [done|].
    destruct (prev_fiber x) as [p|] eqn:Ep.
    - split; try done.
      + intros h. etransitivity; [apply (fiber_set_state p FiberState.Idle (set_place t Guest s) h)|]. change (fiber_at h (set_place t Guest s)) with (fiber_at h s). by repeat case_decide; simplify_eq.
      + intros u. etransitivity; [apply (thread_set_place t Guest s u)|]. by_cases; by rewrite ?Ht.
    - split; try done.
      + rewrite (with_prev_id _ Ep), insert_id by done. done.
      + intros u. etransitivity; [apply (thread_set_place t Guest s u)|]. by_cases; by rewrite ?Ht. }
  unfold land. rewrite Hp. unfold ctx_at. change (contexts (set_place t Guest s)) with (contexts s). rewrite Hk. cbn [of_option obind]. unfold is_run in Hrun. destruct (resume_at (regs y)) as [w|w|w]; [done|apply Hend..].
Qed.

Lemma lands_entry t c x Q s : tcb_fiber (thread_at t s) = Some c -> contexts s !! c = Some x -> prev_fiber x = None ->
  lands t c x None None Q s (set_place t Q s).
Proof.
  intros Ht Hc Hprev. split; try done; [cbn; by rewrite (with_prev_id _ Hprev), insert_id|].
  intros u. etransitivity; [apply (thread_set_place t Q s u)|]. by_cases; by rewrite ?Ht.
Qed.

(** The entry of a fiber: at once when the thread comes from its own code; else the
    fiber that was left is handed back first, and the data fetched after that. *)
Definition entry_result (d : OrbisFiberData) : FRes := FEnter (d_entry d) (d_arg_on_initialize d) (d_arg_on_run_to d) (d_stack_addr d) (d_fpu d).

Lemma land_enter t c x d s : tcb_fiber (thread_at t s) = Some c -> contexts s !! c = Some x -> prev_fiber x = None -> place (thread_at t s) = Entering d -> d_state d = None ->
  exists s', land t s = Done (Some (entry_result d), s') /\ lands t c x None None Guest s s'.
Proof. intros Ht Hc Hprev Hp Hd. unfold land. rewrite Hp, Hd. eexists. split; [done|]. by apply lands_entry. Qed.

Lemma land_hand t c x d p s : tcb_fiber (thread_at t s) = Some c -> contexts s !! c = Some x -> prev_fiber x = None -> place (thread_at t s) = Entering d -> d_state d = Some p ->
  exists s', land t s = Done (None, s') /\ lands t c x None (Some p) (Fetching d (frame_of p s)) s s'.
Proof.
  intros Ht Hc Hprev Hp Hd. unfold land. rewrite Hp, Hd. eexists. split; [done|]. set (Q := Fetching _ _).
  destruct (lands_entry t c x Q s Ht Hc Hprev) as [Lc Ln Lw Lf Lt]. split; try done.
  intros h. rewrite fiber_set_state. change (fiber_at h (set_place t Q s)) with (fiber_at h s). by repeat case_decide; simplify_eq.
Qed.

Lemma land_fetch t c x d fr s : tcb_fiber (thread_at t s) = Some c -> contexts s !! c = Some x -> prev_fiber x = None -> place (thread_at t s) = Fetching d fr -> frame_kept fr s = true ->
  exists s', land t s = Done (Some (entry_result d), s') /\ lands t c x None None Guest s s'.
Proof. intros Ht Hc Hprev Hp Hd. unfold land. rewrite Hp, Hd. eexists. split; [done|]. by apply lands_entry. Qed.

Lemma land_lost t d fr s : place (thread_at t s) = Fetching d fr -> frame_kept fr s = false -> land t s = Raised Undefined.
Proof. intros Hp Hk. unfold land. by rewrite Hp, Hk. Qed.

(** The data of a thread that is fetching are still there. *)
Definition safe_landing (t : Z) (s : FState) : Prop := forall d fr, place (thread_at t s) = Fetching d fr -> frame_kept fr s = true.

(** What a landing is to a thread inside [f] with the context [c]. *)
Inductive touches_down (t c f : Z) (x : OrbisFiberContext) (s : FState) (o : option FRes) (s' : FState) : Prop :=
| td_quits : place (thread_at t s) = Jumped c -> quits t c f s s' -> o <> None -> touches_down t c f x s o s'
| td_lands gone p Q : landing c x (place (thread_at t s)) gone p Q -> lands t c x gone p Q s s' -> (o = None <-> Q <> Guest) ->
    (forall k, gone = Some k -> context (fiber_at f s) = Some k) -> touches_down t c f x s o s'.

Lemma land_cases t c x f s : finv s -> tcb_fiber (thread_at t s) = Some c -> contexts s !! c = Some x -> current_fiber x = Some f ->
  place (thread_at t s) <> Guest -> safe_landing t s -> exists o s', land t s = Done (o, s') /\ touches_down t c f x s o s'.
Proof.
  intros Hi Ht Hc Hf Hp Hs. destruct (fi_threads _ Hi t) as [?|c' x' f' H1 H2 H3 H4 H5 H6]; [done|].
  assert (c' = c) as -> by congruence. assert (x' = x) as -> by congruence. assert (f' = f) as -> by congruence.
  remember (place (thread_at t s)) as P eqn:HP. destruct H6 as [?|Hpr|k y Hk Hy|P [HQ Hpr] Hk].
  - done.
  - destruct (land_return t c x f s) as (s' & E & Hq); [done..|]. eexists _, s'. split; [exact E|]. by apply td_quits.
  - assert (is_run y = false) as Hy' by (by apply (fi_ctx _ Hi f k)). destruct (land_resume t c x k y s) as (s' & E & Hq); [done..|].
    eexists _, s'. split; [exact E|]. eapply td_lands; [rewrite <- HP; apply ld_jump; intros ->; congruence|exact Hq|done|by intros k' [= <-]].
  - destruct P as [| |d|d fr]; [done|done| |].
    + destruct (d_state d) as [p|] eqn:Hd.
      * destruct (land_hand t c x d p s) as (s' & E & Hq); [done..|]. eexists _, s'. split; [exact E|].
        eapply td_lands; [|exact Hq|done|done]. rewrite <- HP, <- Hd. apply ld_enter. right. by eexists.
      * destruct (land_enter t c x d s) as (s' & E & Hq); [done..|]. eexists _, s'. split; [exact E|].
        eapply td_lands; [|exact Hq|done|done]. rewrite <- HP. pose proof (ld_enter c x d Guest (or_introl eq_refl)) as L. by rewrite Hd in L.
    + destruct (land_fetch t c x d fr s) as (s' & E & Hq); [try done..|by apply (Hs d)|]. eexists _, s'. split; [exact E|].
      eapply td_lands; [rewrite <- HP; apply ld_fetch|exact Hq|done|done].
Qed.

(** A thread that has jumped lands, and everything stays in order. *)
Lemma land_completes t s : finv s -> place (thread_at t s) <> Guest -> safe_landing t s ->
  exists o s', land t s = Done (o, s') /\ finv s' /\ (o = None <-> place (thread_at t s') <> Guest) /\ words s' = words s.
Proof.
  intros Hi Hp Hs. destruct (fi_threads _ Hi t) as [?|c x f H1 H2 H3 H4 H5 H6]; [done|].
  destruct (land_cases t c x f s) as (o & s' & E & [HP Hq Ho|gone p Q Hl Hq Ho Hg]); [done..| |]; exists o, s'; (split; [done|]).
  - split; [by eapply finv_quits|]. split; [|apply Hq]. rewrite (qu_thr _ _ _ _ _ Hq), decide_True by done. done.
  - split; [by eapply finv_lands|]. split; [|apply Hq]. by rewrite (la_thr _ _ _ _ _ _ _ _ Hq), decide_True.
Qed.

(** ** The machine *)

Inductive FCall :=
| FInit (fiber : Z) (nm : option (list Z)) (ent arg addr size opt flags build : Z)
| FOpt (p : Z)
| FFinalize (fiber : Z)
| FRun (sp bp fiber addr size arg : Z) (want : bool)
| FSwitch (sp bp fiber addr size arg : Z) (want : bool)
| FReturn (sp bp arg : Z) (want : bool)
| FQuit (ret : Z)
| FSelf (null : bool)
| FStart (flags : Z)
| FStop
| FRename (fiber : Z) (nm : option (list Z))
| FFrame (null : bool)
| FPoke (a v : Z).

(** A call of thread [t]; [FPoke] is a store of the guest. *)
Definition run_fiber (t : Z) (c : FCall) (s : FState) : FOut :=
  match c with
  | FInit fiber nm ent arg addr size opt flags build => sceFiberInitializeImpl fiber nm ent arg addr size opt flags build s
  | FOpt p => sceFiberOptParamInitialize p s
  | FFinalize fiber => sceFiberFinalize fiber s
  | FRun sp bp fiber addr size arg want => sceFiberRunImpl t sp bp fiber addr size arg want s
  | FSwitch sp bp fiber addr size arg want => sceFiberSwitchImpl t sp bp fiber addr size arg want s
  | FReturn sp bp arg want => sceFiberReturnToThread t sp bp arg want s
  | FQuit ret => _sceFiberForceQuit t ret s
  | FSelf null => sceFiberGetSelf t null s
  | FStart flags => sceFiberStartContextSizeCheck flags s
  | FStop => sceFiberStopContextSizeCheck s
  | FRename fiber nm => sceFiberRename fiber nm s
  | FFrame null => sceFiberGetThreadFramePointerAddress t null s
  | FPoke a v => fret ORBIS_OK (set_words (<[a := v]> (words s)) s)
  end.

(** The rules of the library. *)
Definition sane (c : FCall) (s : FState) : Prop :=
  match c with
  | FInit fiber _ _ _ addr size _ _ _ => ~ runs s fiber /\ (addr <> 0 -> area_free fiber addr size s)
  | FRun _ _ fiber addr size _ _ | FSwitch _ _ fiber addr size _ _ => attach_sane fiber addr size s
  | FQuit _ => False
  | FPoke a _ => forall h, addr_context (fiber_at h s) <> 0 -> state (fiber_at h s) <> FiberState.Terminated -> a <> addr_context (fiber_at h s)
  | _ => True
  end.

Inductive fiber_step (t : Z) (s : FState) : FState -> Prop :=
| fs_call c r s' : place (thread_at t s) = Guest -> sane c s -> run_fiber t c s = Done (r, s') -> fiber_step t s s'
| fs_land r s' : place (thread_at t s) <> Guest -> land t s = Done (r, s') -> fiber_step t s s'.

Inductive fiber_reach : FState -> Prop :=
| fr_start : fiber_reach fiber_start
| fr_step t s s' : fiber_reach s -> fiber_step t s s' -> fiber_reach s'.

(** Steps of threads other than [t]. *)
Inductive others (t : Z) (s : FState) : FState -> Prop :=
| ot_none : others t s s
| ot_step u s1 s2 : others t s s1 -> u <> t -> fiber_step u s1 s2 -> others t s s2.

(** ** What a step leaves alone *)

(** The thread [u], its context, and the contexts of the fibers it holds. *)
Record undisturbed (u : Z) (s s' : FState) : Prop := {
  un_thread : thread_at u s' = thread_at u s;
  un_ctx : forall c, tcb_fiber (thread_at u s) = Some c -> contexts s' !! c = contexts s !! c;
  un_held : forall h, h ∈ held s u -> context (fiber_at h s') = context (fiber_at h s) /\ addr_context (fiber_at h s') = addr_context (fiber_at h s)
              /\ forall k, context (fiber_at h s) = Some k -> contexts s' !! k = contexts s !! k }.

Lemma undisturbed_trans u s1 s2 s3 : undisturbed u s1 s2 -> undisturbed u s2 s3 -> undisturbed u s1 s3.
Proof.
  intros [A1 A2 A3] [B1 B2 B3]. assert (Hh : held s2 u = held s1 u) by (by apply held_other). split.
  - congruence.
  - intros c Hc. rewrite B2, A2; [done|done|by rewrite A1].
  - intros h Hin. destruct (A3 h Hin) as (E1 & E2 & E3). rewrite <- Hh in Hin. destruct (B3 h Hin) as (F1 & F2 & F3). split; [congruence|]. split; [congruence|]. intros k Hk. rewrite F3, E3 by congruence. done.
Qed.

(** A step that keeps threads and contexts disturbs nobody, if it changes the area of
    no fiber that runs. *)
Lemma undisturbed_quiet u s s' : finv s -> fthreads s' = fthreads s -> contexts s' = contexts s ->
  (forall h, runs s h -> context (fiber_at h s') = context (fiber_at h s) /\ addr_context (fiber_at h s') = addr_context (fiber_at h s)) -> undisturbed u s s'.
Proof.
  intros Hi Et Ec Hf. split; [unfold thread_at; by rewrite Et|intros c _; by rewrite Ec|]. intros h Hin. assert (runs s h) as Hr by (apply (ow_run _ (fi_owners _ Hi)); by exists u).
  destruct (Hf h Hr). split; [done|]. split; [done|]. intros k _. by rewrite Ec.
Qed.

Lemma attached_undisturbed u g s s' : finv s -> attached g s s' -> undisturbed u s s'.
Proof.
  intros Hi Ha. pose proof (at_quiet _ _ _ Ha) as Hg. apply undisturbed_quiet; [done|apply Ha|apply Ha|]. intros h Hr. destruct (decide (h = g)) as [->|Hne]; [by destruct Hg as [->|?]|]. by rewrite (at_other _ _ _ Ha).
Qed.

Lemma enters_undisturbed u t g c x P from s s' : finv s -> place (thread_at t s) = Guest -> comes s t c from -> enters t g c x P s s' -> u <> t -> undisturbed u s s'.
Proof.
  intros Hi Hp Hfrom [Ec _ _ Ef Et] Hu. split; [by rewrite Et, decide_False|..].
  - intros c' Hc. rewrite Ec, lookup_insert_ne; [done|]. intros ->. by eapply (comes_other s t c' from u).
  - intros h _. rewrite Ef. split; [by by_cases|]. split; [by by_cases|]. intros k Hk. rewrite Ec, lookup_insert_ne; [done|]. apply not_eq_sym. by eapply comes_saved.
Qed.

Lemma leave_undisturbed u sp bp p t c x f s : finv s -> place (thread_at t s) = Guest -> tcb_fiber (thread_at t s) = Some c -> contexts s !! c = Some x -> current_fiber x = Some f -> u <> t ->
  undisturbed u s (leave sp bp p f s).
Proof.
  intros Hi Hp Ht Hc Hf Hu. assert (Hold : forall k, k < next_ctx s -> contexts (leave sp bp p f s) !! k = contexts s !! k) by (intros k Hk; unfold leave; destruct (_ =? 0); [done|]; cbn; by rewrite lookup_insert_ne by lia).
  split; [apply leave_thread|intros k Hk; by apply Hold, (tcb_old s u)|]. intros h Hin. rewrite leave_fiber. rewrite decide_False; [split; [done|]; split; [done|]; intros k Hk; apply Hold; by apply (fi_ctx _ Hi) in Hk as [? _]|].
  intros [<- _]. apply Hu, (ow_one _ (fi_owners _ Hi) u t f); [done|]. destruct (held_guest _ _ _ _ _ Hi Hp Ht Hc Hf) as [-> _]. by apply list_elem_of_singleton.
Qed.

Lemma lands_undisturbed u t c x f gone p Q s s' : finv s -> tcb_fiber (thread_at t s) = Some c -> contexts s !! c = Some x -> current_fiber x = Some f -> is_run x = true ->
  (forall k, gone = Some k -> context (fiber_at f s) = Some k) -> lands t c x gone p Q s s' -> u <> t -> undisturbed u s s'.
Proof.
  intros Hi Ht Hc Hf Hrun Hgone [Ec _ _ Ef Et] Hu.
  assert (Hkeep : forall k, k <> c -> gone <> Some k -> contexts s' !! k = contexts s !! k).
  { intros k H1 H2. rewrite Ec. destruct gone as [k'|]; cbn; [rewrite lookup_delete_ne by congruence|]; by rewrite lookup_insert_ne. }
  split; [by rewrite Et, decide_False|..].
  - intros k Hk. apply Hkeep; [intros ->; by apply Hu, (fi_tcb _ Hi u t c)|]. intros Eg. apply Hgone in Eg. destruct (fi_threads _ Hi u) as [?|c' x' f' E1 E2 Hr _]; [congruence|].
    assert (c' = k) as -> by congruence. rewrite (proj2 (fi_ctx _ Hi _ _ Eg) _ E2) in Hr. done.
  - intros h Hin. rewrite Ef. split; [by repeat case_decide|]. split; [by repeat case_decide|]. intros k Hk. apply Hkeep.
    + intros ->. rewrite (proj2 (fi_ctx _ Hi _ _ Hk) _ Hc) in Hrun. done.
    + intros Eg. assert (h = f) as -> by (apply (fi_ctx_inj _ Hi h f k); auto). apply Hu, (ow_one _ (fi_owners _ Hi) u t f); [done|]. rewrite (held_inside _ _ _ _ Ht Hc), Hf. by apply elem_of_cons; left.
Qed.

Lemma returning_undisturbed u t c x arg s : finv s -> tcb_fiber (thread_at t s) = Some c -> contexts s !! c = Some x -> is_run x = true -> u <> t -> undisturbed u s (returning t c x arg s).
Proof.
  intros Hi Ht Hc Hrun Hu. assert (Hkeep : forall k, k <> c -> contexts (returning t c x arg s) !! k = contexts s !! k) by (intros k Hk; cbn; by rewrite lookup_insert_ne).
  split; [unfold returning; rewrite thread_set_place; by rewrite decide_False|intros k Hk; apply Hkeep; intros ->; by apply Hu, (fi_tcb _ Hi u t c)|].
  intros h _. split; [done|]. split; [done|]. intros k Hk. apply Hkeep. intros ->. rewrite (proj2 (fi_ctx _ Hi _ _ Hk) _ Hc) in Hrun. done.
Qed.

Lemma quits_undisturbed u t c x f s s' : finv s -> tcb_fiber (thread_at t s) = Some c -> contexts s !! c = Some x -> is_run x = true -> quits t c f s s' -> u <> t -> undisturbed u s s'.
Proof.
  intros Hi Ht Hc Hrun [Ec _ _ Ef Et] Hu. assert (Hkeep : forall k, k <> c -> contexts s' !! k = contexts s !! k) by (intros k Hk; by rewrite Ec, lookup_delete_ne).
  split; [by rewrite Et, decide_False|intros k Hk; apply Hkeep; intros ->; by apply Hu, (fi_tcb _ Hi u t c)|].
  intros h _. rewrite Ef. split; [by by_cases|]. split; [by by_cases|]. intros k Hk. apply Hkeep. intros ->. rewrite (proj2 (fi_ctx _ Hi _ _ Hk) _ Hc) in Hrun. done.
Qed.

(** ** Every sane call *)

(** A step of [t] that ends in order and disturbs no other thread. *)
Definition orderly (t : Z) (s s' : FState) : Prop := finv s' /\ forall u, u <> t -> undisturbed u s s'.

Definition fetching (P : Place) : Prop := match P with Fetching _ _ => True | _ => False end.

(** A call that returns at once does so in the code of the guest; no call ends in the
    middle of a landing. *)
Definition call_good (t : Z) (s : FState) (r : FOut) : Prop :=
  exists o s', r = Done (o, s') /\ orderly t s s' /\ (o = None <-> place (thread_at t s') <> Guest) /\ ~ fetching (place (thread_at t s')).

Lemma good_here t s code s' : place (thread_at t s) = Guest -> finv s -> finv s' -> fthreads s' = fthreads s -> contexts s' = contexts s ->
  (forall h, runs s h -> context (fiber_at h s') = context (fiber_at h s) /\ addr_context (fiber_at h s') = addr_context (fiber_at h s)) -> call_good t s (fret code s').
Proof.
  intros Hp Hi Hi' Et Ec Hf. eexists _, s'. split; [done|]. split; [split; [done|]; intros u _; by apply undisturbed_quiet|]. assert (thread_at t s' = thread_at t s) as -> by (unfold thread_at; by rewrite Et). rewrite Hp. split; [done|]. by intros [].
Qed.

Lemma good_same t s o : place (thread_at t s) = Guest -> finv s -> call_good t s (Done (Some o, s)).
Proof. intros Hp Hi. eexists _, s. split; [done|]. split; [split; [done|]; intros u _; by apply undisturbed_quiet|]. rewrite Hp. split; [done|]. by intros []. Qed.

Lemma init_good t fiber nm ent arg addr size opt flags build s : finv s -> place (thread_at t s) = Guest -> ~ runs s fiber -> (addr <> 0 -> area_free fiber addr size s) ->
  call_good t s (sceFiberInitializeImpl fiber nm ent arg addr size opt flags build s).
Proof.
  intros Hi Hp Hr Hfree. assert (Hbad : forall code, call_good t s (fret code s)) by (intros code; by apply good_same). unfold sceFiberInitializeImpl. destruct nm as [nm|]; [|apply Hbad].
  destruct ((fiber =? 0) || (ent =? 0)); [apply Hbad|]. destruct (_ || _); [apply Hbad|]. destruct (negb (opt =? 0) && _); [apply Hbad|].
  destruct (negb (size =? 0) && (size <? ORBIS_FIBER_CONTEXT_MINIMUM_SIZE)) eqn:E1; [apply Hbad|]. destruct (negb (Z.land size 15 =? 0)); [apply Hbad|]. destruct ((addr =? 0) && _) eqn:E2; [apply Hbad|].
  destruct (negb (addr =? 0) && (size =? 0)) eqn:E3; [apply Hbad|]. destruct (negb (opt =? 0) && _); [apply Hbad|]. set (f := mkFiber _ _ _ _ _ _ _ _ _ _ _ _).
  assert (Hrun : forall F h, runs s h -> context (fiber_at h (set_fiber fiber F s)) = context (fiber_at h s) /\ addr_context (fiber_at h (set_fiber fiber F s)) = addr_context (fiber_at h s)).
  { intros F h Hh. rewrite fiber_set, decide_False; [done|]. by intros ->. }
  destruct (addr =? 0) eqn:Ea; [apply Z.eqb_eq in Ea|apply Z.eqb_neq in Ea].
  - apply good_here; [done|done| |done|done|apply Hrun]. apply (finv_quiet s); try done.
    + intros h. unfold runs. rewrite fiber_set. destruct (decide (fiber = h)) as [->|]; [|done]. unfold runs in Hr. naive_solver.
    + intros h. rewrite fiber_set. destruct (decide (fiber = h)) as [->|]; [by right|by left].
    + intros h. rewrite fiber_set. destruct (decide (fiber = h)) as [->|]; [done|apply Hi].
    + intros h. rewrite fiber_set. destruct (decide (fiber = h)) as [->|]; [by rewrite <- Ea|apply Hi].
  - apply good_here; [done|done| |done|done|apply Hrun]. cbn in E3. rewrite E3 in E1. cbn in E1. apply Z.ltb_ge in E1. unfold ORBIS_FIBER_CONTEXT_MINIMUM_SIZE in E1.
    apply finv_area; try done; [by apply Hfree|lia|by left].
Qed.

Lemma finalize_good t fiber s : finv s -> place (thread_at t s) = Guest -> call_good t s (sceFiberFinalize fiber s).
Proof.
  intros Hi Hp. assert (Hbad : forall code, call_good t s (fret code s)) by (intros code; by apply good_same). unfold sceFiberFinalize. destruct (fiber =? 0); [apply Hbad|]. destruct (negb _); [apply Hbad|]. destruct (bad_magic _); [apply Hbad|].
  destruct (take_idle_spec fiber FiberState.Terminated s) as [[-> _]|[-> Hidle]]; [apply Hbad|].
  assert (Ef : forall h, fiber_at h (set_state fiber FiberState.Terminated s) = if decide (fiber = h) then with_state FiberState.Terminated (fiber_at h s) else fiber_at h s) by (intros h; apply fiber_set_state).
  apply good_here; [done|done| |done|done|intros h _; rewrite Ef; by by_cases]. apply (finv_quiet s); try done.
  - intros h. unfold runs. rewrite Ef. destruct (decide (fiber = h)) as [->|]; cbn; [|done]. rewrite Hidle. done.
  - intros h. left. rewrite Ef. by by_cases.
  - intros h. rewrite Ef. pose proof (fi_area _ Hi h). by by_cases.
  - intros h. rewrite Ef. destruct (decide (fiber = h)) as [->|]; [done|apply Hi].
Qed.

Lemma rename_good t fiber nm s : finv s -> place (thread_at t s) = Guest -> call_good t s (sceFiberRename fiber nm s).
Proof.
  intros Hi Hp. assert (Hbad : forall code, call_good t s (fret code s)) by (intros code; by apply good_same). unfold sceFiberRename. destruct nm as [nm|]; [|apply Hbad].
  destruct (fiber =? 0); [apply Hbad|]. destruct (negb _); [apply Hbad|]. destruct (bad_magic _); [apply Hbad|]. set (n := strncpy _ _ _).
  assert (Ef : forall h, fiber_at h (set_fiber fiber (with_name n (fiber_at fiber s)) s) = if decide (fiber = h) then with_name n (fiber_at h s) else fiber_at h s) by (intros h; rewrite fiber_set; by by_cases).
  apply good_here; [done|done| |done|done|intros h _; rewrite Ef; by by_cases]. apply (finv_quiet s); try done.
  - intros h. unfold runs. rewrite Ef. by by_cases.
  - intros h. left. rewrite Ef. by by_cases.
  - intros h. rewrite Ef. pose proof (fi_area _ Hi h). by by_cases.
  - intros h. rewrite Ef. destruct (decide (fiber = h)) as [->|]; apply (fi_stack _ Hi).
Qed.

Lemma refused_good t g s r : finv s -> place (thread_at t s) = Guest -> refused g s r -> call_good t s r.
Proof.
  intros Hi Hp (code & s' & -> & _ & Hi' & Ha). eexists _, s'. split; [done|]. split; [split; [done|]; intros u _; by eapply attached_undisturbed|].
  rewrite (attached_thread _ _ _ _ Ha), Hp. split; [done|]. by intros [].
Qed.

Lemma goes_away s g from x P : goes s g from x P -> P <> Guest /\ ~ fetching P.
Proof. by intros []; split; [|intros []| |intros []]. Qed.

Lemma run_good t sp bp g addr size arg want s : finv s -> place (thread_at t s) = Guest -> attach_sane g addr size s -> call_good t s (sceFiberRunImpl t sp bp g addr size arg want s).
Proof.
  intros Hi Hp Hs. destruct (run_spec t sp bp g addr size arg want s Hi Hp Hs) as [Hr|(s1 & x' & P & s' & -> & Ha & _ & Hi1 & Hidle & Ht & He & J)].
  - by eapply refused_good.
  - eexists _, s'. split; [done|]. assert (Hp1 : place (thread_at t s1) = Guest) by (by rewrite (attached_thread _ _ _ _ Ha)). assert (Hfrom : comes s1 t (next_ctx s1) None) by (split; [done|lia]).
    split; [split|].
    + destruct J as [J1 J2 J3 J4 _ _]. eapply finv_enters; [done|done|done|done|done| |by rewrite J2|done|done]. unfold is_run. by rewrite J1.
    + intros u Hu. eapply undisturbed_trans; [by eapply attached_undisturbed|]. by eapply enters_undisturbed.
    + rewrite (en_thr _ _ _ _ _ _ _ He), decide_True by done. cbn. destruct (goes_away _ _ _ _ _ (ju_goes _ _ _ _ _ _ _ _ J)). done.
Qed.

Lemma switch_good t sp bp g addr size arg want s : finv s -> place (thread_at t s) = Guest -> attach_sane g addr size s -> call_good t s (sceFiberSwitchImpl t sp bp g addr size arg want s).
Proof.
  intros Hi Hp Hs. destruct (fi_threads _ Hi t) as [Ht _|c x f Ht Hc Hrun Hval Hf _].
  { unfold sceFiberSwitchImpl. destruct (bad_target g addr s); [by apply good_same|]. unfold GetFiberContext. rewrite Ht. by apply good_same. }
  destruct (switch_impl_spec t sp bp g addr size arg want c x f s) as [Hr|(s1 & x' & P & s' & -> & Ha & _ & Hi1 & Hidle & Hfg & He & J)]; [done..|by eapply refused_good|].
  eexists _, s'. split; [done|]. pose proof (attached_thread _ _ _ t Ha) as Et1. set (s2 := leave sp bp (AtSwitch want) f s1) in *.
  assert (Hc1 : contexts s1 !! c = Some x) by (by rewrite (at_ctx _ _ _ Ha)). destruct (leave_spec sp bp (AtSwitch want) t c x f s1) as [Hi2 Hfrom]; [done|by rewrite Et1..|done|done|done|]. fold s2 in Hi2, Hfrom.
  assert (Hp2 : place (thread_at t s2) = Guest) by (unfold s2; by rewrite leave_thread, Et1). assert (Eg : fiber_at g s2 = fiber_at g s1) by (unfold s2; rewrite leave_fiber, decide_False; [done|]; by intros [? _]).
  destruct J as [J1 J2 J3 J4 _ _]. split; [split|].
  - eapply finv_enters; [exact Hi2|done|by rewrite Eg|done|done|unfold is_run; by rewrite J1|by rewrite J2|done|]. destruct J4; [apply go_resume|apply go_enter]; by rewrite ?Eg.
  - intros u Hu. eapply undisturbed_trans; [by eapply attached_undisturbed|]. eapply undisturbed_trans; [eapply (leave_undisturbed u sp bp (AtSwitch want) t c x f s1); try done; by rewrite Et1|]. by eapply enters_undisturbed.
  - rewrite (en_thr _ _ _ _ _ _ _ He), decide_True by done. cbn. destruct (goes_away _ _ _ _ _ J4). done.
Qed.

Lemma return_good t sp bp arg want s : finv s -> place (thread_at t s) = Guest -> call_good t s (sceFiberReturnToThread t sp bp arg want s).
Proof.
  intros Hi Hp. destruct (fi_threads _ Hi t) as [Ht _|c x f Ht Hc Hrun Hval Hf _]; [unfold sceFiberReturnToThread, GetFiberContext; rewrite Ht; by apply good_same|].
  rewrite (return_spec t sp bp arg want c x f s) by done. eexists _, _. split; [done|]. destruct (leave_spec sp bp (AtReturn want) t c x f s) as [Hi2 (x0 & F1 & F2 & F3 & F4)]; [done..|].
  assert (x0 = x) as -> by (rewrite (leave_ctx _ _ _ _ _ _ _ Hi Hc) in F2; congruence). set (s2 := leave sp bp (AtReturn want) f s) in *.
  assert (Hp2 : place (thread_at t s2) = Guest) by (unfold s2; by rewrite leave_thread). split; [split|].
  - by eapply finv_returning.
  - intros u Hu. eapply undisturbed_trans; [eapply (leave_undisturbed u sp bp (AtReturn want) t c x f s); done|]. by apply returning_undisturbed.
  - unfold returning. rewrite thread_set_place, decide_True by done. cbn. split; [done|]. by intros [].
Qed.

Lemma call_ok t c s : finv s -> place (thread_at t s) = Guest -> sane c s -> call_good t s (run_fiber t c s).
Proof.
  intros Hi Hp Hs. assert (Hbad : forall code, call_good t s (fret code s)) by (intros code; by apply good_same). destruct c; cbn [run_fiber sane] in *.
  - destruct Hs. by apply init_good.
  - unfold sceFiberOptParamInitialize. destruct (p =? 0); [apply Hbad|]. destruct (negb _); [apply Hbad|]. apply good_here; try done. by apply (finv_quiet s); try done; try apply Hi; auto.
  - by apply finalize_good.
  - by apply run_good.
  - by apply switch_good.
  - by apply return_good.
  - done.
  - unfold sceFiberGetSelf, GetFiberContext. destruct null; [apply Hbad|]. destruct (fi_threads _ Hi t) as [-> _|c x f -> Hc _]; [apply Hbad|]. unfold ctx_at. rewrite Hc. cbn. by apply good_same.
  - unfold sceFiberStartContextSizeCheck. destruct (negb _); [apply Hbad|]. destruct (_ =? 0); [|apply Hbad]. apply good_here; try done. by apply (finv_quiet s); try done; try apply Hi; auto.
  - unfold sceFiberStopContextSizeCheck. destruct (_ =? 1); [|apply Hbad]. apply good_here; try done. by apply (finv_quiet s); try done; try apply Hi; auto.
  - by apply rename_good.
  - unfold sceFiberGetThreadFramePointerAddress, GetFiberContext. destruct null; [apply Hbad|]. destruct (fi_threads _ Hi t) as [-> _|c x f -> Hc _]; [apply Hbad|]. unfold ctx_at. rewrite Hc. cbn. by apply good_same.
  - apply good_here; try done. apply (finv_quiet s); try done; try apply Hi; [by left|]. intros h Ha Ht. destruct (fi_stack _ Hi h Ha Ht) as [H1 H2]. split; [done|].
    unfold word_at. cbn [words set_words]. rewrite lookup_insert_ne; [exact H2|]. by apply Hs.
Qed.

Lemma land_safe t s r s' : land t s = Done (r, s') -> safe_landing t s.
Proof. intros E d fr Hp. destruct (frame_kept fr s) eqn:Hk; [done|]. by rewrite (land_lost t d fr) in E. Qed.

Lemma land_orderly t s r s' : finv s -> place (thread_at t s) <> Guest -> land t s = Done (r, s') -> orderly t s s'.
Proof.
  intros Hi Hp E. pose proof (land_safe _ _ _ _ E) as Hs. destruct (land_completes t s Hi Hp Hs) as (r0 & s0 & E0 & Hi' & _ & _). rewrite E in E0. injection E0 as -> <-. split; [done|]. intros u Hu.
  destruct (fi_threads _ Hi t) as [?|c x f H1 H2 H3 H4 H5 H6]; [done|]. destruct (land_cases t c x f s) as (o & s1 & E1 & Hd); [done..|]. rewrite E in E1. injection E1 as <- <-.
  destruct Hd as [_ Hq _|gone p Q _ Hq _ Hg]; [by eapply quits_undisturbed|by eapply (lands_undisturbed u t c x f)].
Qed.

Lemma fiber_step_ok t s s' : finv s -> fiber_step t s s' -> orderly t s s'.
Proof.
  intros Hi [c r s1 Hp Hs E|r s1 Hp E]; [|by eapply land_orderly]. destruct (call_ok t c s Hi Hp Hs) as (o & s2 & E2 & H & _). rewrite E in E2. by injection E2 as _ ->.
Qed.

Lemma finv_start : finv fiber_start.
Proof.
  assert (Hh : forall t, held fiber_start t = []) by (intros t; done). split; try done.
  - intros t. by apply tk_plain.
  - split; [|intros t u f Ht; rewrite Hh in Ht; by apply not_elem_of_nil in Ht|intros t; rewrite Hh; constructor]. intros f. split; [done|]. intros [t Ht]. rewrite Hh in Ht. by apply not_elem_of_nil in Ht.
Qed.

Lemma fiber_reach_inv s : fiber_reach s -> finv s.
Proof. induction 1 as [|t s s' _ IH Hs]; [apply finv_start|by apply (fiber_step_ok t s)]. Qed.

Lemma others_undisturbed t s s' : finv s -> others t s s' -> finv s' /\ undisturbed t s s'.
Proof.
  intros Hi. induction 1 as [|u s1 s2 _ [IH1 IH2] Hu Hs]; [split; [done|]; by apply undisturbed_quiet|]. destruct (fiber_step_ok _ _ _ IH1 Hs) as [H1 H2]. split; [done|].
  eapply undisturbed_trans; [done|]. by apply H2.
Qed.
