(* ===== verification/FiberSpec.v ===== *)
(** * Fibers: the properties

    A fiber is run by one thread at a time, no call meets a dead frame or fails an
    assertion, and switching and returning resume the right call with the right
    argument, whatever other threads do in between; the start of a fiber from within
    another, which reads its arguments from the stack of a fiber others can already
    run, is right as long as they do not.  And what [sceFiberGetInfo] reports of a
    stack. *)

From stdpp Require Import gmap.
From S2P Require Import Prelude Fiber FiberFacts FiberSteps.

(** C14: a fiber runs on at most one thread: in every reachable state exactly the
    fibers a thread is in, or has left without having landed yet, are in state [Run],
    no fiber is held by two threads or twice, and an idle fiber that was left in a
    call has the context of this call alive. *)
Theorem fiber_exclusive s : fiber_reach s ->
  (forall f, state (fiber_at f s) = FiberState.Run <-> exists t, f ∈ held s t)
  /\ (forall t u f, f ∈ held s t -> f ∈ held s u -> t = u) /\ (forall t, NoDup (held s t))
  /\ forall f c, state (fiber_at f s) = FiberState.Idle -> context (fiber_at f s) = Some c -> exists y, contexts s !! c = Some y /\ is_run y = false.
Proof.
  intros Hr. pose proof (fiber_reach_inv _ Hr) as Hi. split; [apply Hi|]. split; [apply Hi|]. split; [apply Hi|]. intros f c Hf Hc. destruct (contexts s !! c) as [y|] eqn:Ey.
  - exists y. split; [done|]. by apply (fi_ctx _ Hi f c).
  - destruct (fi_live _ Hi f c Hc Ey) as (t & _ & c' & x & E1 & E2 & E3). pose proof (current_runs _ _ _ _ _ Hi E1 E2 E3) as Hrun. unfold runs in Hrun. congruence.
Qed.

(** What happens to a thread that has handed the fiber it left back and has yet to
    fetch its data from [fr]: it goes on to [Q], unless another thread has gone on in
    that fiber, or initialised or finalised it; then what it reads is undefined. *)
Definition fetches (t : Z) (fr : option (Z * Z)) (Q : FRes -> FState -> Prop) (s : FState) : Prop :=
  forall s4, others t s s4 -> if frame_kept fr s4 then exists r s5, land t s4 = Done (Some r, s5) /\ Q r s5 else land t s4 = Raised Undefined.

Lemma landed_place t s r s' : finv s -> place (thread_at t s) <> Guest -> land t s = Done (r, s') -> place (thread_at t s') = Guest \/ fetching (place (thread_at t s')).
Proof.
  intros Hi Hp E. destruct (fi_threads _ Hi t) as [?|c x f H1 H2 _ _ H5 _]; [done|].
  destruct (land_cases t c x f s) as (o & s1 & E1 & Hd); [done..|by eapply land_safe|]. rewrite E in E1. injection E1 as <- <-.
  destruct Hd as [_ [_ _ _ _ Qt] _|gone p Q Hl [_ _ _ _ Lt] _ _]; [left; by rewrite Qt, decide_True|]. rewrite Lt, decide_True by done. cbn.
  inversion Hl as [|? ? [->|[fr ->]]|]; [by left|by left|by right|by left].
Qed.

(** A thread that is fetching arrives at the entry. *)
Lemma fetching_goes_on t d fr s : finv s -> place (thread_at t s) = Fetching d fr -> fetches t fr (fun r s5 => r = entry_result d /\ place (thread_at t s5) = Guest) s.
Proof.
  intros Hi Hp s4 Ho. destruct (others_undisturbed _ _ _ Hi Ho) as [Hi4 Hu]. rewrite <- (un_thread _ _ _ Hu) in Hp. destruct (frame_kept fr s4) eqn:Hk; [|by eapply land_lost].
  destruct (fi_threads _ Hi4 t) as [?|c x f H1 H2 _ _ _ H6]; [congruence|]. rewrite Hp in H6. inversion H6 as [| | |? [_ Hpr] _]. subst.
  destruct (land_fetch t c x d fr s4) as (s5 & E & Hl); [done..|]. eexists _, s5. split; [exact E|]. split; [done|]. by rewrite (la_thr _ _ _ _ _ _ _ _ Hl), decide_True.
Qed.

(** C15: no call goes wrong: in every reachable state a call that respects the rules
    completes, without using the context of a function that has returned and without
    a failed assertion.  If it jumps, the jump lands, after any steps of other
    threads, in the guest's code or, at the entry of a fiber that another was left
    for, between handing the latter back and fetching the entry's arguments from its
    stack; from there it goes on to the guest's code exactly as long as no other
    thread has gone on in the fiber that was left, initialised or finalised it. *)
Theorem fiber_calls_complete s t c : fiber_reach s -> place (thread_at t s) = Guest -> sane c s ->
  exists o s', run_fiber t c s = Done (o, s')
  /\ (o = None -> forall s2, others t s' s2 -> exists r s3, land t s2 = Done (r, s3)
      /\ match place (thread_at t s3) with
         | Guest => r <> None
         | Fetching d fr => r = None /\ fetches t fr (fun r s5 => r = entry_result d /\ place (thread_at t s5) = Guest) s3
         | _ => False
         end).
Proof.
  intros Hr Hp Hs. pose proof (fiber_reach_inv _ Hr) as Hi. destruct (call_ok t c s Hi Hp Hs) as (o & s' & E & [Hi' _] & Hn & Hnf). exists o, s'. split; [done|]. intros Ho s2 Ho2.
  destruct (others_undisturbed _ _ _ Hi' Ho2) as [Hi2 Hu]. apply Hn in Ho. rewrite <- (un_thread _ _ _ Hu) in Ho, Hnf.
  assert (safe_landing t s2) as Hsafe by (intros d fr Hd; rewrite Hd in Hnf; by destruct Hnf).
  destruct (land_completes t s2 Hi2 Ho Hsafe) as (r & s3 & E3 & Hi3 & Hr3 & _). exists r, s3. split; [done|]. pose proof (landed_place t s2 r s3 Hi2 Ho E3) as Hl3.
  destruct (place (thread_at t s3)) as [|k|d|d fr] eqn:Hp3.
  - intros ->. by apply Hr3.
  - by destruct Hl3.
  - by destruct Hl3.
  - split; [by apply Hr3|]. by apply fetching_goes_on.
Qed.

(** What a thread that switches away leaves of [f]. *)
Lemma left_behind sp bp want f s s3 : finv s -> (let sl := leave sp bp (AtSwitch want) f s in context (fiber_at f s3) = context (fiber_at f sl) /\ forall k, context (fiber_at f sl) = Some k -> contexts s3 !! k = contexts sl !! k) ->
  if decide (addr_context (fiber_at f s) = 0) then frame_of f s3 = None
  else exists k y, frame_of f s3 = Some (f, k) /\ contexts s3 !! k = Some y /\ resume_at (regs y) = AtSwitch want.
Proof.
  cbn zeta. intros Hi [L2 L3]. unfold frame_of. rewrite L2, leave_fiber. rewrite leave_fiber in L3. destruct (decide (addr_context (fiber_at f s) = 0)) as [Hn|Hn].
  - rewrite decide_False by naive_solver. by rewrite (fi_area _ Hi f Hn).
  - rewrite decide_True in * by done. cbn in *. specialize (L3 _ eq_refl). unfold leave in L3. rewrite (proj2 (Z.eqb_neq _ _) Hn) in L3. cbn in L3. rewrite lookup_insert_eq in L3. by eexists _, _.
Qed.

Lemma switch_to_jumps t g arg c s o s' : _sceFiberSwitchToFiber t g arg c s = Done (o, s') -> o = None.
Proof. unfold _sceFiberSwitchToFiber. destruct (ctx_at c _); [|done]. cbn [obind]. destruct (context _); [by intros [= <- _]|]. destruct (prev_fiber _); by intros [= <- _]. Qed.

Lemma switch_jumps t cur g arg c s o s' : _sceFiberSwitch t cur g arg c s = Done (o, s') -> o = None.
Proof.
  unfold _sceFiberSwitch. destruct (ctx_at c s); [|done]. cbn [obind]. destruct (_ =? 0); [by intros [= <- _]|]. apply switch_to_jumps.
Qed.

Lemma switch_not_refused t sp bp g arg want c s : tcb_fiber (thread_at t s) = Some c -> bad_target g 0 s = None -> state (fiber_at g s) = FiberState.Idle ->
  ~ refused g s (sceFiberSwitch t sp bp g arg want s).
Proof.
  intros Ht Hb Hidle (code & s' & E & _). unfold sceFiberSwitch, sceFiberSwitchImpl in E. rewrite Hb in E. unfold GetFiberContext in E. rewrite Ht in E. cbn in E.
  destruct (take_idle_spec g FiberState.Run s) as [[_ ?]|[E1 _]]; [done|]. rewrite E1 in E. destruct (ctx_at c _); [|done]. cbn [obind] in E. destruct (of_option _); [|done]. cbn [obind] in E.
  destruct (_ =? 0); [by apply switch_jumps in E|]. cbn [new_ctx] in E. destruct (_sceFiberCheckStackOverflow _ _); [|done]. cbn [obind] in E. by apply switch_jumps in E.
Qed.

Lemma run_not_refused t sp bp g arg want s : tcb_fiber (thread_at t s) = None -> bad_target g 0 s = None -> state (fiber_at g s) = FiberState.Idle ->
  ~ refused g s (sceFiberRun t sp bp g arg want s).
Proof.
  intros Ht Hb Hidle (code & s' & E & _). unfold sceFiberRun, sceFiberRunImpl in E. rewrite Hb in E. unfold GetFiberContext in E. rewrite Ht in E. cbn [attach_if_given Z.eqb negb orb ORBIS_OK Z.ltb Z.compare] in E.
  destruct (take_idle_spec g FiberState.Run s) as [[_ ?]|[E1 _]]; [done|]. rewrite E1 in E. cbn [new_ctx] in E. destruct (negb _); [by apply switch_to_jumps in E|done].
Qed.

(** What the guest sees when a thread arrives in [g] with [arg]: the call it was left
    in returns, or its entry starts. *)
Definition arrival (g arg stack : Z) (s : FState) (r : FRes) : Prop :=
  match context (fiber_at g s) with
  | Some k => exists y, contexts s !! k = Some y /\ r = FRet ORBIS_OK (if wants (resume_at (regs y)) then Some arg else None)
  | None => let d := entry_data (fiber_at g s) arg stack None in r = FEnter (d_entry d) (d_arg_on_initialize d) arg stack (d_fpu d)
  end.

(** A thread on its way into [g] arrives there, whatever others do; but when it comes
    from another fiber and starts the entry of [g], in two steps. *)
Definition arrives (t g arg stack : Z) (from : option Z) (s : FState) (o : option FRes) (s3 : FState) : Prop :=
  let Q r s5 := arrival g arg stack s r /\ inside s5 t g in
  match from, context (fiber_at g s) with
  | Some f, None => o = None /\ fetches t (frame_of f s3) Q s3
  | _, _ => exists r, o = Some r /\ Q r s3
  end.

Lemma enters_arrives t g arg stack from c x x' P s s' s2 : finv s -> place (thread_at t s) = Guest -> state (fiber_at g s) = FiberState.Idle -> comes s t c from -> is_run x = true -> return_val x = 0 ->
  enters t g c x' P s s' -> jump g arg stack from x x' P s -> others t s' s2 ->
  exists o s3, land t s2 = Done (o, s3) /\ arrives t g arg stack from s o s3
    /\ (forall f, from = Some f -> state (fiber_at f s3) = FiberState.Idle /\ context (fiber_at f s3) = context (fiber_at f s) /\ forall k, context (fiber_at f s) = Some k -> contexts s3 !! k = contexts s !! k).
Proof.
  intros Hi Hp Hidle Hfrom Hrun Hval He [J1 J2 J3 J4 J5 J6] Ho. assert (Hi' : finv s') by (eapply finv_enters; [done|done|done|done|done|unfold is_run; by rewrite J1|by rewrite J2|done|done]).
  destruct (others_undisturbed _ _ _ Hi' Ho) as [Hi2 [U1 U2 U3]]. pose proof He as [Ec _ _ Ef Et].
  assert (Ht2 : thread_at t s2 = mkFthread (Some c) P) by (by rewrite U1, Et, decide_True). assert (Hc' : contexts s' !! c = Some x') by (by rewrite Ec, lookup_insert_eq).
  assert (Hc2 : contexts s2 !! c = Some x') by (rewrite U2; [done|by rewrite Et, decide_True]).
  assert (Hcx : forall h, context (fiber_at h s') = context (fiber_at h s)) by (intros h; rewrite Ef; by by_cases).
  assert (Hheld : held s' t = g :: option_list from).
  { rewrite (held_inside s' t c x'); [|by rewrite Et, decide_True|done]. rewrite J3, Et, decide_True by done. cbn. destruct J4 as [k _ Hpr|d _ Hpr Hd]; cbn; rewrite Hpr; [by rewrite app_nil_r|by rewrite Hd]. }
  assert (Hkeep : forall h k, h ∈ held s' t -> context (fiber_at h s) = Some k -> contexts s2 !! k = contexts s !! k).
  { intros h k Hin Hk. destruct (U3 h Hin) as (_ & _ & E). rewrite E by (by rewrite Hcx). rewrite Ec, lookup_insert_ne; [done|]. apply not_eq_sym. exact (comes_saved s t c from h k Hi Hfrom Hk). }
  assert (Hg2 : context (fiber_at g s2) = context (fiber_at g s)) by (rewrite <- Hcx; apply U3; rewrite Hheld; by apply elem_of_cons; left).
  assert (Hsave : forall h k, context (fiber_at h s) = Some k -> k <> c) by (intros h k; exact (comes_saved s t c from h k Hi Hfrom)).
  assert (Hland : exists o s3 gone Q, land t s2 = Done (o, s3) /\ lands t c x' gone from Q s2 s3 /\ (forall k, gone = Some k -> context (fiber_at g s) = Some k) /\
    ((Q = Guest /\ (from = None \/ context (fiber_at g s) <> None) /\ exists r, o = Some r /\ arrival g arg stack s r)
     \/ exists f d, from = Some f /\ context (fiber_at g s) = None /\ o = None /\ Q = Fetching d (frame_of f s2) /\ arrival g arg stack s (entry_result d))).
  { destruct J4 as [k Hk Hpr|d Hk Hpr Hd].
    - destruct (contexts s2 !! k) as [y|] eqn:Ey; [|exfalso; apply (live_unless_inside s2 t c x' g k Hi2); [by rewrite Ht2|done|done|by rewrite Ht2|by rewrite Hg2|done]].
      destruct (land_resume t c x' k y s2) as (s3 & E3 & Hl); [by rewrite Ht2|done|by rewrite Ht2|done|eapply (fi_ctx _ Hi2 g k); [by rewrite Hg2|done]|]. rewrite Hpr in Hl.
      eexists _, s3, (Some k), Guest. split; [exact E3|]. split; [done|]. split; [by intros k' [= <-]|]. left. split; [done|]. split; [right; by rewrite Hk|]. eexists. split; [done|].
      unfold arrival. rewrite Hk. exists y. split.
      + rewrite <- Ey. symmetry. apply (Hkeep g); [rewrite Hheld; by apply elem_of_cons; left|done].
      + destruct (J5 k Hk) as [_ ->]. done.
    - pose proof (J6 Hk) as J7. assert (arrival g arg stack s (entry_result d)) as Har by (injection J7 as ->; unfold arrival; by rewrite Hk).
      destruct from as [f|].
      + destruct (land_hand t c x' d f s2) as (s3 & E3 & Hl); [by rewrite Ht2|done|done|by rewrite Ht2|done|].
        eexists _, s3, None, _. split; [exact E3|]. split; [done|]. split; [done|]. right. by exists f, d.
      + destruct (land_enter t c x' d s2) as (s3 & E3 & Hl); [by rewrite Ht2|done|done|by rewrite Ht2|done|].
        eexists _, s3, None, _. split; [exact E3|]. split; [done|]. split; [done|]. left. split; [done|]. split; [by left|]. by eexists. }
  destruct Hland as (o & s3 & gone & Q & E3 & Hl & Hgone & Hcase). exists o, s3. split; [done|]. pose proof Hl as [Lc _ _ Lf Lt].
  assert (Hc3 : contexts s3 !! c = Some (with_prev None x')).
  { rewrite Lc. destruct gone as [k|]; cbn; [rewrite lookup_delete_ne; [by rewrite lookup_insert_eq|]|by rewrite lookup_insert_eq]. apply (Hsave g). by apply Hgone. }
  split.
  - unfold arrives. destruct Hcase as [(-> & Hq & r & -> & Har)|(f & d & -> & Hk & -> & -> & Har)].
    + assert (inside s3 t g) by (split; [by rewrite Lt, decide_True|]; exists c, (with_prev None x'); by rewrite Lt, decide_True).
      destruct from as [f|]; [|by eexists]. destruct (context (fiber_at g s)) as [k|]; [by eexists|]. by destruct Hq.
    + rewrite Hk. split; [done|]. assert (Hi3 : finv s3) by (eapply fiber_step_ok; [exact Hi2|]; eapply fs_land; [rewrite Ht2; by destruct J4|exact E3]).
      assert (frame_of f s3 = frame_of f s2) as -> by (unfold frame_of; rewrite Lf; by case_decide).
      assert (Ht3 : thread_at t s3 = mkFthread (Some c) (Fetching d (frame_of f s2))) by (by rewrite Lt, decide_True).
      intros s4 Ho4. pose proof (fetching_goes_on t d (frame_of f s2) s3 Hi3) as HF. rewrite Ht3 in HF. specialize (HF eq_refl s4 Ho4).
      destruct (frame_kept (frame_of f s2) s4) eqn:Hkp; [|done]. destruct HF as (r & s5 & E5 & -> & _). eexists _, s5. split; [exact E5|]. split; [done|].
      destruct (others_undisturbed _ _ _ Hi3 Ho4) as [Hi4 [V1 V2 _]]. rewrite Ht3 in V1, V2. specialize (V2 c eq_refl). rewrite Hc3 in V2.
      destruct (land_fetch t c (with_prev None x') d (frame_of f s2) s4) as (s6 & E6 & [Mc _ _ _ Mt]); [by rewrite V1|done|done|by rewrite V1|done|]. assert (s6 = s5) as -> by congruence.
      split; [by rewrite Mt, decide_True|]. eexists c, _. rewrite Mt, decide_True by done. split; [done|]. rewrite Mc. cbn. by rewrite lookup_insert_eq.
  - intros f ->. assert (Hf : f ∈ held s' t) by (rewrite Hheld; apply elem_of_cons; right; by apply list_elem_of_singleton). destruct (U3 f Hf) as (E1 & _ & _). rewrite Lf, decide_True by done. cbn.
    split; [done|]. split; [by rewrite E1, Hcx|]. intros k Hk. rewrite Lc. rewrite <- (Hkeep f k Hf Hk). assert (Hne : gone <> Some k).
    { intros Eg. apply Hgone in Eg. assert (f = g) as -> by (by apply (fi_ctx_inj _ Hi f g k)). pose proof (ow_nodup _ (fi_owners _ Hi') t) as Hn. rewrite Hheld in Hn. apply NoDup_cons in Hn as [Hn _]. apply Hn. by apply list_elem_of_singleton. }
    pose proof (Hsave f k Hk). destruct gone as [k'|]; cbn; [rewrite lookup_delete_ne by congruence|]; by rewrite lookup_insert_ne.
Qed.

(** C16: switching: when a thread in fiber [f] switches to an idle fiber [g], then,
    whatever other threads do meanwhile, its next step makes [f] idle and leaves it,
    if it has a stack, waiting in its call of [sceFiberSwitch].  If [g] was left in a
    call, with this step the thread arrives in [g], and this call returns with the
    argument.  If [g] has not started, the entry's arguments are fetched from the
    stack of [f] after that step: the thread arrives at the entry of [g] with the
    argument, on the stack of [g], unless another thread has meanwhile gone on in [f],
    initialised or finalised it, when what is read is undefined; when [f] has no stack
    of its own, it always arrives. *)
Theorem switch_delivers s t f g sp bp arg want : fiber_reach s -> inside s t f -> bad_target g 0 s = None -> state (fiber_at g s) = FiberState.Idle ->
  exists s' stack, sceFiberSwitch t sp bp g arg want s = Done (None, s')
  /\ (addr_context (fiber_at g s) <> 0 -> stack = wadd (addr_context (fiber_at g s)) (size_context (fiber_at g s)))
  /\ forall s2, others t s' s2 -> exists o s3, land t s2 = Done (o, s3) /\ state (fiber_at f s3) = FiberState.Idle
     /\ (if decide (addr_context (fiber_at f s) = 0) then frame_of f s3 = None
         else exists k y, frame_of f s3 = Some (f, k) /\ contexts s3 !! k = Some y /\ resume_at (regs y) = AtSwitch want)
     /\ match context (fiber_at g s) with
        | Some _ => exists r, o = Some r /\ arrival g arg stack s r /\ inside s3 t g
        | None => o = None /\ fetches t (frame_of f s3) (fun r s5 => arrival g arg stack s r /\ inside s5 t g) s3
        end.
Proof.
  intros Hr (Hp & c & x & Ht & Hc & Hf) Hb Hidle. pose proof (fiber_reach_inv _ Hr) as Hi. destruct (held_guest _ _ _ _ _ Hi Hp Ht Hc Hf) as (_ & _ & Hrun & Hval).
  destruct (switch_impl_spec t sp bp g 0 0 arg want c x f s) as [Hn|(s1 & x' & P & s' & E & _ & Es1 & _ & _ & Hfg & He & J)]; [done..|intros [?|?]; done|by eapply switch_not_refused in Hn|].
  rewrite (Es1 eq_refl eq_refl) in *. exists s', (stack_of g x s). split; [exact E|]. split; [intros Hn; unfold stack_of; by rewrite (proj2 (Z.eqb_neq _ _) Hn)|].
  intros s2 Ho. destruct (leave_spec sp bp (AtSwitch want) t c x f s) as [Hi2 Hfrom]; [done..|]. set (sl := leave sp bp (AtSwitch want) f s) in *.
  assert (Eg : fiber_at g sl = fiber_at g s) by (unfold sl; rewrite leave_fiber, decide_False; [done|]; by intros [? _]).
  destruct (enters_arrives t g arg (stack_of g x s) (Some f) c x x' P sl s' s2) as (o & s3 & E3 & Harr & Hlast); [done|unfold sl; by rewrite leave_thread|by rewrite Eg|done|done|done|done| |done|].
  { destruct J as [J1 J2 J3 J4 J5 J6]. split; rewrite ?Eg; try done. destruct J4; [apply go_resume|apply go_enter]; by rewrite ?Eg. }
  destruct (Hlast f eq_refl) as (L1 & L2 & L3). exists o, s3. split; [done|]. split; [done|]. split; [by apply (left_behind sp bp)|].
  assert (Hav : forall r, arrival g arg (stack_of g x s) sl r -> arrival g arg (stack_of g x s) s r).
  { intros r. unfold arrival. rewrite Eg. destruct (context (fiber_at g s)) as [k|] eqn:Ek; [|done]. intros (y & Hy & ->). exists y. split; [|done].
    unfold sl, leave in Hy. destruct (_ =? 0); [done|]. cbn in Hy. rewrite lookup_insert_ne in Hy; [done|]. apply (fi_ctx _ Hi) in Ek as [? _]. lia. }
  unfold arrives in Harr. rewrite Eg in Harr. destruct (context (fiber_at g s)) as [k|] eqn:Ek.
  - destruct Harr as (r & -> & Ha & Hin). exists r. auto.
  - destruct Harr as (-> & HF). split; [done|]. intros s4 Ho4. specialize (HF s4 Ho4). destruct (frame_kept _ s4); [|done]. destruct HF as (r & s5 & E5 & Ha & Hin). exists r, s5. auto.
Qed.

(** C17: running and returning: a thread that runs an idle fiber arrives in it with its
    argument, as after a switch; and when the fiber returns to the thread, the call of
    [sceFiberRun] returns with the argument of the return, the thread is in no fiber
    any more, and the fiber is idle and, if it has a stack, waits in its call of
    [sceFiberReturnToThread]; whatever other threads do meanwhile. *)
Theorem run_and_return s t : fiber_reach s ->
  (forall g sp bp arg want, place (thread_at t s) = Guest -> tcb_fiber (thread_at t s) = None -> bad_target g 0 s = None -> state (fiber_at g s) = FiberState.Idle ->
     exists s', sceFiberRun t sp bp g arg want s = Done (None, s') /\ forall s2, others t s' s2 -> exists r s3 stack, land t s2 = Done (Some r, s3) /\ arrival g arg stack s r /\ inside s3 t g)
  /\ (forall f c x sp bp arg want, place (thread_at t s) = Guest -> tcb_fiber (thread_at t s) = Some c -> contexts s !! c = Some x -> current_fiber x = Some f ->
     exists s', sceFiberReturnToThread t sp bp arg want s = Done (None, s')
     /\ forall s2, others t s' s2 -> exists s3, land t s2 = Done (Some (FRet ORBIS_OK (if wants (resume_at (regs x)) then Some arg else None)), s3)
        /\ tcb_fiber (thread_at t s3) = None /\ state (fiber_at f s3) = FiberState.Idle
        /\ (addr_context (fiber_at f s) <> 0 -> exists k y, context (fiber_at f s3) = Some k /\ contexts s3 !! k = Some y /\ resume_at (regs y) = AtReturn want)).
Proof.
  intros Hr. pose proof (fiber_reach_inv _ Hr) as Hi. split.
  - intros g sp bp arg want Hp Ht Hb Hidle. destruct (run_spec t sp bp g 0 0 arg want s) as [Hn|(s1 & x' & P & s' & E & _ & Es1 & _ & _ & Ht1 & He & J)]; [done..|intros [?|?]; done|by apply run_not_refused in Hn|].
    rewrite (Es1 eq_refl eq_refl) in *. exists s'. split; [exact E|]. intros s2 Ho.
    destruct (enters_arrives t g arg (stack_of g (run_ctx sp bp g want) s) None (next_ctx s) (run_ctx sp bp g want) x' P s s' s2) as (o & s3 & E3 & (r & -> & Harr & Hin) & _); [done..|by split|done|done|done|done|done|]. by exists r, s3, (stack_of g (run_ctx sp bp g want) s).
  - intros f c x sp bp arg want Hp Ht Hc Hf. destruct (held_guest _ _ _ _ _ Hi Hp Ht Hc Hf) as (_ & _ & Hrun & Hval). eexists. split; [by apply (return_spec t sp bp arg want c x f s)|]. intros s2 Ho.
    destruct (leave_spec sp bp (AtReturn want) t c x f s) as [Hil (x0 & F1 & F2 & _ & F4)]; [done..|]. assert (x0 = x) as -> by (rewrite (leave_ctx _ _ _ _ _ _ _ Hi Hc) in F2; congruence). set (sl := leave sp bp (AtReturn want) f s) in *.
    assert (Hpl : place (thread_at t sl) = Guest) by (unfold sl; by rewrite leave_thread). assert (Hi' : finv (returning t c x arg sl)) by (by eapply finv_returning).
    destruct (others_undisturbed _ _ _ Hi' Ho) as [Hi2 [U1 U2 U3]]. assert (Et : thread_at t (returning t c x arg sl) = mkFthread (Some c) (Jumped c)) by (unfold returning; rewrite thread_set_place, decide_True by done; by rewrite <- F1).
    assert (Hheld : f ∈ held (returning t c x arg sl) t) by (rewrite (held_inside _ t c (with_return arg x)); [|by rewrite Et|cbn; by rewrite lookup_insert_eq]; cbn; rewrite Hf; by apply elem_of_cons; left).
    destruct (land_return t c (with_return arg x) f s2) as (s3 & E3 & [Qc _ _ Qf Qt]); [by rewrite U1, Et|rewrite U2; [cbn; by rewrite lookup_insert_eq|by rewrite Et]|done|done|done|by rewrite U1, Et|].
    exists s3. split; [exact E3|]. split; [by rewrite Qt, decide_True|]. rewrite Qf, decide_True by done. split; [done|]. intros Hn. destruct (U3 f Hheld) as (V1 & _ & V3). cbn [context with_state]. rewrite V1.
    change (fiber_at f (returning t c x arg sl)) with (fiber_at f sl) in *. unfold sl in *. rewrite leave_fiber, decide_True in * by done. cbn [context with_context] in *. specialize (V3 _ eq_refl).
    assert (Hlt : c < next_ctx s) by (by apply (fi_fresh _ Hi c x)). unfold leave in V3. rewrite (proj2 (Z.eqb_neq _ _) Hn) in V3. cbn in V3. rewrite lookup_insert_ne, lookup_insert_eq in V3 by lia.
    eexists _, _. split; [done|]. rewrite Qc, lookup_delete_ne by lia. by split.
Qed.

(** ** What is reported of a stack *)

Lemma words_between_0 p e : ~ p < e -> words_between p e = O.
Proof. intros H. unfold words_between. assert ((e - p + 7) / 8 <= 0) by (Z.div_mod_to_equations; lia). lia. Qed.

Lemma words_between_S p e : p < e -> words_between p e = S (words_between (p + 8) e).
Proof. intros H. unfold words_between. assert ((e - p + 7) / 8 = (e - (p + 8) + 7) / 8 + 1) as -> by (Z.div_mod_to_equations; lia). assert (0 <= (e - (p + 8) + 7) / 8) by (Z.div_mod_to_equations; lia). lia. Qed.

Lemma margin_full e s : forall fuel p, (words_between p e < fuel)%nat -> (forall i, 0 <= i < Z.of_nat (words_between p e) -> word_at (p + 8 * i) s = kFiberStackSizeCheck) ->
  margin_end fuel p e s = Done (p + 8 * Z.of_nat (words_between p e)).
Proof.
  induction fuel as [|fuel IH]; intros p Hf Hw; [lia|]. cbn [margin_end]. destruct (p <? e) eqn:E; [apply Z.ltb_lt in E|apply Z.ltb_ge in E].
  - rewrite (words_between_S p e E) in *. pose proof (Hw 0 ltac:(lia)) as H0. rewrite Z.mul_0_r, Z.add_0_r in H0. rewrite H0, Z.eqb_refl, IH; [f_equal; lia|lia|].
    intros i Hi. rewrite <- (Hw (i + 1)) by lia. f_equal. lia.
  - rewrite words_between_0 by lia. f_equal. lia.
Qed.

Lemma margin_stuck e s : forall fuel p i, 0 <= i < Z.of_nat (words_between p e) -> word_at (p + 8 * i) s <> kFiberStackSizeCheck -> margin_end fuel p e s = Raised OutOfFuel.
Proof.
  induction fuel as [|fuel IH]; intros p i Hi Hw; [done|]. cbn [margin_end]. destruct (p <? e) eqn:E; [apply Z.ltb_lt in E|apply Z.ltb_ge in E; rewrite words_between_0 in Hi by lia; lia].
  destruct (word_at p s =? kFiberStackSizeCheck) eqn:Ew; [|by apply (IH p i)]. assert (i <> 0) by (intros ->; rewrite Z.mul_0_r, Z.add_0_r in Hw; by apply Z.eqb_eq in Ew).
  rewrite words_between_S in Hi by done. apply (IH (p + 8) (i - 1)); [lia|]. replace (p + 8 + 8 * (i - 1)) with (p + 8 * i) by lia. done.
Qed.

(** [sceFiberGetInfo] on a fiber whose stack is checked: as long as no word behind
    the signature was written it reports the whole stack as unused; once one was, it
    never returns, however long it runs. *)
Theorem info_margin fiber info nm s : let f := fiber_at fiber s in let n := words_between (context_start f + 8) (context_end f) in
  fiber <> 0 -> Z.land fiber 7 = 0 -> Z.land info 7 = 0 -> bad_magic f = false -> has_fflag (fflags f) FiberFlags.ContextSizeCheck = true -> addr_context f <> 0 ->
  word_at (context_start f) s = kFiberStackSignature -> 8 * Z.of_nat n < W64 ->
  ((forall i, 0 <= i < Z.of_nat n -> word_at (context_start f + 8 + 8 * i) s = kFiberStackSizeCheck) ->
     forall fuel, (n < fuel)%nat -> exists i, sceFiberGetInfo fuel fiber (Some (info, 128)) nm s = Done (Some (FInfo i), s) /\ i_size_context_margin i = 8 * Z.of_nat n)
  /\ ((exists i, 0 <= i < Z.of_nat n /\ word_at (context_start f + 8 + 8 * i) s <> kFiberStackSizeCheck) -> forall fuel, sceFiberGetInfo fuel fiber (Some (info, 128)) nm s = Raised OutOfFuel).
Proof.
  intros f n H1 H2 H3 H4 H5 H6 H7 H8.
  assert (E : forall fuel, sceFiberGetInfo fuel fiber (Some (info, 128)) nm s =
    let! margin := (let! p := margin_end fuel (context_start f + 8) (context_end f) s in Done (wsub p (context_start f + 8))) in
    Done (Some (FInfo (mkFinfo (entry f) (arg_on_initialize f) (addr_context f) (size_context f) (strncpy ORBIS_FIBER_MAX_NAME_LENGTH (cstr (name f)) nm) margin)), s)).
  { intros fuel. unfold sceFiberGetInfo. rewrite (proj2 (Z.eqb_neq _ _) H1), H2, H3. cbn [Z.eqb negb orb]. fold f. rewrite H4, H5, (proj2 (Z.eqb_neq _ _) H6), H7, Z.eqb_refl. done. }
  split.
  - intros Hw fuel Hf. rewrite E, (margin_full _ _ _ _ Hf Hw). cbn [obind]. eexists. split; [done|]. cbn. fold n. replace (wsub _ _) with (u64 (8 * Z.of_nat n)) by (unfold wsub; f_equal; lia). apply u64_small. lia.
  - intros (i & Hi & Hw) fuel. rewrite E, (margin_stuck _ _ fuel _ _ Hi Hw). done.
Qed.

(** ** Histories *)

Definition after (t : Z) (c : FCall) (s : FState) : FState := match run_fiber t c s with Done (_, s') => s' | Raised _ => s end.
Definition landed (t : Z) (s : FState) : FState := match land t s with Done (_, s') => s' | Raised _ => s end.

Lemma reach_after t c s : fiber_reach s -> place (thread_at t s) = Guest -> sane c s -> fiber_reach (after t c s).
Proof. intros Hr Hp Hs. unfold after. destruct (run_fiber t c s) as [[o s']|] eqn:E; [|done]. eapply fr_step; [done|]. by eapply fs_call. Qed.

Lemma reach_landed t s : fiber_reach s -> place (thread_at t s) <> Guest -> fiber_reach (landed t s).
Proof. intros Hr Hp. unfold landed. destruct (land t s) as [[o s']|] eqn:E; [|done]. eapply fr_step; [done|]. by eapply fs_land. Qed.

(** Fiber 4096 with a stack, fiber 8192 without; then thread 1 in the former. *)
Definition two_fibers : FState := after 1 (FInit 8192 (Some [66]) 700 8 0 0 0 0 0) (after 1 (FInit 4096 (Some [65]) 600 7 65536 1024 0 0 0) fiber_start).
Definition in_fiber : FState := landed 1 (after 1 (FRun 500 600 4096 0 0 9 true) two_fibers).

Lemma two_fibers_reach : fiber_reach two_fibers.
Proof.
  apply reach_after; [apply reach_after; [apply fr_start|done|]|vm_compute; reflexivity|].
  - split; [done|]. intros _. split; [lia|]. split; [word_lia|]. intros h _ Hn. by destruct Hn.
  - split; [vm_compute; discriminate|done].
Qed.

Lemma in_fiber_reach : fiber_reach in_fiber.
Proof. apply reach_landed; [apply reach_after; [apply two_fibers_reach|vm_compute; reflexivity|]|vm_compute; discriminate]. intros [?|?]; done. Qed.

Lemma fiber_exclusive_witness : 4096 ∈ held in_fiber 1 /\ forall u, 4096 ∈ held in_fiber u -> 1 = u.
Proof.
  assert (H : 4096 ∈ held in_fiber 1) by (vm_compute; apply list_elem_of_here). split; [exact H|]. intros u. exact (proj1 (proj2 (fiber_exclusive in_fiber in_fiber_reach)) 1 u 4096 H).
Defined.

Lemma fiber_calls_complete_witness : exists o s', run_fiber 1 (FReturn 0 0 5 true) in_fiber = Done (o, s').
Proof.
  destruct (fiber_calls_complete in_fiber 1 (FReturn 0 0 5 true) in_fiber_reach) as (o & s' & E & _); [vm_compute; reflexivity|exact I|]. exists o, s'. exact E.
Defined.

Lemma kept_now f k y s : frame_of f s = Some (f, k) -> contexts s !! k = Some y -> state (fiber_at f s) = FiberState.Idle -> frame_kept (frame_of f s) s = true.
Proof.
  intros Hf Hk Hs. rewrite Hf. unfold frame_of in Hf. destruct (context (fiber_at f s)) as [k'|] eqn:Ek; [|done]. injection Hf as ->. cbn. rewrite Ek, Hk, Hs.
  by rewrite !bool_decide_eq_true_2.
Qed.

Lemma switch_delivers_witness : exists s' s3 r s5, sceFiberSwitch 1 0 0 8192 3 true in_fiber = Done (None, s') /\ land 1 s' = Done (None, s3) /\ land 1 s3 = Done (Some r, s5) /\ inside s5 1 8192.
Proof.
  destruct (switch_delivers in_fiber 1 4096 8192 0 0 3 true in_fiber_reach) as (s' & stack & E & _ & H); [|vm_compute; reflexivity..|].
  { split; [vm_compute; reflexivity|]. eexists _, _. split; [vm_compute; reflexivity|]. split; vm_compute; reflexivity. }
  destruct (H s' (ot_none _ _)) as (o & s3 & E3 & Hidle & Hleft & Hnew). rewrite decide_False in Hleft by (vm_compute; discriminate). destruct Hleft as (k & y & Hfr & Hk & _).
  assert (En : context (fiber_at 8192 in_fiber) = None) by (vm_compute; reflexivity). rewrite En in Hnew. destruct Hnew as [-> HF].
  specialize (HF s3 (ot_none _ _)). rewrite (kept_now 4096 k y s3 Hfr Hk Hidle) in HF. destruct HF as (r & s5 & E5 & _ & Hin). by exists s', s3, r, s5.
Defined.

Lemma run_and_return_witness : exists s', sceFiberRun 2 0 0 8192 3 true two_fibers = Done (None, s').
Proof.
  destruct (proj1 (run_and_return two_fibers 2 two_fibers_reach) 8192 0 0 3 true) as (s' & E & _); [vm_compute; reflexivity..|]. exists s'. exact E.
Defined.

(** A fiber whose stack is filled with the pattern, and then used. *)
Definition checked_fiber : FState := after 1 (FPoke 66000 1) (after 1 (FInit 4096 (Some [65]) 600 7 65536 1024 0 FiberFlags.ContextSizeCheck 0) fiber_start).

Lemma info_margin_witness : sceFiberGetInfo 1000 4096 (Some (8, 128)) [] checked_fiber = Raised OutOfFuel.
Proof.
  apply (proj2 (info_margin 4096 8 [] checked_fiber ltac:(done) eq_refl eq_refl ltac:(vm_compute; reflexivity) ltac:(vm_compute; reflexivity) ltac:(vm_compute; discriminate)
    ltac:(vm_compute; reflexivity) ltac:(vm_compute; reflexivity))). exists 57. split; [vm_compute; split; [discriminate|reflexivity]|vm_compute; discriminate].
Defined.

(** ** Unexpected runs *)

(** When the check of stack sizes is started before a fiber is made, the fiber is
    flagged but its stack is not filled: asking for its information never returns. *)
Example size_check_not_filled :
  sceFiberGetInfo 1000 4096 (Some (8, 128)) [] (after 1 (FInit 4096 (Some [65]) 600 7 65536 1024 0 0 0) (after 1 (FStart 0) fiber_start)) = Raised OutOfFuel.
Proof. vm_compute. reflexivity. Qed.

(** A stack is attached to a fiber that runs on another thread, although the call that
    attaches it fails. *)
Example attach_to_running_fiber :
  (let s := landed 1 (after 1 (FRun 500 600 8192 0 0 9 true) two_fibers) in
   let! '(r, s') := run_fiber 2 (FRun 0 0 8192 131072 1024 0 true) s in
   Done (r, addr_context (fiber_at 8192 s), addr_context (fiber_at 8192 s'), bool_decide (state (fiber_at 8192 s') = FiberState.Run))) =
  Done (Some (FRet ORBIS_FIBER_ERROR_STATE None), 0, 131072, true).
Proof. vm_compute. reflexivity. Qed.

(** A fiber that runs can be initialised again, and is then run by two threads. *)
Example reinitialised_runs_twice :
  (let s := after 2 (FInit 4096 (Some [65]) 600 7 65536 1024 0 0 0) in_fiber in
   let s := landed 2 (after 2 (FRun 0 0 4096 0 0 1 true) s) in (held s 1, held s 2)) = ([4096], [4096]).
Proof. vm_compute. reflexivity. Qed.

(** The fiber that is left is idle before the arguments on its stack are read: thread 2
    runs it in between, and thread 1 starts the entry of the next fiber with whatever
    thread 2 has left there. *)
Example entry_data_overwritten :
  (let s := landed 1 (after 1 (FSwitch 0 0 8192 0 0 3 true) in_fiber) in
   let s2 := landed 2 (after 2 (FRun 0 0 4096 0 0 1 true) s) in
   (let! '(r, _) := land 1 s in Done r, let! '(r, _) := land 1 s2 in Done r)) =
  (Done (Some (FEnter 700 8 3 496 None)), Raised Undefined).
Proof. vm_compute. reflexivity. Qed.
