(* ===== verification/BoundedQueue.v ===== *)
(** * The bounded queue ([common/bounded_threadsafe_queue.h])

    A ring of [Capacity] slots, a power of two, between threads that push and threads
    that pop.  [SPSCQueue] is for one of each; [MPSCQueue] and [MPMCQueue] put a mutex
    around its pushes, the latter also around its pops ([QKind]).

    The indices count up and wrap at 64 bits.  A thread inside a call has a program
    counter ([QPc]), one constructor for each access to something shared; the atomic
    indices are sequentially consistent.  The sections under the mutexes of the
    condition variables are short and are one step each: a test of the condition that
    ends in sleep or goes on, and a notification.  A thread that sleeps can go on
    without having been notified, as condition variables allow, and tests again. *)

From stdpp Require Import gmap.
From S2P Require Import Prelude.

Module PushMode.
Inductive t := Try | Wait.
End PushMode.

Module PopMode.
Inductive t := Try | Wait | WaitWithStopToken.
End PopMode.

#[export] Instance push_mode_eq_dec : EqDecision PushMode.t.
Proof. solve_decision. Defined.
#[export] Instance pop_mode_eq_dec : EqDecision PopMode.t.
Proof. solve_decision. Defined.

Record SPSCQueue := mkSpsc { m_read_index : Z; m_write_index : Z; m_data : list Z }.

(** Which of the two wrapper mutexes there are. *)
Record QKind := mkKind { has_write_mutex : bool; has_read_mutex : bool }.
Definition SPSC : QKind := mkKind false false.
Definition MPSC : QKind := mkKind true false.
Definition MPMC : QKind := mkKind true true.

Inductive QPc :=
| Out
| EmplaceStart (m : PushMode.t) (v : Z)
| EmplaceLoad (m : PushMode.t) (v : Z)
| EmplaceCheck (m : PushMode.t) (v write_index : Z)
| EmplaceSleep (v write_index : Z) (notified : bool)
| EmplaceStore (v write_index : Z)
| EmplaceCount (v write_index : Z)
| EmplaceNotify
| EmplaceEnd (ok : bool)
| PopStart (m : PopMode.t)
| PopLoad (m : PopMode.t)
| PopCheck (m : PopMode.t) (read_index : Z)
| PopSleep (m : PopMode.t) (read_index : Z) (notified : bool)
| PopStopped (read_index : Z)
| PopMove (read_index : Z)
| PopCount (read_index v : Z)
| PopNotify (v : Z)
| PopEnd (out : option Z).

(** [stop] is what the stop token says. *)
Record QState := mkQ { spsc : SPSCQueue; write_mutex : option Z; read_mutex : option Z; stop : bool; pcs : gmap Z QPc }.

Definition pc (t : Z) (s : QState) : QPc := default Out (pcs s !! t).
Definition go (t : Z) (p : QPc) (s : QState) : QState := mkQ (spsc s) (write_mutex s) (read_mutex s) (stop s) (<[t := p]> (pcs s)).
Definition set_spsc (q : SPSCQueue) (s : QState) : QState := mkQ q (write_mutex s) (read_mutex s) (stop s) (pcs s).
Definition set_write_mutex (o : option Z) (s : QState) : QState := mkQ (spsc s) o (read_mutex s) (stop s) (pcs s).
Definition set_read_mutex (o : option Z) (s : QState) : QState := mkQ (spsc s) (write_mutex s) o (stop s) (pcs s).
Definition set_pcs (m : gmap Z QPc) (s : QState) : QState := mkQ (spsc s) (write_mutex s) (read_mutex s) (stop s) m.

(** ** Condition variables *)

Definition wake_producer (p : QPc) : option QPc := match p with EmplaceSleep v w false => Some (EmplaceSleep v w true) | _ => None end.
Definition wake_consumer (p : QPc) : option QPc := match p with PopSleep m r false => Some (PopSleep m r true) | _ => None end.

(** Which of the threads asleep is chosen is up to the host. *)
Definition notify_one (pick : nat) (wake : QPc -> option QPc) (m : gmap Z QPc) : gmap Z QPc :=
  let l := omap (fun '(t, p) => (fun p' => (t, p')) <$> wake p) (map_to_list m) in
  match l !! (pick mod length l)%nat with Some (t, p') => <[t := p']> m | None => m end.

(** [notify_all()]: every thread asleep on the condition. *)
Definition notify_sleepers (wake : QPc -> option QPc) (m : gmap Z QPc) : gmap Z QPc := (fun p => default p (wake p)) <$> m.

(** ** Steps *)

Inductive QRes := Pushed (ok : bool) | Popped (out : option Z).

Section Queue.
Context (Capacity : Z) (kind : QKind).

Definition queue_start : QState := mkQ (mkSpsc 0 0 (repeat 0 (Z.to_nat Capacity))) None None false ∅.

Definition is_full (q : SPSCQueue) (write_index : Z) : bool := wsub write_index (m_read_index q) =? Capacity.
Definition has_room (q : SPSCQueue) (write_index : Z) : bool := wsub write_index (m_read_index q) <? Capacity.
Definition has_data (q : SPSCQueue) (read_index : Z) : bool := negb (read_index =? m_write_index q).

Definition slot (i : Z) : nat := Z.to_nat (i mod Capacity).

Definition store (w v : Z) (q : SPSCQueue) : SPSCQueue := mkSpsc (m_read_index q) (m_write_index q) (<[slot w := v]> (m_data q)).
Definition count_write (q : SPSCQueue) : SPSCQueue := mkSpsc (m_read_index q) (wadd (m_write_index q) 1) (m_data q).
Definition count_read (q : SPSCQueue) : SPSCQueue := mkSpsc (wadd (m_read_index q) 1) (m_write_index q) (m_data q).

(** The next step of [Emplace] and of the wrappers around it; nothing while a mutex is
    not to be had. *)
Definition emplace_step (pick : nat) (t : Z) (s : QState) : option (option QRes * QState) :=
  let q := spsc s in
  match pc t s with
  | EmplaceStart m v =>
      if has_write_mutex kind then match write_mutex s with None => Some (None, go t (EmplaceLoad m v) (set_write_mutex (Some t) s)) | Some _ => None end
      else Some (None, go t (EmplaceLoad m v) s)
  | EmplaceLoad m v => Some (None, go t (EmplaceCheck m v (m_write_index q)) s)
  | EmplaceCheck PushMode.Try v w => Some (None, go t (if is_full q w then EmplaceEnd false else EmplaceStore v w) s)
  | EmplaceCheck PushMode.Wait v w | EmplaceSleep v w _ => Some (None, go t (if has_room q w then EmplaceStore v w else EmplaceSleep v w false) s)
  | EmplaceStore v w => Some (None, go t (EmplaceCount v w) (set_spsc (store w v q) s))
  | EmplaceCount v w => Some (None, go t EmplaceNotify (set_spsc (count_write q) s))
  | EmplaceNotify => Some (None, go t (EmplaceEnd true) (set_pcs (notify_one pick wake_consumer (pcs s)) s))
  | EmplaceEnd ok => Some (Some (Pushed ok), go t Out (if has_write_mutex kind then set_write_mutex None s else s))
  | _ => None
  end.

(** The same of [Pop]. *)
Definition pop_step (pick : nat) (t : Z) (s : QState) : option (option QRes * QState) :=
  let q := spsc s in
  match pc t s with
  | PopStart m =>
      if has_read_mutex kind then match read_mutex s with None => Some (None, go t (PopLoad m) (set_read_mutex (Some t) s)) | Some _ => None end
      else Some (None, go t (PopLoad m) s)
  | PopLoad m => Some (None, go t (PopCheck m (m_read_index q)) s)
  | PopCheck PopMode.Try r => Some (None, go t (if has_data q r then PopMove r else PopEnd None) s)
  | PopCheck PopMode.Wait r | PopSleep PopMode.Wait r _ => Some (None, go t (if has_data q r then PopMove r else PopSleep PopMode.Wait r false) s)
  | PopCheck PopMode.WaitWithStopToken r | PopSleep PopMode.WaitWithStopToken r _ =>
      Some (None, go t (if stop s || has_data q r then PopStopped r else PopSleep PopMode.WaitWithStopToken r false) s)
  | PopSleep PopMode.Try _ _ => None
  | PopStopped r => Some (None, go t (if stop s then PopEnd None else PopMove r) s)
  | PopMove r => Some (None, go t (PopCount r (default 0 (m_data q !! slot r))) s)
  | PopCount r v => Some (None, go t (PopNotify v) (set_spsc (count_read q) s))
  | PopNotify v => Some (None, go t (PopEnd (Some v)) (set_pcs (notify_one pick wake_producer (pcs s)) s))
  | PopEnd out => Some (Some (Popped out), go t Out (if has_read_mutex kind then set_read_mutex None s else s))
  | _ => None
  end.

(** The calls. *)
Definition TryEmplace (t v : Z) (s : QState) : QState := go t (EmplaceStart PushMode.Try v) s.
Definition EmplaceWait (t v : Z) (s : QState) : QState := go t (EmplaceStart PushMode.Wait v) s.
Definition TryPop (t : Z) (s : QState) : QState := go t (PopStart PopMode.Try) s.
Definition PopWait (t : Z) (with_token : bool) (s : QState) : QState := go t (PopStart (if with_token then PopMode.WaitWithStopToken else PopMode.Wait)) s.

(** A stop is requested: the waiting consumers are notified. *)
Definition request_stop (s : QState) : QState := mkQ (spsc s) (write_mutex s) (read_mutex s) true (notify_sleepers wake_consumer (pcs s)).

(** What is in the queue, oldest first. *)
Definition queue_count (q : SPSCQueue) : Z := wsub (m_write_index q) (m_read_index q).
Definition contents (q : SPSCQueue) : list Z := (fun i => default 0 (m_data q !! slot (m_read_index q + i))) <$> seqZ 0 (queue_count q).
End Queue.
