(* ===== verification/QueueSpec.v ===== *)
(** * The bounded queue: invariant and properties

    [queue_reach] is a history of calls and steps of any threads, with the values
    pushed and popped so far in the order of the steps that count the indices up.
    Without a mutex ([SPSC], and the consumers of [MPSC]) a thread calls only while no
    other thread is inside such a call. *)

From stdpp Require Import gmap.
From S2P Require Import Prelude BoundedQueue.

Definition pushing (p : QPc) : bool :=
  match p with EmplaceStart _ _ | EmplaceLoad _ _ | EmplaceCheck _ _ _ | EmplaceSleep _ _ _ | EmplaceStore _ _ | EmplaceCount _ _ | EmplaceNotify | EmplaceEnd _ => true | _ => false end.
Definition popping (p : QPc) : bool :=
  match p with PopStart _ | PopLoad _ | PopCheck _ _ | PopSleep _ _ _ | PopStopped _ | PopMove _ | PopCount _ _ | PopNotify _ | PopEnd _ => true | _ => false end.

(** Behind the mutex of the wrapper. *)
Definition in_emplace (p : QPc) : bool := match p with EmplaceStart _ _ => false | _ => pushing p end.
Definition in_pop (p : QPc) : bool := match p with PopStart _ => false | _ => popping p end.

Definition pushed_by (p : QPc) : list Z := match p with EmplaceCount v _ => [v] | _ => [] end.
Definition popped_by (p : QPc) : list Z := match p with PopCount _ v => [v] | _ => [] end.

Section Spec.
Context (cap : Z) (kind : QKind).
(** The capacity is a power of two that fits the type of the indices. *)
Context (Hcap : exists k, 0 <= k < 64 /\ cap = 2 ^ k).

Definition push_allowed (t : Z) (s : QState) : Prop := has_write_mutex kind = false -> forall u, pushing (pc u s) = false.
Definition pop_allowed (t : Z) (s : QState) : Prop := has_read_mutex kind = false -> forall u, popping (pc u s) = false.

Inductive queue_reach : QState -> list Z -> list Z -> Prop :=
| qr_start : queue_reach (queue_start cap) [] []
| qr_push t m v s a b : queue_reach s a b -> pc t s = Out -> push_allowed t s -> queue_reach (go t (EmplaceStart m v) s) a b
| qr_pop t m s a b : queue_reach s a b -> pc t s = Out -> pop_allowed t s -> queue_reach (go t (PopStart m) s) a b
| qr_emplace_step pick t r s s' a b : queue_reach s a b -> emplace_step cap kind pick t s = Some (r, s') -> queue_reach s' (a ++ pushed_by (pc t s)) b
| qr_pop_step pick t r s s' a b : queue_reach s a b -> pop_step cap kind pick t s = Some (r, s') -> queue_reach s' a (b ++ popped_by (pc t s))
| qr_stop s a b : queue_reach s a b -> queue_reach (request_stop s) a b.

(** ** Indices and slots *)

Lemma cap_pos : 0 < cap < W64 /\ (cap | W64).
Proof.
  destruct Hcap as (k & Hk & ->). split; [split; [lia|]; change W64 with (2 ^ 64); by apply Z.pow_lt_mono_r; lia|]. exists (2 ^ (64 - k)). change W64 with (2 ^ 64). rewrite <- Z.pow_add_r by lia. f_equal. lia.
Qed.

Lemma mod_cap z : (z mod W64) mod cap = z mod cap.
Proof. apply Z.mod_mod_divide, cap_pos. Qed.

Definition indices_ok (q : SPSCQueue) : Prop := 0 <= m_read_index q < W64 /\ 0 <= m_write_index q < W64 /\ queue_count q <= cap /\ length (m_data q) = Z.to_nat cap.

Lemma count_range q : 0 <= queue_count q < W64.
Proof. apply wsub_range. Qed.

Lemma write_slot q : slot cap (m_write_index q) = slot cap (m_read_index q + queue_count q).
Proof.
  unfold slot, queue_count, wsub, u64. f_equal. rewrite <- (mod_cap (m_read_index q + _)), <- (mod_cap (m_write_index q)). f_equal. rewrite Zplus_mod_idemp_r. f_equal. lia.
Qed.

Lemma slot_lt i : (slot cap i < Z.to_nat cap)%nat.
Proof. destruct cap_pos as [? _]. unfold slot. pose proof (Z.mod_pos_bound i cap). lia. Qed.

Lemma slot_ne r i j : 0 <= i < j -> j - i < cap -> slot cap (r + i) <> slot cap (r + j).
Proof.
  intros Hi Hj E. destruct cap_pos as [Hc _]. unfold slot in E. pose proof (Z.mod_pos_bound (r + i) cap). pose proof (Z.mod_pos_bound (r + j) cap).
  assert (Em : (r + i) mod cap = (r + j) mod cap) by lia. assert (E0 : (j - i) mod cap = 0) by (replace (j - i) with ((r + j) - (r + i)) by lia; by rewrite Zminus_mod, Em, Z.sub_diag).
  rewrite Z.mod_small in E0 by lia. lia.
Qed.

Lemma count_of_write q : queue_count q < cap -> queue_count (count_write q) = queue_count q + 1.
Proof.
  intros H. destruct cap_pos as [Hc _]. pose proof (count_range q) as Hr. unfold queue_count in *. cbn. unfold wadd, wsub, u64 in *. rewrite Zminus_mod_idemp_l.
  replace (m_write_index q + 1 - m_read_index q) with (m_write_index q - m_read_index q + 1) by lia. rewrite <- Zplus_mod_idemp_l. apply Z.mod_small. lia.
Qed.

Lemma count_of_read q : 0 < queue_count q -> queue_count (count_read q) = queue_count q - 1.
Proof.
  intros H. pose proof (count_range q) as Hr. unfold queue_count in *. cbn. unfold wadd, wsub, u64 in *. rewrite Zminus_mod_idemp_r.
  replace (m_write_index q - (m_read_index q + 1)) with (m_write_index q - m_read_index q - 1) by lia. rewrite <- Zminus_mod_idemp_l. apply Z.mod_small. lia.
Qed.

(** ** Contents *)

Lemma contents_length q : length (contents cap q) = Z.to_nat (queue_count q).
Proof. unfold contents. by rewrite length_fmap, length_seqZ. Qed.

Lemma contents_same q q' : m_read_index q' = m_read_index q -> queue_count q' = queue_count q ->
  (forall i, 0 <= i < queue_count q -> m_data q' !! slot cap (m_read_index q + i) = m_data q !! slot cap (m_read_index q + i)) -> contents cap q' = contents cap q.
Proof. intros Hr Hc Hd. unfold contents. rewrite Hr, Hc. apply list_fmap_ext. intros n i Hi. apply lookup_seqZ in Hi as [-> Hn]. by rewrite Hd by lia. Qed.

Lemma contents_store q v : queue_count q < cap -> contents cap (store cap (m_write_index q) v q) = contents cap q.
Proof.
  intros Hc. apply contents_same; [done|done|]. intros i Hi. cbn. rewrite list_lookup_insert_ne; [done|]. rewrite write_slot. apply not_eq_sym, slot_ne; lia.
Qed.

Lemma contents_write q v : queue_count q < cap -> m_data q !! slot cap (m_write_index q) = Some v -> contents cap (count_write q) = contents cap q ++ [v].
Proof.
  intros Hc Hv. pose proof (count_range q) as Hr. unfold contents. rewrite count_of_write by done. rewrite seqZ_app by lia. rewrite fmap_app. f_equal. cbn. rewrite seqZ_cons by lia. cbn.
  rewrite <- write_slot, Hv. done.
Qed.

Lemma contents_read q v : 0 < queue_count q -> m_data q !! slot cap (m_read_index q) = Some v -> contents cap q = v :: contents cap (count_read q).
Proof.
  intros Hc Hv. unfold contents. rewrite count_of_read by done. rewrite seqZ_cons by lia. cbn [fmap list_fmap]. f_equal; [by rewrite Z.add_0_r, Hv|]. change (Z.succ 0) with (1 + 0). rewrite <- fmap_add_seqZ, <- list_fmap_compose.
  replace (Z.pred (queue_count q)) with (queue_count q - 1) by lia. apply list_fmap_ext. intros n i _. cbn. f_equal. f_equal. unfold slot, wadd, u64. f_equal.
  rewrite <- (Zplus_mod_idemp_l (_ mod W64)), mod_cap, Zplus_mod_idemp_l. f_equal. lia.
Qed.

(** ** The invariant *)

Definition pc_ok (q : SPSCQueue) (st : bool) (p : QPc) : Prop :=
  match p with
  | EmplaceCheck _ _ w | EmplaceSleep _ w _ => w = m_write_index q
  | EmplaceStore _ w => w = m_write_index q /\ queue_count q < cap
  | EmplaceCount v w => w = m_write_index q /\ queue_count q < cap /\ m_data q !! slot cap w = Some v
  | PopCheck _ r => r = m_read_index q
  | PopSleep m r _ => r = m_read_index q /\ m <> PopMode.Try
  | PopStopped r => r = m_read_index q /\ (st = false -> 0 < queue_count q)
  | PopMove r => r = m_read_index q /\ 0 < queue_count q
  | PopCount r v => r = m_read_index q /\ 0 < queue_count q /\ m_data q !! slot cap r = Some v
  | _ => True
  end.

(** At most one thread is inside, because of the mutex or of the rule of the caller. *)
Record excludes (has_mutex : bool) (mutex : option Z) (inside calling : QPc -> bool) (s : QState) : Prop := {
  ex_one : forall t u, inside (pc t s) = true -> inside (pc u s) = true -> t = u;
  ex_mutex : has_mutex = true -> forall t, inside (pc t s) = true -> mutex = Some t;
  ex_rule : has_mutex = false -> forall t u, calling (pc t s) = true -> calling (pc u s) = true -> t = u }.

Record qinv (s : QState) : Prop := {
  qi_idx : indices_ok (spsc s);
  qi_pc : forall t, pc_ok (spsc s) (stop s) (pc t s);
  qi_w : excludes (has_write_mutex kind) (write_mutex s) in_emplace pushing s;
  qi_r : excludes (has_read_mutex kind) (read_mutex s) in_pop popping s;
  qi_sp : forall t v w, pc t s = EmplaceSleep v w false -> queue_count (spsc s) = cap \/ exists u v', pc u s = PopNotify v';
  qi_sc : forall t m r, pc t s = PopSleep m r false -> (queue_count (spsc s) = 0 \/ exists u, pc u s = EmplaceNotify) /\ (m = PopMode.WaitWithStopToken -> stop s = false) }.

Lemma pc_go t p s u : pc u (go t p s) = if decide (t = u) then p else pc u s.
Proof. unfold pc, go. cbn. destruct (decide (t = u)) as [->|]; [by rewrite lookup_insert_eq|by rewrite lookup_insert_ne]. Qed.

(** A thread that stays inside, or outside. *)
Lemma excludes_stay has_mutex mutex inside calling t p s s' : excludes has_mutex mutex inside calling s -> (forall u, pc u s' = if decide (t = u) then p else pc u s) ->
  inside p = inside (pc t s) -> calling p = calling (pc t s) -> excludes has_mutex mutex inside calling s'.
Proof.
  intros [H1 H2 H3] E Hi Hc. assert (Ei : forall u, inside (pc u s') = inside (pc u s)) by (intros u; rewrite E; by destruct (decide (t = u)) as [->|]).
  assert (Ec : forall u, calling (pc u s') = calling (pc u s)) by (intros u; rewrite E; by destruct (decide (t = u)) as [->|]).
  split; [intros t' u; rewrite !Ei; apply H1|intros Hm u; rewrite Ei; by apply H2|intros Hm t' u; rewrite !Ec; by apply H3].
Qed.

(** A thread that calls, goes in with the mutex or without, and out again. *)
Lemma excludes_call has_mutex mutex inside calling t p s s' : excludes has_mutex mutex inside calling s -> (forall u, pc u s' = if decide (t = u) then p else pc u s) ->
  inside p = false -> (has_mutex = false -> forall u, calling (pc u s) = false) -> excludes has_mutex mutex inside calling s'.
Proof.
  intros [H1 H2 H3] E Hp Hr. assert (Ei : forall u, inside (pc u s') = true -> t <> u /\ inside (pc u s) = true) by (intros u; rewrite E; destruct (decide (t = u)); [congruence|done]).
  split; [intros t' u [_ Ht]%Ei [_ Hu]%Ei; by apply H1|intros Hm u [_ Hu]%Ei; by apply H2|].
  intros Hm t' u. rewrite !E. specialize (Hr Hm). repeat case_decide; subst; rewrite ?Hr; done.
Qed.

Lemma excludes_enter has_mutex mutex inside calling t p s s' : excludes has_mutex mutex inside calling s -> (forall u, pc u s' = if decide (t = u) then p else pc u s) ->
  inside (pc t s) = false -> calling p = true -> calling (pc t s) = true -> (forall x, inside x = true -> calling x = true) -> (has_mutex = true -> mutex = None) ->
  excludes has_mutex (if has_mutex then Some t else mutex) inside calling s'.
Proof.
  intros [H1 H2 H3] E Hp Hc Hc' Hsub Hm.
  assert (Hno : forall u, inside (pc u s) = true -> u = t).
  { intros u Hu. destruct has_mutex; [by rewrite (Hm eq_refl) in H2; specialize (H2 eq_refl u Hu)|]. apply H3; auto. }
  assert (Hone : forall u, inside (pc u s') = true -> u = t) by (intros u; rewrite E; destruct (decide (t = u)); [done|apply Hno]).
  split; [intros t' u Ht Hu; by rewrite (Hone t' Ht), (Hone u Hu)|intros -> u Hu; by rewrite (Hone u Hu)|].
  intros -> t' u Ht Hu. apply H3; [done|..]; [revert Ht|revert Hu]; rewrite E; by destruct (decide _) as [->|].
Qed.

Lemma excludes_leave has_mutex mutex mutex' inside calling t s s' : excludes has_mutex mutex inside calling s -> (forall u, pc u s' = if decide (t = u) then Out else pc u s) ->
  inside (pc t s) = true -> inside Out = false -> calling Out = false -> excludes has_mutex mutex' inside calling s'.
Proof.
  intros [H1 H2 H3] E Ht Ho Hc. assert (Hno : forall u, inside (pc u s') = false).
  { intros u. rewrite E. destruct (decide (t = u)) as [->|Hne]; [done|]. destruct (inside (pc u s)) eqn:Eu; [|done]. by destruct Hne; apply H1. }
  split; [intros t' u; by rewrite Hno|intros _ u; by rewrite Hno|]. intros Hm t' u. rewrite !E. destruct (decide (t = t')), (decide (t = u)); try congruence. by apply H3.
Qed.

Lemma stay_inv t p q s : qinv s -> in_emplace p = in_emplace (pc t s) -> pushing p = pushing (pc t s) -> in_pop p = in_pop (pc t s) -> popping p = popping (pc t s) ->
  indices_ok q -> (forall u, u <> t -> pc_ok q (stop s) (pc u s)) -> pc_ok q (stop s) p ->
  (forall u v w, u <> t -> pc u s = EmplaceSleep v w false -> queue_count q = cap \/ (exists v', p = PopNotify v') \/ (queue_count q = queue_count (spsc s) /\ forall v', pc t s <> PopNotify v')) ->
  (forall v w, p = EmplaceSleep v w false -> queue_count q = cap) ->
  (forall u m r, u <> t -> pc u s = PopSleep m r false -> queue_count q = 0 \/ p = EmplaceNotify \/ (queue_count q = queue_count (spsc s) /\ pc t s <> EmplaceNotify)) ->
  (forall m r, p = PopSleep m r false -> queue_count q = 0 /\ (m = PopMode.WaitWithStopToken -> stop s = false)) ->
  qinv (go t p (set_spsc q s)).
Proof.
  intros Hi E1 E2 E3 E4 Hq Hu Hp Hsp Hsp' Hsc Hsc'. set (s' := go t p (set_spsc q s)). assert (E : forall u, pc u s' = if decide (t = u) then p else pc u s) by (intros u; exact (pc_go t p (set_spsc q s) u)). split.
  - done.
  - intros u. rewrite E. destruct (decide (t = u)) as [<-|Hne]; [done|]. by apply Hu.
  - eapply excludes_stay; [apply Hi|exact E|done|done].
  - eapply excludes_stay; [apply Hi|exact E|done|done].
  - intros u v w. rewrite E. destruct (decide (t = u)) as [<-|Hne]; [intros Eu; left; by eapply Hsp'|]. intros Eu. change (spsc s') with q.
    destruct (Hsp u v w) as [?|[[v' ->]|[Ec Hn]]]; [done|done|by left|right; exists t, v'; by rewrite E, decide_True|]. rewrite Ec. destruct (qi_sp _ Hi u v w Eu) as [?|(u' & v' & Eu')]; [by left|].
    right. exists u', v'. rewrite E. destruct (decide (t = u')) as [<-|]; [by apply Hn in Eu'|done].
  - intros u m r. rewrite E. destruct (decide (t = u)) as [<-|Hne]; [intros Eu; destruct (Hsc' _ _ Eu); by split; [left|]|]. intros Eu. change (spsc s') with q.
    destruct (qi_sc _ Hi u m r Eu) as [H1 H2]. split; [|done].
    destruct (Hsc u m r) as [?|[->|[Ec Hn]]]; [done|done|by left|right; exists t; by rewrite E, decide_True|]. rewrite Ec. destruct H1 as [?|(u' & Eu')]; [by left|].
    right. exists u'. rewrite E. destruct (decide (t = u')) as [<-|]; [done|done].
Qed.

Lemma has_room_spec q : indices_ok q -> has_room cap q (m_write_index q) = negb (is_full cap q (m_write_index q)) /\ (has_room cap q (m_write_index q) = true <-> queue_count q < cap).
Proof. intros (_ & _ & Hc & _). unfold has_room, is_full. fold (queue_count q). destruct (Z.ltb_spec (queue_count q) cap), (Z.eqb_spec (queue_count q) cap); split; try done; lia. Qed.

Lemma has_data_spec q : indices_ok q -> has_data q (m_read_index q) = true <-> 0 < queue_count q.
Proof.
  intros (Hr & Hw & _ & _). unfold has_data. rewrite negb_true_iff, Z.eqb_neq. unfold queue_count, wsub, u64. split.
  - intros Hne. pose proof (Z.mod_pos_bound (m_write_index q - m_read_index q) W64 ltac:(word_lia)). destruct (decide ((m_write_index q - m_read_index q) mod W64 = 0)) as [E|]; [|lia].
    exfalso. apply Hne. apply Z.mod_divide in E as [d Hd]; [|word_lia]. assert (d = 0) by (unfold W64 in *; nia). lia.
  - intros H E. rewrite E, Z.sub_diag in H. done.
Qed.

(** A step that only moves the program counter. *)
Lemma move_inv t p s : qinv s -> in_emplace p = in_emplace (pc t s) -> pushing p = pushing (pc t s) -> in_pop p = in_pop (pc t s) -> popping p = popping (pc t s) ->
  pc_ok (spsc s) (stop s) p -> pc t s <> EmplaceNotify -> (forall v, pc t s <> PopNotify v) ->
  (forall v w, p = EmplaceSleep v w false -> queue_count (spsc s) = cap) ->
  (forall m r, p = PopSleep m r false -> queue_count (spsc s) = 0 /\ (m = PopMode.WaitWithStopToken -> stop s = false)) -> qinv (go t p s).
Proof.
  intros Hi E1 E2 E3 E4 Hp Hn1 Hn2 Hsp Hsc. assert (E : go t p s = go t p (set_spsc (spsc s) s)) by (by destruct s). rewrite E. apply stay_inv; try done; [apply Hi|intros u _; apply Hi|auto|auto].
Qed.

(** ** Notifications *)

Lemma notify_spec pick wake m :
  (notify_one pick wake m = m /\ forall t p, m !! t = Some p -> wake p = None) \/ exists t p p', m !! t = Some p /\ wake p = Some p' /\ notify_one pick wake m = <[t := p']> m.
Proof.
  unfold notify_one. set (l := omap _ _). assert (Hl : forall t p', (t, p') ∈ l <-> exists p, m !! t = Some p /\ wake p = Some p').
  { intros t p'. unfold l. rewrite list_elem_of_omap. split.
    - intros ([t' p] & Hin & E). apply elem_of_map_to_list in Hin. destruct (wake p) as [p''|] eqn:Ew; [|done]. injection E as <- <-. eauto.
    - intros (p & Hm & Hw). exists (t, p). rewrite elem_of_map_to_list, Hw. done. }
  destruct (l !! (pick mod length l)%nat) as [[t p']|] eqn:E.
  - right. apply list_elem_of_lookup_2 in E as Hin. apply Hl in Hin as (p & Hm & Hw). exists t, p, p'. done.
  - left. split; [done|]. intros t p Hm. destruct (wake p) as [p'|] eqn:Ew; [|done]. assert (Hin : (t, p') ∈ l) by (apply Hl; eauto). apply lookup_ge_None in E.
    assert (length l <> 0)%nat by (destruct l; [by apply not_elem_of_nil in Hin|done]). pose proof (Nat.mod_upper_bound pick (length l)). lia.
Qed.

Definition after_notify (pick : nat) (wake : QPc -> option QPc) (t : Z) (p : QPc) (s : QState) : QState := go t p (set_pcs (notify_one pick wake (pcs s)) s).

(** Who is notified, when only one thread can sleep there. *)
Lemma notify_pcs pick wake inside t p s : wake Out = None -> (forall x y, wake x = Some y -> inside x = true) -> (forall u v, inside (pc u s) = true -> inside (pc v s) = true -> u = v) -> wake (pc t s) = None ->
  forall u, pc u (after_notify pick wake t p s) = if decide (t = u) then p else default (pc u s) (wake (pc u s)).
Proof.
  intros Ho Hw Hone Ht u. unfold after_notify. rewrite pc_go. destruct (decide (t = u)) as [|Hne]; [done|]. unfold pc at 1. cbn [pcs set_pcs].
  destruct (notify_spec pick wake (pcs s)) as [[-> Hno]|(v & x & y & Hm & Hy & ->)].
  - fold (pc u s). unfold pc. destruct (pcs s !! u) as [x|] eqn:E; cbn; [by rewrite (Hno _ _ E)|by rewrite Ho].
  - assert (Hv : pc v s = x) by (unfold pc; by rewrite Hm). destruct (decide (v = u)) as [->|Hvu]; [by rewrite lookup_insert_eq, Hv, Hy|]. rewrite lookup_insert_ne by done. fold (pc u s).
    destruct (wake (pc u s)) as [y'|] eqn:E; [|done]. exfalso. apply Hvu, Hone; [rewrite Hv|]; by eapply Hw.
Qed.

Lemma wake_consumer_some x y : wake_consumer x = Some y -> exists m r, x = PopSleep m r false /\ y = PopSleep m r true.
Proof. destruct x as [| | | | | | | | | | | |m r []| | | | |]; intros E; try done. injection E as <-. eauto. Qed.

Lemma wake_producer_some x y : wake_producer x = Some y -> exists v w, x = EmplaceSleep v w false /\ y = EmplaceSleep v w true.
Proof. destruct x as [| | | |v w []| | | | | | | | | | | | |]; intros E; try done. injection E as <-. eauto. Qed.

Lemma emplace_notify_inv pick t s : qinv s -> pc t s = EmplaceNotify -> qinv (after_notify pick wake_consumer t (EmplaceEnd true) s).
Proof.
  intros Hi Ht. set (s' := after_notify _ _ _ _ _).
  assert (E : forall u, pc u s' = if decide (t = u) then EmplaceEnd true else default (pc u s) (wake_consumer (pc u s))).
  { apply (notify_pcs pick wake_consumer in_pop); [done|intros x y (m & r & -> & _)%wake_consumer_some; done|apply (ex_one _ _ _ _ _ (qi_r _ Hi))|by rewrite Ht]. }
  assert (Ep : forall u, u <> t -> pc u s' = pc u s \/ exists m r, pc u s = PopSleep m r false /\ pc u s' = PopSleep m r true).
  { intros u Hu. rewrite E, decide_False by done. destruct (wake_consumer (pc u s)) as [y|] eqn:Ew; [|by left]. right. apply wake_consumer_some in Ew as (m & r & -> & ->). by exists m, r. }
  assert (Hcls : forall f : QPc -> bool, (forall m r, f (PopSleep m r true) = f (PopSleep m r false)) -> f (EmplaceEnd true) = f EmplaceNotify -> forall u, f (pc u s') = f (pc u s)).
  { intros f Hf1 Hf2 u. destruct (decide (u = t)) as [->|Hu]; [by rewrite E, decide_True, Hf2, Ht|]. destruct (Ep u Hu) as [->|(m & r & -> & ->)]; done. }
  split.
  - apply Hi.
  - intros u. destruct (decide (u = t)) as [->|Hu]; [by rewrite E, decide_True|]. pose proof (qi_pc _ Hi u) as Hu'. destruct (Ep u Hu) as [->|(m & r & Eu & ->)]; [done|]. by rewrite Eu in Hu'.
  - destruct (qi_w _ Hi) as [H1 H2 H3]. split; [intros a b; rewrite !Hcls by done; apply H1|intros Hm a; rewrite Hcls by done; by apply H2|intros Hm a b; rewrite !Hcls by done; by apply H3].
  - destruct (qi_r _ Hi) as [H1 H2 H3]. split; [intros a b; rewrite !Hcls by done; apply H1|intros Hm a; rewrite Hcls by done; by apply H2|intros Hm a b; rewrite !Hcls by done; by apply H3].
  - intros u v w Eu. assert (Hu : u <> t) by (intros ->; rewrite E, decide_True in Eu; done). destruct (Ep u Hu) as [E1|(m & r & _ & E1)]; [|congruence]. rewrite E1 in Eu.
    destruct (qi_sp _ Hi u v w Eu) as [?|(u' & v' & Eu')]; [by left|]. right. exists u', v'. assert (Hu' : u' <> t) by congruence. destruct (Ep u' Hu') as [->|(m & r & E2 & _)]; [done|congruence].
  - intros u m r Eu. exfalso. rewrite E in Eu. destruct (decide (t = u)); [done|]. destruct (wake_consumer (pc u s)) as [y|] eqn:Ew; [apply wake_consumer_some in Ew as (m' & r' & _ & ->); done|]. cbn in Eu. by rewrite Eu in Ew.
Qed.

Lemma pop_notify_inv pick t v s : qinv s -> pc t s = PopNotify v -> qinv (after_notify pick wake_producer t (PopEnd (Some v)) s).
Proof.
  intros Hi Ht. set (s' := after_notify _ _ _ _ _).
  assert (E : forall u, pc u s' = if decide (t = u) then PopEnd (Some v) else default (pc u s) (wake_producer (pc u s))).
  { apply (notify_pcs pick wake_producer in_emplace); [done|intros x y (m & r & -> & _)%wake_producer_some; done|apply (ex_one _ _ _ _ _ (qi_w _ Hi))|by rewrite Ht]. }
  assert (Ep : forall u, u <> t -> pc u s' = pc u s \/ exists v w, pc u s = EmplaceSleep v w false /\ pc u s' = EmplaceSleep v w true).
  { intros u Hu. rewrite E, decide_False by done. destruct (wake_producer (pc u s)) as [y|] eqn:Ew; [|by left]. right. apply wake_producer_some in Ew as (m & r & -> & ->). by exists m, r. }
  assert (Hcls : forall f : QPc -> bool, (forall v w, f (EmplaceSleep v w true) = f (EmplaceSleep v w false)) -> f (PopEnd (Some v)) = f (PopNotify v) -> forall u, f (pc u s') = f (pc u s)).
  { intros f Hf1 Hf2 u. destruct (decide (u = t)) as [->|Hu]; [by rewrite E, decide_True, Hf2, Ht|]. destruct (Ep u Hu) as [->|(m & r & -> & ->)]; done. }
  split.
  - apply Hi.
  - intros u. destruct (decide (u = t)) as [->|Hu]; [by rewrite E, decide_True|]. pose proof (qi_pc _ Hi u) as Hu'. destruct (Ep u Hu) as [->|(m & r & Eu & ->)]; [done|]. by rewrite Eu in Hu'.
  - destruct (qi_w _ Hi) as [H1 H2 H3]. split; [intros a b; rewrite !Hcls by done; apply H1|intros Hm a; rewrite Hcls by done; by apply H2|intros Hm a b; rewrite !Hcls by done; by apply H3].
  - destruct (qi_r _ Hi) as [H1 H2 H3]. split; [intros a b; rewrite !Hcls by done; apply H1|intros Hm a; rewrite Hcls by done; by apply H2|intros Hm a b; rewrite !Hcls by done; by apply H3].
  - intros u v' w Eu. exfalso. rewrite E in Eu. destruct (decide (t = u)); [done|]. destruct (wake_producer (pc u s)) as [y|] eqn:Ew; [apply wake_producer_some in Ew as (m' & r' & _ & ->); done|]. cbn in Eu. by rewrite Eu in Ew.
  - intros u m r Eu. assert (Hu : u <> t) by (intros ->; rewrite E, decide_True in Eu; done). destruct (Ep u Hu) as [E1|(v' & w & _ & E1)]; [|congruence]. rewrite E1 in Eu.
    destruct (qi_sc _ Hi u m r Eu) as [H1 H2]. split; [|done]. destruct H1 as [?|(u' & Eu')]; [by left|]. right. exists u'. assert (Hu' : u' <> t) by congruence. destruct (Ep u' Hu') as [->|(v' & w & E2 & _)]; [done|congruence].
Qed.

(** ** Every step *)

Lemma in_emplace_pushing x : in_emplace x = true -> pushing x = true.
Proof. by destruct x. Qed.
Lemma in_pop_popping x : in_pop x = true -> popping x = true.
Proof. by destruct x. Qed.

(** A step of a thread into or out of a call leaves the others and the queue alone. *)
Lemma switch_inv t p s s' : qinv s -> spsc s' = spsc s -> stop s' = stop s -> (forall u, pc u s' = if decide (t = u) then p else pc u s) ->
  excludes (has_write_mutex kind) (write_mutex s') in_emplace pushing s' -> excludes (has_read_mutex kind) (read_mutex s') in_pop popping s' ->
  pc_ok (spsc s) (stop s) p -> wake_producer p = None -> wake_consumer p = None -> pc t s <> EmplaceNotify -> (forall v, pc t s <> PopNotify v) -> qinv s'.
Proof.
  intros Hi Eq Est E Hw Hr Hp Hn1 Hn2 Hn3 Hn4. split; [by rewrite Eq; apply Hi| |done|done|..]; rewrite ?Eq, ?Est.
  - intros u. rewrite E. destruct (decide (t = u)); [done|apply Hi].
  - intros u v w. rewrite E. destruct (decide (t = u)) as [|Hne]; [by intros ->|]. intros Eu. destruct (qi_sp _ Hi u v w Eu) as [?|(u' & v' & Eu')]; [by left|]. right. exists u', v'. rewrite E, decide_False; [done|]. by intros <-; apply Hn4 in Eu'.
  - intros u m r. rewrite E. destruct (decide (t = u)) as [|Hne]; [by intros ->|]. intros Eu. destruct (qi_sc _ Hi u m r Eu) as [H1 H2]. split; [|done]. destruct H1 as [?|(u' & Eu')]; [by left|]. right. exists u'. rewrite E, decide_False; [done|]. by intros <-.
Qed.

(** Storing into the free slot. *)
Lemma store_inv t v s : qinv s -> pc t s = EmplaceStore v (m_write_index (spsc s)) -> queue_count (spsc s) < cap ->
  qinv (go t (EmplaceCount v (m_write_index (spsc s))) (set_spsc (store cap (m_write_index (spsc s)) v (spsc s)) s)).
Proof.
  intros Hi Ht Hc. destruct (qi_idx _ Hi) as (I1 & I2 & I3 & I4). apply stay_inv; rewrite ?Ht; try done.
  - split; [done|]. split; [done|]. split; [done|]. cbn. by rewrite length_insert.
  - intros u Hu. pose proof (qi_pc _ Hi u) as Hp. assert (Hout : in_emplace (pc u s) = false) by (destruct (in_emplace (pc u s)) eqn:Ee; [|done]; destruct Hu; apply (ex_one _ _ _ _ _ (qi_w _ Hi)); [done|by rewrite Ht]).
    destruct (pc u s) as [| | | | | | | | | | | | | | |r v'| |]; try done. cbn in Hp |- *. destruct Hp as (-> & Hpos & Hd). split; [done|]. split; [done|]. rewrite list_lookup_insert_ne; [done|].
    rewrite write_slot. rewrite <- (Z.add_0_r (m_read_index _)) at 2. apply not_eq_sym, slot_ne; lia.
  - cbn. split; [done|]. split; [done|]. apply list_lookup_insert_eq. rewrite I4. apply slot_lt.
  - intros u v' w _ Eu. right. right. done.
  - intros u m r _ Eu. right. right. done.
Qed.

Lemma count_write_inv t v s : qinv s -> pc t s = EmplaceCount v (m_write_index (spsc s)) -> queue_count (spsc s) < cap -> qinv (go t EmplaceNotify (set_spsc (count_write (spsc s)) s)).
Proof.
  intros Hi Ht Hc. destruct (qi_idx _ Hi) as (I1 & I2 & I3 & I4). pose proof (count_of_write _ Hc) as Ec. apply stay_inv; rewrite ?Ht; try done.
  - split; [done|]. split; [apply wadd_range|]. split; [lia|done].
  - intros u Hu. pose proof (qi_pc _ Hi u) as Hp. assert (Hout : in_emplace (pc u s) = false) by (destruct (in_emplace (pc u s)) eqn:Ee; [|done]; destruct Hu; apply (ex_one _ _ _ _ _ (qi_w _ Hi)); [done|by rewrite Ht]).
    destruct (pc u s); try done; cbn in Hp |- *; rewrite Ec; naive_solver lia.
  - intros u v' w Hu Eu. exfalso. apply Hu, (ex_one _ _ _ _ _ (qi_w _ Hi)); [by rewrite Eu|by rewrite Ht].
  - intros u m r _ Eu. right. by left.
Qed.

Lemma count_read_inv t v s : qinv s -> pc t s = PopCount (m_read_index (spsc s)) v -> 0 < queue_count (spsc s) -> qinv (go t (PopNotify v) (set_spsc (count_read (spsc s)) s)).
Proof.
  intros Hi Ht Hc. destruct (qi_idx _ Hi) as (I1 & I2 & I3 & I4). pose proof (count_of_read _ Hc) as Ec. apply stay_inv; rewrite ?Ht; try done.
  - split; [apply wadd_range|]. split; [done|]. split; [lia|done].
  - intros u Hu. pose proof (qi_pc _ Hi u) as Hp. assert (Hout : in_pop (pc u s) = false) by (destruct (in_pop (pc u s)) eqn:Ee; [|done]; destruct Hu; apply (ex_one _ _ _ _ _ (qi_r _ Hi)); [done|by rewrite Ht]).
    destruct (pc u s); try done; cbn in Hp |- *; rewrite ?Ec; naive_solver lia.
  - intros u v' w _ Eu. right. left. by exists v.
  - intros u m r Hu Eu. exfalso. apply Hu, (ex_one _ _ _ _ _ (qi_r _ Hi)); [by rewrite Eu|by rewrite Ht].
Qed.

(** The test of a producer that waits. *)
Lemma producer_waits t v s : qinv s -> in_emplace (pc t s) = true -> pc t s <> EmplaceNotify ->
  qinv (go t (if has_room cap (spsc s) (m_write_index (spsc s)) then EmplaceStore v (m_write_index (spsc s)) else EmplaceSleep v (m_write_index (spsc s)) false) s).
Proof.
  intros Hi Hin Hn. pose proof (qi_idx _ Hi) as Hq. destruct (has_room_spec _ Hq) as [_ Hroom]. assert (Hc : popping (pc t s) = false /\ in_pop (pc t s) = false) by (by destruct (pc t s)). destruct Hc as [Hc1 Hc2].
  destruct (has_room cap (spsc s) (m_write_index (spsc s))) eqn:E; apply move_inv; rewrite ?Hin, ?(in_emplace_pushing _ Hin), ?Hc1, ?Hc2; try done.
  - split; [done|]. by apply Hroom.
  - intros v' E'. by rewrite E' in Hin.
  - intros v' E'. by rewrite E' in Hin.
  - intros v0 w0 _. destruct Hq as (_ & _ & ? & _). destruct (decide (queue_count (spsc s) = cap)); [done|]. assert (false = true) by (apply Hroom; lia). done.
Qed.

Lemma emplace_step_inv pick t r s s' : qinv s -> emplace_step cap kind pick t s = Some (r, s') -> qinv s' /\ contents cap (spsc s') = contents cap (spsc s) ++ pushed_by (pc t s).
Proof.
  intros Hi E. pose proof (qi_idx _ Hi) as Hq. destruct (has_room_spec _ Hq) as [Hfull Hroom]. unfold emplace_step in E. pose proof (qi_pc _ Hi t) as Hp. destruct (pc t s) as [|m v|m v|m v w|v w n|v w|v w| |ok| | | | | | | | |] eqn:Ht; try done; cbn in Hp.
  - rewrite app_nil_r. assert (s' = go t (EmplaceLoad m v) (if has_write_mutex kind then set_write_mutex (Some t) s else s) /\ (has_write_mutex kind = true -> write_mutex s = None)) as [-> Hm].
    { destruct (has_write_mutex kind); [destruct (write_mutex s); [done|]|]; by injection E as _ <-. }
    assert (Ep : forall u, pc u (go t (EmplaceLoad m v) (if has_write_mutex kind then set_write_mutex (Some t) s else s)) = if decide (t = u) then EmplaceLoad m v else pc u s) by (intros u; rewrite pc_go; by destruct (has_write_mutex kind)).
    split; [|by destruct (has_write_mutex kind)]. eapply (switch_inv t (EmplaceLoad m v) s); try done; [by destruct (has_write_mutex kind)|by destruct (has_write_mutex kind)| |..|by rewrite Ht|by rewrite Ht].
    + pose proof (excludes_enter _ _ _ _ t (EmplaceLoad m v) s _ (qi_w _ Hi) Ep) as H. rewrite Ht in H. specialize (H eq_refl eq_refl eq_refl in_emplace_pushing Hm). by destruct (has_write_mutex kind).
    + pose proof (excludes_stay _ _ _ _ t (EmplaceLoad m v) s _ (qi_r _ Hi) Ep) as H. rewrite Ht in H. specialize (H eq_refl eq_refl). by destruct (has_write_mutex kind).
  - injection E as _ <-. rewrite app_nil_r. split; [|done]. apply move_inv; rewrite ?Ht; try done.
  - subst w. rewrite app_nil_r. destruct m; injection E as _ <-; (split; [|done]); [|by eapply producer_waits; rewrite ?Ht].
    destruct (is_full cap (spsc s) (m_write_index (spsc s))) eqn:Ef; apply move_inv; rewrite ?Ht; try done. split; [done|]. apply Hroom. by rewrite Hfull.
  - subst w. injection E as _ <-. rewrite app_nil_r. split; [|done]. by eapply producer_waits; rewrite ?Ht.
  - destruct Hp as [-> Hc]. injection E as _ <-. rewrite app_nil_r. split; [by apply store_inv|]. by apply contents_store.
  - destruct Hp as (-> & Hc & Hd). injection E as _ <-. split; [by eapply count_write_inv|]. by apply contents_write.
  - injection E as _ <-. rewrite app_nil_r. split; [by apply emplace_notify_inv|done].
  - injection E as _ <-. rewrite app_nil_r. assert (Ep : forall u, pc u (go t Out (if has_write_mutex kind then set_write_mutex None s else s)) = if decide (t = u) then Out else pc u s) by (intros u; rewrite pc_go; by destruct (has_write_mutex kind)).
    split; [|by destruct (has_write_mutex kind)]. eapply (switch_inv t Out s); try done; [by destruct (has_write_mutex kind)|by destruct (has_write_mutex kind)| |..|by rewrite Ht|by rewrite Ht].
    + eapply excludes_leave; [apply (qi_w _ Hi)|exact Ep|by rewrite Ht|done|done].
    + pose proof (excludes_stay _ _ _ _ t Out s _ (qi_r _ Hi) Ep) as H. rewrite Ht in H. specialize (H eq_refl eq_refl). by destruct (has_write_mutex kind).
Qed.

(** The tests of a consumer that waits. *)
Lemma consumer_waits t s : qinv s -> in_pop (pc t s) = true -> (forall v, pc t s <> PopNotify v) ->
  qinv (go t (if has_data (spsc s) (m_read_index (spsc s)) then PopMove (m_read_index (spsc s)) else PopSleep PopMode.Wait (m_read_index (spsc s)) false) s)
  /\ qinv (go t (if stop s || has_data (spsc s) (m_read_index (spsc s)) then PopStopped (m_read_index (spsc s)) else PopSleep PopMode.WaitWithStopToken (m_read_index (spsc s)) false) s).
Proof.
  intros Hi Hin Hn. pose proof (qi_idx _ Hi) as Hq. pose proof (has_data_spec _ Hq) as Hdata. pose proof (count_range (spsc s)) as Hr. assert (Hc : pushing (pc t s) = false /\ in_emplace (pc t s) = false) by (by destruct (pc t s)). destruct Hc as [Hc1 Hc2].
  assert (Hne : pc t s <> EmplaceNotify) by (intros E'; by rewrite E' in Hin).
  assert (H0 : has_data (spsc s) (m_read_index (spsc s)) = false -> queue_count (spsc s) = 0) by (intros E'; destruct (decide (0 < queue_count (spsc s))) as [H|]; [apply Hdata in H; congruence|lia]).
  split; [destruct (has_data (spsc s) (m_read_index (spsc s))) eqn:E|destruct (stop s) eqn:Es, (has_data (spsc s) (m_read_index (spsc s))) eqn:E; cbn [orb]]; apply move_inv; rewrite ?Hin, ?(in_pop_popping _ Hin), ?Hc1, ?Hc2; try done; rewrite ?Es.
  all: try (split; [done|]); try done; try (intros; by apply Hdata); try (by apply Hdata).
  - intros m r [= <- _]. split; [by apply H0|done].
  - intros m r [= <- _]. split; [by apply H0|done].
Qed.

Lemma pop_step_inv pick t r s s' : qinv s -> pop_step cap kind pick t s = Some (r, s') -> qinv s' /\ contents cap (spsc s) = popped_by (pc t s) ++ contents cap (spsc s').
Proof.
  intros Hi E. pose proof (qi_idx _ Hi) as Hq. pose proof (has_data_spec _ Hq) as Hdata. unfold pop_step in E. pose proof (qi_pc _ Hi t) as Hp. destruct (pc t s) as [| | | | | | | | |m|m|m i|m i n|i|i|i v|v|out] eqn:Ht; try done; cbn in Hp.
  - assert (s' = go t (PopLoad m) (if has_read_mutex kind then set_read_mutex (Some t) s else s) /\ (has_read_mutex kind = true -> read_mutex s = None)) as [-> Hm].
    { destruct (has_read_mutex kind); [destruct (read_mutex s); [done|]|]; by injection E as _ <-. }
    assert (Ep : forall u, pc u (go t (PopLoad m) (if has_read_mutex kind then set_read_mutex (Some t) s else s)) = if decide (t = u) then PopLoad m else pc u s) by (intros u; rewrite pc_go; by destruct (has_read_mutex kind)).
    split; [|by destruct (has_read_mutex kind)]. eapply (switch_inv t (PopLoad m) s); try done; [by destruct (has_read_mutex kind)|by destruct (has_read_mutex kind)| |..|by rewrite Ht|by rewrite Ht].
    + pose proof (excludes_stay _ _ _ _ t (PopLoad m) s _ (qi_w _ Hi) Ep) as H. rewrite Ht in H. specialize (H eq_refl eq_refl). by destruct (has_read_mutex kind).
    + pose proof (excludes_enter _ _ _ _ t (PopLoad m) s _ (qi_r _ Hi) Ep) as H. rewrite Ht in H. specialize (H eq_refl eq_refl eq_refl in_pop_popping Hm). by destruct (has_read_mutex kind).
  - injection E as _ <-. split; [|done]. apply move_inv; rewrite ?Ht; try done.
  - subst i. destruct m; injection E as _ <-; (split; [|done]); [|by apply consumer_waits; rewrite ?Ht..].
    destruct (has_data (spsc s) (m_read_index (spsc s))) eqn:Ef; apply move_inv; rewrite ?Ht; try done. split; [done|]. by apply Hdata.
  - destruct Hp as [-> Hm]. destruct m; [done|..]; injection E as _ <-; (split; [|done]); by apply consumer_waits; rewrite ?Ht.
  - destruct Hp as [-> Hs]. injection E as _ <-. split; [|done]. destruct (stop s) eqn:Es; apply move_inv; rewrite ?Ht; try done. split; [done|]. by apply Hs.
  - destruct Hp as [-> Hc]. injection E as _ <-. split; [|done]. apply move_inv; rewrite ?Ht; try done. split; [done|]. split; [done|].
    destruct (lookup_lt_is_Some_2 (m_data (spsc s)) (slot cap (m_read_index (spsc s)))) as [v ->]; [|done]. destruct Hq as (_ & _ & _ & ->). apply slot_lt.
  - destruct Hp as (-> & Hc & Hd). injection E as _ <-. split; [by eapply count_read_inv|]. by apply contents_read.
  - injection E as _ <-. split; [by apply pop_notify_inv|done].
  - injection E as _ <-. assert (Ep : forall u, pc u (go t Out (if has_read_mutex kind then set_read_mutex None s else s)) = if decide (t = u) then Out else pc u s) by (intros u; rewrite pc_go; by destruct (has_read_mutex kind)).
    split; [|by destruct (has_read_mutex kind)]. eapply (switch_inv t Out s); try done; [by destruct (has_read_mutex kind)|by destruct (has_read_mutex kind)| |..|by rewrite Ht|by rewrite Ht].
    + pose proof (excludes_stay _ _ _ _ t Out s _ (qi_w _ Hi) Ep) as H. rewrite Ht in H. specialize (H eq_refl eq_refl). by destruct (has_read_mutex kind).
    + eapply excludes_leave; [apply (qi_r _ Hi)|exact Ep|by rewrite Ht|done|done].
Qed.

Lemma pc_stop u s : pc u (request_stop s) = default (pc u s) (wake_consumer (pc u s)).
Proof. unfold pc, request_stop, notify_sleepers. cbn. rewrite lookup_fmap. by destruct (pcs s !! u). Qed.

Lemma stop_inv s : qinv s -> qinv (request_stop s).
Proof.
  intros Hi. set (s' := request_stop s). pose proof (fun u => pc_stop u s) as E. fold s' in E.
  assert (Ep : forall u, pc u s' = pc u s \/ exists m r, pc u s = PopSleep m r false /\ pc u s' = PopSleep m r true).
  { intros u. rewrite E. destruct (wake_consumer (pc u s)) as [y|] eqn:Ew; [|by left]. right. apply wake_consumer_some in Ew as (m & r & -> & ->). by exists m, r. }
  assert (Hcls : forall f : QPc -> bool, (forall m r, f (PopSleep m r true) = f (PopSleep m r false)) -> forall u, f (pc u s') = f (pc u s)) by (intros f Hf u; destruct (Ep u) as [->|(m & r & -> & ->)]; done).
  split.
  - apply Hi.
  - intros u. pose proof (qi_pc _ Hi u) as Hu. change (spsc s') with (spsc s). change (stop s') with true. destruct (Ep u) as [->|(m & r & Eu & ->)]; [|by rewrite Eu in Hu]. destruct (pc u s); try done. cbn in Hu |- *. naive_solver.
  - destruct (qi_w _ Hi) as [H1 H2 H3]. split; [intros a b; rewrite !Hcls by done; apply H1|intros Hm a; rewrite Hcls by done; by apply H2|intros Hm a b; rewrite !Hcls by done; by apply H3].
  - destruct (qi_r _ Hi) as [H1 H2 H3]. split; [intros a b; rewrite !Hcls by done; apply H1|intros Hm a; rewrite Hcls by done; by apply H2|intros Hm a b; rewrite !Hcls by done; by apply H3].
  - intros u v w Eu. destruct (Ep u) as [E1|(m & r & _ & E1)]; [|congruence]. rewrite E1 in Eu. destruct (qi_sp _ Hi u v w Eu) as [?|(u' & v' & Eu')]; [by left|]. right. exists u', v'. destruct (Ep u') as [->|(m & r & E2 & _)]; [done|congruence].
  - intros u m r Eu. exfalso. rewrite E in Eu. destruct (wake_consumer (pc u s)) as [y|] eqn:Ew; [apply wake_consumer_some in Ew as (m' & r' & _ & ->); done|]. cbn in Eu. by rewrite Eu in Ew.
Qed.

Lemma queue_reach_inv s a b : queue_reach s a b -> qinv s /\ a = b ++ contents cap (spsc s).
Proof.
  induction 1 as [|t m v s a b _ [Hi IH] Ht Hal|t m s a b _ [Hi IH] Ht Hal|pick t r s s' a b _ [Hi IH] E|pick t r s s' a b _ [Hi IH] E|s a b _ [Hi IH]].
  - destruct cap_pos as [Hc _]. split; [|unfold contents, queue_count, wsub; done]. split.
    + split; [done|]. split; [done|]. split; [change (0 <= cap); lia|cbn; apply repeat_length].
    + intros t. done.
    + by split.
    + by split.
    + intros t v w E. done.
    + intros t m r E. done.
  - split; [|done]. eapply (switch_inv t (EmplaceStart m v) s); try done; [apply pc_go| |..|by rewrite Ht|by rewrite Ht].
    + eapply excludes_call; [apply Hi|apply pc_go|done|done].
    + eapply excludes_stay; [apply Hi|apply pc_go|by rewrite Ht|by rewrite Ht].
  - split; [|done]. eapply (switch_inv t (PopStart m) s); try done; [apply pc_go| |..|by rewrite Ht|by rewrite Ht].
    + eapply excludes_stay; [apply Hi|apply pc_go|by rewrite Ht|by rewrite Ht].
    + eapply excludes_call; [apply Hi|apply pc_go|done|done].
  - destruct (emplace_step_inv _ _ _ _ _ Hi E) as [Hi' ->]. split; [done|]. by rewrite IH, app_assoc.
  - destruct (pop_step_inv _ _ _ _ _ Hi E) as [Hi' Ec]. split; [done|]. by rewrite IH, Ec, app_assoc.
  - split; [by apply stop_inv|done].
Qed.

(** ** Properties *)

(** C18: the ring is a bounded first-in first-out queue: in every history of any
    threads, over any wrap-around of the indices, what was pushed so far is what was
    popped so far followed by what is in the queue, in this order, and that is never
    more than the capacity. *)
Theorem queue_is_fifo s a b : queue_reach s a b -> a = b ++ contents cap (spsc s) /\ (length (contents cap (spsc s)) <= Z.to_nat cap)%nat.
Proof. intros Hr. destruct (queue_reach_inv _ _ _ Hr) as [Hi ->]. split; [done|]. destruct (qi_idx _ Hi) as (_ & _ & ? & _). rewrite contents_length. lia. Qed.

(** what a call sees and does: a [TryEmplace] fails exactly when the queue is full
    at its test and a [TryPop] when it is empty; the step that counts the write index
    up appends the value of its call to a queue with room, the one that counts the
    read index up removes the oldest value, which its call returns; no other step
    changes what is in the queue. *)
Theorem queue_steps_exact s a b t pick : queue_reach s a b ->
  (forall v w, pc t s = EmplaceCheck PushMode.Try v w -> exists p, emplace_step cap kind pick t s = Some (None, go t p s) /\ (p = EmplaceEnd false <-> length (contents cap (spsc s)) = Z.to_nat cap) /\ (p <> EmplaceEnd false -> p = EmplaceStore v w))
  /\ (forall i, pc t s = PopCheck PopMode.Try i -> exists p, pop_step cap kind pick t s = Some (None, go t p s) /\ (p = PopEnd None <-> contents cap (spsc s) = []) /\ (p <> PopEnd None -> p = PopMove i))
  /\ (forall v w, pc t s = EmplaceCount v w -> exists s', emplace_step cap kind pick t s = Some (None, s') /\ contents cap (spsc s') = contents cap (spsc s) ++ [v] /\ (length (contents cap (spsc s)) < Z.to_nat cap)%nat)
  /\ (forall i v, pc t s = PopCount i v -> exists s', pop_step cap kind pick t s = Some (None, s') /\ contents cap (spsc s) = v :: contents cap (spsc s') /\ pc t s' = PopNotify v)
  /\ (forall r s', emplace_step cap kind pick t s = Some (r, s') -> pushed_by (pc t s) = [] -> contents cap (spsc s') = contents cap (spsc s))
  /\ (forall r s', pop_step cap kind pick t s = Some (r, s') -> popped_by (pc t s) = [] -> contents cap (spsc s') = contents cap (spsc s)).
Proof.
  intros Hr. destruct (queue_reach_inv _ _ _ Hr) as [Hi _]. pose proof (qi_idx _ Hi) as Hq. pose proof (qi_pc _ Hi t) as Hp. pose proof (count_range (spsc s)) as Hrange. destruct cap_pos as [Hc _].
  destruct (has_room_spec _ Hq) as [Hfull Hroom]. pose proof (has_data_spec _ Hq) as Hdata. pose proof Hq as (_ & _ & Hle & _).
  assert (Hnil : contents cap (spsc s) = [] <-> queue_count (spsc s) = 0) by (rewrite <- length_zero_iff_nil, contents_length; lia).
  split; [|split; [|split; [|split; [|split]]]].
  - intros v w E. rewrite E in Hp. cbn in Hp. subst w. unfold emplace_step. rewrite E. eexists. split; [done|]. rewrite contents_length. destruct (is_full cap (spsc s) (m_write_index (spsc s))) eqn:Ef; rewrite Hfull in Hroom; cbn in Hroom.
    + split; [|done]. split; [intros _|done]. destruct (decide (queue_count (spsc s) = cap)) as [->|]; [done|]. assert (false = true) by (apply Hroom; lia). done.
    + split; [|done]. split; [done|]. intros E'. assert (queue_count (spsc s) < cap) by (by apply Hroom). lia.
  - intros i E. rewrite E in Hp. cbn in Hp. subst i. unfold pop_step. rewrite E. eexists. split; [done|]. rewrite Hnil. destruct (has_data (spsc s) (m_read_index (spsc s))) eqn:Ef.
    + split; [|done]. split; [done|]. assert (0 < queue_count (spsc s)) by (by apply Hdata). lia.
    + split; [|done]. split; [intros _|done]. destruct (decide (0 < queue_count (spsc s))) as [H|]; [apply Hdata in H; congruence|lia].
  - intros v w E. rewrite E in Hp. cbn in Hp. destruct Hp as (-> & Hlt & Hd). unfold emplace_step. rewrite E. eexists. split; [done|]. split; [by apply contents_write|]. rewrite contents_length. lia.
  - intros i v E. rewrite E in Hp. cbn in Hp. destruct Hp as (-> & Hlt & Hd). unfold pop_step. rewrite E. eexists. split; [done|]. split; [by apply contents_read|]. by rewrite pc_go, decide_True.
  - intros r s' E Ep. destruct (emplace_step_inv _ _ _ _ _ Hi E) as [_ ->]. by rewrite Ep, app_nil_r.
  - intros r s' E Ep. destruct (pop_step_inv _ _ _ _ _ Hi E) as [_ ->]. by rewrite Ep.
Qed.

(** no slot is written and read at the same time: when one thread is about to
    store a value and another about to take one, they are at different slots; and no
    two threads are about to store, or about to take. *)
Theorem queue_race_free s a b t u : queue_reach s a b ->
  (forall v w i, pc t s = EmplaceStore v w -> pc u s = PopMove i -> slot cap w <> slot cap i)
  /\ (forall v w v' w', pc t s = EmplaceStore v w -> pc u s = EmplaceStore v' w' -> t = u)
  /\ (forall i j, pc t s = PopMove i -> pc u s = PopMove j -> t = u).
Proof.
  intros Hr. destruct (queue_reach_inv _ _ _ Hr) as [Hi _]. split; [|split].
  - intros v w i Ht Hu. pose proof (qi_pc _ Hi t) as Hp. rewrite Ht in Hp. cbn in Hp. destruct Hp as [-> Hc]. pose proof (qi_pc _ Hi u) as Hp. rewrite Hu in Hp. cbn in Hp. destruct Hp as [-> Hpos].
    rewrite write_slot. rewrite <- (Z.add_0_r (m_read_index _)) at 2. apply not_eq_sym, slot_ne; lia.
  - intros v w v' w' Ht Hu. apply (ex_one _ _ _ _ _ (qi_w _ Hi)); [by rewrite Ht|by rewrite Hu].
  - intros i j Ht Hu. apply (ex_one _ _ _ _ _ (qi_r _ Hi)); [by rewrite Ht|by rewrite Hu].
Qed.

(** The notification a sleeping consumer waits for beside a value. *)
Lemma notifier_awaits s t m i : qinv s -> pc t s = PopSleep m i false -> contents cap (spsc s) <> [] ->
  exists u, pc u s = EmplaceNotify /\ u <> t /\
    forall pick, exists s', emplace_step cap kind pick u s = Some (None, s') /\ pc t s' = PopSleep m i true /\ spsc s' = spsc s.
Proof.
  intros Hi Ht Hne. pose proof (count_range (spsc s)) as Hrange.
  destruct (qi_sc _ Hi t m i Ht) as [[H0|(u & Hu)] _]; [destruct Hne; apply length_zero_iff_nil; rewrite contents_length; lia|].
  exists u. split; [done|]. split; [congruence|]. intros pick.
  unfold emplace_step. rewrite Hu. eexists. split; [done|]. fold (after_notify pick wake_consumer u (EmplaceEnd true) s). split; [|done].
  rewrite (notify_pcs pick wake_consumer in_pop); [|done|intros x y (m' & r & -> & _)%wake_consumer_some; done|apply (ex_one _ _ _ _ _ (qi_r _ Hi))|by rewrite Hu].
  rewrite decide_False by congruence. by rewrite Ht.
Qed.

(** C19: no wake-up is lost: a consumer that sleeps without having been notified while
    the queue is not empty will be notified by the next step of a producer that has
    counted its value, and a producer that sleeps while there is room by the next step
    of a consumer; a consumer that waits with a stop token never sleeps on after a
    stop. *)
Theorem queue_no_lost_wakeup s a b t : queue_reach s a b ->
  (forall m i, pc t s = PopSleep m i false -> contents cap (spsc s) <> [] ->
     exists u, pc u s = EmplaceNotify /\ forall pick, exists s', emplace_step cap kind pick u s = Some (None, s') /\ pc t s' = PopSleep m i true)
  /\ (forall v w, pc t s = EmplaceSleep v w false -> (length (contents cap (spsc s)) < Z.to_nat cap)%nat ->
     exists u, (exists v', pc u s = PopNotify v') /\ forall pick, exists s', pop_step cap kind pick u s = Some (None, s') /\ pc t s' = EmplaceSleep v w true)
  /\ (forall i, pc t s = PopSleep PopMode.WaitWithStopToken i false -> stop s = false).
Proof.
  intros Hr. destruct (queue_reach_inv _ _ _ Hr) as [Hi _]. pose proof (count_range (spsc s)) as Hrange. split; [|split].
  - intros m i Ht Hne. destruct (notifier_awaits s t m i Hi Ht Hne) as (u & Hu & _ & Hn). exists u. split; [done|]. intros pick.
    destruct (Hn pick) as (s' & E & Et & _). eauto.
  - intros v w Ht Hlt. rewrite contents_length in Hlt. destruct cap_pos as [Hc _]. destruct (qi_sp _ Hi t v w Ht) as [H0|(u & v' & Hu)]; [lia|]. exists u. split; [by exists v'|]. intros pick.
    unfold pop_step. rewrite Hu. eexists. split; [done|]. fold (after_notify pick wake_producer u (PopEnd (Some v')) s).
    rewrite (notify_pcs pick wake_producer in_emplace); [|done|intros x y (m' & r & -> & _)%wake_producer_some; done|apply (ex_one _ _ _ _ _ (qi_w _ Hi))|by rewrite Hu]. rewrite decide_False by congruence. by rewrite Ht.
  - intros i Ht. by apply (qi_sc _ Hi t PopMode.WaitWithStopToken i Ht).
Qed.

(** How many steps a pop that finds a value still has to wait for: its own, and
    the notification if it sleeps without having been notified. *)
Definition pop_rank (p : QPc) : nat :=
  match p with
  | PopLoad _ | PopSleep _ _ false => 6
  | PopCheck _ _ | PopSleep _ _ true => 5
  | PopStopped _ => 4 | PopMove _ => 3 | PopCount _ _ => 2 | PopNotify _ => 1
  | _ => 0
  end.

(** Asleep, and only a wake-up without reason would end it. *)
Definition unnotified (p : QPc) : bool := match p with PopSleep _ _ false => true | _ => false end.

(** The return, or a step that brings the pop of [t] closer to it. *)
Definition closer (t : Z) (s : QState) (r : option QRes) (s' : QState) : Prop :=
  (exists out, r = Some (Popped out)) \/ (pop_rank (pc t s') < pop_rank (pc t s))%nat.

Definition served (s : QState) (p : QPc) : Prop := match p with PopNotify _ | PopEnd _ => True | _ => contents cap (spsc s) <> [] end.

Lemma emplace_pc pick u t r s s' : emplace_step cap kind pick u s = Some (r, s') -> u <> t -> qinv s -> pc t s' = pc t s \/ exists m i, pc t s = PopSleep m i false /\ pc t s' = PopSleep m i true.
Proof.
  intros E Hu Hi. unfold emplace_step in E. destruct (pc u s) as [|m v|m v|m v w|v w n|v w|v w| |ok| | | | | | | | |] eqn:Eu; try done.
  7: { injection E as _ <-. fold (after_notify pick wake_consumer u (EmplaceEnd true) s). rewrite (notify_pcs pick wake_consumer in_pop); [|done|intros x y (m' & r' & -> & _)%wake_consumer_some; done|apply (ex_one _ _ _ _ _ (qi_r _ Hi))|by rewrite Eu].
       rewrite decide_False by done. destruct (wake_consumer (pc t s)) as [y|] eqn:Ew; [|by left]. right. apply wake_consumer_some in Ew as (m & i & -> & ->). eauto. }
  all: left; try (destruct m; injection E as _ <-; rewrite pc_go, decide_False by done; done); try (injection E as _ <-; rewrite pc_go, decide_False by done; done).
  - destruct (has_write_mutex kind); [destruct (write_mutex s); [done|]|]; injection E as _ <-; by rewrite pc_go, decide_False.
  - injection E as _ <-. rewrite pc_go, decide_False by done. by destruct (has_write_mutex kind).
Qed.

Lemma other_pop_blocked pick u t s : qinv s -> in_pop (pc t s) = true -> u <> t -> pop_step cap kind pick u s = None.
Proof.
  intros Hi Ht Hu. unfold pop_step. assert (Hno : in_pop (pc u s) = false) by (destruct (in_pop (pc u s)) eqn:E; [|done]; destruct Hu; by apply (ex_one _ _ _ _ _ (qi_r _ Hi))).
  destruct (pc u s) as [| | | | | | | | |m| | | | | | | |] eqn:Eu; try done. destruct (has_read_mutex kind) eqn:Em; [by rewrite (ex_mutex _ _ _ _ _ (qi_r _ Hi) Em t Ht)|].
  exfalso. apply Hu, (ex_rule _ _ _ _ _ (qi_r _ Hi) Em); [by rewrite Eu|by apply in_pop_popping].
Qed.

(** The next step of a pop that is not asleep for want of a notification. *)
Lemma pop_goes_on s t pick : qinv s -> in_pop (pc t s) = true -> served s (pc t s) -> unnotified (pc t s) = false ->
  exists r s', pop_step cap kind pick t s = Some (r, s') /\
    ((exists out, r = Some (Popped out)) \/ ((pop_rank (pc t s') < pop_rank (pc t s))%nat /\ in_pop (pc t s') = true /\ served s' (pc t s'))).
Proof.
  intros Hi Hin Hsv Hun. pose proof (qi_pc _ Hi t) as Hp. pose proof (qi_idx _ Hi) as Hq. pose proof (has_data_spec _ Hq) as Hdata.
  assert (Hd : contents cap (spsc s) <> [] -> has_data (spsc s) (m_read_index (spsc s)) = true).
  { intros Hne. apply Hdata. destruct (decide (0 < queue_count (spsc s))); [done|]. destruct Hne. apply length_zero_iff_nil. rewrite contents_length. pose proof (count_range (spsc s)). lia. }
  unfold pop_step. destruct (pc t s) as [| | | | | | | | | |m|m i|m i n|i|i|i v|v|out] eqn:Et; try done; cbn in Hp, Hsv, Hun.
  - eexists _, _. split; [done|]. right. rewrite pc_go, decide_True by done. cbn. split; [lia|done].
  - subst i. specialize (Hd Hsv). rewrite Hd, orb_true_r. destruct m; eexists _, _; (split; [done|]); right; rewrite pc_go, decide_True by done; cbn; split; [lia|done|lia|done|lia|done].
  - destruct n; [|done]. destruct Hp as [-> Hm]. specialize (Hd Hsv). rewrite Hd, orb_true_r. destruct m; [done|..]; eexists _, _; (split; [done|]); right; rewrite pc_go, decide_True by done; cbn; split; [lia|done|lia|done].
  - eexists _, _. split; [done|]. right. rewrite pc_go, decide_True by done. destruct (stop s); cbn; (split; [lia|done]).
  - eexists _, _. split; [done|]. right. rewrite pc_go, decide_True by done. cbn. split; [lia|done].
  - eexists _, _. split; [done|]. right. rewrite pc_go, decide_True by done. cbn. split; [lia|done].
  - eexists _, _. split; [done|]. right. rewrite pc_go, decide_True by done. cbn. split; [lia|done].
  - eexists _, _. split; [done|]. left. eauto.
Qed.

(** C20: a pop on a queue that is not empty returns, without any wake-up that
    has no reason.  In every reachable state, unless it sleeps un-notified, its
    thread can take its next step, which returns or brings it closer to its
    return; and if it sleeps un-notified, there is a push whose next step,
    always possible, notifies it, and which no step of a third thread takes
    away.  It is at most six such steps from its return, and no step of another
    thread and no stop sets it back or empties the queue under it. *)
Theorem pop_returns s a b t : queue_reach s a b -> in_pop (pc t s) = true -> served s (pc t s) ->
  (pop_rank (pc t s) <= 6)%nat
  /\ (unnotified (pc t s) = false -> forall pick, exists r s', pop_step cap kind pick t s = Some (r, s') /\ closer t s r s')
  /\ (unnotified (pc t s) = true -> exists u, u <> t /\ pc u s = EmplaceNotify
        /\ (forall pick, exists s', emplace_step cap kind pick u s = Some (None, s') /\ closer t s None s' /\ unnotified (pc t s') = false)
        /\ (forall pick v r s', v <> t -> v <> u -> emplace_step cap kind pick v s = Some (r, s') \/ pop_step cap kind pick v s = Some (r, s') \/ s' = request_stop s ->
              pc u s' = EmplaceNotify))
  /\ (forall pick u r s', u <> t -> emplace_step cap kind pick u s = Some (r, s') \/ pop_step cap kind pick u s = Some (r, s') \/ s' = request_stop s ->
        (pop_rank (pc t s') <= pop_rank (pc t s))%nat /\ in_pop (pc t s') = true /\ served s' (pc t s')).
Proof.
  intros Hr Hin Hsv. destruct (queue_reach_inv _ _ _ Hr) as [Hi _].
  split; [destruct (pc t s) as [| | | | | | | | | | | |m i []| | | | |]; cbn; lia|]. split; [|split].
  - intros Hun pick. destruct (pop_goes_on s t pick Hi Hin Hsv Hun) as (r & s' & E & Hc). exists r, s'. split; [done|].
    destruct Hc as [Hc|[Hc _]]; [by left|by right].
  - intros Hun. destruct (pc t s) as [| | | | | | | | | | | |m i []| | | | |] eqn:Et; try done.
    destruct (notifier_awaits s t m i Hi Et Hsv) as (u & Hu & Hut & Hn). exists u. split_and!; [done|done|..].
    + intros pick. destruct (Hn pick) as (s' & E & Et' & _). exists s'. split; [done|]. unfold closer. rewrite Et', Et. cbn. split; [right; lia|done].
    + intros pick v r s' Hv Hvu [E|[E| ->]].
      * destruct (emplace_pc _ _ u _ _ _ E Hvu Hi) as [->|(m' & i' & E1 & _)]; [done|congruence].
      * rewrite (other_pop_blocked _ _ t) in E; [done|done|by rewrite Et|done].
      * rewrite pc_stop, Hu. done.
  - intros pick u r s' Hu [E|[E| ->]].
    + destruct (emplace_step_inv _ _ _ _ _ Hi E) as [_ Ec]. assert (Hkeep : contents cap (spsc s) <> [] -> contents cap (spsc s') <> []) by (rewrite Ec; intros Hne [? _]%app_eq_nil; done).
      destruct (emplace_pc _ _ t _ _ _ E Hu Hi) as [->|(m & i & E1 & ->)]; [|rewrite E1 in *; cbn in *; auto with lia]. split; [done|]. split; [done|]. destruct (pc t s); cbn in *; auto.
    + by rewrite (other_pop_blocked _ _ t) in E.
    + rewrite pc_stop. destruct (wake_consumer (pc t s)) as [y|] eqn:Ew; cbn [default]; [apply wake_consumer_some in Ew as (m & i & E1 & ->); rewrite E1 in *; cbn in *; auto with lia|]. split; [done|]. split; [done|]. by destruct (pc t s).
Qed.
End Spec.

(** ** Histories *)

Lemma four_slots : exists k, 0 <= k < 64 /\ 4 = 2 ^ k.
Proof. by exists 2. Qed.

(** Thread 1 pushes 7 while thread 2 pops. *)
Fixpoint run_steps (l : list (Z * bool)) (s : QState) : QState :=
  match l with
  | [] => s
  | (t, push) :: l => match (if push : bool then emplace_step 4 MPMC 0 t s else pop_step 4 MPMC 0 t s) with Some (_, s') => run_steps l s' | None => s end
  end.

Fixpoint logs (l : list (Z * bool)) (s : QState) : list Z * list Z :=
  match l with
  | [] => ([], [])
  | (t, push) :: l => match (if push : bool then emplace_step 4 MPMC 0 t s else pop_step 4 MPMC 0 t s) with
                      | Some (_, s') => let '(a, b) := logs l s' in if push then (pushed_by (pc t s) ++ a, b) else (a, popped_by (pc t s) ++ b)
                      | None => ([], []) end
  end.

Lemma run_steps_reach l : forall s a b, queue_reach 4 MPMC s a b -> queue_reach 4 MPMC (run_steps l s) (a ++ (logs l s).1) (b ++ (logs l s).2).
Proof.
  induction l as [|[t push] l IH]; intros s a b Hr; cbn; [by rewrite !app_nil_r|]. destruct push.
  - destruct (emplace_step 4 MPMC 0 t s) as [[r s']|] eqn:E; [|cbn; by rewrite !app_nil_r]. pose proof (IH _ _ _ (qr_emplace_step _ _ _ _ _ _ _ _ _ Hr E)) as H. destruct (logs l s') as [a' b']. cbn in *. by rewrite app_assoc.
  - destruct (pop_step 4 MPMC 0 t s) as [[r s']|] eqn:E; [|cbn; by rewrite !app_nil_r]. pose proof (IH _ _ _ (qr_pop_step _ _ _ _ _ _ _ _ _ Hr E)) as H. destruct (logs l s') as [a' b']. cbn in *. by rewrite (app_assoc b).
Qed.

Definition both_called : QState := go 2 (PopStart PopMode.Wait) (go 1 (EmplaceStart PushMode.Wait 7) (queue_start 4)).

Lemma both_called_reach : queue_reach 4 MPMC both_called [] [].
Proof. apply qr_pop; [apply qr_push; [apply qr_start|done|done]|vm_compute; reflexivity|done]. Qed.

(** The consumer sleeps, then the producer is about to store. *)
Definition storing : QState := run_steps [(2, false); (2, false); (2, false); (1, true); (1, true); (1, true)] both_called.
(** The producer has counted its value and has yet to notify. *)
Definition counted : QState := run_steps [(1, true); (1, true)] storing.

Lemma storing_reach : queue_reach 4 MPMC storing [] [].
Proof. exact (run_steps_reach [(2, false); (2, false); (2, false); (1, true); (1, true); (1, true)] both_called [] [] both_called_reach). Qed.

Lemma counted_reach : queue_reach 4 MPMC counted [7] [].
Proof. exact (run_steps_reach [(1, true); (1, true)] storing [] [] storing_reach). Qed.

Lemma queue_is_fifo_witness : [7] = [] ++ contents 4 (spsc counted).
Proof. exact (proj1 (queue_is_fifo 4 MPMC four_slots counted [7] [] counted_reach)). Defined.

Lemma queue_steps_exact_witness : forall r s', emplace_step 4 MPMC 0 1 storing = Some (r, s') -> contents 4 (spsc s') = contents 4 (spsc storing).
Proof.
  intros r s' E. destruct (queue_steps_exact 4 MPMC four_slots storing [] [] 1 0 storing_reach) as (_ & _ & _ & _ & H & _). apply (H r s' E). vm_compute. reflexivity.
Defined.

(** One producer is about to store the second value while the consumer takes the
    first. *)
Definition three_called : QState := go 3 (EmplaceStart PushMode.Wait 8) both_called.
Definition meeting : QState := run_steps (repeat (1, true) 7 ++ repeat (2, false) 3 ++ repeat (3, true) 3) three_called.

Lemma meeting_reach : queue_reach 4 MPMC meeting [7] [].
Proof.
  refine (run_steps_reach (repeat (1, true) 7 ++ repeat (2, false) 3 ++ repeat (3, true) 3) three_called [] [] _). apply qr_push; [apply both_called_reach|vm_compute; reflexivity|done].
Qed.

Lemma queue_race_free_witness : pc 3 meeting = EmplaceStore 8 1 /\ pc 2 meeting = PopMove 0 /\ slot 4 1 <> slot 4 0.
Proof.
  assert (H3 : pc 3 meeting = EmplaceStore 8 1) by (vm_compute; reflexivity). assert (H2 : pc 2 meeting = PopMove 0) by (vm_compute; reflexivity).
  split; [exact H3|]. split; [exact H2|]. exact (proj1 (queue_race_free 4 MPMC four_slots meeting [7] [] 3 2 meeting_reach) 8 1 0 H3 H2).
Defined.

Lemma queue_no_lost_wakeup_witness : exists u, pc u counted = EmplaceNotify.
Proof.
  destruct (proj1 (queue_no_lost_wakeup 4 MPMC four_slots counted [7] [] 2 counted_reach) PopMode.Wait 0) as (u & E & _); [vm_compute; reflexivity|vm_compute; discriminate|]. exists u. exact E.
Defined.

Lemma pop_returns_witness : exists u, u <> 2 /\ pc u counted = EmplaceNotify /\
  exists s', emplace_step 4 MPMC 0 u counted = Some (None, s') /\ unnotified (pc 2 s') = false.
Proof.
  destruct (pop_returns 4 MPMC four_slots counted [7] [] 2 counted_reach) as (_ & _ & H & _); [vm_compute; reflexivity|vm_compute; discriminate|].
  destruct H as (u & Hu & E & Hn & _); [vm_compute; reflexivity|]. exists u. split; [exact Hu|]. split; [exact E|].
  destruct (Hn 0%nat) as (s' & E' & _ & U). exists s'. split; [exact E'|exact U].
Defined.
