(* ===== verification/FileSys.v ===== *)
(** * The file system ([core/file_sys/fs.{h,cpp}], [core/libraries/kernel/file_system.cpp])

    The mount points, which turn a guest path into a host path, the table of handles,
    and the calls that open and close files and create, move and remove what is on the
    host.

    Paths and names are lists of bytes; the operations of [std::filesystem::path] are
    those of POSIX.  The host's file system is a parameter: [host] tells, after the
    operations that were carried out so far ([host_ops]), what the host answers
    ([HostView]).  The files of the table are objects by address ([files]); the table
    holds addresses or null, and has fewer than 2^31 entries.  The list of names the
    search keeps as a member ([path_parts]) is cleared before each use and is a local
    here.  Each call is one step. *)

From stdpp Require Import gmap strings.
From S2P Require Import Prelude.

(** ** Text *)

Abbreviation text := (list Z).

Definition text_of (s : string) : text := (fun c => Z.of_nat (Ascii.nat_of_ascii c)) <$> String.list_ascii_of_string s.

Definition SLASH : Z := 47.

Fixpoint starts_with (p l : text) : bool :=
  match p, l with
  | [], _ => true
  | a :: p, b :: l => (a =? b) && starts_with p l
  | _, [] => false
  end.

(** [tolower] in the C locale. *)
Definition lower (c : Z) : Z := if (65 <=? c) && (c <=? 90) then c + 32 else c.
Definition ToLower (l : text) : text := lower <$> l.

(** The bytes behind the last slash, and those up to it. *)
Fixpoint filename (p : text) : text :=
  match p with
  | [] => []
  | c :: r => if existsb (Z.eqb SLASH) p then filename r else p
  end.
Definition without_filename (p : text) : text := take (length p - length (filename p)) p.

Fixpoint strip_slashes (p : text) : text :=
  match p with
  | [] => []
  | c :: r => match strip_slashes r with [] => if c =? SLASH then [] else [c] | r => c :: r end
  end.

Definition RemoveTrailingSlashes (path : text) : text := strip_slashes path.

(** ** Paths *)

Definition is_absolute (p : text) : bool := starts_with [SLASH] p.
Definition has_filename (p : text) : bool := match filename p with [] => false | _ => true end.

(** [p /= q] *)
Definition path_append (p q : text) : text := if is_absolute q then q else if has_filename p then p ++ SLASH :: q else p ++ q.

Definition parent_path (p : text) : text :=
  if forallb (Z.eqb SLASH) p then p else
  match strip_slashes (without_filename p) with
  | [] => if is_absolute p then [SLASH] else []
  | d => d
  end.

Fixpoint split_slashes (cur p : text) : list text :=
  match p with
  | [] => [cur]
  | c :: r => if c =? SLASH then cur :: split_slashes [] r else split_slashes (cur ++ [c]) r
  end.

(** Two paths are equal when their keys are: the components without the slashes
    between them, and an empty one for a slash at the end. *)
Definition path_key (p : text) : bool * list text :=
  let l := filter (fun c => c <> []) (split_slashes [] p) in
  (is_absolute p, l ++ if has_filename p then [] else match l with [] => [] | _ => [[]] end).
Definition path_eq (p q : text) : bool := bool_decide (path_key p = path_key q).

(** ** The host *)

Module FileAccessMode.
Inductive t := Read | Write | ReadWrite | Append | ReadAppend | Create.
End FileAccessMode.

Inductive HostOp :=
| OpOpen (p : text) (m : FileAccessMode.t)
| OpSetSize (p : text) (size : Z)
| OpCreateDirectory (p : text)
| OpRemoveAll (p : text)
| OpRemove (p : text)
| OpCopy (p q : text)
| OpUnlink (p : text)
| OpCloseSocket (id : Z).

(** What the host answers: the first four throw on errors; [v_open] is [errno] and
    whether there is a file; the others tell whether they succeed. *)
Record HostView := mkView {
  v_exists : text -> outcome bool; v_is_directory : text -> outcome bool; v_is_empty : text -> outcome bool; v_list : text -> outcome (list text);
  v_open : text -> FileAccessMode.t -> Z * bool; v_create_directory : text -> bool; v_remove_all : text -> bool; v_remove : text -> bool; v_copy : text -> text -> bool }.

(** ** State *)

Module FileType.
Inductive t := Regular | Directory | Device | Socket | Epoll | Resolver | Equeue.
End FileType.

#[export] Instance file_type_eq_dec : EqDecision FileType.t.
Proof. solve_decision. Defined.

Module HostPathType.
Inductive t := Default | Base | Patch | Mod.
End HostPathType.

#[export] Instance host_path_type_eq_dec : EqDecision HostPathType.t.
Proof. solve_decision. Defined.

Inductive Device := Logger (name : string) | URandomDevice | RandomDevice | SRandomDevice | ConsoleDevice | DeciTty6Device | RngDevice.
Inductive DirectoryKind := PfsDirectory (guest : text) | NormalDirectory (guest : text).

Record IOFile := mkIo { file_path : text; file_access_mode : FileAccessMode.t; is_open : bool }.

Record File := mkFile {
  is_opened : bool; type : FileType.t; m_host_name : text; m_guest_name : text; f : IOFile; directory : option DirectoryKind; device : option Device; socket : option Z }.

Record MntPair := mkMnt { host_path : text; mount : text; read_only : bool }.

Record FsState := mkFs {
  files : gmap Z File; next_file : Z; m_files : list (option Z); m_mnt_pairs : list MntPair; path_cache : gmap (bool * list text) text;
  ignore_game_patches : bool; host_ops : list HostOp; fs_errno : Z }.

Definition fs_start : FsState := mkFs ∅ 1 [] [] ∅ false [] 0.

Definition set_table (fs : gmap Z File) (n : Z) (l : list (option Z)) (s : FsState) : FsState := mkFs fs n l (m_mnt_pairs s) (path_cache s) (ignore_game_patches s) (host_ops s) (fs_errno s).
Definition set_mounts (l : list MntPair) (s : FsState) : FsState := mkFs (files s) (next_file s) (m_files s) l (path_cache s) (ignore_game_patches s) (host_ops s) (fs_errno s).
Definition set_cache (m : gmap (bool * list text) text) (s : FsState) : FsState := mkFs (files s) (next_file s) (m_files s) (m_mnt_pairs s) m (ignore_game_patches s) (host_ops s) (fs_errno s).
Definition log (o : HostOp) (s : FsState) : FsState := mkFs (files s) (next_file s) (m_files s) (m_mnt_pairs s) (path_cache s) (ignore_game_patches s) (host_ops s ++ [o]) (fs_errno s).
Definition set_errno (e : Z) (s : FsState) : FsState := mkFs (files s) (next_file s) (m_files s) (m_mnt_pairs s) (path_cache s) (ignore_game_patches s) (host_ops s) e.

Definition new_file : File := mkFile false FileType.Regular [] [] (mkIo [] FileAccessMode.Read false) None None None.

Definition with_opened (b : bool) (x : File) : File := mkFile b (type x) (m_host_name x) (m_guest_name x) (f x) (directory x) (device x) (socket x).
Definition with_type (t : FileType.t) (x : File) : File := mkFile (is_opened x) t (m_host_name x) (m_guest_name x) (f x) (directory x) (device x) (socket x).
Definition with_host (p : text) (x : File) : File := mkFile (is_opened x) (type x) p (m_guest_name x) (f x) (directory x) (device x) (socket x).
Definition with_guest (p : text) (x : File) : File := mkFile (is_opened x) (type x) (m_host_name x) p (f x) (directory x) (device x) (socket x).
Definition with_io (i : IOFile) (x : File) : File := mkFile (is_opened x) (type x) (m_host_name x) (m_guest_name x) i (directory x) (device x) (socket x).
Definition with_directory (d : DirectoryKind) (x : File) : File := mkFile (is_opened x) (type x) (m_host_name x) (m_guest_name x) (f x) (Some d) (device x) (socket x).
Definition with_device (d : option Device) (x : File) : File := mkFile (is_opened x) (type x) (m_host_name x) (m_guest_name x) (f x) (directory x) d (socket x).
Definition with_socket (o : option Z) (x : File) : File := mkFile (is_opened x) (type x) (m_host_name x) (m_guest_name x) (f x) (directory x) (device x) o.

(** Through a pointer to a file: one to a deleted file cannot be used. *)
Definition file_at (a : Z) (s : FsState) : outcome File := of_option (files s !! a).
Definition modify (a : Z) (g : File -> File) (s : FsState) : outcome FsState :=
  let! x := file_at a s in Done (set_table (<[a := g x]> (files s)) (next_file s) (m_files s) s).

(** ** The table of handles *)

Definition CreateHandle (s : FsState) : Z * FsState :=
  let a := next_file s in
  let fs := <[a := new_file]> (files s) in
  match list_find (fun x => x = None) (m_files s) with
  | Some (i, _) => (Z.of_nat i, set_table fs (a + 1) (<[i := Some a]> (m_files s)) s)
  | None => (Z.of_nat (length (m_files s)), set_table fs (a + 1) (m_files s ++ [Some a]) s)
  end.

(** [m_files.at(d)]; a negative [d] is beyond the end. *)
Definition at_ (d : Z) (s : FsState) : outcome (option Z) :=
  if d <? 0 then Raised Uncaught else match m_files s !! Z.to_nat d with Some x => Done x | None => Raised Uncaught end.

Definition DeleteHandle (d : Z) (s : FsState) : outcome FsState :=
  let! x := at_ d s in
  match x with
  | None => Done s
  | Some a => let! _ := file_at a s in Done (set_table (delete a (files s)) (next_file s) (<[Z.to_nat d := None]> (m_files s)) s)
  end.

Definition in_table (d : Z) (s : FsState) : bool := (0 <=? d) && (d <? Z.of_nat (length (m_files s))).

Definition GetFile (d : Z) (s : FsState) : outcome (option Z) := if in_table d s then at_ d s else Done None.

Definition GetSocket (d : Z) (s : FsState) : outcome (option Z) :=
  if in_table d s then
    let! x := at_ d s in
    match x with
    | None => Done None
    | Some a => let! x := file_at a s in Done (if bool_decide (type x = FileType.Socket) then Some a else None)
    end
  else Done None.

(** These do not test the pointer. *)
Definition GetTyped (t : FileType.t) (d : Z) (s : FsState) : outcome (option Z) :=
  if in_table d s then
    let! x := at_ d s in let! a := of_option x in
    let! x := file_at a s in Done (if bool_decide (type x = t) then Some a else None)
  else Done None.
Definition GetEpoll (d : Z) (s : FsState) : outcome (option Z) := GetTyped FileType.Epoll d s.
Definition GetResolver (d : Z) (s : FsState) : outcome (option Z) := GetTyped FileType.Resolver d s.

Fixpoint find_by_name (host_name : text) (l : list (option Z)) (s : FsState) : outcome (option Z) :=
  match l with
  | [] => Done None
  | None :: l => find_by_name host_name l s
  | Some a :: l => let! x := file_at a s in if path_eq (m_host_name x) host_name then Done (Some a) else find_by_name host_name l s
  end.
Definition GetFileByName (host_name : text) (s : FsState) : outcome (option Z) := find_by_name host_name (m_files s) s.

(** A handle reserved by another component (an event queue, a socket). *)
Definition reserve_handle (t : FileType.t) (sock : option Z) (s : FsState) : outcome (Z * FsState) :=
  let '(h, s) := CreateHandle s in
  let! o := GetFile h s in let! a := of_option o in
  let! s := modify a (fun x => with_socket sock (with_type t x)) s in Done (h, s).

Definition setup_std (path : string) (d : Device) (s : FsState) : outcome FsState :=
  let '(fd, s) := CreateHandle s in
  let! o := GetFile fd s in let! a := of_option o in
  modify a (fun x => with_device (Some d) (with_guest (text_of path) (with_type FileType.Device (with_opened true x)))) s.

Definition CreateStdHandles (s : FsState) : outcome FsState :=
  let! s := setup_std "/dev/stdin" (Logger "stdin") s in
  let! s := setup_std "/dev/stdout" (Logger "stdout") s in
  setup_std "/dev/stderr" (Logger "stderr") s.

Definition GetFileDescriptor (a : Z) (s : FsState) : Z :=
  match list_find (fun x => x = Some a) (m_files s) with Some (i, _) => Z.of_nat i | None => 0 end.

(** ** Mount points *)

Definition Mount (host_folder guest_folder : text) (ro : bool) (s : FsState) : FsState :=
  set_mounts (m_mnt_pairs s ++ [mkMnt host_folder (RemoveTrailingSlashes guest_folder) ro]) s.

Definition Unmount (guest_folder : text) (s : FsState) : FsState :=
  set_mounts (filter (fun m => mount m <> RemoveTrailingSlashes guest_folder) (m_mnt_pairs s)) s.

Definition UnmountAll (s : FsState) : FsState := set_mounts [] s.

Definition GetMountFromHostPath (p : text) (s : FsState) : option MntPair := snd <$> list_find (fun m => starts_with (host_path m) p) (m_mnt_pairs s).

Definition under_mount (guest_path : text) (m : MntPair) : bool := bool_decide (guest_path = mount m) || starts_with (mount m ++ [SLASH]) guest_path.
Definition GetMount (guest_path : text) (s : FsState) : option MntPair := snd <$> list_find (fun m => under_mount guest_path m) (m_mnt_pairs s).

(** The loop that replaces two slashes by one and goes on behind them. *)
Fixpoint correct_slashes (p : text) : text :=
  match p with
  | c :: r =>
      c :: match r with
           | d :: r' => if (c =? SLASH) && (d =? SLASH) then correct_slashes r' else correct_slashes r
           | [] => []
           end
  | [] => []
  end.

(** Titles can be patched and modified: [/app0] and [/hostapp]. *)
Definition is_app (p : text) : bool := starts_with (text_of "/app0") p || starts_with (text_of "/hostapp") p.

Section World.
Context (host : list HostOp -> HostView).

Definition view (s : FsState) : HostView := host (host_ops s).

(** The first loop of the search: up to a path that exists or is in the cache; the
    names left behind, the last one first. *)
Fixpoint ascend (fuel : nat) (v : HostView) (cache : gmap (bool * list text) text) (current : text) (parts : list text) : outcome (text * list text) :=
  match fuel with
  | O => Raised OutOfFuel
  | S fuel =>
      match current with
      | [] => Done ([], parts)
      | _ =>
          let! e := v_exists v current in
          if (e : bool) then Done (current, parts) else
          match cache !! path_key current with
          | Some p => Done (p, parts)
          | None => ascend fuel v cache (parent_path current) (filename current :: parts)
          end
      end
  end.

(** The second loop: down through the names, each as it is or in another case. *)
Fixpoint descend (v : HostView) (parts : list text) (current guest : text) (cache : gmap (bool * list text) text) : outcome (option text * gmap (bool * list text) text) :=
  match parts with
  | [] => Done (Some current, cache)
  | part :: parts =>
      let! e := v_exists v (path_append current part) in
      let! found := (if (e : bool) then Done (Some part) else let! l := v_list v current in Done (snd <$> list_find (fun c => ToLower c = ToLower part) l)) in
      match found with
      | None => Done (None, cache)
      | Some name =>
          let current := path_append current name in
          let guest := path_append guest part in
          descend v parts current guest (<[path_key guest := current]> cache)
      end
  end.

Definition search (p : text) (s : FsState) : outcome (option text * FsState) :=
  let! '(current, parts) := ascend (S (length p)) (view s) (path_cache s) p [] in
  match current with
  | [] => Done (Some [], s)
  | _ => let! '(r, cache) := descend (view s) parts current current (path_cache s) in Done (r, set_cache cache s)
  end.

(** Searches one after the other until one finds something; [fallback] if none does. *)
Fixpoint search_all (l : list text) (fallback : text) (s : FsState) : outcome (text * FsState) :=
  match l with
  | [] => Done (fallback, s)
  | p :: l => let! '(r, s) := search p s in match r with Some q => Done (q, s) | None => search_all l fallback s end
  end.

Definition patch_folder (m : MntPair) (s : FsState) : outcome text :=
  let p := host_path m ++ text_of "-UPDATE" in
  let! e := v_exists (view s) p in
  Done (if (e : bool) then p else host_path m ++ text_of "-patch").
Definition mods_folder (m : MntPair) : text := host_path m ++ text_of "-mods".

(** The host path, and what is written to [is_read_only]. *)
Definition GetHostPath (path : text) (path_type : HostPathType.t) (s : FsState) : outcome (text * option bool * FsState) :=
  let corrected := correct_slashes path in
  if 255 <? Z.of_nat (length path) then Done ([], None, s) else
  match GetMount corrected s with
  | None => Done ([], None, s)
  | Some m =>
      let ro := Some (read_only m) in
      let! patch := patch_folder m s in
      let mods := mods_folder m in
      if bool_decide (RemoveTrailingSlashes corrected = mount m) then
        Done (match path_type with HostPathType.Mod => mods | HostPathType.Patch => patch | _ => host_path m end, ro, s)
      else if Z.of_nat (length corrected) <? Z.of_nat (length (mount m)) + 1 then Raised Uncaught
      else
        let rel := drop (length (mount m) + 1) corrected in
        let base := path_append (host_path m) rel in
        let patch := path_append patch rel in
        let mods := path_append mods rel in
        let default := negb (bool_decide (path_type = HostPathType.Base)) in
        match path_type with
        | HostPathType.Mod => Done (mods, ro, s)
        | HostPathType.Patch => Done (patch, ro, s)
        | _ =>
            let! in_mods := (if is_app corrected && default then v_exists (view s) mods else Done false) in
            if (in_mods : bool) then Done (mods, ro, s) else
            let! in_patch := (if is_app corrected && default && negb (ignore_game_patches s) then v_exists (view s) patch else Done false) in
            if (in_patch : bool) then Done (patch, ro, s) else
            let! '(r, s) := search_all ((if is_app corrected && default then [mods] else []) ++ (if default && negb (ignore_game_patches s) then [patch] else []) ++ [base]) base s in
            Done (r, ro, s)
        end
  end.

(** ** Listing a directory *)

Definition dir_entry (v : HostView) (p : text) : outcome (text * bool) := let! d := v_is_directory v p in Done (p, negb d).

(** The three passes: for each entry what is passed to the callback, if anything. *)
Fixpoint collect_entries (pick : text -> outcome (option (text * bool))) (names : list text) : outcome (list (text * bool)) :=
  match names with
  | [] => Done []
  | n :: names => let! x := pick n in let! l := collect_entries pick names in Done (match x with Some e => e :: l | None => l end)
  end.

Definition pick_base (v : HostView) (base patch mods n : text) : outcome (option (text * bool)) :=
  let! m := v_exists v (path_append mods n) in
  if (m : bool) then let! e := dir_entry v (path_append mods n) in Done (Some e) else
  let! p := v_exists v (path_append patch n) in
  if (p : bool) then let! e := dir_entry v (path_append patch n) in Done (Some e) else
  let! e := dir_entry v (path_append base n) in Done (Some e).

Definition pick_patch (v : HostView) (base patch mods n : text) : outcome (option (text * bool)) :=
  let! b := v_exists v (path_append base n) in
  if (b : bool) then Done None else
  let! m := v_exists v (path_append mods n) in
  let! e := dir_entry v (path_append (if (m : bool) then mods else patch) n) in Done (Some e).

Definition pick_mods (v : HostView) (base patch mods n : text) : outcome (option (text * bool)) :=
  let! b := v_exists v (path_append base n) in
  if (b : bool) then Done None else
  let! p := v_exists v (path_append patch n) in
  if (p : bool) then Done None else
  let! e := dir_entry v (path_append mods n) in Done (Some e).

Definition list_if_exists (v : HostView) (p : text) : outcome (list text) := let! e := v_exists v p in if (e : bool) then v_list v p else Done [].

Definition merge_entries (v : HostView) (base patch mods : text) : outcome (list (text * bool)) :=
  let! l1 := list_if_exists v base in let! e1 := collect_entries (pick_base v base patch mods) l1 in
  let! l2 := list_if_exists v patch in let! e2 := collect_entries (pick_patch v base patch mods) l2 in
  let! l3 := list_if_exists v mods in let! e3 := collect_entries (pick_mods v base patch mods) l3 in
  Done (e1 ++ e2 ++ e3).

(** What the callback is called with. *)
Definition IterateDirectory (guest : text) (s : FsState) : outcome (list (text * bool) * FsState) :=
  let! '(base, _, s) := GetHostPath guest HostPathType.Base s in
  let! '(patch, _, s) := GetHostPath guest HostPathType.Patch s in
  let! '(mods, _, s) := GetHostPath guest HostPathType.Mod s in
  let! l := merge_entries (view s) base patch mods in
  Done ((path_append base (text_of "."), false) :: (path_append base (text_of ".."), false) :: l, s).

(** ** Host files *)

Definition io_close (i : IOFile) : IOFile := mkIo (file_path i) (file_access_mode i) false.

(** [IOFile::Open]: the error, the file and the state after it. *)
Definition io_open (p : text) (m : FileAccessMode.t) (s : FsState) : Z * IOFile * FsState :=
  let '(e, opened) := v_open (view s) p m in (e, mkIo p m opened, log (OpOpen p m) s).

Definition io_set_size (i : IOFile) (size : Z) (s : FsState) : FsState := if is_open i then log (OpSetSize (file_path i) size) s else s.
Definition io_unlink (i : IOFile) (s : FsState) : FsState := if is_open i then log (OpUnlink (file_path i)) s else s.

(** [file->f.Open] *)
Definition open_file (a : Z) (p : text) (m : FileAccessMode.t) (s : FsState) : outcome (Z * FsState) :=
  let '(e, i, s) := io_open p m s in let! s := modify a (with_io i) s in Done (e, s).

(** ** open and close *)

Definition ORBIS_KERNEL_O_RDONLY : Z := 0x0000.
Definition ORBIS_KERNEL_O_WRONLY : Z := 0x0001.
Definition ORBIS_KERNEL_O_RDWR : Z := 0x0002.
Definition ORBIS_KERNEL_O_APPEND : Z := 0x0008.
Definition ORBIS_KERNEL_O_CREAT : Z := 0x0200.
Definition ORBIS_KERNEL_O_TRUNC : Z := 0x0400.
Definition ORBIS_KERNEL_O_EXCL : Z := 0x0800.
Definition ORBIS_KERNEL_O_DIRECTORY : Z := 0x00020000.

Definition POSIX_EIO : Z := 5.
Definition POSIX_EACCES : Z := 13.
Definition POSIX_EFAULT : Z := 14.
Definition POSIX_EEXIST : Z := 17.
Definition POSIX_ENOTDIR : Z := 20.
Definition POSIX_EISDIR : Z := 21.
Definition POSIX_ENOSPC : Z := 28.
Definition POSIX_EROFS : Z := 30.
Definition POSIX_ERANGE : Z := 34.
Definition POSIX_ENAMETOOLONG : Z := 63.
Definition POSIX_ENOTEMPTY : Z := 66.

(** The host's numbers are those of Linux. *)
Definition SetPosixErrno (e : Z) (s : FsState) : FsState :=
  set_errno
    (if e =? 1 then POSIX_EPERM else if e =? 2 then POSIX_ENOENT else if e =? 35 then POSIX_EDEADLK else if e =? 12 then POSIX_ENOMEM else
     if e =? 13 then POSIX_EACCES else if e =? 14 then POSIX_EFAULT else if e =? 22 then POSIX_EINVAL else if e =? 28 then POSIX_ENOSPC else
     if e =? 34 then POSIX_ERANGE else if e =? 11 then POSIX_EAGAIN else if e =? 110 then POSIX_ETIMEDOUT else e) s.

Definition has_oflag (flags x : Z) : bool := negb (Z.land flags x =? 0).

Inductive FactoryDevice := DeviceOfFd (fd : Z) | NewDevice (d : Device).

(** In the order of the [std::map]. *)
Definition available_device : list (string * FactoryDevice) :=
  [("/dev/console", NewDevice ConsoleDevice); ("/dev/deci_stderr", DeviceOfFd 2); ("/dev/deci_stdin", DeviceOfFd 0); ("/dev/deci_stdout", DeviceOfFd 1);
   ("/dev/deci_tty6", NewDevice DeciTty6Device); ("/dev/fd/0", DeviceOfFd 0); ("/dev/fd/1", DeviceOfFd 1); ("/dev/fd/2", DeviceOfFd 2); ("/dev/null", DeviceOfFd 0);
   ("/dev/random", NewDevice RandomDevice); ("/dev/rng", NewDevice RngDevice); ("/dev/srandom", NewDevice SRandomDevice);
   ("/dev/stderr", DeviceOfFd 2); ("/dev/stdin", DeviceOfFd 0); ("/dev/stdout", DeviceOfFd 1); ("/dev/urandom", NewDevice URandomDevice)]%string.

Definition find_device (path : text) : option FactoryDevice :=
  if starts_with (text_of "/dev/") path then snd ∘ snd <$> list_find (fun d => starts_with (text_of d.1) path) available_device else None.

Definition make_device (d : FactoryDevice) (s : FsState) : outcome (option Device) :=
  match d with
  | NewDevice d => Done (Some d)
  | DeviceOfFd fd => let! o := GetFile fd s in let! a := of_option o in let! x := file_at a s in Done (device x)
  end.

(** A call that fails with [e]. *)
Definition error (e : Z) (s : FsState) : outcome (Z * FsState) := Done (-1, set_errno e s).
Definition close_with (handle e : Z) (s : FsState) : outcome (Z * FsState) := let! s := DeleteHandle handle s in error e s.

Definition open_device (handle a : Z) (path : text) (d : FactoryDevice) (s : FsState) : outcome (Z * FsState) :=
  let! s := modify a (fun x => with_guest path (with_type FileType.Device (with_opened true x))) s in
  let! dev := make_device d s in
  let! s := modify a (with_device dev) s in Done (handle, s).

Definition open_directory (handle a : Z) (path host_name : text) (flags : Z) (s : FsState) : outcome (Z * FsState) :=
  let! d := v_is_directory (view s) host_name in
  if negb d then close_with handle POSIX_ENOTDIR s else
  if negb (Z.land flags 3 =? ORBIS_KERNEL_O_RDONLY) then close_with handle POSIX_EISDIR s else
  if has_oflag flags ORBIS_KERNEL_O_TRUNC then close_with handle POSIX_EISDIR s else
  let kind := if starts_with (text_of "/app0") path then PfsDirectory path else NormalDirectory path in
  let! s := modify a (fun x => with_directory kind (with_opened true (with_type FileType.Directory x))) s in
  let! s := modify a (with_opened true) s in
  Done (handle, s).

(** The mode a file is opened with, unless it is opened for writing below a read-only
    mount. *)
Definition open_mode (flags : Z) (ro : bool) : option FileAccessMode.t :=
  let append := has_oflag flags ORBIS_KERNEL_O_APPEND in
  if Z.land flags 3 =? ORBIS_KERNEL_O_RDONLY then Some FileAccessMode.Read else
  if ro then None else
  if Z.land flags 3 =? ORBIS_KERNEL_O_WRONLY then Some (if append then FileAccessMode.Append else FileAccessMode.Write)
  else Some (if append then FileAccessMode.ReadAppend else FileAccessMode.ReadWrite).

Definition open_regular (handle a : Z) (host_name : text) (flags : Z) (ro : bool) (s : FsState) : outcome (Z * FsState) :=
  let! s := modify a (with_type FileType.Regular) s in
  let truncate := has_oflag flags ORBIS_KERNEL_O_TRUNC in
  if truncate && ro then close_with handle POSIX_EROFS s else
  let! s :=
    (if truncate then
       let! '(e, s) := open_file a host_name FileAccessMode.ReadWrite s in
       if e =? 0 then let! x := file_at a s in Done (io_set_size (f x) 0 s) else Done s
     else Done s) in
  match open_mode flags ro with
  | None => close_with handle POSIX_EROFS s
  | Some m =>
      let! '(e, s) := open_file a host_name m s in
      if negb (e =? 0) then let! s := DeleteHandle handle s in Done (-1, SetPosixErrno e s)
      else let! s := modify a (with_opened true) s in Done (handle, s)
  end.

(** Behind the creation of the file. *)
Definition open_found (handle a : Z) (path host_name : text) (flags : Z) (ro : bool) (s : FsState) : outcome (Z * FsState) :=
  let! d := v_is_directory (view s) host_name in
  if d || has_oflag flags ORBIS_KERNEL_O_DIRECTORY then open_directory handle a path host_name flags s
  else open_regular handle a host_name flags ro s.

Definition open_path (handle a : Z) (path : text) (flags : Z) (s : FsState) : outcome (Z * FsState) :=
  let! s := modify a (with_guest path) s in
  let! '(host_name, ro, s) := GetHostPath path HostPathType.Default s in
  let ro := default false ro in
  let! s := modify a (with_host host_name) s in
  let! exists_ := v_exists (view s) host_name in
  if has_oflag flags ORBIS_KERNEL_O_CREAT then
    if has_oflag flags ORBIS_KERNEL_O_EXCL && exists_ then close_with handle POSIX_EEXIST s else
    if negb exists_ then
      if ro then close_with handle POSIX_EROFS s
      else let '(_, _, s) := io_open host_name FileAccessMode.Create s in open_found handle a path host_name flags ro s
    else open_found handle a path host_name flags ro s
  else if negb exists_ then close_with handle POSIX_ENOENT s
  else open_found handle a path host_name flags ro s.

Definition open (path : text) (flags : Z) (s : FsState) : outcome (Z * FsState) :=
  if Z.land flags 3 =? 3 then error POSIX_EINVAL s else
  if 255 <? Z.of_nat (length path) then error POSIX_ENAMETOOLONG s else
  let '(handle, s) := CreateHandle s in
  let! o := GetFile handle s in let! a := of_option o in
  match find_device path with
  | Some d => open_device handle a path d s
  | None => open_path handle a path flags s
  end.

Definition close (fd : Z) (s : FsState) : outcome (Z * FsState) :=
  let! o := GetFile fd s in
  match o with
  | None => error POSIX_EBADF s
  | Some a =>
      if fd <? 3 then error POSIX_EPERM s else
      let! x := file_at a s in
      let! s :=
        match type x with
        | FileType.Regular => modify a (fun x => with_io (io_close (f x)) x) s
        | FileType.Socket => let! id := of_option (socket x) in Done (log (OpCloseSocket id) s)
        | _ => Done s
        end in
      let! s := modify a (with_opened false) s in
      let! s := DeleteHandle fd s in
      Done (ORBIS_OK, s)
  end.

(** ** Directories, names *)

(** [path] is null or a string; [strlen] comes before the test for null. *)
Definition posix_mkdir (path : option text) (s : FsState) : outcome (Z * FsState) :=
  let! path := of_option path in
  if 255 <? Z.of_nat (length path) then error POSIX_ENAMETOOLONG s else
  let! '(dir_name, ro, s) := GetHostPath path HostPathType.Default s in
  let! e := v_exists (view s) dir_name in
  if (e : bool) then error POSIX_EEXIST s else
  if default false ro then error POSIX_EROFS s else
  if bool_decide (dir_name = []) then error POSIX_EIO s else
  let made := v_create_directory (view s) dir_name in
  let s := log (OpCreateDirectory dir_name) s in
  if negb made then error POSIX_EIO s else
  let! e := v_exists (view s) dir_name in
  if (e : bool) then Done (ORBIS_OK, s) else error POSIX_ENOENT s.

Definition posix_rmdir (path : text) (s : FsState) : outcome (Z * FsState) :=
  if 255 <? Z.of_nat (length path) then error POSIX_ENAMETOOLONG s else
  let! '(dir_name, ro, s) := GetHostPath path HostPathType.Default s in
  if default false ro then error POSIX_EROFS s else
  if bool_decide (dir_name = []) then error POSIX_ENOTDIR s else
  let! d := v_is_directory (view s) dir_name in
  if negb d then error POSIX_ENOTDIR s else
  let! e := v_exists (view s) dir_name in
  if negb e then error POSIX_ENOENT s else
  let done := v_remove_all (view s) dir_name in
  let s := log (OpRemoveAll dir_name) s in
  if done then Done (ORBIS_OK, s) else error POSIX_EIO s.

Definition sceKernelCheckReachability (path : text) (s : FsState) : outcome (Z * FsState) :=
  if 255 <? Z.of_nat (length path) then Done (ORBIS_KERNEL_ERROR_ENAMETOOLONG, s) else
  if existsb (fun d => starts_with (text_of d.1) path) available_device then Done (ORBIS_OK, s) else
  let! '(p, _, s) := GetHostPath path HostPathType.Default s in
  let! e := v_exists (view s) p in
  Done (if (e : bool) then ORBIS_OK else ORBIS_KERNEL_ERROR_ENOENT, s).

(** Why the target of a rename is refused. *)
Definition rename_refused (v : HostView) (src dst : text) : outcome (option Z) :=
  let! src_is_dir := v_is_directory v src in
  let! dst_is_dir := v_is_directory v dst in
  let! e := v_exists v dst in
  if negb e then Done None else
  if src_is_dir && negb dst_is_dir then Done (Some POSIX_ENOTDIR) else
  if negb src_is_dir && dst_is_dir then Done (Some POSIX_EISDIR) else
  if (dst_is_dir : bool) then let! empty := v_is_empty v dst in Done (if (empty : bool) then None else Some POSIX_ENOTEMPTY) else Done None.

(** The copy and the removal of the original; an open file goes on with the copy. *)
Definition move (src dst : text) (s : FsState) : outcome (Z * FsState) :=
  let copied := v_copy (view s) src dst in
  let s := log (OpCopy src dst) s in
  if negb copied then Raised Uncaught else
  let! o := GetFileByName src s in
  match o with
  | Some a =>
      let! x := file_at a s in
      let! s := modify a (fun x => with_io (io_close (f x)) x) s in
      let removed := v_remove (view s) src in
      let s := log (OpRemove src) s in
      if negb removed then Raised Uncaught else
      let! '(_, s) := open_file a dst (file_access_mode (f x)) s in Done (ORBIS_OK, s)
  | None =>
      let removed := v_remove_all (view s) src in
      let s := log (OpRemoveAll src) s in
      if (removed : bool) then Done (ORBIS_OK, s) else Raised Uncaught
  end.

Definition posix_rename (from to : text) (s : FsState) : outcome (Z * FsState) :=
  let! '(src, ro, s) := GetHostPath from HostPathType.Default s in
  let ro := default false ro in
  if 255 <? Z.of_nat (length from) then error POSIX_ENAMETOOLONG s else
  if 255 <? Z.of_nat (length to) then error POSIX_ENAMETOOLONG s else
  let! e := v_exists (view s) src in
  if negb e then error POSIX_ENOENT s else
  if (ro : bool) then error POSIX_EROFS s else
  let! '(dst, ro', s) := GetHostPath to HostPathType.Default s in
  if default ro ro' then error POSIX_EROFS s else
  let! r := rename_refused (view s) src dst in
  match r with Some e => error e s | None => move src dst s end.

Definition posix_unlink (path : option text) (s : FsState) : outcome (Z * FsState) :=
  let! path := of_option path in
  if 255 <? Z.of_nat (length path) then error POSIX_ENAMETOOLONG s else
  let! '(host_name, ro, s) := GetHostPath path HostPathType.Default s in
  if bool_decide (host_name = []) then error POSIX_ENOENT s else
  if default false ro then error POSIX_EROFS s else
  let! d := v_is_directory (view s) host_name in
  if (d : bool) then error POSIX_EPERM s else
  let! o := GetFileByName host_name s in
  match o with
  | None => let '(_, i, s) := io_open host_name FileAccessMode.ReadWrite s in Done (ORBIS_OK, io_unlink i s)
  | Some a => let! x := file_at a s in Done (ORBIS_OK, io_unlink (f x) s)
  end.

(** [dev_result] is what a device answers. *)
Definition posix_ftruncate (dev_result : Z) (fd length : Z) (s : FsState) : outcome (Z * FsState) :=
  let! o := GetFile fd s in
  match o with
  | None => error POSIX_EBADF s
  | Some a =>
      let! x := file_at a s in
      if bool_decide (type x = FileType.Device) then
        if dev_result <? 0 then Done (-1, set_errno (s32 (dev_result - ORBIS_KERNEL_ERROR_UNKNOWN)) s) else Done (dev_result, s)
      else if bool_decide (m_host_name x = []) then error POSIX_EACCES s
      else Done (ORBIS_OK, io_set_size (f x) length s)
  end.

(** The [sceKernel] variants return the error as a code. *)
Definition sce (r : outcome (Z * FsState)) : outcome (Z * FsState) :=
  let! '(c, s) := r in Done (if c <? 0 then ErrnoToSceKernelError (fs_errno s) else c, s).
Definition sceKernelOpen (path : text) (flags : Z) (s : FsState) : outcome (Z * FsState) := sce (open path flags s).
Definition sceKernelClose (fd : Z) (s : FsState) : outcome (Z * FsState) := sce (close fd s).
Definition sceKernelMkdir (path : option text) (s : FsState) : outcome (Z * FsState) := sce (posix_mkdir path s).
Definition sceKernelRmdir (path : text) (s : FsState) : outcome (Z * FsState) := sce (posix_rmdir path s).
Definition sceKernelRename (from to : text) (s : FsState) : outcome (Z * FsState) := sce (posix_rename from to s).
Definition sceKernelUnlink (path : option text) (s : FsState) : outcome (Z * FsState) := sce (posix_unlink path s).
Definition sceKernelFtruncate (dev_result fd length : Z) (s : FsState) : outcome (Z * FsState) := sce (posix_ftruncate dev_result fd length s).
End World.
