(* ===== verification/FileSpec.v ===== *)
(** * What the file system promises

    [good]: the table of handles is well formed.  [wp m Q]: [m] ends in a state with
    [Q], or in an exception of the host's file system; it never uses a null or dangling
    pointer, fails an assertion or runs on for ever. *)

From stdpp Require Import gmap strings.
From S2P Require Import Prelude Equeue EqueueFacts EqueueSpec FileSys.

Local Open Scope Z_scope.
Local Arguments Z.eqb : simpl never.

Definition wp {A} (m : outcome A) (Q : A -> Prop) : Prop := match m with Done a => Q a | Raised e => e = Uncaught end.

Lemma wp_bind {A B} (m : outcome A) (k : A -> outcome B) (P : A -> Prop) (Q : B -> Prop) : wp m P -> (forall a, P a -> wp (k a) Q) -> wp (obind m k) Q.
Proof. destruct m; cbn; [auto|by intros ->]. Qed.

Lemma wp_mono {A} (m : outcome A) (P Q : A -> Prop) : wp m P -> (forall a, P a -> Q a) -> wp m Q.
Proof. destruct m; cbn; auto. Qed.

(** What is assumed of the host: queries fail with an exception at most, and the root
    exists. *)
Class HostLaws (host : list HostOp -> HostView) := {
  hl_exists ops p : wp (v_exists (host ops) p) (fun _ => True);
  hl_is_directory ops p : wp (v_is_directory (host ops) p) (fun _ => True);
  hl_is_empty ops p : wp (v_is_empty (host ops) p) (fun _ => True);
  hl_list ops p : wp (v_list (host ops) p) (fun _ => True);
  hl_root ops p : p <> [] -> forallb (Z.eqb SLASH) p = true -> v_exists (host ops) p = Done true }.

(** ** The table *)

(** The pointer behind a handle, and the file. *)
Definition pointer (d : Z) (s : FsState) : option Z := if 0 <=? d then mjoin (m_files s !! Z.to_nat d) else None.
Definition handle (d : Z) (s : FsState) : option File := a ← pointer d s; files s !! a.

Record good (s : FsState) : Prop := {
  g_live d a : pointer d s = Some a -> is_Some (files s !! a);
  g_owned a x : files s !! a = Some x -> exists d, pointer d s = Some a;
  g_inj d e a : pointer d s = Some a -> pointer e s = Some a -> d = e;
  g_next a x : files s !! a = Some x -> a < next_file s }.

(** The states differ outside the table only. *)
Definition same_table (s s' : FsState) : Prop := files s' = files s /\ next_file s' = next_file s /\ m_files s' = m_files s.

Lemma same_table_pointer s s' d : same_table s s' -> pointer d s' = pointer d s.
Proof. intros (_ & _ & E). unfold pointer. by rewrite E. Qed.

Lemma same_table_handle s s' d : same_table s s' -> handle d s' = handle d s.
Proof. intros H. unfold handle. rewrite (same_table_pointer _ _ _ H). by destruct H as (-> & _). Qed.

Lemma same_table_good s s' : same_table s s' -> good s -> good s'.
Proof.
  intros H [G1 G2 G3 G4]. pose proof H as (E1 & E2 & E3). split; intros *; rewrite ?E1, ?E2, ?(same_table_pointer _ _ _ H); eauto.
  intros Hx. destruct (G2 _ _ Hx) as [d Hd]. exists d. by rewrite (same_table_pointer _ _ _ H).
Qed.

Lemma pointer_spec d a s : pointer d s = Some a <-> 0 <= d /\ m_files s !! Z.to_nat d = Some (Some a).
Proof.
  unfold pointer. destruct (Z.leb_spec 0 d); [|split; [done|lia]]. destruct (m_files s !! Z.to_nat d) as [[b|]|]; cbn; naive_solver.
Qed.

Lemma pointer_handle s d : good s -> pointer d s = None <-> handle d s = None.
Proof. intros G. unfold handle. destruct (pointer d s) as [a|] eqn:E; cbn; [|done]. destruct (g_live _ G _ _ E) as [x ->]. done. Qed.

Lemma at_pointer d s : 0 <= d < Z.of_nat (length (m_files s)) -> at_ d s = Done (pointer d s).
Proof.
  intros H. unfold at_, pointer. rewrite (proj2 (Z.ltb_ge d 0)), (proj2 (Z.leb_le 0 d)) by lia. destruct (lookup_lt_is_Some_2 (m_files s) (Z.to_nat d)) as [x ->]; [lia|done].
Qed.

Lemma GetFile_spec d s : GetFile d s = Done (pointer d s).
Proof.
  unfold GetFile, in_table. destruct (Z.leb_spec 0 d), (Z.ltb_spec d (Z.of_nat (length (m_files s)))); cbn [andb]; [by apply at_pointer| |unfold pointer; by rewrite (proj2 (Z.leb_gt 0 d))..].
  unfold pointer. rewrite (proj2 (Z.leb_le 0 d)), lookup_ge_None_2 by lia. done.
Qed.

(** *** Creation *)

Lemma create_table s : exists i l, CreateHandle s = (Z.of_nat i, set_table (<[next_file s := new_file]> (files s)) (next_file s + 1) l s)
  /\ (forall j, mjoin (l !! j) = if decide (j = i) then Some (next_file s) else mjoin (m_files s !! j))
  /\ mjoin (m_files s !! i) = None /\ (forall j, (j < i)%nat -> mjoin (m_files s !! j) <> None).
Proof.
  unfold CreateHandle. destruct (list_find _ (m_files s)) as [[i y]|] eqn:E.
  - apply list_find_Some in E as (E & -> & Hlt). exists i, (<[i := Some (next_file s)]> (m_files s)). split; [done|]. split; [|split; [by rewrite E|]].
    + intros j. destruct (decide (j = i)) as [->|]; [by rewrite list_lookup_insert_eq by (by eapply lookup_lt_Some)|by rewrite list_lookup_insert_ne].
    + intros j Hj. destruct (lookup_lt_is_Some_2 (m_files s) j) as [y Ej]; [apply lookup_lt_Some in E; lia|]. rewrite Ej. cbn. by eapply Hlt.
  - apply list_find_None in E. exists (length (m_files s)), (m_files s ++ [Some (next_file s)]). split; [done|]. split; [|split; [by rewrite lookup_ge_None_2 by lia|]].
    + intros j. destruct (decide (j = length (m_files s))) as [->|]; [by rewrite lookup_app_r, Nat.sub_diag by lia|].
      destruct (decide (j < length (m_files s))%nat); [by rewrite lookup_app_l by lia|]. rewrite !lookup_ge_None_2; [done|lia|rewrite length_app; cbn; lia].
    + intros j Hj. destruct (lookup_lt_is_Some_2 (m_files s) j Hj) as [y Ej]. rewrite Ej. cbn. rewrite Forall_lookup in E. by eapply E.
Qed.

(** [h] is the least handle that is free in [s]. *)
Definition least_free (h : Z) (s : FsState) : Prop := 0 <= h /\ handle h s = None /\ forall d, 0 <= d < h -> handle d s <> None.

Lemma create_handle_spec s : good s -> exists h, CreateHandle s = (h, (CreateHandle s).2) /\ let s' := (CreateHandle s).2 in
  least_free h s /\ good s' /\ pointer h s' = Some (next_file s) /\ files s' !! next_file s = Some new_file /\ (forall d, d <> h -> handle d s' = handle d s)
  /\ s' = set_table (files s') (next_file s') (m_files s') s.
Proof.
  intros G. destruct (create_table s) as (i & l & -> & Hl & Hi & Hlt). exists (Z.of_nat i). split; [done|]. cbn [snd]. set (s' := set_table _ _ _ _).
  assert (Hnone : files s !! next_file s = None) by (destruct (files s !! next_file s) eqn:E; [apply (g_next _ G) in E; lia|done]).
  assert (Hp : forall d, pointer d s' = if decide (d = Z.of_nat i) then Some (next_file s) else pointer d s).
  { intros d. unfold pointer. destruct (Z.leb_spec 0 d); [|by rewrite decide_False by lia]. cbn. rewrite Hl. destruct (decide (d = Z.of_nat i)) as [->|]; [by rewrite Nat2Z.id, decide_True|by rewrite decide_False by lia]. }
  assert (Hfree : forall d, pointer d s <> Some (next_file s)) by (intros d E; destruct (g_live _ G _ _ E) as [x ?]; congruence).
  assert (Hi' : pointer (Z.of_nat i) s = None) by (unfold pointer; by rewrite (proj2 (Z.leb_le 0 _)), Nat2Z.id by lia).
  split.
  { split; [lia|]. split; [by apply pointer_handle|]. intros d Hd. rewrite <- pointer_handle by done. unfold pointer. rewrite (proj2 (Z.leb_le 0 d)) by lia. apply Hlt. lia. }
  split; [split|].
  - intros d a. rewrite Hp. cbn. destruct (decide _); [intros [= <-]; by rewrite lookup_insert_eq|]. intros E. rewrite lookup_insert_ne by (intros <-; by apply (Hfree d)). by eapply g_live.
  - intros a x. cbn. destruct (decide (a = next_file s)) as [->|]; [intros _; exists (Z.of_nat i); by rewrite Hp, decide_True|]. rewrite lookup_insert_ne by done. intros Hx.
    destruct (g_owned _ G _ _ Hx) as [d Hd]. exists d. rewrite Hp, decide_False; [done|]. intros ->. congruence.
  - intros d e a. rewrite !Hp. do 2 destruct (decide _); subst; [done|intros [= <-] ?; by destruct (Hfree e)|intros ? [= <-]; by destruct (Hfree d)|by eapply g_inj].
  - intros a x. cbn. destruct (decide (a = next_file s)) as [->|]; [lia|]. rewrite lookup_insert_ne by done. intros Hx%(g_next _ G). lia.
  - split; [by rewrite Hp, decide_True|]. split; [by cbn; rewrite lookup_insert_eq|]. split; [|done]. intros d Hd. unfold handle. rewrite Hp, decide_False by done.
    destruct (pointer d s) as [a|] eqn:E; [|done]. cbn. rewrite lookup_insert_ne; [done|]. intros <-. by apply (Hfree d).
Qed.

(** *** Updates and removal *)

(** A file is changed and nothing else. *)
Definition updated (a : Z) (x : File) (s s' : FsState) : Prop := s' = set_table (<[a := x]> (files s)) (next_file s) (m_files s) s.

Lemma updated_pointer a x s s' d : updated a x s s' -> pointer d s' = pointer d s.
Proof. by intros ->. Qed.

Lemma updated_good a x y s s' : good s -> files s !! a = Some y -> updated a x s s' -> good s'.
Proof.
  intros [G1 G2 G3 G4] Ha ->. split; cbn.
  - intros d b E. destruct (decide (a = b)) as [->|]; [by rewrite lookup_insert_eq|rewrite lookup_insert_ne by done]. by eapply (G1 d).
  - intros b z. destruct (decide (a = b)) as [->|]; [|rewrite lookup_insert_ne by done; apply G2]. intros _. by eapply (G2 b).
  - apply G3.
  - intros b z. destruct (decide (a = b)) as [->|]; [|rewrite lookup_insert_ne by done; apply G4]. intros _. by eapply G4.
Qed.

Lemma updated_handle a x s s' h d : good s -> pointer h s = Some a -> updated a x s s' -> handle d s' = if decide (d = h) then Some x else handle d s.
Proof.
  intros G Hp ->. unfold handle. rewrite (updated_pointer a x s _ d eq_refl). destruct (decide (d = h)) as [->|]; [rewrite Hp; cbn; by rewrite lookup_insert_eq|].
  destruct (pointer d s) as [b|] eqn:Eb; [|done]. cbn. rewrite lookup_insert_ne; [done|]. intros ->. by destruct (g_inj _ G d h b).
Qed.

Lemma modify_wp a g s x : files s !! a = Some x -> wp (modify a g s) (updated a (g x) s).
Proof. intros E. unfold modify, file_at. rewrite E. done. Qed.

Lemma delete_wp d a s : good s -> pointer d s = Some a ->
  wp (DeleteHandle d s) (fun s' => good s' /\ (forall e, handle e s' = if decide (e = d) then None else handle e s) /\ s' = set_table (files s') (next_file s') (m_files s') s).
Proof.
  intros G Hp. pose proof Hp as [H0 Hl]%pointer_spec. unfold DeleteHandle. rewrite at_pointer by (apply lookup_lt_Some in Hl; lia). rewrite Hp. cbn [obind].
  unfold file_at. destruct (g_live _ G _ _ Hp) as [x Hx]. rewrite Hx. cbn. set (s' := set_table _ _ _ _).
  assert (Hp' : forall e, pointer e s' = if decide (e = d) then None else pointer e s).
  { intros e. unfold pointer. destruct (Z.leb_spec 0 e); [|by rewrite decide_False by lia]. cbn. destruct (decide (e = d)) as [->|]; [by rewrite list_lookup_insert_eq by (by eapply lookup_lt_Some)|by rewrite list_lookup_insert_ne by lia]. }
  split; [split|split; [|done]].
  - intros e b. rewrite Hp'. destruct (decide _); [done|]. intros E. cbn. rewrite lookup_delete_ne; [by eapply g_live|]. intros ->. by destruct (g_inj _ G e d b).
  - intros b y. cbn. intros [Hne Hy]%lookup_delete_Some. destruct (g_owned _ G _ _ Hy) as [e He]. exists e. rewrite Hp', decide_False; [done|]. intros ->. congruence.
  - intros e e' b. rewrite !Hp'. do 2 destruct (decide _); try done. apply (g_inj _ G).
  - intros b y. cbn. intros [_ Hy]%lookup_delete_Some. by apply (g_next _ G) in Hy.
  - intros e. unfold handle. rewrite Hp'. destruct (decide _); [done|]. destruct (pointer e s) as [b|] eqn:Eb; [|done]. cbn. rewrite lookup_delete_ne; [done|]. intros ->. by destruct (g_inj _ G e d b).
Qed.

(** *** A call that has reserved a handle *)

(** [s] is [s0] with the file [x] at the handle [h], which was free. *)
Record pending (s0 : FsState) (h a : Z) (x : File) (s : FsState) : Prop := {
  p_good : good s;
  p_pointer : pointer h s = Some a;
  p_file : files s !! a = Some x;
  p_free : handle h s0 = None;
  p_rest d : d <> h -> handle d s = handle d s0 }.

Lemma pending_same s0 h a x s s' : pending s0 h a x s -> same_table s s' -> pending s0 h a x s'.
Proof.
  intros [P1 P2 P3 P4 P5] H. split; [by eapply same_table_good|by rewrite (same_table_pointer _ _ _ H)|by destruct H as (-> & _)|done|]. intros d Hd. rewrite (same_table_handle _ _ _ H). auto.
Qed.

Lemma pending_modify s0 h a x g s : pending s0 h a x s -> wp (modify a g s) (fun s' => pending s0 h a (g x) s' /\ updated a (g x) s s').
Proof.
  intros [P1 P2 P3 P4 P5]. eapply wp_mono; [by apply modify_wp|]. intros s' E. split; [|done]. split; [by eapply updated_good|by rewrite (updated_pointer _ _ _ _ _ E)|rewrite E; cbn; by rewrite lookup_insert_eq|done|].
  intros d Hd. rewrite (updated_handle _ _ _ _ _ _ P1 P2 E), decide_False by done. auto.
Qed.

(** The handle is given back: the table is as before. *)
Definition restored (s0 s : FsState) : Prop := good s /\ forall d, handle d s = handle d s0.

Lemma pending_delete s0 h a x s : pending s0 h a x s -> wp (DeleteHandle h s) (fun s' => restored s0 s' /\ s' = set_table (files s') (next_file s') (m_files s') s).
Proof.
  intros [P1 P2 P3 P4 P5]. eapply wp_mono; [by eapply delete_wp|]. intros s' (G & H & E). split; [|done]. split; [done|]. intros d. rewrite H. destruct (decide _) as [->|]; [done|auto].
Qed.

Lemma pending_handle s0 h a x s : pending s0 h a x s -> handle h s = Some x.
Proof. intros [P1 P2 P3 P4 P5]. unfold handle. by rewrite P2. Qed.

(** ** Paths *)

(** The components of a path, without empty ones. *)
Definition nonempty (l : list text) : list text := filter (fun c => c <> []) l.
Definition names (p : text) : list text := nonempty (split_slashes [] p).
Definition plain (n : text) : Prop := SLASH ∉ n.
Definition fold_names (l : list text) : list text := ToLower <$> l.

Lemma existsb_plain n : existsb (Z.eqb SLASH) n = false <-> plain n.
Proof.
  unfold plain. induction n as [|c n IH]; cbn [existsb]; [split; [intros _ []%not_elem_of_nil|done]|]. rewrite orb_false_iff, IH, Z.eqb_neq, not_elem_of_cons. done.
Qed.

Lemma split_app cur p q : split_slashes cur (p ++ SLASH :: q) = split_slashes cur p ++ split_slashes [] q.
Proof. revert cur. induction p as [|c p IH]; intros cur; cbn [app split_slashes]; [done|]. destruct (c =? SLASH); [cbn; by rewrite IH|apply IH]. Qed.

Lemma names_app p q : names (p ++ SLASH :: q) = names p ++ names q.
Proof. unfold names, nonempty. by rewrite split_app, filter_app. Qed.

Lemma split_plain cur n : plain n -> split_slashes cur n = [cur ++ n].
Proof.
  revert cur. induction n as [|c n IH]; intros cur Hn; cbn; [by rewrite app_nil_r|]. apply not_elem_of_cons in Hn as [Hc Hn]. rewrite (proj2 (Z.eqb_neq c SLASH)) by congruence. rewrite IH by done. by rewrite <- app_assoc.
Qed.

Lemma names_plain n : plain n -> names n = nonempty [n].
Proof. intros H. unfold names. by rewrite split_plain. Qed.

Lemma names_slashes n : names (repeat SLASH n) = [].
Proof. unfold names. induction n as [|n IH]; [done|]. cbn. done. Qed.

Lemma filename_app p r : filename (p ++ r) = if existsb (Z.eqb SLASH) r then filename r else filename p ++ r.
Proof.
  induction p as [|c p IH]; cbn [app]; [destruct r as [|d r]; cbn [filename]; [done|]; by destruct (existsb _ (d :: r))|]. cbn [filename]. rewrite (app_comm_cons p r c), existsb_app.
  destruct (existsb (Z.eqb SLASH) r) eqn:Er; [by rewrite orb_true_r|]. rewrite orb_false_r. by destruct (existsb _ (c :: p)).
Qed.

Lemma filename_split p : exists d, p = d ++ filename p /\ (d = [] \/ exists d', d = d' ++ [SLASH]) /\ plain (filename p) /\ without_filename p = d.
Proof.
  assert (H : exists d, p = d ++ filename p /\ (d = [] \/ exists d', d = d' ++ [SLASH]) /\ plain (filename p)).
  { induction p as [|c p (d & E & Hd & Hp)]; [exists []; split; [done|]; split; [by left|apply not_elem_of_nil]|]. cbn [filename]. destruct (existsb (Z.eqb SLASH) (c :: p)) eqn:Ex.
    - exists (c :: d). split; [cbn; by f_equal|]. split; [right|done]. destruct Hd as [->|[d' ->]]; [|by exists (c :: d')]. cbn in E, Ex. apply orb_true_iff in Ex as [Ec|Ex].
      + apply Z.eqb_eq in Ec as <-. by exists [].
      + rewrite E, (proj2 (existsb_plain _) Hp) in Ex. done.
    - exists []. split; [done|]. split; [by left|]. by apply existsb_plain. }
  destruct H as (d & E & Hd & Hp). exists d. split; [done|]. split; [done|]. split; [done|]. unfold without_filename.
  assert (El : length p = (length d + length (filename p))%nat) by (rewrite E at 1; apply length_app). rewrite El, Nat.add_sub, E. apply take_app_length.
Qed.

Lemma strip_spec p : exists n, p = strip_slashes p ++ repeat SLASH n /\ (strip_slashes p = [] \/ exists q c, strip_slashes p = q ++ [c] /\ c <> SLASH).
Proof.
  induction p as [|c p (n & E & H)]; [exists O; split; [done|by left]|]. cbn [strip_slashes]. destruct (strip_slashes p) as [|d r] eqn:Er.
  - destruct (Z.eqb_spec c SLASH) as [->|Hc]; [exists (S n); split; [by rewrite E|by left]|]. exists n. split; [cbn; by f_equal|right; by exists [], c].
  - exists n. split; [cbn; by f_equal|right]. destruct H as [|(q & e & H & He)]; [done|]. exists (c :: q), e. by rewrite H.
Qed.

Lemma names_strip p : names (strip_slashes p) = names p.
Proof.
  destruct (strip_spec p) as (n & E & _). rewrite E at 2. destruct n as [|n]; cbn; [by rewrite app_nil_r|]. rewrite names_app, names_slashes, app_nil_r. done.
Qed.

Lemma strip_length p : (length (strip_slashes p) <= length p)%nat.
Proof. destruct (strip_spec p) as (n & E & _). rewrite E at 2. rewrite length_app. lia. Qed.

Lemma absolute_app p q : p <> [] -> is_absolute (p ++ q) = is_absolute p.
Proof. destruct p as [|c p]; [done|]. intros _. cbn. by rewrite !andb_true_r. Qed.

Lemma all_slashes p : forallb (Z.eqb SLASH) p = true <-> p = repeat SLASH (length p).
Proof. induction p as [|c p IH]; cbn; [done|]. rewrite andb_true_iff, IH, Z.eqb_eq. split; [intros [<- E]; by f_equal|intros [= <- E]; done]. Qed.

(** One component less. *)
Lemma parent_spec p : p <> [] -> forallb (Z.eqb SLASH) p = false ->
  names (parent_path p) ++ nonempty [filename p] = names p /\ (length (parent_path p) < length p)%nat
  /\ (parent_path p = [] -> is_absolute p = false) /\ (parent_path p <> [] -> is_absolute (parent_path p) = is_absolute p).
Proof.
  intros Hne Hall. unfold parent_path. rewrite Hall. destruct (filename_split p) as (d & E & Hd & Hp & ->). set (n := filename p) in *.
  assert (Hn : names d ++ nonempty [n] = names p).
  { rewrite E. destruct Hd as [->|[d' ->]]; [cbn [app]; by rewrite (names_plain n Hp)|]. rewrite <- app_assoc. cbn [app]. rewrite !names_app, (names_plain n Hp). cbn. by rewrite app_nil_r. }
  destruct (strip_spec d) as (k & Ek & Hk). destruct (strip_slashes d) as [|c r] eqn:Er.
  - cbn in Ek. assert (Hnd : names d = []) by (rewrite Ek; apply names_slashes). rewrite Hnd in Hn. destruct (is_absolute p) eqn:Ea; (split; [by rewrite <- Hn|]).
    + split; [|by split]. rewrite E, length_app. assert (d <> []).
      { intros ->. cbn in E. rewrite E in Ea. destruct n as [|e n']; [done|]. unfold is_absolute in Ea. cbn [starts_with] in Ea. apply andb_true_iff in Ea as [Ea%Z.eqb_eq _]. apply Hp. subst e. apply list_elem_of_here. }
      assert (n <> []). { intros En. rewrite En, app_nil_r in E. rewrite E, Ek, (proj2 (all_slashes _)) in Hall; [done|by rewrite repeat_length]. }
      destruct d, n; cbn; try done; lia.
    + split; [cbn; destruct p; [done|cbn; lia]|]. split; [done|]. done.
  - rewrite <- Er, names_strip. split; [done|]. assert (El : length d = (length (strip_slashes d) + k)%nat) by (rewrite Er, Ek at 1; by rewrite length_app, repeat_length). split.
    + rewrite E, length_app. destruct n as [|e n]; [|cbn; lia]. cbn. destruct k as [|k]; [|lia]. exfalso. cbn in Ek. rewrite app_nil_r in Ek.
      destruct Hd as [->|[d' ->]]; [done|]. destruct Hk as [|(q & e & H & He)]; [done|]. rewrite <- Ek in H. apply app_inj_tail in H as [_ H]. congruence.
    + split; [by rewrite Er|]. intros _. rewrite Er, E, Ek, <- app_assoc. symmetry. by apply absolute_app.
Qed.

Lemma append_spec p n : p <> [] -> is_absolute n = false -> path_append p n <> [] /\ is_absolute (path_append p n) = is_absolute p /\ names (path_append p n) = names p ++ names n.
Proof.
  intros Hp Hn. unfold path_append. rewrite Hn. destruct (has_filename p) eqn:Hf; (split; [by destruct p|]; split; [by apply absolute_app|]); [apply names_app|].
  unfold has_filename in Hf. destruct (filename_split p) as (d & E & Hd & _). destruct (filename p); [|done]. rewrite app_nil_r in E. subst d. destruct Hd as [|[d ->]]; [done|].
  rewrite <- app_assoc. cbn [app]. rewrite !names_app. cbn. by rewrite app_nil_r.
Qed.

Lemma plain_relative n : plain n -> is_absolute n = false.
Proof.
  intros H. destruct n as [|c n]; [done|]. unfold is_absolute. cbn. rewrite andb_true_r. apply Z.eqb_neq. intros <-. apply H, list_elem_of_here.
Qed.

Lemma lower_slash c : lower c = SLASH <-> c = SLASH.
Proof. unfold lower, SLASH. destruct (Z.leb_spec 65 c), (Z.leb_spec c 90); cbn; lia. Qed.

Lemma lower_plain m n : ToLower m = ToLower n -> plain n -> plain m.
Proof.
  intros E Hn Hm. apply Hn. assert (H : lower SLASH ∈ ToLower m) by (by apply list_elem_of_fmap_2). rewrite E in H. apply list_elem_of_fmap in H as (c & Hc & H). symmetry in Hc. change (lower SLASH) with SLASH in Hc. by apply lower_slash in Hc as ->.
Qed.

Lemma lower_nonempty m n : ToLower m = ToLower n -> fold_names (nonempty [m]) = fold_names (nonempty [n]).
Proof. destruct m as [|a m], n as [|b n]; try done. intros E. change ([ToLower (a :: m)] = [ToLower (b :: n)]). by rewrite E. Qed.

(** Two paths that differ in the case of letters at most. *)
Definition alike (p q : text) : Prop := is_absolute p = is_absolute q /\ fold_names (names p) = fold_names (names q).

Lemma append_alike p q m n : p <> [] -> q <> [] -> alike p q -> plain n -> ToLower m = ToLower n ->
  path_append p m <> [] /\ path_append q n <> [] /\ alike (path_append p m) (path_append q n) /\ is_absolute (path_append p m) = is_absolute p
  /\ fold_names (names (path_append p m)) = fold_names (names p ++ nonempty [n]).
Proof.
  intros Hp Hq [Ea En] Hn E. pose proof (lower_plain _ _ E Hn) as Hm. destruct (append_spec p m Hp (plain_relative _ Hm)) as (P1 & P2 & P3), (append_spec q n Hq (plain_relative _ Hn)) as (Q1 & Q2 & Q3).
  rewrite (names_plain m Hm) in P3. rewrite (names_plain n Hn) in Q3. split; [done|]. split; [done|]. pose proof (lower_nonempty _ _ E) as El. unfold alike. rewrite P2, P3, Q2, Q3. unfold fold_names in *. by rewrite !fmap_app, En, El.
Qed.

(** ** The search *)

(** What is in the cache is like what it is found under. *)
Definition key_names (k : bool * list text) : list text := nonempty k.2.
Definition cache_ok (c : gmap (bool * list text) text) : Prop := forall k v, c !! k = Some v -> v <> [] /\ is_absolute v = k.1 /\ fold_names (names v) = fold_names (key_names k).

Lemma nonempty_idemp l : nonempty (nonempty l) = nonempty l.
Proof. unfold nonempty. by rewrite list_filter_filter_l by done. Qed.

Lemma key_names_path p : key_names (path_key p) = names p.
Proof.
  unfold key_names, path_key. cbn [snd]. fold (nonempty (split_slashes [] p)). fold (names p). unfold nonempty. rewrite filter_app. fold (nonempty (names p)). unfold names at 1. rewrite nonempty_idemp. fold (names p).
  set (l := match names p with [] => [] | _ => _ end). assert (El : filter (fun c : text => c <> []) (if has_filename p then [] else l) = []) by (unfold l; destruct (has_filename p), (names p); reflexivity). by rewrite El, app_nil_r.
Qed.

Lemma cache_insert c p q : cache_ok c -> q <> [] -> alike q p -> cache_ok (<[path_key p := q]> c).
Proof.
  intros Hc Hq [Ha Hn] k v. destruct (decide (path_key p = k)) as [<-|]; [rewrite lookup_insert_eq; intros [= <-]; by rewrite key_names_path|rewrite lookup_insert_ne by done; apply Hc].
Qed.

Section Search.
Context (host : list HostOp -> HostView) `{!HostLaws host}.

Lemma ascend_spec ops cache fuel : forall cur parts, (length cur < fuel)%nat -> cache_ok cache -> Forall plain parts ->
  wp (ascend fuel (host ops) cache cur parts) (fun '(c, ps) => Forall plain ps
    /\ ((c = [] /\ is_absolute cur = false) \/ (c <> [] /\ is_absolute c = is_absolute cur /\ fold_names (names c ++ nonempty ps) = fold_names (names cur ++ nonempty parts)))).
Proof.
  induction fuel as [|fuel IH]; intros cur parts Hf Hc Hp; [lia|]. cbn [ascend]. destruct cur as [|c0 cur0]; [cbn; split; [done|by left]|]. set (cur := c0 :: cur0) in *.
  destruct (forallb (Z.eqb SLASH) cur) eqn:Hall; [rewrite hl_root by done; cbn; split; [done|right; done]|].
  eapply wp_bind; [apply hl_exists|]. intros [] _; [split; [done|right; done]|]. destruct (cache !! path_key cur) as [p|] eqn:Ek.
  - destruct (Hc _ _ Ek) as (P1 & P2 & P3). cbn. split; [done|]. right. split; [done|]. split; [done|]. rewrite key_names_path in P3. unfold fold_names in *. by rewrite !fmap_app, P3.
  - destruct (parent_spec cur) as (N1 & N2 & N3 & N4); [done|done|]. eapply wp_mono; [apply IH; [lia|done|]|].
    + apply Forall_cons. split; [|done]. by destruct (filename_split cur) as (d & _ & _ & ? & _).
    + assert (Ha : is_absolute (parent_path cur) = is_absolute cur) by (destruct (decide (parent_path cur = [])) as [E|E]; [rewrite E; symmetry; auto|auto]).
      intros [c ps] (H1 & H2). split; [done|]. rewrite Ha in H2. destruct H2 as [H2|(H2 & H3 & H4)]; [by left|]. right. split; [done|]. split; [done|].
      rewrite H4, <- N1, <- app_assoc. unfold nonempty. by rewrite <- filter_app.
Qed.

Lemma descend_spec ops parts : forall cur guest cache, cur <> [] -> guest <> [] -> alike cur guest -> cache_ok cache -> Forall plain parts ->
  wp (descend (host ops) parts cur guest cache) (fun '(r, cache') => cache_ok cache'
    /\ forall q, r = Some q -> q <> [] /\ is_absolute q = is_absolute cur /\ fold_names (names q) = fold_names (names cur ++ nonempty parts)).
Proof.
  induction parts as [|part parts IH]; intros cur guest cache Hcur Hg Ha Hc Hp; cbn [descend].
  { cbn. split; [done|]. intros q [= <-]. by rewrite app_nil_r. }
  apply Forall_cons in Hp as [Hp Hps]. eapply wp_bind; [apply hl_exists|]. intros e _.
  eapply (wp_bind _ _ (fun o => forall n, o = Some n -> ToLower n = ToLower part)).
  { destruct e; [by intros n [= <-]|]. eapply wp_bind; [apply hl_list|]. intros l _ n. cbn. destruct (list_find _ l) as [[i y]|] eqn:E; [|done]. apply list_find_Some in E as (_ & E & _). by intros [= <-]. }
  intros [n|] Hn; [|by cbn]. specialize (Hn n eq_refl). destruct (append_alike cur guest n part) as (A1 & A2 & A3 & A4 & A5); [done..|].
  eapply wp_mono; [apply IH; [done|done|done|by apply cache_insert|done]|]. intros [r c'] [H1 H2]. split; [done|]. intros q Hq. destruct (H2 q Hq) as (Q1 & Q2 & Q3). split; [done|]. split; [by rewrite Q2|].
  rewrite Q3. unfold fold_names in *. rewrite !fmap_app, A5, fmap_app, <- app_assoc, <- fmap_app. unfold nonempty. by rewrite <- filter_app.
Qed.

(** A search changes the cache only, and finds a path like the one it was asked for. *)
Lemma search_spec p s : cache_ok (path_cache s) -> wp (search host p s) (fun '(r, s') => s' = set_cache (path_cache s') s /\ cache_ok (path_cache s')
  /\ forall q, r = Some q -> alike q p \/ (q = [] /\ is_absolute p = false)).
Proof.
  intros Hc. unfold search. eapply wp_bind; [apply ascend_spec; [lia|done|apply Forall_nil_2]|]. intros [c ps] (H1 & H2). destruct H2 as [[-> H2]|(H2 & H3 & H4)].
  - cbn. split; [by destruct s|]. split; [done|]. intros q [= <-]. by right.
  - destruct c as [|c0 c]; [done|]. eapply wp_bind; [by apply descend_spec|]. intros [r cache'] [D1 D2]. cbn. split; [done|]. split; [done|]. intros q Hq. left. destruct (D2 q Hq) as (Q1 & Q2 & Q3).
    split; [by rewrite Q2|]. rewrite Q3, H4. cbn. by rewrite app_nil_r.
Qed.
End Search.

(** ** Resolution of guest paths *)







Lemma strip_strip p : strip_slashes (strip_slashes p) = strip_slashes p.
Proof.
  destruct (strip_spec p) as (n & _ & [->|(q & c & -> & Hc)]); [done|]. induction q as [|b q IH]; cbn; [by rewrite (proj2 (Z.eqb_neq c SLASH))|]. rewrite IH. by destruct q.
Qed.

(** The mount a call goes to. *)
Definition mount_of (path : text) (s : FsState) : option MntPair := if 255 <? Z.of_nat (length path) then None else GetMount (correct_slashes path) s.

Definition mounts_ok (s : FsState) : Prop := Forall (fun m => strip_slashes (mount m) = mount m) (m_mnt_pairs s).



(** Only the cache changes. *)
Definition cached (s s' : FsState) : Prop := s' = set_cache (path_cache s') s /\ cache_ok (path_cache s').

Lemma cached_refl s : cache_ok (path_cache s) -> cached s s.
Proof. split; [by destruct s|done]. Qed.

Lemma cached_trans s1 s2 s3 : cached s1 s2 -> cached s2 s3 -> cached s1 s3.
Proof. intros [E1 _] [E2 H]. split; [|done]. rewrite E2. by rewrite E1. Qed.

Lemma cached_table s s' : cached s s' -> same_table s s'.
Proof. by intros [-> _]. Qed.

Section Resolve.
Context (host : list HostOp -> HostView) `{!HostLaws host}.

Lemma search_all_spec l fallback : forall s, cache_ok (path_cache s) -> wp (search_all host l fallback s) (fun '(r, s') => cached s s'
  /\ exists c, c ∈ fallback :: l /\ (alike r c \/ (r = [] /\ is_absolute c = false))).
Proof.
  induction l as [|p l IH]; intros s Hc; cbn [search_all]; [cbn; split; [by apply cached_refl|exists fallback; split; [apply list_elem_of_here|by left]]|].
  eapply wp_bind; [by apply search_spec|]. intros [r s1] (E1 & Hc1 & Hr). destruct r as [q|].
  - cbn. split; [by split|]. exists p. split; [apply list_elem_of_further, list_elem_of_here|]. by apply Hr.
  - eapply wp_mono; [by apply IH|]. intros [r s2] (E2 & c & Hin & H). split; [by eapply cached_trans|]. exists c. split; [|done]. apply elem_of_cons in Hin as [->|]; [apply list_elem_of_here|by do 2 apply list_elem_of_further].
Qed.

Lemma patch_folder_wp m s : wp (patch_folder host m s) (fun p => p = host_path m ++ text_of "-UPDATE" \/ p = host_path m ++ text_of "-patch").
Proof. unfold patch_folder, view. eapply wp_bind; [apply hl_exists|]. intros [] _; cbn; auto. Qed.

Lemma query_wp (b : bool) ops p : wp (if b then v_exists (host ops) p else Done false) (fun _ => True).
Proof. destruct b; [apply hl_exists|done]. Qed.


(** What a call sees: the state with another cache, and whether the mount is
    read-only. *)
Lemma GetHostPath_wp path t s : cache_ok (path_cache s) -> wp (GetHostPath host path t s) (fun '(r, ro, s') => cached s s' /\ ro = read_only <$> mount_of path s).
Proof.
  intros Hc. pose proof (cached_refl s Hc) as Hr. unfold GetHostPath, mount_of. destruct (255 <? _); [done|]. destruct (GetMount _ s) as [m|]; [|done]. cbn [fmap option_fmap option_map].
  eapply wp_bind; [apply patch_folder_wp|]. intros patch _. unfold view. destruct (bool_decide _); [done|]. destruct (_ <? _); [done|]. destruct t; try done.
  all: eapply wp_bind; [apply query_wp|]; intros [] _; [done|]; eapply wp_bind; [apply query_wp|]; intros [] _; [done|]; eapply wp_bind; [by apply search_all_spec|]; intros [r s'] [H _]; done.
Qed.






End Resolve.

(** ** Calls *)

(** The only operation allowed below a read-only mount. *)
Definition reading (o : HostOp) : Prop := match o with OpOpen _ FileAccessMode.Read => True | _ => False end.

(** What a call does outside the table: the mounts stay, the cache stays correct, and
    the host sees some operations, none that writes if the mount is read-only. *)
Record effect (ro : bool) (s s' : FsState) : Prop := {
  ef_mounts : m_mnt_pairs s' = m_mnt_pairs s;
  ef_ignore : ignore_game_patches s' = ignore_game_patches s;
  ef_cache : cache_ok (path_cache s) -> cache_ok (path_cache s');
  ef_ops : exists l, host_ops s' = host_ops s ++ l /\ (ro = true -> Forall reading l) }.

Lemma effect_refl ro s : effect ro s s.
Proof. split; try done. exists []. by rewrite app_nil_r. Qed.

Lemma effect_trans ro s1 s2 s3 : effect ro s1 s2 -> effect ro s2 s3 -> effect ro s1 s3.
Proof.
  intros [E1 E2 E3 (l & E4 & E5)] [F1 F2 F3 (k & F4 & F5)]. split; [congruence|congruence|auto|]. exists (l ++ k). split; [by rewrite F4, E4, app_assoc|]. intros H. apply Forall_app. auto.
Qed.

Lemma effect_table ro s s' : s' = set_table (files s') (next_file s') (m_files s') s -> effect ro s s'.
Proof. intros ->. split; try done. exists []. by rewrite app_nil_r. Qed.

Lemma effect_updated ro a x s s' : updated a x s s' -> effect ro s s'.
Proof. intros ->. by apply effect_table. Qed.

Lemma effect_errno ro e s : effect ro s (set_errno e s).
Proof. split; try done. exists []. cbn. by rewrite app_nil_r. Qed.

Lemma effect_cached ro s s' : cached s s' -> effect ro s s'.
Proof. intros [-> H]. split; try done. exists []. cbn. by rewrite app_nil_r. Qed.

Lemma effect_log ro o s : (ro = true -> reading o) -> effect ro s (log o s).
Proof. intros H. split; try done. exists [o]. split; [done|]. intros Hr. apply Forall_singleton. auto. Qed.

Lemma good_log o s : good s -> good (log o s).
Proof. intros G. by apply (same_table_good s). Qed.

Lemma restored_same s0 s s' : restored s0 s -> same_table s s' -> restored s0 s'.
Proof. intros [G H] E. split; [by eapply same_table_good|]. intros d. by rewrite (same_table_handle _ _ _ E). Qed.

Definition opens_type (t : FileType.t) : bool := match t with FileType.Regular | FileType.Directory | FileType.Device => true | _ => false end.

(** The result of [open]: nothing but an error, or an open file at the handle [h]. *)
Definition opened (ro : bool) (s0 : FsState) (h : Z) (path : text) (flags r : Z) (s : FsState) : Prop :=
  (r = -1 /\ restored s0 s)
  \/ (r = h /\ exists a x, pending s0 h a x s /\ is_opened x = true /\ m_guest_name x = path
      /\ (type x = FileType.Regular -> open_mode flags ro = Some (file_access_mode (f x)) /\ file_path (f x) = m_host_name x)
      /\ opens_type (type x) = true).

Definition done_with (ro : bool) (s0 : FsState) (h : Z) (path : text) (flags : Z) (s : FsState) (res : Z * FsState) : Prop := opened ro s0 h path flags res.1 res.2 /\ effect ro s res.2.

Lemma done_later ro s0 h path flags s s1 res : effect ro s s1 -> done_with ro s0 h path flags s1 res -> done_with ro s0 h path flags s res.
Proof. intros E [H1 H2]. split; [done|]. by eapply effect_trans. Qed.

Section Calls.
Context (host : list HostOp -> HostView) `{!HostLaws host}.

Lemma close_with_wp ro s0 h a x path flags e s : pending s0 h a x s -> wp (close_with h e s) (done_with ro s0 h path flags s).
Proof.
  intros P. unfold close_with. eapply wp_bind; [by eapply pending_delete|]. intros s' [R E]. cbn. split; [left; split; [done|]; by eapply restored_same|].
  eapply effect_trans; [by apply effect_table|apply effect_errno].
Qed.

Lemma open_file_wp ro s0 h a x p m s : pending s0 h a x s -> (ro = true -> m = FileAccessMode.Read) ->
  wp (open_file host a p m s) (fun '(e, s') => (exists b, pending s0 h a (with_io (mkIo p m b) x) s') /\ effect ro s s').
Proof.
  intros P Hm. unfold open_file, io_open. destruct (v_open _ p m) as [e b]. eapply wp_bind; [eapply pending_modify, pending_same; [exact P|done]|]. intros s' [P' U]. cbn. split; [by exists b|].
  eapply effect_trans; [apply effect_log|by eapply effect_updated]. intros Hr. by rewrite (Hm Hr).
Qed.

Lemma open_regular_wp ro s0 h a x path flags s : pending s0 h a x s -> m_guest_name x = path ->
  wp (open_regular host h a (m_host_name x) flags ro s) (done_with ro s0 h path flags s).
Proof.
  intros P Hg. unfold open_regular. eapply wp_bind; [by eapply pending_modify|]. intros s1 [P1 U1]. eapply wp_mono; [|intros res H; eapply done_later; [by eapply effect_updated|exact H]]. clear U1 P.
  set (x1 := with_type FileType.Regular x) in *. destruct (has_oflag flags ORBIS_KERNEL_O_TRUNC && ro) eqn:Etr; [by eapply close_with_wp|].
  eapply (wp_bind _ _ (fun s2 => exists i, pending s0 h a (with_io i x1) s2 /\ effect ro s1 s2)).
  { destruct (has_oflag flags ORBIS_KERNEL_O_TRUNC); [|exists (f x1); split; [by destruct x1|apply effect_refl]]. cbn in Etr.
    eapply wp_bind; [eapply (open_file_wp ro); [done|by rewrite Etr]|]. intros [e s2] [[b P2] E2]. destruct (e =? 0); [|by eexists]. unfold file_at. rewrite (p_file _ _ _ _ _ P2). cbn. unfold io_set_size. cbn.
    destruct b; [|by eexists]. eexists. split; [by eapply pending_same|]. eapply effect_trans; [done|]. apply effect_log. by rewrite Etr. }
  intros s2 (i & P2 & E2). eapply wp_mono; [|intros res H; eapply done_later; [exact E2|exact H]]. destruct (open_mode flags ro) as [m|] eqn:Em; [|by eapply close_with_wp].
  eapply wp_bind; [eapply (open_file_wp ro); [done|]|].
  { intros ->. unfold open_mode in Em. destruct (_ =? _); [by injection Em as <-|done]. }
  intros [e s3] [[b P3] E3]. eapply wp_mono; [|intros res H; eapply done_later; [exact E3|exact H]]. destruct (negb (e =? 0)).
  - eapply wp_bind; [by eapply pending_delete|]. intros s4 [R4 E4]. cbn. split; [left; split; [done|]; by eapply restored_same|]. eapply effect_trans; [by apply effect_table|apply effect_errno].
  - eapply wp_bind; [by eapply pending_modify|]. intros s4 [P4 U4]. cbn. split; [|by eapply effect_updated]. right. split; [done|]. eexists _, _. split; [exact P4|]. done.
Qed.

Lemma open_directory_wp ro s0 h a x path flags s : pending s0 h a x s -> m_guest_name x = path -> wp (open_directory host h a path (m_host_name x) flags s) (done_with ro s0 h path flags s).
Proof.
  intros P Hg. unfold open_directory, view. eapply wp_bind; [apply hl_is_directory|]. intros d _. destruct (negb d); [by eapply close_with_wp|]. destruct (negb _); [by eapply close_with_wp|]. destruct (has_oflag _ _); [by eapply close_with_wp|].
  eapply wp_bind; [by eapply pending_modify|]. intros s1 [P1 U1]. eapply wp_bind; [by eapply pending_modify|]. intros s2 [P2 U2]. cbn. split; [|eapply effect_trans; by eapply effect_updated].
  right. split; [done|]. eexists _, _. split; [exact P2|]. done.
Qed.
Lemma open_found_wp ro s0 h a x path flags s : pending s0 h a x s -> m_guest_name x = path -> wp (open_found host h a path (m_host_name x) flags ro s) (done_with ro s0 h path flags s).
Proof.
  intros P Hg. unfold open_found, view. eapply wp_bind; [apply hl_is_directory|]. intros d _. destruct (_ || _); [by apply open_directory_wp|by apply open_regular_wp].
Qed.

(** Whether a path is below a read-only mount. *)
Definition read_only_path (path : text) (s : FsState) : bool := default false (read_only <$> mount_of path s).

Lemma mount_of_same path s s' : m_mnt_pairs s' = m_mnt_pairs s -> mount_of path s' = mount_of path s.
Proof. intros E. unfold mount_of, GetMount. by rewrite E. Qed.

Lemma open_path_wp s0 h a path flags s : pending s0 h a new_file s -> cache_ok (path_cache s) ->
  wp (open_path host h a path flags s) (done_with (read_only_path path s) s0 h path flags s).
Proof.
  intros P Hc. unfold open_path. eapply wp_bind; [by eapply pending_modify|]. intros s1 [P1 U1]. assert (Er : read_only_path path s = read_only_path path s1) by (unfold read_only_path; rewrite U1; done). rewrite Er.
  eapply wp_mono; [|intros res H; eapply done_later; [by eapply effect_updated|exact H]]. assert (Hc1 : cache_ok (path_cache s1)) by (by rewrite U1). clear U1 Er P Hc.
  eapply wp_bind; [by apply GetHostPath_wp|]. intros [[host_name ro] s2] [C2 ->]. fold (read_only_path path s1). set (ro := read_only_path path s1).
  eapply wp_mono; [|intros res H; eapply done_later; [by apply effect_cached|exact H]].
  eapply wp_bind; [eapply pending_modify, pending_same; [exact P1|by apply cached_table]|]. intros s3 [P3 U3]. eapply wp_mono; [|intros res H; eapply done_later; [by eapply effect_updated|exact H]].
  unfold view at 1. eapply wp_bind; [apply hl_exists|]. intros e _. assert (Hfound : forall s4, pending s0 h a (with_host host_name (with_guest path new_file)) s4 -> wp (open_found host h a path host_name flags ro s4) (done_with ro s0 h path flags s4)).
  { intros s4 P4. by apply (open_found_wp ro s0 h a _ path flags s4 P4). }
  destruct (has_oflag flags ORBIS_KERNEL_O_CREAT).
  - destruct (_ && e); [by eapply close_with_wp|]. destruct e; [by apply Hfound|]. cbn [negb]. destruct ro eqn:Ero; [by eapply close_with_wp|]. unfold io_open. destruct (v_open _ _ _) as [e b]. rewrite <- Ero in *.
    eapply wp_mono; [apply Hfound; by eapply pending_same|]. intros res H. eapply done_later; [apply effect_log; by rewrite Ero|done].
  - destruct e; [by apply Hfound|]. by eapply close_with_wp.
Qed.

(** The standard handles are open devices, and sockets have their socket. *)
Definition std_ok (s : FsState) : Prop := forall d, 0 <= d < 3 -> exists x, handle d s = Some x /\ type x = FileType.Device.
Definition sockets_ok (s : FsState) : Prop := forall d x, handle d s = Some x -> type x = FileType.Socket -> is_Some (socket x).

Lemma device_fd path fd : find_device path = Some (DeviceOfFd fd) -> 0 <= fd < 3.
Proof.
  assert (Hall : Forall (fun d => match d.2 with DeviceOfFd fd => 0 <= fd < 3 | NewDevice _ => True end) available_device) by (repeat (apply Forall_cons; split; [cbn; lia || done|]); apply Forall_nil_2).
  unfold find_device. destruct (starts_with _ path); [|done]. destruct (list_find _ _) as [[i y]|] eqn:E; [|done]. apply list_find_Some in E as (E & _). rewrite Forall_lookup in Hall. specialize (Hall _ _ E). cbn. intros [= H]. by rewrite H in Hall.
Qed.

Lemma open_device_wp ro s0 h a path d flags s : pending s0 h a new_file s -> find_device path = Some d -> std_ok s0 -> wp (open_device h a path d s) (done_with ro s0 h path flags s).
Proof.
  intros P Hd Hs. unfold open_device. eapply wp_bind; [by eapply pending_modify|]. intros s1 [P1 U1]. eapply (wp_bind _ _ (fun _ => True)).
  - destruct d as [fd|d]; [|done]. unfold make_device. rewrite GetFile_spec. cbn [obind]. destruct (Hs fd (device_fd _ _ Hd)) as (x & Hx & _). assert (Hne : fd <> h) by (intros ->; pose proof (p_free _ _ _ _ _ P); congruence).
    rewrite <- (p_rest _ _ _ _ _ P1 fd Hne) in Hx. unfold handle in Hx. destruct (pointer fd s1) as [b|]; [|done]. cbn in Hx |- *. unfold file_at. by rewrite Hx.
  - intros dev _. eapply wp_bind; [by eapply pending_modify|]. intros s2 [P2 U2]. cbn. split; [|eapply effect_trans; by eapply effect_updated]. right. split; [done|]. eexists _, _. split; [exact P2|]. done.
Qed.

Record fs_ok (s : FsState) : Prop := { ok_good : good s; ok_std : std_ok s; ok_sockets : sockets_ok s; ok_cache : cache_ok (path_cache s); ok_mounts : mounts_ok s }.

(** What [open] does, in one: [ro] is whether the path is below a read-only mount. *)
Lemma open_wp path flags s : fs_ok s -> wp (open host path flags s) (fun '(r, s') => exists h, least_free h s /\ opened (read_only_path path s) s h path flags r s' /\ effect (read_only_path path s) s s').
Proof.
  intros [G Hstd Hsock Hc Hm]. unfold open, error. destruct (create_handle_spec s G) as (h & E & L & G' & Hp & Hf & Hr & Es).
  assert (Herr : forall e, wp (Done (-1, set_errno e s)) (fun '(r, s') => exists h, least_free h s /\ opened (read_only_path path s) s h path flags r s' /\ effect (read_only_path path s) s s')).
  { intros e. cbn. exists h. split; [done|]. split; [left; split; [done|]|apply effect_errno]. by apply (restored_same s s). }
  destruct (_ =? 3); [apply Herr|]. destruct (255 <? _); [apply Herr|]. rewrite E. set (s1 := (CreateHandle s).2) in *. rewrite GetFile_spec. cbn [obind]. rewrite Hp. cbn [obind of_option].
  assert (P : pending s h (next_file s) new_file s1) by (split; [done|done|done|apply L|done]). destruct (find_device path) as [d|] eqn:Ed.
  - eapply wp_mono; [by apply (open_device_wp (read_only_path path s) s h _ path d flags)|]. intros [r s'] [H1 H2]. exists h. split; [done|]. split; [done|]. eapply effect_trans; [by apply effect_table|done].
  - eapply wp_mono; [apply open_path_wp; [done|by rewrite Es]|]. intros [r s'] [H1 H2]. assert (Er : read_only_path path s1 = read_only_path path s) by (unfold read_only_path; by rewrite (mount_of_same _ s s1) by (by rewrite Es)). rewrite Er in *.
    exists h. split; [done|]. split; [done|]. eapply effect_trans; [by apply effect_table|done].
Qed.
(** *** The other calls *)

(** What is kept of a file: enough for [std_ok] and [sockets_ok]. *)
Definition profile (x : File) : FileType.t * option Z := (type x, socket x).

(** The same handles, with files of the same kind. *)
Definition tame (s s' : FsState) : Prop := good s' /\ forall d, profile <$> handle d s' = profile <$> handle d s.

Lemma tame_same s s' : good s -> same_table s s' -> tame s s'.
Proof. intros G E. split; [by eapply same_table_good|]. intros d. by rewrite (same_table_handle _ _ _ E). Qed.

Lemma tame_later s1 s2 s3 : tame s1 s2 -> tame s2 s3 -> tame s1 s3.
Proof. intros [_ E1] [G E2]. split; [done|]. intros d. by rewrite E2. Qed.

(** A call that ends with any result in a tame state, with effects as allowed. *)
Definition served (ro : bool) (s : FsState) (res : Z * FsState) : Prop := tame s res.2 /\ effect ro s res.2.

Lemma served_later ro s s1 res : tame s s1 -> effect ro s s1 -> served ro s1 res -> served ro s res.
Proof. intros T E [H1 H2]. split; [by eapply tame_later|by eapply effect_trans]. Qed.

Lemma served_error ro e s : good s -> wp (error e s) (served ro s).
Proof. intros G. split; [by apply tame_same|apply effect_errno]. Qed.

Lemma served_done ro c s s' : good s -> same_table s s' -> effect ro s s' -> served ro s (c, s').
Proof. intros G T E. split; [by apply tame_same|done]. Qed.

Lemma resolve_wp path (s : FsState) (K : text * option bool * FsState -> outcome (Z * FsState)) (Q : bool) : fs_ok s ->
  (forall p s1, good s1 -> m_mnt_pairs s1 = m_mnt_pairs s -> cache_ok (path_cache s1) -> wp (K (p, read_only <$> mount_of path s, s1)) (served Q s1)) ->
  wp (obind (GetHostPath host path HostPathType.Default s) K) (served Q s).
Proof.
  intros Hs HK. eapply wp_bind; [exact (GetHostPath_wp host path HostPathType.Default s (ok_cache _ Hs))|]. intros [[p ro] s1] [C ->]. eapply wp_mono; [apply HK; [eapply same_table_good; [by apply cached_table|apply Hs]|by rewrite (proj1 C)|apply C]|].
  intros res. apply served_later; [apply tame_same; [apply Hs|by apply cached_table]|by apply effect_cached].
Qed.

Lemma mkdir_wp path s : fs_ok s -> wp (posix_mkdir host (Some path) s) (served (read_only_path path s) s).
Proof.
  intros Hs. unfold posix_mkdir. cbn [of_option obind]. destruct (255 <? _); [apply served_error, Hs|]. apply resolve_wp; [done|]. intros p s1 G _ _. cbn beta iota zeta. fold (read_only_path path s).
  unfold view at 1. eapply wp_bind; [apply hl_exists|]. intros [] _; [by apply served_error|]. destruct (read_only_path path s); [by apply served_error|]. destruct (bool_decide _); [by apply served_error|].
  pose proof (good_log (OpCreateDirectory p) s1 G) as Gl.
  assert (Hlog : forall res, served false (log (OpCreateDirectory p) s1) res -> served false s1 res) by (intros res; apply served_later; [by apply tame_same|by apply effect_log]).
  destruct (negb _); [eapply wp_mono; [by apply (served_error false)|auto]|]. unfold view. eapply wp_bind; [apply hl_exists|]. intros [] _; [cbn; apply Hlog, served_done; [done|done|apply effect_refl]|eapply wp_mono; [by apply (served_error false)|auto]].
Qed.

Lemma rmdir_wp path s : fs_ok s -> wp (posix_rmdir host path s) (served (read_only_path path s) s).
Proof.
  intros Hs. unfold posix_rmdir. destruct (255 <? _); [apply served_error, Hs|]. apply resolve_wp; [done|]. intros p s1 G _ _. cbn beta iota zeta. fold (read_only_path path s).
  destruct (read_only_path path s); [by apply served_error|]. destruct (bool_decide _); [by apply served_error|]. unfold view. eapply wp_bind; [apply hl_is_directory|]. intros [] _; [|by apply served_error]. cbn [negb].
  eapply wp_bind; [apply hl_exists|]. intros [] _; [|by apply served_error]. cbn [negb]. pose proof (good_log (OpRemoveAll p) s1 G) as Gl.
  assert (Hlog : forall res, served false (log (OpRemoveAll p) s1) res -> served false s1 res) by (intros res; apply served_later; [by apply tame_same|by apply effect_log]).
  destruct (v_remove_all _ _); [cbn; apply Hlog, served_done; [done|done|apply effect_refl]|eapply wp_mono; [by apply (served_error false)|auto]].
Qed.

Lemma find_by_name_wp n s : good s -> wp (GetFileByName n s) (fun o => forall a, o = Some a -> is_Some (files s !! a)).
Proof.
  intros G. unfold GetFileByName. assert (H : Forall (fun o => forall a, o = Some a -> is_Some (files s !! a)) (m_files s)).
  { apply Forall_lookup. intros i o Hi a ->. apply (g_live _ G (Z.of_nat i)). apply pointer_spec. split; [lia|]. by rewrite Nat2Z.id. }
  induction H as [|o l Ho _ IH]; cbn [find_by_name]; [done|]. destruct o as [a|]; [|done]. destruct (Ho a eq_refl) as [x Hx]. unfold file_at. rewrite Hx. cbn [of_option obind]. destruct (path_eq _ _); [cbn; by intros ? [= <-]|done].
Qed.

Lemma unlink_wp path s : fs_ok s -> wp (posix_unlink host (Some path) s) (served (read_only_path path s) s).
Proof.
  intros Hs. unfold posix_unlink. cbn [of_option obind]. destruct (255 <? _); [apply served_error, Hs|]. apply resolve_wp; [done|]. intros p s1 G _ _. cbn beta iota zeta. fold (read_only_path path s).
  destruct (bool_decide _); [by apply served_error|]. destruct (read_only_path path s); [by apply served_error|]. unfold view. eapply wp_bind; [apply hl_is_directory|]. intros [] _; [by apply served_error|].
  eapply wp_bind; [by apply find_by_name_wp|]. intros [a|] Ha.
  - destruct (Ha a eq_refl) as [x Hx]. unfold file_at. rewrite Hx. cbn. unfold io_unlink. destruct (is_open _); (apply served_done; [done|done|]); [by apply effect_log|apply effect_refl].
  - unfold io_open. destruct (v_open _ _ _) as [e b]. cbn. apply served_done; [done|by destruct b|]. unfold io_unlink. destruct b; cbn; [eapply effect_trans|]; by apply effect_log.
Qed.
Lemma modify_tame ro a g s x : good s -> files s !! a = Some x -> profile (g x) = profile x -> wp (modify a g s) (fun s' => tame s s' /\ files s' !! a = Some (g x) /\ effect ro s s').
Proof.
  intros G Hx Hg. eapply wp_mono; [by apply modify_wp|]. intros s' U. split; [|split; [rewrite U; cbn; by rewrite lookup_insert_eq|by eapply effect_updated]]. split; [by eapply updated_good|]. intros d.
  destruct (g_owned _ G _ _ Hx) as [h Hh]. rewrite (updated_handle _ _ _ _ _ d G Hh U). destruct (decide (d = h)) as [->|]; [|done]. unfold handle. rewrite Hh. cbn. rewrite Hx. cbn. by rewrite Hg.
Qed.

Lemma move_wp src dst s : good s -> wp (move host src dst s) (served false s).
Proof.
  intros G. unfold move. cbn zeta. destruct (negb (v_copy _ _ _)); [done|]. pose proof (good_log (OpCopy src dst) s G) as G1. set (s1 := log _ s) in *.
  assert (H1 : forall res, served false s1 res -> served false s res) by (intros res; apply served_later; [by apply tame_same|by apply effect_log]).
  eapply wp_mono; [|exact H1]. eapply wp_bind; [by apply find_by_name_wp|]. intros [a|] Ha.
  - destruct (Ha a eq_refl) as [x Hx]. unfold file_at. rewrite Hx. cbn [of_option obind]. eapply wp_bind; [by apply (modify_tame false _ _ _ x)|]. intros s2 (T2 & Hx2 & E2). destruct (negb _); [done|].
    unfold open_file, io_open. destruct (v_open _ _ _) as [e b]. eapply (wp_bind _ _ (fun res => served false s1 res)); [|by intros [c s3]].
    eapply wp_bind; [eapply (modify_tame false); [apply good_log, good_log, T2|exact Hx2|done]|]. intros s3 (T3 & _ & E3). cbn. split; cbn.
    + eapply tame_later; [exact T2|]. eapply tame_later; [|exact T3]. apply tame_same; [apply T2|done].
    + eapply effect_trans; [exact E2|]. eapply effect_trans; [by apply effect_log|]. eapply effect_trans; [by apply effect_log|exact E3].
  - destruct (v_remove_all _ _); [|done]. cbn. apply served_done; [done|done|by apply effect_log].
Qed.

Lemma rename_wp from to s : fs_ok s -> wp (posix_rename host from to s) (served (read_only_path from s || read_only_path to s) s).
Proof.
  intros Hs. unfold posix_rename. apply resolve_wp; [done|]. intros src s1 G1 M1 C1. cbn beta iota zeta. fold (read_only_path from s). do 2 (destruct (255 <? _); [by apply served_error|]).
  unfold view at 1. eapply wp_bind; [apply hl_exists|]. intros [] _; [|by apply served_error]. cbn [negb]. destruct (read_only_path from s); [by apply served_error|]. cbn [orb].
  eapply wp_bind; [by apply (GetHostPath_wp host)|]. intros [[dst ro] s2] [C2 ->]. rewrite (mount_of_same _ _ _ M1). fold (read_only_path to s).
  assert (G2 : good s2) by (eapply same_table_good; [by apply cached_table|done]).
  eapply wp_mono; [|intros res; apply served_later; [apply tame_same; [exact G1|by apply (cached_table s1 s2)]|by apply effect_cached]]. destruct (read_only_path to s); [by apply served_error|].
  eapply (wp_bind _ _ (fun _ => True)).
  - unfold rename_refused, view. do 2 (eapply wp_bind; [apply hl_is_directory|]; intros ? _). eapply wp_bind; [apply hl_exists|]. intros e _. destruct (negb e); [done|]. destruct (_ && _); [done|]. destruct (_ && _); [done|].
    destruct (_ : bool); [|done]. eapply wp_bind; [apply hl_is_empty|]. done.
  - intros [e|] _; [by apply served_error|by apply move_wp].
Qed.

Lemma ftruncate_wp dr fd len s : fs_ok s -> wp (posix_ftruncate dr fd len s) (served false s).
Proof.
  intros Hs. unfold posix_ftruncate. rewrite GetFile_spec. cbn [obind]. destruct (pointer fd s) as [a|] eqn:Ea; [|apply served_error, Hs]. destruct (g_live _ (ok_good _ Hs) _ _ Ea) as [x Hx]. unfold file_at. rewrite Hx. cbn [of_option obind].
  destruct (bool_decide _); [destruct (_ <? 0); (apply served_done; [apply Hs|done|]); [apply effect_errno|apply effect_refl]|]. destruct (bool_decide _); [apply served_error, Hs|].
  unfold io_set_size. destruct (is_open _); (apply served_done; [apply Hs|done|]); [by apply effect_log|apply effect_refl].
Qed.

Lemma reach_wp path s : fs_ok s -> wp (sceKernelCheckReachability host path s) (served true s).
Proof.
  intros Hs. unfold sceKernelCheckReachability. assert (Hr : forall c, served true s (c, s)) by (intros c; apply served_done; [apply Hs|done|apply effect_refl]). destruct (255 <? _); [apply Hr|]. destruct (existsb _ _); [apply Hr|].
  apply resolve_wp; [done|]. intros p s1 G _ _. cbn beta iota. unfold view. eapply wp_bind; [apply hl_exists|]. intros e _. cbn. apply served_done; [done|done|apply effect_refl].
Qed.

(** [close] takes the handle away, and only that. *)
Lemma close_wp fd s : fs_ok s -> wp (close fd s) (fun '(r, s') => effect false s s' /\
  ((r = -1 /\ tame s s' /\ ((handle fd s = None /\ fs_errno s' = POSIX_EBADF) \/ (handle fd s <> None /\ fd < 3 /\ fs_errno s' = POSIX_EPERM)))
   \/ (r = ORBIS_OK /\ 3 <= fd /\ good s' /\ handle fd s <> None /\ forall d, handle d s' = if decide (d = fd) then None else handle d s))).
Proof.
  intros Hs. pose proof (ok_good _ Hs) as G. unfold close. rewrite GetFile_spec. cbn [obind]. destruct (pointer fd s) as [a|] eqn:Ea.
  2: { cbn. split; [apply effect_errno|]. left. split; [done|]. split; [by apply tame_same|]. left. split; [by apply pointer_handle|done]. }
  assert (Hne : handle fd s <> None) by (rewrite <- pointer_handle by done; by rewrite Ea).
  destruct (Z.ltb_spec fd 3); [cbn; split; [apply effect_errno|]; left; split; [done|]; split; [by apply tame_same|by right]|].
  destruct (g_live _ G _ _ Ea) as [x Hx]. unfold file_at at 1. rewrite Hx. cbn [of_option obind].
  eapply (wp_bind _ _ (fun s1 => effect false s s1 /\ exists y, files s1 !! a = Some y /\ good s1 /\ (forall d, pointer d s1 = pointer d s) /\ forall d, d <> fd -> handle d s1 = handle d s)).
  - assert (Hid : effect false s s /\ exists y, files s !! a = Some y /\ good s /\ (forall d, pointer d s = pointer d s) /\ forall d, d <> fd -> handle d s = handle d s) by (split; [apply effect_refl|by exists x]).
    destruct (type x) eqn:Et; try done.
    + eapply wp_mono; [by apply modify_wp|]. intros s1 U. split; [by eapply effect_updated|]. eexists. split; [rewrite U; cbn; by rewrite lookup_insert_eq|]. split; [by eapply updated_good|].
      split; [intros d; by apply (updated_pointer _ _ _ _ _ U)|]. intros d Hd. by rewrite (updated_handle _ _ _ _ _ d G Ea U), decide_False.
    + destruct (ok_sockets _ Hs fd x) as [id Hsock]; [unfold handle; by rewrite Ea|done|]. rewrite Hsock. cbn. split; [by apply effect_log|]. exists x. split; [done|]. split; [by apply good_log|done].
  - intros s1 (E1 & y & Hy & G1 & Hp1 & Hh1). eapply wp_bind; [by apply modify_wp|]. intros s2 U2. assert (Ea1 : pointer fd s1 = Some a) by (by rewrite Hp1).
    assert (G2 : good s2) by (by eapply updated_good). eapply wp_bind; [eapply delete_wp; [done|by rewrite (updated_pointer _ _ _ _ _ U2)]|]. intros s3 (G3 & H3 & E3). cbn. split.
    + eapply effect_trans; [exact E1|]. eapply effect_trans; [by eapply effect_updated|by apply effect_table].
    + right. split; [done|]. split; [done|]. split; [done|]. split; [done|]. intros d. rewrite H3. destruct (decide (d = fd)); [done|]. rewrite (updated_handle _ _ _ _ _ d G1 Ea1 U2), decide_False by done. by apply Hh1.
Qed.

(** A handle for another component. *)
Lemma reserve_wp t sock s : fs_ok s -> (t = FileType.Socket -> is_Some sock) -> wp (reserve_handle t sock s) (fun '(h, s') => effect true s s' /\ least_free h s /\ good s'
  /\ (exists x, handle h s' = Some x /\ type x = t /\ socket x = sock) /\ forall d, d <> h -> handle d s' = handle d s).
Proof.
  intros Hs Ht. unfold reserve_handle. destruct (create_handle_spec s (ok_good _ Hs)) as (h & E & L & G' & Hp & Hf & Hr & Es). rewrite E. set (s1 := (CreateHandle s).2) in *. rewrite GetFile_spec. cbn [obind]. rewrite Hp. cbn [obind of_option].
  assert (P : pending s h (next_file s) new_file s1) by (split; [done|done|done|apply L|done]). eapply wp_bind; [by eapply pending_modify|]. intros s2 [P2 U2]. cbn. split; [eapply effect_trans; [by apply effect_table|by eapply effect_updated]|].
  split; [done|]. split; [apply P2|]. split; [eexists; split; [by eapply pending_handle|done]|apply P2].
Qed.

End Calls.

(** ** Histories *)

Inductive FsCall :=
| COpen (path : text) (flags : Z)
| CClose (fd : Z)
| CMkdir (path : text)
| CRmdir (path : text)
| CRename (from to : text)
| CUnlink (path : text)
| CFtruncate (dev_result fd length : Z)
| CReachable (path : text)
| CMount (host_folder guest_folder : text) (ro : bool)
| CUnmount (guest_folder : text)
| CReserve (t : FileType.t) (sock : option Z)
| CRelease (d : Z).

Definition run_fs (host : list HostOp -> HostView) (c : FsCall) (s : FsState) : outcome (Z * FsState) :=
  match c with
  | COpen path flags => open host path flags s
  | CClose fd => close fd s
  | CMkdir path => posix_mkdir host (Some path) s
  | CRmdir path => posix_rmdir host path s
  | CRename from to => posix_rename host from to s
  | CUnlink path => posix_unlink host (Some path) s
  | CFtruncate dr fd len => posix_ftruncate dr fd len s
  | CReachable path => sceKernelCheckReachability host path s
  | CMount h g ro => Done (ORBIS_OK, Mount h g ro s)
  | CUnmount g => Done (ORBIS_OK, Unmount g s)
  | CReserve t sock => reserve_handle t sock s
  | CRelease d => let! s := DeleteHandle d s in Done (ORBIS_OK, s)
  end.

(** Other components give sockets their socket, and release handles that they hold. *)
Definition proper (c : FsCall) (s : FsState) : Prop :=
  match c with CReserve t sock => t = FileType.Socket -> is_Some sock | CRelease d => 3 <= d /\ handle d s <> None | _ => True end.

Inductive fs_reach (host : list HostOp -> HostView) : FsState -> Prop :=
| fr_start s : CreateStdHandles fs_start = Done s -> fs_reach host s
| fr_step s c r s' : fs_reach host s -> proper c s -> run_fs host c s = Done (r, s') -> fs_reach host s'.

Section Histories.
Context (host : list HostOp -> HostView) `{!HostLaws host}.

Lemma ok_of_profiles ro s s' : fs_ok s -> good s' -> effect ro s s' -> mounts_ok s' ->
  (forall d, 0 <= d < 3 -> profile <$> handle d s' = profile <$> handle d s) ->
  (forall d y, handle d s' = Some y -> (exists x, handle d s = Some x /\ profile x = profile y) \/ type y <> FileType.Socket \/ is_Some (socket y)) -> fs_ok s'.
Proof.
  intros [G Hstd Hsock Hc Hm] G' E Hm' H1 H2. split; [done| | |by apply (ef_cache _ _ _ E)|done].
  - intros d Hd. destruct (Hstd d Hd) as (x & Hx & Ht). specialize (H1 d Hd). rewrite Hx in H1. destruct (handle d s') as [y|]; [|done]. injection H1 as E1 _. exists y. split; [done|]. congruence.
  - intros d y Hy Ht. destruct (H2 d y Hy) as [(x & Hx & [= E1 E2])|[?|?]]; [|done|done]. rewrite <- E2. eapply Hsock; [exact Hx|]. congruence.
Qed.

Lemma tame_ok ro s s' : fs_ok s -> tame s s' -> effect ro s s' -> fs_ok s'.
Proof.
  intros Hs [G H] E. eapply ok_of_profiles; [done|done|exact E| |auto|].
  - unfold mounts_ok. rewrite (ef_mounts _ _ _ E). apply Hs.
  - intros d y Hy. left. specialize (H d). rewrite Hy in H. destruct (handle d s) as [x|]; [|done]. apply (inj Some) in H. by exists x.
Qed.
Lemma served_ok ro s res : fs_ok s -> served ro s res -> fs_ok res.2.
Proof. intros Hs [H1 H2]. by eapply tame_ok. Qed.

Lemma least_not_std h s : fs_ok s -> least_free h s -> 3 <= h.
Proof. intros Hs (H0 & Hn & _). destruct (decide (h < 3)); [|lia]. destruct (ok_std _ Hs h) as (x & Hx & _); [lia|congruence]. Qed.

(** One more file, which is not a socket or has one. *)
Lemma file_added_ok ro h x s s' : fs_ok s -> least_free h s -> good s' -> effect ro s s' -> handle h s' = Some x -> (type x = FileType.Socket -> is_Some (socket x)) ->
  (forall d, d <> h -> handle d s' = handle d s) -> fs_ok s'.
Proof.
  intros Hs L G E Hx Ht Hd. pose proof (least_not_std _ _ Hs L). eapply ok_of_profiles; [done|done|exact E|unfold mounts_ok; rewrite (ef_mounts _ _ _ E); apply Hs| |].
  - intros d H3. by rewrite Hd by lia.
  - intros d y Hy. destruct (decide (d = h)) as [->|]; [|left; exists y; by rewrite <- Hd]. right. rewrite Hx in Hy. injection Hy as <-. destruct (decide (type x = FileType.Socket)); auto.
Qed.

(** One file less, and not a standard one. *)
Lemma removed_ok ro fd s s' : fs_ok s -> 3 <= fd -> good s' -> effect ro s s' -> (forall d, handle d s' = if decide (d = fd) then None else handle d s) -> fs_ok s'.
Proof.
  intros Hs H3 G E H. eapply ok_of_profiles; [done|done|exact E|unfold mounts_ok; rewrite (ef_mounts _ _ _ E); apply Hs| |].
  - intros d Hd. by rewrite H, decide_False by lia.
  - intros d y Hy. left. exists y. rewrite H in Hy. by destruct (decide (d = fd)).
Qed.

Lemma mounted_ok s l : fs_ok s -> Forall (fun m => strip_slashes (mount m) = mount m) l -> fs_ok (set_mounts l s).
Proof. intros [G Hstd Hsock Hc Hm] Hl. split; [by apply (same_table_good s)|done|done|done|done]. Qed.

Lemma fs_call_ok c s : fs_ok s -> proper c s -> wp (run_fs host c s) (fun '(_, s') => fs_ok s').
Proof.
  intros Hs Hp. assert (Hserved : forall ro m, wp m (served ro s) -> wp m (fun '(_, s') => fs_ok s')) by (intros ro m H; eapply wp_mono; [exact H|]; intros [r s'] H'; by eapply (served_ok ro s (r, s'))).
  destruct c; cbn [run_fs proper] in *.
  - eapply wp_mono; [by apply open_wp|]. intros [r s'] (h & L & O & E). destruct O as [(_ & G & Hd)|(_ & a & x & P & _ & _ & _ & Ht)].
    + eapply tame_ok; [done| |exact E]. split; [done|]. intros d. by rewrite Hd.
    + eapply file_added_ok; [done|exact L|apply P|exact E|by eapply pending_handle|intros Et; by rewrite Et in Ht|apply P].
  - eapply wp_mono; [by apply close_wp|]. intros [r s'] [E [(_ & T & _)|(_ & H3 & G & _ & H)]]; [by eapply tame_ok|by eapply removed_ok].
  - by eapply Hserved, mkdir_wp.
  - by eapply Hserved, rmdir_wp.
  - by eapply Hserved, rename_wp.
  - by eapply Hserved, unlink_wp.
  - by eapply Hserved, ftruncate_wp.
  - by eapply Hserved, reach_wp.
  - apply mounted_ok; [done|]. apply Forall_app. split; [apply Hs|]. apply Forall_singleton. apply strip_strip.
  - apply mounted_ok; [done|]. apply Forall_forall. intros m [_ Hm]%list_elem_of_filter. pose proof (ok_mounts _ Hs) as H. unfold mounts_ok in H. rewrite Forall_forall in H. by apply H.
  - eapply wp_mono; [by apply reserve_wp|]. intros [h s'] (E & L & G & (x & Hx & Et & Es) & Hd). eapply file_added_ok; [done|exact L|done|exact E|exact Hx| |done]. intros Ht. rewrite Es. apply Hp. congruence.
  - destruct Hp as [H3 Hn]. destruct (pointer d s) as [a|] eqn:Ea; [|by apply pointer_handle in Ea; [|apply Hs]]. eapply wp_bind; [eapply delete_wp; [apply Hs|done]|]. intros s' (G & H & E).
    eapply (removed_ok true); [done|exact H3|done|by apply effect_table|done].
Qed.

Definition std_file (path name : string) : File := mkFile true FileType.Device [] (text_of path) (mkIo [] FileAccessMode.Read false) None (Some (Logger name)) None.
Definition std_state : FsState :=
  mkFs (<[1 := std_file "/dev/stdin" "stdin"]> (<[2 := std_file "/dev/stdout" "stdout"]> {[3 := std_file "/dev/stderr" "stderr"]})) 4 [Some 1; Some 2; Some 3] [] ∅ false [] 0.

Lemma std_pointer d a : pointer d std_state = Some a -> 0 <= d < 3 /\ a = d + 1.
Proof. intros [H0 H]%pointer_spec. cbn in H. destruct (Z.to_nat d) as [|[|[|n]]] eqn:E; cbn in H; try done; injection H as <-; lia. Qed.

Lemma std_files a x : files std_state !! a = Some x -> 0 <= a - 1 < 3 /\ type x = FileType.Device.
Proof. cbn. intros [[<- <-]|[_ [[<- <-]|[_ [<- <-]%lookup_singleton_Some]]%lookup_insert_Some]]%lookup_insert_Some; split; (lia || done). Qed.

Lemma std_handle d : 0 <= d < 3 -> pointer d std_state = Some (d + 1) /\ is_Some (files std_state !! (d + 1)).
Proof. intros Hd. assert (d = 0 \/ d = 1 \/ d = 2) as [-> | [-> | ->]] by lia; (split; [done|by eexists]). Qed.

Lemma start_ok s : CreateStdHandles fs_start = Done s -> fs_ok s.
Proof.
  assert (E : CreateStdHandles fs_start = Done std_state) by (vm_compute; reflexivity). rewrite E. intros [= <-]. split; [split| | |by intros k v|apply Forall_nil_2].
  - intros d a [Hd ->]%std_pointer. by apply std_handle.
  - intros a x [Ha _]%std_files. exists (a - 1). destruct (std_handle (a - 1) Ha) as [-> _]. f_equal. lia.
  - intros d e a [_ ->]%std_pointer [_ H]%std_pointer. lia.
  - intros a x [Ha _]%std_files. cbn. lia.
  - intros d Hd. destruct (std_handle d Hd) as [Hp [x Hx]]. exists x. unfold handle. rewrite Hp. cbn [mbind option_bind]. split; [done|]. by apply std_files in Hx as [_ ?].
  - intros d x Hx Ht. unfold handle in Hx. destruct (pointer d std_state) as [a|]; [|done]. apply std_files in Hx as [_ ?]. congruence.
Qed.

Lemma fs_reach_ok s : fs_reach host s -> fs_ok s.
Proof.
  induction 1 as [s E|s c r s' _ IH Hp E]; [by apply start_ok|]. pose proof (fs_call_ok c s IH Hp) as H. by rewrite E in H.
Qed.

(** ** Properties *)

Lemma descriptor_of d a s : good s -> pointer d s = Some a -> GetFileDescriptor a s = d.
Proof.
  intros G Hp. unfold GetFileDescriptor. pose proof Hp as [H0 Hl]%pointer_spec. destruct (list_find _ (m_files s)) as [[i y]|] eqn:E.
  - apply list_find_Some in E as (E & -> & _). apply (g_inj _ G _ _ a); [|done]. apply pointer_spec. split; [lia|]. by rewrite Nat2Z.id.
  - apply list_find_None in E. rewrite Forall_lookup in E. by destruct (E _ _ Hl).
Qed.

(** A lookup that yields the file of a handle if it has the type [t]. *)
Definition finds (get : Z -> FsState -> outcome (option Z)) (t : FileType.t) (d : Z) (s : FsState) : Prop :=
  exists o, get d s = Done o /\ forall a, o = Some a <-> GetFile d s = Done (Some a) /\ exists x, handle d s = Some x /\ type x = t.

Lemma finds_of_pointer (get : Z -> FsState -> outcome (option Z)) t d s : good s ->
  match pointer d s with
  | Some a => forall x, files s !! a = Some x -> get d s = Done (if bool_decide (type x = t) then Some a else None)
  | None => get d s = Done None
  end -> finds get t d s.
Proof.
  intros G H. unfold finds. rewrite GetFile_spec. unfold handle. destruct (pointer d s) as [a|] eqn:Ea; cbn.
  - destruct (g_live _ G _ _ Ea) as [x Hx]. eexists. split; [by apply H|]. intros b. rewrite Hx. case_bool_decide; naive_solver.
  - eexists. split; [done|]. naive_solver.
Qed.

Lemma in_table_pointer d a s : pointer d s = Some a -> in_table d s = true.
Proof. intros [H0 Hl%lookup_lt_Some]%pointer_spec. unfold in_table. apply andb_true_iff. split; [apply Z.leb_le|apply Z.ltb_lt]; lia. Qed.

Lemma GetSocket_finds d s : good s -> finds GetSocket FileType.Socket d s.
Proof.
  intros G. apply finds_of_pointer; [done|]. pose proof (GetFile_spec d s) as Hg. unfold GetFile in Hg. unfold GetSocket.
  destruct (pointer d s) as [a|] eqn:Ea.
  - rewrite (in_table_pointer d a s Ea) in *. intros x Hx. rewrite Hg. cbn. unfold file_at. by rewrite Hx.
  - destruct (in_table d s); [|done]. by rewrite Hg.
Qed.

Lemma GetTyped_finds t d s : good s ->
  if decide (in_table d s = true /\ handle d s = None) then GetTyped t d s = Raised Undefined else finds (GetTyped t) t d s.
Proof.
  intros G. pose proof (GetFile_spec d s) as Hg. unfold GetFile in Hg. case_decide as Hd.
  - destruct Hd as [Ht Hn]. apply pointer_handle in Hn; [|done]. unfold GetTyped. rewrite Ht in *. by rewrite Hg, Hn.
  - apply finds_of_pointer; [done|]. unfold GetTyped. destruct (pointer d s) as [a|] eqn:Ea.
    + rewrite (in_table_pointer d a s Ea) in *. intros x Hx. rewrite Hg. cbn. unfold file_at. by rewrite Hx.
    + destruct (in_table d s); [|done]. destruct Hd. split; [done|]. by apply pointer_handle.
Qed.

(** C21: over every history of calls the table of handles is a finite map from handles
    to files, each its own: a new handle is the least free one and names a fresh file;
    deleting takes one away; [GetFile], [GetFileDescriptor] and [GetSocket] agree with
    the map on every handle; [GetEpoll] and [GetResolver] agree with it on handles
    that are open or were never given out, and dereference null on one that was
    closed; and the three standard handles always name devices. *)
Theorem handle_table_refines s : fs_reach host s ->
  (exists h s', CreateHandle s = (h, s') /\ least_free h s /\ forall d, handle d s' = if decide (d = h) then Some new_file else handle d s)
  /\ (forall d, handle d s <> None -> exists s', DeleteHandle d s = Done s' /\ forall e, handle e s' = if decide (e = d) then None else handle e s)
  /\ (forall d, exists o, GetFile d s = Done o /\ match o with Some a => files s !! a = handle d s /\ handle d s <> None /\ GetFileDescriptor a s = d | None => handle d s = None end)
  /\ (forall d, finds GetSocket FileType.Socket d s)
  /\ (forall d, if decide (in_table d s = true /\ handle d s = None) then GetEpoll d s = Raised Undefined /\ GetResolver d s = Raised Undefined
       else finds GetEpoll FileType.Epoll d s /\ finds GetResolver FileType.Resolver d s)
  /\ forall d, 0 <= d < 3 -> exists x, handle d s = Some x /\ type x = FileType.Device.
Proof.
  intros Hr%fs_reach_ok. pose proof (ok_good _ Hr) as G. split_and!.
  - destruct (create_handle_spec s G) as (h & E & L & G' & Hp & Hf & Hd & _). exists h, (CreateHandle s).2. split; [done|]. split; [done|]. intros d. destruct (decide (d = h)) as [->|]; [|auto]. unfold handle. by rewrite Hp.
  - intros d Hd. destruct (pointer d s) as [a|] eqn:Ea; [|by apply pointer_handle in Ea]. pose proof (delete_wp d a s G Ea) as H. pose proof Ea as [H0 Hl]%pointer_spec. destruct (DeleteHandle d s) as [s'|e] eqn:E; [exists s'; split; [done|apply H]|].
    exfalso. unfold DeleteHandle in E. rewrite at_pointer in E by (apply lookup_lt_Some in Hl; lia). rewrite Ea in E. cbn [obind] in E. unfold file_at in E. destruct (g_live _ G _ _ Ea) as [x Hx]. by rewrite Hx in E.
  - intros d. exists (pointer d s). split; [apply GetFile_spec|]. destruct (pointer d s) as [a|] eqn:Ea; [|by apply pointer_handle]. split; [unfold handle; by rewrite Ea|]. split; [rewrite <- pointer_handle by done; by rewrite Ea|by apply descriptor_of].
  - intros d. by apply GetSocket_finds.
  - intros d. pose proof (GetTyped_finds FileType.Epoll d s G). pose proof (GetTyped_finds FileType.Resolver d s G). by case_decide.
  - apply Hr.
Qed.

(** C22: [open]: it always ends, at worst in an exception of the host's file system; if
    it fails, the table is as before; if it succeeds, the handle is the least free one
    and names an open file with the guest's path, a regular file with the access the
    flags ask for and with no more than reading below a read-only mount; no other
    handle changes. *)
Theorem open_exact path flags s : fs_reach host s ->
  match open host path flags s with
  | Done (r, s') =>
      (r = -1 /\ forall d, handle d s' = handle d s)
      \/ (least_free r s /\ (forall d, d <> r -> handle d s' = handle d s) /\ exists x, handle r s' = Some x /\ is_opened x = true /\ m_guest_name x = path
          /\ (type x = FileType.Regular -> open_mode flags (read_only_path path s) = Some (file_access_mode (f x)) /\ file_path (f x) = m_host_name x
              /\ (read_only_path path s = true -> file_access_mode (f x) = FileAccessMode.Read)))
  | Raised e => e = Uncaught
  end.
Proof.
  intros Hr%fs_reach_ok. pose proof (open_wp host path flags s Hr) as H. destruct (open host path flags s) as [[r s']|]; [|done]. destruct H as (h & L & [(-> & _ & H)|(-> & a & x & P & Ho & Hg & Hm & _)] & _); [by left|right].
  split; [done|]. split; [apply P|]. exists x. split; [by eapply pending_handle|]. split; [done|]. split; [done|]. intros Ht. destruct (Hm Ht) as [E1 E2]. split; [done|]. split; [done|]. intros Hro. rewrite Hro in E1.
  unfold open_mode in E1. destruct (_ =? _); [by injection E1|done].
Qed.

(** The guest paths a call is about. *)
Definition paths_of (c : FsCall) : list text :=
  match c with COpen path _ | CMkdir path | CRmdir path | CUnlink path => [path] | CRename from to => [from; to] | _ => [] end.

(** C23: nothing is written below a read-only mount: a call about a path of such a
    mount has the host open files for reading at most; it creates, truncates, moves
    and removes nothing, and neither does a rename of which only one end is
    read-only. *)
Theorem read_only_untouched c s r s' path : fs_reach host s -> path ∈ paths_of c -> read_only_path path s = true -> run_fs host c s = Done (r, s') ->
  exists l, host_ops s' = host_ops s ++ l /\ Forall reading l.
Proof.
  intros Hr%fs_reach_ok Hin Hro E. assert (Hs : forall m ro, ro = true -> m = Done (r, s') -> wp m (served ro s) -> exists l, host_ops s' = host_ops s ++ l /\ Forall reading l).
  { intros m ro -> -> [_ [_ _ _ (l & E1 & E2)]]. exists l. auto. }
  destruct c; cbn [paths_of run_fs] in *; try (by apply not_elem_of_nil in Hin).
  - apply list_elem_of_singleton in Hin as <-. pose proof (open_wp host path flags s Hr) as H. rewrite E in H. destruct H as (_ & _ & _ & [_ _ _ (l & E1 & E2)]). exists l. auto.
  - apply list_elem_of_singleton in Hin as <-. by eapply Hs, mkdir_wp.
  - apply list_elem_of_singleton in Hin as <-. by eapply Hs, rmdir_wp.
  - eapply Hs; [|exact E|by apply rename_wp]. apply orb_true_iff. rewrite !elem_of_cons in Hin. destruct Hin as [->|[->|[]%not_elem_of_nil]]; auto.
  - apply list_elem_of_singleton in Hin as <-. by eapply Hs, unlink_wp.
Qed.
End Histories.

(** ** Listing a directory *)

(** The host reports the entries [l] of the folder [p], none twice, and of the names
    in [known] those exist in the folder that are among them. *)
Record has_entries (v : HostView) (known : list text) (p : text) (l : list text) : Prop := {
  he_exists n : n ∈ known -> v_exists v (path_append p n) = Done (bool_decide (n ∈ l));
  he_list : list_if_exists v p = Done l;
  he_nodup : NoDup l }.

Section Listing.
Context (v : HostView) (base patch mods : text) (l1 l2 l3 : list text) (is_dir : text -> bool).
(** The names one of the three folders has. *)
Let known : list text := l1 ++ l2 ++ l3.
Context (H1 : has_entries v known base l1) (H2 : has_entries v known patch l2) (H3 : has_entries v known mods l3).
Context (Hd : forall p n, p ∈ [base; patch; mods] -> n ∈ known -> v_is_directory v (path_append p n) = Done (is_dir (path_append p n))).

(** Where the entry [n] comes from: the modifications, the update or the title. *)
Definition home (n : text) : text := if bool_decide (n ∈ l3) then mods else if bool_decide (n ∈ l2) then patch else base.
Definition entry_of (n : text) : text * bool := (path_append (home n) n, negb (is_dir (path_append (home n) n))).

Lemma dir_entry_done p n : p ∈ [base; patch; mods] -> n ∈ known -> dir_entry v (path_append p n) = Done (path_append p n, negb (is_dir (path_append p n))).
Proof. intros Hp Hn. unfold dir_entry. by rewrite Hd. Qed.

Lemma collect_filter pick (keep : text -> bool) l : Forall (fun n => pick n = Done (if keep n then Some (entry_of n) else None)) l ->
  collect_entries pick l = Done (entry_of <$> filter (fun n => keep n = true) l).
Proof.
  induction 1 as [|n l E _ IH]; [done|]. cbn [collect_entries]. rewrite E. cbn [obind]. rewrite IH. cbn [obind]. destruct (keep n) eqn:Ek; [by rewrite filter_cons_True|rewrite filter_cons_False by congruence; done].
Qed.

Lemma pick_base_done n : n ∈ l1 -> pick_base v base patch mods n = Done (Some (entry_of n)).
Proof.
  intros Hn. assert (Hk : n ∈ known) by set_solver. unfold pick_base. rewrite (he_exists _ _ _ _ H3 n Hk), (he_exists _ _ _ _ H2 n Hk). cbn [obind]. unfold entry_of, home. rewrite !dir_entry_done by set_solver. cbn [obind]. by destruct (bool_decide (n ∈ l3)), (bool_decide (n ∈ l2)).
Qed.

Lemma pick_patch_done n : n ∈ l2 -> pick_patch v base patch mods n = Done (if negb (bool_decide (n ∈ l1)) then Some (entry_of n) else None).
Proof.
  intros Hn. assert (Hk : n ∈ known) by set_solver. unfold pick_patch. rewrite (he_exists _ _ _ _ H1 n Hk), (he_exists _ _ _ _ H3 n Hk). cbn [obind]. destruct (bool_decide (n ∈ l1)); [done|]. rewrite dir_entry_done by (destruct (bool_decide (n ∈ l3)); set_solver). cbn [obind negb]. unfold entry_of, home.
  rewrite (bool_decide_true (n ∈ l2)) by done. by destruct (bool_decide (n ∈ l3)).
Qed.

Lemma pick_mods_done n : n ∈ l3 -> pick_mods v base patch mods n = Done (if negb (bool_decide (n ∈ l1)) && negb (bool_decide (n ∈ l2)) then Some (entry_of n) else None).
Proof.
  intros Hn. assert (Hk : n ∈ known) by set_solver. unfold pick_mods. rewrite (he_exists _ _ _ _ H1 n Hk), (he_exists _ _ _ _ H2 n Hk). cbn [obind]. destruct (bool_decide (n ∈ l1)); [done|]. destruct (bool_decide (n ∈ l2)); [done|]. rewrite dir_entry_done by set_solver. cbn [obind negb andb].
  unfold entry_of, home. by rewrite (bool_decide_true (n ∈ l3)) by done.
Qed.

(** The names in the order of the three passes. *)
Definition merged : list text := l1 ++ filter (fun n => negb (bool_decide (n ∈ l1)) = true) l2 ++ filter (fun n => negb (bool_decide (n ∈ l1)) && negb (bool_decide (n ∈ l2)) = true) l3.

Lemma merge_done : merge_entries v base patch mods = Done (entry_of <$> merged).
Proof.
  assert (Hall : forall l (pick : text -> outcome (option (text * bool))) (keep : text -> bool), (forall n, n ∈ l -> pick n = Done (if keep n then Some (entry_of n) else None)) ->
    collect_entries pick l = Done (entry_of <$> filter (fun n => keep n = true) l)).
  { intros l pick keep Hk. apply collect_filter. apply Forall_forall. auto. }
  unfold merge_entries. rewrite (he_list _ _ _ _ H1), (he_list _ _ _ _ H2), (he_list _ _ _ _ H3). cbn [obind].
  rewrite (Hall l1 _ (fun _ => true) pick_base_done). cbn [obind]. rewrite (Hall l2 _ _ pick_patch_done). cbn [obind]. rewrite (Hall l3 _ _ pick_mods_done). cbn [obind].
  unfold merged. rewrite !fmap_app. do 3 f_equal. clear. induction l1 as [|n l IH]; [done|]. rewrite filter_cons_True by done. by f_equal.
Qed.

Lemma elem_of_merged n : n ∈ merged <-> n ∈ l1 \/ n ∈ l2 \/ n ∈ l3.
Proof.
  unfold merged. rewrite !elem_of_app, !list_elem_of_filter, andb_true_iff, !negb_true_iff, !bool_decide_eq_false. destruct (decide (n ∈ l1)), (decide (n ∈ l2)); naive_solver.
Qed.

Lemma NoDup_merged : NoDup merged.
Proof.
  unfold merged. apply NoDup_app. split; [apply H1|]. split.
  - intros n Hn [Hf|Hf]%elem_of_app; apply list_elem_of_filter in Hf as [Hf _]; rewrite (bool_decide_true (n ∈ l1)) in Hf by done; done.
  - apply NoDup_app. split; [apply NoDup_filter, H2|]. split; [|apply NoDup_filter, H3].
    intros n [_ Hn]%list_elem_of_filter [Hf _]%list_elem_of_filter. rewrite (bool_decide_true (n ∈ l2)), andb_false_r in Hf by done. done.
Qed.
End Listing.

(** C25: listing a directory merges its three folders: besides [.] and [..] each name
    that one of them has is reported exactly once, with the path in the modifications
    if it is there, else in the update, else in the title, and whether that is a
    file.  What the host says must agree: of the names it lists in one of the folders,
    those exist in a folder that it lists there, and it can tell directories from
    files. *)
Theorem IterateDirectory_merges host guest s base patch mods r1 r2 r3 s1 s2 s3 l1 l2 l3 is_dir :
  GetHostPath host guest HostPathType.Base s = Done (base, r1, s1) -> GetHostPath host guest HostPathType.Patch s1 = Done (patch, r2, s2) -> GetHostPath host guest HostPathType.Mod s2 = Done (mods, r3, s3) ->
  let known := l1 ++ l2 ++ l3 in
  has_entries (view host s3) known base l1 -> has_entries (view host s3) known patch l2 -> has_entries (view host s3) known mods l3 ->
  (forall p n, p ∈ [base; patch; mods] -> n ∈ known -> v_is_directory (view host s3) (path_append p n) = Done (is_dir (path_append p n))) ->
  exists names, IterateDirectory host guest s = Done ((path_append base (text_of "."), false) :: (path_append base (text_of ".."), false) :: (entry_of base patch mods l2 l3 is_dir <$> names), s3)
  /\ NoDup names /\ forall n, n ∈ names <-> n ∈ l1 \/ n ∈ l2 \/ n ∈ l3.
Proof.
  intros E1 E2 E3 known H1 H2 H3 Hd. exists (merged l1 l2 l3). split; [|split; [by eapply NoDup_merged|intros n; apply elem_of_merged]].
  unfold IterateDirectory. rewrite E1. cbn [obind]. rewrite E2. cbn [obind]. rewrite E3. cbn [obind]. by erewrite merge_done.
Qed.

(** ** Event queues and their handles

    An event queue is named by a handle of the table.  The two components run
    together: a queue is created with a handle reserved for it, and its deletion
    releases the handle.  The rest of the program closes and releases no handle of a
    queue. *)

Definition is_queue (d : Z) (s : FsState) : Prop := exists x, handle d s = Some x /\ type x = FileType.Equeue.

Definition spares_queues (c : FsCall) (s : FsState) : Prop :=
  match c with CClose fd => ~ is_queue fd s | CReserve t _ => t <> FileType.Equeue | CRelease d => ~ is_queue d s | _ => True end.

Inductive joint_step (host : list HostOp -> HostView) (s : FsState) (e : EqState) : FsState -> EqState -> Prop :=
| js_files c r s' : proper c s -> spares_queues c s -> run_fs host c s = Done (r, s') -> joint_step host s e s' e
| js_create q h s' r e' : q = CKqueue h \/ (exists name, q = CCreate h false (Some name) /\ Z.of_nat (String.length name) <= 32) -> Z.of_nat (length (m_files s)) < 2147483648 ->
    reserve_handle FileType.Equeue None s = Done (h, s') -> run_eq q e = Done (r, e') -> joint_step host s e s' e'
| js_delete eq s' r e' : GetEqueue eq e <> None -> DeleteHandle (s32 eq) s = Done s' -> run_eq (CDelete eq) e = Done (r, e') -> joint_step host s e s' e'
| js_queues e' : eq_step names_no_queue e e' -> joint_step host s e s e'.

Inductive joint_reach (host : list HostOp -> HostView) : FsState -> EqState -> Prop :=
| jr_start s now : CreateStdHandles fs_start = Done s -> joint_reach host s (eq_start now)
| jr_step s e s' e' : joint_reach host s e -> joint_step host s e s' e' -> joint_reach host s' e'.

Section Joint.
Context (host : list HostOp -> HostView) `{!HostLaws host}.

Lemma tame_queue s s' d : tame s s' -> is_queue d s' <-> is_queue d s.
Proof.
  intros [_ H]. specialize (H d). unfold is_queue. destruct (handle d s) as [x|], (handle d s') as [y|]; try done. apply (inj Some) in H. injection H as E _. split; intros (z & [= <-] & Hz); eexists; (split; [done|congruence]).
Qed.

Lemma handle_queue d s s' : handle d s' = handle d s -> is_queue d s' <-> is_queue d s.
Proof. intros E. unfold is_queue. by rewrite E. Qed.

(** The calls of the file system neither make nor unmake a queue's handle. *)
Lemma call_spares c s : fs_ok s -> proper c s -> spares_queues c s -> wp (run_fs host c s) (fun '(_, s') => forall d, is_queue d s' <-> is_queue d s).
Proof.
  intros Hs Hp Hq. assert (Hserved : forall ro m, wp m (served ro s) -> wp m (fun '(_, s') => forall d, is_queue d s' <-> is_queue d s)) by (intros ro m H; eapply wp_mono; [exact H|]; intros [r s'] [T _] d; by apply tame_queue).
  destruct c; cbn [run_fs proper spares_queues] in *; try done.
  - eapply wp_mono; [by apply open_wp|]. intros [r s'] (h & L & O & _) d. destruct O as [(_ & G & Hd)|(_ & a & x & P & _ & _ & _ & Ht)]; [by apply handle_queue|]. destruct (decide (d = h)) as [->|]; [|by apply handle_queue, P].
    split; intros (y & Hy & Et); [rewrite (pending_handle _ _ _ _ _ P) in Hy; injection Hy as <-; by rewrite Et in Ht|destruct L as (_ & ? & _); congruence].
  - eapply wp_mono; [by apply close_wp|]. intros [r s'] [_ [(_ & T & _)|(_ & _ & _ & _ & H)]] d; [by apply tame_queue|]. specialize (H d). destruct (decide (d = fd)) as [->|]; [|by apply handle_queue]. split; [intros (y & Hy & _); congruence|done].
  - by eapply Hserved, mkdir_wp.
  - by eapply Hserved, rmdir_wp.
  - by eapply Hserved, rename_wp.
  - by eapply Hserved, unlink_wp.
  - by eapply Hserved, ftruncate_wp.
  - by eapply Hserved, reach_wp.
  - eapply wp_mono; [by apply reserve_wp|]. intros [h s'] (_ & L & _ & (x & Hx & Et & _) & Hd) d. destruct (decide (d = h)) as [->|]; [|by apply handle_queue, Hd].
    split; intros (y & Hy & Ey); [congruence|destruct L as (_ & ? & _); congruence].
  - destruct Hp as [H3 Hn]. destruct (pointer d s) as [a|] eqn:Ea; [|by apply pointer_handle in Ea; [|apply Hs]]. eapply wp_bind; [eapply delete_wp; [apply Hs|done]|]. intros s' (G & H & E) d'. specialize (H d').
    destruct (decide (d' = d)) as [->|]; [|by apply handle_queue]. split; [intros (y & Hy & _); congruence|done].
Qed.

Lemma least_bound h s : good s -> least_free h s -> h <= Z.of_nat (length (m_files s)).
Proof.
  intros G (H0 & Hn & Hl). destruct (decide (h <= Z.of_nat (length (m_files s)))); [done|]. destruct (Hl (Z.of_nat (length (m_files s)))); [lia|]. apply pointer_handle; [done|].
  unfold pointer. by rewrite (proj2 (Z.leb_le 0 _)), lookup_ge_None_2 by lia.
Qed.

(** The names of the queues are the handles of type [Equeue]. *)
Record joint_ok (s : FsState) (e : EqState) : Prop := {
  jo_fs : fs_ok s;
  jo_eq : eq_reach any_call e;
  jo_names d : is_Some (kqueues e !! d) <-> is_queue d s }.

Lemma joint_create s e q h s' r e' : joint_ok s e -> q = CKqueue h \/ (exists name, q = CCreate h false (Some name) /\ Z.of_nat (String.length name) <= 32) -> Z.of_nat (length (m_files s)) < 2147483648 ->
  reserve_handle FileType.Equeue None s = Done (h, s') -> run_eq q e = Done (r, e') -> joint_ok s' e'.
Proof.
  intros [Hs He Hn] Hq Hlen Er Ee. pose proof (reserve_wp FileType.Equeue None s Hs ltac:(done)) as H. rewrite Er in H. destruct H as (E & L & G & (x & Hx & Et & Esock) & Hd).
  pose proof (least_bound _ _ (ok_good _ Hs) L) as Hb. assert (Eh : s32 h = h) by (apply s32_small; destruct L; lia).
  assert (Hfree : kqueues e !! h = None).
  { destruct (kqueues e !! h) eqn:Ek; [|done]. destruct (proj1 (Hn h)) as (y & Hy & _); [by rewrite Ek|]. destruct L as (_ & ? & _). congruence. }
  assert (Hnames : kqueues e' = <[h := next_obj e]> (kqueues e) /\ fresh_handle q e).
  { destruct Hq as [->|(name & -> & Hl)]; cbn [run_eq fresh_handle] in *; rewrite Eh; (split; [|done]).
    - injection Ee as _ <-. cbn. by rewrite Eh.
    - unfold sceKernelCreateEqueue in Ee. rewrite (proj2 (Z.ltb_ge 32 _)) in Ee by lia. injection Ee as _ <-. cbn. by rewrite Eh. }
  destruct Hnames as [Ek Hf]. split.
  - eapply (file_added_ok true); [exact Hs|exact L|done|exact E|exact Hx|by rewrite Et|done].
  - eapply er_step; [exact He|]. by eapply es_call.
  - intros d. rewrite Ek. destruct (decide (d = h)) as [->|Hne]; [rewrite lookup_insert_eq; split; [intros _; by exists x|by eexists]|]. rewrite lookup_insert_ne by done. rewrite Hn. symmetry. by apply handle_queue, Hd.
Qed.

Lemma joint_delete s e eq s' r e' : joint_ok s e -> GetEqueue eq e <> None -> DeleteHandle (s32 eq) s = Done s' -> run_eq (CDelete eq) e = Done (r, e') -> joint_ok s' e'.
Proof.
  intros [Hs He Hn] Hq Ed Ee. unfold GetEqueue in Hq. destruct (kqueues e !! s32 eq) as [o|] eqn:Eo; [|done]. destruct (proj1 (Hn (s32 eq))) as (x & Hx & Ht); [by rewrite Eo|].
  assert (Hp : exists a, pointer (s32 eq) s = Some a) by (unfold handle in Hx; destruct (pointer (s32 eq) s) as [a|]; [by exists a|done]). destruct Hp as [a Ha].
  pose proof (delete_wp _ _ _ (ok_good _ Hs) Ha) as H. rewrite Ed in H. destruct H as (G & Hd & E).
  assert (H3 : 3 <= s32 eq).
  { pose proof Ha as [H0 _]%pointer_spec. destruct (decide (s32 eq < 3)); [|lia]. destruct (ok_std _ Hs (s32 eq)) as (y & Hy & Ey); [lia|]. congruence. }
  assert (Ek : kqueues e' = delete (s32 eq) (kqueues e)).
  { cbn [run_eq] in Ee. unfold sceKernelDeleteEqueue, GetEqueue in Ee. rewrite Eo in Ee. destruct (deref o e) as [q|]; [|done]. injection Ee as _ <-. cbn. by rewrite kept_cancel. }
  split.
  - eapply (removed_ok true); [exact Hs|exact H3|done|by apply effect_table|done].
  - eapply er_step; [exact He|]. eapply (es_call _ _ (CDelete eq)); [done|done|exact Ee].
  - intros d. rewrite Ek. destruct (decide (d = s32 eq)) as [->|Hne].
    + rewrite lookup_delete_eq. split; [by intros []|]. intros (y & Hy & _). by rewrite Hd, decide_True in Hy.
    + rewrite lookup_delete_ne by done. rewrite Hn. symmetry. apply handle_queue. by rewrite Hd, decide_False.
Qed.

Lemma queues_step e e' : eq_step names_no_queue e e' -> eq_step any_call e e' /\ kqueues e' = kqueues e.
Proof.
  intros [c r e1 Hok Hf E|order i r e1 E|pick i w e1 Hl Hdue E|i w Hl Hlive|d Hd].
  - split; [by eapply es_call|]. pose proof (call_keeps c e Hok) as H. by rewrite E in H.
  - split; [by eapply es_advance|]. pose proof (advance_keeps order i e) as H. by rewrite E in H.
  - split; [by eapply es_fire|]. pose proof (fire_keeps pick i e) as H. by rewrite E in H.
  - split; [by eapply es_drop|done].
  - split; [by apply es_tick|done].
Qed.

Lemma joint_reach_ok s e : joint_reach host s e -> joint_ok s e.
Proof.
  induction 1 as [s now E|s e s' e' _ IH Hst].
  - pose proof (start_ok _ E) as Hs. split; [done|apply er_start|]. intros d. cbn. rewrite lookup_empty. split; [by intros []|]. intros (x & Hx & Et). exfalso.
    assert (E' : CreateStdHandles fs_start = Done std_state) by (vm_compute; reflexivity). rewrite E' in E. injection E as <-. unfold handle in Hx. destruct (pointer d std_state) as [a|]; [|done]. apply std_files in Hx as [_ ?]. congruence.
  - destruct Hst as [c r s' Hp Hq E|q h s' r e' Hq Hlen Er Ee|eq s' r e' Hq Ed Ee|e' Hst].
    + pose proof (fs_call_ok host c s (jo_fs _ _ IH) Hp) as H1. pose proof (call_spares c s (jo_fs _ _ IH) Hp Hq) as H2. rewrite E in H1, H2. change (forall d, is_queue d s' <-> is_queue d s) in H2. split; [done|apply IH|]. intros d. rewrite H2. apply IH.
    + by eapply joint_create.
    + by eapply joint_delete.
    + destruct (queues_step _ _ Hst) as [Hst' Ek]. split; [apply IH|eapply er_step; [apply IH|done]|]. intros d. rewrite Ek. apply IH.
Qed.

(** C26: the table of handles keeps the promise the event queues rely on.  In every
    joint history in which queues get their handles from the table and no call but the
    deletion of the queue closes or releases a queue's handle - the guest does not
    [close] the handle of a queue, see [closed_queue_deletes_file] - the state of
    the queues is one that calls with fresh handles reach, so that what is proved of
    those holds; and a queue has a name exactly as long as its handle is of type
    [Equeue]. *)
Theorem queue_handles_fresh s e : joint_reach host s e -> eq_reach any_call e /\ forall d, is_Some (kqueues e !! d) <-> is_queue d s.
Proof. intros H%joint_reach_ok. split; apply H. Qed.
End Joint.

(** ** A host, and histories on it *)

Definition demo_dirs : list text := text_of <$> ["/"; "/g"; "/g/game"; "/g/save"; "/etc"]%string.
Definition demo_files : list text := text_of <$> ["/g/game/eboot.bin"; "/g/game/Data.bin"; "/etc/passwd"; "game/eboot.bin"]%string.

Definition found_in (p : text) (l : list text) : bool := existsb (path_eq p) l.
Definition children (p : text) : list text :=
  omap (fun q => if negb (forallb (Z.eqb SLASH) q) && path_eq (parent_path q) p then Some (filename q) else None) (demo_dirs ++ demo_files).

(** Directories and files that stay as they are. *)
Definition demo_host (ops : list HostOp) : HostView :=
  mkView (fun p => Done (forallb (Z.eqb SLASH) p && negb (bool_decide (p = [])) || found_in p (demo_dirs ++ demo_files))) (fun p => Done (found_in p demo_dirs)) (fun p => Done (bool_decide (children p = [])))
    (fun p => if found_in p demo_dirs then Done (children p) else Raised Uncaught) (fun p m => if found_in p demo_files then (0, true) else (2, false)) (fun _ => true) (fun _ => true) (fun _ => true) (fun _ _ => true).

#[export] Instance demo_host_laws : HostLaws demo_host.
Proof.
  split; try done.
  - intros ops p. unfold demo_host. cbn [v_list]. by destruct (found_in p demo_dirs).
  - intros ops p Hp Ha. unfold demo_host. cbn [v_exists]. by rewrite Ha, bool_decide_false.
Qed.

Fixpoint fs_history (calls : list FsCall) (s : FsState) : FsState :=
  match calls with
  | [] => s
  | c :: calls => match run_fs demo_host c s with Done (_, s) => fs_history calls s | Raised _ => s end
  end.

Lemma fs_history_reach calls : forall s, fs_reach demo_host s -> Forall (fun c => forall s, proper c s) calls -> fs_reach demo_host (fs_history calls s).
Proof.
  induction calls as [|c calls IH]; intros s Hr Hp; cbn [fs_history]; [done|]. apply Forall_cons in Hp as [Hc Hp]. destruct (run_fs demo_host c s) as [[r s']|] eqn:E; [|done]. apply IH; [|done]. eapply fr_step; [exact Hr|apply Hc|exact E].
Qed.

(** The title at [/app0], read-only; its saved data at [/save]. *)
Definition mounted : FsState := fs_history [CMount (text_of "/g/game") (text_of "/app0/") true; CMount (text_of "/g/save") (text_of "/save") false] std_state.

Lemma std_reach host : fs_reach host std_state.
Proof. apply fr_start. vm_compute. reflexivity. Qed.

Lemma mounted_reach : fs_reach demo_host mounted.
Proof. apply fs_history_reach; [apply std_reach|]. repeat constructor. Qed.



Lemma handle_table_refines_witness : exists h s', CreateHandle mounted = (h, s') /\ least_free h mounted.
Proof. destruct (handle_table_refines demo_host mounted mounted_reach) as ((h & s' & E & L & _) & _). exists h, s'. exact (conj E L). Defined.

Lemma open_exact_witness : exists s', open demo_host (text_of "/app0/DATA.BIN") 0 mounted = Done (3, s') /\ least_free 3 mounted.
Proof.
  assert (E : exists s', open demo_host (text_of "/app0/DATA.BIN") 0 mounted = Done (3, s')) by (eexists; vm_compute; reflexivity). destruct E as [s' E].
  pose proof (open_exact demo_host (text_of "/app0/DATA.BIN") 0 mounted mounted_reach) as H. rewrite E in H. exists s'. split; [exact E|]. destruct H as [[H _]|[H _]]; [discriminate H|exact H].
Defined.

Lemma read_only_untouched_witness : exists l, host_ops (fs_history [COpen (text_of "/app0/eboot.bin") 0x402] mounted) = [] ++ l /\ Forall reading l.
Proof.
  refine (read_only_untouched demo_host (COpen (text_of "/app0/eboot.bin") 0x402) mounted (-1) _ (text_of "/app0/eboot.bin") mounted_reach _ _ _); [apply list_elem_of_here|vm_compute; reflexivity..].
Defined.


(** A queue with the handle 3. *)
Definition queue_fs : FsState := match reserve_handle FileType.Equeue None std_state with Done (_, s) => s | Raised _ => std_state end.
Definition queue_eq : EqState := history [CKqueue 3] (eq_start 0).

Lemma queue_joint : joint_reach demo_host queue_fs queue_eq.
Proof.
  eapply jr_step; [apply (jr_start demo_host std_state 0); vm_compute; reflexivity|]. eapply (js_create demo_host std_state (eq_start 0) (CKqueue 3) 3 queue_fs); [by left|vm_compute; reflexivity|vm_compute; reflexivity|vm_compute; reflexivity].
Qed.

Lemma queue_handles_fresh_witness : eq_reach any_call queue_eq /\ is_queue 3 queue_fs.
Proof.
  destruct (queue_handles_fresh demo_host queue_fs queue_eq queue_joint) as [H1 H2]. split; [exact H1|]. apply H2. vm_compute. eexists. reflexivity.
Defined.

(** A title with the file [a] and the folder [b], and modifications [b] and [c].  As
    on a real host every folder has [.] and [..] too. *)
Definition listing_paths : list text := text_of <$> ["/g"; "/g/."; "/g/.."; "/g/a"; "/g/b"; "/g-mods"; "/g-mods/."; "/g-mods/.."; "/g-mods/b"; "/g-mods/c"]%string.
Definition listing_host (ops : list HostOp) : HostView :=
  mkView (fun p => Done (bool_decide (p ∈ listing_paths))) (fun p => Done (bool_decide (p = text_of "/g/b"))) (fun _ => Done false)
    (fun p => if bool_decide (p = text_of "/g") then Done (text_of <$> ["a"; "b"]%string) else if bool_decide (p = text_of "/g-mods") then Done (text_of <$> ["b"; "c"]%string) else Raised Uncaught)
    (fun _ _ => (2, false)) (fun _ => false) (fun _ => false) (fun _ => false) (fun _ _ => false).
Definition listing_state : FsState := Mount (text_of "/g") (text_of "/app0") true std_state.
Definition listing_known : list text := text_of <$> ["a"; "b"; "b"; "c"]%string.

Lemma has_entries_by v known folder l : forallb (fun n => match v_exists v (path_append folder n) with Done b => Bool.eqb b (bool_decide (n ∈ l)) | Raised _ => false end) known = true ->
  list_if_exists v folder = Done l -> NoDup l -> has_entries v known folder l.
Proof.
  intros He Hl Hd. split; [|done|done]. intros n Hn. rewrite forallb_forall in He. specialize (He n (proj1 (list_elem_of_In _ _) Hn)).
  destruct (v_exists v _) as [b|]; [|done]. by apply Bool.eqb_prop in He as ->.
Qed.

Lemma listing_base : has_entries (view listing_host listing_state) listing_known (text_of "/g") (text_of <$> ["a"; "b"]%string).
Proof. apply has_entries_by; [vm_compute; reflexivity..|]. vm_compute. repeat constructor; set_solver. Qed.

Lemma listing_patch : has_entries (view listing_host listing_state) listing_known (text_of "/g-patch") [].
Proof. apply has_entries_by; [vm_compute; reflexivity..|constructor]. Qed.

Lemma listing_mods : has_entries (view listing_host listing_state) listing_known (text_of "/g-mods") (text_of <$> ["b"; "c"]%string).
Proof. apply has_entries_by; [vm_compute; reflexivity..|]. vm_compute. repeat constructor; set_solver. Qed.

Lemma IterateDirectory_merges_witness : exists names,
  IterateDirectory listing_host (text_of "/app0") listing_state =
    Done ((text_of "/g/.", false) :: (text_of "/g/..", false) :: (entry_of (text_of "/g") (text_of "/g-patch") (text_of "/g-mods") [] (text_of <$> ["b"; "c"]%string) (fun p => bool_decide (p = text_of "/g/b")) <$> names), listing_state) /\ NoDup names.
Proof.
  destruct (IterateDirectory_merges listing_host (text_of "/app0") listing_state (text_of "/g") (text_of "/g-patch") (text_of "/g-mods") (Some true) (Some true) (Some true) listing_state listing_state listing_state
    (text_of <$> ["a"; "b"]%string) [] (text_of <$> ["b"; "c"]%string) (fun p => bool_decide (p = text_of "/g/b"))) as (names & E & Hn & _); [vm_compute; reflexivity..|exact listing_base|exact listing_patch|exact listing_mods|done|].
  exists names. split; [exact E|exact Hn].
Defined.

(** A name in another case is found, and two slashes count as one. *)
Example other_case_found : (let! '(r, _, _) := GetHostPath demo_host (text_of "/app0//DATA.BIN") HostPathType.Default mounted in Done r) = Done (text_of "/g/game/Data.bin").
Proof. vm_compute. reflexivity. Qed.

(** ** Unexpected runs *)

(** Of three slashes two remain, and what follows them counts as an absolute path of
    the host. *)
Example three_slashes_escape : (let! '(r, _, _) := GetHostPath demo_host (text_of "/app0///etc/passwd") HostPathType.Default mounted in Done r) = Done (text_of "/etc/passwd").
Proof. vm_compute. reflexivity. Qed.

(** A path that goes on below a file ends the emulator with an exception. *)
Example below_a_file_throws : open demo_host (text_of "/app0/eboot.bin/x") 0 mounted = Raised Uncaught.
Proof. vm_compute. reflexivity. Qed.

(** With a relative host folder a file that is there is not found: the search below
    the folder of the modifications, which does not exist, succeeds with the empty
    path. *)
Example relative_folder_hides_files :
  (let s := fs_history [CMount (text_of "game") (text_of "/app0") true] std_state in
   let! e := v_exists (view demo_host s) (text_of "game/eboot.bin") in
   let! '(r, _, _) := GetHostPath demo_host (text_of "/app0/eboot.bin") HostPathType.Default s in Done (e, r)) = Done (true, []).
Proof. vm_compute. reflexivity. Qed.

(** [GetEpoll] and [GetResolver] use the null pointer of a handle that was closed. *)
Example closed_handle_dereferenced : (let s := fs_history [CReserve FileType.Epoll None; CRelease 3] std_state in (GetSocket 3 s, GetEpoll 3 s, GetResolver 3 s)) = (Done None, Raised Undefined, Raised Undefined).
Proof. vm_compute. reflexivity. Qed.

(** A file that is not in the table has the descriptor of the standard input. *)
Example unknown_file_is_stdin : GetFileDescriptor 77 std_state = 0.
Proof. vm_compute. reflexivity. Qed.

(** When the guest closes the descriptor of a queue, the queue keeps its name; the next
    file gets the handle, and deleting the queue takes it away from the file. *)
Example closed_queue_deletes_file :
  (let! '(h, s) := reserve_handle FileType.Equeue None mounted in
   let! '(_, e) := run_eq (CKqueue h) (eq_start 0) in
   let! '(_, s) := close h s in
   let! '(fd, s) := open demo_host (text_of "/app0/eboot.bin") 0 s in
   let! s' := DeleteHandle h s in
   Done (h, fd, bool_decide (GetEqueue h e = None), match handle fd s with None => true | _ => false end, match handle fd s' with None => true | _ => false end)) = Done (3, 3, false, false, true).
Proof. vm_compute. reflexivity. Qed.
